(* ===== verification/_CoqProject ===== *)
-Q . S2P
Prelude.v
Basic.v
Protocol.v
Handshake.v
HandshakeParsed.v
HandshakeLegacy.v
Proxy.v
Log.v
TimeUtil.v
Relay.v
Metrics.v
ResolverUtil.v
Cache.v
RouteTable.v
Config.v
Hosts.v
Bindings.v
Resolution.v
Generation.v
Endpoint.v
Setup.v
SetupLong.v
Ipc.v
IpcAssembly.v
Dns.v
DnsCoherent.v
DnsAnswers.v
Helper.v
HelperServes.v
Stateful.v
Dll.v
Supervisor.v
SupervisorDelay.v
SupervisorInv.v
SupervisorJobs.v
SupervisorHelpers.v
SupervisorSteps.v
SupervisorReplies.v
SupervisorTimers.v
SupervisorRequests.v
SupervisorLife.v
SupervisorStops.v
SupervisorSafe.v
