(* ===== verification/Prelude.v ===== *)
(** * mcrelay: a verification development

    mcrelay is a reverse proxy for Minecraft servers.  A listener process accepts clients,
    reads their first packet, looks the requested host up in a route table and connects
    them to the server of the route: a server-list ping is served in the listener itself,
    a login is handed to a worker process, which relays bytes until one side closes.  Names
    are resolved by two disposable helper processes, which a supervisor in the listener
    feeds with queries and whose answers go to a cache shared by the route generations.

    The development translates the C functions into definitions and proves theorems about
    those.  File names below are those of [src/src/].

    ** Conventions

    - Bytes are [Z] in [0, 256), machine integers are [Z] with the conversions [u8] to
      [u64] where the code can wrap around; sizes are those of the LP64 data model.
    - A pointer with its size is the list of the bytes it points to and [None] is NULL; a
      [char] array is the list of its bytes before the first NUL.
    - Undefined behaviour is a value: [Oob] of the monad [run], [None] of the functions that
      use a heap, [fault] of the programs of [Stateful].  Theorems that a result is not that
      value are the memory-safety theorems.
    - Answers of the kernel, the allocator, the clock and the name servers are arguments:
      lists the functions consume in the order of their calls.  A theorem for all lists
      holds whatever the outside does.
    - Libraries that are not part of the sources (libresolv's message parser, cJSON,
      [inet_pton] and [inet_ntop], [vsnprintf]) are parameters, with what the code relies on as named hypotheses ([nameser_laws], [cJSON_document],
      [inet_laws]); the witnesses instantiate them.

    ** Files

    - [Prelude]: notations, machine integers, the monad [run], tactics ([if_as], [lens],
      [zlia], [bytes_ok]) and the lemmas on lists and integers the components share.
    - [Basic] (basic.c): variable-length integers, base64, escaping, string helpers.
    - [Protocol] (protocol/common.c): recognising the protocol and the length of the first
      packet.  It never reads outside what was received, and its verdicts are final.
    - [Handshake], [HandshakeParsed], [HandshakeLegacy] (protocol/handshake.c,
      handshake_legacy.c): reading and writing handshake packets; safety and round trips.
    - [Proxy] (protocol/proxy.c, addresses of network.c): PROXY headers; round trip.
    - [Log] (log.c, [freadall] of basic.c): one line of visible characters per message.
    - [TimeUtil] (timeutil.c), [Metrics] (metrics.c), [ResolverUtil] (resolver/util.c).
    - [Relay] ([net_relay] of network.c): what is delivered is a prefix of what came in.
    - [Cache] (resolver/cache.c): well-formedness, reference counts, lifetimes.
    - [RouteTable] (route/table.c), [Config] (config.c), [Hosts] (resolver/hosts.c): exact
      results of building the table, parsing the configuration and loading the hosts file.
    - [Bindings] (route/bindings.c), [Resolution] (the data of route/resolution.c),
      [Generation] (route/generation.c, generation_registry.c), [Endpoint]
      (route/endpoint.c): ownership of cache references, of generations, and which endpoint
      a connection gets.
    - [Setup], [SetupLong] (connection/setup.c, setup_short.c, setup_long.c): what is sent
      to a server on behalf of a client, and that no descriptor is lost.
    - [Ipc], [IpcAssembly] (resolver/ipc.c, ipc_assembly.c): the packets between helper and
      listener, their assembly into responses and the budget of bytes it runs under.
    - [Dns], [DnsCoherent], [DnsAnswers] (resolver/dns.c): parsing of responses and the
      lookup, which ends; what it finds is what the responses hold.
    - [Helper], [HelperServes] (resolver/helper.c): the helper process; what it sends is
      what the assembly of the listener accepts, for the result of the lookup it made.
    - [Stateful]: record updates and the state monad [prog] with its weakest preconditions;
      [Dll]: intrusive doubly linked lists and the lists they represent.
    - [Supervisor] (resolver/supervisor.c): jobs, queues, helpers, retries, timers, shutdown;
      [SupervisorDelay]: its delays; [SupervisorInv]: its invariant and the pointer-level
      queue operations; [SupervisorJobs], [SupervisorHelpers], [SupervisorSteps],
      [SupervisorReplies], [SupervisorTimers], [SupervisorRequests], [SupervisorLife]: the
      operations on jobs and helpers, dispatch, replies, timers, the requests of callers,
      creation and destruction keep it; [SupervisorStops]: what a turn of events leaves of
      a shutdown; [SupervisorSafe]: the states any sequence of calls reaches, and what
      holds in them: no memory error, exact ownership, consistent jobs, work conservation,
      and that a shutdown ends.

    ** How the parts interact

    [Config] gives [RouteTable] its routes, [RouteTable], [Hosts] and [Cache] give [Bindings]
    theirs, and [Generation] owns one load of them.  [Endpoint] reads the bindings and the
    cache; [Setup] and [SetupLong] take its snapshot with the bytes [Protocol] and
    [Handshake] recognise, and [Relay] runs after [SetupLong].  [Supervisor] runs jobs for
    entries of the [Cache] through [Ipc], [IpcAssembly] and [Helper]; theorem
    [HelperServes.lookup_reaches_parent] joins the two ends of that channel.

    ** Bounds and fuel

    Loops that the code bounds run on the data they go through.  The others have fuel: the
    doubling of delays (64 rounds, a 64-bit number doubles at most that often), the alias
    chain of a lookup (one round more than the limit on aliases), the destruction of the
    budget (one round per assembly), the dispatch loop (one round per job), the loop of the
    helper (one round more than there are records to receive).  Running out of fuel is a fault or a visible result, never an answer of the code, and the theorems show
    that it does not occur.

    ** Not modelled

    - listener.c, listener_metrics.c: the event loop, signals, process management and the
      text of the metrics, made of system calls on state that other parts own.
    - main.c: command line and daemon set-up.
    - route/resolution.c, route/waiter.c, route/prewarmer.c: only the data [Endpoint] and
      [Generation] read.
    - resolver/hosts_watch.c: inotify.
    - The test interfaces ([..._TEST_API]) and define/: constants are repeated where used. *)

From Stdlib Require Export ZArith Lia ZifyBool.
From Stdlib Require Import String Ascii.
From stdpp Require Export base list option numbers.
#[global] Open Scope Z_scope.

(** ** Notations *)

Declare Scope mrs_scope.
Delimit Scope mrs_scope with mrs.
#[global] Open Scope mrs_scope.

Abbreviation bytes := (list Z).
Abbreviation len l := (Z.of_nat (length l)).

(** ** Machine integers

    A [w]-bit unsigned C integer is a [Z] in [[0, 2^w)]; the conversions below
    are the C conversions, with the wrap-around written out. *)

Definition u8 (x : Z) : Z := x mod 2 ^ 8.
Definition u16 (x : Z) : Z := x mod 2 ^ 16.
Definition u32 (x : Z) : Z := x mod 2 ^ 32.
Definition u64 (x : Z) : Z := x mod 2 ^ 64.

(** [src/src/define/global.h] *)
Definition ADDRESS_MAXLEN : Z := 1024.

Definition UINT8_MAX : Z := 255.
Definition UINT16_MAX : Z := 65535.
Definition UINT32_MAX : Z := 4294967295.
Definition UINT64_MAX : Z := 18446744073709551615.
Definition SIZE_MAX : Z := UINT64_MAX.
Definition INT_MAX : Z := 2147483647.

(** Numbers of [errno] on Linux. *)
Definition ENOMEM : Z := 12.
Definition EINVAL : Z := 22.

(** Stdio's buffer size constant of glibc on Linux. *)
Definition BUFSIZ : Z := 8192.

Definition is_byte (b : Z) : Prop := 0 <= b < 256.
Definition is_bytes (l : bytes) : Prop := Forall is_byte l.
(** A C string is the list of its bytes before the terminating NUL. *)
Definition is_cstr (l : bytes) : Prop := Forall (fun b => 1 <= b < 256) l.

Definition chr_upper (c : Z) : bool := (65 <=? c) && (c <=? 90).
(** [character >= 'A' && character <= 'Z' ? character - 'A' + 'a' : character],
    the case folding every name routine of the program uses. *)
Definition chr_lower (c : Z) : Z := if chr_upper c then c - 65 + 97 else c.

(** ** Computations with early return and checked memory accesses

    [Next a] continues with [a]; [Return e] is a C [return e] (or a jump to the
    clean-up label) before the end of the body; [Oob] is an access outside the
    object it is made in, undefined behaviour in C. *)

Inductive run (E A : Type) : Type :=
  | Next (a : A)
  | Return (e : E)
  | Oob.
Arguments Next {E A} _.
Arguments Return {E A} _.
Arguments Oob {E A}.

#[export] Instance run_ret E : MRet (run E) := fun A a => Next a.
#[export] Instance run_bind E : MBind (run E) := fun A B f r =>
  match r with
  | Next a => f a
  | Return e => Return e
  | Oob => Oob
  end.

(** What the function returns: the value of an early return or of the last
    statement; [None] when it made an out-of-bounds access. *)
Definition outcome {A} (r : run A A) : option A :=
  match r with
  | Next a => Some a
  | Return a => Some a
  | Oob => None
  end.

(** Leave a callee whose early return is an error the caller handles with [k]. *)
Definition catch {E F A} (r : run E A) (k : E -> F) : run F A :=
  match r with
  | Next a => Next a
  | Return e => Return (k e)
  | Oob => Oob
  end.

Definition safe {E A} (r : run E A) : Prop := r <> Oob.

(** Allocations whose answers are taken from a list, and succeed once it is
    used up. *)

Definition next_alloc (allocs : list bool) : bool * list bool :=
  match allocs with [] => (true, []) | a :: allocs => (a, allocs) end.

Definition all_succeed (allocs : list bool) : bool := forallb id allocs.

(** ** Checked buffer accesses; a buffer is the list of the bytes of the object. *)

Definition rd8 {E} (buf : bytes) (i : Z) : run E Z :=
  if (0 <=? i) && (i <? len buf) then Next (default 0 (buf !! Z.to_nat i)) else Oob.

(** The bytes [buf[off .. off + n)], unchecked. *)
Definition slice (buf : bytes) (off n : Z) : bytes :=
  take (Z.to_nat n) (drop (Z.to_nat off) buf).

(** [memcpy] of [n] bytes from [buf + off]. *)
Definition rdn {E} (buf : bytes) (off n : Z) : run E bytes :=
  if (0 <=? off) && (0 <=? n) && (off + n <=? len buf) then Next (slice buf off n) else Oob.

(** Index of the first byte [c] of [l], if any. *)
Fixpoint index_of (c : Z) (l : bytes) : option Z :=
  match l with
  | [] => None
  | b :: l => if b =? c then Some 0 else (fun i => i + 1) <$> index_of c l
  end.

(** [memchr(buf + off, c, n)], as an offset into [buf]. *)
Definition memchr {E} (buf : bytes) (off n c : Z) : run E (option Z) :=
  if (0 <=? off) && (0 <=? n) && (off + n <=? len buf)
  then Next ((fun i => off + i) <$> index_of c (slice buf off n)) else Oob.

(** ** String literals *)

(** The bytes of a string literal. *)
Fixpoint str (s : string) : bytes :=
  match s with
  | EmptyString => []
  | String c s => Z.of_N (N_of_ascii c) :: str s
  end.

(** The bytes of a JSON literal, written with an apostrophe for each quotation mark. *)
Definition json (s : string) : bytes :=
  (fun c => if c =? 39 then 34 else c) <$> str s.

(** The C string a buffer holds: its bytes before the first NUL. *)
Fixpoint cstr (buf : bytes) : bytes :=
  match buf with
  | [] => []
  | b :: buf => if b =? 0 then [] else b :: cstr buf
  end.

(** [snprintf(dst, size, "%s", s)] for [size > 0]: the bytes before the NUL it stores. *)
Definition snprintf_s (size : Z) (s : bytes) : bytes := take (Z.to_nat (size - 1)) s.

(** Decimal digits of a non-negative integer, [%u] and [%hu]. *)
Fixpoint digits (fuel : nat) (n : Z) (acc : bytes) : bytes :=
  match fuel with
  | O => acc
  | S fuel => let acc := 48 + n mod 10 :: acc in
      if n / 10 =? 0 then acc else digits fuel (n / 10) acc
  end.
Definition decimal (n : Z) : bytes := digits 20 n [].

(** ** Automation *)

Create HintDb mrs.

Ltac split_if :=
  match goal with
  | |- context [if ?b then _ else _] => let E := fresh "Eb" in destruct b eqn:E
  | H : context [if ?b then _ else _] |- _ => let E := fresh "Eb" in destruct b eqn:E
  end.

Ltac split_ifs := repeat split_if.

(** Case analysis on the condition of the outermost [if] of the goal. *)
Ltac if_as E :=
  match goal with
  | |- context [if ?b then _ else _] => destruct b eqn:E
  end.

(** Case analysis on the innermost scrutinee of a [match] of the goal or of [H]. *)
Ltac split_match :=
  match goal with
  | |- context [match ?x with _ => _ end] =>
      lazymatch x with
      | context [match _ with _ => _ end] => fail
      | _ => let E := fresh "Em" in destruct x eqn:E
      end
  end.

Ltac split_match_in H :=
  match type of H with
  | context [match ?x with _ => _ end] =>
      lazymatch x with
      | context [match _ with _ => _ end] => fail
      | _ => let E := fresh "Em" in destruct x eqn:E
      end
  end.

(** [lia] with [/] and [mod] by constants eliminated. *)
(** Settle the decisions [done] can settle. *)
Ltac decide_now :=
  repeat match goal with
  | |- context [decide ?P] => first [rewrite (decide_False (P:=P)) by done | rewrite (decide_True (P:=P)) by done]
  end.

(** Closed facts on concrete bytes. *)
Ltac bytes_ok := repeat constructor; unfold is_byte; vm_compute; intuition congruence.

Ltac zlia := Z.to_euclidean_division_equations; lia.

(** ** Lemmas on machine integers and bits *)

Lemma u8_range x : is_byte (u8 x).
Proof. apply Z.mod_pos_bound. lia. Qed.

Lemma u8_id x : is_byte x -> u8 x = x.
Proof. unfold u8, is_byte. intros. apply Z.mod_small. lia. Qed.

Lemma u16_id x : 0 <= x < 2 ^ 16 -> u16 x = x.
Proof. apply Z.mod_small. Qed.

Lemma u32_id x : 0 <= x < 2 ^ 32 -> u32 x = x.
Proof. apply Z.mod_small. Qed.

Lemma u64_id x : 0 <= x < 2 ^ 64 -> u64 x = x.
Proof. apply Z.mod_small. Qed.

#[export] Hint Resolve u8_range : mrs.

(** A boolean property of bytes is decided by evaluating it on all of them. *)
Lemma byte_forall (P : Z -> bool) :
  forallb P (seqZ 0 256) = true -> forall b, is_byte b -> P b = true.
Proof.
  intros H b Hb. rewrite forallb_forall in H. apply H.
  apply list_elem_of_In, elem_of_seqZ. unfold is_byte in Hb. lia.
Qed.

Lemma land_mod a n : 0 <= n -> Z.land a (Z.ones n) = a mod 2 ^ n.
Proof. apply Z.land_ones. Qed.

Lemma land_127 a : Z.land a 127 = a mod 128.
Proof. apply (Z.land_ones a 7). lia. Qed.

Lemma land_255 a : Z.land a 255 = a mod 256.
Proof. apply (Z.land_ones a 8). lia. Qed.

(** Disjoint bit fields add up. *)
Lemma lor_add a b n : 0 <= n -> 0 <= a < 2 ^ n -> Z.lor a (Z.shiftl b n) = a + b * 2 ^ n.
Proof.
  intros Hn Ha. rewrite <- Z.shiftl_mul_pow2 by done.
  assert (Hd : Z.land a (Z.shiftl b n) = 0); [|symmetry; rewrite <- Z.lxor_lor by done; by apply Z.add_nocarry_lxor].
  apply Z.bits_inj'. intros i Hi.
  rewrite Z.land_spec, Z.bits_0.
  destruct (Z.lt_ge_cases i n).
  - rewrite Z.shiftl_spec_low by lia. apply andb_false_r.
  - assert (Z.testbit a i = false) as ->; [|done].
    destruct (decide (a = 0)) as [->|]; [apply Z.bits_0|].
    apply Z.bits_above_log2; [lia|].
    assert (Z.log2 a < n) by (apply Z.log2_lt_pow2; lia). lia.
Qed.

(** ** Lemmas on lists and slices *)

Lemma len_app {A} (l k : list A) : len (l ++ k) = len l + len k.
Proof. rewrite length_app. lia. Qed.

Lemma len_cons {A} (x : A) l : len (x :: l) = 1 + len l.
Proof. simpl length. lia. Qed.

Lemma len_nil {A} : len (@nil A) = 0.
Proof. done. Qed.

(** [lia] on lengths of concatenations. *)
Ltac lens := repeat (rewrite ?len_app, ?len_cons, ?len_nil in *); lia.

Lemma len_slice buf off n :
  0 <= off -> 0 <= n -> off + n <= len buf -> len (slice buf off n) = n.
Proof. intros. unfold slice. rewrite length_take, length_drop. lia. Qed.

Lemma is_bytes_app l k : is_bytes (l ++ k) <-> is_bytes l /\ is_bytes k.
Proof. apply Forall_app. Qed.

Lemma is_bytes_slice buf off n : is_bytes buf -> is_bytes (slice buf off n).
Proof. intros. unfold slice. by apply Forall_take, Forall_drop. Qed.

Lemma is_cstr_bytes l : is_cstr l -> is_bytes l.
Proof. apply Forall_impl. unfold is_byte. lia. Qed.

#[export] Hint Resolve is_bytes_slice is_cstr_bytes : mrs.

Lemma slice_app_mid pre mid post :
  slice (pre ++ mid ++ post) (len pre) (len mid) = mid.
Proof. unfold slice. by rewrite !Nat2Z.id, drop_app_length, take_app_length. Qed.

Lemma slice_split buf off n :
  0 <= off -> 0 <= n -> off + n <= len buf ->
  buf = slice buf 0 off ++ slice buf off n ++ drop (Z.to_nat (off + n)) buf.
Proof.
  intros. unfold slice. change (Z.to_nat 0) with 0%nat. rewrite drop_0.
  replace (Z.to_nat (off + n)) with (Z.to_nat off + Z.to_nat n)%nat by lia.
  by rewrite <- drop_drop, take_drop, take_drop.
Qed.

Lemma rd8_safe {E} buf i : 0 <= i < len buf -> exists b, rd8 (E:=E) buf i = Next b.
Proof. intros. unfold rd8. split_ifs; [eauto | lia]. Qed.

Lemma rd8_mid {E} pre b post : rd8 (E:=E) (pre ++ b :: post) (len pre) = Next b.
Proof.
  unfold rd8. rewrite len_app, len_cons. split_ifs; [|lia].
  rewrite Nat2Z.id, list_lookup_middle by done. done.
Qed.

Lemma rd8_byte {E} buf i b : is_bytes buf -> rd8 (E:=E) buf i = Next b -> is_byte b.
Proof.
  unfold rd8. intros Hb. split_ifs; [|done]. intros [= <-].
  destruct (buf !! Z.to_nat i) eqn:E1; simpl.
  - by eapply Forall_lookup_1 in E1.
  - unfold is_byte. lia.
Qed.

Lemma rd8_next {E} buf i : is_bytes buf -> 0 <= i < len buf ->
  exists b, rd8 (E:=E) buf i = Next b /\ is_byte b.
Proof. intros Hb Hi. destruct (rd8_safe (E:=E) buf i Hi) as [b Hr]. eauto using rd8_byte. Qed.

Lemma rd8_app {E} buf more i : 0 <= i < len buf -> rd8 (E:=E) (buf ++ more) i = rd8 buf i.
Proof.
  intros. unfold rd8. rewrite len_app, lookup_app_l by lia.
  replace (i <? len buf + len more) with true by lia. replace (i <? len buf) with true by lia. done.
Qed.

(** Step over a checked read whose index is in range. *)
Ltac rd_next :=
  match goal with
  | |- context [mbind _ (rd8 (E:=?E) ?buf ?i)] =>
      let b := fresh "b" in let Hr := fresh "Hr" in let Hb := fresh "Hb" in
      destruct (rd8_next (E:=E) buf i) as (b & Hr & Hb);
      [try done; eauto with mrs | try lia | rewrite Hr; cbn [mbind run_bind]; unfold is_byte in Hb]
  end.

Lemma rdn_mid {E} pre mid post n :
  n = len mid -> rdn (E:=E) (pre ++ mid ++ post) (len pre) n = Next mid.
Proof.
  intros ->. unfold rdn. rewrite !len_app. split_ifs; [|lia]. by rewrite slice_app_mid.
Qed.

Lemma rdn_safe {E} buf off n :
  0 <= off -> 0 <= n -> off + n <= len buf -> rdn (E:=E) buf off n = Next (slice buf off n).
Proof. intros. unfold rdn. split_ifs; [done|lia]. Qed.

Lemma index_of_Some c l i :
  index_of c l = Some i -> 0 <= i < len l /\ l !! Z.to_nat i = Some c /\ Forall (fun b => b <> c) (take (Z.to_nat i) l).
Proof.
  revert i. induction l as [|b l IH]; intros i; simpl; [done|].
  destruct (b =? c) eqn:E.
  - intros [= <-]. apply Z.eqb_eq in E as ->. simpl. split; [lia|]. split; [done|constructor].
  - destruct (index_of c l) as [j|]; simpl; [|done]. intros [= <-].
    destruct (IH j) as (Hj & Hl & Hf); [done|].
    replace (Z.to_nat (j + 1)) with (S (Z.to_nat j)) by lia. simpl.
    split; [lia|]. split; [done|]. constructor; [lia|done].
Qed.

Lemma index_of_None c l : index_of c l = None <-> Forall (fun b => b <> c) l.
Proof.
  induction l as [|b l IH]; simpl; [done|].
  destruct (b =? c) eqn:E.
  - split; [done|]. inversion 1; lia.
  - split; intros H.
    + constructor; [lia|]. apply IH. by destruct (index_of c l).
    + inversion H as [|? ? ? Hl]; subst. apply IH in Hl. by rewrite Hl.
Qed.

Lemma index_of_app_skip c l k : Forall (fun b => b <> c) l ->
  index_of c (l ++ k) = (fun i => len l + i) <$> index_of c k.
Proof.
  induction 1 as [|b l Hb Hl IH]; simpl.
  - destruct (index_of c k); simpl; [f_equal; lia|done].
  - destruct (b =? c) eqn:E; [lia|]. rewrite IH. destruct (index_of c k); simpl; [f_equal; lia|done].
Qed.

Lemma memchr_safe {E} buf off n c :
  0 <= off -> 0 <= n -> off + n <= len buf ->
  memchr (E:=E) buf off n c = Next ((fun i => off + i) <$> index_of c (slice buf off n)).
Proof. intros. unfold memchr. split_ifs; [done|lia]. Qed.

Lemma memchr_mid {E} pre mid post n c : n = len mid ->
  memchr (E:=E) (pre ++ mid ++ post) (len pre) n c = Next ((fun i => len pre + i) <$> index_of c mid).
Proof.
  intros ->. rewrite memchr_safe by (rewrite ?len_app; lia). by rewrite slice_app_mid.
Qed.

(** ** Cursors

    [at_off mem off rest]: the bytes of [mem] from offset [off] on are [rest]. *)

Definition at_off (mem : bytes) (off : Z) (rest : bytes) : Prop :=
  exists pre, mem = pre ++ rest /\ off = len pre.

Lemma at_off_start mem : at_off mem 0 mem.
Proof. by exists []. Qed.

Lemma at_off_skip mem off l rest : at_off mem off (l ++ rest) -> at_off mem (off + len l) rest.
Proof. intros (pre & -> & ->). exists (pre ++ l). split; [by rewrite app_assoc|lens]. Qed.

Lemma at_off_len mem off rest : at_off mem off rest -> len mem = off + len rest /\ 0 <= off.
Proof. intros (pre & -> & ->). lens. Qed.

Lemma at_off_rd8 {E} mem off b rest : at_off mem off (b :: rest) -> rd8 (E:=E) mem off = Next b.
Proof. intros (pre & -> & ->). apply rd8_mid. Qed.

Lemma at_off_rdn {E} mem off l rest n : at_off mem off (l ++ rest) -> n = len l -> rdn (E:=E) mem off n = Next l.
Proof. intros (pre & -> & ->) ?. by apply rdn_mid. Qed.

Lemma at_off_slice mem off l rest : at_off mem off (l ++ rest) -> slice mem off (len l) = l.
Proof. intros (pre & -> & ->). apply slice_app_mid. Qed.

Lemma at_off_all mem off l : at_off mem off l -> slice mem off (len l) = l.
Proof. intros H. apply (at_off_slice _ _ _ []). by rewrite app_nil_r. Qed.

Lemma at_off_memchr {E} mem off l rest n c : at_off mem off (l ++ rest) -> n = len l ->
  memchr (E:=E) mem off n c = Next ((fun i => off + i) <$> index_of c l).
Proof. intros (pre & -> & ->) ?. by apply memchr_mid. Qed.

(** ** C strings *)

Lemma cstr_id l : is_cstr l -> cstr l = l.
Proof. induction 1 as [|b l Hb Hl IH]; [done|]. simpl. replace (b =? 0) with false by lia. by rewrite IH. Qed.

Lemma cstr_app_nul l k : is_cstr l -> cstr (l ++ 0 :: k) = l.
Proof. induction 1 as [|b l Hb Hl IH]; [done|]. simpl. replace (b =? 0) with false by lia. by rewrite IH. Qed.

Lemma cstr_is_cstr l : is_bytes l -> is_cstr (cstr l).
Proof.
  induction 1 as [|b l Hb Hl IH]; simpl; [constructor|]. unfold is_byte in Hb.
  destruct (b =? 0) eqn:E; constructor; [lia|done].
Qed.

Lemma cstr_length l : len (cstr l) <= len l.
Proof. induction l as [|b l IH]; simpl; [lia|]. destruct (b =? 0); simpl length; lia. Qed.

Lemma is_cstr_nonzero l : is_cstr l -> Forall (fun c => c <> 0) l.
Proof. apply Forall_impl. lia. Qed.

(** ** Decimal numbers *)

Definition is_digit (c : Z) : bool := (48 <=? c) && (c <=? 57).

(** The value of the digits at the start of a string, added to [acc]. *)
Fixpoint read_digits (s : bytes) (acc : Z) : Z :=
  match s with
  | c :: s => if is_digit c then read_digits s (acc * 10 + (c - 48)) else acc
  | [] => acc
  end.

Lemma digits_shape fuel n acc : Forall (fun c => is_digit c = true) acc -> 0 <= n ->
  Forall (fun c => is_digit c = true) (digits fuel n acc).
Proof.
  revert n acc. induction fuel as [|fuel IH]; intros n acc Ha Hn; [done|]. cbn [digits].
  assert (Forall (fun c => is_digit c = true) (48 + n mod 10 :: acc)) by (constructor; [unfold is_digit; zlia|done]).
  destruct (n / 10 =? 0); [done|]. apply IH; [done|zlia].
Qed.

Lemma read_digits_app s t acc : Forall (fun c => is_digit c = true) s ->
  read_digits (s ++ t) acc = read_digits t (read_digits s acc).
Proof. intros H. revert acc. induction H as [|c s Hc Hs IH]; intros acc; [done|]. simpl. by rewrite Hc. Qed.

Lemma read_digits_decimal fuel n acc a : 0 <= n < 10 ^ Z.of_nat fuel ->
  read_digits (digits fuel n acc) a =
  read_digits acc (if fuel is O then a else read_digits (digits fuel n []) a).
Proof.
  revert n acc a. induction fuel as [|fuel IH]; intros n acc a Hn; [done|].
  rewrite Nat2Z.inj_succ, Z.pow_succ_r in Hn by lia. cbn [digits].
  assert (Hd : is_digit (48 + n mod 10) = true) by (unfold is_digit; zlia).
  destruct (n / 10 =? 0) eqn:E; [cbn [read_digits]; by rewrite Hd|].
  rewrite IH by zlia. cbn [read_digits]. rewrite Hd.
  rewrite (IH (n / 10) [48 + n mod 10]) by zlia. cbn [read_digits]. by rewrite Hd.
Qed.

Lemma digits_value fuel n : 0 <= n < 10 ^ Z.of_nat fuel -> (0 < fuel)%nat -> read_digits (digits fuel n []) 0 = n.
Proof.
  revert n. induction fuel as [|fuel IH]; intros n Hn Hf; [lia|].
  rewrite Nat2Z.inj_succ, Z.pow_succ_r in Hn by lia. cbn [digits].
  assert (Hd : is_digit (48 + n mod 10) = true) by (unfold is_digit; zlia).
  destruct (n / 10 =? 0) eqn:E; [cbn [read_digits]; rewrite Hd; zlia|].
  rewrite read_digits_decimal by zlia. destruct fuel as [|fuel]; [simpl in Hn; zlia|].
  rewrite IH by zlia. cbn [read_digits]. rewrite Hd. zlia.
Qed.

Lemma decimal_shape n : 0 <= n -> Forall (fun c => is_digit c = true) (decimal n).
Proof. intros. by apply digits_shape. Qed.

Lemma decimal_cstr n : 0 <= n -> is_cstr (decimal n).
Proof.
  intros Hn. pose proof (decimal_shape n Hn) as H. revert H. apply Forall_impl. unfold is_digit. lia.
Qed.

Lemma digits_length fuel n acc : 0 <= n -> (0 < fuel)%nat ->
  1 + len acc <= len (digits fuel n acc) <= Z.of_nat fuel + len acc.
Proof.
  revert n acc. induction fuel as [|fuel IH]; intros n acc Hn Hf; [lia|]. cbn [digits].
  destruct (n / 10 =? 0) eqn:E; [lens|]. destruct fuel as [|fuel]; [simpl; lia|].
  specialize (IH (n / 10) (48 + n mod 10 :: acc) ltac:(zlia) ltac:(lia)). lens.
Qed.

Lemma digits_enough n k acc : 0 <= n < 10 ^ Z.of_nat (S k) ->
  forall j, digits (S k + j) n acc = digits (S k) n acc.
Proof.
  revert n acc. induction k as [|k IH]; intros n acc Hn j.
  - cbn. replace (n / 10 =? 0) with true; [done|]. change (10 ^ Z.of_nat 1) with 10 in Hn. zlia.
  - change (S (S k) + j)%nat with (S (S k + j)). cbn [digits].
    destruct (n / 10 =? 0) eqn:E; [done|]. apply (IH (n / 10)).
    rewrite (Nat2Z.inj_succ (S k)), Z.pow_succ_r in Hn by lia. zlia.
Qed.

Lemma decimal_u32_length v : 0 <= v < 2 ^ 32 -> 1 <= len (decimal v) <= 10.
Proof.
  intros Hv. unfold decimal. change 20%nat with (10 + 10)%nat. rewrite digits_enough by (simpl; lia).
  pose proof (digits_length 10 v [] ltac:(lia) ltac:(lia)). lens.
Qed.

Lemma read_digits_le s acc : Forall (fun c => is_digit c = true) s -> 0 <= acc -> acc <= read_digits s acc.
Proof.
  intros H. revert acc. induction H as [|c s Hc Hs IH]; intros acc Ha; simpl; [lia|]. rewrite Hc.
  unfold is_digit in Hc. specialize (IH (acc * 10 + (c - 48)) ltac:(lia)). lia.
Qed.

Lemma decimal_value n : 0 <= n < 2 ^ 64 -> read_digits (decimal n) 0 = n.
Proof. intros. apply digits_value; [simpl; lia|lia]. Qed.

Lemma decimal_length n k : 0 <= n < 10 ^ Z.of_nat (S k) -> (k < 20)%nat -> 1 <= len (decimal n) <= Z.of_nat (S k).
Proof.
  intros Hn Hk. unfold decimal. replace 20%nat with (S k + (19 - k))%nat by lia. rewrite digits_enough by done.
  pose proof (digits_length (S k) n [] ltac:(lia) ltac:(lia)). lens.
Qed.

Lemma decimal_u16_length n : 0 <= n < 2 ^ 16 -> 1 <= len (decimal n) <= 5.
Proof. intros. apply (decimal_length n 4); [simpl; lia|lia]. Qed.

Lemma at_off_memchr_first {E} mem off t c rest n : at_off mem off (t ++ c :: rest) ->
  Forall (fun b => b <> c) t -> len t < n -> off + n <= len mem ->
  memchr (E:=E) mem off n c = Next (Some (off + len t)).
Proof.
  intros A Ht Hn Hm. pose proof (at_off_len _ _ _ A) as [Hl H0]. rewrite memchr_safe by lia.
  destruct A as (pre & -> & ->). unfold slice. rewrite Nat2Z.id, drop_app_length.
  replace (Z.to_nat n) with (length t + S (Z.to_nat n - S (length t)))%nat by lia.
  rewrite take_app_add. cbn [take]. rewrite index_of_app_skip by done. cbn [index_of]. rewrite Z.eqb_refl.
  cbn. do 2 f_equal. lia.
Qed.

Lemma next_alloc_spec allocs a rest : next_alloc allocs = (a, rest) -> all_succeed allocs = a && all_succeed rest.
Proof. destruct allocs as [|x allocs]; simpl; by intros [= <- <-]. Qed.
