(* ===== verification/Basic.v ===== *)
(** * Basic routines ([src/src/basic.c])

    Variable-length integers, base64, log escaping, the UTF-16 widening and
    narrowing of the legacy protocol and the small string helpers.  A source
    pointer with its size is the list of the bytes it points to, [None] for a
    NULL pointer; the bytes a function stores through its destination pointer
    are returned. *)

From Stdlib Require Import String.
From S2P Require Import Prelude.

(** ** Variable-length integers ([int2varint], [varint2int]) *)

Inductive varint_status := VARINT_COMPLETE | VARINT_INCOMPLETE | VARINT_INVALID.

Definition VARINT_T_MAXIDX : Z := 4 * 8 / 7.
Definition VARINT_T_LAST_MASK : Z := Z.shiftl 1 (4 * 8 mod 7) - 1.

(** The [do ... while (src > 0)] loop of [int2varint]; at most five rounds for a
    32-bit value. *)
Fixpoint int2varint_loop (fuel : nat) (src : Z) : bytes :=
  match fuel with
  | O => []
  | S fuel =>
      let byte := Z.lor (Z.land src 127) 128 in
      let src := Z.shiftr src 7 in
      byte :: (if 0 <? src then int2varint_loop fuel src else [])
  end.

(** [base[i - 1] = base[i - 1] & 0x7F]. *)
Fixpoint clear_last_flag (l : bytes) : bytes :=
  match l with
  | [] => []
  | [b] => [Z.land b 127]
  | b :: l => b :: clear_last_flag l
  end.

Definition int2varint (src : Z) : bytes := clear_last_flag (int2varint_loop 5 src).

(** The [for] loop of [varint2int]: [base] and [limit] are offsets into [mem]. *)
Fixpoint varint2int_loop (fuel : nat) (i : Z) (mem : bytes) (base limit result : Z)
    : run varint_status (Z * Z) :=
  match fuel with
  | O => Return VARINT_INVALID
  | S fuel =>
      if limit <=? base then Return VARINT_INCOMPLETE else
      byte ← rd8 mem base;
      let base := base + 1 in
      let result_single := Z.land byte 127 in
      if (i =? VARINT_T_MAXIDX)
         && (negb (Z.land byte 128 =? 0) || (VARINT_T_LAST_MASK <? result_single))
      then Return VARINT_INVALID else
      let result := Z.lor result (u32 (Z.shiftl result_single (i * 7))) in
      if Z.land byte 128 =? 0 then Next (result, base)
      else varint2int_loop fuel (i + 1) mem base limit result
  end.

(** [varint2int(mem + src, mem + limit, ...)]: the decoded value and the offset
    of the first unconsumed byte, or the status of the failure. *)
Definition varint2int (mem : bytes) (src limit : Z) : run varint_status (Z * Z) :=
  if limit <? src then Return VARINT_INVALID
  else varint2int_loop 5 0 mem src limit 0.

(** ** Base64 *)

Definition base64_map : bytes :=
  str "ABCDEFGHIJKLMNOPQRSTUVWXYZabcdefghijklmnopqrstuvwxyz0123456789+/".
Definition base64_char (k : Z) : Z := default 0 (base64_map !! Z.to_nat k).

(** One round of the loop: the four characters stored at [dst_ptr + i * 4]. *)
Definition base64_block (src : bytes) (full_blocks remainder i : Z) : run unit bytes :=
  let s := i * 3 in
  b0 ← rd8 src s;
  b1 ← (if (i <? full_blocks) || (1 <? remainder) then rd8 src (s + 1) else Next 0);
  b2 ← (if i <? full_blocks then rd8 src (s + 2) else Next 0);
  Next [ base64_char (Z.shiftr (Z.land b0 252) 2);
         base64_char (Z.lor (Z.shiftl (Z.land b0 3) 4) (Z.shiftr (Z.land b1 240) 4));
         if (i <? full_blocks) || (1 <? remainder)
         then base64_char (Z.lor (Z.shiftl (Z.land b1 15) 2) (Z.shiftr (Z.land b2 192) 6)) else 61;
         if i <? full_blocks then base64_char (Z.land b2 63) else 61 ].

Fixpoint base64_loop (n : nat) (i : Z) (src : bytes) (full_blocks remainder : Z) : run unit bytes :=
  match n with
  | O => Next []
  | S n => blk ← base64_block src full_blocks remainder i;
           out ← base64_loop n (i + 1) src full_blocks remainder;
           Next (blk ++ out)
  end.

Definition base64_encode (dst_cap : Z) (src : option bytes) : run unit bytes :=
  match src with
  | None => Next []
  | Some src =>
      if (dst_cap =? 0) || (len src =? 0) then Next [] else
      let full_blocks := len src / 3 in
      let remainder := len src mod 3 in
      let total_blocks := full_blocks + (if 0 <? remainder then 1 else 0) in
      if dst_cap <? total_blocks * 4
      then base64_loop (Z.to_nat (dst_cap / 4)) 0 src (dst_cap / 4) 0
      else base64_loop (Z.to_nat total_blocks) 0 src full_blocks remainder
  end.

(** ** Log escaping ([escape_default]) *)

Definition hexadecimal : bytes := str "0123456789abcdef".
Definition hex_char (k : Z) : Z := default 0 (hexadecimal !! Z.to_nat k).

(** The characters [unit[0 .. unit_size)] written for one source character. *)
Definition escape_unit (character : Z) : bytes :=
  if character =? 10 then [92; 110]
  else if character =? 13 then [92; 114]
  else if character =? 9 then [92; 116]
  else if character =? 92 then [92; 92]
  else if (character <? 32) || (127 <=? character)
  then [92; 120; hex_char (Z.shiftr character 4); hex_char (Z.land character 15)]
  else [character].

Fixpoint escape_loop (dst_size offset : Z) (src : bytes) : bytes :=
  match src with
  | [] => []
  | c :: src =>
      let unit := escape_unit c in
      if dst_size - offset - 1 <? len unit then []
      else unit ++ escape_loop dst_size (offset + len unit) src
  end.

(** The string stored in [dst] (without its NUL), [None] for a NULL result. *)
Definition escape_default (dst_size : Z) (src : option bytes) : option bytes :=
  match src with
  | None => None
  | Some src => if dst_size =? 0 then None else Some (escape_loop dst_size 0 src)
  end.

(** ** Widening and narrowing of legacy packets *)

Definition memcat (dst src : bytes) : bytes := dst ++ src.

Fixpoint packetexpand (source : bytes) : bytes :=
  match source with
  | [] => []
  | b :: source => 0 :: b :: packetexpand source
  end.

Definition packetshrink (source : option bytes) (target_capacity : Z) : bytes :=
  match source with
  | None => []
  | Some source =>
      let kept := List.filter (fun b => negb (b =? 0)) source in
      if target_capacity <? len kept then [] else kept
  end.

(** ** Paths and tokens *)

Definition resolve_path (path cwd : bytes) (out_size : Z) : option bytes :=
  if out_size =? 0 then None
  else match path with
       | 47 :: _ => Some (snprintf_s out_size path)
       | _ => Some (snprintf_s out_size (cwd ++ [47] ++ path))
       end.

(** The token stored in [dst] (if any) and the returned rest of the string;
    [delim] is not the NUL character. *)
Definition strtok_head (dst_size : Z) (src : bytes) (delim : Z) : option bytes * option bytes :=
  if dst_size =? 0 then (None, None)
  else match src with
       | [] => (Some [], None)
       | _ => match index_of delim src with
              | None => (Some (snprintf_s dst_size src), None)
              | Some length =>
                  let length' := if dst_size <=? length then dst_size - 1 else length in
                  (Some (take (Z.to_nat length') src), Some (drop (Z.to_nat (length + 1)) src))
              end
       end.

(** [strrchr]: offset of the last [c] of a string. *)
Definition strrchr (s : bytes) (c : Z) : option Z :=
  (fun i => len s - 1 - i) <$> index_of c (reverse s).

(** The string stored in a non-NULL [dst] of [dst_size] bytes (if any) and the
    returned offset; [alloc] tells whether the copy of [src] could be allocated. *)
Definition strtok_tail (alloc : bool) (dst_size : Z) (src : bytes) (delim : Z) : option bytes * Z :=
  if len src =? 0 then (Some [], 0)
  else if negb alloc then (None, len src)
  else
    let buffer := cstr src in
    let store s := if 0 <? dst_size then Some (snprintf_s dst_size s) else None in
    match strrchr buffer delim with
    | None => (store buffer, 0)
    | Some offset => (store (drop (Z.to_nat (offset + 1)) buffer), offset)
    end.

(** ** Variable-length integers: proofs *)

(** The seven-bit little-endian digits of [v], the high bit marking continuation. *)
Fixpoint varint_digits (fuel : nat) (v : Z) : bytes :=
  match fuel with
  | O => []
  | S fuel => if v <? 128 then [v] else (v mod 128 + 128) :: varint_digits fuel (v / 128)
  end.

Lemma flag_set v : 0 <= v -> Z.lor (Z.land v 127) 128 = v mod 128 + 128.
Proof.
  intros. rewrite land_127. change 128 with (Z.shiftl 1 7) at 2.
  rewrite lor_add by (change (2 ^ 7) with 128; zlia). reflexivity.
Qed.

Lemma flag_test b : is_byte b -> (Z.land b 128 =? 0) = (b <? 128).
Proof.
  intros Hb. apply Bool.eqb_prop, (byte_forall (fun b => Bool.eqb (Z.land b 128 =? 0) (b <? 128))).
  - vm_compute. reflexivity.
  - done.
Qed.

Lemma int2varint_loop_ne fuel v : int2varint_loop (S fuel) v <> [].
Proof. done. Qed.

Lemma int2varint_digits_gen fuel v :
  0 <= v < 128 ^ Z.of_nat fuel ->
  clear_last_flag (int2varint_loop fuel v) = varint_digits fuel v.
Proof.
  revert v. induction fuel as [|fuel IH]; intros v Hv; [done|].
  cbn [int2varint_loop varint_digits]. rewrite flag_set, Z.shiftr_div_pow2 by lia.
  change (2 ^ 7) with 128.
  replace (Z.of_nat (S fuel)) with (Z.of_nat fuel + 1) in Hv by lia.
  rewrite Z.pow_add_r in Hv by lia.
  destruct (0 <? v / 128) eqn:E.
  - replace (v <? 128) with false by zlia. destruct fuel as [|fuel].
    { simpl in Hv. zlia. }
    rewrite <- IH by zlia. cbn [int2varint_loop]. done.
  - replace (v <? 128) with true by zlia. simpl. rewrite land_127. f_equal. zlia.
Qed.

Lemma int2varint_digits v : 0 <= v < 2 ^ 32 -> int2varint v = varint_digits 5 v.
Proof. intros. apply int2varint_digits_gen. simpl. lia. Qed.

Lemma varint_digits_bytes fuel v : 0 <= v -> is_bytes (varint_digits fuel v).
Proof.
  revert v. induction fuel as [|fuel IH]; intros v Hv; simpl; [constructor|].
  unfold is_bytes, is_byte in *.
  destruct (v <? 128) eqn:E; repeat constructor; try zlia. apply IH. zlia.
Qed.

Lemma int2varint_bytes v : 0 <= v < 2 ^ 32 -> is_bytes (int2varint v).
Proof. intros. rewrite int2varint_digits by done. apply varint_digits_bytes. lia. Qed.

Lemma varint_digits_length fuel v :
  0 <= v < 128 ^ Z.of_nat fuel -> (0 < fuel)%nat -> 1 <= len (varint_digits fuel v) <= Z.of_nat fuel.
Proof.
  revert v. induction fuel as [|fuel IH]; intros v Hv Hf; simpl; [lia|].
  destruct (v <? 128) eqn:E; simpl; [lia|].
  replace (Z.of_nat (S fuel)) with (Z.of_nat fuel + 1) in Hv by lia.
  rewrite Z.pow_add_r in Hv by lia.
  destruct fuel as [|fuel]; [simpl in Hv; lia|].
  specialize (IH (v / 128)). lapply IH; [|zlia]. intros. lia.
Qed.

Lemma int2varint_length v : 0 <= v < 2 ^ 32 -> 1 <= len (int2varint v) <= 5.
Proof.
  intros. rewrite int2varint_digits by done. apply varint_digits_length; [simpl; lia|lia].
Qed.

Lemma int2varint_length2 v : 0 <= v < 16384 -> len (int2varint v) <= 2.
Proof.
  intros. rewrite int2varint_digits by lia. cbn [varint_digits].
  destruct (v <? 128); [simpl; lia|]. replace (v / 128 <? 128) with true by zlia. simpl. lia.
Qed.

Lemma digit_low b : 0 <= b < 128 -> Z.land b 127 = b.
Proof. intros. rewrite land_127. apply Z.mod_small. lia. Qed.

(** One round of the decoding loop on a byte [b] of the buffer. *)
Lemma varint2int_loop_step fuel i pre b post limit result :
  0 <= i <= 4 -> is_byte b -> len pre < limit -> 0 <= result < 2 ^ (7 * i) ->
  varint2int_loop (S fuel) i (pre ++ b :: post) (len pre) limit result
  = if (i =? 4) && ((128 <=? b) || (15 <? b mod 128)) then Return VARINT_INVALID
    else let result := result + (b mod 128) * 2 ^ (7 * i) in
         if b <? 128 then Next (result, len pre + 1)
         else varint2int_loop fuel (i + 1) (pre ++ b :: post) (len pre + 1) limit result.
Proof.
  intros Hi Hb Hl Hr. cbn [varint2int_loop]. replace (limit <=? len pre) with false by lia.
  rewrite rd8_mid. cbn [mbind run_bind]. rewrite flag_test by done. rewrite land_127.
  change VARINT_T_MAXIDX with 4. change VARINT_T_LAST_MASK with 15.
  replace (negb (b <? 128)) with (128 <=? b) by lia.
  destruct ((i =? 4) && _) eqn:Hlast; [done|].
  assert (Hbit : Z.lor result (u32 (Z.shiftl (b mod 128) (i * 7))) = result + b mod 128 * 2 ^ (7 * i)).
  { rewrite <- lor_add by lia. f_equal. unfold u32. rewrite Z.mul_comm. apply Z.mod_small.
    rewrite Z.shiftl_mul_pow2 by lia. unfold is_byte in Hb.
    assert (i = 0 \/ i = 1 \/ i = 2 \/ i = 3 \/ i = 4) as [->|[->|[->|[->| ->]]]] by lia; simpl; zlia. }
  by rewrite Hbit.
Qed.

(** Reference decoder: [Some v] when the whole list is one codeword of value [v]. *)
Fixpoint varint_word (l : bytes) : option Z :=
  match l with
  | [] => None
  | b :: l =>
      if b <? 128 then (match l with [] => Some b | _ => None end)
      else (fun v => b - 128 + 128 * v) <$> varint_word l
  end.

Lemma varint_word_nonneg l v : is_bytes l -> varint_word l = Some v -> 0 <= v.
Proof.
  intros Hl. revert v. induction Hl as [|b l Hb Hl IH]; intros v; simpl; [done|].
  unfold is_byte in Hb. destruct (b <? 128) eqn:E.
  - destruct l; [|done]. intros [= <-]. lia.
  - destruct (varint_word l) as [w|]; simpl; [|done]. intros [= <-]. specialize (IH w eq_refl). lia.
Qed.

Lemma pow_step i : 0 <= i -> 2 ^ (7 * (i + 1)) = 128 * 2 ^ (7 * i).
Proof. intros. replace (7 * (i + 1)) with (7 + 7 * i) by lia. by rewrite Z.pow_add_r by lia. Qed.

Lemma snoc_cons {A} (pre : list A) b post : pre ++ b :: post = (pre ++ [b]) ++ post.
Proof. by rewrite <- app_assoc. Qed.

Lemma len_snoc {A} (pre : list A) b : len (pre ++ [b]) = len pre + 1.
Proof. rewrite len_app. simpl. lia. Qed.

(** The decoding loop, inverted: what each result says of the bytes read. *)
Lemma varint2int_loop_inv fuel i pre rest limit result :
  0 <= i -> Z.of_nat fuel + i = 5 -> 0 <= result < 2 ^ (7 * i) -> is_bytes rest ->
  len pre <= limit <= len (pre ++ rest) ->
  match varint2int_loop fuel i (pre ++ rest) (len pre) limit result with
  | Next (v, c) => exists used post w, rest = used ++ post /\ varint_word used = Some w /\
      v = result + w * 2 ^ (7 * i) /\ v < 2 ^ 32 /\ c = len pre + len used /\
      1 <= len used <= Z.of_nat fuel /\ c <= limit
  | Return VARINT_INCOMPLETE => limit < len pre + Z.of_nat fuel
  | Return VARINT_INVALID => len pre + Z.of_nat fuel <= limit
  | Return VARINT_COMPLETE | Oob => False
  end.
Proof.
  revert i pre rest result. induction fuel as [|fuel IH]; intros i pre rest result Hi Hf Hr Hb Hl.
  { simpl. lia. }
  destruct (decide (limit <= len pre)) as [Hend|Hend].
  { cbn [varint2int_loop]. replace (limit <=? len pre) with true by lia. lia. }
  destruct rest as [|b rest]; [rewrite app_nil_r in Hl; lia|].
  inversion Hb as [|? ? Hbb Hbr]; subst. rewrite len_app, len_cons in Hl.
  rewrite varint2int_loop_step by (done || lia).
  destruct ((i =? 4) && _) eqn:Hlast; [lia|]. cbn zeta. unfold is_byte in Hbb.
  assert (0 < 2 ^ (7 * i)) by (apply Z.pow_pos_nonneg; lia).
  destruct (b <? 128) eqn:E.
  - exists [b], rest, b. simpl. rewrite E. replace (b mod 128) with b by zlia.
    repeat split; try lia. replace (b mod 128) with b in Hlast by zlia.
    assert (i = 0 \/ i = 1 \/ i = 2 \/ i = 3 \/ i = 4) as [->|[->|[->|[->| ->]]]] by lia; simpl in *; lia.
  - rewrite snoc_cons, <- len_snoc with (b := b).
    assert (i < 4) by lia. pose proof (pow_step i Hi).
    specialize (IH (i + 1) (pre ++ [b]) rest (result + b mod 128 * 2 ^ (7 * i))).
    replace (b mod 128) with (b - 128) in * by zlia.
    destruct (varint2int_loop _ _ _ _ _ _) as [[v c]|[]|] eqn:Hloop.
    + destruct IH as (used & post & w & -> & Hw & -> & ? & -> & ? & ?);
        [lia|lia|nia|done|lens|].
      rewrite len_snoc in *. exists (b :: used), post, (b - 128 + 128 * w). simpl. rewrite E, Hw. simpl.
      repeat split; try lia; nia.
    + apply IH; [lia|lia|nia|done|lens].
    + rewrite len_snoc in IH. specialize (IH ltac:(lia) ltac:(lia) ltac:(nia) Hbr ltac:(lens)). lia.
    + rewrite len_snoc in IH. specialize (IH ltac:(lia) ltac:(lia) ltac:(nia) Hbr ltac:(lens)). lia.
    + apply IH; [lia|lia|nia|done|lens].
Qed.

(** The decoding loop on a codeword. *)
Lemma varint2int_loop_word fuel i pre used w post limit result :
  0 <= i -> Z.of_nat fuel + i = 5 -> 0 <= result < 2 ^ (7 * i) -> is_bytes used ->
  varint_word used = Some w -> len used <= Z.of_nat fuel -> result + w * 2 ^ (7 * i) < 2 ^ 32 ->
  len pre + len used <= limit ->
  varint2int_loop fuel i (pre ++ used ++ post) (len pre) limit result
  = Next (result + w * 2 ^ (7 * i), len pre + len used).
Proof.
  revert fuel i pre w result. induction used as [|b used IH]; [done|].
  intros fuel i pre w result Hi Hf Hr Hb Hw Hlen Hv Hl.
  inversion Hb as [|? ? Hbb Hbr]; subst. rewrite len_cons in *.
  destruct fuel as [|fuel]; [lia|].
  cbn [app]. rewrite varint2int_loop_step by (done || lia). unfold is_byte in Hbb.
  cbn [varint_word] in Hw. assert (0 < 2 ^ (7 * i)) by (apply Z.pow_pos_nonneg; lia).
  destruct (b <? 128) eqn:E.
  - destruct used; [|done]. injection Hw as <-. replace (b mod 128) with b by zlia.
    destruct ((i =? 4) && _) eqn:Hlast.
    { assert (i = 4) by lia. subst. simpl in *. lia. }
    cbn zeta. do 2 f_equal.
  - destruct (varint_word used) as [w'|] eqn:Ew; [|done]. simpl in Hw. injection Hw as <-.
    pose proof (varint_word_nonneg _ _ Hbr Ew) as Hw'.
    assert (Hu : 1 <= len used) by (destruct used; [done|simpl; lia]).
    assert (i < 4) by lia. replace (i =? 4) with false by lia. cbn [andb]. cbn zeta.
    replace (b mod 128) with (b - 128) by zlia. pose proof (pow_step i Hi).
    rewrite snoc_cons, <- len_snoc with (b := b).
    rewrite (IH fuel (i + 1) (pre ++ [b]) w'); [|lia|lia|nia|done|done|lia|nia|lens].
    rewrite len_snoc. do 2 f_equal; [nia|lia].
Qed.

Lemma varint_digits_word fuel v :
  0 <= v < 128 ^ Z.of_nat fuel -> (0 < fuel)%nat -> varint_word (varint_digits fuel v) = Some v.
Proof.
  revert v. induction fuel as [|fuel IH]; intros v Hv Hf; [lia|].
  cbn [varint_digits]. destruct (v <? 128) eqn:E; cbn [varint_word]; [by rewrite E|].
  replace (v mod 128 + 128 <? 128) with false by zlia.
  replace (Z.of_nat (S fuel)) with (Z.of_nat fuel + 1) in Hv by lia. rewrite Z.pow_add_r in Hv by lia.
  destruct fuel as [|fuel]; [simpl in Hv; lia|].
  rewrite IH; [|zlia|lia]. simpl. f_equal. zlia.
Qed.

(** Decoding at an offset where [int2varint v] was stored gives [v] back and the
    offset behind it. *)
Lemma varint2int_app pre v post limit :
  0 <= v < 2 ^ 32 -> len pre + len (int2varint v) <= limit ->
  varint2int (pre ++ int2varint v ++ post) (len pre) limit
  = Next (v, len pre + len (int2varint v)).
Proof.
  intros Hv Hl. pose proof (int2varint_length v Hv). pose proof (int2varint_bytes v Hv).
  unfold varint2int. replace (limit <? len pre) with false by lia.
  rewrite (varint2int_loop_word 5 0 pre (int2varint v) v); try done; try lia.
  - change (2 ^ (7 * 0)) with 1. do 2 f_equal. lia.
  - rewrite int2varint_digits by done. apply varint_digits_word; [simpl; lia|lia].
Qed.

Lemma varint2int_at mem off v rest limit : at_off mem off (int2varint v ++ rest) ->
  0 <= v < 2 ^ 32 -> off + len (int2varint v) <= limit ->
  varint2int mem off limit = Next (v, off + len (int2varint v)).
Proof. intros (pre & -> & ->) Hv Hl. by apply varint2int_app. Qed.

(** [varint2int] is memory safe and exact on every input: it consumes one
    codeword of at most five bytes inside the buffer and returns its value, asks
    for more bytes only when fewer than five are left, and rejects the rest. *)
Lemma varint2int_spec mem src limit :
  is_bytes mem -> 0 <= src -> limit <= len mem ->
  match varint2int mem src limit with
  | Next (v, c) => src < c <= limit /\ c <= src + 5 /\ 0 <= v < 2 ^ 32 /\
      varint_word (slice mem src (c - src)) = Some v
  | Return VARINT_INCOMPLETE => src <= limit < src + 5
  | Return VARINT_INVALID => limit < src \/ src + 5 <= limit
  | Return VARINT_COMPLETE | Oob => False
  end.
Proof.
  intros Hm Hs Hl. unfold varint2int. destruct (limit <? src) eqn:E; [lia|].
  assert (Hsplit : mem = slice mem 0 src ++ drop (Z.to_nat src) mem).
  { unfold slice. simpl. by rewrite take_drop. }
  assert (Hpre : len (slice mem 0 src) = src) by (apply len_slice; lia).
  pose proof (varint2int_loop_inv 5 0 (slice mem 0 src) (drop (Z.to_nat src) mem) limit 0
    ltac:(lia) ltac:(lia) ltac:(simpl; lia)) as H.
  rewrite <- Hsplit, Hpre in H. specialize (H ltac:(by apply Forall_drop) ltac:(lia)).
  destruct (varint2int_loop _ _ _ _ _ _) as [[v c]|[]|]; [|done|lia|lia|done].
  destruct H as (used & post & w & Hd & Hw & -> & Hlt & -> & Hn & Hc).
  replace (0 + w * 2 ^ (7 * 0)) with w in * by (change (2 ^ (7 * 0)) with 1; lia).
  assert (Hu : is_bytes (used ++ post)) by (rewrite <- Hd; by apply Forall_drop).
  apply is_bytes_app in Hu as [Hu _].
  pose proof (varint_word_nonneg _ _ Hu Hw). repeat split; try lia.
  unfold slice. rewrite Hd. replace (Z.to_nat _) with (length used) by lia.
  by rewrite take_app_length.
Qed.

(** A decoded codeword depends on no byte outside it: any other buffer and limit
    that hold it decode to the same result. *)
Lemma varint2int_local mem mem' src limit limit' v c :
  is_bytes mem -> 0 <= src -> limit <= len mem ->
  varint2int mem src limit = Next (v, c) ->
  slice mem' src (c - src) = slice mem src (c - src) -> c <= limit' <= len mem' ->
  varint2int mem' src limit' = Next (v, c).
Proof.
  intros Hm Hs Hl Hr Heq Hc. pose proof (varint2int_spec mem src limit Hm Hs Hl) as H.
  rewrite Hr in H. destruct H as (Hc1 & Hc2 & Hv & Hw). clear Hr.
  rewrite (slice_split mem' src (c - src)) by lia. rewrite Heq.
  assert (Hlen : len (slice mem src (c - src)) = c - src) by (apply len_slice; lia).
  assert (Hpre : len (slice mem' 0 src) = src) by (apply len_slice; lia).
  unfold varint2int. replace (limit' <? src) with false by lia.
  pose proof (fun post => varint2int_loop_word 5 0 (slice mem' 0 src) _ v post limit' 0
    ltac:(lia) ltac:(lia) ltac:(done) ltac:(by apply is_bytes_slice) Hw ltac:(lia)
    ltac:(change (2 ^ (7 * 0)) with 1; lia) ltac:(lia)) as HW.
  rewrite Hpre in HW. rewrite HW, Hlen. change (2 ^ (7 * 0)) with 1. do 2 f_equal; lia.
Qed.

Lemma varint2int_loop_extend fuel i mem more base limit limit' result :
  0 <= base -> limit <= limit' -> limit <= len mem ->
  varint2int_loop fuel i mem base limit result <> Return VARINT_INCOMPLETE ->
  varint2int_loop fuel i (mem ++ more) base limit' result = varint2int_loop fuel i mem base limit result.
Proof.
  revert i base result. induction fuel as [|fuel IH]; intros i base result Hb Hl Hm; [done|].
  cbn [varint2int_loop]. destruct (limit <=? base) eqn:E; [done|].
  replace (limit' <=? base) with false by lia. rewrite rd8_app by lia.
  destruct (rd8_safe (E:=varint_status) mem base) as [b ->]; [lia|]. cbn [mbind run_bind].
  destruct (_ && _); [done|]. destruct (Z.land b 128 =? 0); [done|]. intros. apply IH; done || lia.
Qed.

(** A verdict other than "more bytes needed" does not change when bytes arrive. *)
Lemma varint2int_extend mem more src limit limit' :
  0 <= src <= limit -> limit <= limit' -> limit <= len mem ->
  varint2int mem src limit <> Return VARINT_INCOMPLETE ->
  varint2int (mem ++ more) src limit' = varint2int mem src limit.
Proof.
  intros Hs Hl Hm. unfold varint2int. replace (limit <? src) with false by lia.
  replace (limit' <? src) with false by lia. apply varint2int_loop_extend; lia.
Qed.

(** [varint2int] is memory safe and exact on every buffer: it either consumes
    one codeword of at most five bytes inside the buffer and returns its value,
    or asks for more bytes, only when fewer than five are left, or rejects. *)
Lemma varint2int_exact mem src limit :
  is_bytes mem -> 0 <= src -> limit <= len mem ->
  match varint2int mem src limit with
  | Next (v, c) => src < c <= limit /\ c <= src + 5 /\ 0 <= v < 2 ^ 32 /\
      varint_word (slice mem src (c - src)) = Some v
  | Return VARINT_INCOMPLETE => src <= limit < src + 5
  | Return VARINT_INVALID => limit < src \/ src + 5 <= limit
  | Return VARINT_COMPLETE | Oob => False
  end.
Proof. apply varint2int_spec. Qed.

(** Every 32-bit value survives the variable-length encoding. *)
Lemma varint_roundtrip v post :
  0 <= v < 2 ^ 32 ->
  is_bytes (int2varint v) /\ 1 <= len (int2varint v) <= 5 /\
  varint2int (int2varint v ++ post) 0 (len (int2varint v ++ post)) = Next (v, len (int2varint v)).
Proof.
  intros Hv. split; [by apply int2varint_bytes|]. split; [by apply int2varint_length|].
  apply (varint2int_app [] v post); [done|]. rewrite len_app. simpl. lia.
Qed.

(** ** Base64: proofs *)

(** Reference decoder of RFC 4648 (standard alphabet, padded). *)
Definition base64_index (c : Z) : option Z := index_of c base64_map.

Fixpoint base64_decode (l : bytes) : option bytes :=
  match l with
  | [] => Some []
  | c0 :: c1 :: c2 :: c3 :: r =>
      k0 ← base64_index c0;
      k1 ← base64_index c1;
      if c3 =? 61 then
        match r with
        | [] => if c2 =? 61 then Some [k0 * 4 + k1 / 16]
                else k2 ← base64_index c2; Some [k0 * 4 + k1 / 16; k1 mod 16 * 16 + k2 / 4]
        | _ => None
        end
      else
        k2 ← base64_index c2;
        k3 ← base64_index c3;
        t ← base64_decode r;
        Some (k0 * 4 + k1 / 16 :: k1 mod 16 * 16 + k2 / 4 :: k2 mod 4 * 64 + k3 :: t)
  | _ => None
  end.

Definition quad (a b c : Z) : bytes :=
  [base64_char (a / 4); base64_char (a mod 4 * 16 + b / 16);
   base64_char (b mod 16 * 4 + c / 64); base64_char (c mod 64)].

Lemma base64_char_spec k : 0 <= k < 64 ->
  base64_index (base64_char k) = Some k /\ base64_char k <> 61.
Proof.
  intros Hk.
  assert (H : forallb (fun k => (if decide (base64_index (base64_char k) = Some k) then true else false)
                        && negb (base64_char k =? 61)) (seqZ 0 64) = true) by (vm_compute; reflexivity).
  rewrite forallb_forall in H. specialize (H k).
  lapply H; [|apply list_elem_of_In, elem_of_seqZ; lia].
  intros [H1 H2]%andb_prop. split; [by destruct (decide _)|lia].
Qed.

Lemma bits_hi6 a : is_byte a -> Z.shiftr (Z.land a 252) 2 = a / 4.
Proof.
  intros Ha. apply Z.eqb_eq, (byte_forall (fun a => Z.shiftr (Z.land a 252) 2 =? a / 4)); [|done].
  vm_compute. reflexivity.
Qed.

Lemma bits_hi4 a : is_byte a -> Z.shiftr (Z.land a 240) 4 = a / 16.
Proof.
  intros Ha. apply Z.eqb_eq, (byte_forall (fun a => Z.shiftr (Z.land a 240) 4 =? a / 16)); [|done].
  vm_compute. reflexivity.
Qed.

Lemma bits_hi2 a : is_byte a -> Z.shiftr (Z.land a 192) 6 = a / 64.
Proof.
  intros Ha. apply Z.eqb_eq, (byte_forall (fun a => Z.shiftr (Z.land a 192) 6 =? a / 64)); [|done].
  vm_compute. reflexivity.
Qed.

Lemma field_join x n y : 0 <= n -> 0 <= y < 2 ^ n -> Z.lor (Z.shiftl x n) y = x * 2 ^ n + y.
Proof. intros. rewrite Z.lor_comm, lor_add by lia. lia. Qed.

Lemma block_full pre a b c post full remainder i :
  is_byte a -> is_byte b -> is_byte c -> len pre = i * 3 -> i < full ->
  base64_block (pre ++ a :: b :: c :: post) full remainder i = Next (quad a b c).
Proof.
  intros Ha Hb Hc Hpre Hi. unfold base64_block. replace (i <? full) with true by lia. cbn [orb].
  rewrite <- Hpre, rd8_mid. cbn [mbind run_bind].
  rewrite (snoc_cons pre a), <- (len_snoc pre a), rd8_mid. cbn [mbind run_bind].
  replace (len pre + 2) with (len ((pre ++ [a]) ++ [b])) by lens.
  rewrite (snoc_cons (pre ++ [a]) b), rd8_mid. cbn [mbind run_bind].
  unfold quad. rewrite bits_hi6, bits_hi4, bits_hi2 by done.
  change 3 with (Z.ones 2) at 1. change 15 with (Z.ones 4). change 63 with (Z.ones 6).
  rewrite !Z.land_ones by lia. unfold is_byte in *. rewrite !field_join by zlia. done.
Qed.

Lemma decode_quad a b c r : is_byte a -> is_byte b -> is_byte c ->
  base64_decode (quad a b c ++ r) = (fun t => a :: b :: c :: t) <$> base64_decode r.
Proof.
  unfold is_byte. intros. unfold quad. cbn [app base64_decode].
  destruct (base64_char_spec (a / 4)) as [-> _]; [zlia|].
  destruct (base64_char_spec (a mod 4 * 16 + b / 16)) as [-> _]; [zlia|].
  destruct (base64_char_spec (b mod 16 * 4 + c / 64)) as [-> _]; [zlia|].
  destruct (base64_char_spec (c mod 64)) as [-> ?]; [zlia|]. simpl.
  replace (base64_char (c mod 64) =? 61) with false by lia.
  destruct (base64_decode r); simpl; [|done]. repeat f_equal; zlia.
Qed.

(** The loop over full blocks encodes three bytes of [src] per round. *)
Lemma base64_loop_full n : forall i pre mid post full remainder,
  is_bytes mid -> len pre = i * 3 -> i + Z.of_nat n <= full -> length mid = (3 * n)%nat ->
  exists out, base64_loop n i (pre ++ mid ++ post) full remainder = Next out /\
    len out = 4 * Z.of_nat n /\ forall r, base64_decode (out ++ r) = app mid <$> base64_decode r.
Proof.
  induction n as [|n IH]; intros i pre mid post full remainder Hm Hpre Hf Hl.
  { destruct mid; [|simpl in Hl; lia]. exists []. repeat split. intros r. simpl. by destruct (base64_decode r). }
  destruct mid as [|a [|b [|c mid]]]; try (simpl in Hl; lia).
  inversion Hm as [|? ? Ha Hm1]; subst. inversion Hm1 as [|? ? Hb Hm2]; subst.
  inversion Hm2 as [|? ? Hc Hm3]; subst. cbn [base64_loop app].
  rewrite block_full by (done || lia). cbn [mbind run_bind].
  destruct (IH (i + 1) (pre ++ [a; b; c]) mid post full remainder) as (out & Ho & Hlo & Hd);
    [done|lens|lia|simpl in Hl; lia|].
  rewrite <- app_assoc in Ho. cbn [app] in Ho. rewrite Ho. cbn [mbind run_bind].
  exists (quad a b c ++ out). split; [done|]. split; [simpl; lia|].
  intros r. rewrite <- app_assoc, decode_quad, Hd by done. by destruct (base64_decode r).
Qed.

Lemma base64_loop_split n1 n2 i src full remainder :
  base64_loop (n1 + n2) i src full remainder
  = (o1 ← base64_loop n1 i src full remainder;
     o2 ← base64_loop n2 (i + Z.of_nat n1) src full remainder; Next (o1 ++ o2)).
Proof.
  revert i. induction n1 as [|n1 IH]; intros i.
  - simpl. rewrite Z.add_0_r. by destruct (base64_loop n2 i src full remainder).
  - cbn [base64_loop Nat.add]. destruct (base64_block src full remainder i); try done.
    cbn [mbind run_bind]. rewrite IH. replace (i + 1 + Z.of_nat n1) with (i + Z.of_nat (S n1)) by lia.
    destruct (base64_loop n1 _ _ _ _); try done. cbn [mbind run_bind].
    destruct (base64_loop n2 _ _ _ _); try done. cbn [mbind run_bind]. by rewrite app_assoc.
Qed.

(** The round for a final partial block of one or two bytes. *)
Lemma block_partial pre rest full :
  is_bytes rest -> len pre = full * 3 -> 1 <= len rest <= 2 ->
  exists out, base64_block (pre ++ rest) full (len rest) full = Next out /\
    len out = 4 /\ base64_decode out = Some rest.
Proof.
  intros Hr Hpre Hl. unfold base64_block. rewrite Z.ltb_irrefl. cbn [orb].
  destruct rest as [|a [|b [|? ?]]]; simpl in Hl; try lia; inversion Hr as [|? ? Ha Hr1]; subst.
  - rewrite <- Hpre, rd8_mid. change (1 <? len [a]) with false. cbn [mbind run_bind].
    rewrite bits_hi6 by done. change (Z.land 0 240) with 0. change (Z.shiftr 0 4) with 0.
    change 3 with (Z.ones 2) at 1. rewrite Z.land_ones by lia. unfold is_byte in Ha.
    rewrite !field_join by zlia. eexists. split; [done|]. split; [done|].
    change (2 ^ 2) with 4. change (2 ^ 4) with 16. cbn [base64_decode].
    destruct (base64_char_spec (a / 4)) as [-> _]; [zlia|].
    destruct (base64_char_spec (a mod 4 * 16 + 0)) as [-> _]; [zlia|]. simpl. repeat f_equal. zlia.
  - inversion Hr1 as [|? ? Hb _]; subst. rewrite <- Hpre, rd8_mid. change (1 <? len [a; b]) with true.
    cbn [mbind run_bind]. rewrite (snoc_cons pre a), <- (len_snoc pre a), rd8_mid. cbn [mbind run_bind].
    rewrite bits_hi6, bits_hi4 by done. change (Z.land 0 192) with 0. change (Z.shiftr 0 6) with 0.
    change 3 with (Z.ones 2) at 1. change 15 with (Z.ones 4).
    rewrite !Z.land_ones by lia. unfold is_byte in *.
    rewrite !field_join by zlia. eexists. split; [done|]. split; [done|].
    change (2 ^ 2) with 4. change (2 ^ 4) with 16. cbn [base64_decode].
    destruct (base64_char_spec (a / 4)) as [-> _]; [zlia|].
    destruct (base64_char_spec (a mod 4 * 16 + b / 16)) as [-> _]; [zlia|].
    destruct (base64_char_spec (b mod 16 * 4 + 0)) as [-> ?]; [zlia|]. simpl.
    replace (base64_char _ =? 61) with false by lia. simpl. repeat f_equal; zlia.
Qed.

(** [base64_encode] never reads outside its source or writes past the
    capacity, and a standard decoder recovers the source: all of it when the
    capacity holds the encoding, its largest prefix of whole blocks otherwise. *)
Lemma base64_encode_correct dst_cap src :
  is_bytes src -> 0 <= dst_cap ->
  let room := if dst_cap <? (len src + 2) / 3 * 4 then dst_cap / 4 * 3 else len src in
  exists out, base64_encode dst_cap (Some src) = Next out /\ len out <= dst_cap /\
    base64_decode out = Some (take (Z.to_nat room) src).
Proof.
  intros Hs Hc room. unfold base64_encode.
  destruct (len src =? 0) eqn:E0.
  { destruct src; [|simpl in E0; lia]. rewrite orb_true_r. exists []. rewrite take_nil. done. }
  destruct (dst_cap =? 0) eqn:Ec.
  { cbn [orb]. exists []. assert (dst_cap = 0) by lia. subst. repeat split; [simpl; lia|]. unfold room.
    destruct (0 <? (len src + 2) / 3 * 4) eqn:E; [done|]. zlia. }
  cbn [orb]. assert (Ht : len src / 3 + (if 0 <? len src mod 3 then 1 else 0) = (len src + 2) / 3).
  { destruct (0 <? _) eqn:E; zlia. }
  rewrite Ht. unfold room. destruct (dst_cap <? _) eqn:E.
  - assert (dst_cap / 4 * 3 <= len src) by zlia.
    destruct (base64_loop_full (Z.to_nat (dst_cap / 4)) 0 [] (take (Z.to_nat (dst_cap / 4 * 3)) src)
      (drop (Z.to_nat (dst_cap / 4 * 3)) src) (dst_cap / 4) 0) as (out & Ho & Hlo & Hd);
      [by apply Forall_take|done|zlia|rewrite length_take; zlia|].
    cbn [app] in Ho. rewrite take_drop in Ho. exists out. split; [done|]. split; [zlia|].
    specialize (Hd []). rewrite app_nil_r in Hd. simpl in Hd. by rewrite app_nil_r in Hd.
  - rewrite take_ge by lia.
    set (full := len src / 3) in *. assert (0 <= full /\ full * 3 <= len src) by (unfold full; zlia).
    assert (Hsplit : src = take (Z.to_nat (full * 3)) src ++ drop (Z.to_nat (full * 3)) src) by (by rewrite take_drop).
    set (pre := take (Z.to_nat (full * 3)) src) in *. set (rest := drop (Z.to_nat (full * 3)) src) in *.
    assert (Hlp : len pre = full * 3) by (unfold pre; rewrite length_take; lia).
    assert (Hlr : len rest = len src mod 3) by (unfold rest; rewrite length_drop; unfold full in *; zlia).
    assert (is_bytes pre /\ is_bytes rest) as [Hp Hr] by (apply is_bytes_app; by rewrite <- Hsplit).
    destruct (base64_loop_full (Z.to_nat full) 0 [] pre rest full (len src mod 3)) as (out & Ho & Hlo & Hd);
      [done|done|unfold full; zlia|lia|].
    cbn [app] in Ho. rewrite <- Hsplit in Ho. rewrite <- Ht. destruct (0 <? len src mod 3) eqn:Em.
    + replace (Z.to_nat (full + 1)) with (Z.to_nat full + 1)%nat by lia.
      rewrite base64_loop_split, Ho. cbn [mbind run_bind base64_loop].
      replace (0 + Z.of_nat (Z.to_nat full)) with full by lia.
      destruct (block_partial pre rest full) as (o2 & Ho2 & Hl2 & Hd2); [done|lia|zlia|].
      rewrite <- Hsplit, Hlr in Ho2. rewrite Ho2. cbn [mbind run_bind]. rewrite app_nil_r.
      exists (out ++ o2). split; [done|]. split; [lens|]. rewrite Hd, Hd2. simpl. by rewrite <- Hsplit.
    + replace (Z.to_nat (full + 0)) with (Z.to_nat full) by lia. rewrite Ho. exists out. split; [done|].
      split; [lia|]. specialize (Hd []). rewrite app_nil_r in Hd. rewrite Hd. simpl.
      destruct rest; [by rewrite Hsplit|simpl in Hlr; lia].
Qed.

(** ** Escaping: proofs *)

Definition hex_value (c : Z) : option Z := index_of c hexadecimal.

(** Reference reader of the escaped form. *)
Fixpoint unescape (fuel : nat) (l : bytes) : option bytes :=
  match fuel with
  | O => None
  | S fuel =>
      match l with
      | [] => Some []
      | c :: l =>
          if negb (c =? 92) then cons c <$> unescape fuel l
          else match l with
               | 110 :: l => cons 10 <$> unescape fuel l
               | 114 :: l => cons 13 <$> unescape fuel l
               | 116 :: l => cons 9 <$> unescape fuel l
               | 92 :: l => cons 92 <$> unescape fuel l
               | 120 :: h :: o :: l =>
                   h ← hex_value h; o ← hex_value o; cons (h * 16 + o) <$> unescape fuel l
               | _ => None
               end
      end
  end.

Lemma hex_char_spec k : 0 <= k < 16 -> hex_value (hex_char k) = Some k.
Proof.
  intros Hk. assert (Forall (fun k => hex_value (hex_char k) = Some k) (seqZ 0 16)) as H.
  { repeat constructor. }
  rewrite Forall_forall in H. apply H, list_elem_of_In, elem_of_seqZ. lia.
Qed.

Lemma unescape_unit fuel c r : is_byte c ->
  unescape (S fuel) (escape_unit c ++ r) = cons c <$> unescape fuel r.
Proof.
  unfold is_byte. intros Hc. unfold escape_unit.
  destruct (c =? 10) eqn:E1; [apply Z.eqb_eq in E1 as ->; done|].
  destruct (c =? 13) eqn:E2; [apply Z.eqb_eq in E2 as ->; done|].
  destruct (c =? 9) eqn:E3; [apply Z.eqb_eq in E3 as ->; done|].
  destruct (c =? 92) eqn:E4; [apply Z.eqb_eq in E4 as ->; done|].
  destruct ((c <? 32) || (127 <=? c)) eqn:E5.
  - rewrite Z.shiftr_div_pow2 by lia. change (2 ^ 4) with 16.
    change 15 with (Z.ones 4). rewrite Z.land_ones by lia. change (2 ^ 4) with 16.
    cbn [app unescape]. change (negb (92 =? 92)) with false. cbn iota.
    rewrite !hex_char_spec by zlia. cbn [mbind option_bind]. f_equal. f_equal. zlia.
  - cbn [app unescape]. by rewrite E4.
Qed.

Lemma escape_unit_visible c : is_byte c ->
  Forall (fun b => 32 <= b < 127) (escape_unit c) /\ 1 <= len (escape_unit c).
Proof.
  intros Hc. pose (P c := forallb (fun b => (32 <=? b) && (b <? 127)) (escape_unit c) && (1 <=? len (escape_unit c))).
  assert (H : P c = true) by (apply byte_forall; [vm_compute; reflexivity|done]).
  apply andb_prop in H as [H1 H2]. split; [|lia].
  apply Forall_forall. intros x Hx. rewrite forallb_forall in H1. specialize (H1 x Hx). lia.
Qed.

Lemma escape_loop_spec dst_size offset src :
  is_bytes src -> 0 <= offset < dst_size ->
  exists k, len (escape_loop dst_size offset src) < dst_size - offset /\
    Forall (fun b => 32 <= b < 127) (escape_loop dst_size offset src) /\
    (forall fuel, (k < fuel)%nat -> unescape fuel (escape_loop dst_size offset src) = Some (take k src)) /\
    (forall c, src !! k = Some c -> dst_size - 1 < offset + len (escape_loop dst_size offset src ++ escape_unit c)).
Proof.
  intros Hs. revert offset. induction Hs as [|c src Hc Hs IH]; intros offset Ho.
  { exists 0%nat. simpl. split; [lia|]. split; [constructor|]. split; [|done]. intros [|fuel]; [lia|done]. }
  cbn [escape_loop]. destruct (escape_unit_visible c Hc) as [Hv Hl1].
  destruct (dst_size - offset - 1 <? len (escape_unit c)) eqn:E.
  - exists 0%nat. split; [simpl; lia|]. split; [constructor|]. split; [intros [|fuel]; [lia|done]|].
    intros c' [= <-]. simpl. lia.
  - destruct (IH (offset + len (escape_unit c))) as (k & Hl & Hf & Hu & Hn); [lia|].
    exists (S k). split; [lens|]. split; [by apply Forall_app|]. split.
    + intros [|fuel] Hk; [lia|]. rewrite unescape_unit, Hu by (done || lia). done.
    + intros c' Hc'. specialize (Hn c' Hc'). lens.
Qed.

(** [escape_default] stores a string of visible ASCII that fits the buffer
    with its NUL, from which the rendered bytes can be read back; what it leaves
    out is a suffix whose first character would not have fitted. *)
Lemma escape_default_correct dst_size src :
  is_bytes src -> 0 < dst_size ->
  exists out k, escape_default dst_size (Some src) = Some out /\ len out < dst_size /\
    Forall (fun b => 32 <= b < 127) out /\
    unescape (S k) out = Some (take k src) /\
    (forall c, src !! k = Some c -> dst_size <= len (out ++ escape_unit c)).
Proof.
  intros Hs Hd. destruct (escape_loop_spec dst_size 0 src Hs ltac:(lia)) as (k & Hl & Hf & Hu & Hn).
  unfold escape_default. replace (dst_size =? 0) with false by lia.
  exists (escape_loop dst_size 0 src), k. repeat split; [lia|done|apply Hu; lia|].
  intros c Hc. specialize (Hn c Hc). lia.
Qed.

(** ** Widening and narrowing: proofs *)

Lemma packetexpand_length l : len (packetexpand l) = 2 * len l.
Proof. induction l as [|b l IH]; [done|]. cbn [packetexpand]. lens. Qed.

Lemma packetexpand_app l k : packetexpand (l ++ k) = packetexpand l ++ packetexpand k.
Proof. induction l as [|b l IH]; [done|]. simpl. by rewrite IH. Qed.

Lemma filter_nonzero_id l : is_cstr l -> List.filter (fun b => negb (b =? 0)) l = l.
Proof.
  induction 1 as [|b l Hb Hl IH]; [done|]. simpl. replace (b =? 0) with false by lia. simpl. by rewrite IH.
Qed.

Lemma filter_expand l : is_cstr l -> List.filter (fun b => negb (b =? 0)) (packetexpand l) = l.
Proof.
  induction 1 as [|b l Hb Hl IH]; [done|]. simpl. replace (b =? 0) with false by lia. simpl. by rewrite IH.
Qed.
