(* ===== verification/Protocol.v ===== *)
(** * Packet framing and protocol detection ([src/src/protocol/common.c])

    Big-endian integers, recognition of the protocol generation a client speaks
    from its first bytes, and the length of the first packet, which tells the
    connection set-up whether it has to wait for more bytes.  All reads of the
    received bytes are checked ([Prelude.run]). *)

From S2P Require Import Prelude Basic.

(** ** Constants and types *)

(** Handshake intents have their wire values. *)
Definition CLIENT_INTENT_UNSPECIFIED : Z := 0.
Definition CLIENT_INTENT_STATUS : Z := 1.
Definition CLIENT_INTENT_LOGIN : Z := 2.
Definition CLIENT_INTENT_TRANSFER : Z := 3.

Inductive protocol_packet_status :=
  | PROTOCOL_PACKET_AMBIGUOUS
  | PROTOCOL_PACKET_COMPLETE
  | PROTOCOL_PACKET_INCOMPLETE
  | PROTOCOL_PACKET_INVALID.

Inductive protocol_version :=
  | PVER_UNIDENT | PVER_ORIGPRO
  | PVER_LEGACYL1 | PVER_LEGACYL2 | PVER_LEGACYL3 | PVER_LEGACYL4
  | PVER_LEGACYM1 | PVER_LEGACYM2 | PVER_LEGACYM3
  | PVER_MODERN1 | PVER_MODERN2.

#[export] Instance protocol_packet_status_eq_dec : EqDecision protocol_packet_status.
Proof. solve_decision. Defined.
#[export] Instance protocol_version_eq_dec : EqDecision protocol_version.
Proof. solve_decision. Defined.

(** ** Big-endian integers *)

Definition protocol_uint16_read {E} (src : bytes) (off : Z) : run E Z :=
  b0 ← rd8 src off;
  b1 ← rd8 src (off + 1);
  Next (b0 * 256 + b1).

Definition protocol_uint16_write (value : Z) : bytes := [u8 (value / 256); u8 value].

Definition protocol_uint32_read {E} (src : bytes) (off : Z) : run E Z :=
  b0 ← rd8 src off;
  b1 ← rd8 src (off + 1);
  b2 ← rd8 src (off + 2);
  b3 ← rd8 src (off + 3);
  Next (((b0 * 256 + b1) * 256 + b2) * 256 + b3).

Definition protocol_uint32_write (value : Z) : bytes :=
  [u8 (value / 2 ^ 24); u8 (value / 2 ^ 16); u8 (value / 2 ^ 8); u8 value].

(** ** Framing *)

Definition protocol_varint_read (mem : bytes) (cursor limit : Z)
    : run protocol_packet_status (Z * Z) :=
  catch (varint2int mem cursor limit) (fun status =>
    match status with
    | VARINT_INCOMPLETE => PROTOCOL_PACKET_INCOMPLETE
    | _ => PROTOCOL_PACKET_INVALID
    end).

(** The protocol generation and the intent stored through [intent]. *)
Definition identified : Type := protocol_version * Z.
Definition unidentified : identified := (PVER_UNIDENT, CLIENT_INTENT_UNSPECIFIED).
Definition legacy (v : protocol_version) : identified := (v, CLIENT_INTENT_UNSPECIFIED).

(** The [default] branch of [protocol_identify]. *)
Definition protocol_identify_modern (source : bytes) : run identified identified :=
  let limit := len source in
  '(frame_size, frame_start) ← catch (protocol_varint_read source 0 limit) (fun _ => unidentified);
  if (frame_size =? 0) || (limit - frame_start <? frame_size) then Return unidentified else
  let frame_end := frame_start + frame_size in
  '(packet_id, cursor) ← catch (protocol_varint_read source frame_start frame_end) (fun _ => unidentified);
  if negb (packet_id =? 0) then Return unidentified else
  '(version, cursor) ← catch (protocol_varint_read source cursor frame_end) (fun _ => unidentified);
  if cursor =? frame_end then Return unidentified else
  frame_intent ← rd8 source (frame_end - 1);
  if (frame_intent =? CLIENT_INTENT_STATUS) || (frame_intent =? CLIENT_INTENT_LOGIN)
     || (frame_intent =? CLIENT_INTENT_TRANSFER)
  then if negb (version =? 0) then Next (PVER_MODERN2, frame_intent)
       else Next (PVER_MODERN1, frame_intent)
  else Return unidentified.

Definition protocol_identify (src : option bytes) : run identified identified :=
  match src with
  | None => Return unidentified
  | Some source =>
      let src_size := len source in
      if src_size =? 0 then Return unidentified else
      b0 ← rd8 source 0;
      if b0 =? 1 then Return (legacy PVER_ORIGPRO)
      else if b0 =? 2 then
        if src_size <? 2 then Return unidentified else
        b1 ← rd8 source 1;
        if b1 =? 0 then
          if src_size <? 3 then Return unidentified else
          let field_size := src_size - 3 in
          semicolon ← memchr source 3 field_size 59;
          colon ← memchr source 3 field_size 58;
          match semicolon, colon with
          | Some _, Some _ => Return (legacy PVER_LEGACYL2)
          | _, _ => Return (legacy PVER_LEGACYL1)
          end
        else if b1 =? 31 then Return (legacy PVER_LEGACYL3)
        else Return (legacy PVER_LEGACYL4)
      else if b0 =? 254 then
        if src_size =? 1 then Return (legacy PVER_LEGACYM1) else
        b1 ← rd8 source 1;
        if b1 =? 1 then
          if src_size =? 2 then Return (legacy PVER_LEGACYM2) else
          b2 ← rd8 source 2;
          if b2 =? 250 then Return (legacy PVER_LEGACYM3)
          else protocol_identify_modern source
        else protocol_identify_modern source
      else protocol_identify_modern source
  end.

(** A verdict on the received bytes: the returned status and [*packet_size]. *)
Definition verdict : Type := protocol_packet_status * Z.

(** [return (src_size < *packet_size) ? INCOMPLETE : COMPLETE;] *)
Definition verdict_of_size (src_size packet_size : Z) : verdict :=
  (if src_size <? packet_size then PROTOCOL_PACKET_INCOMPLETE else PROTOCOL_PACKET_COMPLETE, packet_size).

(** The verdict when a frame length could not be read. *)
Definition verdict_of_prefix (src_size : Z) (status : protocol_packet_status) : verdict :=
  (status, if (if decide (status = PROTOCOL_PACKET_INCOMPLETE) then true else false) && (src_size <? SIZE_MAX)
           then src_size + 1 else 0).

(** The [default] branch of [protocol_packet_length]. *)
Definition protocol_packet_length_modern (source : bytes) : run verdict verdict :=
  let src_size := len source in
  '(frame_size, cursor) ← catch (protocol_varint_read source 0 src_size) (verdict_of_prefix src_size);
  let frame_prefix_size := cursor in
  if (frame_size =? 0) || (SIZE_MAX - frame_prefix_size <? frame_size)
  then Return (PROTOCOL_PACKET_INVALID, 0) else
  let first_frame_size := frame_prefix_size + frame_size in
  if src_size <? first_frame_size then Return (PROTOCOL_PACKET_INCOMPLETE, first_frame_size) else
  match outcome (protocol_identify (Some (take (Z.to_nat first_frame_size) source))) with
  | None => Oob
  | Some (protocol, intent) =>
      if decide (protocol = PVER_UNIDENT) then Return (PROTOCOL_PACKET_INVALID, first_frame_size) else
      if (if decide (protocol = PVER_MODERN1) then true else false) || (intent =? CLIENT_INTENT_STATUS)
      then Return (PROTOCOL_PACKET_COMPLETE, first_frame_size) else
      '(frame_size, cursor) ← catch (protocol_varint_read source first_frame_size src_size)
                                    (verdict_of_prefix src_size);
      let frame_prefix_size := cursor - first_frame_size in
      if (frame_size =? 0) || (SIZE_MAX - first_frame_size <? frame_prefix_size)
         || (SIZE_MAX - first_frame_size - frame_prefix_size <? frame_size)
      then Return (PROTOCOL_PACKET_INVALID, first_frame_size) else
      Next (verdict_of_size src_size (first_frame_size + frame_prefix_size + frame_size))
  end.

Definition protocol_packet_length (src : option bytes) : run verdict verdict :=
  match src with
  | None => Return (PROTOCOL_PACKET_INVALID, 0)
  | Some source =>
      let src_size := len source in
      if src_size =? 0 then Return (PROTOCOL_PACKET_INCOMPLETE, 1) else
      b0 ← rd8 source 0;
      if b0 =? 1 then Return (PROTOCOL_PACKET_COMPLETE, 1)
      else if b0 =? 2 then
        if src_size <? 2 then Return (PROTOCOL_PACKET_INCOMPLETE, 2) else
        b1 ← rd8 source 1;
        if b1 =? 0 then
          if src_size <? 4 then Return (PROTOCOL_PACKET_INCOMPLETE, 4) else
          b3 ← rd8 source 3;
          b2 ← rd8 source 2;
          let character_size := if b3 =? 0 then 2 else 1 in
          Return (verdict_of_size src_size (3 + b2 * character_size))
        else
          if src_size <? 4 then Return (PROTOCOL_PACKET_INCOMPLETE, 4) else
          username_length ← protocol_uint16_read source 2;
          let username_end := 4 + username_length * 2 in
          if b1 =? 31 then Return (verdict_of_size src_size username_end) else
          if src_size <? username_end + 2 then Return (PROTOCOL_PACKET_INCOMPLETE, username_end + 2) else
          address_length ← protocol_uint16_read source username_end;
          Return (verdict_of_size src_size (username_end + 2 + address_length * 2 + 4))
      else if b0 =? 254 then
        if src_size =? 1 then Return (PROTOCOL_PACKET_AMBIGUOUS, 3) else
        b1 ← rd8 source 1;
        if (src_size =? 2) && (b1 =? 1) then Return (PROTOCOL_PACKET_AMBIGUOUS, 3) else
        if b1 =? 1 then
          b2 ← rd8 source 2;
          if b2 =? 250 then
            if src_size <? 32 then Return (PROTOCOL_PACKET_INCOMPLETE, 32) else
            address_length ← protocol_uint16_read source 30;
            Return (verdict_of_size src_size (32 + address_length * 2 + 4))
          else protocol_packet_length_modern source
        else protocol_packet_length_modern source
      else protocol_packet_length_modern source
  end.

(** ** Big-endian integers: proofs *)

Lemma uint16_write_bytes v : is_bytes (protocol_uint16_write v).
Proof. repeat constructor; apply u8_range. Qed.

Lemma uint16_read_mid {E} pre v post : 0 <= v < 2 ^ 16 ->
  protocol_uint16_read (E:=E) (pre ++ protocol_uint16_write v ++ post) (len pre) = Next v.
Proof.
  intros Hv. unfold protocol_uint16_read, protocol_uint16_write. cbn [app].
  rewrite rd8_mid. cbn [mbind run_bind].
  rewrite snoc_cons, <- (len_snoc pre (u8 (v / 256))), rd8_mid. cbn [mbind run_bind].
  f_equal. unfold u8. zlia.
Qed.

Lemma uint16_read_at {E} mem off v rest : at_off mem off (protocol_uint16_write v ++ rest) ->
  0 <= v < 2 ^ 16 -> protocol_uint16_read (E:=E) mem off = Next v.
Proof. intros (pre & -> & ->). apply uint16_read_mid. Qed.

Lemma uint32_read_mid {E} pre v post : 0 <= v < 2 ^ 32 ->
  protocol_uint32_read (E:=E) (pre ++ protocol_uint32_write v ++ post) (len pre) = Next v.
Proof.
  intros Hv. unfold protocol_uint32_read, protocol_uint32_write. cbn [app].
  set (d0 := u8 (v / 2 ^ 24)). set (d1 := u8 (v / 2 ^ 16)). set (d2 := u8 (v / 2 ^ 8)).
  rewrite rd8_mid. cbn [mbind run_bind].
  rewrite snoc_cons, <- (len_snoc pre d0), rd8_mid. cbn [mbind run_bind].
  replace (len pre + 2) with (len ((pre ++ [d0]) ++ [d1])) by lens.
  rewrite snoc_cons, rd8_mid. cbn [mbind run_bind].
  replace (len pre + 3) with (len (((pre ++ [d0]) ++ [d1]) ++ [d2])) by lens.
  rewrite snoc_cons, rd8_mid. cbn [mbind run_bind]. f_equal. unfold d0, d1, d2, u8. zlia.
Qed.

Lemma uint16_read_next {E} buf off : is_bytes buf -> 0 <= off -> off + 2 <= len buf ->
  exists v, protocol_uint16_read (E:=E) buf off = Next v /\ 0 <= v < 2 ^ 16.
Proof.
  intros Hb H1 H2. unfold protocol_uint16_read. rd_next. rd_next. eexists. split; [done|lia].
Qed.

Lemma uint32_read_next {E} buf off : is_bytes buf -> 0 <= off -> off + 4 <= len buf ->
  exists v, protocol_uint32_read (E:=E) buf off = Next v /\ 0 <= v < 2 ^ 32.
Proof.
  intros Hb H1 H2. unfold protocol_uint32_read. do 4 rd_next. eexists. split; [done|lia].
Qed.

Lemma uint16_read_app {E} buf more off : 0 <= off -> off + 2 <= len buf ->
  protocol_uint16_read (E:=E) (buf ++ more) off = protocol_uint16_read buf off.
Proof. intros. unfold protocol_uint16_read. by rewrite !rd8_app by lia. Qed.

Ltac u16_next :=
  match goal with
  | |- context [mbind _ (protocol_uint16_read (E:=?E) ?buf ?i)] =>
      let v := fresh "v" in let Hr := fresh "Hr" in let Hv := fresh "Hv" in
      destruct (uint16_read_next (E:=E) buf i) as (v & Hr & Hv);
      [done | lia | lia | rewrite Hr; cbn [mbind run_bind]]
  end.

(** ** Framing: proofs *)

(** What reading a frame-length prefix establishes. *)
Lemma protocol_varint_read_spec mem src limit :
  is_bytes mem -> 0 <= src -> limit <= len mem ->
  match protocol_varint_read mem src limit with
  | Next (v, c) => src < c <= limit /\ 0 <= v < 2 ^ 32
  | Return PROTOCOL_PACKET_INCOMPLETE => src <= limit
  | Return PROTOCOL_PACKET_INVALID => True
  | Return _ | Oob => False
  end.
Proof.
  intros Hm Hs Hl. pose proof (varint2int_spec mem src limit Hm Hs Hl) as H.
  unfold protocol_varint_read. destruct (varint2int mem src limit) as [[v c]|[]|]; cbn [catch]; intuition lia.
Qed.

Lemma protocol_varint_read_extend mem more src limit limit' :
  0 <= src <= limit -> limit <= limit' -> limit <= len mem ->
  protocol_varint_read mem src limit <> Return PROTOCOL_PACKET_INCOMPLETE ->
  protocol_varint_read (mem ++ more) src limit' = protocol_varint_read mem src limit.
Proof.
  intros Hs Hl Hm H. unfold protocol_varint_read in *.
  rewrite (varint2int_extend mem more src limit limit'); [done|lia|lia|lia|].
  intros He. by rewrite He in H.
Qed.

Lemma identify_modern_safe source : is_bytes source -> protocol_identify_modern source <> Oob.
Proof.
  intros Hb. unfold protocol_identify_modern.
  pose proof (protocol_varint_read_spec source 0 (len source) Hb ltac:(lia) ltac:(lia)) as H1.
  destruct (protocol_varint_read source 0 _) as [[fs st]|[]|]; try done. cbn [catch mbind run_bind].
  if_as E1; [done|].
  pose proof (protocol_varint_read_spec source st (st + fs) Hb ltac:(lia) ltac:(lia)) as H2.
  destruct (protocol_varint_read source st _) as [[pid cur]|[]|]; try done. cbn [catch mbind run_bind].
  destruct (negb _); [done|].
  pose proof (protocol_varint_read_spec source cur (st + fs) Hb ltac:(lia) ltac:(lia)) as H3.
  destruct (protocol_varint_read source cur _) as [[ver cur']|[]|]; try done. cbn [catch mbind run_bind].
  destruct (cur' =? _); [done|]. rd_next. by split_ifs.
Qed.

(** [protocol_identify] reads no byte outside the received ones. *)
Lemma protocol_identify_safe src : is_bytes src -> protocol_identify (Some src) <> Oob.
Proof.
  intros Hb. unfold protocol_identify. pose proof (identify_modern_safe src Hb).
  destruct (len src =? 0) eqn:E0; [done|]. rd_next.
  destruct (b =? 1); [done|]. destruct (b =? 2).
  - destruct (len src <? 2) eqn:E2; [done|]. rd_next.
    destruct (b0 =? 0); [|by split_ifs].
    destruct (len src <? 3) eqn:E3; [done|].
    rewrite !memchr_safe by lia. cbn [mbind run_bind]. by repeat split_match.
  - destruct (b =? 254); [|done]. destruct (len src =? 1) eqn:E1; [done|]. rd_next.
    destruct (b0 =? 1); [|done]. destruct (len src =? 2) eqn:E2; [done|]. rd_next. by split_ifs.
Qed.

(** A status ping of protocol 47 to [a], and the two frames of a login. *)
Definition sample_status : bytes := [7; 0; 47; 1; 97; 99; 221; 1].
Definition sample_login : bytes := [7; 0; 47; 1; 97; 99; 221; 2; 3; 0; 1; 66].

Definition verdict_sound (src_size : Z) (v : verdict) : Prop :=
  match v with
  | (PROTOCOL_PACKET_COMPLETE, n) => 1 <= n <= src_size
  | (PROTOCOL_PACKET_INCOMPLETE, n) => src_size < n
  | (PROTOCOL_PACKET_AMBIGUOUS, n) => src_size < n
  | (PROTOCOL_PACKET_INVALID, _) => True
  end.

Lemma verdict_of_size_sound n size : 1 <= size -> verdict_sound n (verdict_of_size n size).
Proof. unfold verdict_of_size. intros. destruct (n <? size) eqn:E; simpl; lia. Qed.

Lemma outcome_Some {A} (r : run A A) : r <> Oob -> exists a, outcome r = Some a.
Proof. destruct r; eauto; done. Qed.

Lemma packet_length_modern_sound src : is_bytes src -> 1 <= len src < SIZE_MAX ->
  exists v, outcome (protocol_packet_length_modern src) = Some v /\ verdict_sound (len src) v.
Proof.
  intros Hb Hl. unfold protocol_packet_length_modern.
  pose proof (protocol_varint_read_spec src 0 (len src) Hb ltac:(lia) ltac:(lia)) as H1.
  destruct (protocol_varint_read src 0 _) as [[fs cur]|[]|]; try done; cbn [catch mbind run_bind];
    [|eexists; split; [done|]; unfold verdict_of_prefix; simpl; split_ifs; simpl; lia
     |eexists; split; [done|]; done].
  if_as E1; [eexists; split; [done|]; done|].
  destruct (len src <? cur + fs) eqn:E2; [eexists; split; [done|]; simpl; lia|].
  destruct (outcome_Some (protocol_identify (Some (take (Z.to_nat (cur + fs)) src)))) as [[p i] ->].
  { apply protocol_identify_safe. by apply Forall_take. }
  destruct (decide (p = PVER_UNIDENT)); [eexists; split; [done|]; done|].
  if_as E4; [eexists; split; [done|]; simpl; lia|].
  pose proof (protocol_varint_read_spec src (cur + fs) (len src) Hb ltac:(lia) ltac:(lia)) as H2.
  destruct (protocol_varint_read src (cur + fs) _) as [[fs2 cur2]|[]|]; try done; cbn [catch mbind run_bind];
    [|eexists; split; [done|]; unfold verdict_of_prefix; simpl; split_ifs; simpl; lia
     |eexists; split; [done|]; done].
  if_as E3; [eexists; split; [done|]; done|].
  eexists. split; [done|]. apply verdict_of_size_sound. lia.
Qed.

Lemma packet_length_ok src : is_bytes src -> len src < SIZE_MAX ->
  exists v, outcome (protocol_packet_length (Some src)) = Some v /\ verdict_sound (len src) v.
Proof.
  intros Hb Hl. unfold protocol_packet_length.
  destruct (len src =? 0) eqn:E0; [eexists; split; [done|]; simpl; lia|].
  pose proof (packet_length_modern_sound src Hb ltac:(lia)) as Hm. rd_next.
  destruct (b =? 1); [eexists; split; [done|]; simpl; lia|]. destruct (b =? 2).
  - destruct (len src <? 2) eqn:E2; [eexists; split; [done|]; simpl; lia|]. rd_next.
    destruct (b0 =? 0); (destruct (len src <? 4) eqn:E4; [eexists; split; [done|]; simpl; lia|]).
    + rd_next. rd_next. eexists. split; [done|]. apply verdict_of_size_sound. split_ifs; lia.
    + u16_next. destruct (b0 =? 31); [eexists; split; [done|]; apply verdict_of_size_sound; lia|].
      destruct (len src <? 4 + v * 2 + 2) eqn:E5; [eexists; split; [done|]; simpl; lia|].
      u16_next. eexists. split; [done|]. apply verdict_of_size_sound. lia.
  - destruct (b =? 254); [|done]. destruct (len src =? 1) eqn:E1; [eexists; split; [done|]; simpl; lia|].
    rd_next. if_as E2; [eexists; split; [done|]; simpl; lia|].
    destruct (b0 =? 1) eqn:E3; [|done]. rd_next. destruct (b1 =? 250); [|done].
    destruct (len src <? 32) eqn:E4; [eexists; split; [done|]; simpl; lia|]. u16_next.
    eexists. split; [done|]. apply verdict_of_size_sound. lia.
Qed.

(** C3: [protocol_packet_length] is memory safe on any received bytes and its
    verdict is usable: a complete packet lies inside the buffer, and a request
    for more bytes is for more than are there. *)
Theorem packet_length_sound src : is_bytes src -> len src < SIZE_MAX ->
  exists v, outcome (protocol_packet_length (Some src)) = Some v /\ verdict_sound (len src) v.
Proof. apply packet_length_ok. Qed.

Lemma packet_length_sound_witness :
  exists v, outcome (protocol_packet_length (Some (take 5 sample_status))) = Some v /\
    verdict_sound (len (take 5 sample_status)) v.
Proof. apply (packet_length_sound (take 5 sample_status)); [bytes_ok|done]. Defined.

(** The bytes that both routines hand to their modern branch. *)
Definition opens_modern (src : bytes) : bool :=
  match src with
  | b0 :: rest => negb (b0 =? 1) && negb (b0 =? 2) &&
      (negb (b0 =? 254) ||
       match rest with
       | b1 :: rest => negb (b1 =? 1) || match rest with b2 :: _ => negb (b2 =? 250) | [] => false end
       | [] => false
       end)
  | [] => false
  end.

Lemma rd8_0 {E} b l : rd8 (E:=E) (b :: l) 0 = Next b.
Proof. apply (rd8_mid []). Qed.
Lemma rd8_1 {E} a b l : rd8 (E:=E) (a :: b :: l) 1 = Next b.
Proof. apply (rd8_mid [a]). Qed.
Lemma rd8_2 {E} a b c l : rd8 (E:=E) (a :: b :: c :: l) 2 = Next c.
Proof. apply (rd8_mid [a; b]). Qed.

(** Evaluate the reads and the size tests on an explicit prefix of the bytes. *)
Ltac prefix :=
  rewrite ?rd8_0, ?rd8_1, ?rd8_2; cbn [mbind run_bind];
  repeat match goal with
  | |- context [?a =? ?b] => first [replace (a =? b) with true by lens | replace (a =? b) with false by lens]
  end; cbn [andb orb].

Lemma packet_length_modern_case src : opens_modern src = true ->
  protocol_packet_length (Some src) = protocol_packet_length_modern src.
Proof.
  unfold opens_modern. intros H. destruct src as [|b0 [|b1 [|b2 src]]]; try done; split_ifs;
    cbn [protocol_packet_length]; prefix; try done; (destruct (b0 =? 254) eqn:?; [|done]);
    cbn in H; try lia; prefix; (destruct (b1 =? 1) eqn:?; [|done]); cbn in H; [lia|]; prefix; done.
Qed.

Lemma identify_modern_case src : opens_modern src = true ->
  protocol_identify (Some src) = protocol_identify_modern src.
Proof.
  unfold opens_modern. intros H. destruct src as [|b0 [|b1 [|b2 src]]]; try done; split_ifs;
    cbn [protocol_identify]; prefix; try done; (destruct (b0 =? 254) eqn:?; [|done]);
    cbn in H; try lia; prefix; (destruct (b1 =? 1) eqn:?; [|done]); cbn in H; [lia|]; prefix; done.
Qed.

Lemma opens_modern_app src more : opens_modern src = true -> opens_modern (src ++ more) = true.
Proof.
  unfold opens_modern. destruct src as [|b0 [|b1 [|b2 src]]]; cbn [app]; try done; destruct more; cbn; try done; lia.
Qed.

Lemma opens_modern_take n src : (3 <= n)%nat -> opens_modern src = true -> opens_modern (take n src) = true.
Proof.
  intros Hn. destruct n as [|[|[|n]]]; [lia..|]. unfold opens_modern.
  destruct src as [|b0 [|b1 [|b2 src]]]; done.
Qed.

(** A modern first frame takes at least three bytes. *)
Lemma first_frame_min src fs c : is_bytes src -> opens_modern src = true -> fs <> 0 ->
  protocol_varint_read src 0 (len src) = Next (fs, c) -> 3 <= c + fs.
Proof.
  intros Hb Ho Hfs Hr. pose proof (varint2int_spec src 0 (len src) Hb ltac:(lia) ltac:(lia)) as H.
  unfold protocol_varint_read in Hr. destruct (varint2int src 0 (len src)) as [[v c']| |]; simplify_eq/=.
  destruct H as (Hc & _ & Hv & Hw). destruct (decide (c = 1)) as [->|]; [|lia].
  destruct src as [|b0 rest]; [done|]. change (slice (b0 :: rest) 0 (1 - 0)) with [b0] in Hw.
  cbn [opens_modern] in Ho. rewrite !andb_true_iff in Ho.
  cbn in Hw. destruct (b0 <? 128); [|done]. simplify_eq. lia.
Qed.

Lemma identify_modern_extend source more r : is_bytes source ->
  protocol_identify_modern source = Next r -> protocol_identify_modern (source ++ more) = Next r.
Proof.
  intros Hb. unfold protocol_identify_modern.
  pose proof (protocol_varint_read_spec source 0 (len source) Hb ltac:(lia) ltac:(lia)) as H1.
  pose proof (protocol_varint_read_extend source more 0 (len source) (len (source ++ more))
    ltac:(lia) ltac:(lens) ltac:(lia)) as X1.
  destruct (protocol_varint_read source 0 _) as [[fs st]|[]|]; try done. rewrite X1 by done. clear X1.
  cbn [catch mbind run_bind]. if_as E1; [done|]. rewrite len_app.
  if_as E1'; [lia|]. clear E1'.
  pose proof (protocol_varint_read_spec source st (st + fs) Hb ltac:(lia) ltac:(lia)) as H2.
  pose proof (protocol_varint_read_extend source more st (st + fs) (st + fs) ltac:(lia) ltac:(lia) ltac:(lia)) as X2.
  destruct (protocol_varint_read source st _) as [[pid cur]|[]|]; try done. rewrite X2 by done. clear X2.
  cbn [catch mbind run_bind]. if_as E2; [done|].
  pose proof (protocol_varint_read_spec source cur (st + fs) Hb ltac:(lia) ltac:(lia)) as H3.
  pose proof (protocol_varint_read_extend source more cur (st + fs) (st + fs) ltac:(lia) ltac:(lia) ltac:(lia)) as X3.
  destruct (protocol_varint_read source cur _) as [[ver cur']|[]|]; try done. rewrite X3 by done. clear X3.
  cbn [catch mbind run_bind]. if_as E3; [done|]. by rewrite rd8_app by lia.
Qed.

Lemma identify_modern_next source p i : is_bytes source -> p <> PVER_UNIDENT ->
  outcome (protocol_identify_modern source) = Some (p, i) -> protocol_identify_modern source = Next (p, i).
Proof.
  intros Hb Hp. unfold protocol_identify_modern, rd8.
  repeat match goal with
  | |- context [catch ?r _] => destruct r as [[]| []|]; cbn [catch mbind run_bind outcome]
  | |- context [if ?b then _ else _] => destruct b; cbn [outcome]
  end; cbn [mbind run_bind outcome]; split_ifs; unfold unidentified; cbn [outcome]; congruence.
Qed.

(** The verdicts a caller acts on. *)
Definition final (v : verdict) : bool :=
  match v.1 with
  | PROTOCOL_PACKET_COMPLETE | PROTOCOL_PACKET_INVALID => true
  | _ => false
  end.

Lemma verdict_of_size_final n m size :
  n <= m -> final (verdict_of_size n size) = true -> verdict_of_size m size = verdict_of_size n size.
Proof. unfold final, verdict_of_size. cbn. intros. split_ifs; done || lia. Qed.

(** Size tests that failed on the received bytes fail on more of them. *)
Ltac grown :=
  repeat match goal with
  | |- context [len (?a ++ ?b) =? ?k] => replace (len (a ++ b) =? k) with false by lens
  | |- context [len (?a ++ ?b) <? ?k] => replace (len (a ++ b) <? k) with false by lens
  end.

Lemma packet_length_modern_extend src more v : is_bytes src -> final v = true ->
  outcome (protocol_packet_length_modern src) = Some v ->
  outcome (protocol_packet_length_modern (src ++ more)) = Some v.
Proof.
  intros Hb Hf. unfold protocol_packet_length_modern.
  pose proof (protocol_varint_read_spec src 0 (len src) Hb ltac:(lia) ltac:(lia)) as H1.
  pose proof (protocol_varint_read_extend src more 0 (len src) (len (src ++ more))
    ltac:(lia) ltac:(lens) ltac:(lia)) as X1.
  destruct (protocol_varint_read src 0 _) as [[fs cur]|[]|]; try done;
    [| by cbn; intros [= <-] | by rewrite X1].
  rewrite X1 by done. clear X1. cbn [catch mbind run_bind]. if_as E1; [done|].
  if_as E2; [by cbn; intros [= <-]|]. grown. rewrite take_app_le by lia.
  destruct (outcome (protocol_identify _)) as [[p i]|]; [|done]. if_as E4; [done|]. if_as E5; [done|].
  pose proof (protocol_varint_read_spec src (cur + fs) (len src) Hb ltac:(lia) ltac:(lia)) as H2.
  pose proof (protocol_varint_read_extend src more (cur + fs) (len src) (len (src ++ more))
    ltac:(lia) ltac:(lens) ltac:(lia)) as X2.
  destruct (protocol_varint_read src (cur + fs) _) as [[fs2 cur2]|[]|]; try done;
    [| by cbn; intros [= <-] | by rewrite X2].
  rewrite X2 by done. clear X2. cbn [catch mbind run_bind]. if_as E6; [done|].
  cbn [outcome]. intros [= <-]. f_equal. by apply verdict_of_size_final; [lens|].
Qed.

Lemma packet_length_legacy_extend src more v :
  is_bytes src -> final v = true -> opens_modern src = false ->
  outcome (protocol_packet_length (Some src)) = Some v ->
  outcome (protocol_packet_length (Some (src ++ more))) = Some v.
Proof.
  intros Hb Hf Ho. cbn [protocol_packet_length]. if_as E0; [by cbn; intros [= <-]|].
  grown. rewrite (rd8_app src more 0) by lia. rd_next. destruct (b =? 1) eqn:E1; [done|]. destruct (b =? 2) eqn:E2.
  - if_as S2; [by cbn; intros [= <-]|]. grown. rewrite (rd8_app src more 1) by lia. rd_next.
    if_as E3; (if_as S4; [by cbn; intros [= <-]|]); grown.
    + rewrite !rd8_app by lia. do 2 rd_next. cbn [outcome]. intros [= <-].
      f_equal. by apply verdict_of_size_final; [lens|].
    + rewrite uint16_read_app by lia. u16_next. if_as E5.
      { cbn [outcome]. intros [= <-]. f_equal. by apply verdict_of_size_final; [lens|]. }
      if_as S6; [by cbn; intros [= <-]|]. grown. rewrite uint16_read_app by lia. u16_next.
      cbn [outcome]. intros [= <-]. f_equal. by apply verdict_of_size_final; [lens|].
  - destruct src as [|c0 [|c1 rest]]; [done| |].
    { rewrite rd8_0 in Hr. simplify_eq. unfold opens_modern in Ho. if_as E3; [by cbn; intros [= <-]|lia]. }
    rewrite rd8_0 in Hr. simplify_eq. cbn [app]. rewrite !rd8_1. cbn [mbind run_bind].
    destruct (b =? 254) eqn:E3; [|cbn in Ho; lia].
    destruct (c1 =? 1) eqn:E4; [|cbn in Ho; lia]. destruct rest as [|c2 rest]; [by cbn; intros [= <-]|].
    cbn [app]. rewrite !rd8_2. cbn [mbind run_bind]. destruct (c2 =? 250) eqn:E5; [|cbn in Ho; lia].
    change (b :: c1 :: c2 :: rest ++ more) with ((b :: c1 :: c2 :: rest) ++ more).
    if_as S1; [lens|]. grown. if_as S2; [lens|]. cbn [orb andb].
    if_as S3; [by cbn; intros [= <-]|]. grown.
    rewrite uint16_read_app by lia. u16_next. cbn [outcome]. intros [= <-].
    f_equal. by apply verdict_of_size_final; [lens|].
Qed.

(** C4: a verdict that the first packet is complete or invalid does not change
    when more bytes arrive. *)
Theorem packet_length_stable src more v : is_bytes src -> final v = true ->
  outcome (protocol_packet_length (Some src)) = Some v ->
  outcome (protocol_packet_length (Some (src ++ more))) = Some v.
Proof.
  intros Hb Hf. destruct (opens_modern src) eqn:Ho; [|by apply packet_length_legacy_extend].
  rewrite !packet_length_modern_case by eauto using opens_modern_app. by apply packet_length_modern_extend.
Qed.

Lemma packet_length_stable_witness :
  outcome (protocol_packet_length (Some (sample_login ++ [1; 2]))) = Some (PROTOCOL_PACKET_COMPLETE, 12).
Proof. apply (packet_length_stable sample_login [1; 2]); [bytes_ok|done|by vm_compute]. Defined.

Lemma packet_length_modern_identified src n : is_bytes src -> opens_modern src = true ->
  outcome (protocol_packet_length_modern src) = Some (PROTOCOL_PACKET_COMPLETE, n) ->
  exists p i, protocol_identify_modern src = Next (p, i) /\ p <> PVER_UNIDENT.
Proof.
  intros Hb Ho. unfold protocol_packet_length_modern.
  pose proof (protocol_varint_read_spec src 0 (len src) Hb ltac:(lia) ltac:(lia)) as H1.
  pose proof (fun fs c => first_frame_min src fs c Hb Ho) as Hmin.
  destruct (protocol_varint_read src 0 _) as [[fs cur]|[]|]; try done; cbn [catch mbind run_bind].
  if_as E1; [done|]. if_as E2; [done|]. specialize (Hmin fs cur ltac:(lia) eq_refl).
  rewrite identify_modern_case by (apply opens_modern_take; [lia|done]).
  assert (Ht : is_bytes (take (Z.to_nat (cur + fs)) src)) by by apply Forall_take.
  destruct (outcome (protocol_identify_modern _)) as [[p i]|] eqn:Hi; [|done]. if_as E4; [done|].
  intros _. exists p, i. split; [|done]. rewrite <- (take_drop (Z.to_nat (cur + fs)) src).
  by apply identify_modern_extend, identify_modern_next.
Qed.

(** When the first packet is complete, the protocol of the received bytes is
    identified. *)
Lemma packet_length_identified src n : is_bytes src ->
  outcome (protocol_packet_length (Some src)) = Some (PROTOCOL_PACKET_COMPLETE, n) ->
  exists p i, outcome (protocol_identify (Some src)) = Some (p, i) /\ p <> PVER_UNIDENT.
Proof.
  intros Hb. destruct (opens_modern src) eqn:Ho.
  { rewrite packet_length_modern_case, identify_modern_case by done. intros H.
    destruct (packet_length_modern_identified src n Hb Ho H) as (p & i & -> & Hp). by exists p, i. }
  intros H. destruct (outcome_Some _ (protocol_identify_safe src Hb)) as [[p i] Hi].
  exists p, i. split; [done|]. intros ->. revert H Hi Ho.
  destruct src as [|b0 [|b1 [|b2 src]]]; [done|..]; cbn [protocol_packet_length protocol_identify opens_modern];
    rewrite ?rd8_0, ?rd8_1, ?rd8_2; cbn [mbind run_bind]; prefix;
    (destruct (b0 =? 1); [done|]); (destruct (b0 =? 2); [|destruct (b0 =? 254); [|done]]); try done;
    cbn [negb andb orb].
  - by destruct (b1 =? 0).
  - by destruct (b1 =? 1).
  - intros _. rewrite !memchr_safe by lens. cbn [mbind run_bind].
    replace (len (b0 :: b1 :: b2 :: src) <? 2) with false by lens.
    replace (len (b0 :: b1 :: b2 :: src) <? 3) with false by lens.
    destruct (b1 =? 0); [|by destruct (b1 =? 31)]. by do 2 destruct (index_of _ _).
  - destruct (b1 =? 1); [|done]. by destruct (b2 =? 250).
Qed.

(** ** Frames *)

(** A frame: the body after its length. *)
Definition mc_frame (body : bytes) : bytes := int2varint (len body) ++ body.

Lemma mc_frame_len body : len (mc_frame body) = len (int2varint (len body)) + len body.
Proof. unfold mc_frame. lens. Qed.

Section frames.
  Context (b1 tail : bytes) (p : protocol_version) (i : Z).
  Context (L1 : 1 <= len b1 < 2 ^ 31) (Hp : p <> PVER_UNIDENT).
  Context (Hi : outcome (protocol_identify (Some (mc_frame b1))) = Some (p, i)).

(** After the first frame, the second one decides. *)
Lemma packet_length_first_frame :
  let n := len (mc_frame b1) in
  let mem := mc_frame b1 ++ tail in
  protocol_packet_length_modern mem =
  if (if decide (p = PVER_MODERN1) then true else false) || (i =? CLIENT_INTENT_STATUS)
  then Return (PROTOCOL_PACKET_COMPLETE, n) else
  '(frame_size, cursor) ← catch (protocol_varint_read mem n (len mem)) (verdict_of_prefix (len mem));
  if (frame_size =? 0) || (SIZE_MAX - n <? cursor - n) || (SIZE_MAX - n - (cursor - n) <? frame_size)
  then Return (PROTOCOL_PACKET_INVALID, n) else
  Next (verdict_of_size (len mem) (n + (cursor - n) + frame_size)).
Proof.
  intros n mem. pose proof (at_off_start mem) as A. unfold mem in A at 2. unfold mc_frame in A.
  rewrite <- app_assoc in A. pose proof (at_off_len _ _ _ A) as [Hml _]. rewrite !len_app in Hml.
  pose proof (int2varint_length (len b1) ltac:(lia)) as L2. pose proof (mc_frame_len b1) as Hn. fold n in Hn.
  unfold protocol_packet_length_modern. unfold protocol_varint_read, SIZE_MAX, UINT64_MAX.
  rewrite (varint2int_at _ _ _ _ _ A) by lia. cbn [catch mbind run_bind]. rewrite Z.add_0_l, <- Hn.
  if_as E1; [lia|]. if_as E2; [lia|]. unfold mem at 1. rewrite take_app_length' by lia. rewrite Hi.
  destruct (decide (p = PVER_UNIDENT)); [done|]. done.
Qed.

Lemma packet_length_one_frame : i = CLIENT_INTENT_STATUS ->
  outcome (protocol_packet_length_modern (mc_frame b1 ++ tail))
  = Some (PROTOCOL_PACKET_COMPLETE, len (mc_frame b1)).
Proof. intros Hs. rewrite packet_length_first_frame. cbn. by rewrite Hs, orb_true_r. Qed.

Lemma packet_length_two_frames b2 rest : p <> PVER_MODERN1 -> i <> CLIENT_INTENT_STATUS ->
  1 <= len b2 < 2 ^ 31 -> tail = mc_frame b2 ++ rest ->
  outcome (protocol_packet_length_modern (mc_frame b1 ++ tail))
  = Some (PROTOCOL_PACKET_COMPLETE, len (mc_frame b1) + len (mc_frame b2)).
Proof.
  intros Hm Hs L2 Ht. rewrite packet_length_first_frame. cbv zeta.
  destruct (decide (p = PVER_MODERN1)); [done|]. replace (i =? CLIENT_INTENT_STATUS) with false by lia. cbn [orb].
  set (mem := mc_frame b1 ++ tail). assert (A : at_off mem (len (mc_frame b1)) (int2varint (len b2) ++ b2 ++ rest)).
  { exists (mc_frame b1). split; [|done]. unfold mem. rewrite Ht. unfold mc_frame. by rewrite <- !app_assoc. }
  pose proof (at_off_len _ _ _ A) as [Hml _]. rewrite !len_app in Hml.
  pose proof (int2varint_length (len b2) ltac:(lia)) as L3. pose proof (int2varint_length (len b1) ltac:(lia)) as L4.
  pose proof (mc_frame_len b1). pose proof (mc_frame_len b2).
  unfold protocol_varint_read, SIZE_MAX, UINT64_MAX. rewrite (varint2int_at _ _ _ _ _ A) by lia. cbn [catch mbind run_bind].
  if_as E; [lia|]. unfold verdict_of_size. cbn [outcome]. if_as E2; [lia|]. do 2 f_equal. lia.
Qed.
End frames.
