(* ===== verification/Handshake.v ===== *)
(** * Modern handshake packets ([src/src/protocol/handshake.c])

    Reading and writing the handshake and login-start packets of 13w41a and
    later clients, and the disconnect and status packets the relay answers with.
    The staging buffers of [packet_write] are [BUFSIZ] bytes; a write past their
    end is [Oob].  [alloc k] tells whether the [k]-th allocation of a call
    succeeds. *)

From Stdlib Require Import String.
From S2P Require Import Prelude Basic Protocol.

(** ** Constants and the packet *)

Definition PROTOHANDSHAKE_ADDRESSMAXLEN : Z := ADDRESS_MAXLEN * 3.
Definition PROTOHANDSHAKE_USERNAMEMAXLEN : Z := 128.
Definition PVERDB_SNAPMASK : Z := 3221225471.
Definition PVERDB_R_1_20_1 : Z := 763.
Definition PVERDB_S_1_20_1_RC1 : Z := 142.

(** [address] and [username] are the stored bytes before the NUL the reader
    appends; [address_extra] and [signature_data] have their length beside them. *)
Record p_handshake := {
  id_part1 : Z; id_part2 : Z; nextstate : Z; version : Z;
  address : option bytes; address_extra : option bytes;
  signature_data : option bytes; username : option bytes;
  address_extra_length : Z; signature_data_length : Z;
  port : Z;
}.

(** The packet after [memset(&result, 0, sizeof(result))]. *)
Definition p_handshake_zero : p_handshake :=
  {| id_part1 := 0; id_part2 := 0; nextstate := 0; version := 0;
     address := None; address_extra := None; signature_data := None; username := None;
     address_extra_length := 0; signature_data_length := 0; port := 0 |}.

(** [(nextstate == CLIENT_INTENT_LOGIN) || (nextstate == CLIENT_INTENT_TRANSFER)] *)
Definition has_login (nextstate : Z) : bool :=
  (nextstate =? CLIENT_INTENT_LOGIN) || (nextstate =? CLIENT_INTENT_TRANSFER).

(** The versions whose login start carries a one before the signature data. *)
Definition signature_placeholder (version : Z) : bool :=
  (version <=? PVERDB_R_1_20_1) || (Z.land version PVERDB_SNAPMASK <=? PVERDB_S_1_20_1_RC1).

(** ** Writing integers into a bounded buffer *)

(** The [while ((value >>= 7) != 0)] loop: further digits after the first. *)
Fixpoint varint_size_loop (fuel : nat) (value result : Z) : Z :=
  match fuel with
  | O => result
  | S fuel =>
      let value := Z.shiftr value 7 in
      if negb (value =? 0) then varint_size_loop fuel value (result + 1) else result
  end.
Definition varint_size (value : Z) : Z := varint_size_loop 5 value 1.

Fixpoint handshake_varint_loop (fuel : nat) (value : Z) : bytes :=
  match fuel with
  | O => []
  | S fuel =>
      let byte := Z.land value 127 in
      let value := Z.shiftr value 7 in
      if negb (value =? 0) then Z.lor byte 128 :: handshake_varint_loop fuel value else [byte]
  end.

(** The bytes stored at [*destination] and the new [*remaining]; [None] is [false]. *)
Definition handshake_varint_write (remaining value : Z) : option (bytes * Z) :=
  let encoded_size := varint_size value in
  if remaining <? encoded_size then None
  else Some (handshake_varint_loop 5 value, remaining - encoded_size).

(** ** Replies to the client

    The empty list stands for the returned zero (a packet is never empty). *)

(** The common tail of [make_kickreason] and [make_motd]: the three varints and
    the JSON text, once its size is known. *)
Definition make_frame (dst_capacity json_size : Z) (json_text : bytes) : run bytes bytes :=
  if UINT32_MAX <? json_size then Return [] else
  let string_length_size := varint_size json_size in
  if SIZE_MAX - string_length_size - 1 <? json_size then Return [] else
  let frame_size := 1 + string_length_size + json_size in
  if UINT32_MAX <? frame_size then Return [] else
  let frame_length_size := varint_size frame_size in
  if (SIZE_MAX - frame_length_size <? frame_size) || (dst_capacity <? frame_length_size + frame_size)
  then Return [] else
  match handshake_varint_write dst_capacity frame_size with
  | None => Return []
  | Some (w1, remaining) =>
      match handshake_varint_write remaining 0 with
      | None => Return []
      | Some (w2, remaining) =>
          match handshake_varint_write remaining json_size with
          | None => Return []
          | Some (w3, remaining) =>
              if remaining <? json_size then Return []
              else if remaining <? len json_text then Oob
              else Next (w1 ++ w2 ++ w3 ++ json_text)
          end
      end
  end.

Definition kick_prefix : bytes := json "{'extra':[{'text':'".
Definition kick_suffix : bytes := json "'}],'text':''}".

Definition make_kickreason (dst_capacity : Z) (src : option bytes) : run bytes bytes :=
  match src with
  | None => Return []
  | Some src =>
      if dst_capacity =? 0 then Return [] else
      let prefix_size := len kick_prefix in
      let suffix_size := len kick_suffix in
      let source_size := len src in
      if (SIZE_MAX - prefix_size <? source_size) || (SIZE_MAX - suffix_size <? source_size + prefix_size)
      then Return [] else
      make_frame dst_capacity (prefix_size + source_size + suffix_size) (kick_prefix ++ src ++ kick_suffix)
  end.

Definition version_prefix : bytes := json "{'version':{'name':'','protocol':".
Definition players_middle : bytes :=
  json "},'players':{'max':0,'online':0,'sample':[]},'description':{'text':'".
Definition favicon_prefix : bytes := json "'},'favicon':'data:image/png;base64,".
Definition json_suffix : bytes := json "'}".

(** The built-in server icon. *)
Definition FAVICON_BASE64 : bytes :=
  str "iVBORw0KGgoAAAANSUhEUgAAAEAAAABABAMAAABYR2ztAAAAIGNIUk0AAHomAACAhAAA+gAAAIDoAAB1MAAA6mAAADqYAAAXcJy6UTwAAAAPUExURQAAAL4BAeMAALEAAP///y4OgmUAAAABdFJOUwBA5thmAAAA" ++
  str "AWJLR0QEj2jZUQAAAAd0SU1FB+oHEA8dAoMMU8YAAAAldEVYdGRhdGU6Y3JlYXRlADIwMjYtMDctMTZUMTU6Mjk6MDIrMDA6MDBTosTZAAAAJXRFWHRkYXRlOm1vZGlmeQAyMDI2LTA3LTE2VDE1OjI5OjAyKzAw" ++
  str "OjAwIv98ZQAAACh0RVh0ZGF0ZTp0aW1lc3RhbXAAMjAyNi0wNy0xNlQxNToyOTowMiswMDowMHXqXboAAABySURBVEjHY2AYBfQGjIJKSEBQgPoKlNCAsjGVFYAdgLCXCaTE2ICqCoAiioLI7hEUooECBVTFTDRU" ++
  str "APUv7RTA/UszBYgoo5EC5CijjQK0VEd9BUroqY7KCuiQ9RgYjI0IlA+UK2BgNkYBBgzUVzAKaA0AxA9JzNErf4IAAAAASUVORK5CYII=".

Definition make_motd (dst_capacity : Z) (src : option bytes) (ver : Z)
    (favicon_b64 : option bytes) : run bytes bytes :=
  let icon := default FAVICON_BASE64 favicon_b64 in
  match src with
  | None => Return []
  | Some src =>
      if dst_capacity =? 0 then Return [] else
      let version_text := decimal ver in
      if (len version_text <=? 0) || (11 <=? len version_text) then Return [] else
      let fixed_size := len version_prefix + len players_middle + len favicon_prefix + len json_suffix in
      let version_size := len version_text in
      let message_size := len src in
      let icon_size := len icon in
      if (SIZE_MAX - fixed_size <? message_size) || (SIZE_MAX - fixed_size - message_size <? version_size)
         || (SIZE_MAX - fixed_size - message_size - version_size <? icon_size)
      then Return [] else
      make_frame dst_capacity (fixed_size + message_size + version_size + icon_size)
        (version_prefix ++ version_text ++ players_middle ++ src ++ favicon_prefix ++ icon ++ json_suffix)
  end.

(** ** Reading a handshake *)

(** [varint2int(...)] with a jump to [cleanup] when it returns NULL. *)
Definition read_varint (mem : bytes) (src limit : Z) : run p_handshake (Z * Z) :=
  catch (varint2int mem src limit) (fun _ => p_handshake_zero).

(** The signature data: the rest of the second frame, without the placeholder. *)
Definition packet_read_signature (alloc : nat -> bool) (mem : bytes) (src part2_end version : Z)
    : run p_handshake (option bytes * Z) :=
  let signature_data_length := part2_end - src in
  if signature_data_length =? 0 then Next (None, 0) else
  '(src, signature_data_length) ←
    (if signature_placeholder version && (src <? part2_end) then
       first ← rd8 mem src;
       if first =? 1 then Next (src + 1, signature_data_length - 1) else Next (src, signature_data_length)
     else Next (src, signature_data_length));
  if negb (alloc 3%nat) then Return p_handshake_zero else
  signature_data ← rdn mem src signature_data_length;
  Next (Some signature_data, signature_data_length).

(** The second frame of a login or transfer: [result.id_part2], [username] and
    the signature data with its length. *)
Definition packet_read_part2 (alloc : nat -> bool) (mem : bytes) (src version : Z)
    : run p_handshake (Z * bytes * option bytes * Z) :=
  let end_ := len mem in
  '(size_part2, src) ← read_varint mem src end_;
  if end_ - src <? size_part2 then Return p_handshake_zero else
  let part2_end := src + size_part2 in
  '(id_part2, src) ← read_varint mem src part2_end;
  '(username_length, src) ← read_varint mem src part2_end;
  if PROTOHANDSHAKE_USERNAMEMAXLEN <? username_length then Return p_handshake_zero else
  if part2_end - src <? username_length then Return p_handshake_zero else
  if negb (alloc 2%nat) then Return p_handshake_zero else
  username ← rdn mem src username_length;
  let src := src + username_length in
  '(signature_data, signature_data_length) ← packet_read_signature alloc mem src part2_end version;
  Next (id_part2, username, signature_data, signature_data_length).

(** The address field: the bytes before its first NUL or question mark, and the
    rest, if there is any. *)
Definition packet_read_address (mem : bytes) (src address_length : Z)
    : run p_handshake (bytes * option bytes) :=
  let address_end := src + address_length in
  nul ← memchr mem src address_length 0;
  query ← memchr mem src address_length 63;
  let address_extra :=
    match nul, query with
    | None, _ => query
    | Some n, Some q => if q <? n then Some q else Some n
    | Some n, None => Some n
    end in
  match address_extra with
  | None =>
      address ← rdn mem src address_length;
      Next (address, None)
  | Some extra =>
      address ← rdn mem src (extra - src);
      tail ← rdn mem extra (address_end - extra);
      Next (address, Some tail)
  end.

(** [packet_read(mem, mem + len mem)]: the zero packet is returned at [cleanup]. *)
Definition packet_read (alloc : nat -> bool) (mem : bytes) : run p_handshake p_handshake :=
  let end_ := len mem in
  '(size_part1, src) ← read_varint mem 0 end_;
  if end_ - src <? size_part1 then Return p_handshake_zero else
  let frame1_end := src + size_part1 in
  '(id_part1, src) ← read_varint mem src frame1_end;
  '(version, src) ← read_varint mem src frame1_end;
  '(address_length, src) ← read_varint mem src frame1_end;
  if PROTOHANDSHAKE_ADDRESSMAXLEN <? address_length then Return p_handshake_zero else
  if address_length =? 0 then Return p_handshake_zero else
  if frame1_end - src <? address_length then Return p_handshake_zero else
  '(address, address_extra) ← packet_read_address mem src address_length;
  if negb (alloc 0%nat) then Return p_handshake_zero else
  if (if address_extra is Some _ then true else false) && negb (alloc 1%nat)
  then Return p_handshake_zero else
  let src := src + address_length in
  if frame1_end - src <? 2 then Return p_handshake_zero else
  port ← protocol_uint16_read mem src;
  let src := src + 2 in
  '(nextstate, src) ← read_varint mem src frame1_end;
  if negb (src =? frame1_end) then Return p_handshake_zero else
  '(id_part2, username, signature_data, signature_data_length) ←
    (if has_login nextstate then
       '(id_part2, username, signature_data, n) ← packet_read_part2 alloc mem src version;
       Next (id_part2, Some username, signature_data, n)
     else Next (0, None, None, 0));
  Next {| id_part1 := id_part1; id_part2 := id_part2; nextstate := nextstate; version := version;
          address := Some address; address_extra := address_extra;
          signature_data := signature_data; username := username;
          address_extra_length := (if address_extra is Some tail then len tail else 0);
          signature_data_length := signature_data_length; port := port |}.

(** ** Writing a handshake *)

(** A staging buffer of [BUFSIZ] bytes holds what is written to it. *)
Definition staged (part : bytes) : run bytes bytes :=
  if BUFSIZ <? len part then Oob else Next part.

(** The checks on the address remainder, and its bytes. *)
Definition packet_write_extra (src : p_handshake) : run bytes bytes :=
  if 0 <? src.(address_extra_length) then
    match src.(address_extra) with
    | None => Return []
    | Some extra =>
        first ← rd8 extra 0;
        if negb (first =? 0) && negb (first =? 63) then Return []
        else rdn extra 0 src.(address_extra_length)
    end
  else Next [].

(** The checks on the fields of the second frame; the user name and the
    signature data. *)
Definition packet_write_login (src : p_handshake) : run bytes (bytes * bytes) :=
  if has_login src.(nextstate) then
    match src.(username) with
    | None => Return []
    | Some name =>
        let username := cstr name in
        let username_length := len username in
        if (PROTOHANDSHAKE_USERNAMEMAXLEN <? username_length)
           || ((0 <? src.(signature_data_length)) && (if src.(signature_data) is None then true else false))
           || (BUFSIZ - username_length - 8 <? src.(signature_data_length)) then Return [] else
        if src.(signature_data_length) =? 0 then Next (username, []) else
        data ← rdn (default [] src.(signature_data)) 0 src.(signature_data_length);
        Next (username, data)
    end
  else Next ([], []).

(** What is written to the staging buffers. *)
Definition packet_write_part1 (src : p_handshake) (address extra : bytes) : bytes :=
  int2varint src.(id_part1) ++ int2varint src.(version)
  ++ int2varint (len address + src.(address_extra_length))
  ++ address ++ extra ++ protocol_uint16_write src.(port) ++ int2varint src.(nextstate).

Definition packet_write_part2 (src : p_handshake) (username signature : bytes) : bytes :=
  int2varint src.(id_part2)
  ++ (if has_login src.(nextstate) then
        int2varint (len username) ++ username
        ++ (if src.(signature_data_length) =? 0 then [] else
              (if signature_placeholder src.(version) then int2varint 1 else []) ++ signature)
      else []).

(** The bytes stored at [dst], the empty list for the returned zero; [alloc]
    tells whether both staging buffers could be allocated. *)
Definition packet_write (alloc : bool) (dst_capacity : Z) (src : p_handshake) : run bytes bytes :=
  match src.(address) with
  | None => Return []
  | Some addr =>
      let address := cstr addr in
      let address_size := len address in
      if (PROTOHANDSHAKE_ADDRESSMAXLEN <? address_size)
         || (PROTOHANDSHAKE_ADDRESSMAXLEN - address_size <? src.(address_extra_length)) then Return [] else
      extra ← packet_write_extra src;
      '(username, signature) ← packet_write_login src;
      if negb alloc then Return [] else
      part1 ← staged (packet_write_part1 src address extra);
      part2 ← staged (packet_write_part2 src username signature);
      let size_part1 := len part1 in
      let size_part2 := len part2 in
      if dst_capacity <? varint_size size_part1 + size_part1 + varint_size size_part2 + size_part2
      then Return [] else
      Next (int2varint size_part1 ++ part1 ++ int2varint size_part2 ++ part2)
  end.

(** ** Reading: memory safety *)

Lemma read_varint_spec mem src limit : is_bytes mem -> 0 <= src -> limit <= len mem ->
  match read_varint mem src limit with
  | Next (v, c) => src < c <= limit /\ 0 <= v < 2 ^ 32
  | Return _ => True
  | Oob => False
  end.
Proof.
  intros Hm Hs Hl. pose proof (varint2int_spec mem src limit Hm Hs Hl) as H.
  unfold read_varint. destruct (varint2int mem src limit) as [[v c]|[]|]; cbn [catch]; intuition lia.
Qed.

(** Step over the next varint of a read. *)
Ltac varint_next v c :=
  match goal with
  | |- context [mbind _ (read_varint ?mem ?src ?limit)] =>
      let H := fresh "Hv" in
      pose proof (read_varint_spec mem src limit ltac:(done) ltac:(lia) ltac:(lia)) as H;
      destruct (read_varint mem src limit) as [[v c]| |]; [|done|done]; cbn [mbind run_bind]
  end.

Lemma memchr_range {E} mem off n c i : 0 <= off -> 0 <= n -> off + n <= len mem ->
  memchr (E:=E) mem off n c = Next (Some i) -> off <= i < off + n.
Proof.
  intros H1 H2 H3. rewrite memchr_safe by done. destruct (index_of _ _) as [k|] eqn:Ek; [|done].
  intros [= <-]. apply index_of_Some in Ek as (Hk & _). rewrite len_slice in Hk by done. lia.
Qed.

Lemma packet_read_address_safe mem src n : 0 <= src -> 0 <= n -> src + n <= len mem ->
  exists a e, packet_read_address mem src n = Next (a, e) /\ len a + len (default [] e) = n.
Proof.
  intros H1 H2 H3. unfold packet_read_address.
  pose proof (memchr_range (E:=p_handshake) mem src n 0) as R0.
  pose proof (memchr_range (E:=p_handshake) mem src n 63) as R1.
  rewrite !memchr_safe in * by done. cbn [mbind run_bind].
  destruct (_ <$> index_of 0 _) as [i|]; [specialize (R0 i H1 H2 H3 eq_refl)|];
    (destruct (_ <$> index_of 63 _) as [j|]; [specialize (R1 j H1 H2 H3 eq_refl)|]);
    split_ifs; rewrite !rdn_safe by lia; cbn [mbind run_bind]; do 2 eexists;
    (split; [done|]); simpl default; rewrite ?len_slice by lia; cbn; lia.
Qed.

Lemma packet_read_part2_safe alloc mem src version : is_bytes mem -> 0 <= src ->
  packet_read_part2 alloc mem src version <> Oob.
Proof.
  intros Hm Hs. unfold packet_read_part2. varint_next sz c1. if_as E1; [done|].
  varint_next i2 c2. varint_next ul c3. if_as E2; [done|]. if_as E3; [done|]. if_as E4; [done|].
  rewrite rdn_safe by lia. cbn [mbind run_bind].
  enough (Hsg : packet_read_signature alloc mem (c3 + ul) (c1 + sz) version <> Oob)
    by by destruct (packet_read_signature _ _ _ _ _) as [[]| |].
  unfold packet_read_signature. if_as E5; [done|].
  destruct (signature_placeholder version && _) eqn:E6; [rd_next; destruct (b =? 1)|]; cbn [mbind run_bind];
    (if_as E8; [done|]); by rewrite rdn_safe by lia.
Qed.

(** C12: [packet_read] makes no access outside the bytes it is given, whatever
    they are and whichever allocation fails. *)
Theorem packet_read_safe alloc mem : is_bytes mem -> outcome (packet_read alloc mem) <> None.
Proof.
  intros Hm. enough (packet_read alloc mem <> Oob) by (by destruct (packet_read alloc mem)).
  unfold packet_read. varint_next s1 c1. if_as E1; [done|].
  varint_next i1 c2. varint_next ver c3. varint_next al c4.
  if_as E2; [done|]. if_as E3; [done|]. if_as E4; [done|].
  destruct (packet_read_address_safe mem c4 al) as (a & e & -> & Ha); [lia..|]. cbn [mbind run_bind].
  if_as E5; [done|]. if_as E6; [done|]. if_as E7; [done|]. u16_next. varint_next ns c5. if_as E8; [done|].
  pose proof (packet_read_part2_safe alloc mem c5 ver Hm ltac:(lia)) as H2.
  destruct (has_login ns); [|done].
  by destruct (packet_read_part2 alloc mem c5 ver) as [[[[] ] ]| |].
Qed.

Lemma packet_read_safe_witness : outcome (packet_read (fun _ => true) [7; 0; 47; 200]) <> None.
Proof. apply (packet_read_safe (fun _ => true) [7; 0; 47; 200]). bytes_ok. Defined.

(** ** Writing integers: proofs *)

Lemma handshake_varint_digits fuel v : 0 <= v < 128 ^ Z.of_nat fuel ->
  handshake_varint_loop fuel v = varint_digits fuel v.
Proof.
  revert v. induction fuel as [|fuel IH]; intros v Hv; [done|]. cbn [handshake_varint_loop varint_digits].
  rewrite flag_set, land_127, Z.shiftr_div_pow2 by lia. change (2 ^ 7) with 128.
  replace (Z.of_nat (S fuel)) with (Z.of_nat fuel + 1) in Hv by lia. rewrite Z.pow_add_r in Hv by lia.
  destruct (v <? 128) eqn:E.
  - replace (v / 128) with 0 by zlia. cbn. f_equal. zlia.
  - replace (v / 128 =? 0) with false by zlia. cbn [negb]. rewrite IH; [done|zlia].
Qed.

Lemma varint_size_digits fuel v r : 0 <= v < 128 ^ Z.of_nat fuel -> (0 < fuel)%nat ->
  varint_size_loop fuel v r = r - 1 + len (varint_digits fuel v).
Proof.
  revert v r. induction fuel as [|fuel IH]; intros v r Hv Hf; [lia|]. cbn [varint_size_loop varint_digits].
  rewrite Z.shiftr_div_pow2 by lia. change (2 ^ 7) with 128.
  replace (Z.of_nat (S fuel)) with (Z.of_nat fuel + 1) in Hv by lia. rewrite Z.pow_add_r in Hv by lia.
  destruct (v <? 128) eqn:E.
  - replace (v / 128) with 0 by zlia. cbn. lia.
  - replace (v / 128 =? 0) with false by zlia. cbn [negb].
    destruct fuel as [|fuel]; [simpl in Hv; lia|]. rewrite IH by zlia. lens.
Qed.

Lemma varint_size_length v : 0 <= v < 2 ^ 32 -> varint_size v = len (int2varint v).
Proof.
  intros. rewrite int2varint_digits by done. unfold varint_size.
  rewrite varint_size_digits by (simpl; lia). lia.
Qed.

Lemma handshake_varint_write_spec remaining v : 0 <= v < 2 ^ 32 ->
  handshake_varint_write remaining v =
  if remaining <? len (int2varint v) then None
  else Some (int2varint v, remaining - len (int2varint v)).
Proof.
  intros. unfold handshake_varint_write. rewrite varint_size_length by done.
  rewrite int2varint_digits, handshake_varint_digits by (simpl; lia). done.
Qed.

(** ** Replies: proofs *)

(** A length-prefixed string, as the client reads it. *)
Definition mc_string (s : bytes) : bytes := int2varint (len s) ++ s.

Lemma make_frame_spec cap text : 0 <= cap -> len text < 2 ^ 31 ->
  let packet := mc_frame (0 :: mc_string text) in
  make_frame cap (len text) text = if cap <? len packet then Return [] else Next packet.
Proof.
  intros Hc Ht packet. pose proof (int2varint_length (len text) ltac:(lia)) as H1.
  assert (Hf : len (0 :: mc_string text) = 1 + len (int2varint (len text)) + len text) by (unfold mc_string; lens).
  pose proof (int2varint_length (1 + len (int2varint (len text)) + len text) ltac:(lia)) as H2.
  assert (Hp : packet = int2varint (1 + len (int2varint (len text)) + len text) ++ 0 :: mc_string text)
    by (unfold packet, mc_frame; by rewrite Hf).
  unfold make_frame, UINT32_MAX, SIZE_MAX, UINT64_MAX. rewrite !varint_size_length by lia.
  if_as E1; [lia|]. if_as E2; [lia|]. if_as E3; [lia|].
  assert (Hlen : len packet = len (int2varint (1 + len (int2varint (len text)) + len text))
     + (1 + len (int2varint (len text)) + len text)) by (rewrite Hp; lens).
  rewrite Hlen. clear Hlen. if_as E4; if_as E5; try lia; [done|].
  rewrite !handshake_varint_write_spec by lia. if_as E6; [lia|]. rewrite handshake_varint_write_spec by lia.
  change (int2varint 0) with [0]. cbn [length]. if_as E7; [lia|]. rewrite handshake_varint_write_spec by lia.
  if_as E8; [lia|]. if_as E9; [lia|]. by rewrite Hp.
Qed.

(** What a client makes of a reply: one frame of packet id zero holding exactly
    one string. *)
Definition reply_decode (l : bytes) : option bytes :=
  match varint2int l 0 (len l) with
  | Next (frame_size, c) =>
      match varint2int l c (len l) with
      | Next (0, c') =>
          match varint2int l c' (len l) with
          | Next (n, c'') =>
              if (frame_size =? len l - c) && (n =? len l - c'') then Some (slice l c'' n) else None
          | _ => None
          end
      | _ => None
      end
  | _ => None
  end.

Lemma reply_decode_frame text : len text < 2 ^ 31 ->
  reply_decode (mc_frame (0 :: mc_string text)) = Some text.
Proof.
  intros Ht. set (l := mc_frame (0 :: mc_string text)).
  pose proof (int2varint_length (len text) ltac:(lia)) as H1.
  assert (Hf : len (0 :: mc_string text) = 1 + len (int2varint (len text)) + len text) by (unfold mc_string; lens).
  pose proof (int2varint_length (len (0 :: mc_string text)) ltac:(lia)) as H2.
  pose proof (at_off_start l) as A0. change l with (mc_frame (0 :: mc_string text)) in A0 at 2.
  unfold mc_frame in A0. pose proof (at_off_skip _ _ _ _ A0) as A1. rewrite Z.add_0_l in A1.
  change (0 :: mc_string text) with (int2varint 0 ++ mc_string text) in A1 at 2.
  pose proof (at_off_skip _ _ _ _ A1) as A2. unfold mc_string in A2 at 2.
  pose proof (at_off_skip _ _ _ _ A2) as A3. pose proof (at_off_len _ _ _ A3) as [Hl _].
  change (len (int2varint 0)) with 1 in *. unfold reply_decode.
  rewrite (varint2int_at l 0 _ _ (len l) A0), Z.add_0_l by lia.
  rewrite (varint2int_at l _ 0 _ (len l) A1) by (change (len (int2varint 0)) with 1; lia).
  change (len (int2varint 0)) with 1. rewrite (varint2int_at l _ _ _ (len l) A2) by lia.
  if_as E; [|lia]. by rewrite (at_off_all _ _ _ A3).
Qed.

Definition kick_text (src : bytes) : bytes := kick_prefix ++ src ++ kick_suffix.
Definition motd_text (src : bytes) (ver : Z) (icon : bytes) : bytes :=
  version_prefix ++ decimal ver ++ players_middle ++ src ++ favicon_prefix ++ icon ++ json_suffix.

Lemma mc_frame_ne body : len body < 2 ^ 32 -> mc_frame body <> [].
Proof.
  intros H Hn. pose proof (int2varint_length (len body) ltac:(lia)).
  unfold mc_frame in Hn. apply app_eq_nil in Hn as [Hn _]. rewrite Hn in *. simpl in *. lia.
Qed.

Lemma make_kickreason_spec cap src : 0 <= cap -> len src < 2 ^ 30 ->
  let packet := mc_frame (0 :: mc_string (kick_text src)) in
  outcome (make_kickreason cap (Some src)) = Some (if cap <? len packet then [] else packet).
Proof.
  intros Hc Hs packet. assert (Ht : len (kick_text src) = len kick_prefix + len src + len kick_suffix)
    by (unfold kick_text; lens).
  assert (Hk : len kick_prefix = 19 /\ len kick_suffix = 14) by done.
  unfold make_kickreason, SIZE_MAX, UINT64_MAX. if_as E0.
  { replace (cap <? len packet) with true; [done|].
    pose proof (mc_frame_ne (0 :: mc_string (kick_text src))) as Hne.
    assert (packet <> []) by (apply Hne; unfold mc_string; pose proof (int2varint_length (len (kick_text src))); lens).
    destruct packet; [done|lens]. }
  if_as E1; [lia|]. rewrite <- Ht.
  change (kick_prefix ++ src ++ kick_suffix) with (kick_text src). rewrite make_frame_spec by lia.
  fold packet. by if_as E2.
Qed.

Lemma make_motd_spec cap src ver icon : 0 <= cap -> 0 <= ver < 2 ^ 32 ->
  len src < 2 ^ 29 -> len (default FAVICON_BASE64 icon) < 2 ^ 29 ->
  let packet := mc_frame (0 :: mc_string (motd_text src ver (default FAVICON_BASE64 icon))) in
  outcome (make_motd cap (Some src) ver icon) = Some (if cap <? len packet then [] else packet).
Proof.
  intros Hc Hver Hs Hi packet. set (ic := default FAVICON_BASE64 icon) in *.
  pose proof (decimal_u32_length ver Hver) as Hd.
  assert (Hk : len version_prefix = 33 /\ len players_middle = 68 /\ len favicon_prefix = 36 /\ len json_suffix = 2) by done.
  assert (Ht : len (motd_text src ver ic) = len version_prefix + len players_middle + len favicon_prefix
    + len json_suffix + len src + len (decimal ver) + len ic) by (unfold motd_text; lens).
  unfold make_motd, SIZE_MAX, UINT64_MAX. fold ic. if_as E0.
  { replace (cap <? len packet) with true; [done|].
    pose proof (mc_frame_ne (0 :: mc_string (motd_text src ver ic))) as Hne.
    assert (packet <> []) by (apply Hne; unfold mc_string; pose proof (int2varint_length (len (motd_text src ver ic))); lens).
    destruct packet; [done|lens]. }
  if_as E1; [lia|]. if_as E2; [lia|]. rewrite <- Ht.
  match goal with |- context [make_frame _ _ ?t] => change t with (motd_text src ver ic) end.
  rewrite make_frame_spec by lia. fold packet. by if_as E3.
Qed.

(** C13: the disconnect and status replies fit the destination or are refused, and
    a client decodes them as one packet holding the JSON text with the message. *)
Theorem replies_decode cap src ver icon : 0 <= cap -> 0 <= ver < 2 ^ 32 ->
  len src < 2 ^ 29 -> len (default FAVICON_BASE64 icon) < 2 ^ 29 ->
  (exists out, outcome (make_kickreason cap (Some src)) = Some out /\ len out <= cap /\
     (out = [] <-> cap < len (mc_frame (0 :: mc_string (kick_text src)))) /\
     (out <> [] -> reply_decode out = Some (kick_text src))) /\
  (exists out, outcome (make_motd cap (Some src) ver icon) = Some out /\ len out <= cap /\
     let text := motd_text src ver (default FAVICON_BASE64 icon) in
     (out = [] <-> cap < len (mc_frame (0 :: mc_string text))) /\
     (out <> [] -> reply_decode out = Some text)).
Proof.
  intros Hc Hver Hs Hi. set (ic := default FAVICON_BASE64 icon) in *.
  pose proof (decimal_u32_length ver Hver) as Hd.
  assert (Hk : len kick_prefix = 19 /\ len kick_suffix = 14) by done.
  assert (Hm : len version_prefix = 33 /\ len players_middle = 68 /\ len favicon_prefix = 36 /\ len json_suffix = 2) by done.
  assert (Hframe : forall text, len text < 2 ^ 31 -> let packet := mc_frame (0 :: mc_string text) in
    let out := if cap <? len packet then [] else packet in len out <= cap /\
    (out = [] <-> cap < len packet) /\ (out <> [] -> reply_decode out = Some text)).
  { intros text Ht packet out. pose proof (reply_decode_frame text Ht) as Hr.
    assert (packet <> []) by (apply mc_frame_ne; unfold mc_string; pose proof (int2varint_length (len text)); lens).
    subst out. destruct (cap <? len packet) eqn:E; repeat split; done || simpl; lia. }
  split; eexists; (split; [first [apply make_kickreason_spec; lia | apply make_motd_spec; (lia || done)]|]);
    apply Hframe; unfold kick_text, motd_text; lens.
Qed.

Lemma replies_decode_witness :
  exists out, outcome (make_kickreason 64 (Some [72; 105])) = Some out /\ len out <= 64 /\
     (out = [] <-> 64 < len (mc_frame (0 :: mc_string (kick_text [72; 105])))) /\
     (out <> [] -> reply_decode out = Some (kick_text [72; 105])).
Proof. apply (replies_decode 64 [72; 105] 47 (Some [65])); vm_compute; done. Defined.

(** ** Writing a handshake: proofs *)

(** The pointer fields are what their length fields say, and the integers have
    their C widths. *)
Record p_handshake_ok (p : p_handshake) : Prop := {
  ok_id_part1 : 0 <= id_part1 p < 2 ^ 32;
  ok_id_part2 : 0 <= id_part2 p < 2 ^ 32;
  ok_nextstate : 0 <= nextstate p < 2 ^ 32;
  ok_version : 0 <= version p < 2 ^ 32;
  ok_extra : 0 <= address_extra_length p;
  ok_extra_len : forall e, address_extra p = Some e -> address_extra_length p <= len e;
  ok_sig : 0 <= signature_data_length p;
  ok_sig_len : forall d, signature_data p = Some d -> signature_data_length p <= len d;
}.

Lemma packet_write_extra_safe p : p_handshake_ok p ->
  packet_write_extra p = Return [] \/
  exists extra, packet_write_extra p = Next extra /\ len extra = address_extra_length p.
Proof.
  intros [_ _ _ _ H5 H6 _ _]. unfold packet_write_extra.
  if_as E2; [|right; exists []; split; [done|simpl; lia]].
  destruct (address_extra p) as [e|]; [|by left]. specialize (H6 e eq_refl).
  destruct (rd8_safe (E:=bytes) e 0) as [b ->]; [lia|]. cbn [mbind run_bind]. if_as E3; [by left|].
  right. rewrite rdn_safe by lia. eexists. split; [done|]. apply len_slice; lia.
Qed.

Lemma packet_write_login_safe p : p_handshake_ok p ->
  packet_write_login p = Return [] \/
  exists u d, packet_write_login p = Next (u, d) /\
    (has_login (nextstate p) = true -> len u <= 128 /\ len d <= BUFSIZ - len u - 8).
Proof.
  intros [_ _ _ _ _ _ H7 H8]. unfold packet_write_login.
  destruct (has_login (nextstate p)) eqn:Hl; [|by right; exists [], []].
  destruct (username p) as [u|]; [|by left]. unfold PROTOHANDSHAKE_USERNAMEMAXLEN, BUFSIZ.
  if_as E3; [by left|]. right. if_as E6.
  - exists (cstr u), []. split; [done|]. simpl. lia.
  - destruct (signature_data p) as [d|]; [|lia]. specialize (H8 d eq_refl). simpl default.
    rewrite rdn_safe by lia. do 2 eexists. split; [done|]. rewrite len_slice by lia. lia.
Qed.

Lemma packet_write_part1_length p a extra : p_handshake_ok p ->
  len extra = address_extra_length p -> len a + len extra <= PROTOHANDSHAKE_ADDRESSMAXLEN ->
  1 <= len (packet_write_part1 p a extra) <= 3094.
Proof.
  intros [H1 _ H3 H4 _ _ _ _] He Ha. unfold PROTOHANDSHAKE_ADDRESSMAXLEN, ADDRESS_MAXLEN in *.
  pose proof (int2varint_length _ H1). pose proof (int2varint_length _ H3). pose proof (int2varint_length _ H4).
  pose proof (int2varint_length2 (len a + len extra) ltac:(lia)).
  unfold packet_write_part1, protocol_uint16_write. rewrite <- He. lens.
Qed.

Lemma packet_write_part2_length p u d : p_handshake_ok p ->
  (has_login (nextstate p) = true -> len u <= 128 /\ len d <= BUFSIZ - len u - 8) ->
  1 <= len (packet_write_part2 p u d) <= BUFSIZ.
Proof.
  intros [_ H2 _ _ _ _ _ _] Hu. pose proof (int2varint_length _ H2). unfold packet_write_part2, BUFSIZ in *.
  destruct (has_login _); [|lens]. destruct (Hu eq_refl) as [Hu1 Hu2].
  pose proof (int2varint_length2 (len u) ltac:(lia)).
  destruct (signature_data_length p =? 0); [lens|]. destruct (signature_placeholder _); [|lens].
  change (int2varint 1) with [1]. lens.
Qed.

Lemma packet_write_ok alloc cap p : p_handshake_ok p -> 0 <= cap ->
  exists out, outcome (packet_write alloc cap p) = Some out /\ len out <= cap.
Proof.
  intros Hp Hc. unfold packet_write.
  destruct (address p) as [a|]; [|by exists []]. if_as E1; [by exists []|].
  destruct (packet_write_extra_safe p Hp) as [->|(extra & -> & He)]; [by exists []|]. cbn [mbind run_bind].
  destruct (packet_write_login_safe p Hp) as [->|(u & d & -> & Hu)]; [by exists []|]. cbn [mbind run_bind].
  if_as E2; [by exists []|].
  pose proof (packet_write_part1_length p (cstr a) extra Hp He ltac:(lia)) as L1.
  pose proof (packet_write_part2_length p u d Hp Hu) as L2.
  unfold staged, BUFSIZ in *. if_as E3; [lia|]. cbn [mbind run_bind]. if_as E4; [lia|]. cbn [mbind run_bind].
  if_as E5; [by exists []|]. rewrite !varint_size_length in E5 by lia.
  eexists. split; [done|]. lens.
Qed.

(** [packet_write] overruns neither of its staging buffers nor the
    destination, and reads no more of the packet's fields than they hold. *)
Lemma packet_write_safe alloc cap p : p_handshake_ok p -> 0 <= cap ->
  exists out, outcome (packet_write alloc cap p) = Some out /\ len out <= cap.
Proof. apply packet_write_ok. Qed.

(** ** Writing then reading *)

(** Well-formed packets: an address without NUL or question mark, a remainder that starts
    with one of them, and, when the intent has a second frame, a user name that fits and
    signature data that is absent or neither empty nor too long for the frame. *)
Definition wf_address (p : p_handshake) (a : bytes) : Prop :=
  is_cstr a /\ Forall (fun c => c <> 63) a /\
  len a + address_extra_length p <= PROTOHANDSHAKE_ADDRESSMAXLEN /\
  match address_extra p with
  | None => a <> [] /\ address_extra_length p = 0
  | Some e => address_extra_length p = len e /\ exists c r, e = c :: r /\ (c = 0 \/ c = 63)
  end.

Definition wf_login (p : p_handshake) : Prop :=
  if has_login (nextstate p) then
    match username p with
    | None => False
    | Some u => is_cstr u /\ len u <= PROTOHANDSHAKE_USERNAMEMAXLEN /\
        match signature_data p with
        | None => signature_data_length p = 0
        | Some d => signature_data_length p = len d /\ 0 < len d <= BUFSIZ - len u - 8
        end
    end
  else username p = None /\ signature_data p = None /\ signature_data_length p = 0 /\ id_part2 p = 0.

Definition wf_packet (p : p_handshake) (a : bytes) : Prop :=
  p_handshake_ok p /\ 0 <= port p < 2 ^ 16 /\ address p = Some a /\ wf_address p a /\ wf_login p.

(** The two frames of a packet. *)
Definition encode1 (p : p_handshake) (a : bytes) : bytes :=
  packet_write_part1 p a (default [] (address_extra p)).
Definition encode2 (p : p_handshake) : bytes :=
  packet_write_part2 p (default [] (username p)) (default [] (signature_data p)).
Definition encode (p : p_handshake) (a : bytes) : bytes := mc_frame (encode1 p a) ++ mc_frame (encode2 p).

Lemma wf_extra p a : wf_packet p a -> packet_write_extra p = Next (default [] (address_extra p)) /\
  len (default [] (address_extra p)) = address_extra_length p.
Proof.
  intros (_ & _ & _ & (_ & _ & _ & He) & _). unfold packet_write_extra.
  destruct (address_extra p) as [e|]; cbn [from_option id].
  - destruct He as (-> & c & r & -> & Hc). split; [|done]. if_as E; [|lens].
    rewrite rd8_0. cbn [mbind run_bind]. if_as E2; [lia|]. rewrite rdn_safe by lia.
    f_equal. apply (at_off_all (c :: r) 0), at_off_start.
  - destruct He as [_ ->]. done.
Qed.

Lemma wf_second p a : wf_packet p a ->
  packet_write_login p = Next (default [] (username p), default [] (signature_data p)) /\
  (has_login (nextstate p) = true -> len (default [] (username p)) <= 128 /\
     len (default [] (signature_data p)) <= BUFSIZ - len (default [] (username p)) - 8).
Proof.
  intros (Hok & _ & _ & _ & Hl). unfold packet_write_login, wf_login in *.
  destruct (has_login (nextstate p)).
  - destruct (username p) as [u|]; [|done]. destruct Hl as (Hu & Hn & Hs). unfold PROTOHANDSHAKE_USERNAMEMAXLEN in *.
    rewrite cstr_id by done. unfold BUFSIZ in *. cbn [from_option id].
    destruct (signature_data p) as [d|].
    + destruct Hs as [-> Hd]. cbn [from_option id]. split; [|lia]. if_as E; [lia|]. if_as E2; [lia|].
      rewrite rdn_safe by lia. cbn [mbind run_bind].
      by rewrite (at_off_all d 0) by apply at_off_start.
    + rewrite Hs. cbn [from_option id]. split; [|simpl; lia]. if_as E; [lia|]. done.
  - destruct Hl as (-> & -> & _). done.
Qed.

Lemma packet_write_encode p a cap : wf_packet p a ->
  packet_write true cap p = if cap <? len (encode p a) then Return [] else Next (encode p a).
Proof.
  intros Hp. pose proof Hp as (Hok & _ & Ha & (Hc & _ & Hm & _) & _).
  destruct (wf_extra p a Hp) as [He Hel]. destruct (wf_second p a Hp) as [Hs Hsl].
  unfold packet_write. rewrite Ha, cstr_id by done. if_as E1; [lia|]. rewrite He, Hs. cbn [mbind run_bind negb].
  pose proof (packet_write_part1_length p a _ Hok Hel ltac:(lia)) as L1.
  pose proof (packet_write_part2_length p _ _ Hok Hsl) as L2.
  fold (encode1 p a) (encode2 p) in *. unfold staged, BUFSIZ in *.
  if_as E3; [lia|]. cbn [mbind run_bind]. if_as E4; [lia|]. cbn [mbind run_bind].
  rewrite !varint_size_length by lia. unfold encode, mc_frame. rewrite <- app_assoc, !len_app, !Z.add_assoc. done.
Qed.

Lemma read_varint_at mem off v rest limit : at_off mem off (int2varint v ++ rest) ->
  0 <= v < 2 ^ 32 -> off + len (int2varint v) <= limit ->
  read_varint mem off limit = Next (v, off + len (int2varint v)).
Proof. intros. unfold read_varint. by erewrite varint2int_at. Qed.

(** Read the next varint the cursor hypothesis [A] shows, and advance it. *)
Ltac varint_step A :=
  erewrite (read_varint_at _ _ _ _ _ A) by (done || lens);
  apply at_off_skip in A; cbn [mbind run_bind].

Lemma read_address_at mem off a e rest : at_off mem off (a ++ e ++ rest) ->
  is_cstr a -> Forall (fun c => c <> 63) a ->
  (forall c r, e = c :: r -> c = 0 \/ c = 63) ->
  packet_read_address mem off (len a + len e) =
  Next (a, match e with [] => None | _ => Some e end).
Proof.
  intros A Ha Hq He. unfold packet_read_address.
  pose proof (is_cstr_nonzero a Ha) as Ha0.
  assert (A' : at_off mem off ((a ++ e) ++ rest)) by by rewrite <- app_assoc.
  rewrite !(at_off_memchr _ _ _ _ _ _ A') by lens. cbn [mbind run_bind].
  rewrite !index_of_app_skip by done.
  destruct e as [|c r].
  - simpl. rewrite (at_off_rdn _ _ _ _ _ A) by lens. done.
  - assert (Hx : match (fun i => off + i) <$> ((fun i => len a + i) <$> index_of 0 (c :: r)),
                       (fun i => off + i) <$> ((fun i => len a + i) <$> index_of 63 (c :: r)) with
                 | None, q => q | Some n, Some q => if q <? n then Some q else Some n | Some n, None => Some n
                 end = Some (off + len a)).
    { destruct (He c r eq_refl) as [->| ->]; simpl.
      - destruct (index_of 63 r) as [k|] eqn:Ek; simpl; [|f_equal; lia].
        apply index_of_Some in Ek as (Hk & _). split_ifs; f_equal; lia.
      - destruct (index_of 0 r) as [k|] eqn:Ek; simpl; [|f_equal; lia].
        apply index_of_Some in Ek as (Hk & _). split_ifs; f_equal; lia. }
    rewrite Hx. rewrite (at_off_rdn _ _ _ _ _ A) by lia. cbn [mbind run_bind].
    apply at_off_skip in A. by rewrite (at_off_rdn _ _ _ _ _ A) by lia.
Qed.

(** The bytes after the user name, from which the signature data is read back. *)
Definition signature_field (p : p_handshake) : bytes :=
  if signature_data_length p =? 0 then [] else
  (if signature_placeholder (version p) then int2varint 1 else []) ++ default [] (signature_data p).

Lemma read_signature_at mem off p a rest : wf_packet p a -> has_login (nextstate p) = true ->
  at_off mem off (signature_field p ++ rest) ->
  packet_read_signature (fun _ => true) mem off (off + len (signature_field p)) (version p)
  = Next (signature_data p, signature_data_length p).
Proof.
  intros (_ & _ & _ & _ & Hw) Hl A. unfold wf_login in Hw. rewrite Hl in Hw.
  destruct (username p) as [u|]; [|done]. destruct Hw as (_ & _ & Hsig).
  unfold packet_read_signature, signature_field in *. rewrite Z.add_simpl_l.
  destruct (signature_data p) as [d|]; cbn [from_option id] in *; [|by rewrite Hsig; cbn].
  destruct Hsig as [Hn Hd]. rewrite Hn in *. replace (len d =? 0) with false in * by lia.
  destruct (signature_placeholder (version p)).
  - change (int2varint 1) with [1] in *. if_as E; [lens|]. cbn [app] in A.
    replace (off <? off + len ([1] ++ d)) with true by lens. cbn [andb].
    rewrite (at_off_rd8 _ _ _ _ A). cbn [mbind run_bind negb Z.eqb Pos.eqb].
    apply (at_off_skip _ _ [1]) in A. change (len [1]) with 1 in A.
    rewrite (at_off_rdn _ _ d rest) by (done || lens). cbn [mbind run_bind]. do 2 f_equal. lens.
  - cbn [app] in *. if_as E; [lens|]. cbn [andb mbind run_bind negb].
    by rewrite (at_off_rdn _ _ d rest) by (done || lens).
Qed.

Lemma read_part2_at mem off p a u rest : wf_packet p a -> has_login (nextstate p) = true ->
  username p = Some u -> at_off mem off (mc_frame (encode2 p) ++ rest) ->
  packet_read_part2 (fun _ => true) mem off (version p)
  = Next (id_part2 p, u, signature_data p, signature_data_length p).
Proof.
  intros Hp Hl Hu A. pose proof Hp as (Hok & _ & _ & _ & Hw). destruct (wf_second p a Hp) as [_ Hlen].
  pose proof (packet_write_part2_length p _ _ Hok Hlen) as L2. fold (encode2 p) in L2. unfold BUFSIZ in L2.
  unfold wf_login in Hw. rewrite Hl, Hu in Hw. destruct Hw as (Hcu & Hun & Hsig).
  pose proof (ok_id_part2 p Hok) as Hi2.
  unfold packet_read_part2, mc_frame, PROTOHANDSHAKE_USERNAMEMAXLEN in *. rewrite <- app_assoc in A.
  pose proof (at_off_len _ _ _ A) as [Hm H0]. rewrite !len_app in Hm.
  varint_step A. if_as E1; [lia|]. set (c1 := off + len (int2varint (len (encode2 p)))) in *.
  assert (He : encode2 p = int2varint (id_part2 p) ++ int2varint (len u) ++ u ++ signature_field p).
  { unfold encode2, packet_write_part2, signature_field. by rewrite Hl, Hu. }
  assert (Hel := f_equal (fun l => len l) He). cbn beta in Hel. rewrite !len_app in Hel.
  rewrite He in A at 1. rewrite <- !app_assoc in A.
  varint_step A. varint_step A. if_as E2; [lia|]. if_as E3; [lia|].
  cbn [negb]. rewrite (at_off_rdn _ _ _ _ _ A) by done. cbn [mbind run_bind]. apply at_off_skip in A.
  pose proof (read_signature_at _ _ p a _ Hp Hl A) as Hs.
  match type of Hs with packet_read_signature _ _ _ ?e _ = _ => replace e with (c1 + len (encode2 p)) in Hs by lia end.
  by rewrite Hs.
Qed.

Lemma wf_extra_shape p a : wf_packet p a -> let e := default [] (address_extra p) in
  match e with [] => None | _ => Some e end = address_extra p /\
  (forall c r, e = c :: r -> c = 0 \/ c = 63) /\ 0 < len a + len e <= PROTOHANDSHAKE_ADDRESSMAXLEN.
Proof.
  intros (_ & _ & _ & (_ & _ & Hm & He) & _). destruct (address_extra p) as [x|]; cbn [from_option id].
  - destruct He as (Hl & c & r & -> & Hc). split; [done|]. split; [|lens]. by intros ? ? [= -> ->].
  - destruct He as [Hne Hl]. split; [done|]. split; [done|]. destruct a; [done|]. simpl length in *. lia.
Qed.

Lemma read_second mem off p a rest : wf_packet p a -> at_off mem off rest ->
  (has_login (nextstate p) = true -> exists r, rest = mc_frame (encode2 p) ++ r) ->
  (if has_login (nextstate p) then
     '(id_part2, username, signature_data, n) ← packet_read_part2 (fun _ => true) mem off (version p);
     Next (id_part2, Some username, signature_data, n)
   else Next (E:=p_handshake) (0, None, None, 0))
  = Next (id_part2 p, username p, signature_data p, signature_data_length p).
Proof.
  intros Hp A Hrest. pose proof Hp as (_ & _ & _ & _ & Hw). unfold wf_login in Hw.
  destruct (has_login (nextstate p)) eqn:Hl.
  - destruct (username p) as [u|] eqn:Hu; [|done]. destruct (Hrest eq_refl) as [r ->]. by rewrite (read_part2_at _ _ p a u r).
  - by destruct Hw as (-> & -> & -> & ->).
Qed.

(** A packet is read back from its first frame, and from its second if it has a login. *)
Lemma read_frames mem p a rest : wf_packet p a -> at_off mem 0 (mc_frame (encode1 p a) ++ rest) ->
  (has_login (nextstate p) = true -> exists r, rest = mc_frame (encode2 p) ++ r) ->
  packet_read (fun _ => true) mem = Next p.
Proof.
  intros Hp A Hrest. pose proof Hp as (Hok & Hport & Ha & (Hc & Hq & Hm & _) & _).
  destruct (wf_extra p a Hp) as [_ Hel]. destruct (wf_extra_shape p a Hp) as (Hshape & Hhead & Hpos).
  pose proof (packet_write_part1_length p a _ Hok Hel ltac:(lia)) as L1. fold (encode1 p a) in L1.
  destruct Hok as [H1 H2 H3 H4 _ _ _ _]. unfold PROTOHANDSHAKE_ADDRESSMAXLEN, ADDRESS_MAXLEN in *.
  unfold packet_read. unfold mc_frame at 1 in A. rewrite <- !app_assoc in A.
  pose proof (at_off_len _ _ _ A) as [Hml _]. rewrite !len_app in Hml.
  varint_step A. if_as E1; [lia|]. set (c1 := 0 + len (int2varint (len (encode1 p a)))) in *.
  set (e := default [] (address_extra p)) in *.
  assert (Hd : encode1 p a = int2varint (id_part1 p) ++ int2varint (version p) ++ int2varint (len a + len e)
    ++ a ++ e ++ protocol_uint16_write (port p) ++ int2varint (nextstate p)).
  { unfold encode1, packet_write_part1. by rewrite Hel. }
  assert (Hdl := f_equal (fun l => len l) Hd). cbn beta in Hdl. rewrite !len_app in Hdl.
  change (len (protocol_uint16_write (port p))) with 2 in Hdl.
  rewrite Hd in A at 1. rewrite <- !app_assoc in A. do 3 varint_step A.
  unfold PROTOHANDSHAKE_ADDRESSMAXLEN, ADDRESS_MAXLEN. if_as E2; [lia|]. if_as E3; [lia|]. if_as E4; [lia|].
  rewrite (read_address_at _ _ a e _ A Hc Hq Hhead), Hshape. cbn [mbind run_bind negb]. rewrite andb_false_r.
  apply at_off_skip, at_off_skip in A. if_as E5; [lia|]. rewrite <- !Z.add_assoc in *.
  rewrite (uint16_read_at _ _ _ _ A Hport). cbn [mbind run_bind]. apply at_off_skip in A.
  change (len (protocol_uint16_write (port p))) with 2 in A. rewrite <- !Z.add_assoc in *.
  varint_step A. rewrite <- !Z.add_assoc in *. if_as E6; [lia|].
  rewrite (read_second _ _ p a rest Hp A Hrest). cbn [mbind run_bind]. f_equal.
  assert (Hx : (if address_extra p is Some tail then len tail else 0) = address_extra_length p)
    by (rewrite <- Hel; subst e; by destruct (address_extra p)).
  rewrite Hx, <- Ha. by destruct p.
Qed.

Lemma read_encode mem p a rest : wf_packet p a -> at_off mem 0 (encode p a ++ rest) ->
  packet_read (fun _ => true) mem = Next p.
Proof. intros Hp A. unfold encode in A. rewrite <- app_assoc in A. apply (read_frames mem p a _ Hp A). eauto. Qed.

(** C2: a well-formed packet, whose address has no NUL or question mark, whose remainder
    starts with one of them, and whose second frame, if its intent has one, has a user name
    and signature data that is absent or neither empty nor too long, is written in two
    frames that fit the destination, or refused when they do not; and when memory is
    available, reading the bytes back, with anything behind them, gives the same packet. *)
Theorem packet_roundtrip p a cap rest : wf_packet p a -> 0 <= cap ->
  packet_write true cap p = (if cap <? len (encode p a) then Return [] else Next (encode p a)) /\
  packet_read (fun _ => true) (encode p a ++ rest) = Next p.
Proof.
  intros Hp Hc. split; [by apply packet_write_encode|]. apply (read_encode _ p a rest Hp), at_off_start.
Qed.

Definition sample_packet : p_handshake :=
  {| id_part1 := 0; id_part2 := 0; nextstate := 2; version := 47;
     address := Some [97; 46; 98]; address_extra := Some [0; 70]; signature_data := Some [5; 6]; username := Some [66];
     address_extra_length := 2; signature_data_length := 2; port := 25565 |}.

Lemma sample_packet_wf : wf_packet sample_packet [97; 46; 98].
Proof.
  repeat split; simpl; try lia; try done; try (intros ? [= <-]; simpl; lia);
    repeat constructor; try lia; try done; try (by vm_compute).
  by exists 0, [70]; auto.
Qed.

Lemma packet_roundtrip_witness :
  packet_write true 64 sample_packet = Next (encode sample_packet [97; 46; 98]) /\
  packet_read (fun _ => true) (encode sample_packet [97; 46; 98] ++ [1; 2; 3]) = Next sample_packet.
Proof. apply (packet_roundtrip sample_packet [97; 46; 98] 64 [1; 2; 3] sample_packet_wf). lia. Defined.

(** ** Written packets are recognised *)

(** A handshake proper: packet id zero, a version and an intent of the protocol. *)
Definition is_handshake (p : p_handshake) : Prop :=
  id_part1 p = 0 /\ version p <> 0 /\
  (nextstate p = CLIENT_INTENT_STATUS \/ nextstate p = CLIENT_INTENT_LOGIN \/ nextstate p = CLIENT_INTENT_TRANSFER).

Lemma encode1_shape p a : wf_packet p a -> is_handshake p ->
  exists mid, encode1 p a = 0 :: int2varint (version p) ++ mid ++ [nextstate p] /\ 4 <= len mid /\ len (encode1 p a) <= 3094.
Proof.
  intros Hp (Hi & _ & Hn). pose proof Hp as (Hok & _ & _ & (_ & _ & Hm & _) & _).
  destruct (wf_extra p a Hp) as [_ Hel]. destruct (wf_extra_shape p a Hp) as (_ & _ & Hpos).
  pose proof (packet_write_part1_length p a _ Hok Hel ltac:(lia)) as L1. fold (encode1 p a) in L1.
  assert (Hns : int2varint (nextstate p) = [nextstate p]) by (destruct Hn as [->|[->| ->]]; done).
  unfold PROTOHANDSHAKE_ADDRESSMAXLEN, ADDRESS_MAXLEN in *.
  pose proof (int2varint_length (len a + address_extra_length p) ltac:(lia)).
  exists (int2varint (len a + address_extra_length p) ++ a ++ default [] (address_extra p) ++ protocol_uint16_write (port p)).
  split; [|split; [|lia]].
  - unfold encode1, packet_write_part1. rewrite Hi, Hns. change (int2varint 0) with [0].
    rewrite <- !app_assoc. done.
  - rewrite !len_app. change (len (protocol_uint16_write (port p))) with 2. lia.
Qed.

Lemma int2varint_small n : 0 <= n < 16384 ->
  int2varint n = if n <? 128 then [n] else [n mod 128 + 128; n / 128].
Proof.
  intros. rewrite int2varint_digits by lia. cbn [varint_digits]. destruct (n <? 128); [done|].
  by replace (n / 128 <? 128) with true by zlia.
Qed.

Lemma encode_opens_modern p a rest : wf_packet p a -> is_handshake p ->
  opens_modern (mc_frame (encode1 p a) ++ rest) = true.
Proof.
  intros Hp Hh. destruct (encode1_shape p a Hp Hh) as (mid & He & Hm & Hl). unfold mc_frame.
  assert (Hlo : 5 <= len (encode1 p a)) by (rewrite He; lens).
  rewrite int2varint_small by lia. set (n := len (encode1 p a)) in *. rewrite He.
  destruct (n <? 128) eqn:E; cbn [app opens_modern].
  - replace (n =? 1) with false by lia. replace (n =? 2) with false by lia. by replace (n =? 254) with false by lia.
  - replace (n mod 128 + 128 =? 1) with false by zlia. replace (n mod 128 + 128 =? 2) with false by zlia.
    cbn. rewrite !orb_true_r. done.
Qed.

Lemma identify_encode p a rest : wf_packet p a -> is_handshake p ->
  protocol_identify_modern (mc_frame (encode1 p a) ++ rest) = Next (PVER_MODERN2, nextstate p).
Proof.
  intros Hp Hh. destruct (encode1_shape p a Hp Hh) as (mid & He & Hm & Hl). destruct Hh as (Hi & Hv & Hn).
  pose proof Hp as (Hok & _). pose proof (ok_version p Hok) as Hvr.
  set (mem := mc_frame (encode1 p a) ++ rest). pose proof (at_off_start mem) as A.
  unfold mem in A at 2. unfold mc_frame in A. rewrite <- app_assoc in A.
  pose proof (at_off_len _ _ _ A) as [Hml _]. rewrite !len_app in Hml.
  pose proof (int2varint_length (len (encode1 p a)) ltac:(lia)) as L1. pose proof (int2varint_length _ Hvr) as L2.
  unfold protocol_identify_modern, protocol_varint_read. rewrite (varint2int_at _ _ _ _ _ A) by lia.
  cbn [catch mbind run_bind]. apply at_off_skip in A.
  assert (Hel := f_equal (fun l => len l) He). cbn beta in Hel. rewrite len_cons, !len_app in Hel. simpl (len [_]) in Hel.
  if_as E1; [lia|]. set (n := len (encode1 p a)) in *. rewrite He in A. cbn [app] in A.
  change (0 :: (int2varint (version p) ++ mid ++ [nextstate p]) ++ rest)
    with (int2varint 0 ++ (int2varint (version p) ++ mid ++ [nextstate p]) ++ rest) in A. rewrite <- !app_assoc in A.
  rewrite (varint2int_at _ _ _ _ _ A) by (change (len (int2varint 0)) with 1; lia). apply at_off_skip in A.
  change (len (int2varint 0)) with 1 in *. cbn [catch mbind run_bind Z.eqb negb].
  rewrite (varint2int_at _ _ _ _ _ A) by lia. apply at_off_skip, at_off_skip in A. cbn [catch mbind run_bind].
  if_as E2; [lia|].
  match type of A with at_off _ ?o _ => replace (0 + len (int2varint n) + n - 1) with o by lia end.
  rewrite (at_off_rd8 _ _ _ _ A). cbn [mbind run_bind]. replace (version p =? 0) with false by lia.
  destruct Hn as [->|[->| ->]]; done.
Qed.

Lemma encode2_ne p a : wf_packet p a -> 1 <= len (encode2 p) <= BUFSIZ.
Proof.
  intros Hp. pose proof Hp as (Hok & _). apply packet_write_part2_length; [done|]. by apply (wf_second p a).
Qed.

(** One frame, followed by anything. *)
Lemma frame_recognised p a tail : wf_packet p a -> is_handshake p ->
  outcome (protocol_identify (Some (mc_frame (encode1 p a) ++ tail))) = Some (PVER_MODERN2, nextstate p) /\
  (nextstate p = CLIENT_INTENT_STATUS ->
   outcome (protocol_packet_length (Some (mc_frame (encode1 p a) ++ tail))) = Some (PROTOCOL_PACKET_COMPLETE, len (mc_frame (encode1 p a)))).
Proof.
  intros Hp Hh. pose proof (encode_opens_modern p a tail Hp Hh) as Ho.
  rewrite packet_length_modern_case, identify_modern_case, identify_encode by done. split; [done|]. intros Hn.
  destruct (encode1_shape p a Hp Hh) as (mid & He1 & _ & Hl). assert (1 <= len (encode1 p a)) by (rewrite He1; lens).
  pose proof (encode_opens_modern p a [] Hp Hh) as Ho'. pose proof (identify_encode p a [] Hp Hh) as Hi.
  rewrite app_nil_r in Ho', Hi. rewrite <- identify_modern_case in Hi by done.
  by rewrite (packet_length_one_frame _ _ PVER_MODERN2 (nextstate p)); [|lia|done|rewrite Hi|rewrite Hn].
Qed.

Lemma encode_recognised p a rest : wf_packet p a -> is_handshake p ->
  outcome (protocol_packet_length (Some (encode p a ++ rest)))
  = Some (PROTOCOL_PACKET_COMPLETE, if has_login (nextstate p) then len (encode p a) else len (mc_frame (encode1 p a))) /\
  outcome (protocol_identify (Some (encode p a ++ rest))) = Some (PVER_MODERN2, nextstate p).
Proof.
  intros Hp Hh. unfold encode. rewrite <- app_assoc. destruct (frame_recognised p a (mc_frame (encode2 p) ++ rest) Hp Hh) as [Hid Hst].
  split; [|done]. destruct (encode1_shape p a Hp Hh) as (mid & He1 & _ & Hl).
  pose proof (encode2_ne p a Hp) as L2. unfold BUFSIZ in L2.
  pose proof (encode_opens_modern p a [] Hp Hh) as Ho'. pose proof (identify_encode p a [] Hp Hh) as Hi.
  rewrite app_nil_r in Ho', Hi. rewrite <- identify_modern_case in Hi by done.
  assert (1 <= len (encode1 p a)) by (rewrite He1; lens).
  destruct (proj2 (proj2 Hh)) as [Hn|Hn]; [by rewrite Hst, Hn|].
  assert (Hlg : has_login (nextstate p) = true) by (destruct Hn as [->| ->]; done).
  rewrite Hlg, packet_length_modern_case, len_app by (by apply encode_opens_modern).
  apply (packet_length_two_frames _ _ PVER_MODERN2 (nextstate p)) with rest; [lia|done|by rewrite Hi|done| |lia|done].
  by destruct Hn as [->| ->].
Qed.

(** The packets the relay writes are what its own framing expects: one
    handshake frame for a status request, handshake and login start for a login
    or a transfer, of the protocol and the intent written. *)
Lemma packet_write_recognised p a rest : wf_packet p a -> is_handshake p ->
  outcome (protocol_packet_length (Some (encode p a ++ rest)))
  = Some (PROTOCOL_PACKET_COMPLETE, if has_login (nextstate p) then len (encode p a) else len (mc_frame (encode1 p a))) /\
  outcome (protocol_identify (Some (encode p a ++ rest))) = Some (PVER_MODERN2, nextstate p).
Proof. apply encode_recognised. Qed.

