(* ===== verification/HandshakeParsed.v ===== *)
(** * What [packet_read] produces ([src/src/protocol/handshake.c])

    The packets read from arbitrary bytes have consistent fields; those without a
    login are the ones that survive writing, and the framing of
    [src/src/protocol/common.c] identifies the same packet. *)

From S2P Require Import Prelude Basic Protocol Handshake.

(** ** The address *)

Lemma slice_take mem off n k : 0 <= k <= n -> slice mem off k = take (Z.to_nat k) (slice mem off n).
Proof. intros. unfold slice. rewrite take_take. f_equal. lia. Qed.

Lemma drop_slice mem off n k : 0 <= off -> 0 <= k <= n -> slice mem (off + k) (n - k) = drop (Z.to_nat k) (slice mem off n).
Proof. intros. unfold slice. rewrite skipn_firstn_comm, drop_drop. f_equal; [lia|]. f_equal. lia. Qed.

(** An address field that is split at the first NUL or question mark. *)
Definition split_address (a : bytes) (e : option bytes) : Prop :=
  is_cstr a /\ Forall (fun c => c <> 63) a /\
  match e with
  | None => True
  | Some e => exists c r, e = c :: r /\ (c = 0 \/ c = 63)
  end.

Lemma cstr_of_bytes l : is_bytes l -> Forall (fun c => c <> 0) l -> is_cstr l.
Proof. unfold is_bytes, is_cstr. rewrite !Forall_forall. intros H1 H2 x Hx. specialize (H1 x Hx). specialize (H2 x Hx). unfold is_byte in H1. lia. Qed.

Lemma split_at s k c : is_bytes s -> s !! Z.to_nat k = Some c -> c = 0 \/ c = 63 -> Forall (fun b => b <> 0) (take (Z.to_nat k) s) ->
  Forall (fun b => b <> 63) (take (Z.to_nat k) s) -> split_address (take (Z.to_nat k) s) (Some (drop (Z.to_nat k) s)).
Proof.
  intros Hb Hk Hc H0 H63. split; [|split; [done|]].
  - apply cstr_of_bytes; [|done]. by apply Forall_take.
  - exists c, (drop (S (Z.to_nat k)) s). split; [|done]. by apply drop_S.
Qed.

Lemma Forall_take_le (P : Z -> Prop) i j (l : bytes) : (i <= j)%nat -> Forall P (take j l) -> Forall P (take i l).
Proof. intros Hij H. replace i with (i `min` j)%nat by lia. rewrite <- take_take. by apply Forall_take. Qed.

Lemma read_address_parsed mem src n : is_bytes mem -> 0 <= src -> 0 <= n -> src + n <= len mem ->
  exists a e, packet_read_address mem src n = Next (a, e) /\ split_address a e /\ len a + len (default [] e) = n.
Proof.
  intros Hb H1 H2 H3. set (s := slice mem src n). assert (Hl : len s = n) by (apply len_slice; lia).
  assert (Hsb : is_bytes s) by by apply is_bytes_slice. unfold packet_read_address. rewrite !memchr_safe by done. cbn [mbind run_bind]. fold s.
  assert (Hcut : forall k, 0 <= k < n -> Forall (fun b => b <> 0) (take (Z.to_nat k) s) -> Forall (fun b => b <> 63) (take (Z.to_nat k) s) ->
    (s !! Z.to_nat k = Some 0 \/ s !! Z.to_nat k = Some 63) ->
    exists a e, (address ← rdn mem src (src + k - src); tail ← rdn mem (src + k) (src + n - (src + k)); Next (E:=p_handshake) (address, Some tail)) = Next (a, e) /\
      split_address a e /\ len a + len (default [] e) = n).
  { intros k Hk H0 H63 Hc. rewrite !rdn_safe by lia. cbn [mbind run_bind].
    replace (src + k - src) with k by lia. replace (src + n - (src + k)) with (n - k) by lia.
    rewrite (slice_take mem src n k), (drop_slice mem src n k) by lia. fold s. eexists _, _. split; [done|]. split.
    - destruct Hc as [Hc|Hc]; eapply split_at; eauto.
    - cbn [from_option id]. rewrite <- Hl. rewrite length_take, length_drop. lia. }
  destruct (index_of 0 s) as [i|] eqn:Ei; destruct (index_of 63 s) as [j|] eqn:Ej; cbn [fmap option_fmap option_map].
  - apply index_of_Some in Ei as (Hi & Hic & Hif). apply index_of_Some in Ej as (Hj & Hjc & Hjf).
    destruct (src + j <? src + i) eqn:E; (apply Hcut; [lia| | |by auto]); try done.
    + apply (Forall_take_le _ _ (Z.to_nat i)); [lia|done].
    + apply (Forall_take_le _ _ (Z.to_nat j)); [lia|done].
  - apply index_of_Some in Ei as (Hi & Hic & Hif). apply Hcut; auto; [lia|]. apply Forall_take. by apply index_of_None.
  - apply index_of_Some in Ej as (Hj & Hjc & Hjf). apply Hcut; auto; [lia|]. apply Forall_take. by apply index_of_None.
  - rewrite rdn_safe by lia. fold s. eexists s, None. split; [done|]. split; [|simpl; lia]. split; [|split; [|done]].
    + apply cstr_of_bytes; [done|]. by apply index_of_None.
    + by apply index_of_None.
Qed.

(** ** The packet *)

(** What is known of a packet read from arbitrary bytes. *)
Definition parsed (p : p_handshake) : Prop :=
  match address p with
  | None => p = p_handshake_zero
  | Some a =>
      p_handshake_ok p /\ 0 <= port p < 2 ^ 16 /\ split_address a (address_extra p) /\
      address_extra_length p = len (default [] (address_extra p)) /\
      0 < len a + address_extra_length p <= PROTOHANDSHAKE_ADDRESSMAXLEN /\
      if has_login (nextstate p)
      then exists u, username p = Some u /\ len u <= PROTOHANDSHAKE_USERNAMEMAXLEN
      else username p = None /\ signature_data p = None /\ signature_data_length p = 0 /\ id_part2 p = 0
  end.

Lemma read_varint_parsed mem src limit : is_bytes mem -> 0 <= src -> limit <= len mem ->
  match read_varint mem src limit with
  | Next (v, c) => src < c <= limit /\ 0 <= v < 2 ^ 32
  | Return p => p = p_handshake_zero
  | Oob => False
  end.
Proof.
  intros Hm Hs Hl. pose proof (read_varint_spec mem src limit Hm Hs Hl) as H. unfold read_varint in *.
  by destruct (varint2int mem src limit).
Qed.

(** Read the next varint; a failure is the zero packet. *)
Ltac varint_parsed v c :=
  match goal with
  | |- context [mbind _ (read_varint ?mem ?src ?limit)] =>
      let H := fresh "Hv" in
      pose proof (read_varint_parsed mem src limit ltac:(done) ltac:(lia) ltac:(lia)) as H;
      destruct (read_varint mem src limit) as [[v c]| |]; [|by rewrite H|done]; cbn [mbind run_bind]
  end.

Lemma read_part2_parsed alloc mem src ver : is_bytes mem -> 0 <= src ->
  match packet_read_part2 alloc mem src ver with
  | Next (id2, u, sd, n) => 0 <= id2 < 2 ^ 32 /\ len u <= PROTOHANDSHAKE_USERNAMEMAXLEN /\ n = len (default [] sd)
  | Return p => p = p_handshake_zero
  | Oob => False
  end.
Proof.
  intros Hm Hs. unfold packet_read_part2. varint_parsed sz c1. if_as E1; [done|].
  varint_parsed i2 c2. varint_parsed ul c3. if_as E2; [done|]. if_as E3; [done|]. if_as E4; [done|].
  rewrite rdn_safe by lia. cbn [mbind run_bind].
  assert (Hu : len (slice mem c3 ul) <= PROTOHANDSHAKE_USERNAMEMAXLEN) by (rewrite len_slice; lia).
  enough (Hsg : match packet_read_signature alloc mem (c3 + ul) (c1 + sz) ver with
                | Next (sd, n) => n = len (default [] sd) | Return p => p = p_handshake_zero | Oob => False end)
    by (destruct (packet_read_signature _ _ _ _ _) as [[]| |]; cbn [mbind run_bind]; [|done..]; split_and!; [lia..|done|done]).
  unfold packet_read_signature. if_as E5; [done|].
  destruct (signature_placeholder ver && _) eqn:E6; [rd_next; destruct (b =? 1)|]; cbn [mbind run_bind];
    (if_as E8; [done|]); rewrite rdn_safe by lia; cbn [mbind run_bind from_option id]; rewrite len_slice by lia; done.
Qed.

Lemma packet_read_parsed alloc mem : is_bytes mem -> exists p, outcome (packet_read alloc mem) = Some p /\ parsed p.
Proof.
  intros Hm. enough (H : match packet_read alloc mem with Next p => parsed p | Return p => p = p_handshake_zero | Oob => False end).
  { destruct (packet_read alloc mem) as [p|p|]; [by exists p|exists p; subst; by split|done]. }
  unfold packet_read. varint_parsed s1 c1. if_as E1; [done|]. varint_parsed i1 c2. varint_parsed ver c3. varint_parsed al c4.
  if_as E2; [done|]. if_as E3; [done|]. if_as E4; [done|].
  destruct (read_address_parsed mem c4 al) as (a & e & -> & Ha & Hl); [done|lia..|]. cbn [mbind run_bind].
  if_as E5; [done|]. if_as E6; [done|]. if_as E7; [done|]. u16_next. varint_parsed ns c5. if_as E8; [done|].
  assert (He : (if e is Some tail then len tail else 0) = len (default [] e)) by (by destruct e). rewrite He.
  pose proof (read_part2_parsed alloc mem c5 ver Hm ltac:(lia)) as H2. destruct (has_login ns) eqn:Hlog.
  - destruct (packet_read_part2 _ _ _ _) as [[[[i2 u] sd] n]| |]; cbn [mbind run_bind]; [|done..]. destruct H2 as (Hi2 & Hu & ->).
    cbn. rewrite Hlog. split; [constructor; cbn; try lia; by intros ? ->|]. split; [lia|]. split; [done|]. split; [done|]. split; [lia|]. by exists u.
  - cbn. rewrite Hlog. split; [constructor; cbn; try lia; by intros ? ->|]. split; [lia|]. split; [done|]. split; [done|]. split; [lia|done].
Qed.

(** A packet without a login survives writing. *)
Lemma parsed_wf p a : parsed p -> address p = Some a -> has_login (nextstate p) = false -> wf_packet p a.
Proof.
  unfold parsed. intros H Ha Hl. rewrite Ha, Hl in H. destruct H as (Hok & Hport & (Hc & Hq & He) & Hel & Hlen & Hrest).
  split; [done|]. split; [done|]. split; [done|]. split; [|unfold wf_login; by rewrite Hl].
  split; [done|]. split; [done|]. split; [lia|]. destruct (address_extra p) as [e|]; simpl in *; [done|].
  split; [by intros ->; simpl in *; lia|lia].
Qed.

(** The same with another address. *)
Lemma readdressed_wf p p' a d port' : wf_packet p a -> is_cstr d -> Forall (fun c => c <> 63) d -> d <> [] ->
  len d + address_extra_length p <= PROTOHANDSHAKE_ADDRESSMAXLEN -> 0 <= port' < 2 ^ 16 ->
  p' = {| id_part1 := id_part1 p; id_part2 := id_part2 p; nextstate := nextstate p; version := version p; address := Some d;
          address_extra := address_extra p; signature_data := signature_data p; username := username p;
          address_extra_length := address_extra_length p; signature_data_length := signature_data_length p; port := port' |} ->
  wf_packet p' d.
Proof.
  intros (Hok & Hport & Ha & (Hc & Hq & Hl & He) & Hw) Hd Hdq Hne Hdl Hp' ->. destruct Hok.
  split; [by constructor|]. split; [done|]. split; [done|]. split; [|done]. split; [done|]. split; [done|]. split; [done|].
  cbn. destruct (address_extra p); [done|]. by destruct He.
Qed.

(** ** Identified packets *)

Lemma identify_modern2 mem i : outcome (protocol_identify (Some mem)) = Some (PVER_MODERN2, i) ->
  outcome (protocol_identify_modern mem) = Some (PVER_MODERN2, i).
Proof.
  unfold protocol_identify. generalize (protocol_identify_modern mem). intros m.
  unfold rd8, memchr. intros H. by repeat (split_match_in H; cbn [mbind run_bind] in H; try done).
Qed.

(** Failures of the reader are the zero packet, and its results satisfy [Q]. *)
Definition yields {A} (Q : A -> Prop) (r : run p_handshake A) : Prop :=
  match r with Next a => Q a | Return p => p = p_handshake_zero | Oob => True end.
Abbreviation zero_return r := (yields (fun _ => True) r).

Lemma yields_bind {A B} (Q : B -> Prop) (r : run p_handshake A) (k : A -> run p_handshake B) :
  zero_return r -> (forall a, yields Q (k a)) -> yields Q (r ≫= k).
Proof. destruct r; simpl; auto. Qed.

Lemma read_varint_zero mem src limit : zero_return (read_varint mem src limit).
Proof. unfold read_varint. by destruct (varint2int mem src limit). Qed.
Lemma rdn_zero mem off n : zero_return (rdn mem off n).
Proof. unfold rdn. by split_ifs. Qed.
Lemma rd8_zero mem off : zero_return (rd8 mem off).
Proof. unfold rd8. by split_ifs. Qed.
Lemma memchr_zero mem off n c : zero_return (memchr mem off n c).
Proof. unfold memchr. by split_ifs. Qed.

Create HintDb zero_return.
#[export] Hint Resolve read_varint_zero rdn_zero rd8_zero memchr_zero : zero_return.

(** Run through a reader, one call and one condition at a time. *)
Ltac yields :=
  repeat first
    [ progress (auto with zero_return)
    | apply yields_bind; [|intros ?]
    | match goal with
      | |- yields _ (Next _) => done
      | |- yields _ (Return _) => done
      | |- yields _ (let '(_, _) := ?x in _) => destruct x
      | |- yields _ (if ?b then _ else _) => destruct b
      | |- yields _ (match ?x with Some _ => _ | None => _ end) => destruct x
      end].

Lemma read_address_zero mem src n : zero_return (packet_read_address mem src n).
Proof. unfold packet_read_address. yields. Qed.
Lemma uint16_zero mem off : zero_return (protocol_uint16_read mem off).
Proof. unfold protocol_uint16_read. yields. Qed.
Lemma read_part2_zero alloc mem src ver : zero_return (packet_read_part2 alloc mem src ver).
Proof. unfold packet_read_part2, packet_read_signature. yields. Qed.
#[export] Hint Resolve read_address_zero uint16_zero read_part2_zero : zero_return.

(** The framing and the reader see the same packet identifier and version. *)
Lemma parsed_identified alloc mem i p a : outcome (protocol_identify (Some mem)) = Some (PVER_MODERN2, i) ->
  outcome (packet_read alloc mem) = Some p -> address p = Some a -> id_part1 p = 0 /\ version p <> 0.
Proof.
  intros Hi Hp Ha. apply identify_modern2 in Hi. unfold protocol_identify_modern, protocol_varint_read in Hi.
  enough (H : yields (fun p => id_part1 p = 0 /\ version p <> 0) (packet_read alloc mem)).
  { destruct (packet_read alloc mem); simpl in *; simplify_eq; done. }
  unfold packet_read, read_varint.
  destruct (varint2int mem 0 (len mem)) as [[fs c1]|e|]; cbn [catch mbind run_bind] in *; [|done..].
  destruct (len mem - c1 <? fs); [done|]. destruct (fs =? 0); [done|]. cbn [orb] in Hi.
  destruct (varint2int mem c1 (c1 + fs)) as [[id c2]|e|]; cbn [catch mbind run_bind] in *; [|done..].
  destruct (id =? 0) eqn:Eid; [|done]. cbn [negb] in Hi. apply Z.eqb_eq in Eid as ->.
  destruct (varint2int mem c2 (c1 + fs)) as [[ver c3]|e|]; cbn [catch mbind run_bind] in *; [|done..].
  assert (Hver : ver <> 0).
  { intros ->. unfold rd8 in Hi. by repeat (split_match_in Hi; cbn [mbind run_bind] in Hi; try done). }
  clear Hi. assert (Hz : forall src limit, zero_return (catch (varint2int mem src limit) (fun _ => p_handshake_zero)))
    by (intros; apply read_varint_zero). yields.
Qed.
