(* ===== verification/HandshakeLegacy.v ===== *)
(** * Legacy handshake packets ([src/src/protocol/handshake_legacy.c])

    Login and server-list packets of the clients before 13w41a.  The character
    arrays of the C structures hold NUL-terminated strings; a field is the list
    of the bytes stored in the array, its string is [cstr] of it. *)

From Stdlib Require Import String.
From S2P Require Import Prelude Basic Protocol.

(** ** Packets *)

Record p_login_legacy := {
  proto_ver : protocol_version;
  username : bytes; address : bytes;
  port : Z;
  version : Z;
}.

Record p_motd_legacy := { m_address : option bytes; m_port : Z; m_version : Z }.

(** The structures after [memset(&result, 0, sizeof(result))]. *)
Definition p_login_legacy_zero : p_login_legacy :=
  {| proto_ver := PVER_UNIDENT; username := []; address := []; port := 0; version := 0 |}.
Definition p_motd_legacy_zero : p_motd_legacy := {| m_address := None; m_port := 0; m_version := 0 |}.

(** ** Replies; the empty list stands for the returned zero *)

Definition legacy_char_write (value : Z) : bytes := protocol_uint16_write value.
Definition legacy_chars (s : bytes) : bytes := concat (legacy_char_write <$> s).

Definition make_kickreason_legacy (dst_capacity : Z) (src : option bytes) : bytes :=
  match src with
  | None => []
  | Some src =>
      if dst_capacity <? 3 then [] else
      let source_size := len src in
      if (UINT16_MAX <? source_size) || ((SIZE_MAX - 3) / 2 <? source_size)
         || (dst_capacity <? 3 + source_size * 2) then [] else
      [255] ++ protocol_uint16_write source_size ++ concat (protocol_uint16_write <$> src)
  end.

Definition section_open : bytes := [167; 49; 0].
Definition section_split : bytes := [0; 0].
Definition section_tail : bytes := [48; 0; 48].
Definition section_zero : bytes := [167; 48; 167; 48].

(** The [do ... while (remaining_version != 0)] loop, least digit first. *)
Fixpoint version_digits (fuel : nat) (remaining_version : Z) : bytes :=
  match fuel with
  | O => []
  | S fuel =>
      (48 + remaining_version mod 10) ::
      (let remaining_version := remaining_version / 10 in
       if negb (remaining_version =? 0) then version_digits fuel remaining_version else [])
  end.

Definition make_motd_legacy (dst_capacity : Z) (src : option bytes) (motd_version : protocol_version)
    (version : Z) : bytes :=
  match src with
  | None => []
  | Some src =>
      if dst_capacity <? 3 then [] else
      let message_length := len src in
      let digits := version_digits 3 version in
      let digit_count := len digits in
      match (match motd_version with
             | PVER_LEGACYM1 => Some (len section_zero)
             | PVER_LEGACYM2 | PVER_LEGACYM3 =>
                 Some (digit_count + len section_open + len section_split + len section_tail + 1)
             | _ => None
             end) with
      | None => []
      | Some overhead =>
          if UINT16_MAX - overhead <? message_length then [] else
          let character_count := message_length + overhead in
          if (dst_capacity - 3) / 2 <? character_count then [] else
          [255] ++ protocol_uint16_write character_count ++
          match motd_version with
          | PVER_LEGACYM1 => legacy_chars src ++ legacy_chars section_zero
          | _ => legacy_chars section_open ++ legacy_chars (reverse digits) ++ legacy_chars section_split
                 ++ legacy_chars (src ++ [0]) ++ legacy_chars section_tail
          end
      end
  end.

(** ** Server-list pings with a host name *)

(** The loop over the characters of the address: the low byte of each. *)
Fixpoint legacy_chars_read (src : bytes) (n : nat) (off : Z) : run p_motd_legacy bytes :=
  match n with
  | O => Next []
  | S n =>
      c ← protocol_uint16_read src off;
      rest ← legacy_chars_read src n (off + 2);
      Next (u8 c :: rest)
  end.

Definition packet_read_legacy_motd (alloc : bool) (src : option bytes) : run p_motd_legacy p_motd_legacy :=
  match src with
  | None => Return p_motd_legacy_zero
  | Some src =>
      let src_size := len src in
      if src_size <? 36 then Return p_motd_legacy_zero else
      version ← rd8 src 29;
      address_length ← protocol_uint16_read src 30;
      if (src_size - 36) / 2 <? address_length
      then Return {| m_address := None; m_port := 0; m_version := version |} else
      if negb alloc then Return {| m_address := None; m_port := 0; m_version := version |} else
      address ← legacy_chars_read src (Z.to_nat address_length) 32;
      port ← protocol_uint32_read src (32 + address_length * 2);
      Next {| m_address := Some address; m_port := u16 port; m_version := version |}
  end.

(** The 27 bytes before the length of the plug-in message. *)
Definition motd_prefix : bytes := [254; 1; 250; 0; 11] ++ packetexpand (str "MC|PingHost").

(** [None] when the address is NULL, which the C code would dereference. *)
Definition packet_write_legacy_motd (src : p_motd_legacy) : option bytes :=
  match src.(m_address) with
  | None => None
  | Some addr =>
      let address := cstr addr in
      let address_length := len address in
      Some (motd_prefix ++ protocol_uint16_write (u16 (address_length * 2 + 7)) ++ [src.(m_version)]
            ++ protocol_uint16_write (u16 address_length)
            ++ concat (protocol_uint16_write <$> address) ++ protocol_uint32_write src.(m_port))
  end.

(** ** Logins *)

(** glibc's [atoi] on a NUL-terminated string: blanks, a sign, digits, clamped
    to the range of [long]. *)
Definition is_blank (c : Z) : bool := ((9 <=? c) && (c <=? 13)) || (c =? 32).
Fixpoint skip_blanks (s : bytes) : bytes :=
  match s with
  | c :: s' => if is_blank c then skip_blanks s' else s
  | [] => []
  end.
Definition atoi (s : bytes) : Z :=
  let clamp v := Z.max (- 2 ^ 63) (Z.min v (2 ^ 63 - 1)) in
  match skip_blanks s with
  | [] => 0
  | c :: t => if c =? 45 then clamp (- read_digits t 0)
              else if c =? 43 then clamp (read_digits t 0)
              else clamp (read_digits (c :: t) 0)
  end.

(** A local array of [size] bytes that was zeroed before [l] was stored in it. *)
Definition zero_padded (size : Z) (l : bytes) : bytes := l ++ replicate (Z.to_nat (size - len l)) 0.

Definition LEGACY_FIELD : Z := 128.

(** The [PVER_LEGACYL2] branch, on the narrowed packet. *)
Definition read_legacy_login_l2 (alloc : bool) (garbage_version : Z) (source : bytes)
    : run p_login_legacy p_login_legacy :=
  field_length ← rd8 source 1;
  chars ← rdn source 2 field_length;
  let login_field := <[Z.to_nat (LEGACY_FIELD - 1) := 0]> (zero_padded 512 chars) in
  let text := cstr login_field in
  match strtok_head LEGACY_FIELD text 59 with
  | (Some username, Some rest) =>
      let rest_off := len text - len rest in
      let fieldsize_address := (strtok_tail alloc 0 rest 58).2 in
      let address := snprintf_s LEGACY_FIELD (take (Z.to_nat fieldsize_address) rest) in
      port_field ← rdn login_field (rest_off + fieldsize_address + 1)
                       (len login_field - (rest_off + fieldsize_address + 1));
      Next {| proto_ver := PVER_LEGACYL2; username := username; address := address;
              port := u16 (atoi (cstr port_field)); version := garbage_version |}
  | _ => Return p_login_legacy_zero
  end.

(** The other branch; [ptr] is the offset of the user-name length. *)
Definition read_legacy_login_fields (login_version : protocol_version) (garbage_port version : Z)
    (source : bytes) (ptr : Z) : run p_login_legacy p_login_legacy :=
  username_length ← rd8 source ptr;
  if LEGACY_FIELD <=? username_length then Return p_login_legacy_zero else
  username ← rdn source (ptr + 1) username_length;
  let ptr := ptr + 1 + username_length in
  if decide (login_version = PVER_LEGACYL4) then
    address_length ← rd8 source ptr;
    if LEGACY_FIELD <=? address_length then Return p_login_legacy_zero else
    address ← rdn source (ptr + 1) address_length;
    let ptr := ptr + 1 + address_length in
    hi ← rd8 source ptr;
    lo ← rd8 source (ptr + 1);
    Next {| proto_ver := login_version; username := username; address := address;
            port := u16 (hi * 256 + lo); version := version |}
  else
    Next {| proto_ver := login_version; username := username; address := [];
            port := garbage_port; version := version |}.

(** [alloc]: the copy [strtok_tail] makes could be allocated; the garbage values
    are those of the fields the function leaves uninitialised. *)
Definition packet_read_legacy_login (alloc : bool) (garbage_port garbage_version : Z)
    (sourcepacket : option bytes) (login_version : protocol_version) : run p_login_legacy p_login_legacy :=
  let source := zero_padded BUFSIZ (packetshrink sourcepacket BUFSIZ) in
  if decide (login_version = PVER_LEGACYL2) then read_legacy_login_l2 alloc garbage_version source
  else if decide (login_version = PVER_LEGACYL1)
  then read_legacy_login_fields login_version garbage_port garbage_version source 1
  else
    version ← rd8 source 1;
    read_legacy_login_fields login_version garbage_port version source 2.

(** [s] with its NUL fits an array of [size] bytes. *)
Definition array_fits (size : Z) (s : bytes) : run bytes bytes := if size <? len s then Oob else Next s.

Definition packet_write_legacy_login (source : p_login_legacy) : run bytes bytes :=
  let username := cstr source.(username) in
  let address := cstr source.(address) in
  if decide (source.(proto_ver) = PVER_LEGACYL2) then
    let login_field := username ++ [59] ++ address ++ [58] ++ decimal source.(port) in
    _ ← array_fits 512 (login_field ++ [0]);
    login_field_full ← array_fits 512 (memcat [u8 (len login_field)] login_field);
    tmp ← array_fits BUFSIZ (packetexpand login_field_full);
    Next (memcat [2] tmp)
  else
    let head := if decide (source.(proto_ver) = PVER_LEGACYL1) then [2] else [2; source.(version)] in
    name ← array_fits 128 (memcat [u8 (len username)] username);
    let packet := memcat head (packetexpand name) in
    if decide (source.(proto_ver) = PVER_LEGACYL4) then
      addr ← array_fits 128 (memcat [u8 (len address)] address);
      let hi := u8 (source.(port) / 256) in
      Next (memcat packet (packetexpand addr) ++ [0; 0; hi; u8 (source.(port) - hi * 256)])
    else Next packet.

(** ** Logins: memory safety *)

Lemma zero_padded_len size l : len l <= size -> len (zero_padded size l) = size.
Proof. intros. unfold zero_padded. rewrite len_app, length_replicate. lia. Qed.

Lemma zero_padded_bytes size l : is_bytes l -> is_bytes (zero_padded size l).
Proof.
  intros. apply is_bytes_app. split; [done|]. apply Forall_replicate. unfold is_byte. lia.
Qed.

Lemma is_bytes_filter f l : is_bytes l -> is_bytes (List.filter f l).
Proof.
  induction 1 as [|b l Hb Hl IH]; simpl; [constructor|]. destruct (f b); [by constructor|done].
Qed.

Lemma packetshrink_len src cap : 0 <= cap -> len (packetshrink src cap) <= cap.
Proof. intros. unfold packetshrink. destruct src as [src|]; [|simpl; lia]. split_ifs; simpl; lia. Qed.

Lemma packetshrink_bytes src cap : is_bytes (default [] src) -> is_bytes (packetshrink src cap).
Proof.
  intros. unfold packetshrink. destruct src as [src|]; [|constructor].
  destruct (_ <? _); [constructor|]. by apply is_bytes_filter.
Qed.

Lemma strtok_head_rest size text d u rest : 0 < size -> strtok_head size text d = (Some u, Some rest) ->
  exists k, index_of d text = Some k /\ rest = drop (Z.to_nat (k + 1)) text /\
    u = take (Z.to_nat (if size <=? k then size - 1 else k)) text.
Proof.
  intros Hs. unfold strtok_head. replace (size =? 0) with false by lia.
  destruct text as [|c t]; [done|]. destruct (index_of d (c :: t)) as [k|]; [|done].
  intros [= <- <-]. by exists k.
Qed.

Lemma strrchr_range s c i : strrchr s c = Some i -> 0 <= i < len s.
Proof.
  unfold strrchr. destruct (index_of c (reverse s)) as [k|] eqn:E; [|done]. intros [= <-].
  apply index_of_Some in E as (Hk & _). rewrite length_reverse in Hk. lia.
Qed.

Lemma strtok_tail_range alloc s d : 0 <= (strtok_tail alloc 0 s d).2 <= len s.
Proof.
  unfold strtok_tail. destruct (len s =? 0) eqn:E; [simpl; lia|]. destruct alloc; [|simpl; lia]. simpl.
  pose proof (cstr_length s). destruct (strrchr (cstr s) d) as [i|] eqn:Er; simpl; [|lia].
  apply strrchr_range in Er. lia.
Qed.

Lemma cstr_cut l k : (k < length l)%nat -> (length (cstr (<[k := 0%Z]> l)) <= k)%nat.
Proof.
  revert k. induction l as [|b l IH]; intros k Hk; [simpl in Hk; lia|].
  destruct k as [|k]; simpl in *; [lia|]. destruct (b =? 0); simpl; [lia|]. specialize (IH k). lia.
Qed.

(** The login field: at most 127 characters of the packet. *)
Lemma login_field_text chars : len chars <= 255 ->
  let field := <[Z.to_nat (LEGACY_FIELD - 1) := 0]> (zero_padded 512 chars) in
  len field = 512 /\ len (cstr field) <= 127.
Proof.
  intros Hc field. assert (Hz : len (zero_padded 512 chars) = 512) by (apply zero_padded_len; lia).
  split; [unfold field; by rewrite length_insert|].
  pose proof (cstr_cut (zero_padded 512 chars) 127 ltac:(lia)). unfold field, LEGACY_FIELD. change (Z.to_nat (128 - 1)) with 127%nat. lia.
Qed.

(** What is read fits the arrays of a login with its NUL. *)
Definition login_typed (p : p_login_legacy) : Prop := len (username p) < LEGACY_FIELD /\ len (address p) < LEGACY_FIELD.
Definition login_read (r : run p_login_legacy p_login_legacy) : Prop := match r with Next p | Return p => login_typed p | Oob => False end.

Lemma login_l2_read alloc gv source : is_bytes source -> len source = BUFSIZ -> login_read (read_legacy_login_l2 alloc gv source).
Proof.
  intros Hb Hl. unfold read_legacy_login_l2, BUFSIZ in *. rd_next.
  rewrite rdn_safe by lia. cbn [mbind run_bind].
  destruct (login_field_text (slice source 2 b)) as [Hf Ht]; [rewrite len_slice; lia|].
  set (field := <[_ := 0]> _) in *.
  destruct (strtok_head LEGACY_FIELD (cstr field) 59) as [[u|] [rest|]] eqn:Es; try done.
  apply strtok_head_rest in Es as (k & Hk & -> & ->); [|done]. apply index_of_Some in Hk as (Hk & _).
  pose proof (strtok_tail_range alloc (drop (Z.to_nat (k + 1)) (cstr field)) 58) as Hrange.
  rewrite length_drop in *. rewrite rdn_safe by lia. unfold login_read, login_typed, snprintf_s, LEGACY_FIELD. simpl.
  rewrite !length_take. lia.
Qed.

Lemma login_fields_read v gp ver source ptr : is_bytes source -> len source = BUFSIZ -> 0 <= ptr <= 2 ->
  login_read (read_legacy_login_fields v gp ver source ptr).
Proof.
  intros Hb Hl Hp. unfold read_legacy_login_fields, LEGACY_FIELD, BUFSIZ in *. rd_next.
  if_as E1; [done|]. rewrite rdn_safe by lia. cbn [mbind run_bind].
  destruct (decide _); [|unfold login_read, login_typed, LEGACY_FIELD; simpl; rewrite len_slice; lia].
  rd_next. if_as E2; [done|]. rewrite rdn_safe by lia. cbn [mbind run_bind]. rd_next. rd_next.
  unfold login_read, login_typed, LEGACY_FIELD. simpl. rewrite !len_slice; lia.
Qed.

(** [packet_read_legacy_login] stays inside its local buffers whatever the packet
    holds. *)
Lemma legacy_login_typed alloc gp gv src v : is_bytes (default [] src) ->
  exists p, outcome (packet_read_legacy_login alloc gp gv src v) = Some p /\ login_typed p.
Proof.
  intros Hb. unfold packet_read_legacy_login.
  assert (Hs : is_bytes (zero_padded BUFSIZ (packetshrink src BUFSIZ))) by by apply zero_padded_bytes, packetshrink_bytes.
  assert (Hl : len (zero_padded BUFSIZ (packetshrink src BUFSIZ)) = BUFSIZ)
    by (apply zero_padded_len, packetshrink_len; done).
  set (source := zero_padded _ _) in *. clearbody source.
  enough (forall r, login_read r -> exists p, outcome r = Some p /\ login_typed p) as Ho by
    (destruct (decide _); [by apply Ho, login_l2_read|]; destruct (decide _); [by apply Ho, login_fields_read|];
     unfold BUFSIZ in Hl; rd_next; by apply Ho, login_fields_read).
  intros [p|p|] H; [by exists p..|done].
Qed.

(** ** Logins: writing then reading *)

Definition nonzero (b : Z) : bool := negb (b =? 0).

Lemma shrink_out l rest kept : len (l ++ rest) <= BUFSIZ -> List.filter nonzero l = kept ->
  packetshrink (Some (l ++ rest)) BUFSIZ = kept ++ List.filter nonzero rest.
Proof.
  intros Hl <-. unfold packetshrink. fold nonzero. rewrite <- List.filter_app.
  destruct (_ <? _) eqn:E; [|done]. exfalso.
  pose proof (List.filter_length_le nonzero (l ++ rest)). unfold nonzero in *. lia.
Qed.

(** The logins of 12w18a and later that survive: the fields fit their arrays and
    no byte of the packet other than the high bytes of its characters is zero. *)
Definition wf_l4 (p : p_login_legacy) : Prop :=
  proto_ver p = PVER_LEGACYL4 /\ 1 <= version p < 256 /\
  is_cstr (username p) /\ 1 <= len (username p) <= 127 /\
  is_cstr (address p) /\ 1 <= len (address p) <= 127 /\
  256 <= port p < 2 ^ 16 /\ port p mod 256 <> 0.

Definition encode_l4 (p : p_login_legacy) : bytes :=
  [2; version p] ++ packetexpand (len (username p) :: username p)
  ++ packetexpand (len (address p) :: address p) ++ [0; 0; port p / 256; port p mod 256].

Lemma array_fits_ok size s : len s <= size -> array_fits size s = Next s.
Proof. intros. unfold array_fits. by replace (size <? len s) with false by lia. Qed.

Lemma write_l4 p : wf_l4 p -> packet_write_legacy_login p = Next (encode_l4 p).
Proof.
  intros (Hv & Hver & Hu & Hul & Ha & Hal & Hp & Hp2). unfold packet_write_legacy_login, encode_l4.
  rewrite Hv, !cstr_id by done. decide_now.
  rewrite (u8_id (len (username p))), (u8_id (len (address p))), (u8_id (port p / 256)) by (unfold is_byte; zlia).
  unfold memcat. rewrite array_fits_ok by lens. cbn [mbind run_bind]. decide_now.
  rewrite array_fits_ok by lens. cbn [mbind run_bind app]. rewrite <- !app_assoc.
  do 4 f_equal. replace (port p - port p / 256 * 256) with (port p mod 256) by zlia.
  by rewrite u8_id by (unfold is_byte; zlia).
Qed.

Lemma read_l4 alloc gp gv p rest : wf_l4 p -> len (encode_l4 p ++ rest) <= BUFSIZ ->
  packet_read_legacy_login alloc gp gv (Some (encode_l4 p ++ rest)) PVER_LEGACYL4 = Next p.
Proof.
  intros (Hv & Hver & Hu & Hul & Ha & Hal & Hp & Hp2) Hl. unfold packet_read_legacy_login.
  assert (Hk : List.filter nonzero (encode_l4 p) =
    [2; version p; len (username p)] ++ username p ++ [len (address p)] ++ address p ++ [port p / 256; port p mod 256]).
  { unfold encode_l4. rewrite !List.filter_app. unfold nonzero.
    rewrite !filter_expand by (constructor; [lia|done]).
    cbn [List.filter app]. replace (version p =? 0) with false by lia. replace (port p / 256 =? 0) with false by zlia.
    replace (port p mod 256 =? 0) with false by lia. reflexivity. }
  rewrite (shrink_out _ _ _ Hl Hk).
  assert (A : forall l : bytes, exists tail, zero_padded BUFSIZ (l ++ List.filter nonzero rest) = l ++ tail).
  { intros l. unfold zero_padded. rewrite <- app_assoc. eauto. }
  destruct (A ([2; version p; len (username p)] ++ username p ++ [len (address p)] ++ address p
    ++ [port p / 256; port p mod 256])) as [tail ->]. clear A. rewrite <- !app_assoc.
  decide_now. match goal with |- context [rd8 ?m 1] => set (mem := m) end.
  erewrite (at_off_rd8 mem 1) by (by exists [2]). cbn [mbind run_bind].
  unfold read_legacy_login_fields, LEGACY_FIELD.
  erewrite (at_off_rd8 mem 2) by (by exists [2; version p]). cbn [mbind run_bind].
  if_as E1; [lia|].
  pose proof (at_off_start mem) as A0. unfold mem in A0 at 2. apply at_off_skip in A0.
  change (0 + len [2; version p; len (username p)]) with (2 + 1) in A0.
  rewrite (at_off_rdn _ _ _ _ _ A0) by done. cbn [mbind run_bind]. apply at_off_skip in A0.
  decide_now. rewrite (at_off_rd8 _ _ _ _ A0). cbn [mbind run_bind]. if_as E2; [lia|].
  apply at_off_skip in A0. change (len [len (address p)]) with 1 in A0.
  rewrite (at_off_rdn _ _ _ _ _ A0) by done. cbn [mbind run_bind]. apply at_off_skip in A0.
  rewrite (at_off_rd8 _ _ _ _ A0). cbn [mbind run_bind].
  apply (at_off_skip _ _ [port p / 256]) in A0. change (len [port p / 256]) with 1 in A0.
  rewrite (at_off_rd8 _ _ _ _ A0). cbn [mbind run_bind].
  rewrite u16_id by zlia. f_equal. destruct p; simpl in *. subst. f_equal. zlia.
Qed.

Lemma atoi_decimal n : 0 <= n < 2 ^ 32 -> atoi (decimal n) = n.
Proof.
  intros Hn. pose proof (decimal_shape n ltac:(lia)) as Hd.
  pose proof (digits_value 20 n ltac:(simpl; lia) ltac:(lia)) as Hv. fold (decimal n) in Hv.
  unfold atoi. destruct (decimal n) as [|c s]; [simpl in *; lia|]. inversion_clear Hd as [|? ? Hc Hs].
  unfold is_digit in Hc. cbn [skip_blanks]. replace (is_blank c) with false by (unfold is_blank; lia).
  replace (c =? 45) with false by lia. replace (c =? 43) with false by lia. rewrite Hv. lia.
Qed.

(** The logins of 12w04a to 12w16a that survive: the whole field fits the part
    of the local array the reader keeps. *)
Definition l2_field (p : p_login_legacy) : bytes :=
  username p ++ [59] ++ address p ++ [58] ++ decimal (port p).

Definition wf_l2 (p : p_login_legacy) : Prop :=
  proto_ver p = PVER_LEGACYL2 /\ is_cstr (username p) /\ Forall (fun c => c <> 59) (username p) /\
  is_cstr (address p) /\ 0 <= port p < 2 ^ 16 /\ len (l2_field p) <= 127.

Definition encode_l2 (p : p_login_legacy) : bytes := [2] ++ packetexpand (len (l2_field p) :: l2_field p).

Lemma l2_field_cstr p : wf_l2 p -> is_cstr (l2_field p).
Proof.
  intros (_ & Hu & _ & Ha & Hp & _). unfold l2_field, is_cstr. rewrite !Forall_app.
  assert (H1 : forall c, 1 <= c < 256 -> Forall (fun b => 1 <= b < 256) [c]) by (intros; by constructor).
  split; [done|]. split; [apply H1; lia|]. split; [done|]. split; [apply H1; lia|].
  apply decimal_cstr. lia.
Qed.

Lemma write_l2 p : wf_l2 p -> packet_write_legacy_login p = Next (encode_l2 p).
Proof.
  intros (Hv & Hu & _ & Ha & Hp & Hl). unfold packet_write_legacy_login, encode_l2.
  rewrite Hv, !cstr_id by done. decide_now. fold (l2_field p). rewrite u8_id by (unfold is_byte; lia).
  unfold memcat. rewrite !array_fits_ok by lens. cbn [mbind run_bind].
  rewrite array_fits_ok; [done|]. rewrite packetexpand_length. unfold BUFSIZ. lens.
Qed.

Lemma strrchr_tail a d c : Forall (fun b => b <> c) d -> strrchr (a ++ c :: d) c = Some (len a).
Proof.
  intros Hd. unfold strrchr. rewrite reverse_app, reverse_cons, <- app_assoc, index_of_app_skip.
  - simpl. rewrite Z.eqb_refl. simpl. rewrite length_reverse. f_equal. lens.
  - by apply Forall_reverse.
Qed.

Lemma field_cut chars : is_cstr chars -> len chars <= 127 ->
  exists z, <[Z.to_nat (LEGACY_FIELD - 1) := 0]> (zero_padded 512 chars) = chars ++ 0 :: z.
Proof.
  intros Hc Hl. unfold zero_padded, LEGACY_FIELD. change (Z.to_nat (128 - 1)) with 127%nat.
  rewrite insert_app_r_alt by lia.
  destruct (Z.to_nat (512 - len chars)) as [|n] eqn:En; [lia|].
  assert (Hi : (127 - length chars < S n)%nat) by lia.
  rewrite insert_replicate. simpl. eauto.
Qed.

Lemma strtok_head_split size u d r : Forall (fun b => b <> d) u -> len u < size ->
  strtok_head size (u ++ d :: r) d = (Some u, Some r).
Proof.
  intros Hu Hl. unfold strtok_head. replace (size =? 0) with false by lia.
  assert (Hi : index_of d (u ++ d :: r) = Some (len u)).
  { rewrite index_of_app_skip by done. simpl. rewrite Z.eqb_refl. simpl. f_equal. lia. }
  rewrite Hi. destruct (u ++ d :: r) eqn:E; [by destruct u|]. rewrite <- E. replace (size <=? len u) with false by lia.
  rewrite Nat2Z.id, take_app_length. replace (Z.to_nat (len u + 1)) with (S (length u)) by lia.
  by rewrite (snoc_cons u), drop_app_length' by (rewrite length_app; simpl; lia).
Qed.

Lemma strtok_tail_split a d c : is_cstr (a ++ c :: d) -> Forall (fun b => b <> c) d ->
  (strtok_tail true 0 (a ++ c :: d) c).2 = len a.
Proof.
  intros Hs Hd. unfold strtok_tail. replace (len (a ++ c :: d) =? 0) with false by lens.
  cbn [negb]. by rewrite cstr_id, strrchr_tail by done.
Qed.

Lemma read_l2 gp gv p rest : wf_l2 p -> len (encode_l2 p ++ rest) <= BUFSIZ ->
  packet_read_legacy_login true gp gv (Some (encode_l2 p ++ rest)) PVER_LEGACYL2
  = Next {| proto_ver := PVER_LEGACYL2; username := username p; address := address p;
            port := port p; version := gv |}.
Proof.
  intros Hw Hl. pose proof (l2_field_cstr p Hw) as Hf. pose proof Hw as (_ & Hu & Hus & Ha & Hp & Hn).
  unfold packet_read_legacy_login. decide_now.
  assert (Hpos : 2 <= len (l2_field p)) by (unfold l2_field; lens).
  assert (Hk : List.filter nonzero (encode_l2 p) = 2 :: len (l2_field p) :: l2_field p).
  { unfold encode_l2. rewrite List.filter_app. unfold nonzero. by rewrite filter_expand by (constructor; [lia|done]). }
  rewrite (shrink_out _ _ _ Hl Hk). unfold zero_padded at 1. rewrite <- app_assoc.
  set (tail := _ ++ replicate _ 0). cbn [app]. unfold read_legacy_login_l2.
  rewrite rd8_1. cbn [mbind run_bind]. erewrite (at_off_rdn _ 2 (l2_field p) tail) by (done || by exists [2; len (l2_field p)]).
  cbn [mbind run_bind]. destruct (field_cut (l2_field p) Hf Hn) as [z ->]. rewrite cstr_app_nul by done.
  assert (Hd58 : Forall (fun b => b <> 58) (decimal (port p))).
  { pose proof (decimal_shape (port p) ltac:(lia)) as H. revert H. apply Forall_impl. unfold is_digit. lia. }
  set (r := address p ++ 58 :: decimal (port p)).
  assert (Hr : l2_field p = username p ++ 59 :: r) by done.
  assert (Hcr : is_cstr r) by (rewrite Hr in Hf; apply Forall_app in Hf as [_ Hf]; by inversion_clear Hf).
  unfold l2_field in Hn. rewrite Hr. unfold LEGACY_FIELD. rewrite strtok_head_split by (done || lens).
  assert (Hst : (strtok_tail true 0 r 58).2 = len (address p)) by by apply strtok_tail_split.
  rewrite Hst.
  set (off := len (username p ++ 59 :: r) - len r + len (address p) + 1).
  assert (A : at_off ((username p ++ 59 :: r) ++ 0 :: z) off (decimal (port p) ++ 0 :: z)).
  { exists (username p ++ 59 :: address p ++ [58]). split; [unfold r; by rewrite <- !app_assoc; cbn; rewrite <- !app_assoc|].
    unfold off, r. lens. }
  pose proof (at_off_len _ _ _ A) as [Hlen Hoff].
  assert (A' : at_off ((username p ++ 59 :: r) ++ 0 :: z) off ((decimal (port p) ++ 0 :: z) ++ [])) by by rewrite app_nil_r.
  rewrite (at_off_rdn _ _ _ _ _ A') by lia. cbn [mbind run_bind].
  rewrite cstr_app_nul by (apply decimal_cstr; lia). rewrite atoi_decimal, u16_id by lia.
  do 2 f_equal. unfold snprintf_s, r. rewrite Nat2Z.id, take_app_length. apply take_ge. lens.
Qed.

(** A rewritten legacy login is read back as written, with anything behind
    it: both fields and the port, and for 12w18a and later also the version. *)
Lemma legacy_login_roundtrip p rest alloc gp gv :
  (wf_l4 p -> len (encode_l4 p ++ rest) <= BUFSIZ ->
   packet_write_legacy_login p = Next (encode_l4 p) /\
   packet_read_legacy_login alloc gp gv (Some (encode_l4 p ++ rest)) PVER_LEGACYL4 = Next p) /\
  (wf_l2 p -> len (encode_l2 p ++ rest) <= BUFSIZ ->
   packet_write_legacy_login p = Next (encode_l2 p) /\
   packet_read_legacy_login true gp gv (Some (encode_l2 p ++ rest)) PVER_LEGACYL2
   = Next {| proto_ver := PVER_LEGACYL2; username := username p; address := address p;
             port := port p; version := gv |}).
Proof.
  split; intros Hw Hl.
  - split; [by apply write_l4|by apply read_l4].
  - split; [by apply write_l2|by apply read_l2].
Qed.

Definition sample_l4 : p_login_legacy :=
  {| proto_ver := PVER_LEGACYL4; username := [83]; address := [97; 46; 98]; port := 25565; version := 39 |}.

Lemma sample_l4_wf : wf_l4 sample_l4.
Proof.
  repeat split; simpl; try lia; try (by vm_compute); repeat (constructor; [lia|]); constructor.
Qed.

(** A port below 256 is not read back: its zero high byte is dropped with the
    high bytes of the characters. *)
Example legacy_login_small_port :
  let p := {| proto_ver := PVER_LEGACYL4; username := [83]; address := [97]; port := 80; version := 39 |} in
  match packet_write_legacy_login p with
  | Next out => port <$> outcome (packet_read_legacy_login true 0 0 (Some out) PVER_LEGACYL4) = Some 20480
  | _ => False
  end.
Proof. by vm_compute. Qed.

(** ** Server-list pings: proofs *)

Lemma legacy_chars_len s : len (concat (protocol_uint16_write <$> s)) = 2 * len s.
Proof. induction s as [|b s IH]; [done|]. cbn [fmap list_fmap concat]. rewrite len_app, IH. simpl. lia. Qed.

Lemma legacy_chars_read_at mem off s rest : is_bytes s ->
  at_off mem off (concat (protocol_uint16_write <$> s) ++ rest) ->
  legacy_chars_read mem (length s) off = Next s.
Proof.
  intros Hs. revert off. induction Hs as [|b s Hb Hs IH]; intros off A; [done|]. unfold is_byte in Hb.
  cbn [fmap list_fmap concat length legacy_chars_read] in *. rewrite <- app_assoc in A.
  rewrite (uint16_read_at _ _ _ _ A) by lia. cbn [mbind run_bind]. apply at_off_skip in A.
  change (len (protocol_uint16_write b)) with 2 in A. rewrite (IH _ A). cbn [mbind run_bind].
  by rewrite u8_id by (unfold is_byte; lia).
Qed.

Lemma uint32_read_at {E} mem off v rest : at_off mem off (protocol_uint32_write v ++ rest) ->
  0 <= v < 2 ^ 32 -> protocol_uint32_read (E:=E) mem off = Next v.
Proof. intros (pre & -> & ->). apply uint32_read_mid. Qed.

Definition wf_motd (p : p_motd_legacy) (a : bytes) : Prop :=
  m_address p = Some a /\ is_cstr a /\ len a < 2 ^ 16 /\ 0 <= m_port p < 2 ^ 16 /\ 0 <= m_version p < 256.

Definition encode_motd (p : p_motd_legacy) (a : bytes) : bytes :=
  motd_prefix ++ protocol_uint16_write (u16 (len a * 2 + 7)) ++ [m_version p]
  ++ protocol_uint16_write (len a) ++ concat (protocol_uint16_write <$> a) ++ protocol_uint32_write (m_port p).

Lemma read_motd p a rest : wf_motd p a ->
  packet_read_legacy_motd true (Some (encode_motd p a ++ rest)) = Next p.
Proof.
  intros (Ha & Hc & Hl & Hp & Hv). set (mem := encode_motd p a ++ rest).
  pose proof (at_off_start mem) as A. unfold mem in A at 2. unfold encode_motd in A. rewrite <- !app_assoc in A.
  pose proof (at_off_len _ _ _ A) as [Hm _]. rewrite !len_app, legacy_chars_len in Hm.
  change (len motd_prefix) with 27 in Hm. change (len (protocol_uint16_write _)) with 2 in Hm.
  change (len [m_version p]) with 1 in Hm. change (len (protocol_uint32_write _)) with 4 in Hm.
  change (len (protocol_uint16_write (len a))) with 2 in Hm.
  unfold packet_read_legacy_motd. if_as E1; [lia|].
  do 2 apply at_off_skip in A. change (0 + len motd_prefix + len (protocol_uint16_write (u16 (len a * 2 + 7)))) with 29 in A.
  rewrite (at_off_rd8 _ _ _ _ A). cbn [mbind run_bind]. apply at_off_skip in A.
  change (29 + len [m_version p]) with 30 in A. rewrite (uint16_read_at _ _ _ _ A) by lia. cbn [mbind run_bind].
  apply at_off_skip in A. change (30 + len (protocol_uint16_write (len a))) with 32 in A. if_as E2; [zlia|].
  cbn [negb]. rewrite Nat2Z.id. rewrite (legacy_chars_read_at _ _ _ _ (is_cstr_bytes _ Hc) A). cbn [mbind run_bind].
  apply at_off_skip in A. rewrite legacy_chars_len, Z.mul_comm in A.
  rewrite (uint32_read_at _ _ _ _ A) by lia. cbn [mbind run_bind]. rewrite u16_id by done.
  f_equal. destruct p; simpl in *. by subst.
Qed.

Lemma motd_recognised p a rest : wf_motd p a ->
  outcome (protocol_packet_length (Some (encode_motd p a ++ rest)))
  = Some (PROTOCOL_PACKET_COMPLETE, len (encode_motd p a)) /\
  outcome (protocol_identify (Some (encode_motd p a ++ rest))) = Some (legacy PVER_LEGACYM3).
Proof.
  intros (Ha & Hc & Hl & Hp & Hv).
  set (tl := concat (protocol_uint16_write <$> a) ++ protocol_uint32_write (m_port p) ++ rest).
  set (hd := motd_prefix ++ protocol_uint16_write (u16 (len a * 2 + 7)) ++ [m_version p]).
  assert (He : encode_motd p a ++ rest = hd ++ protocol_uint16_write (len a) ++ tl)
    by (unfold encode_motd, hd, tl; by rewrite <- !app_assoc).
  assert (Hsz : len (encode_motd p a) = 36 + 2 * len a).
  { unfold encode_motd. rewrite !len_app, legacy_chars_len. change (len motd_prefix) with 27.
    change (len (protocol_uint32_write _)) with 4. cbn [length protocol_uint16_write]. lia. }
  assert (A : at_off (encode_motd p a ++ rest) 30 (protocol_uint16_write (len a) ++ tl)) by by exists hd.
  assert (Hs : exists s, encode_motd p a ++ rest = 254 :: 1 :: 250 :: s) by (eexists; reflexivity).
  destruct Hs as [s Hs]. assert (Hln : len (254 :: 1 :: 250 :: s) = 36 + 2 * len a + len rest) by (rewrite <- Hs; lens).
  rewrite Hs in *. cbn [protocol_packet_length protocol_identify]. rewrite !rd8_0. cbn [mbind run_bind].
  rewrite !rd8_1, !rd8_2. cbn [mbind run_bind Z.eqb Pos.eqb andb].
  do 3 (if_as E; [lia|]; clear E). if_as E1; [lia|]. rewrite (uint16_read_at _ _ _ _ A) by lia. cbn [mbind run_bind].
  split; [|by repeat (if_as E; [lia|]; clear E)]. unfold verdict_of_size. rewrite Hsz. cbn [outcome].
  if_as E2; [lia|]. do 2 f_equal. lia.
Qed.

Lemma write_motd p a : wf_motd p a -> packet_write_legacy_motd p = Some (encode_motd p a).
Proof.
  intros (Ha & Hc & Hl & _). unfold packet_write_legacy_motd, encode_motd.
  rewrite Ha, cstr_id, (u16_id (len a)) by (done || lia). done.
Qed.

Lemma encode_motd_len p a : len (encode_motd p a) = 36 + len a * 2.
Proof.
  unfold encode_motd. rewrite !len_app, legacy_chars_len. change (len motd_prefix) with 27.
  change (len (protocol_uint16_write (u16 (len a * 2 + 7)))) with 2. change (len (protocol_uint16_write (len a))) with 2.
  change (len [m_version p]) with 1. change (len (protocol_uint32_write (m_port p))) with 4. lia.
Qed.

(** A rewritten server-list ping is read back as written and recognised as one
    complete ping, with anything behind it. *)
Lemma legacy_motd_roundtrip p a rest : wf_motd p a ->
  packet_write_legacy_motd p = Some (encode_motd p a) /\
  packet_read_legacy_motd true (Some (encode_motd p a ++ rest)) = Next p /\
  outcome (protocol_packet_length (Some (encode_motd p a ++ rest)))
  = Some (PROTOCOL_PACKET_COMPLETE, len (encode_motd p a)) /\
  outcome (protocol_identify (Some (encode_motd p a ++ rest))) = Some (legacy PVER_LEGACYM3).
Proof.
  intros Hw. split; [by apply write_motd|]. split; [by apply read_motd|by apply motd_recognised].
Qed.

Definition sample_ping : p_motd_legacy := {| m_address := Some [97; 46; 98]; m_port := 25565; m_version := 78 |}.

(** ** Replies: proofs *)

(** A legacy client reads a disconnect packet: the code, a character count and
    that many big-endian characters, here all below 256. *)
Fixpoint legacy_text (l : bytes) : option bytes :=
  match l with
  | [] => Some []
  | 0 :: c :: l => (fun t => c :: t) <$> legacy_text l
  | _ => None
  end.
Definition legacy_reply (l : bytes) : option bytes :=
  match l with
  | 255 :: hi :: lo :: chars => if len chars =? 2 * (hi * 256 + lo) then legacy_text chars else None
  | _ => None
  end.

Lemma legacy_text_chars s : is_bytes s -> legacy_text (concat (protocol_uint16_write <$> s)) = Some s.
Proof.
  induction 1 as [|b s Hb Hs IH]; [done|]. unfold is_byte in Hb. unfold protocol_uint16_write.
  cbn [fmap list_fmap concat app]. replace (u8 (b / 256)) with 0 by (unfold u8; zlia).
  rewrite u8_id by done. cbn [legacy_text]. fold protocol_uint16_write. by rewrite IH.
Qed.

Lemma legacy_reply_chars s : is_bytes s -> len s < 2 ^ 16 ->
  legacy_reply ([255] ++ protocol_uint16_write (len s) ++ concat (protocol_uint16_write <$> s)) = Some s.
Proof.
  intros Hs Hl. unfold protocol_uint16_write at 1. cbn [app legacy_reply].
  rewrite legacy_chars_len. replace (u8 (len s / 256) * 256 + u8 (len s)) with (len s) by (unfold u8; zlia).
  rewrite Z.eqb_refl. by apply legacy_text_chars.
Qed.

Lemma version_digits_decimal ver : 0 <= ver < 256 -> reverse (version_digits 3 ver) = decimal ver.
Proof.
  intros Hv. pose proof (byte_forall (fun v => bool_decide (reverse (version_digits 3 v) = decimal v))) as H.
  apply (bool_decide_eq_true_1 _). apply H; [by vm_compute|done].
Qed.

(** The text of the status reply, per generation of the client. *)
Definition legacy_motd_text (v : protocol_version) (src : bytes) (ver : Z) : bytes :=
  match v with
  | PVER_LEGACYM1 => src ++ section_zero
  | _ => section_open ++ decimal ver ++ section_split ++ (src ++ [0]) ++ section_tail
  end.

Lemma legacy_chars_app s t : legacy_chars s ++ legacy_chars t = legacy_chars (s ++ t).
Proof. unfold legacy_chars. by rewrite fmap_app, concat_app. Qed.

Lemma make_motd_legacy_spec cap src v ver :
  v = PVER_LEGACYM1 \/ v = PVER_LEGACYM2 \/ v = PVER_LEGACYM3 -> 0 <= ver < 256 -> 0 <= cap ->
  let text := legacy_motd_text v src ver in
  make_motd_legacy cap (Some src) v ver =
  if (cap <? 3 + 2 * len text) || (UINT16_MAX <? len text) then []
  else [255] ++ protocol_uint16_write (len text) ++ concat (protocol_uint16_write <$> text).
Proof.
  intros Hv Hver Hc text. pose proof (version_digits_decimal ver Hver) as Hd.
  assert (Hdl : len (decimal ver) = len (version_digits 3 ver)) by (rewrite <- Hd, length_reverse; done).
  assert (Ht : len text = len src + match v with PVER_LEGACYM1 => 4 | _ => len (version_digits 3 ver) + 9 end).
  { unfold text, legacy_motd_text. destruct Hv as [->|[->| ->]];
      unfold section_open, section_split, section_tail, section_zero; rewrite ?len_app, ?Hdl; simpl length; lia. }
  assert (Htext : text = legacy_motd_text v src ver) by done. clearbody text.
  unfold make_motd_legacy, UINT16_MAX. rewrite Hd.
  change (len section_zero) with 4. change (len section_open) with 3.
  change (len section_split) with 2. change (len section_tail) with 3.
  destruct Hv as [->|[->| ->]];
    (if_as E0; [by if_as E1; [|lia]|]);
    (if_as E1; [by if_as E2; [|lia]|]); (if_as E2; [by if_as E3; [|zlia]|]); (if_as E3; [zlia|]);
    match goal with |- context [protocol_uint16_write (len src + ?k)] => replace (len src + k) with (len text) by lia end;
    rewrite !legacy_chars_app; by subst text.
Qed.

Lemma make_kickreason_legacy_spec cap src : 0 <= cap ->
  make_kickreason_legacy cap (Some src) =
  if (cap <? 3 + 2 * len src) || (UINT16_MAX <? len src) then []
  else [255] ++ protocol_uint16_write (len src) ++ concat (protocol_uint16_write <$> src).
Proof.
  intros Hc. unfold make_kickreason_legacy, UINT16_MAX, SIZE_MAX, UINT64_MAX.
  if_as E0; [by if_as E1; [|lia]|]. if_as E1; if_as E2; try done; zlia.
Qed.

Lemma legacy_reply_out cap text : is_bytes text ->
  let out := if (cap <? 3 + 2 * len text) || (UINT16_MAX <? len text) then []
             else [255] ++ protocol_uint16_write (len text) ++ concat (protocol_uint16_write <$> text) in
  (out = [] <-> cap < 3 + 2 * len text \/ UINT16_MAX < len text) /\
  (out <> [] -> len out <= cap /\ legacy_reply out = Some text).
Proof.
  intros Hb out. subst out. destruct (_ || _) eqn:E.
  - split; [|done]. split; [lia|done].
  - split; [split; [done|lia]|]. intros _. split; [|apply legacy_reply_chars; unfold UINT16_MAX in *; [done|lia]].
    rewrite !len_app, legacy_chars_len. cbn [length protocol_uint16_write]. lia.
Qed.

(** The legacy disconnect and status replies are refused exactly when the text
    does not fit the destination or a 16-bit count, and otherwise a legacy client
    reads the text from them. *)
Lemma legacy_replies_decode cap src v ver : is_bytes src -> 0 <= cap -> 0 <= ver < 256 ->
  v = PVER_LEGACYM1 \/ v = PVER_LEGACYM2 \/ v = PVER_LEGACYM3 ->
  (let out := make_kickreason_legacy cap (Some src) in
   (out = [] <-> cap < 3 + 2 * len src \/ UINT16_MAX < len src) /\
   (out <> [] -> len out <= cap /\ legacy_reply out = Some src)) /\
  (let text := legacy_motd_text v src ver in
   let out := make_motd_legacy cap (Some src) v ver in
   (out = [] <-> cap < 3 + 2 * len text \/ UINT16_MAX < len text) /\
   (out <> [] -> len out <= cap /\ legacy_reply out = Some text)).
Proof.
  intros Hs Hc Hver Hv. cbv zeta. rewrite make_kickreason_legacy_spec, make_motd_legacy_spec by done.
  split; apply legacy_reply_out; [done|]. pose proof (decimal_cstr ver ltac:(lia)) as Hd.
  apply is_cstr_bytes in Hd. unfold legacy_motd_text.
  assert (Hk : is_bytes section_open /\ is_bytes section_split /\ is_bytes section_tail /\ is_bytes section_zero /\ is_bytes [0])
    by (repeat split; bytes_ok).
  destruct Hv as [->|[->| ->]]; rewrite !is_bytes_app; tauto.
Qed.

