(* ===== verification/Proxy.v ===== *)
(** * Addresses and PROXY protocol headers
      ([src/src/protocol/proxy.c], the address routines of [src/src/network.c])

    The conversions between binary and textual addresses are libc's
    [inet_pton] and [inet_ntop], parameters of the definitions below; the
    [inet_laws] say what the code relies on. *)

From Stdlib Require Import String.
From S2P Require Import Prelude Basic.

(** ** Addresses *)

Definition AF_UNSPEC : Z := 0.
Definition AF_INET : Z := 2.
Definition AF_INET6 : Z := 10.
Definition INET6_ADDRSTRLEN : Z := 46.

Inductive net_error :=
  | NET_OK | NET_EARGFAMILY | NET_EMALLOC | NET_ENORECORD | NET_EARGACTION | NET_EARGADDR
  | NET_ESOCKET | NET_EREUSEADDR | NET_EBIND | NET_ELISTEN | NET_ECONNECT.

#[export] Instance net_error_eq_dec : EqDecision net_error.
Proof. solve_decision. Defined.

(** [addr] is the content of the union: four or sixteen bytes, by [family]. *)
Record net_addr := { family : Z; err : net_error; addr : bytes }.

Definition net_addr_zero : net_addr := {| family := 0; err := NET_OK; addr := replicate 16 0 |}.

Record p_proxy := {
  p_family : Z;
  srcaddr : net_addr; dstaddr : net_addr;
  srcport : Z; dstport : Z;
}.

Definition p_proxy_zero : p_proxy :=
  {| p_family := AF_UNSPEC; srcaddr := net_addr_zero; dstaddr := net_addr_zero; srcport := 0; dstport := 0 |}.

Definition PROTOPROXY_PACKETMAXLEN : Z := 128.

(** libc's conversions: text to the bytes of an address, and back. *)
Record inet := {
  inet_pton4 : bytes -> option bytes; inet_ntop4 : bytes -> bytes;
  inet_pton6 : bytes -> option bytes; inet_ntop6 : bytes -> bytes;
}.

(** A numeric address has no blank and no control character and fits its buffer;
    parsing inverts printing; a text with a colon is not a dotted quad. *)
Record inet_laws (I : inet) : Prop := {
  ntop4_text : forall a, is_bytes a -> length a = 4%nat -> Forall (fun c => 33 <= c < 127) (inet_ntop4 I a) /\ 1 <= len (inet_ntop4 I a) <= 15;
  ntop6_text : forall a, is_bytes a -> length a = 16%nat -> Forall (fun c => 33 <= c < 127) (inet_ntop6 I a) /\ 1 <= len (inet_ntop6 I a) <= 45;
  pton4_ntop4 : forall a, is_bytes a -> length a = 4%nat -> inet_pton4 I (inet_ntop4 I a) = Some a;
  pton6_ntop6 : forall a, is_bytes a -> length a = 16%nat -> inet_pton6 I (inet_ntop6 I a) = Some a;
  pton4_ntop6 : forall a, is_bytes a -> length a = 16%nat -> inet_pton4 I (inet_ntop6 I a) = None;
}.

Section proxy.
Context (I : inet).

Definition net_addr_parse (address : option bytes) : net_addr :=
  match address with
  | None => {| family := 0; err := NET_EARGADDR; addr := replicate 16 0 |}
  | Some address =>
      match inet_pton4 I address with
      | Some a => {| family := AF_INET; err := NET_OK; addr := a |}
      | None =>
          match inet_pton6 I address with
          | Some a => {| family := AF_INET6; err := NET_OK; addr := a |}
          | None => {| family := 0; err := NET_EARGADDR; addr := replicate 16 0 |}
          end
      end
  end.

(** The string left in the returned [net_addrp], of [INET6_ADDRSTRLEN + 2] bytes. *)
Definition net_ntop (family : Z) (src : option bytes) (v6addition : bool) : bytes :=
  match src with
  | None => []
  | Some src =>
      if negb (family =? AF_INET) && negb (family =? AF_INET6) then [] else
      let pre_result := if family =? AF_INET then inet_ntop4 I src else inet_ntop6 I src in
      if v6addition && (family =? AF_INET6)
      then snprintf_s (INET6_ADDRSTRLEN + 2) ([91] ++ pre_result ++ [93]) else pre_result
  end.

(** ** Writing a header *)

(** The string stored at [dst] and the returned size. *)
Definition protocol_proxy_write (src : p_proxy) : bytes * Z :=
  let srcaddrp := net_ntop src.(p_family) (Some src.(srcaddr).(addr)) false in
  let dstaddrp := net_ntop src.(p_family) (Some src.(dstaddr).(addr)) false in
  let text name := str name ++ srcaddrp ++ [32] ++ dstaddrp ++ [32] ++ decimal src.(srcport) ++ [32]
                   ++ decimal src.(dstport) ++ [13; 10] in
  if src.(p_family) =? AF_INET then
    (snprintf_s (PROTOPROXY_PACKETMAXLEN + 1) (text "PROXY TCP4 "%string), len (text "PROXY TCP4 "%string))
  else if src.(p_family) =? AF_INET6 then
    (snprintf_s (PROTOPROXY_PACKETMAXLEN + 1) (text "PROXY TCP6 "%string), len (text "PROXY TCP6 "%string))
  else ([], 0).

(** ** Reading a header *)

(** [memcmp(mem + off, s, len s) == 0]. *)
Definition memeq {E} (mem : bytes) (off : Z) (s : bytes) : run E bool :=
  found ← rdn mem off (len s);
  Next (bool_decide (found = s)).

Definition protocol_proxy_getfamily (src : bytes) : run Z Z :=
  let n := len src in
  if (n <? 11) || (PROTOPROXY_PACKETMAXLEN <? n) then Return AF_UNSPEC else
  head ← memeq src 0 (str "PROXY TCP");
  if negb head then Return AF_UNSPEC else
  endptr ← memchr src 0 n 13;
  match endptr with
  | None => Return AF_UNSPEC
  | Some src_end =>
      if negb (n =? src_end + 2) then Return AF_UNSPEC else
      crlf ← memeq src src_end [13; 10];
      if negb crlf then Return AF_UNSPEC else
      blank ← rd8 src 10;
      if negb (blank =? 32) then Return AF_UNSPEC else
      digit ← rd8 src 9;
      if digit =? 52 then Next AF_INET else if digit =? 54 then Next AF_INET6 else Return AF_UNSPEC
  end.

(** The field readers: the new cursor and what was read; [false] is [None]. *)
Definition protocol_proxy_field_address (src : bytes) (cursor end_ dst_size : Z) : run unit (Z * bytes) :=
  space ← memchr src cursor (end_ - cursor) 32;
  match space with
  | None => Return ()
  | Some s =>
      let length := s - cursor in
      if (length =? 0) || (dst_size <=? length) then Return () else
      nul ← memchr src cursor length 0;
      match nul with
      | Some _ => Return ()
      | None =>
          text ← rdn src cursor length;
          Next (cursor + length, text)
      end
  end.

(** The digits loop: [length] more digits may follow; [None] for a value out of range. *)
Fixpoint protocol_proxy_port_loop (fuel : nat) (src : bytes) (cursor end_ value : Z) : run unit (Z * Z) :=
  match fuel with
  | O => Next (cursor, value)
  | S fuel =>
      if end_ <=? cursor then Next (cursor, value) else
      c ← rd8 src cursor;
      if (c <? 48) || (57 <? c) then Next (cursor, value) else
      let value := u32 (u32 (value * 10) + (c - 48)) in
      if 65535 <? value then Return () else
      protocol_proxy_port_loop fuel src (cursor + 1) end_ value
  end.

Definition protocol_proxy_field_port (src : bytes) (cursor end_ : Z) : run unit (Z * Z) :=
  '(stop, value) ← protocol_proxy_port_loop (Z.to_nat (end_ - cursor)) src cursor end_ 0;
  if stop =? cursor then Return () else Next (stop, value).

Definition protocol_proxy_field_space (src : bytes) (cursor end_ : Z) : run unit Z :=
  if end_ <=? cursor then Return () else
  c ← rd8 src cursor;
  if negb (c =? 32) then Return () else Next (cursor + 1).

(** The fields after the family, up to the line end. *)
Definition proxy_fields (src : bytes) (cursor end_ : Z) : run unit (bytes * bytes * Z * Z) :=
  if end_ <=? cursor then Return () else
  '(cursor, source_text) ← protocol_proxy_field_address src cursor end_ (INET6_ADDRSTRLEN + 2);
  cursor ← protocol_proxy_field_space src cursor end_;
  '(cursor, dest_text) ← protocol_proxy_field_address src cursor end_ (INET6_ADDRSTRLEN + 2);
  cursor ← protocol_proxy_field_space src cursor end_;
  '(cursor, source_port) ← protocol_proxy_field_port src cursor end_;
  cursor ← protocol_proxy_field_space src cursor end_;
  '(cursor, dest_port) ← protocol_proxy_field_port src cursor end_;
  if negb (cursor =? end_) then Return () else
  Next (source_text, dest_text, source_port, dest_port).

Definition protocol_proxy_read (src : option bytes) : run p_proxy p_proxy :=
  match src with
  | None => Return p_proxy_zero
  | Some src =>
      match outcome (protocol_proxy_getfamily src) with
      | None => Oob
      | Some fam =>
          if fam =? AF_UNSPEC then Return p_proxy_zero else
          '(source_text, dest_text, source_port, dest_port) ←
            catch (proxy_fields src 11 (len src - 2)) (fun _ => p_proxy_zero);
          let s := net_addr_parse (Some source_text) in
          let d := net_addr_parse (Some dest_text) in
          let bad := negb (bool_decide (s.(err) = NET_OK)) || negb (bool_decide (d.(err) = NET_OK))
                     || negb (s.(family) =? fam) || negb (d.(family) =? fam) in
          Next {| p_family := if bad then AF_UNSPEC else fam;
                  srcaddr := s; dstaddr := d; srcport := source_port; dstport := dest_port |}
      end
  end.

End proxy.

(** ** The addresses of a connected socket *)

(** The two address families of a socket address, with the address bytes and the
    port in host order; other families have none. *)
Inductive sockaddr := Sockaddr_in (a : bytes) (p : Z) | Sockaddr_in6 (a : bytes) (p : Z) | Sockaddr_other.

(** [IN6_IS_ADDR_V4MAPPED]. *)
Definition v4mapped (a : bytes) : bool := bool_decide (take 12 a = replicate 10 0 ++ [255; 255]).

Definition protocol_proxy_endpoint_read (source : sockaddr) : option (net_addr * Z) :=
  match source with
  | Sockaddr_in a p => Some ({| family := AF_INET; err := NET_OK; addr := a |}, p)
  | Sockaddr_in6 a p =>
      if v4mapped a
      then Some ({| family := AF_INET; err := NET_OK; addr := slice a 12 4 |}, p)
      else Some ({| family := AF_INET6; err := NET_OK; addr := a |}, p)
  | Sockaddr_other => None
  end.

(** [peer] and [sock] are the answers of [getpeername] and [getsockname]. *)
Definition protocol_proxy_socket_read (socket_fd : Z) (peer sock : option sockaddr) : bool * p_proxy :=
  if socket_fd <? 0 then (false, p_proxy_zero) else
  match peer ≫= protocol_proxy_endpoint_read, sock ≫= protocol_proxy_endpoint_read with
  | Some (s, sp), Some (d, dp) =>
      if negb (s.(family) =? d.(family)) then (false, p_proxy_zero)
      else (true, {| p_family := s.(family); srcaddr := s; dstaddr := d; srcport := sp; dstport := dp |})
  | _, _ => (false, p_proxy_zero)
  end.

(** ** Reading: proofs *)

Lemma memeq_next {E} mem off s : 0 <= off -> off + len s <= len mem ->
  memeq (E:=E) mem off s = Next (bool_decide (slice mem off (len s) = s)).
Proof. intros. unfold memeq. by rewrite rdn_safe by lia. Qed.

Lemma getfamily_spec src : is_bytes src ->
  exists fam, outcome (protocol_proxy_getfamily src) = Some fam /\
    (fam = AF_UNSPEC \/ fam = AF_INET \/ fam = AF_INET6).
Proof.
  intros Hb. unfold protocol_proxy_getfamily. if_as E1; [eauto|].
  rewrite memeq_next by (simpl; lia). cbn [mbind run_bind]. if_as E2; [eauto|].
  rewrite memchr_safe by lia. cbn [mbind run_bind].
  destruct (index_of 13 (slice src 0 (len src))) as [k|] eqn:Ek; cbn [fmap option_fmap option_map]; [|eauto].
  apply index_of_Some in Ek as (Hk & Hkl & _). rewrite len_slice in Hk by lia. if_as E3; [eauto|].
  rewrite memeq_next by (simpl; lia). cbn [mbind run_bind]. if_as E4; [eauto|]. rd_next. if_as E5; [eauto|]. rd_next.
  destruct (_ =? 52); [|destruct (_ =? 54)]; eauto 6.
Qed.

Section fields.
  Context (src : bytes) (end_ : Z) (Hb : is_bytes src) (He : end_ <= len src).

Lemma field_address_spec cursor size : 0 <= cursor <= end_ ->
  match protocol_proxy_field_address src cursor end_ size with
  | Next (c, t) => cursor < c < end_
  | Return _ => True
  | Oob => False
  end.
Proof.
  intros Hc. unfold protocol_proxy_field_address. rewrite memchr_safe by lia. cbn [mbind run_bind].
  destruct (index_of 32 (slice src cursor (end_ - cursor))) as [k|] eqn:Ek; cbn [fmap option_fmap option_map]; [|done].
  apply index_of_Some in Ek as (Hk & _). rewrite len_slice in Hk by lia. if_as E; [done|].
  rewrite memchr_safe by lia. cbn [mbind run_bind]. destruct (_ <$> index_of 0 _); [done|].
  rewrite rdn_safe by lia. cbn [mbind run_bind]. lia.
Qed.

Lemma field_space_spec cursor : 0 <= cursor ->
  match protocol_proxy_field_space src cursor end_ with
  | Next c => c = cursor + 1 /\ c <= end_
  | Return _ => True
  | Oob => False
  end.
Proof. intros Hc. unfold protocol_proxy_field_space. if_as E; [done|]. rd_next. if_as E2; [done|]. lia. Qed.

Lemma port_loop_spec fuel cursor value : 0 <= cursor <= end_ -> 0 <= value <= 65535 ->
  match protocol_proxy_port_loop fuel src cursor end_ value with
  | Next (c, v) => cursor <= c <= end_ /\ 0 <= v <= 65535
  | Return _ => True
  | Oob => False
  end.
Proof.
  revert cursor value. induction fuel as [|fuel IH]; intros cursor value Hc Hv; cbn [protocol_proxy_port_loop]; [lia|].
  if_as E; [lia|]. rd_next. if_as E2; [lia|]. set (v := u32 _). assert (Hv' : 0 <= v < 2 ^ 32) by (apply Z.mod_pos_bound; lia).
  if_as E3; [done|]. specialize (IH (cursor + 1) v ltac:(lia) ltac:(lia)).
  destruct (protocol_proxy_port_loop fuel src (cursor + 1) end_ v) as [[c w]| |]; [lia|done|done].
Qed.

Lemma field_port_spec cursor : 0 <= cursor <= end_ ->
  match protocol_proxy_field_port src cursor end_ with
  | Next (c, v) => cursor < c <= end_ /\ 0 <= v <= 65535
  | Return _ => True
  | Oob => False
  end.
Proof.
  intros Hc. unfold protocol_proxy_field_port.
  pose proof (port_loop_spec (Z.to_nat (end_ - cursor)) cursor 0 Hc ltac:(lia)) as H.
  destruct (protocol_proxy_port_loop _ _ _ _ _) as [[c v]| |]; [|done|done]. cbn [mbind run_bind].
  if_as E; [done|]. lia.
Qed.

Lemma proxy_fields_spec cursor : 0 <= cursor ->
  match proxy_fields src cursor end_ with
  | Next (_, _, p, q) => 0 <= p <= 65535 /\ 0 <= q <= 65535
  | Return _ => True
  | Oob => False
  end.
Proof.
  intros Hc. unfold proxy_fields. if_as E; [done|].
  pose proof (field_address_spec cursor (INET6_ADDRSTRLEN + 2) ltac:(lia)) as H1.
  destruct (protocol_proxy_field_address src cursor end_ _) as [[c1 t1]| |]; [|done|done]. cbn [mbind run_bind].
  pose proof (field_space_spec c1 ltac:(lia)) as H2.
  destruct (protocol_proxy_field_space src c1 end_) as [c2| |]; [|done|done]. cbn [mbind run_bind].
  pose proof (field_address_spec c2 (INET6_ADDRSTRLEN + 2) ltac:(lia)) as H3.
  destruct (protocol_proxy_field_address src c2 end_ _) as [[c3 t3]| |]; [|done|done]. cbn [mbind run_bind].
  pose proof (field_space_spec c3 ltac:(lia)) as H4.
  destruct (protocol_proxy_field_space src c3 end_) as [c4| |]; [|done|done]. cbn [mbind run_bind].
  pose proof (field_port_spec c4 ltac:(lia)) as H5.
  destruct (protocol_proxy_field_port src c4 end_) as [[c5 p]| |]; [|done|done]. cbn [mbind run_bind].
  pose proof (field_space_spec c5 ltac:(lia)) as H6.
  destruct (protocol_proxy_field_space src c5 end_) as [c6| |]; [|done|done]. cbn [mbind run_bind].
  pose proof (field_port_spec c6 ltac:(lia)) as H7.
  destruct (protocol_proxy_field_port src c6 end_) as [[c7 q]| |]; [|done|done]. cbn [mbind run_bind].
  if_as E2; [done|]. lia.
Qed.
End fields.

(** Reading a header makes no access outside its bytes, and a header that is
    accepted names two parsed addresses of its own family and two ports. *)
Lemma proxy_read_sound I src : is_bytes src ->
  exists p, outcome (protocol_proxy_read I (Some src)) = Some p /\
    (p_family p = AF_UNSPEC \/
     (p_family p = AF_INET \/ p_family p = AF_INET6) /\
     err (srcaddr p) = NET_OK /\ err (dstaddr p) = NET_OK /\
     family (srcaddr p) = p_family p /\ family (dstaddr p) = p_family p /\
     0 <= srcport p <= 65535 /\ 0 <= dstport p <= 65535).
Proof.
  intros Hb. unfold protocol_proxy_read. destruct (getfamily_spec src Hb) as (fam & -> & Hf).
  if_as E; [eexists; split; [done|]; by left|].
  pose proof (proxy_fields_spec src (len src - 2) Hb ltac:(lia) 11 ltac:(lia)) as H.
  destruct (proxy_fields src 11 _) as [[[[s d] p] q]| |]; cbn [catch mbind run_bind]; [|eexists; split; [done|]; by left|done].
  eexists. split; [done|]. cbn [p_family srcaddr dstaddr srcport dstport].
  set (sa := net_addr_parse I (Some s)). set (da := net_addr_parse I (Some d)).
  clearbody sa da. if_as E2; [by left|]. right.
  destruct (bool_decide_reflect (err sa = NET_OK)), (bool_decide_reflect (err da = NET_OK)); cbn in E2; try done.
  destruct Hf as [->|Hf]; [done|]. repeat split; try done; lia.
Qed.

(** ** Writing then reading *)

Definition printable (t : bytes) : Prop := Forall (fun c => 33 <= c < 127) t.

Lemma printable_no t c : printable t -> c < 33 -> Forall (fun b => b <> c) t.
Proof. intros H Hc. revert H. apply Forall_impl. lia. Qed.

Lemma decimal_printable n : 0 <= n -> printable (decimal n).
Proof. intros Hn. pose proof (decimal_shape n Hn) as H. revert H. apply Forall_impl. unfold is_digit. lia. Qed.

Section fields_at.
  Context (src : bytes) (end_ : Z) (He : end_ <= len src).

Lemma field_address_at cursor t rest : at_off src cursor (t ++ 32 :: rest) -> printable t ->
  1 <= len t < INET6_ADDRSTRLEN + 2 -> cursor + len t < end_ ->
  protocol_proxy_field_address src cursor end_ (INET6_ADDRSTRLEN + 2) = Next (cursor + len t, t).
Proof.
  intros A Ht Hl Hend. pose proof (at_off_len _ _ _ A) as [Hm H0]. unfold protocol_proxy_field_address.
  rewrite (at_off_memchr_first _ _ _ _ _ _ A) by ((apply printable_no; [done|lia]) || lia).
  cbn [mbind run_bind]. rewrite Z.add_simpl_l. if_as E; [lia|].
  rewrite (at_off_memchr _ _ _ _ _ _ A) by done. cbn [mbind run_bind].
  assert (Hn : index_of 0 t = None) by (apply index_of_None, printable_no; [done|lia]).
  rewrite Hn. cbn. by rewrite (at_off_rdn _ _ _ _ _ A).
Qed.

Lemma field_space_at cursor rest : at_off src cursor (32 :: rest) -> cursor < end_ ->
  protocol_proxy_field_space src cursor end_ = Next (cursor + 1).
Proof.
  intros A Hend. unfold protocol_proxy_field_space. if_as E; [lia|]. by rewrite (at_off_rd8 _ _ _ _ A).
Qed.

Lemma port_loop_at fuel cursor ds value rest : at_off src cursor (ds ++ rest) ->
  Forall (fun c => is_digit c = true) ds -> 0 <= value -> read_digits ds value <= 65535 ->
  len ds <= Z.of_nat fuel -> cursor + len ds <= end_ ->
  (cursor + len ds = end_ \/ exists r, rest = 32 :: r) ->
  protocol_proxy_port_loop fuel src cursor end_ value = Next (cursor + len ds, read_digits ds value).
Proof.
  intros A Hd. revert fuel cursor value A. induction Hd as [|c ds Hc Hd IH]; intros fuel cursor value A Hv Hr Hf Hend Hstop.
  - replace (cursor + len []) with cursor by (simpl; lia). cbn [read_digits].
    destruct fuel as [|fuel]; [done|]. cbn [protocol_proxy_port_loop]. if_as E; [done|].
    destruct Hstop as [Hs|[r ->]]; [simpl in Hs; lia|]. cbn [app] in A. by rewrite (at_off_rd8 _ _ _ _ A).
  - destruct fuel as [|fuel]; [simpl in Hf; lia|]. cbn [protocol_proxy_port_loop read_digits] in *. rewrite Hc in *.
    if_as E; [lens|]. cbn [app] in A. rewrite (at_off_rd8 _ _ _ _ A). cbn [mbind run_bind]. unfold is_digit in Hc.
    if_as E2; [lia|]. pose proof (read_digits_le ds (value * 10 + (c - 48)) Hd ltac:(lia)).
    rewrite (u32_id (value * 10)), u32_id by lia. if_as E3; [lia|].
    apply (at_off_skip _ _ [c]) in A. change (len [c]) with 1 in A. rewrite len_cons in *.
    rewrite (IH fuel (cursor + 1) _ A) by (try lia; by destruct Hstop; [left; lia|right]).
    do 2 f_equal. lia.
Qed.

Lemma field_port_at cursor v rest : at_off src cursor (decimal v ++ rest) -> 0 <= v < 2 ^ 16 ->
  cursor + len (decimal v) <= end_ -> (cursor + len (decimal v) = end_ \/ exists r, rest = 32 :: r) ->
  protocol_proxy_field_port src cursor end_ = Next (cursor + len (decimal v), v).
Proof.
  intros A Hv Hend Hstop. pose proof (decimal_u16_length v Hv) as Hl. unfold protocol_proxy_field_port.
  rewrite (port_loop_at _ cursor (decimal v) 0 rest A); try lia; try done;
    [|apply decimal_shape; lia|rewrite decimal_value by lia; lia].
  cbn [mbind run_bind]. rewrite decimal_value by lia. if_as E; [lia|]. done.
Qed.
End fields_at.

Lemma fields_at src s d sp dp pre : src = pre ++ s ++ 32 :: d ++ 32 :: decimal sp ++ 32 :: decimal dp ++ [13; 10] ->
  printable s -> 1 <= len s <= 45 -> printable d -> 1 <= len d <= 45 -> 0 <= sp < 2 ^ 16 -> 0 <= dp < 2 ^ 16 ->
  proxy_fields src (len pre) (len src - 2) = Next (s, d, sp, dp).
Proof.
  intros Hsrc Hs Hsl Hd Hdl Hsp Hdp.
  assert (A : at_off src (len pre) (s ++ 32 :: d ++ 32 :: decimal sp ++ 32 :: decimal dp ++ [13; 10])) by by exists pre.
  pose proof (at_off_len _ _ _ A) as [Hm _]. pose proof (decimal_u16_length sp Hsp). pose proof (decimal_u16_length dp Hdp).
  repeat (rewrite ?len_app, ?len_cons, ?len_nil in Hm). clear Hsrc. set (e := len src - 2) in *.
  assert (Hsrc : e <= len src) by lia. unfold proxy_fields, INET6_ADDRSTRLEN in *. if_as E; [lia|].
  erewrite (field_address_at src e Hsrc) by (done || (unfold INET6_ADDRSTRLEN; lia)). apply at_off_skip in A. cbn [mbind run_bind].
  erewrite (field_space_at src e) by (done || lia). apply (at_off_skip _ _ [32]) in A. change (len [32]) with 1 in A. cbn [mbind run_bind].
  erewrite (field_address_at src e Hsrc) by (done || (unfold INET6_ADDRSTRLEN; lia)). apply at_off_skip in A. cbn [mbind run_bind].
  erewrite (field_space_at src e) by (done || lia). apply (at_off_skip _ _ [32]) in A. change (len [32]) with 1 in A. cbn [mbind run_bind].
  rewrite (field_port_at src e _ _ _ A) by (done || lia || (right; by eexists)). apply at_off_skip in A. cbn [mbind run_bind].
  erewrite (field_space_at src e) by (done || lia). apply (at_off_skip _ _ [32]) in A. change (len [32]) with 1 in A. cbn [mbind run_bind].
  rewrite (field_port_at src e _ _ _ A) by (done || lia). cbn [mbind run_bind]. if_as E2; [lia|]. done.
Qed.

(** The line for a family digit. *)
Definition proxy_line (digit : Z) (s d : bytes) (sp dp : Z) : bytes :=
  (str "PROXY TCP" ++ [digit; 32]) ++ s ++ 32 :: d ++ 32 :: decimal sp ++ 32 :: decimal dp ++ [13; 10].

Lemma getfamily_line digit s d sp dp : digit = 52 \/ digit = 54 ->
  printable s -> 1 <= len s <= 45 -> printable d -> 1 <= len d <= 45 -> 0 <= sp < 2 ^ 16 -> 0 <= dp < 2 ^ 16 ->
  len (proxy_line digit s d sp dp) <= PROTOPROXY_PACKETMAXLEN /\
  outcome (protocol_proxy_getfamily (proxy_line digit s d sp dp)) = Some (if digit =? 52 then AF_INET else AF_INET6).
Proof.
  intros Hdg Hs Hsl Hd Hdl Hsp Hdp. pose proof (decimal_u16_length sp Hsp). pose proof (decimal_u16_length dp Hdp).
  set (body := str "PROXY TCP" ++ [digit; 32] ++ s ++ 32 :: d ++ 32 :: decimal sp ++ 32 :: decimal dp).
  assert (Hl : proxy_line digit s d sp dp = body ++ 13 :: [10]).
  { unfold proxy_line, body. by repeat (progress (rewrite <- ?app_assoc; cbn [app])). }
  assert (Hb : 17 <= len body <= 114).
  { unfold body. change (str "PROXY TCP") with [80; 82; 79; 88; 89; 32; 84; 67; 80]. lens. }
  rewrite Hl. split; [unfold PROTOPROXY_PACKETMAXLEN; lens|]. unfold protocol_proxy_getfamily, PROTOPROXY_PACKETMAXLEN.
  if_as E1; [lens|].
  rewrite memeq_next by (rewrite ?len_app; simpl; lia). cbn [mbind run_bind].
  rewrite bool_decide_eq_true_2 by done. cbn [negb].
  assert (Hno : Forall (fun b => b <> 13) body).
  { unfold body. rewrite !Forall_app, !Forall_cons_iff, !Forall_app, !Forall_cons_iff, !Forall_app, !Forall_cons_iff.
    repeat split; try lia; try (by apply printable_no; [|lia]); try (apply printable_no; [apply decimal_printable|]; lia).
    - change (str "PROXY TCP") with [80; 82; 79; 88; 89; 32; 84; 67; 80]. by repeat (constructor; [lia|]).
    - constructor. }
  erewrite at_off_memchr_first by (try apply at_off_start; try exact Hno; lens). cbn [mbind run_bind].
  if_as E3; [lens|]. rewrite memeq_next by lens. cbn [mbind run_bind].
  rewrite bool_decide_eq_true_2 by (by rewrite (at_off_all (body ++ [13; 10]) (0 + len body) [13; 10]); [|exists body]). cbn [negb].
  change (body ++ [13; 10]) with (str "PROXY TCP" ++ digit :: 32 :: (s ++ 32 :: d ++ 32 :: decimal sp ++ 32 :: decimal dp) ++ [13; 10]).
  erewrite (at_off_rd8 _ 10) by (by exists (str "PROXY TCP" ++ [digit])). cbn [mbind run_bind Z.eqb Pos.eqb negb].
  erewrite (at_off_rd8 _ 9) by (by exists (str "PROXY TCP")). cbn [mbind run_bind].
  destruct Hdg as [->| ->]; done.
Qed.

(** The headers the relay writes: two valid addresses of one family. *)
Definition wf_proxy (p : p_proxy) : Prop :=
  (p_family p = AF_INET \/ p_family p = AF_INET6) /\
  family (srcaddr p) = p_family p /\ family (dstaddr p) = p_family p /\
  err (srcaddr p) = NET_OK /\ err (dstaddr p) = NET_OK /\
  is_bytes (addr (srcaddr p)) /\ is_bytes (addr (dstaddr p)) /\
  length (addr (srcaddr p)) = (if p_family p =? AF_INET then 4%nat else 16%nat) /\
  length (addr (dstaddr p)) = (if p_family p =? AF_INET then 4%nat else 16%nat) /\
  0 <= srcport p < 2 ^ 16 /\ 0 <= dstport p < 2 ^ 16.

(** The text of an address, and what parsing it gives. *)
Lemma wf_address_text I fam a : inet_laws I -> (fam = AF_INET \/ fam = AF_INET6) -> family a = fam ->
  err a = NET_OK -> is_bytes (addr a) -> length (addr a) = (if fam =? AF_INET then 4%nat else 16%nat) ->
  let t := net_ntop I fam (Some (addr a)) false in
  printable t /\ 1 <= len t <= 45 /\ net_addr_parse I (Some t) = a.
Proof.
  intros [N4 N6 P4 P6 P46] Hf Ha He Hb Hl. destruct a as [f e a]. simpl in *. subst f e.
  unfold net_ntop, net_addr_parse. destruct Hf as [->| ->]; cbn in *.
  - destruct (N4 a Hb Hl) as [Hp Hn]. rewrite P4 by done. repeat split; [done|lia|lia].
  - destruct (N6 a Hb Hl) as [Hp Hn]. rewrite P46, P6 by done. repeat split; [done|lia|lia].
Qed.

Lemma proxy_write_line I p : (p_family p = AF_INET \/ p_family p = AF_INET6) ->
  let s := net_ntop I (p_family p) (Some (addr (srcaddr p))) false in
  let d := net_ntop I (p_family p) (Some (addr (dstaddr p))) false in
  let line := proxy_line (if p_family p =? AF_INET then 52 else 54) s d (srcport p) (dstport p) in
  protocol_proxy_write I p = (snprintf_s (PROTOPROXY_PACKETMAXLEN + 1) line, len line).
Proof. intros Hf. unfold protocol_proxy_write. destruct Hf as [->| ->]; done. Qed.

Lemma proxy_write_read I p : inet_laws I -> wf_proxy p ->
  exists line, protocol_proxy_write I p = (line, len line) /\ 0 < len line <= PROTOPROXY_PACKETMAXLEN /\
    protocol_proxy_read I (Some line) = Next p.
Proof.
  intros HI (Hf & Hsf & Hdf & Hse & Hde & Hsb & Hdb & Hsl & Hdl & Hsp & Hdp).
  destruct (wf_address_text I (p_family p) (srcaddr p)) as (Hs1 & Hs2 & Hs3); try done.
  destruct (wf_address_text I (p_family p) (dstaddr p)) as (Hd1 & Hd2 & Hd3); try done.
  pose proof (proxy_write_line I p Hf) as Hw. cbv zeta in Hw.
  set (s := net_ntop I _ (Some (addr (srcaddr p))) false) in *. set (d := net_ntop I _ (Some (addr (dstaddr p))) false) in *.
  set (digit := if p_family p =? AF_INET then 52 else 54) in *.
  assert (Hdg : digit = 52 \/ digit = 54) by (unfold digit; destruct (p_family p =? AF_INET); auto).
  destruct (getfamily_line digit s d (srcport p) (dstport p)) as [Hlen Hfam]; try done.
  assert (Hfp : (if digit =? 52 then AF_INET else AF_INET6) = p_family p)
    by (unfold digit; destruct Hf as [->| ->]; done).
  exists (proxy_line digit s d (srcport p) (dstport p)). split; [|split].
  - rewrite Hw. f_equal. unfold snprintf_s. apply take_ge. unfold PROTOPROXY_PACKETMAXLEN in *. lia.
  - split; [|done]. unfold proxy_line. rewrite len_app. simpl. lia.
  - unfold protocol_proxy_read. rewrite Hfam, Hfp. replace (p_family p =? AF_UNSPEC) with false by (destruct Hf as [->| ->]; done).
    pose proof (fields_at _ s d (srcport p) (dstport p) (str "PROXY TCP" ++ [digit; 32]) eq_refl
      Hs1 Hs2 Hd1 Hd2 Hsp Hdp) as Hfl. fold (proxy_line digit s d (srcport p) (dstport p)) in Hfl.
    change (len (str "PROXY TCP" ++ [digit; 32])) with 11 in Hfl. rewrite Hfl.
    cbn [catch mbind run_bind]. rewrite Hs3, Hd3, Hse, Hde, Hsf, Hdf, Z.eqb_refl. f_equal. by destruct p.
Qed.

(** The header written for two addresses of one family is complete, at most
    [PROTOPROXY_PACKETMAXLEN] bytes long, and reading it gives back the same
    addresses and ports. *)
Lemma proxy_roundtrip I p : inet_laws I -> wf_proxy p ->
  exists line, protocol_proxy_write I p = (line, len line) /\ 0 < len line <= PROTOPROXY_PACKETMAXLEN /\
    protocol_proxy_read I (Some line) = Next p.
Proof. apply proxy_write_read. Qed.

(** A concrete pair of conversions: hexadecimal digits, with a leading colon for
    the long form. *)
Definition hex_text (a : bytes) : bytes := concat ((fun b => [hex_char (b / 16); hex_char (b mod 16)]) <$> a).
Fixpoint hex_parse (t : bytes) : option bytes :=
  match t with
  | [] => Some []
  | h :: l :: t => h ← hex_value h; l ← hex_value l; r ← hex_parse t; Some (h * 16 + l :: r)
  | _ => None
  end.
Definition hex_inet : inet :=
  {| inet_ntop4 := hex_text; inet_pton4 := hex_parse;
     inet_ntop6 := fun a => 58 :: hex_text a;
     inet_pton6 := fun t => match t with 58 :: t => hex_parse t | _ => None end |}.

Lemma hex_char_range k : 0 <= k < 16 -> 48 <= hex_char k <= 102.
Proof.
  intros Hk. pose proof (byte_forall (fun k => negb (k <? 16) || ((48 <=? hex_char k) && (hex_char k <=? 102)))) as H.
  specialize (H ltac:(by vm_compute) k ltac:(unfold is_byte; lia)). lia.
Qed.

Lemma hex_text_len a : len (hex_text a) = 2 * len a.
Proof. unfold hex_text. induction a as [|b a IH]; [done|]. cbn [fmap list_fmap concat]. rewrite len_app, IH. simpl. lia. Qed.

Lemma hex_text_printable a : is_bytes a -> printable (hex_text a).
Proof.
  unfold hex_text. induction 1 as [|b a Hb Ha IH]; [constructor|]. cbn [fmap list_fmap concat app]. unfold is_byte in Hb.
  pose proof (hex_char_range (b / 16) ltac:(zlia)). pose proof (hex_char_range (b mod 16) ltac:(zlia)).
  constructor; [lia|]. constructor; [lia|done].
Qed.

Lemma hex_parse_text a : is_bytes a -> hex_parse (hex_text a) = Some a.
Proof.
  unfold hex_text. induction 1 as [|b a Hb Ha IH]; [done|]. cbn [fmap list_fmap concat app hex_parse]. unfold is_byte in Hb.
  rewrite !hex_char_spec by zlia. cbn [mbind option_bind]. cbn in IH. rewrite IH. cbn. do 2 f_equal. zlia.
Qed.

Lemma hex_inet_laws : inet_laws hex_inet.
Proof.
  constructor; simpl; intros a Hb; intros.
  - split; [by apply hex_text_printable|]. rewrite hex_text_len. lia.
  - split; [constructor; [lia|by apply hex_text_printable]|]. simpl length. pose proof (hex_text_len a). lia.
  - by apply hex_parse_text.
  - by apply hex_parse_text.
  - by destruct (hex_text a).
Qed.

Definition sample_proxy : p_proxy :=
  {| p_family := AF_INET;
     srcaddr := {| family := AF_INET; err := NET_OK; addr := [10; 0; 0; 1] |};
     dstaddr := {| family := AF_INET; err := NET_OK; addr := [192; 168; 1; 7] |};
     srcport := 40000; dstport := 25565 |}.

(** ** Socket addresses: proofs *)

(** The header announced for an accepted connection always has two addresses
    of one family, the IPv4-mapped ones announced as IPv4. *)
Lemma proxy_socket_sound fd peer sock p :
  protocol_proxy_socket_read fd peer sock = (true, p) ->
  (forall a q, peer = Some (Sockaddr_in a q) \/ sock = Some (Sockaddr_in a q) -> is_bytes a /\ length a = 4%nat /\ 0 <= q < 2 ^ 16) ->
  (forall a q, peer = Some (Sockaddr_in6 a q) \/ sock = Some (Sockaddr_in6 a q) -> is_bytes a /\ length a = 16%nat /\ 0 <= q < 2 ^ 16) ->
  wf_proxy p /\ (p_family p = AF_INET6 -> v4mapped (addr (srcaddr p)) = false /\ v4mapped (addr (dstaddr p)) = false).
Proof.
  unfold protocol_proxy_socket_read. intros H H4 H6. destruct (fd <? 0); [done|].
  assert (Hep : forall x, peer = Some x \/ sock = Some x -> match protocol_proxy_endpoint_read x with
    | Some (a, q) => (family a = AF_INET \/ family a = AF_INET6) /\ err a = NET_OK /\ is_bytes (addr a) /\
        length (addr a) = (if family a =? AF_INET then 4%nat else 16%nat) /\ 0 <= q < 2 ^ 16 /\
        (family a = AF_INET6 -> v4mapped (addr a) = false)
    | None => True end).
  { intros [a q|a q|] Hx; simpl; [|destruct (v4mapped a) eqn:Ev|done]; simpl.
    - destruct (H4 a q) as (? & ? & ?); [naive_solver|]. repeat split; auto; done || lia.
    - destruct (H6 a q) as (? & ? & ?); [naive_solver|]. split; [auto|]. split; [done|].
      split; [by apply is_bytes_slice|]. split; [|done]. apply Nat2Z.inj. rewrite len_slice; lia.
    - destruct (H6 a q) as (? & ? & ?); [naive_solver|]. repeat split; auto; done || lia. }
  destruct peer as [x|]; [|done]. destruct sock as [y|]; simpl in H; [|by destruct (protocol_proxy_endpoint_read x) as [[]|]].
  pose proof (Hep x (or_introl eq_refl)) as Hx. pose proof (Hep y (or_intror eq_refl)) as Hy.
  destruct (protocol_proxy_endpoint_read x) as [[s sp]|]; [|done]. destruct (protocol_proxy_endpoint_read y) as [[d dp]|]; [|done].
  destruct (family s =? family d) eqn:E; [|done]. apply Z.eqb_eq in E. simpl in H. simplify_eq.
  destruct Hx as (? & ? & ? & Hs & ? & ?), Hy as (? & ? & ? & Hd & ? & ?). rewrite <- E in *. unfold wf_proxy. simpl. auto 20.
Qed.
