(* ===== verification/Log.v ===== *)
(** * Files and the log ([src/src/log.c], [freadall] of [src/src/basic.c])

    The answers of the kernel and of stdio to the calls a function makes are its
    arguments; what it writes to the log file and to the two standard streams is its
    result.  Descriptors are counted, so that a leak shows. *)

From Stdlib Require Import String.
From S2P Require Import Prelude Basic Proxy.

(** ** Reading a whole file *)

Definition FREADALL_SLIMIT : Z := 5242880.

Inductive freadall_error := FREADALL_ERROR_NONE | FREADALL_EINVAL | FREADALL_ERFAIL | FREADALL_ELARGE | FREADALL_ENOMEM.

Inductive file_kind := Regular | Fifo | OtherKind.

(** What reading a file meets: [open], [fstat], [fdopen], the two allocations, the pieces
    [fread] delivers (an empty piece, and the end of the list, are its 0), and whether the
    stream then has an error. *)
Record read_answers := {
  ra_open : bool; ra_stat : option file_kind; ra_fdopen : bool; ra_malloc : bool; ra_realloc : bool; ra_pieces : list bytes; ra_ferror : bool;
}.

Definition fread (size : Z) (pieces : list bytes) : bytes * list bytes :=
  match pieces with
  | [] => ([], [])
  | p :: pieces => (take (Z.to_nat size) p, if len p <=? size then pieces else drop (Z.to_nat size) p :: pieces)
  end.

(** The loop that fills the buffer: each round takes a piece or ends. *)
Fixpoint read_loop (fuel : nat) (buffer : bytes) (pieces : list bytes) : bytes * list bytes :=
  match fuel with
  | O => (buffer, pieces)
  | S fuel =>
      if len buffer <? FREADALL_SLIMIT then
        let '(p, pieces) := fread (FREADALL_SLIMIT - len buffer) pieces in
        if len p =? 0 then (buffer, pieces) else read_loop fuel (buffer ++ p) pieces
      else (buffer, pieces)
  end.

(** The contents or the error, and the descriptors and allocations still open at the
    return; the buffer of the contents belongs to the caller. *)
Record read_result := { rr_result : freadall_error + bytes; rr_descriptors : Z; rr_buffers : Z }.
Definition read_failed (e : freadall_error) : read_result := {| rr_result := inl e; rr_descriptors := 0; rr_buffers := 0 |}.

Definition freadall (a : read_answers) (filename : option bytes) (dst allow_fifo : bool) : read_result :=
  match filename with
  | None => read_failed FREADALL_EINVAL
  | Some filename =>
      if negb dst then read_failed FREADALL_EINVAL else
      if negb (ra_open a) then read_failed FREADALL_ERFAIL else
      let descriptors := 1 in
      let accepted := match ra_stat a with Some Regular => true | Some Fifo => allow_fifo | _ => false end in
      if negb accepted then {| rr_result := inl FREADALL_ERFAIL; rr_descriptors := descriptors - 1; rr_buffers := 0 |} else
      if negb (ra_fdopen a) then {| rr_result := inl FREADALL_ERFAIL; rr_descriptors := descriptors - 1; rr_buffers := 0 |} else
      if negb (ra_malloc a) then {| rr_result := inl FREADALL_ENOMEM; rr_descriptors := descriptors - 1; rr_buffers := 0 |} else
      let buffers := 1 in
      let '(buffer, pieces) := read_loop (S (length (ra_pieces a))) [] (ra_pieces a) in
      let extra := (len buffer =? FREADALL_SLIMIT) && negb (len (fread 1 pieces).1 =? 0) in
      if extra then {| rr_result := inl FREADALL_ELARGE; rr_descriptors := descriptors - 1; rr_buffers := buffers - 1 |} else
      if ra_ferror a then {| rr_result := inl FREADALL_ERFAIL; rr_descriptors := descriptors - 1; rr_buffers := buffers - 1 |} else
      {| rr_result := inr buffer; rr_descriptors := descriptors - 1; rr_buffers := if 0 <? len buffer then buffers else buffers - 1 |}
  end.

(** ** The log *)

Inductive mksys_level := MKSYS_LEVEL_CRITICAL | MKSYS_LEVEL_WARNING | MKSYS_LEVEL_INFORMATION | MKSYS_LEVEL_ALL.
Inductive mksys_line_end := MKSYS_LINE_END | MKSYS_PARAGRAPH_END.
Definition level_value (l : mksys_level) : Z :=
  match l with MKSYS_LEVEL_CRITICAL => 0 | MKSYS_LEVEL_WARNING => 1 | MKSYS_LEVEL_INFORMATION => 2 | MKSYS_LEVEL_ALL => 3 end.

(** A write that succeeds, or that fails after some bytes. *)
Definition put (answer : option nat) (b : bytes) : bytes * bool :=
  match answer with None => (b, true) | Some n => (take n b, false) end.

Record log_answers := {
  la_time : option bytes; (* what [strftime] writes, when [localtime_r] succeeds *)
  la_open : bool; la_stat : option file_kind; la_fdopen : bool;
  la_prefix : option nat; la_message : option nat; la_fclose : bool; la_isatty : bool; la_out_prefix : option nat; la_out_message : option nat;
  la_close : bool;
}.

Definition TIME_SIZE : Z := 32.

(** The time with the colon of its zone, or nothing. *)
Definition gettime (formatted : option bytes) (target_size : Z) : bytes :=
  match formatted with
  | None => []
  | Some target =>
      let target_length := len target in
      if (target_length <? 5) || (target_size <=? target_length + 1)
         || (negb (bool_decide (target !! Z.to_nat (target_length - 5) = Some 43)) && negb (bool_decide (target !! Z.to_nat (target_length - 5) = Some 45)))
      then [] else take (Z.to_nat (target_length - 2)) target ++ [58] ++ drop (Z.to_nat (target_length - 2)) target
  end.

(** Whether the file is open, and the descriptors left. *)
Definition log_fd_open (a : log_answers) (filename : option bytes) : bool * Z :=
  match filename with
  | None => (false, 0)
  | Some _ =>
      if negb (la_open a) then (false, 0) else
      match la_stat a with
      | Some Regular => (true, 1)
      | _ => (false, 1 - 1)
      end
  end.

Record logged := { lo_result : Z; lo_file : bytes; lo_stdout : bytes; lo_stderr : bytes; lo_descriptors : Z }.

Definition level_str (l : mksys_level) : bytes :=
  match l with MKSYS_LEVEL_CRITICAL => str "CRIT" | MKSYS_LEVEL_WARNING => str "WARN" | _ => str "INFO" end.

(** The two writes of one line, with their prefix unless there is none. *)
Definition put_line (prefix : bytes) (noprefix : bool) (prefix_answer message_answer : option nat) (line : bytes) : bytes * bool :=
  let '(p, ok1) := if noprefix then ([], true) else put prefix_answer prefix in
  let '(m, ok2) := put message_answer line in
  (p ++ m, ok1 && ok2).

(** The file part: what is written, whether it failed, and the descriptors left. *)
Definition log_file_write (a : log_answers) (noprefix : bool) (logfile : bytes) (level : bytes) (message : bytes) : bytes * bool * Z :=
  if bool_decide (logfile = []) then ([], false, 0) else
  let time_str := gettime (la_time a) TIME_SIZE in
  let '(opened, descriptors) := log_fd_open a (Some logfile) in
  if negb opened then ([], true, descriptors) else
  if negb (la_fdopen a) then ([], true, descriptors - 1) else
  let '(b, ok) := put_line (str "[" ++ time_str ++ str "] [" ++ level ++ str "] ") noprefix (la_prefix a) (la_message a) (message ++ [10]) in
  (b, negb ok || negb (la_fclose a), descriptors - 1).

Definition log_write (a : log_answers) (noprefix : bool) (logfile : bytes) (maxlevel : Z) (msglevel : mksys_level) (line_end : mksys_line_end)
    (message : option bytes) : logged :=
  let message := default [] message in
  if maxlevel <? level_value msglevel then {| lo_result := 0; lo_file := []; lo_stdout := []; lo_stderr := []; lo_descriptors := 0 |} else
  let level := level_str msglevel in
  let '(file, failed, descriptors) := log_file_write a noprefix logfile level message in
  if noprefix && negb (la_isatty a)
  then {| lo_result := if failed then 1 else 0; lo_file := file; lo_stdout := []; lo_stderr := []; lo_descriptors := descriptors |} else
  let '(out, ok) := put_line (str "[" ++ level ++ str "] ") noprefix (la_out_prefix a) (la_out_message a)
    (message ++ match line_end with MKSYS_PARAGRAPH_END => [10; 10] | MKSYS_LINE_END => [10] end) in
  let critical := match msglevel with MKSYS_LEVEL_CRITICAL => true | _ => false end in
  {| lo_result := if failed || negb ok then 1 else 0; lo_file := file; lo_stdout := if critical then [] else out; lo_stderr := if critical then out else [];
     lo_descriptors := descriptors |}.

Definition log_file_validate (a : log_answers) (filename : option bytes) : Z * Z :=
  let '(opened, descriptors) := log_fd_open a filename in
  if negb opened then (-1, descriptors) else (if la_close a then 0 else -1, descriptors - 1).

(** The format up to its first newline, as far as it fits. *)
Definition format_line (format : option bytes) : bytes :=
  let format := default [] format in
  take (Z.to_nat (BUFSIZ - 1)) (take (default (length format) (Z.to_nat <$> index_of 10 format)) format).

(** [vsnprintf]: the rendering of the format with the arguments, which may fail. *)
Definition mksysmsg (a : log_answers) (vsnprintf : bytes -> option bytes) (noprefix : bool) (logfile : bytes) (maxlevel : Z) (msglevel : mksys_level)
    (line_end : mksys_line_end) (format : option bytes) : logged :=
  let rendered := default [] (vsnprintf (format_line format)) in
  let rendered_size := if BUFSIZ <=? len rendered then BUFSIZ - 1 else len rendered in
  log_write a noprefix logfile maxlevel msglevel line_end (escape_default (BUFSIZ * 4 + 1) (Some (take (Z.to_nat rendered_size) rendered))).

(** ** Reading: proofs *)

(** What the stream holds until its end. *)
Fixpoint stream (pieces : list bytes) : bytes :=
  match pieces with
  | [] => []
  | p :: pieces => if len p =? 0 then [] else p ++ stream pieces
  end.

Lemma fread_stream size pieces : 0 < size -> let '(p, pieces') := fread size pieces in
  stream pieces = p ++ stream pieces' \/ (p = [] /\ stream pieces = []).
Proof.
  intros Hs. unfold fread. destruct pieces as [|p pieces]; [by right|]. cbn [stream]. destruct (len p =? 0) eqn:E.
  - right. apply Z.eqb_eq in E. rewrite (nil_length_inv p) by lia. by rewrite take_nil.
  - left. if_as E2; [by rewrite take_ge by lia|]. cbn [stream]. rewrite length_drop. if_as E3; [lia|]. by rewrite app_assoc, take_drop.
Qed.

Lemma read_loop_spec fuel : forall buffer pieces, len buffer <= FREADALL_SLIMIT -> (length pieces < fuel)%nat ->
  let '(b, rest) := read_loop fuel buffer pieces in
  (len b < FREADALL_SLIMIT /\ b = buffer ++ stream pieces) \/ (len b = FREADALL_SLIMIT /\ buffer ++ stream pieces = b ++ stream rest).
Proof.
  induction fuel as [|fuel IH]; intros buffer pieces Hl Hf; [lia|]. cbn [read_loop]. if_as E; [|right; split; [lia|done]].
  pose proof (fread_stream (FREADALL_SLIMIT - len buffer) pieces ltac:(lia)) as Hr. destruct (fread _ pieces) as [p rest] eqn:Ef.
  unfold fread in Ef. destruct pieces as [|q pieces].
  - injection Ef as <- <-. cbn. left. rewrite app_nil_r. split; [lia|done].
  - injection Ef as Hp Hrest. rewrite length_cons in Hf. if_as E2.
    + left. split; [lia|]. destruct Hr as [Hr|[_ ->]]; [|by rewrite app_nil_r]. apply Z.eqb_eq in E2. apply Z.ltb_lt in E.
      assert (Hq : q = []) by (apply nil_length_inv; rewrite <- Hp, length_take in E2; lia). subst q. cbn [stream length Z.of_nat Z.eqb]. by rewrite app_nil_r.
    + destruct Hr as [Hr|[-> _]]; [|done]. rewrite Hr, app_assoc.
      assert (Hlp : len p <= FREADALL_SLIMIT - len buffer) by (rewrite <- Hp, length_take; lia).
      destruct (len q <=? FREADALL_SLIMIT - len buffer) eqn:E3.
      * subst rest. apply IH; [lens|lia].
      * assert (Hfull : len (buffer ++ p) = FREADALL_SLIMIT) by (rewrite len_app, <- Hp, length_take; lia).
        destruct fuel as [|fuel]; [lia|]. cbn [read_loop]. rewrite Hfull. cbn [Z.ltb]. rewrite Z.ltb_irrefl. by right.
Qed.

(** [freadall] leaves no descriptor open and no buffer but that of the contents; it returns
    the whole file, refuses exactly the ones above its limit, and fails when a call does. *)
Lemma freadall_exact a filename allow_fifo :
  let r := freadall a (Some filename) true allow_fifo in
  let accepted := ra_open a && match ra_stat a with Some Regular => true | Some Fifo => allow_fifo | _ => false end && ra_fdopen a in
  rr_descriptors r = 0 /\ rr_buffers r = (match rr_result r with inr (_ :: _) => 1 | _ => 0 end) /\
  rr_result r = if negb accepted then inl FREADALL_ERFAIL else if negb (ra_malloc a) then inl FREADALL_ENOMEM else
    if FREADALL_SLIMIT <? len (stream (ra_pieces a)) then inl FREADALL_ELARGE else
    if ra_ferror a then inl FREADALL_ERFAIL else inr (stream (ra_pieces a)).
Proof.
  unfold freadall. cbn [negb]. destruct (ra_open a); [|done]. cbn [negb andb]. destruct (match ra_stat a with Some Regular => true | Some Fifo => allow_fifo | _ => false end); [|done].
  cbn [negb andb]. destruct (ra_fdopen a); [|done]. cbn [negb]. destruct (ra_malloc a); [|done]. cbn [negb].
  pose proof (read_loop_spec (S (length (ra_pieces a))) [] (ra_pieces a) ltac:(done) ltac:(lia)) as Hl. cbn [app] in Hl.
  destruct (read_loop _ [] (ra_pieces a)) as [b rest]. destruct Hl as [[Hl ->]|[Hl Hb]].
  - replace (_ =? FREADALL_SLIMIT) with false by lia. cbn [andb]. replace (FREADALL_SLIMIT <? _) with false by lia.
    destruct (ra_ferror a); [done|]. cbn [rr_result rr_descriptors rr_buffers]. split; [done|]. split; [|done]. by destruct (stream (ra_pieces a)).
  - rewrite Hb, Hl, Z.eqb_refl, len_app, Hl. cbn [andb].
    assert (Hx : negb (len (fread 1 rest).1 =? 0) = (FREADALL_SLIMIT <? FREADALL_SLIMIT + len (stream rest))).
    { pose proof (fread_stream 1 rest ltac:(lia)) as Hf. destruct (fread 1 rest) as [p rest'] eqn:Ef. cbn [fst]. destruct Hf as [Hf|[-> ->]]; [|cbn [length negb Z.of_nat Z.eqb]; lia].
      assert (Hs : p = [] -> stream rest = []).
      { intros ->. unfold fread in Ef. destruct rest as [|[|x q] rest]; [done..|]. discriminate Ef. }
      destruct p as [|x p]; [rewrite Hs by done; cbn [length negb Z.of_nat Z.eqb]; lia|]. rewrite Hf, len_app, len_cons. lia. }
    rewrite Hx. if_as E; [done|]. assert (Hr : stream rest = []) by (apply nil_length_inv; lia). rewrite Hr, app_nil_r.
    destruct (ra_ferror a); [done|]. cbn [rr_result rr_descriptors rr_buffers]. split; [done|]. split; [|done]. by destruct b.
Qed.

(** ** Logging: proofs *)

Definition visible (b : Z) : Prop := 32 <= b < 127.
(** Visible text and then the given end, possibly cut off. *)
Definition one_line (ends : bytes) (l : bytes) : Prop := exists text, Forall visible text /\ l `prefix_of` (text ++ ends).

Lemma put_prefix answer b : (put answer b).1 `prefix_of` b.
Proof. destruct answer as [n|]; [exists (drop n b); symmetry; apply take_drop|done]. Qed.

Lemma put_line_one prefix noprefix pa ma text ends : Forall visible prefix -> Forall visible text -> one_line ends (put_line prefix noprefix pa ma (text ++ ends)).1.
Proof.
  intros Hp Ht. unfold put_line. destruct (if noprefix then ([], true) else put pa prefix) as [p ok1] eqn:Ep. pose proof (put_prefix ma (text ++ ends)) as Hm.
  destruct (put ma (text ++ ends)) as [m ok2]. cbn [fst] in *. exists (p ++ text). rewrite <- app_assoc. split; [|by apply prefix_app].
  apply Forall_app. split; [|done]. destruct noprefix; [injection Ep as <- _; by apply Forall_nil|].
  pose proof (put_prefix pa prefix) as Hq. rewrite Ep in Hq. destruct Hq as [r Hr]. cbn [fst] in Hr. subst prefix. by apply Forall_app in Hp as [Hp _].
Qed.

Lemma gettime_visible t size : (forall s, t = Some s -> Forall visible s) -> Forall visible (gettime t size).
Proof.
  intros Ht. unfold gettime. destruct t as [s|]; [|by apply Forall_nil]. if_as E; [by apply Forall_nil|]. specialize (Ht s eq_refl).
  apply Forall_app. split; [by apply Forall_take|]. apply Forall_app. split; [|by apply Forall_drop]. by apply Forall_cons; [|apply Forall_nil].
Qed.

Lemma visible_check l : forallb (fun b => (32 <=? b) && (b <? 127)) l = true -> Forall visible l.
Proof. intros H. apply list.Forall_forall. intros b Hb. rewrite forallb_forall in H. specialize (H b (proj1 (list_elem_of_In _ _) Hb)). unfold visible. lia. Qed.

Lemma level_visible l : Forall visible (level_str l).
Proof. destruct l; by apply visible_check. Qed.

Lemma log_file_write_ok a noprefix logfile level message : (forall s, la_time a = Some s -> Forall visible s) -> Forall visible level -> Forall visible message ->
  let '(b, failed, descriptors) := log_file_write a noprefix logfile level message in one_line [10] b /\ descriptors = 0.
Proof.
  intros Ht Hl Hm. unfold log_file_write. assert (Hnil : one_line [10] []) by (exists []; split; [by apply Forall_nil|apply prefix_nil]).
  if_as E; [done|]. unfold log_fd_open. destruct (la_open a); cbn [negb]; [|done]. destruct (la_stat a) as [[]|]; cbn [negb]; try done.
  destruct (la_fdopen a); cbn [negb]; [|done].
  pose proof (put_line_one (str "[" ++ gettime (la_time a) TIME_SIZE ++ str "] [" ++ level ++ str "] ") noprefix (la_prefix a) (la_message a) message [10]) as Hp.
  destruct (put_line _ _ _ _ _) as [b ok]. split; [|done]. apply Hp; [|done].
  repeat (apply Forall_app; split); try done; try (by apply visible_check). by apply gettime_visible.
Qed.

(** Nothing of a rendered message is left out. *)
Lemma escape_loop_whole size src : is_bytes src -> forall offset, offset + 4 * len src < size -> 
  Forall visible (escape_loop size offset src) /\ unescape (S (length src)) (escape_loop size offset src) = Some src.
Proof.
  induction 1 as [|c src Hc Hs IH]; intros offset Hl; [by split; [apply Forall_nil|]|]. rewrite len_cons in Hl. cbn [escape_loop].
  destruct (escape_unit_visible c Hc) as [Hv H1]. assert (H4 : len (escape_unit c) <= 4) by (unfold escape_unit; split_ifs; cbn; lia).
  if_as E; [lia|]. destruct (IH (offset + len (escape_unit c)) ltac:(lia)) as [Hv2 Hu]. split; [by apply Forall_app|].
  rewrite unescape_unit by done. cbn [length]. by rewrite Hu.
Qed.

Lemma one_line_nil ends : one_line ends [].
Proof. exists []. split; [by apply Forall_nil|apply prefix_nil]. Qed.

Lemma log_write_lines a noprefix logfile maxlevel msglevel line_end message : (forall t, la_time a = Some t -> Forall visible t) -> Forall visible message ->
  let l := log_write a noprefix logfile maxlevel msglevel line_end (Some message) in
  let ends := match line_end with MKSYS_PARAGRAPH_END => [10; 10] | MKSYS_LINE_END => [10] end in
  one_line [10] (lo_file l) /\ one_line ends (lo_stdout l) /\ one_line ends (lo_stderr l) /\ lo_descriptors l = 0 /\
  (maxlevel < level_value msglevel -> lo_file l = [] /\ lo_stdout l = [] /\ lo_stderr l = []).
Proof.
  intros Ht Hm. unfold log_write. cbn zeta. change (default [] (Some message)) with message. pose proof one_line_nil as Hnil. if_as E; [done|].
  pose proof (log_file_write_ok a noprefix logfile (level_str msglevel) message Ht (level_visible _) Hm) as Hf.
  destruct (log_file_write _ _ _ _ _) as [[file failed] descriptors]. destruct Hf as [Hf ->].
  if_as E2; [cbn; repeat split; try done; lia|]. set (ends := match line_end with MKSYS_PARAGRAPH_END => _ | _ => _ end).
  pose proof (put_line_one (str "[" ++ level_str msglevel ++ str "] ") noprefix (la_out_prefix a) (la_out_message a) message ends) as Hp.
  destruct (put_line _ _ _ _ _) as [out ok]. cbn [fst] in Hp. assert (Ho : one_line ends out).
  { apply Hp; [|done]. apply Forall_app. split; [by apply visible_check|]. apply Forall_app. split; [apply level_visible|by apply visible_check]. }
  cbn [lo_file lo_stdout lo_stderr lo_descriptors]. split; [done|]. split; [by destruct msglevel|]. split; [by destruct msglevel|]. split; [done|lia].
Qed.

(** A log call writes at most one line, whatever the format, its arguments and the
    failures of the files: only visible characters reach the log file and the terminal
    before the final line end, and the text logged is, escaped, the whole rendered
    message, so that a client cannot forge or split log lines.  Messages above the
    configured level write nothing, and no descriptor stays open. *)
Lemma log_one_line a vsnprintf noprefix logfile maxlevel msglevel line_end format :
  (forall t, la_time a = Some t -> Forall visible t) -> (forall f r, vsnprintf f = Some r -> is_bytes r) ->
  let l := mksysmsg a vsnprintf noprefix logfile maxlevel msglevel line_end format in
  let ends := match line_end with MKSYS_PARAGRAPH_END => [10; 10] | MKSYS_LINE_END => [10] end in
  let rendered := take (Z.to_nat (BUFSIZ - 1)) (default [] (vsnprintf (format_line format))) in
  one_line [10] (lo_file l) /\ one_line ends (lo_stdout l) /\ one_line ends (lo_stderr l) /\ lo_descriptors l = 0 /\
  (maxlevel < level_value msglevel -> lo_file l = [] /\ lo_stdout l = [] /\ lo_stderr l = []) /\
  exists message fuel, escape_default (BUFSIZ * 4 + 1) (Some rendered) = Some message /\ unescape fuel message = Some rendered.
Proof.
  intros Ht Hv l ends rendered.
  assert (Hr : is_bytes rendered).
  { apply Forall_take. destruct (vsnprintf _) as [r|] eqn:E; [by eapply Hv|by apply Forall_nil]. }
  assert (Hsz : len rendered < BUFSIZ) by (unfold rendered; rewrite length_take; unfold BUFSIZ; lia).
  destruct (escape_loop_whole (BUFSIZ * 4 + 1) rendered Hr 0 ltac:(lia)) as [Hvis Hun].
  assert (Hl : l = log_write a noprefix logfile maxlevel msglevel line_end (Some (escape_loop (BUFSIZ * 4 + 1) 0 rendered))).
  { unfold l, mksysmsg. unfold escape_default. cbn [Z.eqb]. do 3 f_equal. unfold rendered. set (r := default [] _). if_as E; [done|]. rewrite !take_ge by lia. done. }
  rewrite Hl. destruct (log_write_lines a noprefix logfile maxlevel msglevel line_end _ Ht Hvis) as (H1 & H2 & H3 & H4 & H5).
  do 5 (split; [done|]). eexists _, _. split; [reflexivity|exact Hun].
Qed.

Definition sample_log : log_answers := {|
  la_time := Some (str "2026-01-02 03:04:05 UTC+0100"); la_open := true; la_stat := Some Regular; la_fdopen := true; la_prefix := None; la_message := None;
  la_fclose := true; la_isatty := true; la_out_prefix := None; la_out_message := Some 3%nat; la_close := true |}.

