(* ===== verification/TimeUtil.v ===== *)
(** * Time arithmetic ([src/src/timeutil.c])

    [time_t] and [long] are 64 bits wide; [None] stands for a NULL pointer and,
    as a result, for [false]. *)

From S2P Require Import Prelude.

Record timespec := { tv_sec : Z; tv_nsec : Z }.

#[export] Instance timespec_eq_dec : EqDecision timespec.
Proof. solve_decision. Defined.

(** [(time_t)combined] for a [uintmax_t]. *)
Definition time_t_of (x : Z) : Z := if x <? 2 ^ 63 then x else x - 2 ^ 64.

Definition timeutil_valid (value : option timespec) : bool :=
  match value with
  | None => false
  | Some v => (0 <=? tv_sec v) && (0 <=? tv_nsec v) && (tv_nsec v <? 1000000000)
  end.

Definition timeutil_add_milliseconds (source : option timespec) (milliseconds : Z) : option timespec :=
  match source with
  | None => None
  | Some s =>
      if negb (timeutil_valid source) then None else
      let added_seconds := milliseconds / 1000 in
      let added_nanoseconds := u64 ((milliseconds mod 1000) * 1000000 + tv_nsec s) in
      let added_seconds := u64 (added_seconds + added_nanoseconds / 1000000000) in
      let added_nanoseconds := added_nanoseconds mod 1000000000 in
      if UINT64_MAX - added_seconds <? tv_sec s then None else
      let combined := u64 (tv_sec s + added_seconds) in
      let converted := time_t_of combined in
      if (converted <? 0) || negb (u64 converted =? combined) then None else
      Some {| tv_sec := converted; tv_nsec := added_nanoseconds |}
  end.

Definition timeutil_add_seconds (source : option timespec) (seconds : Z) : option timespec :=
  match source with
  | None => None
  | Some s =>
      if negb (timeutil_valid source) || (UINT64_MAX - seconds <? tv_sec s) then None else
      let combined := u64 (tv_sec s + seconds) in
      let converted := time_t_of combined in
      if (converted <? 0) || negb (u64 converted =? combined) then None else
      Some {| tv_sec := converted; tv_nsec := tv_nsec s |}
  end.

Definition timeutil_compare (left right : timespec) : Z :=
  if negb (tv_sec left =? tv_sec right) then (if tv_sec left <? tv_sec right then -1 else 1)
  else if negb (tv_nsec left =? tv_nsec right) then (if tv_nsec left <? tv_nsec right then -1 else 1)
  else 0.

(** ** Proofs *)

(** Nanoseconds since the clock's origin. *)
Definition ns (t : timespec) : Z := tv_sec t * 1000000000 + tv_nsec t.

(** A clock reading the code accepts. *)
Definition valid (t : timespec) : Prop := timeutil_valid (Some t) = true /\ tv_sec t < 2 ^ 63.

Lemma valid_spec t : valid t <-> 0 <= tv_sec t < 2 ^ 63 /\ 0 <= tv_nsec t < 1000000000.
Proof. unfold valid, timeutil_valid. lia. Qed.

Lemma time_t_of_spec x : 0 <= x < 2 ^ 64 ->
  (time_t_of x <? 0) || negb (u64 (time_t_of x) =? x) = (2 ^ 63 <=? x).
Proof. intros. unfold time_t_of, u64. destruct (x <? 2 ^ 63) eqn:E; zlia. Qed.

Lemma timeutil_compare_ns s t : valid s -> valid t ->
  timeutil_compare s t = match ns s ?= ns t with Lt => -1 | Eq => 0 | Gt => 1 end.
Proof.
  rewrite !valid_spec. intros. unfold timeutil_compare, ns.
  destruct (Z.compare_spec (tv_sec s * 1000000000 + tv_nsec s) (tv_sec t * 1000000000 + tv_nsec t)); split_ifs; lia.
Qed.

Lemma add_seconds_spec t s : valid t -> 0 <= s < 2 ^ 64 ->
  timeutil_add_seconds (Some t) s =
  if 2 ^ 63 <=? tv_sec t + s then None else Some {| tv_sec := tv_sec t + s; tv_nsec := tv_nsec t |}.
Proof.
  intros Hv Hs. pose proof Hv as [Hb _]. apply valid_spec in Hv as [H1 H2]. unfold timeutil_add_seconds, UINT64_MAX. rewrite Hb.
  cbn [negb orb]. destruct (18446744073709551615 - s <? tv_sec t) eqn:E.
  - by replace (2 ^ 63 <=? tv_sec t + s) with true by lia.
  - rewrite u64_id, time_t_of_spec by lia. if_as E2; [done|]. unfold time_t_of. by replace (tv_sec t + s <? 2 ^ 63) with true by lia.
Qed.

Lemma add_milliseconds_spec t ms : valid t -> 0 <= ms < 2 ^ 64 ->
  timeutil_add_milliseconds (Some t) ms =
  let total := ns t + ms * 1000000 in
  if 2 ^ 63 <=? total / 1000000000 then None
  else Some {| tv_sec := total / 1000000000; tv_nsec := total mod 1000000000 |}.
Proof.
  intros Hv Hm. pose proof Hv as [Hb _]. apply valid_spec in Hv as [H1 H2].
  unfold timeutil_add_milliseconds, UINT64_MAX. rewrite Hb. cbn [negb]. cbv zeta.
  rewrite (u64_id (ms mod 1000 * 1000000 + tv_nsec t)) by zlia.
  set (n := ms mod 1000 * 1000000 + tv_nsec t). assert (Hn : 0 <= n < 2000000000) by (unfold n; zlia).
  rewrite (u64_id (ms / 1000 + n / 1000000000)) by zlia.
  assert (Hq : (ns t + ms * 1000000) / 1000000000 = tv_sec t + (ms / 1000 + n / 1000000000)) by (unfold ns, n; zlia).
  assert (Hr : (ns t + ms * 1000000) mod 1000000000 = n mod 1000000000) by (unfold ns, n; zlia).
  rewrite Hq, Hr. assert (Ha : 0 <= ms / 1000 + n / 1000000000 < 2 ^ 60) by zlia.
  if_as E; [lia|]. rewrite u64_id, time_t_of_spec by lia. if_as E2; [done|]. unfold time_t_of.
  by replace (tv_sec t + (ms / 1000 + n / 1000000000) <? 2 ^ 63) with true by lia.
Qed.

(** Adding to a valid time adds exactly that many nanoseconds, or is refused
    because the seconds would leave [time_t]; comparing valid times compares
    their nanoseconds. *)
Lemma timeutil_exact s t n : valid s -> valid t -> 0 <= n < 2 ^ 64 ->
  (match timeutil_add_seconds (Some s) n with
   | Some r => valid r /\ ns r = ns s + n * 1000000000
   | None => 2 ^ 63 * 1000000000 <= ns s + n * 1000000000
   end) /\
  (match timeutil_add_milliseconds (Some s) n with
   | Some r => valid r /\ ns r = ns s + n * 1000000
   | None => 2 ^ 63 * 1000000000 <= ns s + n * 1000000
   end) /\
  timeutil_compare s t = match ns s ?= ns t with Lt => -1 | Eq => 0 | Gt => 1 end.
Proof.
  intros Hs Ht Hn. split; [|split; [|by apply timeutil_compare_ns]].
  - rewrite add_seconds_spec by done. apply valid_spec in Hs. unfold ns. if_as E; [lia|]. rewrite valid_spec. simpl. lia.
  - rewrite add_milliseconds_spec by done. apply valid_spec in Hs. cbv zeta.
    assert (0 <= ns s) by (unfold ns; lia). if_as E; [zlia|]. rewrite valid_spec. unfold ns in *. simpl. zlia.
Qed.

