(* ===== verification/Relay.v ===== *)
(** * The relay loop ([net_relay] of [src/src/network.c])

    Two bounded queues, one per direction, between two nonblocking sockets.  The
    kernel is the list of the answers it gives to the system calls, in the order
    they are made; an answer that does not fit the call, like a [send] of more
    bytes than were offered, is none the kernel gives, and the run stops there as
    it does when the list is empty ([Pending]).  The state carries, beside the
    local variables of the function, the bytes received from and sent to each
    socket so far. *)

From S2P Require Import Prelude TimeUtil.

Definition NET_RELAY_BUFFER_BYTES : Z := 16384.
Definition NET_RELAY_IDLE_TIMEOUT_SEC : Z := 300.

(** ** Kernel answers *)

Inductive send_answer := Sent (n : Z) | Send_interrupted | Send_again | Send_failed.
Inductive recv_answer := Received (bs : bytes) | Recv_eof | Recv_retry | Recv_failed.
(** [Shut_gone] is one of [ECONNRESET], [ENOTCONN] and [EPIPE]. *)
Inductive shutdown_answer := Shut_done | Shut_gone | Shut_failed.
(** The bits of [revents] the loop tests: [POLLNVAL], [POLLIN | POLLRDHUP],
    [POLLOUT] and [POLLHUP | POLLERR]. *)
Record revents := { re_nval : bool; re_in : bool; re_out : bool; re_hup : bool }.
Inductive poll_answer := Poll_timeout | Poll_interrupted | Poll_failed | Poll_ready (ev_in ev_out : revents).

Inductive answer :=
  | A_clock (t : option timespec)
  | A_send (r : send_answer)
  | A_recv (r : recv_answer)
  | A_shutdown (r : shutdown_answer)
  | A_poll (r : poll_answer).

(** ** Queues *)

(** [data] holds the first [length] bytes of the array. *)
Record net_relay_queue := { data : bytes; offset : Z; peer_eof : bool; shutdown_sent : bool }.

Definition q_length (q : net_relay_queue) : Z := len (data q).
Definition queue_zero : net_relay_queue := {| data := []; offset := 0; peer_eof := false; shutdown_sent := false |}.

Definition with_offset (q : net_relay_queue) (o : Z) : net_relay_queue :=
  {| data := data q; offset := o; peer_eof := peer_eof q; shutdown_sent := shutdown_sent q |}.
Definition with_data (q : net_relay_queue) (d : bytes) : net_relay_queue :=
  {| data := d; offset := offset q; peer_eof := peer_eof q; shutdown_sent := shutdown_sent q |}.
Definition with_eof (q : net_relay_queue) : net_relay_queue :=
  {| data := data q; offset := offset q; peer_eof := true; shutdown_sent := shutdown_sent q |}.
Definition with_shutdown (q : net_relay_queue) : net_relay_queue :=
  {| data := data q; offset := offset q; peer_eof := peer_eof q; shutdown_sent := true |}.

Definition net_relay_finished (queue_c2o queue_o2c : net_relay_queue) : bool :=
  peer_eof queue_c2o && peer_eof queue_o2c && (offset queue_c2o =? q_length queue_c2o)
  && (offset queue_o2c =? q_length queue_o2c) && shutdown_sent queue_c2o && shutdown_sent queue_o2c.

Definition net_relay_queue_compact (q : net_relay_queue) : net_relay_queue :=
  if offset q =? 0 then q
  else if offset q =? q_length q then with_data (with_offset q 0) []
  else with_data (with_offset q 0) (drop (Z.to_nat (offset q)) (data q)).

(** How a step ended: [true], [false], or waiting for an answer. *)
Inductive ending := Succeeded | Failed | Pending.

(** A queue, [last_activity], the bytes moved and the answers left. *)
Record moved := { m_queue : net_relay_queue; m_time : timespec; m_bytes : bytes; m_rest : list answer }.

Fixpoint net_relay_queue_drain (env : list answer) (q : net_relay_queue) (t : timespec) (sent : bytes)
    : ending * moved :=
  if offset q <? q_length q then
    match env with
    | A_send (Sent n) :: env =>
        if n <=? 0 then (Failed, {| m_queue := q; m_time := t; m_bytes := sent; m_rest := env |})
        else if n <=? q_length q - offset q then
          let sent := sent ++ slice (data q) (offset q) n in
          let q := with_offset q (offset q + n) in
          match env with
          | A_clock (Some t) :: env => net_relay_queue_drain env q t sent
          | A_clock None :: env => (Failed, {| m_queue := q; m_time := t; m_bytes := sent; m_rest := env |})
          | _ => (Pending, {| m_queue := q; m_time := t; m_bytes := sent; m_rest := [] |})
          end
        else (Pending, {| m_queue := q; m_time := t; m_bytes := sent; m_rest := [] |})
    | A_send Send_interrupted :: env => net_relay_queue_drain env q t sent
    | A_send Send_again :: env =>
        (Succeeded, {| m_queue := net_relay_queue_compact q; m_time := t; m_bytes := sent; m_rest := env |})
    | A_send Send_failed :: env => (Failed, {| m_queue := q; m_time := t; m_bytes := sent; m_rest := env |})
    | _ => (Pending, {| m_queue := q; m_time := t; m_bytes := sent; m_rest := [] |})
    end
  else (Succeeded, {| m_queue := net_relay_queue_compact q; m_time := t; m_bytes := sent; m_rest := env |}).

(** The [while] loop of [net_relay_queue_fill]. *)
Fixpoint net_relay_queue_fill_loop (env : list answer) (q : net_relay_queue) (t : timespec) (received : bytes)
    : ending * moved :=
  if negb (peer_eof q) && (q_length q <? NET_RELAY_BUFFER_BYTES) then
    match env with
    | A_recv (Received bs) :: env =>
        if (0 <? len bs) && (len bs <=? NET_RELAY_BUFFER_BYTES - q_length q) then
          let received := received ++ bs in
          let q := with_data q (data q ++ bs) in
          match env with
          | A_clock (Some t) :: env => net_relay_queue_fill_loop env q t received
          | A_clock None :: env => (Failed, {| m_queue := q; m_time := t; m_bytes := received; m_rest := env |})
          | _ => (Pending, {| m_queue := q; m_time := t; m_bytes := received; m_rest := [] |})
          end
        else (Pending, {| m_queue := q; m_time := t; m_bytes := received; m_rest := [] |})
    | A_recv Recv_eof :: env => (Succeeded, {| m_queue := with_eof q; m_time := t; m_bytes := received; m_rest := env |})
    | A_recv Recv_retry :: env => (Succeeded, {| m_queue := q; m_time := t; m_bytes := received; m_rest := env |})
    | A_recv Recv_failed :: env => (Failed, {| m_queue := q; m_time := t; m_bytes := received; m_rest := env |})
    | _ => (Pending, {| m_queue := q; m_time := t; m_bytes := received; m_rest := [] |})
    end
  else (Succeeded, {| m_queue := q; m_time := t; m_bytes := received; m_rest := env |}).

Definition net_relay_queue_fill (env : list answer) (q : net_relay_queue) (t : timespec) : ending * moved :=
  net_relay_queue_fill_loop env (net_relay_queue_compact q) t [].

(** The queue and the answers left. *)
Definition net_relay_shutdown_propagate (env : list answer) (q : net_relay_queue)
    : ending * net_relay_queue * list answer :=
  if negb (peer_eof q) || (offset q <? q_length q) || shutdown_sent q then (Succeeded, q, env)
  else match env with
       | A_shutdown Shut_failed :: env => (Failed, q, env)
       | A_shutdown _ :: env => (Succeeded, with_shutdown q, env)
       | _ => (Pending, q, [])
       end.

(** ** The loop *)

(** In [int64_t]; the timestamps of the monotonic clock are non-negative. *)
Definition net_relay_idle_remaining_ms (last_activity now : timespec) : Z :=
  let '(elapsed_seconds, elapsed_nanoseconds) :=
    if tv_nsec now <? tv_nsec last_activity
    then (tv_sec now - tv_sec last_activity - 1, tv_nsec now + 1000000000 - tv_nsec last_activity)
    else (tv_sec now - tv_sec last_activity, tv_nsec now - tv_nsec last_activity) in
  if elapsed_seconds <? 0 then 0 else
  if (NET_RELAY_IDLE_TIMEOUT_SEC <? elapsed_seconds)
     || ((elapsed_seconds =? NET_RELAY_IDLE_TIMEOUT_SEC) && (0 <? elapsed_nanoseconds)) then 0 else
  let remaining_seconds := NET_RELAY_IDLE_TIMEOUT_SEC - elapsed_seconds in
  let '(remaining_seconds, remaining_nanoseconds) :=
    if 0 <? elapsed_nanoseconds then (remaining_seconds - 1, 1000000000 - elapsed_nanoseconds)
    else (remaining_seconds, 0) in
  if INT_MAX / 1000 <? remaining_seconds then INT_MAX else
  let remaining_milliseconds := remaining_seconds * 1000 + (remaining_nanoseconds + 999999) / 1000000 in
  if INT_MAX <? remaining_milliseconds then INT_MAX else remaining_milliseconds.

(** The local variables, with the bytes received from and sent to each socket. *)
Record relay := {
  queue_c2o : net_relay_queue; queue_o2c : net_relay_queue;
  last_activity : timespec;
  from_in : bytes; to_in : bytes; from_out : bytes; to_out : bytes;
}.

(** What one socket's events did. *)
Record side := {
  s_read : net_relay_queue; s_write : net_relay_queue; s_time : timespec;
  s_received : bytes; s_sent : bytes; s_rest : list answer;
}.

(** The body of the [for] loop over the polled sockets. *)
Definition relay_side (env : list answer) (ev : revents) (read_queue write_queue : net_relay_queue) (t : timespec)
    : ending * side :=
  let queued_before := q_length read_queue - offset read_queue in
  let '(e, m) :=
    if (queued_before <? NET_RELAY_BUFFER_BYTES) && (re_in ev || re_hup ev)
    then net_relay_queue_fill env read_queue t
    else (Succeeded, {| m_queue := read_queue; m_time := t; m_bytes := []; m_rest := env |}) in
  let read_queue := m_queue m in
  match e with
  | Succeeded =>
      let '(e, d) :=
        if (offset write_queue <? q_length write_queue) && (re_out ev || re_hup ev)
        then net_relay_queue_drain (m_rest m) write_queue (m_time m) []
        else (Succeeded, {| m_queue := write_queue; m_time := m_time m; m_bytes := []; m_rest := m_rest m |}) in
      let write_queue := m_queue d in
      let s := {| s_read := read_queue; s_write := write_queue; s_time := m_time d;
                  s_received := m_bytes m; s_sent := m_bytes d; s_rest := m_rest d |} in
      match e with
      | Succeeded =>
          if re_hup ev && negb (peer_eof read_queue)
             && (queued_before =? q_length read_queue - offset read_queue)
             && (queued_before <? NET_RELAY_BUFFER_BYTES) then (Failed, s)
          else if re_hup ev && (offset write_queue <? q_length write_queue) then (Failed, s)
          else (Succeeded, s)
      | e => (e, s)
      end
  | e => (e, {| s_read := read_queue; s_write := write_queue; s_time := m_time m;
                s_received := m_bytes m; s_sent := []; s_rest := m_rest m |})
  end.

Inductive net_relay_status := NET_RELAY_CLOSED | NET_RELAY_ERROR | NET_RELAY_IDLE.

(** How a round of the loop ends. *)
Inductive round := Again | Stop (result : net_relay_status) | Waiting.

Definition round_of (e : ending) : round :=
  match e with Succeeded => Again | Failed => Stop NET_RELAY_ERROR | Pending => Waiting end.

(** The two calls of [net_relay_shutdown_propagate]. *)
Definition relay_shutdowns (env : list answer) (st : relay) : round * relay * list answer :=
  let '(e, q, env) := net_relay_shutdown_propagate env (queue_c2o st) in
  let st := {| queue_c2o := q; queue_o2c := queue_o2c st; last_activity := last_activity st;
               from_in := from_in st; to_in := to_in st; from_out := from_out st; to_out := to_out st |} in
  match e with
  | Succeeded =>
      let '(e, q, env) := net_relay_shutdown_propagate env (queue_o2c st) in
      (round_of e,
       {| queue_c2o := queue_c2o st; queue_o2c := q; last_activity := last_activity st;
          from_in := from_in st; to_in := to_in st; from_out := from_out st; to_out := to_out st |}, env)
  | e => (round_of e, st, env)
  end.

(** The events of the client's socket. *)
Definition relay_side_in (env : list answer) (ev : revents) (st : relay) : ending * relay * list answer :=
  let '(e, s) := relay_side env ev (queue_c2o st) (queue_o2c st) (last_activity st) in
  (e, {| queue_c2o := s_read s; queue_o2c := s_write s; last_activity := s_time s;
         from_in := from_in st ++ s_received s; to_in := to_in st ++ s_sent s;
         from_out := from_out st; to_out := to_out st |}, s_rest s).

(** The events of the upstream socket. *)
Definition relay_side_out (env : list answer) (ev : revents) (st : relay) : ending * relay * list answer :=
  let '(e, s) := relay_side env ev (queue_o2c st) (queue_c2o st) (last_activity st) in
  (e, {| queue_c2o := s_write s; queue_o2c := s_read s; last_activity := s_time s;
         from_in := from_in st; to_in := to_in st;
         from_out := from_out st ++ s_received s; to_out := to_out st ++ s_sent s |}, s_rest s).

(** One round of the [while (true)] loop. *)
Definition relay_round (env : list answer) (st : relay) : round * relay * list answer :=
  if net_relay_finished (queue_c2o st) (queue_o2c st) then (Stop NET_RELAY_CLOSED, st, env) else
  match env with
  | A_clock None :: env => (Stop NET_RELAY_ERROR, st, env)
  | A_clock (Some now) :: env =>
      if net_relay_idle_remaining_ms (last_activity st) now =? 0 then (Stop NET_RELAY_IDLE, st, env) else
      match env with
      | A_poll Poll_timeout :: env => (Stop NET_RELAY_IDLE, st, env)
      | A_poll Poll_interrupted :: env => (Again, st, env)
      | A_poll Poll_failed :: env => (Stop NET_RELAY_ERROR, st, env)
      | A_poll (Poll_ready ev_in ev_out) :: env =>
          if re_nval ev_in || re_nval ev_out then (Stop NET_RELAY_ERROR, st, env) else
          match relay_side_in env ev_in st with
          | (Succeeded, st, env) =>
              match relay_side_out env ev_out st with
              | (Succeeded, st, env) => relay_shutdowns env st
              | (e, st, env) => (round_of e, st, env)
              end
          | (e, st, env) => (round_of e, st, env)
          end
      | _ => (Waiting, st, [])
      end
  | _ => (Waiting, st, [])
  end.

(** Every round takes at least one answer: [length env] rounds are enough. *)
Fixpoint relay_loop (fuel : nat) (env : list answer) (st : relay) : round * relay * list answer :=
  match fuel with
  | O => (Waiting, st, env)
  | S fuel =>
      match relay_round env st with
      | (Again, st, env) => relay_loop fuel env st
      | r => r
      end
  end.

(** The descriptors [close] is called on, in order. *)
Definition relay_cleanup (socket_in socket_out : Z) : list Z :=
  (if 0 <=? socket_in then [socket_in] else []) ++
  (if (0 <=? socket_out) && negb (socket_out =? socket_in) then [socket_out] else []).

Definition relay_start (pending : bytes) (t : timespec) : relay :=
  {| queue_c2o := {| data := pending; offset := 0; peer_eof := false; shutdown_sent := false |};
     queue_o2c := queue_zero; last_activity := t;
     from_in := []; to_in := []; from_out := []; to_out := [] |}.

(** [nonblocking] tells whether both descriptors could be made nonblocking.  The
    result: how the call ended, the final state if the loop was entered, and the
    descriptors closed on return. *)
Definition net_relay (env : list answer) (socket_in socket_out : Z) (pending_out : option bytes) (pending_size : Z)
    (nonblocking : bool) : round * option relay * list Z :=
  let closed := relay_cleanup socket_in socket_out in
  if (socket_in <? 0) || (socket_out <? 0) || (socket_in =? socket_out)
     || ((if pending_out is None then true else false) && (0 <? pending_size))
     || (NET_RELAY_BUFFER_BYTES <? pending_size)
  then (Stop NET_RELAY_ERROR, None, closed) else
  match env with
  | A_clock (Some t) :: env =>
      if negb nonblocking then (Stop NET_RELAY_ERROR, None, closed) else
      match relay_loop (S (length env)) env (relay_start (take (Z.to_nat pending_size) (default [] pending_out)) t) with
      | (Waiting, st, _) => (Waiting, Some st, [])
      | (r, st, _) => (r, Some st, closed)
      end
  | A_clock None :: env => (Stop NET_RELAY_ERROR, None, closed)
  | _ => (Waiting, None, [])
  end.

(** ** Proofs: the queues *)

(** A queue between what arrived at its source, [src], and what was handed on to
    its destination, [dst]: it holds exactly the difference, within its array,
    and the end of the stream is announced only when nothing is left. *)
Record q_inv (q : net_relay_queue) (src dst : bytes) : Prop := {
  qi_bounds : 0 <= offset q <= q_length q /\ q_length q <= NET_RELAY_BUFFER_BYTES;
  qi_fifo : src = dst ++ drop (Z.to_nat (offset q)) (data q);
  qi_shutdown : shutdown_sent q = true -> peer_eof q = true /\ offset q = q_length q;
}.

Lemma compact_inv q src dst : q_inv q src dst -> q_inv (net_relay_queue_compact q) src dst.
Proof.
  intros [Hb Hf Hs]. unfold net_relay_queue_compact, q_length in *. if_as E1; [by constructor|]. if_as E2.
  - constructor; unfold q_length; simpl; [lia| |by intros H; destruct (Hs H)].
    rewrite Hf. replace (Z.to_nat (offset q)) with (length (data q)) by lia. by rewrite drop_all.
  - constructor; unfold q_length; simpl; rewrite ?length_drop; [lia|done|].
    intros H. destruct (Hs H). lia.
Qed.

Lemma compact_eof q : peer_eof (net_relay_queue_compact q) = peer_eof q.
Proof. unfold net_relay_queue_compact. by repeat case_match. Qed.

Lemma slice_drop (l : bytes) o n : 0 <= o -> 0 <= n -> o + n <= len l ->
  drop (Z.to_nat o) l = slice l o n ++ drop (Z.to_nat (o + n)) l.
Proof.
  intros. unfold slice. replace (Z.to_nat (o + n)) with (Z.to_nat o + Z.to_nat n)%nat by lia.
  by rewrite <- drop_drop, take_drop.
Qed.

(** Sending [n] bytes of a queue. *)
Lemma sent_inv q src dst n : q_inv q src dst -> 0 < n <= q_length q - offset q ->
  q_inv (with_offset q (offset q + n)) src (dst ++ slice (data q) (offset q) n).
Proof.
  intros [Hb Hf Hs] Hn. unfold q_length in *. constructor; unfold q_length; simpl; [lia| |].
  - rewrite Hf, <- app_assoc. f_equal. apply slice_drop; lia.
  - intros H. destruct (Hs H). lia.
Qed.

(** Receiving bytes that fit. *)
Lemma received_inv q src dst bs : q_inv q src dst -> peer_eof q = false ->
  len bs <= NET_RELAY_BUFFER_BYTES - q_length q -> q_inv (with_data q (data q ++ bs)) (src ++ bs) dst.
Proof.
  intros [Hb Hf Hs] He Hn. unfold q_length in *. constructor; unfold q_length; simpl; [lens| |].
  - rewrite Hf, drop_app_le by lia. by rewrite <- app_assoc.
  - intros H. destruct (Hs H). congruence.
Qed.

Lemma with_eof_inv q src dst : q_inv q src dst -> q_inv (with_eof q) src dst.
Proof. intros [Hb Hf Hs]. constructor; [done|done|]. intros H. by destruct (Hs H). Qed.

#[export] Hint Resolve compact_inv with_eof_inv : mrs.

Lemma drain_inv env q t sent src dst : q_inv q src (dst ++ sent) ->
  let '(_, m) := net_relay_queue_drain env q t sent in q_inv (m_queue m) src (dst ++ m_bytes m).
Proof.
  revert q t sent. induction env as [env IH] using (induction_ltof1 _ (@length answer)). unfold ltof in IH.
  intros q t sent Hq. destruct env as [|a env]; cbn [net_relay_queue_drain].
  { if_as E; simpl; eauto with mrs. }
  if_as E; [|simpl; eauto with mrs].
  destruct a as [|[n| | |]| | |]; try (simpl; eauto with mrs; done).
  - if_as E1; [done|]. if_as E2; [|done]. assert (Hq' := sent_inv q src (dst ++ sent) n Hq ltac:(lia)). rewrite <- app_assoc in Hq'.
    destruct env as [|[[t'|]| | | |] env]; try done. apply IH; [simpl; lia|done].
  - apply IH; [simpl; lia|done].
Qed.

Lemma fill_inv env q t received src dst : q_inv q (src ++ received) dst ->
  let '(_, m) := net_relay_queue_fill_loop env q t received in q_inv (m_queue m) (src ++ m_bytes m) dst.
Proof.
  revert q t received. induction env as [env IH] using (induction_ltof1 _ (@length answer)). unfold ltof in IH.
  intros q t received Hq. destruct env as [|a env]; cbn [net_relay_queue_fill_loop].
  { by if_as E. }
  if_as E; [|done]. destruct a as [| |[bs| | |]| |]; try (simpl; eauto with mrs; done).
  if_as E2; [|done]. assert (Hq' := received_inv q (src ++ received) dst bs Hq ltac:(by destruct (peer_eof q)) ltac:(lia)).
  rewrite <- app_assoc in Hq'. destruct env as [|[[t'|]| | | |] env]; try done. apply IH; [simpl; lia|done].
Qed.

Lemma shutdown_inv env q src dst : q_inv q src dst ->
  let '(_, q', _) := net_relay_shutdown_propagate env q in q_inv q' src dst.
Proof.
  intros Hq. unfold net_relay_shutdown_propagate. if_as E; [done|].
  assert (q_inv (with_shutdown q) src dst).
  { destruct Hq as [Hb Hf Hs]. constructor; [done|done|]. intros _. simpl. unfold q_length in *. simpl. destruct (peer_eof q); lia. }
  by destruct env as [|[| | |[]|] env].
Qed.

(** ** Proofs: the loop *)

Lemma side_inv env ev rq wq t rsrc rdst wsrc wdst : q_inv rq rsrc rdst -> q_inv wq wsrc wdst ->
  let '(_, s) := relay_side env ev rq wq t in
  q_inv (s_read s) (rsrc ++ s_received s) rdst /\ q_inv (s_write s) wsrc (wdst ++ s_sent s).
Proof.
  intros Hr Hw. unfold relay_side.
  match goal with |- context [let '(e, m) := ?r in _] => assert (Hm : let '(_, m) := r in q_inv (m_queue m) (rsrc ++ m_bytes m) rdst) end.
  { if_as E; [|by rewrite app_nil_r]. apply fill_inv. rewrite app_nil_r. by apply compact_inv. }
  destruct (if _ && _ then _ else _) as [e m]. destruct e; [|by rewrite app_nil_r..].
  match goal with |- context [let '(e, d) := ?r in _] => assert (Hd : let '(_, d) := r in q_inv (m_queue d) wsrc (wdst ++ m_bytes d)) end.
  { if_as E; [|by rewrite app_nil_r]. apply drain_inv. by rewrite app_nil_r. }
  destruct (if _ && _ then _ else _) as [e d]. destruct e; simpl; try done. by split_ifs.
Qed.

(** Both directions of the relay: [pending] is sent ahead of the client's bytes. *)
Definition relay_inv (pending : bytes) (st : relay) : Prop :=
  q_inv (queue_c2o st) (pending ++ from_in st) (to_out st) /\
  q_inv (queue_o2c st) (from_out st) (to_in st).

Lemma side_in_inv pending env ev st : relay_inv pending st ->
  relay_inv pending (relay_side_in env ev st).1.2.
Proof.
  intros [H1 H2]. unfold relay_side_in. pose proof (side_inv env ev _ _ (last_activity st) _ _ _ _ H1 H2) as H.
  destruct (relay_side _ _ _ _ _) as [e s]. simpl. rewrite <- app_assoc in H. done.
Qed.

Lemma side_out_inv pending env ev st : relay_inv pending st ->
  relay_inv pending (relay_side_out env ev st).1.2.
Proof.
  intros [H1 H2]. unfold relay_side_out. pose proof (side_inv env ev _ _ (last_activity st) _ _ _ _ H2 H1) as H.
  destruct (relay_side _ _ _ _ _) as [e s]. simpl. by destruct H.
Qed.

Lemma shutdowns_inv pending env st : relay_inv pending st -> relay_inv pending (relay_shutdowns env st).1.2.
Proof.
  intros [H1 H2]. unfold relay_shutdowns. pose proof (shutdown_inv env _ _ _ H1) as Hq.
  destruct (net_relay_shutdown_propagate env (queue_c2o st)) as [[e q] env']. destruct e; try done. simpl.
  pose proof (shutdown_inv env' _ _ _ H2) as Hq2.
  by destruct (net_relay_shutdown_propagate env' (queue_o2c st)) as [[e q2] env''].
Qed.

Lemma round_inv pending env st : relay_inv pending st -> relay_inv pending (relay_round env st).1.2.
Proof.
  intros Hi. unfold relay_round. if_as E; [done|]. destruct env as [|[[now|]| | | |] env]; try done.
  if_as E2; [done|]. destruct env as [|[| | | |[| | |ev_in ev_out]] env]; try done. if_as E3; [done|].
  pose proof (side_in_inv pending env ev_in st Hi) as H1. destruct (relay_side_in env ev_in st) as [[e st1] env1]. simpl in H1.
  destruct e; try done. pose proof (side_out_inv pending env1 ev_out st1 H1) as H2.
  destruct (relay_side_out env1 ev_out st1) as [[e st2] env2]. simpl in H2. destruct e; try done. by apply shutdowns_inv.
Qed.

Lemma round_closed env st r st' env' : relay_round env st = (Stop r, st', env') -> r = NET_RELAY_CLOSED ->
  net_relay_finished (queue_c2o st') (queue_o2c st') = true.
Proof.
  intros H ->. unfold relay_round in H. destruct (net_relay_finished _ _) eqn:E; [by simplify_eq|].
  assert (Hx : forall e, round_of e <> Stop NET_RELAY_CLOSED) by by intros [].
  destruct env as [|[[now|]| | | |] env]; try done. destruct (_ =? 0); [done|].
  destruct env as [|[| | | |[| | |ev_in ev_out]] env]; try done. destruct (_ || _); [done|].
  destruct (relay_side_in env ev_in st) as [[[] st1] env1]; try done.
  destruct (relay_side_out env1 ev_out st1) as [[[] st2] env2]; try done. unfold relay_shutdowns in H.
  destruct (net_relay_shutdown_propagate env2 _) as [[[] q] env3]; try done.
  destruct (net_relay_shutdown_propagate env3 _) as [[e q2] env4]. exfalso. apply (Hx e). congruence.
Qed.

Lemma loop_inv pending fuel env st : relay_inv pending st ->
  let '(r, st', _) := relay_loop fuel env st in relay_inv pending st' /\
  (r = Stop NET_RELAY_CLOSED -> net_relay_finished (queue_c2o st') (queue_o2c st') = true).
Proof.
  revert env st. induction fuel as [|fuel IH]; intros env st Hi; cbn [relay_loop]; [done|].
  pose proof (round_inv pending env st Hi) as H1. pose proof (round_closed env st) as H2.
  destruct (relay_round env st) as [[r st1] env1]. simpl in H1. destruct r as [|r|]; [by apply IH| |done].
  split; [done|]. intros [= ->]. by eapply H2.
Qed.

Lemma start_inv pending t : len pending <= NET_RELAY_BUFFER_BYTES -> relay_inv pending (relay_start pending t).
Proof.
  intros Hl. split; constructor; unfold q_length; simpl; try done; try lia. by rewrite app_nil_r.
Qed.

(** C1: whatever the kernel answers and however the events interleave, each peer
    has received an initial part of what was queued for it, in order and without
    gaps, the upstream the pending bytes first; at most a buffer is in flight per
    direction; and a relay that ends as closed has delivered everything and
    announced the end of the stream both ways. *)
Theorem relay_delivers env socket_in socket_out pending_out size nonblocking r st closed :
  net_relay env socket_in socket_out (Some pending_out) size nonblocking = (r, Some st, closed) ->
  0 <= size <= len pending_out ->
  exists left_out left_in,
    take (Z.to_nat size) pending_out ++ from_in st = to_out st ++ left_out /\
    from_out st = to_in st ++ left_in /\
    len left_out <= NET_RELAY_BUFFER_BYTES /\ len left_in <= NET_RELAY_BUFFER_BYTES /\
    (r = Stop NET_RELAY_CLOSED -> left_out = [] /\ left_in = [] /\
       shutdown_sent (queue_c2o st) = true /\ shutdown_sent (queue_o2c st) = true).
Proof.
  unfold net_relay. intros H Hsz. destruct (_ || _) eqn:E in H; [done|].
  destruct env as [|[[t|]| | | |] env]; try done. destruct (negb nonblocking); [done|]. cbn [from_option id] in H.
  set (pending := take (Z.to_nat size) pending_out) in *.
  assert (Hp : len pending <= NET_RELAY_BUFFER_BYTES) by (unfold pending; rewrite length_take; lia).
  pose proof (loop_inv pending (S (length env)) env _ (start_inv pending t Hp)) as HL.
  destruct (relay_loop _ _ _) as [[r' st'] env']. destruct HL as [[H1 H2] Hc].
  assert (Hr : r' = r /\ st' = st) by (by destruct r'; simplify_eq). destruct Hr as [-> ->]. clear H.
  destruct H1 as [B1 F1 _], H2 as [B2 F2 _]. do 2 eexists. split; [exact F1|]. split; [exact F2|].
  rewrite !length_drop. unfold q_length in *. split; [lia|]. split; [lia|]. intros Hr. specialize (Hc Hr).
  unfold net_relay_finished, q_length in Hc. rewrite !andb_true_iff in Hc. destruct Hc as (((((_ & _) & O1) & O2) & S1) & S2).
  rewrite !drop_ge by lia. done.
Qed.

(** A session: the seed goes out, one request and one answer pass, both ends close. *)
Definition sample_time (s : Z) : answer := A_clock (Some {| tv_sec := s; tv_nsec := 0 |}).
Definition sample_ev (i o : bool) : revents := {| re_nval := false; re_in := i; re_out := o; re_hup := false |}.
Definition sample_session : list answer :=
  [sample_time 1; sample_time 1; A_poll (Poll_ready (sample_ev true false) (sample_ev true true));
   A_recv (Received [3; 4]); sample_time 2; A_recv Recv_eof;
   A_recv (Received [9]); sample_time 2; A_recv Recv_eof;
   A_send (Sent 3); sample_time 3; A_send (Sent 1); sample_time 3; A_shutdown Shut_done;
   sample_time 4; A_poll (Poll_ready (sample_ev false true) (sample_ev false false));
   A_send (Sent 1); sample_time 4; A_shutdown Shut_done].

Definition sample_final : relay :=
  {| queue_c2o := {| data := []; offset := 0; peer_eof := true; shutdown_sent := true |};
     queue_o2c := {| data := []; offset := 0; peer_eof := true; shutdown_sent := true |};
     last_activity := {| tv_sec := 4; tv_nsec := 0 |};
     from_in := [3; 4]; to_in := [9]; from_out := [9]; to_out := [1; 2; 3; 4] |}.

Lemma sample_session_runs :
  net_relay sample_session 5 6 (Some [1; 2]) 2 true = (Stop NET_RELAY_CLOSED, Some sample_final, [5; 6]).
Proof. vm_compute. reflexivity. Qed.

Lemma relay_delivers_witness :
  exists left_out left_in,
    [1; 2] ++ from_in sample_final = to_out sample_final ++ left_out /\
    from_out sample_final = to_in sample_final ++ left_in /\
    len left_out <= NET_RELAY_BUFFER_BYTES /\ len left_in <= NET_RELAY_BUFFER_BYTES /\
    (Stop NET_RELAY_CLOSED = Stop NET_RELAY_CLOSED -> left_out = [] /\ left_in = [] /\
       shutdown_sent (queue_c2o sample_final) = true /\ shutdown_sent (queue_o2c sample_final) = true).
Proof.
  apply (relay_delivers sample_session 5 6 [1; 2] 2 true _ _ _ sample_session_runs). simpl. lia.
Defined.

(** Every part of a round leaves no more answers than it found. *)
Lemma drain_rest env q t sent : (length (m_rest (net_relay_queue_drain env q t sent).2) <= length env)%nat.
Proof.
  revert q t sent. induction env as [env IH] using (induction_ltof1 _ (@length answer)). unfold ltof in IH.
  intros q t sent. destruct env as [|a env]; cbn [net_relay_queue_drain]; [by if_as E|].
  if_as E; [|done]. destruct a as [|[n| | |]| | |]; simpl; try lia.
  - if_as E1; [simpl; lia|]. if_as E2; [|simpl; lia]. destruct env as [|[[t'|]| | | |] env]; simpl; try lia.
    specialize (IH env ltac:(simpl; lia) (with_offset q (offset q + n)) t' (sent ++ slice (data q) (offset q) n)). lia.
  - specialize (IH env ltac:(simpl; lia) q t sent). lia.
Qed.

Lemma fill_rest env q t received : (length (m_rest (net_relay_queue_fill_loop env q t received).2) <= length env)%nat.
Proof.
  revert q t received. induction env as [env IH] using (induction_ltof1 _ (@length answer)). unfold ltof in IH.
  intros q t received. destruct env as [|a env]; cbn [net_relay_queue_fill_loop]; [by if_as E|].
  if_as E; [|done]. destruct a as [| |[bs| | |]| |]; simpl; try lia.
  if_as E2; [|simpl; lia]. destruct env as [|[[t'|]| | | |] env]; simpl; try lia.
  specialize (IH env ltac:(simpl; lia) (with_data q (data q ++ bs)) t' (received ++ bs)). lia.
Qed.

Lemma side_rest env ev rq wq t : (length (s_rest (relay_side env ev rq wq t).2) <= length env)%nat.
Proof.
  unfold relay_side.
  match goal with |- context [let '(e, m) := ?r in _] => assert (Hm : (length (m_rest r.2) <= length env)%nat) end.
  { if_as E; [apply fill_rest|done]. }
  destruct (if _ && _ then _ else _) as [e m]. destruct e; simpl in *; [|done..].
  match goal with |- context [let '(e, d) := ?r in _] => assert (Hd : (length (m_rest r.2) <= length (m_rest m))%nat) end.
  { if_as E; [apply drain_rest|done]. }
  destruct (if _ && _ then _ else _) as [e d]. simpl in Hd. destruct e; simpl; split_ifs; simpl; lia.
Qed.

Lemma shutdown_rest env q : (length (net_relay_shutdown_propagate env q).2 <= length env)%nat.
Proof. unfold net_relay_shutdown_propagate. if_as E; [done|]. destruct env as [|[| | |[]|] env]; simpl; lia. Qed.

(** A round that goes on has taken an answer. *)
Lemma round_rest env st st' env' : relay_round env st = (Again, st', env') -> (length env' < length env)%nat.
Proof.
  unfold relay_round. destruct (net_relay_finished _ _); [done|]. destruct env as [|[[now|]| | | |] env]; try done.
  destruct (_ =? 0); [done|]. destruct env as [|[| | | |[| | |ev_in ev_out]] env]; try done.
  { intros [= <- <-]. simpl. lia. }
  destruct (_ || _); [done|]. unfold relay_side_in, relay_side_out, relay_shutdowns.
  pose proof (side_rest env ev_in (queue_c2o st) (queue_o2c st) (last_activity st)) as H1.
  destruct (relay_side env _ _ _ _) as [[] s1]; try done. simpl in *.
  pose proof (side_rest (s_rest s1) ev_out (s_write s1) (s_read s1) (s_time s1)) as H2.
  destruct (relay_side (s_rest s1) _ _ _ _) as [[] s2]; try done. simpl in *.
  pose proof (shutdown_rest (s_rest s2) (s_write s2)) as H3.
  destruct (net_relay_shutdown_propagate (s_rest s2) _) as [[[] q1] env3]; try done. simpl in *.
  pose proof (shutdown_rest env3 (s_read s2)) as H4.
  destruct (net_relay_shutdown_propagate env3 _) as [[e q2] env4]. simpl in *. intros H. simplify_eq. lia.
Qed.

Lemma loop_fuel env st n m : (length env < n)%nat -> (length env < m)%nat -> relay_loop n env st = relay_loop m env st.
Proof.
  revert env st m. induction n as [|n IH]; intros env st m Hn Hm; [lia|]. destruct m as [|m]; [lia|].
  cbn [relay_loop]. destruct (relay_round env st) as [[r st'] env'] eqn:E. destruct r; try done.
  apply round_rest in E. apply IH; lia.
Qed.

(** Every round of the loop that goes on takes an answer of the kernel, so the
    loop cannot spin on its own: rounds beyond the number of answers change
    nothing. *)
Lemma relay_loop_enough env st fuel : (length env < fuel)%nat ->
  relay_loop fuel env st = relay_loop (S (length env)) env st.
Proof. intros. apply loop_fuel; lia. Qed.

(** Every return closes both descriptors, each of them once. *)
Lemma relay_closes env socket_in socket_out pending_out size nonblocking r st closed :
  net_relay env socket_in socket_out pending_out size nonblocking = (Stop r, st, closed) ->
  NoDup closed /\ forall fd, fd ∈ closed <-> 0 <= fd /\ (fd = socket_in \/ fd = socket_out).
Proof.
  intros H. assert (Hc : closed = relay_cleanup socket_in socket_out).
  { unfold net_relay in H. destruct (_ || _) in H; [by simplify_eq|]. destruct env as [|[[t|]| | | |] env]; try done; [|by simplify_eq].
    destruct (negb nonblocking); [by simplify_eq|]. destruct (relay_loop _ _ _) as [[[] st'] env']; by simplify_eq. }
  subst closed. unfold relay_cleanup.
  destruct (0 <=? socket_in) eqn:E1, ((0 <=? socket_out) && negb (socket_out =? socket_in)) eqn:E2; simpl;
    (split; [repeat constructor; rewrite ?list_elem_of_singleton, ?elem_of_nil; lia || tauto|intros fd; rewrite ?elem_of_cons, ?list_elem_of_singleton, ?elem_of_nil; lia]).
Qed.

(** The poll timeout is the time left until the relay has been idle for
    [NET_RELAY_IDLE_TIMEOUT_SEC] seconds, rounded up to milliseconds, and zero
    exactly when that time has passed or the clock ran backwards. *)
Lemma idle_remaining_exact last now : valid last -> valid now ->
  let left := ns last + NET_RELAY_IDLE_TIMEOUT_SEC * 1000000000 - ns now in
  net_relay_idle_remaining_ms last now =
  if (ns now <? ns last) || (left <=? 0) then 0 else (left + 999999) / 1000000.
Proof.
  rewrite !valid_spec. intros Hl Hn left. unfold left, ns, net_relay_idle_remaining_ms, NET_RELAY_IDLE_TIMEOUT_SEC, INT_MAX.
  split_ifs; zlia.
Qed.
