(* ===== verification/Metrics.v ===== *)
(** * Counters and histograms ([src/src/metrics.c])

    Saturating 64-bit counters, high-water marks and histograms with fixed bounds
    whose snapshot is cumulative. *)

From Stdlib Require Import Sorted.
From S2P Require Import Prelude TimeUtil.

(** ** Definitions *)

Definition METRICS_DURATION_BUCKET_COUNT : nat := 14.
Definition METRICS_HISTOGRAM_BUCKET_COUNT : nat := METRICS_DURATION_BUCKET_COUNT.
Definition METRICS_SIZE_BUCKET_COUNT : nat := 10.
Definition METRICS_TTL_BUCKET_COUNT : nat := 13.

Record metrics_histogram := { buckets : list Z; count : Z; sample_errors : Z; sum : Z }.
Record metrics_histogram_snapshot := { cumulative : list Z; s_count : Z; s_sample_errors : Z; s_sum : Z }.

Definition metrics_histogram_zero : metrics_histogram :=
  {| buckets := replicate METRICS_HISTOGRAM_BUCKET_COUNT 0; count := 0; sample_errors := 0; sum := 0 |}.

Inductive metrics_payload_kind :=
  | METRICS_PAYLOAD_KIND_POSITIVE | METRICS_PAYLOAD_KIND_NXDOMAIN | METRICS_PAYLOAD_KIND_NODATA.
Inductive metrics_query_type :=
  | METRICS_QUERY_TYPE_A | METRICS_QUERY_TYPE_AAAA | METRICS_QUERY_TYPE_SRV | METRICS_QUERY_TYPE_OTHER.

#[export] Instance metrics_payload_kind_eq_dec : EqDecision metrics_payload_kind.
Proof. solve_decision. Defined.
#[export] Instance metrics_query_type_eq_dec : EqDecision metrics_query_type.
Proof. solve_decision. Defined.

Definition metrics_duration_bounds : list Z :=
  (fun ms => ms * 1000000) <$> [1; 5; 10; 25; 50; 100; 250; 500; 1000; 2000; 5000; 10000; 30000].
Definition metrics_size_bounds : list Z := [0; 64; 256; 1024; 4096; 16384; 65536; 262144; 1048576].
Definition metrics_ttl_bounds : list Z :=
  [0; 1; 5; 30; 60; 300; 1800; 3600; 21600; 86400; 604800; 2592000].

(** The loop over the buckets before the last one. *)
Fixpoint metrics_cumulate (cumulative : Z) (bs : list Z) : list Z :=
  match bs with
  | [] => []
  | b :: bs =>
      let cumulative := if UINT64_MAX - cumulative <? b then UINT64_MAX else cumulative + b in
      cumulative :: metrics_cumulate cumulative bs
  end.

Definition metrics_histogram_get (histogram : metrics_histogram) (bucket_count : nat) : metrics_histogram_snapshot :=
  {| cumulative := metrics_cumulate 0 (take (bucket_count - 1) (buckets histogram)) ++ [count histogram]
                   ++ replicate (METRICS_HISTOGRAM_BUCKET_COUNT - bucket_count) 0;
     s_count := count histogram; s_sample_errors := sample_errors histogram; s_sum := sum histogram |}.

Definition metrics_saturation_record (saturation_total : Z) : Z :=
  if saturation_total <? UINT64_MAX then saturation_total + 1 else saturation_total.

(** The new value and whether it is exact. *)
Definition metrics_value_add (value amount : Z) : Z * bool :=
  if UINT64_MAX - value <? amount then (UINT64_MAX, false) else (value + amount, true).

(** The [while] loop of [metrics_histogram_observe]. *)
Fixpoint bucket_of (bounds : list Z) (sample : Z) : nat :=
  match bounds with
  | [] => 0
  | b :: bounds => if b <? sample then S (bucket_of bounds sample) else 0
  end.

(** The new histogram and the new [*saturation_total]. *)
Definition metrics_histogram_observe (histogram : metrics_histogram) (bounds : list Z)
    (bucket_sample sum_sample saturation_total : Z) : metrics_histogram * Z :=
  let bucket := bucket_of bounds bucket_sample in
  let '(b, exact_b) := metrics_value_add (default 0 (buckets histogram !! bucket)) 1 in
  let '(c, exact_c) := metrics_value_add (count histogram) 1 in
  let '(s, exact_s) := metrics_value_add (sum histogram) sum_sample in
  ({| buckets := <[bucket := b]> (buckets histogram); count := c; sample_errors := sample_errors histogram; sum := s |},
   if exact_b && exact_c && exact_s then saturation_total else metrics_saturation_record saturation_total).

Definition metrics_timespec_subtract (start end_ : option timespec) : option Z :=
  match start, end_ with
  | Some s, Some e =>
      if negb (timeutil_valid start) || negb (timeutil_valid end_) || (timeutil_compare e s <? 0) then None else
      let seconds := u64 (tv_sec e - tv_sec s) in
      let '(seconds, remainder) :=
        if tv_nsec e <? tv_nsec s then (u64 (seconds - 1), u64 (1000000000 + tv_nsec e - tv_nsec s))
        else (seconds, u64 (tv_nsec e - tv_nsec s)) in
      if (UINT64_MAX - remainder) / 1000000000 <? seconds then None
      else Some (u64 (seconds * 1000000000 + remainder))
  | _, _ => None
  end.

Definition metrics_counter_add (counter amount saturation_total : Z) : Z * Z * bool :=
  let '(v, exact) := metrics_value_add counter amount in
  if exact then (v, saturation_total, true) else (v, metrics_saturation_record saturation_total, false).

Definition metrics_high_water_update (high_water current : Z) : Z :=
  if high_water <? current then current else high_water.

Definition metrics_duration_histogram_get (h : metrics_histogram) := metrics_histogram_get h METRICS_DURATION_BUCKET_COUNT.
Definition metrics_size_histogram_get (h : metrics_histogram) := metrics_histogram_get h METRICS_SIZE_BUCKET_COUNT.
Definition metrics_ttl_histogram_get (h : metrics_histogram) := metrics_histogram_get h METRICS_TTL_BUCKET_COUNT.

Definition metrics_duration_histogram_observe (h : metrics_histogram) (start end_ : option timespec)
    (saturation_total : Z) : metrics_histogram * Z * bool :=
  match metrics_timespec_subtract start end_ with
  | None =>
      let '(v, exact) := metrics_value_add (sample_errors h) 1 in
      ({| buckets := buckets h; count := count h; sample_errors := v; sum := sum h |},
       if exact then saturation_total else metrics_saturation_record saturation_total, false)
  | Some nanoseconds =>
      (metrics_histogram_observe h metrics_duration_bounds nanoseconds (nanoseconds / 1000) saturation_total, true)
  end.

Definition metrics_size_histogram_observe (h : metrics_histogram) (bytes_ saturation_total : Z) : metrics_histogram * Z :=
  metrics_histogram_observe h metrics_size_bounds bytes_ bytes_ saturation_total.

Definition metrics_ttl_histogram_observe (h : metrics_histogram) (seconds saturation_total : Z) : metrics_histogram * Z :=
  metrics_histogram_observe h metrics_ttl_bounds seconds seconds saturation_total.

(** ** Proofs *)

Definition sumZ (l : list Z) : Z := foldr Z.add 0 l.

Lemma sumZ_app l k : sumZ (l ++ k) = sumZ l + sumZ k.
Proof. unfold sumZ. induction l as [|x l IH]; simpl; [lia|]. rewrite IH. lia. Qed.

Lemma sumZ_cons x l : sumZ (x :: l) = x + sumZ l.
Proof. done. Qed.

Lemma sumZ_nonneg l : Forall (fun x => 0 <= x) l -> 0 <= sumZ l.
Proof. unfold sumZ. induction 1; simpl; lia. Qed.

Definition count_if (p : Z -> bool) (l : list Z) : Z := len (List.filter p l).

Lemma count_if_app p l k : count_if p (l ++ k) = count_if p l + count_if p k.
Proof. unfold count_if. rewrite List.filter_app, len_app. done. Qed.

Lemma count_if_bounds p l : 0 <= count_if p l <= len l.
Proof. unfold count_if. pose proof (List.filter_length_le p l). lia. Qed.

Lemma count_if_split p q r l : (forall x, p x = q x || r x) -> (forall x, q x && r x = false) ->
  count_if p l = count_if q l + count_if r l.
Proof.
  intros H1 H2. induction l as [|x l IH]; [done|]. unfold count_if in *. simpl.
  specialize (H1 x). specialize (H2 x). destruct (p x), (q x), (r x); simpl in *; try done; lia.
Qed.

Lemma count_if_ext p q l : (forall x, p x = q x) -> count_if p l = count_if q l.
Proof. intros H. unfold count_if. by rewrite (List.filter_ext p q H). Qed.

(** The bounds in increasing order: a sample is in one of the first [i] buckets
    when it is at most the bound of the last of them. *)
Lemma bucket_of_le bounds x i b : Sorted Z.le bounds -> bounds !! i = Some b ->
  (bucket_of bounds x <=? i)%nat = (x <=? b).
Proof.
  intros Hs. revert i. induction bounds as [|c bounds IH]; intros i Hi; [done|]. cbn [bucket_of].
  apply Sorted_StronglySorted in Hs; [|intros ???; lia]. inversion_clear Hs as [|? ? Hs' Hall].
  apply StronglySorted_Sorted in Hs'. destruct (c <? x) eqn:E.
  - destruct i as [|i]; [simpl in Hi; simplify_eq; simpl; lia|]. by apply IH.
  - destruct i as [|i]; simpl in Hi; simplify_eq; [simpl; lia|].
    rewrite Forall_lookup in Hall. specialize (Hall i b Hi). simpl. lia.
Qed.

Lemma bucket_of_length bounds x : (bucket_of bounds x <= length bounds)%nat.
Proof. induction bounds as [|b bounds IH]; simpl; [lia|]. destruct (b <? x); lia. Qed.

(** What a histogram holds after a list of samples. *)
Record tallied (bounds samples : list Z) (total : Z) (h : metrics_histogram) : Prop := {
  t_length : length (buckets h) = METRICS_HISTOGRAM_BUCKET_COUNT;
  t_count : count h = len samples;
  t_sum : sum h = total;
  t_bucket : forall i, (i <= length bounds)%nat ->
    buckets h !! i = Some (count_if (fun x => (bucket_of bounds x =? i)%nat) samples);
}.

Lemma observe_tallied bounds samples total h x s sat : (length bounds < METRICS_HISTOGRAM_BUCKET_COUNT)%nat ->
  tallied bounds samples total h -> len samples < UINT64_MAX -> 0 <= s <= UINT64_MAX - total ->
  exists h', metrics_histogram_observe h bounds x s sat = (h', sat) /\
    tallied bounds (samples ++ [x]) (total + s) h' /\ sample_errors h' = sample_errors h.
Proof.
  intros Hb [Hl Hc Hs Ht] Hn Htot. unfold metrics_histogram_observe, metrics_value_add.
  pose proof (bucket_of_length bounds x) as Hx. rewrite (Ht _ Hx). cbn [from_option id].
  pose proof (count_if_bounds (fun y => (bucket_of bounds y =? bucket_of bounds x)%nat) samples) as Hcb.
  rewrite Hc, Hs. if_as E1; [lia|]. if_as E2; [lia|]. if_as E3; [lia|]. eexists. split; [done|]. split; [|done].
  constructor; simpl; [by rewrite length_insert|lens|done|]. intros i Hi. rewrite count_if_app.
  destruct (decide (i = bucket_of bounds x)) as [->|Hne].
  - rewrite list_lookup_insert_eq by (rewrite Hl; lia). unfold count_if at 3. simpl. by rewrite Nat.eqb_refl.
  - rewrite list_lookup_insert_ne by done. rewrite Ht by done. unfold count_if at 3. simpl.
    replace (bucket_of bounds x =? i)%nat with false by lia. f_equal. simpl. lia.
Qed.

Lemma cumulate_lookup bs acc i : Forall (fun b => 0 <= b) bs -> 0 <= acc ->
  acc + sumZ bs <= UINT64_MAX -> (i < length bs)%nat ->
  metrics_cumulate acc bs !! i = Some (acc + sumZ (take (S i) bs)).
Proof.
  intros Hb. revert acc i. induction Hb as [|b bs Hb Hbs IH]; intros acc i Ha Hs Hi; [simpl in Hi; lia|].
  assert (0 <= sumZ bs) by by apply sumZ_nonneg.
  cbn [metrics_cumulate]. rewrite sumZ_cons in Hs. if_as E; [lia|].
  destruct i as [|i]; simpl in *; [unfold sumZ; simpl; f_equal; lia|].
  rewrite IH by lia. unfold sumZ. simpl. f_equal. lia.
Qed.

Lemma sum_buckets bounds samples total h i : tallied bounds samples total h -> (i <= length bounds)%nat ->
  sumZ (take (S i) (buckets h)) = count_if (fun x => (bucket_of bounds x <=? i)%nat) samples.
Proof.
  intros Ht. induction i as [|i IH]; intros Hi.
  - rewrite (take_S_r _ _ _ (t_bucket _ _ _ _ Ht 0%nat Hi)). rewrite take_0. unfold sumZ. simpl. rewrite Z.add_0_r.
    apply count_if_ext. intros x. by destruct (bucket_of bounds x).
  - rewrite (take_S_r _ _ _ (t_bucket _ _ _ _ Ht (S i) Hi)), sumZ_app, IH by lia. unfold sumZ at 1. cbn [foldr].
    rewrite Z.add_0_r. symmetry. apply count_if_split; intros x; lia.
Qed.

(** Observing samples one after the other; each has the value that selects the
    bucket and the value that is summed. *)
Definition observe_all (bounds : list Z) (samples : list (Z * Z)) (h : metrics_histogram) (saturation_total : Z)
    : metrics_histogram * Z :=
  fold_left (fun '(h, sat) '(x, s) => metrics_histogram_observe h bounds x s sat) samples (h, saturation_total).

Lemma observe_all_tallied bounds samples done_ total h sat :
  (length bounds < METRICS_HISTOGRAM_BUCKET_COUNT)%nat -> tallied bounds done_ total h ->
  Forall (fun s => 0 <= s.2) samples -> len done_ + len samples <= UINT64_MAX ->
  total + sumZ (samples.*2) <= UINT64_MAX ->
  exists h', observe_all bounds samples h sat = (h', sat) /\
    tallied bounds (done_ ++ samples.*1) (total + sumZ (samples.*2)) h' /\ sample_errors h' = sample_errors h.
Proof.
  intros Hb Ht Hs. revert done_ total h Ht. induction Hs as [|[x s] samples Hx Hs IH]; intros dn total h Ht Hn Htot.
  - exists h. rewrite app_nil_r, Z.add_0_r. done.
  - simpl in Hx. change (((x, s) :: samples).*2) with (s :: samples.*2) in *. rewrite sumZ_cons in *. rewrite len_cons in Hn.
    assert (0 <= sumZ (samples.*2)) by by apply sumZ_nonneg, Forall_fmap.
    destruct (observe_tallied bounds dn total h x s sat Hb Ht) as (h1 & H1 & H2 & H3); [lia|lia|].
    destruct (IH (dn ++ [x]) (total + s) h1 H2) as (h' & H4 & H5 & H6); [lens|lia|].
    exists h'. unfold observe_all in *. cbn [fold_left]. rewrite H1. split; [done|]. rewrite <- app_assoc in H5.
    split; [|congruence]. by rewrite Z.add_assoc.
Qed.

Lemma zero_tallied bounds : (length bounds < METRICS_HISTOGRAM_BUCKET_COUNT)%nat -> tallied bounds [] 0 metrics_histogram_zero.
Proof. intros Hb. constructor; try done. intros i Hi. change (count_if _ []) with 0. apply lookup_replicate_2. lia. Qed.

(** The bounds and the number of buckets of the three kinds of histograms. *)
Inductive histogram_kind : list Z -> nat -> Prop :=
  | Kind_duration : histogram_kind metrics_duration_bounds METRICS_DURATION_BUCKET_COUNT
  | Kind_size : histogram_kind metrics_size_bounds METRICS_SIZE_BUCKET_COUNT
  | Kind_ttl : histogram_kind metrics_ttl_bounds METRICS_TTL_BUCKET_COUNT.

Lemma kind_shape bounds n : histogram_kind bounds n ->
  n = S (length bounds) /\ (n <= METRICS_HISTOGRAM_BUCKET_COUNT)%nat /\ Sorted Z.le bounds.
Proof.
  intros H. split; [by destruct H|]. split; [destruct H; unfold METRICS_HISTOGRAM_BUCKET_COUNT, METRICS_DURATION_BUCKET_COUNT,
    METRICS_SIZE_BUCKET_COUNT, METRICS_TTL_BUCKET_COUNT; lia|].
  destruct H; repeat (constructor; [|try (constructor; vm_compute; congruence)]); constructor.
Qed.

(** As long as nothing saturates, the snapshot of a duration, size or TTL
    histogram is the cumulative count of the observed samples: under each bound
    the number of samples at most that bound, in the last bucket all of them,
    with their exact sum and no saturation recorded. *)
Lemma histogram_exact bounds n samples sat : histogram_kind bounds n ->
  Forall (fun s => 0 <= s.2) samples -> len samples <= UINT64_MAX -> sumZ (samples.*2) <= UINT64_MAX ->
  exists h, observe_all bounds samples metrics_histogram_zero sat = (h, sat) /\
    let snapshot := metrics_histogram_get h n in
    s_count snapshot = len samples /\ s_sum snapshot = sumZ (samples.*2) /\ s_sample_errors snapshot = 0 /\
    (forall i b, bounds !! i = Some b -> cumulative snapshot !! i = Some (count_if (fun x => x <=? b) (samples.*1))) /\
    cumulative snapshot !! (n - 1)%nat = Some (len samples).
Proof.
  intros Hk Hs Hn Htot. destruct (kind_shape bounds n Hk) as (Hlen & Hle & Hsorted).
  destruct (observe_all_tallied bounds samples [] 0 metrics_histogram_zero sat) as (h & H1 & Ht & He);
    [lia|apply zero_tallied; lia|done|simpl; lia|lia|].
  exists h. split; [done|]. cbn [app] in Ht. rewrite Z.add_0_l in Ht. pose proof Ht as [Hl Hc Hsum Hb].
  cbn [s_count s_sum s_sample_errors cumulative metrics_histogram_get]. rewrite Hc, length_fmap, Hsum, He.
  split; [done|]. split; [done|]. split; [done|].
  set (bs := take (n - 1) (buckets h)). assert (Hbs : length bs = (n - 1)%nat) by (unfold bs; rewrite length_take, Hl; lia).
  assert (Hnonneg : Forall (fun b => 0 <= b) bs).
  { apply Forall_lookup. intros i b Hi. unfold bs in Hi. apply lookup_take_Some in Hi as [Hi Hlt].
    rewrite Hb in Hi by lia. simplify_eq. apply count_if_bounds. }
  assert (Hcum : length (metrics_cumulate 0 bs) = length bs).
  { clear. generalize 0 as acc. induction bs as [|b bs IH]; intros acc; simpl; [done|]. by rewrite IH. }
  split.
  - intros i b Hi. assert (Hlt : (i < length bounds)%nat) by by eapply lookup_lt_Some.
    rewrite lookup_app_l by lia. rewrite cumulate_lookup; [|done|lia| |lia].
    + rewrite Z.add_0_l. unfold bs. rewrite take_take, Nat.min_l by lia. rewrite (sum_buckets _ _ _ _ _ Ht) by lia.
      f_equal. apply count_if_ext. intros x. by apply bucket_of_le.
    + rewrite Z.add_0_l. unfold bs. destruct n as [|[|n]]; [lia|simpl in Hlen; lia|].
      replace (S (S n) - 1)%nat with (S n) by lia. rewrite (sum_buckets _ _ _ _ _ Ht) by lia.
      pose proof (count_if_bounds (fun x => (bucket_of bounds x <=? n)%nat) samples.*1) as Hx. rewrite length_fmap in Hx. lia.
  - rewrite lookup_app_r by lia. rewrite Hcum, Hbs, Nat.sub_diag. done.
Qed.

