(* ===== verification/ResolverUtil.v ===== *)
(** * Resolver names, sizes and record types
      ([src/src/resolver/util.c], the types of [src/src/resolver/dns.h])

    Names are C strings of at most [NS_MAXDNAME - 1] bytes.  An array with its
    count is the list of its elements, [None] for a NULL pointer. *)

From S2P Require Import Prelude Proxy.

(** ** Constants and types *)

Definition NS_MAXDNAME : Z := 1025.
Definition ns_c_in : Z := 1.
Definition ns_t_a : Z := 1.
Definition ns_t_cname : Z := 5.
Definition ns_t_soa : Z := 6.
Definition ns_t_aaaa : Z := 28.
Definition ns_t_srv : Z := 33.
Definition ns_r_noerror : Z := 0.
Definition ns_r_servfail : Z := 2.
Definition ns_r_nxdomain : Z := 3.
Definition DNS_ADDRESS_RECORD_LIMIT : Z := 128.
Definition DNS_CNAME_DEPTH_LIMIT : Z := 16.
Definition DNS_SRV_RECORD_LIMIT : Z := 128.

(** The statuses of [dns_address_lookup_status] and [dns_srv_lookup_status],
    which name the same outcomes in the same order. *)
Inductive dns_lookup_status :=
  | DNS_LOOKUP_OK | DNS_LOOKUP_BAD_ARGUMENT | DNS_LOOKUP_LIMIT | DNS_LOOKUP_MALFORMED | DNS_LOOKUP_MEMORY
  | DNS_LOOKUP_NODATA | DNS_LOOKUP_NOT_FOUND | DNS_LOOKUP_PERMANENT_ERROR | DNS_LOOKUP_TEMPORARY_ERROR
  | DNS_LOOKUP_TRUNCATED.

#[export] Instance dns_lookup_status_eq_dec : EqDecision dns_lookup_status.
Proof. solve_decision. Defined.

Record dns_address_record := { a_address : net_addr; a_effective_ttl : Z; a_record_ttl : Z }.
Record dns_cname_record := { c_owner : bytes; c_target : bytes; c_ttl : Z }.
Record dns_negative_record := { n_effective_ttl : Z; n_minimum : Z; n_owner : bytes; n_record_ttl : Z; n_valid : bool }.
Record dns_srv_record := {
  r_priority : Z; r_weight : Z; r_port : Z; r_target : bytes; r_record_ttl : Z; r_effective_ttl : Z;
}.

Record dns_address_result := {
  ar_addresses : option (list dns_address_record);
  ar_canonical_name : bytes; ar_cnames : option (list dns_cname_record);
  ar_negative : dns_negative_record; ar_question_name : bytes; ar_rcode : Z;
}.
Record dns_srv_result := {
  sr_canonical_name : bytes; sr_cnames : option (list dns_cname_record);
  sr_negative : dns_negative_record; sr_question_name : bytes; sr_rcode : Z;
  sr_records : option (list dns_srv_record);
}.

Definition count_of {A} (l : option (list A)) : Z := len (default [] l).

#[export] Instance net_addr_eq_dec : EqDecision net_addr.
Proof. solve_decision. Defined.
#[export] Instance dns_address_record_eq_dec : EqDecision dns_address_record.
Proof. solve_decision. Defined.
#[export] Instance dns_cname_record_eq_dec : EqDecision dns_cname_record.
Proof. solve_decision. Defined.
#[export] Instance dns_srv_record_eq_dec : EqDecision dns_srv_record.
Proof. solve_decision. Defined.

(** ** Names *)

Definition resolver_name_encloses (zone name : option bytes) : bool :=
  match zone, name with
  | Some zone, Some name =>
      bool_decide (zone = [46]) ||
      (let name_length := len name in
       let zone_length := len zone in
       ((name_length =? zone_length) && bool_decide (name = zone)) ||
       ((zone_length <? name_length)
        && bool_decide (name !! Z.to_nat (name_length - zone_length - 1) = Some 46)
        && bool_decide (drop (Z.to_nat (name_length - zone_length)) name = zone)))
  | _, _ => false
  end.

(** The string stored in [target]. *)
Definition resolver_name_normalize (source : option bytes) : option bytes :=
  match source with
  | None => None
  | Some source =>
      let source_length := Z.min (len source) NS_MAXDNAME in
      if (source_length =? 0) || (source_length =? NS_MAXDNAME) then None else
      let terminal_root_removed :=
        (1 <? source_length) && bool_decide (source !! Z.to_nat (source_length - 1) = Some 46) in
      let source_length := if terminal_root_removed then source_length - 1 else source_length in
      if terminal_root_removed && bool_decide (source !! Z.to_nat (source_length - 1) = Some 46) then None else
      Some (chr_lower <$> take (Z.to_nat source_length) source)
  end.

(** ** Sizes *)

Definition resolver_size_add (target value : Z) : option Z :=
  if SIZE_MAX - value <? target then None else Some (target + value).
Definition resolver_size_multiply (left right : Z) : option Z :=
  if negb (left =? 0) && (SIZE_MAX / left <? right) then None else Some (left * right).

(** ** Proofs *)

Lemma chr_lower_idem c : chr_lower (chr_lower c) = chr_lower c.
Proof. unfold chr_lower, chr_upper. split_ifs; lia. Qed.

Lemma chr_lower_dot c : chr_lower c = 46 -> c = 46.
Proof. unfold chr_lower, chr_upper. split_ifs; lia. Qed.

(** A normalised name is not empty, shorter than its buffer, in lower case, and
    ends in a dot only when it is the root. *)
Lemma normalize_shape source t : resolver_name_normalize (Some source) = Some t ->
  0 < len t < NS_MAXDNAME /\ (chr_lower <$> t) = t /\ (1 < len t -> t !! Z.to_nat (len t - 1) <> Some 46).
Proof.
  unfold resolver_name_normalize. set (n := Z.min (len source) NS_MAXDNAME).
  destruct (_ || _) eqn:E0; [done|]. assert (Hn : 0 < n < NS_MAXDNAME /\ n = len source) by lia. destruct Hn as [Hn Hl]. clear E0.
  destruct ((1 <? n) && _) eqn:Er.
  - apply andb_true_iff in Er as [Er1 Er2]. apply bool_decide_eq_true in Er2.
    destruct (bool_decide_reflect (source !! Z.to_nat (n - 1 - 1) = Some 46)) as [|Hd]; [done|]. cbn [andb].
    intros [= <-]. rewrite length_fmap, length_take. split; [lia|]. split.
    + rewrite <- list_fmap_compose. apply list_fmap_ext. intros. apply chr_lower_idem.
    + intros _ Hlast. rewrite list_lookup_fmap in Hlast.
      rewrite lookup_take_lt in Hlast by lia. replace (Z.of_nat _ - 1) with (n - 1 - 1) in Hlast by lia.
      destruct (source !! Z.to_nat (n - 1 - 1)) as [c|]; [|done]. simpl in Hlast. injection Hlast as Hc.
      apply chr_lower_dot in Hc. by subst c.
  - cbn [andb]. intros [= <-]. rewrite length_fmap, length_take. split; [lia|]. split.
    + rewrite <- list_fmap_compose. apply list_fmap_ext. intros. apply chr_lower_idem.
    + intros H1 Hlast. rewrite take_ge in * by lia. rewrite list_lookup_fmap in Hlast.
      replace (Z.of_nat _ - 1) with (n - 1) in Hlast by lia.
      destruct (source !! Z.to_nat (n - 1)) as [c|] eqn:Ec; [|done]. simpl in Hlast. injection Hlast as Hc.
      apply chr_lower_dot in Hc. subst c. rewrite bool_decide_eq_true_2 in Er by done. lia.
Qed.

Lemma normalize_id t : 0 < len t < NS_MAXDNAME -> (chr_lower <$> t) = t -> (1 < len t -> t !! Z.to_nat (len t - 1) <> Some 46) ->
  resolver_name_normalize (Some t) = Some t.
Proof.
  intros Hl Hc Hd. unfold resolver_name_normalize. rewrite Z.min_l by lia. if_as E0; [lia|].
  assert (Hr : (1 <? len t) && bool_decide (t !! Z.to_nat (len t - 1) = Some 46) = false).
  { destruct (1 <? len t) eqn:E; [|done]. cbn [andb]. apply bool_decide_eq_false. intros H. by apply (Hd ltac:(lia)). }
  rewrite Hr. cbn [andb]. by rewrite take_ge, Hc by lia.
Qed.

(** Normalising twice is normalising once. *)
Lemma normalize_idem source t : resolver_name_normalize source = Some t -> resolver_name_normalize (Some t) = Some t.
Proof.
  destruct source as [source|]; [|done]. intros H. apply normalize_shape in H as (H1 & H2 & H3). by apply normalize_id.
Qed.
