(* ===== verification/Cache.v ===== *)
(** * The DNS result cache ([src/src/resolver/cache.c])

    A hash table of reference-counted entries, keyed by the normalised name and
    the query type.  A pointer to an entry is the entry's [id], which the code
    gives out once; an operation on a pointer whose entry has been freed is
    [None].  Sizes are those of the LP64 data model; a failing [calloc] is an
    argument. *)

From S2P Require Import Prelude Proxy TimeUtil Metrics ResolverUtil.

(** ** Types *)

Definition RESOLVER_CACHE_ENTRY_LIMIT : Z := 16384.
Definition RESOLVER_CACHE_OWNED_BYTE_LIMIT : Z := 64 * 1024 * 1024.
Definition RESOLVER_CACHE_RESULT_BYTE_LIMIT : Z := 256 * 1024.
Definition RESOLVER_CACHE_HASH_OFFSET : Z := 14695981039346656037.
Definition RESOLVER_CACHE_HASH_PRIME : Z := 1099511628211.

Definition sizeof_pointer : Z := 8.
Definition sizeof_dns_address_record : Z := 32.
Definition sizeof_dns_cname_record : Z := 2056.
Definition sizeof_dns_srv_record : Z := 1040.
Definition sizeof_resolver_cache_payload : Z := 3184.
Definition sizeof_resolver_cache_entry : Z := 1088.
Definition sizeof_resolver_cache : Z := 2120.

Inductive resolver_cache_acquire_status :=
  | RESOLVER_CACHE_ACQUIRE_OK | RESOLVER_CACHE_ACQUIRE_BAD_ARGUMENT | RESOLVER_CACHE_ACQUIRE_LIMIT
  | RESOLVER_CACHE_ACQUIRE_MEMORY.
Inductive resolver_cache_publish_status :=
  | RESOLVER_CACHE_PUBLISH_STORED | RESOLVER_CACHE_PUBLISH_TRANSIENT | RESOLVER_CACHE_PUBLISH_BAD_ARGUMENT
  | RESOLVER_CACHE_PUBLISH_INVALID | RESOLVER_CACHE_PUBLISH_LIMIT | RESOLVER_CACHE_PUBLISH_MEMORY
  | RESOLVER_CACHE_PUBLISH_TIME.
Inductive resolver_cache_result_fit :=
  | RESOLVER_CACHE_RESULT_FIT_OK | RESOLVER_CACHE_RESULT_FIT_SHAPE | RESOLVER_CACHE_RESULT_FIT_BYTES.
Inductive resolver_cache_view_status :=
  | RESOLVER_CACHE_VIEW_EMPTY | RESOLVER_CACHE_VIEW_FRESH_POSITIVE | RESOLVER_CACHE_VIEW_FRESH_NXDOMAIN
  | RESOLVER_CACHE_VIEW_FRESH_NODATA.

(** The fields of [resolver_cache_metrics_query]. *)
Inductive cache_counter :=
  | acquire_created | acquire_reused | acquire_bad_argument | acquire_reference_limit | acquire_entry_limit
  | acquire_id_limit | acquire_owned_byte_limit | acquire_memory
  | publish_stored | publish_transient | publish_bad_argument | publish_invalid | publish_limit | publish_memory
  | publish_time | publish_limit_result_bytes | publish_limit_owned_bytes
  | value_positive | value_nxdomain | value_nodata | expiry_positive | expiry_nxdomain | expiry_nodata
  | resident_positive | resident_nxdomain | resident_nodata.

#[export] Instance cache_counter_eq_dec : EqDecision cache_counter.
Proof. solve_decision. Defined.
#[export] Instance resolver_cache_view_status_eq_dec : EqDecision resolver_cache_view_status.
Proof. solve_decision. Defined.

(** The union of a payload with the tag that selects its member. *)
Inductive resolver_cache_result :=
  | RESOLVER_CACHE_PAYLOAD_ADDRESS (address : dns_address_result)
  | RESOLVER_CACHE_PAYLOAD_SRV (srv : dns_srv_result).

Record resolver_cache_payload := {
  p_completed_at : timespec; p_expires_at : timespec; p_owned_bytes : Z;
  p_result : resolver_cache_result; p_status : resolver_cache_view_status;
}.

(** The [next] links are the order of the bucket's list. *)
Record resolver_cache_entry := {
  e_hash : Z; e_id : Z; e_name : bytes; e_payload : option resolver_cache_payload;
  e_query_type : Z; e_reference_count : Z;
}.

Record resolver_cache_metrics_state := {
  entries_high_water : Z; owned_bytes_high_water : Z;
  query : metrics_query_type -> cache_counter -> Z;
  saturation_total : Z;
  ttl : metrics_query_type -> metrics_payload_kind -> metrics_histogram;
}.

Record resolver_cache := {
  c_buckets : list (list resolver_cache_entry); bucket_count : Z; entry_count : Z;
  metrics : resolver_cache_metrics_state; next_entry_id : Z; owned_bytes : Z;
}.

Record resolver_cache_view := {
  v_addresses : option (list dns_address_record); v_completed_at : timespec; v_expires_at : timespec;
  v_srv_records : option (list dns_srv_record); v_status : resolver_cache_view_status;
}.

Record resolver_cache_metrics_snapshot := {
  m_entries_current : Z; m_entries_high_water : Z; m_owned_bytes_current : Z; m_owned_bytes_high_water : Z;
  m_query : metrics_query_type -> cache_counter -> Z; m_saturation_total : Z;
  m_ttl : metrics_query_type -> metrics_payload_kind -> metrics_histogram_snapshot;
}.

Definition timespec_zero : timespec := {| tv_sec := 0; tv_nsec := 0 |}.
Definition dns_negative_record_zero : dns_negative_record :=
  {| n_effective_ttl := 0; n_minimum := 0; n_owner := []; n_record_ttl := 0; n_valid := false |}.
Definition dns_address_result_zero : dns_address_result :=
  {| ar_addresses := None; ar_canonical_name := []; ar_cnames := None; ar_negative := dns_negative_record_zero;
     ar_question_name := []; ar_rcode := 0 |}.
Definition dns_srv_result_zero : dns_srv_result :=
  {| sr_canonical_name := []; sr_cnames := None; sr_negative := dns_negative_record_zero;
     sr_question_name := []; sr_rcode := 0; sr_records := None |}.
Definition resolver_cache_view_zero : resolver_cache_view :=
  {| v_addresses := None; v_completed_at := timespec_zero; v_expires_at := timespec_zero; v_srv_records := None;
     v_status := RESOLVER_CACHE_VIEW_EMPTY |}.

(** ** Field updates *)

Definition with_metrics (c : resolver_cache) (m : resolver_cache_metrics_state) : resolver_cache :=
  {| c_buckets := c_buckets c; bucket_count := bucket_count c; entry_count := entry_count c; metrics := m;
     next_entry_id := next_entry_id c; owned_bytes := owned_bytes c |}.
Definition with_buckets (c : resolver_cache) (b : list (list resolver_cache_entry)) : resolver_cache :=
  {| c_buckets := b; bucket_count := bucket_count c; entry_count := entry_count c; metrics := metrics c;
     next_entry_id := next_entry_id c; owned_bytes := owned_bytes c |}.
Definition with_entry_count (c : resolver_cache) (n : Z) : resolver_cache :=
  {| c_buckets := c_buckets c; bucket_count := bucket_count c; entry_count := n; metrics := metrics c;
     next_entry_id := next_entry_id c; owned_bytes := owned_bytes c |}.
Definition with_next_entry_id (c : resolver_cache) (n : Z) : resolver_cache :=
  {| c_buckets := c_buckets c; bucket_count := bucket_count c; entry_count := entry_count c; metrics := metrics c;
     next_entry_id := n; owned_bytes := owned_bytes c |}.
Definition with_owned_bytes (c : resolver_cache) (n : Z) : resolver_cache :=
  {| c_buckets := c_buckets c; bucket_count := bucket_count c; entry_count := entry_count c; metrics := metrics c;
     next_entry_id := next_entry_id c; owned_bytes := n |}.

Definition with_payload (p : option resolver_cache_payload) (e : resolver_cache_entry) : resolver_cache_entry :=
  {| e_hash := e_hash e; e_id := e_id e; e_name := e_name e; e_payload := p; e_query_type := e_query_type e;
     e_reference_count := e_reference_count e |}.
Definition with_reference_count (n : Z) (e : resolver_cache_entry) : resolver_cache_entry :=
  {| e_hash := e_hash e; e_id := e_id e; e_name := e_name e; e_payload := e_payload e; e_query_type := e_query_type e;
     e_reference_count := n |}.

(** The live entries, and reads and writes through a pointer. *)
Definition entries (c : resolver_cache) : list resolver_cache_entry := concat (c_buckets c).
Definition entry_get (c : resolver_cache) (id : Z) : option resolver_cache_entry :=
  List.find (fun e => e_id e =? id) (entries c).
Definition entry_set (c : resolver_cache) (id : Z) (f : resolver_cache_entry -> resolver_cache_entry) : resolver_cache :=
  with_buckets c (map (map (fun e => if e_id e =? id then f e else e)) (c_buckets c)).

(** ** Metrics *)

Definition resolver_cache_metrics_increment (c : resolver_cache) (q : metrics_query_type) (k : cache_counter) : resolver_cache :=
  let m := metrics c in
  let '(value, saturation, _) := metrics_counter_add (query m q k) 1 (saturation_total m) in
  with_metrics c
    {| entries_high_water := entries_high_water m; owned_bytes_high_water := owned_bytes_high_water m;
       query := fun q' k' => if bool_decide (q' = q /\ k' = k) then value else query m q' k';
       saturation_total := saturation; ttl := ttl m |}.

Definition resolver_cache_metrics_payload_kind (status : resolver_cache_view_status) : metrics_payload_kind :=
  match status with
  | RESOLVER_CACHE_VIEW_FRESH_POSITIVE => METRICS_PAYLOAD_KIND_POSITIVE
  | RESOLVER_CACHE_VIEW_FRESH_NXDOMAIN => METRICS_PAYLOAD_KIND_NXDOMAIN
  | _ => METRICS_PAYLOAD_KIND_NODATA
  end.

Definition resolver_cache_metrics_publication_record (c : resolver_cache) (q : metrics_query_type)
    (status : resolver_cache_publish_status) : resolver_cache :=
  resolver_cache_metrics_increment c q
    match status with
    | RESOLVER_CACHE_PUBLISH_STORED => publish_stored
    | RESOLVER_CACHE_PUBLISH_TRANSIENT => publish_transient
    | RESOLVER_CACHE_PUBLISH_BAD_ARGUMENT => publish_bad_argument
    | RESOLVER_CACHE_PUBLISH_INVALID => publish_invalid
    | RESOLVER_CACHE_PUBLISH_LIMIT => publish_limit
    | RESOLVER_CACHE_PUBLISH_MEMORY => publish_memory
    | RESOLVER_CACHE_PUBLISH_TIME => publish_time
    end.

Definition resolver_cache_metrics_query_type (query_type : Z) : metrics_query_type :=
  if query_type =? ns_t_a then METRICS_QUERY_TYPE_A
  else if query_type =? ns_t_aaaa then METRICS_QUERY_TYPE_AAAA
  else if query_type =? ns_t_srv then METRICS_QUERY_TYPE_SRV
  else METRICS_QUERY_TYPE_OTHER.

Definition resolver_cache_metrics_value_record (c : resolver_cache) (q : metrics_query_type)
    (status : resolver_cache_view_status) (seconds : Z) : resolver_cache :=
  let kind := resolver_cache_metrics_payload_kind status in
  let c := resolver_cache_metrics_increment c q
    match kind with
    | METRICS_PAYLOAD_KIND_POSITIVE => value_positive
    | METRICS_PAYLOAD_KIND_NXDOMAIN => value_nxdomain
    | METRICS_PAYLOAD_KIND_NODATA => value_nodata
    end in
  let m := metrics c in
  let '(h, saturation) := metrics_ttl_histogram_observe (ttl m q kind) seconds (saturation_total m) in
  with_metrics c
    {| entries_high_water := entries_high_water m; owned_bytes_high_water := owned_bytes_high_water m;
       query := query m; saturation_total := saturation;
       ttl := fun q' k' => if bool_decide (q' = q /\ k' = kind) then h else ttl m q' k' |}.

Definition with_high_water (c : resolver_cache) (entries_value owned_value : Z) : resolver_cache :=
  let m := metrics c in
  with_metrics c
    {| entries_high_water := entries_value; owned_bytes_high_water := owned_value; query := query m;
       saturation_total := saturation_total m; ttl := ttl m |}.

(** ** Validation *)

Definition resolver_cache_name_valid (source : bytes) : bool :=
  match resolver_name_normalize (Some source) with Some _ => true | None => false end.

Definition resolver_cache_cnames_valid (cnames : option (list dns_cname_record)) : bool :=
  if (DNS_CNAME_DEPTH_LIMIT <? count_of cnames)
     || negb (Bool.eqb (count_of cnames =? 0) (bool_decide (cnames = None))) then false
  else forallb (fun r => resolver_cache_name_valid (c_owner r) && resolver_cache_name_valid (c_target r)) (default [] cnames).

Definition resolver_cache_negative_valid (negative : dns_negative_record) : bool :=
  if negb (n_valid negative) then
    (n_effective_ttl negative =? 0) && (n_minimum negative =? 0) && bool_decide (n_owner negative = []) && (n_record_ttl negative =? 0)
  else resolver_cache_name_valid (n_owner negative) && (n_effective_ttl negative <=? n_minimum negative)
       && (n_effective_ttl negative <=? n_record_ttl negative).

Definition resolver_cache_query_type_valid (query_type : Z) : bool :=
  (query_type =? ns_t_a) || (query_type =? ns_t_aaaa) || (query_type =? ns_t_srv).

Definition resolver_cache_question_matches (entry : resolver_cache_entry) (question_name : bytes) : bool :=
  match resolver_name_normalize (Some question_name) with
  | Some normalized => bool_decide (e_name entry = normalized)
  | None => false
  end.

Definition result_size (record_count record_size : Z) (cnames : option (list dns_cname_record)) : option Z :=
  array_size ← resolver_size_multiply record_count record_size;
  size ← resolver_size_add sizeof_resolver_cache_payload array_size;
  match cnames with
  | None => Some size
  | Some _ =>
      array_size ← resolver_size_multiply DNS_CNAME_DEPTH_LIMIT sizeof_dns_cname_record;
      resolver_size_add size array_size
  end.

Definition resolver_cache_address_result_size (result : dns_address_result) : option Z :=
  result_size (count_of (ar_addresses result)) sizeof_dns_address_record (ar_cnames result).
Definition resolver_cache_srv_result_size (result : dns_srv_result) : option Z :=
  result_size (count_of (sr_records result)) sizeof_dns_srv_record (sr_cnames result).

(** The loop that checks the records and takes the least effective TTL. *)
Fixpoint least_ttl {A} (valid : A -> bool) (effective_ttl : A -> Z) (ttl : Z) (l : list A) : option Z :=
  match l with
  | [] => Some ttl
  | r :: l =>
      if negb (valid r) then None
      else least_ttl valid effective_ttl (if effective_ttl r <? ttl then effective_ttl r else ttl) l
  end.

(** What both validations do with an outcome without records. *)
Definition negative_outcome (lookup_status : dns_lookup_status) (rcode : Z) (negative : dns_negative_record)
    : option (Z * resolver_cache_view_status) :=
  match lookup_status with
  | DNS_LOOKUP_NODATA =>
      if negb (rcode =? ns_r_noerror) then None
      else Some (if n_valid negative then n_effective_ttl negative else 0, RESOLVER_CACHE_VIEW_FRESH_NODATA)
  | DNS_LOOKUP_NOT_FOUND =>
      if negb (rcode =? ns_r_nxdomain) then None
      else Some (if n_valid negative then n_effective_ttl negative else 0, RESOLVER_CACHE_VIEW_FRESH_NXDOMAIN)
  | _ => None
  end.

(** [*ttl] and [*view_status]. *)
Definition resolver_cache_address_result_validate (entry : resolver_cache_entry) (lookup_status : dns_lookup_status)
    (result : dns_address_result) : option (Z * resolver_cache_view_status) :=
  if (negb (e_query_type entry =? ns_t_a) && negb (e_query_type entry =? ns_t_aaaa))
     || negb (resolver_cache_question_matches entry (ar_question_name result))
     || negb (resolver_cache_name_valid (ar_canonical_name result))
     || negb (resolver_cache_cnames_valid (ar_cnames result))
     || negb (resolver_cache_negative_valid (ar_negative result)) then None else
  match lookup_status with
  | DNS_LOOKUP_OK =>
      if negb (ar_rcode result =? ns_r_noerror) || bool_decide (ar_addresses result = None)
         || (count_of (ar_addresses result) =? 0) || (DNS_ADDRESS_RECORD_LIMIT <? count_of (ar_addresses result))
         || n_valid (ar_negative result) then None else
      let expected_family := if e_query_type entry =? ns_t_a then AF_INET else AF_INET6 in
      ttl ← least_ttl (fun r => (family (a_address r) =? expected_family) && (a_effective_ttl r <=? a_record_ttl r))
              a_effective_ttl UINT32_MAX (default [] (ar_addresses result));
      Some (ttl, RESOLVER_CACHE_VIEW_FRESH_POSITIVE)
  | _ =>
      if negb (bool_decide (ar_addresses result = None)) then None
      else negative_outcome lookup_status (ar_rcode result) (ar_negative result)
  end.

Definition resolver_cache_srv_result_validate (entry : resolver_cache_entry) (lookup_status : dns_lookup_status)
    (result : dns_srv_result) : option (Z * resolver_cache_view_status) :=
  if negb (e_query_type entry =? ns_t_srv)
     || negb (resolver_cache_question_matches entry (sr_question_name result))
     || negb (resolver_cache_name_valid (sr_canonical_name result))
     || negb (resolver_cache_cnames_valid (sr_cnames result))
     || negb (resolver_cache_negative_valid (sr_negative result)) then None else
  match lookup_status with
  | DNS_LOOKUP_OK =>
      if negb (sr_rcode result =? ns_r_noerror) || bool_decide (sr_records result = None)
         || (count_of (sr_records result) =? 0) || (DNS_SRV_RECORD_LIMIT <? count_of (sr_records result))
         || n_valid (sr_negative result) then None else
      ttl ← least_ttl (fun r => resolver_cache_name_valid (r_target r) && (r_effective_ttl r <=? r_record_ttl r))
              r_effective_ttl UINT32_MAX (default [] (sr_records result));
      Some (ttl, RESOLVER_CACHE_VIEW_FRESH_POSITIVE)
  | _ =>
      if negb (bool_decide (sr_records result = None)) then None
      else negative_outcome lookup_status (sr_rcode result) (sr_negative result)
  end.

Definition resolver_cache_expiry_calculate (completed_at : timespec) (ttl : Z) : option timespec :=
  if negb (timeutil_valid (Some completed_at)) then None else
  if UINT64_MAX - ttl <? tv_sec completed_at then None else
  let expiry_seconds := u64 (tv_sec completed_at + ttl) in
  let converted_seconds := time_t_of expiry_seconds in
  if (converted_seconds <? 0) || negb (u64 converted_seconds =? expiry_seconds) then None
  else Some {| tv_sec := converted_seconds; tv_nsec := tv_nsec completed_at |}.

(** ** Entries *)

Definition resolver_cache_hash (name : bytes) (query_type : Z) : Z :=
  let mix result b := u64 (Z.lxor result b * RESOLVER_CACHE_HASH_PRIME) in
  mix (mix (fold_left mix name RESOLVER_CACHE_HASH_OFFSET) (u8 (Z.shiftr query_type 8))) (u8 query_type).

Definition resolver_cache_entry_find (c : resolver_cache) (name : bytes) (query_type hash : Z) : option resolver_cache_entry :=
  List.find (fun e => (e_hash e =? hash) && (e_query_type e =? query_type) && bool_decide (e_name e = name))
    (default [] (c_buckets c !! Z.to_nat (hash mod bucket_count c))).

(** The bytes of a payload are given back and its entry loses it. *)
Definition resolver_cache_entry_payload_clear (c : resolver_cache) (e : resolver_cache_entry) : resolver_cache :=
  match e_payload e with
  | None => c
  | Some payload =>
      let c := entry_set c (e_id e) (with_payload None) in
      with_owned_bytes c (if p_owned_bytes payload <=? owned_bytes c then owned_bytes c - p_owned_bytes payload else 0)
  end.

Definition resolver_cache_entry_retain (c : resolver_cache) (entry : option Z) : option (resolver_cache * bool) :=
  match entry with
  | None => Some (c, false)
  | Some id =>
      e ← entry_get c id;
      if e_reference_count e =? SIZE_MAX then Some (c, false)
      else Some (entry_set c id (with_reference_count (e_reference_count e + 1)), true)
  end.

Definition resolver_cache_create (alloc_cache alloc_buckets : bool) : option resolver_cache :=
  if (RESOLVER_CACHE_ENTRY_LIMIT =? 0) || (RESOLVER_CACHE_OWNED_BYTE_LIMIT =? 0) || (RESOLVER_CACHE_RESULT_BYTE_LIMIT =? 0) then None else
  bucket_bytes ← resolver_size_multiply RESOLVER_CACHE_ENTRY_LIMIT sizeof_pointer;
  if (RESOLVER_CACHE_OWNED_BYTE_LIMIT <? sizeof_resolver_cache)
     || (RESOLVER_CACHE_OWNED_BYTE_LIMIT - sizeof_resolver_cache <? bucket_bytes) then None else
  if negb alloc_cache || negb alloc_buckets then None else
  Some {| c_buckets := replicate (Z.to_nat RESOLVER_CACHE_ENTRY_LIMIT) []; bucket_count := RESOLVER_CACHE_ENTRY_LIMIT;
          entry_count := 0;
          metrics := {| entries_high_water := 0; owned_bytes_high_water := sizeof_resolver_cache + bucket_bytes;
                        query := fun _ _ => 0; saturation_total := 0; ttl := fun _ _ => metrics_histogram_zero |};
          next_entry_id := 1; owned_bytes := sizeof_resolver_cache + bucket_bytes |}.

(** The new entry at the head of its bucket. *)
Definition entry_link (c : resolver_cache) (hash : Z) (name : bytes) (query_type : Z) : resolver_cache :=
  let entry := {| e_hash := hash; e_id := next_entry_id c; e_name := name; e_payload := None;
                  e_query_type := query_type; e_reference_count := 1 |} in
  let c := with_buckets c (alter (cons entry) (Z.to_nat (hash mod bucket_count c)) (c_buckets c)) in
  let c := with_entry_count c (entry_count c + 1) in
  let c := with_owned_bytes c (owned_bytes c + sizeof_resolver_cache_entry) in
  let c := with_high_water c (metrics_high_water_update (entries_high_water (metrics c)) (entry_count c))
             (metrics_high_water_update (owned_bytes_high_water (metrics c)) (owned_bytes c)) in
  with_next_entry_id c (if next_entry_id c =? UINT64_MAX then 0 else next_entry_id c + 1).

(** The cache afterwards, [*result] and the status. *)
Definition resolver_cache_entry_acquire (c : resolver_cache) (query_name : option bytes) (query_type : Z) (alloc : bool)
    : option (resolver_cache * option Z * resolver_cache_acquire_status) :=
  let count k c := resolver_cache_metrics_increment c (resolver_cache_metrics_query_type query_type) k in
  match (if resolver_cache_query_type_valid query_type then resolver_name_normalize query_name else None) with
  | None => Some (count acquire_bad_argument c, None, RESOLVER_CACHE_ACQUIRE_BAD_ARGUMENT)
  | Some normalized =>
      let hash := resolver_cache_hash normalized query_type in
      match resolver_cache_entry_find c normalized query_type hash with
      | Some entry =>
          match resolver_cache_entry_retain c (Some (e_id entry)) with
          | None => None
          | Some (c, true) => Some (count acquire_reused c, Some (e_id entry), RESOLVER_CACHE_ACQUIRE_OK)
          | Some (c, false) => Some (count acquire_reference_limit c, None, RESOLVER_CACHE_ACQUIRE_LIMIT)
          end
      | None =>
          if entry_count c =? RESOLVER_CACHE_ENTRY_LIMIT then
            Some (count acquire_entry_limit c, None, RESOLVER_CACHE_ACQUIRE_LIMIT)
          else if next_entry_id c =? 0 then Some (count acquire_id_limit c, None, RESOLVER_CACHE_ACQUIRE_LIMIT)
          else if (RESOLVER_CACHE_OWNED_BYTE_LIMIT <? sizeof_resolver_cache_entry)
                  || (RESOLVER_CACHE_OWNED_BYTE_LIMIT - sizeof_resolver_cache_entry <? owned_bytes c) then
            Some (count acquire_owned_byte_limit c, None, RESOLVER_CACHE_ACQUIRE_LIMIT)
          else if negb alloc then Some (count acquire_memory c, None, RESOLVER_CACHE_ACQUIRE_MEMORY)
          else Some (count acquire_created (entry_link c hash normalized query_type), Some (next_entry_id c),
                     RESOLVER_CACHE_ACQUIRE_OK)
      end
  end.

(** The status, and the cache; the caller's result is cleared when it is stored. *)
Definition resolver_cache_entry_payload_publish (c : resolver_cache) (e : resolver_cache_entry)
    (view_status : resolver_cache_view_status) (completed_at : timespec) (ttl result_size : Z)
    (result : resolver_cache_result) (alloc : bool) : resolver_cache * resolver_cache_publish_status :=
  let q := resolver_cache_metrics_query_type (e_query_type e) in
  if negb (timeutil_valid (Some completed_at)) then (c, RESOLVER_CACHE_PUBLISH_TIME)
  else if RESOLVER_CACHE_RESULT_BYTE_LIMIT <? result_size then
    (resolver_cache_metrics_increment c q publish_limit_result_bytes, RESOLVER_CACHE_PUBLISH_LIMIT)
  else if ttl =? 0 then (resolver_cache_entry_payload_clear c e, RESOLVER_CACHE_PUBLISH_TRANSIENT)
  else
  match resolver_cache_expiry_calculate completed_at ttl with
  | None => (c, RESOLVER_CACHE_PUBLISH_TIME)
  | Some expires_at =>
      let old_payload_size := match e_payload e with None => 0 | Some p => p_owned_bytes p end in
      let retained_size := u64 (owned_bytes c - old_payload_size) in
      if (RESOLVER_CACHE_OWNED_BYTE_LIMIT <? result_size)
         || (RESOLVER_CACHE_OWNED_BYTE_LIMIT - result_size <? retained_size) then
        (resolver_cache_metrics_increment c q publish_limit_owned_bytes, RESOLVER_CACHE_PUBLISH_LIMIT)
      else if negb alloc then (c, RESOLVER_CACHE_PUBLISH_MEMORY)
      else
        let payload := {| p_completed_at := completed_at; p_expires_at := expires_at; p_owned_bytes := result_size;
                          p_result := result; p_status := view_status |} in
        let c := resolver_cache_entry_payload_clear c e in
        let c := entry_set c (e_id e) (with_payload (Some payload)) in
        let c := with_owned_bytes c (u64 (owned_bytes c + result_size)) in
        (with_high_water c (entries_high_water (metrics c))
           (metrics_high_water_update (owned_bytes_high_water (metrics c)) (owned_bytes c)),
         RESOLVER_CACHE_PUBLISH_STORED)
  end.

(** The steps the two publications share after their validation. *)
Definition publish_validated (c : resolver_cache) (e : resolver_cache_entry)
    (validated : option (Z * resolver_cache_view_status)) (size : option Z) (completed_at : timespec)
    (result : resolver_cache_result) (alloc : bool) : resolver_cache * resolver_cache_publish_status :=
  let q := resolver_cache_metrics_query_type (e_query_type e) in
  match validated with
  | None => (resolver_cache_metrics_publication_record c q RESOLVER_CACHE_PUBLISH_INVALID, RESOLVER_CACHE_PUBLISH_INVALID)
  | Some (ttl, view_status) =>
      let c := resolver_cache_metrics_value_record c q view_status ttl in
      match size with
      | None =>
          (resolver_cache_metrics_publication_record
             (resolver_cache_metrics_increment c q publish_limit_result_bytes) q RESOLVER_CACHE_PUBLISH_LIMIT,
           RESOLVER_CACHE_PUBLISH_LIMIT)
      | Some result_size =>
          let '(c, status) :=
            resolver_cache_entry_payload_publish c e view_status completed_at ttl result_size result alloc in
          (resolver_cache_metrics_publication_record c q status, status)
      end
  end.

Definition moved (status : resolver_cache_publish_status) : bool :=
  match status with RESOLVER_CACHE_PUBLISH_STORED => true | _ => false end.

(** The cache, the status and the caller's result afterwards. *)
Definition resolver_cache_entry_publish_address (c : resolver_cache) (entry : option Z) (lookup_status : dns_lookup_status)
    (completed_at : option timespec) (result : option dns_address_result) (alloc : bool)
    : option (resolver_cache * resolver_cache_publish_status * option dns_address_result) :=
  match entry with
  | None => Some (c, RESOLVER_CACHE_PUBLISH_BAD_ARGUMENT, result)
  | Some id =>
      e ← entry_get c id;
      match result, completed_at with
      | Some r, Some t =>
          let '(c, status) := publish_validated c e (resolver_cache_address_result_validate e lookup_status r)
            (resolver_cache_address_result_size r) t (RESOLVER_CACHE_PAYLOAD_ADDRESS r) alloc in
          Some (c, status, Some (if moved status then dns_address_result_zero else r))
      | _, _ =>
          Some (resolver_cache_metrics_publication_record c (resolver_cache_metrics_query_type (e_query_type e))
                  RESOLVER_CACHE_PUBLISH_BAD_ARGUMENT, RESOLVER_CACHE_PUBLISH_BAD_ARGUMENT, result)
      end
  end.

Definition resolver_cache_entry_publish_srv (c : resolver_cache) (entry : option Z) (lookup_status : dns_lookup_status)
    (completed_at : option timespec) (result : option dns_srv_result) (alloc : bool)
    : option (resolver_cache * resolver_cache_publish_status * option dns_srv_result) :=
  match entry with
  | None => Some (c, RESOLVER_CACHE_PUBLISH_BAD_ARGUMENT, result)
  | Some id =>
      e ← entry_get c id;
      match result, completed_at with
      | Some r, Some t =>
          let '(c, status) := publish_validated c e (resolver_cache_srv_result_validate e lookup_status r)
            (resolver_cache_srv_result_size r) t (RESOLVER_CACHE_PAYLOAD_SRV r) alloc in
          Some (c, status, Some (if moved status then dns_srv_result_zero else r))
      | _, _ =>
          Some (resolver_cache_metrics_publication_record c (resolver_cache_metrics_query_type (e_query_type e))
                  RESOLVER_CACHE_PUBLISH_BAD_ARGUMENT, RESOLVER_CACHE_PUBLISH_BAD_ARGUMENT, result)
      end
  end.

(** The walk along the links of a bucket to the entry that is unlinked. *)
Fixpoint unlink (id : Z) (bucket : list resolver_cache_entry) : list resolver_cache_entry :=
  match bucket with
  | [] => []
  | e :: bucket => if e_id e =? id then bucket else e :: unlink id bucket
  end.

Definition resolver_cache_entry_release (c : resolver_cache) (entry : option Z) : option resolver_cache :=
  match entry with
  | None => Some c
  | Some id =>
      e ← entry_get c id;
      if e_reference_count e =? 0 then Some c else
      let reference_count := e_reference_count e - 1 in
      if negb (reference_count =? 0) then Some (entry_set c id (with_reference_count reference_count)) else
      let c := with_buckets c (alter (unlink id) (Z.to_nat (e_hash e mod bucket_count c)) (c_buckets c)) in
      let c := resolver_cache_entry_payload_clear c e in
      let c := with_owned_bytes c
        (if sizeof_resolver_cache_entry <=? owned_bytes c then owned_bytes c - sizeof_resolver_cache_entry else 0) in
      Some (with_entry_count c (if 0 <? entry_count c then entry_count c - 1 else entry_count c))
  end.

Definition resolver_cache_entry_view (c : resolver_cache) (entry : option Z) (now : option timespec)
    : option (resolver_cache * option resolver_cache_view) :=
  match entry with
  | None => Some (c, None)
  | Some id =>
      e ← entry_get c id;
      match now with
      | None => Some (c, None)
      | Some t =>
          if negb (timeutil_valid now) then Some (c, None) else
          let '(c, payload) :=
            match e_payload e with
            | Some p =>
                if 0 <=? timeutil_compare t (p_expires_at p) then
                  let c := resolver_cache_metrics_increment c (resolver_cache_metrics_query_type (e_query_type e))
                    match resolver_cache_metrics_payload_kind (p_status p) with
                    | METRICS_PAYLOAD_KIND_POSITIVE => expiry_positive
                    | METRICS_PAYLOAD_KIND_NXDOMAIN => expiry_nxdomain
                    | METRICS_PAYLOAD_KIND_NODATA => expiry_nodata
                    end in
                  (resolver_cache_entry_payload_clear c e, None)
                else (c, Some p)
            | None => (c, None)
            end in
          Some (c, Some
            match payload with
            | None => resolver_cache_view_zero
            | Some p =>
                {| v_addresses := match p_result p with RESOLVER_CACHE_PAYLOAD_ADDRESS r => ar_addresses r | _ => None end;
                   v_completed_at := p_completed_at p; v_expires_at := p_expires_at p;
                   v_srv_records := match p_result p with RESOLVER_CACHE_PAYLOAD_SRV r => sr_records r | _ => None end;
                   v_status := p_status p |}
            end)
      end
  end.

(** One resident payload counted in a snapshot. *)
Definition resident_count (snapshot : metrics_query_type -> cache_counter -> Z) (e : resolver_cache_entry)
    : metrics_query_type -> cache_counter -> Z :=
  match e_payload e with
  | None => snapshot
  | Some p =>
      let q := resolver_cache_metrics_query_type (e_query_type e) in
      let k := match resolver_cache_metrics_payload_kind (p_status p) with
               | METRICS_PAYLOAD_KIND_POSITIVE => resident_positive
               | METRICS_PAYLOAD_KIND_NXDOMAIN => resident_nxdomain
               | METRICS_PAYLOAD_KIND_NODATA => resident_nodata
               end in
      fun q' k' => if bool_decide (q' = q /\ k' = k) then u64 (snapshot q' k' + 1) else snapshot q' k'
  end.

Definition resolver_cache_metrics_get (cache : option resolver_cache) : option resolver_cache_metrics_snapshot :=
  c ← cache;
  Some {| m_entries_current := entry_count c; m_entries_high_water := entries_high_water (metrics c);
          m_owned_bytes_current := owned_bytes c; m_owned_bytes_high_water := owned_bytes_high_water (metrics c);
          m_query := fold_left (fun s bucket => fold_left resident_count bucket s) (c_buckets c) (query (metrics c));
          m_saturation_total := saturation_total (metrics c);
          m_ttl := fun q k => metrics_ttl_histogram_get (ttl (metrics c) q k) |}.

Definition resolver_cache_entry_id (entry : option resolver_cache_entry) : Z :=
  match entry with None => 0 | Some e => e_id e end.
Definition resolver_cache_entry_name (entry : option resolver_cache_entry) : option bytes := e_name <$> entry.
Definition resolver_cache_entry_query_type (entry : option resolver_cache_entry) : Z :=
  match entry with None => 0 | Some e => e_query_type e end.

(** The payloads are cleared entry by entry; the entries, the buckets and the
    cache are then freed, so no pointer into what is left is used again. *)
Definition resolver_cache_destroy (cache : option resolver_cache) : option resolver_cache :=
  c ← cache; Some (with_buckets (fold_left resolver_cache_entry_payload_clear (entries c) c) []).

Definition resolver_cache_result_classify (query_type cname_count record_count : Z) : resolver_cache_result_fit :=
  if (DNS_CNAME_DEPTH_LIMIT <? cname_count)
     || (negb (query_type =? ns_t_a) && negb (query_type =? ns_t_aaaa) && negb (query_type =? ns_t_srv))
     || (((query_type =? ns_t_a) || (query_type =? ns_t_aaaa)) && (DNS_ADDRESS_RECORD_LIMIT <? record_count))
     || ((query_type =? ns_t_srv) && (DNS_SRV_RECORD_LIMIT <? record_count)) then RESOLVER_CACHE_RESULT_FIT_SHAPE else
  let size := sizeof_resolver_cache_payload in
  match (if 0 <? cname_count then
           array_size ← resolver_size_multiply DNS_CNAME_DEPTH_LIMIT sizeof_dns_cname_record; resolver_size_add size array_size
         else Some size) with
  | None => RESOLVER_CACHE_RESULT_FIT_BYTES
  | Some size =>
      let record_size := if query_type =? ns_t_srv then sizeof_dns_srv_record else sizeof_dns_address_record in
      match (array_size ← resolver_size_multiply record_count record_size; resolver_size_add size array_size) with
      | Some size => if size <=? RESOLVER_CACHE_RESULT_BYTE_LIMIT then RESOLVER_CACHE_RESULT_FIT_OK
                     else RESOLVER_CACHE_RESULT_FIT_BYTES
      | None => RESOLVER_CACHE_RESULT_FIT_BYTES
      end
  end.

(** ** The invariant *)

Definition payload_bytes (p : option resolver_cache_payload) : Z := match p with None => 0 | Some p => p_owned_bytes p end.
Definition entry_bytes (e : resolver_cache_entry) : Z := sizeof_resolver_cache_entry + payload_bytes (e_payload e).
Definition base_bytes : Z := sizeof_resolver_cache + RESOLVER_CACHE_ENTRY_LIMIT * sizeof_pointer.
Definition key (e : resolver_cache_entry) : bytes * Z := (e_name e, e_query_type e).

(** A stored payload: its size is within the limit of one result, it was
    completed before it expires, and it answers the query of its entry. *)
Record payload_ok (query_type : Z) (p : resolver_cache_payload) : Prop := {
  po_bytes : 0 <= p_owned_bytes p <= RESOLVER_CACHE_RESULT_BYTE_LIMIT;
  po_completed : valid (p_completed_at p);
  po_expires : valid (p_expires_at p);
  po_time : ns (p_completed_at p) < ns (p_expires_at p);
  po_status : p_status p <> RESOLVER_CACHE_VIEW_EMPTY;
  po_type : match p_result p with
            | RESOLVER_CACHE_PAYLOAD_ADDRESS _ => query_type = ns_t_a \/ query_type = ns_t_aaaa
            | RESOLVER_CACHE_PAYLOAD_SRV _ => query_type = ns_t_srv
            end;
}.

Record entry_ok (e : resolver_cache_entry) : Prop := {
  eo_name : resolver_name_normalize (Some (e_name e)) = Some (e_name e);
  eo_type : resolver_cache_query_type_valid (e_query_type e) = true;
  eo_hash : e_hash e = resolver_cache_hash (e_name e) (e_query_type e);
  eo_refs : 1 <= e_reference_count e <= SIZE_MAX;
  eo_payload : forall p, e_payload e = Some p -> payload_ok (e_query_type e) p;
}.

(** The table: every entry is in the bucket of its hash, identifiers and keys
    are distinct, identifiers have been given out, and the two counters are
    exact and within their limits. *)
Record table_ok (buckets : list (list resolver_cache_entry)) (bucket_count entry_count next_entry_id owned_bytes : Z) : Prop := {
  to_count : bucket_count = RESOLVER_CACHE_ENTRY_LIMIT;
  to_buckets : len buckets = bucket_count;
  to_place : forall i b e, buckets !! i = Some b -> e ∈ b -> i = Z.to_nat (e_hash e mod bucket_count);
  to_ids : NoDup (e_id <$> concat buckets);
  to_keys : NoDup (key <$> concat buckets);
  to_next : 0 <= next_entry_id <= UINT64_MAX /\
    Forall (fun e => 1 <= e_id e <= UINT64_MAX /\ (next_entry_id = 0 \/ e_id e < next_entry_id)) (concat buckets);
  to_entry_count : entry_count = len (concat buckets);
  to_entry_limit : entry_count <= RESOLVER_CACHE_ENTRY_LIMIT;
  to_owned : owned_bytes = base_bytes + sumZ (entry_bytes <$> concat buckets);
  to_owned_limit : owned_bytes <= RESOLVER_CACHE_OWNED_BYTE_LIMIT;
  to_entries : Forall entry_ok (concat buckets);
}.

Definition cache_ok (c : resolver_cache) : Prop :=
  table_ok (c_buckets c) (bucket_count c) (entry_count c) (next_entry_id c) (owned_bytes c).

(** ** Frames *)

Lemma increment_frame c q k : exists m, resolver_cache_metrics_increment c q k = with_metrics c m.
Proof. unfold resolver_cache_metrics_increment. destruct (metrics_counter_add _ _ _) as [[??]?]. by eexists. Qed.

Lemma publication_frame c q s : exists m, resolver_cache_metrics_publication_record c q s = with_metrics c m.
Proof. apply increment_frame. Qed.

Lemma value_frame c q s t : exists m, resolver_cache_metrics_value_record c q s t = with_metrics c m.
Proof.
  unfold resolver_cache_metrics_value_record. match goal with |- context [resolver_cache_metrics_increment c q ?k] =>
    destruct (increment_frame c q k) as [m ->] end.
  destruct (metrics_ttl_histogram_observe _ _ _) as [??]. by eexists.
Qed.

(** ** The entries under updates *)

Lemma concat_alter {A} (f : list A -> list A) i l b : l !! i = Some b ->
  exists p s, concat l = p ++ b ++ s /\ concat (alter f i l) = p ++ f b ++ s.
Proof.
  revert i. induction l as [|x l IH]; intros i Hi; [done|]. destruct i as [|i]; simpl in Hi.
  - simplify_eq. by exists [], (concat l).
  - destruct (IH i Hi) as (p & s & H1 & H2). exists (x ++ p), s. split; [simpl; by rewrite H1, app_assoc|].
    change (concat (alter f (S i) (x :: l))) with (x ++ concat (alter f i l)). by rewrite H2, app_assoc.
Qed.

Lemma entries_set c id f : entries (entry_set c id f) = map (fun e => if e_id e =? id then f e else e) (entries c).
Proof. unfold entries, entry_set. simpl. by rewrite concat_map. Qed.

Lemma entry_get_Some c id e : entry_get c id = Some e -> e ∈ entries c /\ e_id e = id.
Proof. unfold entry_get. intros H. apply find_some in H as [H1 H2]. split; [by apply list_elem_of_In|lia]. Qed.

Lemma NoDup_fmap_inj_elem {A B} (f : A -> B) l x y : NoDup (f <$> l) -> x ∈ l -> y ∈ l -> f x = f y -> x = y.
Proof.
  intros Hn Hx Hy He. apply list_elem_of_lookup in Hx as [i Hi]. apply list_elem_of_lookup in Hy as [j Hj].
  assert (i = j); [|congruence]. apply (NoDup_lookup (f <$> l) i j (f x) Hn); rewrite list_lookup_fmap; [by rewrite Hi|by rewrite Hj, He].
Qed.

Lemma entry_get_elem c e : cache_ok c -> e ∈ entries c -> entry_get c (e_id e) = Some e.
Proof.
  intros Hok He. unfold entry_get. destruct (List.find _ _) as [e'|] eqn:E.
  - apply find_some in E as [E1 E2]. f_equal. apply (NoDup_fmap_inj_elem e_id (entries c)); [apply Hok|by apply list_elem_of_In|done|lia].
  - apply find_none with (x := e) in E; [lia|]. by apply list_elem_of_In.
Qed.

(** An entry and what an update through its pointer leaves around it. *)
Lemma entry_split c id e : cache_ok c -> entry_get c id = Some e ->
  exists p s, entries c = p ++ e :: s /\ (forall e', e' ∈ p ++ s -> e_id e' <> id) /\
    forall f, entries (entry_set c id f) = p ++ f e :: s.
Proof.
  intros Hok He. apply entry_get_Some in He as [He Hid]. apply list_elem_of_split in He as (p & s & Hps).
  assert (Hne : forall e', e' ∈ p ++ s -> e_id e' <> id).
  { pose proof (to_ids _ _ _ _ _ Hok) as Hn. fold (entries c) in Hn. rewrite Hps, fmap_app, fmap_cons in Hn.
    apply list.NoDup_app in Hn as (_ & Hn1 & Hn2). apply list.NoDup_cons in Hn2 as [Hn2 _]. intros e' He' Heq. apply elem_of_app in He' as [He'|He'].
    - apply (Hn1 (e_id e')); [by apply list_elem_of_fmap_2|]. rewrite Heq, <- Hid. by left.
    - apply Hn2. rewrite Hid, <- Heq. by apply list_elem_of_fmap_2. }
  exists p, s. split; [done|]. split; [done|]. intros f. rewrite entries_set, Hps, map_app. cbn [map].
  rewrite Hid, Z.eqb_refl.
  assert (Hmap : forall l, (forall e', e' ∈ l -> e_id e' <> id) -> map (fun e => if e_id e =? id then f e else e) l = l).
  { clear. induction l as [|x l IH]; intros Hl; [done|]. simpl. rewrite IH by (intros; apply Hl; by right).
    specialize (Hl x ltac:(by left)). by replace (e_id x =? id) with false by lia. }
  rewrite !Hmap; [done| |]; intros e' He'; apply Hne, elem_of_app; auto.
Qed.

(** ** Updates keep the invariant *)

Lemma sumZ_perm l k : Permutation l k -> sumZ l = sumZ k.
Proof. unfold sumZ. induction 1; simpl in *; lia. Qed.

Lemma entry_bytes_nonneg e : entry_ok e -> sizeof_resolver_cache_entry <= entry_bytes e.
Proof.
  intros He. unfold entry_bytes, payload_bytes. destruct (e_payload e) as [p|] eqn:E; [|lia].
  pose proof (po_bytes _ _ (eo_payload e He p E)). lia.
Qed.

Lemma sum_entry_bytes_nonneg l : Forall entry_ok l -> 0 <= sumZ (entry_bytes <$> l).
Proof.
  intros H. apply sumZ_nonneg, Forall_fmap. revert H. apply Forall_impl. intros e He.
  pose proof (entry_bytes_nonneg e He) as Hb. unfold sizeof_resolver_cache_entry in Hb. simpl. lia.
Qed.

Lemma owned_bytes_split c p e s : cache_ok c -> entries c = p ++ e :: s ->
  owned_bytes c = base_bytes + entry_bytes e + sumZ (entry_bytes <$> p ++ s) /\ 0 <= sumZ (entry_bytes <$> p ++ s) /\ entry_ok e.
Proof.
  intros Hok Hps. pose proof (to_entries _ _ _ _ _ Hok) as Hall. pose proof (to_owned _ _ _ _ _ Hok) as Ho.
  fold (entries c) in Hall, Ho. rewrite Hps in Hall, Ho. apply Forall_app in Hall as [Hp Hs]. inversion_clear Hs.
  rewrite fmap_app, fmap_cons, sumZ_app, sumZ_cons in Ho. rewrite fmap_app, sumZ_app.
  pose proof (sum_entry_bytes_nonneg p Hp). pose proof (sum_entry_bytes_nonneg s ltac:(done)).
  split; [lia|]. split; [lia|done].
Qed.

Definition keeps (f : resolver_cache_entry -> resolver_cache_entry) : Prop :=
  forall e, e_hash (f e) = e_hash e /\ e_id (f e) = e_id e /\ key (f e) = key e.

Lemma keeps_payload p : keeps (with_payload p).
Proof. done. Qed.
Lemma keeps_reference_count n : keeps (with_reference_count n).
Proof. done. Qed.

#[local] Hint Resolve keeps_payload keeps_reference_count : core.

Lemma set_ok c id e f n : cache_ok c -> entry_get c id = Some e -> keeps f -> entry_ok (f e) ->
  n = owned_bytes c - entry_bytes e + entry_bytes (f e) -> n <= RESOLVER_CACHE_OWNED_BYTE_LIMIT ->
  cache_ok (with_owned_bytes (entry_set c id f) n).
Proof.
  intros Hok He Hf Hfe Hn Hlim. destruct (entry_split c id e Hok He) as (p & s & Hps & _ & Hset). specialize (Hset f).
  pose proof (owned_bytes_split c p e s Hok Hps) as (Ho & _ & _). destruct (Hf e) as (Hh & Hi & Hk).
  pose proof Hok as [H1 H2 H3 H4 H5 [H6 H6'] H7 H8 H9 H10 H11]. fold (entries c) in *.
  unfold cache_ok. cbn [c_buckets bucket_count entry_count next_entry_id owned_bytes with_owned_bytes].
  fold (entries (entry_set c id f)).
  constructor; fold (entries (entry_set c id f)); rewrite ?Hset, ?Hps in *; rewrite ?fmap_app, ?fmap_cons, ?sumZ_app, ?sumZ_cons, ?Hi, ?Hk in *;
    try done; try (simpl; lia).
  - simpl. rewrite length_map. lia.
  - intros i b e' Hb He'. simpl in Hb. change (map ?g ?l) with (g <$> l) in Hb. rewrite list_lookup_fmap in Hb.
    apply fmap_Some in Hb as (b0 & Hb0 & ->). apply list_elem_of_fmap in He' as (e0 & -> & He0).
    simpl. rewrite (H3 i b0 e0 Hb0 He0). destruct (e_id e0 =? id); [by destruct (Hf e0) as (-> & _)|done].
  - split; [done|]. apply Forall_app in H6' as [Hp Hs]. inversion_clear Hs. apply Forall_app. split; [done|].
    constructor; [by rewrite Hi|done].
  - change (entry_count (entry_set c id f)) with (entry_count c). lens.
  - apply Forall_app in H11 as [Hp Hs]. inversion_clear Hs. apply Forall_app. split; [done|]. by constructor.
Qed.

Lemma entry_get_set c id f id' : keeps f ->
  entry_get (entry_set c id f) id' = (if id' =? id then f <$> entry_get c id' else entry_get c id').
Proof.
  intros Hf. unfold entry_get. rewrite entries_set. induction (entries c) as [|e l IH]; simpl; [by destruct (id' =? id)|].
  destruct (Hf e) as (_ & Hi & _). destruct (e_id e =? id) eqn:E1; [rewrite Hi|].
  - destruct (e_id e =? id') eqn:E2; [by replace (id' =? id) with true by lia|]. apply IH.
  - destruct (e_id e =? id') eqn:E2; [by replace (id' =? id) with false by lia|]. apply IH.
Qed.

Lemma payload_none_ok e : entry_ok e -> entry_ok (with_payload None e).
Proof. intros [H1 H2 H3 H4 H5]. by constructor. Qed.

Lemma clear_spec c id e : cache_ok c -> entry_get c id = Some e ->
  cache_ok (resolver_cache_entry_payload_clear c e) /\
  entries (resolver_cache_entry_payload_clear c e) = entries (entry_set c id (with_payload None)) /\
  owned_bytes (resolver_cache_entry_payload_clear c e) = owned_bytes c - payload_bytes (e_payload e) /\
  metrics (resolver_cache_entry_payload_clear c e) = metrics c /\
  next_entry_id (resolver_cache_entry_payload_clear c e) = next_entry_id c.
Proof.
  intros Hok He. destruct (entry_split c id e Hok He) as (p & s & Hps & _ & Hset).
  destruct (owned_bytes_split c p e s Hok Hps) as (Ho & Hnn & Heok). pose proof (entry_get_Some _ _ _ He) as [_ Hid].
  pose proof (entry_bytes_nonneg e Heok) as Hb. pose proof (to_owned_limit _ _ _ _ _ Hok) as Hlim.
  unfold resolver_cache_entry_payload_clear. destruct (e_payload e) as [pl|] eqn:E; simpl.
  - rewrite Hid. assert (Hpl : p_owned_bytes pl = entry_bytes e - sizeof_resolver_cache_entry) by (unfold entry_bytes; rewrite E; simpl; lia).
    if_as E1; [|unfold base_bytes, sizeof_resolver_cache_entry, sizeof_resolver_cache, RESOLVER_CACHE_ENTRY_LIMIT, sizeof_pointer in *; lia].
    split; [|done]. apply (set_ok c id e); [done|done|auto|by apply payload_none_ok| |].
    + rewrite Hpl. change (entry_bytes (with_payload None e)) with sizeof_resolver_cache_entry. simpl. lia.
    + rewrite Hpl. unfold sizeof_resolver_cache_entry in *. lia.
  - split; [done|]. rewrite Z.sub_0_r. split; [|done]. rewrite Hset, Hps. f_equal. f_equal. destruct e; simpl in *; by subst.
Qed.

(** ** Finding an entry *)

(** The entry of a name and a type among all entries. *)
Definition cache_lookup (c : resolver_cache) (k : bytes * Z) : option resolver_cache_entry :=
  List.find (fun e => bool_decide (key e = k)) (entries c).

Lemma lookup_Some c k e : cache_ok c -> cache_lookup c k = Some e <-> e ∈ entries c /\ key e = k.
Proof.
  intros Hok. unfold cache_lookup. split.
  - intros H. apply find_some in H as [H1 H2]. apply bool_decide_eq_true in H2. split; [by apply list_elem_of_In|done].
  - intros [He Hk]. destruct (List.find _ _) as [e'|] eqn:E.
    + apply find_some in E as [E1 E2]. apply bool_decide_eq_true in E2. f_equal.
      apply (NoDup_fmap_inj_elem key (entries c)); [apply Hok|by apply list_elem_of_In|done|congruence].
    + apply find_none with (x := e) in E; [|by apply list_elem_of_In]. apply bool_decide_eq_false in E. done.
Qed.

Lemma lookup_None c k : cache_lookup c k = None <-> k ∉ (key <$> entries c).
Proof.
  unfold cache_lookup. split.
  - intros H Hk. apply list_elem_of_fmap in Hk as (e & -> & He). apply find_none with (x := e) in H; [|by apply list_elem_of_In].
    apply bool_decide_eq_false in H. done.
  - intros H. destruct (List.find _ _) as [e|] eqn:E; [|done]. apply find_some in E as [E1 E2].
    apply bool_decide_eq_true in E2. exfalso. apply H. rewrite <- E2. apply list_elem_of_fmap_2. by apply list_elem_of_In.
Qed.

Lemma elem_of_buckets {A} (l : list (list A)) x : x ∈ concat l <-> exists i b, l !! i = Some b /\ x ∈ b.
Proof.
  induction l as [|b l IH]; simpl.
  - split; [intros H; inversion H|intros (i & b & H & _); done].
  - rewrite elem_of_app, IH. split.
    + intros [H|(i & b' & H1 & H2)]; [by exists 0%nat, b|by exists (S i), b'].
    + intros ([|i] & b' & H1 & H2); simpl in H1; [simplify_eq; by left|right; eauto].
Qed.

Lemma hash_range name t : 0 <= resolver_cache_hash name t < 2 ^ 64.
Proof. unfold resolver_cache_hash, u64. zlia. Qed.

Lemma hash_bucket c h : cache_ok c -> exists b, c_buckets c !! Z.to_nat (h mod bucket_count c) = Some b.
Proof.
  intros Hok. apply lookup_lt_is_Some. pose proof (to_buckets _ _ _ _ _ Hok). pose proof (to_count _ _ _ _ _ Hok) as Hc.
  unfold RESOLVER_CACHE_ENTRY_LIMIT in Hc. pose proof (Z.mod_pos_bound h (bucket_count c)). lia.
Qed.

(** The search of one bucket finds the entry wherever it could be. *)
Lemma find_complete c name t : cache_ok c ->
  resolver_cache_entry_find c name t (resolver_cache_hash name t) = cache_lookup c (name, t).
Proof.
  intros Hok. unfold resolver_cache_entry_find. destruct (hash_bucket c (resolver_cache_hash name t) Hok) as [b Hb]. rewrite Hb.
  cbn [from_option id]. destruct (List.find _ b) as [e|] eqn:E; symmetry.
  - apply find_some in E as [E1 E2]. apply lookup_Some; [done|]. split.
    + apply elem_of_buckets. exists (Z.to_nat (resolver_cache_hash name t mod bucket_count c)), b. split; [done|by apply list_elem_of_In].
    + apply andb_true_iff in E2 as [E2 E3]. apply bool_decide_eq_true in E3. unfold key. f_equal; [done|lia].
  - apply lookup_None. intros Hk. apply list_elem_of_fmap in Hk as (e & [= -> ->] & He). pose proof He as He'.
    apply elem_of_buckets in He as (i & b' & Hi & He).
    pose proof (to_entries _ _ _ _ _ Hok) as Hall. rewrite Forall_forall in Hall.
    pose proof (eo_hash e (Hall e (proj1 (list_elem_of_In _ _) He'))) as Hh.
    pose proof (to_place _ _ _ _ _ Hok i b' e Hi He) as ->. rewrite Hh, Hb in Hi. simplify_eq.
    apply find_none with (x := e) in E; [|by apply list_elem_of_In]. rewrite bool_decide_eq_true_2 in E by done. lia.
Qed.

(** ** New and freed entries *)

Lemma link_entries c h name t : cache_ok c ->
  Permutation (entries (entry_link c h name t))
    ({| e_hash := h; e_id := next_entry_id c; e_name := name; e_payload := None; e_query_type := t; e_reference_count := 1 |} :: entries c).
Proof.
  intros Hok. unfold entry_link, entries. cbn [c_buckets with_buckets with_entry_count with_owned_bytes with_high_water with_metrics with_next_entry_id].
  set (e := Build_resolver_cache_entry _ _ _ _ _ _). destruct (hash_bucket c h Hok) as [b Hb].
  destruct (concat_alter (cons e) _ _ b Hb) as (p & s & -> & ->). simpl. symmetry. apply Permutation_middle.
Qed.

Lemma link_ok c name t : cache_ok c -> resolver_name_normalize (Some name) = Some name ->
  resolver_cache_query_type_valid t = true -> cache_lookup c (name, t) = None ->
  entry_count c <> RESOLVER_CACHE_ENTRY_LIMIT -> next_entry_id c <> 0 ->
  owned_bytes c <= RESOLVER_CACHE_OWNED_BYTE_LIMIT - sizeof_resolver_cache_entry ->
  cache_ok (entry_link c (resolver_cache_hash name t) name t).
Proof.
  intros Hok Hname Ht Hnone Hcount Hnext Hbytes. pose proof (link_entries c (resolver_cache_hash name t) name t Hok) as Hperm.
  pose proof Hok as [H1 H2 H3 H4 H5 [H6 H6'] H7 H8 H9 H10 H11]. apply lookup_None in Hnone. fold (entries c) in *.
  set (e := Build_resolver_cache_entry _ _ _ _ _ _) in *. set (c' := entry_link _ _ _ _) in *.
  assert (Hid : e_id e ∉ (e_id <$> entries c)).
  { intros Hin. apply list_elem_of_fmap in Hin as (e0 & He0 & Hin). rewrite Forall_forall in H6'.
    destruct (H6' e0 ltac:(by apply list_elem_of_In)) as [_ Hlt]. simpl in He0. lia. }
  assert (Hbuckets : c_buckets c' = alter (cons e) (Z.to_nat (resolver_cache_hash name t mod bucket_count c)) (c_buckets c)) by done.
  unfold cache_ok. constructor; fold (entries c').
  - done.
  - rewrite Hbuckets, length_alter. done.
  - intros i b e' Hb He'. rewrite Hbuckets in Hb. change (bucket_count c') with (bucket_count c).
    destruct (decide (i = Z.to_nat (resolver_cache_hash name t mod bucket_count c))) as [->|Hne].
    + rewrite list_lookup_alter_eq in Hb. apply fmap_Some in Hb as (b0 & Hb0 & ->). apply elem_of_cons in He' as [->|He']; [done|by eapply H3].
    + rewrite list_lookup_alter_ne in Hb by done. by eapply H3.
  - rewrite Hperm, fmap_cons. by apply list.NoDup_cons.
  - rewrite Hperm, fmap_cons. by apply list.NoDup_cons.
  - cbn [next_entry_id c' entry_link with_next_entry_id with_high_water with_metrics with_owned_bytes with_entry_count with_buckets].
    split; [split_ifs; lia|]. rewrite Hperm. constructor; [simpl; split_ifs; lia|]. revert H6'. apply Forall_impl. intros e0. split_ifs; lia.
  - cbn [entry_count c' entry_link with_next_entry_id with_high_water with_metrics with_owned_bytes with_entry_count with_buckets].
    rewrite (Permutation_length Hperm). simpl length. lia.
  - cbn [entry_count c' entry_link with_next_entry_id with_high_water with_metrics with_owned_bytes with_entry_count with_buckets]. lia.
  - rewrite (sumZ_perm _ (entry_bytes <$> e :: entries c)) by by rewrite Hperm. rewrite fmap_cons, sumZ_cons.
    change (entry_bytes e) with sizeof_resolver_cache_entry. change (owned_bytes c') with (owned_bytes c + sizeof_resolver_cache_entry). lia.
  - change (owned_bytes c') with (owned_bytes c + sizeof_resolver_cache_entry). lia.
  - rewrite Hperm. constructor; [|done]. by constructor.
Qed.

Lemma unlink_split id p e s : e_id e = id -> (forall e', e' ∈ p -> e_id e' <> id) -> unlink id (p ++ e :: s) = p ++ s.
Proof.
  intros He. induction p as [|x p IH]; intros Hp; simpl.
  - by replace (e_id e =? id) with true by lia.
  - pose proof (Hp x ltac:(by left)). replace (e_id x =? id) with false by lia. rewrite IH; [done|]. intros e' He'. apply Hp. by right.
Qed.

Lemma entry_set_gone c id f : (forall e, e ∈ entries c -> e_id e <> id) -> entry_set c id f = c.
Proof.
  intros H. unfold entry_set. replace (map _ (c_buckets c)) with (c_buckets c); [by destruct c|].
  symmetry. unfold entries in H. induction (c_buckets c) as [|b l IH]; [done|]. simpl.
  rewrite IH by (intros e He; apply H; simpl; apply elem_of_app; by right). f_equal.
  assert (Hb : forall e, e ∈ b -> e_id e <> id) by (intros e He; apply H; simpl; apply elem_of_app; by left). clear -Hb.
  induction b as [|x b IH]; [done|]. simpl. rewrite IH by (intros e He; apply Hb; by right).
  pose proof (Hb x ltac:(by left)). by replace (e_id x =? id) with false by lia.
Qed.

(** The table without the entry [e]. *)
Definition without (c : resolver_cache) (e : resolver_cache_entry) : resolver_cache :=
  with_entry_count
    (with_owned_bytes
       (with_buckets c (alter (unlink (e_id e)) (Z.to_nat (e_hash e mod bucket_count c)) (c_buckets c)))
       (owned_bytes c - entry_bytes e))
    (entry_count c - 1).

Lemma without_entries c id e : cache_ok c -> entry_get c id = Some e ->
  exists p s, entries c = p ++ e :: s /\ entries (without c e) = p ++ s.
Proof.
  intros Hok He. apply entry_get_Some in He as [He Hid]. pose proof He as Hin. apply elem_of_buckets in Hin as (i & b & Hb & Heb).
  pose proof (to_place _ _ _ _ _ Hok i b e Hb Heb) as ->. apply list_elem_of_split in Heb as (b1 & b2 & ->).
  destruct (concat_alter (unlink (e_id e)) _ _ _ Hb) as (p & s & H1 & H2). exists (p ++ b1), (b2 ++ s).
  pose proof (to_ids _ _ _ _ _ Hok) as Hn. unfold entries at 2, without.
  cbn [c_buckets with_entry_count with_owned_bytes with_buckets]. rewrite H2. unfold entries. rewrite H1 in *.
  split; [by rewrite <- !app_assoc|]. rewrite unlink_split; [by rewrite <- !app_assoc|done|].
  intros e' He' Heq. rewrite !fmap_app, fmap_cons, <- app_assoc in Hn. apply list.NoDup_app in Hn as (_ & _ & Hn).
  apply list.NoDup_app in Hn as (_ & Hn & _). apply (Hn (e_id e')); [by apply list_elem_of_fmap_2|]. rewrite Heq. by left.
Qed.

Lemma without_ok c id e : cache_ok c -> entry_get c id = Some e -> cache_ok (without c e).
Proof.
  intros Hok He. destruct (without_entries c id e Hok He) as (p & s & Hps & Hw).
  pose proof (owned_bytes_split c p e s Hok Hps) as (Ho & Hnn & Heok). pose proof (entry_bytes_nonneg e Heok) as Hb.
  unfold sizeof_resolver_cache_entry in Hb.
  pose proof Hok as [H1 H2 H3 H4 H5 [H6 H6'] H7 H8 H9 H10 H11]. fold (entries c) in *.
  rewrite Hps in *. rewrite ?fmap_app, ?fmap_cons in *.
  unfold cache_ok. constructor; fold (entries (without c e)); rewrite ?Hw, ?fmap_app; try done;
    change (owned_bytes (without c e)) with (owned_bytes c - entry_bytes e); change (entry_count (without c e)) with (entry_count c - 1).
  - simpl. rewrite length_alter. done.
  - intros i b e' Hi He'. simpl in Hi. change (bucket_count (without c e)) with (bucket_count c).
    destruct (decide (i = Z.to_nat (e_hash e mod bucket_count c))) as [->|Hne].
    + rewrite list_lookup_alter_eq in Hi. apply fmap_Some in Hi as (b0 & Hb0 & ->). apply (H3 _ b0); [done|].
      clear -He'. induction b0 as [|x b0 IH]; [done|]. simpl in He'. destruct (e_id x =? e_id e); [by right|].
      apply elem_of_cons in He' as [->|He']; [by left|right; auto].
    + rewrite list_lookup_alter_ne in Hi by done. by eapply H3.
  - rewrite <- Permutation_middle in H4. by apply list.NoDup_cons in H4 as [_ ?].
  - rewrite <- Permutation_middle in H5. by apply list.NoDup_cons in H5 as [_ ?].
  - split; [done|]. apply Forall_app in H6' as [Hp Hs]. inversion_clear Hs. by apply Forall_app.
  - lens.
  - lia.
  - lia.
  - lia.
  - apply Forall_app in H11 as [Hp Hs]. inversion_clear Hs. by apply Forall_app.
Qed.

Lemma entry_get_without c id e id' : cache_ok c -> entry_get c id = Some e ->
  entry_get (without c e) id' = if id' =? id then None else entry_get c id'.
Proof.
  intros Hok He. destruct (without_entries c id e Hok He) as (p & s & Hps & Hw).
  destruct (entry_split c id e Hok He) as (p' & s' & _ & _ & _).
  unfold entry_get. rewrite Hw, Hps. pose proof (entry_get_Some _ _ _ He) as [_ Hid].
  pose proof (to_ids _ _ _ _ _ Hok) as Hn. fold (entries c) in Hn. rewrite Hps, fmap_app, fmap_cons, <- Permutation_middle in Hn.
  apply list.NoDup_cons in Hn as [Hn _]. destruct (id' =? id) eqn:E.
  - destruct (List.find _ (p ++ s)) as [e'|] eqn:F; [|done]. apply find_some in F as [F1 F2]. exfalso. apply Hn.
    rewrite <- fmap_app. apply list_elem_of_fmap_2'  with (x := e'); [by apply list_elem_of_In|lia].
  - clear -E Hid. induction p as [|x p IH]; simpl; [by replace (e_id e =? id') with false by lia|]. by destruct (e_id x =? id').
Qed.

Lemma release_last c id e : cache_ok c -> entry_get c id = Some e -> e_reference_count e = 1 ->
  resolver_cache_entry_release c (Some id) = Some (without c e).
Proof.
  intros Hok He Href. unfold resolver_cache_entry_release. rewrite He. cbn [mbind option_bind]. rewrite Href. simpl.
  pose proof (entry_get_Some _ _ _ He) as [Hin Hid]. destruct (without_entries c id e Hok He) as (p & s & Hps & Hw).
  destruct (owned_bytes_split c p e s Hok Hps) as (Ho & Hnn & Heok). pose proof (entry_bytes_nonneg e Heok) as Hb.
  assert (Hgone : forall e', e' ∈ entries (without c e) -> e_id e' <> id).
  { intros e' He' Heq. pose proof (entry_get_without c id e (e_id e') Hok He) as Hg. rewrite Heq, Z.eqb_refl in Hg.
    rewrite <- Heq, (entry_get_elem _ _ (without_ok c id e Hok He) He') in Hg. done. }
  pose proof (to_entry_count _ _ _ _ _ Hok) as Hc. fold (entries c) in Hc. rewrite Hps in Hc.
  unfold without. rewrite Hid. unfold resolver_cache_entry_payload_clear, entry_bytes in *. unfold base_bytes in Ho.
  set (c1 := with_buckets c _).
  assert (Hset : forall f, entry_set c1 id f = c1) by (intros f; apply entry_set_gone; intros e' He'; apply Hgone; unfold without; by rewrite Hid).
  destruct (e_payload e) as [pl|] eqn:E; simpl in *; rewrite ?Hid, ?Hset; simpl.
  - unfold sizeof_resolver_cache, sizeof_resolver_cache_entry, RESOLVER_CACHE_ENTRY_LIMIT, sizeof_pointer in *.
    f_equal. if_as E1; [|lia]. if_as E2; [|lia]. if_as E3; [|lens]. unfold with_entry_count, with_owned_bytes. simpl. f_equal. lia.
  - unfold sizeof_resolver_cache, sizeof_resolver_cache_entry, RESOLVER_CACHE_ENTRY_LIMIT, sizeof_pointer in *.
    f_equal. if_as E2; [|lia]. if_as E3; [|lens]. unfold with_entry_count, with_owned_bytes. simpl. f_equal; lia.
Qed.

(** ** Results of the validations *)

(** The 32-bit fields of a result are in range. *)
Definition typed_ttl (z : Z) : Prop := 0 <= z <= UINT32_MAX.
Definition typed_address_result (r : dns_address_result) : Prop :=
  Forall (fun a => typed_ttl (a_effective_ttl a)) (default [] (ar_addresses r)) /\ typed_ttl (n_effective_ttl (ar_negative r)).
Definition typed_srv_result (r : dns_srv_result) : Prop :=
  Forall (fun a => typed_ttl (r_effective_ttl a)) (default [] (sr_records r)) /\ typed_ttl (n_effective_ttl (sr_negative r)).

(** The loop computes the least of the effective TTLs. *)
Lemma least_ttl_spec {A} (P : A -> bool) (ttl : A -> Z) start l n : least_ttl P ttl start l = Some n ->
  Forall (fun a => P a = true) l /\ n = foldr Z.min start (ttl <$> l).
Proof.
  revert start. induction l as [|a l IH]; intros start; simpl; [intros [= ->]; by split|].
  destruct (P a) eqn:E; [|done]. simpl. intros H. apply IH in H as [H1 H2]. split; [by constructor|].
  assert (Hmin : forall x y k, foldr Z.min (Z.min x y) k = Z.min x (foldr Z.min y k)).
  { clear. intros x y k. induction k as [|z k IH]; simpl; [done|]. rewrite IH. lia. }
  rewrite H2. change ((fix fold (l : list Z) : Z := match l with [] => start | b :: t => Z.min b (fold t) end)) with (foldr Z.min start).
  destruct (ttl a <? start) eqn:F.
  - rewrite <- Hmin. f_equal. lia.
  - rewrite <- Hmin. f_equal. lia.
Qed.

Lemma foldr_min_typed l : Forall typed_ttl l -> typed_ttl (foldr Z.min UINT32_MAX l).
Proof. unfold typed_ttl, UINT32_MAX. induction 1; simpl; lia. Qed.

(** How long a result lives, by its outcome, and the status of its views. *)
Definition lifetime (s : dns_lookup_status) (ttls : list Z) (negative : dns_negative_record) : Z :=
  match s with DNS_LOOKUP_OK => foldr Z.min UINT32_MAX ttls | _ => n_effective_ttl negative end.
Definition viewed_status (s : dns_lookup_status) : option resolver_cache_view_status :=
  match s with
  | DNS_LOOKUP_OK => Some RESOLVER_CACHE_VIEW_FRESH_POSITIVE
  | DNS_LOOKUP_NODATA => Some RESOLVER_CACHE_VIEW_FRESH_NODATA
  | DNS_LOOKUP_NOT_FOUND => Some RESOLVER_CACHE_VIEW_FRESH_NXDOMAIN
  | _ => None
  end.

Lemma negative_outcome_spec s rc n z v : typed_ttl (n_effective_ttl n) -> resolver_cache_negative_valid n = true -> negative_outcome s rc n = Some (z, v) ->
  typed_ttl z /\ v <> RESOLVER_CACHE_VIEW_EMPTY /\ viewed_status s = Some v /\ z = n_effective_ttl n.
Proof.
  intros Hn Hv. assert (Hz : (if n_valid n then n_effective_ttl n else 0) = n_effective_ttl n).
  { unfold resolver_cache_negative_valid in Hv. destruct (n_valid n); [done|]. cbn [negb] in Hv. lia. }
  unfold negative_outcome. rewrite Hz. by destruct s; try done; destruct (negb _); try done; intros [= <- <-].
Qed.

Lemma address_validate_spec e s r z v : typed_address_result r ->
  resolver_cache_address_result_validate e s r = Some (z, v) ->
  typed_ttl z /\ v <> RESOLVER_CACHE_VIEW_EMPTY /\ (e_query_type e = ns_t_a \/ e_query_type e = ns_t_aaaa) /\
  viewed_status s = Some v /\ z = lifetime s (a_effective_ttl <$> default [] (ar_addresses r)) (ar_negative r).
Proof.
  intros [Ht Hn]. unfold resolver_cache_address_result_validate. if_as E0; [done|].
  assert (Hq : e_query_type e = ns_t_a \/ e_query_type e = ns_t_aaaa) by (destruct (e_query_type e =? ns_t_a) eqn:?, (e_query_type e =? ns_t_aaaa) eqn:?; [lia..|done]).
  destruct (decide (s = DNS_LOOKUP_OK)) as [->|Hs].
  - if_as E1; [done|]. destruct (least_ttl _ _ _ _) as [n|] eqn:E2; [|done]. simpl. intros [= <- <-].
    apply least_ttl_spec in E2 as [_ ->]. split; [apply foldr_min_typed; by apply Forall_fmap|]. done.
  - intros H. destruct (bool_decide (ar_addresses r = None)) eqn:E1.
    + assert (H' : negative_outcome s (ar_rcode r) (ar_negative r) = Some (z, v)) by (by destruct s).
      apply negative_outcome_spec in H' as (H1 & H2 & H3 & H4); [by destruct s|done|]. by destruct (resolver_cache_negative_valid (ar_negative r)); [|rewrite orb_true_r in E0].
    + by destruct s.
Qed.

Lemma srv_validate_spec e s r z v : typed_srv_result r ->
  resolver_cache_srv_result_validate e s r = Some (z, v) ->
  typed_ttl z /\ v <> RESOLVER_CACHE_VIEW_EMPTY /\ e_query_type e = ns_t_srv /\
  viewed_status s = Some v /\ z = lifetime s (r_effective_ttl <$> default [] (sr_records r)) (sr_negative r).
Proof.
  intros [Ht Hn]. unfold resolver_cache_srv_result_validate. if_as E0; [done|].
  assert (Hq : e_query_type e = ns_t_srv) by (destruct (e_query_type e =? ns_t_srv) eqn:?; [lia|done]).
  destruct (decide (s = DNS_LOOKUP_OK)) as [->|Hs].
  - if_as E1; [done|]. destruct (least_ttl _ _ _ _) as [n|] eqn:E2; [|done]. simpl. intros [= <- <-].
    apply least_ttl_spec in E2 as [_ ->]. split; [apply foldr_min_typed; by apply Forall_fmap|]. done.
  - intros H. destruct (bool_decide (sr_records r = None)) eqn:E1.
    + assert (H' : negative_outcome s (sr_rcode r) (sr_negative r) = Some (z, v)) by (by destruct s).
      apply negative_outcome_spec in H' as (H1 & H2 & H3 & H4); [by destruct s|done|]. by destruct (resolver_cache_negative_valid (sr_negative r)); [|rewrite orb_true_r in E0].
    + by destruct s.
Qed.

Lemma result_size_nonneg n k cn z : 0 <= n -> 0 <= k -> result_size n k cn = Some z -> 0 <= z.
Proof.
  intros Hn Hk. unfold result_size, resolver_size_multiply, resolver_size_add, sizeof_resolver_cache_payload, DNS_CNAME_DEPTH_LIMIT, sizeof_dns_cname_record.
  destruct (negb (n =? 0) && _); cbn [mbind option_bind]; [done|]. destruct (SIZE_MAX - n * k <? 3184); cbn [mbind option_bind]; [done|].
  destruct cn; [|intros [= <-]; nia]. destruct (_ && _); cbn [mbind option_bind]; [done|].
  destruct (_ <? _); [done|]. intros [= <-]. nia.
Qed.

Lemma expiry_spec t n : valid t -> typed_ttl n ->
  resolver_cache_expiry_calculate t n =
  if 2 ^ 63 <=? tv_sec t + n then None else Some {| tv_sec := tv_sec t + n; tv_nsec := tv_nsec t |}.
Proof.
  intros Hv Hn. rewrite <- add_seconds_spec; [|done|unfold typed_ttl, UINT32_MAX in Hn; lia].
  unfold resolver_cache_expiry_calculate, timeutil_add_seconds. destruct Hv as [-> _]. cbn [negb orb]. done.
Qed.

(** ** Every operation keeps the invariant *)

Lemma empty_ok n : Z.of_nat n = RESOLVER_CACHE_ENTRY_LIMIT ->
  table_ok (replicate n []) RESOLVER_CACHE_ENTRY_LIMIT 0 1 base_bytes.
Proof.
  intros Hn. assert (Hempty : forall n, concat (replicate n (@nil resolver_cache_entry)) = []) by (intros k; by induction k).
  constructor; rewrite ?Hempty; try done.
  - by rewrite length_replicate.
  - intros i b e Hb He. apply lookup_replicate in Hb as [-> _]. inversion He.
  - constructor.
  - constructor.
Qed.

Lemma create_ok c : resolver_cache_create true true = Some c -> cache_ok c.
Proof.
  unfold resolver_cache_create. if_as E1; [done|].
  change (resolver_size_multiply RESOLVER_CACHE_ENTRY_LIMIT sizeof_pointer) with (Some (RESOLVER_CACHE_ENTRY_LIMIT * sizeof_pointer)).
  cbn [mbind option_bind negb orb]. if_as E2; [done|].
  generalize (empty_ok (Z.to_nat RESOLVER_CACHE_ENTRY_LIMIT) eq_refl). generalize (Z.to_nat RESOLVER_CACHE_ENTRY_LIMIT).
  intros n Hn H. by injection H as <-.
Qed.

Lemma retain_spec c id e : cache_ok c -> entry_get c id = Some e -> e_reference_count e <> SIZE_MAX ->
  cache_ok (entry_set c id (with_reference_count (e_reference_count e + 1))).
Proof.
  intros Hok He Hm. change (cache_ok (with_owned_bytes (entry_set c id (with_reference_count (e_reference_count e + 1))) (owned_bytes c))).
  destruct (entry_split c id e Hok He) as (p & s & Hps & _ & _). destruct (owned_bytes_split c p e s Hok Hps) as (_ & _ & [H1 H2 H3 H4 H5]).
  apply (set_ok c id e); [done|done|auto|constructor; try done; simpl; lia| |apply (to_owned_limit _ _ _ _ _ Hok)].
  change (entry_bytes (with_reference_count _ e)) with (entry_bytes e). lia.
Qed.

Lemma retain_ok c id c' b : cache_ok c -> resolver_cache_entry_retain c id = Some (c', b) -> cache_ok c'.
Proof.
  intros Hok. unfold resolver_cache_entry_retain. destruct id as [id|]; [|by intros [= <- <-]].
  destruct (entry_get c id) as [e|] eqn:He; [|done]. cbn [mbind option_bind].
  destruct (_ =? SIZE_MAX) eqn:E; intros [= <- <-]; [done|]. apply retain_spec; [done|done|lia].
Qed.

Lemma release_ok c id c' : cache_ok c -> resolver_cache_entry_release c id = Some c' -> cache_ok c'.
Proof.
  intros Hok. destruct id as [id|]; [|by intros [= <-]]. destruct (entry_get c id) as [e|] eqn:He.
  2:{ unfold resolver_cache_entry_release. by rewrite He. }
  destruct (entry_split c id e Hok He) as (p & s & Hps & _ & _). destruct (owned_bytes_split c p e s Hok Hps) as (_ & _ & Heok).
  pose proof (eo_refs e Heok) as Hr. destruct (decide (e_reference_count e = 1)) as [H1|H1].
  - rewrite (release_last c id e) by done. intros [= <-]. by eapply without_ok.
  - unfold resolver_cache_entry_release. rewrite He. cbn [mbind option_bind]. replace (e_reference_count e =? 0) with false by lia.
    replace (e_reference_count e - 1 =? 0) with false by lia. intros [= <-].
    change (cache_ok (with_owned_bytes (entry_set c id (with_reference_count (e_reference_count e - 1))) (owned_bytes c))).
    destruct Heok as [G1 G2 G3 G4 G5].
    apply (set_ok c id e); [done|done|auto|constructor; try done; simpl; lia| |apply (to_owned_limit _ _ _ _ _ Hok)].
    change (entry_bytes (with_reference_count _ e)) with (entry_bytes e). lia.
Qed.

Ltac framed := repeat match goal with
  | |- context [resolver_cache_metrics_increment ?c ?q ?k] => let m := fresh "m" in destruct (increment_frame c q k) as [m ->]
  | |- context [resolver_cache_metrics_publication_record ?c ?q ?k] => let m := fresh "m" in destruct (publication_frame c q k) as [m ->]
  | |- context [resolver_cache_metrics_value_record ?c ?q ?s ?t] => let m := fresh "m" in destruct (value_frame c q s t) as [m ->]
  end.

(** The entries after an operation, whatever it counted. *)
Definition same_table (c c' : resolver_cache) : Prop := exists m, c' = with_metrics c m.

Lemma same_table_refl c : same_table c c.
Proof. exists (metrics c). by destruct c. Qed.

Lemma payload_room c id e : cache_ok c -> entry_get c id = Some e ->
  entry_ok e /\ 0 <= payload_bytes (e_payload e) <= owned_bytes c /\ 0 <= owned_bytes c <= RESOLVER_CACHE_OWNED_BYTE_LIMIT.
Proof.
  intros Hok He. destruct (entry_split c id e Hok He) as (p & s & Hps & _ & _).
  destruct (owned_bytes_split c p e s Hok Hps) as (Ho & Hnn & Heok). pose proof (entry_bytes_nonneg e Heok) as Hb.
  pose proof (to_owned_limit _ _ _ _ _ Hok). assert (0 <= base_bytes) by done. unfold sizeof_resolver_cache_entry in *.
  assert (entry_bytes e = 1088 + payload_bytes (e_payload e)) by done. split; [done|]. lia.
Qed.

(** Replacing the payload of an entry. *)
Lemma store_spec c id e pl : cache_ok c -> entry_get c id = Some e -> payload_ok (e_query_type e) pl ->
  p_owned_bytes pl <= RESOLVER_CACHE_OWNED_BYTE_LIMIT - (owned_bytes c - payload_bytes (e_payload e)) ->
  let c1 := resolver_cache_entry_payload_clear c e in
  let c2 := entry_set c1 id (with_payload (Some pl)) in
  cache_ok (with_owned_bytes c2 (u64 (owned_bytes c2 + p_owned_bytes pl))) /\
  entries c2 = entries (entry_set c id (with_payload (Some pl))) /\ next_entry_id c2 = next_entry_id c.
Proof.
  intros Hok He Hpl Hroom c1 c2. destruct (clear_spec c id e Hok He) as (Hok1 & Hent1 & Hown1 & _ & Hnext1). fold c1 in Hok1, Hent1, Hown1, Hnext1.
  destruct (payload_room c id e Hok He) as (Heok & Hold & Hlim). pose proof (po_bytes _ _ Hpl) as Hsize.
  assert (Hget1 : entry_get c1 id = Some (with_payload None e)).
  { unfold entry_get. rewrite Hent1. fold (entry_get (entry_set c id (with_payload None)) id). rewrite entry_get_set by auto.
    by rewrite Z.eqb_refl, He. }
  unfold c2. change (owned_bytes (entry_set c1 id (with_payload (Some pl)))) with (owned_bytes c1).
  unfold RESOLVER_CACHE_OWNED_BYTE_LIMIT in *. rewrite Hown1, u64_id by lia. split; [|split; [|done]].
  - apply (set_ok c1 id _ _ _ Hok1 Hget1); [auto| | |unfold RESOLVER_CACHE_OWNED_BYTE_LIMIT; lia].
    + destruct Heok as [G1 G2 G3 G4 G5]. constructor; try done. simpl. by intros p0 [= <-].
    + rewrite Hown1. unfold entry_bytes, sizeof_resolver_cache_entry. simpl. lia.
  - rewrite !entries_set, Hent1, entries_set, map_map. apply map_ext. intros e0. destruct (e_id e0 =? id) eqn:E; simpl; by rewrite E.
Qed.

(** What a publication does to the table, by its status. *)
Lemma payload_publish_spec c id e v t n size r alloc c' status : cache_ok c -> entry_get c id = Some e ->
  tv_sec t < 2 ^ 63 -> typed_ttl n -> 0 <= size -> v <> RESOLVER_CACHE_VIEW_EMPTY ->
  match r with
  | RESOLVER_CACHE_PAYLOAD_ADDRESS _ => e_query_type e = ns_t_a \/ e_query_type e = ns_t_aaaa
  | RESOLVER_CACHE_PAYLOAD_SRV _ => e_query_type e = ns_t_srv
  end ->
  resolver_cache_entry_payload_publish c e v t n size r alloc = (c', status) ->
  cache_ok c' /\ next_entry_id c' = next_entry_id c /\
  match status with
  | RESOLVER_CACHE_PUBLISH_STORED =>
      valid t /\ 0 < n /\ tv_sec t + n < 2 ^ 63 /\
      entries c' = entries (entry_set c id (with_payload (Some
        {| p_completed_at := t; p_expires_at := {| tv_sec := tv_sec t + n; tv_nsec := tv_nsec t |};
           p_owned_bytes := size; p_result := r; p_status := v |})))
  | RESOLVER_CACHE_PUBLISH_TRANSIENT => n = 0 /\ entries c' = entries (entry_set c id (with_payload None))
  | _ => same_table c c'
  end.
Proof.
  intros Hok He Hsec Hn Hsize Hv Hr. unfold resolver_cache_entry_payload_publish.
  if_as E1; [intros [= <- <-]; split; [done|]; split; [done|apply same_table_refl]|].
  assert (Ht : valid t) by (split; [by destruct (timeutil_valid (Some t))|done]).
  if_as E2; [framed; intros [= <- <-]; split; [done|]; split; [done|by eexists]|].
  destruct (clear_spec c id e Hok He) as (Hok1 & Hent1 & Hown1 & _ & Hnext1).
  if_as E3; [intros [= <- <-]; split; [done|]; split; [done|]; split; [lia|done]|].
  rewrite expiry_spec by done. destruct (2 ^ 63 <=? tv_sec t + n) eqn:E4;
    [intros [= <- <-]; split; [done|]; split; [done|apply same_table_refl]|].
  if_as E5; [framed; intros [= <- <-]; split; [done|]; split; [done|by eexists]|].
  destruct alloc; cbn [negb]; [|intros [= <- <-]; split; [done|]; split; [done|apply same_table_refl]].
  intros [= <- <-]. set (pl := Build_resolver_cache_payload _ _ _ _ _). pose proof (entry_get_Some _ _ _ He) as [_ ->].
  destruct (payload_room c id e Hok He) as (_ & Hold & Hlim). fold (payload_bytes (e_payload e)) in E5.
  unfold RESOLVER_CACHE_OWNED_BYTE_LIMIT in Hlim. rewrite u64_id in E5 by lia. apply valid_spec in Ht as Hts. unfold typed_ttl in Hn.
  destruct (store_spec c id e pl Hok He) as (Hok2 & Hent2 & Hnext2); [|simpl; lia|].
  - constructor; simpl; [lia|done|apply valid_spec; simpl; lia|unfold ns; simpl; lia|done|done].
  - split; [exact Hok2|]. split; [exact Hnext2|]. split; [done|]. split; [lia|]. split; [lia|]. exact Hent2.
Qed.

(** What the table is after a publication with this status. *)
Definition published (c : resolver_cache) (id : Z) (t : timespec) (r : resolver_cache_result)
    (validated : option (Z * resolver_cache_view_status)) (c' : resolver_cache) (status : resolver_cache_publish_status) : Prop :=
  match status with
  | RESOLVER_CACHE_PUBLISH_STORED =>
      exists n v size, validated = Some (n, v) /\ valid t /\ 0 < n /\ tv_sec t + n < 2 ^ 63 /\
      entries c' = entries (entry_set c id (with_payload (Some
        {| p_completed_at := t; p_expires_at := {| tv_sec := tv_sec t + n; tv_nsec := tv_nsec t |};
           p_owned_bytes := size; p_result := r; p_status := v |})))
  | RESOLVER_CACHE_PUBLISH_TRANSIENT =>
      (exists v, validated = Some (0, v)) /\ entries c' = entries (entry_set c id (with_payload None))
  | _ => same_table c c'
  end.

Lemma publish_validated_spec c id e validated size t r alloc c' status : cache_ok c -> entry_get c id = Some e ->
  tv_sec t < 2 ^ 63 -> (forall z, size = Some z -> 0 <= z) ->
  (forall n v, validated = Some (n, v) -> typed_ttl n /\ v <> RESOLVER_CACHE_VIEW_EMPTY /\
     match r with
     | RESOLVER_CACHE_PAYLOAD_ADDRESS _ => e_query_type e = ns_t_a \/ e_query_type e = ns_t_aaaa
     | RESOLVER_CACHE_PAYLOAD_SRV _ => e_query_type e = ns_t_srv
     end) ->
  publish_validated c e validated size t r alloc = (c', status) ->
  cache_ok c' /\ published c id t r validated c' status.
Proof.
  intros Hok He Hsec Hsize Hval. unfold publish_validated. destruct validated as [[n v]|].
  2:{ framed. intros [= <- <-]. split; [done|]. by eexists. }
  destruct (Hval n v eq_refl) as (Hn & Hv & Hr). destruct size as [z|].
  2:{ framed. intros [= <- <-]. split; [done|]. by eexists. }
  framed. destruct (resolver_cache_entry_payload_publish _ _ _ _ _ _ _ _) as [c2 st] eqn:E. framed. intros [= <- <-].
  apply (payload_publish_spec _ id) in E as (Hok2 & _ & Hst); [|exact Hok|exact He|done|done|by apply Hsize|done|done].
  split; [exact Hok2|]. destruct st; try (destruct Hst as [m2 ->]; by eexists).
  - destruct Hst as (Ht & Hn0 & Hs & Hent). by exists n, v, z.
  - destruct Hst as [-> Hent]. split; [by exists v|exact Hent].
Qed.

Lemma publish_address_spec c id s t r alloc c' status r' : cache_ok c -> tv_sec t < 2 ^ 63 -> typed_address_result r ->
  resolver_cache_entry_publish_address c (Some id) s (Some t) (Some r) alloc = Some (c', status, r') ->
  exists e, entry_get c id = Some e /\ cache_ok c' /\
    published c id t (RESOLVER_CACHE_PAYLOAD_ADDRESS r) (resolver_cache_address_result_validate e s r) c' status /\
    r' = Some (if moved status then dns_address_result_zero else r).
Proof.
  intros Hok Hsec Hr. unfold resolver_cache_entry_publish_address. destruct (entry_get c id) as [e|] eqn:He; [|done].
  cbn [mbind option_bind]. destruct (publish_validated _ _ _ _ _ _ _) as [c2 st] eqn:E. intros [= <- <- <-].
  apply (publish_validated_spec _ id) in E as [H1 H2]; try done; [by exists e| |].
  - intros z Hz. unfold resolver_cache_address_result_size in Hz. apply result_size_nonneg in Hz; [done|unfold count_of; lia|done].
  - intros n v Hv. by apply address_validate_spec in Hv as (G1 & G2 & G3 & _).
Qed.

Lemma publish_srv_spec c id s t r alloc c' status r' : cache_ok c -> tv_sec t < 2 ^ 63 -> typed_srv_result r ->
  resolver_cache_entry_publish_srv c (Some id) s (Some t) (Some r) alloc = Some (c', status, r') ->
  exists e, entry_get c id = Some e /\ cache_ok c' /\
    published c id t (RESOLVER_CACHE_PAYLOAD_SRV r) (resolver_cache_srv_result_validate e s r) c' status /\
    r' = Some (if moved status then dns_srv_result_zero else r).
Proof.
  intros Hok Hsec Hr. unfold resolver_cache_entry_publish_srv. destruct (entry_get c id) as [e|] eqn:He; [|done].
  cbn [mbind option_bind]. destruct (publish_validated _ _ _ _ _ _ _) as [c2 st] eqn:E. intros [= <- <- <-].
  apply (publish_validated_spec _ id) in E as [H1 H2]; try done; [by exists e| |].
  - intros z Hz. unfold resolver_cache_srv_result_size in Hz. apply result_size_nonneg in Hz; [done|unfold count_of; lia|done].
  - intros n v Hv. by apply srv_validate_spec in Hv as (G1 & G2 & G3 & _).
Qed.

(** The view of a payload. *)
Definition view_of (p : resolver_cache_payload) : resolver_cache_view :=
  {| v_addresses := match p_result p with RESOLVER_CACHE_PAYLOAD_ADDRESS r => ar_addresses r | _ => None end;
     v_completed_at := p_completed_at p; v_expires_at := p_expires_at p;
     v_srv_records := match p_result p with RESOLVER_CACHE_PAYLOAD_SRV r => sr_records r | _ => None end;
     v_status := p_status p |}.

(** A view shows the payload before its expiry, and from then on drops it. *)
Lemma view_spec c id e now : cache_ok c -> entry_get c id = Some e -> valid now ->
  exists c', cache_ok c' /\
  match e_payload e with
  | Some p =>
      if ns now <? ns (p_expires_at p)
      then resolver_cache_entry_view c (Some id) (Some now) = Some (c, Some (view_of p)) /\ c' = c
      else resolver_cache_entry_view c (Some id) (Some now) = Some (c', Some resolver_cache_view_zero) /\
           entries c' = entries (entry_set c id (with_payload None))
  | None => resolver_cache_entry_view c (Some id) (Some now) = Some (c, Some resolver_cache_view_zero) /\ c' = c
  end.
Proof.
  intros Hok He Hnow. unfold resolver_cache_entry_view. rewrite He. cbn [mbind option_bind]. destruct Hnow as [Hn Hn'].
  rewrite Hn. cbn [negb]. destruct (payload_room c id e Hok He) as (Heok & _ & _).
  destruct (e_payload e) as [p|] eqn:Ep; [|by exists c]. pose proof (eo_payload e Heok p Ep) as Hp.
  rewrite timeutil_compare_ns; [|done|apply Hp].
  destruct (Z.compare_spec (ns now) (ns (p_expires_at p))) as [H|H|H].
  - replace (ns now <? ns (p_expires_at p)) with false by lia. framed. simpl.
    destruct (clear_spec (with_metrics c m) id e Hok He) as (H1 & H2 & _). eexists. split; [exact H1|]. done.
  - replace (ns now <? ns (p_expires_at p)) with true by lia. simpl. by exists c.
  - replace (ns now <? ns (p_expires_at p)) with false by lia. framed. simpl.
    destruct (clear_spec (with_metrics c m) id e Hok He) as (H1 & H2 & _). eexists. split; [exact H1|]. done.
Qed.

(** What an acquisition does. *)
Lemma acquire_spec c name t alloc : cache_ok c ->
  exists c' r s, resolver_cache_entry_acquire c name t alloc = Some (c', r, s) /\ cache_ok c' /\
  match s with
  | RESOLVER_CACHE_ACQUIRE_OK =>
      exists n, resolver_name_normalize name = Some n /\ resolver_cache_query_type_valid t = true /\
      match cache_lookup c (n, t) with
      | Some e => r = Some (e_id e) /\ entries c' = entries (entry_set c (e_id e) (with_reference_count (e_reference_count e + 1)))
      | None => r = Some (next_entry_id c) /\
          Permutation (entries c')
            ({| e_hash := resolver_cache_hash n t; e_id := next_entry_id c; e_name := n; e_payload := None; e_query_type := t;
                e_reference_count := 1 |} :: entries c)
      end
  | _ => r = None /\ same_table c c'
  end.
Proof.
  intros Hok. unfold resolver_cache_entry_acquire. destruct (resolver_cache_query_type_valid t) eqn:Et.
  2:{ framed. do 3 eexists. split; [done|]. split; [exact Hok|]. split; [done|by eexists]. }
  destruct (resolver_name_normalize name) as [n|] eqn:En.
  2:{ framed. do 3 eexists. split; [done|]. split; [exact Hok|]. split; [done|by eexists]. }
  rewrite find_complete by done. destruct (cache_lookup c (n, t)) as [e|] eqn:El.
  - pose proof (proj1 (lookup_Some c (n, t) e Hok) El) as [He Hk]. pose proof (entry_get_elem c e Hok He) as Hget.
    unfold resolver_cache_entry_retain. rewrite Hget. cbn [mbind option_bind]. destruct (_ =? SIZE_MAX) eqn:E.
    + framed. do 3 eexists. split; [done|]. split; [exact Hok|]. split; [done|by eexists].
    + framed. do 3 eexists. split; [done|]. split; [apply (retain_spec c (e_id e) e); [done|done|lia]|]. exists n. by rewrite El.
  - repeat match goal with |- context [if ?b then Some _ else _] => destruct b eqn:?; [framed; do 3 eexists; split; [done|]; split; [exact Hok|]; split; [done|by eexists]|] end.
    framed. do 3 eexists. split; [done|]. split.
    + apply link_ok; try done; [by eapply normalize_idem|lia|lia|lia].
    + exists n. split; [done|]. split; [done|]. rewrite El. split; [done|]. by apply link_entries.
Qed.

(** ** Properties *)

(** The caches a listener can have: a new one, changed by the operations with
    well-typed arguments. *)
Inductive reachable : resolver_cache -> Prop :=
  | Reach_create c : resolver_cache_create true true = Some c -> reachable c
  | Reach_acquire c name t alloc c' r s : reachable c ->
      resolver_cache_entry_acquire c name t alloc = Some (c', r, s) -> reachable c'
  | Reach_retain c id c' b : reachable c -> resolver_cache_entry_retain c id = Some (c', b) -> reachable c'
  | Reach_release c id c' : reachable c -> resolver_cache_entry_release c id = Some c' -> reachable c'
  | Reach_address c id s t r alloc c' st r' : reachable c -> tv_sec t < 2 ^ 63 -> typed_address_result r ->
      resolver_cache_entry_publish_address c (Some id) s (Some t) (Some r) alloc = Some (c', st, r') -> reachable c'
  | Reach_srv c id s t r alloc c' st r' : reachable c -> tv_sec t < 2 ^ 63 -> typed_srv_result r ->
      resolver_cache_entry_publish_srv c (Some id) s (Some t) (Some r) alloc = Some (c', st, r') -> reachable c'
  | Reach_view c id now c' v : reachable c -> valid now ->
      resolver_cache_entry_view c (Some id) (Some now) = Some (c', v) -> reachable c'.

Lemma reachable_ok c : reachable c -> cache_ok c.
Proof.
  induction 1 as [c H|c name t alloc c' r s _ IH H|c id c' b _ IH H|c id c' _ IH H
    |c id s t r alloc c' st r' _ IH Ht Hr H|c id s t r alloc c' st r' _ IH Ht Hr H|c id now c' v _ IH Hn H].
  - by apply create_ok.
  - destruct (acquire_spec c name t alloc IH) as (c2 & r2 & s2 & H2 & Hok & _). rewrite H2 in H. by simplify_eq.
  - by eapply retain_ok.
  - by eapply release_ok.
  - by destruct (publish_address_spec _ _ _ _ _ _ _ _ _ IH Ht Hr H) as (e & _ & Hok & _).
  - by destruct (publish_srv_spec _ _ _ _ _ _ _ _ _ IH Ht Hr H) as (e & _ & Hok & _).
  - destruct (entry_get c id) as [e|] eqn:He; [|unfold resolver_cache_entry_view in H; by rewrite He in H].
    destruct (view_spec c id e now IH He Hn) as (c2 & Hok & Hv).
    destruct (e_payload e) as [p|]; [destruct (ns now <? _)|]; destruct Hv as [Hv Hc]; rewrite Hv in H; by simplify_eq.
Qed.

(** C17: in every cache the operations can reach, the table is well formed: each
    entry is in the bucket of its hash, no two entries share an identifier or
    a name and type, the entry count and the owned bytes are exactly those of
    the entries and payloads present and within their limits of 16384 entries
    and 64 MiB, every entry is referenced, and every payload is at most 256
    KiB, fits its query type and expires after it was completed; and no
    acquisition uses a freed entry. *)
Theorem cache_well_formed c : reachable c ->
  cache_ok c /\ forall name t alloc, resolver_cache_entry_acquire c name t alloc <> None.
Proof.
  intros H. apply reachable_ok in H. split; [done|]. intros name t alloc.
  destruct (acquire_spec c name t alloc H) as (c' & r & s & -> & _). done.
Qed.

(** The number of references the callers hold to the entry of a key. *)
Definition references (c : resolver_cache) (k : bytes * Z) : Z :=
  match cache_lookup c k with Some e => e_reference_count e | None => 0 end.

Lemma lookup_set c id f k : keeps f ->
  cache_lookup (entry_set c id f) k = (fun e => if e_id e =? id then f e else e) <$> cache_lookup c k.
Proof.
  intros Hf. unfold cache_lookup. rewrite entries_set. induction (entries c) as [|e l IH]; simpl; [done|].
  assert (Hk : key (if e_id e =? id then f e else e) = key e) by (destruct (e_id e =? id); [apply Hf|done]).
  rewrite Hk. by destruct (bool_decide _).
Qed.

Lemma lookup_ext c c' k : cache_ok c -> cache_ok c' ->
  (forall e, key e = k -> e ∈ entries c <-> e ∈ entries c') -> cache_lookup c k = cache_lookup c' k.
Proof.
  intros Hok Hok' H. destruct (cache_lookup c k) as [e|] eqn:E.
  - apply lookup_Some in E as [E1 E2]; [|done]. symmetry. apply lookup_Some; [done|]. split; [by apply H|done].
  - destruct (cache_lookup c' k) as [e|] eqn:E'; [|done]. apply lookup_Some in E' as [E1 E2]; [|done]. apply H in E1; [|done].
    rewrite (proj2 (lookup_Some c k e Hok)) in E by done. done.
Qed.

Lemma entries_lookup c c' k : entries c = entries c' -> cache_lookup c k = cache_lookup c' k.
Proof. unfold cache_lookup. by intros ->. Qed.

(** What changing the count of one entry does to the others. *)
Lemma lookup_count c e n k : cache_ok c -> e ∈ entries c ->
  cache_lookup (entry_set c (e_id e) (with_reference_count n)) k =
  if bool_decide (key e = k) then Some (with_reference_count n e) else cache_lookup c k.
Proof.
  intros Hok He. rewrite lookup_set by auto. case_bool_decide as Hk.
  - rewrite (proj2 (lookup_Some c k e Hok)) by done. simpl. by rewrite Z.eqb_refl.
  - destruct (cache_lookup c k) as [e'|] eqn:E; [|done]. apply lookup_Some in E as [E1 E2]; [|done]. simpl.
    destruct (e_id e' =? e_id e) eqn:Ei; [|done]. exfalso. apply Hk. rewrite <- E2. f_equal.
    by apply (NoDup_fmap_inj_elem e_id (entries c)); [apply Hok|done|done|lia].
Qed.

(** What the callers see of an acquisition and of a release. *)
Definition acquired (c : resolver_cache) (name : option bytes) (t : Z) (c' : resolver_cache) (r : option Z)
    (s : resolver_cache_acquire_status) : Prop :=
  match s with
  | RESOLVER_CACHE_ACQUIRE_OK => exists n id e, resolver_name_normalize name = Some n /\ r = Some id /\
      entry_get c' id = Some e /\ key e = (n, t) /\ references c' (n, t) = references c (n, t) + 1 /\
      forall k, k <> (n, t) -> cache_lookup c' k = cache_lookup c k
  | _ => r = None /\ entries c' = entries c
  end.
Definition released (c : resolver_cache) (id : Z) (e : resolver_cache_entry) (c' : resolver_cache) : Prop :=
  references c' (key e) = references c (key e) - 1 /\
  (references c (key e) = 1 -> entry_get c' id = None /\ cache_lookup c' (key e) = None) /\
  forall k, k <> key e -> cache_lookup c' k = cache_lookup c k.

Lemma acquire_references c name t alloc c' r s : cache_ok c ->
  resolver_cache_entry_acquire c name t alloc = Some (c', r, s) -> acquired c name t c' r s.
Proof.
  intros Hok H. destruct (acquire_spec c name t alloc Hok) as (c2 & r2 & s2 & H2 & Hok' & Hs).
  rewrite H2 in H. simplify_eq. unfold acquired. destruct s; try (destruct Hs as [-> [m ->]]; done). destruct Hs as (n & Hn & Ht & Hl).
  exists n. destruct (cache_lookup c (n, t)) as [e|] eqn:El.
  - destruct Hl as [-> Hent]. pose proof (proj1 (lookup_Some c (n, t) e Hok) El) as [He Hk].
    exists (e_id e), (with_reference_count (e_reference_count e + 1) e). split; [done|]. split; [done|].
    unfold references. rewrite (entries_lookup _ _ _ Hent), lookup_count, bool_decide_eq_true_2, El by done.
    split; [|split; [done|split; [done|]]].
    + unfold entry_get. rewrite Hent. fold (entry_get (entry_set c (e_id e) (with_reference_count (e_reference_count e + 1))) (e_id e)).
      rewrite entry_get_set, Z.eqb_refl, entry_get_elem by auto. done.
    + intros k Hne. rewrite (entries_lookup _ _ _ Hent), lookup_count by done. by rewrite bool_decide_eq_false_2 by congruence.
  - destruct Hl as [-> Hperm]. set (e := Build_resolver_cache_entry _ _ _ _ _ _) in Hperm.
    assert (He : e ∈ entries c') by (rewrite Hperm; by left). exists (next_entry_id c), e.
    split; [done|]. split; [done|]. split; [by apply (entry_get_elem c' e)|]. split; [done|].
    unfold references. rewrite (proj2 (lookup_Some c' (n, t) e Hok')), El by done. split; [done|]. intros k Hne. apply lookup_ext; [done|done|].
    intros e' Hk. rewrite Hperm, elem_of_cons. split; [intros [->|?]; [by exfalso; apply Hne; rewrite <- Hk|done]|by right].
Qed.

Lemma release_references c id e : cache_ok c -> entry_get c id = Some e ->
  exists c', resolver_cache_entry_release c (Some id) = Some c' /\ released c id e c'.
Proof.
  intros Hok He. destruct (payload_room c id e Hok He) as (Heok & _ & _). pose proof (entry_get_Some c id e He) as [Hin Hid].
  pose proof (eo_refs e Heok) as Hrefs. unfold released, references. rewrite (proj2 (lookup_Some c (key e) e Hok)) by done.
  destruct (decide (e_reference_count e = 1)) as [H1|H1].
  - exists (without c e). rewrite (release_last c id e) by done. split; [done|].
    destruct (without_entries c id e Hok He) as (p & s & Hps & Hw).
    assert (Hgone : cache_lookup (without c e) (key e) = None).
    { apply lookup_None. rewrite Hw. pose proof (to_keys _ _ _ _ _ Hok) as Hn. fold (entries c) in Hn.
      rewrite Hps, fmap_app, fmap_cons, <- Permutation_middle in Hn. rewrite fmap_app. by apply list.NoDup_cons in Hn as [Hn _]. }
    rewrite Hgone. split; [lia|]. split.
    + intros _. split; [|done]. rewrite (entry_get_without c id e id Hok He). by rewrite Z.eqb_refl.
    + intros k Hne. apply lookup_ext; [by eapply without_ok|done|]. intros e' Hk. rewrite Hw, Hps, !elem_of_app, elem_of_cons.
      assert (Hd : e' <> e) by congruence. clear -Hd. split; [intros [?|?]|intros [?|[?|?]]]; auto; done.
  - exists (entry_set c id (with_reference_count (e_reference_count e - 1))). split.
    { unfold resolver_cache_entry_release. rewrite He. cbn [mbind option_bind]. replace (e_reference_count e =? 0) with false by lia.
      by replace (e_reference_count e - 1 =? 0) with false by lia. }
    subst id. rewrite lookup_count, bool_decide_eq_true_2 by done. split; [done|]. split; [done|].
    intros k Hne. rewrite lookup_count by done. by rewrite bool_decide_eq_false_2 by congruence.
Qed.

(** Acquiring an entry adds one reference under the normalised name and type
    and hands out a pointer to that entry; releasing a pointer gives one
    reference back, and the last one frees the entry; neither changes the entry
    of any other name or type, and an acquisition that fails changes no entry. *)
Lemma references_exact c : reachable c ->
  (forall name t alloc c' r s, resolver_cache_entry_acquire c name t alloc = Some (c', r, s) -> acquired c name t c' r s) /\
  (forall id e, entry_get c id = Some e -> exists c', resolver_cache_entry_release c (Some id) = Some c' /\ released c id e c').
Proof.
  intros Hr. apply reachable_ok in Hr. split; intros; [by eapply acquire_references|by apply release_references].
Qed.

(** The view a caller gets of a payload stored with the lifetime [n]. *)
Definition view_while (t : timespec) (n : Z) (now : timespec) (v : resolver_cache_view) : resolver_cache_view :=
  if ns now <? ns t + n * 1000000000 then v else resolver_cache_view_zero.

Lemma published_viewed c id t r validated c' now : cache_ok c' -> entry_get c id <> None -> valid now ->
  published c id t r validated c' RESOLVER_CACHE_PUBLISH_STORED ->
  exists n v c'', validated = Some (n, v) /\ 0 < n /\
    resolver_cache_entry_view c' (Some id) (Some now) = Some (c'', Some (view_while t n now
      {| v_addresses := match r with RESOLVER_CACHE_PAYLOAD_ADDRESS r => ar_addresses r | _ => None end;
         v_completed_at := t; v_expires_at := {| tv_sec := tv_sec t + n; tv_nsec := tv_nsec t |};
         v_srv_records := match r with RESOLVER_CACHE_PAYLOAD_SRV r => sr_records r | _ => None end; v_status := v |})).
Proof.
  intros Hok He Hnow (n & v & size & Hval & Ht & Hn & Hs & Hent). set (pl := Build_resolver_cache_payload _ _ _ _ _) in Hent.
  destruct (entry_get c id) as [e|] eqn:Hg; [|done].
  assert (Hget : entry_get c' id = Some (with_payload (Some pl) e)).
  { unfold entry_get. rewrite Hent. fold (entry_get (entry_set c id (with_payload (Some pl))) id).
    rewrite entry_get_set by auto. by rewrite Z.eqb_refl, Hg. }
  destruct (view_spec c' id _ now Hok Hget Hnow) as (c'' & _ & Hv). cbn [e_payload with_payload] in Hv.
  exists n, v. unfold view_while. replace (ns t + n * 1000000000) with (ns (p_expires_at pl)) by (unfold ns; simpl; lia).
  destruct (ns now <? ns (p_expires_at pl)); destruct Hv as [-> _]; by eexists.
Qed.

(** C20: a result the cache stores is what a view returns, with its records, its completion
    time and the status of its outcome, until its lifetime has passed since completion:
    the least effective TTL of its records, or, when the lookup found no data or no name,
    the effective TTL of its negative record; from then on the view is empty.  The caller's
    copy is cleared when, and only when, the result is stored. *)
Theorem stored_then_viewed c id s t now : reachable c -> valid now -> tv_sec t < 2 ^ 63 ->
  (forall r alloc c' status r', typed_address_result r ->
     resolver_cache_entry_publish_address c (Some id) s (Some t) (Some r) alloc = Some (c', status, r') ->
     match status with
     | RESOLVER_CACHE_PUBLISH_STORED => r' = Some dns_address_result_zero /\
         let n := lifetime s (a_effective_ttl <$> default [] (ar_addresses r)) (ar_negative r) in 0 < n /\
         exists v c'', viewed_status s = Some v /\ resolver_cache_entry_view c' (Some id) (Some now) = Some (c'', Some (view_while t n now
           {| v_addresses := ar_addresses r; v_completed_at := t; v_expires_at := {| tv_sec := tv_sec t + n; tv_nsec := tv_nsec t |};
              v_srv_records := None; v_status := v |}))
     | _ => r' = Some r
     end) /\
  (forall r alloc c' status r', typed_srv_result r ->
     resolver_cache_entry_publish_srv c (Some id) s (Some t) (Some r) alloc = Some (c', status, r') ->
     match status with
     | RESOLVER_CACHE_PUBLISH_STORED => r' = Some dns_srv_result_zero /\
         let n := lifetime s (r_effective_ttl <$> default [] (sr_records r)) (sr_negative r) in 0 < n /\
         exists v c'', viewed_status s = Some v /\ resolver_cache_entry_view c' (Some id) (Some now) = Some (c'', Some (view_while t n now
           {| v_addresses := None; v_completed_at := t; v_expires_at := {| tv_sec := tv_sec t + n; tv_nsec := tv_nsec t |};
              v_srv_records := sr_records r; v_status := v |}))
     | _ => r' = Some r
     end).
Proof.
  intros Hr Hnow Ht. apply reachable_ok in Hr. split; intros r alloc c' status r' Htyped H.
  - apply publish_address_spec in H as (e & He & Hok & Hp & ->); [|done..]. destruct status; try done. split; [done|].
    assert (Hl : entry_get c id <> None) by by rewrite He.
    destruct (published_viewed c id t _ _ c' now Hok Hl Hnow Hp) as (n & v & c'' & Hval & Hn & Hview).
    apply address_validate_spec in Hval as (_ & _ & _ & Hs & ->); [|done]. split; [done|]. by exists v, c''.
  - apply publish_srv_spec in H as (e & He & Hok & Hp & ->); [|done..]. destruct status; try done. split; [done|].
    assert (Hl : entry_get c id <> None) by by rewrite He.
    destruct (published_viewed c id t _ _ c' now Hok Hl Hnow Hp) as (n & v & c'' & Hval & Hn & Hview).
    apply srv_validate_spec in Hval as (_ & _ & _ & Hs & ->); [|done]. split; [done|]. by exists v, c''.
Qed.

(** ** Witnesses *)

(** A lookup of ["Play.Example."] that found one address, valid for a minute. *)
Definition sample_result : dns_address_result :=
  {| ar_addresses := Some [{| a_address := {| family := AF_INET; err := NET_OK; addr := [192; 0; 2; 1] |};
                              a_effective_ttl := 60; a_record_ttl := 300 |}];
     ar_canonical_name := [112; 108; 97; 121; 46; 101]; ar_cnames := None; ar_negative := dns_negative_record_zero;
     ar_question_name := [112; 108; 97; 121; 46; 101]; ar_rcode := 0 |}.
Definition sample_time : timespec := {| tv_sec := 1000; tv_nsec := 5 |}.

Definition sample_stored : bool :=
  match resolver_cache_create true true with
  | None => false
  | Some c =>
      match resolver_cache_entry_acquire c (Some [80; 108; 97; 121; 46; 69; 46]) ns_t_a true with
      | Some (c, Some id, RESOLVER_CACHE_ACQUIRE_OK) =>
          match resolver_cache_entry_publish_address c (Some id) DNS_LOOKUP_OK (Some sample_time) (Some sample_result) true with
          | Some (c', RESOLVER_CACHE_PUBLISH_STORED, _) => entry_count c' =? 1
          | _ => false
          end
      | _ => false
      end
  end.

Lemma sample_runs : exists c id c' r', reachable c /\
  resolver_cache_entry_publish_address c (Some id) DNS_LOOKUP_OK (Some sample_time) (Some sample_result) true
    = Some (c', RESOLVER_CACHE_PUBLISH_STORED, r') /\ entry_count c' = 1.
Proof.
  assert (H : sample_stored = true) by (vm_compute; reflexivity). unfold sample_stored in H.
  destruct (resolver_cache_create true true) as [c0|] eqn:E0; [|done].
  destruct (resolver_cache_entry_acquire _ _ _ _) as [[[c [id|]] s]|] eqn:E1; try done. destruct s; try done.
  destruct (resolver_cache_entry_publish_address _ _ _ _ _ _) as [[[c' st] r']|] eqn:E2; [|done]. destruct st; try done.
  exists c, id, c', r'. split; [eapply Reach_acquire; [by apply Reach_create|exact E1]|]. split; [done|lia].
Qed.

Lemma sample_typed : typed_address_result sample_result.
Proof. split; [repeat constructor|]; done. Qed.

Lemma cache_well_formed_witness : exists c, reachable c /\ cache_ok c /\ entry_count c = 1.
Proof.
  destruct sample_runs as (c & id & c' & r' & Hr & H & Hc).
  assert (Hr' : reachable c') by (eapply Reach_address; [exact Hr| |apply sample_typed|exact H]; done).
  exists c'. split; [done|]. split; [|done]. exact (proj1 (cache_well_formed c' Hr')).
Defined.

Lemma stored_then_viewed_witness : exists c id c' c'',
  resolver_cache_entry_publish_address c (Some id) DNS_LOOKUP_OK (Some sample_time) (Some sample_result) true
    = Some (c', RESOLVER_CACHE_PUBLISH_STORED, Some dns_address_result_zero) /\
  resolver_cache_entry_view c' (Some id) (Some {| tv_sec := 1060; tv_nsec := 4 |}) = Some (c'', Some
    {| v_addresses := ar_addresses sample_result; v_completed_at := sample_time; v_expires_at := {| tv_sec := 1060; tv_nsec := 5 |};
       v_srv_records := None; v_status := RESOLVER_CACHE_VIEW_FRESH_POSITIVE |}).
Proof.
  destruct sample_runs as (c & id & c' & r' & Hr & H & _).
  destruct (proj1 (stored_then_viewed c id DNS_LOOKUP_OK sample_time {| tv_sec := 1060; tv_nsec := 4 |} Hr ltac:(done) ltac:(done))
    sample_result true c' _ r' sample_typed H) as (-> & _ & v & c'' & [= <-] & Hv).
  exists c, id, c', c''. split; [exact H|]. exact Hv.
Defined.
