(* ===== verification/RouteTable.v ===== *)
(** * The route table ([src/src/route/table.c])

    The configured virtual hosts, in order, each with the index of its
    destination; destinations are shared through a hash table that is dropped
    once the table is built.  The configuration is a tree of the cJSON library,
    whose accessors are the parameter [cjson]; [None] stands for a NULL pointer.
    Allocations take their answers from a list, and succeed when it is used up. *)

From Stdlib Require Import String.
From S2P Require Import Prelude Proxy.

(** The accessors of cJSON the code uses. *)
Record cJSON_api (J : Type) := {
  cJSON_IsArray : option J -> bool; cJSON_IsBool : option J -> bool; cJSON_IsTrue : option J -> bool;
  cJSON_IsNumber : option J -> bool; cJSON_IsString : option J -> bool;
  cJSON_GetObjectItemCaseSensitive : option J -> bytes -> option J;
  cJSON_children : option J -> list J; cJSON_valueint : J -> Z; cJSON_valuestring : J -> bytes;
}.
Arguments cJSON_IsArray {J}. Arguments cJSON_IsBool {J}. Arguments cJSON_IsTrue {J}. Arguments cJSON_IsNumber {J}.
Arguments cJSON_IsString {J}. Arguments cJSON_GetObjectItemCaseSensitive {J}. Arguments cJSON_children {J}.
Arguments cJSON_valueint {J}. Arguments cJSON_valuestring {J}.

(** The type predicates of cJSON are false for a NULL item. *)
Record cJSON_laws {J : Type} (cjson : cJSON_api J) : Prop := {
  IsArray_null : cJSON_IsArray cjson None = false;
  IsString_null : cJSON_IsString cjson None = false;
}.

(** ** Types *)

Definition ROUTE_TABLE_FNV_OFFSET : Z := 14695981039346656037.
Definition ROUTE_TABLE_FNV_PRIME : Z := 1099511628211.
Definition ROUTE_TABLE_SRV_PREFIX : bytes := str "_minecraft._tcp.".
Definition sizeof_route_destination : Z := 56.
Definition sizeof_route_entry : Z := 32.
Definition sizeof_size_t : Z := 8.

Record route_destination := {
  hash_next : Z; numeric : bool; numeric_address : net_addr; d_port : Z; query_name : option bytes; srv : bool;
}.
Record route_entry := {
  configured_address : bytes; destination_index : Z; pheader : bool; rewrite_ : bool; vhost : bytes;
}.
Record route_table := { destinations : list route_destination; routes : list route_entry }.
Record route_destination_view := {
  dv_numeric : bool; dv_numeric_address : net_addr; dv_port : Z; dv_query_name : option bytes; dv_srv : bool;
}.
Inductive route_table_build_status :=
  | ROUTE_TABLE_BUILD_OK | ROUTE_TABLE_BUILD_BAD_ARGUMENT | ROUTE_TABLE_BUILD_INVALID | ROUTE_TABLE_BUILD_MEMORY.

Definition route_destination_zero : route_destination :=
  {| hash_next := 0; numeric := false; numeric_address := net_addr_zero; d_port := 0; query_name := None; srv := false |}.

(** ** Destinations *)

Definition route_destination_equal (left right : route_destination) : bool :=
  if negb (Bool.eqb (numeric left) (numeric right)) || negb (d_port left =? d_port right)
     || negb (Bool.eqb (srv left) (srv right)) then false
  else if negb (numeric left) then bool_decide (query_name left = query_name right)
  else if negb (family (numeric_address left) =? family (numeric_address right)) then false
  else if family (numeric_address left) =? AF_INET then bool_decide (addr (numeric_address left) = addr (numeric_address right))
  else (family (numeric_address left) =? AF_INET6) && bool_decide (addr (numeric_address left) = addr (numeric_address right)).

Definition route_hash_byte (hash value : Z) : Z := u64 (Z.lxor hash value * ROUTE_TABLE_FNV_PRIME).

Definition route_hash_destination (destination : route_destination) : Z :=
  let hash := ROUTE_TABLE_FNV_OFFSET in
  let hash := route_hash_byte hash (if numeric destination then 1 else 0) in
  let hash := route_hash_byte hash (if srv destination then 1 else 0) in
  let hash := route_hash_byte hash (u8 (Z.shiftr (d_port destination) 8)) in
  let hash := route_hash_byte hash (u8 (d_port destination)) in
  if negb (numeric destination) then fold_left route_hash_byte (default [] (query_name destination)) hash
  else
    let hash := route_hash_byte hash (if family (numeric_address destination) =? AF_INET then 4 else 6) in
    fold_left route_hash_byte (addr (numeric_address destination)) hash.

(** The name looked up in DNS: lower case, without one trailing dot, under the
    service prefix for SRV. *)
Definition route_name_create (source : option bytes) (srv alloc : bool) : option bytes :=
  match source with
  | None => None
  | Some source =>
      let source_size := len source in
      let root_name := (source_size =? 1) && bool_decide (source !! 0%nat = Some 46) in
      let source_size :=
        if (1 <? source_size) && bool_decide (source !! Z.to_nat (source_size - 1) = Some 46)
           && negb (bool_decide (source !! Z.to_nat (source_size - 2) = Some 46))
        then source_size - 1 else source_size in
      let prefix_size := if srv then len ROUTE_TABLE_SRV_PREFIX else 0 in
      let '(source_size, prefix_size) :=
        if srv && (root_name || (source_size =? 0)) then (0, prefix_size - 1) else (source_size, prefix_size) in
      if SIZE_MAX - prefix_size - 1 <? source_size then None else
      if negb alloc then None else
      Some (take (Z.to_nat prefix_size) ROUTE_TABLE_SRV_PREFIX ++ (chr_lower <$> take (Z.to_nat source_size) source))
  end.

(** The walk along the chain of a bucket; [None] when it leaves the array or
    does not end within [fuel] steps. *)
Fixpoint chain_find (fuel : nat) (ds : list route_destination) (candidate : route_destination) (index : Z) : option (option Z) :=
  if index =? SIZE_MAX then Some None else
  match fuel with
  | O => None
  | S fuel =>
      d ← ds !! Z.to_nat index;
      if route_destination_equal d candidate then Some (Some index) else chain_find fuel ds candidate (hash_next d)
  end.

Definition with_hash_next (d : route_destination) (n : Z) : route_destination :=
  {| hash_next := n; numeric := numeric d; numeric_address := numeric_address d; d_port := d_port d;
     query_name := query_name d; srv := srv d |}.

(** The arrays after the candidate has been found or added, and its index;
    [None] for an access outside the arrays. *)
Definition route_table_destination_add (capacity : Z) (ds : list route_destination) (buckets : list Z)
    (candidate : route_destination) : option (list route_destination * list Z * Z) :=
  let bucket := Z.to_nat (route_hash_destination candidate mod capacity) in
  head ← buckets !! bucket;
  found ← chain_find (S (length ds)) ds candidate head;
  match found with
  | Some index => Some (ds, buckets, index)
  | None =>
      if len ds <? capacity then
        Some (ds ++ [with_hash_next candidate head], <[bucket := len ds]> buckets, len ds)
      else None
  end.

Definition route_vhost_matches (configured received : bytes) : bool :=
  let received_size := len received in
  let received_size :=
    if (0 <? received_size) && bool_decide (received !! Z.to_nat (received_size - 1) = Some 46)
    then received_size - 1 else received_size in
  (len configured =? received_size)
  && bool_decide (take (Z.to_nat received_size) (chr_lower <$> configured) = take (Z.to_nat received_size) (chr_lower <$> received)).

(** ** Reading the configuration *)

Section table.
Context {J : Type} (cjson : cJSON_api J) (I : inet).

Definition get (item : J) (name : string) : option J := cJSON_GetObjectItemCaseSensitive cjson (Some item) (str name).

Definition route_bool_read (value : option J) : bool :=
  if cJSON_IsBool cjson value then cJSON_IsTrue cjson value
  else match value with
       | None => false
       | Some v => cJSON_IsNumber cjson value && negb (cJSON_valueint cjson v =? 0)
       end.

(** The checks on one item. *)
Definition item_valid (item : J) : bool :=
  cJSON_IsString cjson (get item "address") && cJSON_IsArray cjson (get item "vhost")
  && match get item "port" with
     | None => true
     | Some port => cJSON_IsNumber cjson (Some port) && (0 <=? cJSON_valueint cjson port) && (cJSON_valueint cjson port <=? UINT16_MAX)
     end.

(** The string virtual hosts of an item. *)
Definition item_vhosts (item : J) : list J :=
  List.filter (fun v => cJSON_IsString cjson (Some v)) (cJSON_children cjson (get item "vhost")).

Fixpoint vhost_count (vhosts : list J) (route_count item_route_count : Z) : option (Z * Z) :=
  match vhosts with
  | [] => Some (route_count, item_route_count)
  | v :: vhosts =>
      if cJSON_IsString cjson (Some v) then
        if (route_count =? SIZE_MAX) || (item_route_count =? SIZE_MAX) then None
        else vhost_count vhosts (route_count + 1) (item_route_count + 1)
      else vhost_count vhosts route_count item_route_count
  end.

Fixpoint proxy_count_loop (items : list J) (destination_capacity route_count : Z) : option (Z * Z) :=
  match items with
  | [] => Some (destination_capacity, route_count)
  | item :: items =>
      if negb (item_valid item) then None else
      match vhost_count (cJSON_children cjson (get item "vhost")) route_count 0 with
      | None => None
      | Some (route_count, item_route_count) =>
          if 0 <? item_route_count then
            if destination_capacity =? SIZE_MAX then None
            else proxy_count_loop items (destination_capacity + 1) route_count
          else proxy_count_loop items destination_capacity route_count
      end
  end.

(** [*destination_capacity] and [*route_count]. *)
Definition route_proxy_count (proxy : option J) : option (Z * Z) :=
  if negb (cJSON_IsArray cjson proxy) then None else proxy_count_loop (cJSON_children cjson proxy) 0 0.

(** The prepared destination; a name that cannot be stored makes the caller
    return [ROUTE_TABLE_BUILD_MEMORY]. *)
Definition route_proxy_destination_prepare (item : J) (alloc : bool) : run route_table_build_status route_destination :=
  match get item "address" with
  | None => Oob
  | Some a =>
      let address := cJSON_valuestring cjson a in
      let srv := bool_decide (get item "port" = None) in
      let '(port, numeric, numeric_address) :=
        match get item "port" with
        | None => (0, false, net_addr_zero)
        | Some port =>
            let parsed := net_addr_parse I (Some address) in
            if negb (family parsed =? 0) then (u16 (cJSON_valueint cjson port), true, parsed)
            else (u16 (cJSON_valueint cjson port), false, net_addr_zero)
        end in
      let destination name :=
        {| hash_next := SIZE_MAX; numeric := numeric; numeric_address := numeric_address; d_port := port;
           query_name := name; srv := srv |} in
      if negb numeric then
        match route_name_create (Some address) srv alloc with
        | None => Return ROUTE_TABLE_BUILD_MEMORY
        | Some name => Next (destination (Some name))
        end
      else Next (destination None)
  end.

(** ** Building the table *)

Record build_state := {
  b_destinations : list route_destination; b_buckets : list Z; b_routes : list route_entry; b_allocs : list bool;
}.

Definition build_run := run route_table_build_status build_state.

(** One virtual host of the item whose destination has the index [index]. *)
Definition build_vhost (route_count : Z) (item : J) (index : Z) (st : build_state) (v : J) : build_run :=
  if negb (cJSON_IsString cjson (Some v)) then Next st else
  let '(a1, allocs) := next_alloc (b_allocs st) in
  let '(a2, allocs) := next_alloc allocs in
  if negb a1 || negb a2 then Return ROUTE_TABLE_BUILD_MEMORY else
  match get item "address" with
  | None => Oob
  | Some a =>
      if negb (len (b_routes st) <? route_count) then Oob else
      let route := {| configured_address := cJSON_valuestring cjson a; destination_index := index;
                      pheader := route_bool_read (get item "pheader"); rewrite_ := route_bool_read (get item "rewrite");
                      vhost := cJSON_valuestring cjson v |} in
      Next {| b_destinations := b_destinations st; b_buckets := b_buckets st; b_routes := b_routes st ++ [route]; b_allocs := allocs |}
  end.

Fixpoint build_vhosts (route_count : Z) (item : J) (index : Z) (st : build_state) (vs : list J) : build_run :=
  match vs with
  | [] => Next st
  | v :: vs => st ← build_vhost route_count item index st v; build_vhosts route_count item index st vs
  end.

Definition build_item (capacity route_count : Z) (st : build_state) (item : J) : build_run :=
  let vhosts := cJSON_children cjson (get item "vhost") in
  let has_routes := existsb (fun v => cJSON_IsString cjson (Some v)) vhosts in
  if negb has_routes then Next st else
  let '(a, allocs) := next_alloc (b_allocs st) in
  candidate ← route_proxy_destination_prepare item a;
  match route_table_destination_add capacity (b_destinations st) (b_buckets st) candidate with
  | None => Oob
  | Some (ds, buckets, index) =>
      build_vhosts route_count item index
        {| b_destinations := ds; b_buckets := buckets; b_routes := b_routes st; b_allocs := allocs |} vhosts
  end.

Fixpoint build_items (capacity route_count : Z) (st : build_state) (items : list J) : build_run :=
  match items with
  | [] => Next st
  | item :: items => st ← build_item capacity route_count st item; build_items capacity route_count st items
  end.

(** [result_null] is whether [*result] is NULL, as it has to be.  The answers of
    the first allocations are [a1] to [a4]. *)
Definition route_table_build (source : option (option J)) (result_null a1 a2 a3 a4 : bool) (allocs : list bool)
    : run route_table_build_status route_table :=
  match source with
  | None => Return ROUTE_TABLE_BUILD_BAD_ARGUMENT
  | Some proxy =>
      if negb result_null then Return ROUTE_TABLE_BUILD_BAD_ARGUMENT else
      match route_proxy_count proxy with
      | None => Return ROUTE_TABLE_BUILD_INVALID
      | Some (capacity, route_count) =>
          if ((0 <? capacity) && ((SIZE_MAX / sizeof_route_destination <? capacity) || (SIZE_MAX / sizeof_size_t <? capacity)))
             || ((0 <? route_count) && (SIZE_MAX / sizeof_route_entry <? route_count)) then Return ROUTE_TABLE_BUILD_MEMORY
          else if negb a1 then Return ROUTE_TABLE_BUILD_MEMORY
          else if (0 <? capacity) && (negb a2 || negb a3) then Return ROUTE_TABLE_BUILD_MEMORY
          else if (0 <? route_count) && negb a4 then Return ROUTE_TABLE_BUILD_MEMORY
          else
            st ← build_items capacity route_count
              {| b_destinations := []; b_buckets := replicate (Z.to_nat capacity) SIZE_MAX; b_routes := []; b_allocs := allocs |}
              (cJSON_children cjson proxy);
            Next {| destinations := b_destinations st; routes := b_routes st |}
      end
  end.

(** ** Reading the table *)

Definition route_table_destination_count (table : option route_table) : Z :=
  match table with None => 0 | Some t => len (destinations t) end.

Definition route_table_destination_get (table : option route_table) (index : Z) : option route_destination_view :=
  match table with
  | None => None
  | Some t =>
      if len (destinations t) <=? index then None else
      d ← destinations t !! Z.to_nat index;
      Some {| dv_numeric := numeric d; dv_numeric_address := numeric_address d; dv_port := d_port d;
              dv_query_name := query_name d; dv_srv := srv d |}
  end.

(** A view has the fields of the route. *)
Definition route_table_route_get (table : option route_table) (index : Z) : option route_entry :=
  match table with
  | None => None
  | Some t => if len (routes t) <=? index then None else routes t !! Z.to_nat index
  end.

Fixpoint find_loop (table : route_table) (received : bytes) (index : Z) (rs : list route_entry) : option route_entry :=
  match rs with
  | [] => None
  | r :: rs =>
      if route_vhost_matches (vhost r) received then route_table_route_get (Some table) index
      else find_loop table received (index + 1) rs
  end.

Definition route_table_find (table : option route_table) (received : option bytes) : option route_entry :=
  match table, received with
  | Some t, Some received => find_loop t received 0 (routes t)
  | _, _ => None
  end.
End table.

(** ** The hash table of destinations *)

Lemma equal_hash d d' : route_destination_equal d d' = true -> route_hash_destination d = route_hash_destination d'.
Proof.
  unfold route_destination_equal, route_hash_destination. if_as E; [done|].
  apply orb_false_iff in E as [E E3]. apply orb_false_iff in E as [E1 E2].
  apply negb_false_iff, eqb_prop in E1, E3. apply negb_false_iff, Z.eqb_eq in E2. rewrite E1, E2, E3.
  destruct (numeric d'); cbn [negb].
  - destruct (negb (_ =? _)) eqn:F; [done|]. apply negb_false_iff, Z.eqb_eq in F. rewrite F. intros G.
    assert (Ha : addr (numeric_address d) = addr (numeric_address d')).
    { destruct (_ =? AF_INET); [by apply bool_decide_eq_true in G|]. apply andb_true_iff in G as [_ G]. by apply bool_decide_eq_true in G. }
    by rewrite Ha.
  - intros G. apply bool_decide_eq_true in G. by rewrite G.
Qed.

(** The destinations a chain visits. *)
Inductive chain (ds : list route_destination) : Z -> list nat -> Prop :=
  | chain_end : chain ds SIZE_MAX []
  | chain_next i d l : ds !! i = Some d -> Z.of_nat i <> SIZE_MAX -> chain ds (hash_next d) l -> chain ds (Z.of_nat i) (i :: l).

Lemma chain_app ds more head l : chain ds head l -> chain (ds ++ more) head l.
Proof. induction 1 as [|i d l Hd Hi Hc IH]; [constructor|]. apply (chain_next _ i d); [by apply lookup_app_l_Some|done|done]. Qed.

Lemma chain_find_spec ds c head l fuel : chain ds head l -> (length l < fuel)%nat ->
  exists r, chain_find fuel ds c head = Some r /\
  match r with
  | Some index => exists i d, index = Z.of_nat i /\ ds !! i = Some d /\ route_destination_equal d c = true
  | None => forall i d, i ∈ l -> ds !! i = Some d -> route_destination_equal d c = false
  end.
Proof.
  intros Hc. revert fuel. induction Hc as [|i d l Hd Hi Hc IH]; intros fuel Hf.
  - exists None. destruct fuel; [lia|]. split; [done|]. intros i d Hin. inversion Hin.
  - destruct fuel as [|fuel]; [lia|]. cbn [chain_find]. replace (Z.of_nat i =? SIZE_MAX) with false by lia.
    rewrite Nat2Z.id, Hd. cbn [mbind option_bind]. destruct (route_destination_equal d c) eqn:E.
    + eexists. split; [done|]. by exists i, d.
    + destruct (IH fuel ltac:(simpl in Hf; lia)) as (r & Hr & Hres). exists r. split; [done|]. destruct r as [index|]; [done|].
      intros j d' Hj Hd'. apply elem_of_cons in Hj as [->|Hj]; [congruence|by eapply Hres].
Qed.

(** Every destination is on the chain of its bucket, once, and destinations are
    pairwise different. *)
Record table_inv (capacity : Z) (ds : list route_destination) (buckets : list Z) : Prop := {
  ti_buckets : len buckets = capacity;
  ti_length : len ds <= capacity < SIZE_MAX;
  ti_chain : forall b head, buckets !! b = Some head -> exists l, chain ds head l /\ NoDup l /\
    forall i, i ∈ l <-> exists d, ds !! i = Some d /\ Z.to_nat (route_hash_destination d mod capacity) = b;
  ti_distinct : forall i j d d', ds !! i = Some d -> ds !! j = Some d' -> route_destination_equal d d' = true -> i = j;
}.

Lemma chain_short ds (l : list nat) : NoDup l -> (forall i, i ∈ l -> is_Some (ds !! i)) -> (length l <= length (A:=route_destination) ds)%nat.
Proof.
  intros Hn Hl. rewrite <- (length_seq (length ds) 0). apply submseteq_length, NoDup_submseteq; [done|].
  intros i Hi. apply Hl, lookup_lt_is_Some in Hi. apply elem_of_seq. lia.
Qed.

Lemma equal_refl c : (numeric c = true -> family (numeric_address c) = AF_INET \/ family (numeric_address c) = AF_INET6) ->
  route_destination_equal c c = true.
Proof.
  intros Hc. unfold route_destination_equal. rewrite !eqb_reflx, !Z.eqb_refl. cbn [negb orb].
  destruct (numeric c); cbn [negb]; [|by apply bool_decide_eq_true_2].
  destruct (Hc eq_refl) as [->| ->]; simpl; by rewrite bool_decide_eq_true_2.
Qed.

Lemma equal_sym c d : route_destination_equal c d = true -> route_destination_equal d c = true.
Proof.
  unfold route_destination_equal. if_as E; [done|]. apply orb_false_iff in E as [E E3]. apply orb_false_iff in E as [E1 E2].
  apply negb_false_iff, eqb_prop in E1, E3. apply negb_false_iff, Z.eqb_eq in E2. rewrite E1, E2, E3, !eqb_reflx, !Z.eqb_refl.
  cbn [negb orb]. destruct (numeric d); cbn [negb].
  - destruct (negb (_ =? _)) eqn:F; [done|]. apply negb_false_iff, Z.eqb_eq in F. rewrite F, Z.eqb_refl. cbn [negb]. intros G.
    destruct (_ =? AF_INET); [apply bool_decide_eq_true in G; by apply bool_decide_eq_true_2|].
    apply andb_true_iff in G as [-> G]. apply bool_decide_eq_true in G. by apply bool_decide_eq_true_2.
  - intros G. apply bool_decide_eq_true in G. by apply bool_decide_eq_true_2.
Qed.

(** Adding a destination shares an equal one and otherwise appends it. *)
Lemma destination_add_spec capacity ds buckets c : table_inv capacity ds buckets -> len ds < capacity ->
  (numeric c = true -> family (numeric_address c) = AF_INET \/ family (numeric_address c) = AF_INET6) ->
  exists ds' buckets' i d, route_table_destination_add capacity ds buckets c = Some (ds', buckets', Z.of_nat i) /\
    table_inv capacity ds' buckets' /\ ds' !! i = Some d /\ route_destination_equal d c = true /\
    ds `prefix_of` ds' /\ len ds' <= len ds + 1.
Proof.
  intros Hinv Hlt Hc. pose proof Hinv as [H1 H2 H3 H4]. unfold route_table_destination_add.
  set (b := Z.to_nat (route_hash_destination c mod capacity)).
  assert (Hb : exists head, buckets !! b = Some head).
  { apply lookup_lt_is_Some. unfold b. pose proof (Z.mod_pos_bound (route_hash_destination c) capacity ltac:(lia)). lia. }
  destruct Hb as [head Hb]. rewrite Hb. cbn [mbind option_bind]. destruct (H3 b head Hb) as (l & Hl & Hn & Hin).
  assert (Hshort : (length l <= length ds)%nat) by (apply chain_short; [done|]; intros i Hi; apply Hin in Hi as (d & -> & _); done).
  destruct (chain_find_spec ds c head l (S (length ds)) Hl ltac:(lia)) as (r & -> & Hr). cbn [mbind option_bind].
  destruct r as [index|].
  - destruct Hr as (i & d & -> & Hd & He). exists ds, buckets, i, d. repeat (split; [done|]). lia.
  - replace (len ds <? capacity) with true by lia. set (c' := with_hash_next c head).
    assert (Hnew : forall j d, ds !! j = Some d -> route_destination_equal d c = false).
    { intros j d Hj. destruct (route_destination_equal d c) eqn:E; [|done]. rewrite <- (Hr j d); [done| |done].
      apply Hin. exists d. split; [done|]. unfold b. by rewrite (equal_hash _ _ E). }
    assert (Hlast : (ds ++ [c']) !! length ds = Some c') by by apply list_lookup_middle.
    exists (ds ++ [c']), (<[b := len ds]> buckets), (length ds), c'. split; [done|].
    split; [|split; [done|split; [by apply (equal_refl c)|split; [by apply prefix_app_r|lens]]]]. constructor.
    + by rewrite length_insert.
    + lens.
    + intros b' head' Hb'. destruct (decide (b' = b)) as [->|Hne].
      * rewrite list_lookup_insert_eq in Hb' by by eapply lookup_lt_Some. simplify_eq. exists (length ds :: l). split; [|split].
        -- apply (chain_next _ _ c'); [done|lia|]. by apply (chain_app ds _ head).
        -- apply list.NoDup_cons. split; [|done]. intros Hx. apply Hin in Hx as (d & Hd & _). apply lookup_lt_Some in Hd. lia.
        -- intros i. rewrite elem_of_cons, Hin. split.
           ++ intros [->|(d & Hd & Hbk)]; [by exists c'|exists d; split; [by apply lookup_app_l_Some|done]].
           ++ intros (d & Hd & Hbk). apply lookup_app_Some in Hd as [Hd|[Hge Hd]]; [right; by exists d|].
              apply list_lookup_singleton_Some in Hd as [Hi _]. left. lia.
      * rewrite list_lookup_insert_ne in Hb' by done. destruct (H3 b' head' Hb') as (l' & Hl' & Hn' & Hin'). exists l'.
        split; [by apply chain_app|]. split; [done|]. intros i. rewrite Hin'. split; intros (d & Hd & Hbk); exists d; split; [by apply lookup_app_l_Some|done| |done].
        apply lookup_app_Some in Hd as [Hd|[Hge Hd]]; [done|]. apply list_lookup_singleton_Some in Hd as [_ <-]. by exfalso.
    + intros i j d d' Hi Hj He. apply lookup_app_Some in Hi as [Hi|[Hgi Hi]], Hj as [Hj|[Hgj Hj]].
      * by eapply H4.
      * apply list_lookup_singleton_Some in Hj as [_ <-]. pose proof (Hnew i d Hi). change (route_destination_equal d c = true) in He. congruence.
      * apply list_lookup_singleton_Some in Hi as [_ <-]. pose proof (Hnew j d' Hj). apply equal_sym in He.
        change (route_destination_equal d' c = true) in He. congruence.
      * apply list_lookup_singleton_Some in Hi as [Hi _], Hj as [Hj _]. lia.
Qed.

(** ** Building *)

Section building.
Context {J : Type} (cjson : cJSON_api J) (I : inet).

#[local] Abbreviation is_string v := (cJSON_IsString cjson (Some v)).

(** The numbers of routes and of destinations of a configuration. *)
Definition item_routes (item : J) : Z := len (item_vhosts cjson item).
Fixpoint total_routes (items : list J) : Z :=
  match items with [] => 0 | item :: items => item_routes item + total_routes items end.
Fixpoint total_destinations (items : list J) : Z :=
  match items with [] => 0 | item :: items => (if 0 <? item_routes item then 1 else 0) + total_destinations items end.

Lemma vhost_count_spec vs rc ic r : vhost_count cjson vs rc ic = Some r ->
  r = (rc + len (List.filter (fun v => is_string v) vs), ic + len (List.filter (fun v => is_string v) vs)).
Proof.
  revert rc ic. induction vs as [|v vs IH]; intros rc ic; simpl; [intros [= <-]; f_equal; lia|].
  destruct (is_string v); [|apply IH]. destruct (_ || _); [done|]. intros H. apply IH in H as ->. simpl length. f_equal; lia.
Qed.

Lemma proxy_count_spec items a b cap rc : proxy_count_loop cjson items a b = Some (cap, rc) ->
  cap = a + total_destinations items /\ rc = b + total_routes items /\ Forall (fun item => item_valid cjson item = true) items.
Proof.
  revert a b. induction items as [|item items IH]; intros a b; simpl.
  - intros [= <- <-]. split; [lia|]. split; [lia|done].
  - destruct (item_valid cjson item) eqn:Ev; [|done]. cbn [negb]. destruct (vhost_count _ _ _ _) as [r|] eqn:E; [|done].
    apply vhost_count_spec in E as ->. fold (item_vhosts cjson item). fold (item_routes item). rewrite Z.add_0_l.
    destruct (0 <? item_routes item).
    + destruct (a =? SIZE_MAX); [done|]. intros H. apply IH in H as (-> & -> & H). split; [lia|]. split; [lia|by constructor].
    + intros H. apply IH in H as (-> & -> & H). split; [lia|]. split; [lia|by constructor].
Qed.

Lemma total_nonneg items : 0 <= total_routes items /\ 0 <= total_destinations items.
Proof.
  induction items as [|item items IH]; simpl; [lia|]. unfold item_routes. split_ifs; lia.
Qed.

(** The routes the configuration asks for. *)
Definition expected (items : list J) : list (J * J) := flat_map (fun item => (fun v => (item, v)) <$> item_vhosts cjson item) items.

(** A route of the table stands for a virtual host of an item. *)
Definition represents (ds : list route_destination) (r : route_entry) (x : J * J) : Prop :=
  let '(item, v) := x in
  exists a c d, get cjson item "address" = Some a /\ configured_address r = cJSON_valuestring cjson a /\
    vhost r = cJSON_valuestring cjson v /\
    pheader r = route_bool_read cjson (get cjson item "pheader") /\ rewrite_ r = route_bool_read cjson (get cjson item "rewrite") /\
    route_proxy_destination_prepare cjson I item true = Next c /\
    ds !! Z.to_nat (destination_index r) = Some d /\ route_destination_equal d c = true.

Lemma represents_prefix ds ds' r x : ds `prefix_of` ds' -> represents ds r x -> represents ds' r x.
Proof.
  intros Hp. destruct x as [item v]. intros (a & c & d & H1 & H2 & H3 & H4 & H5 & H6 & H7 & H8). exists a, c, d.
  repeat (split; [done|]). split; [by eapply prefix_lookup_Some|done].
Qed.

(** Too long a name, or too many destinations or routes for their arrays. *)
Definition oversized (proxy : option J) : Prop :=
  (exists cap rc, route_proxy_count cjson proxy = Some (cap, rc) /\
     (SIZE_MAX / sizeof_route_destination < cap \/ SIZE_MAX / sizeof_route_entry < rc)) \/
  exists item a, item ∈ cJSON_children cjson proxy /\ get cjson item "address" = Some a /\
    SIZE_MAX - 17 < len (cJSON_valuestring cjson a).

Definition long_name (item : J) : Prop :=
  exists a, get cjson item "address" = Some a /\ SIZE_MAX - 17 < len (cJSON_valuestring cjson a).

Lemma name_create_spec source srv alloc : len source <= SIZE_MAX - 17 -> alloc = true -> route_name_create (Some source) srv alloc <> None.
Proof.
  intros Hl ->. unfold route_name_create. change (len ROUTE_TABLE_SRV_PREFIX) with 16.
  destruct srv; cbn [andb]; split_ifs; cbn [negb]; try done; try lia.
Qed.

Lemma name_create_false source srv : route_name_create (Some source) srv false = None.
Proof. unfold route_name_create. destruct (if _ && (_ || _) then _ else _) as [??]. by destruct (_ <? _). Qed.

Lemma net_addr_parse_family a : family (net_addr_parse I (Some a)) = 0 \/ family (net_addr_parse I (Some a)) = AF_INET \/
  family (net_addr_parse I (Some a)) = AF_INET6.
Proof. unfold net_addr_parse. destruct (inet_pton4 I a); [auto|]. destruct (inet_pton6 I a); auto. Qed.

Context (laws : cJSON_laws cjson).

Lemma item_address item : item_valid cjson item = true -> exists a, get cjson item "address" = Some a.
Proof. unfold item_valid. destruct (get cjson item "address") as [a|]; [by eexists|]. rewrite (IsString_null _ laws). done. Qed.

Lemma prepare_spec item a : item_valid cjson item = true ->
  match route_proxy_destination_prepare cjson I item a with
  | Next c => route_proxy_destination_prepare cjson I item true = Next c /\
      (numeric c = true -> family (numeric_address c) = AF_INET \/ family (numeric_address c) = AF_INET6)
  | Return s => s = ROUTE_TABLE_BUILD_MEMORY /\ (a = false \/ long_name item)
  | Oob => False
  end.
Proof.
  intros Hv. destruct (item_address item Hv) as [ad Ea]. unfold route_proxy_destination_prepare, long_name. rewrite Ea.
  set (address := cJSON_valuestring cjson ad). pose proof (net_addr_parse_family address) as Hf.
  set (p := match get cjson item "port" with Some _ => _ | None => _ end).
  assert (Hp : p.1.2 = true -> family p.2 = AF_INET \/ family p.2 = AF_INET6).
  { unfold p. destruct (get cjson item "port"); [|done]. destruct (negb _) eqn:E; [|done]. intros _. cbn [snd]. lia. }
  clearbody p. destruct p as [[port num] na]. destruct num; cbn [negb]; [done|].
  destruct (route_name_create (Some address) _ a) as [name|] eqn:En.
  - destruct a; [by rewrite En|]. by rewrite name_create_false in En.
  - split; [done|]. destruct a; [right|by left]. exists ad. split; [done|].
    destruct (Z.le_gt_cases (len address) (SIZE_MAX - 17)) as [H|H]; [|unfold address in H; lia].
    exfalso. by apply (name_create_spec _ _ _ H eq_refl) in En.
Qed.

Definition route_of (item a : J) (index : Z) (v : J) : route_entry :=
  {| configured_address := cJSON_valuestring cjson a; destination_index := index;
     pheader := route_bool_read cjson (get cjson item "pheader"); rewrite_ := route_bool_read cjson (get cjson item "rewrite");
     vhost := cJSON_valuestring cjson v |}.

Lemma build_vhosts_spec rc item a index vs st : get cjson item "address" = Some a ->
  len (b_routes st) + len (List.filter (fun v => is_string v) vs) <= rc ->
  match build_vhosts cjson rc item index st vs with
  | Next st' => b_destinations st' = b_destinations st /\ b_buckets st' = b_buckets st /\
      b_routes st' = b_routes st ++ (route_of item a index <$> List.filter (fun v => is_string v) vs) /\
      (all_succeed (b_allocs st) = true -> all_succeed (b_allocs st') = true)
  | Return s => s = ROUTE_TABLE_BUILD_MEMORY /\ all_succeed (b_allocs st) = false
  | Oob => False
  end.
Proof.
  intros Ha. revert st. induction vs as [|v vs IH]; intros st Hrc; simpl; [by rewrite app_nil_r|].
  unfold build_vhost. simpl in Hrc. destruct (is_string v) eqn:Ev; cbn [negb].
  2:{ specialize (IH st Hrc). exact IH. }
  destruct (next_alloc (b_allocs st)) as [a1 l1] eqn:E1. destruct (next_alloc l1) as [a2 l2] eqn:E2.
  apply next_alloc_spec in E1, E2. rewrite E1, E2. destruct a1, a2; cbn [negb orb andb]; try done.
  rewrite Ha. simpl length in Hrc. replace (len (b_routes st) <? rc) with true by lia. cbn [negb mbind run_bind].
  fold (route_of item a index v).
  set (st1 := {| b_destinations := b_destinations st; b_buckets := b_buckets st;
                 b_routes := b_routes st ++ [route_of item a index v]; b_allocs := l2 |}).
  specialize (IH st1). cbn [b_routes st1] in IH. specialize (IH ltac:(lens)).
  destruct (build_vhosts cjson rc item index st1 vs) as [st'|s|]; [|done|done]. destruct IH as (H1 & H2 & H3 & H4).
  split; [done|]. split; [done|]. split; [by rewrite H3, <- app_assoc|done].
Qed.

Lemma has_routes_spec vs : existsb (fun v => is_string v) vs = (0 <? len (List.filter (fun v => is_string v) vs)).
Proof. induction vs as [|v vs IH]; simpl; [done|]. destruct (is_string v); simpl length; [symmetry; cbn [orb]; lia|exact IH]. Qed.

(** What building one more item, or the remaining items, does. *)
Definition built (cap rc : Z) (st : build_state) (items : list J) (r : build_run) : Prop :=
  match r with
  | Next st' => table_inv cap (b_destinations st') (b_buckets st') /\ b_destinations st `prefix_of` b_destinations st' /\
      len (b_destinations st') <= len (b_destinations st) + total_destinations items /\
      (exists new, b_routes st' = b_routes st ++ new /\ Forall2 (represents (b_destinations st')) new (expected items)) /\
      (all_succeed (b_allocs st) = true -> all_succeed (b_allocs st') = true)
  | Return s => s = ROUTE_TABLE_BUILD_MEMORY /\ (all_succeed (b_allocs st) = false \/ exists item, item ∈ items /\ long_name item)
  | Oob => False
  end.

Lemma build_item_spec cap rc st item : item_valid cjson item = true -> table_inv cap (b_destinations st) (b_buckets st) ->
  len (b_destinations st) + total_destinations [item] <= cap -> len (b_routes st) + item_routes item <= rc ->
  built cap rc st [item] (build_item cjson I cap rc st item).
Proof.
  intros Hv Hinv Hd Hr. unfold build_item. rewrite has_routes_spec. fold (item_vhosts cjson item). fold (item_routes item).
  simpl in Hd. destruct (0 <? item_routes item) eqn:E0; cbn [negb].
  2:{ simpl. rewrite E0. split; [done|]. split; [done|]. split; [lia|]. split; [|done]. exists []. rewrite app_nil_r. split; [done|].
      unfold expected, item_routes in *. simpl. destruct (item_vhosts cjson item); [constructor|simpl in E0; lia]. }
  destruct (next_alloc (b_allocs st)) as [a allocs] eqn:Ea. apply next_alloc_spec in Ea.
  pose proof (prepare_spec item a Hv) as Hp. destruct (route_proxy_destination_prepare cjson I item a) as [c|s|]; [|simpl|done].
  2:{ destruct Hp as [-> Hp]. split; [done|]. destruct Hp as [->|Hp]; [by left|]. right. exists item. split; [by left|done]. }
  destruct Hp as [Hp Hfam]. cbn [mbind run_bind].
  destruct (destination_add_spec cap (b_destinations st) (b_buckets st) c Hinv ltac:(lia) Hfam)
    as (ds & bk & i & d & -> & Hinv' & Hi & He & Hpre & Hlen).
  destruct (item_address item Hv) as [ad Had].
  set (st1 := {| b_destinations := ds; b_buckets := bk; b_routes := b_routes st; b_allocs := allocs |}).
  pose proof (build_vhosts_spec rc item ad (Z.of_nat i) (cJSON_children cjson (get cjson item "vhost")) st1 Had Hr) as Hvh.
  destruct (build_vhosts _ _ _ _ _ _) as [st'|s|]; [|simpl|done].
  2:{ destruct Hvh as [-> Hvh]. split; [done|]. left. rewrite Ea. cbn [b_allocs st1] in Hvh. rewrite Hvh. by rewrite andb_false_r. }
  destruct Hvh as (G1 & G2 & G3 & G4). cbn [b_destinations b_buckets b_routes b_allocs st1] in *. unfold built. rewrite G1, G2.
  split; [done|]. split; [done|]. simpl. rewrite E0. split; [lia|]. split.
  - eexists. split; [done|]. unfold expected. simpl. rewrite app_nil_r. fold (item_vhosts cjson item).
    apply Forall2_fmap. apply Forall_Forall2_diag, Forall_forall. intros v _. exists ad, c, d. repeat (split; [done|]).
    cbn [destination_index route_of]. by rewrite Nat2Z.id.
  - intros H. rewrite Ea in H. apply andb_true_iff in H as [_ H]. by apply G4.
Qed.

Lemma build_items_spec cap rc items st : Forall (fun item => item_valid cjson item = true) items ->
  table_inv cap (b_destinations st) (b_buckets st) ->
  len (b_destinations st) + total_destinations items <= cap -> len (b_routes st) + total_routes items <= rc ->
  built cap rc st items (build_items cjson I cap rc st items).
Proof.
  intros Hv. revert st. induction Hv as [|item items Hi Hv IH]; intros st Hinv Hd Hr.
  - simpl. split; [done|]. split; [done|]. split; [lia|]. split; [|done]. exists []. rewrite app_nil_r. split; [done|constructor].
  - cbn [build_items total_destinations total_routes] in *. pose proof (total_nonneg items) as [Hn1 Hn2].
    pose proof (build_item_spec cap rc st item Hi Hinv ltac:(simpl; lia) ltac:(lia)) as H1.
    destruct (build_item cjson I cap rc st item) as [st1|s|]; [|cbn [mbind run_bind]|done].
    2:{ destruct H1 as [-> [H1|(x & Hx & Hl)]]; (split; [done|]); [by left|]. right. exists x. split; [|done].
        apply list_elem_of_singleton in Hx as ->. by left. }
    destruct H1 as (I1 & P1 & L1 & (new1 & R1 & F1) & A1). cbn [mbind run_bind]. simpl in L1.
    assert (Hnew : len new1 = item_routes item).
    { apply Forall2_length in F1. rewrite F1. unfold expected, item_routes. simpl. rewrite app_nil_r, length_fmap. done. }
    specialize (IH st1 I1 ltac:(lia) ltac:(rewrite R1; lens)).
    destruct (build_items cjson I cap rc st1 items) as [st2|s|]; [|simpl in *|done].
    2:{ destruct IH as [-> [H|(x & Hx & Hl)]]; (split; [done|]).
        - left. destruct (all_succeed (b_allocs st)); [|done]. rewrite A1 in H by done. done.
        - right. exists x. split; [by right|done]. }
    destruct IH as (I2 & P2 & L2 & (new2 & R2 & F2) & A2). split; [done|]. split; [by transitivity (b_destinations st1)|].
    split; [simpl; lia|]. split; [|auto]. exists (new1 ++ new2). split; [by rewrite R2, R1, app_assoc|].
    unfold expected in *. simpl in *. rewrite app_nil_r in F1. apply Forall2_app; [|done].
    revert F1. apply Forall2_impl. intros r x. by apply represents_prefix.
Qed.
End building.

(** C21: building the table from a configuration ends with a table or with an
    error and stays inside its arrays.  The table has one route for every
    string virtual host, in configuration order, with the address, the flags
    and the name of the configuration and the index of the item's destination;
    equal destinations are stored once.  The build fails as invalid only when
    the configuration does not pass its checks, and as out of memory only when
    an allocation fails or the configuration exceeds the address space. *)
Theorem route_table_exact {J} (cjson : cJSON_api J) (I : inet) proxy a1 a2 a3 a4 allocs : cJSON_laws cjson ->
  match route_table_build cjson I (Some proxy) true a1 a2 a3 a4 allocs with
  | Next t =>
      Forall2 (represents cjson I (destinations t)) (routes t) (expected cjson (cJSON_children cjson proxy)) /\
      forall i j d d', destinations t !! i = Some d -> destinations t !! j = Some d' -> route_destination_equal d d' = true -> i = j
  | Return s =>
      (s = ROUTE_TABLE_BUILD_INVALID /\ route_proxy_count cjson proxy = None) \/
      (s = ROUTE_TABLE_BUILD_MEMORY /\ (all_succeed (a1 :: a2 :: a3 :: a4 :: allocs) = false \/ oversized cjson proxy))
  | Oob => False
  end.
Proof.
  intros laws. unfold route_table_build. cbn [negb]. destruct (route_proxy_count cjson proxy) as [[cap rc]|] eqn:Ec; [|by left].
  pose proof Ec as Hc. unfold route_proxy_count in Hc. destruct (negb _); [done|]. apply proxy_count_spec in Hc as (Hcap & Hrc & Hv).
  pose proof (total_nonneg cjson (cJSON_children cjson proxy)) as [Hn1 Hn2]. if_as E1.
  { right. split; [done|]. right. left. exists cap, rc. split; [done|].
    unfold SIZE_MAX, UINT64_MAX, sizeof_route_destination, sizeof_route_entry, sizeof_size_t in *. zlia. }
  destruct a1; cbn [negb]; [|right; split; [done|by left]].
  if_as E2; [right; split; [done|]; left; destruct a2, a3; try done; cbn [negb orb] in E2; lia|].
  if_as E3; [right; split; [done|]; left; destruct a2, a3, a4; try done; cbn [negb] in E3; lia|].
  set (st := Build_build_state _ _ _ _).
  assert (Hinv : table_inv cap (b_destinations st) (b_buckets st)).
  { constructor; simpl.
    - rewrite length_replicate. lia.
    - unfold SIZE_MAX, UINT64_MAX, sizeof_route_destination in *. zlia.
    - intros b head Hb. apply lookup_replicate in Hb as [-> _]. exists []. split; [constructor|]. split; [constructor|].
      intros i. split; [intros H; inversion H|intros (d & Hd & _); done].
    - intros i j d d' Hi. done. }
  pose proof (build_items_spec cjson I laws cap rc _ st Hv Hinv ltac:(simpl; lia) ltac:(simpl; lia)) as Hb.
  destruct (build_items cjson I cap rc st (cJSON_children cjson proxy)) as [st'|s|]; [|simpl|done].
  - destruct Hb as (I' & _ & _ & (new & R & F) & _). simpl. simpl in R. rewrite R. split; [done|]. apply I'.
  - destruct Hb as [-> [Hb|(item & Hin & a & Ha & Hl)]]; right; (split; [done|]).
    + left. simpl in Hb. unfold all_succeed in *. simpl. rewrite Hb. by rewrite !andb_false_r.
    + right. right. by exists item, a.
Qed.

(** ** Looking a virtual host up *)

(** The host a client asked for, without one trailing dot. *)
Definition without_dot (received host : bytes) : Prop :=
  received = host ++ [46] \/ (received = host /\ forall h, received <> h ++ [46]).

Definition same_host (configured received : bytes) : Prop :=
  exists host, without_dot received host /\ (chr_lower <$> configured) = (chr_lower <$> host).

Lemma vhost_matches_spec configured received : route_vhost_matches configured received = true <-> same_host configured received.
Proof.
  unfold route_vhost_matches. set (dot := (0 <? len received) && _).
  assert (Hhost : exists host, without_dot received host /\ len host = (if dot then len received - 1 else len received) /\
    take (Z.to_nat (len host)) received = host /\ forall host', without_dot received host' -> host' = host).
  { unfold dot, without_dot. destruct (decide (received = [])) as [->|Hne].
    - exists []. split; [right; split; [done|by intros [|] H]|]. split; [done|]. split; [done|]. intros h [H|[<- _]]; [by destruct h|done].
    - destruct (exists_last Hne) as (h & x & ->). rewrite list_lookup_middle by lens. destruct (decide (x = 46)) as [->|Hx].
      + exists h. split; [by left|]. rewrite bool_decide_eq_true_2 by done. split; [destruct (0 <? _) eqn:E; simpl; lens|].
        split; [rewrite Nat2Z.id; by rewrite take_app_length|]. intros h' [H|[_ H]]; [by apply app_inj_tail in H as [-> _]|by destruct (H h)].
      + exists (h ++ [x]). split; [right; split; [done|]; intros h' H; apply app_inj_tail in H as [_ ?]; done|].
        rewrite bool_decide_eq_false_2 by congruence. rewrite andb_false_r. split; [done|]. split; [rewrite Nat2Z.id; by apply take_ge|].
        intros h' [H|[<- _]]; [apply app_inj_tail in H as [_ ?]; done|done]. }
  destruct Hhost as (host & Hw & Hlen & Htake & Huniq). rewrite <- Hlen. rewrite <- (fmap_take chr_lower _ received), Htake. split.
  - intros H. apply andb_true_iff in H as [H1 H2]. apply bool_decide_eq_true in H2. exists host. split; [done|].
    rewrite take_ge in H2 by (rewrite length_fmap; lia). done.
  - intros (host' & Hw' & H). apply Huniq in Hw' as ->. pose proof (f_equal length H) as Hl. rewrite !length_fmap in Hl.
    apply andb_true_iff. split; [lia|]. apply bool_decide_eq_true_2. rewrite take_ge by (rewrite length_fmap; lia). done.
Qed.

(** C22: a lookup returns the first route, in configuration order, whose virtual
    host is the requested one up to letter case and one trailing dot, and
    nothing when there is no such route. *)
Theorem route_find_first t received r :
  route_table_find (Some t) (Some received) = Some r <->
  exists before after, routes t = before ++ r :: after /\ same_host (vhost r) received /\
    Forall (fun r' => ~ same_host (vhost r') received) before.
Proof.
  unfold route_table_find. assert (Hgen : forall rs pre, routes t = pre ++ rs ->
    find_loop t received (len pre) rs = Some r <-> exists before after, rs = before ++ r :: after /\ same_host (vhost r) received /\
      Forall (fun r' => ~ same_host (vhost r') received) before).
  { induction rs as [|x rs IH]; intros pre Hpre; simpl.
    - split; [done|]. intros ([|] & after & H & _); done.
    - destruct (route_vhost_matches (vhost x) received) eqn:E.
      + apply vhost_matches_spec in E. rewrite Hpre. replace (len (pre ++ x :: rs) <=? len pre) with false by lens.
        rewrite Nat2Z.id, list_lookup_middle by done. split.
        * intros [= <-]. exists [], rs. split; [done|]. split; [done|constructor].
        * intros ([|y before] & after & H & _ & Hf); simpl in H; simplify_eq; [done|]. inversion_clear Hf. done.
      + assert (Hx : ~ same_host (vhost x) received) by (rewrite <- vhost_matches_spec, E; done).
        replace (len pre + 1) with (len (pre ++ [x])) by lens. rewrite (IH (pre ++ [x])) by by rewrite <- app_assoc. split.
        * intros (before & after & -> & H & Hf). exists (x :: before), after. split; [done|]. split; [done|by constructor].
        * intros ([|y before] & after & H & Hs & Hf); simpl in H; simplify_eq; [done|]. inversion_clear Hf. by exists before, after. }
  apply (Hgen _ []). done.
Qed.

(** ** A configuration *)

#[local] Set Warnings "-register-all".
Inductive tree :=
  | TBool (b : bool) | TNumber (n : Z) | TString (s : bytes) | TArray (l : list tree) | TObject (m : list (bytes * tree)).

Definition tree_api : cJSON_api tree := {|
  cJSON_IsArray j := match j with Some (TArray _) => true | _ => false end;
  cJSON_IsBool j := match j with Some (TBool _) => true | _ => false end;
  cJSON_IsTrue j := match j with Some (TBool b) => b | _ => false end;
  cJSON_IsNumber j := match j with Some (TNumber _) => true | _ => false end;
  cJSON_IsString j := match j with Some (TString _) => true | _ => false end;
  cJSON_GetObjectItemCaseSensitive j name :=
    match j with Some (TObject m) => snd <$> List.find (fun kv => bool_decide (kv.1 = name)) m | _ => None end;
  cJSON_children j := match j with Some (TArray l) => l | Some (TObject m) => m.*2 | _ => [] end;
  cJSON_valueint j := match j with TNumber n => n | _ => 0 end;
  cJSON_valuestring j := match j with TString s => s | _ => [] end;
|}.

(** Two hosts on one server named twice, a third on a service. *)
Definition sample_config : tree := TArray [
  TObject [(str "address", TString (str "Backend.example")); (str "port", TNumber 25565); (str "rewrite", TBool true);
           (str "vhost", TArray [TString (str "a.example"); TNumber 1; TString (str "b.example")])];
  TObject [(str "address", TString (str "play.example")); (str "vhost", TArray [TString (str "c.example")])];
  TObject [(str "address", TString (str "backend.example.")); (str "port", TNumber 25565); (str "pheader", TNumber 1);
           (str "vhost", TArray [TString (str "d.example")])]].

Lemma route_table_exact_witness :
  match route_table_build tree_api hex_inet (Some (Some sample_config)) true true true true true [] with
  | Next t => Forall2 (represents tree_api hex_inet (destinations t)) (routes t) (expected tree_api (cJSON_children tree_api (Some sample_config)))
      /\ len (routes t) = 4 /\ len (destinations t) = 2
  | _ => False
  end.
Proof.
  pose proof (route_table_exact tree_api hex_inet (Some sample_config) true true true true [] ltac:(done)) as H.
  assert (E : match route_table_build tree_api hex_inet (Some (Some sample_config)) true true true true true [] with
    | Next t => (len (routes t) =? 4) && (len (destinations t) =? 2) | _ => false end = true) by (vm_compute; reflexivity).
  destruct (route_table_build _ _ _ _ _ _ _ _ _) as [t|s|]; [|discriminate E|discriminate E].
  destruct H as [H _]. split; [exact H|]. lia.
Defined.
