(* ===== verification/Config.v ===== *)
(** * The configuration ([src/src/config.c])

    The configuration file is parsed by the cJSON library, whose trees and operations are
    the parameter [J]; what the code relies on of them is [cJSON_document].  A [double] is
    an IEEE number of the Standard Library's [SpecFloat].  [Oob] is the use of a NULL
    string.  Allocations take their answers from a list, and succeed when it is used up. *)

From Stdlib Require Import String SpecFloat.
From S2P Require Import Prelude Basic Proxy Log RouteTable.

(** ** Numbers *)

Definition double : Type := spec_float.

(** The comparison of a number that is not NaN with an integer. *)
Definition double_compare (d : double) (n : Z) : option comparison :=
  match d with
  | S754_nan => None
  | S754_infinity s => Some (if s then Lt else Gt)
  | S754_zero _ => Some (0 ?= n)
  | S754_finite s m e =>
      let v := if s then Zneg m else Zpos m in
      Some (if 0 <=? e then v * 2 ^ e ?= n else v ?= n * 2 ^ (- e))
  end.
Definition double_ge (d : double) (n : Z) : bool := match double_compare d n with Some Eq | Some Gt => true | _ => false end.
Definition double_gt (d : double) (n : Z) : bool := match double_compare d n with Some Gt => true | _ => false end.
Definition double_lt (d : double) (n : Z) : bool := match double_compare d n with Some Lt => true | _ => false end.
Definition double_eq (d : double) (n : Z) : bool := match double_compare d n with Some Eq => true | _ => false end.
Definition isfinite (d : double) : bool := match d with S754_nan | S754_infinity _ => false | _ => true end.
(** The conversion to an integer type that can hold the result, towards zero. *)
Definition double_trunc (d : double) : Z :=
  match d with
  | S754_finite s m e => let v := if 0 <=? e then Zpos m * 2 ^ e else Zpos m / 2 ^ (- e) in if s then - v else v
  | _ => 0
  end.

(** ** The library *)

(** Operations of cJSON besides the accessors: [cJSON_members] are the named children of
    an object, [cJSON_AddArrayToObject] appends a new array with the given items, and
    [cJSON_with_children] is an array after items have been detached from it. *)
Record cJSON_document (J : Type) := {
  api : cJSON_api J;
  cJSON_ParseWithLength : bytes -> option J;
  cJSON_IsObject : option J -> bool;
  cJSON_valuedouble : J -> double;
  cJSON_members : J -> list (bytes * J);
  cJSON_DeleteItemFromObjectCaseSensitive : J -> bytes -> J;
  cJSON_AddArrayToObject : J -> bytes -> list J -> J;
  cJSON_CreateString : bytes -> J;
  cJSON_with_children : J -> list J -> J;
}.
Arguments api {J}. Arguments cJSON_ParseWithLength {J}. Arguments cJSON_IsObject {J}. Arguments cJSON_valuedouble {J}. Arguments cJSON_members {J}.
Arguments cJSON_DeleteItemFromObjectCaseSensitive {J}. Arguments cJSON_AddArrayToObject {J}. Arguments cJSON_CreateString {J}.
Arguments cJSON_with_children {J}.

(** The first member of a name, and the members without it. *)
Definition first_member {J} (name : bytes) (m : list (bytes * J)) : option J := snd <$> List.find (fun kv => bool_decide (kv.1 = name)) m.
Fixpoint without_first {J} (name : bytes) (m : list (bytes * J)) : list (bytes * J) :=
  match m with
  | [] => []
  | kv :: m => if bool_decide (kv.1 = name) then m else kv :: without_first name m
  end.

(** What the documentation of cJSON says of them: lookup finds the first member of a name,
    deletion removes that one, an added array comes last; a number keeps its value as a
    [double] and, saturated to [int], as an integer. *)
Record document_laws {J} (D : cJSON_document J) : Prop := {
  dl_api : cJSON_laws (api D);
  dl_get j name : cJSON_GetObjectItemCaseSensitive (api D) (Some j) name = first_member name (cJSON_members D j);
  dl_delete j name : cJSON_members D (cJSON_DeleteItemFromObjectCaseSensitive D j name) = without_first name (cJSON_members D j);
  dl_add j name l : exists a, cJSON_members D (cJSON_AddArrayToObject D j name l) = cJSON_members D j ++ [(name, a)] /\
    cJSON_IsArray (api D) (Some a) = true /\ cJSON_children (api D) (Some a) = l;
  dl_string s : cJSON_IsString (api D) (Some (cJSON_CreateString D s)) = true /\ cJSON_valuestring (api D) (cJSON_CreateString D s) = s;
  dl_children j l : cJSON_IsArray (api D) (Some j) = true -> cJSON_IsArray (api D) (Some (cJSON_with_children D j l)) = true /\
    cJSON_children (api D) (Some (cJSON_with_children D j l)) = l;
  dl_valueint j n : double_eq (cJSON_valuedouble D j) n = true -> - 2 ^ 31 <= n < 2 ^ 31 -> cJSON_valueint (api D) j = n;
}.

(** ** Types *)

Definition CONF_ADDRESSMAXLEN : Z := ADDRESS_MAXLEN.
Definition CONF_ICON_B64MAX : Z := 7000.
Definition CONF_METRICS_MINIMUM_INTERVAL : Z := 300.
Definition CONF_METRICS_MAXIMUM_INTERVAL : Z := 86400.
Definition EOVERFLOW : Z := 75.

Inductive conf_error :=
  | CONF_ERROR_NONE | CONF_EARGUMENT | CONF_EROPENFAIL | CONF_EROPENEMPTY | CONF_EROPENLARGE | CONF_ERMEMORY | CONF_ERPARSE | CONF_ECMEMORY
  | CONF_ECLISTENPORT | CONF_ECMETRICS | CONF_ECPROXY | CONF_ECPROXYDUP.
Inductive conf_read_status := CONF_READ_ERROR | CONF_READ_UNCHANGED | CONF_READ_CHANGED.

(** [None]: no data, of size 0. *)
Definition conf_cache : Type := option bytes.

Section config.
Context {J : Type} (D : cJSON_document J).

Record conf := {
  log_filename : option bytes; log_level : Z; listen_address : option bytes; listen_port : Z; metrics_interval : Z;
  icon_path : option bytes; icon_b64 : option bytes; icon_cache : conf_cache; conf_proxy : option J;
}.

(** The error, and the duplicate host kept for its message when there is one. *)
Definition conf_failure : Type := conf_error * option bytes.
#[local] Abbreviation parses := (run conf_failure).
Definition fails {A} (e : conf_error) : parses A := Return (e, None).

(** [item->valuestring], NULL when the item is no string. *)
Definition valuestring (j : J) : option bytes := if cJSON_IsString (api D) (Some j) then Some (cJSON_valuestring (api D) j) else None.
Definition member (j : J) (name : string) : option J := cJSON_GetObjectItemCaseSensitive (api D) (Some j) (str name).

(** ** Values *)

Definition config_jsonbool (src : option J) (defaultvalue : bool) : bool :=
  match src with
  | None => defaultvalue
  | Some j =>
      if cJSON_IsBool (api D) src then cJSON_IsTrue (api D) src
      else if cJSON_IsNumber (api D) src then negb (cJSON_valueint (api D) j =? 0) else defaultvalue
  end.

Definition config_port_extract (item : option J) : option Z :=
  match item with
  | None => None
  | Some j =>
      if negb (cJSON_IsNumber (api D) item) then None else
      let value := cJSON_valuedouble D j in
      if negb (double_ge value 0) || double_gt value 65535 || negb (double_eq value (double_trunc value)) then None
      else Some (double_trunc value)
  end.

(** ** Proxies *)

(** The virtual hosts of an item, a single one being put into an array: the item after
    that, and whether it is valid so far. *)
Definition vhost_prepare (allocs : list bool) (single : J) : parses (J * bool * list bool) :=
  match member single "vhost" with
  | None => Next (single, false, allocs)
  | Some single_vhost =>
      if negb (cJSON_IsArray (api D) (Some single_vhost)) then
        if negb (cJSON_IsString (api D) (Some single_vhost)) then Next (single, false, allocs) else
        let vhost := cJSON_valuestring (api D) single_vhost in
        let '(copied, allocs) := next_alloc allocs in
        if negb copied then fails CONF_ECMEMORY else
        let single := cJSON_DeleteItemFromObjectCaseSensitive D single (str "vhost") in
        let '(array, allocs) := next_alloc allocs in
        let '(item, allocs) := next_alloc allocs in
        if negb array || negb item then fails CONF_ECMEMORY else
        Next (cJSON_AddArrayToObject D single (str "vhost") [cJSON_CreateString D vhost], true, allocs)
      else
        let members := cJSON_children (api D) (Some single_vhost) in
        Next (single, forallb (fun m => cJSON_IsString (api D) (Some m)) members && negb (len members =? 0), allocs)
  end.

Definition single_check (single : J) : bool :=
  match member single "address" with None => false | Some a => cJSON_IsString (api D) (Some a) end
  && match member single "port" with None => true | Some port => bool_decide (is_Some (config_port_extract (Some port))) end.

(** The items that stay in the array. *)
Fixpoint proxy_filter (allocs : list bool) (items : list J) : parses (list J * list bool) :=
  match items with
  | [] => Next ([], allocs)
  | single :: items =>
      '(single, valid, allocs) ← vhost_prepare allocs single;
      '(rest, allocs) ← proxy_filter allocs items;
      Next (if valid && single_check single then single :: rest else rest, allocs)
  end.

Definition strcasecmp_equal (a b : bytes) : bool := bool_decide ((chr_lower <$> a) = (chr_lower <$> b)).

(** The detection of duplicate hosts: the list of names grows, by one allocation for the
    list and one for the name. *)
Definition vhost_add (names : list bytes) (allocs : list bool) (v : J) : parses (list bytes * list bool) :=
  let push (vhost : bytes) :=
    let '(list_, allocs) := next_alloc allocs in
    if negb list_ then fails CONF_ECMEMORY else
    let '(name, allocs) := next_alloc allocs in
    if negb name then fails CONF_ECMEMORY else Next (names ++ [vhost], allocs) in
  match valuestring v with
  | None => match names with [] => if (next_alloc allocs).1 then Oob else fails CONF_ECMEMORY | _ => Oob end
  | Some vhost =>
      if existsb (fun n => strcasecmp_equal n vhost) names
      then Return (CONF_ECPROXYDUP, Some (snprintf_s CONF_ADDRESSMAXLEN vhost)) else push vhost
  end.
Fixpoint vhosts_add (names : list bytes) (allocs : list bool) (vs : list J) : parses (list bytes * list bool) :=
  match vs with
  | [] => Next (names, allocs)
  | v :: vs => '(names, allocs) ← vhost_add names allocs v; vhosts_add names allocs vs
  end.
Definition item_children (j : J) (name : string) : list J := cJSON_children (api D) (member j name).
Fixpoint duplicates_check (names : list bytes) (allocs : list bool) (items : list J) : parses (list bytes * list bool) :=
  match items with
  | [] => Next (names, allocs)
  | rec_result :: items =>
      '(names, allocs) ← vhosts_add names allocs (item_children rec_result "vhost");
      duplicates_check names allocs items
  end.

Definition config_proxy_parse (allocs : list bool) (src : J) : parses (J * list bool) :=
  '(items, allocs) ← proxy_filter allocs (cJSON_children (api D) (Some src));
  if len items =? 0 then fails CONF_ECPROXY else
  let '(duplicated, allocs) := next_alloc allocs in
  if negb duplicated then fails CONF_ECMEMORY else
  '(_, allocs) ← duplicates_check [] allocs items;
  Next (cJSON_with_children D src items, allocs).

(** ** Parsing *)

(** A string setting: the default, replaced by the string member of the section. *)
Definition string_setting (allocs : list bool) (section : option J) (name : string) (default_ : bytes) : parses (bytes * list bool) :=
  match section ≫= (fun s => member s name) with
  | Some j =>
      match valuestring j with
      | Some s => let '(a, allocs) := next_alloc allocs in if negb a then fails CONF_ECMEMORY else Next (s, allocs)
      | None => Next (default_, allocs)
      end
  | None => Next (default_, allocs)
  end.

Definition interval_read (metrics : option J) : parses Z :=
  match metrics with
  | None => Next 0
  | Some m =>
      if negb (cJSON_IsObject D metrics) then fails CONF_ECMETRICS else
      match member m "interval" with
      | None => Next 0
      | Some j =>
          if negb (cJSON_IsNumber (api D) (Some j)) then fails CONF_ECMETRICS else
          let interval := cJSON_valuedouble D j in
          if negb (isfinite interval) || double_lt interval 0 || double_gt interval CONF_METRICS_MAXIMUM_INTERVAL
             || (double_gt interval 0 && double_lt interval CONF_METRICS_MINIMUM_INTERVAL) || negb (double_eq interval (double_trunc interval))
          then fails CONF_ECMETRICS else Next (u32 (double_trunc interval))
      end
  end.

Definition config_parse (allocs : list bool) (config_raw : bytes) : parses (conf * list bool) :=
  match cJSON_ParseWithLength D config_raw with
  | None => fails CONF_ERPARSE
  | Some config_json =>
      let '(a1, allocs) := next_alloc allocs in
      if negb a1 then fails CONF_ECMEMORY else
      let '(a2, allocs) := next_alloc allocs in
      if negb a2 then fails CONF_ECMEMORY else
      let log := member config_json "log" in
      '(filename, allocs) ← string_setting allocs log "filename" (str "/var/log/mcrelay/access.log");
      let level := match log ≫= (fun l => member l "level") with
                   | Some j => if cJSON_IsNumber (api D) (Some j) then u8 (cJSON_valueint (api D) j) else level_value MKSYS_LEVEL_INFORMATION
                   | None => level_value MKSYS_LEVEL_INFORMATION end in
      let '(a3, allocs) := next_alloc allocs in
      if negb a3 then fails CONF_ECMEMORY else
      let listen := member config_json "listen" in
      '(address, allocs) ← string_setting allocs listen "address" (str "::");
      port ← match listen ≫= (fun l => member l "port") with
             | None => Next 25565
             | Some j => match config_port_extract (Some j) with None => fails CONF_ECLISTENPORT | Some port => Next (u16 port) end
             end;
      interval ← interval_read (member config_json "metrics");
      '(icon, allocs) ← match member config_json "icon" ≫= valuestring with
                        | Some (c :: s) => let '(a, allocs) := next_alloc allocs in if negb a then fails CONF_ECMEMORY else Next (Some (c :: s), allocs)
                        | _ => Next (None, allocs)
                        end;
      match member config_json "proxy" with
      | None => fails CONF_ECPROXY
      | Some source =>
          let '(a4, allocs) := next_alloc allocs in
          if negb a4 then fails CONF_ECMEMORY else
          if negb (cJSON_IsArray (api D) (Some source)) then fails CONF_ECPROXY else
          if len (cJSON_children (api D) (Some source)) =? 0 then fails CONF_ECPROXY else
          '(proxy, allocs) ← config_proxy_parse allocs source;
          Next ({| log_filename := Some filename; log_level := level; listen_address := Some address; listen_port := port; metrics_interval := interval;
                   icon_path := icon; icon_b64 := None; icon_cache := None; conf_proxy := Some proxy |}, allocs)
      end
  end.
(** ** Caches, copies and reading *)

(** Whether the two are the same object. *)
Definition config_cache_commit (same : bool) (target candidate : option conf_cache) : option conf_cache * option conf_cache :=
  match target, candidate with
  | Some _, Some candidate' => if same then (target, candidate) else (Some candidate', Some None)
  | _, _ => (target, candidate)
  end.
Definition config_cache_destroy (target : option conf_cache) : option conf_cache := const None <$> target.

Definition with_icon (c : conf) (b64 : option bytes) (cache : conf_cache) : conf := {|
  log_filename := log_filename c; log_level := log_level c; listen_address := listen_address c; listen_port := listen_port c;
  metrics_interval := metrics_interval c; icon_path := icon_path c; icon_b64 := b64; icon_cache := cache; conf_proxy := conf_proxy c |}.
Definition config_icon_clear (c : conf) : conf := with_icon c None None.

(** The copy, or the [errno] of the failure. *)
Definition config_string_duplicate (allocs : list bool) (source : option bytes) : run Z (option bytes * list bool) :=
  match source with
  | None => Next (None, allocs)
  | Some s =>
      if len s =? SIZE_MAX then Return EOVERFLOW else
      let '(a, allocs) := next_alloc allocs in if negb a then Return ENOMEM else Next (Some s, allocs)
  end.

Definition config_clone (allocs : list bool) (source : option conf) (result_empty : bool) : run Z conf :=
  match source with
  | None => Return EINVAL
  | Some source =>
      match log_filename source, listen_address source, conf_proxy source with
      | Some _, Some _, Some proxy =>
          if negb result_empty || match icon_cache source with Some [] => true | _ => false end then Return EINVAL else
          let '(a, allocs) := next_alloc allocs in
          if negb a then Return ENOMEM else
          '(filename, allocs) ← config_string_duplicate allocs (log_filename source);
          '(address, allocs) ← config_string_duplicate allocs (listen_address source);
          '(path, allocs) ← config_string_duplicate allocs (icon_path source);
          '(b64, allocs) ← config_string_duplicate allocs (icon_b64 source);
          '(cache, allocs) ← match icon_cache source with
                             | None => Next (None, allocs)
                             | Some data => let '(a, allocs) := next_alloc allocs in if negb a then Return ENOMEM else Next (Some data, allocs)
                             end;
          let '(a, allocs) := next_alloc allocs in
          if negb a then Return ENOMEM else
          Next {| log_filename := filename; log_level := log_level source; listen_address := address; listen_port := listen_port source;
                  metrics_interval := metrics_interval source; icon_path := path; icon_b64 := b64; icon_cache := cache; conf_proxy := Some proxy |}
      | _, _, _ => Return EINVAL
      end
  end.

(** The configuration, whether the icon is ready, and the warnings logged. *)
Definition config_icon_load (read : read_answers) (alloc : bool) (cfg : option conf) (failure_action : option bytes)
    : run unit (option conf * bool * list bytes) :=
  match cfg, failure_action with
  | Some c, Some failure_action =>
      match icon_path c with
      | None => Next (Some (config_icon_clear c), true, [])
      | Some path =>
          let warn text := Next (Some c, false, [text ++ str ", " ++ failure_action ++ str "."]) in
          match rr_result (freadall read (Some path) true false) with
          | inr ((_ :: _) as icon_raw) =>
              if bool_decide (icon_cache c = Some icon_raw) then Next (cfg, true, []) else
              let icon_size := len icon_raw in
              let blocks := icon_size / 3 in
              let b64_size := (blocks + (if 0 <? icon_size mod 3 then 1 else 0)) * 4 in
              if CONF_ICON_B64MAX <? b64_size
              then warn (str "Icon too large (base64: " ++ decimal b64_size ++ str " > " ++ decimal CONF_ICON_B64MAX ++ str " bytes)") else
              if negb alloc then warn (str "No memory for icon") else
              b64 ← base64_encode b64_size (Some icon_raw);
              Next (Some (with_icon (config_icon_clear c) (Some b64) (Some icon_raw)), true, [])
          | inr [] => warn (str "Icon file " ++ path ++ str " is empty")
          | inl FREADALL_ERFAIL => warn (str "Cannot open icon file " ++ path)
          | inl FREADALL_ELARGE => warn (str "Icon file " ++ path ++ str " too large")
          | inl FREADALL_ENOMEM => warn (str "No memory to read icon file " ++ path)
          | inl _ => warn (str "Cannot read icon file " ++ path)
          end
      end
  | _, _ => Next (cfg, false, [])
  end.

(** The status, the candidate cache, the result and [errno]. *)
Record read_config := { rc_status : conf_read_status; rc_candidate : option conf_cache; rc_result : option conf; rc_errno : conf_error; rc_duperr : option bytes }.

(** [same]: the caches are one object. *)
Definition config_read (read : read_answers) (allocs : list bool) (DEBUG_MODE : bool) (filename : option bytes) (active_cache candidate_cache : option conf_cache)
    (same result : bool) : run unit read_config :=
  let failed e := Next {| rc_status := CONF_READ_ERROR; rc_candidate := candidate_cache; rc_result := None; rc_errno := e; rc_duperr := None |} in
  match filename, active_cache, candidate_cache with
  | Some filename, Some active_cache', Some None =>
      if negb result || same then failed CONF_EARGUMENT else
      match rr_result (freadall read (Some filename) true DEBUG_MODE) with
      | inr [] => failed CONF_EROPENEMPTY
      | inl FREADALL_ERFAIL => failed CONF_EROPENFAIL
      | inl FREADALL_ELARGE => failed CONF_EROPENLARGE
      | inl FREADALL_ENOMEM => failed CONF_ERMEMORY
      | inl FREADALL_ERROR_NONE => failed CONF_ERROR_NONE
      | inl FREADALL_EINVAL => failed CONF_EARGUMENT
      | inr config_raw =>
          if bool_decide (active_cache' = Some config_raw)
          then Next {| rc_status := CONF_READ_UNCHANGED; rc_candidate := candidate_cache; rc_result := None; rc_errno := CONF_ERROR_NONE; rc_duperr := None |} else
          match config_parse allocs config_raw with
          | Oob => Oob
          | Return (e, duperr) => Next {| rc_status := CONF_READ_ERROR; rc_candidate := candidate_cache; rc_result := None; rc_errno := e; rc_duperr := duperr |}
          | Next (config_new, _) =>
              Next {| rc_status := CONF_READ_CHANGED; rc_candidate := Some (Some config_raw); rc_result := Some config_new; rc_errno := CONF_ERROR_NONE; rc_duperr := None |}
          end
      end
  | _, _, _ => failed CONF_EARGUMENT
  end.

(** What [config_dumper] prints; [Oob] where it prints a NULL string. *)
Definition line (label : string) (value : bytes) : bytes := str label ++ value ++ [10].
Fixpoint dump_vhosts (vhost_count : Z) (vhosts : list J) : bytes :=
  match vhosts with
  | [] => []
  | v :: vhosts =>
      match valuestring v with
      | Some s => str "vHost #" ++ decimal vhost_count ++ [9] ++ s ++ [10] ++ dump_vhosts (vhost_count + 1) vhosts
      | None => dump_vhosts vhost_count vhosts
      end
  end.
Definition dump_bool (name : string) (j : option J) : bytes := str name ++ [9; 9] ++ str (if config_jsonbool j false then "true" else "false") ++ [10].
Fixpoint dump_proxies (proxy_count : Z) (items : list J) : run unit bytes :=
  match items with
  | [] => Next []
  | single :: items =>
      match member single "address" ≫= valuestring with
      | None => Oob
      | Some address =>
          rest ← dump_proxies (proxy_count + 1) items;
          Next ([10] ++ str "[PROXY #" ++ decimal proxy_count ++ str "]" ++ [10] ++ dump_vhosts 1 (item_children single "vhost")
                ++ str "Address" ++ [9; 9] ++ address ++ [10]
                ++ str "Port" ++ [9; 9] ++ match member single "port" with None => str "<SRV>" | Some port => decimal (cJSON_valueint (api D) port) end ++ [10]
                ++ dump_bool "Rewrite" (member single "rewrite") ++ dump_bool "PHeader" (member single "pheader") ++ rest)
      end
  end.
Definition config_dumper (src : conf) : run unit bytes :=
  filename ← match log_filename src with Some s => Next s | None => Oob end;
  address ← match listen_address src with Some s => Next s | None => Oob end;
  rest ← dump_proxies 1 (cJSON_children (api D) (conf_proxy src));
  Next (line "Config Detail:" [] ++ [10] ++ line "[LOG]" []
        ++ str "Filename" ++ [9] ++ filename ++ [10] ++ str "Level" ++ [9; 9] ++ decimal (log_level src) ++ [10]
        ++ [10] ++ line "[LISTEN]" [] ++ str "Address" ++ [9; 9] ++ address ++ [10] ++ str "Port" ++ [9; 9] ++ decimal (listen_port src) ++ [10]
        ++ [10] ++ line "[METRICS]" [] ++ str "Interval" ++ [9] ++ decimal (metrics_interval src) ++ [10]
        ++ [10] ++ str "[ICON]" ++ [9; 9] ++ match icon_path src with Some ((_ :: _) as path) => path | _ => str "<default>" end ++ [10] ++ rest).

End config.

Definition config_errmsg (err : conf_error) : option bytes :=
  match err with
  | CONF_EROPENFAIL => Some (str "Cannot read config file: ")
  | CONF_EROPENEMPTY => Some (str "Empty config file: ")
  | CONF_EROPENLARGE => Some (str "Error in configurations: File too large (5MB)")
  | CONF_ERMEMORY => Some (str "Error in configurations: Failed to allocate memory when reading file")
  | CONF_ERPARSE => Some (str "Error in configurations: Not a valid JSON format")
  | CONF_ECMEMORY => Some (str "Error in processing configurations: Failed to allocate memory during internal processing")
  | CONF_ECLISTENPORT => Some (str "Error in configurations: Entry " ++ [34] ++ str "listen.port" ++ [34] ++ str " must be an unsigned short integer (0-65535)")
  | CONF_ECMETRICS => Some (str "Error in configurations: Entry " ++ [34] ++ str "metrics.interval" ++ [34] ++ str " must be 0 or an integer from 300 to 86400")
  | CONF_ECPROXY => Some (str "Error in configurations: Entry " ++ [34] ++ str "proxy" ++ [34] ++ str " is missing")
  | CONF_ECPROXYDUP => Some (str "Error in configurations: Duplication found in proxy virtual hostnames")
  | _ => None
  end.

(** The message logged, and what is left in [config_duperr]. *)
Definition config_log_duplicate_error (config_duperr suffix : bytes) : bytes * bytes :=
  let base := default [] (config_errmsg CONF_ECPROXYDUP) in
  match config_duperr with
  | [] => (base ++ suffix, [])
  | _ => (base ++ str ". Affected: " ++ [34] ++ config_duperr ++ [34] ++ suffix, [])
  end.

(** ** Proofs: values *)

(** A number that equals an integer compares as that integer. *)
Lemma double_compare_int d t n : double_eq d t = true -> double_compare d n = Some (t ?= n).
Proof.
  unfold double_eq, double_compare. destruct d as [s|s| |s m e]; try done; [|by destruct s|].
  - destruct (Z.compare_spec 0 t) as [<-|H|H]; done.
  - set (v := if s then Z.neg m else Z.pos m). destruct (0 <=? e) eqn:E.
    + destruct (Z.compare_spec (v * 2 ^ e) t) as [<-|H|H]; done.
    + destruct (Z.compare_spec v (t * 2 ^ (- e))) as [->|H|H]; try done. intros _. f_equal. symmetry. rewrite !(Z.mul_comm _ (2 ^ _)).
      rewrite Zmult_compare_compat_l with (p := 2 ^ (- e)); [done|]. apply Z.lt_gt, Z.pow_pos_nonneg; lia.
Qed.

Lemma double_int_range d lo hi : double_eq d (double_trunc d) = true ->
  double_lt d lo = (double_trunc d <? lo) /\ double_gt d hi = (hi <? double_trunc d) /\ double_ge d lo = (lo <=? double_trunc d).
Proof.
  intros H. unfold double_lt, double_gt, double_ge. rewrite !(double_compare_int _ _ _ H).
  destruct (Z.compare_spec (double_trunc d) lo), (Z.compare_spec (double_trunc d) hi); repeat split; lia.
Qed.

Lemma double_eq_trunc d n : double_eq d n = true -> double_trunc d = n.
Proof.
  unfold double_eq, double_compare, double_trunc. destruct d as [s|s| |s m e]; try done; [by destruct (Z.compare_spec 0 n)|by destruct s|].
  destruct (0 <=? e) eqn:E.
  - destruct s; [destruct (Z.compare_spec (Z.neg m * 2 ^ e) n)|destruct (Z.compare_spec (Z.pos m * 2 ^ e) n)]; lia.
  - assert (0 < 2 ^ (- e)) by (apply Z.pow_pos_nonneg; lia). destruct s.
    + destruct (Z.compare_spec (Z.neg m) (n * 2 ^ (- e))) as [Hm|Hm|Hm]; try done. intros _. replace (Z.pos m) with (- n * 2 ^ (- e)) by lia. rewrite Z.div_mul; lia.
    + destruct (Z.compare_spec (Z.pos m) (n * 2 ^ (- e))) as [Hm|Hm|Hm]; try done. intros _. rewrite Hm, Z.div_mul; lia.
Qed.

Section proofs.
Context {J : Type} (D : cJSON_document J) (L : document_laws D).

Lemma port_extract_range j port : config_port_extract D (Some j) = Some port ->
  cJSON_IsNumber (api D) (Some j) = true /\ cJSON_valueint (api D) j = port /\ 0 <= port <= 65535.
Proof.
  unfold config_port_extract. if_as E; [done|]. if_as E2; [done|]. intros [= <-]. apply orb_false_iff in E2 as [E2 E3]. apply orb_false_iff in E2 as [E1 E2].
  apply negb_false_iff in E1, E3. destruct (double_int_range _ 0 65535 E3) as (_ & H2 & H1). rewrite H1 in E1. rewrite H2 in E2.
  split; [by apply negb_false_iff|]. split; [apply (dl_valueint _ L); [done|lia]|lia].
Qed.

(** A number of the file that is the integer [n]; a port number. *)
Definition number_is (j : J) (n : Z) : Prop := cJSON_IsNumber (api D) (Some j) = true /\ double_eq (cJSON_valuedouble D j) n = true.
Definition port_number (j : J) (n : Z) : Prop := number_is j n /\ 0 <= n <= 65535.

Lemma port_extract_spec j n : config_port_extract D (Some j) = Some n <-> port_number j n.
Proof.
  unfold config_port_extract, port_number, number_is. destruct (cJSON_IsNumber (api D) (Some j)); cbn [negb]; [|by split; [|intros [[? _] _]]]. set (d := cJSON_valuedouble D j).
  destruct (double_eq d (double_trunc d)) eqn:E.
  - destruct (double_int_range _ 0 65535 E) as (_ & -> & ->). split.
    + if_as E2; [done|]. intros [= <-]. split; [done|lia].
    + intros [[_ H] Hr]. apply double_eq_trunc in H. subst n. if_as E2; [lia|done].
  - cbn [negb]. rewrite orb_true_r. split; [done|]. intros [[_ H] _]. pose proof (double_eq_trunc _ _ H) as Hn. rewrite Hn in E. congruence.
Qed.

(** ** Proofs: members *)

Lemma first_app name (m m' : list (bytes * J)) : first_member name m = None -> first_member name (m ++ m') = first_member name m'.
Proof.
  unfold first_member. induction m as [|kv m IH]; [done|]. cbn [app List.find]. destruct (bool_decide (kv.1 = name)); [done|]. exact IH.
Qed.

Lemma first_app_some name (m m' : list (bytes * J)) v : first_member name m = Some v -> first_member name (m ++ m') = Some v.
Proof.
  unfold first_member. induction m as [|kv m IH]; [done|]. cbn [app List.find]. destruct (bool_decide (kv.1 = name)); [done|]. exact IH.
Qed.

(** The object has at most one member of the name. *)
Definition unique_member (name : bytes) (m : list (bytes * J)) : Prop := first_member name (without_first name m) = None.

Lemma without_other name other (m : list (bytes * J)) : name <> other -> first_member other (without_first name m) = first_member other m.
Proof.
  intros Hne. induction m as [|kv m IH]; [done|]. cbn [without_first]. unfold first_member in *. cbn [List.find].
  destruct (bool_decide_reflect (kv.1 = name)) as [->|H1]; [by rewrite bool_decide_eq_false_2|]. cbn [List.find].
  destruct (bool_decide (kv.1 = other)); [done|]. exact IH.
Qed.

(** ** Proofs: proxies *)

(** The item has an array of hosts, all of them strings. *)
Definition hosts_ok (j : J) : Prop := exists a, member D j "vhost" = Some a /\ cJSON_IsArray (api D) (Some a) = true /\
  cJSON_children (api D) (Some a) <> [] /\ Forall (fun v => cJSON_IsString (api D) (Some v) = true) (cJSON_children (api D) (Some a)).
Definition item_ok (j : J) : Prop := hosts_ok j /\ single_check D j = true.

(** An item of the file that can be used: its hosts are a string or a nonempty array of
    strings, its address is a string, and its port, if any, a port number. *)
Definition hosts_given (j : J) : Prop := exists v, member D j "vhost" = Some v /\
  if cJSON_IsArray (api D) (Some v)
  then cJSON_children (api D) (Some v) <> [] /\ Forall (fun m => cJSON_IsString (api D) (Some m) = true) (cJSON_children (api D) (Some v))
  else cJSON_IsString (api D) (Some v) = true.
Definition target_given (j : J) : Prop := (exists a, member D j "address" = Some a /\ cJSON_IsString (api D) (Some a) = true) /\
  forall p, member D j "port" = Some p -> exists n, port_number p n.
Definition item_usable (j : J) : Prop := hosts_given j /\ target_given j.

(** The names an item of the file gives to its hosts, those of an item in the result, and
    the item of the result for one of the file: the same hosts, and every other member. *)
Definition given_names (j : J) : list bytes := match member D j "vhost" with
  | Some v => if cJSON_IsArray (api D) (Some v) then omap (valuestring D) (cJSON_children (api D) (Some v)) else option_list (valuestring D v)
  | None => []
  end.
Definition item_names (j : J) : list bytes := omap (valuestring D) (item_children D j "vhost").
Definition same_item (j j' : J) : Prop := item_names j' = given_names j /\
  forall name, name <> str "vhost" -> cJSON_GetObjectItemCaseSensitive (api D) (Some j') name = cJSON_GetObjectItemCaseSensitive (api D) (Some j) name.

(** The items of the result are those of the file that can be used, in order. *)
Inductive kept_items : list J -> list J -> Prop :=
  | kept_nil : kept_items [] []
  | kept_drop j items kept : ~ item_usable j -> kept_items items kept -> kept_items (j :: items) kept
  | kept_keep j j' items kept : item_usable j -> same_item j j' -> kept_items items kept -> kept_items (j :: items) (j' :: kept).

(** What becomes of an item: [None] when it is dropped. *)
Definition item_kept (j : J) : option J :=
  match vhost_prepare D [] j with Next (j', valid, _) => if valid && single_check D j' then Some j' else None | _ => None end.

Lemma vhost_prepare_ok allocs j : unique_member (str "vhost") (cJSON_members D j) ->
  match vhost_prepare D allocs j with
  | Next (j', valid, allocs') => (exists rest, vhost_prepare D [] j = Next (j', valid, rest)) /\ (valid = true -> hosts_ok j') /\
      (all_succeed allocs' = false -> all_succeed allocs = false)
  | Return e => e = (CONF_ECMEMORY, None) /\ all_succeed allocs = false
  | Oob => False
  end.
Proof.
  intros Hu. unfold vhost_prepare. destruct (member D j "vhost") as [v|] eqn:Ev; [|by split; [eexists|split]].
  destruct (cJSON_IsArray (api D) (Some v)) eqn:Ea; cbn [negb].
  - split; [by eexists|]. split; [|done]. intros Hv. apply andb_true_iff in Hv as [Hs Hn]. exists v. split; [done|]. split; [done|]. split.
    + intros He. by rewrite He in Hn.
    + apply list.Forall_forall. intros x Hx. rewrite forallb_forall in Hs. by apply Hs, list_elem_of_In.
  - destruct (cJSON_IsString (api D) (Some v)); cbn [negb]; [|by split; [eexists|split]].
    destruct (next_alloc allocs) as [a1 l1] eqn:E1. apply next_alloc_spec in E1. destruct a1; cbn [negb]; [|by rewrite E1].
    destruct (next_alloc l1) as [a2 l2] eqn:E2. apply next_alloc_spec in E2. destruct (next_alloc l2) as [a3 l3] eqn:E3. apply next_alloc_spec in E3.
    destruct a2; cbn [negb orb]; [|by rewrite E1, E2]. destruct a3; cbn [negb]; [|by rewrite E1, E2, E3].
    cbn [next_alloc negb orb]. split; [by eexists|]. split; [|by rewrite E1, E2, E3]. intros _.
    set (s := cJSON_CreateString D _). destruct (dl_add _ L (cJSON_DeleteItemFromObjectCaseSensitive D j (str "vhost")) (str "vhost") [s]) as (a & Hm & Ha & Hc).
    exists a. unfold member. rewrite (dl_get _ L), Hm, (dl_delete _ L). split; [|split; [done|]; rewrite Hc; split; [done|]].
    + rewrite first_app by done. unfold first_member. cbn. by rewrite bool_decide_eq_true_2.
    + apply list.Forall_cons. split; [apply (dl_string _ L)|by apply list.Forall_nil].
Qed.

Lemma item_kept_ok j j' : unique_member (str "vhost") (cJSON_members D j) -> item_kept j = Some j' -> item_ok j'.
Proof.
  intros Hu. unfold item_kept. pose proof (vhost_prepare_ok [] j Hu) as Hv. destruct (vhost_prepare D [] j) as [[[j1 valid] l]|e|]; try done.
  destruct Hv as (_ & Hv & _). destruct valid; [|done]. cbn [andb]. destruct (single_check D j1) eqn:E; [|done]. intros [= <-]. by split; [apply Hv|].
Qed.

(** Putting a host into an array leaves the other members. *)
Lemma get_other j l name : name <> str "vhost" ->
  cJSON_GetObjectItemCaseSensitive (api D) (Some (cJSON_AddArrayToObject D (cJSON_DeleteItemFromObjectCaseSensitive D j (str "vhost")) (str "vhost") l)) name =
  cJSON_GetObjectItemCaseSensitive (api D) (Some j) name.
Proof.
  intros Hn. rewrite !(dl_get _ L). destruct (dl_add _ L (cJSON_DeleteItemFromObjectCaseSensitive D j (str "vhost")) (str "vhost") l) as (a & -> & _).
  rewrite (dl_delete _ L). rewrite <- (without_other (str "vhost") name (cJSON_members D j)) by done.
  destruct (first_member name (without_first _ _)) as [v|] eqn:E; [by apply first_app_some|]. rewrite first_app by done. unfold first_member. cbn. by rewrite bool_decide_eq_false_2.
Qed.
Lemma single_check_spec j : single_check D j = true <-> target_given j.
Proof.
  unfold single_check, target_given. rewrite andb_true_iff. apply Morphisms_Prop.and_iff_morphism.
  - destruct (member D j "address") as [a|]; split; [intros H; by exists a|by intros (b & [= <-] & H)|done|by intros (b & ? & _)].
  - destruct (member D j "port") as [p|]; [|done]. rewrite bool_decide_eq_true. split.
    + intros [n Hn] q [= <-]. exists n. by apply port_extract_spec.
    + intros H. destruct (H p eq_refl) as [n Hn]. exists n. by apply port_extract_spec.
Qed.
Lemma target_given_same j j' : (forall name, name <> str "vhost" -> cJSON_GetObjectItemCaseSensitive (api D) (Some j') name = cJSON_GetObjectItemCaseSensitive (api D) (Some j) name) ->
  target_given j' <-> target_given j.
Proof. intros H. unfold target_given, member. by rewrite !H. Qed.

Lemma item_kept_spec j : unique_member (str "vhost") (cJSON_members D j) -> match item_kept j with Some j' => item_usable j /\ same_item j j' | None => ~ item_usable j end.
Proof.
  intros Hu. unfold item_kept, vhost_prepare, item_usable, hosts_given, same_item, given_names. destruct (member D j "vhost") as [v|] eqn:Ev; [|by intros [(v & ? & _) _]].
  destruct (cJSON_IsArray (api D) (Some v)) eqn:Ea; cbn [negb].
  - destruct (forallb _ _ && _ && single_check D j) eqn:E.
    + apply andb_true_iff in E as [E Hc]. apply andb_true_iff in E as [Hs Hn]. split; [|split; [by unfold item_names, item_children; rewrite Ev|done]]. split; [|by apply single_check_spec].
      exists v. rewrite Ea. split; [done|]. split; [intros He; by rewrite He in Hn|]. apply list.Forall_forall. intros x Hx. rewrite forallb_forall in Hs. by apply Hs, list_elem_of_In.
    + intros [(v' & [= <-] & Hv) Ht]. rewrite Ea in Hv. destruct Hv as [Hn Hs]. apply single_check_spec in Ht. rewrite Ht, andb_true_r in E. apply andb_false_iff in E as [E|E].
      * rewrite (proj2 (forallb_forall _ _)) in E; [done|]. intros x Hx. eapply list.Forall_forall in Hs; [exact Hs|by apply list_elem_of_In].
      * apply negb_false_iff in E. apply Hn, nil_length_inv. lia.
  - destruct (cJSON_IsString (api D) (Some v)) eqn:Es; cbn [negb andb]; [|intros [(v' & [= <-] & Hv) _]; rewrite Ea in Hv; congruence].
    cbn [next_alloc negb orb andb]. set (s := cJSON_CreateString D _). set (j' := cJSON_AddArrayToObject D _ _ _).
    assert (Ho : forall name, name <> str "vhost" -> cJSON_GetObjectItemCaseSensitive (api D) (Some j') name = cJSON_GetObjectItemCaseSensitive (api D) (Some j) name) by (intros; by apply get_other).
    destruct (single_check D j') eqn:Ec.
    + apply single_check_spec, (target_given_same _ _ Ho) in Ec. split; [split; [exists v; by rewrite Ea|done]|]. split; [|done].
      unfold item_names, item_children, member. destruct (dl_add _ L (cJSON_DeleteItemFromObjectCaseSensitive D j (str "vhost")) (str "vhost") [s]) as (a & Hm & Ha & Hc).
      rewrite (dl_get _ L). unfold j'. rewrite Hm, (dl_delete _ L), first_app by done. unfold first_member. cbn [List.find fst]. rewrite bool_decide_eq_true_2 by done. cbn [fmap option_fmap option_map snd].
      rewrite Hc. cbn [omap list_omap]. unfold valuestring. destruct (dl_string _ L (cJSON_valuestring (api D) v)) as [H1 H2]. unfold s. by rewrite H1, H2, Es.
    + intros [_ Ht]. apply (target_given_same _ _ Ho), single_check_spec in Ht. congruence.
Qed.
Lemma kept_omap items : Forall (fun j => unique_member (str "vhost") (cJSON_members D j)) items -> kept_items items (omap item_kept items).
Proof.
  induction 1 as [|j items Hj _ IH]; [by constructor|]. pose proof (item_kept_spec j Hj) as H. cbn [omap list_omap]. destruct (item_kept j) as [j'|]; [destruct H|]; by constructor.
Qed.

Lemma proxy_filter_ok items : forall allocs, Forall (fun j => unique_member (str "vhost") (cJSON_members D j)) items ->
  match proxy_filter D allocs items with
  | Next (kept, allocs') => kept = omap item_kept items /\ (all_succeed allocs' = false -> all_succeed allocs = false)
  | Return e => e = (CONF_ECMEMORY, None) /\ all_succeed allocs = false
  | Oob => False
  end.
Proof.
  induction items as [|j items IH]; intros allocs Hu; [done|]. apply Forall_cons_1 in Hu as [Hj Hu]. cbn [proxy_filter].
  pose proof (vhost_prepare_ok allocs j Hj) as Hv. destruct (vhost_prepare D allocs j) as [[[j1 valid] l1]|e|]; [|done|done]. cbn [mbind run_bind].
  destruct Hv as ((rest & He) & _ & Hs). specialize (IH l1 Hu). destruct (proxy_filter D l1 items) as [[kept l2]|e|]; [|destruct IH as [-> IH]; by split; [|apply Hs]|done].
  cbn [mbind run_bind]. destruct IH as [-> Hs2]. split; [|by intros; apply Hs, Hs2]. assert (Hk : item_kept j = if valid && single_check D j1 then Some j1 else None) by (unfold item_kept; by rewrite He).
  cbn [omap list_omap]. rewrite Hk. by destruct (valid && single_check D j1).
Qed.

Definition lower_name (name : bytes) : bytes := chr_lower <$> name.
Definition lowered (names : list bytes) : list bytes := lower_name <$> names.

Lemma vhosts_add_ok vs : forall names allocs, Forall (fun v => cJSON_IsString (api D) (Some v) = true) vs -> NoDup (lowered names) ->
  match vhosts_add D names allocs vs with
  | Next (names', allocs') => names' = names ++ omap (valuestring D) vs /\ NoDup (lowered names') /\ (all_succeed allocs' = false -> all_succeed allocs = false)
  | Return (e, d) => (e = CONF_ECMEMORY /\ all_succeed allocs = false) \/ (e = CONF_ECPROXYDUP /\ ~ NoDup (lowered (names ++ omap (valuestring D) vs)))
  | Oob => False
  end.
Proof.
  induction vs as [|v vs IH]; intros names allocs Hs Hn; [by cbn; rewrite app_nil_r|]. apply Forall_cons_1 in Hs as [Hv Hs]. cbn [vhosts_add].
  assert (Hvs : valuestring D v = Some (cJSON_valuestring (api D) v)) by (unfold valuestring; by rewrite Hv). unfold vhost_add. rewrite Hvs.
  cbn [omap list_omap]. rewrite Hvs. set (vhost := cJSON_valuestring (api D) v). change (omap (valuestring D) vs) with (omap (valuestring D) vs).
  destruct (existsb _ names) eqn:E.
  - cbn [mbind run_bind]. right. split; [done|]. apply existsb_exists in E as (n & Hin & Heq). apply bool_decide_eq_true in Heq.
    unfold lowered. rewrite fmap_app, list.NoDup_app. intros (_ & Hd & _). apply (Hd (lower_name n)); [apply list_elem_of_fmap; exists n; by split; [|apply list_elem_of_In]|].
    unfold lower_name at 1. rewrite Heq. cbn. by left.
  - destruct (next_alloc allocs) as [a1 l1] eqn:E1. apply next_alloc_spec in E1. destruct a1; cbn [negb]; [|by left; rewrite E1].
    destruct (next_alloc l1) as [a2 l2] eqn:E2. apply next_alloc_spec in E2. destruct a2; cbn [negb]; [|by left; rewrite E1, E2].
    cbn [mbind run_bind]. specialize (IH (names ++ [vhost]) l2 Hs). rewrite <- app_assoc in IH. rewrite E1, E2. cbn [andb]. apply IH.
    unfold lowered. rewrite fmap_app, list.NoDup_app. split; [done|]. split; [|by apply list.NoDup_singleton].
    intros x Hx Hin. apply list_elem_of_singleton in Hin as ->. apply list_elem_of_fmap in Hx as (n & Hn' & Hin). revert E.
    rewrite (proj2 (existsb_exists _ names)); [done|]. exists n. split; [by apply list_elem_of_In|]. by apply bool_decide_eq_true.
Qed.

Lemma hosts_strings j : hosts_ok j -> Forall (fun v => cJSON_IsString (api D) (Some v) = true) (item_children D j "vhost") /\ item_children D j "vhost" <> [].
Proof. intros (a & Hm & _ & Hn & Hs). unfold item_children. by rewrite Hm. Qed.

Lemma duplicates_ok items : forall names allocs, Forall hosts_ok items -> NoDup (lowered names) ->
  match duplicates_check D names allocs items with
  | Next (names', allocs') => NoDup (lowered (names ++ concat (item_names <$> items))) /\ (all_succeed allocs' = false -> all_succeed allocs = false)
  | Return (e, d) => (e = CONF_ECMEMORY /\ all_succeed allocs = false) \/ (e = CONF_ECPROXYDUP /\ ~ NoDup (lowered (names ++ concat (item_names <$> items))))
  | Oob => False
  end.
Proof.
  induction items as [|j items IH]; intros names allocs Hi Hn; [by cbn; rewrite app_nil_r|]. apply Forall_cons_1 in Hi as [Hj Hi].
  cbn [duplicates_check fmap list_fmap concat]. pose proof (vhosts_add_ok (item_children D j "vhost") names allocs (proj1 (hosts_strings j Hj)) Hn) as Hv.
  fold (item_names j) in Hv. destruct (vhosts_add D names allocs _) as [[names1 l1]|[e d]|]; [| |done]; cbn [mbind run_bind].
  - destruct Hv as (-> & Hn1 & Hs1). specialize (IH _ l1 Hi Hn1). rewrite <- app_assoc in IH.
    destruct (duplicates_check D _ l1 items) as [[names2 l2]|[e d]|]; [| |done].
    + destruct IH as [IH1 IH2]. split; [done|]. intros. by apply Hs1, IH2.
    + destruct IH as [[-> IH]|IH]; [left; by split; [|apply Hs1]|by right].
  - destruct Hv as [Hv|[-> Hv]]; [by left|]. right. split; [done|]. rewrite app_assoc. intros Hd. apply Hv. revert Hd. unfold lowered. rewrite fmap_app, list.NoDup_app. tauto.
Qed.

(** The proxies of a configuration: their items, in order, without the invalid ones. *)
Lemma proxy_parse_ok allocs src : cJSON_IsArray (api D) (Some src) = true ->
  Forall (fun j => unique_member (str "vhost") (cJSON_members D j)) (cJSON_children (api D) (Some src)) ->
  let items := omap item_kept (cJSON_children (api D) (Some src)) in
  match config_proxy_parse D allocs src with
  | Next (proxy, allocs') => cJSON_IsArray (api D) (Some proxy) = true /\ cJSON_children (api D) (Some proxy) = items /\ items <> [] /\
      Forall item_ok items /\ NoDup (lowered (concat (item_names <$> items)))
  | Return (e, _) => (e = CONF_ECMEMORY /\ all_succeed allocs = false) \/ (e = CONF_ECPROXY /\ items = []) \/
      (e = CONF_ECPROXYDUP /\ ~ NoDup (lowered (concat (item_names <$> items))))
  | Oob => False
  end.
Proof.
  intros Ha Hu items. unfold config_proxy_parse. pose proof (proxy_filter_ok _ allocs Hu) as Hf.
  destruct (proxy_filter D allocs _) as [[kept l1]|e|]; [|destruct Hf as [-> Hf]; by left|done]. cbn [mbind run_bind]. destruct Hf as [Hk Hs]. fold items in Hk. subst kept.
  if_as E; [right; left; split; [done|]; apply nil_length_inv; lia|].
  destruct (next_alloc l1) as [a l2] eqn:E1. apply next_alloc_spec in E1. destruct a; cbn [negb]; [|left; split; [done|]; apply Hs; by rewrite E1].
  assert (Hok : Forall item_ok items).
  { apply list.Forall_forall. intros j Hj. apply list_elem_of_omap in Hj as (j0 & Hj0 & Hk). eapply item_kept_ok; [|done]. by eapply list.Forall_forall in Hu. }
  assert (Hh : Forall hosts_ok items) by (eapply Forall_impl; [|exact Hok]; by intros j [? ?]).
  pose proof (duplicates_ok items [] l2 Hh ltac:(by apply list.NoDup_nil)) as Hd. cbn [app] in Hd.
  destruct (duplicates_check D [] l2 items) as [[names l3]|[e d]|]; [| |done]; cbn [mbind run_bind].
  - destruct (dl_children _ L src items Ha) as [H1 H2]. destruct Hd as [Hd _]. rewrite H2. do 2 (split; [done|]). split; [intros He; rewrite He in E; done|done].
  - destruct Hd as [[-> Hd]|Hd]; [left; split; [done|]; apply Hs; by rewrite E1|by right; right].
Qed.

(** ** Proofs: the whole configuration *)

Lemma item_ok_valid j : item_ok j -> item_valid (api D) j = true.
Proof.
  intros [(a & Hm & Ha & _) Hc]. unfold single_check in Hc. apply andb_true_iff in Hc as [H1 H2]. unfold item_valid, get. unfold member in *.
  rewrite Hm, Ha. destruct (cJSON_GetObjectItemCaseSensitive (api D) (Some j) (str "address")) as [b|]; [|done]. rewrite H1. cbn [andb].
  destruct (cJSON_GetObjectItemCaseSensitive (api D) (Some j) (str "port")) as [port|]; [|done]. apply bool_decide_eq_true in H2 as [p Hp].
  apply port_extract_range in Hp as (-> & -> & Hr). unfold UINT16_MAX. lia.
Qed.

(** The interval of the metrics section: none without one, otherwise an object whose
    interval, if any, is zero or within the limits. *)
Definition interval_setting (metrics : option J) (n : Z) : Prop := match metrics with
  | None => n = 0
  | Some m => cJSON_IsObject D metrics = true /\
      match member D m "interval" with
      | None => n = 0
      | Some j => number_is j n /\ (n = 0 \/ CONF_METRICS_MINIMUM_INTERVAL <= n <= CONF_METRICS_MAXIMUM_INTERVAL)
      end
  end.

Lemma interval_read_spec metrics : match interval_read D metrics with
  | Next n => interval_setting metrics n
  | Return (e, _) => e = CONF_ECMETRICS /\ ~ exists n, interval_setting metrics n
  | Oob => False
  end.
Proof.
  unfold interval_read, interval_setting. destruct metrics as [m|]; [|done]. destruct (cJSON_IsObject D (Some m)); cbn [negb fails]; [|split; [done|]; by intros (n & ? & _)].
  destruct (member D m "interval") as [j|]; [|done]. unfold number_is. destruct (cJSON_IsNumber (api D) (Some j)); cbn [negb]; [|split; [done|]; by intros (n & _ & [? _] & _)].
  set (d := cJSON_valuedouble D j). destruct (double_eq d (double_trunc d)) eqn:E; cbn [negb].
  - destruct (double_int_range _ 0 CONF_METRICS_MAXIMUM_INTERVAL E) as (-> & -> & _). destruct (double_int_range _ CONF_METRICS_MINIMUM_INTERVAL 0 E) as (-> & -> & _).
    replace (isfinite d) with true by (symmetry; unfold double_eq, double_compare in E; by destruct d as [| []| |]). unfold u32, CONF_METRICS_MINIMUM_INTERVAL, CONF_METRICS_MAXIMUM_INTERVAL in *.
    if_as E2; [split; [done|]; intros (n & _ & [_ Hn] & Hr); apply double_eq_trunc in Hn; lia|]. rewrite Z.mod_small by lia. split; [done|]. split; [done|lia].
  - rewrite orb_true_r. split; [done|]. intros (n & _ & [_ Hn] & _). pose proof (double_eq_trunc _ _ Hn) as Ht. rewrite Ht in E. congruence.
Qed.

(** Continuing after a step that may lack memory. *)
Definition memory_ok {A} (allocs : list bool) (r : run conf_failure (A * list bool)) (P : A -> Prop) : Prop :=
  match r with
  | Next (x, allocs') => P x /\ (all_succeed allocs' = false -> all_succeed allocs = false)
  | Return e => e = (CONF_ECMEMORY, None) /\ all_succeed allocs = false
  | Oob => False
  end.

(** The string a section gives to a setting. *)
Definition given_string (section : option J) (name : string) : option bytes := (section ≫= (fun s => member D s name)) ≫= valuestring D.

Lemma string_setting_ok allocs section name d : memory_ok allocs (string_setting D allocs section name d) (fun s => s = default d (given_string section name)).
Proof.
  unfold string_setting, given_string. destruct (section ≫= _) as [j|]; cbn [mbind option_bind]; [|done]. destruct (valuestring D j) as [s|]; [|done].
  destruct (next_alloc allocs) as [a l] eqn:E. apply next_alloc_spec in E. unfold fails, memory_ok. destruct a; cbn [negb]; by rewrite E.
Qed.

(** The port the file gives to the listener. *)
Definition port_setting (j : option J) (n : Z) : Prop := match j with None => n = 25565 | Some j => port_number j n end.

Lemma port_read_spec (o : option J) :
  match match o with None => Next 25565 | Some j => match config_port_extract D (Some j) with None => fails CONF_ECLISTENPORT | Some port => Next (u16 port) end end : run conf_failure Z with
  | Next n => port_setting o n
  | Return (e, _) => e = CONF_ECLISTENPORT /\ exists j, o = Some j /\ ~ exists n, port_number j n
  | Oob => False
  end.
Proof.
  destruct o as [j|]; [|done]. destruct (config_port_extract D (Some j)) as [p|] eqn:Ep.
  - apply port_extract_spec in Ep. unfold u16. rewrite Z.mod_small; [done|]. destruct Ep as [_ Ep]. lia.
  - split; [done|]. exists j. split; [done|]. intros [n Hn]. apply port_extract_spec in Hn. congruence.
Qed.
Definition nonempty (o : option bytes) : option bytes := match o with Some [] => None | o => o end.
Lemma icon_read_ok allocs (o : option bytes) : memory_ok allocs
  (match o with Some (c :: s) => let '(a, allocs) := next_alloc allocs in if negb a then fails CONF_ECMEMORY else Next (Some (c :: s), allocs) | _ => Next (None, allocs) end)
  (fun icon => icon = nonempty o).
Proof.
  destruct o as [[|c s]|]; [done| |done]. destruct (next_alloc allocs) as [a l] eqn:E. apply next_alloc_spec in E. unfold fails, memory_ok. destruct a; cbn [negb]; by rewrite E.
Qed.

(** The settings besides the proxies: what the file says, or the default. *)
Definition settings_ok (json : J) (c : @conf J) : Prop :=
  log_filename c = Some (default (str "/var/log/mcrelay/access.log") (given_string (member D json "log") "filename")) /\
  log_level c = match member D json "log" ≫= (fun l => member D l "level") with
                | Some j => if cJSON_IsNumber (api D) (Some j) then u8 (cJSON_valueint (api D) j) else level_value MKSYS_LEVEL_INFORMATION
                | None => level_value MKSYS_LEVEL_INFORMATION end /\
  listen_address c = Some (default (str "::") (given_string (member D json "listen") "address")) /\
  port_setting (member D json "listen" ≫= (fun l => member D l "port")) (listen_port c) /\
  interval_setting (member D json "metrics") (metrics_interval c) /\
  icon_path c = nonempty (member D json "icon" ≫= valuestring D) /\ icon_b64 c = None /\ icon_cache c = None.

(** The proxies: the items of the file that can be used, in order, accepted by the route
    table, and no host twice. *)
Definition proxies_ok (json : J) (c : @conf J) : Prop :=
  exists source proxy, member D json "proxy" = Some source /\ conf_proxy c = Some proxy /\
    cJSON_IsArray (api D) (Some source) = true /\ cJSON_IsArray (api D) (Some proxy) = true /\
    kept_items (cJSON_children (api D) (Some source)) (cJSON_children (api D) (Some proxy)) /\ cJSON_children (api D) (Some proxy) <> [] /\
    Forall (fun j => item_valid (api D) j = true /\ hosts_ok j) (cJSON_children (api D) (Some proxy)) /\
    NoDup (lowered (concat (item_names <$> cJSON_children (api D) (Some proxy)))).

(** The reason of a refusal. *)
Definition refused (allocs : list bool) (json : J) (e : conf_error) : Prop := match e with
  | CONF_ECMEMORY => all_succeed allocs = false
  | CONF_ECLISTENPORT => exists j, member D json "listen" ≫= (fun l => member D l "port") = Some j /\ ~ exists n, port_number j n
  | CONF_ECMETRICS => ~ exists n, interval_setting (member D json "metrics") n
  | CONF_ECPROXY => forall source, member D json "proxy" = Some source -> cJSON_IsArray (api D) (Some source) = true -> kept_items (cJSON_children (api D) (Some source)) []
  | CONF_ECPROXYDUP => exists source kept, member D json "proxy" = Some source /\ kept_items (cJSON_children (api D) (Some source)) kept /\
      ~ NoDup (lowered (concat (item_names <$> kept)))
  | _ => False
  end.


Lemma next_alloc_true allocs : all_succeed allocs = true -> exists rest, next_alloc allocs = (true, rest) /\ all_succeed rest = true.
Proof. destruct allocs as [|a allocs]; cbn; [by exists []|]. intros [Ha Hr]%andb_true_iff. exists allocs. unfold id in Ha. by subst. Qed.

(** C40: a memory error: an item that gives its hosts twice, first as a single name and then
    as an array whose first element is no string, is accepted, because only the first
    member is checked and then moved to the end; the search for duplicates then reads the
    NULL string of that element. *)
Theorem config_duplicate_member_faults allocs src item v w x y rest : all_succeed allocs = true ->
  cJSON_children (api D) (Some src) = [item] -> cJSON_members D item = [(str "vhost", v); (str "vhost", w); (str "address", x)] ->
  cJSON_IsArray (api D) (Some v) = false -> cJSON_IsString (api D) (Some v) = true -> cJSON_IsString (api D) (Some x) = true ->
  cJSON_children (api D) (Some w) = y :: rest -> cJSON_IsString (api D) (Some y) = false ->
  config_proxy_parse D allocs src = Oob.
Proof.
  intros Hal Hsrc Hm Hva Hvs Hx Hw Hy. unfold config_proxy_parse. rewrite Hsrc. cbn [proxy_filter].
  destruct (next_alloc_true _ Hal) as (l1 & E1 & H1). destruct (next_alloc_true _ H1) as (l2 & E2 & H2). destruct (next_alloc_true _ H2) as (l3 & E3 & H3).
  destruct (next_alloc_true _ H3) as (l4 & E4 & H4). destruct (next_alloc_true _ H4) as (l5 & E5 & _).
  assert (Hv : member D item "vhost" = Some v) by (unfold member; rewrite (dl_get _ L), Hm; reflexivity).
  unfold vhost_prepare. rewrite Hv, Hva, Hvs, E1. cbn [negb]. rewrite E2, E3. cbn [negb orb mbind run_bind].
  set (j := cJSON_AddArrayToObject D _ _ _).
  assert (Hj : exists a, cJSON_members D j = [(str "vhost", w); (str "address", x); (str "vhost", a)]).
  { destruct (dl_add _ L (cJSON_DeleteItemFromObjectCaseSensitive D item (str "vhost")) (str "vhost") [cJSON_CreateString D (cJSON_valuestring (api D) v)]) as (a & Ha & _).
    exists a. unfold j. rewrite Ha, (dl_delete _ L), Hm. reflexivity. }
  destruct Hj as [a Hj]. assert (Hg : forall name, member D j name = first_member (str name) [(str "vhost", w); (str "address", x); (str "vhost", a)])
    by (intros name; unfold member; by rewrite (dl_get _ L), Hj).
  unfold single_check. rewrite (Hg "address"%string), (Hg "port"%string). change (first_member (str "address") _) with (Some x).
  change (first_member (str "port") _) with (@None J). cbv match. rewrite Hx. cbn [andb length Z.of_nat Z.eqb]. rewrite E4. cbn [negb duplicates_check].
  unfold item_children. rewrite (Hg "vhost"%string). change (first_member (str "vhost") _) with (Some w). rewrite Hw. cbn [vhosts_add].
  unfold vhost_add, valuestring. by rewrite Hy, E5.
Qed.

(** ** Proofs: the icon *)

(** The encoded icon is that of the cached file, and short enough for a reply. *)
Definition icon_fits (c : @conf J) : Prop :=
  match icon_cache c with
  | None => icon_b64 c = None
  | Some raw => exists b64, icon_b64 c = Some b64 /\ base64_decode b64 = Some raw /\ len b64 <= CONF_ICON_B64MAX
  end.

Lemma stream_bytes pieces : Forall is_bytes pieces -> is_bytes (stream pieces).
Proof. induction 1 as [|p pieces Hp _ IH]; [by apply Forall_nil|]. cbn [stream]. if_as E; [by apply Forall_nil|by apply Forall_app]. Qed.

Lemma icon_encodes raw : is_bytes raw -> let b64_size := (len raw / 3 + (if 0 <? len raw mod 3 then 1 else 0)) * 4 in
  exists b64, base64_encode b64_size (Some raw) = Next b64 /\ len b64 <= b64_size /\ base64_decode b64 = Some raw.
Proof.
  intros Hr b64_size. assert (Hsz : b64_size = (len raw + 2) / 3 * 4) by (unfold b64_size; if_as E; zlia).
  destruct (base64_encode_correct b64_size raw Hr ltac:(rewrite Hsz; zlia)) as (out & H1 & H2 & H3). exists out. split; [done|]. split; [done|].
  rewrite H3. replace (b64_size <? _) with false by lia. by rewrite Nat2Z.id, firstn_all.
Qed.

(** Loading the icon keeps the last good one: whatever the file and the allocation, no
    memory error occurs, and either the icon is now that of the file, decodable and within
    the limit of a reply (or cleared, when none is configured), or the load failed with one
    warning and the configuration is what it was; nothing else of it changes. *)
Lemma config_icon_exact read alloc c action : Forall is_bytes (ra_pieces read) -> icon_fits c ->
  exists c' ready warnings, config_icon_load read alloc (Some c) (Some action) = Next (Some c', ready, warnings) /\ icon_fits c' /\
    c' = with_icon c (icon_b64 c') (icon_cache c') /\
    (if ready : bool then warnings = [] /\ icon_cache c' = match icon_path c with None => None | Some _ => Some (stream (ra_pieces read)) end
     else c' = c /\ length warnings = 1%nat).
Proof.
  intros Hb Hc. unfold config_icon_load. assert (Hself : c = with_icon c (icon_b64 c) (icon_cache c)) by (by destruct c).
  destruct (icon_path c) as [path|] eqn:Ep; [|by eexists _, _, _; split].
  destruct (freadall_exact read path false) as (_ & _ & Hr). 
  destruct (rr_result (freadall read (Some path) true false)) as [e|raw] eqn:Er.
  - destruct e; by eexists c, false, _.
  - assert (Hraw : raw = stream (ra_pieces read)) by (revert Hr; split_ifs; congruence). rewrite <- Hraw. destruct raw as [|x raw]; [by eexists c, false, _|].
    assert (Hrb : is_bytes (x :: raw)) by (rewrite Hraw; by apply stream_bytes). clear Hraw Hr Er. set (r := x :: raw) in *. if_as E1.
    { apply bool_decide_eq_true in E1. by exists c, true, []. }
    if_as E2; [by eexists c, false, _|]. destruct alloc; cbn [negb]; [|by eexists c, false, _].
    destruct (icon_encodes r Hrb) as (b64 & He & Hl & Hd). rewrite He. cbn [mbind run_bind]. eexists _, true, []. split; [done|]. split; [|by destruct c].
    exists b64. split; [done|]. split; [done|]. lia.
Qed.

End proofs.

(** ** Documents of trees *)

Definition tree_double (n : Z) : double := match n with 0 => S754_zero false | Zpos p => S754_finite false p 0 | Zneg p => S754_finite true p 0 end.

(** Parsing is given by [parse]. *)
Definition tree_document (parse : bytes -> option tree) : cJSON_document tree := {|
  api := tree_api; cJSON_ParseWithLength := parse;
  cJSON_IsObject j := match j with Some (TObject _) => true | _ => false end;
  cJSON_valuedouble j := match j with TNumber n => tree_double n | _ => S754_zero false end;
  cJSON_members j := match j with TObject m => m | _ => [] end;
  cJSON_DeleteItemFromObjectCaseSensitive j name := match j with TObject m => TObject (without_first name m) | _ => j end;
  cJSON_AddArrayToObject j name l := TObject (match j with TObject m => m | _ => [] end ++ [(name, TArray l)]);
  cJSON_CreateString := TString;
  cJSON_with_children _ l := TArray l |}.

Lemma tree_document_laws parse : document_laws (tree_document parse).
Proof.
  split.
  - by split.
  - intros j name. by destruct j.
  - intros j name. by destruct j.
  - intros j name l. by exists (TArray l).
  - done.
  - done.
  - intros j n. assert (H0 : double_eq (S754_zero false) n = true -> 0 = n) by (unfold double_eq, double_compare; by destruct (Z.compare_spec 0 n)).
    destruct j as [b|m|t|l|o]; cbn; intros H _; try by apply H0. revert H. unfold double_eq, double_compare.
    destruct m as [|p|p]; cbn [tree_double]; [by destruct (Z.compare_spec 0 n)|..]; cbn [Z.leb Z.compare Z.pow]; rewrite Z.mul_1_r;
      [by destruct (Z.compare_spec (Z.pos p) n)|by destruct (Z.compare_spec (Z.neg p) n)].
Qed.

(** Two items, one of which names a single host; the other has no address. *)
Definition sample_json : tree := TObject [
  (str "listen", TObject [(str "port", TNumber 25566)]);
  (str "metrics", TObject [(str "interval", TNumber 600)]);
  (str "proxy", TArray [TObject [(str "vhost", TString (str "A.example")); (str "address", TString (str "backend")); (str "port", TNumber 25565)];
                        TObject [(str "vhost", TArray [TString (str "b.example")])]])].
Definition sample_document : cJSON_document tree := tree_document (fun _ => Some sample_json).


Definition sample_item : tree := TObject [(str "vhost", TString (str "a")); (str "vhost", TArray [TNumber 1]); (str "address", TString (str "b"))].

Lemma config_duplicate_member_faults_witness : config_proxy_parse sample_document [] (TArray [sample_item]) = Oob.
Proof.
  apply (config_duplicate_member_faults sample_document (tree_document_laws _) [] (TArray [sample_item]) sample_item (TString (str "a")) (TArray [TNumber 1])
    (TString (str "b")) (TNumber 1) []); reflexivity.
Defined.

Definition sample_conf : @conf tree := {| log_filename := Some []; log_level := 2; listen_address := Some []; listen_port := 0; metrics_interval := 0;
  icon_path := Some (str "icon.png"); icon_b64 := None; icon_cache := None; conf_proxy := None |}.
Definition sample_read : read_answers := {|
  ra_open := true; ra_stat := Some Regular; ra_fdopen := true; ra_malloc := true; ra_realloc := true; ra_pieces := [str "ab"; str "cd"]; ra_ferror := false |}.

