(* ===== verification/Hosts.v ===== *)
(** * The hosts file ([src/src/resolver/hosts.c])

    The names and addresses of a hosts file.  A file is the list of its bytes
    and whether reading it ends in an error; [None] stands for a file that
    cannot be opened. *)

From Stdlib Require Import String.
From S2P Require Import Prelude Proxy.

(** ** Types *)

Definition HOSTS_LINE_SIZE : Z := 8192.
Definition HOSTS_NAME_SIZE : Z := 256.
Definition HOSTS_RECORD_LIMIT : Z := 16384.

Record hosts_record := { h_address : net_addr; h_name : bytes }.
Inductive hosts_record_add_status := HOSTS_RECORD_ADD_OK | HOSTS_RECORD_ADD_LIMIT | HOSTS_RECORD_ADD_MEMORY.

(** [record_count] is the length of [records]; there is room for
    [record_capacity] of them. *)
Record hosts_table := { record_capacity : Z; records : list hosts_record }.
Inductive hosts_load_status :=
  | HOSTS_LOAD_OK | HOSTS_LOAD_FILE_ERROR | HOSTS_LOAD_LIMIT | HOSTS_LOAD_MEMORY | HOSTS_LOAD_BAD_ARGUMENT.
Inductive hosts_lookup_status := HOSTS_LOOKUP_OK | HOSTS_LOOKUP_NOT_FOUND | HOSTS_LOOKUP_MEMORY | HOSTS_LOOKUP_BAD_ARGUMENT.
Definition hosts_address_result := option (list net_addr).

Definition hosts_table_zero : hosts_table := {| record_capacity := 0; records := [] |}.

(** ** Records *)

(** [isspace] in the C locale. *)
Definition isspace (c : Z) : bool := (c =? 32) || ((9 <=? c) && (c <=? 13)).

Definition hosts_address_equal (left right : net_addr) : bool :=
  if negb (family left =? family right) then false
  else if family left =? AF_INET then bool_decide (addr left = addr right)
  else (family left =? AF_INET6) && bool_decide (addr left = addr right).

Definition hosts_address_is_loopback (address : net_addr) : bool :=
  if family address =? AF_INET then bool_decide (addr address !! 0%nat = Some 127)
  else if family address =? AF_INET6 then bool_decide (addr address = replicate 15 0 ++ [1])
  else false.

(** The string stored in [target]. *)
Definition hosts_name_normalize (source : option bytes) (target_size : Z) : option bytes :=
  match source with
  | None => None
  | Some source =>
      if target_size =? 0 then None else
      let source_size := len source in
      let source_size :=
        if (0 <? source_size) && bool_decide (source !! Z.to_nat (source_size - 1) = Some 46) then source_size - 1 else source_size in
      if (source_size =? 0) || (target_size <=? source_size)
         || ((0 <? source_size) && bool_decide (source !! Z.to_nat (source_size - 1) = Some 46)) then None else
      let text := take (Z.to_nat source_size) source in
      if existsb (fun c => isspace c || (c =? 35)) text then None else Some (chr_lower <$> text)
  end.

(** A table with the answers of the allocations to come. *)
Record hosts_state := { table : hosts_table; allocs : list bool }.

(** The table afterwards and the status; [Oob] for a write past the array. *)
Definition hosts_record_add (st : hosts_state) (name : bytes) (address : net_addr)
    : run (hosts_state * hosts_record_add_status) hosts_state :=
  let t := table st in
  if existsb (fun r => bool_decide (h_name r = name) && hosts_address_equal (h_address r) address) (records t) then Next st else
  if len (records t) =? HOSTS_RECORD_LIMIT then Return (st, HOSTS_RECORD_ADD_LIMIT) else
  st ← (if len (records t) =? record_capacity t then
          let capacity := if record_capacity t =? 0 then 16 else record_capacity t * 2 in
          let capacity := if HOSTS_RECORD_LIMIT <? capacity then HOSTS_RECORD_LIMIT else capacity in
          let '(a, allocs) := next_alloc (allocs st) in
          if negb a then Return ({| table := t; allocs := allocs |}, HOSTS_RECORD_ADD_MEMORY)
          else Next {| table := {| record_capacity := capacity; records := records t |}; allocs := allocs |}
        else Next st);
  let t := table st in
  if record_capacity t <=? len (records t) then Oob else
  Next {| table := {| record_capacity := record_capacity t;
                      records := records t ++ [{| h_address := address; h_name := snprintf_s HOSTS_NAME_SIZE name |}] |};
          allocs := allocs st |}.

Definition localhost : bytes := str "localhost".

(** ** Reading *)

(** The text up to a character, and from it on. *)
Fixpoint drop_spaces (l : bytes) : bytes :=
  match l with [] => [] | c :: l' => if isspace c then drop_spaces l' else l end.
Fixpoint take_word (l : bytes) : bytes * bytes :=
  match l with
  | [] => ([], [])
  | c :: l' => if isspace c then ([], l) else let '(w, rest) := take_word l' in (c :: w, rest)
  end.

(** The cursor after a word and the blank that ends it. *)
Definition past_blank (l : bytes) : bytes := match l with [] => [] | _ :: l => l end.

Section hosts.
Context (I : inet).

Definition hosts_table_fallback_add (st : hosts_state) : run (hosts_state * hosts_record_add_status) hosts_state :=
  let loopback family_ r := bool_decide (h_name r = localhost) && hosts_address_is_loopback (h_address r) && (family (h_address r) =? family_) in
  let have_ipv4 := existsb (loopback AF_INET) (records (table st)) in
  let have_ipv6 := existsb (loopback AF_INET6) (records (table st)) in
  st ← (if negb have_ipv4 then hosts_record_add st localhost (net_addr_parse I (Some (str "127.0.0.1"))) else Next st);
  if negb have_ipv6 then hosts_record_add st localhost (net_addr_parse I (Some (str "::1"))) else Next st.

(** The loop over the names of a line: the table, whether a name was found and
    whether one was malformed; [fuel] bounds the number of names. *)
Fixpoint parse_names (fuel : nat) (st : hosts_state) (address : net_addr) (cursor : bytes) (name_found line_malformed : bool)
    : run (hosts_state * hosts_record_add_status) (hosts_state * bool * bool) :=
  match fuel with
  | O => Oob
  | S fuel =>
      match cursor with
      | [] => Next (st, name_found, line_malformed)
      | _ =>
          match drop_spaces cursor with
          | [] => Next (st, name_found, line_malformed)
          | cursor =>
              let '(name_text, cursor) := take_word cursor in
              let cursor := past_blank cursor in
              match hosts_name_normalize (Some name_text) HOSTS_NAME_SIZE with
              | None => parse_names fuel st address cursor true true
              | Some name =>
                  if bool_decide (name = localhost) && negb (hosts_address_is_loopback address)
                  then parse_names fuel st address cursor true true
                  else
                    st ← hosts_record_add st name address;
                    parse_names fuel st address cursor true line_malformed
              end
          end
      end
  end.

(** The bytes before the first ['#']. *)
Fixpoint before_comment (l : bytes) : bytes :=
  match l with [] => [] | c :: l => if c =? 35 then [] else c :: before_comment l end.

(** The table and the number of malformed lines. *)
Definition hosts_table_parse_line (st : hosts_state) (line : bytes) (malformed_line_count : Z)
    : run (hosts_state * hosts_record_add_status) (hosts_state * Z) :=
  let line := before_comment (cstr line) in
  match drop_spaces line with
  | [] => Next (st, malformed_line_count)
  | cursor =>
      let '(address_text, cursor) := take_word cursor in
      let cursor := past_blank cursor in
      let address := net_addr_parse I (Some address_text) in
      if family address =? 0 then Next (st, malformed_line_count + 1) else
      '(st, name_found, line_malformed) ← parse_names (S (length cursor)) st address cursor false false;
      Next (st, if negb name_found || line_malformed then malformed_line_count + 1 else malformed_line_count)
  end.

(** [fgets] with a buffer of [n + 1] bytes: the bytes read, up to and including
    a line feed, and the rest of the file. *)
Fixpoint fgets (n : nat) (file : bytes) : bytes * bytes :=
  match n, file with
  | O, _ | _, [] => ([], file)
  | S n, c :: file => if c =? 10 then ([c], file) else let '(l, rest) := fgets n file in (c :: l, rest)
  end.

(** The [fgetc] loop that skips the rest of a line. *)
Fixpoint skip_line (file : bytes) : bytes :=
  match file with [] => [] | c :: file => if c =? 10 then file else skip_line file end.

(** [strchr(line, '\n')] *)
Definition has_newline (line : bytes) : bool := existsb (fun c => c =? 10) (cstr line).

(** The table and the number of malformed lines, with the status on an early
    return.  A read error shows when the data is used up. *)
Fixpoint hosts_table_read (fuel : nat) (file : bytes) (error : bool) (st : hosts_state) (malformed : Z)
    : run (hosts_state * Z * hosts_load_status) (hosts_state * Z) :=
  match fuel with
  | O => Oob
  | S fuel =>
      let '(line, rest) := fgets (Z.to_nat (HOSTS_LINE_SIZE - 1)) file in
      (* the end of the file, or an error, before the buffer is full *)
      let at_end := negb (existsb (fun c => c =? 10) line) && (len line <? HOSTS_LINE_SIZE - 1) in
      if bool_decide (line = []) || (at_end && error) then
        if error then Return (st, malformed, HOSTS_LOAD_FILE_ERROR) else Next (st, malformed)
      else if negb (has_newline line) && negb at_end && negb (bool_decide (rest = [])) then
        hosts_table_read fuel (skip_line rest) error st (malformed + 1)
      else if negb (has_newline line) && negb at_end && error then Return (st, malformed, HOSTS_LOAD_FILE_ERROR)
      else
        match hosts_table_parse_line st line malformed with
        | Next (st, malformed) => hosts_table_read fuel rest error st malformed
        | Return (st, HOSTS_RECORD_ADD_LIMIT) => Return (st, malformed, HOSTS_LOAD_LIMIT)
        | Return (st, HOSTS_RECORD_ADD_MEMORY) => Return (st, malformed, HOSTS_LOAD_MEMORY)
        | Return (st, HOSTS_RECORD_ADD_OK) => Oob
        | Oob => Oob
        end
  end.

(** A file that cannot be opened is [None]; [close] is whether [fclose]
    succeeds.  The table ([*result], [None] for a NULL pointer), the number of
    malformed lines and the status. *)
Definition hosts_table_load (filename : option bytes) (result_null alloc : bool) (file : option (bytes * bool)) (close : bool)
    (answers : list bool) : run (option hosts_table * Z * hosts_load_status) (option hosts_table * Z * hosts_load_status) :=
  if negb result_null || match filename with None | Some [] => true | _ => false end
  then Return (None, 0, HOSTS_LOAD_BAD_ARGUMENT) else
  if negb alloc then Return (None, 0, HOSTS_LOAD_MEMORY) else
  let st := {| table := hosts_table_zero; allocs := answers |} in
  '(st, malformed, status) ←
    match file with
    | None => Next (st, 0, HOSTS_LOAD_FILE_ERROR)
    | Some (content, error) =>
        match hosts_table_read (S (length content)) content error st 0 with
        | Next (st, malformed) => Next (st, malformed, if close then HOSTS_LOAD_OK else HOSTS_LOAD_FILE_ERROR)
        | Return (st, malformed, status) => Next (st, malformed, status)
        | Oob => Oob
        end
    end;
  '(st, malformed) ←
    match status with
    | HOSTS_LOAD_FILE_ERROR => Next ({| table := hosts_table_zero; allocs := allocs st |}, 0)
    | HOSTS_LOAD_OK => Next (st, malformed)
    | _ => Return (None, malformed, status)
    end;
  match hosts_table_fallback_add st with
  | Next st => Next (Some (table st), malformed, status)
  | Return (_, HOSTS_RECORD_ADD_LIMIT) => Return (None, malformed, HOSTS_LOAD_LIMIT)
  | Return _ => Return (None, malformed, HOSTS_LOAD_MEMORY)
  | Oob => Oob
  end.
End hosts.

(** ** Lookup and copy *)

(** The loop over the records, with the addresses collected so far. *)
Fixpoint lookup_loop (name : bytes) (rs : list hosts_record) (found : list net_addr) (answers : list bool)
    : hosts_address_result * hosts_lookup_status :=
  match rs with
  | [] => match found with [] => (None, HOSTS_LOOKUP_NOT_FOUND) | _ => (Some found, HOSTS_LOOKUP_OK) end
  | r :: rs =>
      if negb (bool_decide (h_name r = name)) then lookup_loop name rs found answers
      else if existsb (fun a => hosts_address_equal a (h_address r)) found then lookup_loop name rs found answers
      else
        let '(a, answers) := next_alloc answers in
        if negb a then (None, HOSTS_LOOKUP_MEMORY) else lookup_loop name rs (found ++ [h_address r]) answers
  end.

(** [*result], empty on entry, and the status. *)
Definition hosts_table_lookup (t : option hosts_table) (hostname : option bytes) (answers : list bool)
    : hosts_address_result * hosts_lookup_status :=
  match t with
  | None => (None, HOSTS_LOOKUP_BAD_ARGUMENT)
  | Some t =>
      match hosts_name_normalize hostname HOSTS_NAME_SIZE with
      | None => (None, HOSTS_LOOKUP_BAD_ARGUMENT)
      | Some name => lookup_loop name (records t) [] answers
      end
  end.

(** The records pointer is NULL exactly when the capacity is zero. *)
Definition hosts_table_clone (source : option hosts_table) (result_null alloc1 alloc2 : bool) : option hosts_table :=
  match source with
  | None => None
  | Some t =>
      if negb result_null || (record_capacity t <? len (records t)) || (HOSTS_RECORD_LIMIT <? record_capacity t) then None
      else if negb alloc1 then None
      else if (0 <? len (records t)) && negb alloc2 then None
      else Some {| record_capacity := len (records t); records := records t |}
  end.

(** ** What a file says *)

(** The blank-separated words of a text; [cur] is the word being read. *)
Fixpoint words_acc (cur l : bytes) : list bytes :=
  match l with
  | [] => match cur with [] => [] | _ => [cur] end
  | c :: l => if isspace c then match cur with [] => words_acc [] l | _ => cur :: words_acc [] l end else words_acc (cur ++ [c]) l
  end.
Definition words (l : bytes) : list bytes := words_acc [] l.

(** The lines of a text, each with whether a line feed ends it. *)
Fixpoint lines_acc (cur file : bytes) : list (bytes * bool) :=
  match file with
  | [] => match cur with [] => [] | _ => [(cur, false)] end
  | c :: file => if c =? 10 then (cur, true) :: lines_acc [] file else lines_acc (cur ++ [c]) file
  end.
Definition lines (file : bytes) : list (bytes * bool) := lines_acc [] file.

(** A line is read whole when it fits the buffer with its line feed and the
    terminating NUL. *)
Definition line_fits (l : bytes * bool) : bool := len l.1 + (if l.2 then 1 else 0) <=? HOSTS_LINE_SIZE - 1.

Definition same_record (r r' : hosts_record) : bool :=
  bool_decide (h_name r = h_name r') && hosts_address_equal (h_address r) (h_address r').
Definition add_record (rs : list hosts_record) (r : hosts_record) : list hosts_record :=
  if existsb (fun r' => same_record r' r) rs then rs else rs ++ [r].

(** The record of a word of a line, if it may name the line's address. *)
Definition word_record (address : net_addr) (word : bytes) : option hosts_record :=
  match hosts_name_normalize (Some word) HOSTS_NAME_SIZE with
  | None => None
  | Some name => if bool_decide (name = localhost) && negb (hosts_address_is_loopback address) then None
                 else Some {| h_address := address; h_name := name |}
  end.

(** The records of a line and whether it is malformed. *)
Definition line_records (I : inet) (line : bytes) : list hosts_record * bool :=
  match words (before_comment line) with
  | [] => ([], false)
  | a :: names =>
      let address := net_addr_parse I (Some a) in
      if family address =? 0 then ([], true)
      else (omap (word_record address) names,
            bool_decide (names = []) || existsb (fun w => bool_decide (word_record address w = None)) names)
  end.

Definition file_records (I : inet) (file : bytes) : list hosts_record :=
  flat_map (fun l => if line_fits l then (line_records I l.1).1 else []) (lines file).
Definition file_malformed (I : inet) (file : bytes) : Z :=
  len (List.filter (fun l => negb (line_fits l) || (line_records I l.1).2) (lines file)).

(** ** Proofs *)

Lemma words_word cur l : cur <> [] ->
  words_acc cur l = (cur ++ (take_word l).1) :: words (past_blank (take_word l).2).
Proof.
  revert cur. induction l as [|c l IH]; intros cur Hc; simpl.
  - rewrite app_nil_r. by destruct cur.
  - destruct (isspace c) eqn:E; simpl.
    + rewrite app_nil_r. by destruct cur.
    + rewrite IH by by destruct cur. destruct (take_word l) as [w rest]. simpl. by rewrite <- app_assoc.
Qed.

Lemma words_spaces l : words l = words (drop_spaces l).
Proof. unfold words. induction l as [|c l IH]; simpl; [done|]. destruct (isspace c) eqn:E; [done|]. simpl. by rewrite E. Qed.

Lemma drop_spaces_head l c l' : drop_spaces l = c :: l' -> isspace c = false.
Proof. induction l as [|x l IH]; simpl; [done|]. destruct (isspace x) eqn:E; [auto|]. by intros [= -> ->]. Qed.

Lemma words_cons l c l' : drop_spaces l = c :: l' ->
  words l = (take_word (c :: l')).1 :: words (past_blank (take_word (c :: l')).2).
Proof.
  intros H. rewrite words_spaces, H. unfold words at 1. simpl. rewrite (drop_spaces_head _ _ _ H).
  rewrite words_word by done. by destruct (take_word l').
Qed.

Lemma drop_spaces_length l : (length (drop_spaces l) <= length l)%nat.
Proof. induction l as [|c l IH]; simpl; [lia|]. destruct (isspace c); simpl; lia. Qed.
Lemma take_word_length l : (length (take_word l).2 <= length l)%nat.
Proof. induction l as [|c l IH]; simpl; [lia|]. destruct (isspace c); simpl; [lia|]. destruct (take_word l); simpl in *; lia. Qed.

Lemma past_word_length l c l' : drop_spaces l = c :: l' -> (length (past_blank (take_word (c :: l')).2) < length l)%nat.
Proof.
  intros H. pose proof (drop_spaces_length l) as H1. rewrite H in H1. simpl in *. rewrite (drop_spaces_head _ _ _ H).
  pose proof (take_word_length l') as H2. destruct (take_word l') as [w rest]. simpl in *. destruct rest; simpl in *; lia.
Qed.

(** A table with room for what it holds. *)
Definition room (t : hosts_table) : Prop := len (records t) <= record_capacity t <= HOSTS_RECORD_LIMIT.

Lemma normalize_name source n : hosts_name_normalize (Some source) HOSTS_NAME_SIZE = Some n -> len n < HOSTS_NAME_SIZE.
Proof.
  unfold hosts_name_normalize, HOSTS_NAME_SIZE. cbn [Z.eqb]. set (size := if (0 <? len source) && _ then _ else _).
  if_as E; [done|]. if_as E2; [done|]. intros [= <-]. rewrite length_fmap, length_take. lia.
Qed.

(** What adding records to a table does, until it is full or memory runs out. *)
Definition added (st : hosts_state) (rs : list hosts_record) (st' : hosts_state) : Prop :=
  room (table st') /\ records (table st') = fold_left add_record rs (records (table st)) /\
  (all_succeed (allocs st) = true -> all_succeed (allocs st') = true).
Definition refused (st : hosts_state) (rs : list hosts_record) (s : hosts_record_add_status) : Prop :=
  match s with
  | HOSTS_RECORD_ADD_OK => False
  | HOSTS_RECORD_ADD_LIMIT => HOSTS_RECORD_LIMIT < len (fold_left add_record rs (records (table st)))
  | HOSTS_RECORD_ADD_MEMORY => all_succeed (allocs st) = false
  end.

Lemma add_record_grows rs l : len l <= len (fold_left add_record rs l).
Proof.
  revert l. induction rs as [|r rs IH]; intros l; simpl; [lia|]. specialize (IH (add_record l r)).
  unfold add_record in *. destruct (existsb _ l); lens.
Qed.

Lemma record_add_spec st name address : room (table st) -> len name < HOSTS_NAME_SIZE ->
  match hosts_record_add st name address with
  | Next st' => added st [{| h_address := address; h_name := name |}] st'
  | Return (_, s) => refused st [{| h_address := address; h_name := name |}] s
  | Oob => False
  end.
Proof.
  intros [Hr1 Hr2] Hn. unfold hosts_record_add, added, refused, room. cbn [fold_left]. unfold add_record.
  set (r := {| h_address := address; h_name := name |}). unfold HOSTS_RECORD_LIMIT, HOSTS_NAME_SIZE in *.
  change (existsb (fun r' => bool_decide (h_name r' = name) && _) (records (table st)))
    with (existsb (fun r' => same_record r' r) (records (table st))).
  destruct (existsb _ _) eqn:E0; [done|]. if_as E1; [lens|].
  assert (Hs : snprintf_s 256 name = name) by (unfold snprintf_s; apply take_ge; lia). rewrite Hs. fold r.
  if_as E2.
  - destruct (next_alloc (allocs st)) as [a l] eqn:Ea. apply next_alloc_spec in Ea. rewrite Ea. destruct a; cbn [negb mbind run_bind]; [|done].
    cbn [table record_capacity records allocs]. if_as E3; [exfalso; revert E3; split_ifs; lia|]. split; [cbn [table records record_capacity]; rewrite len_app; cbn [length]; split_ifs; lia|done].
  - cbn [mbind run_bind]. if_as E3; [lia|]. simpl. split; [lens|done].
Qed.

(** Records added in two parts. *)
Lemma added_app st rs st' rs' st'' : added st rs st' -> added st' rs' st'' -> added st (rs ++ rs') st''.
Proof. intros (_ & H1 & H2) (H3 & H4 & H5). split; [done|]. rewrite fold_left_app, <- H1. auto. Qed.

Lemma refused_app st rs st' rs' s : added st rs st' -> refused st' rs' s -> refused st (rs ++ rs') s.
Proof.
  intros (_ & H1 & H2) Hr. destruct s; simpl in *; [done|by rewrite fold_left_app, <- H1|].
  destruct (all_succeed (allocs st)); [|done]. by rewrite H2 in Hr.
Qed.

Lemma refused_more st rs rs' s : refused st rs s -> refused st (rs ++ rs') s.
Proof.
  destruct s; simpl; [done| |done]. intros H. rewrite fold_left_app.
  pose proof (add_record_grows rs' (fold_left add_record rs (records (table st)))). lia.
Qed.

Lemma added_nil st : room (table st) -> added st [] st.
Proof. done. Qed.

Section reading.
Context (I : inet).

Lemma parse_names_spec fuel st address cursor found bad : (length cursor < fuel)%nat -> room (table st) ->
  let rs := omap (word_record address) (words cursor) in
  match parse_names fuel st address cursor found bad with
  | Next (st', found', bad') => added st rs st' /\ found' = found || negb (bool_decide (words cursor = [])) /\
      bad' = bad || existsb (fun w => bool_decide (word_record address w = None)) (words cursor)
  | Return (_, s) => refused st rs s
  | Oob => False
  end.
Proof.
  revert st cursor found bad. induction fuel as [|fuel IH]; intros st cursor found bad Hf Hr rs; [lia|]. cbn [parse_names].
  assert (Hempty : drop_spaces cursor = [] -> words cursor = []) by (intros H; rewrite words_spaces, H; done).
  assert (Hnil : words cursor = [] -> added st rs st /\ found = found || negb (bool_decide (words cursor = [])) /\
    bad = bad || existsb (fun w => bool_decide (word_record address w = None)) (words cursor)).
  { unfold rs. intros ->. simpl. rewrite !orb_false_r. done. }
  destruct cursor as [|x cursor']; [by apply Hnil|]. set (cursor := x :: cursor') in *.
  destruct (drop_spaces cursor) as [|c l] eqn:Hd; [by apply Hnil, Hempty|].
  pose proof (words_cons cursor c l Hd) as Hw. pose proof (past_word_length cursor c l Hd) as Hlen.
  destruct (take_word (c :: l)) as [w rest]. cbn [fst snd] in *.
  assert (Hskip : word_record address w = None ->
    match parse_names fuel st address (past_blank rest) true true with
    | Next (st', found', bad') => added st rs st' /\ found' = found || negb (bool_decide (words cursor = [])) /\
        bad' = bad || existsb (fun w => bool_decide (word_record address w = None)) (words cursor)
    | Return (_, s) => refused st rs s
    | Oob => False
    end).
  { intros Hnone. specialize (IH st (past_blank rest) true true ltac:(lia) Hr). unfold rs. rewrite Hw. simpl. rewrite Hnone. simpl.
    destruct (parse_names _ _ _ _ _ _) as [[[st' f'] b']|[? s]|]; [|exact IH|done]. destruct IH as (H1 & -> & ->).
    split; [done|]. by rewrite !orb_true_r. }
  destruct (hosts_name_normalize (Some w) HOSTS_NAME_SIZE) as [name|] eqn:En; [|apply Hskip; unfold word_record; by rewrite En].
  if_as El; [apply Hskip; unfold word_record; by rewrite En, El|].
  assert (Hrec : word_record address w = Some {| h_address := address; h_name := name |}) by (unfold word_record; by rewrite En, El).
  pose proof (record_add_spec st name address Hr (normalize_name w name En)) as Hadd.
  unfold rs. rewrite Hw. simpl. rewrite Hrec. simpl.
  destruct (hosts_record_add st name address) as [st1|[? s]|]; cbn [mbind run_bind]; [|by apply (refused_more _ [_])|done].
  specialize (IH st1 (past_blank rest) true bad ltac:(lia) (proj1 Hadd)).
  destruct (parse_names _ _ _ _ _ _) as [[[st' f'] b']|[? s]|]; [|by apply (refused_app _ [_] st1)|done].
  destruct IH as (H1 & -> & ->). split; [by apply (added_app _ [_] st1)|]. by rewrite orb_true_r.
Qed.

(** A line, with or without its line feed, is parsed as its records. *)
Lemma parse_line_spec st line text m : room (table st) -> words (before_comment (cstr line)) = words (before_comment text) ->
  match hosts_table_parse_line I st line m with
  | Next (st', m') => added st (line_records I text).1 st' /\ m' = (if (line_records I text).2 then m + 1 else m)
  | Return (_, s) => refused st (line_records I text).1 s
  | Oob => False
  end.
Proof.
  intros Hr Ht. unfold hosts_table_parse_line, line_records. rewrite <- Ht. set (l := before_comment (cstr line)).
  destruct (drop_spaces l) as [|c l'] eqn:Hd; [rewrite words_spaces, Hd; done|]. rewrite (words_cons l c l' Hd).
  destruct (take_word (c :: l')) as [w rest]. cbn [fst snd]. if_as Ef; [done|].
  pose proof (parse_names_spec (S (length (past_blank rest))) st (net_addr_parse I (Some w)) (past_blank rest) false false ltac:(lia) Hr) as Hp.
  destruct (parse_names _ _ _ _ _ _) as [[[st' f'] b']|[? s]|]; cbn [mbind run_bind fst snd]; [|exact Hp|done].
  destruct Hp as (H1 & -> & ->). split; [done|]. cbn [orb]. by rewrite negb_involutive.
Qed.

(** ** Lines *)

Definition is_text (l : bytes) : Prop := Forall (fun c => c <> 0) l.
Definition no_newline (l : bytes) : Prop := Forall (fun c => c <> 10) l.

Lemma cstr_text l : is_text l -> cstr l = l.
Proof. induction 1 as [|c l Hc Hl IH]; simpl; [done|]. replace (c =? 0) with false by lia. by rewrite IH. Qed.

Lemma newline_text l : no_newline l -> existsb (fun c => c =? 10) l = false.
Proof. induction 1 as [|c l Hc Hl IH]; simpl; [done|]. rewrite IH. lia. Qed.

Lemma lines_line cur l rest : no_newline l -> lines_acc cur (l ++ 10 :: rest) = (cur ++ l, true) :: lines rest.
Proof.
  intros H. revert cur. induction H as [|c l Hc Hl IH]; intros cur; simpl; [by rewrite app_nil_r|].
  replace (c =? 10) with false by lia. rewrite IH, <- app_assoc. done.
Qed.

Lemma lines_last cur l : no_newline l -> cur ++ l <> [] -> lines_acc cur l = [(cur ++ l, false)].
Proof.
  intros H. revert cur. induction H as [|c l Hc Hl IH]; intros cur Hne; simpl; [rewrite app_nil_r in *; by destruct cur|].
  replace (c =? 10) with false by lia. rewrite IH, <- app_assoc; [done|]. by rewrite <- app_assoc.
Qed.

(** The first line of a file. *)
Lemma first_line file : file <> [] ->
  (exists l rest, file = l ++ 10 :: rest /\ no_newline l /\ lines file = (l, true) :: lines rest) \/
  (no_newline file /\ lines file = [(file, false)]).
Proof.
  intros Hne. destruct (index_of 10 file) as [i|] eqn:E.
  - left. apply index_of_Some in E as (_ & Hi & Hf). exists (take (Z.to_nat i) file), (drop (S (Z.to_nat i)) file).
    rewrite (take_drop_middle _ _ _ Hi). split; [done|]. split; [done|].
    rewrite <- (take_drop_middle _ _ _ Hi) at 1. unfold lines. by rewrite lines_line.
  - right. apply index_of_None in E. split; [done|]. unfold lines. by rewrite lines_last.
Qed.

Lemma fgets_line n l rest : no_newline l -> (length l < n)%nat -> fgets n (l ++ 10 :: rest) = (l ++ [10], rest).
Proof.
  intros H. revert n. induction H as [|c l Hc Hl IH]; intros n Hn; (destruct n as [|n]; [simpl in Hn; lia|]); simpl; [done|].
  replace (c =? 10) with false by lia. rewrite IH by (simpl in Hn; lia). done.
Qed.

Lemma fgets_full n l rest : no_newline l -> (n <= length l)%nat -> fgets n (l ++ rest) = (take n l, drop n l ++ rest).
Proof.
  intros H. revert n. induction H as [|c l Hc Hl IH]; intros n Hn; (destruct n as [|n]; [done|]); simpl; [simpl in Hn; lia|].
  replace (c =? 10) with false by lia. rewrite IH by (simpl in Hn; lia). done.
Qed.

Lemma fgets_end n l : no_newline l -> (length l <= n)%nat -> fgets n l = (l, []).
Proof.
  intros H. revert n. induction H as [|c l Hc Hl IH]; intros n Hn; (destruct n as [|n]; [try done; simpl in Hn; lia|]); simpl; [done|].
  replace (c =? 10) with false by lia. rewrite IH by (simpl in Hn; lia). done.
Qed.

Lemma skip_line_line l rest : no_newline l -> skip_line (l ++ 10 :: rest) = rest.
Proof. induction 1 as [|c l Hc Hl IH]; simpl; [done|]. by replace (c =? 10) with false by lia. Qed.
Lemma skip_line_last l : no_newline l -> skip_line l = [].
Proof. induction 1 as [|c l Hc Hl IH]; simpl; [done|]. by replace (c =? 10) with false by lia. Qed.

Lemma words_newline cur l : words_acc cur (l ++ [10]) = words_acc cur l.
Proof.
  revert cur. induction l as [|c l IH]; intros cur; simpl; [by destruct cur|].
  destruct (isspace c); [|apply IH]. destruct cur; by rewrite IH.
Qed.

Lemma comment_newline l : words (before_comment (l ++ [10])) = words (before_comment l).
Proof.
  assert (H : before_comment (l ++ [10]) = before_comment l \/ before_comment (l ++ [10]) = before_comment l ++ [10]).
  { induction l as [|c l IH]; simpl; [by right|]. destruct (c =? 35); [by left|]. destruct IH as [->| ->]; [by left|by right]. }
  destruct H as [->| ->]; [done|]. apply words_newline.
Qed.

Lemma drop_no_newline n l : no_newline l -> no_newline (drop n l).
Proof. apply Forall_drop. Qed.
Lemma take_no_newline n l : no_newline l -> no_newline (take n l).
Proof. apply Forall_take. Qed.

(** What one round of the loop does with the first line. *)
Lemma read_step fuel file st m : file <> [] -> is_text file ->
  exists l rest, lines file = l :: lines rest /\ is_text rest /\ (length rest < length file)%nat /\
  hosts_table_read I (S fuel) file false st m =
  if line_fits l then
    match hosts_table_parse_line I st (if l.2 then l.1 ++ [10] else l.1) m with
    | Next (st, malformed) => hosts_table_read I fuel rest false st malformed
    | Return (st, HOSTS_RECORD_ADD_LIMIT) => Return (st, m, HOSTS_LOAD_LIMIT)
    | Return (st, HOSTS_RECORD_ADD_MEMORY) => Return (st, m, HOSTS_LOAD_MEMORY)
    | Return (st, HOSTS_RECORD_ADD_OK) => Oob
    | Oob => Oob
    end
  else hosts_table_read I fuel rest false st (m + 1).
Proof.
  intros Hne Ht. set (n := Z.to_nat (HOSTS_LINE_SIZE - 1)). assert (Hn : Z.of_nat n = 8191) by done.
  cbn [hosts_table_read]. fold n. change (HOSTS_LINE_SIZE - 1) with 8191. clearbody n.
  destruct (first_line file Hne) as [(l & rest & -> & Hl & Hlines)|[Hl Hlines]].
  - exists (l, true), rest. apply Forall_app in Ht as [Ht1 Ht2]. inversion_clear Ht2 as [|? ? _ Ht3].
    split; [done|]. split; [done|]. split; [rewrite length_app; simpl; lia|]. unfold line_fits. cbn [fst snd]. change (HOSTS_LINE_SIZE - 1) with 8191.
    destruct (Z.le_gt_cases (len l + 1) 8191) as [Hle|Hgt].
    + rewrite fgets_line by (done || lia). replace (len l + 1 <=? 8191) with true by lia.
      assert (Hc : cstr (l ++ [10]) = l ++ [10]) by (apply cstr_text, Forall_app; split; [done|by repeat constructor]).
      assert (Hx : existsb (fun c => c =? 10) (l ++ [10]) = true) by (rewrite existsb_app; simpl; by rewrite orb_true_r).
      unfold has_newline. rewrite Hc, Hx. cbn [negb andb orb].
      rewrite bool_decide_eq_false_2 by (by destruct l). done.
    + rewrite fgets_full by (done || lia). replace (len l + 1 <=? 8191) with false by lia.
      assert (Hlen : len (take n l) = 8191) by (rewrite length_take; lia).
      rewrite bool_decide_eq_false_2 by (intros E; rewrite E in Hlen; simpl in Hlen; lia). rewrite Hlen. cbn [Z.ltb orb andb].
      unfold has_newline. rewrite cstr_text by by apply Forall_take. rewrite newline_text by by apply take_no_newline.
      cbn [negb andb orb]. rewrite bool_decide_eq_false_2 by by destruct (drop n l). cbn [negb]. rewrite skip_line_line by by apply drop_no_newline. done.
  - exists (file, false), []. split; [done|]. split; [constructor|]. split; [destruct file; [done|simpl; lia]|].
    unfold line_fits. cbn [fst snd]. change (HOSTS_LINE_SIZE - 1) with 8191. rewrite Z.add_0_r.
    destruct (Z.le_gt_cases (len file) 8191) as [Hle|Hgt].
    + rewrite fgets_end by (done || lia). replace (len file <=? 8191) with true by lia.
      unfold has_newline. rewrite cstr_text by done. rewrite newline_text by done. cbn [negb andb orb].
      rewrite bool_decide_eq_false_2 by done. rewrite andb_false_r, (bool_decide_eq_true_2 ([] = [])) by done.
      cbn [negb orb]. rewrite !andb_false_r. done.
    + rewrite <- (app_nil_r file) at 1 2. rewrite fgets_full, !app_nil_r by (done || lia). replace (len file <=? 8191) with false by lia.
      assert (Hlen : len (take n file) = 8191) by (rewrite length_take; lia).
      rewrite bool_decide_eq_false_2 by (intros E; rewrite E in Hlen; simpl in Hlen; lia). rewrite Hlen. cbn [Z.ltb orb andb].
      unfold has_newline. rewrite cstr_text by by apply Forall_take. rewrite newline_text by by apply take_no_newline.
      cbn [negb andb orb].
      rewrite bool_decide_eq_false_2 by (intros E; apply (f_equal length) in E; rewrite length_drop in E; simpl in E; lia).
      cbn [negb]. rewrite skip_line_last by by apply drop_no_newline. done.
Qed.

Lemma file_records_cons file l rest : lines file = l :: lines rest ->
  file_records I file = (if line_fits l then (line_records I l.1).1 else []) ++ file_records I rest /\
  file_malformed I file = (if negb (line_fits l) || (line_records I l.1).2 then 1 else 0) + file_malformed I rest.
Proof.
  unfold file_records, file_malformed. intros ->. simpl. split; [done|]. destruct (negb (line_fits l) || _); simpl length; lia.
Qed.

Lemma lines_nil : lines [] = [].
Proof. done. Qed.

Lemma read_spec fuel file st m : (length file < fuel)%nat -> is_text file -> room (table st) ->
  match hosts_table_read I fuel file false st m with
  | Next (st', m') => added st (file_records I file) st' /\ m' = m + file_malformed I file
  | Return (_, _, HOSTS_LOAD_LIMIT) => HOSTS_RECORD_LIMIT < len (fold_left add_record (file_records I file) (records (table st)))
  | Return (_, _, s) => s = HOSTS_LOAD_MEMORY /\ all_succeed (allocs st) = false
  | Oob => False
  end.
Proof.
  revert file st m. induction fuel as [|fuel IH]; intros file st m Hf Ht Hr; [lia|].
  destruct (decide (file = [])) as [->|Hne].
  { change (hosts_table_read I (S fuel) [] false st m) with (Next (E:=hosts_state * Z * hosts_load_status) (st, m)).
    split; [done|]. unfold file_malformed. simpl. lia. }
  destruct (read_step fuel file st m Hne Ht) as (l & rest & Hl & Ht' & Hlen & ->).
  destruct (file_records_cons file l rest Hl) as [-> ->]. destruct (line_fits l) eqn:Ef; cbn [negb orb].
  - assert (Htext : is_text l.1).
    { destruct (first_line file Hne) as [(l0 & r0 & -> & _ & E)|[_ E]]; rewrite E in Hl; injection Hl as <-; simpl; [|done].
      by apply Forall_app in Ht as [? _]. }
    assert (Hw : words (before_comment (cstr (if l.2 then l.1 ++ [10] else l.1))) = words (before_comment l.1)).
    { destruct l.2; rewrite cstr_text; [apply comment_newline|apply Forall_app; split; [done|by repeat constructor]|done|done]. }
    pose proof (parse_line_spec st _ l.1 m Hr Hw) as Hp.
    destruct (hosts_table_parse_line I st _ m) as [[st1 m1]|[st1 s]|]; [|destruct s; [done| |]|done].
    + destruct Hp as [Hadd ->]. specialize (IH rest st1 (if (line_records I l.1).2 then m + 1 else m) ltac:(lia) Ht' (proj1 Hadd)).
      destruct (hosts_table_read I fuel rest false st1 _) as [[st2 m2]|[[st2 m2] s]|]; [|destruct s|done].
      * destruct IH as [H1 ->]. split; [by eapply added_app|]. destruct (line_records I l.1).2; lia.
      * destruct IH as [? ?]. done.
      * destruct IH as [? ?]. done.
      * by apply (refused_app st _ st1 _ HOSTS_RECORD_ADD_LIMIT Hadd).
      * destruct IH as [_ H]. split; [done|]. by apply (refused_app st _ st1 (file_records I rest) HOSTS_RECORD_ADD_MEMORY Hadd).
      * destruct IH as [? ?]. done.
    + by apply (refused_more st _ (file_records I rest) HOSTS_RECORD_ADD_LIMIT).
    + by split.
  - specialize (IH rest st (m + 1) ltac:(lia) Ht' Hr). simpl.
    destruct (hosts_table_read I fuel rest false st (m + 1)) as [[st2 m2]|[[st2 m2] s]|]; [|done|done].
    destruct IH as [H1 ->]. split; [done|lia].
Qed.

(** The loopback records a table is completed with. *)
Definition is_loopback (family_ : Z) (r : hosts_record) : bool :=
  bool_decide (h_name r = localhost) && hosts_address_is_loopback (h_address r) && (family (h_address r) =? family_).
Definition loopback_record (text : bytes) : hosts_record := {| h_address := net_addr_parse I (Some text); h_name := localhost |}.
Definition missing_loopbacks (rs : list hosts_record) : list hosts_record :=
  (if existsb (is_loopback AF_INET) rs then [] else [loopback_record (str "127.0.0.1")])
  ++ (if existsb (is_loopback AF_INET6) rs then [] else [loopback_record (str "::1")]).

Lemma fallback_spec st : room (table st) ->
  match hosts_table_fallback_add I st with
  | Next st' => added st (missing_loopbacks (records (table st))) st'
  | Return (_, s) => refused st (missing_loopbacks (records (table st))) s
  | Oob => False
  end.
Proof.
  intros Hr. unfold hosts_table_fallback_add, missing_loopbacks.
  change (fun r => bool_decide (h_name r = localhost) && hosts_address_is_loopback (h_address r) && (family (h_address r) =? AF_INET)) with (is_loopback AF_INET).
  change (fun r => bool_decide (h_name r = localhost) && hosts_address_is_loopback (h_address r) && (family (h_address r) =? AF_INET6)) with (is_loopback AF_INET6).
  assert (H6 : forall st1, room (table st1) ->
    match (if negb (existsb (is_loopback AF_INET6) (records (table st))) then hosts_record_add st1 localhost (net_addr_parse I (Some (str "::1"))) else Next st1) with
    | Next st' => added st1 (if existsb (is_loopback AF_INET6) (records (table st)) then [] else [loopback_record (str "::1")]) st'
    | Return (_, s) => refused st1 (if existsb (is_loopback AF_INET6) (records (table st)) then [] else [loopback_record (str "::1")]) s
    | Oob => False
    end).
  { intros st1 H1. destruct (existsb (is_loopback AF_INET6) _); cbn [negb]; [done|]. by apply record_add_spec. }
  destruct (existsb (is_loopback AF_INET) _); cbn [negb mbind run_bind app]; [by apply H6|].
  pose proof (record_add_spec st localhost (net_addr_parse I (Some (str "127.0.0.1"))) Hr ltac:(done)) as H4.
  destruct (hosts_record_add st localhost _) as [st1|[? s]|]; cbn [mbind run_bind]; [|by apply (refused_more _ [_])|done].
  specialize (H6 st1 (proj1 H4)).
  destruct (if negb _ then _ else _) as [st2|[? s]|]; [by apply (added_app _ [_] st1)|by apply (refused_app _ [_] st1)|done].
Qed.

(** ** Tables that may be used *)

Definition record_ok (r : hosts_record) : Prop :=
  (family (h_address r) = AF_INET \/ family (h_address r) = AF_INET6) /\
  (h_name r = localhost -> hosts_address_is_loopback (h_address r) = true).
Definition distinct (rs : list hosts_record) : Prop :=
  forall i j r r', rs !! i = Some r -> rs !! j = Some r' -> same_record r r' = true -> i = j.
Definition usable (rs : list hosts_record) : Prop := Forall record_ok rs /\ distinct rs.

Lemma same_record_sym r r' : same_record r r' = true -> same_record r' r = true.
Proof.
  unfold same_record, hosts_address_equal. intros H. apply andb_true_iff in H as [H1 H2]. apply bool_decide_eq_true in H1.
  rewrite H1, bool_decide_eq_true_2 by done. cbn [andb]. destruct (negb _) eqn:E; [done|]. apply negb_false_iff, Z.eqb_eq in E.
  rewrite E, Z.eqb_refl in *. cbn [negb] in *. destruct (_ =? AF_INET).
  - apply bool_decide_eq_true in H2. by apply bool_decide_eq_true_2.
  - apply andb_true_iff in H2 as [-> H2]. apply bool_decide_eq_true in H2. by apply bool_decide_eq_true_2.
Qed.

Lemma add_usable rs r : usable rs -> record_ok r -> usable (add_record rs r).
Proof.
  intros [H1 H2] Hr. unfold add_record. destruct (existsb _ rs) eqn:E; [done|]. split; [apply Forall_app; split; [done|by constructor]|].
  assert (Hnew : forall i x, rs !! i = Some x -> same_record x r = false).
  { intros i x Hx. destruct (same_record x r) eqn:F; [|done]. assert (T : existsb (fun r' => same_record r' r) rs = true); [|congruence].
    apply existsb_exists. exists x. split; [|done]. apply list_elem_of_In. by eapply list_elem_of_lookup_2. }
  intros i j x y Hi Hj Hs. apply lookup_app_Some in Hi as [Hi|[Gi Hi]], Hj as [Hj|[Gj Hj]].
  - by eapply H2.
  - apply list_lookup_singleton_Some in Hj as [_ <-]. by rewrite (Hnew _ _ Hi) in Hs.
  - apply list_lookup_singleton_Some in Hi as [_ <-]. apply same_record_sym in Hs. by rewrite (Hnew _ _ Hj) in Hs.
  - apply list_lookup_singleton_Some in Hi as [? _], Hj as [? _]. lia.
Qed.

Lemma added_usable st rs st' : added st rs st' -> usable (records (table st)) -> Forall record_ok rs -> usable (records (table st')).
Proof.
  intros (_ & -> & _) Hu Hrs. revert Hu. generalize (records (table st)) as l. induction Hrs as [|r rs Hr Hrs IH]; intros l Hu; simpl; [done|].
  by apply IH, add_usable.
Qed.

Lemma parsed_family a : (family (net_addr_parse I (Some a)) =? 0) = false ->
  family (net_addr_parse I (Some a)) = AF_INET \/ family (net_addr_parse I (Some a)) = AF_INET6.
Proof. unfold net_addr_parse. destruct (inet_pton4 I a); [auto|]. destruct (inet_pton6 I a); [auto|done]. Qed.

Lemma line_records_ok line : Forall record_ok (line_records I line).1.
Proof.
  unfold line_records. destruct (words _) as [|a names]; [constructor|]. if_as E; [constructor|]. cbn [fst].
  apply Forall_forall. intros r Hr. apply list_elem_of_In, list_elem_of_omap in Hr as (w & _ & Hw). unfold word_record in Hw.
  destruct (hosts_name_normalize _ _) as [n|]; [|done]. destruct (bool_decide (n = localhost) && _) eqn:F; [done|]. injection Hw as <-.
  split; [by apply parsed_family|]. simpl. intros ->. rewrite bool_decide_eq_true_2 in F by done. by destruct (hosts_address_is_loopback _).
Qed.

Lemma fgets_shorter n file : (length (fgets n file).1 + length (fgets n file).2 = length file)%nat.
Proof.
  revert file. induction n as [|n IH]; intros file; [done|]. destruct file as [|c file]; simpl; [done|].
  destruct (c =? 10); simpl; [lia|]. specialize (IH file). destruct (fgets n file). simpl in *. lia.
Qed.

Lemma skip_line_shorter file : (length (skip_line file) <= length file)%nat.
Proof. induction file as [|c file IH]; simpl; [lia|]. destruct (c =? 10); simpl; lia. Qed.

(** Whatever the bytes of the file, what is read may be used. *)
Lemma read_usable fuel file error st m : (length file < fuel)%nat -> room (table st) -> usable (records (table st)) ->
  match hosts_table_read I fuel file error st m with
  | Next (st', _) => room (table st') /\ usable (records (table st'))
  | Return (_, _, s) => s <> HOSTS_LOAD_OK
  | Oob => False
  end.
Proof.
  revert file st m. induction fuel as [|fuel IH]; intros file st m Hf Hr Hu; [lia|]. cbn [hosts_table_read].
  set (n := Z.to_nat (HOSTS_LINE_SIZE - 1)). pose proof (fgets_shorter n file) as Hlen. clearbody n. destruct (fgets n file) as [line rest]. cbn [fst snd] in Hlen.
  if_as E1; [by destruct error|]. assert (line <> []) by (intros ->; done). assert (1 <= length line)%nat by (destruct line; simpl; [done|lia]).
  if_as E2; [apply IH; [pose proof (skip_line_shorter rest); lia|done|done]|]. if_as E3; [done|].
  pose proof (parse_line_spec st line (cstr line) m Hr eq_refl) as Hp.
  destruct (hosts_table_parse_line I st line m) as [[st1 m1]|[st1 s]|]; [|by destruct s|done].
  destruct Hp as [Hadd _]. apply IH; [lia|apply Hadd|]. eapply added_usable; [done|done|apply line_records_ok].
Qed.
End reading.

(** ** Properties *)

(** The addresses recorded for a name. *)
Definition addresses_of (name : bytes) (rs : list hosts_record) : list net_addr :=
  h_address <$> List.filter (fun r => bool_decide (h_name r = name)) rs.

Lemma lookup_loop_spec name pre rs : distinct (pre ++ rs) ->
  lookup_loop name rs (addresses_of name pre) [] =
  match addresses_of name (pre ++ rs) with [] => (None, HOSTS_LOOKUP_NOT_FOUND) | l => (Some l, HOSTS_LOOKUP_OK) end.
Proof.
  revert pre. induction rs as [|r rs IH]; intros pre Hd; simpl; [rewrite app_nil_r; by destruct (addresses_of name pre)|].
  assert (Hmid : (pre ++ r :: rs) = (pre ++ [r]) ++ rs) by by rewrite <- app_assoc.
  assert (Hone : addresses_of name (pre ++ [r]) = addresses_of name pre ++ (if bool_decide (h_name r = name) then [h_address r] else [])).
  { unfold addresses_of. rewrite List.filter_app, fmap_app. simpl. by destruct (bool_decide _). }
  case_bool_decide as Hn; cbn [negb].
  - destruct (existsb (fun a => hosts_address_equal a (h_address r)) (addresses_of name pre)) eqn:E.
    + exfalso. apply existsb_exists in E as (a & Ha & He). unfold addresses_of in Ha. apply list_elem_of_In, list_elem_of_fmap in Ha as (r' & -> & Hr').
      apply list_elem_of_In, List.filter_In in Hr' as [Hr' Hname]. apply bool_decide_eq_true in Hname.
      apply list_elem_of_In, list_elem_of_lookup_1 in Hr' as [i Hi]. pose proof (lookup_lt_Some _ _ _ Hi).
      assert (i = length pre); [|lia]. apply (Hd i (length pre) r' r); [by apply lookup_app_l_Some|by apply list_lookup_middle|].
      unfold same_record. rewrite Hname, Hn, bool_decide_eq_true_2 by done. done.
    + rewrite Hmid in *. rewrite <- Hone. by apply IH.
  - rewrite Hmid in *. rewrite <- (IH (pre ++ [r])) by done. rewrite Hone. by rewrite app_nil_r.
Qed.

(** C24: for a text file and a lookup of memory, the loaded table holds the
    records of the lines that fit the line buffer, in the order of the file and
    each once, followed by the loopback addresses of localhost that the file
    does not give; the count is that of the malformed and overlong lines.  The
    load is refused as too large only when these records are more than 16384. *)
Theorem hosts_load_exact I filename content answers : is_text content -> all_succeed answers = true -> filename <> [] ->
  let given := fold_left add_record (file_records I content) [] in
  let all := fold_left add_record (missing_loopbacks I given) given in
  match hosts_table_load I (Some filename) true true (Some (content, false)) true answers with
  | Next (Some t, m, HOSTS_LOAD_OK) => records t = all /\ m = file_malformed I content
  | Return (None, _, HOSTS_LOAD_LIMIT) => HOSTS_RECORD_LIMIT < len all
  | _ => False
  end.
Proof.
  intros Ht Ha Hf given all. unfold hosts_table_load. destruct filename as [|x filename]; [done|]. cbn [negb orb].
  set (st := {| table := hosts_table_zero; allocs := answers |}).
  pose proof (read_spec I (S (length content)) content st 0 ltac:(lia) Ht ltac:(done)) as Hread.
  destruct (hosts_table_read I _ content false st 0) as [[st1 m1]|[[st1 m1] s]|]; [|destruct s; [by destruct Hread..| |destruct Hread as [_ Hread]|by destruct Hread]|done].
  - destruct Hread as ((Hr1 & Hrec1 & Ha1) & ->). cbn [mbind run_bind]. change (records (table st)) with (@nil hosts_record) in Hrec1. fold given in Hrec1.
    pose proof (fallback_spec I st1 Hr1) as Hfb. rewrite Hrec1 in Hfb.
    destruct (hosts_table_fallback_add I st1) as [st2|[? s]|]; [| |done].
    + destruct Hfb as (_ & Hrec2 & _). rewrite Hrec1 in Hrec2. split; [done|lia].
    + destruct s; simpl in Hfb; [done|by rewrite Hrec1 in Hfb|]. rewrite Ha1 in Hfb by done. done.
  - simpl. simpl in Hread. fold given in Hread. pose proof (add_record_grows (missing_loopbacks I given) given). unfold all. lia.
  - change (all_succeed answers = false) in Hread. congruence.
Qed.

(** What the code relies on in [inet_pton]: the loopback addresses. *)
Record loopback_laws (I : inet) : Prop := {
  pton4_loopback : inet_pton4 I (str "127.0.0.1") = Some [127; 0; 0; 1];
  pton4_colon : inet_pton4 I (str "::1") = None;
  pton6_loopback : inet_pton6 I (str "::1") = Some (replicate 15 0 ++ [1]);
}.

Lemma missing_usable I rs : loopback_laws I -> Forall record_ok (missing_loopbacks I rs).
Proof.
  intros [L1 L2 L3]. assert (H4 : record_ok (loopback_record I (str "127.0.0.1"))).
  { unfold record_ok, loopback_record, net_addr_parse. cbn [h_address]. rewrite L1. by split; [left|]. }
  assert (H6 : record_ok (loopback_record I (str "::1"))).
  { unfold record_ok, loopback_record, net_addr_parse. cbn [h_address]. rewrite L2, L3. by split; [right|]. }
  unfold missing_loopbacks. apply Forall_app. split; destruct (existsb _ _); by constructor.
Qed.

Lemma add_record_present rs r : existsb (fun r' => same_record r' r) (add_record rs r) = true \/ r ∈ add_record rs r.
Proof. unfold add_record. destruct (existsb _ rs) eqn:E; [by left|right]. apply elem_of_app. right. by left. Qed.

Lemma existsb_add_record (P : hosts_record -> bool) rs l : existsb P l = true -> existsb P (fold_left add_record rs l) = true.
Proof.
  revert l. induction rs as [|r rs IH]; intros l H; simpl; [done|]. apply IH. unfold add_record.
  if_as E; [done|]. rewrite existsb_app, H. done.
Qed.

Lemma add_loopback I rs text f : is_loopback f (loopback_record I text) = true ->
  (forall r, same_record r (loopback_record I text) = true -> is_loopback f r = true) ->
  existsb (is_loopback f) (add_record rs (loopback_record I text)) = true.
Proof.
  intros H Hsame. apply existsb_exists. destruct (add_record_present rs (loopback_record I text)) as [E|E].
  - apply existsb_exists in E as (r & Hr & He). exists r. split; [done|]. by apply Hsame.
  - exists (loopback_record I text). split; [by apply list_elem_of_In|done].
Qed.

(** A record equal to a loopback record is one. *)
Lemma same_loopback I text f r : is_loopback f (loopback_record I text) = true -> (f = AF_INET \/ f = AF_INET6) ->
  same_record r (loopback_record I text) = true -> is_loopback f r = true.
Proof.
  intros H Hf Hs. unfold same_record in Hs. apply andb_true_iff in Hs as [Hn He]. apply bool_decide_eq_true in Hn.
  unfold is_loopback in *. rewrite Hn. apply andb_true_iff in H as [H1 H2]. apply andb_true_iff in H1 as [H1 H3].
  unfold hosts_address_equal in He. destruct (negb _) eqn:E; [done|]. apply negb_false_iff, Z.eqb_eq in E.
  assert (Ha : addr (h_address r) = addr (h_address (loopback_record I text))).
  { destruct (_ =? AF_INET); [by apply bool_decide_eq_true in He|]. apply andb_true_iff in He as [_ He]. by apply bool_decide_eq_true in He. }
  rewrite H1. cbn [andb]. rewrite E, H2, andb_true_r. unfold hosts_address_is_loopback in *. by rewrite E, Ha.
Qed.

Lemma missing_found I rs : loopback_laws I ->
  existsb (is_loopback AF_INET) (fold_left add_record (missing_loopbacks I rs) rs) = true /\
  existsb (is_loopback AF_INET6) (fold_left add_record (missing_loopbacks I rs) rs) = true.
Proof.
  intros [L1 L2 L3].
  assert (H4 : is_loopback AF_INET (loopback_record I (str "127.0.0.1")) = true).
  { unfold is_loopback, loopback_record, net_addr_parse. cbn [h_address h_name]. by rewrite L1. }
  assert (H6 : is_loopback AF_INET6 (loopback_record I (str "::1")) = true).
  { unfold is_loopback, loopback_record, net_addr_parse. cbn [h_address h_name]. by rewrite L2, L3. }
  unfold missing_loopbacks. rewrite fold_left_app. split.
  - apply existsb_add_record. destruct (existsb (is_loopback AF_INET) rs) eqn:E; [done|]. cbn [fold_left].
    apply add_loopback; [done|]. intros r. apply same_loopback; [done|by left].
  - destruct (existsb (is_loopback AF_INET6) rs) eqn:E; cbn [fold_left]; [by apply existsb_add_record|].
    apply add_loopback; [done|]. intros r. apply same_loopback; [done|by right].
Qed.

(** What the rest of the program may expect of a table. *)
Definition serves (t : hosts_table) : Prop :=
  Forall (fun r => h_name r = localhost -> hosts_address_is_loopback (h_address r) = true) (records t) /\
  existsb (is_loopback AF_INET) (records t) = true /\ existsb (is_loopback AF_INET6) (records t) = true /\
  forall hostname name, hosts_name_normalize (Some hostname) HOSTS_NAME_SIZE = Some name ->
    hosts_table_lookup (Some t) (Some hostname) [] =
    match addresses_of name (records t) with [] => (None, HOSTS_LOOKUP_NOT_FOUND) | l => (Some l, HOSTS_LOOKUP_OK) end.

Lemma fallback_serves I st st' : loopback_laws I -> room (table st) -> usable (records (table st)) ->
  hosts_table_fallback_add I st = Next st' -> serves (table st').
Proof.
  intros Hlaws Hr Hu H. pose proof (fallback_spec I st Hr) as Hfb. rewrite H in Hfb.
  pose proof (added_usable st _ st' Hfb Hu (missing_usable I _ Hlaws)) as [Hu2 Hd2]. destruct Hfb as (_ & Hrec & _).
  destruct (missing_found I (records (table st)) Hlaws) as [M4 M6]. rewrite <- Hrec in M4, M6.
  split; [revert Hu2; apply Forall_impl; by intros r [_ ?]|]. split; [done|]. split; [done|].
  intros hostname name Hn. unfold hosts_table_lookup. rewrite Hn. apply (lookup_loop_spec name [] _ Hd2).
Qed.

(** C23: whatever the file holds, and whether or not it can be read, a table that
    is loaded maps localhost only to loopback addresses, to at least one of
    each family, and a lookup of a name returns exactly the addresses recorded
    for it, in order and without repetition.  Loading never leaves its arrays. *)
Theorem hosts_localhost I filename file close answers : loopback_laws I ->
  match hosts_table_load I (Some filename) true true file close answers with
  | Next (t, _, _) => exists t', t = Some t' /\ serves t'
  | Return _ => True
  | Oob => False
  end.
Proof.
  intros Hlaws. unfold hosts_table_load. destruct filename as [|x filename]; [done|]. cbn [negb orb].
  set (st := {| table := hosts_table_zero; allocs := answers |}).
  assert (Hzero : usable []) by (split; [constructor|done]).
  assert (Hst : match (match file with
      | None => Next (st, 0, HOSTS_LOAD_FILE_ERROR)
      | Some (content, error) =>
          match hosts_table_read I (S (length content)) content error st 0 with
          | Next (st, malformed) => Next (st, malformed, if close then HOSTS_LOAD_OK else HOSTS_LOAD_FILE_ERROR)
          | Return (st, malformed, status) => Next (st, malformed, status)
          | Oob => Oob
          end
      end : run (option hosts_table * Z * hosts_load_status) (hosts_state * Z * hosts_load_status)) with
    | Next (st1, _, HOSTS_LOAD_OK) => room (table st1) /\ usable (records (table st1))
    | Next _ => True | Return _ => True | Oob => False end).
  { destruct file as [[content error]|]; [|done].
    pose proof (read_usable I (S (length content)) content error st 0 ltac:(lia) ltac:(done) Hzero) as Hread.
    destruct (hosts_table_read I _ content error st 0) as [[st1 m1]|[[st1 m1] s]|]; [by destruct close|by destruct s|done]. }
  destruct (match file with None => _ | Some _ => _ end) as [[[st1 m1] s]|r|]; cbn [mbind run_bind]; [|by destruct r as [[??]?]|done].
  assert (Hfb : forall st2 m, room (table st2) -> usable (records (table st2)) ->
    match (match hosts_table_fallback_add I st2 with
      | Next st => Next (Some (table st), m, s)
      | Return (_, HOSTS_RECORD_ADD_LIMIT) => Return (None, m, HOSTS_LOAD_LIMIT)
      | Return _ => Return (None, m, HOSTS_LOAD_MEMORY)
      | Oob => Oob
      end : run (option hosts_table * Z * hosts_load_status) (option hosts_table * Z * hosts_load_status)) with
    | Next (t, _, _) => exists t', t = Some t' /\ serves t' | Return _ => True | Oob => False end).
  { intros st2 m Hr Hu. pose proof (fallback_spec I st2 Hr) as Hs. destruct (hosts_table_fallback_add I st2) as [st3|[? s']|] eqn:E; [|by destruct s'|done].
    exists (table st3). split; [done|]. by eapply fallback_serves. }
  destruct s; cbn [mbind run_bind]; [destruct Hst; by apply Hfb|by apply Hfb|done..].
Qed.

(** ** A hosts file *)

(** Conversions that know a few addresses. *)
Definition few_inet : inet := {|
  inet_pton4 s := if bool_decide (s = str "127.0.0.1") then Some [127; 0; 0; 1]
                  else if bool_decide (s = str "10.0.0.9") then Some [10; 0; 0; 9] else None;
  inet_ntop4 a := [];
  inet_pton6 s := if bool_decide (s = str "::1") then Some (replicate 15 0 ++ [1]) else None;
  inet_ntop6 a := [];
|}.

Lemma few_inet_laws : loopback_laws few_inet.
Proof. by constructor. Qed.

(** A comment, a server with two names, a line that maps localhost elsewhere. *)
Definition sample_hosts : bytes :=
  str "# static" ++ [10] ++ str "10.0.0.9 Play.example. backend # here" ++ [10] ++ str "10.0.0.9 localhost" ++ [10] ++ str "bogus".

Lemma sample_hosts_text : is_text sample_hosts.
Proof. unfold is_text. repeat (constructor; [done|]). constructor. Qed.

Lemma hosts_load_exact_witness :
  match hosts_table_load few_inet (Some (str "/etc/hosts")) true true (Some (sample_hosts, false)) true [] with
  | Next (Some t, m, HOSTS_LOAD_OK) =>
      h_name <$> records t = [str "play.example"; str "backend"; localhost; localhost] /\ m = 2
  | _ => False
  end.
Proof.
  pose proof (hosts_load_exact few_inet (str "/etc/hosts") sample_hosts [] sample_hosts_text eq_refl ltac:(done)) as H.
  assert (E : match hosts_table_load few_inet (Some (str "/etc/hosts")) true true (Some (sample_hosts, false)) true [] with
              | Next _ => true | _ => false end = true) by (vm_compute; reflexivity).
  destruct (hosts_table_load _ _ _ _ _ _ _) as [[[[t|] m] s]|r|]; [|destruct H|discriminate E|discriminate E].
  destruct s; try (destruct H; fail). destruct H as [-> ->]. split; vm_compute; reflexivity.
Defined.

Lemma hosts_localhost_witness :
  match hosts_table_load few_inet (Some (str "/etc/hosts")) true true None true [] with
  | Next (t, _, _) => exists t', t = Some t' /\ serves t'
  | _ => False
  end.
Proof.
  pose proof (hosts_localhost few_inet (str "/etc/hosts") None true [] few_inet_laws) as H.
  assert (E : match hosts_table_load few_inet (Some (str "/etc/hosts")) true true None true [] with
              | Next _ => true | _ => false end = true) by (vm_compute; reflexivity).
  destruct (hosts_table_load _ _ _ _ _ _ _) as [[[t m] s]|r|]; [exact H|discriminate E|discriminate E].
Defined.

(** A line with a NUL byte hides the line after it: the line feed behind the NUL
    is not seen, so the rest of the "overlong" line that is skipped is the next
    line. *)
Example nul_hides_next_line :
  match hosts_table_load few_inet (Some (str "/etc/hosts")) true true
      (Some (str "10.0.0.9 one" ++ [0; 10] ++ str "10.0.0.9 two" ++ [10] ++ str "10.0.0.9 three" ++ [10], false)) true [] with
  | Next (Some t, m, HOSTS_LOAD_OK) => h_name <$> records t = [str "three"; localhost; localhost] /\ m = 1
  | _ => False
  end.
Proof. vm_compute. split; reflexivity. Qed.
