(* ===== verification/Bindings.v ===== *)
(** * Bindings of destinations to cache entries ([src/src/route/bindings.c])

    Every destination of the route table is bound to an address, to addresses of
    the hosts file or to cache entries, of which the bindings hold one reference
    each.  An operation on a freed entry or past an array is [None]. *)

From S2P Require Import Prelude Proxy ResolverUtil Cache RouteTable Hosts.

(** ** Types *)

Inductive route_binding_source :=
  | ROUTE_BINDING_SOURCE_UNAVAILABLE | ROUTE_BINDING_SOURCE_NUMERIC | ROUTE_BINDING_SOURCE_HOSTS
  | ROUTE_BINDING_SOURCE_DNS_ADDRESS | ROUTE_BINDING_SOURCE_DNS_SRV.

(** A binding, with the fields of [route_binding_view]. *)
Record route_binding := {
  b_ipv4_entry : option Z; b_ipv6_entry : option Z; b_hosts : hosts_address_result;
  b_numeric_address : net_addr; b_port : Z; b_srv_entry : option Z; b_source : route_binding_source;
}.

(** The cache entries in [entries] are distinct. *)
Record route_bindings := { bd_destinations : list route_binding; bd_entries : list Z }.

Inductive route_bindings_build_status :=
  | ROUTE_BINDINGS_BUILD_OK | ROUTE_BINDINGS_BUILD_BAD_ARGUMENT | ROUTE_BINDINGS_BUILD_INVALID
  | ROUTE_BINDINGS_BUILD_LIMIT | ROUTE_BINDINGS_BUILD_MEMORY.
Inductive route_bindings_entry_status :=
  | ROUTE_BINDINGS_ENTRY_OK | ROUTE_BINDINGS_ENTRY_UNAVAILABLE | ROUTE_BINDINGS_ENTRY_LIMIT | ROUTE_BINDINGS_ENTRY_MEMORY.

(** The answers of the allocations made for one destination. *)
Record binding_answers := { al_first : bool; al_second : bool; al_hosts : list bool }.

(** ** Entries *)

(** The cache, the array of entries, [*result] and the status; [capacity] is the
    size of the array. *)
Definition route_bindings_cache_entry_acquire (capacity : Z) (c : resolver_cache) (entries : list Z) (query_name : option bytes)
    (query_type : Z) (alloc : bool) : option (resolver_cache * list Z * option Z * route_bindings_entry_status) :=
  match resolver_cache_entry_acquire c query_name query_type alloc with
  | None => None
  | Some (c, entry, status) =>
      match status with
      | RESOLVER_CACHE_ACQUIRE_OK =>
          match entry with
          | None => None
          | Some id =>
              if existsb (fun x => x =? id) entries then
                c ← resolver_cache_entry_release c (Some id); Some (c, entries, Some id, ROUTE_BINDINGS_ENTRY_OK)
              else if len entries <? capacity then Some (c, entries ++ [id], Some id, ROUTE_BINDINGS_ENTRY_OK) else None
          end
      | RESOLVER_CACHE_ACQUIRE_BAD_ARGUMENT => Some (c, entries, None, ROUTE_BINDINGS_ENTRY_UNAVAILABLE)
      | RESOLVER_CACHE_ACQUIRE_LIMIT => Some (c, entries, None, ROUTE_BINDINGS_ENTRY_LIMIT)
      | RESOLVER_CACHE_ACQUIRE_MEMORY => Some (c, entries, None, ROUTE_BINDINGS_ENTRY_MEMORY)
      end
  end.

(** Releasing entries one after the other. *)
Fixpoint release_entries (c : resolver_cache) (ids : list Z) : option resolver_cache :=
  match ids with
  | [] => Some c
  | id :: ids => c ← resolver_cache_entry_release c (Some id); release_entries c ids
  end.

(** The entries above [retained_count], the last one first. *)
Definition route_bindings_cache_entries_rollback (c : resolver_cache) (entries : list Z) (retained_count : nat)
    : option (resolver_cache * list Z) :=
  c ← release_entries c (rev (drop retained_count entries)); Some (c, take retained_count entries).

(** ** Destinations *)

(** What a failed acquisition other than of an unavailable name means. *)
Definition entry_failure (status : route_bindings_entry_status) : route_bindings_build_status :=
  match status with ROUTE_BINDINGS_ENTRY_LIMIT => ROUTE_BINDINGS_BUILD_LIMIT | _ => ROUTE_BINDINGS_BUILD_MEMORY end.

(** The binding of a name that is not in the hosts file. *)
Definition prepare_addresses (capacity : Z) (c : resolver_cache) (entries : list Z) (d : route_destination_view)
    (ans : binding_answers) : option (resolver_cache * list Z * route_binding * route_bindings_build_status) :=
  let b := {| b_ipv4_entry := None; b_ipv6_entry := None; b_hosts := None; b_numeric_address := net_addr_zero;
              b_port := dv_port d; b_srv_entry := None; b_source := ROUTE_BINDING_SOURCE_UNAVAILABLE |} in
  let retained_entry_count := length entries in
  match route_bindings_cache_entry_acquire capacity c entries (dv_query_name d) ns_t_a (al_first ans) with
  | None => None
  | Some (c, entries, _, ROUTE_BINDINGS_ENTRY_UNAVAILABLE) => Some (c, entries, b, ROUTE_BINDINGS_BUILD_OK)
  | Some (c, entries, ipv4_entry, ROUTE_BINDINGS_ENTRY_OK) =>
      match route_bindings_cache_entry_acquire capacity c entries (dv_query_name d) ns_t_aaaa (al_second ans) with
      | None => None
      | Some (c, entries, _, ROUTE_BINDINGS_ENTRY_UNAVAILABLE) =>
          match route_bindings_cache_entries_rollback c entries retained_entry_count with
          | None => None
          | Some (c, entries) => Some (c, entries, b, ROUTE_BINDINGS_BUILD_OK)
          end
      | Some (c, entries, ipv6_entry, ROUTE_BINDINGS_ENTRY_OK) =>
          Some (c, entries,
                {| b_ipv4_entry := ipv4_entry; b_ipv6_entry := ipv6_entry; b_hosts := None; b_numeric_address := net_addr_zero;
                   b_port := dv_port d; b_srv_entry := None; b_source := ROUTE_BINDING_SOURCE_DNS_ADDRESS |},
                ROUTE_BINDINGS_BUILD_OK)
      | Some (c, entries, _, status) => Some (c, entries, b, entry_failure status)
      end
  | Some (c, entries, _, status) => Some (c, entries, b, entry_failure status)
  end.

(** The cache, the entries, the binding and the status. *)
Definition route_bindings_destination_prepare (capacity : Z) (c : resolver_cache) (entries : list Z) (d : route_destination_view)
    (hosts : hosts_table) (ans : binding_answers)
    : option (resolver_cache * list Z * route_binding * route_bindings_build_status) :=
  let b := {| b_ipv4_entry := None; b_ipv6_entry := None; b_hosts := None; b_numeric_address := net_addr_zero;
              b_port := dv_port d; b_srv_entry := None; b_source := ROUTE_BINDING_SOURCE_UNAVAILABLE |} in
  if dv_numeric d then
    Some (c, entries,
          {| b_ipv4_entry := None; b_ipv6_entry := None; b_hosts := None; b_numeric_address := dv_numeric_address d;
             b_port := dv_port d; b_srv_entry := None; b_source := ROUTE_BINDING_SOURCE_NUMERIC |}, ROUTE_BINDINGS_BUILD_OK)
  else if dv_srv d then
    match route_bindings_cache_entry_acquire capacity c entries (dv_query_name d) ns_t_srv (al_first ans) with
    | None => None
    | Some (c, entries, srv_entry, ROUTE_BINDINGS_ENTRY_UNAVAILABLE) => Some (c, entries, b, ROUTE_BINDINGS_BUILD_OK)
    | Some (c, entries, srv_entry, ROUTE_BINDINGS_ENTRY_OK) =>
        Some (c, entries,
              {| b_ipv4_entry := None; b_ipv6_entry := None; b_hosts := None; b_numeric_address := net_addr_zero;
                 b_port := dv_port d; b_srv_entry := srv_entry; b_source := ROUTE_BINDING_SOURCE_DNS_SRV |}, ROUTE_BINDINGS_BUILD_OK)
    | Some (c, entries, _, status) => Some (c, entries, b, entry_failure status)
    end
  else
    match hosts_table_lookup (Some hosts) (dv_query_name d) (al_hosts ans) with
    | (found, HOSTS_LOOKUP_OK) =>
        Some (c, entries,
              {| b_ipv4_entry := None; b_ipv6_entry := None; b_hosts := found; b_numeric_address := net_addr_zero;
                 b_port := dv_port d; b_srv_entry := None; b_source := ROUTE_BINDING_SOURCE_HOSTS |}, ROUTE_BINDINGS_BUILD_OK)
    | (_, HOSTS_LOOKUP_MEMORY) => Some (c, entries, b, ROUTE_BINDINGS_BUILD_MEMORY)
    | _ => prepare_addresses capacity c entries d ans
    end.

(** The references the bindings hold are given back. *)
Definition route_bindings_destroy (c : resolver_cache) (b : option route_bindings) : option resolver_cache :=
  match b with None => Some c | Some b => release_entries c (bd_entries b) end.

Definition next_answers (answers : list binding_answers) : binding_answers * list binding_answers :=
  match answers with
  | [] => ({| al_first := true; al_second := true; al_hosts := [] |}, [])
  | a :: answers => (a, answers)
  end.

(** The loop over the destinations from [index] on; [n] of them are left. *)
Fixpoint build_loop (n : nat) (index : Z) (capacity : Z) (routes : route_table) (hosts : hosts_table) (c : resolver_cache)
    (ds : list route_binding) (entries : list Z) (answers : list binding_answers)
    : option (resolver_cache * option route_bindings * route_bindings_build_status) :=
  match n with
  | O => Some (c, Some {| bd_destinations := ds; bd_entries := entries |}, ROUTE_BINDINGS_BUILD_OK)
  | S n =>
      match route_table_destination_get (Some routes) index with
      | None =>
          c ← route_bindings_destroy c (Some {| bd_destinations := ds; bd_entries := entries |});
          Some (c, None, ROUTE_BINDINGS_BUILD_INVALID)
      | Some d =>
          let '(ans, answers) := next_answers answers in
          match route_bindings_destination_prepare capacity c entries d hosts ans with
          | None => None
          | Some (c, entries, b, ROUTE_BINDINGS_BUILD_OK) =>
              build_loop n (index + 1) capacity routes hosts c (ds ++ [b]) entries answers
          | Some (c, entries, b, status) =>
              c ← route_bindings_destroy c (Some {| bd_destinations := ds ++ [b]; bd_entries := entries |});
              Some (c, None, status)
          end
      end
  end.

Definition sizeof_route_binding : Z := 80.

(** The cache, [*result] (NULL on entry) and the status. *)
Definition route_bindings_build (routes : option route_table) (hosts : option hosts_table) (c : resolver_cache)
    (a1 a2 a3 : bool) (answers : list binding_answers)
    : option (resolver_cache * option route_bindings * route_bindings_build_status) :=
  match routes, hosts with
  | Some t, Some h =>
      let destination_count := route_table_destination_count routes in
      if ((0 <? destination_count) && (SIZE_MAX / sizeof_route_binding <? destination_count))
         || (SIZE_MAX / 2 <? destination_count)
         || ((0 <? destination_count) && (SIZE_MAX / sizeof_pointer <? destination_count * 2))
      then Some (c, None, ROUTE_BINDINGS_BUILD_MEMORY)
      else if negb a1 then Some (c, None, ROUTE_BINDINGS_BUILD_MEMORY)
      else if (0 <? destination_count) && (negb a2 || negb a3) then Some (c, None, ROUTE_BINDINGS_BUILD_MEMORY)
      else build_loop (Z.to_nat destination_count) 0 (destination_count * 2) t h c [] [] answers
  | _, _ => Some (c, None, ROUTE_BINDINGS_BUILD_BAD_ARGUMENT)
  end.

(** ** Reading the bindings *)

Definition route_bindings_destination_count (b : option route_bindings) : Z :=
  match b with None => 0 | Some b => len (bd_destinations b) end.
Definition route_bindings_destination_get (b : option route_bindings) (index : Z) : option route_binding :=
  match b with None => None | Some b => if len (bd_destinations b) <=? index then None else bd_destinations b !! Z.to_nat index end.
Definition route_bindings_entry_count (b : option route_bindings) : Z :=
  match b with None => 0 | Some b => len (bd_entries b) end.
Definition route_bindings_entry_get (b : option route_bindings) (index : Z) : option Z :=
  match b with None => None | Some b => if len (bd_entries b) <=? index then None else bd_entries b !! Z.to_nat index end.

(** ** References *)

(** Live entries stay live, under the same key. *)
Definition keeps_live (c c' : resolver_cache) (id : Z) : Prop :=
  forall e, entry_get c id = Some e -> exists e', entry_get c' id = Some e' /\ key e' = key e.

Lemma entry_get_entries c c' id : entries c = entries c' -> entry_get c id = entry_get c' id.
Proof. unfold entry_get. by intros ->. Qed.

Lemma keeps_live_count c id0 n id : keeps_live c (entry_set c id0 (with_reference_count n)) id.
Proof.
  intros e He. rewrite entry_get_set by apply keeps_reference_count. rewrite He. destruct (id =? id0); by eexists.
Qed.

Lemma acquire_keeps_live c name t alloc c' r s id : cache_ok c ->
  resolver_cache_entry_acquire c name t alloc = Some (c', r, s) -> keeps_live c c' id.
Proof.
  intros Hok H e He. destruct (acquire_spec c name t alloc Hok) as (c2 & r2 & s2 & H2 & Hok' & Hs). rewrite H2 in H. simplify_eq.
  destruct s; try (destruct Hs as [_ [m ->]]; by exists e). destruct Hs as (n & _ & _ & Hl). destruct (cache_lookup c (n, t)) as [e0|].
  - destruct Hl as [_ Hent]. rewrite (entry_get_entries _ _ id Hent). by apply keeps_live_count.
  - destruct Hl as [_ Hperm]. exists e. split; [|done]. pose proof (entry_get_Some _ _ _ He) as [Hin <-].
    apply entry_get_elem; [done|]. rewrite Hperm. by right.
Qed.

Lemma release_keeps_live c id0 e0 c' id : cache_ok c -> entry_get c id0 = Some e0 ->
  resolver_cache_entry_release c (Some id0) = Some c' -> id <> id0 \/ e_reference_count e0 <> 1 -> keeps_live c c' id.
Proof.
  intros Hok H0 H Hne e He. destruct (decide (e_reference_count e0 = 1)) as [H1|H1].
  - rewrite (release_last c id0 e0) in H by done. simplify_eq. rewrite (entry_get_without c id0 e0) by done.
    replace (id =? id0) with false by lia. by exists e.
  - destruct (payload_room c id0 e0 Hok H0) as (Heok & _ & _). pose proof (eo_refs e0 Heok).
    unfold resolver_cache_entry_release in H. rewrite H0 in H. cbn [mbind option_bind] in H.
    replace (e_reference_count e0 =? 0) with false in H by lia. replace (e_reference_count e0 - 1 =? 0) with false in H by lia.
    cbn [negb] in H. simplify_eq. by apply keeps_live_count.
Qed.

(** How many of the held entries have a key. *)
Definition holds_key (c : resolver_cache) (k : bytes * Z) (id : Z) : bool :=
  match entry_get c id with Some e => bool_decide (key e = k) | None => false end.
Definition held (c : resolver_cache) (ids : list Z) (k : bytes * Z) : Z := len (List.filter (holds_key c k) ids).

(** Compared with the cache [c0], the cache [c] has the references of the
    entries [ids] on top. *)
Record holds (c0 c : resolver_cache) (ids : list Z) : Prop := {
  ho_base : cache_ok c0;
  ho_ok : cache_ok c;
  ho_live : Forall (fun id => entry_get c id <> None) ids;
  ho_references : forall k, references c k = references c0 k + held c ids k;
}.

Lemma held_mono c c' ids k : (forall id, id ∈ ids -> keeps_live c c' id) -> Forall (fun id => entry_get c id <> None) ids ->
  held c' ids k = held c ids k /\ Forall (fun id => entry_get c' id <> None) ids.
Proof.
  unfold held. intros Hk Hl. induction Hl as [|id ids Hid Hl IH]; [done|]. simpl.
  destruct IH as [IH1 IH2]; [intros x Hx; apply Hk; by right|]. destruct (entry_get c id) as [e|] eqn:E; [|done].
  destruct (Hk id ltac:(by left) e E) as (e' & E' & He'). assert (Hh : holds_key c' k id = holds_key c k id).
  { unfold holds_key. rewrite E, E', He'. done. }
  rewrite Hh. split; [destruct (holds_key c k id); simpl length; lia|]. constructor; [by rewrite E'|done].
Qed.

Lemma held_perm c ids ids' k : Permutation ids ids' -> held c ids k = held c ids' k.
Proof.
  unfold held. induction 1 as [|x l l' H IH|x y l|l l' l'' H1 IH1 H2 IH2]; simpl; [done| | |lia].
  - destruct (holds_key c k x); simpl length; lia.
  - destruct (holds_key c k x), (holds_key c k y); simpl length; lia.
Qed.

Lemma holds_perm c0 c ids ids' : Permutation ids ids' -> holds c0 c ids -> holds c0 c ids'.
Proof.
  intros Hp [H1 H2 H3 H4]. constructor; [done|done|by rewrite <- Hp|]. intros k. by rewrite <- (held_perm c ids ids').
Qed.

Lemma holds_refl c : cache_ok c -> holds c c [].
Proof. intros H. constructor; [done|done|constructor|]. intros k. unfold held. simpl. lia. Qed.

(** An entry that is live has at least one reference. *)
Lemma references_live c id e : cache_ok c -> entry_get c id = Some e -> references c (key e) = e_reference_count e /\ 1 <= e_reference_count e.
Proof.
  intros Hok He. pose proof (entry_get_Some c id e He) as [Hin _]. unfold references. rewrite (proj2 (lookup_Some c (key e) e Hok)) by done.
  destruct (payload_room c id e Hok He) as (Heok & _ & _). pose proof (eo_refs e Heok). lia.
Qed.

Lemma references_nonneg c k : cache_ok c -> 0 <= references c k.
Proof.
  intros Hok. unfold references. destruct (cache_lookup c k) as [e|] eqn:E; [|lia]. apply lookup_Some in E as [E _]; [|done].
  pose proof (to_entries _ _ _ _ _ Hok) as Hall. rewrite Forall_forall in Hall. pose proof (eo_refs e (Hall e (proj1 (list_elem_of_In _ _) E))). lia.
Qed.

(** Giving one reference back. *)
Lemma release_holds c0 c id ids : holds c0 c (id :: ids) ->
  exists c', resolver_cache_entry_release c (Some id) = Some c' /\ holds c0 c' ids /\ forall x, x ∈ ids -> keeps_live c c' x.
Proof.
  intros [Hok0 Hok Hl Hr]. inversion_clear Hl as [|? ? Hid Hl'].
  destruct (entry_get c id) as [e|] eqn:E; [|done]. destruct (release_references c id e Hok E) as (c' & Hc' & Hrel & _ & Hother).
  exists c'. split; [done|].
  assert (Hmono : forall x, x ∈ ids -> keeps_live c c' x).
  { intros x Hx. eapply release_keeps_live; [done|exact E|done|]. destruct (decide (x = id)) as [->|Hne]; [right|by left].
    specialize (Hr (key e)). rewrite (proj1 (references_live c id e Hok E)) in Hr. pose proof (references_nonneg c0 (key e) Hok0).
    unfold held in Hr. simpl in Hr. assert (Hk : holds_key c (key e) id = true) by (unfold holds_key; rewrite E; by apply bool_decide_eq_true_2).
    rewrite Hk in Hr. simpl length in Hr. assert (Hin : In id (List.filter (holds_key c (key e)) ids)) by (apply List.filter_In; split; [by apply list_elem_of_In|done]).
    destruct (List.filter _ ids); [done|simpl length in Hr; lia]. }
  split; [|done]. constructor; [done|by eapply release_ok|by apply (held_mono c c' ids (key e))|].
  intros k. destruct (held_mono c c' ids k Hmono Hl') as [-> _]. specialize (Hr k). unfold held in Hr. simpl in Hr.
  unfold holds_key in Hr at 1. rewrite E in Hr. unfold held. case_bool_decide as Hk.
  - subst k. rewrite Hrel. simpl length in Hr. lia.
  - unfold references in *. rewrite Hother by congruence. lia.
Qed.

Lemma keeps_live_trans c1 c2 c3 id : keeps_live c1 c2 id -> keeps_live c2 c3 id -> keeps_live c1 c3 id.
Proof. intros H1 H2 e He. destruct (H1 e He) as (e' & He' & Hk'). destruct (H2 e' He') as (e'' & He'' & Hk''). exists e''. split; [done|congruence]. Qed.

Lemma release_entries_holds c0 ids c rest : holds c0 c (ids ++ rest) ->
  exists c', release_entries c ids = Some c' /\ holds c0 c' rest /\ forall x, x ∈ rest -> keeps_live c c' x.
Proof.
  revert c. induction ids as [|id ids IH]; intros c H; cbn [release_entries]; [exists c; split; [done|]; split; [done|]; intros x _ e He; by exists e|].
  destruct (release_holds c0 c id (ids ++ rest) H) as (c1 & -> & H1 & K1). cbn [mbind option_bind].
  destruct (IH c1 H1) as (c2 & Hc2 & H2 & K2). exists c2. split; [done|]. split; [done|]. intros x Hx.
  eapply keeps_live_trans; [apply K1, elem_of_app; by right|by apply K2].
Qed.

(** Taking one reference. *)
Lemma acquire_holds c0 c ids name t alloc c' r s : holds c0 c ids ->
  resolver_cache_entry_acquire c name t alloc = Some (c', r, s) ->
  (forall id, keeps_live c c' id) /\
  match s with
  | RESOLVER_CACHE_ACQUIRE_OK => exists id n e, r = Some id /\ holds c0 c' (id :: ids) /\
      resolver_name_normalize name = Some n /\ entry_get c' id = Some e /\ key e = (n, t)
  | _ => r = None /\ holds c0 c' ids
  end.
Proof.
  intros [Hok0 Hok Hl Hr] Hacq. assert (Hmono : forall x, keeps_live c c' x) by (intros x; by eapply acquire_keeps_live). split; [done|].
  pose proof (acquire_references _ _ _ _ _ _ _ Hok Hacq) as Hs. unfold acquired in Hs.
  assert (Hok' : cache_ok c') by (destruct (acquire_spec c name t alloc Hok) as (c2 & r2 & s2 & H2 & Hok2 & _); rewrite H2 in Hacq; by simplify_eq).
  assert (Hfail : entries c' = entries c -> holds c0 c' ids).
  { intros Hent. constructor; [done|done|by apply (held_mono c c' ids ([], 0))|].
    intros k. unfold references at 1. rewrite (entries_lookup _ _ _ Hent). destruct (held_mono c c' ids k) as [-> _]; [auto|done|]. apply Hr. }
  destruct s; try (destruct Hs as [-> Hent]; split; [done|]; by apply Hfail).
  destruct Hs as (n & id & e & Hn & -> & He & Hk & Hplus & Hother). exists id, n, e. split; [done|]. split; [|done].
  destruct (held_mono c c' ids (n, t)) as [_ Hl']; [auto|done|]. constructor; [done|done|constructor; [by rewrite He|done]|].
  intros k. unfold held. simpl. unfold holds_key at 1. rewrite He. destruct (held_mono c c' ids k) as [Hheld _]; [auto|done|]. unfold held in Hheld.
  case_bool_decide as Hkk.
  - assert (k = (n, t)) as -> by congruence. rewrite Hplus, Hr. unfold held. simpl length. lia.
  - unfold references at 1. rewrite Hother by congruence. fold (references c k). rewrite Hr. unfold held. lia.
Qed.

Lemma entry_acquire_holds capacity c0 c ids name t alloc : holds c0 c ids -> NoDup ids -> len ids < capacity ->
  exists c' ids' r s, route_bindings_cache_entry_acquire capacity c ids name t alloc = Some (c', ids', r, s) /\
    holds c0 c' ids' /\ NoDup ids' /\ ids `prefix_of` ids' /\ (forall id, id ∈ ids -> keeps_live c c' id) /\
    len ids' <= len ids + 1 /\
    match s with
    | ROUTE_BINDINGS_ENTRY_OK => exists id n e, r = Some id /\ id ∈ ids' /\ resolver_name_normalize name = Some n /\
        entry_get c' id = Some e /\ key e = (n, t)
    | _ => r = None /\ ids' = ids
    end.
Proof.
  intros Hh Hd Hcap. unfold route_bindings_cache_entry_acquire.
  destruct (acquire_spec c name t alloc (ho_ok _ _ _ Hh)) as (c1 & r & s & Hacq & _). rewrite Hacq.
  destruct (acquire_holds c0 c ids name t alloc c1 r s Hh Hacq) as [Hmono Hs].
  destruct s; try (destruct Hs as [-> Hh1]; do 4 eexists; split; [done|]; do 4 (split; [by auto|]); split; [lia|done]).
  destruct Hs as (id & n & e & -> & Hh1 & Hn & He & Hk). destruct (existsb (fun x => x =? id) ids) eqn:Ex.
  - apply existsb_exists in Ex as (x & Hx & Hxid). assert (x = id) by lia. subst x. apply list_elem_of_In in Hx.
    destruct (release_holds c0 c1 id ids Hh1) as (c2 & -> & Hh2 & K2). cbn [mbind option_bind].
    destruct (K2 id Hx e He) as (e' & He' & Hk'). do 4 eexists. split; [done|]. split; [done|]. split; [done|]. split; [done|].
    split; [intros y Hy; eapply keeps_live_trans; [apply Hmono|by apply K2]|]. split; [lia|]. exists id, n, e'.
    split; [done|]. split; [done|]. split; [done|]. split; [done|congruence].
  - replace (len ids <? capacity) with true by lia.
    assert (Hnin : id ∉ ids).
    { intros Hin. assert (T : existsb (fun x => x =? id) ids = true); [|congruence]. apply existsb_exists. exists id. split; [by apply list_elem_of_In|lia]. }
    do 4 eexists. split; [done|]. split; [eapply holds_perm; [|exact Hh1]; apply Permutation_cons_append|].
    split; [rewrite <- Permutation_cons_append; by apply list.NoDup_cons|]. split; [by apply prefix_app_r|]. split; [auto|]. split; [lens|].
    exists id, n, e. split; [done|]. split; [apply elem_of_app; right; by left|done].
Qed.

(** ** Destinations *)

(** A pointer to the held entry of a name and a type. *)
Definition entry_for (c : resolver_cache) (ids : list Z) (entry : option Z) (name : option bytes) (t : Z) : Prop :=
  exists id n e, entry = Some id /\ id ∈ ids /\ resolver_name_normalize name = Some n /\ entry_get c id = Some e /\ key e = (n, t).

(** The hosts file has no record of the name. *)
Definition not_in_hosts (hosts : hosts_table) (name : option bytes) : Prop :=
  forall n, hosts_name_normalize name HOSTS_NAME_SIZE = Some n -> Forall (fun r => h_name r <> n) (records hosts).

Lemma lookup_loop_missing name rs found answers result status : lookup_loop name rs found answers = (result, status) ->
  status <> HOSTS_LOOKUP_BAD_ARGUMENT /\ (status = HOSTS_LOOKUP_NOT_FOUND -> found = [] /\ Forall (fun r => h_name r <> name) rs).
Proof.
  revert found answers. induction rs as [|r rs IH]; intros found answers; cbn [lookup_loop]; [by destruct found; intros [= <- <-]|].
  case_bool_decide as Hn; cbn [negb].
  - destruct (existsb _ found) eqn:Ex; [|destruct (next_alloc answers) as [a answers'], a; cbn [negb]].
    + intros [H1 H2]%IH. split; [done|]. intros [-> _]%H2. done.
    + intros [H1 H2]%IH. split; [done|]. intros [H3 _]%H2. by destruct found.
    + by intros [= <- <-].
  - intros [H1 H2]%IH. split; [done|]. intros [-> H3]%H2. split; [done|]. by constructor.
Qed.

Lemma lookup_missing hosts name answers result status : hosts_table_lookup (Some hosts) name answers = (result, status) ->
  status = HOSTS_LOOKUP_NOT_FOUND \/ status = HOSTS_LOOKUP_BAD_ARGUMENT -> not_in_hosts hosts name.
Proof.
  unfold hosts_table_lookup, not_in_hosts. intros H Hs n Hn. rewrite Hn in H. apply lookup_loop_missing in H as [H1 H2].
  destruct Hs as [Hs|Hs]; [by apply H2|done].
Qed.

(** What a destination is bound to. *)
Definition bound (c : resolver_cache) (ids : list Z) (hosts : hosts_table) (d : route_destination_view) (b : route_binding) : Prop :=
  b_port b = dv_port d /\
  match b_source b with
  | ROUTE_BINDING_SOURCE_NUMERIC => dv_numeric d = true /\ b_numeric_address b = dv_numeric_address d
  | ROUTE_BINDING_SOURCE_DNS_SRV => dv_numeric d = false /\ dv_srv d = true /\ entry_for c ids (b_srv_entry b) (dv_query_name d) ns_t_srv
  | ROUTE_BINDING_SOURCE_HOSTS => dv_numeric d = false /\ dv_srv d = false /\
      exists answers, hosts_table_lookup (Some hosts) (dv_query_name d) answers = (b_hosts b, HOSTS_LOOKUP_OK)
  | ROUTE_BINDING_SOURCE_DNS_ADDRESS => dv_numeric d = false /\ dv_srv d = false /\ not_in_hosts hosts (dv_query_name d) /\
      entry_for c ids (b_ipv4_entry b) (dv_query_name d) ns_t_a /\ entry_for c ids (b_ipv6_entry b) (dv_query_name d) ns_t_aaaa
  | ROUTE_BINDING_SOURCE_UNAVAILABLE => dv_numeric d = false /\ (dv_srv d = false -> not_in_hosts hosts (dv_query_name d)) /\
      resolver_name_normalize (dv_query_name d) = None
  end.

Lemma entry_for_mono c c' ids ids' entry name t : ids `prefix_of` ids' -> (forall id, id ∈ ids -> keeps_live c c' id) ->
  entry_for c ids entry name t -> entry_for c' ids' entry name t.
Proof.
  intros Hp Hk (id & n & e & -> & Hin & Hn & He & Hkey). destruct (Hk id Hin e He) as (e' & He' & Hkey'). exists id, n, e'.
  split; [done|]. split; [destruct Hp as [l ->]; apply elem_of_app; by left|]. split; [done|]. split; [done|congruence].
Qed.

Lemma bound_mono c c' ids ids' hosts d b : ids `prefix_of` ids' -> (forall id, id ∈ ids -> keeps_live c c' id) ->
  bound c ids hosts d b -> bound c' ids' hosts d b.
Proof.
  intros Hp Hk [H1 H2]. split; [done|]. destruct (b_source b); try done.
  - destruct H2 as (H2 & H3 & H4 & H5 & H6). repeat (split; [done|]). split; by eapply entry_for_mono.
  - destruct H2 as (H2 & H3 & H4). repeat (split; [done|]). by eapply entry_for_mono.
Qed.

Lemma acquire_bad_argument c name t alloc c' r : resolver_cache_query_type_valid t = true -> cache_ok c ->
  resolver_cache_entry_acquire c name t alloc = Some (c', r, RESOLVER_CACHE_ACQUIRE_BAD_ARGUMENT) -> resolver_name_normalize name = None.
Proof.
  intros Ht Hok. unfold resolver_cache_entry_acquire. rewrite Ht. destruct (resolver_name_normalize name) as [n|]; [|done].
  destruct (resolver_cache_entry_find _ _ _ _) as [e|]; [destruct (resolver_cache_entry_retain c _) as [[? []]|]; done|].
  repeat match goal with |- context [if ?b then Some _ else _] => destruct b; [done|] end. done.
Qed.

Lemma entry_unavailable capacity c ids name t alloc c' ids' r : resolver_cache_query_type_valid t = true -> cache_ok c ->
  route_bindings_cache_entry_acquire capacity c ids name t alloc = Some (c', ids', r, ROUTE_BINDINGS_ENTRY_UNAVAILABLE) ->
  resolver_name_normalize name = None.
Proof.
  intros Ht Hok. unfold route_bindings_cache_entry_acquire. destruct (resolver_cache_entry_acquire c name t alloc) as [[[c1 r1] s]|] eqn:E; [|done].
  destruct s; try done; [|by apply acquire_bad_argument in E]. destruct r1 as [id|]; [|done].
  destruct (existsb _ ids); [by destruct (resolver_cache_entry_release c1 (Some id))|by destruct (len ids <? capacity)].
Qed.

(** What preparing a destination does. *)
Definition prepared (c0 c : resolver_cache) (ids : list Z) (hosts : hosts_table) (d : route_destination_view)
    (r : option (resolver_cache * list Z * route_binding * route_bindings_build_status)) : Prop :=
  exists c' ids' b s, r = Some (c', ids', b, s) /\ holds c0 c' ids' /\ NoDup ids' /\ ids `prefix_of` ids' /\
    (forall id, id ∈ ids -> keeps_live c c' id) /\ len ids' <= len ids + 2 /\
    match s with
    | ROUTE_BINDINGS_BUILD_OK => bound c' ids' hosts d b
    | ROUTE_BINDINGS_BUILD_LIMIT | ROUTE_BINDINGS_BUILD_MEMORY => True
    | _ => False
    end.

Ltac prepared_by H := do 4 eexists; split; [done|]; split; [exact H|]; split; [done|]; split; [done|]; split; [done|]; split; [lia|].

Lemma addresses_holds capacity c0 c ids d hosts ans : holds c0 c ids -> NoDup ids -> len ids + 2 <= capacity ->
  dv_numeric d = false -> dv_srv d = false -> not_in_hosts hosts (dv_query_name d) -> prepared c0 c ids hosts d (prepare_addresses capacity c ids d ans).
Proof.
  intros Hh Hd Hcap En Es Hnot. unfold prepare_addresses.
  destruct (entry_acquire_holds capacity c0 c ids (dv_query_name d) ns_t_a (al_first ans) Hh Hd ltac:(lia))
    as (c1 & ids1 & r1 & s1 & Ha1 & H1 & D1 & P1 & K1 & L1 & Hs1). rewrite Ha1.
  destruct s1; [|prepared_by H1; apply entry_unavailable in Ha1; [done|done|apply Hh]|prepared_by H1; done|prepared_by H1; done].
  destruct (entry_acquire_holds capacity c0 c1 ids1 (dv_query_name d) ns_t_aaaa (al_second ans) H1 D1 ltac:(lia))
    as (c2 & ids2 & r2 & s2 & Ha2 & H2 & D2 & P2 & K2 & L2 & Hs2). rewrite Ha2.
  assert (P : ids `prefix_of` ids2) by by transitivity ids1.
  assert (K : forall id, id ∈ ids -> keeps_live c c2 id).
  { intros id Hid. eapply keeps_live_trans; [by apply K1|apply K2]. destruct P1 as [l ->]. apply elem_of_app. by left. }
  destruct Hs1 as (id1 & n1 & e1 & -> & Hin1 & Hn1 & He1 & Hk1).
  destruct s2; [|apply entry_unavailable in Ha2; [congruence|done|apply H1]|prepared_by H2; done|prepared_by H2; done].
  prepared_by H2. split; [done|]. split; [done|]. split; [done|]. split; [done|]. split.
  - apply (entry_for_mono c1 c2 ids1 ids2); [done|done|]. by exists id1, n1, e1.
  - destruct Hs2 as (id2 & n2 & e2 & -> & Hrest). by exists id2, n2, e2.
Qed.

Lemma prepare_holds capacity c0 c ids d hosts ans : holds c0 c ids -> NoDup ids -> len ids + 2 <= capacity ->
  prepared c0 c ids hosts d (route_bindings_destination_prepare capacity c ids d hosts ans).
Proof.
  intros Hh Hd Hcap. unfold route_bindings_destination_prepare.
  assert (Hself : forall id, id ∈ ids -> keeps_live c c id) by (intros id _ e He; by exists e).
  destruct (dv_numeric d) eqn:En; [prepared_by Hh; done|].
  destruct (dv_srv d) eqn:Es.
  - destruct (entry_acquire_holds capacity c0 c ids (dv_query_name d) ns_t_srv (al_first ans) Hh Hd ltac:(lia))
      as (c1 & ids1 & r & s & Ha & H1 & D1 & P1 & K1 & L1 & Hs). rewrite Ha. destruct s; prepared_by H1; try done.
    apply entry_unavailable in Ha; [|done|apply Hh]. split; [done|]. split; [done|]. split; [by rewrite Es|done].
  - destruct (hosts_table_lookup (Some hosts) (dv_query_name d) (al_hosts ans)) as [found hs] eqn:Eh.
    pose proof (lookup_missing _ _ _ _ _ Eh) as Hnot.
    destruct hs; [|by apply addresses_holds; auto|prepared_by Hh; done|by apply addresses_holds; auto].
    prepared_by Hh. split; [done|]. split; [done|]. split; [done|]. by eexists.
Qed.

(** ** Building *)

(** The view of a destination of the table. *)
Definition view_of_destination (d : route_destination) : route_destination_view :=
  {| dv_numeric := numeric d; dv_numeric_address := numeric_address d; dv_port := d_port d; dv_query_name := query_name d; dv_srv := srv d |}.

Definition built_bindings (c0 : resolver_cache) (routes : route_table) (hosts : hosts_table)
    (r : option (resolver_cache * option route_bindings * route_bindings_build_status)) : Prop :=
  match r with
  | Some (c', Some b, ROUTE_BINDINGS_BUILD_OK) =>
      holds c0 c' (bd_entries b) /\ NoDup (bd_entries b) /\
      Forall2 (fun d => bound c' (bd_entries b) hosts (view_of_destination d)) (destinations routes) (bd_destinations b)
  | Some (c', None, ROUTE_BINDINGS_BUILD_LIMIT) | Some (c', None, ROUTE_BINDINGS_BUILD_MEMORY) => holds c0 c' []
  | _ => False
  end.

Lemma build_loop_spec c0 routes hosts n c ds ids answers : holds c0 c ids -> NoDup ids ->
  len ds + Z.of_nat n = len (destinations routes) -> len ids <= 2 * len ds ->
  Forall2 (fun d => bound c ids hosts (view_of_destination d)) (take (length ds) (destinations routes)) ds ->
  built_bindings c0 routes hosts (build_loop n (len ds) (len (destinations routes) * 2) routes hosts c ds ids answers).
Proof.
  revert c ds ids answers. induction n as [|n IH]; intros c ds ids answers Hh Hd Hn Hlen Hb.
  - simpl. rewrite take_ge in Hb by lia. done.
  - cbn [build_loop]. destruct (destinations routes !! length ds) as [d|] eqn:El; [|apply lookup_ge_None in El; lia].
    unfold route_table_destination_get. replace (len (destinations routes) <=? len ds) with false by lia.
    rewrite Nat2Z.id, El. cbn [mbind option_bind]. fold (view_of_destination d). destruct (next_answers answers) as [ans answers'].
    destruct (prepare_holds (len (destinations routes) * 2) c0 c ids (view_of_destination d) hosts ans Hh Hd ltac:(lia))
      as (c1 & ids1 & b & s & -> & H1 & D1 & P1 & K1 & L1 & Hs).
    assert (Hfree : exists c', release_entries c1 ids1 = Some c' /\ holds c0 c' []).
    { destruct (release_entries_holds c0 ids1 c1 []) as (c2 & Hc2 & H2 & _); [by rewrite app_nil_r|]. by exists c2. }
    destruct Hfree as (c2 & Hc2 & H2).
    destruct s; try done; try (cbn [route_bindings_destroy bd_entries]; rewrite Hc2; exact H2).
    replace (len ds + 1) with (len (ds ++ [b])) by lens. apply IH; [done|done|lens|lens|].
    rewrite length_app. simpl. rewrite Nat.add_1_r, (take_S_r _ _ _ El). apply Forall2_app; [|constructor; [done|constructor]].
    revert Hb. apply Forall2_impl. intros d' b'. by apply bound_mono.
Qed.

(** C25: binding the destinations of a route table never uses a freed cache entry and stays
    inside its arrays.  When it succeeds every destination is bound, with its port, to
    its numeric address, to the live cache entry of its service, to its addresses in the
    hosts file, or, if that has no record of its name, to the live cache entries of its
    addresses; a destination that is not numeric is unavailable when its name is not valid
    and, unless it is a service, not in the hosts file.  The bindings hold exactly one reference to each of their distinct
    entries, and destroying them gives these references back.  When it fails, for lack
    of memory or at the limit of the cache, every reference it took has been given
    back. *)
Theorem bindings_references c routes hosts a1 a2 a3 answers : reachable c ->
  match route_bindings_build (Some routes) (Some hosts) c a1 a2 a3 answers with
  | Some (c', Some b, ROUTE_BINDINGS_BUILD_OK) =>
      Forall2 (fun d => bound c' (bd_entries b) hosts (view_of_destination d)) (destinations routes) (bd_destinations b) /\
      NoDup (bd_entries b) /\ Forall (fun id => entry_get c' id <> None) (bd_entries b) /\
      (forall k, references c' k = references c k + held c' (bd_entries b) k) /\
      exists c'', route_bindings_destroy c' (Some b) = Some c'' /\ forall k, references c'' k = references c k
  | Some (c', None, ROUTE_BINDINGS_BUILD_LIMIT) | Some (c', None, ROUTE_BINDINGS_BUILD_MEMORY) =>
      forall k, references c' k = references c k
  | _ => False
  end.
Proof.
  intros Hr. apply reachable_ok in Hr. assert (Hnil : forall c', holds c c' [] -> forall k, references c' k = references c k).
  { intros c' Hh k. rewrite (ho_references _ _ _ Hh k). unfold held. simpl. lia. }
  unfold route_bindings_build. if_as E1; [done|]. destruct (negb a1); [done|]. if_as E2; [done|].
  cbn [route_table_destination_count]. rewrite Nat2Z.id.
  pose proof (build_loop_spec c routes hosts (length (destinations routes)) c [] [] answers (holds_refl c Hr)
    ltac:(constructor) ltac:(simpl; lia) ltac:(simpl; lia) ltac:(constructor)) as Hb. change (len []) with 0 in Hb.
  destruct (build_loop _ _ _ _ _ _ _ _ _) as [[[c' [b|]] s]|]; [destruct s; try done|destruct s; try done; by apply Hnil|done].
  destruct Hb as (Hh & Hd & Hf). split; [done|]. split; [done|]. split; [apply Hh|]. split; [apply Hh|].
  destruct (release_entries_holds c (bd_entries b) c' []) as (c'' & Hc & Hh' & _); [by rewrite app_nil_r|]. exists c''. split; [done|]. by apply Hnil.
Qed.

(** Three destinations, two of them the same name. *)
Definition sample_routes : route_table := {|
  destinations := [
    {| hash_next := SIZE_MAX; numeric := false; numeric_address := net_addr_zero; d_port := 0; query_name := Some [97; 46; 98]; srv := true |};
    {| hash_next := SIZE_MAX; numeric := false; numeric_address := net_addr_zero; d_port := 25565; query_name := Some [97; 46; 99]; srv := false |};
    {| hash_next := SIZE_MAX; numeric := false; numeric_address := net_addr_zero; d_port := 25566; query_name := Some [97; 46; 99]; srv := false |}];
  routes := [] |}.

Lemma bindings_references_witness : exists c c' b, reachable c /\
  route_bindings_build (Some sample_routes) (Some hosts_table_zero) c true true true [] = Some (c', Some b, ROUTE_BINDINGS_BUILD_OK) /\
  references c' ([97; 46; 99], ns_t_a) = 1 /\ references c' ([97; 46; 98], ns_t_srv) = 1 /\ len (bd_entries b) = 3 /\
  exists c'', route_bindings_destroy c' (Some b) = Some c'' /\ forall k, references c'' k = references c k.
Proof.
  assert (H : match resolver_cache_create true true with
    | None => false
    | Some c => match route_bindings_build (Some sample_routes) (Some hosts_table_zero) c true true true [] with
      | Some (c', Some b, ROUTE_BINDINGS_BUILD_OK) =>
          (references c' ([97; 46; 99], ns_t_a) =? 1) && (references c' ([97; 46; 98], ns_t_srv) =? 1) && (len (bd_entries b) =? 3)
      | _ => false end end = true) by (vm_compute; reflexivity).
  destruct (resolver_cache_create true true) as [c|] eqn:E0; [|done].
  assert (Hr : reachable c) by by apply Reach_create.
  pose proof (bindings_references c sample_routes hosts_table_zero true true true [] Hr) as Hb.
  destruct (route_bindings_build _ _ _ _ _ _ _) as [[[c' [b|]] s]|] eqn:E1; [destruct s; try discriminate H|discriminate H|discriminate H].
  exists c, c', b. destruct Hb as (_ & _ & _ & _ & Hfree). split; [done|]. split; [exact E1|].
  split; [lia|]. split; [lia|]. split; [lia|]. exact Hfree.
Defined.
