(* ===== verification/Resolution.v ===== *)
(** * What the resolution coordinator shows ([src/src/route/resolution.h])

    The state of a destination and of its targets, as endpoint selection and the
    generation registry read them through the accessors of
    [src/src/route/resolution.c]. *)

From S2P Require Import Prelude Proxy ResolverUtil Hosts.

(** ** Types *)

Inductive route_resolution_completion_status :=
  | ROUTE_RESOLUTION_COMPLETION_OK | ROUTE_RESOLUTION_COMPLETION_IGNORED | ROUTE_RESOLUTION_COMPLETION_BAD_ARGUMENT
  | ROUTE_RESOLUTION_COMPLETION_IO | ROUTE_RESOLUTION_COMPLETION_TIME.
Inductive route_resolution_release_status :=
  | ROUTE_RESOLUTION_RELEASE_OK | ROUTE_RESOLUTION_RELEASE_BAD_ARGUMENT | ROUTE_RESOLUTION_RELEASE_IO
  | ROUTE_RESOLUTION_RELEASE_TIME.
Inductive route_resolution_destination_result :=
  | ROUTE_RESOLUTION_DESTINATION_PENDING | ROUTE_RESOLUTION_DESTINATION_AVAILABLE
  | ROUTE_RESOLUTION_DESTINATION_UNAVAILABLE | ROUTE_RESOLUTION_DESTINATION_SERVICE_UNAVAILABLE
  | ROUTE_RESOLUTION_DESTINATION_CONTRADICTORY.
Inductive route_resolution_target_source :=
  | ROUTE_RESOLUTION_TARGET_NUMERIC | ROUTE_RESOLUTION_TARGET_HOSTS | ROUTE_RESOLUTION_TARGET_DNS.

#[export] Instance route_resolution_release_status_eq_dec : EqDecision route_resolution_release_status.
Proof. solve_decision. Defined.

(** A target; its cache entries are those of the coordinator's entries. *)
Record route_resolution_target := {
  t_hosts : hosts_address_result; t_ipv4_entry : option Z; t_ipv6_entry : option Z; t_name : bytes;
  t_numeric_address : net_addr; t_source : route_resolution_target_source;
}.

Record route_resolution_target_set := { ts_records : option (list dns_srv_record); ts_targets : list route_resolution_target }.

Record route_resolution_destination := {
  rd_first_terminal : bool; rd_pending_entry_count : Z; rd_result : route_resolution_destination_result;
  rd_targets : route_resolution_target_set;
}.

Record route_resolution := { rs_destinations : list route_resolution_destination }.

Record route_resolution_destination_view := {
  dview_first_terminal : bool; dview_pending_entry_count : Z; dview_result : route_resolution_destination_result;
  dview_srv_records : option (list dns_srv_record); dview_target_count : Z;
}.

(** ** Accessors *)

Definition route_resolution_destination_count (resolution : option route_resolution) : Z :=
  match resolution with None => 0 | Some r => len (rs_destinations r) end.

Definition route_resolution_destination_get (resolution : option route_resolution) (destination_index : Z)
    : option route_resolution_destination_view :=
  match resolution with
  | None => None
  | Some r =>
      if len (rs_destinations r) <=? destination_index then None else
      d ← rs_destinations r !! Z.to_nat destination_index;
      Some {| dview_first_terminal := rd_first_terminal d; dview_pending_entry_count := rd_pending_entry_count d;
              dview_result := rd_result d; dview_srv_records := ts_records (rd_targets d);
              dview_target_count := len (ts_targets (rd_targets d)) |}
  end.

(** The view of a target has the fields of the target. *)
Definition route_resolution_destination_target_get (resolution : option route_resolution) (destination_index target_index : Z)
    : option route_resolution_target :=
  match resolution with
  | None => None
  | Some r =>
      if len (rs_destinations r) <=? destination_index then None else
      d ← rs_destinations r !! Z.to_nat destination_index;
      if len (ts_targets (rd_targets d)) <=? target_index then None else ts_targets (rd_targets d) !! Z.to_nat target_index
  end.
