(* ===== verification/Generation.v ===== *)
(** * Route generations and their registry
    ([src/src/route/generation.c], [src/src/route/generation_registry.c])

    A generation owns the configuration, the hosts table, the routes, the bindings
    and the resolution coordinator of one load of the configuration, and is shared
    by reference count between the registry and the connections.  The registry
    keeps the active generation and at most one retired one.

    Generations live in a heap; a pointer is an address of it, and an operation on
    a freed generation is [None].  The calls the registry makes into the
    coordinator are recorded as events, and what they return is an arbitrary list
    of answers. *)

From stdpp Require Import gmap.
From S2P Require Import Prelude TimeUtil Hosts RouteTable Bindings Resolution.

(** ** Types *)

(** [conf] is the type of configurations. *)
Record route_generation {conf : Type} := {
  g_bindings : option route_bindings; g_config : option conf; g_hosts : option hosts_table; g_identity : Z;
  g_reference_count : Z; g_resolution : option route_resolution; g_routes : option route_table;
}.
Arguments route_generation : clear implicits.

Inductive route_generation_create_status :=
  | ROUTE_GENERATION_CREATE_OK | ROUTE_GENERATION_CREATE_BAD_ARGUMENT | ROUTE_GENERATION_CREATE_MEMORY.

Record route_generation_registry := { rg_active : option Z; rg_retired : option Z }.

Inductive route_generation_registry_collect_status :=
  | ROUTE_GENERATION_REGISTRY_COLLECT_NONE | ROUTE_GENERATION_REGISTRY_COLLECT_RETAINED
  | ROUTE_GENERATION_REGISTRY_COLLECT_COLLECTED | ROUTE_GENERATION_REGISTRY_COLLECT_BAD_ARGUMENT
  | ROUTE_GENERATION_REGISTRY_COLLECT_IO | ROUTE_GENERATION_REGISTRY_COLLECT_TIME.
Inductive route_generation_registry_publish_status :=
  | ROUTE_GENERATION_REGISTRY_PUBLISH_OK | ROUTE_GENERATION_REGISTRY_PUBLISH_BLOCKED
  | ROUTE_GENERATION_REGISTRY_PUBLISH_BAD_ARGUMENT | ROUTE_GENERATION_REGISTRY_PUBLISH_IO
  | ROUTE_GENERATION_REGISTRY_PUBLISH_TIME.

(** What a generation owns, and the generation itself. *)
Inductive resource := Resolution | Bindings | Routes | Hosts | Config | Generation.

(** A call into the coordinator of a generation, with its result, and the release
    of one resource. *)
Inductive generation_event :=
  | Released (p : Z) (status : route_resolution_release_status)
  | Observed (p : Z) (status : route_resolution_completion_status)
  | Destroyed (p : Z) (r : resource).

Section generation.
Context {conf : Type}.

(** The heap, the next address, the events so far, and the answers of the
    coordinators. *)
Record world := {
  w_heap : gmap Z (route_generation conf); w_next : Z; w_events : list generation_event;
  w_releases : list route_resolution_release_status; w_completions : list route_resolution_completion_status;
}.

Definition with_heap (w : world) (h : gmap Z (route_generation conf)) : world :=
  {| w_heap := h; w_next := w_next w; w_events := w_events w; w_releases := w_releases w; w_completions := w_completions w |}.
Definition emit (w : world) (es : list generation_event) : world :=
  {| w_heap := w_heap w; w_next := w_next w; w_events := w_events w ++ es; w_releases := w_releases w;
     w_completions := w_completions w |}.
Definition with_count (g : route_generation conf) (n : Z) : route_generation conf :=
  {| g_bindings := g_bindings g; g_config := g_config g; g_hosts := g_hosts g; g_identity := g_identity g;
     g_reference_count := n; g_resolution := g_resolution g; g_routes := g_routes g |}.

(** ** Generations *)

Definition route_generation_resources_destroy (w : world) (p : Z) : world :=
  with_heap (emit w (map (Destroyed p) [Resolution; Bindings; Routes; Hosts; Config; Generation])) (delete p (w_heap w)).

Definition route_generation_create (w : world) (identity : Z) (config : option conf) (hosts : option hosts_table)
    (routes : option route_table) (bindings : option route_bindings) (resolution : option route_resolution)
    (result : option Z) (alloc : bool) : world * option Z * route_generation_create_status :=
  match config, hosts, bindings, resolution, routes, result with
  | Some _, Some _, Some _, Some _, Some _, None =>
      if identity =? 0 then (w, result, ROUTE_GENERATION_CREATE_BAD_ARGUMENT) else
      if negb alloc then (w, result, ROUTE_GENERATION_CREATE_MEMORY) else
      let g := {| g_bindings := bindings; g_config := config; g_hosts := hosts; g_identity := identity;
                  g_reference_count := 1; g_resolution := resolution; g_routes := routes |} in
      ({| w_heap := <[w_next w := g]> (w_heap w); w_next := w_next w + 1; w_events := w_events w; w_releases := w_releases w;
          w_completions := w_completions w |}, Some (w_next w), ROUTE_GENERATION_CREATE_OK)
  | _, _, _, _, _, _ => (w, result, ROUTE_GENERATION_CREATE_BAD_ARGUMENT)
  end.

Definition route_generation_identity (w : world) (generation : option Z) : option Z :=
  match generation with None => Some 0 | Some p => g ← w_heap w !! p; Some (g_identity g) end.

Definition route_generation_reference_count (w : world) (generation : option Z) : option Z :=
  match generation with None => Some 0 | Some p => g ← w_heap w !! p; Some (g_reference_count g) end.

Definition route_generation_release (w : world) (generation : option Z) : option (world * Z) :=
  match generation with
  | None => Some (w, 0)
  | Some p =>
      g ← w_heap w !! p;
      if g_reference_count g =? 0 then Some (w, 0) else
      let n := g_reference_count g - 1 in
      let w := with_heap w (<[p := with_count g n]> (w_heap w)) in
      if n =? 0 then Some (route_generation_resources_destroy w p, 0) else Some (w, n)
  end.

Definition route_generation_retain (w : world) (generation : option Z) : option (world * bool) :=
  match generation with
  | None => Some (w, false)
  | Some p =>
      g ← w_heap w !! p;
      if g_reference_count g =? SIZE_MAX then Some (w, false) else
      Some (with_heap w (<[p := with_count g (g_reference_count g + 1)]> (w_heap w)), true)
  end.

(** ** The registry *)

Definition route_generation_registry_completion_status_merge (current update : route_resolution_completion_status)
    : route_resolution_completion_status :=
  match current, update with
  | (ROUTE_RESOLUTION_COMPLETION_BAD_ARGUMENT | ROUTE_RESOLUTION_COMPLETION_IO | ROUTE_RESOLUTION_COMPLETION_TIME), _ => current
  | _, (ROUTE_RESOLUTION_COMPLETION_BAD_ARGUMENT | ROUTE_RESOLUTION_COMPLETION_IO | ROUTE_RESOLUTION_COMPLETION_TIME) => update
  | _, ROUTE_RESOLUTION_COMPLETION_OK => ROUTE_RESOLUTION_COMPLETION_OK
  | _, _ => current
  end.

Definition route_generation_registry_active_retain (w : world) (r : route_generation_registry) : option (world * option Z) :=
  '(w, retained) ← route_generation_retain w (rg_active r);
  Some (w, if retained : bool then rg_active r else None).

(** The coordinator of [p] releases its background interests; the answers go on
    with success. *)
Definition route_resolution_background_release (w : world) (p : Z) : option (world * route_resolution_release_status) :=
  _ ← w_heap w !! p;
  let status := default ROUTE_RESOLUTION_RELEASE_OK (head (w_releases w)) in
  Some ({| w_heap := w_heap w; w_next := w_next w; w_events := w_events w ++ [Released p status];
           w_releases := tail (w_releases w); w_completions := w_completions w |}, status).

Definition route_generation_registry_collect (w : world) (r : route_generation_registry) (now : option timespec)
    : option (world * route_generation_registry * route_generation_registry_collect_status) :=
  match now with
  | None => Some (w, r, ROUTE_GENERATION_REGISTRY_COLLECT_BAD_ARGUMENT)
  | Some _ =>
      if negb (timeutil_valid now) then Some (w, r, ROUTE_GENERATION_REGISTRY_COLLECT_TIME) else
      match rg_retired r with
      | None => Some (w, r, ROUTE_GENERATION_REGISTRY_COLLECT_NONE)
      | Some p =>
          reference_count ← route_generation_reference_count w (Some p);
          if reference_count =? 0 then Some (w, r, ROUTE_GENERATION_REGISTRY_COLLECT_BAD_ARGUMENT) else
          if 1 <? reference_count then Some (w, r, ROUTE_GENERATION_REGISTRY_COLLECT_RETAINED) else
          match route_resolution_background_release w p with
          | None => None
          | Some (w, ROUTE_RESOLUTION_RELEASE_OK) =>
              match route_generation_release w (Some p) with
              | None => None
              | Some (w, remaining) =>
                  if negb (remaining =? 0) then Some (w, r, ROUTE_GENERATION_REGISTRY_COLLECT_BAD_ARGUMENT) else
                  Some (w, {| rg_active := rg_active r; rg_retired := None |}, ROUTE_GENERATION_REGISTRY_COLLECT_COLLECTED)
              end
          | Some (w, ROUTE_RESOLUTION_RELEASE_BAD_ARGUMENT) => Some (w, r, ROUTE_GENERATION_REGISTRY_COLLECT_BAD_ARGUMENT)
          | Some (w, ROUTE_RESOLUTION_RELEASE_IO) => Some (w, r, ROUTE_GENERATION_REGISTRY_COLLECT_IO)
          | Some (w, ROUTE_RESOLUTION_RELEASE_TIME) => Some (w, r, ROUTE_GENERATION_REGISTRY_COLLECT_TIME)
          end
      end
  end.

(** The coordinator of [p] observes a completion; the answers go on with ignoring it. *)
Definition route_resolution_completion_observe_with_supervisor (w : world) (p : Z)
    : option (world * route_resolution_completion_status) :=
  _ ← w_heap w !! p;
  let status := default ROUTE_RESOLUTION_COMPLETION_IGNORED (head (w_completions w)) in
  Some ({| w_heap := w_heap w; w_next := w_next w; w_events := w_events w ++ [Observed p status];
           w_releases := w_releases w; w_completions := tail (w_completions w) |}, status).

Fixpoint observe_loop (w : world) (generations : list (option Z)) (result : route_resolution_completion_status)
    : option (world * route_resolution_completion_status) :=
  match generations with
  | [] => Some (w, result)
  | None :: generations => observe_loop w generations result
  | Some p :: generations =>
      match route_resolution_completion_observe_with_supervisor w p with
      | None => None
      | Some (w, status) => observe_loop w generations (route_generation_registry_completion_status_merge result status)
      end
  end.

Definition route_generation_registry_completion_observe (w : world) (r : route_generation_registry) (now : option timespec)
    : option (world * route_resolution_completion_status) :=
  match now with
  | None => Some (w, ROUTE_RESOLUTION_COMPLETION_BAD_ARGUMENT)
  | Some _ =>
      if negb (timeutil_valid now) then Some (w, ROUTE_RESOLUTION_COMPLETION_TIME) else
      observe_loop w [rg_active r; rg_retired r] ROUTE_RESOLUTION_COMPLETION_IGNORED
  end.

Definition route_generation_registry_create : route_generation_registry := {| rg_active := None; rg_retired := None |}.

Definition route_generation_registry_destroy (w : world) (r : option route_generation_registry) : option world :=
  match r with
  | None => Some w
  | Some r =>
      '(w, _) ← route_generation_release w (rg_active r);
      '(w, _) ← route_generation_release w (rg_retired r);
      Some w
  end.

(** In a forked child the generations are destroyed whatever their count. *)
Definition route_generation_dispose_in_child (w : world) (generation : option Z) : option world :=
  match generation with
  | None => Some w
  | Some p => _ ← w_heap w !! p; Some (route_generation_resources_destroy w p)
  end.

Definition route_generation_registry_dispose_in_child (w : world) (r : option route_generation_registry) : option world :=
  match r with
  | None => Some w
  | Some r => w ← route_generation_dispose_in_child w (rg_active r); route_generation_dispose_in_child w (rg_retired r)
  end.

(** The guard of [route_generation_registry_publish] on the candidate. *)
Definition candidate_valid (w : world) (r : route_generation_registry) (p : Z) : option bool :=
  identity ← route_generation_identity w (Some p);
  if identity =? 0 then Some false else
  reference_count ← route_generation_reference_count w (Some p);
  if negb (reference_count =? 1) then Some false else
  match rg_active r with
  | None => Some true
  | Some a => active_identity ← route_generation_identity w (Some a); Some (negb (identity <=? active_identity))
  end.

(** The status of [route_generation_registry_publish] after the last collection. *)
Definition publish_status (status : route_generation_registry_collect_status) : route_generation_registry_publish_status :=
  match status with
  | ROUTE_GENERATION_REGISTRY_COLLECT_NONE | ROUTE_GENERATION_REGISTRY_COLLECT_RETAINED
  | ROUTE_GENERATION_REGISTRY_COLLECT_COLLECTED => ROUTE_GENERATION_REGISTRY_PUBLISH_OK
  | ROUTE_GENERATION_REGISTRY_COLLECT_IO => ROUTE_GENERATION_REGISTRY_PUBLISH_IO
  | ROUTE_GENERATION_REGISTRY_COLLECT_TIME => ROUTE_GENERATION_REGISTRY_PUBLISH_TIME
  | ROUTE_GENERATION_REGISTRY_COLLECT_BAD_ARGUMENT => ROUTE_GENERATION_REGISTRY_PUBLISH_BAD_ARGUMENT
  end.

(** The registry, [*candidate] and the status. *)
Definition route_generation_registry_publish (w : world) (r : route_generation_registry) (candidate : option Z)
    (now : option timespec)
    : option (world * route_generation_registry * option Z * route_generation_registry_publish_status) :=
  match candidate, now with
  | Some p, Some _ =>
      valid ← candidate_valid w r p;
      if negb valid then Some (w, r, candidate, ROUTE_GENERATION_REGISTRY_PUBLISH_BAD_ARGUMENT) else
      match route_generation_registry_collect w r now with
      | None => None
      | Some (w, r, (ROUTE_GENERATION_REGISTRY_COLLECT_NONE | ROUTE_GENERATION_REGISTRY_COLLECT_COLLECTED)) =>
          match route_generation_registry_collect w {| rg_active := candidate; rg_retired := rg_active r |} now with
          | None => None
          | Some (w, r, status) => Some (w, r, None, publish_status status)
          end
      | Some (w, r, ROUTE_GENERATION_REGISTRY_COLLECT_RETAINED) =>
          Some (w, r, candidate, ROUTE_GENERATION_REGISTRY_PUBLISH_BLOCKED)
      | Some (w, r, status) => Some (w, r, candidate, publish_status status)
      end
  | _, _ => Some (w, r, candidate, ROUTE_GENERATION_REGISTRY_PUBLISH_BAD_ARGUMENT)
  end.

(** ** Ownership

    [owners] lists every pointer to a generation once for each reference its
    holder owns. *)

Definition destroys (p : Z) (e : generation_event) : bool := match e with Destroyed q _ => q =? p | _ => false end.

Definition all_resources : list resource := [Resolution; Bindings; Routes; Hosts; Config; Generation].

(** Counts are exact, what is owned is alive, and the resources of every other
    generation that was created have been destroyed once, in order. *)
Record world_ok (w : world) (owners : list Z) : Prop := {
  wo_live : forall p, match w_heap w !! p with
                      | Some g => g_reference_count g = Z.of_nat (count_occ Z.eq_dec owners p) /\ 1 <= g_reference_count g <= SIZE_MAX
                      | None => ~ In p owners
                      end;
  wo_events : forall p, List.filter (destroys p) (w_events w) =
                        match w_heap w !! p with
                        | Some _ => []
                        | None => if (0 <? p) && (p <? w_next w) then map (Destroyed p) all_resources else []
                        end;
  wo_fresh : forall p, p <= 0 \/ w_next w <= p -> w_heap w !! p = None;
  wo_next : 0 < w_next w;
}.

(** Generations that are alive later were alive before, with the same identity. *)
Definition kept (w w' : world) : Prop :=
  forall p g', w_heap w' !! p = Some g' -> exists g, w_heap w !! p = Some g /\ g_identity g = g_identity g'.

(** A retired generation is older than the active one. *)
Definition registry_ok (w : world) (r : route_generation_registry) : Prop :=
  forall b, rg_retired r = Some b -> exists a ga gb, rg_active r = Some a /\ w_heap w !! a = Some ga /\ w_heap w !! b = Some gb /\
    g_identity gb < g_identity ga.

Definition pointers (r : route_generation_registry) : list Z := option_list (rg_active r) ++ option_list (rg_retired r).

Lemma kept_refl w : kept w w.
Proof. intros p g' H. by exists g'. Qed.
Lemma kept_trans w1 w2 w3 : kept w1 w2 -> kept w2 w3 -> kept w1 w3.
Proof. intros H1 H2 p g' H. destruct (H2 _ _ H) as (g & Hg & <-). eauto. Qed.

Lemma world_ok_perm w L L' : Permutation L L' -> world_ok w L -> world_ok w L'.
Proof.
  intros HP [H1 H2 H3 H4]. split; [|done..]. intros p. specialize (H1 p).
  rewrite <- (proj1 (Permutation_count_occ Z.eq_dec L L') HP p).
  destruct (w_heap w !! p); [done|]. intros Hin. apply H1. by apply (Permutation_in _ (Permutation_sym HP)).
Qed.

Lemma owner_live w L p : world_ok w L -> In p L -> exists g, w_heap w !! p = Some g /\
  g_reference_count g = Z.of_nat (count_occ Z.eq_dec L p) /\ 1 <= g_reference_count g <= SIZE_MAX.
Proof. intros [H _ _ _] Hin. specialize (H p). destruct (w_heap w !! p) as [g|]; [by exists g|done]. Qed.

Lemma registry_ok_kept w w' r L : registry_ok w r -> world_ok w' (pointers r ++ L) -> kept w w' -> registry_ok w' r.
Proof.
  intros Hr Hw Hk b Hb. destruct (Hr b Hb) as (a & ga & gb & Ha & Hga & Hgb & Hlt).
  assert (Hlive : forall p, In p (pointers r) -> exists g, w_heap w' !! p = Some g).
  { intros p Hp. destruct (owner_live w' _ p Hw) as (g & Hg & _); [apply in_or_app; by left|by exists g]. }
  unfold pointers in Hlive. rewrite Ha, Hb in Hlive. simpl in Hlive.
  destruct (Hlive a) as [ga' Hga']; [auto|]. destruct (Hlive b) as [gb' Hgb']; [auto|].
  destruct (Hk _ _ Hga') as (? & ? & Ea). destruct (Hk _ _ Hgb') as (? & ? & Eb). simplify_eq.
  exists a, ga', gb'. split_and!; try done. lia.
Qed.

(** Writing the count of a live generation. *)
Lemma world_ok_count w L L' p g n : world_ok w L -> w_heap w !! p = Some g ->
  n = Z.of_nat (count_occ Z.eq_dec L' p) -> 1 <= n <= SIZE_MAX ->
  (forall q, q <> p -> count_occ Z.eq_dec L' q = count_occ Z.eq_dec L q) ->
  world_ok (with_heap w (<[p := with_count g n]> (w_heap w))) L' /\ kept w (with_heap w (<[p := with_count g n]> (w_heap w))).
Proof.
  intros [H1 H2 H3 H4] Hg Hn Hb Hq. split; [split|]; simpl.
  - intros q. destruct (decide (q = p)) as [->|Hne].
    + rewrite lookup_insert_eq. simpl. auto.
    + rewrite lookup_insert_ne by done. specialize (H1 q). rewrite Hq by done. destruct (w_heap w !! q); [done|].
      rewrite (count_occ_In Z.eq_dec), Hq, <- (count_occ_In Z.eq_dec) by done. done.
  - intros q. rewrite H2. destruct (decide (q = p)) as [->|Hne]; [by rewrite lookup_insert_eq, Hg|by rewrite lookup_insert_ne].
  - intros q Hq'. specialize (H3 q Hq'). rewrite lookup_insert_ne; [done|]. congruence.
  - done.
  - intros q g'. simpl. destruct (decide (q = p)) as [->|Hne].
    + rewrite lookup_insert_eq. intros [= <-]. by exists g.
    + rewrite lookup_insert_ne by done. intros. by exists g'.
Qed.

Lemma generation_retain_ok w L p : world_ok w L -> In p L ->
  exists w' b, route_generation_retain w (Some p) = Some (w', b) /\ kept w w' /\ (if b : bool then world_ok w' (p :: L) else w' = w).
Proof.
  intros Hw Hin. destruct (owner_live w L p Hw Hin) as (g & Hg & Hc & Hb). unfold route_generation_retain. rewrite Hg.
  cbn [mbind option_bind]. if_as E; [exists w, false; auto using kept_refl|]. eexists _, true. split; [done|].
  edestruct (world_ok_count w L (p :: L) p g (g_reference_count g + 1)) as [Hok Hk]; [done|done| |lia| |by split].
  - rewrite count_occ_cons_eq by done. lia.
  - intros q Hq. by rewrite count_occ_cons_neq.
Qed.

(** Giving back one reference; the last one destroys the generation. *)
Lemma generation_release_ok w L p : world_ok w (p :: L) ->
  exists w', route_generation_release w (Some p) = Some (w', Z.of_nat (count_occ Z.eq_dec L p)) /\ kept w w' /\ world_ok w' L.
Proof.
  intros Hw. destruct (owner_live w _ p Hw) as (g & Hg & Hc & Hb); [by left|]. unfold route_generation_release. rewrite Hg.
  cbn [mbind option_bind]. rewrite count_occ_cons_eq in Hc by done. if_as E; [lia|].
  replace (g_reference_count g - 1) with (Z.of_nat (count_occ Z.eq_dec L p)) by lia. if_as E2.
  - eexists. split; [repeat f_equal; lia|]. destruct Hw as [H1 H2 H3 H4]. assert (Hn : ~ In p L) by (rewrite (count_occ_not_In Z.eq_dec); lia).
    split; [|split]; simpl.
    + intros q g'. simpl. destruct (decide (q = p)) as [->|Hne]; [by rewrite lookup_delete_eq|].
      rewrite lookup_delete_ne, lookup_insert_ne by done. intros. by exists g'.
    + intros q. destruct (decide (q = p)) as [->|Hne]; [by rewrite lookup_delete_eq|].
      rewrite lookup_delete_ne, lookup_insert_ne by done. specialize (H1 q). rewrite count_occ_cons_neq in H1 by done.
      destruct (w_heap w !! q); [done|]. intros Hin. apply H1. by right.
    + intros q. rewrite List.filter_app, H2. destruct (decide (q = p)) as [->|Hne].
      * rewrite lookup_delete_eq, Hg. simpl. rewrite Z.eqb_refl. destruct ((0 <? p) && (p <? w_next w)) eqn:Ep; [done|].
        rewrite H3 in Hg by lia. done.
      * rewrite lookup_delete_ne, lookup_insert_ne by done. simpl. replace (p =? q) with false by lia. by rewrite app_nil_r.
    + intros q Hq. destruct (decide (q = p)) as [->|Hne]; [by rewrite lookup_delete_eq|].
      rewrite lookup_delete_ne, lookup_insert_ne by done. auto.
    + done.
  - eexists. split; [done|].
    edestruct (world_ok_count w (p :: L) L p g (Z.of_nat (count_occ Z.eq_dec L p))) as [Hok Hk]; [done|done|done|lia| |by split].
    intros q Hq. by rewrite count_occ_cons_neq.
Qed.

(** Calls into the coordinators leave ownership alone. *)
Lemma background_release_ok w L p : world_ok w L -> In p L ->
  exists w' s, route_resolution_background_release w p = Some (w', s) /\ w_heap w' = w_heap w /\ world_ok w' L.
Proof.
  intros Hw Hin. destruct (owner_live w L p Hw Hin) as (g & Hg & _). unfold route_resolution_background_release. rewrite Hg.
  eexists _, _. split; [done|]. split; [done|]. destruct Hw as [H1 H2 H3 H4]. split; simpl; [done| |done..].
  intros q. rewrite List.filter_app, H2. simpl. by rewrite app_nil_r.
Qed.

Lemma observe_ok w L gs result : world_ok w L -> (forall p, Some p ∈ gs -> In p L) ->
  exists w' s, observe_loop w gs result = Some (w', s) /\ w_heap w' = w_heap w /\ world_ok w' L.
Proof.
  revert w result. induction gs as [|[p|] gs IH]; intros w result Hw Hin; cbn [observe_loop].
  - by exists w, result.
  - destruct (owner_live w L p Hw) as (g & Hg & _); [apply Hin; left|].
    unfold route_resolution_completion_observe_with_supervisor. rewrite Hg. cbn [mbind option_bind].
    match goal with |- exists w' s, observe_loop ?w1 _ ?r1 = _ /\ _ =>
      destruct (IH w1 r1) as (w' & s & H & Hh & Hok); [| |exists w', s; split; [exact H|]; split; [rewrite Hh; done|exact Hok]] end.
    + destruct Hw as [H1 H2 H3 H4]. split; simpl; [done| |done..]. intros q. rewrite List.filter_app, H2. simpl. by rewrite app_nil_r.
    + intros q Hq. apply Hin. by right.
  - apply IH; [done|]. intros q Hq. apply Hin. by right.
Qed.

Lemma kept_heap w w' : w_heap w' = w_heap w -> kept w w'.
Proof. intros H p g'. rewrite H. intros. by exists g'. Qed.

(** ** Collection and publication *)

Lemma collect_ok w r L now : world_ok w (pointers r ++ L) -> registry_ok w r ->
  exists w' r' s, route_generation_registry_collect w r now = Some (w', r', s) /\
    world_ok w' (pointers r' ++ L) /\ registry_ok w' r' /\ kept w w' /\ rg_active r' = rg_active r /\
    match s with
    | ROUTE_GENERATION_REGISTRY_COLLECT_NONE => rg_retired r = None /\ r' = r /\ w' = w
    | ROUTE_GENERATION_REGISTRY_COLLECT_RETAINED => (exists p, rg_retired r = Some p /\ In p L) /\ r' = r /\ w' = w
    | ROUTE_GENERATION_REGISTRY_COLLECT_COLLECTED => (exists p, rg_retired r = Some p /\ ~ In p L) /\ rg_retired r' = None
    | _ => r' = r /\ w_heap w' = w_heap w
    end.
Proof.
  intros Hw Hr. assert (Hkr := kept_refl w). unfold route_generation_registry_collect. destruct now as [t|]; [|eauto 20].
  if_as E1; [eauto 20|]. destruct (rg_retired r) as [p|] eqn:Ep; [|eauto 20].
  destruct (Hr p Ep) as (a & ga & gb & Ha & Hga & Hgb & Hlt). assert (Hap : a <> p) by (intros ->; simplify_eq; lia).
  assert (HP : Permutation (pointers r ++ L) (p :: a :: L)) by (unfold pointers; rewrite Ha, Ep; simpl; apply perm_swap).
  assert (Hin : In p (pointers r ++ L)) by (apply (Permutation_in _ (Permutation_sym HP)); by left).
  destruct (owner_live w _ p Hw Hin) as (g & Hg & Hc & Hb). unfold route_generation_reference_count. rewrite Hg. cbn [mbind option_bind].
  rewrite (proj1 (Permutation_count_occ Z.eq_dec _ _) HP p), count_occ_cons_eq, count_occ_cons_neq in Hc by done.
  if_as E2; [lia|]. if_as E3.
  { eexists _, _, _. split; [done|]. split_and!; try done. exists p. split; [done|]. apply (count_occ_In Z.eq_dec). lia. }
  destruct (background_release_ok w _ p Hw Hin) as (w1 & s1 & H1 & Hh1 & Hw1). rewrite H1. assert (Hk1 := kept_heap w w1 Hh1).
  assert (Hr1 : registry_ok w1 r) by (intros b; rewrite Hh1; apply Hr). destruct s1; [|by eexists _, _, _..].
  destruct (generation_release_ok w1 (a :: L) p (world_ok_perm w1 _ _ HP Hw1)) as (w2 & H2 & Hk2 & Hw2). rewrite H2.
  rewrite count_occ_cons_neq by done. replace (Z.of_nat (count_occ Z.eq_dec L p)) with 0 by lia. simpl.
  eexists _, _, _. split; [done|]. split_and!; try done.
  - unfold pointers. rewrite Ha. exact Hw2.
  - by apply (kept_trans w w1 w2).
  - exists p. split; [done|]. apply (count_occ_not_In Z.eq_dec). lia.
Qed.

(** What publication promises: [p] is a fresh candidate, owned by the caller. *)
Definition published (w : world) (r : route_generation_registry) (p : Z) (L : list Z) (w' : world) (r' : route_generation_registry)
    (candidate : option Z) (s : route_generation_registry_publish_status) : Prop :=
  world_ok w' (pointers r' ++ option_list candidate ++ L) /\ registry_ok w' r' /\ kept w w' /\
  match candidate with
  | None =>
      rg_active r' = Some p /\ (forall q, rg_retired r = Some q -> ~ In q L) /\
      (s = ROUTE_GENERATION_REGISTRY_PUBLISH_OK -> forall q, rg_retired r' = Some q <-> rg_active r = Some q /\ In q L) /\
      (s <> ROUTE_GENERATION_REGISTRY_PUBLISH_OK -> rg_retired r' = rg_active r)
  | Some q =>
      q = p /\ s <> ROUTE_GENERATION_REGISTRY_PUBLISH_OK /\ r' = r /\ w_heap w' = w_heap w /\
      (s = ROUTE_GENERATION_REGISTRY_PUBLISH_BLOCKED -> exists q, rg_retired r = Some q /\ In q L)
  end.

Lemma candidate_valid_ok w r p L : world_ok w (pointers r ++ p :: L) ->
  exists b, candidate_valid w r p = Some b /\
    (b = true -> ~ In p L /\ forall a, rg_active r = Some a -> exists ga gp, w_heap w !! a = Some ga /\ w_heap w !! p = Some gp /\
      g_identity ga < g_identity gp).
Proof.
  intros Hw. destruct (owner_live w _ p Hw) as (g & Hg & Hc & _); [apply in_or_app; right; by left|].
  unfold candidate_valid, route_generation_identity, route_generation_reference_count. rewrite Hg. cbn [mbind option_bind].
  if_as E1; [by exists false|]. if_as E2; [by exists false|].
  assert (Hn : ~ In p L).
  { rewrite count_occ_app, count_occ_cons_eq in Hc by done. apply (count_occ_not_In Z.eq_dec). lia. }
  destruct (rg_active r) as [a|] eqn:Ea; [|by exists true].
  destruct (owner_live w _ a Hw) as (ga & Hga & _); [unfold pointers; rewrite Ea; by left|]. rewrite Hga. cbn [mbind option_bind].
  eexists. split; [done|]. intros E3. split; [done|]. intros a' [= <-]. exists ga, g. split_and!; [done..|lia].
Qed.

(** The swap of [route_generation_registry_publish]. *)
Lemma swap_ok w r p L : world_ok w (pointers r ++ p :: L) -> rg_retired r = None ->
  (forall a, rg_active r = Some a -> exists ga gp, w_heap w !! a = Some ga /\ w_heap w !! p = Some gp /\ g_identity ga < g_identity gp) ->
  world_ok w (pointers {| rg_active := Some p; rg_retired := rg_active r |} ++ L) /\
  registry_ok w {| rg_active := Some p; rg_retired := rg_active r |}.
Proof.
  intros Hw Hr Ha. split.
  - revert Hw. apply world_ok_perm. unfold pointers. rewrite Hr. destruct (rg_active r); simpl; [apply perm_swap|done].
  - intros b Hb. simpl in *. destruct (Ha b Hb) as (ga & gp & H1 & H2 & H3). by exists p, gp, ga.
Qed.

Lemma publish_ok w r p L now : world_ok w (pointers r ++ p :: L) -> registry_ok w r ->
  exists w' r' c s, route_generation_registry_publish w r (Some p) now = Some (w', r', c, s) /\ published w r p L w' r' c s.
Proof.
  intros Hw Hr. assert (Hkr := kept_refl w). unfold route_generation_registry_publish, published. destruct now as [t|].
  2:{ eexists _, _, _, _. split; [done|]. by split_and!. }
  destruct (candidate_valid_ok w r p L Hw) as (b & Hb & Hv). rewrite Hb. cbn [mbind option_bind]. destruct b; cbn [negb].
  2:{ eexists _, _, _, _. split; [done|]. by split_and!. }
  destruct (Hv eq_refl) as [Hn Hid]. clear Hv Hb.
  destruct (collect_ok w r (p :: L) (Some t) Hw Hr) as (w1 & r1 & s1 & H1 & Hw1 & Hr1 & Hk1 & Ha1 & Hs1). rewrite H1. clear H1.
  assert (Hid1 : forall a, rg_active r1 = Some a -> exists ga gp, w_heap w1 !! a = Some ga /\ w_heap w1 !! p = Some gp /\ g_identity ga < g_identity gp).
  { intros a Ha. destruct (owner_live w1 _ a Hw1) as (ga & Hga & _); [unfold pointers; rewrite Ha; by left|].
    destruct (owner_live w1 _ p Hw1) as (gp & Hgp & _); [apply in_or_app; right; by left|]. rewrite Ha1 in Ha.
    destruct (Hid a Ha) as (? & ? & ? & ? & ?), (Hk1 _ _ Hga) as (? & ? & ?), (Hk1 _ _ Hgp) as (? & ? & ?). simplify_eq.
    exists ga, gp. split_and!; [done..|lia]. }
  assert (Hgo : rg_retired r1 = None -> (forall q, rg_retired r = Some q -> ~ In q L) -> exists w' r' c s,
    match route_generation_registry_collect w1 {| rg_active := Some p; rg_retired := rg_active r1 |} (Some t) with
    | None => None
    | Some (w, r, status) => Some (w, r, None, publish_status status)
    end = Some (w', r', c, s) /\ published w r p L w' r' c s).
  { intros Hret Hpin. destruct (swap_ok w1 r1 p L Hw1 Hret Hid1) as [Hw2 Hr2].
    destruct (collect_ok w1 _ L (Some t) Hw2 Hr2) as (w3 & r3 & s3 & H3 & Hw3 & Hr3 & Hk3 & Ha3 & Hs3). rewrite H3.
    eexists _, _, _, _. split; [done|]. split_and!; try done; [by apply (kept_trans w w1 w3)| |].
    - intros Hok q. simpl in *. rewrite Ha1 in Hs3. destruct s3; try done.
      + destruct Hs3 as (Hs & -> & _). simpl. rewrite Hs. by split; [|intros [? _]].
      + destruct Hs3 as ((q' & Hq' & Hin) & -> & _). simpl. rewrite Hq'. split; [by intros [= <-]|by intros [? _]].
      + destruct Hs3 as ((q' & Hq' & Hin) & ->). rewrite Hq'. by split; [|intros [[= <-] ?]].
    - intros Hok. destruct s3; try done; destruct Hs3 as [-> _]; exact Ha1. }
  destruct s1.
  - destruct Hs1 as (Hn1 & -> & ->). apply Hgo; [done|congruence].
  - destruct Hs1 as ((q & Hq & Hin) & -> & ->). eexists _, _, _, _. split; [done|]. split_and!; try done. intros _. exists q. split; [done|].
    destruct Hin as [->|Hin]; [|done]. destruct (Hr q Hq) as (a & ga & gb & Ha & Hga & Hgb & Hlt).
    destruct (Hid a Ha) as (? & ? & ? & ? & ?). simplify_eq. lia.
  - destruct Hs1 as ((q & Hq & Hnin) & Hr'). apply Hgo; [done|]. intros q' Hq' Hin. simplify_eq. apply Hnin. by right.
  - destruct Hs1 as [-> Hh]. eexists _, _, _, _. split; [done|]. by split_and!.
  - destruct Hs1 as [-> Hh]. eexists _, _, _, _. split; [done|]. by split_and!.
  - destruct Hs1 as [-> Hh]. eexists _, _, _, _. split; [done|]. by split_and!.
Qed.

(** ** Every sequence of operations *)

Definition world_zero (releases : list route_resolution_release_status) (completions : list route_resolution_completion_status) : world :=
  {| w_heap := ∅; w_next := 1; w_events := []; w_releases := releases; w_completions := completions |}.

(** [reaches w r held]: the operations lead to [w] and [r], where the listener, its
    connections and its waiters own the references [held]. *)
Inductive reaches : world -> route_generation_registry -> list Z -> Prop :=
  | Reach_start releases completions : reaches (world_zero releases completions) route_generation_registry_create []
  | Reach_generation w r held identity config hosts routes bindings resolution alloc w' p :
      reaches w r held ->
      route_generation_create w identity config hosts routes bindings resolution None alloc = (w', Some p, ROUTE_GENERATION_CREATE_OK) ->
      reaches w' r (p :: held)
  | Reach_publish w r held p held' now w' r' candidate s :
      reaches w r held -> Permutation held (p :: held') ->
      route_generation_registry_publish w r (Some p) now = Some (w', r', candidate, s) ->
      reaches w' r' (option_list candidate ++ held')
  | Reach_collect w r held now w' r' s :
      reaches w r held -> route_generation_registry_collect w r now = Some (w', r', s) -> reaches w' r' held
  | Reach_retain w r held w' p :
      reaches w r held -> route_generation_registry_active_retain w r = Some (w', p) -> reaches w' r (option_list p ++ held)
  | Reach_again w r held p w' :
      reaches w r held -> In p held -> route_generation_retain w (Some p) = Some (w', true) -> reaches w' r (p :: held)
  | Reach_release w r held p held' w' n :
      reaches w r held -> Permutation held (p :: held') -> route_generation_release w (Some p) = Some (w', n) ->
      reaches w' r held'
  | Reach_observe w r held now w' s :
      reaches w r held -> route_generation_registry_completion_observe w r now = Some (w', s) -> reaches w' r held.

Lemma generation_create_ok w L identity config hosts routes bindings resolution alloc w' p :
  route_generation_create w identity config hosts routes bindings resolution None alloc = (w', Some p, ROUTE_GENERATION_CREATE_OK) ->
  world_ok w L -> world_ok w' (p :: L) /\ (forall q g, w_heap w !! q = Some g -> w_heap w' !! q = Some g).
Proof.
  intros H [H1 H2 H3 H4]. unfold route_generation_create in H. destruct config, hosts, bindings, resolution, routes; try done.
  destruct (identity =? 0); [done|]. destruct alloc; [|done]. simpl in H. simplify_eq.
  assert (Hp := H3 (w_next w) ltac:(lia)). assert (Hno := H1 (w_next w)). rewrite Hp in Hno. split; [split|]; simpl.
  - intros q. destruct (decide (q = w_next w)) as [->|Hne].
    + rewrite lookup_insert_eq. simpl. destruct (Z.eq_dec (w_next w) (w_next w)); [|done].
      rewrite (proj1 (count_occ_not_In Z.eq_dec L (w_next w)) Hno). done.
    + rewrite lookup_insert_ne by done. specialize (H1 q). destruct (Z.eq_dec (w_next w) q); [congruence|].
      destruct (w_heap w !! q); [done|]. by intros [?|?].
  - intros q. rewrite H2. destruct (decide (q = w_next w)) as [->|Hne].
    + rewrite lookup_insert_eq, Hp. by replace ((0 <? w_next w) && (w_next w <? w_next w)) with false by lia.
    + rewrite lookup_insert_ne by done. destruct (w_heap w !! q); [done|]. by replace ((0 <? q) && (q <? w_next w + 1)) with ((0 <? q) && (q <? w_next w)) by lia.
  - intros q Hq. rewrite lookup_insert_ne by lia. apply H3. lia.
  - lia.
  - intros q g Hg. rewrite lookup_insert_ne; [done|]. congruence.
Qed.

Lemma active_retain_ok w r L : world_ok w (pointers r ++ L) ->
  exists w' p, route_generation_registry_active_retain w r = Some (w', p) /\ kept w w' /\ world_ok w' (pointers r ++ option_list p ++ L).
Proof.
  intros Hw. unfold route_generation_registry_active_retain. destruct (rg_active r) as [a|] eqn:Ea.
  - destruct (generation_retain_ok w _ a Hw) as (w' & b & H & Hk & Hb); [unfold pointers; rewrite Ea; by left|]. rewrite H.
    exists w', (if b then Some a else None). split; [done|]. split; [done|]. destruct b; [|by subst w'].
    revert Hb. apply world_ok_perm. simpl. apply Permutation_middle.
  - exists w, None. split; [done|]. split; [apply kept_refl|done].
Qed.

Lemma destroy_ok w r L : world_ok w (pointers r ++ L) ->
  exists w', route_generation_registry_destroy w (Some r) = Some w' /\ world_ok w' L.
Proof.
  assert (Hrel : forall p w L, world_ok w (option_list p ++ L) -> exists w' n, route_generation_release w p = Some (w', n) /\ world_ok w' L).
  { intros [p|] w1 L1 Hw; [destruct (generation_release_ok w1 L1 p Hw) as (w' & H & _ & Hw')|]; eauto. }
  intros Hw. unfold pointers in Hw. rewrite <- app_assoc in Hw. cbn [route_generation_registry_destroy].
  destruct (Hrel _ _ _ Hw) as (w1 & n1 & -> & Hw1). destruct (Hrel _ _ _ Hw1) as (w2 & n2 & H2 & Hw2). simpl. rewrite H2. by exists w2.
Qed.

Lemma reaches_ok w r held : reaches w r held -> world_ok w (pointers r ++ held) /\ registry_ok w r.
Proof.
  induction 1 as [releases completions|w r held identity config hosts routes bindings resolution alloc w' p H [Hw Hr] Hc
    |w r held p held' now w' r' candidate s H [Hw Hr] HP Hp|w r held now w' r' s H [Hw Hr] Hc|w r held w' p H [Hw Hr] Hc
    |w r held p w' H [Hw Hr] Hin Hc|w r held p held' w' n H [Hw Hr] HP Hc|w r held now w' s H [Hw Hr] Hc].
  - split; [|done]. split; [intros p; simpl; rewrite lookup_empty; by intros []| |intros p _; apply lookup_empty|done].
    intros p. cbn [w_heap w_events w_next world_zero]. rewrite lookup_empty. if_as E; [lia|done].
  - destruct (generation_create_ok _ _ _ _ _ _ _ _ _ _ _ Hc Hw) as [Hok Hsame]. split.
    + revert Hok. apply world_ok_perm. apply Permutation_middle.
    + intros b Hb. destruct (Hr b Hb) as (a & ga & gb & ? & ? & ? & ?). exists a, ga, gb. auto.
  - destruct (publish_ok w r p held' now) as (w2 & r2 & c2 & s2 & H2 & Hpub); [|done|]; [|simplify_eq; split; apply Hpub].
    revert Hw. apply world_ok_perm. by rewrite HP.
  - destruct (collect_ok w r held now Hw Hr) as (w2 & r2 & s2 & H2 & Hw2 & Hr2 & _). by simplify_eq.
  - destruct (active_retain_ok w r held Hw) as (w2 & p2 & H2 & Hk & Hw2). simplify_eq. split; [done|]. by eapply registry_ok_kept.
  - destruct (generation_retain_ok w _ p Hw) as (w2 & b & H2 & Hk & Hw2); [apply in_or_app; by right|]. rewrite Hc in H2. injection H2 as <- <-.
    assert (Hw3 : world_ok w' (pointers r ++ p :: held)) by (revert Hw2; apply world_ok_perm, Permutation_middle).
    split; [done|]. by eapply registry_ok_kept.
  - assert (Hw2 : world_ok w (p :: pointers r ++ held')).
    { revert Hw. apply world_ok_perm. rewrite HP. symmetry. apply Permutation_middle. }
    destruct (generation_release_ok _ _ _ Hw2) as (w3 & H3 & Hk & Hw3). simplify_eq. split; [done|]. by eapply registry_ok_kept.
  - unfold route_generation_registry_completion_observe in Hc. destruct now as [t|]; [|by simplify_eq].
    destruct (negb _); [by simplify_eq|].
    destruct (observe_ok w (pointers r ++ held) [rg_active r; rg_retired r] ROUTE_RESOLUTION_COMPLETION_IGNORED Hw) as (w2 & s2 & H2 & Hh & Hw2).
    { intros p Hp. apply in_or_app. left. unfold pointers. apply list_elem_of_In in Hp.
      destruct Hp as [->|[->|[]]]; [by left|apply in_or_app; right; by left]. }
    simplify_eq. split; [done|]. by eapply registry_ok_kept, kept_heap.
Qed.

(** C38: whatever the registry, the connections and the waiters do, in any order, the
    reference count of a generation is the number of references they own; a
    generation somebody owns is alive, and every other generation that was created
    has had its coordinator, bindings, routes, hosts and configuration destroyed,
    once and in that order.  A retired generation is always older than the active
    one.  Destroying the registry gives back its own references and nothing else. *)
Theorem registry_ownership w r held : reaches w r held ->
  world_ok w (pointers r ++ held) /\ registry_ok w r /\
  exists w', route_generation_registry_destroy w (Some r) = Some w' /\ world_ok w' held.
Proof. intros H. destruct (reaches_ok w r held H) as [Hw Hr]. split; [done|]. split; [done|]. by apply destroy_ok. Qed.

(** C39: publishing a candidate makes it the active generation, or leaves the registry as it
    was and the candidate with the caller.  It is only possible while no connection holds
    the retired generation.  When it succeeds, the generation that was active stays as the
    retired one exactly when a connection holds it, and otherwise is destroyed; when it
    reports an error after the candidate has become active, because the work of the old
    generation could not be given up, the old one stays as the retired one, held or not.  No
    operation touches a freed generation. *)
Theorem registry_publish_exact w r held p held' now : reaches w r held -> Permutation held (p :: held') ->
  exists w' r' candidate s, route_generation_registry_publish w r (Some p) now = Some (w', r', candidate, s) /\
    published w r p held' w' r' candidate s.
Proof.
  intros H HP. destruct (reaches_ok w r held H) as [Hw Hr]. apply publish_ok; [|done]. revert Hw. apply world_ok_perm. by rewrite HP.
Qed.
End generation.
Arguments world : clear implicits.

(** ** Two loads of the configuration *)

Definition sample_create (w : world unit) (identity : Z) : world unit :=
  (route_generation_create w identity (Some tt) (Some hosts_table_zero) (Some {| destinations := []; routes := [] |})
    (Some {| bd_destinations := []; bd_entries := [] |}) (Some {| rs_destinations := [] |}) None true).1.1.
Definition sample_now : option timespec := Some {| tv_sec := 1; tv_nsec := 0 |}.

(** A connection holds the first generation while the second one is created. *)
Definition sample_first : world unit * route_generation_registry :=
  match route_generation_registry_publish (sample_create (world_zero [] []) 1) route_generation_registry_create (Some 1) sample_now with
  | Some (w, r, _, _) => (w, r)
  | None => (world_zero [] [], route_generation_registry_create)
  end.
Definition sample_held : world unit :=
  match route_generation_registry_active_retain sample_first.1 sample_first.2 with Some (w, _) => w | None => world_zero [] [] end.
Definition sample_second : world unit := sample_create sample_held 2.

Lemma sample_create_reaches w r held identity : reaches w r held -> (identity =? 0) = false ->
  reaches (sample_create w identity) r (w_next w :: held).
Proof.
  intros H E. apply (Reach_generation w r held identity (Some tt) (Some hosts_table_zero) (Some {| destinations := []; routes := [] |})
    (Some {| bd_destinations := []; bd_entries := [] |}) (Some {| rs_destinations := [] |}) true); [done|].
  unfold sample_create, route_generation_create. by rewrite E.
Qed.

Lemma sample_reached : reaches sample_second sample_first.2 [2; 1].
Proof.
  apply (sample_create_reaches sample_held sample_first.2 [1] 2); [|done].
  apply (Reach_retain sample_first.1 sample_first.2 [] sample_held (Some 1)); [|vm_compute; reflexivity].
  apply (Reach_publish (sample_create (world_zero [] []) 1) route_generation_registry_create [1] 1 [] sample_now
    sample_first.1 sample_first.2 None ROUTE_GENERATION_REGISTRY_PUBLISH_OK); [|done|vm_compute; reflexivity].
  by apply (sample_create_reaches (world_zero [] []) _ [] 1); [apply Reach_start|].
Qed.

Lemma registry_ownership_witness : exists w, route_generation_registry_destroy sample_second (Some sample_first.2) = Some w /\
  world_ok w [2; 1].
Proof. apply (registry_ownership sample_second sample_first.2 [2; 1] sample_reached). Defined.

(** The second generation becomes active and the first is retired, as it is held. *)
Lemma registry_publish_exact_witness : exists w r candidate s,
  route_generation_registry_publish sample_second sample_first.2 (Some 2) sample_now = Some (w, r, candidate, s) /\
  r = {| rg_active := Some 2; rg_retired := Some 1 |} /\ published sample_second sample_first.2 2 [1] w r candidate s.
Proof.
  destruct (registry_publish_exact sample_second sample_first.2 [2; 1] 2 [1] sample_now sample_reached) as (w & r & c & s & H & Hp);
    [done|]. exists w, r, c, s. split; [done|]. split; [|done].
  assert (E : (fun x => x.1.1.2) <$> route_generation_registry_publish sample_second sample_first.2 (Some 2) sample_now =
              Some {| rg_active := Some 2; rg_retired := Some 1 |}) by (vm_compute; reflexivity).
  rewrite H in E. by injection E as ->.
Defined.
