(* ===== verification/Endpoint.v ===== *)
(** * Endpoint selection ([src/src/route/endpoint.c])

    For a virtual host, the endpoint the worker connects to: the route, its
    binding, and an address out of the configuration, the hosts table or the cache.
    Cache entries that had to be read are the requirements of the result.  Views
    drop expired payloads, so evaluation passes the cache along; an operation on a
    freed entry is [None]. *)

From S2P Require Import Prelude Proxy TimeUtil ResolverUtil Cache RouteTable Hosts Bindings Resolution Generation.

(** ** Types *)

Definition ROUTE_ENDPOINT_TEXT_SIZE : Z := ADDRESS_MAXLEN + 1.
Definition ROUTE_ENDPOINT_REQUIREMENT_LIMIT : nat := 3.

Inductive route_endpoint_overlay_status :=
  | ROUTE_ENDPOINT_OVERLAY_NONE | ROUTE_ENDPOINT_OVERLAY_POSITIVE | ROUTE_ENDPOINT_OVERLAY_UNAVAILABLE.

(** The [next] links are the order of the list of overlays. *)
Record route_endpoint_overlay := {
  o_addresses : option (list dns_address_record); o_entry : option Z; o_srv_records : option (list dns_srv_record);
  o_status : route_endpoint_overlay_status;
}.

Record route_endpoint_requirement := { q_entry : Z; q_pending : bool }.
Abbreviation route_endpoint_requirements := (list route_endpoint_requirement).

Inductive route_endpoint_select_status :=
  | ROUTE_ENDPOINT_SELECT_OK | ROUTE_ENDPOINT_SELECT_BAD_ARGUMENT | ROUTE_ENDPOINT_SELECT_CONTRADICTORY
  | ROUTE_ENDPOINT_SELECT_LIMIT | ROUTE_ENDPOINT_SELECT_NO_ROUTE | ROUTE_ENDPOINT_SELECT_PENDING
  | ROUTE_ENDPOINT_SELECT_SERVICE_UNAVAILABLE | ROUTE_ENDPOINT_SELECT_UNAVAILABLE.

(** The texts are C strings. *)
Record route_endpoint_snapshot := {
  s_address : net_addr; s_configured_address : bytes; s_destination_index : Z; s_generation_identity : Z;
  s_inbound_proxy : p_proxy; s_port : Z; s_pheader : bool; s_rewrite : bool; s_target_name : bytes; s_vhost : bytes;
}.

(** [*result] is written exactly on success. *)
Inductive route_endpoint_address_status :=
  | ROUTE_ENDPOINT_ADDRESS_OK (result : net_addr) | ROUTE_ENDPOINT_ADDRESS_BAD_ARGUMENT | ROUTE_ENDPOINT_ADDRESS_LIMIT
  | ROUTE_ENDPOINT_ADDRESS_PENDING | ROUTE_ENDPOINT_ADDRESS_UNAVAILABLE.

Definition isSome {A} (x : option A) : bool := match x with Some _ => true | None => false end.

(** ** Addresses at hand *)

Definition usable (f : Z) (a : net_addr) : bool := (family a =? f) && bool_decide (err a = NET_OK).

Definition route_endpoint_address_family_select (addresses : hosts_address_result) (f : Z) : route_endpoint_address_status :=
  if negb (f =? AF_INET) && negb (f =? AF_INET6) then ROUTE_ENDPOINT_ADDRESS_BAD_ARGUMENT else
  match List.find (usable f) (default [] addresses) with
  | Some a => ROUTE_ENDPOINT_ADDRESS_OK a
  | None => ROUTE_ENDPOINT_ADDRESS_UNAVAILABLE
  end.

Definition route_endpoint_addresses_select (addresses : hosts_address_result) (preferred_family : Z)
    : route_endpoint_address_status :=
  match route_endpoint_address_family_select addresses preferred_family with
  | ROUTE_ENDPOINT_ADDRESS_UNAVAILABLE =>
      route_endpoint_address_family_select addresses (if preferred_family =? AF_INET then AF_INET6 else AF_INET)
  | status => status
  end.

(** ** Views and requirements *)

(** The overlay loop: [None] if an overlay has no entry or there are too many. *)
Fixpoint overlay_match (n : nat) (overlays : list route_endpoint_overlay) (entry : Z) (found : option route_endpoint_overlay)
    : option (option route_endpoint_overlay) :=
  match n, overlays with
  | _, [] => Some found
  | O, _ :: _ => None
  | S n, o :: overlays =>
      match o_entry o with
      | None => None
      | Some id => overlay_match n overlays entry (match found with Some _ => found | None => if id =? entry then Some o else None end)
      end
  end.

Definition unavailable_view : resolver_cache_view :=
  {| v_addresses := None; v_completed_at := timespec_zero; v_expires_at := timespec_zero; v_srv_records := None;
     v_status := RESOLVER_CACHE_VIEW_FRESH_NODATA |}.
Definition overlay_view (o : route_endpoint_overlay) : resolver_cache_view :=
  {| v_addresses := o_addresses o; v_completed_at := timespec_zero; v_expires_at := timespec_zero;
     v_srv_records := o_srv_records o; v_status := RESOLVER_CACHE_VIEW_FRESH_POSITIVE |}.

Definition route_endpoint_entry_view (c : resolver_cache) (entry : Z) (now : timespec) (overlays : list route_endpoint_overlay)
    : option (resolver_cache * option resolver_cache_view) :=
  match overlay_match ROUTE_ENDPOINT_REQUIREMENT_LIMIT overlays entry None with
  | None => Some (c, None)
  | Some found =>
      match found with
      | Some o =>
          match o_status o with
          | ROUTE_ENDPOINT_OVERLAY_NONE => resolver_cache_entry_view c (Some entry) (Some now)
          | ROUTE_ENDPOINT_OVERLAY_UNAVAILABLE => Some (c, Some unavailable_view)
          | ROUTE_ENDPOINT_OVERLAY_POSITIVE => Some (c, Some (overlay_view o))
          end
      | None => resolver_cache_entry_view c (Some entry) (Some now)
      end
  end.

(** An entry that is already required only becomes pending; [None] is the limit. *)
Definition route_endpoint_requirement_add (requirements : route_endpoint_requirements) (entry : Z) (pending : bool)
    : option route_endpoint_requirements :=
  match list_find (fun q => q_entry q = entry) requirements with
  | Some (i, q) => Some (<[i := {| q_entry := q_entry q; q_pending := q_pending q || pending |}]> requirements)
  | None =>
      if (ROUTE_ENDPOINT_REQUIREMENT_LIMIT <=? length requirements)%nat then None
      else Some (requirements ++ [{| q_entry := entry; q_pending := pending |}])
  end.

Definition view_empty (v : resolver_cache_view) : bool := bool_decide (v_status v = RESOLVER_CACHE_VIEW_EMPTY).

(** ** Addresses in the cache *)

(** The cache, the requirements and the status. *)
Definition route_endpoint_cache_family_select (c : resolver_cache) (entry : option Z) (f : Z) (now : timespec)
    (overlays : list route_endpoint_overlay) (requirements : route_endpoint_requirements)
    : option (resolver_cache * route_endpoint_requirements * route_endpoint_address_status) :=
  match entry with
  | None => Some (c, requirements, ROUTE_ENDPOINT_ADDRESS_UNAVAILABLE)
  | Some id =>
      let expected_query_type := if f =? AF_INET then ns_t_a else if f =? AF_INET6 then ns_t_aaaa else 0 in
      if expected_query_type =? 0 then Some (c, requirements, ROUTE_ENDPOINT_ADDRESS_BAD_ARGUMENT) else
      e ← entry_get c id;
      if negb (resolver_cache_entry_query_type (Some e) =? expected_query_type)
      then Some (c, requirements, ROUTE_ENDPOINT_ADDRESS_BAD_ARGUMENT) else
      match route_endpoint_entry_view c id now overlays with
      | None => None
      | Some (c, None) => Some (c, requirements, ROUTE_ENDPOINT_ADDRESS_BAD_ARGUMENT)
      | Some (c, Some view) =>
          match route_endpoint_requirement_add requirements id (view_empty view) with
          | None => Some (c, requirements, ROUTE_ENDPOINT_ADDRESS_LIMIT)
          | Some requirements =>
              Some (c, requirements,
                match v_status view with
                | RESOLVER_CACHE_VIEW_EMPTY => ROUTE_ENDPOINT_ADDRESS_PENDING
                | RESOLVER_CACHE_VIEW_FRESH_POSITIVE =>
                    match List.find (fun r => usable f (a_address r)) (default [] (v_addresses view)) with
                    | Some r => ROUTE_ENDPOINT_ADDRESS_OK (a_address r)
                    | None => ROUTE_ENDPOINT_ADDRESS_BAD_ARGUMENT
                    end
                | _ => ROUTE_ENDPOINT_ADDRESS_UNAVAILABLE
                end)
          end
      end
  end.

(** The second half of [route_endpoint_cache_select], once the preferred family has
    given no address. *)
Definition alternate_select (c : resolver_cache) (alternate_entry : option Z) (alternate_family : Z) (now : timespec)
    (overlays : list route_endpoint_overlay) (requirements : route_endpoint_requirements) (preferred_status : route_endpoint_address_status)
    : option (resolver_cache * route_endpoint_requirements * route_endpoint_address_status) :=
  match route_endpoint_cache_family_select c alternate_entry alternate_family now overlays requirements with
  | None => None
  | Some (c, requirements, alternate_status) =>
      Some (c, requirements,
        match alternate_status with
        | ROUTE_ENDPOINT_ADDRESS_OK _ | ROUTE_ENDPOINT_ADDRESS_BAD_ARGUMENT | ROUTE_ENDPOINT_ADDRESS_LIMIT => alternate_status
        | _ =>
            match preferred_status, alternate_status with
            | ROUTE_ENDPOINT_ADDRESS_PENDING, _ | _, ROUTE_ENDPOINT_ADDRESS_PENDING => ROUTE_ENDPOINT_ADDRESS_PENDING
            | _, _ => ROUTE_ENDPOINT_ADDRESS_UNAVAILABLE
            end
        end)
  end.

Definition route_endpoint_cache_select (c : resolver_cache) (ipv4_entry ipv6_entry : option Z) (preferred_family : Z) (now : timespec)
    (overlays : list route_endpoint_overlay) (requirements : route_endpoint_requirements)
    : option (resolver_cache * route_endpoint_requirements * route_endpoint_address_status) :=
  let preferred_entry :=
    if preferred_family =? AF_INET then ipv4_entry else if preferred_family =? AF_INET6 then ipv6_entry else None in
  let alternate_entry :=
    if preferred_family =? AF_INET then ipv6_entry else if preferred_family =? AF_INET6 then ipv4_entry else None in
  let alternate_family :=
    if preferred_family =? AF_INET then AF_INET6 else if preferred_family =? AF_INET6 then AF_INET else AF_UNSPEC in
  if negb (isSome preferred_entry) && negb (isSome alternate_entry)
  then Some (c, requirements, ROUTE_ENDPOINT_ADDRESS_UNAVAILABLE) else
  match route_endpoint_cache_family_select c preferred_entry preferred_family now overlays requirements with
  | None => None
  | Some (c, requirements, preferred_status) =>
      match preferred_status with
      | ROUTE_ENDPOINT_ADDRESS_OK _ | ROUTE_ENDPOINT_ADDRESS_BAD_ARGUMENT | ROUTE_ENDPOINT_ADDRESS_LIMIT =>
          Some (c, requirements, preferred_status)
      | _ => alternate_select c alternate_entry alternate_family now overlays requirements preferred_status
      end
  end.

Definition route_endpoint_select_status_from_address (status : route_endpoint_address_status) : route_endpoint_select_status :=
  match status with
  | ROUTE_ENDPOINT_ADDRESS_OK _ => ROUTE_ENDPOINT_SELECT_OK
  | ROUTE_ENDPOINT_ADDRESS_PENDING => ROUTE_ENDPOINT_SELECT_PENDING
  | ROUTE_ENDPOINT_ADDRESS_LIMIT => ROUTE_ENDPOINT_SELECT_LIMIT
  | ROUTE_ENDPOINT_ADDRESS_UNAVAILABLE => ROUTE_ENDPOINT_SELECT_UNAVAILABLE
  | ROUTE_ENDPOINT_ADDRESS_BAD_ARGUMENT => ROUTE_ENDPOINT_SELECT_BAD_ARGUMENT
  end.

(** ** SRV records *)

(** The target is ["."]. *)
Definition is_root (r : dns_srv_record) : bool := bool_decide (r_target r = [46]).

(** The second loop: [None] on an empty target. *)
Fixpoint minimum_priority (records : list dns_srv_record) (minimum : Z) : option Z :=
  match records with
  | [] => Some minimum
  | r :: records =>
      match r_target r with
      | [] => None
      | _ => minimum_priority records (if r_priority r <? minimum then r_priority r else minimum)
      end
  end.

Fixpoint maximum_weight (records : list dns_srv_record) (priority maximum : Z) : Z :=
  match records with
  | [] => maximum
  | r :: records =>
      maximum_weight records priority (if (r_priority r =? priority) && (maximum <? r_weight r) then r_weight r else maximum)
  end.

Definition route_endpoint_srv_record_select (records : option (list dns_srv_record))
    : option dns_srv_record * route_endpoint_select_status :=
  match records with
  | None => (None, ROUTE_ENDPOINT_SELECT_BAD_ARGUMENT)
  | Some l =>
      if (len l =? 0) || (DNS_SRV_RECORD_LIMIT <? len l) then (None, ROUTE_ENDPOINT_SELECT_BAD_ARGUMENT) else
      let root_target := existsb is_root l in
      let named_target := existsb (fun r => negb (is_root r)) l in
      if root_target
      then (None, if named_target then ROUTE_ENDPOINT_SELECT_CONTRADICTORY else ROUTE_ENDPOINT_SELECT_SERVICE_UNAVAILABLE) else
      match minimum_priority l UINT16_MAX with
      | None => (None, ROUTE_ENDPOINT_SELECT_BAD_ARGUMENT)
      | Some priority =>
          match List.find (fun r => (r_priority r =? priority) && (r_weight r =? maximum_weight l priority 0)) l with
          | Some r => (Some r, ROUTE_ENDPOINT_SELECT_OK)
          | None => (None, ROUTE_ENDPOINT_SELECT_BAD_ARGUMENT)
          end
      end
  end.

(** The copy in a buffer of [size] bytes. *)
Definition route_endpoint_string_copy (size : Z) (source : bytes) : option bytes :=
  if size =? 0 then None else if size <=? len source then None else Some source.

(** ** Targets of SRV records *)

Fixpoint target_find_loop (resolution : option route_resolution) (destination_index : Z) (n : nat) (target_index : Z) (name : bytes)
    : option route_resolution_target :=
  match n with
  | O => None
  | S n =>
      candidate ← route_resolution_destination_target_get resolution destination_index target_index;
      if bool_decide (t_name candidate = name) then Some candidate
      else target_find_loop resolution destination_index n (target_index + 1) name
  end.

Definition route_endpoint_target_find (resolution : option route_resolution) (destination_index target_count : Z) (name : bytes)
    : option route_resolution_target :=
  target_find_loop resolution destination_index (Z.to_nat target_count) 0 name.

Definition numeric_status (a : net_addr) : route_endpoint_address_status :=
  if negb (bool_decide (err a = NET_OK)) || (negb (family a =? AF_INET) && negb (family a =? AF_INET6))
  then ROUTE_ENDPOINT_ADDRESS_UNAVAILABLE else ROUTE_ENDPOINT_ADDRESS_OK a.

Definition route_endpoint_target_select (c : resolver_cache) (target : route_resolution_target) (preferred_family : Z) (now : timespec)
    (overlays : list route_endpoint_overlay) (requirements : route_endpoint_requirements)
    : option (resolver_cache * route_endpoint_requirements * route_endpoint_address_status) :=
  match t_source target with
  | ROUTE_RESOLUTION_TARGET_NUMERIC => Some (c, requirements, numeric_status (t_numeric_address target))
  | ROUTE_RESOLUTION_TARGET_HOSTS => Some (c, requirements, route_endpoint_addresses_select (t_hosts target) preferred_family)
  | ROUTE_RESOLUTION_TARGET_DNS =>
      route_endpoint_cache_select c (t_ipv4_entry target) (t_ipv6_entry target) preferred_family now overlays requirements
  end.

(** ** Evaluation *)

(** The endpoint of a binding, before the texts are copied. *)
Record selection := { sel_address : net_addr; sel_port : Z; sel_target_name : bytes }.

Definition selected (port : Z) (target_name : bytes) (status : route_endpoint_address_status)
    : option selection * route_endpoint_select_status :=
  (match status with
   | ROUTE_ENDPOINT_ADDRESS_OK a => Some {| sel_address := a; sel_port := port; sel_target_name := target_name |}
   | _ => None
   end, route_endpoint_select_status_from_address status).

(** The case [ROUTE_BINDING_SOURCE_DNS_SRV] of [route_endpoint_evaluate]. *)
Definition evaluate_srv (c : resolver_cache) (srv_entry : option Z) (resolution : option route_resolution) (destination_index : Z)
    (preferred_family : Z) (now : timespec) (overlays : list route_endpoint_overlay) (requirements : route_endpoint_requirements)
    : option (resolver_cache * route_endpoint_requirements * (option selection * route_endpoint_select_status)) :=
  match srv_entry with
  | None => Some (c, requirements, (None, ROUTE_ENDPOINT_SELECT_BAD_ARGUMENT))
  | Some id =>
      e ← entry_get c id;
      if negb (resolver_cache_entry_query_type (Some e) =? ns_t_srv)
      then Some (c, requirements, (None, ROUTE_ENDPOINT_SELECT_BAD_ARGUMENT)) else
      match route_endpoint_entry_view c id now overlays with
      | None => None
      | Some (c, None) => Some (c, requirements, (None, ROUTE_ENDPOINT_SELECT_BAD_ARGUMENT))
      | Some (c, Some view) =>
          match route_endpoint_requirement_add requirements id (view_empty view) with
          | None => Some (c, requirements, (None, ROUTE_ENDPOINT_SELECT_LIMIT))
          | Some requirements =>
              match v_status view with
              | RESOLVER_CACHE_VIEW_EMPTY => Some (c, requirements, (None, ROUTE_ENDPOINT_SELECT_PENDING))
              | RESOLVER_CACHE_VIEW_FRESH_POSITIVE =>
                  match route_endpoint_srv_record_select (v_srv_records view) with
                  | (Some record, ROUTE_ENDPOINT_SELECT_OK) =>
                      match route_resolution_destination_get resolution destination_index with
                      | None => Some (c, requirements, (None, ROUTE_ENDPOINT_SELECT_UNAVAILABLE))
                      | Some destination =>
                          match route_endpoint_target_find resolution destination_index (dview_target_count destination) (r_target record) with
                          | None => Some (c, requirements, (None, ROUTE_ENDPOINT_SELECT_UNAVAILABLE))
                          | Some target =>
                              match route_endpoint_target_select c target preferred_family now overlays requirements with
                              | None => None
                              | Some (c, requirements, status) => Some (c, requirements, selected (r_port record) (r_target record) status)
                              end
                          end
                      end
                  | (_, srv_status) => Some (c, requirements, (None, srv_status))
                  end
              | _ => Some (c, requirements, (None, ROUTE_ENDPOINT_SELECT_UNAVAILABLE))
              end
          end
      end
  end.

(** The switch on the source of the binding. *)
Definition evaluate_binding (c : resolver_cache) (binding : route_binding) (resolution : option route_resolution) (route : route_entry)
    (preferred_family : Z) (now : timespec) (overlays : list route_endpoint_overlay) (requirements : route_endpoint_requirements)
    : option (resolver_cache * route_endpoint_requirements * (option selection * route_endpoint_select_status)) :=
  let at_port := selected (b_port binding) (configured_address route) in
  match b_source binding with
  | ROUTE_BINDING_SOURCE_NUMERIC => Some (c, requirements, at_port (numeric_status (b_numeric_address binding)))
  | ROUTE_BINDING_SOURCE_HOSTS => Some (c, requirements, at_port (route_endpoint_addresses_select (b_hosts binding) preferred_family))
  | ROUTE_BINDING_SOURCE_DNS_ADDRESS =>
      match route_endpoint_cache_select c (b_ipv4_entry binding) (b_ipv6_entry binding) preferred_family now overlays requirements with
      | None => None
      | Some (c, requirements, status) => Some (c, requirements, at_port status)
      end
  | ROUTE_BINDING_SOURCE_DNS_SRV =>
      evaluate_srv c (b_srv_entry binding) resolution (destination_index route) preferred_family now overlays requirements
  | ROUTE_BINDING_SOURCE_UNAVAILABLE => Some (c, requirements, (None, ROUTE_ENDPOINT_SELECT_UNAVAILABLE))
  end.

Definition proxy_usable (p : p_proxy) : bool :=
  ((p_family p =? AF_INET) || (p_family p =? AF_INET6)) && (family (srcaddr p) =? p_family p) && (family (dstaddr p) =? p_family p)
  && bool_decide (err (srcaddr p) = NET_OK) && bool_decide (err (dstaddr p) = NET_OK).

(** The cache, the requirements, the status and the snapshot; no snapshot is
    [*result] zeroed. *)
Definition route_endpoint_evaluate {conf : Type} (c : resolver_cache) (generation : option (route_generation conf)) (vhost : option bytes)
    (now : option timespec) (inbound_proxy : option p_proxy) (overlays : list route_endpoint_overlay)
    : option (resolver_cache * route_endpoint_requirements * route_endpoint_select_status * option route_endpoint_snapshot) :=
  match generation, vhost, now, inbound_proxy with
  | Some g, Some host, Some t, Some proxy =>
      if (g_identity g =? 0) || negb (timeutil_valid now) || negb (proxy_usable proxy)
      then Some (c, [], ROUTE_ENDPOINT_SELECT_BAD_ARGUMENT, None) else
      match g_routes g, g_bindings g, g_resolution g with
      | Some table, Some bindings, Some resolution =>
          match route_table_find (Some table) (Some host) with
          | None => Some (c, [], ROUTE_ENDPOINT_SELECT_NO_ROUTE, None)
          | Some route =>
              match route_bindings_destination_get (Some bindings) (destination_index route) with
              | None => Some (c, [], ROUTE_ENDPOINT_SELECT_BAD_ARGUMENT, None)
              | Some binding =>
                  match evaluate_binding c binding (Some resolution) route (p_family proxy) t overlays [] with
                  | None => None
                  | Some (c, requirements, (None, status)) => Some (c, requirements, status, None)
                  | Some (c, requirements, (Some sel, _)) =>
                      match route_endpoint_string_copy ROUTE_ENDPOINT_TEXT_SIZE (configured_address route),
                            route_endpoint_string_copy ROUTE_ENDPOINT_TEXT_SIZE (sel_target_name sel),
                            route_endpoint_string_copy ROUTE_ENDPOINT_TEXT_SIZE (RouteTable.vhost route) with
                      | Some configured, Some target, Some v =>
                          Some (c, requirements, ROUTE_ENDPOINT_SELECT_OK,
                            Some {| s_address := sel_address sel; s_configured_address := configured;
                                    s_destination_index := destination_index route; s_generation_identity := g_identity g;
                                    s_inbound_proxy := proxy; s_port := sel_port sel; s_pheader := pheader route;
                                    s_rewrite := rewrite_ route; s_target_name := target; s_vhost := v |})
                      | _, _, _ => Some (c, requirements, ROUTE_ENDPOINT_SELECT_LIMIT, None)
                      end
                  end
              end
          end
      | _, _, _ => Some (c, [], ROUTE_ENDPOINT_SELECT_BAD_ARGUMENT, None)
      end
  | _, _, _, _ => Some (c, [], ROUTE_ENDPOINT_SELECT_BAD_ARGUMENT, None)
  end.

(** ** SRV selection *)

(** [r] is the record to use of [l]: the lowest priority, the highest weight of
    that priority, and the first such record. *)
Definition best_record (l : list dns_srv_record) (r : dns_srv_record) : Prop :=
  Forall (fun x => r_priority r <= r_priority x) l /\
  Forall (fun x => r_priority x = r_priority r -> r_weight x <= r_weight r) l /\
  exists before after, l = before ++ r :: after /\ Forall (fun x => r_priority x <> r_priority r \/ r_weight x <> r_weight r) before.

Definition record_ok (r : dns_srv_record) : Prop := 0 <= r_priority r <= UINT16_MAX /\ 0 <= r_weight r <= UINT16_MAX.

Lemma find_first {A} (f : A -> bool) (l : list A) x : List.find f l = Some x ->
  f x = true /\ exists before after, l = before ++ x :: after /\ Forall (fun y => f y = false) before.
Proof.
  induction l as [|y l IH]; simpl; [done|]. destruct (f y) eqn:E.
  - intros [= ->]. split; [done|]. exists [], l. split; [done|constructor].
  - intros H. destruct (IH H) as [Hx (b & a & -> & Hb)]. split; [done|]. exists (y :: b), a. split; [done|]. by constructor.
Qed.

Lemma minimum_priority_spec l m :
  match minimum_priority l m with
  | Some p => Forall (fun r => r_target r <> []) l /\ p <= m /\ Forall (fun r => p <= r_priority r) l /\
              (p = m \/ exists r, r ∈ l /\ r_priority r = p)
  | None => exists r, r ∈ l /\ r_target r = []
  end.
Proof.
  revert m. induction l as [|r l IH]; intros m; simpl.
  - split_and!; [constructor|lia|constructor|by left].
  - destruct (r_target r) as [|b t] eqn:Et; [exists r; split; [left|done]|].
    specialize (IH (if r_priority r <? m then r_priority r else m)). destruct (minimum_priority l _) as [p|].
    + destruct IH as (Ht & Hm & Hf & Hex).
      split_and!; [constructor; [congruence|done]|destruct (r_priority r <? m) eqn:?; lia|constructor; [destruct (r_priority r <? m) eqn:?; lia|done]|].
      destruct Hex as [->|(x & Hx & Hp)]; [|right; exists x; split; [by right|done]].
      destruct (r_priority r <? m); [right; exists r; split; [left|done]|by left].
    + destruct IH as (x & Hx & Hn). exists x. split; [by right|done].
Qed.

Lemma maximum_weight_spec l p m : let w := maximum_weight l p m in
  m <= w /\ Forall (fun r => r_priority r = p -> r_weight r <= w) l /\
  (w = m \/ exists r, r ∈ l /\ r_priority r = p /\ r_weight r = w).
Proof.
  revert m. induction l as [|r l IH]; intros m; simpl; [split_and!; [lia|constructor|by left]|].
  destruct (IH (if (r_priority r =? p) && (m <? r_weight r) then r_weight r else m)) as (H1 & H2 & H3).
  set (w := maximum_weight l p _) in *. destruct ((r_priority r =? p) && (m <? r_weight r)) eqn:E.
  - split_and!; [lia|constructor; [lia|done]|]. right. destruct H3 as [->|(x & Hx & Hp)]; [exists r; split; [left|lia]|exists x; split; [by right|done]].
  - split_and!; [lia|constructor; [lia|done]|]. destruct H3 as [->|(x & Hx & Hp)]; [by left|right; exists x; split; [by right|done]].
Qed.

(** The least priority and its greatest weight are those of a record. *)
Lemma attained l p w : Forall record_ok l -> l <> [] -> p <= UINT16_MAX -> Forall (fun r => p <= r_priority r) l ->
  (p = UINT16_MAX \/ exists r, r ∈ l /\ r_priority r = p) ->
  Forall (fun r => r_priority r = p -> r_weight r <= w) l -> (w = 0 \/ exists r, r ∈ l /\ r_priority r = p /\ r_weight r = w) ->
  exists r, r ∈ l /\ r_priority r = p /\ r_weight r = w.
Proof.
  intros Hr Hl Hpm Hf Hex Hw [->|Hw3]; [|done]. rewrite !Forall_forall in *.
  assert (exists r, r ∈ l /\ r_priority r = p) as (r & Hin & Hp).
  { destruct Hex as [->|Hex]; [|done]. destruct l as [|r l]; [done|]. exists r. split; [left|].
    destruct (Hr r) as [Hr1 _]; [by left|]. specialize (Hf r (or_introl eq_refl)). lia. }
  exists r. split; [done|]. split; [done|]. apply list_elem_of_In in Hin. destruct (Hr r Hin) as [_ Hr2]. specialize (Hw r Hin Hp). lia.
Qed.

(** What each result of the selection says of the records. *)
Definition srv_selected (l : list dns_srv_record) (result : option dns_srv_record * route_endpoint_select_status) : Prop :=
  match result with
  | (Some r, ROUTE_ENDPOINT_SELECT_OK) =>
      len l <= DNS_SRV_RECORD_LIMIT /\ Forall (fun x => r_target x <> [] /\ is_root x = false) l /\ best_record l r
  | (None, ROUTE_ENDPOINT_SELECT_CONTRADICTORY) => exists x y, x ∈ l /\ y ∈ l /\ is_root x = true /\ is_root y = false
  | (None, ROUTE_ENDPOINT_SELECT_SERVICE_UNAVAILABLE) => l <> [] /\ Forall (fun x => is_root x = true) l
  | (None, ROUTE_ENDPOINT_SELECT_BAD_ARGUMENT) =>
      l = [] \/ DNS_SRV_RECORD_LIMIT < len l \/ exists x, x ∈ l /\ r_target x = []
  | _ => False
  end.

Lemma srv_select_ok l : Forall record_ok l -> srv_selected l (route_endpoint_srv_record_select (Some l)).
Proof.
  intros Hr. unfold route_endpoint_srv_record_select. if_as E1.
  { simpl. destruct l; [by left|right; left; simpl in *; lia]. }
  destruct (existsb is_root l) eqn:E2.
  { apply existsb_exists in E2 as (x & Hx & Ex). apply list_elem_of_In in Hx.
    destruct (existsb (fun r => negb (is_root r)) l) eqn:E3.
    - apply existsb_exists in E3 as (y & Hy & Ey). apply list_elem_of_In in Hy. exists x, y. split_and!; try done. by destruct (is_root y).
    - split; [by destruct l|]. apply Forall_forall. intros y Hy. destruct (is_root y) eqn:Ey; [done|].
      assert (existsb (fun r => negb (is_root r)) l = true); [|congruence]. apply existsb_exists. exists y. by rewrite Ey. }
  pose proof (minimum_priority_spec l UINT16_MAX) as Hm. destruct (minimum_priority l UINT16_MAX) as [p|].
  2:{ simpl. right; right. exact Hm. }
  destruct Hm as (Ht & Hpm & Hf & Hex). pose proof (maximum_weight_spec l p 0) as (Hw1 & Hw2 & Hw3). set (w := maximum_weight l p 0) in *.
  destruct (attained l p w Hr) as (x & Hx & Hxp & Hxw); [by destruct l|done..|].
  destruct (List.find _ l) as [r|] eqn:Ef.
  - apply find_first in Ef as [Er (b & a & Hl & Hb)]. apply andb_true_iff in Er as [Ep Ew]. apply Z.eqb_eq in Ep, Ew.
    cbn [srv_selected]. split; [lia|]. split.
    + apply Forall_and; [done|]. apply Forall_forall. intros y Hy. destruct (is_root y) eqn:Ey; [|done].
      rewrite <- E2. symmetry. apply existsb_exists. by exists y.
    + unfold best_record. rewrite Ep, Ew. split; [done|]. split; [done|]. exists b, a. split; [done|]. revert Hb. apply Forall_impl. intros y Hy. lia.
  - exfalso. eapply find_none in Ef; [|by apply list_elem_of_In]. simpl in Ef. lia.
Qed.

(** SRV selection takes the first record of the lowest priority and, within it,
    the highest weight; it refuses a set that mixes the root target, which says that
    there is no service, with names, and reports the service as unavailable exactly
    when all targets are the root. *)
Lemma srv_select_exact l : Forall record_ok l -> srv_selected l (route_endpoint_srv_record_select (Some l)).
Proof. apply srv_select_ok. Qed.

(** The status goes with the record. *)
Lemma srv_select_some l r s : route_endpoint_srv_record_select (Some l) = (Some r, s) -> s = ROUTE_ENDPOINT_SELECT_OK.
Proof.
  unfold route_endpoint_srv_record_select. destruct (_ || _); [done|]. destruct (existsb is_root l); [done|].
  destruct (minimum_priority l UINT16_MAX); [|done]. destruct (List.find _ l); [congruence|done].
Qed.

Lemma srv_select_none l s : route_endpoint_srv_record_select (Some l) = (None, s) ->
  s = ROUTE_ENDPOINT_SELECT_BAD_ARGUMENT \/ s = ROUTE_ENDPOINT_SELECT_CONTRADICTORY \/ s = ROUTE_ENDPOINT_SELECT_SERVICE_UNAVAILABLE.
Proof.
  unfold route_endpoint_srv_record_select. destruct (_ || _); [intros [= <-]; auto|]. destruct (existsb is_root l).
  - destruct (existsb _ l); intros [= <-]; auto.
  - destruct (minimum_priority l UINT16_MAX); [|intros [= <-]; auto]. destruct (List.find _ l); [done|intros [= <-]; auto].
Qed.

(** ** What an entry shows *)

Section shown.
Context (now : timespec) (overlays : list route_endpoint_overlay).

(** The payload of an entry, until it expires. *)
Definition visible (e : resolver_cache_entry) : resolver_cache_view :=
  match e_payload e with
  | Some p => if ns now <? ns (p_expires_at p) then view_of p else resolver_cache_view_zero
  | None => resolver_cache_view_zero
  end.

(** The result a waiter brings for an entry goes before the payload. *)
Definition shown (id : Z) (e : resolver_cache_entry) : resolver_cache_view :=
  match List.find (fun o => bool_decide (o_entry o = Some id)) overlays with
  | Some o =>
      match o_status o with
      | ROUTE_ENDPOINT_OVERLAY_NONE => visible e
      | ROUTE_ENDPOINT_OVERLAY_POSITIVE => overlay_view o
      | ROUTE_ENDPOINT_OVERLAY_UNAVAILABLE => unavailable_view
      end
  | None => visible e
  end.

Definition overlays_ok : Prop := (length overlays <= ROUTE_ENDPOINT_REQUIREMENT_LIMIT)%nat /\ Forall (fun o => o_entry o <> None) overlays.

(** Reading the cache drops expired payloads and changes nothing that shows. *)
Definition refreshed (c c' : resolver_cache) : Prop :=
  forall id, match entry_get c id with
             | Some e => exists e', entry_get c' id = Some e' /\ key e' = key e /\ visible e' = visible e
             | None => entry_get c' id = None
             end.

Lemma refreshed_refl c : refreshed c c.
Proof. intros id. destruct (entry_get c id) as [e|]; [by exists e|done]. Qed.

Lemma refreshed_trans c1 c2 c3 : refreshed c1 c2 -> refreshed c2 c3 -> refreshed c1 c3.
Proof.
  intros H1 H2 id. specialize (H1 id). specialize (H2 id). destruct (entry_get c1 id) as [e|]; [|by rewrite H1 in H2].
  destruct H1 as (e' & H1 & K1 & V1). rewrite H1 in H2. destruct H2 as (e'' & H2 & K2 & V2). exists e''. split_and!; congruence.
Qed.

Lemma refreshed_shown c c' id e : refreshed c c' -> entry_get c id = Some e ->
  exists e', entry_get c' id = Some e' /\ e_query_type e' = e_query_type e /\ shown id e' = shown id e.
Proof.
  intros H He. specialize (H id). rewrite He in H. destruct H as (e' & H & K & V). exists e'. split; [done|].
  split; [unfold key in K; congruence|]. unfold shown. by rewrite V.
Qed.

Lemma overlay_match_ok n l id found : (length l <= n)%nat -> Forall (fun o => o_entry o <> None) l ->
  overlay_match n l id found =
  Some match found with Some _ => found | None => List.find (fun o => bool_decide (o_entry o = Some id)) l end.
Proof.
  revert n found. induction l as [|o l IH]; intros n found Hn Hf; [destruct n, found; done|].
  destruct n as [|n]; simpl in Hn; [lia|]. inversion_clear Hf as [|? ? Ho Hf']. simpl. destruct (o_entry o) as [i|]; [|done].
  rewrite IH by (done || lia). f_equal. destruct found; [done|]. destruct (Z.eqb_spec i id) as [->|Hne].
  - by rewrite bool_decide_eq_true_2.
  - rewrite bool_decide_eq_false_2 by congruence. done.
Qed.

Lemma entry_view_ok c id e : cache_ok c -> valid now -> overlays_ok -> entry_get c id = Some e ->
  exists c', route_endpoint_entry_view c id now overlays = Some (c', Some (shown id e)) /\ cache_ok c' /\ refreshed c c'.
Proof.
  intros Hok Hnow [Hlen Hov] He. assert (Hrr := refreshed_refl c).
  assert (Hcache : exists c', resolver_cache_entry_view c (Some id) (Some now) = Some (c', Some (visible e)) /\ cache_ok c' /\ refreshed c c').
  { destruct (view_spec c id e now Hok He Hnow) as (c' & Hok' & Hv). unfold visible. destruct (e_payload e) as [p|] eqn:Ep.
    2:{ destruct Hv as [Hv ->]. eauto. }
    destruct (ns now <? ns (p_expires_at p)) eqn:E; [destruct Hv as [Hv ->]; eauto|]. destruct Hv as [Hv Hent].
    exists c'. split; [done|]. split; [done|]. intros i. rewrite (entry_get_entries _ _ i Hent), entry_get_set by done.
    destruct (entry_get c i) as [e0|] eqn:E0; [|by destruct (i =? id)]. destruct (Z.eqb_spec i id) as [->|Hne]; [|eauto].
    simplify_eq. eexists. split; [done|]. split; [done|]. unfold visible. rewrite Ep, E. done. }
  unfold route_endpoint_entry_view, shown. rewrite overlay_match_ok by done.
  destruct (List.find _ overlays) as [o|]; [destruct (o_status o)|]; eauto.
Qed.

(** ** What evaluation reads *)

(** An entry that is not [NULL] is alive and has the type of its use. *)
Definition typed (c : resolver_cache) (entry : option Z) (t : Z) : Prop :=
  forall id, entry = Some id -> exists e, entry_get c id = Some e /\ e_query_type e = t.
Definition binding_live (c : resolver_cache) (b : route_binding) : Prop :=
  match b_source b with
  | ROUTE_BINDING_SOURCE_DNS_ADDRESS => typed c (b_ipv4_entry b) ns_t_a /\ typed c (b_ipv6_entry b) ns_t_aaaa
  | ROUTE_BINDING_SOURCE_DNS_SRV => typed c (b_srv_entry b) ns_t_srv
  | _ => True
  end.
Definition target_live (c : resolver_cache) (t : route_resolution_target) : Prop :=
  t_source t = ROUTE_RESOLUTION_TARGET_DNS -> typed c (t_ipv4_entry t) ns_t_a /\ typed c (t_ipv6_entry t) ns_t_aaaa.

(** What [route_bindings_build] returns is live. *)
Lemma bound_live c ids hosts d b : bound c ids hosts d b -> binding_live c b.
Proof.
  assert (He : forall entry name t, entry_for c ids entry name t -> typed c entry t).
  { intros entry name t (id & n & e & -> & _ & _ & He & Hk) i [= <-]. exists e. split; [done|]. unfold key in Hk. congruence. }
  unfold bound, binding_live. intros [_ H]. destruct (b_source b); try done; [destruct H as (_ & _ & _ & H)|destruct H as (_ & _ & H); by eapply He].
  split; eapply He; apply H.
Qed.

(** The requirements are distinct entries, pending exactly when nothing shows. *)
Definition required (c : resolver_cache) (qs : route_endpoint_requirements) : Prop :=
  NoDup (q_entry <$> qs) /\
  Forall (fun q => exists e, entry_get c (q_entry q) = Some e /\ q_pending q = view_empty (shown (q_entry q) e)) qs.

Lemma typed_refreshed c c' entry t : refreshed c c' -> typed c entry t -> typed c' entry t.
Proof.
  intros Hr Ht id Hid. destruct (Ht id Hid) as (e & He & <-). destruct (refreshed_shown c c' id e Hr He) as (e' & ? & ? & _). by exists e'.
Qed.

Lemma requirement_add_ok c qs id e : required c qs -> (length qs <= 2)%nat -> entry_get c id = Some e ->
  exists qs', route_endpoint_requirement_add qs id (view_empty (shown id e)) = Some qs' /\ required c qs' /\
    (length qs <= length qs' <= S (length qs))%nat /\ (view_empty (shown id e) = true -> Exists (fun q => q_pending q = true) qs') /\
    (Exists (fun q => q_pending q = true) qs -> Exists (fun q => q_pending q = true) qs').
Proof.
  intros [Hnd Hf] Hlen He. unfold route_endpoint_requirement_add. destruct (list_find _ qs) as [[i q]|] eqn:Ef.
  - apply list_find_Some in Ef as (Hi & <- & _). pose proof (Forall_lookup_1 _ _ _ _ Hf Hi) as (e' & He' & Hq).
    assert (e' = e) as -> by congruence. rewrite Hq, orb_diag.
    replace {| q_entry := q_entry q; q_pending := _ |} with q by (destruct q; simpl in *; by f_equal). rewrite list_insert_id by done.
    exists qs. split; [done|]. split; [done|]. split; [lia|]. split; [|done]. intros Hv. rewrite Exists_exists. exists q.
    split; [by eapply list_elem_of_In, list_elem_of_lookup_2|congruence].
  - apply list_find_None in Ef. if_as E; [unfold ROUTE_ENDPOINT_REQUIREMENT_LIMIT in E; apply Nat.leb_le in E; lia|].
    eexists. split; [done|]. split; [split|].
    + rewrite fmap_app. apply list.NoDup_app. split; [done|]. split; [|apply NoDup_singleton]. simpl. intros x Hx.
      intros ->%list_elem_of_singleton. apply list_elem_of_fmap in Hx as (q & Hq & Hin). rewrite list.Forall_forall in Ef. by apply (Ef q Hin).
    + apply Forall_app. split; [done|]. constructor; [by exists e|constructor].
    + rewrite length_app. simpl. split; [lia|]. split; intros H; apply Exists_app; [right; by constructor|by left].
Qed.

Lemma required_refreshed c c' qs : refreshed c c' -> required c qs -> required c' qs.
Proof.
  intros Hr [Hn Hf]. split; [done|]. revert Hf. apply Forall_impl. intros q (e & He & Hq).
  destruct (refreshed_shown c c' _ e Hr He) as (e' & ? & _ & Hs). exists e'. split; [done|]. by rewrite Hs.
Qed.

(** ** Addresses *)

Definition first_usable (f : Z) (l : list net_addr) (a : net_addr) : Prop := List.find (usable f) l = Some a.
Definition other_family (f : Z) : Z := if f =? AF_INET then AF_INET6 else AF_INET.
Definition ip_family (f : Z) : Prop := f = AF_INET \/ f = AF_INET6.
Definition family_type (f : Z) : Z := if f =? AF_INET then ns_t_a else ns_t_aaaa.

(** The first address of the preferred family, or of the other one if there is none. *)
Definition preferred_of (P : Z -> net_addr -> Prop) (f : Z) (a : net_addr) : Prop :=
  P f a \/ (forall a', ~ P f a') /\ P (other_family f) a.

(** [a] is the first usable address of family [f] that the entry shows. *)
Definition fresh_address (c : resolver_cache) (entry : option Z) (f : Z) (a : net_addr) : Prop :=
  exists id e, entry = Some id /\ entry_get c id = Some e /\ v_status (shown id e) = RESOLVER_CACHE_VIEW_FRESH_POSITIVE /\
    first_usable f (map a_address (default [] (v_addresses (shown id e)))) a.

Definition by_family (four six : option Z) (f : Z) : option Z := if f =? AF_INET then four else six.

Lemma fresh_refreshed c c' entry f a : refreshed c c' -> fresh_address c' entry f a <-> fresh_address c entry f a.
Proof.
  intros Hr. split; intros (id & e & -> & He & Hs & Ha); pose proof (Hr id) as Hid.
  - destruct (entry_get c id) as [e0|] eqn:E0; [|congruence]. destruct (refreshed_shown c c' id e0 Hr E0) as (e' & He' & _ & Hsh).
    assert (e' = e) as -> by congruence. exists id, e0. rewrite <- Hsh. auto.
  - destruct (refreshed_shown c c' id e Hr He) as (e' & He' & _ & Hsh). exists id, e'. rewrite Hsh. auto.
Qed.

Lemma first_usable_ok f l a : ip_family f -> first_usable f l a -> a ∈ l /\ family a = f /\ err a = NET_OK.
Proof.
  intros Hf Ha. apply find_some in Ha as [Hin Ha]. apply andb_true_iff in Ha as [H1 H2].
  split; [by apply list_elem_of_In|]. split; [lia|]. by apply bool_decide_eq_true in H2.
Qed.

Lemma find_map {A B} (g : A -> B) (f : B -> bool) l : List.find f (map g l) = g <$> List.find (fun x => f (g x)) l.
Proof. induction l as [|x l IH]; [done|]. simpl. by destruct (f (g x)). Qed.

(** A computation that reads the cache: it needs no freed entry, changes nothing
    that shows and adds at most [k] requirements. *)
Definition reads {A} (c : resolver_cache) (qs : route_endpoint_requirements) (k : nat) (P : route_endpoint_requirements -> A -> Prop)
    (x : option (resolver_cache * route_endpoint_requirements * A)) : Prop :=
  exists c' qs' a, x = Some (c', qs', a) /\ cache_ok c' /\ refreshed c c' /\ required c' qs' /\ (length qs' <= length qs + k)%nat /\
    (Exists (fun q => q_pending q = true) qs -> Exists (fun q => q_pending q = true) qs') /\ P qs' a.

Lemma reads_ret {A} c qs k (P : route_endpoint_requirements -> A -> Prop) a : cache_ok c -> required c qs -> P qs a ->
  reads c qs k P (Some (c, qs, a)).
Proof. intros. exists c, qs, a. split_and!; auto using refreshed_refl; lia. Qed.

(** The result of reading one entry. *)
Definition family_result (c : resolver_cache) (entry : option Z) (f : Z) (qs : route_endpoint_requirements)
    (s : route_endpoint_address_status) : Prop :=
  match s with
  | ROUTE_ENDPOINT_ADDRESS_OK a => fresh_address c entry f a
  | ROUTE_ENDPOINT_ADDRESS_PENDING => Exists (fun q => q_pending q = true) qs /\ forall a, ~ fresh_address c entry f a
  | ROUTE_ENDPOINT_ADDRESS_UNAVAILABLE => forall a, ~ fresh_address c entry f a
  | ROUTE_ENDPOINT_ADDRESS_LIMIT => False
  | ROUTE_ENDPOINT_ADDRESS_BAD_ARGUMENT => True
  end.

Lemma family_select_ok c entry f qs : cache_ok c -> valid now -> overlays_ok -> ip_family f -> typed c entry (family_type f) ->
  required c qs -> (length qs <= 2)%nat ->
  reads c qs 1 (family_result c entry f) (route_endpoint_cache_family_select c entry f now overlays qs).
Proof.
  intros Hok Hnow Hov Hf Ht Hreq Hlen. destruct entry as [id|]; cbn [route_endpoint_cache_family_select].
  2:{ apply reads_ret; [done|done|]. by intros a (id & e & ? & _). }
  destruct (Ht id eq_refl) as (e & He & Hty). rewrite He. cbn [mbind option_bind resolver_cache_entry_query_type].
  replace (if f =? AF_INET then ns_t_a else if f =? AF_INET6 then ns_t_aaaa else 0) with (family_type f) by (by destruct Hf as [-> | ->]).
  rewrite Hty, Z.eqb_refl. if_as E0; [destruct Hf as [-> | ->]; done|]. cbn [negb].
  destruct (entry_view_ok c id e Hok Hnow Hov He) as (c' & -> & Hok' & Hr).
  destruct (refreshed_shown c c' id e Hr He) as (e' & He' & _ & Hsh).
  destruct (requirement_add_ok c' qs id e' (required_refreshed _ _ _ Hr Hreq) Hlen He') as (qs' & Ha & Hreq' & Hl & Hpe & Hmono).
  rewrite Hsh in Ha, Hpe. rewrite Ha. eexists c', qs', _. split; [done|]. split_and!; [done|done|done|lia|done|].
  assert (Hno : v_status (shown id e) <> RESOLVER_CACHE_VIEW_FRESH_POSITIVE -> forall a, ~ fresh_address c (Some id) f a)
    by (intros Hn a (i & x & ? & ? & ? & _); simplify_eq; congruence).
  destruct (v_status (shown id e)) eqn:Ev; cbn [family_result].
  - split; [|by apply Hno]. apply Hpe. unfold view_empty. by rewrite Ev.
  - destruct (List.find _ _) as [r|] eqn:Er; [|done]. exists id, e. split_and!; [done..|]. unfold first_usable. by rewrite find_map, Er.
  - by apply Hno.
  - by apply Hno.
Qed.

Lemma other_family_ok f : ip_family f -> ip_family (other_family f) /\ f <> other_family f.
Proof. intros [-> | ->]; (split; [|done]); [by right|by left]. Qed.

(** [a] is an address of the preferred family that an entry shows, or else of the other. *)
Definition dns_choice (c : resolver_cache) (four six : option Z) : Z -> net_addr -> Prop :=
  preferred_of (fun f a => fresh_address c (by_family four six f) f a).

(** The status of a selection among the addresses that satisfy [P]. *)
Definition choice_result (P : net_addr -> Prop) (qs : route_endpoint_requirements) (s : route_endpoint_address_status) : Prop :=
  match s with
  | ROUTE_ENDPOINT_ADDRESS_OK a => P a
  | ROUTE_ENDPOINT_ADDRESS_PENDING => Exists (fun q => q_pending q = true) qs
  | ROUTE_ENDPOINT_ADDRESS_LIMIT => False
  | _ => True
  end.

Lemma reads_mono {A} c qs k k' (P Q : route_endpoint_requirements -> A -> Prop) x : (k <= k')%nat -> (forall qs a, P qs a -> Q qs a) ->
  reads c qs k P x -> reads c qs k' Q x.
Proof. intros Hk HPQ (c' & qs' & a & H). exists c', qs', a. destruct H as (? & ? & ? & ? & ? & ? & ?). split_and!; try done; [lia|auto]. Qed.

(** Reading on from where an earlier computation stopped. *)
Lemma reads_trans {A} c c' qs qs' k k' (P : route_endpoint_requirements -> A -> Prop) x : refreshed c c' ->
  (length qs' <= length qs + k)%nat -> (Exists (fun q => q_pending q = true) qs -> Exists (fun q => q_pending q = true) qs') ->
  reads c' qs' k' P x -> reads c qs (k + k') P x.
Proof.
  intros Hr Hl Hp (c2 & qs2 & a & -> & Hok & Hr2 & Hq & Hl2 & Hp2 & HP). exists c2, qs2, a.
  split_and!; auto; [by eapply refreshed_trans|lia].
Qed.

Lemma family_result_refreshed c c' entry f qs s : refreshed c c' -> family_result c' entry f qs s -> family_result c entry f qs s.
Proof.
  intros Hr. assert (Hf : forall a, fresh_address c' entry f a <-> fresh_address c entry f a) by (intros; by apply fresh_refreshed).
  destruct s; cbn [family_result]; try done; [by rewrite Hf|intros [He Hn]; split; [done|]|intros Hn]; intros a; rewrite <- Hf; apply Hn.
Qed.

Lemma alternate_ok c c0 entry f qs s0 : cache_ok c -> valid now -> overlays_ok -> ip_family f -> typed c entry (family_type f) ->
  required c qs -> (length qs <= 2)%nat -> refreshed c0 c ->
  (s0 = ROUTE_ENDPOINT_ADDRESS_PENDING -> Exists (fun q => q_pending q = true) qs) ->
  reads c qs 1 (choice_result (fresh_address c0 entry f))
    (alternate_select c entry f now overlays qs s0).
Proof.
  intros Hok Hnow Hov Hf Hty Hreq Hlen Hr0 Hs0. unfold alternate_select.
  destruct (family_select_ok c entry f qs Hok Hnow Hov Hf Hty Hreq Hlen) as (c1 & qs1 & s1 & -> & Hok1 & Hr1 & Hq1 & Hl1 & Hp1 & Hs1).
  eexists _, _, _. split; [done|]. split_and!; try done. apply (family_result_refreshed c0 c) in Hs1; [|done].
  destruct s1; cbn [family_result] in Hs1; try done; [|destruct s0; cbn [choice_result]; auto]. destruct s0; apply Hs1.
Qed.

Lemma cache_select_ok c four six f qs : cache_ok c -> valid now -> overlays_ok -> ip_family f ->
  typed c four ns_t_a -> typed c six ns_t_aaaa -> required c qs -> (length qs <= 1)%nat ->
  reads c qs 2 (choice_result (dns_choice c four six f)) (route_endpoint_cache_select c four six f now overlays qs).
Proof.
  intros Hok Hnow Hov Hf H4 H6 Hreq Hlen. destruct (other_family_ok f Hf) as [Ho Hne].
  assert (Hty : forall g, ip_family g -> typed c (by_family four six g) (family_type g)) by (by intros g [-> | ->]).
  unfold route_endpoint_cache_select.
  replace (if f =? AF_INET then four else if f =? AF_INET6 then six else None) with (by_family four six f) by (by destruct Hf as [-> | ->]).
  replace (if f =? AF_INET then six else if f =? AF_INET6 then four else None) with (by_family four six (other_family f))
    by (by destruct Hf as [-> | ->]).
  replace (if f =? AF_INET then AF_INET6 else if f =? AF_INET6 then AF_INET else AF_UNSPEC) with (other_family f) by (by destruct Hf as [-> | ->]).
  destruct (negb _ && negb _); [by apply reads_ret|].
  destruct (family_select_ok c _ f qs Hok Hnow Hov Hf (Hty f Hf) Hreq ltac:(lia)) as (c1 & qs1 & s1 & -> & Hok1 & Hr1 & Hq1 & Hl1 & Hp1 & Hs1).
  assert (Hnext : (forall a, ~ fresh_address c (by_family four six f) f a) ->
    (s1 = ROUTE_ENDPOINT_ADDRESS_PENDING -> Exists (fun q => q_pending q = true) qs1) ->
    reads c qs 2 (choice_result (dns_choice c four six f))
      (alternate_select c1 (by_family four six (other_family f)) (other_family f) now overlays qs1 s1)).
  { intros Hno Hpend. apply (reads_trans c c1 qs qs1 1 1); [done..|]. eapply (reads_mono c1 qs1 1 1); [done| |eapply (alternate_ok c1 c); try done].
    - intros qs' s. destruct s; cbn [choice_result]; try done. intros Ha. right. by split.
    - eapply typed_refreshed; [done|]. by apply Hty.
    - lia. }
  destruct s1; cbn [family_result] in Hs1.
  - exists c1, qs1, (ROUTE_ENDPOINT_ADDRESS_OK result). split_and!; try done; [lia|]. by left.
  - exists c1, qs1, ROUTE_ENDPOINT_ADDRESS_BAD_ARGUMENT. split_and!; try done. lia.
  - done.
  - apply Hnext; [apply Hs1|]. intros _. apply Hs1.
  - by apply Hnext.
Qed.

(** ** Bindings *)

Definition numeric_choice (numeric a : net_addr) : Prop := a = numeric /\ err a = NET_OK /\ ip_family (family a).
Definition hosts_choice (l : hosts_address_result) : Z -> net_addr -> Prop :=
  preferred_of (fun f a => first_usable f (default [] l) a).

Definition target_choice (c : resolver_cache) (t : route_resolution_target) (f : Z) (a : net_addr) : Prop :=
  match t_source t with
  | ROUTE_RESOLUTION_TARGET_NUMERIC => numeric_choice (t_numeric_address t) a
  | ROUTE_RESOLUTION_TARGET_HOSTS => hosts_choice (t_hosts t) f a
  | ROUTE_RESOLUTION_TARGET_DNS => dns_choice c (t_ipv4_entry t) (t_ipv6_entry t) f a
  end.

Definition destination_targets (resolution : option route_resolution) (index : Z) (l : list route_resolution_target) : Prop :=
  exists r d, resolution = Some r /\ rs_destinations r !! Z.to_nat index = Some d /\ ts_targets (rd_targets d) = l.

(** The endpoint of an SRV binding: the best record the owner shows, and an
    address of the first target with its name. *)
Definition srv_choice (c : resolver_cache) (entry : option Z) (resolution : option route_resolution) (index f : Z) (sel : selection) : Prop :=
  exists id e l r ts before t after, entry = Some id /\ entry_get c id = Some e /\
    v_status (shown id e) = RESOLVER_CACHE_VIEW_FRESH_POSITIVE /\ v_srv_records (shown id e) = Some l /\
    (Forall record_ok l -> srv_selected l (Some r, ROUTE_ENDPOINT_SELECT_OK)) /\
    destination_targets resolution index ts /\ ts = before ++ t :: after /\ t_name t = r_target r /\
    Forall (fun x => t_name x <> r_target r) before /\
    sel_port sel = r_port r /\ sel_target_name sel = r_target r /\ target_choice c t f (sel_address sel).

(** What a binding selects for a route. *)
Definition selects (c : resolver_cache) (resolution : option route_resolution) (b : route_binding) (route : route_entry) (f : Z)
    (sel : selection) : Prop :=
  match b_source b with
  | ROUTE_BINDING_SOURCE_DNS_SRV => srv_choice c (b_srv_entry b) resolution (destination_index route) f sel
  | source =>
      sel_port sel = b_port b /\ sel_target_name sel = configured_address route /\
      match source with
      | ROUTE_BINDING_SOURCE_NUMERIC => numeric_choice (b_numeric_address b) (sel_address sel)
      | ROUTE_BINDING_SOURCE_HOSTS => hosts_choice (b_hosts b) f (sel_address sel)
      | ROUTE_BINDING_SOURCE_DNS_ADDRESS => dns_choice c (b_ipv4_entry b) (b_ipv6_entry b) f (sel_address sel)
      | _ => False
      end
  end.

(** The result of a selection: an endpoint exactly with success. *)
Definition selection_result (P : selection -> Prop) (qs : route_endpoint_requirements)
    (x : option selection * route_endpoint_select_status) : Prop :=
  match x with
  | (Some sel, ROUTE_ENDPOINT_SELECT_OK) => P sel
  | (None, ROUTE_ENDPOINT_SELECT_PENDING) => Exists (fun q => q_pending q = true) qs
  | (None, (ROUTE_ENDPOINT_SELECT_BAD_ARGUMENT | ROUTE_ENDPOINT_SELECT_CONTRADICTORY | ROUTE_ENDPOINT_SELECT_SERVICE_UNAVAILABLE
           | ROUTE_ENDPOINT_SELECT_UNAVAILABLE)) => True
  | _ => False
  end.

Lemma numeric_status_ok a qs : choice_result (numeric_choice a) qs (numeric_status a).
Proof.
  unfold numeric_status. if_as E; [done|]. cbn [choice_result]. split; [done|]. apply orb_false_iff in E as [E1 E2].
  apply negb_false_iff, bool_decide_eq_true in E1. split; [done|]. unfold ip_family. lia.
Qed.

Lemma hosts_status_ok l f qs : ip_family f -> choice_result (hosts_choice l f) qs (route_endpoint_addresses_select l f).
Proof.
  intros Hf. destruct (other_family_ok f Hf) as [Ho _]. unfold route_endpoint_addresses_select. fold (other_family f).
  assert (Hs : forall g, ip_family g -> route_endpoint_address_family_select l g =
    match List.find (usable g) (default [] l) with Some a => ROUTE_ENDPOINT_ADDRESS_OK a | None => ROUTE_ENDPOINT_ADDRESS_UNAVAILABLE end).
  { intros g Hg. unfold route_endpoint_address_family_select. if_as E; [destruct Hg as [-> | ->]; done|done]. }
  rewrite !Hs by done. destruct (List.find (usable f) _) as [a|] eqn:E1; cbn [choice_result]; [by left|].
  destruct (List.find (usable (other_family f)) _) as [a|] eqn:E2; cbn [choice_result]; [|done].
  right. split; [|done]. intros a' Ha'. unfold first_usable in Ha'. congruence.
Qed.

Lemma selected_ok P port name s qs : choice_result P qs s ->
  selection_result (fun sel => sel_port sel = port /\ sel_target_name sel = name /\ P (sel_address sel)) qs (selected port name s).
Proof. by destruct s. Qed.

Lemma target_select_ok c t f qs : cache_ok c -> valid now -> overlays_ok -> ip_family f -> target_live c t -> required c qs ->
  (length qs <= 1)%nat -> reads c qs 2 (choice_result (target_choice c t f)) (route_endpoint_target_select c t f now overlays qs).
Proof.
  intros Hok Hnow Hov Hf Hl Hreq Hlen. unfold route_endpoint_target_select, target_choice. unfold target_live in Hl. destruct (t_source t).
  - apply reads_ret; [done|done|]. apply numeric_status_ok.
  - apply reads_ret; [done|done|]. by apply hosts_status_ok.
  - destruct (Hl eq_refl). by apply cache_select_ok.
Qed.

Lemma target_loop_ok r i d name n pre rest t : (len (rs_destinations r) <=? i) = false -> rs_destinations r !! Z.to_nat i = Some d ->
  ts_targets (rd_targets d) = pre ++ rest -> length rest = n -> Forall (fun x => t_name x <> name) pre ->
  target_find_loop (Some r) i n (len pre) name = Some t ->
  exists before after, pre ++ rest = before ++ t :: after /\ t_name t = name /\ Forall (fun x => t_name x <> name) before.
Proof.
  intros Hi Hd. revert pre rest. induction n as [|n IH]; intros pre rest Hts Hn Hpre; cbn [target_find_loop]; [done|].
  destruct rest as [|x rest]; [done|]. unfold route_resolution_destination_target_get at 1. rewrite Hi, Hd. cbn [mbind option_bind].
  rewrite Hts. replace (len (pre ++ x :: rest) <=? len pre) with false by lens. rewrite Nat2Z.id, list_lookup_middle by done.
  cbn [mbind option_bind]. destruct (bool_decide (t_name x = name)) eqn:E.
  - intros [= <-]. apply bool_decide_eq_true in E. by exists pre, rest.
  - apply bool_decide_eq_false in E. replace (len pre + 1) with (len (pre ++ [x])) by lens. intros H.
    destruct (IH (pre ++ [x]) rest) as (b & a & Hb & ? & ?); try done; [by rewrite <- app_assoc|by injection Hn|by apply Forall_app; split; [|constructor]|].
    exists b, a. by rewrite <- app_assoc in Hb.
Qed.

Lemma target_find_ok r i dv name t : route_resolution_destination_get (Some r) i = Some dv ->
  route_endpoint_target_find (Some r) i (dview_target_count dv) name = Some t ->
  exists ts before after, destination_targets (Some r) i ts /\ ts = before ++ t :: after /\ t_name t = name /\
    Forall (fun x => t_name x <> name) before.
Proof.
  cbn [route_resolution_destination_get]. if_as Ei; [done|]. destruct (rs_destinations r !! Z.to_nat i) as [d|] eqn:Ed; [|done].
  cbn [mbind option_bind]. intros [= <-]. unfold route_endpoint_target_find. cbn [dview_target_count]. rewrite Nat2Z.id. intros H.
  destruct (target_loop_ok r i d name _ [] (ts_targets (rd_targets d)) t Ei Ed eq_refl eq_refl) as (b & a & Hba & Hn & Hb); [constructor|done|].
  exists (ts_targets (rd_targets d)), b, a. split; [by exists r, d|]. by split_and!.
Qed.

Definition targets_live (c : resolver_cache) (r : route_resolution) : Prop :=
  Forall (fun d => Forall (target_live c) (ts_targets (rd_targets d))) (rs_destinations r).

Lemma targets_refreshed c c' r : refreshed c c' -> targets_live c r -> targets_live c' r.
Proof. intros Hr. apply Forall_impl. intros d. apply Forall_impl. intros t H Hs. destruct (H Hs) as [H1 H2]. split; by eapply typed_refreshed. Qed.

Lemma choice_refreshed c c' four six f a : refreshed c c' -> dns_choice c' four six f a -> dns_choice c four six f a.
Proof.
  intros Hr. assert (Hf : forall en g x, fresh_address c' en g x <-> fresh_address c en g x) by (intros; by apply fresh_refreshed).
  unfold dns_choice, preferred_of. rewrite !Hf. intros [H|[H1 H2]]; [by left|right]. split; [|done]. intros a'. rewrite <- Hf. apply H1.
Qed.

(** The endpoint of the record the owner shows. *)
Lemma evaluate_record_ok c c0 id e r i l f qs : cache_ok c -> valid now -> overlays_ok -> ip_family f -> targets_live c r -> required c qs ->
  (length qs <= 1)%nat -> refreshed c0 c -> entry_get c0 id = Some e -> v_status (shown id e) = RESOLVER_CACHE_VIEW_FRESH_POSITIVE ->
  v_srv_records (shown id e) = Some l -> forall record, route_endpoint_srv_record_select (Some l) = (Some record, ROUTE_ENDPOINT_SELECT_OK) ->
  forall dv t, route_resolution_destination_get (Some r) i = Some dv ->
  route_endpoint_target_find (Some r) i (dview_target_count dv) (r_target record) = Some t ->
  reads c qs 2 (selection_result (srv_choice c0 (Some id) (Some r) i f))
    match route_endpoint_target_select c t f now overlays qs with
    | None => None
    | Some (c, qs, s) => Some (c, qs, selected (r_port record) (r_target record) s)
    end.
Proof.
  intros Hok Hnow Hov Hf Hlive Hreq Hlen Hr He Hv Hl record Hsel dv t Hdv Ht.
  destruct (target_find_ok r i dv _ t Hdv Ht) as (ts & before & after & Hts & Hba & Hname & Hbefore).
  assert (Htl : target_live c t).
  { destruct Hts as (r' & d & [= <-] & Hd & <-). pose proof (Forall_lookup_1 _ _ _ _ Hlive Hd) as Hall. cbn beta in Hall. rewrite Hba in Hall.
    apply Forall_app in Hall as [_ Hall]. by inversion_clear Hall. }
  destruct (target_select_ok c t f qs Hok Hnow Hov Hf Htl Hreq Hlen) as (c1 & qs1 & s1 & -> & Hok1 & Hr1 & Hq1 & Hl1 & Hp1 & Hs1).
  eexists c1, qs1, _. split; [done|]. split_and!; try done. apply (selected_ok _ (r_port record) (r_target record)) in Hs1.
  destruct (selected _ _ _) as [[sel|] []]; try done. destruct Hs1 as (Hp & Hn & Ha).
  exists id, e, l, record, ts, before, t, after. split_and!; try done.
  - intros Hrec. rewrite <- Hsel. by apply srv_select_ok.
  - unfold target_choice in *. destruct (t_source t); [done|done|]. by eapply choice_refreshed.
Qed.

Lemma evaluate_srv_ok c entry r i f qs : cache_ok c -> valid now -> overlays_ok -> ip_family f -> typed c entry ns_t_srv ->
  targets_live c r -> required c qs -> qs = [] ->
  reads c qs 3 (selection_result (srv_choice c entry (Some r) i f)) (evaluate_srv c entry (Some r) i f now overlays qs).
Proof.
  intros Hok Hnow Hov Hf Hty Hlive Hreq ->. destruct entry as [id|]; cbn [evaluate_srv]; [|by apply reads_ret].
  destruct (Hty id eq_refl) as (e & He & Hq). rewrite He. cbn [mbind option_bind resolver_cache_entry_query_type]. rewrite Hq. cbn [negb].
  destruct (entry_view_ok c id e Hok Hnow Hov He) as (c' & -> & Hok' & Hr). rewrite Z.eqb_refl. cbn [negb].
  destruct (refreshed_shown c c' id e Hr He) as (e' & He' & _ & Hsh).
  destruct (requirement_add_ok c' [] id e' (required_refreshed _ _ _ Hr Hreq) ltac:(simpl; lia) He') as (qs' & Ha & Hreq' & Hl & Hpe & Hmono).
  rewrite Hsh in Ha, Hpe. rewrite Ha. apply (reads_trans c c' [] qs' 1 2); [done|simpl in *; lia|done|].
  destruct (v_status (shown id e)) eqn:Ev; try (by apply reads_ret).
  { apply reads_ret; [done|done|]. apply Hpe. unfold view_empty. by rewrite Ev. }
  destruct (v_srv_records (shown id e)) as [l|] eqn:El; [|by apply reads_ret].
  destruct (route_endpoint_srv_record_select (Some l)) as [[record|] s] eqn:Es.
  - assert (s = ROUTE_ENDPOINT_SELECT_OK) as -> by (by eapply srv_select_some).
    destruct (route_resolution_destination_get (Some r) i) as [dv|] eqn:Ed; [|by apply reads_ret].
    destruct (route_endpoint_target_find _ _ _ _) as [t|] eqn:Et; [|by apply reads_ret].
    eapply (evaluate_record_ok c' c); try done; [by eapply targets_refreshed|simpl in *; lia].
  - apply reads_ret; [done|done|]. by destruct (srv_select_none l s Es) as [-> | [-> | ->]].
Qed.

Lemma evaluate_binding_ok c b r route f : cache_ok c -> valid now -> overlays_ok -> ip_family f -> binding_live c b -> targets_live c r ->
  reads c [] 3 (selection_result (selects c (Some r) b route f)) (evaluate_binding c b (Some r) route f now overlays []).
Proof.
  intros Hok Hnow Hov Hf Hb Hlive. assert (Hreq : required c []) by (split; constructor).
  unfold evaluate_binding, selects. unfold binding_live in Hb. destruct (b_source b).
  - by apply reads_ret.
  - apply reads_ret; [done|done|]. apply selected_ok, numeric_status_ok.
  - apply reads_ret; [done|done|]. by apply selected_ok, hosts_status_ok.
  - destruct Hb as [H4 H6]. destruct (cache_select_ok c (b_ipv4_entry b) (b_ipv6_entry b) f []) as (c1 & qs1 & s1 & -> & Hok1 & Hr1 & Hq1 & Hl1 & Hp1 & Hs1);
      try done; [simpl; lia|]. eexists c1, qs1, _. split; [done|]. split_and!; try done; [lia|]. by apply selected_ok.
  - by apply evaluate_srv_ok.
Qed.

(** ** Evaluation *)

(** The pointers of a generation are entries the generation owns. *)
Definition generation_live {conf} (c : resolver_cache) (g : route_generation conf) : Prop :=
  (forall b, g_bindings g = Some b -> Forall (binding_live c) (bd_destinations b)) /\
  (forall r, g_resolution g = Some r -> targets_live c r).

(** The snapshot of the first route of the virtual host. *)
Definition endpoint_of {conf} (c : resolver_cache) (g : route_generation conf) (host : bytes) (proxy : p_proxy) (s : route_endpoint_snapshot) : Prop :=
  exists route b,
    route_table_find (g_routes g) (Some host) = Some route /\
    route_bindings_destination_get (g_bindings g) (destination_index route) = Some b /\
    selects c (g_resolution g) b route (p_family proxy)
      {| sel_address := s_address s; sel_port := s_port s; sel_target_name := s_target_name s |} /\
    err (s_address s) = NET_OK /\ ip_family (family (s_address s)) /\
    s_configured_address s = configured_address route /\ s_vhost s = vhost route /\ s_destination_index s = destination_index route /\
    s_generation_identity s = g_identity g /\ s_inbound_proxy s = proxy /\ s_pheader s = pheader route /\ s_rewrite s = rewrite_ route /\
    len (s_configured_address s) <= ADDRESS_MAXLEN /\ len (s_vhost s) <= ADDRESS_MAXLEN /\ len (s_target_name s) <= ADDRESS_MAXLEN.

(** A text of the route, or the name of the target, does not fit the snapshot. *)
Definition text_too_long {conf} (c : resolver_cache) (g : route_generation conf) (host : bytes) (proxy : p_proxy) : Prop :=
  exists route b sel,
    route_table_find (g_routes g) (Some host) = Some route /\
    route_bindings_destination_get (g_bindings g) (destination_index route) = Some b /\
    selects c (g_resolution g) b route (p_family proxy) sel /\
    (ADDRESS_MAXLEN < len (configured_address route) \/ ADDRESS_MAXLEN < len (vhost route) \/ ADDRESS_MAXLEN < len (sel_target_name sel)).

Definition evaluated {conf} (c : resolver_cache) (g : route_generation conf) (host : bytes) (proxy : p_proxy)
    (qs : route_endpoint_requirements) (status : route_endpoint_select_status) (snapshot : option route_endpoint_snapshot) : Prop :=
  match status, snapshot with
  | ROUTE_ENDPOINT_SELECT_OK, Some s => endpoint_of c g host proxy s
  | ROUTE_ENDPOINT_SELECT_OK, None | _, Some _ => False
  | ROUTE_ENDPOINT_SELECT_PENDING, None => Exists (fun q => q_pending q = true) qs
  | ROUTE_ENDPOINT_SELECT_NO_ROUTE, None => route_table_find (g_routes g) (Some host) = None
  | ROUTE_ENDPOINT_SELECT_LIMIT, None => text_too_long c g host proxy
  | _, None => True
  end.

Lemma preferred_usable (P : Z -> net_addr -> Prop) f a : ip_family f -> (forall g x, ip_family g -> P g x -> err x = NET_OK /\ ip_family (family x)) ->
  preferred_of P f a -> err a = NET_OK /\ ip_family (family a).
Proof. intros Hf HP [H|[_ H]]; [by apply (HP f)|]. apply (HP (other_family f)); [|done]. by apply other_family_ok. Qed.

Lemma dns_choice_usable c four six f a : ip_family f -> dns_choice c four six f a -> err a = NET_OK /\ ip_family (family a).
Proof.
  intros Hf. apply preferred_usable; [done|]. intros g x Hg (id & e & _ & _ & _ & Hu).
  by destruct (first_usable_ok g _ x Hg Hu) as (_ & <- & He).
Qed.

Lemma hosts_choice_usable l f a : ip_family f -> hosts_choice l f a -> err a = NET_OK /\ ip_family (family a).
Proof.
  intros Hf. apply preferred_usable; [done|]. intros g x Hg Hu. by destruct (first_usable_ok g _ x Hg Hu) as (_ & <- & He).
Qed.

Lemma selects_usable c resolution b route f sel : ip_family f -> selects c resolution b route f sel ->
  err (sel_address sel) = NET_OK /\ ip_family (family (sel_address sel)).
Proof.
  intros Hf. unfold selects. destruct (b_source b); [by intros (_ & _ & [])|by intros (_ & _ & _ & ?)|..].
  - intros (_ & _ & H). by eapply hosts_choice_usable.
  - intros (_ & _ & H). by eapply dns_choice_usable.
  - intros (id & e & l & r & ts & before & t & after & H). destruct H as (_ & _ & _ & _ & _ & _ & _ & _ & _ & _ & _ & H).
    unfold target_choice in H. destruct (t_source t); [apply H|by eapply hosts_choice_usable|by eapply dns_choice_usable].
Qed.
End shown.

Lemma string_copy_spec source :
  match route_endpoint_string_copy ROUTE_ENDPOINT_TEXT_SIZE source with
  | Some copy => copy = source /\ len source <= ADDRESS_MAXLEN
  | None => ADDRESS_MAXLEN < len source
  end.
Proof.
  unfold route_endpoint_string_copy, ROUTE_ENDPOINT_TEXT_SIZE. if_as E0; [done|]. if_as E; [unfold ADDRESS_MAXLEN in *; lia|].
  split; [done|]. unfold ADDRESS_MAXLEN in *; lia.
Qed.

(** C26: evaluating an endpoint never touches a freed cache entry and changes nothing
    that the cache shows.  The entries it had to read, three at most, are its
    requirements, and one of them is pending whenever the result is.  A snapshot is
    that of the first route of the virtual host; its address is usable, of the
    family of the inbound connection unless there is none of it, and comes from the
    configuration, the hosts table, or a fresh result; an SRV route uses the best
    record and the target of its name.  The copied texts fit. *)
Theorem endpoint_sound {conf} c (g : route_generation conf) host now proxy overlays :
  tv_sec now < 2 ^ 63 -> cache_ok c -> generation_live c g -> overlays_ok overlays ->
  exists c' qs status snapshot,
    route_endpoint_evaluate c (Some g) (Some host) (Some now) (Some proxy) overlays = Some (c', qs, status, snapshot) /\
    cache_ok c' /\ refreshed now c c' /\ required now overlays c' qs /\ (length qs <= ROUTE_ENDPOINT_REQUIREMENT_LIMIT)%nat /\
    evaluated now overlays c g host proxy qs status snapshot.
Proof.
  intros Hsec Hok [Hb Hres] Hov. assert (Hret : forall s, evaluated now overlays c g host proxy [] s None -> exists c' qs status snapshot,
    Some (c, [], s, None) = Some (c', qs, status, snapshot) /\ cache_ok c' /\ refreshed now c c' /\ required now overlays c' qs /\
    (length qs <= ROUTE_ENDPOINT_REQUIREMENT_LIMIT)%nat /\ evaluated now overlays c g host proxy qs status snapshot).
  { intros s Hs. exists c, [], s, None. split; [done|]. split_and!; [done|apply refreshed_refl|split; constructor|simpl; lia|done]. }
  cbn [route_endpoint_evaluate]. if_as E; [by apply Hret|]. apply orb_false_iff in E as [E E3]. apply orb_false_iff in E as [E1 E2].
  assert (Hnow : valid now) by (by apply negb_false_iff in E2).
  assert (Hf : ip_family (p_family proxy)) by (apply negb_false_iff in E3; unfold proxy_usable in E3; unfold ip_family; lia).
  destruct (g_routes g) as [table|] eqn:Et; [|by apply Hret]. destruct (g_bindings g) as [bd|] eqn:Ebd; [|by apply Hret].
  destruct (g_resolution g) as [r|] eqn:Er; [|by apply Hret].
  destruct (route_table_find (Some table) (Some host)) as [route|] eqn:Ef; [|apply Hret; unfold evaluated; by rewrite Et].
  destruct (route_bindings_destination_get (Some bd) (destination_index route)) as [b|] eqn:Eb; [|by apply Hret].
  assert (Hlive : binding_live c b).
  { specialize (Hb bd eq_refl). unfold route_bindings_destination_get in Eb. destruct (_ <=? _); [done|]. by eapply Forall_lookup_1. }
  destruct (evaluate_binding_ok now overlays c b r route (p_family proxy) Hok Hnow Hov Hf Hlive (Hres r eq_refl))
    as (c1 & qs1 & [[sel|] s1] & -> & Hok1 & Hr1 & Hq1 & Hl1 & _ & Hs1).
  2:{ exists c1, qs1, s1, None. split; [done|]. split_and!; try done. by destruct s1. }
  destruct s1; try done. cbn [selection_result] in Hs1. pose proof (selects_usable _ _ _ _ _ _ _ _ Hf Hs1) as [Hu1 Hu2].
  pose proof (string_copy_spec (configured_address route)) as H1. pose proof (string_copy_spec (sel_target_name sel)) as H2.
  pose proof (string_copy_spec (vhost route)) as H3.
  assert (Hlong : ADDRESS_MAXLEN < len (configured_address route) \/ ADDRESS_MAXLEN < len (vhost route) \/ ADDRESS_MAXLEN < len (sel_target_name sel) ->
    exists c' qs status snapshot, Some (c1, qs1, ROUTE_ENDPOINT_SELECT_LIMIT, None) = Some (c', qs, status, snapshot) /\ cache_ok c' /\
      refreshed now c c' /\ required now overlays c' qs /\ (length qs <= ROUTE_ENDPOINT_REQUIREMENT_LIMIT)%nat /\
      evaluated now overlays c g host proxy qs status snapshot).
  { intros Hl. eexists _, _, _, _. split; [done|]. split_and!; try done. exists route, b, sel. by rewrite Et, Ebd, Er. }
  destruct (route_endpoint_string_copy _ (configured_address route)) as [t1|]; [|apply Hlong; auto].
  destruct (route_endpoint_string_copy _ (sel_target_name sel)) as [t2|]; [|apply Hlong; auto].
  destruct (route_endpoint_string_copy _ (vhost route)) as [t3|]; [|apply Hlong; auto].
  destruct H1 as [-> H1], H2 as [-> H2], H3 as [-> H3]. eexists _, _, _, _. split; [done|]. split_and!; try done.
  exists route, b. rewrite Et, Ebd, Er. split_and!; try done.
Qed.

(** ** A route to a name with a fresh address *)

Definition sample_srv : list dns_srv_record :=
  [{| r_priority := 5; r_weight := 9; r_port := 1; r_target := [97]; r_record_ttl := 60; r_effective_ttl := 60 |};
   {| r_priority := 1; r_weight := 2; r_port := 2; r_target := [98]; r_record_ttl := 60; r_effective_ttl := 60 |};
   {| r_priority := 1; r_weight := 7; r_port := 3; r_target := [99]; r_record_ttl := 60; r_effective_ttl := 60 |}].

Definition sample_binding (id : Z) : route_binding :=
  {| b_ipv4_entry := Some id; b_ipv6_entry := None; b_hosts := None; b_numeric_address := net_addr_zero; b_port := 25565;
     b_srv_entry := None; b_source := ROUTE_BINDING_SOURCE_DNS_ADDRESS |}.

Definition sample_generation (id : Z) : route_generation unit :=
  {| g_bindings := Some {| bd_destinations := [sample_binding id]; bd_entries := [id] |}; g_config := Some tt;
     g_hosts := Some hosts_table_zero; g_identity := 1; g_reference_count := 1; g_resolution := Some {| rs_destinations := [] |};
     g_routes := Some {| destinations := [];
                         routes := [{| configured_address := [112]; destination_index := 0; pheader := false; rewrite_ := true; vhost := [104] |}] |} |}.

Definition sample_proxy : p_proxy :=
  let a := {| family := AF_INET6; err := NET_OK; addr := replicate 16 0 |} in
  {| p_family := AF_INET6; srcaddr := a; dstaddr := a; srcport := 1; dstport := 2 |}.

(** The name has only an IPv4 address, which an IPv6 client is given. *)
Definition sample_check (c : resolver_cache) (id : Z) : bool :=
  match entry_get c id with
  | Some e =>
      (e_query_type e =? ns_t_a) &&
      match route_endpoint_evaluate c (Some (sample_generation id)) (Some [72; 46]) (Some sample_time) (Some sample_proxy) [] with
      | Some (_, [q], ROUTE_ENDPOINT_SELECT_OK, Some s) => (family (s_address s) =? AF_INET) && (s_port s =? 25565)
      | _ => false
      end
  | None => false
  end.

Lemma sample_entry : exists c id, reachable c /\ sample_check c id = true.
Proof.
  assert (H : match resolver_cache_create true true with
    | None => false
    | Some c =>
        match resolver_cache_entry_acquire c (Some (ar_question_name sample_result)) ns_t_a true with
        | Some (c, Some id, RESOLVER_CACHE_ACQUIRE_OK) =>
            match resolver_cache_entry_publish_address c (Some id) DNS_LOOKUP_OK (Some sample_time) (Some sample_result) true with
            | Some (c, RESOLVER_CACHE_PUBLISH_STORED, _) => sample_check c id
            | _ => false
            end
        | _ => false
        end
    end = true) by (vm_compute; reflexivity).
  destruct (resolver_cache_create true true) as [c0|] eqn:E0; [|done].
  destruct (resolver_cache_entry_acquire _ _ _ _) as [[[c [id|]] s]|] eqn:E1; try done. destruct s; try done.
  destruct (resolver_cache_entry_publish_address _ _ _ _ _ _) as [[[c' s] r]|] eqn:E2; [|done]. destruct s; try done.
  exists c', id. split; [|done]. eapply Reach_address; [eapply Reach_acquire; [by apply Reach_create|exact E1]| |apply sample_typed|exact E2]; done.
Qed.

Lemma endpoint_sound_witness : exists c id c' qs s,
  route_endpoint_evaluate c (Some (sample_generation id)) (Some [72; 46]) (Some sample_time) (Some sample_proxy) []
    = Some (c', qs, ROUTE_ENDPOINT_SELECT_OK, Some s) /\
  family (s_address s) = AF_INET /\ endpoint_of sample_time [] c (sample_generation id) [72; 46] sample_proxy s.
Proof.
  destruct sample_entry as (c & id & Hr & H). unfold sample_check in H. destruct (entry_get c id) as [e|] eqn:Ee; [|done].
  apply andb_true_iff in H as [Ht H].
  destruct (endpoint_sound c (sample_generation id) [72; 46] sample_time sample_proxy []) as (c' & qs & st & sn & Hev & _ & _ & _ & _ & Hs).
  - done.
  - by apply reachable_ok.
  - split; [|intros r [= <-]; constructor]. intros b [= <-]. constructor; [|constructor]. split; [|done].
    intros i [= <-]. exists e. split; [done|lia].
  - split; [simpl; lia|constructor].
  - rewrite Hev in H. destruct qs as [|q [|]]; try done; destruct st; try done; destruct sn as [s|]; try done.
    exists c, id, c', [q], s. split; [done|]. split; [lia|exact Hs].
Defined.
