(* ===== verification/Setup.v ===== *)
(** * Connection setup: shared checks and short connections
    ([src/src/connection/setup.c], [src/src/connection/setup_short.c])

    A short connection is a server-list ping, which the listener serves itself: the
    plan says whether to answer the client, to connect to the target and with which
    request, or to give up.  A [char] array is given by its bytes before the first
    NUL, all of them if there is none. *)

From Stdlib Require Import String.
From S2P Require Import Prelude Basic Protocol HandshakeLegacy Handshake HandshakeParsed Proxy RouteTable Endpoint.

(** ** Shared types *)

Definition CONF_ICON_B64MAX : Z := 7000.
Definition PATH_MAX : Z := 4096.

Inductive connection_setup_route_status :=
  | CONNECTION_SETUP_ROUTE_BYPASS | CONNECTION_SETUP_ROUTE_READY | CONNECTION_SETUP_ROUTE_NO_ROUTE
  | CONNECTION_SETUP_ROUTE_UNAVAILABLE.

Record connection_setup_snapshot := {
  ss_endpoint : route_endpoint_snapshot; ss_icon_b64 : bytes; ss_log_filename : bytes; ss_log_level : Z;
  ss_route_status : connection_setup_route_status;
}.

Inductive connection_setup_status :=
  | CONNECTION_SETUP_OK | CONNECTION_SETUP_EABORT | CONNECTION_SETUP_EUNIDENT | CONNECTION_SETUP_ENOVHOST
  | CONNECTION_SETUP_ENORECORD | CONNECTION_SETUP_ENOCONNECT | CONNECTION_SETUP_EOLDCLIENT.

Record net_addrbundle := { ab_family : Z; ab_address : bytes; ab_address_clean : bytes; ab_port : Z }.

#[export] Instance connection_setup_route_status_eq_dec : EqDecision connection_setup_route_status.
Proof. solve_decision. Defined.

(** [memchr(text, '\0', size) != NULL] for an array of [size] bytes. *)
Definition terminated (size : Z) (text : bytes) : bool := len text <? size.

(** ** Shared checks *)

Definition connection_setup_address_valid (address : net_addr) : bool :=
  bool_decide (err address = NET_OK) && ((family address =? AF_INET) || (family address =? AF_INET6)).

Definition connection_setup_bundle_valid (address : net_addrbundle) : bool :=
  ((ab_family address =? AF_INET) || (ab_family address =? AF_INET6)) && negb (ab_port address =? 0)
  && terminated (INET6_ADDRSTRLEN + 2) (ab_address address) && terminated (INET6_ADDRSTRLEN + 2) (ab_address_clean address).

Definition connection_setup_destination (endpoint : route_endpoint_snapshot) : bytes :=
  match s_target_name endpoint with [] => s_configured_address endpoint | name => name end.

Definition connection_setup_snapshot_valid (snapshot : connection_setup_snapshot) : bool :=
  terminated (CONF_ICON_B64MAX + 1) (ss_icon_b64 snapshot) && terminated PATH_MAX (ss_log_filename snapshot).

(** ** Short connections *)

Definition CONNECTION_SETUP_SHORT_PACKET_SCRATCH_SIZE : Z := BUFSIZ + ROUTE_ENDPOINT_TEXT_SIZE + 32.

Inductive connection_setup_short_action :=
  | CONNECTION_SETUP_SHORT_ABORT | CONNECTION_SETUP_SHORT_CONNECT | CONNECTION_SETUP_SHORT_RESPOND.

Record connection_setup_short_plan := {
  pl_snapshot : option connection_setup_snapshot; pl_inbound_address : option net_addrbundle;
  pl_protocol : protocol_version; pl_intent : Z; pl_pheader : bytes;
  pl_request : option bytes; pl_response : option bytes; pl_result : connection_setup_status;
}.

(** The answers of the allocations of one call. *)
Record short_allocs := {
  sa_read : nat -> bool; sa_motd : bool; sa_read_again : nat -> bool; sa_motd_again : bool; sa_payload : bool; sa_write : bool;
  sa_combined : bool; sa_request : bool; sa_response : bool;
}.

Definition connection_setup_short_packet_complete (initial : bytes) (protocol : protocol_version) : run (bool * Z) (bool * Z) :=
  match outcome (protocol_packet_length (Some initial)) with
  | None => Oob
  | Some (status, packet_size) =>
      let legacy_ping := bool_decide (protocol = PVER_LEGACYM1) || bool_decide (protocol = PVER_LEGACYM2) in
      if legacy_ping && (bool_decide (status = PROTOCOL_PACKET_AMBIGUOUS) || bool_decide (status = PROTOCOL_PACKET_COMPLETE))
      then Return (true, packet_size)
      else Next (bool_decide (status = PROTOCOL_PACKET_COMPLETE) && (packet_size <=? len initial), packet_size)
  end.

Definition connection_setup_short_plan_endpoint_valid (snapshot : connection_setup_snapshot) : bool :=
  let e := ss_endpoint snapshot in
  let p := s_inbound_proxy e in
  connection_setup_address_valid (s_address e) && negb (s_port e =? 0) && negb (s_generation_identity e =? 0)
  && terminated ROUTE_ENDPOINT_TEXT_SIZE (s_configured_address e) && terminated ROUTE_ENDPOINT_TEXT_SIZE (s_target_name e)
  && terminated ROUTE_ENDPOINT_TEXT_SIZE (s_vhost e) && negb (len (s_configured_address e) =? 0) && negb (len (s_vhost e) =? 0)
  && (negb (s_pheader e)
      || (connection_setup_address_valid (srcaddr p) && connection_setup_address_valid (dstaddr p)
          && (p_family p =? family (srcaddr p)) && (p_family p =? family (dstaddr p)))).

(** The request, [None] for the returned false. *)
Definition connection_setup_short_plan_request_payload (alloc : bool) (pheader payload : bytes) : option bytes :=
  if SIZE_MAX - len payload <? len pheader then None else
  if negb alloc then None else Some (pheader ++ payload).

Section short.
Context (I : inet) (al : short_allocs).

Definition connection_setup_short_plan_request_legacy (pheader : bytes) (endpoint : route_endpoint_snapshot) (initial : bytes)
    (packet_size : Z) (rewrite : bool) : run (option bytes) (option bytes) :=
  if len initial <? packet_size then Return None else
  match outcome (packet_read_legacy_motd (sa_motd_again al) (Some (take (Z.to_nat packet_size) initial))) with
  | None => Oob
  | Some packet =>
      match m_address packet with
      | None => Return None
      | Some a =>
          if ROUTE_ENDPOINT_TEXT_SIZE <=? len (cstr a) then Return None else
          if negb rewrite then Return (connection_setup_short_plan_request_payload (sa_request al) pheader initial) else
          let destination := connection_setup_destination endpoint in
          let destination_size := len destination in
          if (UINT16_MAX <? destination_size) || ((SIZE_MAX - 36) / 2 <? destination_size) then Return None else
          let payload_size := 36 + destination_size * 2 in
          if negb (sa_payload al) then Return None else
          match packet_write_legacy_motd {| m_address := Some destination; m_port := s_port endpoint; m_version := m_version packet |} with
          | None => Oob
          | Some payload =>
              if payload_size <? len payload then Oob else
              let written := len payload in
              if negb (written =? payload_size) then Return None else
              if SIZE_MAX - written <? len initial - packet_size then Return None else
              if negb (sa_combined al) then Return None else
              Next (connection_setup_short_plan_request_payload (sa_request al) pheader (payload ++ drop (Z.to_nat packet_size) initial))
          end
      end
  end.

(** The packet with the address and the port of the endpoint. *)
Definition readdressed (packet : p_handshake) (destination : bytes) (port : Z) : p_handshake :=
  {| id_part1 := id_part1 packet; id_part2 := id_part2 packet; nextstate := nextstate packet; version := version packet;
     address := Some destination; address_extra := address_extra packet; signature_data := signature_data packet;
     username := username packet; address_extra_length := address_extra_length packet;
     signature_data_length := signature_data_length packet; Handshake.port := port |}.

Definition connection_setup_short_plan_request_modern (pheader : bytes) (endpoint : route_endpoint_snapshot) (initial : bytes)
    (packet_size : Z) (rewrite : bool) : run (option bytes) (option bytes) :=
  if len initial <? packet_size then Return None else
  if negb rewrite then Return (connection_setup_short_plan_request_payload (sa_request al) pheader initial) else
  match outcome (packet_read (sa_read_again al) initial) with
  | None => Oob
  | Some packet =>
      match address packet with
      | None => Return None
      | Some _ =>
          if negb (nextstate packet =? CLIENT_INTENT_STATUS) then Return None else
          if negb (sa_payload al) then Return None else
          match outcome (packet_write (sa_write al) CONNECTION_SETUP_SHORT_PACKET_SCRATCH_SIZE
                           (readdressed packet (connection_setup_destination endpoint) (s_port endpoint))) with
          | None => Oob
          | Some payload =>
              if len payload =? 0 then Return None else
              match outcome (protocol_packet_length (Some payload)) with
              | None => Oob
              | Some (status, rewritten_packet_size) =>
                  if negb (bool_decide (status = PROTOCOL_PACKET_COMPLETE)) || (len payload <? rewritten_packet_size)
                     || (SIZE_MAX - rewritten_packet_size <? len initial - packet_size) then Return None else
                  if negb (sa_combined al) then Return None else
                  Next (connection_setup_short_plan_request_payload (sa_request al) pheader
                          (take (Z.to_nat rewritten_packet_size) payload ++ drop (Z.to_nat packet_size) initial))
              end
          end
      end
  end.

(** The response, [None] for the returned false. *)
Definition connection_setup_short_plan_response_commit (response : bytes) : option bytes :=
  if len response =? 0 then None else Some response.

Definition connection_setup_short_plan_response_legacy (message : bytes) (motd_version : protocol_version) (version : Z) : option bytes :=
  if negb (sa_response al) then None else
  connection_setup_short_plan_response_commit (make_motd_legacy BUFSIZ (Some message) motd_version version).

Definition connection_setup_short_plan_response_modern (snapshot : connection_setup_snapshot) (message : bytes) (version : Z)
    : run (option bytes) (option bytes) :=
  if negb (terminated (CONF_ICON_B64MAX + 1) (ss_icon_b64 snapshot)) then Return None else
  if negb (sa_response al) then Return None else
  match outcome (make_motd BUFSIZ (Some message) version (Some (ss_icon_b64 snapshot))) with
  | None => Oob
  | Some response => Next (connection_setup_short_plan_response_commit response)
  end.

Definition connection_setup_short_plan_response_unavailable (snapshot : connection_setup_snapshot) (protocol : protocol_version)
    (modern_version legacy_version : Z) : run (option bytes) (option bytes) :=
  let message := str "[Proxy] Server Temporarily Unavailable."%string in
  if bool_decide (protocol = PVER_LEGACYM3) then Return (connection_setup_short_plan_response_legacy message protocol legacy_version)
  else connection_setup_short_plan_response_modern snapshot message modern_version.

Definition connection_setup_short_result_for_route (snapshot : connection_setup_snapshot) : connection_setup_status :=
  match ss_route_status snapshot with
  | CONNECTION_SETUP_ROUTE_NO_ROUTE => CONNECTION_SETUP_ENOVHOST
  | _ => CONNECTION_SETUP_ENORECORD
  end.

(** The action, with the response and the result set by it. *)
Definition connection_setup_short_route_prepare (snapshot : connection_setup_snapshot) (protocol : protocol_version)
    (modern_version legacy_version : Z) (result : connection_setup_status)
    : option (option bytes * connection_setup_status * connection_setup_short_action) :=
  if negb (bool_decide (ss_route_status snapshot = CONNECTION_SETUP_ROUTE_READY)) then
    response ← outcome (connection_setup_short_plan_response_unavailable snapshot protocol modern_version legacy_version);
    Some (response, connection_setup_short_result_for_route snapshot,
          match response with Some _ => CONNECTION_SETUP_SHORT_RESPOND | None => CONNECTION_SETUP_SHORT_ABORT end)
  else Some (None, result, if connection_setup_short_plan_endpoint_valid snapshot then CONNECTION_SETUP_SHORT_CONNECT
                           else CONNECTION_SETUP_SHORT_ABORT).

(** The version of a ping that can be routed, [None] when the packet is refused. *)
Definition short_versions (initial : bytes) (protocol : protocol_version) (packet_size : Z) : option (option (Z * Z)) :=
  match protocol with
  | PVER_LEGACYM3 =>
      packet ← outcome (packet_read_legacy_motd (sa_motd al) (Some (take (Z.to_nat packet_size) initial)));
      Some match m_address packet with
           | None => None
           | Some a => if ROUTE_ENDPOINT_TEXT_SIZE <=? len (cstr a) then None else Some (0, m_version packet)
           end
  | PVER_MODERN2 =>
      packet ← outcome (packet_read (sa_read al) initial);
      Some match address packet with
           | None => None
           | Some _ => if negb (nextstate packet =? CLIENT_INTENT_STATUS) then None else Some (version packet, 0)
           end
  | _ => Some None
  end.

(** The header in front of the request, [None] when it is refused. *)
Definition short_pheader (endpoint : route_endpoint_snapshot) : option bytes :=
  if negb (s_pheader endpoint) then Some [] else
  let '(pheader, pheader_size) := protocol_proxy_write I (s_inbound_proxy endpoint) in
  if (pheader_size =? 0) || (PROTOPROXY_PACKETMAXLEN <? pheader_size) then None
  else Some (take (Z.to_nat pheader_size) (zero_padded (PROTOPROXY_PACKETMAXLEN + 1) pheader)).

(** A request and the response kept for a failed connection, once the ping may be
    routed. *)
Definition short_connect (snapshot : connection_setup_snapshot) (initial : bytes) (protocol : protocol_version)
    (packet_size modern_version legacy_version : Z) (pheader : bytes) : option (option bytes * option bytes) :=
  let e := ss_endpoint snapshot in
  request ← outcome (if bool_decide (protocol = PVER_LEGACYM3)
                     then connection_setup_short_plan_request_legacy pheader e initial packet_size (s_rewrite e)
                     else connection_setup_short_plan_request_modern pheader e initial packet_size (s_rewrite e));
  match request with
  | None => Some (None, None)
  | Some _ =>
      response ← outcome (connection_setup_short_plan_response_unavailable snapshot protocol modern_version legacy_version);
      Some (request, response)
  end.

(** A ping that may be routed; [plan] fills in the rest of the plan. *)
Definition short_routed (plan : bytes -> option bytes -> option bytes -> connection_setup_status -> connection_setup_short_plan)
    (s : connection_setup_snapshot) (initial : bytes) (protocol : protocol_version) (packet_size : Z)
    : option (connection_setup_short_plan * connection_setup_short_action) :=
  let abort := (plan [] None None CONNECTION_SETUP_EABORT, CONNECTION_SETUP_SHORT_ABORT) in
  versions ← short_versions initial protocol packet_size;
  match versions with
  | None => Some abort
  | Some (modern_version, legacy_version) =>
      '(response, result, action) ←
        connection_setup_short_route_prepare s protocol modern_version legacy_version CONNECTION_SETUP_EABORT;
      match action with
      | CONNECTION_SETUP_SHORT_CONNECT =>
          match short_pheader (ss_endpoint s) with
          | None => Some abort
          | Some pheader =>
              '(request, response) ← short_connect s initial protocol packet_size modern_version legacy_version pheader;
              Some match request, response with
                   | Some _, Some _ => (plan pheader request response CONNECTION_SETUP_OK, CONNECTION_SETUP_SHORT_CONNECT)
                   | _, _ => (plan pheader request response CONNECTION_SETUP_EABORT, CONNECTION_SETUP_SHORT_ABORT)
                   end
          end
      | _ => Some (plan [] None response result, action)
      end
  end.

Definition connection_setup_short_prepare (snapshot : option connection_setup_snapshot) (inbound_address : net_addrbundle)
    (initial : option bytes) : option (connection_setup_short_plan * connection_setup_short_action) :=
  let plan s a protocol intent pheader request response result :=
    {| pl_snapshot := s; pl_inbound_address := a; pl_protocol := protocol; pl_intent := intent; pl_pheader := pheader;
       pl_request := request; pl_response := response; pl_result := result |} in
  let refused := (plan None None PVER_UNIDENT 0 [] None None CONNECTION_SETUP_EABORT, CONNECTION_SETUP_SHORT_ABORT) in
  match snapshot, initial with
  | Some s, Some initial =>
      if negb (connection_setup_snapshot_valid s) || negb (connection_setup_bundle_valid inbound_address) || (len initial =? 0)
         || (BUFSIZ <? len initial) then Some refused else
      '(protocol, intent) ← outcome (protocol_identify (Some initial));
      let plan := plan snapshot (Some inbound_address) protocol intent in
      let abort := (plan [] None None CONNECTION_SETUP_EABORT, CONNECTION_SETUP_SHORT_ABORT) in
      let respond response :=
        (plan [] None response CONNECTION_SETUP_EOLDCLIENT,
         match response with Some _ => CONNECTION_SETUP_SHORT_RESPOND | None => CONNECTION_SETUP_SHORT_ABORT end) in
      '(complete, packet_size) ← (if bool_decide (protocol = PVER_UNIDENT) then Some (false, 0)
                                  else outcome (connection_setup_short_packet_complete initial protocol));
      if negb complete then Some abort else
      match protocol with
      | PVER_LEGACYM1 | PVER_LEGACYM2 =>
          Some (respond (connection_setup_short_plan_response_legacy (str "Proxy: Please use direct connect."%string) protocol 0))
      | PVER_MODERN1 =>
          if negb (intent =? CLIENT_INTENT_STATUS) then Some abort else
          response ← outcome (connection_setup_short_plan_response_modern s (str "[Proxy] Use 13w42a or later to play!"%string) 0);
          Some (respond response)
      | PVER_LEGACYM3 | PVER_MODERN2 => short_routed plan s initial protocol packet_size
      | _ => Some abort
      end
  | _, _ => Some refused
  end.
End short.

(** Both buffers of the plan are freed. *)
Definition connection_setup_short_destroy (plan : option connection_setup_short_plan) : option connection_setup_short_plan :=
  _ ← plan;
  Some {| pl_snapshot := None; pl_inbound_address := None; pl_protocol := PVER_UNIDENT; pl_intent := 0; pl_pheader := [];
          pl_request := None; pl_response := None; pl_result := CONNECTION_SETUP_OK |}.

(** ** Replies of short connections *)

Lemma motd_length src ver icon : 0 <= ver < 2 ^ 32 -> len src <= 64 -> len icon <= CONF_ICON_B64MAX ->
  len (mc_frame (0 :: mc_string (motd_text src ver icon))) <= BUFSIZ.
Proof.
  intros Hv Hs Hi. unfold CONF_ICON_B64MAX, BUFSIZ in *. pose proof (decimal_u32_length ver Hv) as Hd.
  assert (Ht : len (motd_text src ver icon) = 139 + len src + len (decimal ver) + len icon).
  { unfold motd_text. rewrite !len_app. change (len version_prefix) with 33. change (len players_middle) with 68.
    change (len favicon_prefix) with 36. change (len json_suffix) with 2. lia. }
  unfold mc_frame, mc_string. rewrite len_app. cbn [length]. rewrite Nat2Z.inj_succ, len_app.
  pose proof (int2varint_length (len (motd_text src ver icon)) ltac:(lia)).
  pose proof (int2varint_length (Z.succ (len (int2varint (len (motd_text src ver icon)) ++ motd_text src ver icon)))).
  rewrite len_app in *. lia.
Qed.

(** A reply that is ready to be sent. *)
Definition reply_ok (r : bytes) : Prop := 0 < len r <= BUFSIZ.
Definition replied (alloc : bool) (r : option bytes) : Prop :=
  match r with Some b => reply_ok b | None => alloc = false end.

Lemma commit_ok r alloc : r <> [] -> len r <= BUFSIZ -> replied alloc (connection_setup_short_plan_response_commit r).
Proof. intros Hne Hl. unfold connection_setup_short_plan_response_commit. destruct r; [done|]. split; [lens|exact Hl]. Qed.

(** The icon leaves room for every status reply, as [src/src/config.h] says. *)
Lemma response_modern_ok al s msg ver : connection_setup_snapshot_valid s = true -> 0 <= ver < 2 ^ 32 -> len msg <= 64 ->
  exists r, outcome (connection_setup_short_plan_response_modern al s msg ver) = Some r /\ replied (sa_response al) r.
Proof.
  intros Hs Hv Hm. unfold connection_setup_short_plan_response_modern. unfold connection_setup_snapshot_valid in Hs.
  apply andb_true_iff in Hs as [Hs _]. rewrite Hs. cbn [negb]. destruct (sa_response al); [|by exists None]. cbn [negb].
  unfold terminated in Hs. apply Z.ltb_lt in Hs. pose proof (motd_length msg ver (ss_icon_b64 s) Hv Hm ltac:(lia)) as Hl.
  assert (Hi : len (ss_icon_b64 s) < 2 ^ 29) by (unfold CONF_ICON_B64MAX in Hs; lia).
  pose proof (make_motd_spec BUFSIZ msg ver (Some (ss_icon_b64 s)) ltac:(unfold BUFSIZ; lia) Hv ltac:(lia) Hi) as Hsp.
  cbn [from_option id] in Hsp. cbv zeta in Hsp. rewrite Hsp. clear Hsp. eexists. split; [reflexivity|].
  replace (BUFSIZ <? len (mc_frame (0 :: mc_string (motd_text msg ver (ss_icon_b64 s))))) with false by (symmetry; apply Z.ltb_ge; exact Hl).
  apply commit_ok; [|exact Hl]. apply mc_frame_ne. unfold mc_frame in Hl. rewrite len_app in Hl. unfold BUFSIZ in Hl. lia.
Qed.

Lemma response_legacy_ok al msg v ver : v = PVER_LEGACYM1 \/ v = PVER_LEGACYM2 \/ v = PVER_LEGACYM3 -> 0 <= ver < 256 -> len msg <= 64 ->
  replied (sa_response al) (connection_setup_short_plan_response_legacy al msg v ver).
Proof.
  intros Hv Hver Hm. unfold connection_setup_short_plan_response_legacy. destruct (sa_response al); [|done]. cbn [negb].
  pose proof (make_motd_legacy_spec BUFSIZ msg v ver Hv Hver ltac:(unfold BUFSIZ; lia)) as Hs. cbv zeta in Hs. rewrite Hs. clear Hs.
  assert (Hl : len (legacy_motd_text v msg ver) <= 100).
  { pose proof (decimal_u32_length ver ltac:(lia)) as Hd. unfold legacy_motd_text.
    destruct v; rewrite ?len_app; change (len section_zero) with 4; change (len section_open) with 3; change (len section_split) with 2;
      change (len section_tail) with 3; change (len [0]) with 1; lia. }
  if_as E; [unfold BUFSIZ, UINT16_MAX in E; lia|]. apply commit_ok; [done|].
  rewrite !len_app, legacy_chars_len. cbn [length protocol_uint16_write]. unfold BUFSIZ. lia.
Qed.

Lemma response_unavailable_ok al s protocol mv lv : connection_setup_snapshot_valid s = true -> 0 <= mv < 2 ^ 32 -> 0 <= lv < 256 ->
  exists r, outcome (connection_setup_short_plan_response_unavailable al s protocol mv lv) = Some r /\ replied (sa_response al) r.
Proof.
  intros Hs Hm Hl. unfold connection_setup_short_plan_response_unavailable.
  set (msg := str _). assert (Hmsg : len msg <= 64) by (unfold msg; vm_compute; discriminate). clearbody msg.
  case_bool_decide as E; [|by apply response_modern_ok]. eexists. split; [done|]. apply response_legacy_ok; [|done..]. auto.
Qed.

(** ** Pings *)

Lemma chars_read_parsed src n off : is_bytes src -> 0 <= off -> off + 2 * Z.of_nat n <= len src ->
  exists a, legacy_chars_read src n off = Next a /\ is_bytes a /\ length a = n.
Proof.
  intros Hb. revert off. induction n as [|n IH]; intros off H1 H2; cbn [legacy_chars_read]; [exists []; by split; [|split; [constructor|]]|].
  u16_next. destruct (IH (off + 2)) as (a & -> & Ha & Hl); [lia..|]. cbn [mbind run_bind]. eexists. split; [done|].
  split; [constructor; [|done]|simpl; lia]. unfold is_byte, u8. zlia.
Qed.

Lemma motd_parsed alloc src : is_bytes src -> exists p, outcome (packet_read_legacy_motd alloc (Some src)) = Some p /\ 0 <= m_version p < 256.
Proof.
  intros Hb. unfold packet_read_legacy_motd. if_as E1; [eexists; split; [done|]; simpl; lia|]. rd_next. u16_next.
  if_as E2; [eexists; split; [done|]; simpl; lia|]. destruct alloc; cbn [negb]; [|eexists; split; [done|]; simpl; lia].
  assert (v <= (len src - 36) / 2 /\ 2 * ((len src - 36) / 2) <= len src - 36) as [Hvl Hd] by zlia. clear E2.
  destruct (chars_read_parsed src (Z.to_nat v) 32) as (a & -> & _); [done|lia..|]. cbn [mbind run_bind].
  destruct (uint32_read_next (E:=p_motd_legacy) src (32 + v * 2)) as (w & -> & _); [done|lia..|]. cbn [mbind run_bind].
  eexists. split; [done|]. simpl. lia.
Qed.

(** A complete packet of a version that is not answered at once. *)
Lemma packet_complete_ok initial protocol : is_bytes initial -> len initial <= BUFSIZ ->
  exists c n, outcome (connection_setup_short_packet_complete initial protocol) = Some (c, n) /\
    (c = true -> protocol <> PVER_LEGACYM1 -> protocol <> PVER_LEGACYM2 ->
     outcome (protocol_packet_length (Some initial)) = Some (PROTOCOL_PACKET_COMPLETE, n) /\ 1 <= n <= len initial).
Proof.
  intros Hb Hl. destruct (packet_length_ok initial Hb) as ([st n] & Hv & Hs); [unfold BUFSIZ in Hl; unfold SIZE_MAX, UINT64_MAX; lia|].
  unfold connection_setup_short_packet_complete. rewrite Hv. if_as E.
  - exists true, n. split; [done|]. intros _ H1 H2. by rewrite !bool_decide_eq_false_2 in E.
  - eexists _, n. split; [done|]. intros [Hc Hn]%andb_true_iff _ _. apply bool_decide_eq_true in Hc as ->. split; [done|]. simpl in Hs. lia.
Qed.

(** ** Requests *)

(** Text a handshake can carry as an address. *)
Definition clean_text (d : bytes) : Prop := is_cstr d /\ Forall (fun c => c <> 63) d.

(** The bytes sent to the target after the header: those received, or those
    received with the first packet readdressed to the endpoint. *)
Definition forwarded (al : short_allocs) (e : route_endpoint_snapshot) (initial : bytes) (protocol : protocol_version) (payload : bytes) : Prop :=
  if s_rewrite e then
    let d := connection_setup_destination e in
    exists n head, outcome (protocol_packet_length (Some initial)) = Some (PROTOCOL_PACKET_COMPLETE, n) /\ 1 <= n <= len initial /\
      payload = head ++ drop (Z.to_nat n) initial /\
      outcome (protocol_packet_length (Some payload)) = Some (PROTOCOL_PACKET_COMPLETE, len head) /\
      if bool_decide (protocol = PVER_LEGACYM3) then
        outcome (protocol_identify (Some payload)) = Some (legacy PVER_LEGACYM3) /\
        exists p, outcome (packet_read_legacy_motd (sa_motd_again al) (Some (take (Z.to_nat n) initial))) = Some p /\
          packet_read_legacy_motd true (Some payload) = Next {| m_address := Some d; m_port := s_port e; m_version := m_version p |}
      else
        outcome (protocol_identify (Some payload)) = Some (PVER_MODERN2, CLIENT_INTENT_STATUS) /\
        exists p, outcome (packet_read (sa_read_again al) initial) = Some p /\
          packet_read (fun _ => true) payload = Next (readdressed p d (s_port e))
  else payload = initial.

Lemma request_payload_ok alloc h payload r : connection_setup_short_plan_request_payload alloc h payload = Some r -> r = h ++ payload.
Proof. unfold connection_setup_short_plan_request_payload. split_ifs; congruence. Qed.

Definition requested (al : short_allocs) (h : bytes) (e : route_endpoint_snapshot) (initial : bytes) (protocol : protocol_version)
    (r : option bytes) : Prop :=
  forall request, r = Some request -> exists payload, request = h ++ payload /\ forwarded al e initial protocol payload.

Lemma request_kept al h e initial protocol r : s_rewrite e = false -> r = connection_setup_short_plan_request_payload (sa_request al) h initial ->
  requested al h e initial protocol r.
Proof. intros Hr -> q Hq. exists initial. split; [by apply request_payload_ok in Hq|]. unfold forwarded. by rewrite Hr. Qed.

Lemma request_legacy_ok al h e initial n : is_bytes initial -> len initial <= BUFSIZ -> 0 <= s_port e < 2 ^ 16 ->
  is_cstr (connection_setup_destination e) -> outcome (protocol_packet_length (Some initial)) = Some (PROTOCOL_PACKET_COMPLETE, n) ->
  1 <= n <= len initial ->
  exists r, outcome (connection_setup_short_plan_request_legacy al h e initial n (s_rewrite e)) = Some r /\ requested al h e initial PVER_LEGACYM3 r.
Proof.
  intros Hb Hl Hport Hc Hn Hr. unfold connection_setup_short_plan_request_legacy. if_as E1; [lia|].
  destruct (motd_parsed (sa_motd_again al) (take (Z.to_nat n) initial)) as (p & Hp & Hv); [by apply Forall_take|]. rewrite Hp.
  destruct (m_address p) as [a|]; [|by exists None]. if_as E2; [by exists None|]. destruct (s_rewrite e) eqn:Hrw; cbn [negb];
    [|eexists; split; [done|]; by apply request_kept].
  if_as E3; [by exists None|]. destruct (sa_payload al); cbn [negb]; [|by exists None].
  set (d := connection_setup_destination e) in *. set (q := {| m_address := Some d; m_port := s_port e; m_version := m_version p |}).
  assert (Hq : wf_motd q d) by (unfold wf_motd, UINT16_MAX in *; simpl; repeat split; try done; lia).
  rewrite (write_motd q d Hq), (encode_motd_len q d). if_as E4; [lia|]. rewrite Z.eqb_refl. cbn [negb].
  if_as E5; [by exists None|]. destruct (sa_combined al); cbn [negb]; [|by exists None].
  eexists. split; [done|]. intros request Hreq. apply request_payload_ok in Hreq as ->. eexists. split; [done|].
  unfold forwarded. rewrite Hrw. exists n, (encode_motd q d). destruct (motd_recognised q d (drop (Z.to_nat n) initial) Hq) as [R1 R2].
  do 4 (split; [done|]). rewrite bool_decide_eq_true_2 by done. split; [done|]. exists p. split; [done|]. by apply read_motd.
Qed.

Lemma packet_write_unallocated p a cap : wf_packet p a -> packet_write false cap p = Return [].
Proof.
  intros Hp. pose proof Hp as (_ & _ & Ha & (Hc & _) & _). unfold packet_write. rewrite Ha, cstr_id by done. if_as E; [done|].
  destruct (wf_extra p a Hp) as [-> _]. by destruct (wf_second p a Hp) as [-> _].
Qed.

(** What is written for a packet that was read, with another address. *)
Lemma packet_write_readdressed alloc p a d port' : wf_packet p a -> clean_text d -> d <> [] -> 0 <= port' < 2 ^ 16 ->
  let p' := readdressed p d port' in
  packet_write alloc CONNECTION_SETUP_SHORT_PACKET_SCRATCH_SIZE p' = Return [] \/
  (wf_packet p' d /\ packet_write alloc CONNECTION_SETUP_SHORT_PACKET_SCRATCH_SIZE p' = Next (encode p' d)).
Proof.
  intros Hp [Hc Hq] Hne Hport p'.
  destruct (decide (len d + address_extra_length p <= PROTOHANDSHAKE_ADDRESSMAXLEN)) as [Hfit|Hfit].
  - assert (Hp' : wf_packet p' d) by (by eapply (readdressed_wf p)). destruct alloc.
    + rewrite (packet_write_encode _ _ _ Hp'). if_as E; [by left|by right].
    + left. by eapply packet_write_unallocated.
  - left. unfold packet_write. cbn [p' readdressed address address_extra_length]. rewrite cstr_id by done. by if_as E; [|lia].
Qed.

Lemma request_modern_ok al h e initial n i : is_bytes initial -> len initial <= BUFSIZ -> 0 <= s_port e < 2 ^ 16 ->
  clean_text (connection_setup_destination e) -> connection_setup_destination e <> [] ->
  outcome (protocol_identify (Some initial)) = Some (PVER_MODERN2, i) ->
  outcome (protocol_packet_length (Some initial)) = Some (PROTOCOL_PACKET_COMPLETE, n) -> 1 <= n <= len initial ->
  exists r, outcome (connection_setup_short_plan_request_modern al h e initial n (s_rewrite e)) = Some r /\ requested al h e initial PVER_MODERN2 r.
Proof.
  intros Hb Hl Hport Hd Hne Hi Hn Hr. unfold connection_setup_short_plan_request_modern. if_as E1; [lia|].
  destruct (s_rewrite e) eqn:Hrw; cbn [negb]; [|eexists; split; [done|]; by apply request_kept].
  destruct (packet_read_parsed (sa_read_again al) initial Hb) as (p & Hp & Hpp). rewrite Hp.
  destruct (address p) as [a|] eqn:Ha; [|by exists None]. if_as E2; [by exists None|]. destruct (sa_payload al); cbn [negb]; [|by exists None].
  assert (Hns : nextstate p = CLIENT_INTENT_STATUS) by lia.
  pose proof (parsed_wf p a Hpp Ha ltac:(by rewrite Hns)) as Hw. destruct (parsed_identified _ _ _ _ _ Hi Hp Ha) as [Hid Hver].
  set (d := connection_setup_destination e) in *.
  destruct (packet_write_readdressed (sa_write al) p a d (s_port e) Hw Hd Hne Hport) as [->|[Hw' ->]]; cbn [outcome]; [by exists None|].
  set (p' := readdressed p d (s_port e)) in *. assert (Hh : is_handshake p') by (split; [done|]; split; [done|]; by left).
  pose proof (encode_recognised p' d [] Hw' Hh) as [Hel _]. rewrite app_nil_r in Hel. rewrite Hel.
  replace (has_login (nextstate p')) with false by (cbn [p' readdressed nextstate]; by rewrite Hns).
  if_as E3; [by exists None|]. cbn [negb bool_decide]. if_as E4; [by exists None|]. destruct (sa_combined al); cbn [negb]; [|by exists None].
  eexists. split; [done|]. intros request Hreq. apply request_payload_ok in Hreq as ->. eexists. split; [done|].
  unfold forwarded. rewrite Hrw. unfold encode. rewrite take_app_le, take_ge by lia. exists n, (mc_frame (encode1 p' d)).
  destruct (frame_recognised p' d (drop (Z.to_nat n) initial) Hw' Hh) as [R1 R2].
  split; [done|]. split; [done|]. split; [done|]. split; [by apply R2|]. rewrite bool_decide_eq_false_2 by done.
  split; [by rewrite R1; cbn [p' readdressed nextstate]; rewrite Hns|]. exists p. split; [done|].
  apply (read_frames _ p' d (drop (Z.to_nat n) initial)); [done|apply at_off_start|]. cbn [p' readdressed nextstate]. by rewrite Hns.
Qed.

(** ** The plan *)

(** The widths and the text of the fields of a snapshot. *)
Definition address_typed (a : net_addr) : Prop :=
  is_bytes (addr a) /\ length (addr a) = (if family a =? AF_INET then 4%nat else 16%nat).
Definition endpoint_typed (e : route_endpoint_snapshot) : Prop :=
  0 <= s_port e < 2 ^ 16 /\ clean_text (connection_setup_destination e) /\
  let p := s_inbound_proxy e in
  address_typed (srcaddr p) /\ address_typed (dstaddr p) /\ 0 <= srcport p < 2 ^ 16 /\ 0 <= dstport p < 2 ^ 16.

Lemma endpoint_destination s : connection_setup_short_plan_endpoint_valid s = true -> connection_setup_destination (ss_endpoint s) <> [].
Proof.
  unfold connection_setup_short_plan_endpoint_valid, connection_setup_destination. intros H.
  destruct (s_target_name (ss_endpoint s)); [|done]. intros Hc. rewrite Hc in H. rewrite !andb_false_r in H. done.
Qed.

Lemma endpoint_proxy s : connection_setup_short_plan_endpoint_valid s = true -> endpoint_typed (ss_endpoint s) ->
  s_pheader (ss_endpoint s) = true -> wf_proxy (s_inbound_proxy (ss_endpoint s)).
Proof.
  unfold connection_setup_short_plan_endpoint_valid, endpoint_typed, address_typed, connection_setup_address_valid.
  set (p := s_inbound_proxy _). intros [_ H]%andb_true_iff (_ & _ & [Hs1 Hs2] & [Hd1 Hd2] & Hp1 & Hp2) Hh. rewrite Hh in H. cbn [negb orb] in H.
  rewrite !andb_true_iff, !bool_decide_eq_true, !orb_true_iff, !Z.eqb_eq in H. destruct H as [[[[Hse Hsf] [Hde Hdf]] Hf1] Hf2].
  rewrite <- Hf1 in Hs2, Hsf. rewrite <- Hf2 in Hd2. unfold wf_proxy. auto 15.
Qed.

(** The header in front of a request: the proxy line of the connection. *)
Definition headed (I : inet) (e : route_endpoint_snapshot) (h : bytes) : Prop :=
  if s_pheader e then 0 < len h <= PROTOPROXY_PACKETMAXLEN /\ protocol_proxy_read I (Some h) = Next (s_inbound_proxy e) else h = [].

Lemma short_pheader_ok I s : inet_laws I -> connection_setup_short_plan_endpoint_valid s = true -> endpoint_typed (ss_endpoint s) ->
  exists h, short_pheader I (ss_endpoint s) = Some h /\ headed I (ss_endpoint s) h.
Proof.
  intros HI Hv Ht. unfold short_pheader, headed. destruct (s_pheader (ss_endpoint s)) eqn:Hh; cbn [negb]; [|by exists []].
  destruct (proxy_write_read I _ HI (endpoint_proxy s Hv Ht Hh)) as (line & -> & Hl & Hr). if_as E; [lia|].
  exists line. split; [|done]. f_equal. unfold zero_padded. rewrite take_app_le, take_ge by lia. done.
Qed.

(** Versions of a ping that is routed, and of one that is answered at once. *)
Definition routed (protocol : protocol_version) : Prop := protocol = PVER_LEGACYM3 \/ protocol = PVER_MODERN2.
Definition outdated (protocol : protocol_version) : Prop :=
  protocol = PVER_LEGACYM1 \/ protocol = PVER_LEGACYM2 \/ protocol = PVER_MODERN1.

Definition plan_sound (I : inet) (al : short_allocs) (s : connection_setup_snapshot) (initial : bytes)
    (pl : connection_setup_short_plan) (action : connection_setup_short_action) : Prop :=
  match action with
  | CONNECTION_SETUP_SHORT_CONNECT =>
      pl_result pl = CONNECTION_SETUP_OK /\ routed (pl_protocol pl) /\ ss_route_status s = CONNECTION_SETUP_ROUTE_READY /\
      connection_setup_short_plan_endpoint_valid s = true /\ headed I (ss_endpoint s) (pl_pheader pl) /\
      (exists payload, pl_request pl = Some (pl_pheader pl ++ payload) /\ forwarded al (ss_endpoint s) initial (pl_protocol pl) payload) /\
      exists r, pl_response pl = Some r /\ reply_ok r
  | CONNECTION_SETUP_SHORT_RESPOND =>
      pl_request pl = None /\ (exists r, pl_response pl = Some r /\ reply_ok r) /\
      ((outdated (pl_protocol pl) /\ pl_result pl = CONNECTION_SETUP_EOLDCLIENT) \/
       (routed (pl_protocol pl) /\ ss_route_status s <> CONNECTION_SETUP_ROUTE_READY /\
        pl_result pl = connection_setup_short_result_for_route s))
  | CONNECTION_SETUP_SHORT_ABORT => pl_result pl <> CONNECTION_SETUP_OK
  end.

Lemma short_versions_ok al initial protocol n : is_bytes initial ->
  exists v, short_versions al initial protocol n = Some v /\ (forall mv lv, v = Some (mv, lv) -> 0 <= mv < 2 ^ 32 /\ 0 <= lv < 256).
Proof.
  intros Hb. destruct protocol; cbn [short_versions]; try (by exists None).
  - destruct (motd_parsed (sa_motd al) (take (Z.to_nat n) initial)) as (p & -> & Hv); [by apply Forall_take|]. eexists. split; [done|].
    intros mv lv H. destruct (m_address p); [|done]. destruct (_ <=? _); simplify_eq. lia.
  - destruct (packet_read_parsed (sa_read al) initial Hb) as (p & -> & Hp). eexists. split; [done|].
    intros mv lv H. destruct (address p) eqn:Ha; [|done]. destruct (negb _); simplify_eq. unfold parsed in Hp. rewrite Ha in Hp.
    destruct Hp as [[] _]. lia.
Qed.

Lemma short_connect_ok al s initial protocol i n mv lv h : is_bytes initial -> len initial <= BUFSIZ -> endpoint_typed (ss_endpoint s) ->
  connection_setup_short_plan_endpoint_valid s = true -> connection_setup_snapshot_valid s = true -> routed protocol ->
  outcome (protocol_identify (Some initial)) = Some (protocol, i) ->
  outcome (protocol_packet_length (Some initial)) = Some (PROTOCOL_PACKET_COMPLETE, n) -> 1 <= n <= len initial ->
  0 <= mv < 2 ^ 32 -> 0 <= lv < 256 ->
  exists q r, short_connect al s initial protocol n mv lv h = Some (q, r) /\ requested al h (ss_endpoint s) initial protocol q /\
    (forall b, r = Some b -> reply_ok b).
Proof.
  intros Hb Hl (Hport & Hd & _) Hev Hsv Hr Hi Hn Hnr Hmv Hlv. unfold short_connect.
  assert (exists q, outcome (if bool_decide (protocol = PVER_LEGACYM3)
                     then connection_setup_short_plan_request_legacy al h (ss_endpoint s) initial n (s_rewrite (ss_endpoint s))
                     else connection_setup_short_plan_request_modern al h (ss_endpoint s) initial n (s_rewrite (ss_endpoint s))) = Some q /\
            requested al h (ss_endpoint s) initial protocol q) as (q & -> & Hq).
  { destruct Hr as [-> | ->].
    - apply request_legacy_ok; try done. apply Hd.
    - apply (request_modern_ok _ _ _ _ _ i); try done. by apply endpoint_destination. }
  cbn [mbind option_bind]. destruct q as [q|]; [|by exists None, None].
  destruct (response_unavailable_ok al s protocol mv lv) as (r & -> & Hrep); [done..|]. cbn [mbind option_bind].
  exists (Some q), r. split; [done|]. split; [done|]. by intros b ->.
Qed.

Lemma short_routed_ok I al s inbound initial protocol i n : inet_laws I -> is_bytes initial -> len initial <= BUFSIZ ->
  endpoint_typed (ss_endpoint s) -> connection_setup_snapshot_valid s = true -> routed protocol ->
  outcome (protocol_identify (Some initial)) = Some (protocol, i) ->
  outcome (protocol_packet_length (Some initial)) = Some (PROTOCOL_PACKET_COMPLETE, n) -> 1 <= n <= len initial ->
  exists pl action, short_routed I al (fun pheader request response result =>
      {| pl_snapshot := Some s; pl_inbound_address := Some inbound; pl_protocol := protocol; pl_intent := i; pl_pheader := pheader;
         pl_request := request; pl_response := response; pl_result := result |}) s initial protocol n = Some (pl, action) /\
    plan_sound I al s initial pl action.
Proof.
  intros HI Hb Hl Ht Hsv Hr Hi Hn Hnr. unfold short_routed.
  destruct (short_versions_ok al initial protocol n Hb) as (v & -> & Hv). cbn [mbind option_bind].
  destruct v as [[mv lv]|]; [|by eexists _, _]. specialize (Hv mv lv eq_refl) as [Hmv Hlv]. unfold connection_setup_short_route_prepare.
  destruct (decide (ss_route_status s = CONNECTION_SETUP_ROUTE_READY)) as [Hst|Hst];
    [rewrite bool_decide_eq_true_2 by done|rewrite bool_decide_eq_false_2 by done]; cbn [negb].
  - cbn [mbind option_bind]. destruct (connection_setup_short_plan_endpoint_valid s) eqn:Hev; [|by eexists _, _].
    destruct (short_pheader_ok I s HI Hev Ht) as (h & -> & Hh).
    destruct (short_connect_ok al s initial protocol i n mv lv h) as (q & r & -> & Hq & Hrep); [done..|]. cbn [mbind option_bind].
    destruct q as [q|]; [|by eexists _, _]. destruct r as [r|]; [|by eexists _, _]. eexists _, _. split; [done|].
    destruct (Hq q eq_refl) as (payload & -> & Hf). repeat (split; [done|]). split; [by exists payload|]. exists r. split; [done|]. by apply Hrep.
  - destruct (response_unavailable_ok al s protocol mv lv) as (r & -> & Hrep); [done..|]. cbn [mbind option_bind].
    destruct r as [r|]; eexists _, _; (split; [done|]).
    + split; [done|]. split; [by exists r|]. by right.
    + cbn. unfold connection_setup_short_result_for_route. by destruct (ss_route_status s).
Qed.

(** C27: the plan of a short connection is sound on any received bytes: it is made
    without a memory error; a connection is only planned for a complete routable
    ping with a valid ready endpoint, and the bytes sent to the target are the
    proxy line of the connection followed by what the client sent, readdressed to
    the endpoint when the route says so, with every byte after the first packet
    kept; a reply fits its buffer and is only sent to outdated clients and for
    routes that are not ready, with the matching result. *)
Theorem short_prepare_sound I al s inbound initial : inet_laws I -> is_bytes initial -> endpoint_typed (ss_endpoint s) ->
  exists pl action, connection_setup_short_prepare I al (Some s) inbound (Some initial) = Some (pl, action) /\
    plan_sound I al s initial pl action.
Proof.
  intros HI Hb Ht. unfold connection_setup_short_prepare. if_as E0; [by eexists _, _|]. rewrite !orb_false_iff, !negb_false_iff in E0.
  destruct E0 as [[[Hsv _] _] Hlen]. apply Z.ltb_ge in Hlen.
  destruct (outcome_Some _ (protocol_identify_safe initial Hb)) as [[protocol i] Hi]. rewrite Hi. cbn [mbind option_bind].
  destruct (packet_complete_ok initial protocol Hb Hlen) as (c & n & Hc & Hcn).
  destruct (decide (protocol = PVER_UNIDENT)) as [->|Hu]; [by eexists _, _|]. rewrite bool_decide_eq_false_2, Hc by done. cbn [mbind option_bind].
  destruct c; cbn [negb]; [|by eexists _, _]. specialize (Hcn eq_refl).
  assert (Hout : forall r alloc, outdated protocol -> replied alloc r ->
    plan_sound I al s initial {| pl_snapshot := Some s; pl_inbound_address := Some inbound; pl_protocol := protocol; pl_intent := i;
      pl_pheader := []; pl_request := None; pl_response := r; pl_result := CONNECTION_SETUP_EOLDCLIENT |}
      match r with Some _ => CONNECTION_SETUP_SHORT_RESPOND | None => CONNECTION_SETUP_SHORT_ABORT end).
  { intros [r|] alloc Ho Hr; [|done]. split; [done|]. split; [by exists r|]. by left. }
  destruct protocol; try done; try (by eexists _, _).
  - eexists _, _. split; [done|]. apply (Hout _ (sa_response al)); [by left|]. apply response_legacy_ok; [auto|done|vm_compute; discriminate].
  - eexists _, _. split; [done|]. apply (Hout _ (sa_response al)); [by right; left|]. apply response_legacy_ok; [auto|done|vm_compute; discriminate].
  - apply short_routed_ok; try done; [by left|by apply Hcn..].
  - if_as E1; [by eexists _, _|].
    destruct (response_modern_ok al s (str "[Proxy] Use 13w42a or later to play!"%string) 0) as (r & -> & Hr); [done|done|vm_compute; discriminate|].
    eexists _, _. split; [done|]. apply (Hout _ (sa_response al)); [by right; right|done].
  - apply short_routed_ok; try done; [by right|by apply Hcn..].
Qed.

(** ** Pings that get through *)

Definition all_allocs : short_allocs :=
  {| sa_read _ := true; sa_motd := true; sa_read_again _ := true; sa_motd_again := true; sa_payload := true; sa_write := true;
     sa_combined := true; sa_request := true; sa_response := true |}.

(** A status ping that is read whole and fits with the address of the endpoint. *)
Definition routable (e : route_endpoint_snapshot) (initial : bytes) (protocol : protocol_version) (n : Z) : Prop :=
  match protocol with
  | PVER_LEGACYM3 => exists p a, outcome (packet_read_legacy_motd true (Some (take (Z.to_nat n) initial))) = Some p /\
      m_address p = Some a /\ len (cstr a) < ROUTE_ENDPOINT_TEXT_SIZE
  | PVER_MODERN2 => exists p a, outcome (packet_read (fun _ => true) initial) = Some p /\ address p = Some a /\
      nextstate p = CLIENT_INTENT_STATUS /\
      len (connection_setup_destination e) + address_extra_length p <= PROTOHANDSHAKE_ADDRESSMAXLEN
  | _ => False
  end.

Lemma destination_size s : connection_setup_short_plan_endpoint_valid s = true ->
  len (connection_setup_destination (ss_endpoint s)) < ROUTE_ENDPOINT_TEXT_SIZE.
Proof.
  unfold connection_setup_short_plan_endpoint_valid, connection_setup_destination, terminated.
  rewrite !andb_true_iff, !Z.ltb_lt. intros H. destruct (s_target_name _); apply H.
Qed.

Lemma request_payload_some h payload : len h <= PROTOPROXY_PACKETMAXLEN -> len payload <= 2 * BUFSIZ ->
  connection_setup_short_plan_request_payload true h payload = Some (h ++ payload).
Proof.
  intros Hh Hp. unfold connection_setup_short_plan_request_payload, PROTOPROXY_PACKETMAXLEN, BUFSIZ in *.
  if_as E; [unfold SIZE_MAX, UINT64_MAX in E; lia|done].
Qed.

Lemma request_legacy_some s h initial n : is_bytes initial -> len initial <= BUFSIZ -> endpoint_typed (ss_endpoint s) ->
  connection_setup_short_plan_endpoint_valid s = true -> routable (ss_endpoint s) initial PVER_LEGACYM3 n ->
  1 <= n <= len initial -> len h <= PROTOPROXY_PACKETMAXLEN ->
  exists r, outcome (connection_setup_short_plan_request_legacy all_allocs h (ss_endpoint s) initial n (s_rewrite (ss_endpoint s))) = Some (Some r).
Proof.
  intros Hb Hl (Hport & [Hc _] & _) Hev (p & a & Hp & Ha & Hal) Hn Hh. unfold connection_setup_short_plan_request_legacy. if_as E1; [lia|].
  cbn [sa_motd_again sa_payload sa_combined sa_request all_allocs negb]. rewrite Hp, Ha. if_as E2; [lia|].
  destruct (s_rewrite (ss_endpoint s)); cbn [negb]; [|rewrite request_payload_some by (unfold BUFSIZ in *; lia); by eexists].
  pose proof (destination_size s Hev) as Hd. set (d := connection_setup_destination _) in *. unfold ROUTE_ENDPOINT_TEXT_SIZE in *.
  if_as E3; [unfold ADDRESS_MAXLEN in Hd; unfold UINT16_MAX, SIZE_MAX, UINT64_MAX in E3; zlia|].
  set (q := {| m_address := Some d; m_port := s_port (ss_endpoint s); m_version := m_version p |}).
  destruct (motd_parsed true (take (Z.to_nat n) initial)) as (p0 & Hp0 & Hv); [by apply Forall_take|].
  assert (Hq : wf_motd q d) by (unfold wf_motd; simpl; repeat split; try done; simplify_eq; unfold ADDRESS_MAXLEN in *; lia).
  rewrite (write_motd q d Hq), (encode_motd_len q d). if_as E4; [lia|]. rewrite Z.eqb_refl. cbn [negb].
  if_as E5; [unfold SIZE_MAX, UINT64_MAX, BUFSIZ, ADDRESS_MAXLEN in *; lia|].
  rewrite request_payload_some; [by eexists|done|]. rewrite len_app, encode_motd_len, length_drop. unfold BUFSIZ, ADDRESS_MAXLEN in *. lia.
Qed.

Lemma request_modern_some s h initial n i : is_bytes initial -> len initial <= BUFSIZ -> endpoint_typed (ss_endpoint s) ->
  connection_setup_short_plan_endpoint_valid s = true -> outcome (protocol_identify (Some initial)) = Some (PVER_MODERN2, i) ->
  routable (ss_endpoint s) initial PVER_MODERN2 n -> 1 <= n <= len initial -> len h <= PROTOPROXY_PACKETMAXLEN ->
  exists r, outcome (connection_setup_short_plan_request_modern all_allocs h (ss_endpoint s) initial n (s_rewrite (ss_endpoint s))) = Some (Some r).
Proof.
  intros Hb Hl (Hport & [Hc Hq] & _) Hev Hi (p & a & Hp & Ha & Hns & Hfit) Hn Hh. unfold connection_setup_short_plan_request_modern. if_as E1; [lia|].
  cbn [sa_read_again sa_payload sa_combined sa_request sa_write all_allocs negb].
  destruct (s_rewrite (ss_endpoint s)); cbn [negb]; [|rewrite request_payload_some by (unfold BUFSIZ in *; lia); by eexists].
  rewrite Hp, Ha. if_as E2; [lia|]. destruct (packet_read_parsed (fun _ => true) initial Hb) as (p0 & Hp0 & Hpp). rewrite Hp in Hp0.
  simplify_eq. pose proof (parsed_wf p0 a Hpp Ha ltac:(by rewrite Hns)) as Hw. destruct (parsed_identified _ _ _ _ _ Hi Hp Ha) as [Hid Hver].
  pose proof (endpoint_destination s Hev) as Hne. set (d := connection_setup_destination _) in *.
  set (p' := readdressed p0 d (s_port (ss_endpoint s))). assert (Hw' : wf_packet p' d) by (by eapply (readdressed_wf p0)).
  assert (Hh' : is_handshake p') by (split; [done|]; split; [done|]; by left).
  destruct (encode1_shape p' d Hw' Hh') as (mid & _ & _ & L1). assert (L2 : encode2 p' = [0]).
  { destruct Hw as (_ & _ & _ & _ & Hlog). unfold wf_login in Hlog. unfold encode2, packet_write_part2. cbn [p' readdressed nextstate id_part2].
    rewrite Hns in *. cbn [has_login] in *. destruct Hlog as (_ & _ & _ & ->). done. }
  assert (L : len (mc_frame (encode1 p' d)) <= 3100) by (unfold mc_frame; rewrite len_app; pose proof (int2varint_length (len (encode1 p' d)) ltac:(lia)); lia).
  rewrite (packet_write_encode _ _ _ Hw'). replace (CONNECTION_SETUP_SHORT_PACKET_SCRATCH_SIZE <? len (encode p' d)) with false.
  2:{ symmetry. apply Z.ltb_ge. unfold encode. rewrite L2, len_app. change (len (mc_frame [0])) with 2.
      unfold CONNECTION_SETUP_SHORT_PACKET_SCRATCH_SIZE, BUFSIZ, ROUTE_ENDPOINT_TEXT_SIZE, ADDRESS_MAXLEN. lia. }
  cbn [outcome]. pose proof (encode_recognised p' d [] Hw' Hh') as [Hel _]. rewrite app_nil_r in Hel. rewrite Hel.
  replace (has_login (nextstate p')) with false by (cbn [p' readdressed nextstate]; by rewrite Hns).
  assert (Hle : len (mc_frame (encode1 p' d)) + 2 = len (encode p' d)) by (unfold encode; rewrite L2, len_app; done).
  if_as E3; [lia|]. rewrite bool_decide_eq_true_2 by done. cbn [negb orb]. if_as E4; [unfold BUFSIZ, SIZE_MAX, UINT64_MAX in *; lia|].
  rewrite request_payload_some; [by eexists|done|]. rewrite len_app, length_take, length_drop. unfold BUFSIZ in *. lia.
Qed.

Lemma short_routed_connects I plan s initial protocol i n : inet_laws I -> is_bytes initial -> len initial <= BUFSIZ ->
  endpoint_typed (ss_endpoint s) -> connection_setup_snapshot_valid s = true ->
  ss_route_status s = CONNECTION_SETUP_ROUTE_READY -> connection_setup_short_plan_endpoint_valid s = true ->
  outcome (protocol_identify (Some initial)) = Some (protocol, i) -> routable (ss_endpoint s) initial protocol n -> 1 <= n <= len initial ->
  exists pl, short_routed I all_allocs plan s initial protocol n = Some (pl, CONNECTION_SETUP_SHORT_CONNECT).
Proof.
  intros HI Hb Hl Ht Hsv Hst Hev Hi Hr Hn. unfold short_routed.
  destruct (short_versions_ok all_allocs initial protocol n Hb) as (v & Hv & Hvr).
  assert (exists mv lv, v = Some (mv, lv)) as (mv & lv & ->).
  { destruct protocol; try done; cbn [short_versions all_allocs sa_motd sa_read] in Hv.
    - destruct Hr as (p & a & Hp & Ha & Hal). rewrite Hp in Hv. cbn [mbind option_bind] in Hv. rewrite Ha in Hv.
      replace (ROUTE_ENDPOINT_TEXT_SIZE <=? len (cstr a)) with false in Hv by lia. simplify_eq. by eexists _, _.
    - destruct Hr as (p & a & Hp & Ha & Hns & _). rewrite Hp in Hv. cbn [mbind option_bind] in Hv. rewrite Ha, Hns in Hv.
      cbn in Hv. simplify_eq. by eexists _, _. }
  specialize (Hvr mv lv eq_refl) as [Hmv Hlv]. rewrite Hv. cbn [mbind option_bind]. unfold connection_setup_short_route_prepare.
  rewrite bool_decide_eq_true_2 by done. cbn [negb mbind option_bind]. rewrite Hev.
  destruct (short_pheader_ok I s HI Hev Ht) as (h & -> & Hh). assert (Hhl : len h <= PROTOPROXY_PACKETMAXLEN).
  { unfold headed in Hh. destruct (s_pheader _); [lia|]. by subst. }
  destruct (response_unavailable_ok all_allocs s protocol mv lv Hsv Hmv Hlv) as (r & Hrr & Hrep). destruct r as [r|]; [|done].
  assert (exists q, short_connect all_allocs s initial protocol n mv lv h = Some (Some q, Some r)) as [q Hq]; [|rewrite Hq; by eexists].
  unfold short_connect. destruct protocol; try done; [rewrite bool_decide_eq_true_2 by done|rewrite bool_decide_eq_false_2 by done].
  - destruct (request_legacy_some s h initial n) as [q ->]; [done..|]. cbn [mbind option_bind]. rewrite Hrr. by eexists.
  - destruct (request_modern_some s h initial n i) as [q ->]; [done..|]. cbn [mbind option_bind]. rewrite Hrr. by eexists.
Qed.

(** C28: a server-list ping reaches its target: when memory is available, a complete
    status ping that can be read and that fits with the address of its ready,
    valid endpoint is always forwarded. *)
Theorem short_prepare_connects I s inbound initial protocol i n : inet_laws I -> is_bytes initial -> 0 < len initial <= BUFSIZ ->
  endpoint_typed (ss_endpoint s) -> connection_setup_snapshot_valid s = true -> connection_setup_bundle_valid inbound = true ->
  ss_route_status s = CONNECTION_SETUP_ROUTE_READY -> connection_setup_short_plan_endpoint_valid s = true ->
  outcome (protocol_identify (Some initial)) = Some (protocol, i) ->
  outcome (protocol_packet_length (Some initial)) = Some (PROTOCOL_PACKET_COMPLETE, n) -> routable (ss_endpoint s) initial protocol n ->
  exists pl, connection_setup_short_prepare I all_allocs (Some s) inbound (Some initial) = Some (pl, CONNECTION_SETUP_SHORT_CONNECT).
Proof.
  intros HI Hb Hl Ht Hsv Hbv Hst Hev Hi Hn Hr. unfold connection_setup_short_prepare. rewrite Hsv, Hbv. if_as E0; [cbn in E0; lia|].
  rewrite Hi. cbn [mbind option_bind]. assert (Hpr : routed protocol) by (destruct protocol; try done; by (left + right)).
  assert (Hnr : 1 <= n <= len initial).
  { destruct (packet_length_ok initial Hb) as (v & Hv & Hvs); [unfold BUFSIZ in Hl; unfold SIZE_MAX, UINT64_MAX; lia|]. by simplify_eq. }
  unfold connection_setup_short_packet_complete. rewrite Hn.
  assert (exists q, short_routed I all_allocs (fun pheader request response result =>
      {| pl_snapshot := Some s; pl_inbound_address := Some inbound; pl_protocol := protocol; pl_intent := i; pl_pheader := pheader;
         pl_request := request; pl_response := response; pl_result := result |}) s initial protocol n
      = Some (q, CONNECTION_SETUP_SHORT_CONNECT)) as (q & Hq).
  { apply (short_routed_connects _ _ _ _ _ i); try done. lia. }
  exists q. destruct Hpr as [->| ->]; cbn [bool_decide decide]; rewrite !bool_decide_eq_false_2, bool_decide_eq_true_2 by done;
    replace (n <=? len initial) with true by lia; exact Hq.
Qed.

Definition sample_snapshot : connection_setup_snapshot := {|
  ss_endpoint := {| s_address := {| family := AF_INET; err := NET_OK; addr := [10; 0; 0; 9] |}; s_configured_address := [97; 46; 98];
                    s_destination_index := 0; s_generation_identity := 1; s_inbound_proxy := Proxy.sample_proxy; s_port := 25566;
                    s_pheader := true; s_rewrite := true; s_target_name := []; s_vhost := [99] |};
  ss_icon_b64 := []; ss_log_filename := [47; 108]; ss_log_level := 0; ss_route_status := CONNECTION_SETUP_ROUTE_READY |}.
Definition sample_inbound : net_addrbundle :=
  {| ab_family := AF_INET; ab_address := [49]; ab_address_clean := [49]; ab_port := 40000 |}.
(** A status handshake followed by the status request. *)
Definition sample_request : bytes := sample_status ++ [1; 0].

Lemma sample_endpoint_typed : endpoint_typed (ss_endpoint sample_snapshot).
Proof. repeat split; simpl; try lia; try bytes_ok; repeat (constructor; [simpl; lia|]); constructor. Qed.

Lemma short_prepare_sound_witness :
  exists pl action, connection_setup_short_prepare hex_inet all_allocs (Some sample_snapshot) sample_inbound (Some sample_request)
    = Some (pl, action) /\ plan_sound hex_inet all_allocs sample_snapshot sample_request pl action.
Proof. apply short_prepare_sound; [apply hex_inet_laws|bytes_ok|apply sample_endpoint_typed]. Defined.

Lemma short_prepare_connects_witness :
  exists pl, connection_setup_short_prepare hex_inet all_allocs (Some sample_snapshot) sample_inbound (Some sample_request)
    = Some (pl, CONNECTION_SETUP_SHORT_CONNECT).
Proof.
  apply (short_prepare_connects hex_inet sample_snapshot sample_inbound sample_request PVER_MODERN2 CLIENT_INTENT_STATUS 8);
    [apply hex_inet_laws|bytes_ok|done|apply sample_endpoint_typed|vm_compute; reflexivity..|].
  eexists _, _. split; [vm_compute; reflexivity|]. split; [reflexivity|]. split; [reflexivity|]. vm_compute. discriminate.
Defined.
