(* ===== verification/SetupLong.v ===== *)
(** * Connection setup: long connections ([src/src/connection/setup_long.c])

    A worker process prepares a login or a transfer: it connects to the target,
    within a deadline, and leaves behind both sockets and the seed, the bytes that
    the relay sends to the target first; or it tells the client why not and closes
    everything.  The kernel is given by its answers: system calls that were
    interrupted are listed before the one that was not, which is always there; a
    send that has no answer failed.  What the worker does to descriptors is a trace
    of events. *)

From Stdlib Require Import String.
From S2P Require Import Prelude Basic Protocol HandshakeLegacy Handshake HandshakeParsed Proxy TimeUtil RouteTable Endpoint Setup.

Definition CONNECTION_SETUP_LONG_REWRITE_BUFFER_SIZE : Z := BUFSIZ + ROUTE_ENDPOINT_TEXT_SIZE + 32.
Definition CONNECTION_SETUP_LONG_PENDING_MAX : Z := PROTOPROXY_PACKETMAXLEN + BUFSIZ + ROUTE_ENDPOINT_TEXT_SIZE + 32.
Definition CONNECTION_SETUP_LONG_CONNECT_TIMEOUT_SEC : Z := 5.

Inductive event :=
  | E_open (fd : Z) | E_connect (fd fam port : Z) (address : bytes) | E_poll (fd milliseconds : Z)
  | E_send (fd : Z) (data : bytes) | E_close (fd : Z).

(** ** Connecting ([src/src/network.c]) *)

Inductive net_connect_status :=
  | NET_CONNECT_OK | NET_CONNECT_PENDING | NET_CONNECT_FAILURE | NET_CONNECT_BAD_ARGUMENT | NET_CONNECT_INTERNAL.
#[export] Instance net_connect_status_eq_dec : EqDecision net_connect_status.
Proof. solve_decision. Defined.

Inductive connect_answer := Connected | In_progress | Refused.

(** The status and the descriptor, -1 for none. *)
Definition net_connect_nonblocking (opened : option Z) (connected : connect_answer) (address : net_addr) (port : Z)
    : net_connect_status * Z * list event :=
  if negb (bool_decide (err address = NET_OK)) || (negb (family address =? AF_INET) && negb (family address =? AF_INET6))
  then (NET_CONNECT_BAD_ARGUMENT, -1, []) else
  match opened with
  | None => (NET_CONNECT_INTERNAL, -1, [])
  | Some fd =>
      let tried := [E_open fd; E_connect fd (family address) port (addr address)] in
      match connected with
      | Connected => (NET_CONNECT_OK, fd, tried)
      | In_progress => (NET_CONNECT_PENDING, fd, tried)
      | Refused => (NET_CONNECT_FAILURE, -1, tried ++ [E_close fd])
      end
  end.

(** [error] is the pending error of the socket, [None] when it cannot be read. *)
Definition net_connect_nonblocking_complete (error : option Z) (socket_fd : Z) : net_connect_status :=
  if socket_fd <? 0 then NET_CONNECT_BAD_ARGUMENT else
  match error with
  | None => NET_CONNECT_INTERNAL
  | Some error => if negb (error =? 0) then NET_CONNECT_FAILURE else NET_CONNECT_OK
  end.

(** ** Connecting within the deadline *)

Inductive poll_answer := Poll_timeout | Poll_error | Poll_ready (nval : bool).

Record connect_answers := {
  ca_start : option timespec; ca_socket : option Z; ca_connect : connect_answer; ca_now : option timespec;
  ca_interrupted : list (option timespec); ca_poll_now : option timespec; ca_poll : poll_answer;
  ca_after : option timespec; ca_error : option Z;
}.

Definition connect_poll_milliseconds (deadline now : timespec) : Z :=
  let seconds := u64 (tv_sec deadline - tv_sec now) in
  let nanoseconds := tv_nsec deadline - tv_nsec now in
  let '(seconds, nanoseconds) := if nanoseconds <? 0 then (u64 (seconds - 1), nanoseconds + 1000000000) else (seconds, nanoseconds) in
  let milliseconds := if INT_MAX / 1000 <? seconds then INT_MAX else seconds * 1000 in
  let rounded_nanoseconds := (nanoseconds + 999999) / 1000000 in
  if INT_MAX - rounded_nanoseconds <? milliseconds then INT_MAX else milliseconds + rounded_nanoseconds.

(** A reading of the clock that is before the deadline. *)
Definition in_time (now : option timespec) (deadline : timespec) : option timespec :=
  now ← now; if 0 <=? timeutil_compare now deadline then None else Some now.

(** The last round, in which [poll] is not interrupted. *)
Definition connect_round (ca : connect_answers) (socket_fd : Z) (deadline : timespec) : net_error * Z * list event :=
  let failed tried := (NET_ECONNECT, -1, tried ++ [E_close socket_fd]) in
  match in_time (ca_poll_now ca) deadline with
  | None => failed []
  | Some now =>
      let tried := [E_poll socket_fd (connect_poll_milliseconds deadline now)] in
      match ca_poll ca with
      | Poll_timeout | Poll_error => failed tried
      | Poll_ready nval =>
          if nval then failed tried else
          match in_time (ca_after ca) deadline with
          | None => failed tried
          | Some _ =>
              if bool_decide (net_connect_nonblocking_complete (ca_error ca) socket_fd = NET_CONNECT_OK) then (NET_OK, socket_fd, tried)
              else failed tried
          end
      end
  end.

Fixpoint connect_loop (ca : connect_answers) (interrupted : list (option timespec)) (socket_fd : Z) (deadline : timespec)
    : net_error * Z * list event :=
  match interrupted with
  | [] => connect_round ca socket_fd deadline
  | now :: interrupted =>
      match in_time now deadline with
      | None => (NET_ECONNECT, -1, [E_close socket_fd])
      | Some now =>
          let '(status, socket_out, events) := connect_loop ca interrupted socket_fd deadline in
          (status, socket_out, E_poll socket_fd (connect_poll_milliseconds deadline now) :: events)
      end
  end.

Definition connection_setup_long_connect_outbound (ca : connect_answers) (snapshot : connection_setup_snapshot) : net_error * Z * list event :=
  if negb (bool_decide (ss_route_status snapshot = CONNECTION_SETUP_ROUTE_READY)) then (NET_ENORECORD, -1, []) else
  let address := s_address (ss_endpoint snapshot) in
  if negb (connection_setup_address_valid address) || (s_port (ss_endpoint snapshot) =? 0) then (NET_ENORECORD, -1, []) else
  match timeutil_add_seconds (ca_start ca) CONNECTION_SETUP_LONG_CONNECT_TIMEOUT_SEC with
  | None => (NET_ECONNECT, -1, [])
  | Some deadline =>
      let '(connect_status, socket_fd, events) := net_connect_nonblocking (ca_socket ca) (ca_connect ca) address (s_port (ss_endpoint snapshot)) in
      if bool_decide (connect_status = NET_CONNECT_OK) && (0 <=? socket_fd) then
        match in_time (ca_now ca) deadline with
        | None => (NET_ECONNECT, -1, events ++ [E_close socket_fd])
        | Some _ => (NET_OK, socket_fd, events)
        end
      else if negb (bool_decide (connect_status = NET_CONNECT_PENDING)) || (socket_fd <? 0)
      then (NET_ECONNECT, -1, events ++ (if 0 <=? socket_fd then [E_close socket_fd] else []))
      else
        let '(status, socket_out, more) := connect_loop ca (ca_interrupted ca) socket_fd deadline in
        (status, socket_out, events ++ more)
  end.

(** ** The seed *)

Record connection_setup_long_proxy := { lp_address : bytes; lp_pheader : bool; lp_port : Z; lp_rewrite : bool }.

(** [None] when the result is not valid. *)
Definition connection_setup_long_proxyinfo_prepare (snapshot : connection_setup_snapshot) : option connection_setup_long_proxy :=
  let e := ss_endpoint snapshot in
  match ss_route_status snapshot with
  | CONNECTION_SETUP_ROUTE_BYPASS | CONNECTION_SETUP_ROUTE_NO_ROUTE => None
  | _ =>
      if negb (terminated ROUTE_ENDPOINT_TEXT_SIZE (s_configured_address e)) || negb (terminated ROUTE_ENDPOINT_TEXT_SIZE (s_target_name e))
      then None
      else Some {| lp_address := connection_setup_destination e; lp_pheader := s_pheader e; lp_port := s_port e; lp_rewrite := s_rewrite e |}
  end.

(** Whether the bytes were appended, and the seed. *)
Definition connection_setup_long_seed_append (seed data : bytes) : bool * bytes :=
  if (CONNECTION_SETUP_LONG_PENDING_MAX <? len seed) || (CONNECTION_SETUP_LONG_PENDING_MAX - len seed <? len data) then (false, seed)
  else (true, seed ++ data).

Definition connection_setup_long_seed_proxy_header (I : inet) (seed : bytes) (snapshot : connection_setup_snapshot) : bool * bytes :=
  let '(pheader, pheader_size) := protocol_proxy_write I (s_inbound_proxy (ss_endpoint snapshot)) in
  if (pheader_size =? 0) || (PROTOPROXY_PACKETMAXLEN <? pheader_size) then (false, seed)
  else connection_setup_long_seed_append seed (take (Z.to_nat pheader_size) (zero_padded (PROTOPROXY_PACKETMAXLEN + 1) pheader)).

(** [None] is an access outside the bytes. *)
Definition connection_setup_long_seed_tail (seed inbound : bytes) : option (bool * bytes) :=
  '(status, initial_size) ← outcome (protocol_packet_length (Some inbound));
  Some (if negb (bool_decide (status = PROTOCOL_PACKET_COMPLETE)) || (len inbound <? initial_size) then (false, seed)
        else connection_setup_long_seed_append seed (drop (Z.to_nat initial_size) inbound)).

(** The seed of an accepted connection; [rewritten] is what replaces the first
    packet, [Some None] when it cannot be made. *)
Definition long_seed (I : inet) (snapshot : connection_setup_snapshot) (proxyinfo : connection_setup_long_proxy) (inbound : bytes)
    (rewritten : option (option bytes)) : option (bool * bytes) :=
  let '(seed_done, seed) := if lp_pheader proxyinfo then connection_setup_long_seed_proxy_header I [] snapshot else (true, []) in
  if negb seed_done then Some (false, seed) else
  if lp_rewrite proxyinfo then
    rewritten ← rewritten;
    match rewritten with
    | None => Some (false, seed)
    | Some rewrited =>
        let '(appended, seed) := connection_setup_long_seed_append seed rewrited in
        if appended then connection_setup_long_seed_tail seed inbound else Some (false, seed)
    end
  else Some (connection_setup_long_seed_append seed inbound).

(** ** Telling the client *)

Inductive send_answer := Sent (size : Z) | Send_interrupted | Send_failed.

Fixpoint connection_setup_long_send_client (answers : list send_answer) (socket_fd : Z) (data : bytes) : bool * list event :=
  match data with
  | [] => (true, [])
  | _ =>
      match answers with
      | Sent n :: answers =>
          if n <=? 0 then (false, []) else
          let '(sent, events) := connection_setup_long_send_client answers socket_fd (drop (Z.to_nat n) data) in
          (sent, E_send socket_fd (take (Z.to_nat n) data) :: events)
      | Send_interrupted :: answers => connection_setup_long_send_client answers socket_fd data
      | Send_failed :: _ | [] => (false, [])
      end
  end.

(** ** Handlers *)

(** The answers of the kernel and of the allocator; the garbage values are those of
    the fields a legacy login leaves uninitialised. *)
Record worker_answers := {
  wa_flags : bool; wa_nonblocking : bool; wa_connect : connect_answers; wa_sends : list send_answer;
  wa_read : nat -> bool; wa_field : bool; wa_realloc : bool; wa_write : bool; wa_garbage_port : Z; wa_garbage_version : Z;
}.

(** The status, [*socket_out] and the seed. *)
Record prepared := { pr_status : connection_setup_status; pr_socket_out : Z; pr_seed : bytes }.

Section long.
Context (I : inet) (wa : worker_answers) (socket_in : Z).

(** [packet] is sent as far as it can be, and the client closed. *)
Definition long_reject (status : connection_setup_status) (packet : bytes) : prepared * list event :=
  ({| pr_status := status; pr_socket_out := -1; pr_seed := [] |},
   (connection_setup_long_send_client (wa_sends wa) socket_in packet).2 ++ [E_close socket_in]).

Definition long_close (status : connection_setup_status) : prepared * list event :=
  ({| pr_status := status; pr_socket_out := -1; pr_seed := [] |}, [E_close socket_in]).

(** The end of an accepted connection. *)
Definition long_accepted (socket_out : Z) (seeded : bool * bytes) : prepared * list event :=
  if seeded.1 then ({| pr_status := CONNECTION_SETUP_OK; pr_socket_out := socket_out; pr_seed := seeded.2 |}, [])
  else ({| pr_status := CONNECTION_SETUP_EABORT; pr_socket_out := -1; pr_seed := seeded.2 |}, [E_close socket_out; E_close socket_in]).

Definition long_refusal (connect_status : net_error) : connection_setup_status :=
  if bool_decide (connect_status = NET_ENORECORD) then CONNECTION_SETUP_ENORECORD else CONNECTION_SETUP_ENOCONNECT.
Definition long_refusal_text (connect_status : net_error) : bytes :=
  if bool_decide (connect_status = NET_ENORECORD)
  then str "Proxy(Internal): Temporarily failed to resolve the address for the target server, please try again later."%string
  else str "Proxy(Internal): Failed to connect to the target server, please try again later."%string.

Definition legacy_kick (text : string) : bytes := make_kickreason_legacy BUFSIZ (Some (str text)).

Definition relogged (login : p_login_legacy) (destination : bytes) (port : Z) : p_login_legacy :=
  {| HandshakeLegacy.proto_ver := HandshakeLegacy.proto_ver login; HandshakeLegacy.username := HandshakeLegacy.username login;
     HandshakeLegacy.address := destination; HandshakeLegacy.port := port; HandshakeLegacy.version := HandshakeLegacy.version login |}.

(** The login with the address and the port of the endpoint, when the address fits
    its array. *)
Definition legacy_rewrite (login : p_login_legacy) (proxyinfo : connection_setup_long_proxy) : option (option bytes) :=
  if LEGACY_FIELD <=? len (lp_address proxyinfo) then Some None else
  rewrited ← outcome (packet_write_legacy_login (relogged login (lp_address proxyinfo) (lp_port proxyinfo)));
  if BUFSIZ <? len rewrited then None else Some (if 0 <? len rewrited then Some rewrited else None).

Definition connection_setup_long_handle_legacy_login (inbound : bytes) (snapshot : connection_setup_snapshot)
    : option (prepared * list event) :=
  '(login_version, _) ← outcome (protocol_identify (Some inbound));
  match login_version with
  | PVER_LEGACYL1 => Some (long_reject CONNECTION_SETUP_EOLDCLIENT (legacy_kick "Proxy: Unsupported client, use 12w04a or later!"))
  | PVER_LEGACYL3 => Some (long_reject CONNECTION_SETUP_EOLDCLIENT (legacy_kick "Proxy: Unsupported client, use 12w18a or later!"))
  | PVER_LEGACYL2 | PVER_LEGACYL4 =>
      inbound_info ← outcome (packet_read_legacy_login (wa_field wa) (wa_garbage_port wa) (wa_garbage_version wa) (Some inbound) login_version);
      match connection_setup_long_proxyinfo_prepare snapshot with
      | None => Some (long_reject CONNECTION_SETUP_ENOVHOST (legacy_kick "Proxy: Please use a legit name to connect!"))
      | Some proxyinfo =>
          let '(connect_status, socket_out, events) := connection_setup_long_connect_outbound (wa_connect wa) snapshot in
          if bool_decide (connect_status = NET_OK) then
            seeded ← long_seed I snapshot proxyinfo inbound (legacy_rewrite inbound_info proxyinfo);
            let '(result, more) := long_accepted socket_out seeded in Some (result, events ++ more)
          else
            let '(result, more) := long_reject (long_refusal connect_status)
              (make_kickreason_legacy BUFSIZ (Some (long_refusal_text connect_status))) in Some (result, events ++ more)
      end
  | _ => Some (long_close CONNECTION_SETUP_EABORT)
  end.

(** [address] is reallocated to hold the destination. *)
Definition modern_rewrite (packet : p_handshake) (proxyinfo : connection_setup_long_proxy) : option (option bytes) :=
  if negb (wa_realloc wa) then Some None else
  rewrited ← outcome (packet_write (wa_write wa) CONNECTION_SETUP_LONG_REWRITE_BUFFER_SIZE
                        (readdressed packet (lp_address proxyinfo) (lp_port proxyinfo)));
  Some (if len rewrited =? 0 then None else Some rewrited).

Definition connection_setup_long_handle_modern_handshake (inbound : bytes) (snapshot : connection_setup_snapshot)
    : option (prepared * list event) :=
  inbound_info ← outcome (packet_read (wa_read wa) inbound);
  match address inbound_info, username inbound_info with
  | Some _, Some _ =>
      if negb (nextstate inbound_info =? CLIENT_INTENT_LOGIN) && negb (nextstate inbound_info =? CLIENT_INTENT_TRANSFER)
      then Some (long_close CONNECTION_SETUP_EABORT) else
      match connection_setup_long_proxyinfo_prepare snapshot with
      | None =>
          packet ← outcome (make_kickreason CONNECTION_SETUP_LONG_REWRITE_BUFFER_SIZE (Some (str "Proxy: Please use a legit name to connect!"%string)));
          Some (long_reject CONNECTION_SETUP_ENOVHOST packet)
      | Some proxyinfo =>
          let '(connect_status, socket_out, events) := connection_setup_long_connect_outbound (wa_connect wa) snapshot in
          if bool_decide (connect_status = NET_OK) then
            seeded ← long_seed I snapshot proxyinfo inbound (modern_rewrite inbound_info proxyinfo);
            let '(result, more) := long_accepted socket_out seeded in Some (result, events ++ more)
          else
            packet ← outcome (make_kickreason CONNECTION_SETUP_LONG_REWRITE_BUFFER_SIZE (Some (long_refusal_text connect_status)));
            let '(result, more) := long_reject (long_refusal connect_status) packet in Some (result, events ++ more)
      end
  | _, _ => Some (long_close CONNECTION_SETUP_EABORT)
  end.

Definition connection_setup_long_reject_modern1 : option (prepared * list event) :=
  packet ← outcome (make_kickreason BUFSIZ (Some (str "Proxy: Unsupported client, use 13w42a or later!"%string)));
  Some (long_reject CONNECTION_SETUP_EOLDCLIENT packet).

Definition connection_setup_long_set_nonblocking : bool := wa_flags wa && wa_nonblocking wa.

(** The booleans say which of the pointers are not NULL. *)
Definition connection_setup_long_prepared_run (socket_out_given : bool) (inbound : option bytes) (snapshot : connection_setup_snapshot)
    : option (prepared * list event) :=
  match inbound with
  | None => Some (long_close CONNECTION_SETUP_EABORT)
  | Some inbound =>
      if negb socket_out_given || (len inbound =? 0) || (BUFSIZ <? len inbound) then Some (long_close CONNECTION_SETUP_EABORT) else
      if negb connection_setup_long_set_nonblocking then Some (long_close CONNECTION_SETUP_EABORT) else
      '(protocol, intent) ← outcome (protocol_identify (Some inbound));
      let joins := (intent =? CLIENT_INTENT_LOGIN) || (intent =? CLIENT_INTENT_TRANSFER) in
      match protocol with
      | PVER_UNIDENT => Some (long_close CONNECTION_SETUP_EUNIDENT)
      | PVER_LEGACYL1 | PVER_LEGACYL2 | PVER_LEGACYL3 | PVER_LEGACYL4 => connection_setup_long_handle_legacy_login inbound snapshot
      | PVER_MODERN1 => if joins then connection_setup_long_reject_modern1 else Some (long_close CONNECTION_SETUP_EABORT)
      | PVER_MODERN2 =>
          if joins then connection_setup_long_handle_modern_handshake inbound snapshot else Some (long_close CONNECTION_SETUP_EABORT)
      | PVER_ORIGPRO => Some (long_close CONNECTION_SETUP_EOLDCLIENT)
      | _ => Some (long_close CONNECTION_SETUP_EABORT)
      end
  end.

Definition connection_setup_long_prepared (socket_out_given seed_given seed_size_given : bool) (snapshot : option connection_setup_snapshot)
    (inbound : option bytes) : option (prepared * list event) :=
  match snapshot with
  | Some s =>
      if negb (connection_setup_snapshot_valid s) || negb seed_given || negb seed_size_given then Some (long_close CONNECTION_SETUP_EABORT)
      else connection_setup_long_prepared_run socket_out_given inbound s
  | None => Some (long_close CONNECTION_SETUP_EABORT)
  end.
End long.

(** ** Descriptors *)

Definition opens (events : list event) : list Z := omap (fun e => match e with E_open fd => Some fd | _ => None end) events.
Definition closes (events : list event) : list Z := omap (fun e => match e with E_close fd => Some fd | _ => None end) events.
Definition sent_to (fd : Z) (events : list event) : Prop := Forall (fun e => match e with E_send f _ => f = fd | _ => True end) events.
Definition silent (events : list event) : Prop := Forall (fun e => match e with E_send _ _ => False | _ => True end) events.

Lemma opens_app l k : opens (l ++ k) = opens l ++ opens k.
Proof. apply omap_app. Qed.
Lemma closes_app l k : closes (l ++ k) = closes l ++ closes k.
Proof. apply omap_app. Qed.

(** A connection attempt leaves its socket open exactly when it succeeds. *)
Definition attempt_ok (r : net_error * Z * list event) : Prop :=
  let '(status, socket_out, events) := r in
  silent events /\
  if bool_decide (status = NET_OK) then 0 <= socket_out /\ opens events = [socket_out] /\ closes events = []
  else socket_out = -1 /\ closes events = opens events.

Definition kernel_typed (ca : connect_answers) : Prop := forall fd, ca_socket ca = Some fd -> 0 <= fd.

(** A socket that was opened before. *)
Definition carries_on (socket_fd : Z) (r : net_error * Z * list event) : Prop :=
  let '(status, socket_out, events) := r in
  silent events /\ opens events = [] /\
  if bool_decide (status = NET_OK) then socket_out = socket_fd /\ closes events = [] else socket_out = -1 /\ closes events = [socket_fd].

Lemma connect_round_carries ca fd deadline : carries_on fd (connect_round ca fd deadline).
Proof.
  unfold connect_round. assert (Hf : forall tried, silent tried -> opens tried = [] -> closes tried = [] ->
    carries_on fd (NET_ECONNECT, -1, tried ++ [E_close fd])).
  { intros tried Hs Ho Hc. unfold carries_on. rewrite opens_app, closes_app, Ho, Hc. split; [apply Forall_app; split; [done|by repeat constructor]|].
    by rewrite bool_decide_eq_false_2. }
  destruct (in_time _ _); [|by apply Hf; [constructor|..]].
  assert (Hp : forall ms, silent [E_poll fd ms]) by (by repeat constructor).
  destruct (ca_poll ca) as [| |[]]; try (by apply Hf). destruct (in_time _ _); [|by apply Hf].
  case_bool_decide; [|by apply Hf]. split; [done|]. by rewrite bool_decide_eq_true_2.
Qed.

Lemma connect_loop_carries ca interrupted fd deadline : carries_on fd (connect_loop ca interrupted fd deadline).
Proof.
  induction interrupted as [|now interrupted IH]; cbn [connect_loop]; [apply connect_round_carries|].
  destruct (in_time now deadline); [|split; [by repeat constructor|]; split; [done|]; by rewrite bool_decide_eq_false_2].
  destruct (connect_loop ca interrupted fd deadline) as [[status out] ev]. destruct IH as (Hs & Ho & Hc).
  split; [by constructor|]. split; [done|]. by case_bool_decide.
Qed.

Lemma connect_outbound_ok ca s : kernel_typed ca -> attempt_ok (connection_setup_long_connect_outbound ca s).
Proof.
  intros Hk. unfold connection_setup_long_connect_outbound. set (fail := (_, _, [])).
  assert (Hnil : forall e, e <> NET_OK -> attempt_ok (e, -1, [])) by (intros e He; split; [constructor|]; by rewrite bool_decide_eq_false_2).
  if_as E1; [by apply Hnil|]. if_as E2; [by apply Hnil|]. destruct (timeutil_add_seconds _ _) as [deadline|]; [|by apply Hnil].
  unfold net_connect_nonblocking. if_as E3; [by apply Hnil|]. destruct (ca_socket ca) as [fd|] eqn:Efd; [|by apply Hnil].
  pose proof (Hk fd Efd) as Hfd. set (ev := [E_open fd; _]). assert (Hev : silent ev /\ opens ev = [fd] /\ closes ev = []) by (by repeat constructor).
  clearbody ev. destruct Hev as (Hs & Ho & Hc).
  assert (Hclose : attempt_ok (NET_ECONNECT, -1, ev ++ [E_close fd])).
  { unfold attempt_ok. rewrite bool_decide_eq_false_2, opens_app, closes_app, Ho, Hc by done. split; [|done].
    apply Forall_app. by split; [|repeat constructor]. }
  destruct (ca_connect ca); rewrite ?bool_decide_eq_true_2, ?bool_decide_eq_false_2 by done; cbn [andb orb negb].
  - if_as E4; [|lia]. destruct (in_time _ _); [|done]. unfold attempt_ok. by rewrite bool_decide_eq_true_2.
  - rewrite bool_decide_eq_true_2 by done. cbn [negb orb]. if_as E4; [lia|]. pose proof (connect_loop_carries ca (ca_interrupted ca) fd deadline) as Hl.
    destruct (connect_loop _ _ _ _) as [[status out] more]. destruct Hl as (Hs' & Ho' & Hl). unfold attempt_ok.
    rewrite opens_app, closes_app, Ho, Hc, Ho'. split; [apply Forall_app; by split|]. case_bool_decide; destruct Hl as [-> ->]; done.
  - simpl. by rewrite app_nil_r.
Qed.

(** ** Ownership *)

Lemma send_client_ok answers fd data : let '(_, events) := connection_setup_long_send_client answers fd data in
  sent_to fd events /\ opens events = [] /\ closes events = [].
Proof.
  revert data. induction answers as [|[n| |] answers IH]; intros [|b data]; cbn [connection_setup_long_send_client]; try (by repeat constructor).
  - if_as E; [by repeat constructor|]. specialize (IH (drop (Z.to_nat n) (b :: data))). destruct (connection_setup_long_send_client _ _ _) as [r ev].
    destruct IH as (Hs & Ho & Hc). split; [by constructor|]. done.
  - apply (IH (b :: data)).
Qed.

(** What the caller may rely on: the sockets of an accepted connection are both
    open, and nothing was said to the client; otherwise every socket is closed. *)
Definition owned (socket_in : Z) (r : prepared * list event) : Prop :=
  let '(result, events) := r in
  sent_to socket_in events /\ len (pr_seed result) <= CONNECTION_SETUP_LONG_PENDING_MAX /\
  match pr_status result with
  | CONNECTION_SETUP_OK => 0 <= pr_socket_out result /\ opens events = [pr_socket_out result] /\ closes events = [] /\ silent events
  | _ => pr_socket_out result = -1 /\ closes events = opens events ++ [socket_in]
  end.

Lemma long_close_owned fd status : status <> CONNECTION_SETUP_OK -> owned fd (long_close fd status).
Proof. intros Hs. split; [by repeat constructor|]. split; [done|]. by destruct status. Qed.

Lemma silent_sent fd events : silent events -> sent_to fd events.
Proof. apply Forall_impl. by intros []. Qed.

Lemma long_reject_owned wa fd status packet events : status <> CONNECTION_SETUP_OK -> silent events -> closes events = opens events ->
  owned fd ((long_reject wa fd status packet).1, events ++ (long_reject wa fd status packet).2).
Proof.
  intros Hst Hs Hc. unfold long_reject. cbn [fst snd]. pose proof (send_client_ok (wa_sends wa) fd packet) as H.
  destruct (connection_setup_long_send_client _ _ _) as [b ev]. destruct H as (Hs' & Ho' & Hc'). cbn [snd].
  split; [apply Forall_app; split; [by apply silent_sent|]; apply Forall_app; by split; [|repeat constructor]|]. split; [done|].
  rewrite !opens_app, !closes_app, Hc, Ho', Hc'. simpl. rewrite app_nil_r. by destruct status.
Qed.

Lemma reject_owned wa fd status packet : status <> CONNECTION_SETUP_OK -> owned fd (long_reject wa fd status packet).
Proof. intros Hst. by apply (long_reject_owned wa fd status packet []); [|constructor|]. Qed.

Lemma seed_append_max seed data : len seed <= CONNECTION_SETUP_LONG_PENDING_MAX ->
  len (connection_setup_long_seed_append seed data).2 <= CONNECTION_SETUP_LONG_PENDING_MAX.
Proof. intros H. unfold connection_setup_long_seed_append. if_as E; [done|]. cbn [snd]. rewrite len_app. lia. Qed.

Lemma seed_header_max I s : len (connection_setup_long_seed_proxy_header I [] s).2 <= CONNECTION_SETUP_LONG_PENDING_MAX.
Proof.
  unfold connection_setup_long_seed_proxy_header. destruct (protocol_proxy_write _ _) as [h n]. if_as E; [by vm_compute|].
  by apply seed_append_max; vm_compute.
Qed.

Lemma long_seed_max I s pi inbound rewritten r : long_seed I s pi inbound rewritten = Some r ->
  len r.2 <= CONNECTION_SETUP_LONG_PENDING_MAX.
Proof.
  unfold long_seed. assert (Hh : len (if lp_pheader pi then connection_setup_long_seed_proxy_header I [] s else (true, [])).2
    <= CONNECTION_SETUP_LONG_PENDING_MAX) by (destruct (lp_pheader pi); [apply seed_header_max|by vm_compute]).
  destruct (if lp_pheader pi then _ else _) as [done seed]. cbn [snd] in Hh. destruct done; cbn [negb]; [|by intros [= <-]].
  destruct (lp_rewrite pi); [|intros [= <-]; by apply seed_append_max]. destruct rewritten as [[rw|]|]; [|by intros [= <-]|done].
  cbn [mbind option_bind]. pose proof (seed_append_max seed rw Hh) as Ha. destruct (connection_setup_long_seed_append seed rw) as [[] seed'];
    [|by intros [= <-]]. unfold connection_setup_long_seed_tail. destruct (outcome _) as [[st n]|]; [|done]. intros [= <-].
  if_as E; [done|]. by apply seed_append_max.
Qed.

Lemma long_accepted_owned fd out seeded events : silent events -> 0 <= out -> opens events = [out] -> closes events = [] ->
  len seeded.2 <= CONNECTION_SETUP_LONG_PENDING_MAX ->
  owned fd ((long_accepted fd out seeded).1, events ++ (long_accepted fd out seeded).2).
Proof.
  intros Hs Ho Hop Hcl Hl. unfold long_accepted. destruct seeded as [[] seed]; cbn [fst snd] in *.
  - rewrite app_nil_r. split; [by apply silent_sent|]. done.
  - split; [apply Forall_app; split; [by apply silent_sent|by repeat constructor]|]. split; [done|].
    rewrite opens_app, closes_app, Hop, Hcl. done.
Qed.

(** ** The seed of an accepted connection *)

(** The login of the client with the address and the port of the endpoint, for a
    client whose login is well formed; what follows does not matter. *)
Definition rewrites (wa : worker_answers) (e : route_endpoint_snapshot) (inbound rewritten : bytes) : Prop :=
  let d := connection_setup_destination e in
  match outcome (protocol_identify (Some inbound)) with
  | Some (PVER_MODERN2, _) =>
      exists p, outcome (packet_read (wa_read wa) inbound) = Some p /\ has_login (nextstate p) = true /\
        (forall a rest, wf_packet p a -> clean_text d -> d <> [] ->
         outcome (protocol_packet_length (Some (rewritten ++ rest))) = Some (PROTOCOL_PACKET_COMPLETE, len rewritten) /\
         outcome (protocol_identify (Some (rewritten ++ rest))) = Some (PVER_MODERN2, nextstate p) /\
         packet_read (fun _ => true) (rewritten ++ rest) = Next (readdressed p d (s_port e)))
  | Some (version, _) =>
      exists p, outcome (packet_read_legacy_login (wa_field wa) (wa_garbage_port wa) (wa_garbage_version wa) (Some inbound) version) = Some p /\
        let p' := relogged p d (s_port e) in
        forall rest, len (rewritten ++ rest) <= BUFSIZ -> wf_l4 p' \/ (wf_l2 p' /\ HandshakeLegacy.version p' = wa_garbage_version wa) ->
        packet_read_legacy_login true (wa_garbage_port wa) (wa_garbage_version wa) (Some (rewritten ++ rest)) (proto_ver p) = Next p'
  | None => False
  end.

Definition long_forwarded (wa : worker_answers) (e : route_endpoint_snapshot) (inbound payload : bytes) : Prop :=
  if s_rewrite e then
    exists n rewritten, outcome (protocol_packet_length (Some inbound)) = Some (PROTOCOL_PACKET_COMPLETE, n) /\ 1 <= n <= len inbound /\
      payload = rewritten ++ drop (Z.to_nat n) inbound /\ rewrites wa e inbound rewritten
  else payload = inbound.

Definition endpoint_proxy_ok (e : route_endpoint_snapshot) : Prop := s_pheader e = true -> wf_proxy (s_inbound_proxy e).

Lemma seed_append_true seed data seed' : connection_setup_long_seed_append seed data = (true, seed') -> seed' = seed ++ data.
Proof. unfold connection_setup_long_seed_append. split_ifs; congruence. Qed.

Lemma seed_header_ok I s seed : inet_laws I -> endpoint_proxy_ok (ss_endpoint s) -> s_pheader (ss_endpoint s) = true ->
  connection_setup_long_seed_proxy_header I [] s = (true, seed) -> headed I (ss_endpoint s) seed.
Proof.
  intros HI Hp Hh. unfold connection_setup_long_seed_proxy_header, headed. rewrite Hh.
  destruct (proxy_write_read I _ HI (Hp Hh)) as (line & -> & Hl & Hr). if_as E; [done|].
  intros ->%seed_append_true. unfold zero_padded. rewrite take_app_le, take_ge by lia. done.
Qed.

Lemma proxyinfo_of s pi : connection_setup_long_proxyinfo_prepare s = Some pi ->
  pi = {| lp_address := connection_setup_destination (ss_endpoint s); lp_pheader := s_pheader (ss_endpoint s);
          lp_port := s_port (ss_endpoint s); lp_rewrite := s_rewrite (ss_endpoint s) |}.
Proof. unfold connection_setup_long_proxyinfo_prepare. destruct (ss_route_status s); split_ifs; congruence. Qed.

Lemma long_seed_ok I wa s pi inbound rewritten : inet_laws I -> is_bytes inbound -> len inbound <= BUFSIZ -> endpoint_proxy_ok (ss_endpoint s) ->
  connection_setup_long_proxyinfo_prepare s = Some pi -> (forall b, rewritten = Some b -> rewrites wa (ss_endpoint s) inbound b) ->
  exists seeded, long_seed I s pi inbound (Some rewritten) = Some seeded /\ len seeded.2 <= CONNECTION_SETUP_LONG_PENDING_MAX /\
    (seeded.1 = true -> exists h payload, seeded.2 = h ++ payload /\ headed I (ss_endpoint s) h /\
       long_forwarded wa (ss_endpoint s) inbound payload).
Proof.
  intros HI Hb Hl Hp ->%proxyinfo_of Hr. set (pi := Build_connection_setup_long_proxy _ _ _ _).
  assert (Hx : exists seeded, long_seed I s pi inbound (Some rewritten) = Some seeded /\
    (seeded.1 = true -> exists h payload, seeded.2 = h ++ payload /\ headed I (ss_endpoint s) h /\
       long_forwarded wa (ss_endpoint s) inbound payload)).
  2:{ destruct Hx as (seeded & Hs & Hx). exists seeded. split; [done|]. split; [by eapply long_seed_max|done]. }
  unfold long_seed. cbn [pi lp_pheader lp_rewrite].
  destruct (if s_pheader (ss_endpoint s) then _ else _) as [[] h] eqn:Eh; cbn [negb]; [|by exists (false, h)].
  assert (Hh : headed I (ss_endpoint s) h).
  { destruct (s_pheader (ss_endpoint s)) eqn:E; [by apply seed_header_ok|]. unfold headed. rewrite E. congruence. }
  unfold long_forwarded. destruct (s_rewrite (ss_endpoint s)).
  2:{ eexists. split; [done|]. intros H. exists h, inbound. split; [|done]. apply seed_append_true. by rewrite <- H, <- surjective_pairing. }
  cbn [mbind option_bind]. destruct rewritten as [b|]; [|by exists (false, h)].
  destruct (connection_setup_long_seed_append h b) as [[] seed] eqn:Ea; [|by exists (false, seed)]. apply seed_append_true in Ea as ->.
  unfold connection_setup_long_seed_tail. destruct (packet_length_ok inbound Hb) as ([st n] & Hv & Hs); [unfold BUFSIZ in Hl; unfold SIZE_MAX, UINT64_MAX; lia|].
  rewrite Hv. cbn [mbind option_bind]. eexists. split; [done|]. if_as E; [done|]. intros H. apply orb_false_iff in E as [E En].
  apply negb_false_iff, bool_decide_eq_true in E as ->. exists h, (b ++ drop (Z.to_nat n) inbound). split; [|split; [done|]].
  - rewrite app_assoc. apply seed_append_true. by rewrite <- H, <- surjective_pairing.
  - exists n, b. split; [done|]. split; [exact Hs|]. split; [done|]. by apply Hr.
Qed.

Lemma write_login_ok p : login_typed p -> 0 <= HandshakeLegacy.port p < 2 ^ 16 ->
  exists b, packet_write_legacy_login p = Next b /\ len b <= BUFSIZ.
Proof.
  intros [Hu Ha] Hp. unfold LEGACY_FIELD in *. pose proof (cstr_length (HandshakeLegacy.username p)) as Hcu.
  pose proof (cstr_length (HandshakeLegacy.address p)) as Hca. pose proof (decimal_u16_length _ Hp) as Hd.
  unfold packet_write_legacy_login. cbv zeta. unfold memcat. destruct (decide _).
  - do 2 rewrite array_fits_ok by lens. cbn [mbind run_bind]. rewrite array_fits_ok by (rewrite packetexpand_length; unfold BUFSIZ; lens).
    cbn [mbind run_bind]. eexists. split; [done|]. rewrite len_app, packetexpand_length. unfold BUFSIZ. lens.
  - destruct (decide (proto_ver p = PVER_LEGACYL4)); rewrite array_fits_ok by lens; cbn [mbind run_bind].
    + rewrite array_fits_ok by lens. cbn [mbind run_bind]. eexists. split; [done|].
      rewrite !len_app, !packetexpand_length. destruct (decide _); unfold BUFSIZ; lens.
    + eexists. split; [done|]. rewrite !len_app, !packetexpand_length. destruct (decide _); unfold BUFSIZ; lens.
Qed.

Lemma legacy_rewrite_ok wa s pi inbound v i p : connection_setup_long_proxyinfo_prepare s = Some pi -> 0 <= s_port (ss_endpoint s) < 2 ^ 16 ->
  outcome (protocol_identify (Some inbound)) = Some (v, i) -> v <> PVER_MODERN2 ->
  outcome (packet_read_legacy_login (wa_field wa) (wa_garbage_port wa) (wa_garbage_version wa) (Some inbound) v) = Some p -> login_typed p ->
  exists rewritten, legacy_rewrite p pi = Some rewritten /\ (forall b, rewritten = Some b -> rewrites wa (ss_endpoint s) inbound b).
Proof.
  intros ->%proxyinfo_of Hport Hi Hv Hp [Hu _]. unfold legacy_rewrite. cbn [lp_address lp_port].
  set (d := connection_setup_destination (ss_endpoint s)). if_as E; [by exists None|]. set (p' := relogged p d _).
  destruct (write_login_ok p') as (b & Hw & Hl); [by split; [|cbn; lia]|done|]. rewrite Hw. cbn [outcome mbind option_bind].
  if_as E2; [lia|]. eexists. split; [done|]. intros b' H. destruct (0 <? len b); [|done]. injection H as <-.
  unfold rewrites. rewrite Hi. fold d. enough (Hx : exists q, outcome (packet_read_legacy_login (wa_field wa) (wa_garbage_port wa)
    (wa_garbage_version wa) (Some inbound) v) = Some q /\ (forall rest, len (b ++ rest) <= BUFSIZ -> wf_l4 (relogged q d (s_port (ss_endpoint s))) \/
      (wf_l2 (relogged q d (s_port (ss_endpoint s))) /\ HandshakeLegacy.version (relogged q d (s_port (ss_endpoint s))) = wa_garbage_version wa) ->
      packet_read_legacy_login true (wa_garbage_port wa) (wa_garbage_version wa) (Some (b ++ rest)) (proto_ver q)
      = Next (relogged q d (s_port (ss_endpoint s))))) by (destruct v; done).
  exists p. split; [done|]. fold p'. intros rest Hr [H4|[H2 Hgv]].
  - assert (b = encode_l4 p') as -> by (rewrite write_l4 in Hw by done; congruence).
    replace (proto_ver p) with PVER_LEGACYL4 by (symmetry; apply H4). by apply read_l4.
  - assert (b = encode_l2 p') as -> by (rewrite write_l2 in Hw by done; congruence).
    replace (proto_ver p) with PVER_LEGACYL2 by (symmetry; apply H2). rewrite read_l2 by done. rewrite <- Hgv.
    destruct H2 as [Hpv _]. cbn [p' relogged proto_ver] in Hpv. by rewrite <- Hpv.
Qed.

Lemma modern_rewrite_ok wa s pi inbound i p a : connection_setup_long_proxyinfo_prepare s = Some pi -> 0 <= s_port (ss_endpoint s) < 2 ^ 16 ->
  is_bytes inbound -> outcome (protocol_identify (Some inbound)) = Some (PVER_MODERN2, i) ->
  outcome (packet_read (wa_read wa) inbound) = Some p -> address p = Some a -> has_login (nextstate p) = true ->
  exists rewritten, modern_rewrite wa p pi = Some rewritten /\ (forall b, rewritten = Some b -> rewrites wa (ss_endpoint s) inbound b).
Proof.
  intros ->%proxyinfo_of Hport Hb Hi Hp Ha Hlg. unfold modern_rewrite. destruct (wa_realloc wa); cbn [negb lp_address lp_port]; [|by exists None].
  set (d := connection_setup_destination (ss_endpoint s)). set (p' := readdressed p d _).
  destruct (packet_read_parsed (wa_read wa) inbound Hb) as (q & Hq & Hpp). rewrite Hp in Hq. injection Hq as <-.
  unfold parsed in Hpp. rewrite Ha in Hpp. destruct Hpp as (Hok & _).
  destruct (packet_write_ok (wa_write wa) CONNECTION_SETUP_LONG_REWRITE_BUFFER_SIZE p') as (out & Hout & Hl); [by destruct Hok|done|].
  rewrite Hout. cbn [mbind option_bind]. eexists. split; [done|]. intros b H. destruct (len out =? 0) eqn:E; [done|]. injection H as <-.
  unfold rewrites. rewrite Hi. exists p. split; [done|]. split; [done|]. fold d p'. intros a' rest Hw Hd Hne.
  assert (Haa : a' = a) by (destruct Hw as (_ & _ & Hx & _); congruence). subst a'.
  destruct (parsed_identified _ _ _ _ _ Hi Hp Ha) as [Hid Hver].
  destruct (decide (len d + address_extra_length p <= PROTOHANDSHAKE_ADDRESSMAXLEN)) as [Hfit|Hfit].
  2:{ exfalso. unfold packet_write in Hout. cbn [p' readdressed address address_extra_length] in Hout. destruct Hd as [Hdc _].
      rewrite cstr_id in Hout by done. rewrite (proj2 (orb_true_iff _ _)) in Hout by lia. cbn in Hout. injection Hout as <-. done. }
  assert (Hw' : wf_packet p' d) by (destruct Hd; by eapply (readdressed_wf p)).
  assert (Hh : is_handshake p').
  { split; [done|]. split; [done|]. right. unfold has_login in Hlg. cbn [p' readdressed nextstate]. lia. }
  assert (out = encode p' d) as ->.
  { destruct (wa_write wa); [|rewrite (packet_write_unallocated p' d) in Hout by done; by injection Hout as <-]. rewrite (packet_write_encode _ _ _ Hw') in Hout.
    destruct (_ <? _); by injection Hout as <-. }
  destruct (encode_recognised p' d rest Hw' Hh) as [R1 R2]. replace (has_login (nextstate p')) with true in R1 by done.
  split; [done|]. split; [done|]. apply (read_frames _ p' d (mc_frame (encode2 p') ++ rest)); [done| |by intros _; exists rest].
  unfold encode. rewrite <- app_assoc. apply at_off_start.
Qed.

(** ** The whole setup *)

(** The socket is connected to the address and the port of the endpoint. *)
Definition connects_to (s : connection_setup_snapshot) (socket_out : Z) (events : list event) : Prop :=
  let e := ss_endpoint s in
  ss_route_status s = CONNECTION_SETUP_ROUTE_READY /\ connection_setup_address_valid (s_address e) = true /\ s_port e <> 0 /\
  E_connect socket_out (family (s_address e)) (s_port e) (addr (s_address e)) ∈ events.

Lemma connect_outbound_target ca s fd events : connection_setup_long_connect_outbound ca s = (NET_OK, fd, events) -> connects_to s fd events.
Proof.
  unfold connection_setup_long_connect_outbound. if_as E1; [done|]. if_as E2; [done|]. destruct (timeutil_add_seconds _ _) as [deadline|]; [|done].
  apply negb_false_iff, bool_decide_eq_true in E1. apply orb_false_iff in E2 as [E2 E3]. apply negb_false_iff in E2.
  unfold net_connect_nonblocking. if_as E4; [done|]. destruct (ca_socket ca) as [sock|]; [|done].
  intros H. unfold connects_to. split; [done|]. split; [done|]. split; [lia|]. apply list_elem_of_In.
  destruct (ca_connect ca); cbn -[connect_loop Z.leb Z.ltb] in H.
  - destruct (0 <=? sock); [|done]. destruct (in_time _ _); [|done]. injection H as -> <-. right. by left.
  - destruct (sock <? 0); [done|]. pose proof (connect_loop_carries ca (ca_interrupted ca) sock deadline) as Hc.
    destruct (connect_loop _ _ _ _) as [[st out] more]. injection H as -> -> <-. destruct Hc as (_ & _ & Hc).
    rewrite bool_decide_eq_true_2 in Hc by done. destruct Hc as [-> _]. right. by left.
  - done.
Qed.

(** An accepted connection. *)
Definition accepted (I : inet) (wa : worker_answers) (s : connection_setup_snapshot) (inbound : bytes) (r : prepared * list event) : Prop :=
  pr_status r.1 = CONNECTION_SETUP_OK ->
  connects_to s (pr_socket_out r.1) r.2 /\
  exists h payload, pr_seed r.1 = h ++ payload /\ headed I (ss_endpoint s) h /\ long_forwarded wa (ss_endpoint s) inbound payload.

(** A result that is both; [None] is a memory error. *)
Definition long_ok (I : inet) (wa : worker_answers) (socket_in : Z) (s : connection_setup_snapshot) (inbound : bytes)
    (r : option (prepared * list event)) : Prop :=
  exists result events, r = Some (result, events) /\ owned socket_in (result, events) /\ accepted I wa s inbound (result, events).

Section long_ok.
Context (I : inet) (wa : worker_answers) (socket_in : Z) (s : connection_setup_snapshot) (inbound : bytes).
Hypothesis (HI : inet_laws I) (Hk : kernel_typed (wa_connect wa)) (Hb : is_bytes inbound) (Hl : len inbound <= BUFSIZ).
Hypothesis (Hport : 0 <= s_port (ss_endpoint s) < 2 ^ 16) (Hproxy : endpoint_proxy_ok (ss_endpoint s)).

Lemma close_ok status : status <> CONNECTION_SETUP_OK -> long_ok I wa socket_in s inbound (Some (long_close socket_in status)).
Proof. intros Hs. eexists _, _. split; [done|]. split; [by apply long_close_owned|]. by intros H. Qed.

Lemma reject_ok status packet : status <> CONNECTION_SETUP_OK -> long_ok I wa socket_in s inbound (Some (long_reject wa socket_in status packet)).
Proof. intros Hs. eexists _, _. split; [done|]. split; [by apply (reject_owned wa)|]. by intros H. Qed.

Lemma refusal_not_ok e : long_refusal e <> CONNECTION_SETUP_OK.
Proof. unfold long_refusal. by case_bool_decide. Qed.

(** What both handlers do once the route is known. *)
Definition long_connect (proxyinfo : connection_setup_long_proxy) (rewritten : option (option bytes)) (kick : net_error -> option bytes)
    : option (prepared * list event) :=
  let '(connect_status, socket_out, events) := connection_setup_long_connect_outbound (wa_connect wa) s in
  if bool_decide (connect_status = NET_OK) then
    seeded ← long_seed I s proxyinfo inbound rewritten;
    let '(result, more) := long_accepted socket_in socket_out seeded in Some (result, events ++ more)
  else
    packet ← kick connect_status;
    let '(result, more) := long_reject wa socket_in (long_refusal connect_status) packet in Some (result, events ++ more).

Lemma long_connect_ok pi rewritten kick : connection_setup_long_proxyinfo_prepare s = Some pi ->
  (exists rw, rewritten = Some rw /\ (forall b, rw = Some b -> rewrites wa (ss_endpoint s) inbound b)) -> (forall e, kick e <> None) ->
  long_ok I wa socket_in s inbound (long_connect pi rewritten kick).
Proof.
  intros Hpi (rw & -> & Hrw) Hkick. unfold long_connect. pose proof (connect_outbound_ok (wa_connect wa) s Hk) as Ho.
  destruct (connection_setup_long_connect_outbound _ _) as [[status out] events] eqn:Ec. destruct Ho as [Hs Ho].
  case_bool_decide as Hst.
  - subst status. destruct Ho as (Hout & Hop & Hcl).
    destruct (long_seed_ok I wa s pi inbound rw HI Hb Hl Hproxy Hpi Hrw) as (seeded & -> & Hmax & Hsd). cbn [mbind option_bind].
    pose proof (long_accepted_owned socket_in out seeded events Hs Hout Hop Hcl Hmax) as Hown.
    unfold long_accepted in *. destruct seeded as [[] seed]; cbn [fst snd] in *; eexists _, _; (split; [done|]); (split; [done|]); [|done].
    intros _. rewrite app_nil_r. split; [by eapply connect_outbound_target|]. by apply Hsd.
  - destruct Ho as [_ Hcl]. destruct (kick status) as [packet|] eqn:Ek; [|by destruct (Hkick status)].
    cbn [mbind option_bind]. pose proof (long_reject_owned wa socket_in _ packet events (refusal_not_ok status) Hs Hcl) as Hown.
    eexists _, _. split; [done|]. split; [done|]. intros H. by destruct (refusal_not_ok status).
Qed.

Lemma kick_some cap text : 0 <= cap -> len text < 2 ^ 30 -> outcome (make_kickreason cap (Some text)) <> None.
Proof. intros Hc Ht. by rewrite (make_kickreason_spec cap text Hc Ht). Qed.

Lemma handle_legacy_ok v i : outcome (protocol_identify (Some inbound)) = Some (v, i) -> v <> PVER_MODERN2 ->
  long_ok I wa socket_in s inbound (connection_setup_long_handle_legacy_login I wa socket_in inbound s).
Proof.
  intros Hi Hv. unfold connection_setup_long_handle_legacy_login. rewrite Hi. cbn [mbind option_bind].
  destruct (legacy_login_typed (wa_field wa) (wa_garbage_port wa) (wa_garbage_version wa) (Some inbound) v Hb) as (p & Hp & Ht).
  assert (Hc : forall pi, connection_setup_long_proxyinfo_prepare s = Some pi -> long_ok I wa socket_in s inbound
    (long_connect pi (legacy_rewrite p pi) (fun e => Some (make_kickreason_legacy BUFSIZ (Some (long_refusal_text e)))))).
  { intros pi Hpi. apply long_connect_ok; [done| |done]. by eapply legacy_rewrite_ok. }
  destruct v; try (by apply close_ok); try (by apply reject_ok); try done; rewrite Hp; cbn [mbind option_bind];
    (destruct (connection_setup_long_proxyinfo_prepare s) as [pi|]; [by apply Hc|by apply reject_ok]).
Qed.

Lemma handle_modern_ok i : outcome (protocol_identify (Some inbound)) = Some (PVER_MODERN2, i) ->
  long_ok I wa socket_in s inbound (connection_setup_long_handle_modern_handshake I wa socket_in inbound s).
Proof.
  intros Hi. unfold connection_setup_long_handle_modern_handshake.
  destruct (packet_read_parsed (wa_read wa) inbound Hb) as (p & Hp & _). rewrite Hp. cbn [mbind option_bind].
  destruct (address p) as [a|] eqn:Ha; [|by apply close_ok]. destruct (username p) as [u|]; [|by apply close_ok]. if_as E; [by apply close_ok|].
  destruct (connection_setup_long_proxyinfo_prepare s) as [pi|] eqn:Hpi.
  - apply (long_connect_ok pi (modern_rewrite wa p pi) (fun e => outcome (make_kickreason CONNECTION_SETUP_LONG_REWRITE_BUFFER_SIZE
      (Some (long_refusal_text e))))); [done| |].
    + eapply modern_rewrite_ok; try done. unfold has_login. lia.
    + intros e. apply kick_some; [done|]. unfold long_refusal_text. case_bool_decide; vm_compute; done.
  - set (text := str _). pose proof (kick_some CONNECTION_SETUP_LONG_REWRITE_BUFFER_SIZE text ltac:(done) ltac:(vm_compute; done)) as Hkk.
    destruct (outcome (make_kickreason _ _)) as [packet|]; [|done]. by apply reject_ok.
Qed.

Lemma prepared_run_ok given : long_ok I wa socket_in s inbound (connection_setup_long_prepared_run I wa socket_in given (Some inbound) s).
Proof.
  unfold connection_setup_long_prepared_run. if_as E1; [by apply close_ok|]. if_as E2; [by apply close_ok|].
  destruct (outcome_Some _ (protocol_identify_safe inbound Hb)) as [[v i] Hi]. rewrite Hi. cbn [mbind option_bind].
  destruct v; try (by apply close_ok); try (by eapply handle_legacy_ok).
  - if_as E3; [|by apply close_ok]. unfold connection_setup_long_reject_modern1. set (text := str _).
    pose proof (kick_some BUFSIZ text ltac:(done) ltac:(vm_compute; done)) as Hkk. destruct (outcome _) as [packet|]; [|done]. by apply reject_ok.
  - if_as E3; [by eapply handle_modern_ok|by apply close_ok].
Qed.
End long_ok.

Lemma prepared_ok I wa socket_in out_given seed_given size_given s inbound : inet_laws I -> kernel_typed (wa_connect wa) -> is_bytes inbound ->
  0 <= s_port (ss_endpoint s) < 2 ^ 16 -> endpoint_proxy_ok (ss_endpoint s) ->
  long_ok I wa socket_in s inbound (connection_setup_long_prepared I wa socket_in out_given seed_given size_given (Some s) (Some inbound)).
Proof.
  intros HI Hk Hb Hport Hp. unfold connection_setup_long_prepared. if_as E; [by apply close_ok|].
  destruct (decide (len inbound <= BUFSIZ)) as [Hl|Hl]; [by apply prepared_run_ok|].
  unfold connection_setup_long_prepared_run. if_as E2; [by apply close_ok|]. lia.
Qed.

(** C29: preparing a long connection makes no memory error on any received bytes and
    keeps its promise on descriptors: on success the caller owns the client socket
    and the one connected socket and nothing was sent to the client; on failure the
    client socket and every socket that was opened are closed, each once; messages
    go to the client only, and the seed never exceeds its buffer. *)
Theorem long_ownership I wa socket_in out_given seed_given size_given s inbound : inet_laws I -> kernel_typed (wa_connect wa) ->
  is_bytes inbound -> 0 <= s_port (ss_endpoint s) < 2 ^ 16 -> endpoint_proxy_ok (ss_endpoint s) ->
  exists result events,
    connection_setup_long_prepared I wa socket_in out_given seed_given size_given (Some s) (Some inbound) = Some (result, events) /\
    owned socket_in (result, events).
Proof.
  intros HI Hk Hb Hport Hp. destruct (prepared_ok I wa socket_in out_given seed_given size_given s inbound HI Hk Hb Hport Hp)
    as (result & events & H & Ho & _). by exists result, events.
Qed.

(** C30: a long connection is accepted only once it is connected to the address and
    the port of its ready endpoint, and the seed is exactly what the target must
    receive first: the proxy line of the connection and then all the client sent,
    the first packet readdressed to the endpoint when the route says so; a
    well-formed login that was readdressed is one complete packet that reads back
    as the same login for the endpoint, whatever follows. *)
Theorem long_seed_exact I wa socket_in s inbound result events : inet_laws I -> kernel_typed (wa_connect wa) ->
  is_bytes inbound -> 0 <= s_port (ss_endpoint s) < 2 ^ 16 -> endpoint_proxy_ok (ss_endpoint s) ->
  connection_setup_long_prepared I wa socket_in true true true (Some s) (Some inbound) = Some (result, events) ->
  pr_status result = CONNECTION_SETUP_OK ->
  connects_to s (pr_socket_out result) events /\
  exists h payload, pr_seed result = h ++ payload /\ headed I (ss_endpoint s) h /\ long_forwarded wa (ss_endpoint s) inbound payload.
Proof.
  intros HI Hk Hb Hport Hp H Hst. destruct (prepared_ok I wa socket_in true true true s inbound HI Hk Hb Hport Hp)
    as (r & ev & H' & _ & Ha). rewrite H in H'. injection H' as <- <-. by apply Ha.
Qed.

(** ** The deadline *)

Lemma poll_milliseconds_exact deadline now : valid deadline -> valid now -> ns now < ns deadline ->
  ns deadline - ns now <= 5000000000 ->
  connect_poll_milliseconds deadline now = (ns deadline - ns now + 999999) / 1000000.
Proof.
  rewrite !valid_spec. unfold ns, connect_poll_milliseconds, INT_MAX. intros Hd Hn H1 H2.
  rewrite (u64_id (tv_sec deadline - tv_sec now)) by lia. if_as E1; [rewrite u64_id by lia|]; split_ifs; zlia.
Qed.

Lemma in_time_spec now deadline t : (forall x, now = Some x -> valid x) -> valid deadline -> in_time now deadline = Some t ->
  now = Some t /\ ns t < ns deadline.
Proof.
  intros Hn Hd. unfold in_time. destruct now as [x|]; [|done]. cbn [mbind option_bind]. if_as E; [done|]. intros [= ->]. split; [done|].
  rewrite timeutil_compare_ns in E by (done || by apply Hn). destruct (Z.compare_spec (ns t) (ns deadline)); lia.
Qed.

(** The readings of the clock before the waits of a connection attempt, and all of them. *)
Definition wait_readings (ca : connect_answers) : list (option timespec) := ca_interrupted ca ++ [ca_poll_now ca].
Definition readings (ca : connect_answers) : list (option timespec) := ca_now ca :: ca_after ca :: wait_readings ca.

Definition before (deadline : Z) (now : option timespec) : Prop := exists t, now = Some t /\ ns t < deadline.
(** The time from [t] to the deadline, in milliseconds, rounded up. *)
Definition time_left (deadline : Z) (t : timespec) : Z := (deadline - ns t + 999999) / 1000000.
Definition waits (events : list event) : list Z := omap (fun e => match e with E_poll _ ms => Some ms | _ => None end) events.

(** The waits are for the time left at the reading just before each of them, which is before
    the deadline. *)
Definition waits_until (deadline : Z) (rs : list (option timespec)) (events : list event) : Prop :=
  exists ts, waits events = time_left deadline <$> ts /\ (Some <$> ts) `prefix_of` rs /\ Forall (fun t => ns t < deadline) ts.

(** The connection is made, and the reading after that is before the deadline; a connection
    that is in progress is waited for. *)
Definition made_in_time (deadline : Z) (ca : connect_answers) : Prop :=
  match ca_connect ca with
  | Connected => before deadline (ca_now ca)
  | In_progress => Forall (before deadline) (wait_readings ca) /\ ca_poll ca = Poll_ready false /\ before deadline (ca_after ca) /\ ca_error ca = Some 0
  | Refused => False
  end.

Definition target_valid (s : connection_setup_snapshot) : Prop :=
  ss_route_status s = CONNECTION_SETUP_ROUTE_READY /\ connection_setup_address_valid (s_address (ss_endpoint s)) = true /\ s_port (ss_endpoint s) <> 0.

Lemma waits_none deadline l rs : waits l = [] -> waits_until deadline rs l.
Proof. intros Hl. exists []. split; [done|]. split; [apply prefix_nil|done]. Qed.

Lemma waits_cons deadline t fd rs l : ns t < deadline -> waits_until deadline rs l ->
  waits_until deadline (Some t :: rs) (E_poll fd (time_left deadline t) :: l).
Proof.
  intros Ht (ts & Hw & Hp & Hf). exists (t :: ts). split; [cbn; by f_equal|]. split; [by apply prefix_cons|by constructor].
Qed.

Section deadline.
Context (ca : connect_answers) (start deadline : timespec).
Hypothesis (Hd : valid deadline) (Hlim : ns deadline = ns start + 5000000000).
Hypothesis (Hr : forall t, Some t ∈ readings ca -> valid t /\ ns start <= ns t).

Lemma in_time_iff now : now ∈ readings ca ->
  match in_time now deadline with
  | Some t => now = Some t /\ ns t < ns deadline /\ connect_poll_milliseconds deadline t = time_left (ns deadline) t
  | None => ~ before (ns deadline) now
  end.
Proof.
  intros Hn. destruct (in_time now deadline) as [t|] eqn:Et.
  - apply in_time_spec in Et as [-> Hlt]; [|intros x ->; by apply Hr|done]. destruct (Hr t Hn) as [Hv Hge]. split; [done|]. split; [done|].
    unfold time_left. by rewrite poll_milliseconds_exact by (done || lia).
  - intros (t & -> & Hlt). destruct (Hr t Hn) as [Hv Hge]. unfold in_time in Et. cbn [mbind option_bind] in Et. revert Et. if_as E; [|done]. intros _.
    rewrite timeutil_compare_ns in E by done. destruct (Z.compare_spec (ns t) (ns deadline)); lia.
Qed.

Lemma readings_interrupted r : r ∈ wait_readings ca -> r ∈ readings ca.
Proof. intros H. by do 2 right. Qed.

(** The last round. *)
Lemma connect_round_in_time fd : 0 <= fd ->
  let '(status, _, events) := connect_round ca fd deadline in
  waits_until (ns deadline) [ca_poll_now ca] events /\
  (status = NET_OK <-> before (ns deadline) (ca_poll_now ca) /\ ca_poll ca = Poll_ready false /\ before (ns deadline) (ca_after ca) /\ ca_error ca = Some 0).
Proof.
  intros Hfd. unfold connect_round. pose proof (in_time_iff (ca_poll_now ca) ltac:(apply readings_interrupted, elem_of_app; right; by left)) as Hp.
  destruct (in_time (ca_poll_now ca) deadline) as [t|]; [|split; [by apply waits_none|split; [done|tauto]]].
  destruct Hp as (Ht & Hlt & ->). assert (Hb : before (ns deadline) (ca_poll_now ca)) by (by exists t).
  assert (Hw : forall l, waits l = [] -> waits_until (ns deadline) [ca_poll_now ca] (E_poll fd (time_left (ns deadline) t) :: l))
    by (intros l Hl; rewrite Ht; apply waits_cons; [done|by apply waits_none]).
  destruct (ca_poll ca) as [| |[]]; try (split; [by apply Hw|split; [done|by intros (_ & ? & _)]]).
  pose proof (in_time_iff (ca_after ca) ltac:(right; by left)) as Ha. destruct (in_time (ca_after ca) deadline) as [t'|]; [|split; [by apply Hw|split; [done|tauto]]].
  destruct Ha as (Ht' & Hlt' & _). assert (Hb' : before (ns deadline) (ca_after ca)) by (by exists t').
  unfold net_connect_nonblocking_complete. replace (fd <? 0) with false by lia. destruct (ca_error ca) as [e|]; [|split; [by apply Hw|split; [done|by intros (_ & _ & _ & ?)]]].
  destruct (Z.eqb_spec e 0) as [->|He]; cbn [negb]; [rewrite bool_decide_eq_true_2 by done|rewrite bool_decide_eq_false_2 by done]; (split; [by apply Hw|]); [done|].
  split; [done|]. intros (_ & _ & _ & [= ?]). done.
Qed.

Lemma connect_loop_in_time interrupted fd : 0 <= fd -> (forall r, r ∈ interrupted -> r ∈ readings ca) ->
  let '(status, _, events) := connect_loop ca interrupted fd deadline in
  waits_until (ns deadline) (interrupted ++ [ca_poll_now ca]) events /\
  (status = NET_OK <-> Forall (before (ns deadline)) (interrupted ++ [ca_poll_now ca]) /\ ca_poll ca = Poll_ready false /\ before (ns deadline) (ca_after ca) /\ ca_error ca = Some 0).
Proof.
  intros Hfd. induction interrupted as [|now interrupted IH]; intros Hin; cbn [connect_loop app].
  - pose proof (connect_round_in_time fd Hfd) as H. destruct (connect_round ca fd deadline) as [[status out] ev]. by rewrite list.Forall_singleton.
  - pose proof (in_time_iff now (Hin now ltac:(by left))) as Hn. destruct (in_time now deadline) as [t|].
    2:{ rewrite list.Forall_cons. split; [by apply waits_none|]. split; [done|tauto]. }
    destruct Hn as (-> & Hlt & ->). specialize (IH ltac:(intros r Hx; apply Hin; by right)).
    destruct (connect_loop ca interrupted fd deadline) as [[status out] ev]. destruct IH as [Hw Ho]. split; [by apply waits_cons|].
    rewrite Ho, list.Forall_cons. split; [intros [? ?]; split; [split; [by exists t|done]|done]|tauto].
Qed.
End deadline.

(** C32: by a monotonic clock a connection attempt keeps its deadline, five seconds after it
    started: it succeeds exactly when the target is valid, the socket is opened and
    connected, and the clock, read after the connection was made, is before the deadline, as
    are all the readings before.  Each wait is for the time left at the reading just before
    it, rounded up to milliseconds, so never longer than five seconds. *)
Theorem connect_in_time ca s start : ca_start ca = Some start -> valid start -> tv_sec start + 5 < 2 ^ 63 ->
  (forall t, Some t ∈ readings ca -> valid t /\ ns start <= ns t) ->
  let deadline := ns start + 5000000000 in
  let '(status, _, events) := connection_setup_long_connect_outbound ca s in
  waits_until deadline (wait_readings ca) events /\ Forall (fun ms => 0 < ms <= 5000) (waits events) /\
  (status = NET_OK <-> target_valid s /\ (exists fd, ca_socket ca = Some fd /\ 0 <= fd) /\ made_in_time deadline ca).
Proof.
  intros Hs Hv Hmax Hr. cbn zeta. assert (Hle : forall events, waits_until (ns start + 5000000000) (wait_readings ca) events -> Forall (fun ms => 0 < ms <= 5000) (waits events)).
  { intros events (ts & -> & [k Hk] & Hf). apply Forall_fmap, Forall_lookup. intros i t Hi. cbn. pose proof (Forall_lookup_1 _ _ _ _ Hf Hi) as Hlt. cbn in Hlt.
    assert (Ht : Some t ∈ readings ca). { apply readings_interrupted. rewrite Hk. apply elem_of_app. left. apply list_elem_of_fmap_2. by eapply list_elem_of_lookup_2. }
    destruct (Hr t Ht). unfold time_left. zlia. }
  cut (let '(status, _, events) := connection_setup_long_connect_outbound ca s in waits_until (ns start + 5000000000) (wait_readings ca) events /\
    (status = NET_OK <-> target_valid s /\ (exists fd, ca_socket ca = Some fd /\ 0 <= fd) /\ made_in_time (ns start + 5000000000) ca)).
  { destruct (connection_setup_long_connect_outbound ca s) as [[status fd] events]. intros [Hw Ho]. split; [done|]. split; [by apply Hle|done]. }
  clear Hle. unfold connection_setup_long_connect_outbound, target_valid. case_bool_decide as E1; cbn [negb]; [|split; [by apply waits_none|split; [done|tauto]]].
  destruct (connection_setup_address_valid _) eqn:E2; cbn [negb orb]; [|split; [by apply waits_none|split; [done|by intros ((_ & ? & _) & _)]]].
  destruct (Z.eqb_spec (s_port (ss_endpoint s)) 0) as [E3|E3]; [split; [by apply waits_none|split; [done|tauto]]|].
  rewrite Hs. unfold CONNECTION_SETUP_LONG_CONNECT_TIMEOUT_SEC. rewrite add_seconds_spec by (done || lia). if_as E4; [lia|]. set (deadline := {| tv_sec := _; tv_nsec := _ |}).
  pose proof Hv as [H1 H2]%valid_spec. assert (Hd : valid deadline) by (apply valid_spec; cbn; lia).
  assert (Hlim : ns deadline = ns start + 5000000000) by (unfold ns, deadline; cbn; lia). rewrite <- Hlim in *. clearbody deadline.
  unfold net_connect_nonblocking, made_in_time, connection_setup_address_valid in *. apply andb_true_iff in E2 as [E2 E5]. rewrite E2. if_as E6; [cbn in E6; lia|].
  destruct (ca_socket ca) as [fd|]; [|split; [by apply waits_none|split; [done|by intros (_ & (? & ? & _) & _)]]].
  assert (Hfd : (exists fd', Some fd = Some fd' /\ 0 <= fd') <-> 0 <= fd) by (split; [by intros (? & [= ->] & ?)|by exists fd]).
  pose proof (in_time_iff ca start deadline Hd Hlim Hr (ca_now ca) ltac:(by left)) as Hnow.
  pose proof (connect_loop_in_time ca start deadline Hd Hlim Hr (ca_interrupted ca) fd) as Hloop.
  destruct (ca_connect ca); cbn -[connect_loop Z.leb Z.ltb ns waits].
  - destruct (Z.leb_spec 0 fd); [|split; [by apply waits_none|split; [done|intros (_ & Hx%Hfd & _); lia]]]. destruct (in_time (ca_now ca) deadline) as [t|].
    + split; [by apply waits_none|]. split; [|done]. intros _. split; [done|]. split; [by apply Hfd|]. exists t; split; apply Hnow.
    + split; [by apply waits_none|]. split; [done|tauto].
  - destruct (Z.ltb_spec fd 0); [split; [apply waits_none; by destruct (0 <=? fd)|split; [done|intros (_ & Hx%Hfd & _); lia]]|].
    specialize (Hloop ltac:(lia) ltac:(intros r Hx; apply readings_interrupted, elem_of_app; by left)).
    destruct (connect_loop _ _ _ _) as [[st out] more]. destruct Hloop as [Hw Ho]. split; [exact Hw|]. rewrite Ho, Hfd. unfold wait_readings. split; [intros Hx; split; [done|]; split; [lia|exact Hx]|tauto].
  - split; [by apply waits_none|]. split; [done|tauto].
Qed.

(** A login that is connected in the second round, after an interrupted poll. *)
Definition sample_clock (s : Z) : option timespec := Some {| tv_sec := s; tv_nsec := 500 |}.
Definition sample_answers : worker_answers := {|
  wa_flags := true; wa_nonblocking := true; wa_sends := []; wa_read := fun _ => true; wa_field := true; wa_realloc := true; wa_write := true;
  wa_garbage_port := 0; wa_garbage_version := 0;
  wa_connect := {| ca_start := sample_clock 10; ca_socket := Some 7; ca_connect := In_progress; ca_now := sample_clock 10;
                   ca_interrupted := [sample_clock 10]; ca_poll_now := sample_clock 11; ca_poll := Poll_ready false;
                   ca_after := sample_clock 12; ca_error := Some 0 |} |}.

Lemma sample_kernel : kernel_typed (wa_connect sample_answers).
Proof. intros fd [= <-]. done. Qed.
Lemma sample_proxy_ok : endpoint_proxy_ok (ss_endpoint sample_snapshot).
Proof. intros _. repeat split; simpl; try lia; try (by left); bytes_ok. Qed.

Lemma long_ownership_witness : exists result events,
  connection_setup_long_prepared hex_inet sample_answers 5 true true true (Some sample_snapshot) (Some sample_login) = Some (result, events) /\
  owned 5 (result, events).
Proof.
  apply (long_ownership hex_inet sample_answers 5 true true true sample_snapshot sample_login);
    [apply hex_inet_laws|apply sample_kernel|bytes_ok|done|apply sample_proxy_ok].
Defined.

Lemma long_seed_exact_witness : exists result events,
  connection_setup_long_prepared hex_inet sample_answers 5 true true true (Some sample_snapshot) (Some sample_login) = Some (result, events) /\
  connects_to sample_snapshot (pr_socket_out result) events.
Proof.
  eexists _, _. split; [vm_compute; reflexivity|].
  refine (proj1 (long_seed_exact hex_inet sample_answers 5 sample_snapshot sample_login _ _ hex_inet_laws sample_kernel _ _ sample_proxy_ok _ _));
    [bytes_ok|done|vm_compute; reflexivity|reflexivity].
Defined.

Lemma connect_in_time_witness : exists status fd events,
  connection_setup_long_connect_outbound (wa_connect sample_answers) sample_snapshot = (status, fd, events) /\
  waits events = [5000; 4000] /\ made_in_time 15000000500 (wa_connect sample_answers).
Proof.
  eexists NET_OK, _, _. split; [vm_compute; reflexivity|]. split; [reflexivity|].
  refine (proj2 (proj2 (proj1 (proj2 (proj2 (connect_in_time (wa_connect sample_answers) sample_snapshot {| tv_sec := 10; tv_nsec := 500 |} _ _ _ _))) _)));
    [done|by split|done| |reflexivity].
  intros t Ht. apply list_elem_of_In in Ht. repeat (destruct Ht as [Ht|Ht]; [injection Ht as <-; split; [by split|by vm_compute]|]). done.
Defined.
