(* ===== verification/Ipc.v ===== *)
(** * Packets between the listener and the resolver helper ([src/src/resolver/ipc.c])

    Every packet has a header with its kind, its size and the query it belongs to,
    followed by big-endian fields and names without their NUL.  A [char] array is
    given by its bytes before the first NUL, all of them if there is none.  A decoder
    that fails leaves a zeroed result, here [Return] of the status; an encoder
    returns the status or the packet. *)

From S2P Require Import Prelude Proxy TimeUtil ResolverUtil.

(** ** Types *)

Definition RESOLVER_IPC_PACKET_BYTE_LIMIT : Z := 4096.
Definition RESOLVER_IPC_PROTOCOL_VERSION : Z := 1.
Definition RESOLVER_IPC_HEADER_SIZE : Z := 20.
Definition RESOLVER_IPC_MAGIC : Z := 0x4D525350.
Definition RESOLVER_IPC_ADDRESS_IPV4 : Z := 1.
Definition RESOLVER_IPC_ADDRESS_IPV6 : Z := 2.

(** The statuses that are not OK. *)
Inductive resolver_ipc_codec_status :=
  | RESOLVER_IPC_CODEC_BAD_ARGUMENT | RESOLVER_IPC_CODEC_LIMIT | RESOLVER_IPC_CODEC_MALFORMED | RESOLVER_IPC_CODEC_UNSUPPORTED.

Inductive resolver_ipc_packet_kind :=
  | RESOLVER_IPC_PACKET_REQUEST | RESOLVER_IPC_PACKET_RESPONSE_BEGIN | RESOLVER_IPC_PACKET_RESPONSE_CNAME
  | RESOLVER_IPC_PACKET_RESPONSE_ADDRESS | RESOLVER_IPC_PACKET_RESPONSE_SRV | RESOLVER_IPC_PACKET_RESPONSE_END.
#[export] Instance resolver_ipc_packet_kind_eq_dec : EqDecision resolver_ipc_packet_kind.
Proof. solve_decision. Defined.

(** A lookup status is the number it has on the wire. *)
Definition resolver_ipc_lookup_status : Type := Z.
Definition RESOLVER_IPC_LOOKUP_OK : resolver_ipc_lookup_status := 1.
Definition RESOLVER_IPC_LOOKUP_BAD_ARGUMENT : resolver_ipc_lookup_status := 2.
Definition RESOLVER_IPC_LOOKUP_LIMIT : resolver_ipc_lookup_status := 3.
Definition RESOLVER_IPC_LOOKUP_MALFORMED : resolver_ipc_lookup_status := 4.
Definition RESOLVER_IPC_LOOKUP_MEMORY : resolver_ipc_lookup_status := 5.
Definition RESOLVER_IPC_LOOKUP_NODATA : resolver_ipc_lookup_status := 6.
Definition RESOLVER_IPC_LOOKUP_NOT_FOUND : resolver_ipc_lookup_status := 7.
Definition RESOLVER_IPC_LOOKUP_PERMANENT_ERROR : resolver_ipc_lookup_status := 8.
Definition RESOLVER_IPC_LOOKUP_TEMPORARY_ERROR : resolver_ipc_lookup_status := 9.
Definition RESOLVER_IPC_LOOKUP_TRUNCATED : resolver_ipc_lookup_status := 10.

Record resolver_ipc_packet_header := { h_kind : resolver_ipc_packet_kind; h_query_id : Z }.
Record resolver_ipc_request := { q_query_name : bytes; q_query_class : Z; q_query_id : Z; q_query_type : Z }.
Record resolver_ipc_response_address := { ra_index : Z; ra_query_id : Z; ra_record : dns_address_record }.
Record resolver_ipc_response_begin := {
  b_canonical_name : bytes; b_cname_count : Z; b_completed_at : timespec; b_negative : dns_negative_record; b_question_name : bytes;
  b_query_class : Z; b_query_id : Z; b_query_type : Z; b_rcode : Z; b_record_count : Z; b_status : resolver_ipc_lookup_status;
}.
Record resolver_ipc_response_cname := { rc_record : dns_cname_record; rc_index : Z; rc_query_id : Z }.
Record resolver_ipc_response_end := { e_cname_count : Z; e_query_id : Z; e_record_count : Z }.
Record resolver_ipc_response_srv := { rs_index : Z; rs_query_id : Z; rs_record : dns_srv_record }.

(** ** Lookup statuses *)

Record resolver_ipc_lookup_status_map := { map_address : dns_lookup_status; map_srv : dns_lookup_status; map_ipc : resolver_ipc_lookup_status }.

Definition resolver_ipc_lookup_status_maps : list resolver_ipc_lookup_status_map :=
  (fun '(a, s, i) => {| map_address := a; map_srv := s; map_ipc := i |}) <$>
  [(DNS_LOOKUP_OK, DNS_LOOKUP_OK, RESOLVER_IPC_LOOKUP_OK);
   (DNS_LOOKUP_BAD_ARGUMENT, DNS_LOOKUP_BAD_ARGUMENT, RESOLVER_IPC_LOOKUP_BAD_ARGUMENT);
   (DNS_LOOKUP_LIMIT, DNS_LOOKUP_LIMIT, RESOLVER_IPC_LOOKUP_LIMIT);
   (DNS_LOOKUP_MALFORMED, DNS_LOOKUP_MALFORMED, RESOLVER_IPC_LOOKUP_MALFORMED);
   (DNS_LOOKUP_MEMORY, DNS_LOOKUP_MEMORY, RESOLVER_IPC_LOOKUP_MEMORY);
   (DNS_LOOKUP_NODATA, DNS_LOOKUP_NODATA, RESOLVER_IPC_LOOKUP_NODATA);
   (DNS_LOOKUP_NOT_FOUND, DNS_LOOKUP_NOT_FOUND, RESOLVER_IPC_LOOKUP_NOT_FOUND);
   (DNS_LOOKUP_PERMANENT_ERROR, DNS_LOOKUP_PERMANENT_ERROR, RESOLVER_IPC_LOOKUP_PERMANENT_ERROR);
   (DNS_LOOKUP_TEMPORARY_ERROR, DNS_LOOKUP_TEMPORARY_ERROR, RESOLVER_IPC_LOOKUP_TEMPORARY_ERROR);
   (DNS_LOOKUP_TRUNCATED, DNS_LOOKUP_TRUNCATED, RESOLVER_IPC_LOOKUP_TRUNCATED)].

(** What is searched for, with its domain. *)
Inductive resolver_ipc_lookup_status_domain :=
  | RESOLVER_IPC_LOOKUP_STATUS_ADDRESS (source : dns_lookup_status) | RESOLVER_IPC_LOOKUP_STATUS_IPC (source : resolver_ipc_lookup_status)
  | RESOLVER_IPC_LOOKUP_STATUS_SRV (source : dns_lookup_status).

Definition resolver_ipc_lookup_status_find (domain : resolver_ipc_lookup_status_domain) : option resolver_ipc_lookup_status_map :=
  List.find (fun mapping => match domain with
    | RESOLVER_IPC_LOOKUP_STATUS_ADDRESS source => bool_decide (map_address mapping = source)
    | RESOLVER_IPC_LOOKUP_STATUS_IPC source => map_ipc mapping =? source
    | RESOLVER_IPC_LOOKUP_STATUS_SRV source => bool_decide (map_srv mapping = source)
    end) resolver_ipc_lookup_status_maps.

Definition resolver_ipc_lookup_status_valid (status : resolver_ipc_lookup_status) : bool :=
  bool_decide (is_Some (resolver_ipc_lookup_status_find (RESOLVER_IPC_LOOKUP_STATUS_IPC status))).

Definition resolver_ipc_lookup_status_from_address (source : dns_lookup_status) : option resolver_ipc_lookup_status :=
  map_ipc <$> resolver_ipc_lookup_status_find (RESOLVER_IPC_LOOKUP_STATUS_ADDRESS source).
Definition resolver_ipc_lookup_status_from_srv (source : dns_lookup_status) : option resolver_ipc_lookup_status :=
  map_ipc <$> resolver_ipc_lookup_status_find (RESOLVER_IPC_LOOKUP_STATUS_SRV source).
Definition resolver_ipc_lookup_status_to_address (source : resolver_ipc_lookup_status) : option dns_lookup_status :=
  map_address <$> resolver_ipc_lookup_status_find (RESOLVER_IPC_LOOKUP_STATUS_IPC source).
Definition resolver_ipc_lookup_status_to_srv (source : resolver_ipc_lookup_status) : option dns_lookup_status :=
  map_srv <$> resolver_ipc_lookup_status_find (RESOLVER_IPC_LOOKUP_STATUS_IPC source).

(** ** Conversions and checks; [None] for the returned false *)

Definition resolver_ipc_address_family_decode (encoded : Z) : option Z :=
  if encoded =? RESOLVER_IPC_ADDRESS_IPV4 then Some AF_INET else if encoded =? RESOLVER_IPC_ADDRESS_IPV6 then Some AF_INET6 else None.
Definition resolver_ipc_address_family_encode (family : Z) : option Z :=
  if family =? AF_INET then Some RESOLVER_IPC_ADDRESS_IPV4 else if family =? AF_INET6 then Some RESOLVER_IPC_ADDRESS_IPV6 else None.

Definition resolver_ipc_name_size (name : bytes) (allow_empty : bool) : option Z :=
  let size := Z.min (len name) NS_MAXDNAME in
  if (size =? NS_MAXDNAME) || (negb allow_empty && (size =? 0)) then None else Some size.

Definition resolver_ipc_negative_valid (negative : dns_negative_record) : bool :=
  if negb (n_valid negative)
  then (n_effective_ttl negative =? 0) && (n_minimum negative =? 0) && (len (n_owner negative) =? 0) && (n_record_ttl negative =? 0)
  else bool_decide (is_Some (resolver_ipc_name_size (n_owner negative) false))
       && (n_effective_ttl negative <=? n_minimum negative) && (n_effective_ttl negative <=? n_record_ttl negative).

Definition resolver_ipc_packet_kind_encode (kind : resolver_ipc_packet_kind) : Z :=
  match kind with
  | RESOLVER_IPC_PACKET_REQUEST => 1 | RESOLVER_IPC_PACKET_RESPONSE_BEGIN => 2 | RESOLVER_IPC_PACKET_RESPONSE_CNAME => 3
  | RESOLVER_IPC_PACKET_RESPONSE_ADDRESS => 4 | RESOLVER_IPC_PACKET_RESPONSE_SRV => 5 | RESOLVER_IPC_PACKET_RESPONSE_END => 6
  end.
Definition resolver_ipc_packet_kind_decode (encoded : Z) : option resolver_ipc_packet_kind :=
  match encoded with
  | 1 => Some RESOLVER_IPC_PACKET_REQUEST | 2 => Some RESOLVER_IPC_PACKET_RESPONSE_BEGIN | 3 => Some RESOLVER_IPC_PACKET_RESPONSE_CNAME
  | 4 => Some RESOLVER_IPC_PACKET_RESPONSE_ADDRESS | 5 => Some RESOLVER_IPC_PACKET_RESPONSE_SRV | 6 => Some RESOLVER_IPC_PACKET_RESPONSE_END
  | _ => None
  end.

Definition resolver_ipc_query_type_valid (query_type : Z) : bool :=
  (query_type =? ns_t_a) || (query_type =? ns_t_aaaa) || (query_type =? ns_t_srv).

Definition resolver_ipc_status_decode (encoded : Z) : option resolver_ipc_lookup_status :=
  if negb (resolver_ipc_lookup_status_valid encoded) then None else Some encoded.
Definition resolver_ipc_status_encode (status : resolver_ipc_lookup_status) : option Z :=
  if negb (resolver_ipc_lookup_status_valid status) then None else Some (u16 status).

Definition resolver_ipc_time_decode (seconds nanoseconds : Z) : option timespec :=
  if 1000000000 <=? nanoseconds then None else
  let converted_seconds := time_t_of seconds in
  if (converted_seconds <? 0) || negb (u64 converted_seconds =? seconds) then None
  else Some {| tv_sec := converted_seconds; tv_nsec := nanoseconds |}.
Definition resolver_ipc_time_encode (source : timespec) : option (Z * Z) :=
  if negb (timeutil_valid (Some source)) then None else
  let converted_seconds := u64 (tv_sec source) in
  if negb (time_t_of converted_seconds =? tv_sec source) then None else Some (converted_seconds, u32 (tv_nsec source)).

Definition resolver_ipc_response_count_valid (query_type cname_count record_count : Z) : bool :=
  if DNS_CNAME_DEPTH_LIMIT <? cname_count then false else
  if (query_type =? ns_t_a) || (query_type =? ns_t_aaaa) then record_count <=? DNS_ADDRESS_RECORD_LIMIT
  else (query_type =? ns_t_srv) && (record_count <=? DNS_SRV_RECORD_LIMIT).

(** ** Readers *)

Record resolver_ipc_reader := { rd_data : bytes; rd_offset : Z; rd_size : Z }.

(** Reading a packet: [Return] of the status when it is refused. *)
Notation "'reads' A" := (run resolver_ipc_codec_status A) (at level 10, A at level 9).
Definition malformed {A} : reads A := Return RESOLVER_IPC_CODEC_MALFORMED.
Definition require (b : bool) : reads unit := if b then Next tt else malformed.
Definition require_some {A} (o : option A) : reads A := match o with Some a => Next a | None => malformed end.

(** The bytes at the returned pointer. *)
Definition resolver_ipc_reader_take (reader : resolver_ipc_reader) (size : Z) : reads (bytes * resolver_ipc_reader) :=
  if (rd_size reader <? rd_offset reader) || (rd_size reader - rd_offset reader <? size) then malformed else
  source ← rdn (rd_data reader) (rd_offset reader) size;
  Next (source, {| rd_data := rd_data reader; rd_offset := rd_offset reader + size; rd_size := rd_size reader |}).

Definition resolver_ipc_reader_name (reader : resolver_ipc_reader) (size : Z) (allow_empty : bool) : reads (bytes * resolver_ipc_reader) :=
  if (NS_MAXDNAME <=? size) || (negb allow_empty && (size =? 0)) then malformed else
  '(source, reader) ← resolver_ipc_reader_take reader size;
  if bool_decide (is_Some (index_of 0 source)) then malformed else Next (source, reader).

(** [source[i]] *)
Definition byte_at (source : bytes) (i : nat) : Z := default 0 (source !! i).

Definition resolver_ipc_reader_u8 (reader : resolver_ipc_reader) : reads (Z * resolver_ipc_reader) :=
  '(source, reader) ← resolver_ipc_reader_take reader 1; Next (byte_at source 0, reader).
Definition resolver_ipc_reader_u16 (reader : resolver_ipc_reader) : reads (Z * resolver_ipc_reader) :=
  '(source, reader) ← resolver_ipc_reader_take reader 2;
  Next (Z.lor (u16 (Z.shiftl (byte_at source 0) 8)) (byte_at source 1), reader).
Definition resolver_ipc_reader_u32 (reader : resolver_ipc_reader) : reads (Z * resolver_ipc_reader) :=
  '(source, reader) ← resolver_ipc_reader_take reader 4;
  Next (Z.lor (Z.lor (Z.lor (u32 (Z.shiftl (byte_at source 0) 24)) (u32 (Z.shiftl (byte_at source 1) 16)))
                     (u32 (Z.shiftl (byte_at source 2) 8))) (byte_at source 3), reader).
Definition resolver_ipc_reader_u64 (reader : resolver_ipc_reader) : reads (Z * resolver_ipc_reader) :=
  '(source, reader) ← resolver_ipc_reader_take reader 8;
  Next (foldl (fun value b => Z.lor (u64 (Z.shiftl value 8)) b) 0 source, reader).

(** The packet is read to its end. *)
Definition at_end (reader : resolver_ipc_reader) : bool := rd_offset reader =? rd_size reader.

(** ** Writers; [None] for the returned false *)

Record resolver_ipc_writer := { wr_data : bytes; wr_size : Z }.

(** The bytes stored at the pointer [resolver_ipc_writer_take] returns. *)
Definition resolver_ipc_writer_bytes (writer : resolver_ipc_writer) (source : bytes) : option resolver_ipc_writer :=
  if (wr_size writer <? len (wr_data writer)) || (wr_size writer - len (wr_data writer) <? len source) then None
  else Some {| wr_data := wr_data writer ++ source; wr_size := wr_size writer |}.
Definition resolver_ipc_writer_u8 (writer : resolver_ipc_writer) (value : Z) : option resolver_ipc_writer :=
  resolver_ipc_writer_bytes writer [u8 value].
Definition resolver_ipc_writer_u16 (writer : resolver_ipc_writer) (value : Z) : option resolver_ipc_writer :=
  resolver_ipc_writer_bytes writer [u8 (Z.shiftr value 8); u8 value].
Definition resolver_ipc_writer_u32 (writer : resolver_ipc_writer) (value : Z) : option resolver_ipc_writer :=
  resolver_ipc_writer_bytes writer [u8 (Z.shiftr value 24); u8 (Z.shiftr value 16); u8 (Z.shiftr value 8); u8 value].
(** The last byte is stored first. *)
Fixpoint u64_loop (n : nat) (value : Z) (stored : bytes) : bytes :=
  match n with O => stored | S n => u64_loop n (Z.shiftr value 8) (u8 value :: stored) end.
Definition resolver_ipc_writer_u64 (writer : resolver_ipc_writer) (value : Z) : option resolver_ipc_writer :=
  resolver_ipc_writer_bytes writer (u64_loop 8 value []).

(** ** Headers *)

(** [None]: any kind is expected. *)
Definition resolver_ipc_header_decode (packet : option bytes) (expected_kind : option resolver_ipc_packet_kind)
    : reads (resolver_ipc_packet_header * resolver_ipc_reader) :=
  match packet with
  | None => Return RESOLVER_IPC_CODEC_BAD_ARGUMENT
  | Some packet =>
      if RESOLVER_IPC_PACKET_BYTE_LIMIT <? len packet then Return RESOLVER_IPC_CODEC_LIMIT else
      if len packet <? RESOLVER_IPC_HEADER_SIZE then malformed else
      let reader := {| rd_data := packet; rd_offset := 0; rd_size := len packet |} in
      '(magic, reader) ← resolver_ipc_reader_u32 reader;
      '(version, reader) ← resolver_ipc_reader_u16 reader;
      '(encoded_kind, reader) ← resolver_ipc_reader_u16 reader;
      '(encoded_size, reader) ← resolver_ipc_reader_u16 reader;
      '(reserved, reader) ← resolver_ipc_reader_u16 reader;
      '(query_id, reader) ← resolver_ipc_reader_u64 reader;
      if negb (magic =? RESOLVER_IPC_MAGIC) || negb (encoded_size =? len packet) || negb (reserved =? 0) || (query_id =? 0) then malformed else
      if negb (version =? RESOLVER_IPC_PROTOCOL_VERSION) then Return RESOLVER_IPC_CODEC_UNSUPPORTED else
      match resolver_ipc_packet_kind_decode encoded_kind with
      | None => Return RESOLVER_IPC_CODEC_UNSUPPORTED
      | Some kind =>
          if match expected_kind with Some expected => negb (bool_decide (kind = expected)) | None => false end then malformed
          else Next ({| h_kind := kind; h_query_id := query_id |}, reader)
      end
  end.

Definition resolver_ipc_header_encode (kind : resolver_ipc_packet_kind) (query_id packet_capacity packet_size : Z)
    : resolver_ipc_codec_status + resolver_ipc_writer :=
  if query_id =? 0 then inl RESOLVER_IPC_CODEC_BAD_ARGUMENT else
  if (RESOLVER_IPC_PACKET_BYTE_LIMIT <? packet_size) || (UINT16_MAX <? packet_size) || (packet_capacity <? packet_size)
  then inl RESOLVER_IPC_CODEC_LIMIT else
  match (writer ← resolver_ipc_writer_u32 {| wr_data := []; wr_size := packet_size |} RESOLVER_IPC_MAGIC;
         writer ← resolver_ipc_writer_u16 writer RESOLVER_IPC_PROTOCOL_VERSION;
         writer ← resolver_ipc_writer_u16 writer (resolver_ipc_packet_kind_encode kind);
         writer ← resolver_ipc_writer_u16 writer (u16 packet_size);
         writer ← resolver_ipc_writer_u16 writer 0;
         resolver_ipc_writer_u64 writer query_id) with
  | Some writer => inr writer
  | None => inl RESOLVER_IPC_CODEC_LIMIT
  end.

(** The end of every encoder. *)
Definition ipc_written (writer : option resolver_ipc_writer) : resolver_ipc_codec_status + bytes :=
  match writer with
  | Some writer => if negb (len (wr_data writer) =? wr_size writer) then inl RESOLVER_IPC_CODEC_LIMIT else inr (wr_data writer)
  | None => inl RESOLVER_IPC_CODEC_LIMIT
  end.
(** The fields of [write] after the header. *)
Definition ipc_encode (kind : resolver_ipc_packet_kind) (query_id packet_capacity encoded_size : Z)
    (write : resolver_ipc_writer -> option resolver_ipc_writer) : resolver_ipc_codec_status + bytes :=
  match resolver_ipc_header_encode kind query_id packet_capacity encoded_size with
  | inl status => inl status
  | inr writer => ipc_written (write writer)
  end.
Definition bad_argument : resolver_ipc_codec_status + bytes := inl RESOLVER_IPC_CODEC_BAD_ARGUMENT.

Definition resolver_ipc_packet_inspect (packet : option bytes) : reads resolver_ipc_packet_header :=
  '(candidate, _) ← resolver_ipc_header_decode packet None; Next candidate.

(** ** Requests *)

Definition resolver_ipc_request_decode (packet : option bytes) : reads resolver_ipc_request :=
  '(header, reader) ← resolver_ipc_header_decode packet (Some RESOLVER_IPC_PACKET_REQUEST);
  '(query_class, reader) ← resolver_ipc_reader_u16 reader;
  '(query_type, reader) ← resolver_ipc_reader_u16 reader;
  '(name_size, reader) ← resolver_ipc_reader_u16 reader;
  _ ← require ((query_class =? ns_c_in) && resolver_ipc_query_type_valid query_type);
  '(query_name, reader) ← resolver_ipc_reader_name reader name_size false;
  _ ← require (at_end reader);
  Next {| q_query_name := query_name; q_query_class := query_class; q_query_id := h_query_id header; q_query_type := query_type |}.

Definition resolver_ipc_request_encode (request : resolver_ipc_request) (packet_capacity : Z) : resolver_ipc_codec_status + bytes :=
  if negb (q_query_class request =? ns_c_in) || negb (resolver_ipc_query_type_valid (q_query_type request)) then bad_argument else
  match resolver_ipc_name_size (q_query_name request) false with
  | None => bad_argument
  | Some name_size =>
      let encoded_size := RESOLVER_IPC_HEADER_SIZE + 2 * 3 + name_size in
      ipc_encode RESOLVER_IPC_PACKET_REQUEST (q_query_id request) packet_capacity encoded_size (fun writer =>
        writer ← resolver_ipc_writer_u16 writer (q_query_class request);
        writer ← resolver_ipc_writer_u16 writer (q_query_type request);
        writer ← resolver_ipc_writer_u16 writer (u16 name_size);
        resolver_ipc_writer_bytes writer (take (Z.to_nat name_size) (q_query_name request)))
  end.

(** ** Addresses *)

Definition resolver_ipc_response_address_decode (packet : option bytes) : reads resolver_ipc_response_address :=
  '(header, reader) ← resolver_ipc_header_decode packet (Some RESOLVER_IPC_PACKET_RESPONSE_ADDRESS);
  '(index, reader) ← resolver_ipc_reader_u16 reader;
  '(family, reader) ← resolver_ipc_reader_u16 reader;
  '(record_ttl, reader) ← resolver_ipc_reader_u32 reader;
  '(effective_ttl, reader) ← resolver_ipc_reader_u32 reader;
  '(address_size, reader) ← resolver_ipc_reader_u16 reader;
  _ ← require ((index <? DNS_ADDRESS_RECORD_LIMIT) && (effective_ttl <=? record_ttl));
  decoded_family ← require_some (resolver_ipc_address_family_decode family);
  '(address, reader) ← resolver_ipc_reader_take reader address_size;
  _ ← require (at_end reader && negb ((decoded_family =? AF_INET) && negb (address_size =? 4))
               && negb ((decoded_family =? AF_INET6) && negb (address_size =? 16)));
  Next {| ra_index := index; ra_query_id := h_query_id header;
          ra_record := {| a_address := {| Proxy.family := decoded_family; err := NET_OK; addr := address |};
                          a_effective_ttl := effective_ttl; a_record_ttl := record_ttl |} |}.

Definition resolver_ipc_response_address_encode (response : resolver_ipc_response_address) (packet_capacity : Z) : resolver_ipc_codec_status + bytes :=
  let record := ra_record response in
  let address := a_address record in
  if (DNS_ADDRESS_RECORD_LIMIT <=? ra_index response) || negb (bool_decide (err address = NET_OK))
     || (a_record_ttl record <? a_effective_ttl record) || (negb (family address =? AF_INET) && negb (family address =? AF_INET6))
  then bad_argument else
  let address_size := if family address =? AF_INET then 4 else 16 in
  let encoded_size := RESOLVER_IPC_HEADER_SIZE + 2 * 3 + 4 * 2 + address_size in
  match resolver_ipc_header_encode RESOLVER_IPC_PACKET_RESPONSE_ADDRESS (ra_query_id response) packet_capacity encoded_size with
  | inl status => inl status
  | inr writer =>
      match resolver_ipc_address_family_encode (family address) with
      | None => bad_argument
      | Some encoded_family =>
          ipc_written (
            writer ← resolver_ipc_writer_u16 writer (ra_index response);
            writer ← resolver_ipc_writer_u16 writer encoded_family;
            writer ← resolver_ipc_writer_u32 writer (a_record_ttl record);
            writer ← resolver_ipc_writer_u32 writer (a_effective_ttl record);
            writer ← resolver_ipc_writer_u16 writer (u16 address_size);
            resolver_ipc_writer_bytes writer (take (Z.to_nat address_size) (addr address)))
      end
  end.

(** ** The begin of a response *)

Definition resolver_ipc_response_begin_decode (packet : option bytes) : reads resolver_ipc_response_begin :=
  '(header, reader) ← resolver_ipc_header_decode packet (Some RESOLVER_IPC_PACKET_RESPONSE_BEGIN);
  '(query_class, reader) ← resolver_ipc_reader_u16 reader;
  '(query_type, reader) ← resolver_ipc_reader_u16 reader;
  '(encoded_status, reader) ← resolver_ipc_reader_u16 reader;
  '(rcode, reader) ← resolver_ipc_reader_u8 reader;
  '(negative_valid, reader) ← resolver_ipc_reader_u8 reader;
  '(seconds, reader) ← resolver_ipc_reader_u64 reader;
  '(nanoseconds, reader) ← resolver_ipc_reader_u32 reader;
  '(cname_count, reader) ← resolver_ipc_reader_u16 reader;
  '(record_count, reader) ← resolver_ipc_reader_u16 reader;
  '(question_size, reader) ← resolver_ipc_reader_u16 reader;
  '(canonical_size, reader) ← resolver_ipc_reader_u16 reader;
  '(negative_owner_size, reader) ← resolver_ipc_reader_u16 reader;
  '(effective_ttl, reader) ← resolver_ipc_reader_u32 reader;
  '(minimum, reader) ← resolver_ipc_reader_u32 reader;
  '(record_ttl, reader) ← resolver_ipc_reader_u32 reader;
  _ ← require ((query_class =? ns_c_in) && resolver_ipc_query_type_valid query_type);
  status ← require_some (resolver_ipc_status_decode encoded_status);
  _ ← require ((rcode <=? 15) && (negative_valid <=? 1));
  completed_at ← require_some (resolver_ipc_time_decode seconds nanoseconds);
  _ ← require (resolver_ipc_response_count_valid query_type cname_count record_count);
  '(question_name, reader) ← resolver_ipc_reader_name reader question_size true;
  '(canonical_name, reader) ← resolver_ipc_reader_name reader canonical_size true;
  '(owner, reader) ← resolver_ipc_reader_name reader negative_owner_size (negative_valid =? 0);
  _ ← require (at_end reader);
  let negative := {| n_effective_ttl := effective_ttl; n_minimum := minimum; n_owner := owner; n_record_ttl := record_ttl;
                     n_valid := negb (negative_valid =? 0) |} in
  _ ← require (resolver_ipc_negative_valid negative);
  Next {| b_canonical_name := canonical_name; b_cname_count := cname_count; b_completed_at := completed_at; b_negative := negative;
          b_question_name := question_name; b_query_class := query_class; b_query_id := h_query_id header; b_query_type := query_type;
          b_rcode := rcode; b_record_count := record_count; b_status := status |}.

Definition resolver_ipc_response_begin_encode (response : resolver_ipc_response_begin) (packet_capacity : Z) : resolver_ipc_codec_status + bytes :=
  let negative := b_negative response in
  if negb (b_query_class response =? ns_c_in) || negb (resolver_ipc_query_type_valid (b_query_type response))
     || negb (resolver_ipc_lookup_status_valid (b_status response)) || (15 <? b_rcode response) || negb (resolver_ipc_negative_valid negative)
     || negb (resolver_ipc_response_count_valid (b_query_type response) (b_cname_count response) (b_record_count response))
  then bad_argument else
  match resolver_ipc_time_encode (b_completed_at response), resolver_ipc_name_size (b_question_name response) true,
        resolver_ipc_name_size (b_canonical_name response) true, resolver_ipc_name_size (n_owner negative) (negb (n_valid negative)) with
  | Some (seconds, nanoseconds), Some question_size, Some canonical_size, Some negative_owner_size =>
      let encoded_size := RESOLVER_IPC_HEADER_SIZE + 2 * 8 + 1 * 2 + 8 + 4 * 4 + question_size + canonical_size + negative_owner_size in
      ipc_encode RESOLVER_IPC_PACKET_RESPONSE_BEGIN (b_query_id response) packet_capacity encoded_size (fun writer =>
        encoded_status ← resolver_ipc_status_encode (b_status response);
        writer ← resolver_ipc_writer_u16 writer (b_query_class response);
        writer ← resolver_ipc_writer_u16 writer (b_query_type response);
        writer ← resolver_ipc_writer_u16 writer encoded_status;
        writer ← resolver_ipc_writer_u8 writer (b_rcode response);
        writer ← resolver_ipc_writer_u8 writer (if n_valid negative then 1 else 0);
        writer ← resolver_ipc_writer_u64 writer seconds;
        writer ← resolver_ipc_writer_u32 writer nanoseconds;
        writer ← resolver_ipc_writer_u16 writer (u16 (b_cname_count response));
        writer ← resolver_ipc_writer_u16 writer (u16 (b_record_count response));
        writer ← resolver_ipc_writer_u16 writer (u16 question_size);
        writer ← resolver_ipc_writer_u16 writer (u16 canonical_size);
        writer ← resolver_ipc_writer_u16 writer (u16 negative_owner_size);
        writer ← resolver_ipc_writer_u32 writer (n_effective_ttl negative);
        writer ← resolver_ipc_writer_u32 writer (n_minimum negative);
        writer ← resolver_ipc_writer_u32 writer (n_record_ttl negative);
        writer ← resolver_ipc_writer_bytes writer (take (Z.to_nat question_size) (b_question_name response));
        writer ← resolver_ipc_writer_bytes writer (take (Z.to_nat canonical_size) (b_canonical_name response));
        resolver_ipc_writer_bytes writer (take (Z.to_nat negative_owner_size) (n_owner negative)))
  | _, _, _, _ => bad_argument
  end.

(** ** Aliases *)

Definition resolver_ipc_response_cname_decode (packet : option bytes) : reads resolver_ipc_response_cname :=
  '(header, reader) ← resolver_ipc_header_decode packet (Some RESOLVER_IPC_PACKET_RESPONSE_CNAME);
  '(index, reader) ← resolver_ipc_reader_u16 reader;
  '(ttl, reader) ← resolver_ipc_reader_u32 reader;
  '(owner_size, reader) ← resolver_ipc_reader_u16 reader;
  '(target_size, reader) ← resolver_ipc_reader_u16 reader;
  _ ← require (index <? DNS_CNAME_DEPTH_LIMIT);
  '(owner, reader) ← resolver_ipc_reader_name reader owner_size false;
  '(target, reader) ← resolver_ipc_reader_name reader target_size false;
  _ ← require (at_end reader);
  Next {| rc_record := {| c_owner := owner; c_target := target; c_ttl := ttl |}; rc_index := index; rc_query_id := h_query_id header |}.

Definition resolver_ipc_response_cname_encode (response : resolver_ipc_response_cname) (packet_capacity : Z) : resolver_ipc_codec_status + bytes :=
  let record := rc_record response in
  if DNS_CNAME_DEPTH_LIMIT <=? rc_index response then bad_argument else
  match resolver_ipc_name_size (c_owner record) false, resolver_ipc_name_size (c_target record) false with
  | Some owner_size, Some target_size =>
      let encoded_size := RESOLVER_IPC_HEADER_SIZE + 2 * 3 + 4 + owner_size + target_size in
      ipc_encode RESOLVER_IPC_PACKET_RESPONSE_CNAME (rc_query_id response) packet_capacity encoded_size (fun writer =>
        writer ← resolver_ipc_writer_u16 writer (rc_index response);
        writer ← resolver_ipc_writer_u32 writer (c_ttl record);
        writer ← resolver_ipc_writer_u16 writer (u16 owner_size);
        writer ← resolver_ipc_writer_u16 writer (u16 target_size);
        writer ← resolver_ipc_writer_bytes writer (take (Z.to_nat owner_size) (c_owner record));
        resolver_ipc_writer_bytes writer (take (Z.to_nat target_size) (c_target record)))
  | _, _ => bad_argument
  end.

(** ** The end of a response *)

Definition resolver_ipc_response_end_decode (packet : option bytes) : reads resolver_ipc_response_end :=
  '(header, reader) ← resolver_ipc_header_decode packet (Some RESOLVER_IPC_PACKET_RESPONSE_END);
  '(cname_count, reader) ← resolver_ipc_reader_u16 reader;
  '(record_count, reader) ← resolver_ipc_reader_u16 reader;
  _ ← require ((cname_count <=? DNS_CNAME_DEPTH_LIMIT)
               && negb ((DNS_ADDRESS_RECORD_LIMIT <? record_count) && (DNS_SRV_RECORD_LIMIT <? record_count)) && at_end reader);
  Next {| e_cname_count := cname_count; e_query_id := h_query_id header; e_record_count := record_count |}.

Definition resolver_ipc_response_end_encode (response : resolver_ipc_response_end) (packet_capacity : Z) : resolver_ipc_codec_status + bytes :=
  if (DNS_CNAME_DEPTH_LIMIT <? e_cname_count response)
     || ((DNS_ADDRESS_RECORD_LIMIT <? e_record_count response) && (DNS_SRV_RECORD_LIMIT <? e_record_count response)) then bad_argument else
  let encoded_size := RESOLVER_IPC_HEADER_SIZE + 2 * 2 in
  ipc_encode RESOLVER_IPC_PACKET_RESPONSE_END (e_query_id response) packet_capacity encoded_size (fun writer =>
    writer ← resolver_ipc_writer_u16 writer (u16 (e_cname_count response));
    resolver_ipc_writer_u16 writer (u16 (e_record_count response))).

(** ** Services *)

Definition resolver_ipc_response_srv_decode (packet : option bytes) : reads resolver_ipc_response_srv :=
  '(header, reader) ← resolver_ipc_header_decode packet (Some RESOLVER_IPC_PACKET_RESPONSE_SRV);
  '(index, reader) ← resolver_ipc_reader_u16 reader;
  '(priority, reader) ← resolver_ipc_reader_u16 reader;
  '(weight, reader) ← resolver_ipc_reader_u16 reader;
  '(port, reader) ← resolver_ipc_reader_u16 reader;
  '(record_ttl, reader) ← resolver_ipc_reader_u32 reader;
  '(effective_ttl, reader) ← resolver_ipc_reader_u32 reader;
  '(target_size, reader) ← resolver_ipc_reader_u16 reader;
  _ ← require ((index <? DNS_SRV_RECORD_LIMIT) && (effective_ttl <=? record_ttl));
  '(target, reader) ← resolver_ipc_reader_name reader target_size false;
  _ ← require (at_end reader);
  Next {| rs_index := index; rs_query_id := h_query_id header;
          rs_record := {| r_priority := priority; r_weight := weight; r_port := port; r_target := target;
                          r_record_ttl := record_ttl; r_effective_ttl := effective_ttl |} |}.

Definition resolver_ipc_response_srv_encode (response : resolver_ipc_response_srv) (packet_capacity : Z) : resolver_ipc_codec_status + bytes :=
  let record := rs_record response in
  if (DNS_SRV_RECORD_LIMIT <=? rs_index response) || (r_record_ttl record <? r_effective_ttl record) then bad_argument else
  match resolver_ipc_name_size (r_target record) false with
  | None => bad_argument
  | Some target_size =>
      let encoded_size := RESOLVER_IPC_HEADER_SIZE + 2 * 5 + 4 * 2 + target_size in
      ipc_encode RESOLVER_IPC_PACKET_RESPONSE_SRV (rs_query_id response) packet_capacity encoded_size (fun writer =>
        writer ← resolver_ipc_writer_u16 writer (rs_index response);
        writer ← resolver_ipc_writer_u16 writer (r_priority record);
        writer ← resolver_ipc_writer_u16 writer (r_weight record);
        writer ← resolver_ipc_writer_u16 writer (r_port record);
        writer ← resolver_ipc_writer_u32 writer (r_record_ttl record);
        writer ← resolver_ipc_writer_u32 writer (r_effective_ttl record);
        writer ← resolver_ipc_writer_u16 writer (u16 target_size);
        resolver_ipc_writer_bytes writer (take (Z.to_nat target_size) (r_target record)))
  end.

(** ** Big-endian fields *)

Definition be1 (v : Z) : bytes := [u8 v].
Definition be2 (v : Z) : bytes := [u8 (Z.shiftr v 8); u8 v].
Definition be4 (v : Z) : bytes := [u8 (Z.shiftr v 24); u8 (Z.shiftr v 16); u8 (Z.shiftr v 8); u8 v].
Definition be8 (v : Z) : bytes := u64_loop 8 v [].

Definition big_endian (source : bytes) : Z := foldl (fun value b => Z.lor (u64 (Z.shiftl value 8)) b) 0 source.

Lemma lor_low a b n : 0 <= n -> 0 <= b < 2 ^ n -> Z.lor (Z.shiftl a n) b = a * 2 ^ n + b.
Proof. intros. rewrite Z.lor_comm, lor_add by done. lia. Qed.

Lemma shl8 a : Z.shiftl a 8 = a * 256.
Proof. by rewrite Z.shiftl_mul_pow2. Qed.
Lemma shr8 a : Z.shiftr a 8 = a / 256.
Proof. by rewrite Z.shiftr_div_pow2. Qed.

Lemma big_endian_snoc s b : 0 <= big_endian s < 2 ^ 56 -> 0 <= b < 256 -> big_endian (s ++ [b]) = big_endian s * 256 + b.
Proof.
  intros Hs Hb. unfold big_endian at 1. rewrite foldl_app. cbn [foldl]. fold (big_endian s).
  rewrite u64_id by (rewrite shl8; lia). by apply (lor_low _ _ 8).
Qed.

Lemma u64_loop_app n v acc : u64_loop n v acc = u64_loop n v [] ++ acc.
Proof.
  revert v acc. induction n as [|n IH]; intros v acc; cbn [u64_loop]; [done|]. rewrite IH, (IH _ [u8 v]), <- app_assoc. done.
Qed.

Lemma u64_loop_snoc n v : u64_loop (S n) v [] = u64_loop n (Z.shiftr v 8) [] ++ [u8 v].
Proof. cbn [u64_loop]. apply u64_loop_app. Qed.

Lemma big_endian_loop n v : (n <= 8)%nat -> 0 <= v < 2 ^ (8 * Z.of_nat n) -> big_endian (u64_loop n v []) = v.
Proof.
  revert v. induction n as [|n IH]; intros v Hn Hv; [change (0 <= v < 1) in Hv; unfold big_endian; simpl; lia|].
  rewrite u64_loop_snoc. assert (E : 2 ^ (8 * Z.of_nat (S n)) = 2 ^ (8 * Z.of_nat n) * 256).
  { replace (8 * Z.of_nat (S n)) with (8 * Z.of_nat n + 8) by lia. by rewrite Z.pow_add_r by lia. }
  rewrite E in Hv. assert (2 ^ (8 * Z.of_nat n) <= 2 ^ 56) by (apply Z.pow_le_mono_r; lia).
  rewrite big_endian_snoc; rewrite ?IH by (rewrite ?shr8; try lia; zlia); rewrite ?shr8; unfold u8; zlia.
Qed.

Lemma loop_big_endian s : is_bytes s -> (length s <= 8)%nat ->
  0 <= big_endian s < 2 ^ (8 * len s) /\ u64_loop (length s) (big_endian s) [] = s.
Proof.
  induction s as [|b s IH] using rev_ind; intros Hb Hl; [done|]. apply is_bytes_app in Hb as [Hs Hb].
  assert (Hbb : 0 <= b < 256) by (by inversion_clear Hb). rewrite length_app in *. simpl in Hl. destruct IH as [Hv IH]; [done|lia|].
  assert (2 ^ (8 * len s) <= 2 ^ 56) by (apply Z.pow_le_mono_r; lia). rewrite big_endian_snoc by lia.
  replace (length s + length [b])%nat with (S (length s)) by (simpl; lia). rewrite u64_loop_snoc, shr8.
  replace ((big_endian s * 256 + b) / 256) with (big_endian s) by zlia. rewrite IH. split.
  - replace (8 * Z.of_nat (S (length s))) with (8 * len s + 8) by lia. rewrite Z.pow_add_r by lia. lia.
  - do 2 f_equal. unfold u8. zlia.
Qed.

Lemma be8_bytes s : is_bytes s -> length s = 8%nat -> 0 <= big_endian s < 2 ^ 64 /\ be8 (big_endian s) = s.
Proof. intros Hb Hl. destruct (loop_big_endian s Hb) as [H1 H2]; [lia|]. rewrite Hl in *. done. Qed.

Lemma big_endian_be8 v : 0 <= v < 2 ^ 64 -> big_endian (be8 v) = v.
Proof. intros H. unfold be8. apply big_endian_loop; [apply Nat.le_refl|exact H]. Qed.

Lemma u16_value a b : is_byte a -> is_byte b -> Z.lor (u16 (Z.shiftl a 8)) b = a * 256 + b.
Proof. unfold is_byte. intros. rewrite u16_id by (rewrite shl8; lia). by apply (lor_low _ _ 8). Qed.

Lemma u32_value a b c d : is_byte a -> is_byte b -> is_byte c -> is_byte d ->
  Z.lor (Z.lor (Z.lor (u32 (Z.shiftl a 24)) (u32 (Z.shiftl b 16))) (u32 (Z.shiftl c 8))) d = ((a * 256 + b) * 256 + c) * 256 + d.
Proof.
  unfold is_byte. intros. rewrite !u32_id by (rewrite Z.shiftl_mul_pow2 by lia; lia).
  change 24 with (8 + 16). rewrite <- (Z.shiftl_shiftl a 8 16), <- Z.shiftl_lor by lia. rewrite (lor_low a b 8) by lia.
  change 16 with (8 + 8). rewrite <- (Z.shiftl_shiftl (a * 2 ^ 8 + b) 8 8), <- Z.shiftl_lor by lia. rewrite (lor_low (a * 2 ^ 8 + b) c 8) by lia.
  rewrite (lor_low _ d 8) by lia. lia.
Qed.

Lemma byte_high a b : is_byte b -> Z.shiftr (a * 256 + b) 8 = a.
Proof. unfold is_byte. intros. rewrite shr8. zlia. Qed.
Lemma byte_low a b : is_byte b -> u8 (a * 256 + b) = b.
Proof. unfold is_byte, u8. intros. zlia. Qed.

Lemma be2_value a b : is_byte a -> is_byte b -> be2 (a * 256 + b) = [a; b].
Proof. intros. unfold be2. rewrite byte_high, byte_low by done. by rewrite u8_id. Qed.
Lemma be4_value a b c d : is_byte a -> is_byte b -> is_byte c -> is_byte d -> be4 (((a * 256 + b) * 256 + c) * 256 + d) = [a; b; c; d].
Proof.
  intros. unfold be4. change 24 with (8 + (8 + 8)). change 16 with (8 + 8). rewrite <- !Z.shiftr_shiftr by lia.
  rewrite !byte_high, !byte_low by done. by rewrite u8_id.
Qed.

Lemma be1_len v : len (be1 v) = 1.
Proof. done. Qed.
Lemma be2_len v : len (be2 v) = 2.
Proof. done. Qed.
Lemma be4_len v : len (be4 v) = 4.
Proof. done. Qed.
Lemma be8_len v : len (be8 v) = 8.
Proof. done. Qed.

(** ** Readers and writers: laws *)

(** The reader of a packet at an offset. *)
Definition reader_at (data : bytes) (off : Z) : resolver_ipc_reader := {| rd_data := data; rd_offset := off; rd_size := len data |}.

Lemma take_case data off rest n : at_off data off rest -> 0 <= n ->
  (exists s rest', rest = s ++ rest' /\ len s = n /\ resolver_ipc_reader_take (reader_at data off) n = Next (s, reader_at data (off + n))) \/
  resolver_ipc_reader_take (reader_at data off) n = malformed.
Proof.
  intros A Hn. pose proof (at_off_len _ _ _ A) as [Hl H0]. unfold resolver_ipc_reader_take. cbn [reader_at rd_data rd_offset rd_size].
  if_as E; [by right|]. left. exists (take (Z.to_nat n) rest), (drop (Z.to_nat n) rest). split; [by rewrite take_drop|].
  assert (len (take (Z.to_nat n) rest) = n) by (rewrite length_take; lia). split; [done|].
  rewrite <- (take_drop (Z.to_nat n) rest) in A. by rewrite (at_off_rdn _ _ _ _ n A) by done.
Qed.

Lemma take_at data off s rest n : at_off data off (s ++ rest) -> n = len s ->
  resolver_ipc_reader_take (reader_at data off) n = Next (s, reader_at data (off + n)).
Proof.
  intros A ->. pose proof (at_off_len _ _ _ A) as [Hl H0]. rewrite len_app in Hl. unfold resolver_ipc_reader_take. cbn [reader_at rd_data rd_offset rd_size].
  if_as E; [lia|]. by rewrite (at_off_rdn _ _ _ _ (len s) A).
Qed.

Lemma at_off_bytes data off rest : at_off data off rest -> is_bytes data -> is_bytes rest.
Proof. intros (pre & -> & _) H. by apply is_bytes_app in H as [_ H]. Qed.

(** Every integer that is read is the one written in its place. *)
Definition reads_field (read : resolver_ipc_reader -> run resolver_ipc_codec_status (Z * resolver_ipc_reader)) (n : Z) (write : Z -> bytes) : Prop :=
  forall data off rest, at_off data off rest -> is_bytes data ->
  (exists v rest', rest = write v ++ rest' /\ 0 <= v < 2 ^ (8 * n) /\ read (reader_at data off) = Next (v, reader_at data (off + len (write v)))) \/
  read (reader_at data off) = malformed.
Definition reads_back (read : resolver_ipc_reader -> run resolver_ipc_codec_status (Z * resolver_ipc_reader)) (n : Z) (write : Z -> bytes) : Prop :=
  forall data off v rest, at_off data off (write v ++ rest) -> 0 <= v < 2 ^ (8 * n) ->
  read (reader_at data off) = Next (v, reader_at data (off + len (write v))).

Lemma u8_field : reads_field resolver_ipc_reader_u8 1 be1.
Proof.
  intros data off rest A Hb. unfold resolver_ipc_reader_u8. destruct (take_case _ _ _ 1 A) as [(s & rest' & -> & Hs & ->)| ->]; [lia| |by right].
  pose proof (at_off_bytes _ _ _ A Hb) as Hx. apply is_bytes_app in Hx as [Hx _]. destruct s as [|a [|]]; simpl in Hs; try lia.
  inversion_clear Hx as [|? ? Ha _]. left. exists a, rest'. split; [|split; [exact Ha|done]]. unfold be1. by rewrite u8_id.
Qed.
Lemma u8_back : reads_back resolver_ipc_reader_u8 1 be1.
Proof. intros data off v rest A Hv. unfold resolver_ipc_reader_u8. rewrite (take_at _ _ _ _ 1 A) by done. cbn. by rewrite u8_id. Qed.

Lemma u16_field : reads_field resolver_ipc_reader_u16 2 be2.
Proof.
  intros data off rest A Hb. unfold resolver_ipc_reader_u16. destruct (take_case _ _ _ 2 A) as [(s & rest' & -> & Hs & ->)| ->]; [lia| |by right].
  pose proof (at_off_bytes _ _ _ A Hb) as Hx. apply is_bytes_app in Hx as [Hx _]. destruct s as [|a [|b [|]]]; simpl in Hs; try lia.
  inversion_clear Hx as [|? ? Ha Hx']. inversion_clear Hx' as [|? ? Hb' _]. left. exists (a * 256 + b), rest'.
  rewrite be2_value by done. split; [done|]. split; [unfold is_byte in *; lia|]. cbn -[u16 Z.shiftl Z.lor Z.add Z.mul reader_at].
  by rewrite u16_value.
Qed.
Lemma u16_back : reads_back resolver_ipc_reader_u16 2 be2.
Proof.
  intros data off v rest A Hv. unfold resolver_ipc_reader_u16. rewrite (take_at _ _ _ _ 2 A) by done.
  cbn -[u16 u8 Z.shiftl Z.shiftr Z.lor Z.add Z.mul reader_at]. rewrite u16_value by apply u8_range. rewrite shr8. unfold u8.
  do 2 f_equal. change (2 ^ (8 * 2)) with 65536 in Hv. zlia.
Qed.

Lemma u32_field : reads_field resolver_ipc_reader_u32 4 be4.
Proof.
  intros data off rest A Hb. unfold resolver_ipc_reader_u32. destruct (take_case _ _ _ 4 A) as [(s & rest' & -> & Hs & ->)| ->]; [lia| |by right].
  pose proof (at_off_bytes _ _ _ A Hb) as Hx. apply is_bytes_app in Hx as [Hx _].
  destruct s as [|a [|b [|c [|d [|]]]]]; simpl in Hs; try lia. repeat (apply Forall_cons_1 in Hx as [? Hx]).
  left. exists (((a * 256 + b) * 256 + c) * 256 + d), rest'. rewrite be4_value by done. split; [done|].
  split; [unfold is_byte in *; lia|]. cbn -[u32 Z.shiftl Z.lor Z.add Z.mul reader_at]. by rewrite u32_value.
Qed.
Lemma u32_back : reads_back resolver_ipc_reader_u32 4 be4.
Proof.
  intros data off v rest A Hv. unfold resolver_ipc_reader_u32. rewrite (take_at _ _ _ _ 4 A) by done.
  cbn -[u32 u8 Z.shiftl Z.shiftr Z.lor Z.add Z.mul reader_at]. rewrite u32_value by apply u8_range. do 2 f_equal.
  change 24 with (8 + (8 + 8)). change 16 with (8 + 8). rewrite <- !Z.shiftr_shiftr by lia. rewrite !shr8. unfold u8.
  change (2 ^ (8 * 4)) with (256 * 256 * 256 * 256) in Hv.
  pose proof (Z.div_mod v 256 ltac:(lia)). pose proof (Z.div_mod (v / 256) 256 ltac:(lia)).
  pose proof (Z.div_mod (v / 256 / 256) 256 ltac:(lia)). rewrite (Z.mod_small (v / 256 / 256 / 256)) by zlia. change (2 ^ 8) with 256. lia.
Qed.

#[local] Opaque be8.

Lemma u64_field : reads_field resolver_ipc_reader_u64 8 be8.
Proof.
  intros data off rest A Hb. unfold resolver_ipc_reader_u64. destruct (take_case _ _ _ 8 A) as [(s & rest' & -> & Hs & ->)| ->]; [lia| |by right].
  pose proof (at_off_bytes _ _ _ A Hb) as Hx. apply is_bytes_app in Hx as [Hx _]. left. exists (big_endian s), rest'.
  destruct (be8_bytes s Hx ltac:(lia)) as [Hr He]. rewrite He. split; [done|]. split; [done|]. cbn [mbind run_bind]. by rewrite Hs.
Qed.
Lemma u64_back : reads_back resolver_ipc_reader_u64 8 be8.
Proof.
  intros data off v rest A Hv. change (2 ^ (8 * 8)) with (2 ^ 64) in Hv. unfold resolver_ipc_reader_u64.
  rewrite (take_at _ _ _ _ 8 A) by (symmetry; apply be8_len). cbn [mbind run_bind].
  change (foldl _ 0 (be8 v)) with (big_endian (be8 v)). rewrite (big_endian_be8 v Hv), be8_len. reflexivity.
Qed.

Lemma name_case data off rest n allow : at_off data off rest -> is_bytes data -> 0 <= n ->
  (exists s rest', rest = s ++ rest' /\ len s = n /\ is_cstr s /\ n < NS_MAXDNAME /\ (allow = false -> n <> 0) /\
     resolver_ipc_reader_name (reader_at data off) n allow = Next (s, reader_at data (off + len s))) \/
  resolver_ipc_reader_name (reader_at data off) n allow = malformed.
Proof.
  intros A Hb Hn. unfold resolver_ipc_reader_name. if_as E; [by right|].
  destruct (take_case _ _ _ n A Hn) as [(s & rest' & -> & Hs & ->)| ->]; [|by right]. cbn [mbind run_bind].
  destruct (index_of 0 s) eqn:Ei; [by right|left]. exists s, rest'. apply index_of_None in Ei.
  pose proof (at_off_bytes _ _ _ A Hb) as Hx. apply is_bytes_app in Hx as [Hx _].
  split; [done|]. split; [done|]. split; [|split; [lia|]; split; [intros ->; simpl in E; lia|by rewrite Hs]].
  unfold is_cstr, is_bytes in *. rewrite !list.Forall_forall in *. intros b Hin. specialize (Ei b Hin). specialize (Hx b Hin). unfold is_byte in Hx. lia.
Qed.

Lemma name_at data off s rest n allow : at_off data off (s ++ rest) -> n = len s -> is_cstr s -> n < NS_MAXDNAME -> (allow = false -> n <> 0) ->
  resolver_ipc_reader_name (reader_at data off) n allow = Next (s, reader_at data (off + len s)).
Proof.
  intros A -> Hs Hn Ha. unfold resolver_ipc_reader_name. if_as E; [destruct allow; [simpl in E; lia|]; specialize (Ha eq_refl); lia|].
  rewrite (take_at _ _ _ _ _ A eq_refl). cbn [mbind run_bind]. rewrite bool_decide_eq_false_2; [done|].
  assert (index_of 0 s = None) as ->; [|by intros [? ?]]. apply index_of_None. revert Hs. apply Forall_impl. lia.
Qed.

Lemma writer_at data size bs : len data + len bs <= size ->
  resolver_ipc_writer_bytes {| wr_data := data; wr_size := size |} bs = Some {| wr_data := data ++ bs; wr_size := size |}.
Proof. intros. unfold resolver_ipc_writer_bytes. cbn [wr_data wr_size]. by if_as E; [lia|]. Qed.

(** The header of a packet. *)
Definition header_bytes (kind : resolver_ipc_packet_kind) (query_id size : Z) : bytes :=
  be4 RESOLVER_IPC_MAGIC ++ be2 RESOLVER_IPC_PROTOCOL_VERSION ++ be2 (resolver_ipc_packet_kind_encode kind) ++ be2 size ++ be2 0 ++ be8 query_id.

Lemma header_bytes_len kind id size : len (header_bytes kind id size) = 20.
Proof. done. Qed.

(** Every integer is written as its field. *)
Definition writes_field (write : resolver_ipc_writer -> Z -> option resolver_ipc_writer) (bytes_of : Z -> bytes) : Prop :=
  forall data size v, len data + len (bytes_of v) <= size ->
  write {| wr_data := data; wr_size := size |} v = Some {| wr_data := data ++ bytes_of v; wr_size := size |}.
Lemma u8_written : writes_field resolver_ipc_writer_u8 be1.
Proof. intros data size v H. by apply writer_at. Qed.
Lemma u16_written : writes_field resolver_ipc_writer_u16 be2.
Proof. intros data size v H. by apply writer_at. Qed.
Lemma u32_written : writes_field resolver_ipc_writer_u32 be4.
Proof. intros data size v H. by apply writer_at. Qed.
Lemma u64_written : writes_field resolver_ipc_writer_u64 be8.
Proof. intros data size v H. by apply writer_at. Qed.

Ltac field_len := rewrite ?len_app, ?be1_len, ?be2_len, ?be4_len, ?be8_len, ?header_bytes_len in *; cbn [length] in *; lia.
Ltac write_fields :=
  repeat (first [rewrite u16_written by field_len | rewrite u32_written by field_len | rewrite u8_written by field_len
                |rewrite u64_written by field_len | rewrite writer_at by field_len]; cbn [mbind option_bind]).

(** Read the next field of the packet, or stop. *)
Tactic Notation "next_field" constr(lemma) hyp(A) ident(v) :=
  let rest := fresh "rest" in
  destruct (lemma _ _ _ A ltac:(assumption)) as [(v & rest & -> & ? & ->)| ->]; [cbn [mbind run_bind]; apply at_off_skip in A|done].
Tactic Notation "next_name" hyp(A) constr(n) constr(allow) ident(s) :=
  let rest := fresh "rest" in
  destruct (name_case _ _ _ n allow A ltac:(assumption) ltac:(lia)) as [(s & rest & -> & ? & ? & ? & ? & ->)| ->];
  [cbn [mbind run_bind]; apply at_off_skip in A|done].
Tactic Notation "next_check" ident(E) :=
  match goal with |- context [require ?b] => destruct b eqn:E; [change (require true) with (Next (E:=resolver_ipc_codec_status) tt); cbn [mbind run_bind]|done] end.
(** A check that succeeds. *)
Tactic Notation "passes" tactic(t) :=
  match goal with |- context [require ?b] =>
    replace b with true by (symmetry; t); change (require true) with (Next (E:=resolver_ipc_codec_status) tt); cbn [mbind run_bind] end.
(** Read a field, or a name, that is there. *)
Tactic Notation "this_field" constr(lemma) hyp(A) := rewrite (lemma _ _ _ _ A) by (first [lia | by vm_compute]); cbn [mbind run_bind]; apply at_off_skip in A.
Tactic Notation "this_name" hyp(A) :=
  rewrite (name_at _ _ _ _ _ _ A) by (done || (unfold NS_MAXDNAME in *; lia) || (intros; lia)); cbn [mbind run_bind]; apply at_off_skip in A.

(** ** Headers *)

Lemma kind_decode_encode v kind : resolver_ipc_packet_kind_decode v = Some kind <-> v = resolver_ipc_packet_kind_encode kind.
Proof.
  split; [|intros ->; by destruct kind]. unfold resolver_ipc_packet_kind_decode. intros H.
  destruct v as [|p|p]; try done. do 3 (try destruct p as [p|p|]); by simplify_eq.
Qed.

Lemma header_case packet expected : is_bytes packet ->
  match resolver_ipc_header_decode (Some packet) expected with
  | Next (h, reader) => exists body, packet = header_bytes (h_kind h) (h_query_id h) (len packet) ++ body /\ 0 < h_query_id h < 2 ^ 64 /\
      len packet <= RESOLVER_IPC_PACKET_BYTE_LIMIT /\ (forall kind, expected = Some kind -> h_kind h = kind) /\ reader = reader_at packet 20
  | Return _ => True
  | Oob => False
  end.
Proof.
  intros Hb. unfold resolver_ipc_header_decode. if_as E1; [done|]. if_as E2; [done|].
  change {| rd_data := packet; rd_offset := 0; rd_size := len packet |} with (reader_at packet 0).
  pose proof (at_off_start packet) as A. remember packet as rest0 eqn:Hp in A at 2.
  next_field u32_field A magic. next_field u16_field A version. next_field u16_field A kind. next_field u16_field A sz.
  next_field u16_field A reserved. next_field u64_field A id. if_as E3; [done|]. if_as E4; [done|].
  destruct (resolver_ipc_packet_kind_decode kind) as [k|] eqn:Ek; [|done]. apply kind_decode_encode in Ek. if_as E5; [done|].
  rewrite !orb_false_iff, !negb_false_iff in E3. match type of A with at_off _ _ ?r => exists r end. cbn [h_kind h_query_id]. change (2 ^ (8 * 8)) with (2 ^ 64) in *.
  split; [|split; [lia|]; split; [lia|]; split; [|by rewrite !be2_len, be4_len, be8_len]].
  - unfold header_bytes. rewrite <- !app_assoc. replace RESOLVER_IPC_MAGIC with magic by lia.
    replace RESOLVER_IPC_PROTOCOL_VERSION with version by lia. replace (len packet) with sz by lia. replace 0 with reserved at 1 by lia.
    by rewrite <- Ek, <- Hp.
  - intros kind' ->. apply negb_false_iff, bool_decide_eq_true in E5. done.
Qed.

Lemma header_at kind id body expected : 0 < id < 2 ^ 64 -> 20 + len body <= RESOLVER_IPC_PACKET_BYTE_LIMIT ->
  expected = None \/ expected = Some kind ->
  let packet := header_bytes kind id (20 + len body) ++ body in
  resolver_ipc_header_decode (Some packet) expected = Next ({| h_kind := kind; h_query_id := id |}, reader_at packet 20).
Proof.
  intros Hid Hl He packet. assert (Hlen : len packet = 20 + len body) by (unfold packet; by rewrite len_app, header_bytes_len).
  unfold resolver_ipc_header_decode, RESOLVER_IPC_PACKET_BYTE_LIMIT, RESOLVER_IPC_HEADER_SIZE in *. if_as E1; [lia|]. if_as E2; [lia|].
  change {| rd_data := packet; rd_offset := 0; rd_size := len packet |} with (reader_at packet 0).
  pose proof (at_off_start packet) as A. unfold packet in A at 2. unfold header_bytes in A. rewrite <- !app_assoc in A.
  this_field u32_back A. this_field u16_back A. rewrite (u16_back _ _ _ _ A) by (destruct kind; done). cbn [mbind run_bind]. apply at_off_skip in A.
  this_field u16_back A. this_field u16_back A. this_field u64_back A. rewrite Hlen, !Z.eqb_refl. cbn [negb orb].
  if_as E3; [lia|]. rewrite (proj2 (kind_decode_encode _ kind) eq_refl).
  destruct He as [->| ->]; [by rewrite !be2_len, be4_len, be8_len|].
  rewrite bool_decide_eq_true_2 by done. by rewrite !be2_len, be4_len, be8_len.
Qed.

Lemma header_encode_at kind id cap size : 0 < id -> 20 <= size <= RESOLVER_IPC_PACKET_BYTE_LIMIT ->
  resolver_ipc_header_encode kind id cap size =
  if cap <? size then inl RESOLVER_IPC_CODEC_LIMIT else inr {| wr_data := header_bytes kind id size; wr_size := size |}.
Proof.
  intros Hid Hs. unfold resolver_ipc_header_encode, RESOLVER_IPC_PACKET_BYTE_LIMIT, UINT16_MAX in *. if_as E1; [lia|].
  destruct (cap <? size) eqn:E; [by rewrite orb_true_r|]. if_as E2; [lia|]. rewrite u16_id by lia.
  write_fields. cbn [app]. by rewrite <- !app_assoc.
Qed.

(** ** Codecs *)

(** The packets of one kind: what they carry, which messages they can carry, and
    the two routines. *)
Class ipc_codec (A : Type) := {
  codec_kind : resolver_ipc_packet_kind; codec_id : A -> Z; codec_body : A -> bytes; codec_valid : A -> Prop;
  codec_encode : A -> Z -> resolver_ipc_codec_status + bytes; codec_decode : option bytes -> run resolver_ipc_codec_status A;
}.

Definition codec_wire `{ipc_codec A} (m : A) : bytes := header_bytes codec_kind (codec_id m) (20 + len (codec_body m)) ++ codec_body m.

(** A message that can be carried is encoded as its packet, or refused for lack of
    room; a packet is accepted exactly when it is that of such a message. *)
Class ipc_codec_laws (A : Type) `{ipc_codec A} : Prop := {
  codec_encodes : forall (m : A) capacity, codec_valid m ->
    codec_encode m capacity = if capacity <? len (codec_wire m) then inl RESOLVER_IPC_CODEC_LIMIT else inr (codec_wire m);
  codec_decodes : forall m : A, codec_valid m -> codec_decode (Some (codec_wire m)) = Next m;
  codec_accepts : forall packet, is_bytes packet ->
    match codec_decode (Some packet) with Next m => codec_valid m /\ packet = codec_wire m | Return _ => True | Oob => False end;
  codec_fits : forall m : A, codec_valid m -> 0 < codec_id m < 2 ^ 64 /\ 20 + len (codec_body m) <= RESOLVER_IPC_PACKET_BYTE_LIMIT;
}.

(** Lookups of the common end of the encoders and of the start of the decoders. *)
Lemma encode_at kind id cap size write body : 0 < id -> size = 20 + len body -> size <= RESOLVER_IPC_PACKET_BYTE_LIMIT ->
  write {| wr_data := header_bytes kind id size; wr_size := size |} = Some {| wr_data := header_bytes kind id size ++ body; wr_size := size |} ->
  ipc_encode kind id cap size write =
  if cap <? len (header_bytes kind id (20 + len body) ++ body) then inl RESOLVER_IPC_CODEC_LIMIT else inr (header_bytes kind id (20 + len body) ++ body).
Proof.
  intros Hid Hs Hl Hw. unfold ipc_encode. rewrite header_encode_at by lia. rewrite len_app, header_bytes_len, <- Hs.
  destruct (cap <? size); [done|]. rewrite Hw. unfold ipc_written. cbn [wr_data wr_size]. if_as E; [|done].
  rewrite len_app, header_bytes_len in E. lia.
Qed.

Lemma decode_start {A} packet kind (k : resolver_ipc_packet_header * resolver_ipc_reader -> run resolver_ipc_codec_status A) (P : A -> Prop) :
  is_bytes packet ->
  (forall id body, packet = header_bytes kind id (20 + len body) ++ body -> 0 < id < 2 ^ 64 -> 20 + len body <= RESOLVER_IPC_PACKET_BYTE_LIMIT ->
     at_off packet 20 body -> match k ({| h_kind := kind; h_query_id := id |}, reader_at packet 20) with Next m => P m | Return _ => True | Oob => False end) ->
  match resolver_ipc_header_decode (Some packet) (Some kind) ≫= k with Next m => P m | Return _ => True | Oob => False end.
Proof.
  intros Hb Hk. pose proof (header_case packet (Some kind) Hb) as H.
  destruct (resolver_ipc_header_decode (Some packet) (Some kind)) as [[h reader]|e|]; [|done..].
  destruct H as (body & Hp & Hid & Hl & Hx & ->). specialize (Hx kind eq_refl). destruct h as [k' id]. cbn [h_kind h_query_id] in *. subst k'.
  assert (Hlen : len packet = 20 + len body) by (rewrite Hp, len_app, header_bytes_len; lia). rewrite Hlen in *. cbn [mbind run_bind].
  apply (Hk id body); try done. exists (header_bytes kind id (20 + len body)). by split; [|rewrite header_bytes_len].
Qed.

Lemma decode_at {A} kind id body (k : resolver_ipc_packet_header * resolver_ipc_reader -> run resolver_ipc_codec_status A) (m : A) :
  0 < id < 2 ^ 64 -> 20 + len body <= RESOLVER_IPC_PACKET_BYTE_LIMIT ->
  (forall packet, at_off packet 20 (body ++ []) -> k ({| h_kind := kind; h_query_id := id |}, reader_at packet 20) = Next m) ->
  resolver_ipc_header_decode (Some (header_bytes kind id (20 + len body) ++ body)) (Some kind) ≫= k = Next m.
Proof.
  intros Hid Hl Hk. rewrite header_at by (done || by right). cbn [mbind run_bind]. apply Hk.
  exists (header_bytes kind id (20 + len body)). by rewrite app_nil_r.
Qed.

Lemma at_end_nil data off rest : at_off data off rest -> at_end (reader_at data off) = true -> rest = [].
Proof.
  intros A He. pose proof (at_off_len _ _ _ A) as [Hl _]. unfold at_end in He. cbn [rd_offset rd_size reader_at] in He.
  destruct rest; [done|]. rewrite len_cons in Hl. lia.
Qed.

Lemma at_end_at data off : at_off data off [] -> at_end (reader_at data off) = true.
Proof. intros A. pose proof (at_off_len _ _ _ A) as [Hl _]. unfold at_end. cbn. change (len []) with 0 in Hl. lia. Qed.

Lemma name_size_ok name allow : 1 <= len name < NS_MAXDNAME \/ (allow = true /\ len name < NS_MAXDNAME) ->
  resolver_ipc_name_size name allow = Some (len name).
Proof.
  intros H. unfold resolver_ipc_name_size. if_as E; [|by rewrite Z.min_l by lia]. unfold NS_MAXDNAME in *. destruct allow; simpl in E; lia.
Qed.

(** ** Requests *)

Definition valid_name (name : bytes) : Prop := is_cstr name /\ 1 <= len name < NS_MAXDNAME.

#[export] Instance request_codec : ipc_codec resolver_ipc_request := {|
  codec_kind := RESOLVER_IPC_PACKET_REQUEST; codec_id := q_query_id;
  codec_body q := be2 (q_query_class q) ++ be2 (q_query_type q) ++ be2 (len (q_query_name q)) ++ q_query_name q;
  codec_valid q := 0 < q_query_id q < 2 ^ 64 /\ q_query_class q = ns_c_in /\ resolver_ipc_query_type_valid (q_query_type q) = true /\ valid_name (q_query_name q);
  codec_encode := resolver_ipc_request_encode; codec_decode := resolver_ipc_request_decode |}.

Lemma query_type_range t : resolver_ipc_query_type_valid t = true -> 0 <= t < 2 ^ 16.
Proof. unfold resolver_ipc_query_type_valid, ns_t_a, ns_t_aaaa, ns_t_srv. lia. Qed.

#[export] Instance request_codec_laws : ipc_codec_laws resolver_ipc_request.
Proof.
  split; cbn [codec_kind codec_id codec_body codec_valid codec_encode codec_decode request_codec].
  - intros q cap (Hid & Hc & Ht & Hn & Hl). unfold codec_wire. cbn [codec_kind codec_id codec_body request_codec].
    unfold resolver_ipc_request_encode. rewrite Hc, Ht. cbn [Z.eqb Pos.eqb negb orb ns_c_in].
    rewrite name_size_ok by (by left). unfold NS_MAXDNAME in Hl. rewrite u16_id by lia. rewrite firstn_all2 by lia.
    apply encode_at.
    + lia.
    + unfold RESOLVER_IPC_HEADER_SIZE. field_len.
    + unfold RESOLVER_IPC_HEADER_SIZE, RESOLVER_IPC_PACKET_BYTE_LIMIT. lia.
    + unfold RESOLVER_IPC_HEADER_SIZE. write_fields. by rewrite <- !app_assoc.
  - intros q (Hid & Hc & Ht & Hn & Hl). unfold codec_wire, resolver_ipc_request_decode. cbn [codec_kind codec_id codec_body request_codec].
    pose proof (query_type_range _ Ht). unfold NS_MAXDNAME in Hl. apply decode_at; [done|unfold RESOLVER_IPC_PACKET_BYTE_LIMIT; field_len|].
    intros packet A. rewrite <- !app_assoc in A. rewrite Hc in *.
    this_field u16_back A. this_field u16_back A. this_field u16_back A. passes (by rewrite Ht).
    this_name A. passes (by apply at_end_at). rewrite <- Hc. by destruct q.
  - intros packet Hb. unfold resolver_ipc_request_decode. apply decode_start; [done|]. intros id body Hp Hid Hlim A.
    next_field u16_field A class. next_field u16_field A type. next_field u16_field A name_size. next_check E.
    next_name A name_size false name. next_check E2. apply (at_end_nil _ _ _ A) in E2 as ->. apply andb_true_iff in E as [E1 E2].
    unfold codec_wire. cbn [codec_kind codec_id codec_body request_codec q_query_id q_query_class q_query_type q_query_name h_query_id]. split.
    + repeat split; try done; try lia.
    + rewrite app_nil_r in Hp. by replace (len name) with name_size.
  - intros q (Hid & Hc & Ht & Hn & Hl). split; [done|]. unfold NS_MAXDNAME, RESOLVER_IPC_PACKET_BYTE_LIMIT in *. field_len.
Qed.

(** ** Addresses *)

Definition family_code (family : Z) : Z := if family =? AF_INET then RESOLVER_IPC_ADDRESS_IPV4 else RESOLVER_IPC_ADDRESS_IPV6.

#[export] Instance address_codec : ipc_codec resolver_ipc_response_address := {|
  codec_kind := RESOLVER_IPC_PACKET_RESPONSE_ADDRESS; codec_id := ra_query_id;
  codec_body r := let a := ra_record r in
    be2 (ra_index r) ++ be2 (family_code (family (a_address a))) ++ be4 (a_record_ttl a) ++ be4 (a_effective_ttl a)
    ++ be2 (len (addr (a_address a))) ++ addr (a_address a);
  codec_valid r := let a := ra_record r in
    0 < ra_query_id r < 2 ^ 64 /\ 0 <= ra_index r < DNS_ADDRESS_RECORD_LIMIT /\ err (a_address a) = NET_OK /\
    0 <= a_effective_ttl a <= a_record_ttl a /\ a_record_ttl a < 2 ^ 32 /\ is_bytes (addr (a_address a)) /\
    ((family (a_address a) = AF_INET /\ len (addr (a_address a)) = 4) \/ (family (a_address a) = AF_INET6 /\ len (addr (a_address a)) = 16));
  codec_encode := resolver_ipc_response_address_encode; codec_decode := resolver_ipc_response_address_decode |}.

Lemma address_encodes r cap : codec_valid r -> codec_encode r cap = if cap <? len (codec_wire r) then inl RESOLVER_IPC_CODEC_LIMIT else inr (codec_wire r).
Proof.
  intros (Hid & Hi & He & Ht & Hr & Hb & Hf). unfold codec_wire. cbn [codec_kind codec_id codec_body codec_encode address_codec].
  unfold resolver_ipc_response_address_encode, DNS_ADDRESS_RECORD_LIMIT in *. set (a := a_address (ra_record r)) in *.
  rewrite bool_decide_eq_true_2 by done. if_as E; [unfold AF_INET, AF_INET6 in *; simpl in E; lia|]. clear E.
  assert (Hs : (if family a =? AF_INET then 4 else 16) = len (addr a)) by (destruct Hf as [[-> ->]|[-> ->]]; done). rewrite Hs.
  assert (Hx : resolver_ipc_address_family_encode (family a) = Some (family_code (family a))) by (destruct Hf as [[-> _]|[-> _]]; done). rewrite Hx.
  set (body := be2 (ra_index r) ++ _). assert (Hbl : len body = 14 + len (addr a)) by (unfold body; field_len).
  pose proof (encode_at RESOLVER_IPC_PACKET_RESPONSE_ADDRESS (ra_query_id r) cap (RESOLVER_IPC_HEADER_SIZE + 2 * 3 + 4 * 2 + len (addr a))
    (fun writer => writer ← resolver_ipc_writer_u16 writer (ra_index r); writer ← resolver_ipc_writer_u16 writer (family_code (family a));
        writer ← resolver_ipc_writer_u32 writer (a_record_ttl (ra_record r)); writer ← resolver_ipc_writer_u32 writer (a_effective_ttl (ra_record r));
        writer ← resolver_ipc_writer_u16 writer (u16 (len (addr a))); resolver_ipc_writer_bytes writer (take (Z.to_nat (len (addr a))) (addr a))) body) as Hen.
  unfold ipc_encode in Hen. apply Hen; unfold RESOLVER_IPC_HEADER_SIZE, RESOLVER_IPC_PACKET_BYTE_LIMIT; [lia..|].
  rewrite u16_id by lia. rewrite firstn_all2 by lia. write_fields. unfold body. by rewrite <- !app_assoc.
Qed.

Lemma address_decodes r : codec_valid r -> codec_decode (Some (codec_wire r)) = Next r.
Proof.
  intros (Hid & Hi & He & Ht & Hr & Hb & Hf). unfold codec_wire. cbn [codec_kind codec_id codec_body codec_decode address_codec].
  unfold resolver_ipc_response_address_decode, DNS_ADDRESS_RECORD_LIMIT in *. set (a := a_address (ra_record r)) in *.
  assert (Hc : 0 <= family_code (family a) < 3 /\ resolver_ipc_address_family_decode (family_code (family a)) = Some (family a))
    by (destruct Hf as [[-> _]|[-> _]]; done). destruct Hc as [Hc Hd].
  apply decode_at; [done|unfold RESOLVER_IPC_PACKET_BYTE_LIMIT; field_len|]. intros packet A. rewrite <- !app_assoc in A.
  this_field u16_back A. this_field u16_back A. this_field u32_back A. this_field u32_back A. this_field u16_back A.
  passes (unfold DNS_ADDRESS_RECORD_LIMIT; lia). rewrite Hd. cbn [require_some mbind run_bind].
  rewrite (take_at _ _ _ _ _ A eq_refl). cbn [mbind run_bind]. apply at_off_skip in A. rewrite (at_end_at _ _ A).
  passes (unfold AF_INET, AF_INET6 in *; simpl; lia). destruct r as [i id [[f er ad] eff rec]]. unfold a in *. cbn in *. by rewrite He.
Qed.

Lemma address_accepts packet : is_bytes packet ->
  match codec_decode (Some packet) with Next m => codec_valid m /\ packet = codec_wire m | Return _ => True | Oob => False end.
Proof.
  intros Hb. cbn [codec_decode address_codec]. unfold resolver_ipc_response_address_decode. apply decode_start; [done|]. intros id body Hp Hid Hlim A.
  next_field u16_field A index. next_field u16_field A fam. next_field u32_field A record_ttl. next_field u32_field A effective_ttl.
  next_field u16_field A address_size. next_check E. unfold resolver_ipc_address_family_decode.
  destruct (resolver_ipc_address_family_decode fam) as [f|] eqn:Ef; unfold resolver_ipc_address_family_decode in Ef; rewrite Ef; [|done].
  cbn [require_some mbind run_bind]. pose proof (at_off_bytes _ _ _ A Hb) as Hab.
  destruct (take_case _ _ _ address_size A) as [(s & rest' & -> & Hs & ->)| ->]; [lia| |done]. cbn [mbind run_bind].
  rewrite <- Hs in *. apply at_off_skip in A. next_check E2. rewrite !andb_true_iff in E2. destruct E2 as [[E2 E3] E4].
  apply (at_end_nil _ _ _ A) in E2 as ->. apply is_bytes_app in Hab as [Hab _]. rewrite app_nil_r in Hp.
  unfold codec_wire. cbn [codec_kind codec_id codec_body codec_valid address_codec ra_index ra_query_id ra_record a_address a_record_ttl a_effective_ttl
    family err addr h_query_id]. unfold DNS_ADDRESS_RECORD_LIMIT, RESOLVER_IPC_ADDRESS_IPV4, RESOLVER_IPC_ADDRESS_IPV6 in *.
  assert (Hf : (f = AF_INET /\ fam = 1) \/ (f = AF_INET6 /\ fam = 2)) by (destruct (fam =? 1) eqn:?, (fam =? 2) eqn:?; simplify_eq; lia).
  split; [|by destruct Hf as [[-> ->]|[-> ->]]].
  do 3 (split; [done || lia|]). split; [lia|]. split; [lia|]. split; [done|]. destruct Hf as [[-> _]|[-> _]]; simpl in E3, E4; [left|right]; split; lia || done.
Qed.

#[export] Instance address_codec_laws : ipc_codec_laws resolver_ipc_response_address.
Proof.
  split; [apply address_encodes|apply address_decodes|apply address_accepts|]. intros r (Hid & Hi & He & Ht & Hr & Hb & Hf).
  cbn [codec_id codec_body address_codec]. split; [done|]. unfold RESOLVER_IPC_PACKET_BYTE_LIMIT. field_len.
Qed.

(** ** Aliases *)

#[export] Instance cname_codec : ipc_codec resolver_ipc_response_cname := {|
  codec_kind := RESOLVER_IPC_PACKET_RESPONSE_CNAME; codec_id := rc_query_id;
  codec_body r := let c := rc_record r in
    be2 (rc_index r) ++ be4 (c_ttl c) ++ be2 (len (c_owner c)) ++ be2 (len (c_target c)) ++ c_owner c ++ c_target c;
  codec_valid r := let c := rc_record r in
    0 < rc_query_id r < 2 ^ 64 /\ 0 <= rc_index r < DNS_CNAME_DEPTH_LIMIT /\ 0 <= c_ttl c < 2 ^ 32 /\ valid_name (c_owner c) /\ valid_name (c_target c);
  codec_encode := resolver_ipc_response_cname_encode; codec_decode := resolver_ipc_response_cname_decode |}.

#[export] Instance cname_codec_laws : ipc_codec_laws resolver_ipc_response_cname.
Proof.
  split; cbn [codec_valid codec_encode codec_decode cname_codec].
  - intros r cap (Hid & Hi & Ht & [Ho Hol] & [Hg Hgl]). unfold codec_wire. cbn [codec_kind codec_id codec_body cname_codec].
    unfold resolver_ipc_response_cname_encode, DNS_CNAME_DEPTH_LIMIT in *. if_as E; [lia|]. rewrite !name_size_ok by (by left).
    unfold NS_MAXDNAME in *. rewrite !u16_id, !firstn_all2 by lia.
    apply encode_at; unfold RESOLVER_IPC_HEADER_SIZE, RESOLVER_IPC_PACKET_BYTE_LIMIT; [lia|field_len|lia|]. write_fields. by rewrite <- !app_assoc.
  - intros r (Hid & Hi & Ht & [Ho Hol] & [Hg Hgl]). unfold codec_wire, resolver_ipc_response_cname_decode. cbn [codec_kind codec_id codec_body cname_codec].
    unfold NS_MAXDNAME, DNS_CNAME_DEPTH_LIMIT in *. apply decode_at; [done|unfold RESOLVER_IPC_PACKET_BYTE_LIMIT; field_len|].
    intros packet A. rewrite <- !app_assoc in A. this_field u16_back A. this_field u32_back A. this_field u16_back A. this_field u16_back A.
    passes lia. this_name A. this_name A. passes (by apply at_end_at). by destruct r as [[] ? ?].
  - intros packet Hb. unfold resolver_ipc_response_cname_decode. apply decode_start; [done|]. intros id body Hp Hid Hlim A.
    next_field u16_field A index. next_field u32_field A ttl. next_field u16_field A owner_size. next_field u16_field A target_size. next_check E.
    next_name A owner_size false owner. next_name A target_size false target. next_check E2. apply (at_end_nil _ _ _ A) in E2 as ->.
    rewrite app_nil_r in Hp. unfold codec_wire. cbn. split; [repeat split; try done; try lia|]. by replace (len owner) with owner_size; replace (len target) with target_size.
  - intros r (Hid & Hi & Ht & [Ho Hol] & [Hg Hgl]). cbn [codec_id codec_body cname_codec]. split; [done|].
    unfold NS_MAXDNAME, RESOLVER_IPC_PACKET_BYTE_LIMIT in *. field_len.
Qed.

(** ** The end of a response *)

#[export] Instance end_codec : ipc_codec resolver_ipc_response_end := {|
  codec_kind := RESOLVER_IPC_PACKET_RESPONSE_END; codec_id := e_query_id;
  codec_body r := be2 (e_cname_count r) ++ be2 (e_record_count r);
  codec_valid r := 0 < e_query_id r < 2 ^ 64 /\ 0 <= e_cname_count r <= DNS_CNAME_DEPTH_LIMIT /\
    0 <= e_record_count r <= Z.max DNS_ADDRESS_RECORD_LIMIT DNS_SRV_RECORD_LIMIT;
  codec_encode := resolver_ipc_response_end_encode; codec_decode := resolver_ipc_response_end_decode |}.

#[export] Instance end_codec_laws : ipc_codec_laws resolver_ipc_response_end.
Proof.
  split; cbn [codec_valid codec_encode codec_decode end_codec]; unfold DNS_CNAME_DEPTH_LIMIT, DNS_ADDRESS_RECORD_LIMIT, DNS_SRV_RECORD_LIMIT.
  - intros r cap (Hid & Hc & Hr). unfold codec_wire. cbn [codec_kind codec_id codec_body end_codec].
    unfold resolver_ipc_response_end_encode, DNS_CNAME_DEPTH_LIMIT, DNS_ADDRESS_RECORD_LIMIT, DNS_SRV_RECORD_LIMIT in *. if_as E; [lia|].
    rewrite !u16_id by lia. apply encode_at; unfold RESOLVER_IPC_HEADER_SIZE, RESOLVER_IPC_PACKET_BYTE_LIMIT; [lia|field_len|lia|].
    write_fields. by rewrite <- !app_assoc.
  - intros r (Hid & Hc & Hr). unfold codec_wire, resolver_ipc_response_end_decode. cbn [codec_kind codec_id codec_body end_codec].
    unfold DNS_CNAME_DEPTH_LIMIT, DNS_ADDRESS_RECORD_LIMIT, DNS_SRV_RECORD_LIMIT.
    apply decode_at; [done|unfold RESOLVER_IPC_PACKET_BYTE_LIMIT; field_len|]. intros packet A. rewrite <- !app_assoc in A.
    this_field u16_back A. this_field u16_back A. rewrite (at_end_at _ _ A). passes lia. by destruct r.
  - intros packet Hb. unfold resolver_ipc_response_end_decode, DNS_CNAME_DEPTH_LIMIT, DNS_ADDRESS_RECORD_LIMIT, DNS_SRV_RECORD_LIMIT.
    apply decode_start; [done|]. intros id body Hp Hid Hlim A.
    next_field u16_field A cname_count. next_field u16_field A record_count. next_check E. rewrite !andb_true_iff in E. destruct E as [[E1 E2] E3].
    apply (at_end_nil _ _ _ A) in E3 as ->. rewrite app_nil_r in Hp. unfold codec_wire. cbn. split; [repeat split; try done; lia|done].
  - intros r (Hid & Hc & Hr). cbn [codec_id codec_body end_codec]. split; [done|]. unfold RESOLVER_IPC_PACKET_BYTE_LIMIT. field_len.
Qed.

(** ** Services *)

#[export] Instance srv_codec : ipc_codec resolver_ipc_response_srv := {|
  codec_kind := RESOLVER_IPC_PACKET_RESPONSE_SRV; codec_id := rs_query_id;
  codec_body r := let v := rs_record r in
    be2 (rs_index r) ++ be2 (r_priority v) ++ be2 (r_weight v) ++ be2 (r_port v) ++ be4 (r_record_ttl v) ++ be4 (r_effective_ttl v)
    ++ be2 (len (r_target v)) ++ r_target v;
  codec_valid r := let v := rs_record r in
    0 < rs_query_id r < 2 ^ 64 /\ 0 <= rs_index r < DNS_SRV_RECORD_LIMIT /\ 0 <= r_priority v < 2 ^ 16 /\ 0 <= r_weight v < 2 ^ 16 /\
    0 <= r_port v < 2 ^ 16 /\ 0 <= r_effective_ttl v <= r_record_ttl v /\ r_record_ttl v < 2 ^ 32 /\ valid_name (r_target v);
  codec_encode := resolver_ipc_response_srv_encode; codec_decode := resolver_ipc_response_srv_decode |}.

#[export] Instance srv_codec_laws : ipc_codec_laws resolver_ipc_response_srv.
Proof.
  split; cbn [codec_valid codec_encode codec_decode srv_codec].
  - intros r cap (Hid & Hi & Hpr & Hw & Hpo & Ht & Hr & [Hg Hgl]). unfold codec_wire. cbn [codec_kind codec_id codec_body srv_codec].
    unfold resolver_ipc_response_srv_encode, DNS_SRV_RECORD_LIMIT in *. if_as E; [lia|]. rewrite name_size_ok by (by left).
    unfold NS_MAXDNAME in *. rewrite u16_id, firstn_all2 by lia.
    apply encode_at; unfold RESOLVER_IPC_HEADER_SIZE, RESOLVER_IPC_PACKET_BYTE_LIMIT; [lia|field_len|lia|]. write_fields. by rewrite <- !app_assoc.
  - intros r (Hid & Hi & Hpr & Hw & Hpo & Ht & Hr & [Hg Hgl]). unfold codec_wire, resolver_ipc_response_srv_decode. cbn [codec_kind codec_id codec_body srv_codec].
    unfold NS_MAXDNAME, DNS_SRV_RECORD_LIMIT in *. apply decode_at; [done|unfold RESOLVER_IPC_PACKET_BYTE_LIMIT; field_len|].
    intros packet A. rewrite <- !app_assoc in A. do 4 this_field u16_back A. do 2 this_field u32_back A. this_field u16_back A.
    passes lia. this_name A. passes (by apply at_end_at). by destruct r as [? ? []].
  - intros packet Hb. unfold resolver_ipc_response_srv_decode. apply decode_start; [done|]. intros id body Hp Hid Hlim A.
    next_field u16_field A index. next_field u16_field A priority. next_field u16_field A weight. next_field u16_field A port.
    next_field u32_field A record_ttl. next_field u32_field A effective_ttl. next_field u16_field A target_size. next_check E.
    next_name A target_size false target. next_check E2. apply (at_end_nil _ _ _ A) in E2 as ->. apply andb_true_iff in E as [E1 E2].
    rewrite app_nil_r in Hp. unfold codec_wire. cbn. split; [repeat split; try done; try lia|]. by replace (len target) with target_size.
  - intros r (Hid & Hi & Hpr & Hw & Hpo & Ht & Hr & [Hg Hgl]). cbn [codec_id codec_body srv_codec]. split; [done|].
    unfold NS_MAXDNAME, RESOLVER_IPC_PACKET_BYTE_LIMIT in *. field_len.
Qed.

(** ** The begin of a response *)

Lemma status_range status : resolver_ipc_lookup_status_valid status = true <-> 1 <= status <= 10.
Proof.
  unfold resolver_ipc_lookup_status_valid. rewrite bool_decide_eq_true. split.
  - intros [m H]. apply List.find_some in H as [Hin He]. apply Z.eqb_eq in He. subst status.
    repeat (destruct Hin as [<-|Hin]; [vm_compute; split; discriminate|]). done.
  - intros H. assert (Hx : exists n, status = Z.of_nat (S n) /\ (n < 10)%nat) by (exists (Z.to_nat (status - 1)); lia).
    destruct Hx as (n & -> & Hn). do 10 (destruct n as [|n]; [by eexists|]). lia.
Qed.

Lemma time_encoded t : valid t -> resolver_ipc_time_encode t = Some (tv_sec t, tv_nsec t).
Proof.
  intros Hv. pose proof Hv as [Hb _]. apply valid_spec in Hv as [H1 H2]. unfold resolver_ipc_time_encode. rewrite Hb. cbn [negb].
  rewrite u64_id, u32_id by lia. unfold time_t_of. replace (tv_sec t <? 2 ^ 63) with true by lia. by rewrite Z.eqb_refl.
Qed.

Lemma time_decoded s n t : 0 <= s < 2 ^ 64 -> 0 <= n -> resolver_ipc_time_decode s n = Some t <-> valid t /\ s = tv_sec t /\ n = tv_nsec t.
Proof.
  intros Hs Hn. unfold resolver_ipc_time_decode. destruct t as [a b]. rewrite valid_spec. cbn [tv_sec tv_nsec]. if_as E1; [split; [done|lia]|].
  rewrite time_t_of_spec by done. if_as E2; [split; [done|lia]|]. unfold time_t_of. replace (s <? 2 ^ 63) with true by lia.
  split; [intros [= <- <-]; lia|intros (_ & -> & ->); done].
Qed.

Definition negative_typed (n : dns_negative_record) : Prop :=
  0 <= n_effective_ttl n < 2 ^ 32 /\ 0 <= n_minimum n < 2 ^ 32 /\ 0 <= n_record_ttl n < 2 ^ 32 /\ is_cstr (n_owner n).

Lemma negative_owner n : resolver_ipc_negative_valid n = true -> resolver_ipc_name_size (n_owner n) (negb (n_valid n)) = Some (len (n_owner n)) /\
  len (n_owner n) < NS_MAXDNAME /\ (negb (n_valid n) = false -> len (n_owner n) <> 0).
Proof.
  unfold resolver_ipc_negative_valid. destruct (n_valid n); cbn [negb]; intros H.
  - rewrite !andb_true_iff, bool_decide_eq_true in H. destruct H as [[[size H] _] _]. unfold resolver_ipc_name_size in *.
    destruct (_ || _) eqn:E; [done|]. simpl in E. unfold NS_MAXDNAME in *. rewrite Z.min_l by lia. split; [done|]. lia.
  - rewrite name_size_ok by (right; split; [done|unfold NS_MAXDNAME; lia]). unfold NS_MAXDNAME. split; [done|]. lia.
Qed.

#[export] Instance begin_codec : ipc_codec resolver_ipc_response_begin := {|
  codec_kind := RESOLVER_IPC_PACKET_RESPONSE_BEGIN; codec_id := b_query_id;
  codec_body b := let n := b_negative b in
    be2 (b_query_class b) ++ be2 (b_query_type b) ++ be2 (b_status b) ++ be1 (b_rcode b) ++ be1 (if n_valid n then 1 else 0)
    ++ be8 (tv_sec (b_completed_at b)) ++ be4 (tv_nsec (b_completed_at b)) ++ be2 (b_cname_count b) ++ be2 (b_record_count b)
    ++ be2 (len (b_question_name b)) ++ be2 (len (b_canonical_name b)) ++ be2 (len (n_owner n))
    ++ be4 (n_effective_ttl n) ++ be4 (n_minimum n) ++ be4 (n_record_ttl n) ++ b_question_name b ++ b_canonical_name b ++ n_owner n;
  codec_valid b := let n := b_negative b in
    0 < b_query_id b < 2 ^ 64 /\ b_query_class b = ns_c_in /\ resolver_ipc_query_type_valid (b_query_type b) = true /\
    resolver_ipc_lookup_status_valid (b_status b) = true /\ 0 <= b_rcode b <= 15 /\ negative_typed n /\ resolver_ipc_negative_valid n = true /\
    0 <= b_cname_count b /\ 0 <= b_record_count b /\ resolver_ipc_response_count_valid (b_query_type b) (b_cname_count b) (b_record_count b) = true /\
    valid (b_completed_at b) /\ is_cstr (b_question_name b) /\ len (b_question_name b) < NS_MAXDNAME /\
    is_cstr (b_canonical_name b) /\ len (b_canonical_name b) < NS_MAXDNAME;
  codec_encode := resolver_ipc_response_begin_encode; codec_decode := resolver_ipc_response_begin_decode |}.

Lemma count_range t c r : resolver_ipc_response_count_valid t c r = true -> c <= 16 /\ r <= 128.
Proof.
  unfold resolver_ipc_response_count_valid, DNS_CNAME_DEPTH_LIMIT, DNS_ADDRESS_RECORD_LIMIT, DNS_SRV_RECORD_LIMIT. if_as E; [done|]. if_as E2; lia.
Qed.

Lemma begin_encodes b cap : codec_valid b -> codec_encode b cap = if cap <? len (codec_wire b) then inl RESOLVER_IPC_CODEC_LIMIT else inr (codec_wire b).
Proof.
  intros (Hid & Hc & Ht & Hs & Hr & Hnt & Hn & Hc0 & Hr0 & Hcv & Hv & Hq & Hql & Hk & Hkl). unfold codec_wire.
  cbn [codec_kind codec_id codec_body codec_encode begin_codec]. unfold resolver_ipc_response_begin_encode. rewrite Hc, Ht, Hs, Hn, Hcv.
  if_as E; [simpl in E; lia|]. clear E. rewrite (time_encoded _ Hv), !name_size_ok by (by right). destruct (negative_owner _ Hn) as (-> & Hol & _).
  pose proof (count_range _ _ _ Hcv). pose proof (proj1 (status_range _) Hs). unfold NS_MAXDNAME in *.
  apply encode_at; unfold RESOLVER_IPC_HEADER_SIZE, RESOLVER_IPC_PACKET_BYTE_LIMIT; [lia|field_len|lia|].
  unfold resolver_ipc_status_encode. rewrite Hs. cbn [negb mbind option_bind]. rewrite !u16_id, !firstn_all2 by lia.
  write_fields. by rewrite <- !app_assoc.
Qed.

Lemma begin_decodes b : codec_valid b -> codec_decode (Some (codec_wire b)) = Next b.
Proof.
  intros (Hid & Hc & Ht & Hs & Hr & (Hn1 & Hn2 & Hn3 & Hno) & Hn & Hc0 & Hr0 & Hcv & Hv & Hq & Hql & Hk & Hkl). unfold codec_wire.
  cbn [codec_kind codec_id codec_body codec_decode begin_codec]. unfold resolver_ipc_response_begin_decode. destruct (negative_owner _ Hn) as (_ & Hol & Ho0).
  pose proof (count_range _ _ _ Hcv). pose proof (proj1 (status_range _) Hs). pose proof (query_type_range _ Ht). pose proof Hv as [Hv1 Hv2]%valid_spec.
  unfold NS_MAXDNAME in *. apply decode_at; [done|unfold RESOLVER_IPC_PACKET_BYTE_LIMIT; field_len|]. intros packet A. rewrite <- !app_assoc in A.
  rewrite Hc in A. assert (Hf : 0 <= (if n_valid (b_negative b) then 1 else 0) < 2) by (destruct (n_valid _); lia).
  do 3 this_field u16_back A. do 2 this_field u8_back A. this_field u64_back A. this_field u32_back A. do 5 this_field u16_back A. do 3 this_field u32_back A.
  passes (by rewrite Ht). unfold resolver_ipc_status_decode. rewrite Hs. cbn [negb require_some mbind run_bind]. passes lia.
  rewrite (proj2 (time_decoded (tv_sec (b_completed_at b)) (tv_nsec (b_completed_at b)) (b_completed_at b) ltac:(lia) ltac:(lia))) by done. cbn [require_some mbind run_bind]. passes lia.
  this_name A. this_name A.
  assert (Hfv : ((if n_valid (b_negative b) then 1 else 0) =? 0) = negb (n_valid (b_negative b))) by (by destruct (n_valid _)). rewrite Hfv.
  rewrite (name_at _ _ _ _ _ _ A) by done. cbn [mbind run_bind]. apply at_off_skip in A. passes (by apply at_end_at). rewrite negb_involutive.
  assert (Hnr : b_negative b = {| n_effective_ttl := n_effective_ttl (b_negative b); n_minimum := n_minimum (b_negative b);
    n_owner := n_owner (b_negative b); n_record_ttl := n_record_ttl (b_negative b); n_valid := n_valid (b_negative b) |}) by (by destruct (b_negative b)).
  rewrite <- Hnr. passes done. rewrite <- Hc. by destruct b.
Qed.

Lemma begin_accepts packet : is_bytes packet ->
  match codec_decode (Some packet) with Next m => codec_valid m /\ packet = codec_wire m | Return _ => True | Oob => False end.
Proof.
  intros Hb. cbn [codec_decode begin_codec]. unfold resolver_ipc_response_begin_decode. apply decode_start; [done|]. intros id body Hp Hid Hlim A.
  next_field u16_field A class. next_field u16_field A type. next_field u16_field A estatus. next_field u8_field A rcode. next_field u8_field A nv.
  next_field u64_field A seconds. next_field u32_field A nanoseconds. next_field u16_field A cname_count. next_field u16_field A record_count.
  next_field u16_field A question_size. next_field u16_field A canonical_size. next_field u16_field A owner_size.
  next_field u32_field A effective_ttl. next_field u32_field A minimum. next_field u32_field A record_ttl. next_check E1.
  unfold resolver_ipc_status_decode. destruct (resolver_ipc_lookup_status_valid estatus) eqn:Hs; cbn [negb require_some mbind run_bind]; [|done].
  next_check E2. destruct (resolver_ipc_time_decode seconds nanoseconds) as [t|] eqn:Et; cbn [require_some mbind run_bind]; [|done].
  apply time_decoded in Et as (Hv & -> & ->); [|done|lia]. next_check E3.
  next_name A question_size true question. next_name A canonical_size true canonical. next_name A owner_size (nv =? 0) owner.
  next_check E4. apply (at_end_nil _ _ _ A) in E4 as ->. next_check E5. rewrite app_nil_r in Hp. apply andb_true_iff in E1 as [E1 E1'].
  unfold codec_wire. cbn [codec_kind codec_id codec_body codec_valid begin_codec b_query_id b_query_class b_query_type b_status b_rcode b_negative
    b_completed_at b_cname_count b_record_count b_question_name b_canonical_name n_valid n_owner n_effective_ttl n_minimum n_record_ttl h_query_id].
  split.
  - do 4 (split; [done || lia|]). split; [lia|]. split; [do 3 (split; [cbn; lia|]); done|]. split; [done|]. do 2 (split; [lia|]). split; [done|].
    split; [done|]. do 3 (split; [done || lia|]). lia.
  - replace (len question) with question_size by lia. replace (len canonical) with canonical_size by lia. replace (len owner) with owner_size by lia.
    replace (if negb (nv =? 0) then 1 else 0) with nv by (destruct (nv =? 0) eqn:?; simpl; lia). done.
Qed.

#[export] Instance begin_codec_laws : ipc_codec_laws resolver_ipc_response_begin.
Proof.
  split; [apply begin_encodes|apply begin_decodes|apply begin_accepts|].
  intros b (Hid & _ & _ & _ & _ & _ & Hn & _ & _ & _ & _ & _ & Hql & _ & Hkl). cbn [codec_id codec_body begin_codec]. split; [done|].
  pose proof (negative_owner _ Hn) as (_ & Hol & _). unfold NS_MAXDNAME, RESOLVER_IPC_PACKET_BYTE_LIMIT in *. field_len.
Qed.

(** The header of a message's packet. *)
Lemma inspect_wire `{ipc_codec_laws A} (m : A) : codec_valid m ->
  resolver_ipc_packet_inspect (Some (codec_wire m)) = Next {| h_kind := codec_kind; h_query_id := codec_id m |}.
Proof.
  intros Hm. destruct (codec_fits m Hm) as [Hid Hl]. unfold resolver_ipc_packet_inspect, codec_wire. rewrite header_at; [done|done|done|by left].
Qed.

Lemma inspect_safe packet : is_bytes packet -> resolver_ipc_packet_inspect (Some packet) <> Oob.
Proof.
  intros Hb. unfold resolver_ipc_packet_inspect. pose proof (header_case packet None Hb) as H.
  by destruct (resolver_ipc_header_decode (Some packet) None) as [[h reader]|e|].
Qed.

(** ** The wire format *)

(** What is encoded is decoded as it was; only a packet that does not fit is refused. *)
Definition roundtrips (A : Type) `{ipc_codec A} : Prop := forall (m : A) capacity, codec_valid m ->
  match codec_encode m capacity with
  | inr packet => len packet <= capacity /\ codec_decode (Some packet) = Next m
  | inl status => status = RESOLVER_IPC_CODEC_LIMIT /\ capacity < len (codec_wire m)
  end.

(** Decoding is memory safe, and what is accepted is the one packet of a valid
    message. *)
Definition canonical (A : Type) `{ipc_codec A} : Prop := forall packet, is_bytes packet ->
  match codec_decode (Some packet) with
  | Next m => codec_valid m /\ codec_encode m (len packet) = inr packet
  | Return _ => True
  | Oob => False
  end.

Lemma laws_roundtrip A `{ipc_codec_laws A} : roundtrips A.
Proof.
  intros m cap Hm. rewrite codec_encodes by done. destruct (cap <? len (codec_wire m)) eqn:E; [split; [done|lia]|].
  split; [lia|]. by apply codec_decodes.
Qed.

Lemma laws_canonical A `{ipc_codec_laws A} : canonical A.
Proof.
  intros packet Hb. pose proof (codec_accepts packet Hb) as Ha. destruct (codec_decode (Some packet)) as [m|e|]; [|done..].
  destruct Ha as [Hm ->]. split; [done|]. rewrite codec_encodes by done. by rewrite Z.ltb_irrefl.
Qed.

(** C36: every message between the listener and the resolver helper survives its
    encoding: a valid request, begin, alias, address, service or end is encoded
    whenever it fits and decodes to the same message, and lookup statuses map back
    to themselves. *)
Theorem ipc_roundtrip :
  (roundtrips resolver_ipc_request /\ roundtrips resolver_ipc_response_begin /\ roundtrips resolver_ipc_response_cname) /\
  (roundtrips resolver_ipc_response_address /\ roundtrips resolver_ipc_response_srv /\ roundtrips resolver_ipc_response_end) /\
  (forall s, resolver_ipc_lookup_status_from_address s ≫= resolver_ipc_lookup_status_to_address = Some s /\
             resolver_ipc_lookup_status_from_srv s ≫= resolver_ipc_lookup_status_to_srv = Some s).
Proof. split; [|split]; [repeat split; apply laws_roundtrip, _..|]. intros []; done. Qed.

(** C37: the decoders are memory safe on any bytes, and the wire format has one
    encoding per message: a packet is accepted only if it is exactly what the
    encoder produces for the message it decodes to, which is valid. *)
Theorem ipc_canonical :
  (canonical resolver_ipc_request /\ canonical resolver_ipc_response_begin /\ canonical resolver_ipc_response_cname) /\
  (canonical resolver_ipc_response_address /\ canonical resolver_ipc_response_srv /\ canonical resolver_ipc_response_end).
Proof. repeat split; apply laws_canonical, _. Qed.
