(* ===== verification/IpcAssembly.v ===== *)
(** * Assembling responses of the resolver helper ([src/src/resolver/ipc_assembly.c])

    The packets of one response are assembled into a lookup result, under a budget
    of bytes that all assemblies and the results taken from them share.  A pointer to
    an assembly is its [as_handle], the address its allocation returned; an operation
    on a freed assembly, or an access outside an array, is [None].  The union of
    the payload is read by the query type only, so it has the fields of both
    members.  Sizes are those of the LP64 data model. *)

From S2P Require Import Prelude Proxy TimeUtil Metrics ResolverUtil Cache Ipc.

(** ** Types *)

Definition RESOLVER_REPLY_ASSEMBLY_BYTE_LIMIT : Z := 1024 * 1024.
Definition sizeof_resolver_ipc_assembly : Z := 4288.
Definition sizeof_resolver_ipc_assembly_budget : Z := 776.

(** The fields of [resolver_ipc_assembly_metrics_query]. *)
Inductive assembly_counter :=
  | create_ok | create_bad_argument | create_limit | create_memory | limit_result_shape | limit_result_bytes | limit_budget_bytes
  | terminal_complete | terminal_bad_argument | terminal_limit | terminal_memory | terminal_protocol | abandoned | nonterminal_current.
#[export] Instance assembly_counter_eq_dec : EqDecision assembly_counter.
Proof. solve_decision. Defined.

Inductive resolver_ipc_assembly_status :=
  | RESOLVER_IPC_ASSEMBLY_OK | RESOLVER_IPC_ASSEMBLY_COMPLETE | RESOLVER_IPC_ASSEMBLY_BAD_ARGUMENT | RESOLVER_IPC_ASSEMBLY_LIMIT
  | RESOLVER_IPC_ASSEMBLY_MEMORY | RESOLVER_IPC_ASSEMBLY_PROTOCOL.
Inductive resolver_ipc_assembly_state :=
  | RESOLVER_IPC_ASSEMBLY_STATE_BEGIN | RESOLVER_IPC_ASSEMBLY_STATE_CNAME | RESOLVER_IPC_ASSEMBLY_STATE_RECORD
  | RESOLVER_IPC_ASSEMBLY_STATE_END | RESOLVER_IPC_ASSEMBLY_STATE_COMPLETE | RESOLVER_IPC_ASSEMBLY_STATE_FAILED
  | RESOLVER_IPC_ASSEMBLY_STATE_TAKEN.

(** The arrays are given with all their slots, [None] for NULL. *)
Record resolver_ipc_assembly_payload := {
  py_addresses : option (list dns_address_record); py_records : option (list dns_srv_record); py_record_count : Z;
  py_canonical_name : bytes; py_cnames : option (list dns_cname_record); py_cname_count : Z; py_negative : dns_negative_record;
  py_question_name : bytes; py_rcode : Z;
}.
Definition payload_zero : resolver_ipc_assembly_payload := {|
  py_addresses := None; py_records := None; py_record_count := 0; py_canonical_name := []; py_cnames := None; py_cname_count := 0;
  py_negative := dns_negative_record_zero; py_question_name := []; py_rcode := 0 |}.

Record resolver_ipc_assembly := {
  as_handle : Z; as_chain_ttl : Z; as_declared_cname_count : Z; as_declared_record_count : Z; as_dynamic_bytes : Z;
  as_expected_name : bytes; as_payload : resolver_ipc_assembly_payload; as_query_class : Z; as_query_id : Z; as_query_type : Z;
  as_received_cname_count : Z; as_received_record_count : Z; as_state : resolver_ipc_assembly_state;
  as_status : resolver_ipc_lookup_status; as_completed_at : timespec;
}.

Record resolver_ipc_assembly_metrics_state := {
  am_owned_bytes_high_water : Z; am_query : metrics_query_type -> assembly_counter -> Z;
  am_result_size : metrics_query_type -> metrics_histogram; am_saturation_total : Z;
}.

(** [bu_assemblies] is the linked list, the newest first. *)
Record resolver_ipc_assembly_budget := {
  bu_assemblies : list resolver_ipc_assembly; bu_metrics : resolver_ipc_assembly_metrics_state; bu_owned_bytes : Z;
}.

Record resolver_ipc_assembly_metrics_snapshot := {
  an_nonterminal_current : Z; an_owned_bytes_current : Z; an_owned_bytes_high_water : Z;
  an_query : metrics_query_type -> assembly_counter -> Z; an_result_size : metrics_query_type -> metrics_histogram_snapshot; an_saturation_total : Z;
}.

(** [rt_budget]: the pointer to the budget is not NULL. *)
Record resolver_ipc_assembly_result := {
  rt_budget : bool; rt_completed_at : timespec; rt_dynamic_bytes : Z; rt_payload : resolver_ipc_assembly_payload; rt_query_id : Z;
  rt_query_type : Z; rt_status : resolver_ipc_lookup_status;
}.
Definition result_zero : resolver_ipc_assembly_result := {|
  rt_budget := false; rt_completed_at := timespec_zero; rt_dynamic_bytes := 0; rt_payload := payload_zero; rt_query_id := 0;
  rt_query_type := 0; rt_status := 0 |}.

(** ** Field updates *)

Definition with_assemblies (b : resolver_ipc_assembly_budget) (l : list resolver_ipc_assembly) : resolver_ipc_assembly_budget :=
  {| bu_assemblies := l; bu_metrics := bu_metrics b; bu_owned_bytes := bu_owned_bytes b |}.
Definition with_budget_metrics (b : resolver_ipc_assembly_budget) (m : resolver_ipc_assembly_metrics_state) : resolver_ipc_assembly_budget :=
  {| bu_assemblies := bu_assemblies b; bu_metrics := m; bu_owned_bytes := bu_owned_bytes b |}.
Definition with_budget_bytes (b : resolver_ipc_assembly_budget) (n : Z) : resolver_ipc_assembly_budget :=
  {| bu_assemblies := bu_assemblies b; bu_metrics := bu_metrics b; bu_owned_bytes := n |}.

(** The parts of an assembly that a step changes. *)
Definition with_state (a : resolver_ipc_assembly) (s : resolver_ipc_assembly_state) : resolver_ipc_assembly := {|
  as_handle := as_handle a; as_chain_ttl := as_chain_ttl a; as_declared_cname_count := as_declared_cname_count a;
  as_declared_record_count := as_declared_record_count a; as_dynamic_bytes := as_dynamic_bytes a; as_expected_name := as_expected_name a;
  as_payload := as_payload a; as_query_class := as_query_class a; as_query_id := as_query_id a; as_query_type := as_query_type a;
  as_received_cname_count := as_received_cname_count a; as_received_record_count := as_received_record_count a; as_state := s;
  as_status := as_status a; as_completed_at := as_completed_at a |}.
Definition with_content (a : resolver_ipc_assembly) (p : resolver_ipc_assembly_payload) (dynamic_bytes : Z) : resolver_ipc_assembly := {|
  as_handle := as_handle a; as_chain_ttl := as_chain_ttl a; as_declared_cname_count := as_declared_cname_count a;
  as_declared_record_count := as_declared_record_count a; as_dynamic_bytes := dynamic_bytes; as_expected_name := as_expected_name a;
  as_payload := p; as_query_class := as_query_class a; as_query_id := as_query_id a; as_query_type := as_query_type a;
  as_received_cname_count := as_received_cname_count a; as_received_record_count := as_received_record_count a; as_state := as_state a;
  as_status := as_status a; as_completed_at := as_completed_at a |}.
Definition with_received (a : resolver_ipc_assembly) (chain_ttl cnames records : Z) : resolver_ipc_assembly := {|
  as_handle := as_handle a; as_chain_ttl := chain_ttl; as_declared_cname_count := as_declared_cname_count a;
  as_declared_record_count := as_declared_record_count a; as_dynamic_bytes := as_dynamic_bytes a; as_expected_name := as_expected_name a;
  as_payload := as_payload a; as_query_class := as_query_class a; as_query_id := as_query_id a; as_query_type := as_query_type a;
  as_received_cname_count := cnames; as_received_record_count := records; as_state := as_state a;
  as_status := as_status a; as_completed_at := as_completed_at a |}.
Definition with_declared (a : resolver_ipc_assembly) (completed_at : timespec) (cnames records : Z) (status : resolver_ipc_lookup_status)
    : resolver_ipc_assembly := {|
  as_handle := as_handle a; as_chain_ttl := as_chain_ttl a; as_declared_cname_count := cnames;
  as_declared_record_count := records; as_dynamic_bytes := as_dynamic_bytes a; as_expected_name := as_expected_name a;
  as_payload := as_payload a; as_query_class := as_query_class a; as_query_id := as_query_id a; as_query_type := as_query_type a;
  as_received_cname_count := as_received_cname_count a; as_received_record_count := as_received_record_count a; as_state := as_state a;
  as_status := status; as_completed_at := completed_at |}.

Definition with_names (p : resolver_ipc_assembly_payload) (canonical : bytes) (negative : dns_negative_record) (question : bytes) (rcode : Z)
    : resolver_ipc_assembly_payload := {|
  py_addresses := py_addresses p; py_records := py_records p; py_record_count := py_record_count p; py_canonical_name := canonical;
  py_cnames := py_cnames p; py_cname_count := py_cname_count p; py_negative := negative; py_question_name := question; py_rcode := rcode |}.
Definition with_cnames (p : resolver_ipc_assembly_payload) (cnames : option (list dns_cname_record)) : resolver_ipc_assembly_payload := {|
  py_addresses := py_addresses p; py_records := py_records p; py_record_count := py_record_count p; py_canonical_name := py_canonical_name p;
  py_cnames := cnames; py_cname_count := py_cname_count p; py_negative := py_negative p; py_question_name := py_question_name p; py_rcode := py_rcode p |}.
Definition with_arrays (p : resolver_ipc_assembly_payload) (addresses : option (list dns_address_record)) (records : option (list dns_srv_record))
    : resolver_ipc_assembly_payload := {|
  py_addresses := addresses; py_records := records; py_record_count := py_record_count p; py_canonical_name := py_canonical_name p;
  py_cnames := py_cnames p; py_cname_count := py_cname_count p; py_negative := py_negative p; py_question_name := py_question_name p; py_rcode := py_rcode p |}.
Definition with_counts (p : resolver_ipc_assembly_payload) (cname_count record_count : Z) : resolver_ipc_assembly_payload := {|
  py_addresses := py_addresses p; py_records := py_records p; py_record_count := record_count; py_canonical_name := py_canonical_name p;
  py_cnames := py_cnames p; py_cname_count := cname_count; py_negative := py_negative p; py_question_name := py_question_name p; py_rcode := py_rcode p |}.

Definition assembly_get (b : resolver_ipc_assembly_budget) (handle : Z) : option resolver_ipc_assembly :=
  List.find (fun a => as_handle a =? handle) (bu_assemblies b).
Definition assembly_put (b : resolver_ipc_assembly_budget) (a : resolver_ipc_assembly) : resolver_ipc_assembly_budget :=
  with_assemblies b (map (fun a' => if as_handle a' =? as_handle a then a else a') (bu_assemblies b)).

(** [array[i]] and [array[i] = x] *)
Definition array_get {A} (array : option (list A)) (i : Z) : option A := l ← array; if i <? 0 then None else l !! Z.to_nat i.
Definition array_set {A} (array : option (list A)) (i : Z) (x : A) : option (option (list A)) :=
  l ← array; if (i <? 0) || (len l <=? i) then None else Some (Some (<[Z.to_nat i := x]> l)).

(** ** Metrics *)

Definition resolver_ipc_assembly_metrics_increment (b : resolver_ipc_assembly_budget) (q : metrics_query_type) (k : assembly_counter)
    : resolver_ipc_assembly_budget :=
  let m := bu_metrics b in
  let '(value, saturation, _) := metrics_counter_add (am_query m q k) 1 (am_saturation_total m) in
  with_budget_metrics b
    {| am_owned_bytes_high_water := am_owned_bytes_high_water m;
       am_query := fun q' k' => if bool_decide (q' = q /\ k' = k) then value else am_query m q' k';
       am_result_size := am_result_size m; am_saturation_total := saturation |}.

Definition resolver_ipc_assembly_metrics_query_type (query_type : Z) : metrics_query_type :=
  if query_type =? ns_t_a then METRICS_QUERY_TYPE_A
  else if query_type =? ns_t_aaaa then METRICS_QUERY_TYPE_AAAA else METRICS_QUERY_TYPE_SRV.

Definition resolver_ipc_assembly_metrics_limit_record (b : resolver_ipc_assembly_budget) (a : resolver_ipc_assembly)
    (classification : resolver_cache_result_fit) : resolver_ipc_assembly_budget :=
  let q := resolver_ipc_assembly_metrics_query_type (as_query_type a) in
  match classification with
  | RESOLVER_CACHE_RESULT_FIT_SHAPE => resolver_ipc_assembly_metrics_increment b q limit_result_shape
  | _ => resolver_ipc_assembly_metrics_increment b q limit_result_bytes
  end.

Definition resolver_ipc_assembly_state_nonterminal (state : resolver_ipc_assembly_state) : bool :=
  match state with
  | RESOLVER_IPC_ASSEMBLY_STATE_BEGIN | RESOLVER_IPC_ASSEMBLY_STATE_CNAME | RESOLVER_IPC_ASSEMBLY_STATE_RECORD
  | RESOLVER_IPC_ASSEMBLY_STATE_END => true
  | _ => false
  end.

Definition resolver_ipc_assembly_metrics_terminal_record (b : resolver_ipc_assembly_budget) (a : resolver_ipc_assembly)
    (status : resolver_ipc_assembly_status) : resolver_ipc_assembly_budget :=
  if negb (resolver_ipc_assembly_state_nonterminal (as_state a)) then b else
  let q := resolver_ipc_assembly_metrics_query_type (as_query_type a) in
  match status with
  | RESOLVER_IPC_ASSEMBLY_COMPLETE =>
      let m := bu_metrics b in
      let '(h, saturation) := metrics_size_histogram_observe (am_result_size m q) (as_dynamic_bytes a) (am_saturation_total m) in
      let b := with_budget_metrics b
        {| am_owned_bytes_high_water := am_owned_bytes_high_water m; am_query := am_query m;
           am_result_size := fun q' => if bool_decide (q' = q) then h else am_result_size m q'; am_saturation_total := saturation |} in
      resolver_ipc_assembly_metrics_increment b q terminal_complete
  | RESOLVER_IPC_ASSEMBLY_BAD_ARGUMENT => resolver_ipc_assembly_metrics_increment b q terminal_bad_argument
  | RESOLVER_IPC_ASSEMBLY_LIMIT => resolver_ipc_assembly_metrics_increment b q terminal_limit
  | RESOLVER_IPC_ASSEMBLY_MEMORY => resolver_ipc_assembly_metrics_increment b q terminal_memory
  | _ => resolver_ipc_assembly_metrics_increment b q terminal_protocol
  end.

Definition with_budget_high_water (b : resolver_ipc_assembly_budget) : resolver_ipc_assembly_budget :=
  let m := bu_metrics b in
  with_budget_metrics b
    {| am_owned_bytes_high_water := metrics_high_water_update (am_owned_bytes_high_water m) (bu_owned_bytes b);
       am_query := am_query m; am_result_size := am_result_size m; am_saturation_total := am_saturation_total m |}.

(** ** Helpers of the steps *)

(** Returning bytes to the budget. *)
Definition budget_return (b : resolver_ipc_assembly_budget) (n : Z) : resolver_ipc_assembly_budget :=
  with_budget_bytes b (if n <=? bu_owned_bytes b then bu_owned_bytes b - n else 0).

(** [dns_srv_result_destroy] and [dns_address_result_destroy] free the arrays and clear the member. *)
Definition resolver_ipc_assembly_data_clear (b : resolver_ipc_assembly_budget) (a : resolver_ipc_assembly)
    : resolver_ipc_assembly_budget * resolver_ipc_assembly :=
  (budget_return b (as_dynamic_bytes a), with_content a payload_zero 0).

Definition resolver_ipc_assembly_name_normalized (name : bytes) : bool :=
  bool_decide (resolver_name_normalize (Some name) = Some name).

Definition resolver_ipc_assembly_result_empty (result : option resolver_ipc_assembly_result) : bool :=
  match result with
  | None => false
  | Some r => negb (rt_budget r) && (tv_sec (rt_completed_at r) =? 0) && (tv_nsec (rt_completed_at r) =? 0) && (rt_dynamic_bytes r =? 0)
              && (rt_query_id r =? 0) && (rt_query_type r =? 0) && (rt_status r =? 0)
  end.

Definition resolver_ipc_assembly_ttl_expected (record_ttl chain_ttl : Z) : Z :=
  if record_ttl <? chain_ttl then record_ttl else chain_ttl.

Definition dns_cname_record_zero : dns_cname_record := {| c_owner := []; c_target := []; c_ttl := 0 |}.
Definition dns_address_record_zero : dns_address_record :=
  {| a_address := net_addr_zero; a_effective_ttl := 0; a_record_ttl := 0 |}.
Definition dns_srv_record_zero : dns_srv_record :=
  {| r_priority := 0; r_weight := 0; r_port := 0; r_target := []; r_record_ttl := 0; r_effective_ttl := 0 |}.

(** [calloc(n, sizeof(zero))], NULL where no elements are wanted. *)
Definition array_calloc {A} (n : Z) (zero : A) : option (list A) := if n =? 0 then None else Some (replicate (Z.to_nat n) zero).

(** The budget, the assembly and the status a step returns. *)
Definition stepped : Type := resolver_ipc_assembly_budget * resolver_ipc_assembly * resolver_ipc_assembly_status.

(** [alloc_cnames], [alloc_records]: the two allocations succeed. *)
Definition resolver_ipc_assembly_arrays_allocate (b : resolver_ipc_assembly_budget) (a : resolver_ipc_assembly)
    (alloc_cnames alloc_records : bool) (cname_count record_count : Z) : stepped :=
  let bytes_exceeded := (resolver_ipc_assembly_metrics_limit_record b a RESOLVER_CACHE_RESULT_FIT_BYTES, a, RESOLVER_IPC_ASSEMBLY_LIMIT) in
  match resolver_cache_result_classify (as_query_type a) cname_count record_count with
  | RESOLVER_CACHE_RESULT_FIT_OK =>
      let record_size := if as_query_type a =? ns_t_srv then sizeof_dns_srv_record else sizeof_dns_address_record in
      match (if 0 <? cname_count then resolver_size_multiply DNS_CNAME_DEPTH_LIMIT sizeof_dns_cname_record else Some 0),
            resolver_size_multiply record_count record_size with
      | Some cname_bytes, Some record_bytes =>
          match resolver_size_add cname_bytes record_bytes with
          | None => bytes_exceeded
          | Some allocation_size =>
              if RESOLVER_REPLY_ASSEMBLY_BYTE_LIMIT <? allocation_size then bytes_exceeded else
              if RESOLVER_REPLY_ASSEMBLY_BYTE_LIMIT - allocation_size <? bu_owned_bytes b then
                (resolver_ipc_assembly_metrics_increment b (resolver_ipc_assembly_metrics_query_type (as_query_type a)) limit_budget_bytes,
                 a, RESOLVER_IPC_ASSEMBLY_LIMIT) else
              if ((0 <? cname_count) && negb alloc_cnames) || ((0 <? record_count) && negb alloc_records) then (b, a, RESOLVER_IPC_ASSEMBLY_MEMORY) else
              let cnames := if cname_count =? 0 then None else array_calloc DNS_CNAME_DEPTH_LIMIT dns_cname_record_zero in
              let p := with_cnames (as_payload a) cnames in
              let p := if as_query_type a =? ns_t_srv then with_arrays p (py_addresses p) (array_calloc record_count dns_srv_record_zero)
                       else with_arrays p (array_calloc record_count dns_address_record_zero) (py_records p) in
              (with_budget_high_water (with_budget_bytes b (bu_owned_bytes b + allocation_size)), with_content a p allocation_size, RESOLVER_IPC_ASSEMBLY_OK)
          end
      | _, _ => bytes_exceeded
      end
  | classification => (resolver_ipc_assembly_metrics_limit_record b a classification, a, RESOLVER_IPC_ASSEMBLY_LIMIT)
  end.

Definition resolver_ipc_assembly_begin_check (a : resolver_ipc_assembly) (begin : resolver_ipc_response_begin) : bool :=
  if negb (b_query_id begin =? as_query_id a) || negb (b_query_class begin =? as_query_class a) || negb (b_query_type begin =? as_query_type a)
  then false else
  let positive := b_status begin =? RESOLVER_IPC_LOOKUP_OK in
  let negative := (b_status begin =? RESOLVER_IPC_LOOKUP_NODATA) || (b_status begin =? RESOLVER_IPC_LOOKUP_NOT_FOUND) in
  let resolver_error := (b_status begin =? RESOLVER_IPC_LOOKUP_PERMANENT_ERROR) || (b_status begin =? RESOLVER_IPC_LOOKUP_TEMPORARY_ERROR) in
  let no_question := bool_decide (b_question_name begin = []) in
  let no_canonical := bool_decide (b_canonical_name begin = []) in
  let negative_record := n_valid (b_negative begin) in
  if positive || negative then
    if negative && no_question then
      no_canonical && (b_cname_count begin =? 0) && (b_record_count begin =? 0) && negb negative_record && (b_rcode begin =? 0) else
    if negb (resolver_ipc_assembly_name_normalized (b_question_name begin)) || negb (bool_decide (b_question_name begin = as_expected_name a))
       || negb (resolver_ipc_assembly_name_normalized (b_canonical_name begin)) then false else
    if b_status begin =? RESOLVER_IPC_LOOKUP_OK then
      (b_rcode begin =? ns_r_noerror) && (0 <? b_record_count begin) && negb negative_record
    else (b_record_count begin =? 0)
         && (((b_status begin =? RESOLVER_IPC_LOOKUP_NODATA) && (b_rcode begin =? ns_r_noerror))
             || ((b_status begin =? RESOLVER_IPC_LOOKUP_NOT_FOUND)
                 && ((b_rcode begin =? ns_r_nxdomain) || ((b_rcode begin =? 0) && negb negative_record))))
  else if resolver_error then
    if negb (b_record_count begin =? 0) || negative_record then false else
    if ((b_status begin =? RESOLVER_IPC_LOOKUP_TEMPORARY_ERROR) && negb (b_rcode begin =? 0) && negb (b_rcode begin =? ns_r_servfail))
       || ((b_status begin =? RESOLVER_IPC_LOOKUP_PERMANENT_ERROR) && ((b_rcode begin =? ns_r_nxdomain) || (b_rcode begin =? ns_r_servfail))) then false else
    if no_question then no_canonical && (b_cname_count begin =? 0) && (b_rcode begin =? 0) else
    resolver_ipc_assembly_name_normalized (b_question_name begin) && bool_decide (b_question_name begin = as_expected_name a)
    && (if 0 <? b_cname_count begin then resolver_ipc_assembly_name_normalized (b_canonical_name begin) else no_canonical)
  else (b_cname_count begin =? 0) && (b_record_count begin =? 0) && negb negative_record && no_question && no_canonical && (b_rcode begin =? 0).

Definition resolver_ipc_assembly_begin_consume (b : resolver_ipc_assembly_budget) (a : resolver_ipc_assembly)
    (alloc_cnames alloc_records : bool) (packet : bytes) : option stepped :=
  match resolver_ipc_response_begin_decode (Some packet) with
  | Oob => None
  | Return _ => Some (b, a, RESOLVER_IPC_ASSEMBLY_PROTOCOL)
  | Next begin =>
      if negb (resolver_ipc_assembly_begin_check a begin) then Some (b, a, RESOLVER_IPC_ASSEMBLY_PROTOCOL) else
      match resolver_ipc_assembly_arrays_allocate b a alloc_cnames alloc_records (b_cname_count begin) (b_record_count begin) with
      | (b, a, RESOLVER_IPC_ASSEMBLY_OK) =>
          let a := with_received a UINT32_MAX (as_received_cname_count a) (as_received_record_count a) in
          let a := with_declared a (b_completed_at begin) (b_cname_count begin) (b_record_count begin) (b_status begin) in
          let a := with_content a (with_names (as_payload a) (b_canonical_name begin) (b_negative begin) (b_question_name begin) (b_rcode begin))
                     (as_dynamic_bytes a) in
          Some (b, with_state a (if 0 <? b_cname_count begin then RESOLVER_IPC_ASSEMBLY_STATE_CNAME
                                 else if 0 <? b_record_count begin then RESOLVER_IPC_ASSEMBLY_STATE_RECORD else RESOLVER_IPC_ASSEMBLY_STATE_END),
                RESOLVER_IPC_ASSEMBLY_OK)
      | failed => Some failed
      end
  end.

Definition resolver_ipc_assembly_cname_consume (b : resolver_ipc_assembly_budget) (a : resolver_ipc_assembly) (packet : bytes) : option stepped :=
  let protocol := Some (b, a, RESOLVER_IPC_ASSEMBLY_PROTOCOL) in
  let received := as_received_cname_count a in
  match resolver_ipc_response_cname_decode (Some packet) with
  | Oob => None
  | Return _ => protocol
  | Next response =>
      let record := rc_record response in
      if negb (rc_query_id response =? as_query_id a) || negb (rc_index response =? received)
         || negb (resolver_ipc_assembly_name_normalized (c_owner record)) || negb (resolver_ipc_assembly_name_normalized (c_target record)) then protocol else
      let cnames := py_cnames (as_payload a) in
      expected_owner ← (if received =? 0 then Some (py_question_name (as_payload a)) else c_target <$> array_get cnames (received - 1));
      if negb (bool_decide (c_owner record = expected_owner)) then protocol else
      known ← mapM (fun i => c_owner <$> array_get cnames (Z.of_nat i)) (seq 0 (Z.to_nat received));
      if bool_decide (c_target record ∈ known) || bool_decide (c_target record = c_owner record) then protocol else
      cnames ← array_set cnames received record;
      let a := with_content a (with_cnames (as_payload a) cnames) (as_dynamic_bytes a) in
      let a := with_received a (if c_ttl record <? as_chain_ttl a then c_ttl record else as_chain_ttl a) (received + 1) (as_received_record_count a) in
      let a := if received + 1 =? as_declared_cname_count a then
                 with_state a (if 0 <? as_declared_record_count a then RESOLVER_IPC_ASSEMBLY_STATE_RECORD else RESOLVER_IPC_ASSEMBLY_STATE_END)
               else a in
      Some (b, a, RESOLVER_IPC_ASSEMBLY_OK)
  end.

Definition resolver_ipc_assembly_complete_check (a : resolver_ipc_assembly) : option bool :=
  let p := as_payload a in
  let resolver_error := (as_status a =? RESOLVER_IPC_LOOKUP_PERMANENT_ERROR) || (as_status a =? RESOLVER_IPC_LOOKUP_TEMPORARY_ERROR) in
  named ← (if 0 <? as_declared_cname_count a then
             last ← array_get (py_cnames p) (as_declared_cname_count a - 1); Some (bool_decide (py_canonical_name p = c_target last))
           else Some (resolver_error || bool_decide (py_canonical_name p = py_question_name p)));
  if negb named then Some false else
  let negative := py_negative p in
  if negb (n_valid negative) then Some true else
  let expected_ttl := if n_minimum negative <? n_record_ttl negative then n_minimum negative else n_record_ttl negative in
  let expected_ttl := resolver_ipc_assembly_ttl_expected expected_ttl (as_chain_ttl a) in
  Some (resolver_ipc_assembly_name_normalized (n_owner negative) && resolver_name_encloses (Some (n_owner negative)) (Some (py_canonical_name p))
        && (n_effective_ttl negative =? expected_ttl)).

Definition resolver_ipc_assembly_end_consume (b : resolver_ipc_assembly_budget) (a : resolver_ipc_assembly) (packet : bytes) : option stepped :=
  let protocol := Some (b, a, RESOLVER_IPC_ASSEMBLY_PROTOCOL) in
  match resolver_ipc_response_end_decode (Some packet) with
  | Oob => None
  | Return _ => protocol
  | Next response =>
      if negb (e_query_id response =? as_query_id a) || negb (e_cname_count response =? as_declared_cname_count a)
         || negb (e_record_count response =? as_declared_record_count a) || negb (as_received_cname_count a =? as_declared_cname_count a)
         || negb (as_received_record_count a =? as_declared_record_count a) then protocol else
      complete ← resolver_ipc_assembly_complete_check a;
      if negb complete then protocol else
      let a := with_content a (with_counts (as_payload a) (as_declared_cname_count a) (as_declared_record_count a)) (as_dynamic_bytes a) in
      Some (resolver_ipc_assembly_metrics_terminal_record b a RESOLVER_IPC_ASSEMBLY_COMPLETE,
            with_state a RESOLVER_IPC_ASSEMBLY_STATE_COMPLETE, RESOLVER_IPC_ASSEMBLY_COMPLETE)
  end.

Definition resolver_ipc_assembly_fail (b : resolver_ipc_assembly_budget) (a : resolver_ipc_assembly) (status : resolver_ipc_assembly_status) : stepped :=
  let b := resolver_ipc_assembly_metrics_terminal_record b a status in
  let '(b, a) := resolver_ipc_assembly_data_clear b a in
  (b, with_state a RESOLVER_IPC_ASSEMBLY_STATE_FAILED, status).

(** The record copied into its slot: [p] is the payload with that slot set. *)
Definition resolver_ipc_assembly_record_commit (a : resolver_ipc_assembly) (p : resolver_ipc_assembly_payload) : resolver_ipc_assembly :=
  let a := with_content a p (as_dynamic_bytes a) in
  let a := with_received a (as_chain_ttl a) (as_received_cname_count a) (as_received_record_count a + 1) in
  if as_received_record_count a =? as_declared_record_count a then with_state a RESOLVER_IPC_ASSEMBLY_STATE_END else a.

Definition resolver_ipc_assembly_record_address_consume (b : resolver_ipc_assembly_budget) (a : resolver_ipc_assembly) (packet : bytes) : option stepped :=
  let protocol := Some (b, a, RESOLVER_IPC_ASSEMBLY_PROTOCOL) in
  let expected_family := if as_query_type a =? ns_t_a then AF_INET else AF_INET6 in
  match resolver_ipc_response_address_decode (Some packet) with
  | Oob => None
  | Return _ => protocol
  | Next response =>
      let record := ra_record response in
      if negb (ra_query_id response =? as_query_id a) || negb (ra_index response =? as_received_record_count a)
         || negb (family (a_address record) =? expected_family)
         || negb (a_effective_ttl record =? resolver_ipc_assembly_ttl_expected (a_record_ttl record) (as_chain_ttl a)) then protocol else
      addresses ← array_set (py_addresses (as_payload a)) (as_received_record_count a) record;
      Some (b, resolver_ipc_assembly_record_commit a (with_arrays (as_payload a) addresses (py_records (as_payload a))), RESOLVER_IPC_ASSEMBLY_OK)
  end.

Definition resolver_ipc_assembly_record_srv_consume (b : resolver_ipc_assembly_budget) (a : resolver_ipc_assembly) (packet : bytes) : option stepped :=
  let protocol := Some (b, a, RESOLVER_IPC_ASSEMBLY_PROTOCOL) in
  match resolver_ipc_response_srv_decode (Some packet) with
  | Oob => None
  | Return _ => protocol
  | Next response =>
      let record := rs_record response in
      if negb (rs_query_id response =? as_query_id a) || negb (rs_index response =? as_received_record_count a)
         || negb (resolver_ipc_assembly_name_normalized (r_target record))
         || negb (r_effective_ttl record =? resolver_ipc_assembly_ttl_expected (r_record_ttl record) (as_chain_ttl a)) then protocol else
      records ← array_set (py_records (as_payload a)) (as_received_record_count a) record;
      Some (b, resolver_ipc_assembly_record_commit a (with_arrays (as_payload a) (py_addresses (as_payload a)) records), RESOLVER_IPC_ASSEMBLY_OK)
  end.

(** ** Exported operations *)

Definition resolver_ipc_assembly_budget_create (alloc : bool) : option resolver_ipc_assembly_budget :=
  if RESOLVER_REPLY_ASSEMBLY_BYTE_LIMIT <? sizeof_resolver_ipc_assembly_budget then None else
  if negb alloc then None else
  Some {| bu_assemblies := [];
          bu_metrics := {| am_owned_bytes_high_water := sizeof_resolver_ipc_assembly_budget; am_query := fun _ _ => 0;
                           am_result_size := fun _ => metrics_histogram_zero; am_saturation_total := 0 |};
          bu_owned_bytes := sizeof_resolver_ipc_assembly_budget |}.

(** [alloc]: the address the allocation returns; the status and the assembly created. *)
Definition resolver_ipc_assembly_create (budget : option resolver_ipc_assembly_budget) (query_name : option bytes) (query_class query_type query_id : Z)
    (result : bool) (alloc : option Z) : option resolver_ipc_assembly_budget * resolver_ipc_assembly_status * option Z :=
  let attributable := (query_type =? ns_t_a) || (query_type =? ns_t_aaaa) || (query_type =? ns_t_srv) in
  match budget with
  | None => (None, RESOLVER_IPC_ASSEMBLY_BAD_ARGUMENT, None)
  | Some b =>
      let q := resolver_ipc_assembly_metrics_query_type query_type in
      let bad := (Some (if attributable then resolver_ipc_assembly_metrics_increment b q create_bad_argument else b),
                  RESOLVER_IPC_ASSEMBLY_BAD_ARGUMENT, None) in
      if negb attributable || negb result || negb (query_class =? ns_c_in) || (query_id =? 0) then bad else
      match resolver_name_normalize query_name with
      | None => bad
      | Some normalized_name =>
          if (RESOLVER_REPLY_ASSEMBLY_BYTE_LIMIT <? sizeof_resolver_ipc_assembly)
             || (RESOLVER_REPLY_ASSEMBLY_BYTE_LIMIT - sizeof_resolver_ipc_assembly <? bu_owned_bytes b) then
            (Some (resolver_ipc_assembly_metrics_increment (resolver_ipc_assembly_metrics_increment b q create_limit) q limit_budget_bytes),
             RESOLVER_IPC_ASSEMBLY_LIMIT, None) else
          match alloc with
          | None => (Some (resolver_ipc_assembly_metrics_increment b q create_memory), RESOLVER_IPC_ASSEMBLY_MEMORY, None)
          | Some handle =>
              let a := {| as_handle := handle; as_chain_ttl := 0; as_declared_cname_count := 0; as_declared_record_count := 0;
                          as_dynamic_bytes := 0; as_expected_name := normalized_name; as_payload := payload_zero; as_query_class := query_class;
                          as_query_id := query_id; as_query_type := query_type; as_received_cname_count := 0; as_received_record_count := 0;
                          as_state := RESOLVER_IPC_ASSEMBLY_STATE_BEGIN; as_status := 0; as_completed_at := timespec_zero |} in
              let b := with_budget_bytes (with_assemblies b (a :: bu_assemblies b)) (bu_owned_bytes b + sizeof_resolver_ipc_assembly) in
              (Some (resolver_ipc_assembly_metrics_increment (with_budget_high_water b) q create_ok), RESOLVER_IPC_ASSEMBLY_OK, Some handle)
          end
      end
  end.

Definition resolver_ipc_assembly_destroy (b : resolver_ipc_assembly_budget) (assembly : option Z) : option resolver_ipc_assembly_budget :=
  match assembly with
  | None => Some b
  | Some handle =>
      a ← assembly_get b handle;
      let b := if resolver_ipc_assembly_state_nonterminal (as_state a) then
                 resolver_ipc_assembly_metrics_increment b (resolver_ipc_assembly_metrics_query_type (as_query_type a)) abandoned else b in
      let '(b, a) := resolver_ipc_assembly_data_clear b a in
      let b := with_assemblies b (List.filter (fun a' => negb (as_handle a' =? handle)) (bu_assemblies b)) in
      Some (budget_return b sizeof_resolver_ipc_assembly)
  end.

(** The loop destroys the first assembly until none is left; the budget as it is freed. *)
Fixpoint budget_clear (fuel : nat) (b : resolver_ipc_assembly_budget) : option resolver_ipc_assembly_budget :=
  match bu_assemblies b, fuel with
  | [], _ => Some b
  | a :: _, S fuel => b ← resolver_ipc_assembly_destroy b (Some (as_handle a)); budget_clear fuel b
  | _ :: _, O => None
  end.
Definition resolver_ipc_assembly_budget_destroy (budget : option resolver_ipc_assembly_budget) : option (option resolver_ipc_assembly_budget) :=
  match budget with
  | None => Some None
  | Some b => b ← budget_clear (length (bu_assemblies b)) b; Some (Some b)
  end.

Definition nonterminal_count (snapshot : metrics_query_type -> assembly_counter -> Z) (a : resolver_ipc_assembly)
    : metrics_query_type -> assembly_counter -> Z :=
  if resolver_ipc_assembly_state_nonterminal (as_state a) then
    fun q k => if bool_decide (q = resolver_ipc_assembly_metrics_query_type (as_query_type a) /\ k = nonterminal_current)
               then u64 (snapshot q k + 1) else snapshot q k
  else snapshot.

Definition resolver_ipc_assembly_metrics_get (budget : option resolver_ipc_assembly_budget) (result : bool)
    : option resolver_ipc_assembly_metrics_snapshot :=
  b ← budget;
  if negb result then None else
  Some {| an_nonterminal_current :=
            fold_left (fun n a => if resolver_ipc_assembly_state_nonterminal (as_state a) then u64 (n + 1) else n) (bu_assemblies b) 0;
          an_owned_bytes_current := bu_owned_bytes b; an_owned_bytes_high_water := am_owned_bytes_high_water (bu_metrics b);
          an_query := fold_left nonterminal_count (bu_assemblies b) (am_query (bu_metrics b));
          an_result_size := fun q => metrics_size_histogram_get (am_result_size (bu_metrics b) q);
          an_saturation_total := am_saturation_total (bu_metrics b) |}.

(** What a nonterminal assembly does with a packet of kind [kind]. *)
Definition packet_dispatch (b : resolver_ipc_assembly_budget) (a : resolver_ipc_assembly) (kind : resolver_ipc_packet_kind)
    (alloc_cnames alloc_records : bool) (packet : bytes) : option stepped :=
  match as_state a, kind with
  | RESOLVER_IPC_ASSEMBLY_STATE_BEGIN, RESOLVER_IPC_PACKET_RESPONSE_BEGIN => resolver_ipc_assembly_begin_consume b a alloc_cnames alloc_records packet
  | RESOLVER_IPC_ASSEMBLY_STATE_CNAME, RESOLVER_IPC_PACKET_RESPONSE_CNAME => resolver_ipc_assembly_cname_consume b a packet
  | RESOLVER_IPC_ASSEMBLY_STATE_RECORD, RESOLVER_IPC_PACKET_RESPONSE_SRV =>
      if as_query_type a =? ns_t_srv then resolver_ipc_assembly_record_srv_consume b a packet else Some (b, a, RESOLVER_IPC_ASSEMBLY_PROTOCOL)
  | RESOLVER_IPC_ASSEMBLY_STATE_RECORD, RESOLVER_IPC_PACKET_RESPONSE_ADDRESS =>
      if as_query_type a =? ns_t_srv then Some (b, a, RESOLVER_IPC_ASSEMBLY_PROTOCOL) else resolver_ipc_assembly_record_address_consume b a packet
  | RESOLVER_IPC_ASSEMBLY_STATE_END, RESOLVER_IPC_PACKET_RESPONSE_END => resolver_ipc_assembly_end_consume b a packet
  | _, _ => Some (b, a, RESOLVER_IPC_ASSEMBLY_PROTOCOL)
  end.

Definition assembly_step (b : resolver_ipc_assembly_budget) (a : resolver_ipc_assembly) (alloc_cnames alloc_records : bool) (packet : bytes)
    : option stepped :=
  if negb (resolver_ipc_assembly_state_nonterminal (as_state a)) then Some (resolver_ipc_assembly_fail b a RESOLVER_IPC_ASSEMBLY_PROTOCOL) else
  match resolver_ipc_packet_inspect (Some packet) with
  | Oob => None
  | Return _ => Some (resolver_ipc_assembly_fail b a RESOLVER_IPC_ASSEMBLY_PROTOCOL)
  | Next header =>
      if negb (h_query_id header =? as_query_id a) then Some (resolver_ipc_assembly_fail b a RESOLVER_IPC_ASSEMBLY_PROTOCOL) else
      '(b, a, status) ← packet_dispatch b a (h_kind header) alloc_cnames alloc_records packet;
      match status with
      | RESOLVER_IPC_ASSEMBLY_OK | RESOLVER_IPC_ASSEMBLY_COMPLETE => Some (b, a, status)
      | _ => Some (resolver_ipc_assembly_fail b a status)
      end
  end.

Definition resolver_ipc_assembly_packet_consume (b : resolver_ipc_assembly_budget) (assembly : option Z) (alloc_cnames alloc_records : bool)
    (packet : option bytes) : option (resolver_ipc_assembly_budget * resolver_ipc_assembly_status) :=
  match assembly, packet with
  | Some handle, Some packet =>
      a ← assembly_get b handle;
      '(b, a, status) ← assembly_step b a alloc_cnames alloc_records packet;
      Some (assembly_put b a, status)
  | _, _ => Some (b, RESOLVER_IPC_ASSEMBLY_BAD_ARGUMENT)
  end.

Definition resolver_ipc_assembly_result_destroy (b : resolver_ipc_assembly_budget) (result : option resolver_ipc_assembly_result)
    : resolver_ipc_assembly_budget * option resolver_ipc_assembly_result :=
  match result with
  | None => (b, None)
  | Some r => (if rt_budget r then budget_return b (rt_dynamic_bytes r) else b, Some result_zero)
  end.

(** [None]: nothing was taken and the result is as it was. *)
Definition resolver_ipc_assembly_result_take (b : resolver_ipc_assembly_budget) (assembly : option Z) (result : option resolver_ipc_assembly_result)
    : option (resolver_ipc_assembly_budget * option resolver_ipc_assembly_result) :=
  match assembly with
  | None => Some (b, None)
  | Some handle =>
      if negb (resolver_ipc_assembly_result_empty result) then Some (b, None) else
      a ← assembly_get b handle;
      match as_state a with
      | RESOLVER_IPC_ASSEMBLY_STATE_COMPLETE =>
          Some (assembly_put b (with_state (with_content a payload_zero 0) RESOLVER_IPC_ASSEMBLY_STATE_TAKEN),
                Some {| rt_budget := true; rt_completed_at := as_completed_at a; rt_dynamic_bytes := as_dynamic_bytes a; rt_payload := as_payload a;
                        rt_query_id := as_query_id a; rt_query_type := as_query_type a; rt_status := as_status a |})
      | _ => Some (b, None)
      end
  end.

(** ** What a response says *)

(** The content of the packets of a response, in order. *)
Record response := {
  rp_begin : resolver_ipc_response_begin; rp_cnames : list dns_cname_record;
  rp_addresses : list dns_address_record; rp_services : list dns_srv_record;
}.

Definition records_received (r : response) : Z := len (rp_addresses r) + len (rp_services r).
Definition chain_ttl (l : list dns_cname_record) : Z := foldl Z.min UINT32_MAX (c_ttl <$> l).

Definition cname_packet (id : Z) (i : nat) (c : dns_cname_record) : bytes := codec_wire {| rc_record := c; rc_index := Z.of_nat i; rc_query_id := id |}.
Definition address_packet (id : Z) (i : nat) (c : dns_address_record) : bytes := codec_wire {| ra_index := Z.of_nat i; ra_query_id := id; ra_record := c |}.
Definition srv_packet (id : Z) (i : nat) (c : dns_srv_record) : bytes := codec_wire {| rs_index := Z.of_nat i; rs_query_id := id; rs_record := c |}.
Definition end_packet (r : response) : bytes :=
  codec_wire {| e_cname_count := b_cname_count (rp_begin r); e_query_id := b_query_id (rp_begin r); e_record_count := b_record_count (rp_begin r) |}.

(** The packets before the end, and all of them. *)
Definition packets_before_end (r : response) : list bytes :=
  let id := b_query_id (rp_begin r) in
  codec_wire (rp_begin r) :: imap (cname_packet id) (rp_cnames r) ++ imap (address_packet id) (rp_addresses r) ++ imap (srv_packet id) (rp_services r).
Definition response_packets (r : response) : list bytes := packets_before_end r ++ [end_packet r].

Definition add_cname (r : response) (c : dns_cname_record) : response :=
  {| rp_begin := rp_begin r; rp_cnames := rp_cnames r ++ [c]; rp_addresses := rp_addresses r; rp_services := rp_services r |}.
Definition add_address (r : response) (c : dns_address_record) : response :=
  {| rp_begin := rp_begin r; rp_cnames := rp_cnames r; rp_addresses := rp_addresses r ++ [c]; rp_services := rp_services r |}.
Definition add_srv (r : response) (c : dns_srv_record) : response :=
  {| rp_begin := rp_begin r; rp_cnames := rp_cnames r; rp_addresses := rp_addresses r; rp_services := rp_services r ++ [c] |}.

(** The name an alias chain from [question] leads to. *)
Definition chain_end (question : bytes) (l : list dns_cname_record) : bytes := from_option c_target question (list.last l).

(** The alias continues the chain, in normalised names, and does not lead back into it. *)
Definition cname_fits (question : bytes) (l : list dns_cname_record) (c : dns_cname_record) : bool :=
  resolver_ipc_assembly_name_normalized (c_owner c) && resolver_ipc_assembly_name_normalized (c_target c)
  && bool_decide (c_owner c = chain_end question l) && negb (bool_decide (c_target c ∈ c_owner <$> (l ++ [c]))).
Definition cname_typed (c : dns_cname_record) : Prop := 0 <= c_ttl c < 2 ^ 32 /\ valid_name (c_owner c) /\ valid_name (c_target c).
Definition chained (question : bytes) (l : list dns_cname_record) : Prop :=
  forall i c, l !! i = Some c -> cname_fits question (take i l) c = true /\ cname_typed c.

Definition family_of_query (query_type : Z) : Z := if query_type =? ns_t_a then AF_INET else AF_INET6.
Definition address_fits (query_type chain : Z) (r : dns_address_record) : bool :=
  (family (a_address r) =? family_of_query query_type) && (a_effective_ttl r =? Z.min (a_record_ttl r) chain).
Definition address_typed (r : dns_address_record) : Prop :=
  codec_valid {| ra_index := 0; ra_query_id := 1; ra_record := r |}.
Definition srv_fits (chain : Z) (r : dns_srv_record) : bool :=
  resolver_ipc_assembly_name_normalized (r_target r) && (r_effective_ttl r =? Z.min (r_record_ttl r) chain).
Definition srv_typed (r : dns_srv_record) : Prop := codec_valid {| rs_index := 0; rs_query_id := 1; rs_record := r |}.

(** The start of a response to the query of [a]: it begins as announced, the
    aliases form a chain, and the records are of the queried kind with the
    lifetimes the chain allows. *)
Record partial (a : resolver_ipc_assembly) (r : response) : Prop := {
  pa_valid : codec_valid (rp_begin r);
  pa_check : resolver_ipc_assembly_begin_check a (rp_begin r) = true;
  pa_chain : chained (b_question_name (rp_begin r)) (rp_cnames r);
  pa_cnames : len (rp_cnames r) <= b_cname_count (rp_begin r);
  pa_order : records_received r = 0 \/ len (rp_cnames r) = b_cname_count (rp_begin r);
  pa_addresses : Forall (fun c => address_fits (as_query_type a) (chain_ttl (rp_cnames r)) c = true /\ address_typed c) (rp_addresses r);
  pa_services : Forall (fun c => srv_fits (chain_ttl (rp_cnames r)) c = true /\ srv_typed c) (rp_services r);
  pa_kind : if as_query_type a =? ns_t_srv then rp_addresses r = [] else rp_services r = [];
  pa_records : records_received r <= b_record_count (rp_begin r);
}.

(** The chain ends in the canonical name; a negative record is that of an
    enclosing zone, with the lifetime the chain allows. *)
Definition closes (r : response) : bool :=
  let begin := rp_begin r in
  let n := b_negative begin in
  let resolver_error := (b_status begin =? RESOLVER_IPC_LOOKUP_PERMANENT_ERROR) || (b_status begin =? RESOLVER_IPC_LOOKUP_TEMPORARY_ERROR) in
  (((b_cname_count begin =? 0) && resolver_error) || bool_decide (b_canonical_name begin = chain_end (b_question_name begin) (rp_cnames r)))
  && (negb (n_valid n)
      || (resolver_ipc_assembly_name_normalized (n_owner n) && resolver_name_encloses (Some (n_owner n)) (Some (b_canonical_name begin))
          && (n_effective_ttl n =? Z.min (Z.min (n_minimum n) (n_record_ttl n)) (chain_ttl (rp_cnames r))))).

(** A whole response to the query of [a]. *)
Record coherent (a : resolver_ipc_assembly) (r : response) : Prop := {
  co_partial : partial a r;
  co_cnames : len (rp_cnames r) = b_cname_count (rp_begin r);
  co_records : records_received r = b_record_count (rp_begin r);
  co_closes : closes r = true;
}.

(** ** The assembly while a response is received *)

Definition array_of {A} (n : Z) (zero : A) (l : list A) : option (list A) :=
  if n =? 0 then None else Some (l ++ replicate (Z.to_nat n - length l) zero).

Definition dynamic_size (query_type cname_count record_count : Z) : Z :=
  (if cname_count =? 0 then 0 else DNS_CNAME_DEPTH_LIMIT * sizeof_dns_cname_record)
  + record_count * (if query_type =? ns_t_srv then sizeof_dns_srv_record else sizeof_dns_address_record).

Definition payload_at (a : resolver_ipc_assembly) (r : response) (cname_count record_count : Z) : resolver_ipc_assembly_payload :=
  let begin := rp_begin r in
  let srv := as_query_type a =? ns_t_srv in {|
  py_addresses := if srv then None else array_of (b_record_count begin) dns_address_record_zero (rp_addresses r);
  py_records := if srv then array_of (b_record_count begin) dns_srv_record_zero (rp_services r) else None;
  py_record_count := record_count; py_canonical_name := b_canonical_name begin;
  py_cnames := array_of (if b_cname_count begin =? 0 then 0 else DNS_CNAME_DEPTH_LIMIT) dns_cname_record_zero (rp_cnames r);
  py_cname_count := cname_count; py_negative := b_negative begin; py_question_name := b_question_name begin; py_rcode := b_rcode begin |}.

Definition state_at (r : response) : resolver_ipc_assembly_state :=
  if len (rp_cnames r) <? b_cname_count (rp_begin r) then RESOLVER_IPC_ASSEMBLY_STATE_CNAME
  else if records_received r <? b_record_count (rp_begin r) then RESOLVER_IPC_ASSEMBLY_STATE_RECORD else RESOLVER_IPC_ASSEMBLY_STATE_END.

(** [a] once the packets of [r] have been consumed. *)
Definition assembly_with (a : resolver_ipc_assembly) (r : response) (p : resolver_ipc_assembly_payload) (state : resolver_ipc_assembly_state)
    : resolver_ipc_assembly := let begin := rp_begin r in {|
  as_handle := as_handle a; as_chain_ttl := chain_ttl (rp_cnames r); as_declared_cname_count := b_cname_count begin;
  as_declared_record_count := b_record_count begin; as_dynamic_bytes := dynamic_size (as_query_type a) (b_cname_count begin) (b_record_count begin);
  as_expected_name := as_expected_name a; as_payload := p; as_query_class := as_query_class a; as_query_id := as_query_id a;
  as_query_type := as_query_type a; as_received_cname_count := len (rp_cnames r); as_received_record_count := records_received r;
  as_state := state; as_status := b_status begin; as_completed_at := b_completed_at begin |}.
Definition assembly_at (a : resolver_ipc_assembly) (r : response) : resolver_ipc_assembly := assembly_with a r (payload_at a r 0 0) (state_at r).
Definition assembled (a : resolver_ipc_assembly) (r : response) : resolver_ipc_assembly :=
  assembly_with a r (payload_at a r (b_cname_count (rp_begin r)) (b_record_count (rp_begin r))) RESOLVER_IPC_ASSEMBLY_STATE_COMPLETE.

(** An assembly as [resolver_ipc_assembly_create] makes it. *)
Definition fresh_assembly (handle : Z) (name : bytes) (query_type query_id : Z) : resolver_ipc_assembly := {|
  as_handle := handle; as_chain_ttl := 0; as_declared_cname_count := 0; as_declared_record_count := 0; as_dynamic_bytes := 0;
  as_expected_name := name; as_payload := payload_zero; as_query_class := ns_c_in; as_query_id := query_id; as_query_type := query_type;
  as_received_cname_count := 0; as_received_record_count := 0; as_state := RESOLVER_IPC_ASSEMBLY_STATE_BEGIN; as_status := 0;
  as_completed_at := timespec_zero |}.
Record fresh (a : resolver_ipc_assembly) : Prop := {
  fr_name : resolver_name_normalize (Some (as_expected_name a)) = Some (as_expected_name a);
  fr_type : resolver_ipc_query_type_valid (as_query_type a) = true;
  fr_is : a = fresh_assembly (as_handle a) (as_expected_name a) (as_query_type a) (as_query_id a);
}.

(** ** Arrays *)

Lemma array_of_get {A} n (zero : A) l i c : len l <= n -> l !! i = Some c -> array_get (array_of n zero l) (Z.of_nat i) = Some c.
Proof.
  intros Hl Hi. pose proof (lookup_lt_Some _ _ _ Hi). unfold array_of, array_get. if_as E; [lia|]. cbn [mbind option_bind]. if_as E2; [lia|].
  rewrite Nat2Z.id. by apply lookup_app_l_Some.
Qed.

Lemma array_of_set {A} n (zero : A) l c : len l < n -> array_set (array_of n zero l) (len l) c = Some (array_of n zero (l ++ [c])).
Proof.
  intros Hl. unfold array_of, array_set. if_as E; [lia|]. cbn [mbind option_bind]. rewrite len_app, length_replicate. if_as E2; [lia|].
  do 2 f_equal. rewrite Nat2Z.id. rewrite insert_app_r_alt by lia. rewrite Nat.sub_diag, length_app.
  replace (Z.to_nat n - length l)%nat with (S (Z.to_nat n - (length l + length [c])))%nat by (cbn [length]; lia). by rewrite <- app_assoc.
Qed.

Lemma array_of_calloc {A} n (zero : A) : array_calloc n zero = array_of n zero [].
Proof. unfold array_calloc, array_of. if_as E; [done|]. cbn [length app]. by rewrite Nat.sub_0_r. Qed.

Lemma array_of_full {A} n (zero : A) l : len l = n -> array_of n zero l = if n =? 0 then None else Some l.
Proof. intros Hl. unfold array_of. if_as E; [done|]. replace (Z.to_nat n - length l)%nat with 0%nat by lia. by rewrite app_nil_r. Qed.

Lemma chain_end_snoc question l c : chain_end question (l ++ [c]) = c_target c.
Proof. unfold chain_end. by rewrite last_snoc. Qed.

Lemma chain_ttl_snoc l c : chain_ttl (l ++ [c]) = Z.min (chain_ttl l) (c_ttl c).
Proof. unfold chain_ttl. by rewrite fmap_app, foldl_app. Qed.

Lemma chained_snoc question l c : chained question (l ++ [c]) <-> chained question l /\ cname_fits question l c = true /\ cname_typed c.
Proof.
  unfold chained. split.
  - intros H. split.
    + intros i d Hi. specialize (H i d (lookup_app_l_Some _ _ _ _ Hi)). by rewrite take_app_le in H by (apply lookup_lt_Some in Hi; lia).
    + specialize (H (length l) c). rewrite lookup_app_r, Nat.sub_diag, take_app_length in H by lia. by apply H.
  - intros [Hl Hc] i d Hi. apply lookup_app_Some in Hi as [Hi|[Hi Hd]].
    + rewrite take_app_le by (apply lookup_lt_Some in Hi; lia). by apply Hl.
    + apply list_lookup_singleton_Some in Hd as [Hd ->]. replace i with (length l) by lia. by rewrite take_app_length.
Qed.

Lemma array_of_owners n l : len l <= n ->
  mapM (fun i => c_owner <$> array_get (array_of n dns_cname_record_zero l) (Z.of_nat i)) (seq 0 (length l)) = Some (c_owner <$> l).
Proof.
  intros Hl. apply mapM_Some_2, Forall2_same_length_lookup_2; [by rewrite length_seq, length_fmap|]. intros i x y Hx Hy.
  apply lookup_seq in Hx as [-> Hi]. rewrite list_lookup_fmap in Hy. destruct (l !! i) as [c|] eqn:E; [|done]. injection Hy as <-.
  cbn [Nat.add]. by rewrite (array_of_get n _ l i c).
Qed.

Lemma ttl_expected_min a b : resolver_ipc_assembly_ttl_expected a b = Z.min a b.
Proof. unfold resolver_ipc_assembly_ttl_expected. if_as E; lia. Qed.

(** ** Steps on decoded packets *)

(** The checks common to the packets of a sequence. *)
Definition in_sequence (id index : Z) (a : resolver_ipc_assembly) (received : Z) : bool := (id =? as_query_id a) && (index =? received).

Lemma cname_owner_expected (question : bytes) n l : len l <= n ->
  (if len l =? 0 then Some question else c_target <$> array_get (array_of n dns_cname_record_zero l) (len l - 1)) = Some (chain_end question l).
Proof.
  intros Hl. destruct (decide (l = [])) as [->|Hn]; [done|]. destruct (exists_last Hn) as (k & c & ->). rewrite chain_end_snoc.
  rewrite len_app. cbn [length]. if_as E; [lia|]. rewrite Z.add_simpl_r.
  rewrite (array_of_get n _ (k ++ [c]) (length k) c); [done|done|]. by rewrite lookup_app_r, Nat.sub_diag by lia.
Qed.

Lemma begin_counts begin : codec_valid begin -> 0 <= b_cname_count begin <= 16 /\ 0 <= b_record_count begin <= 128.
Proof. intros (_ & _ & _ & _ & _ & _ & _ & Hc & Hr & Hv & _). apply count_range in Hv. lia. Qed.

(** The fields of the assemblies of the goal, written out. *)
Ltac open_assembly :=
  unfold assembly_at, assembled, assembly_with, with_content, with_received, with_declared, with_state, payload_at, with_cnames, with_arrays, with_names,
    with_counts, state_at, records_received, add_cname, add_address, add_srv in *;
  cbn [rp_begin rp_cnames rp_addresses rp_services as_handle as_chain_ttl as_declared_cname_count as_declared_record_count as_dynamic_bytes
    as_expected_name as_payload as_query_class as_query_id as_query_type as_received_cname_count as_received_record_count as_state as_status
    as_completed_at py_addresses py_records py_record_count py_canonical_name py_cnames py_cname_count py_negative py_question_name py_rcode] in *.

Lemma cname_take b a r packet m : partial a r -> len (rp_cnames r) < b_cname_count (rp_begin r) ->
  resolver_ipc_response_cname_decode (Some packet) = Next m ->
  resolver_ipc_assembly_cname_consume b (assembly_at a r) packet =
  Some (if in_sequence (rc_query_id m) (rc_index m) a (len (rp_cnames r)) && cname_fits (b_question_name (rp_begin r)) (rp_cnames r) (rc_record m)
        then (b, assembly_at a (add_cname r (rc_record m)), RESOLVER_IPC_ASSEMBLY_OK)
        else (b, assembly_at a r, RESOLVER_IPC_ASSEMBLY_PROTOCOL)).
Proof.
  intros Hp Hlt Hd. pose proof (begin_counts _ (pa_valid _ _ Hp)) as [Hc _]. set (n := DNS_CNAME_DEPTH_LIMIT).
  assert (Hlen : len (rp_cnames r) < n) by (unfold n, DNS_CNAME_DEPTH_LIMIT; lia).
  unfold resolver_ipc_assembly_cname_consume. rewrite Hd. cbn [assembly_at assembly_with as_payload as_received_cname_count as_query_id payload_at
    py_cnames py_question_name]. replace (b_cname_count (rp_begin r) =? 0) with false by lia. fold n.
  rewrite cname_owner_expected, Nat2Z.id by lia. rewrite array_of_owners by lia. rewrite array_of_set by done. cbn [mbind option_bind].
  unfold in_sequence, cname_fits. set (c := rc_record m).
  destruct (rc_query_id m =? as_query_id a), (rc_index m =? len (rp_cnames r)); cbn [negb orb andb]; try done.
  destruct (resolver_ipc_assembly_name_normalized (c_owner c)), (resolver_ipc_assembly_name_normalized (c_target c)); cbn [negb orb andb]; try done.
  destruct (bool_decide (c_owner c = _)); cbn [negb orb andb]; [|done]. rewrite fmap_app.
  assert (Hb : bool_decide (c_target c ∈ (c_owner <$> rp_cnames r) ++ (c_owner <$> [c])) =
    bool_decide (c_target c ∈ c_owner <$> rp_cnames r) || bool_decide (c_target c = c_owner c)).
  { rewrite <- bool_decide_or. apply bool_decide_ext. cbn [fmap list_fmap]. by rewrite elem_of_app, list_elem_of_singleton. }
  rewrite Hb. if_as E; [done|]. cbn [negb].
  open_assembly.
  rewrite len_app. cbn [length]. rewrite chain_ttl_snoc.
  replace (if c_ttl c <? chain_ttl (rp_cnames r) then c_ttl c else chain_ttl (rp_cnames r)) with (Z.min (chain_ttl (rp_cnames r)) (c_ttl c)) by (if_as Em; lia).
  replace (b_cname_count (rp_begin r) =? 0) with false by lia. fold n.
  destruct (pa_order _ _ Hp) as [Hr0|]; [|lia]. unfold records_received in Hr0. rewrite Hr0.
  if_as E2.
  - replace (len (rp_cnames r) + Z.of_nat 1 <? _) with false by lia. done.
  - replace (len (rp_cnames r) + Z.of_nat 1 <? _) with true by lia. replace (len (rp_cnames r) <? _) with true by lia. done.
Qed.

Lemma address_take b a r packet m : partial a r -> len (rp_cnames r) = b_cname_count (rp_begin r) -> records_received r < b_record_count (rp_begin r) ->
  as_query_type a <> ns_t_srv -> resolver_ipc_response_address_decode (Some packet) = Next m ->
  resolver_ipc_assembly_record_address_consume b (assembly_at a r) packet =
  Some (if in_sequence (ra_query_id m) (ra_index m) a (records_received r) && address_fits (as_query_type a) (chain_ttl (rp_cnames r)) (ra_record m)
        then (b, assembly_at a (add_address r (ra_record m)), RESOLVER_IPC_ASSEMBLY_OK)
        else (b, assembly_at a r, RESOLVER_IPC_ASSEMBLY_PROTOCOL)).
Proof.
  intros Hp Hc Hr Ht Hd. pose proof (pa_kind _ _ Hp) as Hk. unfold resolver_ipc_assembly_record_address_consume. rewrite Hd.
  unfold in_sequence, address_fits, family_of_query, resolver_ipc_assembly_record_commit. rewrite ttl_expected_min. open_assembly.
  destruct (as_query_type a =? ns_t_srv) eqn:Es; [lia|]. rewrite Hk in *. change (len (@nil dns_srv_record)) with 0 in *. rewrite !Z.add_0_r in *.
  rewrite array_of_set by done. cbn [mbind option_bind]. rewrite len_app. cbn [length]. replace (len (rp_cnames r) <? _) with false by lia.
  destruct (ra_query_id m =? as_query_id a), (ra_index m =? len (rp_addresses r)); cbn [negb orb andb]; try done.
  destruct (family _ =? _), (a_effective_ttl _ =? _); cbn [negb orb andb]; try done.
  if_as E.
  - replace (len (rp_addresses r) + Z.of_nat 1 <? _) with false by lia. done.
  - replace (len (rp_addresses r) + Z.of_nat 1 <? _) with true by lia. by replace (len (rp_addresses r) <? _) with true by lia.
Qed.

Lemma srv_take b a r packet m : partial a r -> len (rp_cnames r) = b_cname_count (rp_begin r) -> records_received r < b_record_count (rp_begin r) ->
  as_query_type a = ns_t_srv -> resolver_ipc_response_srv_decode (Some packet) = Next m ->
  resolver_ipc_assembly_record_srv_consume b (assembly_at a r) packet =
  Some (if in_sequence (rs_query_id m) (rs_index m) a (records_received r) && srv_fits (chain_ttl (rp_cnames r)) (rs_record m)
        then (b, assembly_at a (add_srv r (rs_record m)), RESOLVER_IPC_ASSEMBLY_OK)
        else (b, assembly_at a r, RESOLVER_IPC_ASSEMBLY_PROTOCOL)).
Proof.
  intros Hp Hc Hr Ht Hd. pose proof (pa_kind _ _ Hp) as Hk. unfold resolver_ipc_assembly_record_srv_consume. rewrite Hd.
  unfold in_sequence, srv_fits, resolver_ipc_assembly_record_commit. rewrite ttl_expected_min. open_assembly.
  destruct (as_query_type a =? ns_t_srv) eqn:Es; [|lia]. rewrite Hk in *. change (len (@nil dns_address_record)) with 0 in *. rewrite !Z.add_0_l in *.
  rewrite array_of_set by done. cbn [mbind option_bind]. rewrite len_app. cbn [length]. replace (len (rp_cnames r) <? _) with false by lia.
  destruct (rs_query_id m =? as_query_id a), (rs_index m =? len (rp_services r)); cbn [negb orb andb]; try done.
  destruct (resolver_ipc_assembly_name_normalized _), (r_effective_ttl _ =? _); cbn [negb orb andb]; try done.
  if_as E.
  - replace (len (rp_services r) + Z.of_nat 1 <? _) with false by lia. done.
  - replace (len (rp_services r) + Z.of_nat 1 <? _) with true by lia. by replace (len (rp_services r) <? _) with true by lia.
Qed.

Lemma complete_check_at a r : partial a r -> len (rp_cnames r) = b_cname_count (rp_begin r) ->
  resolver_ipc_assembly_complete_check (assembly_at a r) = Some (closes r).
Proof.
  intros Hp Hc. pose proof (begin_counts _ (pa_valid _ _ Hp)) as [Hcc _]. unfold resolver_ipc_assembly_complete_check, closes. rewrite ttl_expected_min.
  open_assembly. set (begin := rp_begin r) in *. set (n := b_negative begin).
  set (err := (b_status begin =? RESOLVER_IPC_LOOKUP_PERMANENT_ERROR) || (b_status begin =? RESOLVER_IPC_LOOKUP_TEMPORARY_ERROR)).
  replace (if n_minimum n <? n_record_ttl n then n_minimum n else n_record_ttl n) with (Z.min (n_minimum n) (n_record_ttl n)) by (if_as Em; lia).
  assert (Hnamed : (if 0 <? b_cname_count begin then
      last ← array_get (array_of (if b_cname_count begin =? 0 then 0 else DNS_CNAME_DEPTH_LIMIT) dns_cname_record_zero (rp_cnames r)) (b_cname_count begin - 1);
      Some (bool_decide (b_canonical_name begin = c_target last))
    else Some (err || bool_decide (b_canonical_name begin = b_question_name begin))) =
    Some (((b_cname_count begin =? 0) && err) || bool_decide (b_canonical_name begin = chain_end (b_question_name begin) (rp_cnames r)))).
  { pose proof (cname_owner_expected (b_question_name begin) DNS_CNAME_DEPTH_LIMIT (rp_cnames r) ltac:(unfold DNS_CNAME_DEPTH_LIMIT; lia)) as Ho.
    rewrite <- Hc in *. destruct (len (rp_cnames r) =? 0) eqn:E0.
    - replace (0 <? len (rp_cnames r)) with false by lia. injection Ho as <-. done.
    - replace (0 <? len (rp_cnames r)) with true by lia. cbn [andb orb]. destruct (array_get _ _) as [c|]; [|done]. by injection Ho as <-. }
  rewrite Hnamed. cbn [mbind option_bind]. destruct (((b_cname_count begin =? 0) && err) || bool_decide _); cbn [negb andb]; [|done]. by destruct (n_valid n).
Qed.

(** Changes of a budget's metrics only. *)
Definition same_bytes (b b' : resolver_ipc_assembly_budget) : Prop := bu_assemblies b' = bu_assemblies b /\ bu_owned_bytes b' = bu_owned_bytes b.

Lemma increment_same b q k : same_bytes b (resolver_ipc_assembly_metrics_increment b q k).
Proof. unfold resolver_ipc_assembly_metrics_increment. by destruct (metrics_counter_add _ _ _) as [[v s] o]. Qed.

Lemma terminal_record_same b a st : same_bytes b (resolver_ipc_assembly_metrics_terminal_record b a st).
Proof.
  unfold resolver_ipc_assembly_metrics_terminal_record. if_as E; [done|]. destruct st; try apply increment_same.
  destruct (metrics_size_histogram_observe _ _ _) as [h s]. apply (increment_same (with_budget_metrics b _)).
Qed.

Lemma limit_record_same b a fit : same_bytes b (resolver_ipc_assembly_metrics_limit_record b a fit).
Proof. unfold resolver_ipc_assembly_metrics_limit_record. destruct fit; apply increment_same. Qed.

Lemma end_take b a r packet m : partial a r -> len (rp_cnames r) = b_cname_count (rp_begin r) -> records_received r = b_record_count (rp_begin r) ->
  resolver_ipc_response_end_decode (Some packet) = Next m ->
  if (e_query_id m =? as_query_id a) && (e_cname_count m =? b_cname_count (rp_begin r)) && (e_record_count m =? b_record_count (rp_begin r)) && closes r
  then exists b', resolver_ipc_assembly_end_consume b (assembly_at a r) packet = Some (b', assembled a r, RESOLVER_IPC_ASSEMBLY_COMPLETE) /\ same_bytes b b'
  else resolver_ipc_assembly_end_consume b (assembly_at a r) packet = Some (b, assembly_at a r, RESOLVER_IPC_ASSEMBLY_PROTOCOL).
Proof.
  intros Hp Hc Hr Hd. unfold resolver_ipc_assembly_end_consume. rewrite Hd, complete_check_at by done. cbn [mbind option_bind].
  cbn [assembly_at assembly_with as_query_id as_declared_cname_count as_declared_record_count as_received_cname_count as_received_record_count].
  rewrite <- Hc, <- Hr, !Z.eqb_refl.
  destruct (e_query_id m =? as_query_id a), (e_cname_count m =? len (rp_cnames r)), (e_record_count m =? records_received r); cbn [negb orb andb]; try done.
  destruct (closes r); cbn [negb]; [|done]. eexists. split; [|apply terminal_record_same]. do 3 f_equal. open_assembly. by rewrite Hc, Hr.
Qed.

Definition starts (begin : resolver_ipc_response_begin) : response := {| rp_begin := begin; rp_cnames := []; rp_addresses := []; rp_services := [] |}.
Definition charged (b : resolver_ipc_assembly_budget) (n : Z) : resolver_ipc_assembly_budget :=
  with_budget_high_water (with_budget_bytes b (bu_owned_bytes b + n)).

(** The arrays of a response are charged to [b], and their allocations succeed. *)
Definition has_room (b : resolver_ipc_assembly_budget) (query_type : Z) (alloc_cnames alloc_records : bool) (begin : resolver_ipc_response_begin) : bool :=
  (bu_owned_bytes b + dynamic_size query_type (b_cname_count begin) (b_record_count begin) <=? RESOLVER_REPLY_ASSEMBLY_BYTE_LIMIT)
  && ((b_cname_count begin =? 0) || alloc_cnames) && ((b_record_count begin =? 0) || alloc_records).

Lemma size_multiply_ok x y : 0 <= x <= 2056 -> 0 <= y <= 2056 -> resolver_size_multiply x y = Some (x * y).
Proof.
  intros Hx Hy. unfold resolver_size_multiply. if_as E; [|done]. apply andb_true_iff in E as [E1 E2]. apply Z.ltb_lt in E2.
  assert (SIZE_MAX / 2056 <= SIZE_MAX / x) by (apply Z.div_le_compat_l; unfold SIZE_MAX, UINT64_MAX; lia).
  assert (2056 < SIZE_MAX / 2056) by by vm_compute. lia.
Qed.

Lemma size_add_ok x y : 0 <= x <= 2 ^ 32 -> 0 <= y <= 2 ^ 32 -> resolver_size_add x y = Some (x + y).
Proof. intros Hx Hy. unfold resolver_size_add, SIZE_MAX, UINT64_MAX. if_as E; [lia|done]. Qed.

Lemma begin_classified begin : codec_valid begin ->
  resolver_cache_result_classify (b_query_type begin) (b_cname_count begin) (b_record_count begin) = RESOLVER_CACHE_RESULT_FIT_OK.
Proof.
  intros Hv. pose proof (begin_counts _ Hv) as [Hc Hr]. destruct Hv as (_ & _ & Ht & _). unfold resolver_ipc_query_type_valid in Ht.
  unfold resolver_cache_result_classify, DNS_CNAME_DEPTH_LIMIT, DNS_ADDRESS_RECORD_LIMIT, DNS_SRV_RECORD_LIMIT, sizeof_resolver_cache_payload,
    sizeof_dns_cname_record, RESOLVER_CACHE_RESULT_BYTE_LIMIT. if_as E; [lia|]. clear E.
  rewrite (size_multiply_ok 16) by lia. cbn [mbind option_bind]. rewrite (size_add_ok 3184) by lia.
  set (size := if b_query_type begin =? ns_t_srv then _ else _). assert (Hs : 0 <= size <= 1040) by (unfold size; if_as E; by vm_compute).
  assert (Hn : 0 <= b_record_count begin * size <= 128 * 1040) by nia. rewrite size_multiply_ok by lia. cbn [mbind option_bind].
  set (n := b_record_count begin * size) in *. clearbody n size. if_as E; rewrite size_add_ok by lia; (if_as E2; [done|lia]).
Qed.

Lemma allocate_at b a ac ar begin : a = fresh_assembly (as_handle a) (as_expected_name a) (as_query_type a) (as_query_id a) -> codec_valid begin ->
  b_query_type begin = as_query_type a ->
  exists b', resolver_ipc_assembly_arrays_allocate b a ac ar (b_cname_count begin) (b_record_count begin) =
    (b', if has_room b (as_query_type a) ac ar begin
         then with_content a (payload_at a (starts {| b_canonical_name := []; b_cname_count := b_cname_count begin; b_completed_at := timespec_zero;
                b_negative := dns_negative_record_zero; b_question_name := []; b_query_class := 0; b_query_id := 0; b_query_type := 0; b_rcode := 0;
                b_record_count := b_record_count begin; b_status := 0 |}) 0 0)
              (dynamic_size (as_query_type a) (b_cname_count begin) (b_record_count begin))
         else a,
     if has_room b (as_query_type a) ac ar begin then RESOLVER_IPC_ASSEMBLY_OK
     else if bu_owned_bytes b + dynamic_size (as_query_type a) (b_cname_count begin) (b_record_count begin) <=? RESOLVER_REPLY_ASSEMBLY_BYTE_LIMIT
     then RESOLVER_IPC_ASSEMBLY_MEMORY else RESOLVER_IPC_ASSEMBLY_LIMIT) /\
    (if has_room b (as_query_type a) ac ar begin then b' = charged b (dynamic_size (as_query_type a) (b_cname_count begin) (b_record_count begin))
     else same_bytes b b').
Proof.
  intros Hf Hv Ht. pose proof (begin_counts _ Hv) as [Hc Hr]. unfold resolver_ipc_assembly_arrays_allocate. rewrite <- Ht, begin_classified by done. rewrite Ht.
  set (size := if as_query_type a =? ns_t_srv then _ else _). assert (Hs : 0 <= size <= 1040) by (unfold size; if_as E; by vm_compute).
  set (cb := if b_cname_count begin =? 0 then 0 else 32896).
  assert (Hcb : (if 0 <? b_cname_count begin then resolver_size_multiply DNS_CNAME_DEPTH_LIMIT sizeof_dns_cname_record else Some 0) = Some cb).
  { unfold DNS_CNAME_DEPTH_LIMIT, sizeof_dns_cname_record, cb. rewrite size_multiply_ok by lia. destruct (b_cname_count begin =? 0) eqn:E.
    - by replace (0 <? b_cname_count begin) with false by lia.
    - by replace (0 <? b_cname_count begin) with true by lia. }
  assert (0 <= cb <= 32896) by (unfold cb; if_as E; lia).
  assert (Hds : dynamic_size (as_query_type a) (b_cname_count begin) (b_record_count begin) = cb + b_record_count begin * size) by done.
  rewrite Hcb, size_multiply_ok, size_add_ok by nia. rewrite !Hds. unfold has_room. rewrite Hds. unfold RESOLVER_REPLY_ASSEMBLY_BYTE_LIMIT. if_as E1; [nia|].
  set (n := cb + b_record_count begin * size) in *. if_as E2.
  - replace (bu_owned_bytes b + n <=? 1024 * 1024) with false by lia. cbn [andb]. eexists. split; [done|]. apply increment_same.
  - replace (bu_owned_bytes b + n <=? 1024 * 1024) with true by lia. cbn [andb].
    assert (Hm : ((0 <? b_cname_count begin) && negb ac || (0 <? b_record_count begin) && negb ar) =
      negb (((b_cname_count begin =? 0) || ac) && ((b_record_count begin =? 0) || ar))).
    { assert (Hz1 : (0 <? b_cname_count begin) = negb (b_cname_count begin =? 0)) by lia. assert (Hz2 : (0 <? b_record_count begin) = negb (b_record_count begin =? 0)) by lia.
      rewrite Hz1, Hz2. by destruct (b_cname_count begin =? 0), (b_record_count begin =? 0), ac, ar. }
    rewrite Hm. destruct (((b_cname_count begin =? 0) || ac) && ((b_record_count begin =? 0) || ar)); cbn [negb]; [|by exists b].
    eexists. split; [|done]. do 2 f_equal.
    rewrite Hf. unfold starts, fresh_assembly, payload_zero. open_assembly. rewrite !array_of_calloc.
    cbn [b_cname_count b_record_count b_canonical_name b_negative b_question_name b_rcode].
    f_equal. by destruct (b_cname_count begin =? 0), (as_query_type a =? ns_t_srv).
Qed.

Lemma begin_take b a ac ar packet begin : fresh a -> codec_valid begin -> resolver_ipc_response_begin_decode (Some packet) = Next begin ->
  if resolver_ipc_assembly_begin_check a begin && has_room b (as_query_type a) ac ar begin
  then resolver_ipc_assembly_begin_consume b a ac ar packet =
    Some (charged b (dynamic_size (as_query_type a) (b_cname_count begin) (b_record_count begin)), assembly_at a (starts begin), RESOLVER_IPC_ASSEMBLY_OK)
  else exists b' status, resolver_ipc_assembly_begin_consume b a ac ar packet = Some (b', a, status) /\ same_bytes b b' /\
    status <> RESOLVER_IPC_ASSEMBLY_OK /\ status <> RESOLVER_IPC_ASSEMBLY_COMPLETE.
Proof.
  intros [Hn Ht Hf] Hv Hd. unfold resolver_ipc_assembly_begin_consume. rewrite Hd.
  destruct (resolver_ipc_assembly_begin_check a begin) eqn:Hck; cbn [negb andb]; [|by exists b, RESOLVER_IPC_ASSEMBLY_PROTOCOL].
  assert (Hqt : b_query_type begin = as_query_type a).
  { unfold resolver_ipc_assembly_begin_check in Hck. destruct (b_query_type begin =? as_query_type a) eqn:E; [lia|]. by rewrite orb_true_r in Hck. }
  destruct (allocate_at b a ac ar begin Hf Hv Hqt) as (b' & -> & Hb). destruct (has_room b (as_query_type a) ac ar begin).
  - rewrite Hb. do 3 f_equal. clear -Hf. generalize dependent (as_handle a). intros h Hf. generalize dependent (as_expected_name a). intros n Hf.
    generalize dependent (as_query_id a). intros i Hf. remember (as_query_type a) as t eqn:E. clear E. subst a. done.
  - if_as E; by eexists _, _.
Qed.

(** ** Steps on any packet *)

Lemma imap_snoc {A B} (f : nat -> A -> B) l x : imap f (l ++ [x]) = imap f l ++ [f (length l) x].
Proof. rewrite imap_app. cbn [imap]. unfold compose. by rewrite Nat.add_0_r. Qed.

Lemma begin_check_query a begin : resolver_ipc_assembly_begin_check a begin = true ->
  b_query_id begin = as_query_id a /\ b_query_class begin = as_query_class a /\ b_query_type begin = as_query_type a.
Proof. unfold resolver_ipc_assembly_begin_check. if_as E; [done|]. intros _. lia. Qed.

Lemma partial_starts a begin : codec_valid begin -> resolver_ipc_assembly_begin_check a begin = true -> partial a (starts begin).
Proof.
  intros Hv Hc. pose proof (begin_counts _ Hv). split; try done; try (cbn; lia).
  - by left.
  - cbn. by if_as E.
  - unfold records_received. cbn. lia.
Qed.

Lemma partial_cname a r c : records_received r = 0 ->
  partial a (add_cname r c) <-> partial a r /\ len (rp_cnames r) < b_cname_count (rp_begin r) /\
    cname_fits (b_question_name (rp_begin r)) (rp_cnames r) c = true /\ cname_typed c.
Proof.
  intros H0. assert (Hn : rp_addresses r = [] /\ rp_services r = []).
  { unfold records_received in H0. split; apply nil_length_inv; lia. }
  destruct Hn as [Hna Hns]. split.
  - intros [Hv Hc Hch Hcn Ho Ha Hs Hk Hr]. open_assembly. apply chained_snoc in Hch as (H1 & H2 & H3). rewrite len_app in Hcn. cbn [length] in Hcn.
    split; [|split; [lia|done]]. split; try done; [lia|by left|by rewrite Hna|by rewrite Hns].
  - intros ([Hv Hc Hch Hcn Ho Ha Hs Hk Hr] & Hlt & Hf & Ht). split; open_assembly; try done.
    + by apply chained_snoc.
    + rewrite len_app. cbn [length]. lia.
    + by left.
    + by rewrite Hna.
    + by rewrite Hns.
Qed.

Lemma partial_address a r c : as_query_type a <> ns_t_srv ->
  partial a (add_address r c) <-> partial a r /\ len (rp_cnames r) = b_cname_count (rp_begin r) /\ records_received r < b_record_count (rp_begin r) /\
    address_fits (as_query_type a) (chain_ttl (rp_cnames r)) c = true /\ address_typed c.
Proof.
  intros Hq. split.
  - intros [Hv Hc Hch Hcn Ho Ha Hs Hk Hr]. open_assembly. apply Forall_app in Ha as [Ha Hc1]. apply Forall_cons_1 in Hc1 as [[H1 H2] _].
    rewrite len_app in *. cbn [length] in *. split; [|lia || (split; [lia|split; [lia|done]])].
    split; try done; [by right; lia| |unfold records_received; lia]. destruct (as_query_type a =? ns_t_srv) eqn:E; [lia|done].
  - intros ([Hv Hc Hch Hcn Ho Ha Hs Hk Hr] & Hlt & Hlr & Hf & Ht). split; open_assembly; try done.
    + by right.
    + apply Forall_app. by split; [|apply Forall_singleton].
    + destruct (as_query_type a =? ns_t_srv) eqn:E; [lia|done].
    + rewrite len_app. cbn [length]. lia.
Qed.

Lemma partial_srv a r c : as_query_type a = ns_t_srv ->
  partial a (add_srv r c) <-> partial a r /\ len (rp_cnames r) = b_cname_count (rp_begin r) /\ records_received r < b_record_count (rp_begin r) /\
    srv_fits (chain_ttl (rp_cnames r)) c = true /\ srv_typed c.
Proof.
  intros Hq. split.
  - intros [Hv Hc Hch Hcn Ho Ha Hs Hk Hr]. open_assembly. apply Forall_app in Hs as [Hs Hc1]. apply Forall_cons_1 in Hc1 as [[H1 H2] _].
    rewrite len_app in *. cbn [length] in *. split; [|lia || (split; [lia|split; [lia|done]])].
    split; try done; [by right; lia| |unfold records_received; lia]. destruct (as_query_type a =? ns_t_srv) eqn:E; [done|lia].
  - intros ([Hv Hc Hch Hcn Ho Ha Hs Hk Hr] & Hlt & Hlr & Hf & Ht). split; open_assembly; try done.
    + by right.
    + apply Forall_app. by split; [|apply Forall_singleton].
    + destruct (as_query_type a =? ns_t_srv) eqn:E; [done|lia].
    + rewrite len_app. cbn [length]. lia.
Qed.

Lemma packets_cname r c : records_received r = 0 ->
  packets_before_end (add_cname r c) = packets_before_end r ++ [cname_packet (b_query_id (rp_begin r)) (length (rp_cnames r)) c].
Proof.
  intros H0. unfold records_received in H0. unfold packets_before_end, add_cname. cbn [rp_begin rp_cnames rp_addresses rp_services].
  rewrite (nil_length_inv (rp_addresses r)), (nil_length_inv (rp_services r)) by lia. cbn [imap]. by rewrite !app_nil_r, imap_snoc.
Qed.

Lemma packets_address r c : rp_services r = [] ->
  packets_before_end (add_address r c) = packets_before_end r ++ [address_packet (b_query_id (rp_begin r)) (length (rp_addresses r)) c].
Proof.
  intros H0. unfold packets_before_end, add_address. cbn [rp_begin rp_cnames rp_addresses rp_services]. rewrite H0. cbn [imap].
  by rewrite !app_nil_r, imap_snoc, <- app_comm_cons, <- app_assoc.
Qed.

Lemma packets_srv r c :
  packets_before_end (add_srv r c) = packets_before_end r ++ [srv_packet (b_query_id (rp_begin r)) (length (rp_services r)) c].
Proof. unfold packets_before_end, add_srv. cbn [rp_begin rp_cnames rp_addresses rp_services]. by rewrite imap_snoc, <- app_comm_cons, <- !app_assoc. Qed.

(** [a], created as [a0], has consumed [packets]. *)
Definition prefix_of (a0 a : resolver_ipc_assembly) (packets : list bytes) : Prop :=
  (a = a0 /\ packets = []) \/ exists r, partial a0 r /\ a = assembly_at a0 r /\ packets = packets_before_end r.

Definition dispatched (a0 : resolver_ipc_assembly) (ps : list bytes) (b : resolver_ipc_assembly_budget) (a : resolver_ipc_assembly) (packet : bytes)
    (res : option stepped) : Prop :=
  match res with
  | None => False
  | Some (b', a', RESOLVER_IPC_ASSEMBLY_OK) => prefix_of a0 a' (ps ++ [packet]) /\ bu_assemblies b' = bu_assemblies b /\
      bu_owned_bytes b' = bu_owned_bytes b - as_dynamic_bytes a + as_dynamic_bytes a' /\
      bu_owned_bytes b' <= Z.max (bu_owned_bytes b) RESOLVER_REPLY_ASSEMBLY_BYTE_LIMIT
  | Some (b', a', RESOLVER_IPC_ASSEMBLY_COMPLETE) => exists r, coherent a0 r /\ a = assembly_at a0 r /\ a' = assembled a0 r /\
      ps ++ [packet] = response_packets r /\ same_bytes b b'
  | Some (b', a', _) => a' = a /\ same_bytes b b'
  end.

Lemma dispatch_begin a b ac ar packet : fresh a -> is_bytes packet ->
  dispatched a [] b a packet (resolver_ipc_assembly_begin_consume b a ac ar packet).
Proof.
  intros Hf Hb. pose proof (codec_accepts (A:=resolver_ipc_response_begin) packet Hb) as Ha. cbn [codec_decode begin_codec] in Ha.
  destruct (resolver_ipc_response_begin_decode (Some packet)) as [begin|e|] eqn:Hd; [|by unfold resolver_ipc_assembly_begin_consume; rewrite Hd|done].
  destruct Ha as [Hv Hw]. pose proof (begin_take b a ac ar packet begin Hf Hv Hd) as Ht.
  destruct (_ && _) eqn:E; [|by destruct Ht as (b' & st & -> & Hs & H1 & H2); destruct st]. apply andb_true_iff in E as [E1 E2].
  rewrite Ht. cbn [dispatched]. split; [|split; [done|]].
  - right. exists (starts begin). split; [by apply partial_starts|]. split; [done|]. cbn. by rewrite Hw.
  - unfold has_room in E2. rewrite (fr_is _ Hf) at 2. cbn. lia.
Qed.

Lemma dispatch_cname a r b packet : partial a r -> len (rp_cnames r) < b_cname_count (rp_begin r) -> is_bytes packet ->
  dispatched a (packets_before_end r) b (assembly_at a r) packet (resolver_ipc_assembly_cname_consume b (assembly_at a r) packet).
Proof.
  intros Hp Hlt Hb. pose proof (codec_accepts (A:=resolver_ipc_response_cname) packet Hb) as Ha. cbn [codec_decode cname_codec] in Ha.
  destruct (resolver_ipc_response_cname_decode (Some packet)) as [m|e|] eqn:Hd; [|by unfold resolver_ipc_assembly_cname_consume; rewrite Hd|done].
  destruct Ha as [Hv ->]. rewrite (cname_take b a r _ m) by done. destruct (_ && _) eqn:E; [|done]. apply andb_true_iff in E as [E1 E2].
  assert (H0 : records_received r = 0) by (destruct (pa_order _ _ Hp); lia). unfold in_sequence in E1. destruct Hv as (_ & _ & Hty).
  destruct (begin_check_query _ _ (pa_check _ _ Hp)) as (Hid & _). cbn [dispatched]. split; [|split; [done|split; [cbn; lia|lia]]]. right.
  exists (add_cname r (rc_record m)). split; [by apply partial_cname|]. split; [done|]. rewrite packets_cname by done. do 2 f_equal.
  unfold cname_packet. f_equal. destruct m as [c i q]. cbn [rc_index rc_query_id rc_record] in *. f_equal; lia.
Qed.

Lemma dispatch_address a r b packet : partial a r -> len (rp_cnames r) = b_cname_count (rp_begin r) -> records_received r < b_record_count (rp_begin r) ->
  as_query_type a <> ns_t_srv -> is_bytes packet ->
  dispatched a (packets_before_end r) b (assembly_at a r) packet (resolver_ipc_assembly_record_address_consume b (assembly_at a r) packet).
Proof.
  intros Hp Hc Hr Hq Hb. pose proof (codec_accepts (A:=resolver_ipc_response_address) packet Hb) as Ha. cbn [codec_decode address_codec] in Ha.
  destruct (resolver_ipc_response_address_decode (Some packet)) as [m|e|] eqn:Hd; [|by unfold resolver_ipc_assembly_record_address_consume; rewrite Hd|done].
  destruct Ha as [Hv ->]. rewrite (address_take b a r _ m) by done. destruct (_ && _) eqn:E; [|done]. apply andb_true_iff in E as [E1 E2].
  unfold in_sequence in E1. destruct Hv as (_ & _ & Hty).
  destruct (begin_check_query _ _ (pa_check _ _ Hp)) as (Hid & _). cbn [dispatched]. split; [|split; [done|split; [cbn; lia|lia]]]. right.
  exists (add_address r (ra_record m)). split.
  { apply partial_address; [done|]. do 4 (split; [done|]). by split. }
  split; [done|]. pose proof (pa_kind _ _ Hp) as Hk. destruct (as_query_type a =? ns_t_srv) eqn:Es; [lia|]. rewrite packets_address by done. do 2 f_equal.
  unfold address_packet, records_received in *. rewrite Hk in E1. f_equal. destruct m as [i q c]. cbn [ra_index ra_query_id ra_record length] in *. f_equal; lia.
Qed.

Lemma dispatch_srv a r b packet : partial a r -> len (rp_cnames r) = b_cname_count (rp_begin r) -> records_received r < b_record_count (rp_begin r) ->
  as_query_type a = ns_t_srv -> is_bytes packet ->
  dispatched a (packets_before_end r) b (assembly_at a r) packet (resolver_ipc_assembly_record_srv_consume b (assembly_at a r) packet).
Proof.
  intros Hp Hc Hr Hq Hb. pose proof (codec_accepts (A:=resolver_ipc_response_srv) packet Hb) as Ha. cbn [codec_decode srv_codec] in Ha.
  destruct (resolver_ipc_response_srv_decode (Some packet)) as [m|e|] eqn:Hd; [|by unfold resolver_ipc_assembly_record_srv_consume; rewrite Hd|done].
  destruct Ha as [Hv ->]. rewrite (srv_take b a r _ m) by done. destruct (_ && _) eqn:E; [|done]. apply andb_true_iff in E as [E1 E2].
  unfold in_sequence in E1. destruct Hv as (_ & _ & Hty).
  destruct (begin_check_query _ _ (pa_check _ _ Hp)) as (Hid & _). cbn [dispatched]. split; [|split; [done|split; [cbn; lia|lia]]]. right.
  exists (add_srv r (rs_record m)). split.
  { apply partial_srv; [done|]. do 4 (split; [done|]). by split. }
  split; [done|]. pose proof (pa_kind _ _ Hp) as Hk. destruct (as_query_type a =? ns_t_srv) eqn:Es; [|lia]. rewrite packets_srv. do 2 f_equal.
  unfold srv_packet, records_received in *. rewrite Hk in E1. f_equal. destruct m as [i q c]. cbn [rs_index rs_query_id rs_record length] in *. f_equal; lia.
Qed.

Lemma dispatch_end a r b packet : partial a r -> len (rp_cnames r) = b_cname_count (rp_begin r) -> records_received r = b_record_count (rp_begin r) ->
  is_bytes packet ->
  dispatched a (packets_before_end r) b (assembly_at a r) packet (resolver_ipc_assembly_end_consume b (assembly_at a r) packet).
Proof.
  intros Hp Hc Hr Hb. pose proof (codec_accepts (A:=resolver_ipc_response_end) packet Hb) as Ha. cbn [codec_decode end_codec] in Ha.
  destruct (resolver_ipc_response_end_decode (Some packet)) as [m|e|] eqn:Hd; [|by unfold resolver_ipc_assembly_end_consume; rewrite Hd|done].
  destruct Ha as [Hv ->]. pose proof (end_take b a r _ m Hp Hc Hr Hd) as Ht. destruct (_ && closes r) eqn:E; [|by rewrite Ht].
  apply andb_true_iff in E as [E1 E2]. destruct Ht as (b' & -> & Hs). cbn [dispatched]. exists r. do 3 (split; [done|]). split; [|done].
  destruct (begin_check_query _ _ (pa_check _ _ Hp)) as (Hid & _). unfold response_packets, end_packet. do 3 f_equal.
  destruct m as [x y z]. cbn [e_cname_count e_query_id e_record_count] in *. f_equal; lia.
Qed.

Lemma dispatch_spec a0 a ps b kind ac ar packet : fresh a0 -> prefix_of a0 a ps -> is_bytes packet ->
  dispatched a0 ps b a packet (packet_dispatch b a kind ac ar packet).
Proof.
  intros Hf [[-> ->]|(r & Hp & -> & ->)] Hb; unfold packet_dispatch.
  - rewrite (fr_is _ Hf) at 3. cbn [as_state fresh_assembly]. destruct kind; try done. by apply dispatch_begin.
  - cbn [as_state as_query_type assembly_at assembly_with]. unfold state_at. pose proof (pa_cnames _ _ Hp). pose proof (pa_records _ _ Hp). if_as E1.
    { destruct kind; try done. apply dispatch_cname; [done|lia|done]. }
    if_as E2.
    { destruct kind; try done; (if_as E3; [try done|try done]); [apply dispatch_address|apply dispatch_srv]; try done; lia. }
    destruct kind; try done. apply dispatch_end; [done|lia..|done].
Qed.

Definition failed (a : resolver_ipc_assembly) : resolver_ipc_assembly := with_state (with_content a payload_zero 0) RESOLVER_IPC_ASSEMBLY_STATE_FAILED.

Lemma fail_spec b a st : as_dynamic_bytes a <= bu_owned_bytes b ->
  exists b', resolver_ipc_assembly_fail b a st = (b', failed a, st) /\ bu_assemblies b' = bu_assemblies b /\
    bu_owned_bytes b' = bu_owned_bytes b - as_dynamic_bytes a.
Proof.
  intros Hd. unfold resolver_ipc_assembly_fail, resolver_ipc_assembly_data_clear. eexists. split; [done|].
  destruct (terminal_record_same b a st) as [Ha Ho]. unfold budget_return, with_budget_bytes. cbn [bu_assemblies bu_owned_bytes]. split; [done|].
  rewrite Ho. if_as E; lia.
Qed.

(** What one packet makes of an assembly and of the bytes of the budget. *)
Definition stepped_to (a0 : resolver_ipc_assembly) (ps : list bytes) (b : resolver_ipc_assembly_budget) (a : resolver_ipc_assembly) (packet : bytes)
    (res : option stepped) : Prop :=
  match res with
  | None => False
  | Some (b', a', st) => bu_assemblies b' = bu_assemblies b /\ bu_owned_bytes b' = bu_owned_bytes b - as_dynamic_bytes a + as_dynamic_bytes a' /\
      bu_owned_bytes b' <= Z.max (bu_owned_bytes b) RESOLVER_REPLY_ASSEMBLY_BYTE_LIMIT /\
      match st with
      | RESOLVER_IPC_ASSEMBLY_OK => prefix_of a0 a' (ps ++ [packet])
      | RESOLVER_IPC_ASSEMBLY_COMPLETE => exists r, coherent a0 r /\ a' = assembled a0 r /\ ps ++ [packet] = response_packets r
      | _ => a' = failed a
      end
  end.

Lemma failed_to a0 ps b a packet st : 0 <= as_dynamic_bytes a <= bu_owned_bytes b -> st <> RESOLVER_IPC_ASSEMBLY_OK -> st <> RESOLVER_IPC_ASSEMBLY_COMPLETE ->
  stepped_to a0 ps b a packet (Some (resolver_ipc_assembly_fail b a st)).
Proof.
  intros Hd H1 H2. destruct (fail_spec b a st) as (b' & -> & Ha & Ho); [lia|]. cbn [stepped_to]. split; [done|]. split; [cbn; lia|]. split; [lia|]. by destruct st.
Qed.

Lemma refailed_to a0 ps b b' a a' packet st : 0 <= as_dynamic_bytes a <= bu_owned_bytes b -> st <> RESOLVER_IPC_ASSEMBLY_OK ->
  st <> RESOLVER_IPC_ASSEMBLY_COMPLETE -> a' = a /\ same_bytes b b' -> stepped_to a0 ps b a packet (Some (resolver_ipc_assembly_fail b' a' st)).
Proof.
  intros Hd H1 H2 [-> [Ha Ho]]. pose proof (failed_to a0 ps b' a packet st ltac:(lia) H1 H2) as H. unfold stepped_to in *.
  destruct (resolver_ipc_assembly_fail b' a st) as [[b2 a2] st2]. by rewrite <- Ha, <- Ho.
Qed.

Lemma prefix_nonterminal a0 a ps : fresh a0 -> prefix_of a0 a ps -> resolver_ipc_assembly_state_nonterminal (as_state a) = true.
Proof.
  intros Hf [[-> _]|(r & _ & -> & _)]; [by rewrite (fr_is _ Hf)|]. cbn [as_state assembly_at assembly_with]. unfold state_at. if_as E1; [done|]. by if_as E2.
Qed.

Lemma dynamic_size_nonneg t begin : codec_valid begin -> 0 <= dynamic_size t (b_cname_count begin) (b_record_count begin).
Proof.
  intros Hv. pose proof (begin_counts _ Hv) as [Hc Hr]. unfold dynamic_size, DNS_CNAME_DEPTH_LIMIT, sizeof_dns_cname_record, sizeof_dns_srv_record,
    sizeof_dns_address_record. if_as E1; if_as E2; lia.
Qed.

Lemma prefix_dynamic a0 a ps : fresh a0 -> prefix_of a0 a ps -> 0 <= as_dynamic_bytes a.
Proof. intros Hf [[-> _]|(r & Hp & -> & _)]; [by rewrite (fr_is _ Hf)|]. apply dynamic_size_nonneg, (pa_valid _ _ Hp). Qed.

Lemma step_spec a0 a ps b ac ar packet : fresh a0 -> prefix_of a0 a ps -> as_dynamic_bytes a <= bu_owned_bytes b -> is_bytes packet ->
  stepped_to a0 ps b a packet (assembly_step b a ac ar packet).
Proof.
  intros Hf Hp Hd Hb. pose proof (prefix_dynamic _ _ _ Hf Hp) as Hnn. unfold assembly_step. rewrite (prefix_nonterminal _ _ _ Hf Hp). cbn [negb].
  pose proof (inspect_safe packet Hb) as Hi. destruct (resolver_ipc_packet_inspect (Some packet)) as [h|e|]; [|by apply failed_to|done].
  if_as E; [by apply failed_to|]. pose proof (dispatch_spec a0 a ps b (h_kind h) ac ar packet Hf Hp Hb) as Hs.
  destruct (packet_dispatch b a (h_kind h) ac ar packet) as [[[b' a'] st]|]; [|done]. cbn [mbind option_bind]. destruct st; cbn [dispatched] in Hs.
  - by destruct Hs as (? & ? & ? & ?).
  - destruct Hs as (r & Hc & -> & -> & Hps & Ha & Ho). cbn [stepped_to]. split; [done|]. split; [cbn; lia|]. split; [lia|]. by exists r.
  - by apply (refailed_to _ _ b b').
  - by apply (refailed_to _ _ b b').
  - by apply (refailed_to _ _ b b').
  - by apply (refailed_to _ _ b b').
Qed.

(** ** The budget *)

Definition result_of (a : resolver_ipc_assembly) : resolver_ipc_assembly_result := {|
  rt_budget := true; rt_completed_at := as_completed_at a; rt_dynamic_bytes := as_dynamic_bytes a; rt_payload := as_payload a;
  rt_query_id := as_query_id a; rt_query_type := as_query_type a; rt_status := as_status a |}.

(** An assembly has consumed a part of a response, holds a whole one, or has ended. *)
Definition ended (a : resolver_ipc_assembly) : Prop :=
  (as_state a = RESOLVER_IPC_ASSEMBLY_STATE_FAILED \/ as_state a = RESOLVER_IPC_ASSEMBLY_STATE_TAKEN) /\ as_dynamic_bytes a = 0.
Definition assembly_ok (a : resolver_ipc_assembly) : Prop :=
  ended a \/ exists a0, fresh a0 /\ ((exists ps, prefix_of a0 a ps) \/ exists r, coherent a0 r /\ a = assembled a0 r).

(** A result was taken from an assembly that had received a whole response. *)
Definition result_ok (r : resolver_ipc_assembly_result) : Prop :=
  exists a0 resp, fresh a0 /\ coherent a0 resp /\ r = result_of (assembled a0 resp).

Definition assembly_bytes (a : resolver_ipc_assembly) : Z := sizeof_resolver_ipc_assembly + as_dynamic_bytes a.

Record budget_ok (b : resolver_ipc_assembly_budget) (taken : list resolver_ipc_assembly_result) : Prop := {
  bo_handles : NoDup (as_handle <$> bu_assemblies b);
  bo_assemblies : Forall assembly_ok (bu_assemblies b);
  bo_owned : bu_owned_bytes b =
    sizeof_resolver_ipc_assembly_budget + sumZ (assembly_bytes <$> bu_assemblies b) + sumZ (rt_dynamic_bytes <$> taken);
  bo_limit : bu_owned_bytes b <= RESOLVER_REPLY_ASSEMBLY_BYTE_LIMIT;
  bo_taken : Forall result_ok taken;
}.

(** A live assembly in its place in the list, and what the list is without it or with
    another one of the same handle. *)
Lemma assembly_get_split b h a : NoDup (as_handle <$> bu_assemblies b) -> assembly_get b h = Some a ->
  exists l k, bu_assemblies b = l ++ a :: k /\ as_handle a = h /\
    (forall a', as_handle a' = h -> map (fun x => if as_handle x =? as_handle a' then a' else x) (bu_assemblies b) = l ++ a' :: k) /\
    List.filter (fun x => negb (as_handle x =? h)) (bu_assemblies b) = l ++ k.
Proof.
  unfold assembly_get. generalize (bu_assemblies b). intros ls. induction ls as [|x ls IH]; [done|]. cbn [fmap list_fmap List.find].
  intros [Hx Hn]%list.NoDup_cons. destruct (as_handle x =? h) eqn:E.
  - intros [= ->]. apply Z.eqb_eq in E. exists [], ls. split; [done|]. split; [done|].
    assert (Hne : forall y, In y ls -> (as_handle y =? h) = false).
    { intros y Hy. apply Z.eqb_neq. intros He. apply Hx. rewrite E, <- He. apply list_elem_of_fmap. exists y. split; [done|]. by apply list_elem_of_In. }
    split.
    + intros a' Ha. cbn [map app]. rewrite Ha, E, Z.eqb_refl. f_equal. rewrite <- (map_id ls) at 2. apply map_ext_in. intros y Hy. by rewrite (Hne y Hy).
    + cbn [List.filter app]. rewrite E, Z.eqb_refl. cbn [negb]. apply List.forallb_filter_id. apply forallb_forall. intros y Hy. by rewrite (Hne y Hy).
  - intros Hg. destruct (IH Hn Hg) as (l & k & -> & Ha & Hm & Hf). exists (x :: l), k. split; [done|]. split; [done|]. split.
    + intros a' Ha'. cbn [map app]. rewrite Ha', E. f_equal. rewrite <- Ha'. by apply Hm.
    + cbn [List.filter app]. rewrite E. cbn [negb]. by f_equal.
Qed.

Lemma assembly_get_in b h a : assembly_get b h = Some a -> a ∈ bu_assemblies b.
Proof. intros H. apply List.find_some in H as [H _]. by apply list_elem_of_In. Qed.

Lemma assembly_ok_dynamic a : assembly_ok a -> 0 <= as_dynamic_bytes a.
Proof.
  intros [[_ ->]|(a0 & Hf & [[ps Hp]|(r & Hc & ->)])]; [lia|by eapply prefix_dynamic|]. apply dynamic_size_nonneg, (pa_valid _ _ (co_partial _ _ Hc)).
Qed.

Lemma result_ok_dynamic r : result_ok r -> 0 <= rt_dynamic_bytes r.
Proof. intros (a0 & resp & Hf & Hc & ->). apply dynamic_size_nonneg, (pa_valid _ _ (co_partial _ _ Hc)). Qed.

Lemma sum_nonneg {A} (f : A -> Z) l : Forall (fun x => 0 <= f x) l -> 0 <= sumZ (f <$> l).
Proof. unfold sumZ. induction 1 as [|x l Hx _ IH]; [done|]. rewrite fmap_cons. cbn [foldr]. lia. Qed.

Lemma budget_ok_sums b taken : budget_ok b taken ->
  0 <= sumZ (assembly_bytes <$> bu_assemblies b) /\ 0 <= sumZ (rt_dynamic_bytes <$> taken) /\ 0 < bu_owned_bytes b.
Proof.
  intros [_ Ha Ho _ Ht].
  assert (H1 : 0 <= sumZ (assembly_bytes <$> bu_assemblies b)).
  { apply sum_nonneg. revert Ha. apply Forall_impl. intros a Ha%assembly_ok_dynamic. unfold assembly_bytes, sizeof_resolver_ipc_assembly. lia. }
  assert (H2 : 0 <= sumZ (rt_dynamic_bytes <$> taken)) by (apply sum_nonneg; revert Ht; apply Forall_impl; apply result_ok_dynamic).
  unfold sizeof_resolver_ipc_assembly_budget in Ho. lia.
Qed.

(** The bytes of a live assembly are charged. *)
Lemma live_charged b taken h a : budget_ok b taken -> assembly_get b h = Some a ->
  0 <= as_dynamic_bytes a /\ sizeof_resolver_ipc_assembly + as_dynamic_bytes a + sumZ (rt_dynamic_bytes <$> taken) <= bu_owned_bytes b.
Proof.
  intros Hok Hg. destruct (assembly_get_split _ _ _ (bo_handles _ _ Hok) Hg) as (l & k & Hl & _). pose proof (bo_assemblies _ _ Hok) as Ha.
  rewrite (bo_owned _ _ Hok). rewrite Hl in *. rewrite fmap_app, fmap_cons, sumZ_app, sumZ_cons. apply Forall_app in Ha as [H1 H2]. apply Forall_cons_1 in H2 as [H2 H3].
  assert (Hs : forall x, Forall assembly_ok x -> 0 <= sumZ (assembly_bytes <$> x)).
  { intros x Hx. apply sum_nonneg. revert Hx. apply Forall_impl. intros y Hy%assembly_ok_dynamic. unfold assembly_bytes, sizeof_resolver_ipc_assembly. lia. }
  pose proof (Hs _ H1). pose proof (Hs _ H3). split; [by apply assembly_ok_dynamic|]. unfold assembly_bytes at 2. unfold sizeof_resolver_ipc_assembly_budget. lia.
Qed.

(** Replacing a live assembly by another with the bytes accounted for. *)
Lemma budget_ok_put b b' taken taken' h a a' : budget_ok b taken -> assembly_get b h = Some a -> as_handle a' = h -> assembly_ok a' ->
  bu_assemblies b' = bu_assemblies b -> bu_owned_bytes b' <= RESOLVER_REPLY_ASSEMBLY_BYTE_LIMIT -> Forall result_ok taken' ->
  bu_owned_bytes b' = bu_owned_bytes b - as_dynamic_bytes a + as_dynamic_bytes a' - sumZ (rt_dynamic_bytes <$> taken) + sumZ (rt_dynamic_bytes <$> taken') ->
  budget_ok (assembly_put b' a') taken'.
Proof.
  intros Hok Hg Hh Ha Hl Hlim Ht Ho. destruct (assembly_get_split _ _ _ (bo_handles _ _ Hok) Hg) as (l & k & Hs & Hah & Hm & _).
  destruct Hok as [Hn Hf Hob _ _]. unfold assembly_put, with_assemblies. rewrite Hl, Hm by done.
  split; cbn [bu_assemblies bu_owned_bytes]; try done; rewrite Hs in *.
  - rewrite fmap_app, fmap_cons in *. by rewrite Hh, <- Hah.
  - apply Forall_app in Hf as [H1 H2]. apply Forall_cons_1 in H2 as [H2 H3]. apply Forall_app. split; [done|]. by constructor.
  - rewrite Ho, Hob. rewrite !fmap_app, !fmap_cons, !sumZ_app, !sumZ_cons. unfold assembly_bytes at 2 5. lia.
Qed.

Lemma budget_ok_same b b' taken : budget_ok b taken -> same_bytes b b' -> budget_ok b' taken.
Proof. intros [H1 H2 H3 H4 H5] [Ha Ho]. by split; rewrite ?Ha, ?Ho. Qed.

Definition handles_of (b : resolver_ipc_assembly_budget) : list Z := as_handle <$> bu_assemblies b.
Lemma put_handles b a : handles_of (assembly_put b a) = handles_of b.
Proof.
  unfold handles_of, assembly_put. cbn [with_assemblies bu_assemblies]. induction (bu_assemblies b) as [|x l IH]; [done|]. cbn [map]. rewrite !fmap_cons, IH. f_equal.
  if_as E; lia.
Qed.

Lemma consume_keeps b taken h a ac ar packet : budget_ok b taken -> assembly_get b h = Some a -> is_bytes packet ->
  exists b' st, resolver_ipc_assembly_packet_consume b (Some h) ac ar (Some packet) = Some (b', st) /\ budget_ok b' taken /\ handles_of b' = handles_of b.
Proof.
  intros Hok Hg Hb. unfold resolver_ipc_assembly_packet_consume. rewrite Hg. cbn [mbind option_bind].
  destruct (live_charged _ _ _ _ Hok Hg) as [Hd Hc]. destruct (budget_ok_sums _ _ Hok) as (_ & Hts & _). unfold sizeof_resolver_ipc_assembly in Hc.
  destruct (assembly_get_split _ _ _ (bo_handles _ _ Hok) Hg) as (_ & _ & _ & Hh & _).
  assert (Hok' : assembly_ok a) by (eapply list.Forall_forall; [apply (bo_assemblies _ _ Hok)|by eapply assembly_get_in]).
  assert (Hfail : resolver_ipc_assembly_state_nonterminal (as_state a) = false -> exists b' st,
    ('(b0, a0, st) ← assembly_step b a ac ar packet; Some (assembly_put b0 a0, st)) = Some (b', st) /\ budget_ok b' taken /\ handles_of b' = handles_of b).
  { intros Hn. unfold assembly_step. rewrite Hn. cbn [negb]. destruct (fail_spec b a RESOLVER_IPC_ASSEMBLY_PROTOCOL) as (b' & -> & Ha & Ho); [lia|].
    eexists _, _. split; [done|]. split; [|rewrite put_handles; unfold handles_of; by rewrite Ha].
    apply (budget_ok_put b b' taken taken h a); try done; [left; by split; [left|]| |apply Hok|cbn; lia].
    pose proof (bo_limit _ _ Hok). lia. }
  destruct Hok' as [[Hst Hz]|(a0 & Hf & [[ps Hp]|(r & Hco & ->)])]; [apply Hfail; by destruct Hst as [->| ->]| |by apply Hfail].
  pose proof (step_spec a0 a ps b ac ar packet Hf Hp ltac:(lia) Hb) as Hs. clear Hfail. destruct (assembly_step b a ac ar packet) as [[[b' a'] st]|]; [|done].
  destruct Hs as (Ha & Ho & Hl & Hst). cbn [mbind option_bind]. eexists _, _. split; [done|]. pose proof (bo_limit _ _ Hok).
  assert (Ha' : assembly_ok a' /\ as_handle a' = as_handle a).
  { assert (Hha : as_handle a = as_handle a0) by (destruct Hp as [[-> _]|(r & _ & -> & _)]; done). rewrite Hha.
    destruct st; try (rewrite Hst; split; [left; by split; [left|]|done]).
    - split; [right; exists a0; split; [done|]; left; by eexists|]. by destruct Hst as [[-> _]|(r & _ & -> & _)].
    - destruct Hst as (r & Hco & -> & _). split; [right; exists a0; split; [done|]; right; by exists r|done]. }
  destruct Ha' as [Ha' Hhd]. split; [|rewrite put_handles; unfold handles_of; by rewrite Ha].
  apply (budget_ok_put b b' taken taken h a); try done; [congruence|lia|apply Hok|lia].
Qed.

Lemma create_keeps b taken name class type id res alloc b' st r :
  budget_ok b taken -> (forall h, alloc = Some h -> h ∉ as_handle <$> bu_assemblies b) ->
  resolver_ipc_assembly_create (Some b) name class type id res alloc = (Some b', st, r) ->
  budget_ok b' taken /\ match r with
    | Some h => st = RESOLVER_IPC_ASSEMBLY_OK /\ exists a, assembly_get b' h = Some a /\ fresh a /\ resolver_name_normalize name = Some (as_expected_name a) /\
        as_query_type a = type /\ as_query_id a = id
    | None => st <> RESOLVER_IPC_ASSEMBLY_OK /\ same_bytes b b'
    end.
Proof.
  intros Hok Hfr. unfold resolver_ipc_assembly_create.
  assert (Hinc : forall q k, budget_ok (resolver_ipc_assembly_metrics_increment b q k) taken) by (intros; eapply budget_ok_same; [done|apply increment_same]).
  if_as E1.
  { intros [= <- <- <-]. if_as E2; (split; [done|]); (split; [done|]); [apply increment_same|done]. }
  destruct (resolver_name_normalize name) as [n|] eqn:En.
  2:{ intros [= <- <- <-]. if_as E2; (split; [done|]); (split; [done|]); [apply increment_same|done]. }
  if_as E3.
  { intros [= <- <- <-]. split; [eapply budget_ok_same; [apply Hinc|apply increment_same]|]. split; [done|].
    destruct (increment_same b (resolver_ipc_assembly_metrics_query_type type) create_limit) as [H1 H2].
    destruct (increment_same (resolver_ipc_assembly_metrics_increment b (resolver_ipc_assembly_metrics_query_type type) create_limit)
      (resolver_ipc_assembly_metrics_query_type type) limit_budget_bytes) as [H3 H4]. split; congruence. }
  destruct alloc as [h|]; [|intros [= <- <- <-]; split; [done|]; split; [done|apply increment_same]].
  intros [= <- <- <-]. set (b1 := with_budget_high_water _).
  assert (Hc : class = ns_c_in) by lia. subst class. change {| as_handle := h |} with (fresh_assembly h n type id) in b1.
  assert (Hfresh : fresh (fresh_assembly h n type id)).
  { split; [by eapply normalize_idem|cbn; unfold resolver_ipc_query_type_valid; lia|done]. }
  destruct (increment_same b1 (resolver_ipc_assembly_metrics_query_type type) create_ok) as [H1 H2]. split.
  - apply (budget_ok_same b1); [|done]. unfold b1. destruct Hok as [Ho1 Ho2 Ho3 Ho4 Ho5]. unfold sizeof_resolver_ipc_assembly in E3.
    split; cbn [bu_assemblies bu_owned_bytes with_budget_high_water with_budget_metrics with_budget_bytes with_assemblies]; try done.
    + rewrite fmap_cons. apply list.NoDup_cons. split; [by apply Hfr|done].
    + constructor; [|done]. right. exists (fresh_assembly h n type id). split; [done|]. left. exists []. by left.
    + rewrite fmap_cons, sumZ_cons. unfold assembly_bytes at 1. unfold sizeof_resolver_ipc_assembly. cbn [as_dynamic_bytes fresh_assembly]. lia.
    + unfold sizeof_resolver_ipc_assembly. lia.
  - split; [done|]. exists (fresh_assembly h n type id). split; [|done]. unfold assembly_get. rewrite H1. cbn. by rewrite Z.eqb_refl.
Qed.

Lemma take_keeps b taken h a result : budget_ok b taken -> assembly_get b h = Some a -> resolver_ipc_assembly_result_empty (Some result) = true ->
  exists b' r, resolver_ipc_assembly_result_take b (Some h) (Some result) = Some (b', r) /\ budget_ok b' (option_list r ++ taken) /\
    r = match as_state a with RESOLVER_IPC_ASSEMBLY_STATE_COMPLETE => Some (result_of a) | _ => None end.
Proof.
  intros Hok Hg He. unfold resolver_ipc_assembly_result_take. rewrite He, Hg. cbn [negb mbind option_bind].
  destruct (as_state a) eqn:Es; try (by eexists b, None). eexists _, _. split; [done|]. split; [|done].
  assert (Ha : assembly_ok a) by (eapply list.Forall_forall; [apply (bo_assemblies _ _ Hok)|by eapply assembly_get_in]).
  destruct Ha as [[[Hst|Hst] _]|(a0 & Hf & [[ps Hp]|(r & Hc & ->)])]; [congruence..|by apply prefix_nonterminal in Hp; [rewrite Es in Hp|]|].
  destruct (assembly_get_split _ _ _ (bo_handles _ _ Hok) Hg) as (_ & _ & _ & Hh & _). pose proof (bo_limit _ _ Hok).
  apply (budget_ok_put b b taken _ h (assembled a0 r)); try done.
  - left. by split; [right|].
  - constructor; [|apply Hok]. by exists a0, r.
  - rewrite fmap_app, sumZ_app. cbn. lia.
Qed.

Lemma budget_return_bytes b n : n <= bu_owned_bytes b -> bu_owned_bytes (budget_return b n) = bu_owned_bytes b - n.
Proof. intros H. unfold budget_return. cbn [bu_owned_bytes with_budget_bytes]. if_as E; lia. Qed.

Lemma result_destroy_keeps b l r k : budget_ok b (l ++ r :: k) ->
  exists b', resolver_ipc_assembly_result_destroy b (Some r) = (b', Some result_zero) /\ budget_ok b' (l ++ k) /\
    bu_owned_bytes b' = bu_owned_bytes b - rt_dynamic_bytes r.
Proof.
  intros Hok. pose proof (budget_ok_sums _ _ Hok) as (Hs & _ & _). destruct Hok as [H1 H2 H3 H4 H5]. apply Forall_app in H5 as [H5 H6].
  apply Forall_cons_1 in H6 as [H6 H7]. cbn [resolver_ipc_assembly_result_destroy]. pose proof (result_ok_dynamic _ H6).
  assert (0 <= sumZ (rt_dynamic_bytes <$> l) /\ 0 <= sumZ (rt_dynamic_bytes <$> k)).
  { split; apply sum_nonneg; [revert H5|revert H7]; apply Forall_impl; apply result_ok_dynamic. }
  rewrite fmap_app, fmap_cons, sumZ_app, sumZ_cons in H3. unfold sizeof_resolver_ipc_assembly_budget in H3. destruct H6 as (a0 & resp & Hf & Hc & Hr).
  eexists. split; [done|]. rewrite Hr at 1. cbn [rt_budget result_of].
  assert (Hbr : bu_owned_bytes (budget_return b (rt_dynamic_bytes r)) = bu_owned_bytes b - rt_dynamic_bytes r) by (apply budget_return_bytes; lia).
  split; [|rewrite Hr at 1; done]. split; try done; [| |by apply Forall_app].
  - rewrite Hbr, fmap_app, sumZ_app. unfold sizeof_resolver_ipc_assembly_budget. cbn [bu_assemblies budget_return with_budget_bytes]. lia.
  - lia.
Qed.

Lemma destroy_keeps b taken h a : budget_ok b taken -> assembly_get b h = Some a ->
  exists b', resolver_ipc_assembly_destroy b (Some h) = Some b' /\ budget_ok b' taken /\
    bu_assemblies b' = List.filter (fun x => negb (as_handle x =? h)) (bu_assemblies b).
Proof.
  intros Hok Hg. destruct (live_charged _ _ _ _ Hok Hg) as [Hd Hc]. pose proof (budget_ok_sums _ _ Hok) as (_ & Hs & _). unfold resolver_ipc_assembly_destroy.
  rewrite Hg. cbn [mbind option_bind]. set (b1 := if resolver_ipc_assembly_state_nonterminal (as_state a) then _ else b).
  assert (H1 : same_bytes b b1) by (unfold b1; if_as E; [apply increment_same|done]). destruct H1 as [Ha1 Ho1]. unfold resolver_ipc_assembly_data_clear.
  unfold sizeof_resolver_ipc_assembly in *. eexists. split; [done|]. set (b2 := with_assemblies _ _).
  assert (Hb2 : bu_owned_bytes b2 = bu_owned_bytes b - as_dynamic_bytes a).
  { unfold b2. cbn [bu_owned_bytes with_assemblies]. rewrite budget_return_bytes by lia. lia. }
  destruct (assembly_get_split _ _ _ (bo_handles _ _ Hok) Hg) as (l & k & Hl & Hh & _ & Hfl).
  assert (Hab : bu_assemblies (budget_return b2 4288) = l ++ k).
  { unfold b2. cbn [bu_assemblies budget_return with_budget_bytes with_assemblies]. by rewrite Ha1. }
  split; [|by rewrite Hab]. destruct Hok as [Hn Hf Ho Hlim Ht]. rewrite Hl in *. split; rewrite ?Hab, ?budget_return_bytes by lia; try done.
  - rewrite fmap_app, fmap_cons in Hn. rewrite fmap_app. apply list.NoDup_app in Hn as (N1 & N2 & N3). apply list.NoDup_cons in N3 as [_ N3].
    apply list.NoDup_app. split; [done|]. split; [|done]. intros x Hx Hk. apply (N2 x Hx). by right.
  - apply Forall_app in Hf as [F1 F2]. apply Forall_cons_1 in F2 as [_ F2]. by apply Forall_app.
  - rewrite fmap_app, fmap_cons, sumZ_app, sumZ_cons in Ho. unfold assembly_bytes at 2 in Ho. unfold sizeof_resolver_ipc_assembly in Ho.
    rewrite fmap_app, sumZ_app. lia.
  - lia.
Qed.

(** ** Sequences of operations *)

(** The budgets a process can have, with the results it has taken and not yet
    destroyed.  An allocation returns an address no live assembly has. *)
Inductive budget_reachable : resolver_ipc_assembly_budget -> list resolver_ipc_assembly_result -> Prop :=
  | reach_budget b : resolver_ipc_assembly_budget_create true = Some b -> budget_reachable b []
  | reach_create b taken name class type id res alloc b' st r : budget_reachable b taken ->
      (forall h, alloc = Some h -> h ∉ as_handle <$> bu_assemblies b) ->
      resolver_ipc_assembly_create (Some b) name class type id res alloc = (Some b', st, r) -> budget_reachable b' taken
  | reach_consume b taken h ac ar packet b' st : budget_reachable b taken -> is_bytes packet ->
      resolver_ipc_assembly_packet_consume b (Some h) ac ar (Some packet) = Some (b', st) -> budget_reachable b' taken
  | reach_take b taken h result b' r : budget_reachable b taken -> resolver_ipc_assembly_result_empty (Some result) = true ->
      resolver_ipc_assembly_result_take b (Some h) (Some result) = Some (b', r) -> budget_reachable b' (option_list r ++ taken)
  | reach_destroy b taken h b' : budget_reachable b taken -> resolver_ipc_assembly_destroy b (Some h) = Some b' -> budget_reachable b' taken
  | reach_result_destroy b l r k b' z : budget_reachable b (l ++ r :: k) ->
      resolver_ipc_assembly_result_destroy b (Some r) = (b', z) -> budget_reachable b' (l ++ k).

Lemma reachable_budget_ok b taken : budget_reachable b taken -> budget_ok b taken.
Proof.
  induction 1 as [b Hb|b taken name class type id res alloc b' st r _ IH Hf Hc|b taken h ac ar packet b' st _ IH Hb Hc
    |b taken h result b' r _ IH He Ht|b taken h b' _ IH Hd|b l r k b' z _ IH Hd].
  - injection Hb as <-. split; try done. by constructor.
  - by apply (create_keeps _ _ _ _ _ _ _ _ _ _ _ IH Hf Hc).
  - destruct (assembly_get b h) as [a|] eqn:Hg; [|unfold resolver_ipc_assembly_packet_consume in Hc; by rewrite Hg in Hc].
    destruct (consume_keeps b taken h a ac ar packet IH Hg Hb) as (b2 & st2 & Hc2 & Hok & _). rewrite Hc in Hc2. by injection Hc2 as <- <-.
  - destruct (assembly_get b h) as [a|] eqn:Hg; [|unfold resolver_ipc_assembly_result_take in Ht; by rewrite He, Hg in Ht].
    destruct (take_keeps b taken h a result IH Hg He) as (b2 & r2 & Hc2 & Hok & _). rewrite Ht in Hc2. by injection Hc2 as <- <-.
  - destruct (assembly_get b h) as [a|] eqn:Hg; [|unfold resolver_ipc_assembly_destroy in Hd; by rewrite Hg in Hd].
    destruct (destroy_keeps b taken h a IH Hg) as (b2 & Hc2 & Hok & _). rewrite Hd in Hc2. by injection Hc2 as <-.
  - destruct (result_destroy_keeps b l r k IH) as (b2 & Hc2 & Hok & _). rewrite Hd in Hc2. by injection Hc2 as <- _.
Qed.

Lemma budget_clear_spec fuel b taken : budget_ok b taken -> (length (bu_assemblies b) <= fuel)%nat ->
  exists b', budget_clear fuel b = Some b' /\ bu_assemblies b' = [] /\ budget_ok b' taken.
Proof.
  revert b. induction fuel as [|fuel IH]; intros b Hok Hl.
  { destruct (bu_assemblies b) as [|a l] eqn:E; [|simpl in Hl; lia]. exists b. cbn [budget_clear]. by rewrite E. }
  cbn [budget_clear]. destruct (bu_assemblies b) as [|a l] eqn:E; [by exists b|].
  assert (Hg : assembly_get b (as_handle a) = Some a) by (unfold assembly_get; rewrite E; cbn; by rewrite Z.eqb_refl).
  destruct (destroy_keeps b taken _ a Hok Hg) as (b1 & -> & Hok1 & Hb1). cbn [mbind option_bind]. apply IH; [done|].
  rewrite Hb1, E. cbn [List.filter]. rewrite Z.eqb_refl. cbn [negb]. pose proof (List.filter_length_le (fun x => negb (as_handle x =? as_handle a)) l).
  simpl in Hl. lia.
Qed.

(** C34: whatever packets arrive and whichever allocations fail, the bytes charged to
    the budget are exactly those of the budget, of the live assemblies with their
    arrays and of the results taken and not destroyed, within the limit; consuming
    any packet by a live assembly is memory safe; and destroying the budget
    releases every assembly and leaves the charges of the outstanding results. *)
Theorem assembly_budget_exact b taken : budget_reachable b taken ->
  bu_owned_bytes b = sizeof_resolver_ipc_assembly_budget + sumZ (assembly_bytes <$> bu_assemblies b) + sumZ (rt_dynamic_bytes <$> taken) /\
  bu_owned_bytes b <= RESOLVER_REPLY_ASSEMBLY_BYTE_LIMIT /\
  (forall h a packet ac ar, assembly_get b h = Some a -> is_bytes packet ->
     resolver_ipc_assembly_packet_consume b (Some h) ac ar (Some packet) <> None) /\
  exists b', resolver_ipc_assembly_budget_destroy (Some b) = Some (Some b') /\ bu_assemblies b' = [] /\
    bu_owned_bytes b' = sizeof_resolver_ipc_assembly_budget + sumZ (rt_dynamic_bytes <$> taken).
Proof.
  intros Hr%reachable_budget_ok. split; [apply Hr|]. split; [apply Hr|]. split.
  - intros h a packet ac ar Hg Hb. by destruct (consume_keeps b taken h a ac ar packet Hr Hg Hb) as (b' & st & -> & _).
  - destruct (budget_clear_spec _ b taken Hr (le_n _)) as (b' & Hc & He & Hok). exists b'. unfold resolver_ipc_assembly_budget_destroy. rewrite Hc.
    split; [done|]. split; [done|]. rewrite (bo_owned _ _ Hok), He. cbn. lia.
Qed.

(** ** Whole responses *)

(** The packets in order; the status is that of the last one. *)
Fixpoint packets_consume (ac ar : bool) (h : Z) (b : resolver_ipc_assembly_budget) (status : resolver_ipc_assembly_status) (packets : list bytes)
    : option (resolver_ipc_assembly_budget * resolver_ipc_assembly_status) :=
  match packets with
  | [] => Some (b, status)
  | packet :: packets => '(b, status) ← resolver_ipc_assembly_packet_consume b (Some h) ac ar (Some packet); packets_consume ac ar h b status packets
  end.

Lemma packets_consume_app ac ar h b st ps qs : packets_consume ac ar h b st (ps ++ qs) =
  '(b, st) ← packets_consume ac ar h b st ps; packets_consume ac ar h b st qs.
Proof.
  revert b st. induction ps as [|p ps IH]; intros b st; [done|]. cbn [packets_consume app].
  destruct (resolver_ipc_assembly_packet_consume b (Some h) ac ar (Some p)) as [[b1 st1]|]; [apply IH|done].
Qed.

Lemma assembly_get_put b b' h a a' : assembly_get b h = Some a -> bu_assemblies b' = bu_assemblies b -> as_handle a' = h ->
  assembly_get (assembly_put b' a') h = Some a'.
Proof.
  unfold assembly_get, assembly_put. cbn [bu_assemblies with_assemblies]. intros Hg -> <-. induction (bu_assemblies b) as [|x l IH]; [done|].
  cbn [List.find map] in *. destruct (as_handle x =? as_handle a') eqn:E; [by rewrite Z.eqb_refl|]. rewrite E. by apply IH.
Qed.

Lemma consume_step b h a ac ar packet b' a' st : assembly_get b h = Some a -> assembly_step b a ac ar packet = Some (b', a', st) ->
  bu_assemblies b' = bu_assemblies b -> as_handle a' = h ->
  resolver_ipc_assembly_packet_consume b (Some h) ac ar (Some packet) = Some (assembly_put b' a', st) /\ assembly_get (assembly_put b' a') h = Some a'.
Proof.
  intros Hg Hs Ha Hh. unfold resolver_ipc_assembly_packet_consume. rewrite Hg. cbn [mbind option_bind]. rewrite Hs. cbn [mbind option_bind].
  split; [done|]. by eapply assembly_get_put.
Qed.

(** A valid packet reaches the step of its kind. *)
Lemma step_wire `{ipc_codec_laws A} (m : A) b a ac ar : codec_valid m -> resolver_ipc_assembly_state_nonterminal (as_state a) = true ->
  codec_id m = as_query_id a ->
  assembly_step b a ac ar (codec_wire m) =
  '(b, a, status) ← packet_dispatch b a codec_kind ac ar (codec_wire m);
  match status with
  | RESOLVER_IPC_ASSEMBLY_OK | RESOLVER_IPC_ASSEMBLY_COMPLETE => Some (b, a, status)
  | _ => Some (resolver_ipc_assembly_fail b a status)
  end.
Proof. intros Hm Hn Hid. unfold assembly_step. rewrite Hn, inspect_wire by done. cbn [negb h_query_id h_kind]. by rewrite Hid, Z.eqb_refl. Qed.

Lemma step_starts b a ac ar begin : fresh a -> partial a (starts begin) -> has_room b (as_query_type a) ac ar begin = true ->
  assembly_step b a ac ar (codec_wire begin) =
  Some (charged b (dynamic_size (as_query_type a) (b_cname_count begin) (b_record_count begin)), assembly_at a (starts begin), RESOLVER_IPC_ASSEMBLY_OK).
Proof.
  intros Hf Hp Hr. pose proof (pa_valid _ _ Hp) as Hv. pose proof (pa_check _ _ Hp) as Hc. cbn [rp_begin starts] in Hv, Hc.
  destruct (begin_check_query _ _ Hc) as (Hid & _). rewrite step_wire; [|done|by rewrite (fr_is _ Hf)|done].
  unfold packet_dispatch. rewrite (fr_is _ Hf) at 1. cbn [as_state fresh_assembly codec_kind begin_codec].
  pose proof (begin_take b a ac ar (codec_wire begin) begin Hf Hv (codec_decodes begin Hv)) as Ht. rewrite Hc, Hr in Ht. cbn [andb] in Ht. by rewrite Ht.
Qed.

Lemma step_cname b a ac ar r c : partial a (add_cname r c) -> records_received r = 0 ->
  assembly_step b (assembly_at a r) ac ar (cname_packet (b_query_id (rp_begin r)) (length (rp_cnames r)) c) =
  Some (b, assembly_at a (add_cname r c), RESOLVER_IPC_ASSEMBLY_OK).
Proof.
  intros Hp H0. apply partial_cname in Hp as (Hp & Hlt & Hft & Hty); [|done]. pose proof (begin_counts _ (pa_valid _ _ Hp)) as [Hcc _].
  destruct (begin_check_query _ _ (pa_check _ _ Hp)) as (Hid & _). destruct (pa_valid _ _ Hp) as (Hidr & _).
  assert (Hs : as_state (assembly_at a r) = RESOLVER_IPC_ASSEMBLY_STATE_CNAME).
  { cbn [assembly_at assembly_with as_state]. unfold state_at. by replace (len (rp_cnames r) <? _) with true by lia. }
  unfold cname_packet. set (m := {| rc_record := c |}).
  assert (Hv : codec_valid m) by (split; [done|]; split; [cbn; unfold DNS_CNAME_DEPTH_LIMIT; lia|done]).
  rewrite step_wire; [|done|by rewrite Hs|done]. unfold packet_dispatch. rewrite Hs. cbn [codec_kind cname_codec].
  rewrite (cname_take b a r _ m Hp Hlt (codec_decodes m Hv)). unfold in_sequence. cbn [rc_record rc_index rc_query_id m].
  by rewrite Hft, Hid, !Z.eqb_refl.
Qed.

Lemma state_record a r : len (rp_cnames r) = b_cname_count (rp_begin r) -> records_received r < b_record_count (rp_begin r) ->
  as_state (assembly_at a r) = RESOLVER_IPC_ASSEMBLY_STATE_RECORD.
Proof.
  intros Hc Hr. cbn [assembly_at assembly_with as_state]. unfold state_at. replace (len (rp_cnames r) <? _) with false by lia.
  by replace (records_received r <? _) with true by lia.
Qed.

Lemma step_address b a ac ar r c : as_query_type a <> ns_t_srv -> partial a (add_address r c) ->
  assembly_step b (assembly_at a r) ac ar (address_packet (b_query_id (rp_begin r)) (length (rp_addresses r)) c) =
  Some (b, assembly_at a (add_address r c), RESOLVER_IPC_ASSEMBLY_OK).
Proof.
  intros Hq Hp. apply partial_address in Hp as (Hp & Hlc & Hlt & Hft & Hty); [|done]. pose proof (begin_counts _ (pa_valid _ _ Hp)) as [_ Hcc].
  destruct (begin_check_query _ _ (pa_check _ _ Hp)) as (Hid & _). destruct (pa_valid _ _ Hp) as (Hidr & _).
  pose proof (state_record a r Hlc Hlt) as Hs. unfold address_packet. set (m := {| ra_record := c |}). unfold records_received in Hlt.
  assert (Hv : codec_valid m).
  { destruct Hty as (_ & _ & Hty). split; [done|]. split; [cbn; unfold DNS_ADDRESS_RECORD_LIMIT; lia|done]. }
  rewrite step_wire; [|done|by rewrite Hs|done]. unfold packet_dispatch. rewrite Hs. cbn [codec_kind address_codec as_query_type assembly_at assembly_with].
  pose proof (pa_kind _ _ Hp) as Hk. destruct (as_query_type a =? ns_t_srv) eqn:Es; [lia|].
  change (assembly_with a r _ _) with (assembly_at a r). rewrite (address_take b a r _ m Hp Hlc Hlt Hq (codec_decodes m Hv)).
  unfold in_sequence, records_received. rewrite Hk. cbn [ra_record ra_index ra_query_id m length]. by rewrite Hft, Hid, Z.add_0_r, !Z.eqb_refl.
Qed.

Lemma step_srv b a ac ar r c : as_query_type a = ns_t_srv -> partial a (add_srv r c) ->
  assembly_step b (assembly_at a r) ac ar (srv_packet (b_query_id (rp_begin r)) (length (rp_services r)) c) =
  Some (b, assembly_at a (add_srv r c), RESOLVER_IPC_ASSEMBLY_OK).
Proof.
  intros Hq Hp. apply partial_srv in Hp as (Hp & Hlc & Hlt & Hft & Hty); [|done]. pose proof (begin_counts _ (pa_valid _ _ Hp)) as [_ Hcc].
  destruct (begin_check_query _ _ (pa_check _ _ Hp)) as (Hid & _). destruct (pa_valid _ _ Hp) as (Hidr & _).
  pose proof (state_record a r Hlc Hlt) as Hs. unfold srv_packet. set (m := {| rs_record := c |}). unfold records_received in Hlt.
  assert (Hv : codec_valid m).
  { destruct Hty as (_ & _ & Hty). split; [done|]. split; [cbn; unfold DNS_SRV_RECORD_LIMIT; lia|done]. }
  rewrite step_wire; [|done|by rewrite Hs|done]. unfold packet_dispatch. rewrite Hs. cbn [codec_kind srv_codec as_query_type assembly_at assembly_with].
  pose proof (pa_kind _ _ Hp) as Hk. destruct (as_query_type a =? ns_t_srv) eqn:Es; [|lia].
  change (assembly_with a r _ _) with (assembly_at a r). rewrite (srv_take b a r _ m Hp Hlc Hlt Hq (codec_decodes m Hv)).
  unfold in_sequence, records_received. rewrite Hk. cbn [rs_record rs_index rs_query_id m length]. by rewrite Hft, Hid, Z.add_0_l, !Z.eqb_refl.
Qed.

Lemma end_decode_is packet : codec_decode (A:=resolver_ipc_response_end) packet = resolver_ipc_response_end_decode packet.
Proof. done. Qed.

Lemma step_end b a ac ar r : coherent a r ->
  exists b', assembly_step b (assembly_at a r) ac ar (end_packet r) = Some (b', assembled a r, RESOLVER_IPC_ASSEMBLY_COMPLETE) /\ same_bytes b b'.
Proof.
  intros [Hp Hc Hr Hcl]. pose proof (begin_counts _ (pa_valid _ _ Hp)) as [Hcc Hrc].
  destruct (begin_check_query _ _ (pa_check _ _ Hp)) as (Hid & _). destruct (pa_valid _ _ Hp) as (Hidr & _). unfold end_packet. set (m := {| e_query_id := _ |}).
  assert (Hs : as_state (assembly_at a r) = RESOLVER_IPC_ASSEMBLY_STATE_END).
  { cbn [assembly_at assembly_with as_state]. unfold state_at. replace (len (rp_cnames r) <? _) with false by lia.
    by replace (records_received r <? _) with false by lia. }
  assert (Hv : codec_valid m).
  { split; [done|]. cbn. unfold DNS_CNAME_DEPTH_LIMIT, DNS_ADDRESS_RECORD_LIMIT, DNS_SRV_RECORD_LIMIT. lia. }
  pose proof (codec_decodes m Hv) as Hd. rewrite end_decode_is in Hd.
  assert (Hn : resolver_ipc_assembly_state_nonterminal (as_state (assembly_at a r)) = true) by (by rewrite Hs).
  pose proof (step_wire m b (assembly_at a r) ac ar Hv Hn Hid) as Hw. revert Hd Hw. generalize (codec_wire m). intros packet Hd ->.
  pose proof (end_take b a r packet m Hp Hc Hr Hd) as Ht. unfold m in Ht. cbn [e_query_id e_cname_count e_record_count] in Ht.
  rewrite Hid, !Z.eqb_refl, Hcl in Ht. cbn [andb] in Ht. destruct Ht as (b' & Ht & Hsame). exists b'. split; [|done].
  unfold packet_dispatch. rewrite Hs. cbn [codec_kind end_codec]. by rewrite Ht.
Qed.

(** The packets of the start of a response are all accepted. *)
Definition accepts (ac ar : bool) (h : Z) (b : resolver_ipc_assembly_budget) (packets : list bytes)
    (a' : resolver_ipc_assembly) : Prop :=
  exists b', packets_consume ac ar h b RESOLVER_IPC_ASSEMBLY_OK packets = Some (b', RESOLVER_IPC_ASSEMBLY_OK) /\ assembly_get b' h = Some a'.

Lemma accepts_snoc ac ar h b ps a1 packet a2 : accepts ac ar h b ps a1 -> as_handle a2 = h ->
  (forall b, assembly_step b a1 ac ar packet = Some (b, a2, RESOLVER_IPC_ASSEMBLY_OK)) -> accepts ac ar h b (ps ++ [packet]) a2.
Proof.
  intros (b1 & Hc & Hg) Hh Hs. destruct (consume_step b1 h a1 ac ar packet b1 a2 RESOLVER_IPC_ASSEMBLY_OK Hg (Hs b1) eq_refl Hh) as [Hp Hg'].
  exists (assembly_put b1 a2). split; [|done]. rewrite packets_consume_app, Hc. cbn [mbind option_bind packets_consume]. by rewrite Hp.
Qed.

Lemma accepts_cnames ac ar h b a begin cn : fresh a -> assembly_get b h = Some a -> as_handle a = h ->
  has_room b (as_query_type a) ac ar begin = true -> let r := {| rp_begin := begin; rp_cnames := cn; rp_addresses := []; rp_services := [] |} in
  partial a r -> accepts ac ar h b (packets_before_end r) (assembly_at a r).
Proof.
  intros Hf Hg Hh Hr. induction cn as [|c cn IH] using rev_ind; intros r Hp.
  - destruct (consume_step b h a ac ar _ _ _ _ Hg (step_starts b a ac ar begin Hf Hp Hr) eq_refl Hh) as [Hs Hg']. eexists. split; [|exact Hg'].
    cbn [packets_before_end r rp_begin rp_cnames rp_addresses rp_services imap app packets_consume]. by rewrite Hs.
  - set (r1 := {| rp_begin := begin; rp_cnames := cn; rp_addresses := []; rp_services := [] |}) in *. change r with (add_cname r1 c) in *.
    rewrite packets_cname by done. apply (accepts_snoc _ _ _ _ _ (assembly_at a r1)); [|done|intros b'; by apply step_cname].
    apply IH. by apply partial_cname in Hp as [Hp _].
Qed.

Lemma accepts_packets ac ar h b a r : fresh a -> assembly_get b h = Some a -> as_handle a = h -> partial a r ->
  has_room b (as_query_type a) ac ar (rp_begin r) = true -> accepts ac ar h b (packets_before_end r) (assembly_at a r).
Proof.
  intros Hf Hg Hh Hp Hr. destruct r as [begin cn ad sv]. cbn [rp_begin] in Hr. pose proof (pa_kind _ _ Hp) as Hk. cbn [rp_addresses rp_services] in Hk.
  destruct (as_query_type a =? ns_t_srv) eqn:Es; subst.
  - induction sv as [|c sv IH] using rev_ind; [by apply accepts_cnames|].
    set (r1 := {| rp_begin := begin; rp_cnames := cn; rp_addresses := []; rp_services := sv |}) in *.
    change {| rp_begin := _; rp_services := sv ++ [c] |} with (add_srv r1 c) in *. rewrite packets_srv.
    apply (accepts_snoc _ _ _ _ _ (assembly_at a r1)); [|done|intros b'; apply step_srv; [lia|done]]. apply IH. apply partial_srv in Hp as [Hp _]; [done|lia].
  - induction ad as [|c ad IH] using rev_ind; [by apply accepts_cnames|].
    set (r1 := {| rp_begin := begin; rp_cnames := cn; rp_addresses := ad; rp_services := [] |}) in *.
    change {| rp_begin := _; rp_addresses := ad ++ [c] |} with (add_address r1 c) in *. rewrite packets_address by done.
    apply (accepts_snoc _ _ _ _ _ (assembly_at a r1)); [|done|intros b'; apply step_address; [lia|done]]. apply IH. apply partial_address in Hp as [Hp _]; [done|lia].
Qed.

(** The invariant of a sequence of packets. *)
Definition consumed (a0 : resolver_ipc_assembly) (ps : list bytes) (a : resolver_ipc_assembly) (st : resolver_ipc_assembly_status) : Prop :=
  match st with
  | RESOLVER_IPC_ASSEMBLY_OK => prefix_of a0 a ps
  | RESOLVER_IPC_ASSEMBLY_COMPLETE => exists r, coherent a0 r /\ a = assembled a0 r /\ ps = response_packets r
  | _ => resolver_ipc_assembly_state_nonterminal (as_state a) = false
  end.

Lemma consumed_step b taken h a0 a ps st ac ar packet : fresh a0 -> as_handle a0 = h -> budget_ok b taken -> assembly_get b h = Some a ->
  consumed a0 ps a st -> is_bytes packet ->
  exists b' a' st', resolver_ipc_assembly_packet_consume b (Some h) ac ar (Some packet) = Some (b', st') /\ budget_ok b' taken /\
    assembly_get b' h = Some a' /\ consumed a0 (ps ++ [packet]) a' st'.
Proof.
  intros Hf Hh Hok Hg Hc Hb. destruct (consume_keeps b taken h a ac ar packet Hok Hg Hb) as (b1 & st1 & Hp1 & Hok1 & _).
  destruct (live_charged _ _ _ _ Hok Hg) as [Hd Hch]. pose proof (budget_ok_sums _ _ Hok) as (_ & Hts & _). unfold sizeof_resolver_ipc_assembly in Hch.
  destruct (assembly_get_split _ _ _ (bo_handles _ _ Hok) Hg) as (_ & _ & _ & Hha & _).
  assert (Hs : exists b' a' st', assembly_step b a ac ar packet = Some (b', a', st') /\ bu_assemblies b' = bu_assemblies b /\ as_handle a' = h /\
    consumed a0 (ps ++ [packet]) a' st').
  { assert (Hend : resolver_ipc_assembly_state_nonterminal (as_state a) = false -> exists b' a' st', assembly_step b a ac ar packet = Some (b', a', st') /\
      bu_assemblies b' = bu_assemblies b /\ as_handle a' = h /\ consumed a0 (ps ++ [packet]) a' st').
    { intros Hn. unfold assembly_step. rewrite Hn. cbn [negb]. destruct (fail_spec b a RESOLVER_IPC_ASSEMBLY_PROTOCOL) as (b' & -> & Ha & _); [lia|].
      by eexists _, _, _. }
    destruct st; cbn [consumed] in Hc; try (by apply Hend); [|by destruct Hc as (r & _ & -> & _); apply Hend].
    pose proof (step_spec a0 a ps b ac ar packet Hf Hc ltac:(lia) Hb) as Hst.
    destruct (assembly_step b a ac ar packet) as [[[b' a'] st']|]; [|done]. destruct Hst as (Ha & _ & _ & Hst). eexists _, _, _. split; [done|]. split; [done|].
    destruct st'; try (rewrite Hst; by split).
    - split; [|done]. by destruct Hst as [[-> _]|(r & _ & -> & _)].
    - destruct Hst as (r & Hco & -> & Hps). split; [done|]. by exists r. }
  destruct Hs as (b' & a' & st' & Hs & Ha & Hh' & Hc'). destruct (consume_step b h a ac ar packet b' a' st' Hg Hs Ha Hh') as [Hp Hg'].
  rewrite Hp in Hp1. injection Hp1 as <- <-. by eexists _, _, _.
Qed.

Lemma consumed_all b taken h a0 a ps st ac ar packets : fresh a0 -> as_handle a0 = h -> budget_ok b taken -> assembly_get b h = Some a ->
  consumed a0 ps a st -> Forall is_bytes packets ->
  exists b' a' st', packets_consume ac ar h b st packets = Some (b', st') /\ assembly_get b' h = Some a' /\ consumed a0 (ps ++ packets) a' st'.
Proof.
  intros Hf Hh. revert b a ps st. induction packets as [|packet packets IH]; intros b a ps st Hok Hg Hc Hb.
  - exists b, a, st. by rewrite app_nil_r.
  - apply Forall_cons_1 in Hb as [Hb Hbs]. destruct (consumed_step b taken h a0 a ps st ac ar packet Hf Hh Hok Hg Hc Hb) as (b1 & a1 & st1 & Hp & Hok1 & Hg1 & Hc1).
    destruct (IH b1 a1 (ps ++ [packet]) st1 Hok1 Hg1 Hc1 Hbs) as (b2 & a2 & st2 & Hp2 & Hg2 & Hc2). exists b2, a2, st2.
    cbn [packets_consume]. rewrite Hp. cbn [mbind option_bind]. rewrite <- app_assoc in Hc2. done.
Qed.

(** A live assembly that has consumed nothing is as it was created. *)
Lemma begin_is_fresh b taken h a : budget_ok b taken -> assembly_get b h = Some a -> as_state a = RESOLVER_IPC_ASSEMBLY_STATE_BEGIN ->
  fresh a /\ as_handle a = h.
Proof.
  intros Hok Hg Hs. destruct (assembly_get_split _ _ _ (bo_handles _ _ Hok) Hg) as (_ & _ & _ & Hh & _). split; [|done].
  assert (Ha : assembly_ok a) by (eapply list.Forall_forall; [apply (bo_assemblies _ _ Hok)|by eapply assembly_get_in]).
  destruct Ha as [[[H|H] _]|(a0 & Hf & [[ps [[-> _]|(r & _ & -> & _)]]|(r & Hc & ->)])]; try congruence; try done.
  cbn [assembly_at assembly_with as_state] in Hs. unfold state_at in Hs. split_ifs; done.
Qed.

(** The packets of a coherent response that fits the budget are accepted. *)
Lemma coherent_accepted b taken h a ac ar r : budget_reachable b taken -> assembly_get b h = Some a -> as_state a = RESOLVER_IPC_ASSEMBLY_STATE_BEGIN ->
  coherent a r -> has_room b (as_query_type a) ac ar (rp_begin r) = true ->
  exists b', packets_consume ac ar h b RESOLVER_IPC_ASSEMBLY_OK (response_packets r) = Some (b', RESOLVER_IPC_ASSEMBLY_COMPLETE) /\
    assembly_get b' h = Some (assembled a r).
Proof.
  intros Hr%reachable_budget_ok Hg Hs Hc Hroom. destruct (begin_is_fresh _ _ _ _ Hr Hg Hs) as [Hf Hh].
  destruct (accepts_packets ac ar h b a r Hf Hg Hh (co_partial _ _ Hc) Hroom) as (b1 & Hp1 & Hg1).
  destruct (step_end b1 a ac ar r Hc) as (b2 & Hs2 & Ha2 & _).
  destruct (consume_step b1 h _ ac ar _ b2 _ _ Hg1 Hs2 Ha2 Hh) as [Hp2 Hg2]. eexists. split; [|exact Hg2].
  unfold response_packets. rewrite packets_consume_app, Hp1. cbn [mbind option_bind packets_consume]. by rewrite Hp2.
Qed.

(** C33: the assembler refines the protocol of responses: fed any packets, a new
    assembly never faults, and it completes only if the packets are exactly those of
    a coherent response to its query (announced counts, an alias chain without loops
    from the question to the canonical name, records of the queried kind with the
    lifetimes the chain allows), which is then what it holds; and the packets of
    every coherent response that fits the budget are accepted to completion. *)
Theorem assembly_exact b taken h a ac ar : budget_reachable b taken -> assembly_get b h = Some a -> as_state a = RESOLVER_IPC_ASSEMBLY_STATE_BEGIN ->
  (forall packets, Forall is_bytes packets -> exists b' st, packets_consume ac ar h b RESOLVER_IPC_ASSEMBLY_OK packets = Some (b', st) /\
     (st = RESOLVER_IPC_ASSEMBLY_COMPLETE -> exists r, coherent a r /\ packets = response_packets r /\ assembly_get b' h = Some (assembled a r))) /\
  (forall r, coherent a r -> has_room b (as_query_type a) ac ar (rp_begin r) = true ->
     exists b', packets_consume ac ar h b RESOLVER_IPC_ASSEMBLY_OK (response_packets r) = Some (b', RESOLVER_IPC_ASSEMBLY_COMPLETE) /\
       assembly_get b' h = Some (assembled a r)).
Proof.
  intros Hr Hg Hs. split; [|intros r; by apply (coherent_accepted b taken)]. apply reachable_budget_ok in Hr. destruct (begin_is_fresh _ _ _ _ Hr Hg Hs) as [Hf Hh].
  intros packets Hb. destruct (consumed_all b taken h a a [] RESOLVER_IPC_ASSEMBLY_OK ac ar packets Hf Hh Hr Hg ltac:(by left) Hb)
    as (b' & a' & st' & Hp & Hg' & Hc). exists b', st'. split; [done|]. intros ->. destruct Hc as (r & Hco & -> & Hps). by exists r.
Qed.

(** ** Results in the cache *)

(** The payload as the cache reads it: each array with its count. *)
Definition array_view {A} (array : option (list A)) (count : Z) : option (list A) := take (Z.to_nat count) <$> array.
Definition payload_address (p : resolver_ipc_assembly_payload) : dns_address_result := {|
  ar_addresses := array_view (py_addresses p) (py_record_count p); ar_canonical_name := py_canonical_name p;
  ar_cnames := array_view (py_cnames p) (py_cname_count p); ar_negative := py_negative p; ar_question_name := py_question_name p; ar_rcode := py_rcode p |}.
Definition payload_srv (p : resolver_ipc_assembly_payload) : dns_srv_result := {|
  sr_canonical_name := py_canonical_name p; sr_cnames := array_view (py_cnames p) (py_cname_count p); sr_negative := py_negative p;
  sr_question_name := py_question_name p; sr_rcode := py_rcode p; sr_records := array_view (py_records p) (py_record_count p) |}.

(** What the cache decides on a result for [entry]. *)
Definition result_validate (entry : resolver_cache_entry) (r : resolver_ipc_assembly_result) : option (Z * resolver_cache_view_status) :=
  if rt_query_type r =? ns_t_srv then
    status ← resolver_ipc_lookup_status_to_srv (rt_status r); resolver_cache_srv_result_validate entry status (payload_srv (rt_payload r))
  else
    status ← resolver_ipc_lookup_status_to_address (rt_status r); resolver_cache_address_result_validate entry status (payload_address (rt_payload r)).

Definition record_ttls (r : resolver_ipc_assembly_result) : list Z :=
  if rt_query_type r =? ns_t_srv then r_effective_ttl <$> default [] (sr_records (payload_srv (rt_payload r)))
  else a_effective_ttl <$> default [] (ar_addresses (payload_address (rt_payload r))).

Lemma array_view_of {A} n m (zero : A) l : len l = n -> (n <> 0 -> n <= m) ->
  array_view (array_of (if n =? 0 then 0 else m) zero l) n = if n =? 0 then None else Some l.
Proof.
  intros Hl Hm. unfold array_view, array_of. destruct (n =? 0) eqn:E; [done|]. if_as E2; [lia|]. cbn [fmap option_fmap option_map]. f_equal.
  rewrite <- Hl, Nat2Z.id. apply take_app_length.
Qed.

Lemma array_view_full {A} n (zero : A) l : len l = n -> array_view (array_of n zero l) n = if n =? 0 then None else Some l.
Proof. intros Hl. rewrite <- (array_view_of n n zero l) by (done || lia). f_equal. destruct (n =? 0) eqn:E; [|done]. by replace n with 0 by lia. Qed.

Lemma normalized_valid n : resolver_ipc_assembly_name_normalized n = true -> resolver_cache_name_valid n = true.
Proof. unfold resolver_ipc_assembly_name_normalized, resolver_cache_name_valid. intros H%bool_decide_eq_true. by rewrite H. Qed.

Lemma chained_cnames_valid q l n : chained q l -> len l = n -> 0 <= n <= 16 ->
  resolver_cache_cnames_valid (if n =? 0 then None else Some l) = true.
Proof.
  intros Hc Hl Hn. unfold resolver_cache_cnames_valid, count_of, DNS_CNAME_DEPTH_LIMIT. destruct (n =? 0) eqn:E; [done|]. change (default [] (Some l)) with l.
  rewrite bool_decide_eq_false_2 by done. replace (len l =? 0) with false by lia. replace (16 <? len l) with false by lia. cbn [orb Bool.eqb negb].
  apply forallb_forall. intros c Hin. apply list_elem_of_In, list_elem_of_lookup in Hin as [i Hi]. destruct (Hc i c Hi) as [Hf _].
  unfold cname_fits in Hf. rewrite !andb_true_iff in Hf. destruct Hf as [[[H1 H2] _] _]. by rewrite !normalized_valid.
Qed.

Lemma closes_negative a r : coherent a r -> resolver_cache_negative_valid (b_negative (rp_begin r)) = true.
Proof.
  intros [Hp _ _ Hcl]. destruct (pa_valid _ _ Hp) as (_ & _ & _ & _ & _ & _ & Hn & _). unfold closes in Hcl. apply andb_true_iff in Hcl as [_ Hcl].
  unfold resolver_ipc_negative_valid in Hn. unfold resolver_cache_negative_valid. destruct (n_valid (b_negative (rp_begin r))); cbn [negb orb] in *.
  - rewrite !andb_true_iff in *. destruct Hcl as [[H1 _] _], Hn as [[_ H2] H3]. by rewrite normalized_valid.
  - rewrite !andb_true_iff in *. destruct Hn as [[[H1 H2] H3] H4]. split; [|done]. split; [by split|]. apply bool_decide_eq_true, nil_length_inv. lia.
Qed.

Lemma least_ttl_all {A} (P : A -> bool) (ttl : A -> Z) start l : Forall (fun x => P x = true) l ->
  exists n, least_ttl P ttl start l = Some n /\ n = foldr Z.min start (ttl <$> l).
Proof.
  intros Hf. assert (Hs : exists n, least_ttl P ttl start l = Some n).
  { revert start. induction Hf as [|x l Hx _ IH]; intros start; cbn [least_ttl]; [by eexists|]. rewrite Hx. apply IH. }
  destruct Hs as [n Hn]. exists n. split; [done|]. by apply least_ttl_spec in Hn as [_ ->].
Qed.

(** The facts of a response to a question that has a name. *)
Lemma begin_check_named a r : partial a r -> b_question_name (rp_begin r) <> [] ->
  (b_status (rp_begin r) = RESOLVER_IPC_LOOKUP_OK \/ b_status (rp_begin r) = RESOLVER_IPC_LOOKUP_NODATA \/
   b_status (rp_begin r) = RESOLVER_IPC_LOOKUP_NOT_FOUND) ->
  resolver_name_normalize (Some (b_question_name (rp_begin r))) = Some (b_question_name (rp_begin r)) /\
  resolver_cache_name_valid (b_canonical_name (rp_begin r)) = true /\
  (if b_status (rp_begin r) =? RESOLVER_IPC_LOOKUP_OK
   then b_rcode (rp_begin r) = ns_r_noerror /\ 0 < b_record_count (rp_begin r) /\ n_valid (b_negative (rp_begin r)) = false
   else b_record_count (rp_begin r) = 0 /\ (b_status (rp_begin r) = RESOLVER_IPC_LOOKUP_NODATA -> b_rcode (rp_begin r) = ns_r_noerror)).
Proof.
  intros Hp Hq Hs. pose proof (pa_check _ _ Hp) as Hc. unfold resolver_ipc_assembly_begin_check in Hc.
  unfold RESOLVER_IPC_LOOKUP_OK, RESOLVER_IPC_LOOKUP_NODATA, RESOLVER_IPC_LOOKUP_NOT_FOUND, RESOLVER_IPC_LOOKUP_PERMANENT_ERROR,
    RESOLVER_IPC_LOOKUP_TEMPORARY_ERROR in *. rewrite (bool_decide_eq_false_2 (b_question_name (rp_begin r) = [])) in Hc by done.
  rewrite andb_false_r in Hc. destruct (_ || _ || negb (b_query_type _ =? _)) in Hc; [done|].
  replace ((b_status (rp_begin r) =? 1) || ((b_status (rp_begin r) =? 6) || (b_status (rp_begin r) =? 7))) with true in Hc by lia.
  destruct (resolver_ipc_assembly_name_normalized (b_question_name (rp_begin r))) eqn:En; [|done].
  destruct (resolver_ipc_assembly_name_normalized (b_canonical_name (rp_begin r))) eqn:Ec; [|by rewrite orb_true_r in Hc].
  destruct (negb true || _ || _) in Hc; [done|]. split; [by apply bool_decide_eq_true in En|]. split; [by apply normalized_valid|].
  destruct (b_status (rp_begin r) =? 1) eqn:E1; [by destruct (n_valid _); lia|]. split; [lia|]. intros H6. rewrite H6 in Hc. lia.
Qed.

Lemma payload_cnames a r : coherent a r ->
  array_view (py_cnames (as_payload (assembled a r))) (py_cname_count (as_payload (assembled a r))) =
  if b_cname_count (rp_begin r) =? 0 then None else Some (rp_cnames r).
Proof.
  intros [Hp Hc _ _]. pose proof (begin_counts _ (pa_valid _ _ Hp)) as [Hcc _]. cbn [assembled assembly_with as_payload payload_at py_cnames py_cname_count].
  apply array_view_of; [done|]. unfold DNS_CNAME_DEPTH_LIMIT. lia.
Qed.

Lemma question_matches_normal e q : resolver_name_normalize (Some q) = Some q -> e_name e = q -> resolver_cache_question_matches e q = true.
Proof. intros Hn He. unfold resolver_cache_question_matches. rewrite Hn, He. by apply bool_decide_eq_true. Qed.

Lemma srv_valid_at a r : coherent a r ->
  Forall (fun x => resolver_cache_name_valid (r_target x) && (r_effective_ttl x <=? r_record_ttl x) = true) (rp_services r).
Proof.
  intros Hc. pose proof (pa_services _ _ (co_partial _ _ Hc)) as Hf. revert Hf. apply Forall_impl. intros x [H _]. unfold srv_fits in H.
  apply andb_true_iff in H as [H1 H2]. rewrite normalized_valid by done. lia.
Qed.

Lemma address_valid_at a r : coherent a r ->
  Forall (fun x => (family (a_address x) =? family_of_query (as_query_type a)) && (a_effective_ttl x <=? a_record_ttl x) = true) (rp_addresses r).
Proof.
  intros Hc. pose proof (pa_addresses _ _ (co_partial _ _ Hc)) as Hf. revert Hf. apply Forall_impl. intros x [H _]. unfold address_fits in H.
  apply andb_true_iff in H as [H1 H2]. rewrite H1. cbn [andb]. lia.
Qed.

(** The two results of a response. *)
Definition response_cnames (r : response) : option (list dns_cname_record) := if b_cname_count (rp_begin r) =? 0 then None else Some (rp_cnames r).
Definition srv_result_of (r : response) : dns_srv_result := let begin := rp_begin r in {|
  sr_canonical_name := b_canonical_name begin; sr_cnames := response_cnames r; sr_negative := b_negative begin; sr_question_name := b_question_name begin;
  sr_rcode := b_rcode begin; sr_records := if b_record_count begin =? 0 then None else Some (rp_services r) |}.
Definition address_result_of (r : response) : dns_address_result := let begin := rp_begin r in {|
  ar_addresses := if b_record_count begin =? 0 then None else Some (rp_addresses r); ar_canonical_name := b_canonical_name begin;
  ar_cnames := response_cnames r; ar_negative := b_negative begin; ar_question_name := b_question_name begin; ar_rcode := b_rcode begin |}.

Lemma payload_srv_is a r : coherent a r -> as_query_type a = ns_t_srv -> payload_srv (as_payload (assembled a r)) = srv_result_of r.
Proof.
  intros Hc Ht. unfold payload_srv, srv_result_of. rewrite payload_cnames by done. f_equal. pose proof (pa_kind _ _ (co_partial _ _ Hc)) as Hk.
  open_assembly. rewrite Ht, Z.eqb_refl in *. apply array_view_full. pose proof (co_records _ _ Hc) as Hr. unfold records_received in Hr.
  rewrite Hk in Hr. cbn [length] in Hr. lia.
Qed.

Lemma payload_address_is a r : coherent a r -> as_query_type a <> ns_t_srv -> payload_address (as_payload (assembled a r)) = address_result_of r.
Proof.
  intros Hc Ht. unfold payload_address, address_result_of. rewrite payload_cnames by done. f_equal. pose proof (pa_kind _ _ (co_partial _ _ Hc)) as Hk.
  open_assembly. replace (as_query_type a =? ns_t_srv) with false in * by lia. apply array_view_full. pose proof (co_records _ _ Hc) as Hr.
  unfold records_received in Hr. rewrite Hk in Hr. cbn [length] in Hr. lia.
Qed.

(** What the cache answers on a response, by its status. *)
Definition response_answer (r : response) (ttls : list Z) : option (Z * resolver_cache_view_status) :=
  let negative := b_negative (rp_begin r) in
  let ttl := if n_valid negative then n_effective_ttl negative else 0 in
  if b_status (rp_begin r) =? RESOLVER_IPC_LOOKUP_OK then Some (foldr Z.min UINT32_MAX ttls, RESOLVER_CACHE_VIEW_FRESH_POSITIVE)
  else if b_status (rp_begin r) =? RESOLVER_IPC_LOOKUP_NODATA then Some (ttl, RESOLVER_CACHE_VIEW_FRESH_NODATA)
  else Some (ttl, RESOLVER_CACHE_VIEW_FRESH_NXDOMAIN).

(** The responses the cache keeps. *)
Definition cacheable (r : response) : Prop :=
  b_question_name (rp_begin r) <> [] /\
  (b_status (rp_begin r) = RESOLVER_IPC_LOOKUP_OK \/ b_status (rp_begin r) = RESOLVER_IPC_LOOKUP_NODATA \/
   (b_status (rp_begin r) = RESOLVER_IPC_LOOKUP_NOT_FOUND /\ b_rcode (rp_begin r) = ns_r_nxdomain)).

Definition kept_status (r : response) : dns_lookup_status :=
  if b_status (rp_begin r) =? RESOLVER_IPC_LOOKUP_OK then DNS_LOOKUP_OK
  else if b_status (rp_begin r) =? RESOLVER_IPC_LOOKUP_NODATA then DNS_LOOKUP_NODATA else DNS_LOOKUP_NOT_FOUND.

Lemma srv_cached a r e : coherent a r -> as_query_type a = ns_t_srv -> e_query_type e = ns_t_srv -> e_name e = b_question_name (rp_begin r) ->
  cacheable r -> resolver_cache_srv_result_validate e (kept_status r) (srv_result_of r) = response_answer r (r_effective_ttl <$> rp_services r).
Proof.
  intros Hc Ht Het Hen [Hq Hs]. pose proof (co_partial _ _ Hc) as Hp. pose proof (begin_counts _ (pa_valid _ _ Hp)) as [Hcc Hrc].
  destruct (begin_check_named a r Hp Hq) as (Hn & Hcv & Hst); [tauto|]. unfold resolver_cache_srv_result_validate, srv_result_of, response_cnames.
  cbn [sr_canonical_name sr_cnames sr_negative sr_question_name sr_rcode sr_records].
  rewrite Het, Z.eqb_refl, question_matches_normal, Hcv, (closes_negative _ _ Hc) by done.
  rewrite (chained_cnames_valid _ _ _ (pa_chain _ _ Hp) (co_cnames _ _ Hc) Hcc). cbn [negb orb]. unfold kept_status, response_answer.
  pose proof (pa_kind _ _ Hp) as Hk. rewrite Ht, Z.eqb_refl in Hk. pose proof (co_records _ _ Hc) as Hr. unfold records_received in Hr. rewrite Hk in Hr.
  change (len (@nil dns_address_record)) with 0 in Hr. destruct (b_status (rp_begin r) =? RESOLVER_IPC_LOOKUP_OK) eqn:E1.
  - destruct Hst as (-> & Hpos & ->). replace (b_record_count (rp_begin r) =? 0) with false by lia. rewrite bool_decide_eq_false_2 by done.
    unfold count_of. change (default [] (Some (rp_services r))) with (rp_services r). unfold DNS_SRV_RECORD_LIMIT. if_as E; [cbn in E; lia|].
    destruct (least_ttl_all _ r_effective_ttl UINT32_MAX _ (srv_valid_at a r Hc)) as (n & -> & ->). done.
  - destruct Hst as [-> Hrc2]. cbn [Z.eqb]. rewrite bool_decide_eq_true_2 by done. cbn [negb].
    destruct (b_status (rp_begin r) =? RESOLVER_IPC_LOOKUP_NODATA) eqn:E2; unfold negative_outcome.
    + by rewrite Hrc2 by lia.
    + destruct Hs as [Hs|[Hs|[Hs ->]]]; [lia..|done].
Qed.

Lemma address_cached a r e : coherent a r -> as_query_type a <> ns_t_srv -> fresh a -> e_query_type e = as_query_type a ->
  e_name e = b_question_name (rp_begin r) ->
  cacheable r -> resolver_cache_address_result_validate e (kept_status r) (address_result_of r) = response_answer r (a_effective_ttl <$> rp_addresses r).
Proof.
  intros Hc Ht Hf Het Hen [Hq Hs]. pose proof (co_partial _ _ Hc) as Hp. pose proof (begin_counts _ (pa_valid _ _ Hp)) as [Hcc Hrc].
  destruct (begin_check_named a r Hp Hq) as (Hn & Hcv & Hst); [tauto|]. unfold resolver_cache_address_result_validate, address_result_of, response_cnames.
  cbn [ar_canonical_name ar_cnames ar_negative ar_question_name ar_rcode ar_addresses].
  assert (Hty : negb (e_query_type e =? ns_t_a) && negb (e_query_type e =? ns_t_aaaa) = false).
  { pose proof (fr_type _ Hf) as H. unfold resolver_ipc_query_type_valid in H. lia. }
  rewrite Hty, question_matches_normal, Hcv, (closes_negative _ _ Hc) by done.
  rewrite (chained_cnames_valid _ _ _ (pa_chain _ _ Hp) (co_cnames _ _ Hc) Hcc). cbn [negb orb]. unfold kept_status, response_answer.
  pose proof (pa_kind _ _ Hp) as Hk. replace (as_query_type a =? ns_t_srv) with false in Hk by lia. pose proof (co_records _ _ Hc) as Hr. unfold records_received in Hr.
  rewrite Hk in Hr. change (len (@nil dns_srv_record)) with 0 in Hr. destruct (b_status (rp_begin r) =? RESOLVER_IPC_LOOKUP_OK) eqn:E1.
  - destruct Hst as (-> & Hpos & ->). replace (b_record_count (rp_begin r) =? 0) with false by lia. rewrite bool_decide_eq_false_2 by done.
    unfold count_of. change (default [] (Some (rp_addresses r))) with (rp_addresses r). unfold DNS_ADDRESS_RECORD_LIMIT. if_as E; [cbn in E; lia|].
    rewrite Het. destruct (least_ttl_all _ a_effective_ttl UINT32_MAX _ (address_valid_at a r Hc)) as (n & Hl & ->). unfold family_of_query in Hl. by rewrite Hl.
  - destruct Hst as [-> Hrc2]. cbn [Z.eqb]. rewrite bool_decide_eq_true_2 by done. cbn [negb].
    destruct (b_status (rp_begin r) =? RESOLVER_IPC_LOOKUP_NODATA) eqn:E2; unfold negative_outcome.
    + by rewrite Hrc2 by lia.
    + destruct Hs as [Hs|[Hs|[Hs ->]]]; [lia..|done].
Qed.

(** The cache keeps no other result. *)
Definition cacheable_result (question : bytes) (st : dns_lookup_status) (rcode : Z) : Prop :=
  question <> [] /\ (st = DNS_LOOKUP_OK \/ st = DNS_LOOKUP_NODATA \/ (st = DNS_LOOKUP_NOT_FOUND /\ rcode = ns_r_nxdomain)).

Lemma negative_kept st rcode n x : negative_outcome st rcode n = Some x -> st = DNS_LOOKUP_NODATA \/ (st = DNS_LOOKUP_NOT_FOUND /\ rcode = ns_r_nxdomain).
Proof.
  unfold negative_outcome. destruct st; try done; [by left|]. destruct (Z.eqb_spec rcode ns_r_nxdomain); [by right|done].
Qed.

Lemma address_kept e st r x : resolver_cache_address_result_validate e st r = Some x -> cacheable_result (ar_question_name r) st (ar_rcode r).
Proof.
  unfold resolver_cache_address_result_validate. if_as E; [done|]. intros H. split.
  - intros Hq. rewrite Hq in E. cbn in E. by rewrite orb_true_r in E.
  - destruct (decide (st = DNS_LOOKUP_OK)) as [->|Hs]; [by left|]. right. destruct (negb (bool_decide (ar_addresses r = None))); [by destruct st|].
    apply (negative_kept st (ar_rcode r) (ar_negative r) x). by destruct st.
Qed.

Lemma srv_kept e st r x : resolver_cache_srv_result_validate e st r = Some x -> cacheable_result (sr_question_name r) st (sr_rcode r).
Proof.
  unfold resolver_cache_srv_result_validate. if_as E; [done|]. intros H. split.
  - intros Hq. rewrite Hq in E. cbn in E. by rewrite orb_true_r in E.
  - destruct (decide (st = DNS_LOOKUP_OK)) as [->|Hs]; [by left|]. right. destruct (negb (bool_decide (sr_records r = None))); [by destruct st|].
    apply (negative_kept st (sr_rcode r) (sr_negative r) x). by destruct st.
Qed.

Lemma status_to z st : resolver_ipc_lookup_status_to_address z = Some st \/ resolver_ipc_lookup_status_to_srv z = Some st ->
  (st = DNS_LOOKUP_OK -> z = RESOLVER_IPC_LOOKUP_OK) /\ (st = DNS_LOOKUP_NODATA -> z = RESOLVER_IPC_LOOKUP_NODATA) /\
  (st = DNS_LOOKUP_NOT_FOUND -> z = RESOLVER_IPC_LOOKUP_NOT_FOUND).
Proof.
  unfold resolver_ipc_lookup_status_to_address, resolver_ipc_lookup_status_to_srv. destruct (resolver_ipc_lookup_status_find _) as [m|] eqn:E; [|by intros [?|?]].
  apply find_some in E as [Hin Hz%Z.eqb_eq]. subst z. cbn [fmap option_fmap option_map]. intros Hst. cbn in Hin.
  repeat (destruct Hin as [<-|Hin]; [by destruct Hst as [[= <-]|[= <-]]|]). done.
Qed.

(** A result is kept only if its response is. *)
Lemma kept_cacheable r st : resolver_ipc_lookup_status_to_address (b_status (rp_begin r)) = Some st \/ resolver_ipc_lookup_status_to_srv (b_status (rp_begin r)) = Some st ->
  cacheable_result (b_question_name (rp_begin r)) st (b_rcode (rp_begin r)) -> cacheable r.
Proof. intros (H1 & H2 & H3)%status_to [Hq Hs]. split; [done|]. destruct Hs as [Hs|[Hs|[Hs Hr]]]; [left|right; left|right; right]; auto. Qed.

(** C35: what the assembler hands over is well formed for the cache: every result taken from a
    reachable budget is that of a coherent response, read as exactly the result the
    response describes.  The cache's own validation accepts it, for the entry of the
    question, if the response names its question and is positive, has no data, or does
    not exist with the code NXDOMAIN: with the least lifetime of its records or that of
    its negative record.  Every other result is refused for any entry. *)
Theorem taken_result_cached b taken rt : budget_reachable b taken -> rt ∈ taken ->
  exists a r, coherent a r /\ rt_query_type rt = as_query_type a /\ rt_query_id rt = as_query_id a /\ rt_completed_at rt = b_completed_at (rp_begin r) /\
    rt_status rt = b_status (rp_begin r) /\
    (if rt_query_type rt =? ns_t_srv then payload_srv (rt_payload rt) = srv_result_of r else payload_address (rt_payload rt) = address_result_of r) /\
    (cacheable r -> forall e, e_query_type e = rt_query_type rt -> e_name e = b_question_name (rp_begin r) ->
       result_validate e rt = response_answer r (record_ttls rt)) /\
    (~ cacheable r -> forall e, result_validate e rt = None).
Proof.
  intros Hr%reachable_budget_ok Hin. pose proof (bo_taken _ _ Hr) as Ht. rewrite list.Forall_forall in Ht.
  destruct (Ht rt Hin) as (a & r & Hf & Hc & ->). exists a, r. split; [done|]. do 4 (split; [done|]).
  cbn [result_of rt_query_type rt_payload]. change (as_query_type (assembled a r)) with (as_query_type a).
  unfold result_validate, record_ttls. cbn [result_of rt_query_type rt_payload rt_status].
  change (as_query_type (assembled a r)) with (as_query_type a). change (as_status (assembled a r)) with (b_status (rp_begin r)).
  pose proof (co_records _ _ Hc) as Hr'. unfold records_received in Hr'. pose proof (kept_cacheable r) as Hkc. destruct (as_query_type a =? ns_t_srv) eqn:E.
  - rewrite payload_srv_is by (done || lia). split; [done|]. split.
    + intros Hk e He Hn. assert (Hst : resolver_ipc_lookup_status_to_srv (b_status (rp_begin r)) = Some (kept_status r)) by (unfold kept_status; by destruct Hk as [_ [->|[->|[-> _]]]]).
      rewrite Hst. cbn [mbind option_bind]. rewrite (srv_cached a r e) by (done || lia). f_equal. unfold srv_result_of. cbn [sr_records].
      destruct (b_record_count (rp_begin r) =? 0) eqn:E0; [|done]. by rewrite (nil_length_inv (rp_services r)) by lia.
    + intros Hk e. destruct (resolver_ipc_lookup_status_to_srv _) as [st|]; [|done]. cbn [mbind option_bind].
      destruct (resolver_cache_srv_result_validate e st _) as [x|] eqn:Ev; [|done]. apply srv_kept in Ev. destruct Hk. apply (Hkc st); [by right|exact Ev].
  - rewrite payload_address_is by (done || lia). split; [done|]. split.
    + intros Hk e He Hn. assert (Hst : resolver_ipc_lookup_status_to_address (b_status (rp_begin r)) = Some (kept_status r)) by (unfold kept_status; by destruct Hk as [_ [->|[->|[-> _]]]]).
      rewrite Hst. cbn [mbind option_bind]. rewrite (address_cached a r e) by (done || lia). f_equal. unfold address_result_of. cbn [ar_addresses].
      destruct (b_record_count (rp_begin r) =? 0) eqn:E0; [|done]. by rewrite (nil_length_inv (rp_addresses r)) by lia.
    + intros Hk e. destruct (resolver_ipc_lookup_status_to_address _) as [st|]; [|done]. cbn [mbind option_bind].
      destruct (resolver_cache_address_result_validate e st _) as [x|] eqn:Ev; [|done]. apply address_kept in Ev. destruct Hk. apply (Hkc st); [by left|exact Ev].
Qed.

(** ** A sample response *)

Definition sample_question : bytes := [97; 46; 98].
Definition sample_canonical : bytes := [99; 46; 100].
Definition sample_response : response := {|
  rp_begin := {| b_canonical_name := sample_canonical; b_cname_count := 1; b_completed_at := {| tv_sec := 1000; tv_nsec := 5 |};
    b_negative := dns_negative_record_zero; b_question_name := sample_question; b_query_class := ns_c_in; b_query_id := 7; b_query_type := ns_t_a;
    b_rcode := 0; b_record_count := 1; b_status := RESOLVER_IPC_LOOKUP_OK |};
  rp_cnames := [{| c_owner := sample_question; c_target := sample_canonical; c_ttl := 60 |}];
  rp_addresses := [{| a_address := {| family := AF_INET; err := NET_OK; addr := [1; 2; 3; 4] |}; a_effective_ttl := 60; a_record_ttl := 300 |}];
  rp_services := [] |}.
Definition sample_assembly : resolver_ipc_assembly := fresh_assembly 1 sample_question ns_t_a 7.
Definition sample_budget : resolver_ipc_assembly_budget :=
  match resolver_ipc_assembly_budget_create true with
  | Some b => match resolver_ipc_assembly_create (Some b) (Some sample_question) ns_c_in ns_t_a 7 true (Some 1) with (Some b, _, _) => b | _ => b end
  | None => with_assemblies {| bu_assemblies := []; bu_metrics := {| am_owned_bytes_high_water := 0; am_query := fun _ _ => 0;
      am_result_size := fun _ => metrics_histogram_zero; am_saturation_total := 0 |}; bu_owned_bytes := 0 |} []
  end.
Definition sample_complete : resolver_ipc_assembly_budget :=
  match packets_consume true true 1 sample_budget RESOLVER_IPC_ASSEMBLY_OK (response_packets sample_response) with Some (b, _) => b | None => sample_budget end.
Definition sample_taken : resolver_ipc_assembly_budget * option resolver_ipc_assembly_result :=
  default (sample_budget, None) (resolver_ipc_assembly_result_take sample_complete (Some 1) (Some result_zero)).

Lemma sample_budget_reachable : budget_reachable sample_budget [].
Proof.
  refine (reach_create _ [] (Some sample_question) ns_c_in ns_t_a 7 true (Some 1) sample_budget RESOLVER_IPC_ASSEMBLY_OK (Some 1)
    (reach_budget _ eq_refl) _ _); [intros h Hh; apply not_elem_of_nil|vm_compute; reflexivity].
Qed.

Lemma reach_packets ac ar h b taken packets st b' st' : budget_reachable b taken -> Forall is_bytes packets ->
  packets_consume ac ar h b st packets = Some (b', st') -> budget_reachable b' taken.
Proof.
  intros Hr Hb. revert b st Hr. induction Hb as [|packet packets Hp _ IH]; intros b st Hr; cbn [packets_consume]; [by intros [= <- <-]|].
  destruct (resolver_ipc_assembly_packet_consume b (Some h) ac ar (Some packet)) as [[b1 st1]|] eqn:E; [|done]. cbn [mbind option_bind].
  apply IH. by eapply reach_consume.
Qed.

Lemma bytes_by_check l : forallb (fun b => (0 <=? b) && (b <? 256)) l = true -> is_bytes l.
Proof. intros H. apply list.Forall_forall. intros b Hb. rewrite forallb_forall in H. specialize (H b (proj1 (list_elem_of_In _ _) Hb)). unfold is_byte. lia. Qed.

Lemma sample_complete_reachable : budget_reachable sample_complete [].
Proof.
  apply (reach_packets true true 1 sample_budget [] (response_packets sample_response) RESOLVER_IPC_ASSEMBLY_OK _ RESOLVER_IPC_ASSEMBLY_COMPLETE); [apply sample_budget_reachable| |vm_compute; reflexivity].
  apply list.Forall_forall. intros p Hp. apply bytes_by_check. revert p Hp. apply list.Forall_forall. vm_compute. repeat constructor.
Qed.

Lemma sample_coherent : coherent sample_assembly sample_response.
Proof.
  assert (Hcstr : forall l, forallb (fun b => (1 <=? b) && (b <? 256)) l = true -> is_cstr l).
  { intros l H. apply list.Forall_forall. intros b Hb. rewrite forallb_forall in H. specialize (H b (proj1 (list_elem_of_In _ _) Hb)). lia. }
  split; [|done|done|by vm_compute]. split; try done.
  - cbn [codec_valid begin_codec sample_response rp_begin]. repeat split; try done; by apply Hcstr.
  - intros [|i] c Hi; [|done]. injection Hi as <-. split; [by vm_compute|]. split; [done|]. split; (split; [by apply Hcstr|done]).
  - by right.
  - constructor; [|done]. split; [by vm_compute|]. cbn [address_typed codec_valid address_codec]. repeat split; try done.
    + by apply bytes_by_check.
    + by left.
Qed.

Lemma assembly_budget_exact_witness : budget_reachable sample_budget [] /\
  bu_owned_bytes sample_budget = 776 + sumZ (assembly_bytes <$> bu_assemblies sample_budget) + 0 /\ bu_owned_bytes sample_budget = 5064.
Proof.
  split; [apply sample_budget_reachable|]. split; [|by vm_compute].
  destruct (assembly_budget_exact sample_budget [] sample_budget_reachable) as [H _]. exact H.
Defined.

Lemma assembly_exact_witness : exists b', packets_consume true true 1 sample_budget RESOLVER_IPC_ASSEMBLY_OK (response_packets sample_response) =
  Some (b', RESOLVER_IPC_ASSEMBLY_COMPLETE) /\ assembly_get b' 1 = Some (assembled sample_assembly sample_response).
Proof.
  assert (Hg : assembly_get sample_budget 1 = Some sample_assembly) by by vm_compute.
  destruct (assembly_exact sample_budget [] 1 sample_assembly true true sample_budget_reachable Hg eq_refl) as [_ H].
  apply (H sample_response); [exact sample_coherent|by vm_compute].
Defined.

Lemma taken_result_cached_witness : exists b rt, budget_reachable b [rt] /\ rt ∈ [rt] /\ exists a r, coherent a r /\
  payload_address (rt_payload rt) = address_result_of r.
Proof.
  destruct (snd sample_taken) as [rt|] eqn:E; [|exfalso; by vm_compute in E].
  assert (Hr : budget_reachable (fst sample_taken) [rt]).
  { refine (reach_take sample_complete [] 1 result_zero (fst sample_taken) (Some rt) sample_complete_reachable eq_refl _).
    rewrite <- E. vm_compute. reflexivity. }
  assert (Ht : rt_query_type rt = ns_t_a) by (clear Hr; vm_compute in E; injection E as <-; reflexivity).
  exists (fst sample_taken), rt. split; [exact Hr|]. split; [by apply list_elem_of_singleton|].
  destruct (taken_result_cached (fst sample_taken) [rt] rt Hr) as (a & r & Hc & _ & _ & _ & _ & Hp & _); [by apply list_elem_of_singleton|].
  exists a, r. split; [exact Hc|]. rewrite Ht in Hp. exact Hp.
Defined.
