(* ===== verification/Dns.v ===== *)
(** * Parsing DNS responses ([src/src/resolver/dns.c])

    The message parser of libresolv is a parameter, [nameser]: what [ns_initparse],
    [ns_parserr] and [ns_name_uncompress] answer on the bytes of a message.  What the
    code relies on of it is [nameser_laws].  A pointer into the message is its offset
    from the start.  The address and the SRV routines are written twice in the source,
    with the same statements; they are defined once here, for a [record_kind], and
    converted to the two result types. *)

From S2P Require Import Prelude Proxy ResolverUtil Cache.

(** ** Types *)

Definition DNS_AUTHORITY_RECORD_LIMIT : Z := 128.
Definition ns_o_query : Z := 0.

Inductive ns_sect := ns_s_qd | ns_s_an | ns_s_ns.

(** [ns_msg]: the bytes and the header of a message. *)
Record ns_msg := {
  msg_data : bytes; ns_msg_id : Z; ns_f_qr : bool; ns_f_opcode : Z; ns_f_tc : bool; ns_f_rcode : Z; ns_msg_count : ns_sect -> Z;
}.
(** [ns_rr]: [ns_rr_rdata] is the offset of the data. *)
Record ns_rr := { ns_rr_name : bytes; ns_rr_type : Z; ns_rr_class : Z; ns_rr_ttl : Z; ns_rr_rdata : Z; ns_rr_rdlen : Z }.

Class nameser := {
  ns_initparse : bytes -> option ns_msg;
  ns_parserr : ns_msg -> ns_sect -> Z -> option ns_rr;
  ns_name_uncompress : bytes -> Z -> option (Z * bytes);
}.

(** A name in the presentation format of libresolv, which escapes dots inside labels. *)
Definition presentation (name : bytes) : Prop :=
  is_cstr name /\ 1 <= len name < NS_MAXDNAME /\ (2 <= len name -> ~ (name !! Z.to_nat (len name - 1) = Some 46 /\ name !! Z.to_nat (len name - 2) = Some 46)).

(** What the code relies on: names are in presentation format and fit their buffers, the
    fields of a header and of a record have their widths, and the message is the one
    that was given. *)
Class nameser_laws `{nameser} : Prop := {
  initparse_message message m : ns_initparse message = Some m ->
    msg_data m = message /\ 0 <= ns_f_rcode m < 16 /\ forall s, 0 <= ns_msg_count m s < 2 ^ 16;
  parserr_record m s i rr : ns_parserr m s i = Some rr ->
    presentation (ns_rr_name rr) /\ 0 <= ns_rr_ttl rr < 2 ^ 32 /\ 0 <= ns_rr_rdlen rr < 2 ^ 16;
  uncompress_presentation message offset consumed name : ns_name_uncompress message offset = Some (consumed, name) -> presentation name;
}.

(** The statuses of [dns_address_parse_status] and [dns_srv_parse_status]. *)
Inductive dns_parse_status :=
  | DNS_PARSE_OK | DNS_PARSE_ALIAS_ONLY | DNS_PARSE_NODATA | DNS_PARSE_NXDOMAIN | DNS_PARSE_RCODE_ERROR | DNS_PARSE_TRUNCATED
  | DNS_PARSE_BAD_ARGUMENT | DNS_PARSE_LIMIT | DNS_PARSE_MALFORMED | DNS_PARSE_MEMORY.
#[export] Instance dns_parse_status_eq_dec : EqDecision dns_parse_status.
Proof. solve_decision. Defined.

Inductive dns_negative_parse_status := DNS_NEGATIVE_PARSE_OK | DNS_NEGATIVE_PARSE_LIMIT | DNS_NEGATIVE_PARSE_MALFORMED.

Record dns_address_candidate := { ac_address : net_addr; ac_owner : bytes; ac_ttl : Z }.
Record dns_srv_candidate := { sc_owner : bytes; sc_port : Z; sc_priority : Z; sc_target : bytes; sc_ttl : Z; sc_weight : Z }.

(** Whether the allocations of a parse succeed: the two arrays of candidates, the chain
    and the records. *)
Record parse_alloc := { al_candidates : bool; al_cnames : bool; al_chain : bool; al_records : bool }.

(** ** Results and names *)

Definition negative_empty (n : dns_negative_record) : bool :=
  (n_effective_ttl n =? 0) && (n_minimum n =? 0) && bool_decide (n_owner n = []) && (n_record_ttl n =? 0) && negb (n_valid n).

Definition dns_address_result_empty (result : dns_address_result) : bool :=
  bool_decide (ar_addresses result = None) && bool_decide (ar_cnames result = None) && bool_decide (ar_canonical_name result = [])
  && negative_empty (ar_negative result) && bool_decide (ar_question_name result = []) && (ar_rcode result =? 0).

Definition dns_srv_result_empty (result : dns_srv_result) : bool :=
  bool_decide (sr_canonical_name result = []) && bool_decide (sr_cnames result = None) && negative_empty (sr_negative result)
  && bool_decide (sr_question_name result = []) && (sr_rcode result =? 0) && bool_decide (sr_records result = None).

(** Freed and cleared. *)
Definition dns_address_result_destroy (result : option dns_address_result) : option dns_address_result := const dns_address_result_zero <$> result.
Definition dns_srv_result_destroy (result : option dns_srv_result) : option dns_srv_result := const dns_srv_result_zero <$> result.

Definition dns_cname_ttl_min (cnames : list dns_cname_record) : Z :=
  fold_left (fun result c => if c_ttl c <? result then c_ttl c else result) cnames UINT32_MAX.

(** The length without one trailing dot, the root apart. *)
Definition length_without_dot (name : bytes) : Z :=
  if (1 <? len name) && bool_decide (name !! Z.to_nat (len name - 1) = Some 46) then len name - 1 else len name.

Definition dns_name_equal (left right : option bytes) : bool :=
  match left, right with
  | Some l, Some r =>
      let left_length := length_without_dot l in
      let right_length := length_without_dot r in
      if negb (left_length =? right_length) then false
      else forallb (fun '(x, y) => chr_lower x =? chr_lower y) (zip (take (Z.to_nat left_length) l) (take (Z.to_nat right_length) r))
  | _, _ => false
  end.

Definition dns_name_normalize (source : option bytes) (target_size : Z) : option bytes :=
  match source with
  | None => None
  | Some source =>
      if target_size =? 0 then None else
      let source_length := length_without_dot source in
      if target_size <=? source_length then None else Some (chr_lower <$> take (Z.to_nat source_length) source)
  end.

Section parser.
Context `{nameser}.

(** ** Records of a message *)

(** The data of a record lies outside the message. *)
Definition rdata_outside (response : ns_msg) (rdata size : Z) : bool :=
  (rdata <? 0) || (len (msg_data response) <? rdata) || (len (msg_data response) - rdata <? size).

Definition dns_name_record_parse (response : ns_msg) (answer : ns_rr) : option dns_cname_record :=
  if rdata_outside response (ns_rr_rdata answer) (ns_rr_rdlen answer) then None else
  match ns_name_uncompress (msg_data response) (ns_rr_rdata answer) with
  | None => None
  | Some (consumed, target) =>
      if (consumed <=? 0) || negb (consumed =? ns_rr_rdlen answer) then None else
      owner ← dns_name_normalize (Some (ns_rr_name answer)) NS_MAXDNAME;
      target ← dns_name_normalize (Some target) NS_MAXDNAME;
      Some {| c_owner := owner; c_target := target; c_ttl := ns_rr_ttl answer |}
  end.

Definition ntohl (b : bytes) : Z := foldl (fun v x => v * 256 + x) 0 b.

(** [Return tt]: the record is not parsed. *)
Definition dns_negative_record_parse (response : ns_msg) (authority : ns_rr) : run unit dns_negative_record :=
  if rdata_outside response (ns_rr_rdata authority) (ns_rr_rdlen authority) then Return tt else
  let rdata_end := ns_rr_rdata authority + ns_rr_rdlen authority in
  let skip cursor :=
    match ns_name_uncompress (msg_data response) cursor with
    | None => Return tt
    | Some (consumed, _) => if (consumed <=? 0) || (rdata_end - cursor <? consumed) then Return tt else Next (cursor + consumed)
    end in
  cursor ← skip (ns_rr_rdata authority);
  cursor ← skip cursor;
  if negb (rdata_end - cursor =? 20) then Return tt else
  values ← rdn (msg_data response) cursor 20;
  let minimum := ntohl (slice values 16 4) in
  let record_ttl := ns_rr_ttl authority in
  match dns_name_normalize (Some (ns_rr_name authority)) NS_MAXDNAME with
  | None => Return tt
  | Some owner => Next {| n_effective_ttl := if minimum <? record_ttl then minimum else record_ttl; n_minimum := minimum; n_owner := owner;
                          n_record_ttl := record_ttl; n_valid := true |}
  end.

(** The record kept of [result] and another one of the same or of a longer owner. *)
Definition negative_merge (result candidate : dns_negative_record) : dns_negative_record :=
  if negb (n_valid result) || (len (n_owner result) <? len (n_owner candidate)) then candidate else
  if bool_decide (n_owner candidate = n_owner result) then
    let minimum := if n_minimum candidate <? n_minimum result then n_minimum candidate else n_minimum result in
    let record_ttl := if n_record_ttl candidate <? n_record_ttl result then n_record_ttl candidate else n_record_ttl result in
    {| n_effective_ttl := if minimum <? record_ttl then minimum else record_ttl; n_minimum := minimum; n_owner := n_owner result;
       n_record_ttl := record_ttl; n_valid := n_valid result |}
  else result.

Fixpoint negative_loop (response : ns_msg) (canonical_name : bytes) (indexes : list nat) (result : dns_negative_record)
    : run dns_negative_parse_status dns_negative_record :=
  match indexes with
  | [] => Next result
  | i :: indexes =>
      match ns_parserr response ns_s_ns (Z.of_nat i) with
      | None => Return DNS_NEGATIVE_PARSE_MALFORMED
      | Some authority =>
          if negb (ns_rr_class authority =? ns_c_in) || negb (ns_rr_type authority =? ns_t_soa)
          then negative_loop response canonical_name indexes result else
          candidate ← catch (dns_negative_record_parse response authority) (const DNS_NEGATIVE_PARSE_MALFORMED);
          if negb (resolver_name_encloses (Some (n_owner candidate)) (Some canonical_name))
          then negative_loop response canonical_name indexes result
          else negative_loop response canonical_name indexes (negative_merge result candidate)
      end
  end.

Definition dns_negative_response_parse (response : ns_msg) (canonical_name : bytes) (cnames : list dns_cname_record) (result : dns_negative_record)
    : run dns_negative_parse_status dns_negative_record :=
  let authority_count := ns_msg_count response ns_s_ns in
  if DNS_AUTHORITY_RECORD_LIMIT <? authority_count then Return DNS_NEGATIVE_PARSE_LIMIT else
  result ← negative_loop response canonical_name (seq 0 (Z.to_nat authority_count)) result;
  let cname_ttl := dns_cname_ttl_min cnames in
  Next (if n_valid result && (cname_ttl <? n_effective_ttl result)
        then {| n_effective_ttl := cname_ttl; n_minimum := n_minimum result; n_owner := n_owner result; n_record_ttl := n_record_ttl result;
                n_valid := n_valid result |}
        else result).

(** ** Candidates *)

(** [array[count++] = x] in an array of [capacity] elements. *)
Definition array_push {A E} (capacity : Z) (l : list A) (x : A) : run E (list A) := if len l <? capacity then Next (l ++ [x]) else Oob.

Definition address_type (family : Z) : Z := if family =? AF_INET then ns_t_a else ns_t_aaaa.
Definition address_size (family : Z) : Z := if family =? AF_INET then 4 else 16.

(** One answer of the loops that collect: what it adds to the records, or to the aliases. *)
Definition collect_cname {A} (capacity : Z) (response : ns_msg) (answer : ns_rr) (records : list A) (cnames : list dns_cname_record)
    : run dns_parse_status (list A * list dns_cname_record) :=
  if ns_rr_type answer =? ns_t_cname then
    match dns_name_record_parse response answer with
    | None => Return DNS_PARSE_MALFORMED
    | Some c => cnames ← array_push capacity cnames c; Next (records, cnames)
    end
  else Next (records, cnames).

Definition collect_address (family capacity : Z) (response : ns_msg) (answer : ns_rr) (addresses : list dns_address_candidate)
    (cnames : list dns_cname_record) : run dns_parse_status (list dns_address_candidate * list dns_cname_record) :=
  if ns_rr_type answer =? address_type family then
    if negb (ns_rr_rdlen answer =? address_size family) || rdata_outside response (ns_rr_rdata answer) (address_size family)
    then Return DNS_PARSE_MALFORMED else
    address ← rdn (msg_data response) (ns_rr_rdata answer) (address_size family);
    match dns_name_normalize (Some (ns_rr_name answer)) NS_MAXDNAME with
    | None => Return DNS_PARSE_MALFORMED
    | Some owner =>
        addresses ← array_push capacity addresses
          {| ac_address := {| family := family; err := NET_OK; addr := address |}; ac_owner := owner; ac_ttl := ns_rr_ttl answer |};
        Next (addresses, cnames)
    end
  else collect_cname capacity response answer addresses cnames.

Definition ntohs (b : bytes) : Z := ntohl b.

Definition collect_srv (capacity : Z) (response : ns_msg) (answer : ns_rr) (records : list dns_srv_candidate)
    (cnames : list dns_cname_record) : run dns_parse_status (list dns_srv_candidate * list dns_cname_record) :=
  if ns_rr_type answer =? ns_t_srv then
    let rdata := ns_rr_rdata answer in
    let rdata_size := ns_rr_rdlen answer in
    if (rdata_size <? 7) || rdata_outside response rdata rdata_size then Return DNS_PARSE_MALFORMED else
    match ns_name_uncompress (msg_data response) (rdata + 6) with
    | None => Return DNS_PARSE_MALFORMED
    | Some (consumed, target) =>
        if (consumed <=? 0) || negb (consumed =? rdata_size - 6) then Return DNS_PARSE_MALFORMED else
        priority ← rdn (msg_data response) rdata 2;
        weight ← rdn (msg_data response) (rdata + 2) 2;
        port ← rdn (msg_data response) (rdata + 4) 2;
        match dns_name_normalize (Some (ns_rr_name answer)) NS_MAXDNAME, dns_name_normalize (Some target) NS_MAXDNAME with
        | Some owner, Some target =>
            records ← array_push capacity records
              {| sc_owner := owner; sc_port := ntohs port; sc_priority := ntohs priority; sc_target := target; sc_ttl := ns_rr_ttl answer;
                 sc_weight := ntohs weight |};
            Next (records, cnames)
        | _, _ => Return DNS_PARSE_MALFORMED
        end
    end
  else collect_cname capacity response answer records cnames.

(** The loop over the answers. *)
Fixpoint collect_loop {A} (collect : ns_rr -> list A -> list dns_cname_record -> run dns_parse_status (list A * list dns_cname_record))
    (response : ns_msg) (indexes : list nat) (records : list A) (cnames : list dns_cname_record)
    : run dns_parse_status (list A * list dns_cname_record) :=
  match indexes with
  | [] => Next (records, cnames)
  | i :: indexes =>
      match ns_parserr response ns_s_an (Z.of_nat i) with
      | None => Return DNS_PARSE_MALFORMED
      | Some answer =>
          if negb (ns_rr_class answer =? ns_c_in) then collect_loop collect response indexes records cnames else
          '(records, cnames) ← collect answer records cnames;
          collect_loop collect response indexes records cnames
      end
  end.

(** ** The alias chain of a response *)

(** The first alias of [current_name] and the least lifetime of all of them, which must
    agree on the target. *)
Fixpoint matching_cnames (current_name : bytes) (cnames : list dns_cname_record) (found : option dns_cname_record) (ttl : Z)
    : run dns_parse_status (option dns_cname_record * Z) :=
  match cnames with
  | [] => Next (found, ttl)
  | c :: cnames =>
      if negb (dns_name_equal (Some (c_owner c)) (Some current_name)) then matching_cnames current_name cnames found ttl else
      if match found with Some f => negb (dns_name_equal (Some (c_target f)) (Some (c_target c))) | None => false end
      then Return DNS_PARSE_MALFORMED else
      matching_cnames current_name cnames (match found with Some f => Some f | None => Some c end) (if c_ttl c <? ttl then c_ttl c else ttl)
  end.

Definition owned_by (current_name owner : bytes) : bool := dns_name_equal (Some owner) (Some current_name).

(** The loop: [owners] are those of the records.  It needs at most [DNS_CNAME_DEPTH_LIMIT + 1] rounds. *)
Fixpoint chain_loop (fuel : nat) (owners : list bytes) (cnames : list dns_cname_record) (current_name : bytes)
    (chain : list dns_cname_record) (chain_ttl : Z) : run dns_parse_status (bytes * list dns_cname_record * Z) :=
  match fuel with
  | O => Oob
  | S fuel =>
      let matching_record := existsb (owned_by current_name) owners in
      '(matching_cname, matching_ttl) ← matching_cnames current_name cnames None UINT32_MAX;
      match matching_cname with
      | None => Next (current_name, chain, chain_ttl)
      | Some c =>
          if matching_record || (len chain =? DNS_CNAME_DEPTH_LIMIT)
          then Return (if matching_record then DNS_PARSE_MALFORMED else DNS_PARSE_LIMIT) else
          if existsb (fun r => dns_name_equal (Some (c_owner r)) (Some (c_target c))) chain then Return DNS_PARSE_MALFORMED else
          chain ← array_push DNS_CNAME_DEPTH_LIMIT chain {| c_owner := c_owner c; c_target := c_target c; c_ttl := matching_ttl |};
          chain_loop fuel owners cnames (c_target c) chain (if matching_ttl <? chain_ttl then matching_ttl else chain_ttl)
      end
  end.
Definition chain_fuel : nat := S (Z.to_nat DNS_CNAME_DEPTH_LIMIT).

(** What is looked for in a response: the fields both kinds of results have, and their
    records. *)
Record dns_result (R : Type) := {
  d_question : bytes; d_canonical : bytes; d_cnames : option (list dns_cname_record); d_negative : dns_negative_record; d_rcode : Z;
  d_records : option (list R);
}.
#[global] Arguments d_question {R} _.
#[global] Arguments d_canonical {R} _.
#[global] Arguments d_cnames {R} _.
#[global] Arguments d_negative {R} _.
#[global] Arguments d_rcode {R} _.
#[global] Arguments d_records {R} _.
Definition dns_result_zero {R} : dns_result R :=
  {| d_question := []; d_canonical := []; d_cnames := None; d_negative := dns_negative_record_zero; d_rcode := 0; d_records := None |}.

(** A kind of records: the type and the limit of a query, the step that collects
    candidates, their owners, the record made of one under a chain's lifetime, and the
    lifetime of a record lowered to a chain's. *)
Record record_kind (A R : Type) := {
  k_type : Z; k_limit : Z;
  k_collect : Z -> ns_msg -> ns_rr -> list A -> list dns_cname_record -> run dns_parse_status (list A * list dns_cname_record);
  k_owner : A -> bytes; k_record : Z -> A -> R; k_lower : Z -> R -> R;
}.
#[global] Arguments k_type {A R} _.
#[global] Arguments k_limit {A R} _.
#[global] Arguments k_collect {A R} _.
#[global] Arguments k_owner {A R} _.
#[global] Arguments k_record {A R} _.
#[global] Arguments k_lower {A R} _.

Definition address_kind (family : Z) : record_kind dns_address_candidate dns_address_record := {|
  k_type := address_type family; k_limit := DNS_ADDRESS_RECORD_LIMIT; k_collect := collect_address family; k_owner := ac_owner;
  k_record chain_ttl a := {| a_address := ac_address a; a_effective_ttl := if chain_ttl <? ac_ttl a then chain_ttl else ac_ttl a; a_record_ttl := ac_ttl a |};
  k_lower chain_ttl r := if chain_ttl <? a_effective_ttl r
    then {| a_address := a_address r; a_effective_ttl := chain_ttl; a_record_ttl := a_record_ttl r |} else r |}.
Definition srv_kind : record_kind dns_srv_candidate dns_srv_record := {|
  k_type := ns_t_srv; k_limit := DNS_SRV_RECORD_LIMIT; k_collect := collect_srv; k_owner := sc_owner;
  k_record chain_ttl a := {| r_priority := sc_priority a; r_weight := sc_weight a; r_port := sc_port a; r_target := sc_target a;
    r_record_ttl := sc_ttl a; r_effective_ttl := if chain_ttl <? sc_ttl a then chain_ttl else sc_ttl a |};
  k_lower chain_ttl r := if chain_ttl <? r_effective_ttl r
    then {| r_priority := r_priority r; r_weight := r_weight r; r_port := r_port r; r_target := r_target r; r_record_ttl := r_record_ttl r;
            r_effective_ttl := chain_ttl |} else r |}.

(** The status and the result; [Return] leaves with an error and the caller clears the result. *)
Definition chain_build {A R} (k : record_kind A R) (alloc : parse_alloc) (records : list A) (cnames : list dns_cname_record)
    (result : dns_result R) : run dns_parse_status (dns_parse_status * dns_result R) :=
  if negb (len cnames =? 0) && negb (al_chain alloc) then Return DNS_PARSE_MEMORY else
  '(current_name, chain, chain_ttl) ← chain_loop chain_fuel (k_owner k <$> records) cnames (d_question result) [] UINT32_MAX;
  let with_records r := {| d_question := d_question result; d_canonical := current_name; d_cnames := if len cnames =? 0 then None else Some chain;
    d_negative := d_negative result; d_rcode := d_rcode result; d_records := r |} in
  let matching := List.filter (fun a => owned_by current_name (k_owner k a)) records in
  if len matching =? 0 then Next (if len chain =? 0 then DNS_PARSE_NODATA else DNS_PARSE_ALIAS_ONLY, with_records None) else
  if negb (al_records alloc) then Return DNS_PARSE_MEMORY else
  Next (DNS_PARSE_OK, with_records (Some (map (k_record k chain_ttl) matching))).

(** The arrays of candidates have [answer_count] elements each. *)
Definition records_collect {A R} (k : record_kind A R) (response : ns_msg) : run dns_parse_status (list A * list dns_cname_record) :=
  let answer_count := ns_msg_count response ns_s_an in
  collect_loop (k_collect k answer_count response) response (seq 0 (Z.to_nat answer_count)) [] [].

(** ** Responses *)

(** The message and its question, after the checks both parsers begin with. *)
Definition response_open (message : option bytes) (expected_name : option bytes) (expected_id question_type : Z)
    : run dns_parse_status (ns_msg * bytes) :=
  match message, expected_name with
  | Some message, Some expected_name =>
      if INT_MAX <? len message then Return DNS_PARSE_BAD_ARGUMENT else
      match ns_initparse message with
      | None => Return DNS_PARSE_MALFORMED
      | Some response =>
          if negb (ns_msg_id response =? expected_id) then Return DNS_PARSE_MALFORMED else
          if negb (ns_f_qr response) || negb (ns_f_opcode response =? ns_o_query) || negb (ns_msg_count response ns_s_qd =? 1)
          then Return DNS_PARSE_MALFORMED else
          if ns_f_tc response then Return DNS_PARSE_TRUNCATED else
          match ns_parserr response ns_s_qd 0 with
          | None => Return DNS_PARSE_MALFORMED
          | Some question =>
              if negb (ns_rr_class question =? ns_c_in) || negb (ns_rr_type question =? question_type) then Return DNS_PARSE_MALFORMED else
              match dns_name_normalize (Some (ns_rr_name question)) NS_MAXDNAME with
              | None => Return DNS_PARSE_MALFORMED
              | Some question_name =>
                  if negb (dns_name_equal (Some question_name) (Some expected_name)) then Return DNS_PARSE_MALFORMED
                  else Next (response, question_name)
              end
          end
      end
  | _, _ => Return DNS_PARSE_BAD_ARGUMENT
  end.

(** The negative record of a response without records, and its status. *)
Definition negative_finish (response : ns_msg) (status : dns_parse_status) (rcode : Z) (canonical_name : bytes) (cnames : list dns_cname_record)
    (negative : dns_negative_record) : run dns_parse_status (dns_parse_status * dns_negative_record) :=
  let negative_parse status :=
    n ← catch (dns_negative_response_parse response canonical_name cnames negative)
          (fun e => match e with DNS_NEGATIVE_PARSE_LIMIT => DNS_PARSE_LIMIT | _ => DNS_PARSE_MALFORMED end);
    Next (status, n) in
  if rcode =? ns_r_nxdomain then
    match status with
    | DNS_PARSE_OK => Return DNS_PARSE_MALFORMED
    | DNS_PARSE_ALIAS_ONLY | DNS_PARSE_NODATA => negative_parse DNS_PARSE_NXDOMAIN
    | _ => Next (status, negative)
    end
  else match status with DNS_PARSE_NODATA => negative_parse status | _ => Next (status, negative) end.

(** The status with the result; an error leaves the cleared result. *)
Definition parsed {A} (zero : A) (r : run dns_parse_status (dns_parse_status * A)) : option (dns_parse_status * A) :=
  match r with Next p => Some p | Return e => Some (e, zero) | Oob => None end.

(** Both parsers, into an empty result. *)
Definition response_parse {A R} (k : record_kind A R) (alloc : parse_alloc) (message expected_name : option bytes) (expected_id : Z)
    : option (dns_parse_status * dns_result R) :=
  parsed dns_result_zero (
    '(response, question_name) ← response_open message expected_name expected_id (k_type k);
    let rcode := u8 (ns_f_rcode response) in
    let result := {| d_question := question_name; d_canonical := []; d_cnames := None; d_negative := dns_negative_record_zero; d_rcode := rcode;
                     d_records := None |} in
    if negb (rcode =? ns_r_noerror) && negb (rcode =? ns_r_nxdomain) then Next (DNS_PARSE_RCODE_ERROR, result) else
    let answer_count := ns_msg_count response ns_s_an in
    if k_limit k <? answer_count then Return DNS_PARSE_LIMIT else
    if (0 <? answer_count) && (negb (al_candidates alloc) || negb (al_cnames alloc)) then Return DNS_PARSE_MEMORY else
    '(records, cnames) ← records_collect k response;
    '(status, result) ← chain_build k alloc records cnames result;
    '(status, negative) ← negative_finish response status rcode (d_canonical result) (default [] (d_cnames result)) (d_negative result);
    Next (status, {| d_question := d_question result; d_canonical := d_canonical result; d_cnames := d_cnames result; d_negative := negative;
                     d_rcode := d_rcode result; d_records := d_records result |})).

Definition to_address_result (r : dns_result dns_address_record) : dns_address_result := {|
  ar_addresses := d_records r; ar_canonical_name := d_canonical r; ar_cnames := d_cnames r; ar_negative := d_negative r;
  ar_question_name := d_question r; ar_rcode := d_rcode r |}.
Definition to_srv_result (r : dns_result dns_srv_record) : dns_srv_result := {|
  sr_canonical_name := d_canonical r; sr_cnames := d_cnames r; sr_negative := d_negative r; sr_question_name := d_question r;
  sr_rcode := d_rcode r; sr_records := d_records r |}.

Definition dns_address_response_parse (alloc : parse_alloc) (message expected_name : option bytes) (expected_id family : Z)
    (result : option dns_address_result) : option (dns_parse_status * option dns_address_result) :=
  match result with
  | None => Some (DNS_PARSE_BAD_ARGUMENT, None)
  | Some result =>
      if (negb (family =? AF_INET) && negb (family =? AF_INET6)) || negb (dns_address_result_empty result)
      then Some (DNS_PARSE_BAD_ARGUMENT, Some result) else
      '(status, r) ← response_parse (address_kind family) alloc message expected_name expected_id; Some (status, Some (to_address_result r))
  end.

Definition dns_srv_response_parse (alloc : parse_alloc) (message expected_name : option bytes) (expected_id : Z)
    (result : option dns_srv_result) : option (dns_parse_status * option dns_srv_result) :=
  match result with
  | None => Some (DNS_PARSE_BAD_ARGUMENT, None)
  | Some result =>
      if negb (dns_srv_result_empty result) then Some (DNS_PARSE_BAD_ARGUMENT, Some result) else
      '(status, r) ← response_parse srv_kind alloc message expected_name expected_id; Some (status, Some (to_srv_result r))
  end.

(** ** Lookups *)

Definition NS_MAXMSG : Z := 65535.
Definition NS_PACKETSZ : Z := 512.
Definition DNS_QUERY_ATTEMPT_LIMIT : Z := 1.
Definition DNS_QUERY_RETRANSMIT_TIMEOUT_SEC : Z := 2.
Definition EPERM : Z := 1.
Definition ESRCH : Z := 3.
Definition EACCES : Z := 13.
Definition EMSGSIZE : Z := 90.
Definition EPROTONOSUPPORT : Z := 93.
Definition EAFNOSUPPORT : Z := 97.

Inductive dns_query_exact_status :=
  | DNS_QUERY_EXACT_OK | DNS_QUERY_EXACT_MEMORY | DNS_QUERY_EXACT_MALFORMED | DNS_QUERY_EXACT_PERMANENT_ERROR | DNS_QUERY_EXACT_TEMPORARY_ERROR.

(** What libresolv answers to one query: the size [res_nmkquery] returns and the query,
    the result of [res_nsend] with [errno] and the response; and whether the allocations
    made for it succeed. *)
Record query_answer := {
  qa_query_size : Z; qa_query : bytes; qa_result : Z; qa_errno : Z; qa_response : bytes; qa_alloc : parse_alloc; qa_append : bool;
}.

(** The status, the response size and the query id. *)
Definition dns_query_exact (answer : query_answer) : dns_query_exact_status * Z * Z :=
  if (qa_query_size answer <=? 0) || (NS_PACKETSZ <? qa_query_size answer) then (DNS_QUERY_EXACT_PERMANENT_ERROR, 0, 0) else
  let query_id := ntohs (take 2 (qa_query answer)) in
  if qa_result answer <=? 0 then
    let e := qa_errno answer in
    (if e =? ENOMEM then DNS_QUERY_EXACT_MEMORY else
     if e =? EMSGSIZE then DNS_QUERY_EXACT_MALFORMED else
     if (e =? ESRCH) || (e =? EINVAL) || (e =? EAFNOSUPPORT) || (e =? EPROTONOSUPPORT) || (e =? EACCES) || (e =? EPERM)
     then DNS_QUERY_EXACT_PERMANENT_ERROR else DNS_QUERY_EXACT_TEMPORARY_ERROR, 0, query_id)
  else (DNS_QUERY_EXACT_OK, qa_result answer, query_id).

(** [retry] and [retrans] as [res_ninit] sets them, [None] when it fails. *)
Definition dns_resolver_init (init : option (Z * Z)) : option (Z * Z) :=
  '(retry, retrans) ← init;
  Some (if DNS_QUERY_ATTEMPT_LIMIT <? retry then DNS_QUERY_ATTEMPT_LIMIT else retry,
        if DNS_QUERY_RETRANSMIT_TIMEOUT_SEC <? retrans then DNS_QUERY_RETRANSMIT_TIMEOUT_SEC else retrans).

(** The loops of the append: an alias that leads back into the chain is refused. *)
Fixpoint append_cnames (target source : list dns_cname_record) (chain_ttl : Z) : run dns_lookup_status (list dns_cname_record * Z) :=
  match source with
  | [] => Next (target, chain_ttl)
  | c :: source =>
      if existsb (fun t => dns_name_equal (Some (c_owner t)) (Some (c_target c))) target then Return DNS_LOOKUP_MALFORMED else
      target ← array_push DNS_CNAME_DEPTH_LIMIT target c;
      append_cnames target source (if c_ttl c <? chain_ttl then c_ttl c else chain_ttl)
  end.

(** [Return] leaves with an error; the lookup then clears the target. *)
Definition chain_append {R} (alloc : bool) (target source : dns_result R) (chain_ttl : Z) : run dns_lookup_status (dns_result R * Z) :=
  let first := bool_decide (d_question target = []) in
  if negb first && negb (dns_name_equal (Some (d_canonical target)) (Some (d_question source))) then Return DNS_LOOKUP_MALFORMED else
  let cnames := default [] (d_cnames source) in
  if DNS_CNAME_DEPTH_LIMIT - count_of (d_cnames target) <? len cnames then Return DNS_LOOKUP_LIMIT else
  if (0 <? len cnames) && bool_decide (d_cnames target = None) && negb alloc then Return DNS_LOOKUP_MEMORY else
  '(chain, chain_ttl) ← append_cnames (default [] (d_cnames target)) cnames chain_ttl;
  Next ({| d_question := if first then d_question source else d_question target; d_canonical := d_canonical source;
           d_cnames := if bool_decide (d_cnames target = None) && (len cnames =? 0) then None else Some chain;
           d_negative := d_negative target; d_rcode := d_rcode source; d_records := d_records target |}, chain_ttl).

Definition dns_lookup_parse_status (parse_status : dns_parse_status) (rcode : Z) : dns_lookup_status :=
  match parse_status with
  | DNS_PARSE_OK | DNS_PARSE_ALIAS_ONLY => DNS_LOOKUP_OK
  | DNS_PARSE_NODATA => DNS_LOOKUP_NODATA
  | DNS_PARSE_NXDOMAIN => DNS_LOOKUP_NOT_FOUND
  | DNS_PARSE_RCODE_ERROR => if rcode =? ns_r_servfail then DNS_LOOKUP_TEMPORARY_ERROR else DNS_LOOKUP_PERMANENT_ERROR
  | DNS_PARSE_TRUNCATED => DNS_LOOKUP_TRUNCATED
  | DNS_PARSE_BAD_ARGUMENT => DNS_LOOKUP_BAD_ARGUMENT
  | DNS_PARSE_LIMIT => DNS_LOOKUP_LIMIT
  | DNS_PARSE_MALFORMED => DNS_LOOKUP_MALFORMED
  | DNS_PARSE_MEMORY => DNS_LOOKUP_MEMORY
  end.

Definition dns_lookup_status_keeps_result (status : dns_lookup_status) : bool :=
  match status with
  | DNS_LOOKUP_OK | DNS_LOOKUP_NODATA | DNS_LOOKUP_NOT_FOUND | DNS_LOOKUP_PERMANENT_ERROR | DNS_LOOKUP_TEMPORARY_ERROR => true
  | _ => false
  end.

(** [aggregate] with other fields. *)
Definition with_negative {R} (r : dns_result R) (n : dns_negative_record) : dns_result R :=
  {| d_question := d_question r; d_canonical := d_canonical r; d_cnames := d_cnames r; d_negative := n; d_rcode := d_rcode r; d_records := d_records r |}.
Definition with_rcode {R} (r : dns_result R) (rcode : Z) : dns_result R :=
  {| d_question := d_question r; d_canonical := d_canonical r; d_cnames := d_cnames r; d_negative := d_negative r; d_rcode := rcode; d_records := d_records r |}.
Definition with_found {R} (r : dns_result R) (records : option (list R)) : dns_result R :=
  {| d_question := d_question r; d_canonical := d_canonical r; d_cnames := d_cnames r; d_negative := d_negative r; d_rcode := d_rcode r; d_records := records |}.

(** What a round does: leave the loop with a status, or go on with the next name. *)
Inductive round (R : Type) :=
  | Leave (status : dns_lookup_status) (aggregate : dns_result R) | Again (query_name : bytes) (aggregate : dns_result R) (chain_ttl : Z).
#[global] Arguments Leave {R} _ _.
#[global] Arguments Again {R} _ _ _.

(** An append that fails leaves the loop. *)
Definition appended {R} (aggregate : dns_result R) (r : run dns_lookup_status (dns_result R * Z)) (k : dns_result R -> Z -> round R) : option (round R) :=
  match r with
  | Oob => None
  | Return status => Some (Leave status aggregate)
  | Next (aggregate, chain_ttl) => Some (k aggregate chain_ttl)
  end.

Definition lookup_round {A R} (k : record_kind A R) (answer : query_answer) (query_name : bytes) (aggregate : dns_result R) (chain_ttl : Z)
    : option (round R) :=
  match dns_query_exact answer with
  | (DNS_QUERY_EXACT_OK, response_size, query_id) =>
      if NS_MAXMSG <? response_size then Some (Leave DNS_LOOKUP_TRUNCATED aggregate) else
      '(parse_status, partial) ← response_parse k (qa_alloc answer) (Some (take (Z.to_nat response_size) (qa_response answer))) (Some query_name) query_id;
      if negb (bool_decide (d_question partial = [])) && negb (dns_name_equal (Some (d_question partial)) (Some query_name))
      then Some (Leave DNS_LOOKUP_MALFORMED aggregate) else
      let lookup_status := dns_lookup_parse_status parse_status (d_rcode partial) in
      match parse_status with
      | DNS_PARSE_NODATA | DNS_PARSE_NXDOMAIN =>
          appended aggregate (chain_append (qa_append answer) aggregate partial chain_ttl) (fun aggregate chain_ttl =>
            let n := d_negative partial in
            Leave lookup_status (with_negative aggregate (if n_valid n && (chain_ttl <? n_effective_ttl n)
              then {| n_effective_ttl := chain_ttl; n_minimum := n_minimum n; n_owner := n_owner n; n_record_ttl := n_record_ttl n; n_valid := n_valid n |}
              else n)))
      | DNS_PARSE_OK | DNS_PARSE_ALIAS_ONLY =>
          appended aggregate (chain_append (qa_append answer) aggregate partial chain_ttl) (fun aggregate chain_ttl =>
            match parse_status with
            | DNS_PARSE_OK => Leave DNS_LOOKUP_OK (with_found aggregate (map (k_lower k chain_ttl) <$> d_records partial))
            | _ => Again (d_canonical aggregate) aggregate chain_ttl
            end)
      | _ =>
          Some (Leave lookup_status (if dns_lookup_status_keeps_result lookup_status
            then if bool_decide (d_question aggregate = []) then partial else with_rcode aggregate (d_rcode partial)
            else aggregate))
      end
  | (query_status, _, _) =>
      Some (Leave (match query_status with
        | DNS_QUERY_EXACT_MEMORY => DNS_LOOKUP_MEMORY
        | DNS_QUERY_EXACT_MALFORMED => DNS_LOOKUP_MALFORMED
        | DNS_QUERY_EXACT_PERMANENT_ERROR => DNS_LOOKUP_PERMANENT_ERROR
        | _ => DNS_LOOKUP_TEMPORARY_ERROR
        end) aggregate)
  end.

(** [res i name]: the answer to the query of round [i] for [name]. *)
Fixpoint lookup_loop {A R} (k : record_kind A R) (fuel : nat) (res : nat -> bytes -> query_answer) (i : nat) (query_name : bytes)
    (aggregate : dns_result R) (chain_ttl : Z) : option (dns_lookup_status * dns_result R) :=
  match fuel with
  | O => None
  | S fuel =>
      r ← lookup_round k (res i query_name) query_name aggregate chain_ttl;
      match r with
      | Leave status aggregate => Some (status, if dns_lookup_status_keeps_result status then aggregate else dns_result_zero)
      | Again query_name aggregate chain_ttl => lookup_loop k fuel res (S i) query_name aggregate chain_ttl
      end
  end.
(** Each further round adds an alias to the chain. *)
Definition lookup_fuel : nat := S (Z.to_nat DNS_CNAME_DEPTH_LIMIT).

(** [init]: what [res_ninit] answers; [alloc]: the allocation of the response buffer. *)
Definition lookup {A R} (k : record_kind A R) (init : option (Z * Z)) (alloc : bool) (res : nat -> bytes -> query_answer) (name : bytes)
    : option (dns_lookup_status * dns_result R) :=
  match dns_resolver_init init with
  | None => Some (DNS_LOOKUP_PERMANENT_ERROR, dns_result_zero)
  | Some _ =>
      if negb alloc then Some (DNS_LOOKUP_MEMORY, dns_result_zero)
      else lookup_loop k lookup_fuel res 0 name dns_result_zero UINT32_MAX
  end.

Definition dns_address_lookup (init : option (Z * Z)) (alloc : bool) (res : nat -> bytes -> query_answer) (hostname : option bytes) (family : Z)
    (result : option dns_address_result) : option (dns_lookup_status * option dns_address_result) :=
  match hostname, result with
  | Some hostname, Some result =>
      if bool_decide (hostname = []) || (NS_MAXDNAME <=? len hostname) || (negb (family =? AF_INET) && negb (family =? AF_INET6))
         || negb (dns_address_result_empty result) then Some (DNS_LOOKUP_BAD_ARGUMENT, Some result) else
      '(status, r) ← lookup (address_kind family) init alloc res hostname; Some (status, Some (to_address_result r))
  | _, _ => Some (DNS_LOOKUP_BAD_ARGUMENT, result)
  end.

Definition dns_srv_lookup (init : option (Z * Z)) (alloc : bool) (res : nat -> bytes -> query_answer) (query_name : option bytes)
    (result : option dns_srv_result) : option (dns_lookup_status * option dns_srv_result) :=
  match query_name, result with
  | Some query_name, Some result =>
      if bool_decide (query_name = []) || (NS_MAXDNAME <=? len query_name) || negb (dns_srv_result_empty result)
      then Some (DNS_LOOKUP_BAD_ARGUMENT, Some result) else
      '(status, r) ← lookup srv_kind init alloc res query_name; Some (status, Some (to_srv_result r))
  | _, _ => Some (DNS_LOOKUP_BAD_ARGUMENT, result)
  end.

(** ** The two copies of the generic routines *)

Definition dns_response_chain_build (family : Z) := chain_build (address_kind family).
Definition dns_srv_response_chain_build := chain_build srv_kind.
Definition dns_response_addresses_collect (family : Z) := records_collect (address_kind family).
Definition dns_srv_response_records_collect := records_collect srv_kind.
Definition dns_lookup_chain_append := @chain_append dns_address_record.
Definition dns_srv_lookup_chain_append := @chain_append dns_srv_record.
Definition dns_srv_lookup_parse_status := dns_lookup_parse_status.
Definition dns_srv_lookup_status_keeps_result := dns_lookup_status_keeps_result.

End parser.
