(* ===== verification/DnsCoherent.v ===== *)
(** * What a lookup finds ([src/src/resolver/dns.c])

    Proofs on [Dns]: names, the memory safety of the parsers, the alias chains they
    build, and that a lookup ends with a result that is the coherent answer the response
    assembler expects. *)

From S2P Require Import Prelude Proxy TimeUtil ResolverUtil Cache Ipc IpcAssembly Dns.

(** ** Names *)

(** A name as the resolver keeps it. *)
Definition normal (name : bytes) : Prop := resolver_name_normalize (Some name) = Some name /\ is_cstr name.

Lemma normal_shape n : normal n -> 0 < len n < NS_MAXDNAME /\ (chr_lower <$> n) = n /\ (1 < len n -> n !! Z.to_nat (len n - 1) <> Some 46).
Proof. intros [Hn _]. by eapply normalize_shape. Qed.

Lemma normal_normalized n : normal n -> resolver_ipc_assembly_name_normalized n = true.
Proof. intros [Hn _]. by apply bool_decide_eq_true. Qed.

Lemma normal_valid n : normal n -> valid_name n.
Proof. intros Hn. split; [apply Hn|]. pose proof (normal_shape _ Hn). lia. Qed.

Lemma normal_length n : normal n -> length_without_dot n = len n.
Proof.
  intros Hn. pose proof (normal_shape _ Hn) as (Hl & _ & Hd). unfold length_without_dot. if_as E; [|done]. apply andb_true_iff in E as [E1 E2].
  apply bool_decide_eq_true in E2. by apply Hd in E2; [|lia].
Qed.

Lemma lower_cstr n : is_cstr n -> is_cstr (chr_lower <$> n).
Proof.
  intros H. apply Forall_fmap. revert H. apply Forall_impl. intros c Hc. cbn. unfold chr_lower, chr_upper. if_as E; lia.
Qed.

(** The two normalisations agree on names in presentation format. *)
Lemma normalize_presentation n : presentation n -> exists t, dns_name_normalize (Some n) NS_MAXDNAME = Some t /\ normal t /\
  resolver_name_normalize (Some n) = Some t.
Proof.
  intros (Hc & Hl & Hd). set (t := chr_lower <$> take (Z.to_nat (length_without_dot n)) n). exists t.
  assert (Hlen : length_without_dot n <= len n) by (unfold length_without_dot; if_as E; lia).
  assert (Hr : resolver_name_normalize (Some n) = Some t).
  { unfold resolver_name_normalize. rewrite Z.min_l by lia. if_as E0; [lia|]. clear E0. unfold t, length_without_dot.
    destruct ((1 <? len n) && bool_decide (n !! Z.to_nat (len n - 1) = Some 46)) eqn:E; [|done]. apply andb_true_iff in E as [E1 E2].
    apply bool_decide_eq_true in E2. cbn [andb]. rewrite bool_decide_eq_false_2; [done|]. intros H. apply Hd; [lia|]. split; [done|].
    by replace (len n - 2) with (len n - 1 - 1) by lia. }
  unfold dns_name_normalize. change (NS_MAXDNAME =? 0) with false. cbn [negb]. if_as E; [lia|]. split; [done|]. split; [|done].
  split; [by eapply normalize_idem|]. apply lower_cstr. by apply Forall_take.
Qed.

Lemma zip_equal (l k : bytes) : length l = length k ->
  forallb (fun '(x, y) => chr_lower x =? chr_lower y) (zip l k) = bool_decide ((chr_lower <$> l) = (chr_lower <$> k)).
Proof.
  revert k. induction l as [|x l IH]; intros [|y k] Hl; try done. cbn [zip zip_with forallb fmap list_fmap]. rewrite IH by (cbn in Hl; lia).
  transitivity (bool_decide (chr_lower x = chr_lower y /\ (chr_lower <$> l) = (chr_lower <$> k))); [|apply bool_decide_ext; split; [intros [H1 H2]; by f_equal|by intros [= H1 H2]]].
  rewrite bool_decide_and. f_equal. destruct (Z.eqb_spec (chr_lower x) (chr_lower y)); [by rewrite bool_decide_eq_true_2|by rewrite bool_decide_eq_false_2].
Qed.

Lemma normalize_length n h : resolver_name_normalize (Some n) = Some h -> 0 < len n < NS_MAXDNAME.
Proof.
  unfold resolver_name_normalize. cbn zeta. destruct ((Z.min (len n) NS_MAXDNAME =? 0) || (Z.min (len n) NS_MAXDNAME =? NS_MAXDNAME)) eqn:E; [done|].
  intros _. unfold NS_MAXDNAME in *. lia.
Qed.

Lemma normalize_normal n h : resolver_name_normalize (Some n) = Some h -> is_cstr n -> normal h.
Proof.
  intros Hn Hc. split; [by eapply normalize_idem|]. unfold resolver_name_normalize in Hn. destruct (_ || _) in Hn; [done|].
  revert Hn. cbn zeta. if_as E; [done|]. intros Hn. injection Hn as <-. apply lower_cstr. by apply Forall_take.
Qed.

(** A normal name equals another one exactly when that is its normalisation. *)
Lemma name_equal_normalize q h t : normal q -> resolver_name_normalize (Some h) = Some t -> is_cstr h ->
  dns_name_equal (Some q) (Some h) = bool_decide (q = t).
Proof.
  intros Hq Ht Hh. unfold dns_name_equal. rewrite (normal_length q Hq). pose proof (normal_shape _ Hq) as (Hl & Hlow & _).
  assert (Hht : t = chr_lower <$> take (Z.to_nat (length_without_dot h)) h /\ 0 < length_without_dot h <= len h).
  { unfold resolver_name_normalize in Ht. destruct (_ || _) eqn:E0 in Ht; [done|]. rewrite Z.min_l in * by lia. unfold length_without_dot.
    destruct ((1 <? len h) && bool_decide (h !! Z.to_nat (len h - 1) = Some 46)) eqn:E; cbn [andb] in Ht.
    - case_bool_decide; [done|]. injection Ht as <-. split; [done|]. lia.
    - injection Ht as <-. split; [done|]. lia. }
  destruct Hht as [-> Hhl]. if_as E.
  - symmetry. apply bool_decide_eq_false. intros Heq. assert (Hn : len q = length_without_dot h); [|lia].
    rewrite Heq, length_fmap, length_take. lia.
  - rewrite zip_equal by (rewrite !length_take; lia). apply bool_decide_ext. rewrite take_ge by lia. by rewrite Hlow.
Qed.

Lemma name_equal_normal a b : normal a -> normal b -> dns_name_equal (Some a) (Some b) = bool_decide (a = b).
Proof. intros Ha Hb. apply (name_equal_normalize a b b Ha); apply Hb. Qed.

(** ** Candidates *)

Definition cname_ok (c : dns_cname_record) : Prop := normal (c_owner c) /\ normal (c_target c) /\ 0 <= c_ttl c < 2 ^ 32.

Definition record_ok (rr : ns_rr) : Prop := presentation (ns_rr_name rr) /\ 0 <= ns_rr_ttl rr < 2 ^ 32 /\ 0 <= ns_rr_rdlen rr < 2 ^ 16.

Section parsing.
Context {NS : nameser} {NL : nameser_laws}.

(** What the proofs use of a kind of records: [good] candidates have normal owners and
    make records that [fits] a chain of the given lifetime, also when it is lowered. *)
Record kind_ok {A R} (k : record_kind A R) (good : A -> Prop) (fits : Z -> R -> Prop) : Prop := {
  ko_limit : 0 <= k_limit k <= 128;
  ko_collect : forall capacity response answer records cnames, is_bytes (msg_data response) -> record_ok answer -> Forall good records ->
    Forall cname_ok cnames -> len records < capacity -> len cnames < capacity ->
    match k_collect k capacity response answer records cnames with
    | Next (records', cnames') => Forall good records' /\ Forall cname_ok cnames' /\ len records' <= len records + 1 /\ len cnames' <= len cnames + 1
    | Return e => e = DNS_PARSE_MALFORMED
    | Oob => False
    end;
  ko_owner : forall a, good a -> normal (k_owner k a);
  ko_record : forall ttl a, good a -> 0 <= ttl < 2 ^ 32 -> fits ttl (k_record k ttl a);
  ko_lower : forall ttl ttl' r, fits ttl r -> 0 <= ttl' <= ttl -> fits ttl' (k_lower k ttl' r);
}.

Lemma array_push_next {A E} capacity (l : list A) x : len l < capacity -> array_push (E:=E) capacity l x = Next (l ++ [x]).
Proof. intros Hl. unfold array_push. by replace (len l <? capacity) with true by lia. Qed.

Lemma name_record_ok response answer c : record_ok answer -> dns_name_record_parse response answer = Some c -> cname_ok c.
Proof.
  intros (Hn & Ht & _). unfold dns_name_record_parse. if_as E1; [done|].
  destruct (ns_name_uncompress _ _) as [[consumed target]|] eqn:Eu; [|done]. if_as E2; [done|].
  destruct (normalize_presentation _ Hn) as (o & -> & Ho & _). cbn [mbind option_bind].
  destruct (normalize_presentation _ (uncompress_presentation _ _ _ _ Eu)) as (t & -> & Hg & _). cbn [mbind option_bind]. by intros [= <-].
Qed.

Lemma collect_cname_ok {A} (good : A -> Prop) capacity response answer records cnames : record_ok answer -> Forall good records ->
  Forall cname_ok cnames -> len records < capacity -> len cnames < capacity ->
  match collect_cname capacity response answer records cnames with
  | Next (records', cnames') => Forall good records' /\ Forall cname_ok cnames' /\ len records' <= len records + 1 /\ len cnames' <= len cnames + 1
  | Return e => e = DNS_PARSE_MALFORMED
  | Oob => False
  end.
Proof.
  intros Hr Hg Hc Hl1 Hl2. unfold collect_cname. if_as E; [|split; [done|split; [done|lia]]].
  destruct (dns_name_record_parse response answer) as [c|] eqn:Ep; [|done]. apply name_record_ok in Ep; [|done].
  rewrite array_push_next by done. cbn [mbind run_bind]. split; [done|]. split; [by apply Forall_app; split; [|apply Forall_singleton]|].
  rewrite len_app. cbn [length]. lia.
Qed.

Lemma rdata_inside response off n : rdata_outside response off n = false -> 0 <= n -> 0 <= off /\ off + n <= len (msg_data response).
Proof. unfold rdata_outside. lia. Qed.

Lemma ntohl_range b : is_bytes b -> 0 <= ntohl b < 256 ^ len b.
Proof.
  intros Hb. unfold ntohl. assert (Hgen : forall v n, 0 <= v < 256 ^ Z.of_nat n -> 0 <= foldl (fun v x => v * 256 + x) v b < 256 ^ (Z.of_nat n + len b)).
  { induction Hb as [|x b Hx _ IH]; intros v n Hv; cbn [foldl]; [by rewrite Z.add_0_r|]. rewrite len_cons.
    replace (Z.of_nat n + (1 + len b)) with (Z.of_nat (S n) + len b) by lia. apply IH. unfold is_byte in Hx.
    replace (Z.of_nat (S n)) with (Z.of_nat n + 1) by lia. rewrite Z.pow_add_r by lia. lia. }
  specialize (Hgen 0 0%nat ltac:(lia)). by replace (Z.of_nat 0 + len b) with (len b) in Hgen by lia.
Qed.

(** Addresses. *)

Definition address_good (family : Z) (a : dns_address_candidate) : Prop :=
  normal (ac_owner a) /\ 0 <= ac_ttl a < 2 ^ 32 /\ Proxy.family (ac_address a) = family /\ err (ac_address a) = NET_OK /\
  is_bytes (addr (ac_address a)) /\ len (addr (ac_address a)) = address_size family.
Definition address_found (family chain : Z) (r : dns_address_record) : Prop := address_fits (address_type family) chain r = true /\ address_typed r.

Lemma family_of_type family : family = AF_INET \/ family = AF_INET6 -> family_of_query (address_type family) = family.
Proof. by intros [->| ->]. Qed.

Lemma address_kind_ok family : family = AF_INET \/ family = AF_INET6 -> kind_ok (address_kind family) (address_good family) (address_found family).
Proof.
  intros Hf. assert (Hsz : 0 <= address_size family <= 16) by (unfold address_size; if_as E; lia). split; cbn [address_kind k_limit k_collect k_owner k_record k_lower].
  - unfold DNS_ADDRESS_RECORD_LIMIT. lia.
  - intros capacity response answer records cnames Hb Hr Hg Hc Hl1 Hl2. unfold collect_address. if_as E; [|by apply collect_cname_ok].
    if_as E2; [done|]. apply orb_false_iff in E2 as [E2 E3]. apply rdata_inside in E3 as [E3 E4]; [|lia].
    unfold rdn. replace (_ && _ && _) with true by lia. cbn [mbind run_bind]. destruct Hr as (Hn & Ht & _).
    destruct (normalize_presentation _ Hn) as (o & -> & Ho & _). rewrite array_push_next by done. cbn [mbind run_bind].
    split; [|split; [done|rewrite len_app; cbn [length]; lia]]. apply Forall_app. split; [done|]. apply Forall_singleton.
    do 4 (split; [done|]). cbn [ac_address addr]. split; [by apply is_bytes_slice|]. rewrite len_slice by lia. lia.
  - by intros a [Hn _].
  - intros ttl a (Hn & Ht & Hfa & He & Hb & Hl) Httl. split.
    + unfold address_fits. cbn [a_address a_effective_ttl a_record_ttl]. rewrite Hfa, family_of_type, Z.eqb_refl by done. cbn [andb]. if_as E; lia.
    + cbn [address_typed codec_valid address_codec ra_query_id ra_index ra_record a_address a_effective_ttl a_record_ttl]. rewrite Hfa, He.
      split; [lia|]. split; [unfold DNS_ADDRESS_RECORD_LIMIT; lia|]. split; [done|]. split; [if_as E; lia|]. split; [lia|]. split; [done|].
      unfold address_size in Hl. destruct Hf as [->| ->]; [left|right]; by split.
  - intros ttl ttl' r [Hf1 Hty] Hle. unfold address_fits in Hf1. apply andb_true_iff in Hf1 as [H1 H2].
    destruct Hty as (T1 & T2 & T3 & T4 & T5 & T6). cbn [ra_record] in *. if_as E; (split; [unfold address_fits; cbn [a_address a_effective_ttl a_record_ttl]; lia|]).
    + cbn. do 3 (split; [done|]). split; [lia|]. done.
    + cbn. by do 5 (split; [done|]).
Qed.

(** Services. *)

Definition srv_good (a : dns_srv_candidate) : Prop :=
  normal (sc_owner a) /\ 0 <= sc_ttl a < 2 ^ 32 /\ normal (sc_target a) /\ 0 <= sc_port a < 2 ^ 16 /\ 0 <= sc_priority a < 2 ^ 16 /\ 0 <= sc_weight a < 2 ^ 16.
Definition srv_found (chain : Z) (r : dns_srv_record) : Prop := srv_fits chain r = true /\ srv_typed r.

Lemma srv_kind_ok : kind_ok srv_kind srv_good srv_found.
Proof.
  split; cbn [srv_kind k_limit k_collect k_owner k_record k_lower].
  - unfold DNS_SRV_RECORD_LIMIT. lia.
  - intros capacity response answer records cnames Hb Hr Hg Hc Hl1 Hl2. unfold collect_srv. if_as E; [|by apply collect_cname_ok].
    if_as E2; [done|]. apply orb_false_iff in E2 as [E2 E3]. apply rdata_inside in E3 as [E3 E4]; [|lia].
    destruct (ns_name_uncompress _ _) as [[consumed target]|] eqn:Eu; [|done]. if_as E5; [done|].
    assert (Hrd : forall off, 0 <= off <= 4 -> rdn (E:=dns_parse_status) (msg_data response) (ns_rr_rdata answer + off) 2 =
      Next (slice (msg_data response) (ns_rr_rdata answer + off) 2) /\ 0 <= ntohs (slice (msg_data response) (ns_rr_rdata answer + off) 2) < 2 ^ 16).
    { intros off Ho. unfold rdn. replace (_ && _ && _) with true by lia. split; [done|]. unfold ntohs.
      pose proof (ntohl_range (slice (msg_data response) (ns_rr_rdata answer + off) 2) (is_bytes_slice _ _ _ Hb)) as Hn. rewrite len_slice in Hn by lia.
      by change (256 ^ 2) with (2 ^ 16) in Hn. }
    destruct (Hrd 0 ltac:(lia)) as [R0 V0]. rewrite Z.add_0_r in R0, V0. destruct (Hrd 2 ltac:(lia)) as [R2 V2]. destruct (Hrd 4 ltac:(lia)) as [R4 V4].
    rewrite R0, R2, R4. cbn [mbind run_bind]. destruct Hr as (Hn & Ht & _). destruct (normalize_presentation _ Hn) as (o & -> & Ho & _).
    destruct (normalize_presentation _ (uncompress_presentation _ _ _ _ Eu)) as (t & -> & Hgt & _). rewrite array_push_next by done. cbn [mbind run_bind].
    split; [|split; [done|rewrite len_app; cbn [length]; lia]]. apply Forall_app. split; [done|]. apply Forall_singleton. by do 5 (split; [done|]).
  - by intros a [Hn _].
  - intros ttl a (Hn & Ht & Hgt & Hpo & Hpr & Hw) Httl. split.
    + unfold srv_fits. cbn [r_target r_effective_ttl r_record_ttl]. rewrite normal_normalized by done. cbn [andb]. if_as E; lia.
    + cbn [srv_typed codec_valid srv_codec rs_query_id rs_index rs_record r_priority r_weight r_port r_target r_record_ttl r_effective_ttl].
      split; [lia|]. split; [unfold DNS_SRV_RECORD_LIMIT; lia|]. do 3 (split; [done|]). split; [if_as E; lia|]. split; [lia|]. by apply normal_valid.
  - intros ttl ttl' r [Hf1 Hty] Hle. unfold srv_fits in Hf1. apply andb_true_iff in Hf1 as [H1 H2].
    destruct Hty as (T1 & T2 & T3 & T4 & T5 & T6 & T7 & T8). cbn [rs_record] in *.
    if_as E; (split; [unfold srv_fits; cbn [r_target r_effective_ttl r_record_ttl]; rewrite H1; lia|]).
    + cbn. do 5 (split; [done|]). split; [lia|]. done.
    + cbn. by do 7 (split; [done|]).
Qed.

Lemma collect_loop_ok {A R} (k : record_kind A R) good fits response capacity indexes records cnames :
  kind_ok k good fits -> is_bytes (msg_data response) -> Forall good records -> Forall cname_ok cnames ->
  len records + len indexes <= capacity -> len cnames + len indexes <= capacity ->
  match collect_loop (k_collect k capacity response) response indexes records cnames with
  | Next (records', cnames') => Forall good records' /\ Forall cname_ok cnames' /\ len records' <= capacity /\ len cnames' <= capacity
  | Return e => e = DNS_PARSE_MALFORMED
  | Oob => False
  end.
Proof.
  intros Hk Hb. revert records cnames. induction indexes as [|i indexes IH]; intros records cnames Hr Hc L1 L2; cbn [collect_loop].
  { change (len (@nil nat)) with 0 in *. split; [done|]. split; [done|]. lia. }
  rewrite len_cons in L1, L2. destruct (ns_parserr response ns_s_an (Z.of_nat i)) as [answer|] eqn:Ep; [|done].
  if_as E; [apply IH; done || lia|].
  pose proof (ko_collect _ _ _ Hk capacity response answer records cnames Hb (parserr_record _ _ _ _ Ep) Hr Hc ltac:(lia) ltac:(lia)) as Hs.
  destruct (k_collect k capacity response answer records cnames) as [[records' cnames']|e|]; [|done..]. cbn [mbind run_bind].
  destruct Hs as (H1 & H2 & H3 & H4). apply IH; done || lia.
Qed.

(** ** Chains *)

Lemma matching_cnames_spec current cnames found ttl : normal current -> Forall cname_ok cnames -> 0 <= ttl < 2 ^ 32 ->
  match matching_cnames current cnames found ttl with
  | Next (found', ttl') => 0 <= ttl' < 2 ^ 32 /\ (found = None -> forall c, found' = Some c -> c ∈ cnames /\ c_owner c = current) /\
      (forall f, found = Some f -> found' = Some f) /\ (found' = None -> Forall (fun c => c_owner c <> current) cnames)
  | Return _ => True
  | Oob => False
  end.
Proof.
  intros Hn Hc. revert found ttl. induction Hc as [|c cnames (Ho & Hg & Ht) Hc IH]; intros found ttl Hr; cbn [matching_cnames].
  { split; [done|]. split; [by intros ->|]. split; [done|]. done. }
  rewrite name_equal_normal by done. case_bool_decide as Heq; cbn [negb].
  - if_as E; [done|]. set (f' := match found with Some f => Some f | None => Some c end).
    specialize (IH f' (if c_ttl c <? ttl then c_ttl c else ttl) ltac:(if_as E2; lia)).
    destruct (matching_cnames _ _ _ _) as [[found' ttl']|e|]; [|done..]. destruct IH as (H1 & H2 & H3 & H4). split; [done|].
    assert (Hs : exists f, f' = Some f /\ found' = Some f) by (destruct found as [f|]; eexists; split; [done|by apply H3|done|by apply H3]).
    destruct Hs as (f & Hf & Hf'). split.
    + intros -> c' Hc'. rewrite Hf' in Hc'. injection Hc' as <-. injection Hf as <-. split; [left|done].
    + split; [|by rewrite Hf']. intros g Hg'. rewrite Hf'. unfold f' in Hf. rewrite Hg' in Hf. congruence.
  - specialize (IH found ttl Hr). destruct (matching_cnames _ _ _ _) as [[found' ttl']|e|]; [|done..]. destruct IH as (H1 & H2 & H3 & H4).
    split; [done|]. split; [|split; [done|intros Hz; constructor; [done|by apply H4]]]. intros Hf c' Hc'. destruct (H2 Hf c' Hc'). split; [by right|done].
Qed.

(** The alias fits the chain, apart from leading to its own owner. *)
Definition cname_links (question : bytes) (l : list dns_cname_record) (c : dns_cname_record) : Prop :=
  cname_ok c /\ c_owner c = chain_end question l /\ c_target c ∉ c_owner <$> l.

Lemma cname_links_fits question l c : cname_links question l c -> c_target c <> c_owner c -> cname_fits question l c = true /\ cname_typed c.
Proof.
  intros ((Ho & Hg & Ht) & Hl & Hn) Hne. split.
  - unfold cname_fits. rewrite !normal_normalized, bool_decide_eq_true_2 by done. cbn [andb]. rewrite bool_decide_eq_false_2; [done|].
    rewrite fmap_app, elem_of_app. cbn [fmap list_fmap]. by rewrite list_elem_of_singleton; intros [|].
  - split; [done|]. split; by apply normal_valid.
Qed.

Lemma existsb_names l t : Forall cname_ok l -> normal t ->
  existsb (fun r => dns_name_equal (Some (c_owner r)) (Some t)) l = bool_decide (t ∈ c_owner <$> l).
Proof.
  intros Hl Ht. induction Hl as [|c l (Ho & _) _ IH]; [done|]. cbn [existsb fmap list_fmap]. rewrite IH, name_equal_normal by done.
  rewrite <- bool_decide_or. apply bool_decide_ext. rewrite elem_of_cons. split; (intros [H1|H1]; [by left|by right]).
Qed.

Lemma chained_ok question l : chained question l -> Forall cname_ok l.
Proof.
  intros Hc. apply Forall_lookup. intros i c Hi. destruct (Hc i c Hi) as [Hf (Ht & [Ho _] & [Hg _])]. unfold cname_fits in Hf. rewrite !andb_true_iff in Hf.
  destruct Hf as [[[H1 H2] _] _]. apply bool_decide_eq_true in H1, H2. by split; [|split].
Qed.

(** The next round finds an alias that leads back into the chain. *)
Definition looping (cnames : list dns_cname_record) (current : bytes) (chain : list dns_cname_record) : Prop :=
  Forall cname_ok chain /\ exists c ttl, matching_cnames current cnames None UINT32_MAX = Next (Some c, ttl) /\ cname_ok c /\ c_target c ∈ c_owner <$> chain.

Definition built (question : bytes) (r : run dns_parse_status (bytes * list dns_cname_record * Z)) : Prop :=
  match r with
  | Next (current, chain, ttl) => chained question chain /\ current = chain_end question chain /\ normal current /\ ttl = chain_ttl chain /\ len chain <= 16
  | Return e => e = DNS_PARSE_MALFORMED \/ e = DNS_PARSE_LIMIT
  | Oob => False
  end.

Lemma matching_error current cnames found ttl e : matching_cnames current cnames found ttl = Return e -> e = DNS_PARSE_MALFORMED.
Proof.
  revert found ttl. induction cnames as [|c cnames IH]; intros found ttl; cbn [matching_cnames]; [done|]. if_as E1; [apply IH|]. if_as E2; [by intros [= <-]|apply IH].
Qed.

Lemma looping_built fuel question owners cnames current chain ttl : looping cnames current chain ->
  built question (chain_loop (S fuel) owners cnames current chain ttl).
Proof.
  intros (Hch & c & t & Hm & (Ho & Hg & Ht) & Hin). cbn [chain_loop]. rewrite Hm. cbn [mbind run_bind]. if_as E; [if_as E2; [by left|by right]|].
  rewrite existsb_names, bool_decide_eq_true_2 by done. by left.
Qed.

Lemma chain_loop_built fuel question owners cnames current chain ttl : Forall cname_ok cnames -> normal current ->
  chained question chain -> current = chain_end question chain -> ttl = chain_ttl chain -> len chain <= 16 -> 16 < Z.of_nat fuel + len chain ->
  built question (chain_loop fuel owners cnames current chain ttl).
Proof.
  intros Hc. revert current chain ttl. induction fuel as [|fuel IH]; intros current chain ttl Hn Hch Hcur Httl Hl Hf; [lia|]. cbn [chain_loop].
  pose proof (matching_cnames_spec current cnames None UINT32_MAX Hn Hc ltac:(unfold UINT32_MAX; lia)) as Hm.
  destruct (matching_cnames current cnames None UINT32_MAX) as [[[c|] t]|e|] eqn:Em; [| | |done]; cbn [mbind run_bind].
  2:{ by split. }
  2:{ left. by eapply matching_error. }
  destruct Hm as (Ht & Hin & _ & _). destruct (Hin eq_refl c eq_refl) as [Hmem Hown].
  assert (Hok : cname_ok c) by (by eapply list.Forall_forall). pose proof Hok as (Ho & Hg & _). if_as E; [if_as E2; [by left|by right]|].
  apply orb_false_iff in E as [_ E]. unfold DNS_CNAME_DEPTH_LIMIT in E.
  rewrite existsb_names; [|by eapply chained_ok|done]. case_bool_decide as Hnin; [by left|]. unfold DNS_CNAME_DEPTH_LIMIT. rewrite array_push_next by lia.
  cbn [mbind run_bind]. set (c' := {| c_owner := c_owner c; c_target := c_target c; c_ttl := t |}).
  assert (Hlinks : cname_links question chain c') by (split; [by split|split; [by cbn; congruence|done]]).
  assert (Hlen : len (chain ++ [c']) = len chain + 1) by (rewrite len_app; cbn [length]; lia).
  destruct (decide (c_target c = c_owner c)) as [Heq|Hne].
  - destruct fuel as [|fuel]; [lia|]. apply looping_built. split.
    + apply Forall_app. split; [by eapply chained_ok|]. apply Forall_singleton. by split.
    + exists c, t. rewrite Heq, Hown. split; [done|]. split; [done|]. rewrite fmap_app, elem_of_app. right. cbn. rewrite Hown. by left.
  - apply IH; [done| | | |lia|lia].
    + apply chained_snoc. split; [done|]. by apply cname_links_fits.
    + by rewrite chain_end_snoc.
    + rewrite chain_ttl_snoc, Httl. cbn. if_as E3; lia.
Qed.

(** ** Negative records *)

(** Nothing, or the record of a zone that encloses the name. *)
Definition negative_ok (canonical : bytes) (ttl : Z) (n : dns_negative_record) : Prop :=
  n = dns_negative_record_zero \/
  (n_valid n = true /\ normal (n_owner n) /\ resolver_name_encloses (Some (n_owner n)) (Some canonical) = true /\
   0 <= n_minimum n < 2 ^ 32 /\ 0 <= n_record_ttl n < 2 ^ 32 /\ n_effective_ttl n = Z.min (Z.min (n_minimum n) (n_record_ttl n)) ttl).

Lemma negative_record_ok response authority : record_ok authority -> is_bytes (msg_data response) ->
  match dns_negative_record_parse response authority with
  | Next n => n_valid n = true /\ normal (n_owner n) /\ 0 <= n_minimum n < 2 ^ 32 /\ 0 <= n_record_ttl n < 2 ^ 32 /\
      n_effective_ttl n = Z.min (n_minimum n) (n_record_ttl n)
  | Return _ => True
  | Oob => False
  end.
Proof.
  intros (Hn & Ht & Hl) Hb. unfold dns_negative_record_parse. if_as E1; [done|]. apply rdata_inside in E1 as [E1 E2]; [|lia].
  destruct (ns_name_uncompress _ _) as [[c1 n1]|]; [|done]. if_as E3; [done|]. cbn [mbind run_bind].
  destruct (ns_name_uncompress _ (ns_rr_rdata authority + c1)) as [[c2 n2]|]; [|done]. if_as E4; [done|]. cbn [mbind run_bind]. if_as E5; [done|].
  unfold rdn. replace (_ && _ && _) with true by lia. cbn [mbind run_bind]. destruct (normalize_presentation _ Hn) as (o & -> & Ho & _).
  set (d := slice (slice _ _ _) _ _). assert (Hd : is_bytes d) by (by apply is_bytes_slice, is_bytes_slice).
  assert (Hdl : len d = 4) by (unfold d; rewrite len_slice; rewrite ?len_slice; lia).
  pose proof (ntohl_range d Hd) as Hv. rewrite Hdl in Hv. change (256 ^ 4) with (2 ^ 32) in Hv.
  cbn [n_valid n_owner n_minimum n_record_ttl n_effective_ttl]. do 4 (split; [done|]). if_as E; lia.
Qed.

Lemma negative_merge_ok canonical n c : negative_ok canonical UINT32_MAX n -> negative_ok canonical UINT32_MAX c -> n_valid c = true ->
  negative_ok canonical UINT32_MAX (negative_merge n c).
Proof.
  intros Hn Hc Hv. unfold negative_merge. if_as E; [done|]. apply orb_false_iff in E as [E1 E2]. case_bool_decide as Heq; [|done].
  destruct Hn as [->|(V1 & N1 & Z1 & M1 & R1 & F1)]; [done|]. destruct Hc as [->|(V2 & N2 & Z2 & M2 & R2 & F2)]; [done|].
  right. cbn [n_valid n_owner n_minimum n_record_ttl n_effective_ttl]. do 3 (split; [done|]). unfold UINT32_MAX.
  split; [if_as E; lia|]. split; [if_as E; lia|]. destruct (n_minimum c <? n_minimum n), (n_record_ttl c <? n_record_ttl n); if_as E; lia.
Qed.

Lemma negative_loop_ok response canonical indexes n : is_bytes (msg_data response) -> negative_ok canonical UINT32_MAX n ->
  match negative_loop response canonical indexes n with Next n' => negative_ok canonical UINT32_MAX n' | Return _ => True | Oob => False end.
Proof.
  intros Hb. revert n. induction indexes as [|i indexes IH]; intros n Hn; cbn [negative_loop]; [done|].
  destruct (ns_parserr response ns_s_ns (Z.of_nat i)) as [a|] eqn:Ep; [|done]. if_as E1; [by apply IH|].
  pose proof (negative_record_ok response a (parserr_record _ _ _ _ Ep) Hb) as Hr.
  destruct (dns_negative_record_parse response a) as [c|e|]; [|done..]. cbn [catch mbind run_bind].
  destruct Hr as (V & N & M & R & F). destruct (resolver_name_encloses _ _) eqn:Ee; cbn [negb]; [|by apply IH]. apply IH, negative_merge_ok; [done| |done].
  right. do 5 (split; [done|]). unfold UINT32_MAX. lia.
Qed.

Lemma cname_ttl_min_is l : dns_cname_ttl_min l = chain_ttl l.
Proof.
  unfold dns_cname_ttl_min, chain_ttl. generalize UINT32_MAX. induction l as [|c l IH]; intros v; [done|]. cbn [fold_left fmap list_fmap foldl].
  rewrite IH. f_equal. if_as E; lia.
Qed.

Lemma chain_ttl_range l : Forall cname_ok l -> 0 <= chain_ttl l < 2 ^ 32.
Proof.
  intros Hl. unfold chain_ttl. assert (Hg : forall v, 0 <= v < 2 ^ 32 -> 0 <= foldl Z.min v (c_ttl <$> l) < 2 ^ 32); [|by apply Hg].
  induction Hl as [|c l (_ & _ & Ht) _ IH]; intros v Hv; [done|]. cbn [fmap list_fmap foldl]. apply IH. lia.
Qed.

Lemma negative_lower canonical start ttl n : negative_ok canonical start n -> 0 <= ttl <= start ->
  negative_ok canonical ttl (if n_valid n && (ttl <? n_effective_ttl n)
    then {| n_effective_ttl := ttl; n_minimum := n_minimum n; n_owner := n_owner n; n_record_ttl := n_record_ttl n; n_valid := n_valid n |} else n).
Proof.
  intros [->|(V & N & Ze & M & R & F)] Ht; [by left|]. rewrite V. cbn [andb]. right.
  if_as E; cbn [n_valid n_owner n_minimum n_record_ttl n_effective_ttl]; (do 5 (split; [done|])); lia.
Qed.

Lemma negative_parse_ok response canonical cnames : is_bytes (msg_data response) -> Forall cname_ok cnames ->
  match dns_negative_response_parse response canonical cnames dns_negative_record_zero with
  | Next n => negative_ok canonical (chain_ttl cnames) n
  | Return _ => True
  | Oob => False
  end.
Proof.
  intros Hb Hc. unfold dns_negative_response_parse. if_as E; [done|].
  pose proof (negative_loop_ok response canonical (seq 0 (Z.to_nat (ns_msg_count response ns_s_ns))) dns_negative_record_zero Hb ltac:(by left)) as Hn.
  destruct (negative_loop _ _ _ _) as [n|e|]; [|done..]. cbn [mbind run_bind]. rewrite cname_ttl_min_is. apply (negative_lower _ UINT32_MAX); [done|].
  pose proof (chain_ttl_range _ Hc). unfold UINT32_MAX. lia.
Qed.

(** ** Parsed responses *)

Section results.
Context {A R : Type} (k : record_kind A R) (good : A -> Prop) (fits : Z -> R -> Prop) (Hk : kind_ok k good fits).

(** A response that answers a question: a chain of aliases, its end, and the records there. *)
Definition answers (status : dns_parse_status) (r : dns_result R) : Prop :=
  let cnames := default [] (d_cnames r) in
  chained (d_question r) cnames /\ d_canonical r = chain_end (d_question r) cnames /\ normal (d_canonical r) /\ len cnames <= 16 /\
  negative_ok (d_canonical r) (chain_ttl cnames) (d_negative r) /\
  d_rcode r = (if decide (status = DNS_PARSE_NXDOMAIN) then ns_r_nxdomain else ns_r_noerror) /\
  match status with
  | DNS_PARSE_OK => d_negative r = dns_negative_record_zero /\ exists l, d_records r = Some l /\ 0 < len l <= k_limit k /\ Forall (fits (chain_ttl cnames)) l
  | DNS_PARSE_ALIAS_ONLY => d_negative r = dns_negative_record_zero /\ d_records r = None /\ 0 < len cnames
  | _ => d_records r = None
  end.

(** Each status with its result: the errors leave none, a response with another code only
    its question and the code. *)
Definition parse_ok (query : bytes) (status : dns_parse_status) (r : dns_result R) : Prop :=
  match status with
  | DNS_PARSE_OK | DNS_PARSE_ALIAS_ONLY | DNS_PARSE_NODATA | DNS_PARSE_NXDOMAIN =>
      normal (d_question r) /\ dns_name_equal (Some (d_question r)) (Some query) = true /\ answers status r
  | DNS_PARSE_RCODE_ERROR =>
      normal (d_question r) /\ dns_name_equal (Some (d_question r)) (Some query) = true /\ 0 < d_rcode r < 16 /\ d_rcode r <> ns_r_nxdomain /\
      r = {| d_question := d_question r; d_canonical := []; d_cnames := None; d_negative := dns_negative_record_zero; d_rcode := d_rcode r; d_records := None |}
  | _ => r = dns_result_zero
  end.

Lemma response_open_ok message query id type :
  match response_open (Some message) (Some query) id type with
  | Next (response, question) => msg_data response = message /\ 0 <= ns_f_rcode response < 16 /\ (forall s, 0 <= ns_msg_count response s < 2 ^ 16) /\
      normal question /\ dns_name_equal (Some question) (Some query) = true
  | Return e => e = DNS_PARSE_BAD_ARGUMENT \/ e = DNS_PARSE_MALFORMED \/ e = DNS_PARSE_TRUNCATED
  | Oob => False
  end.
Proof.
  unfold response_open. if_as E1; [by left|]. destruct (ns_initparse message) as [m|] eqn:Ei; [|by right; left].
  destruct (initparse_message _ _ Ei) as (Hm & Hr & Hc). if_as E2; [by right; left|]. if_as E3; [by right; left|]. if_as E4; [by right; right|].
  destruct (ns_parserr m ns_s_qd 0) as [q|] eqn:Ep; [|by right; left]. if_as E5; [by right; left|].
  destruct (parserr_record _ _ _ _ Ep) as (Hn & _). destruct (normalize_presentation _ Hn) as (t & -> & Ht & _).
  destruct (dns_name_equal _ _) eqn:E6; cbn [negb]; [|by right; left]. done.
Qed.

Lemma filter_good current records : Forall good records -> Forall good (List.filter (fun a => owned_by current (k_owner k a)) records).
Proof. intros H1. apply list.Forall_forall. intros a Ha. apply list_elem_of_In, List.filter_In in Ha as [Ha _]. eapply list.Forall_forall; [done|by apply list_elem_of_In]. Qed.

Lemma chain_build_ok alloc records cnames r : Forall good records -> Forall cname_ok cnames -> len records <= k_limit k -> normal (d_question r) ->
  d_negative r = dns_negative_record_zero -> d_records r = None ->
  match chain_build k alloc records cnames r with
  | Next (status, r') => d_question r' = d_question r /\ d_rcode r' = d_rcode r /\ d_negative r' = dns_negative_record_zero /\
      (status = DNS_PARSE_OK \/ status = DNS_PARSE_ALIAS_ONLY \/ status = DNS_PARSE_NODATA) /\
      let chain := default [] (d_cnames r') in
      chained (d_question r) chain /\ d_canonical r' = chain_end (d_question r) chain /\ normal (d_canonical r') /\ len chain <= 16 /\
      match status with
      | DNS_PARSE_OK => exists l, d_records r' = Some l /\ 0 < len l <= k_limit k /\ Forall (fits (chain_ttl chain)) l
      | DNS_PARSE_ALIAS_ONLY => d_records r' = None /\ 0 < len chain
      | _ => d_records r' = None
      end
  | Return e => e = DNS_PARSE_MALFORMED \/ e = DNS_PARSE_LIMIT \/ e = DNS_PARSE_MEMORY
  | Oob => False
  end.
Proof.
  intros Hr Hc Hl Hn Hneg Hrec. unfold chain_build. if_as E; [by right; right|].
  pose proof (chain_loop_built chain_fuel (d_question r) (k_owner k <$> records) cnames (d_question r) [] UINT32_MAX Hc Hn) as Hb.
  specialize (Hb ltac:(done) eq_refl eq_refl ltac:(done) ltac:(done)).
  assert (Hnil : (len cnames =? 0) = true -> chain_loop chain_fuel (k_owner k <$> records) cnames (d_question r) [] UINT32_MAX = Next (d_question r, [], UINT32_MAX)).
  { intros H0. by rewrite (nil_length_inv cnames) by lia. }
  destruct (chain_loop _ _ _ _ _ _) as [[[current chain] ttl]|e|]; [|destruct Hb as [->| ->]; [by left|by right; left]|done].
  destruct Hb as (Hch & Hcur & Hnc & Httl & Hlen). cbn [mbind run_bind].
  assert (Hd : default [] (if len cnames =? 0 then None else Some chain) = chain).
  { destruct (len cnames =? 0); [|done]. by injection (Hnil eq_refl) as _ <- _. }
  set (matching := List.filter _ records). assert (Hm : Forall good matching) by (by apply filter_good).
  assert (Hml : len matching <= len records) by (pose proof (List.filter_length_le (fun a => owned_by current (k_owner k a)) records); unfold matching; lia).
  if_as E2.
  - cbn [d_question d_canonical d_cnames d_negative d_rcode d_records]. rewrite Hd. do 3 (split; [done|]).
    split; [if_as E3; [by right; right|by right; left]|]. do 4 (split; [done|]). if_as E3; [done|]. split; [done|lia].
  - if_as E3; [by right; right|]. cbn [d_question d_canonical d_cnames d_negative d_rcode d_records]. rewrite Hd. do 3 (split; [done|]).
    split; [by left|]. do 4 (split; [done|]). eexists. split; [done|]. rewrite length_map. split; [lia|]. rewrite <- Httl. apply list.Forall_forall.
    intros x Hx. apply list_elem_of_In, in_map_iff in Hx as (a & <- & Ha). apply (ko_record _ _ _ Hk).
    + eapply list.Forall_forall; [done|by apply list_elem_of_In].
    + rewrite Httl. apply chain_ttl_range. by eapply chained_ok.
Qed.

Lemma negative_finish_ok response status rcode canonical cnames : is_bytes (msg_data response) -> Forall cname_ok cnames ->
  rcode = ns_r_noerror \/ rcode = ns_r_nxdomain -> status = DNS_PARSE_OK \/ status = DNS_PARSE_ALIAS_ONLY \/ status = DNS_PARSE_NODATA ->
  match negative_finish response status rcode canonical cnames dns_negative_record_zero with
  | Next (status', n) => negative_ok canonical (chain_ttl cnames) n /\
      (if rcode =? ns_r_nxdomain then status <> DNS_PARSE_OK /\ status' = DNS_PARSE_NXDOMAIN
       else status' = status /\ (status = DNS_PARSE_NODATA \/ n = dns_negative_record_zero))
  | Return e => e = DNS_PARSE_MALFORMED \/ e = DNS_PARSE_LIMIT
  | Oob => False
  end.
Proof.
  intros Hb Hc Hrc Hst. pose proof (negative_parse_ok response canonical cnames Hb Hc) as Hn. unfold negative_finish.
  destruct (dns_negative_response_parse _ _ _ _) as [n|e|]; [| |done]; cbn [catch mbind run_bind];
    destruct Hst as [->|[->| ->]], Hrc as [->| ->]; cbn [Z.eqb Pos.eqb ns_r_noerror ns_r_nxdomain];
    first [by left|by (split; [by left|split; [done|by right]])|by (split; [done|split; [done|by left]])|by split|by (destruct e; [left|right|left])].
Qed.

(** Parsing any message is memory safe and yields what its status announces. *)
Lemma response_parse_ok alloc message query id : is_bytes message ->
  match response_parse k alloc (Some message) (Some query) id with Some (status, r) => parse_ok query status r | None => False end.
Proof.
  intros Hb. unfold response_parse. pose proof (response_open_ok message query id (k_type k)) as Ho.
  destruct (response_open _ _ _ _) as [[response question]|e|]; [|by destruct Ho as [->|[->| ->]]|done]. destruct Ho as (Hm & Hrc & Hcnt & Hn & Heq).
  cbn [mbind run_bind]. assert (Hu : u8 (ns_f_rcode response) = ns_f_rcode response) by (apply u8_id; unfold is_byte; lia). rewrite Hu. subst message.
  if_as E1.
  { cbn [parsed parse_ok d_question d_rcode]. unfold ns_r_noerror, ns_r_nxdomain in *. do 2 (split; [done|]). split; [lia|]. split; [lia|done]. }
  if_as E2; [done|]. if_as E3; [done|]. unfold records_collect. specialize (Hcnt ns_s_an). pose proof (ko_limit _ _ _ Hk) as Hlim.
  pose proof (collect_loop_ok k good fits response (ns_msg_count response ns_s_an) (seq 0 (Z.to_nat (ns_msg_count response ns_s_an))) [] [] Hk Hb
    ltac:(done) ltac:(done)) as Hcl. rewrite length_seq in Hcl. specialize (Hcl ltac:(cbn; lia) ltac:(cbn; lia)).
  destruct (collect_loop _ _ _ _ _) as [[records cnames]|e|]; [|by subst e|done]. destruct Hcl as (Hgr & Hgc & Hlr & Hlc). cbn [mbind run_bind].
  set (r0 := {| d_question := question |}).
  pose proof (chain_build_ok alloc records cnames r0 Hgr Hgc ltac:(lia) Hn eq_refl eq_refl) as Hcb.
  destruct (chain_build k alloc records cnames r0) as [[status r]|e|]; [|by destruct Hcb as [->|[->| ->]]|done].
  destruct Hcb as (Hq & Hrco & Hneg & Hst & Hch & Hcan & Hnc & Hlen & Hrec). cbn [mbind run_bind]. rewrite Hneg.
  assert (Hrcs : ns_f_rcode response = ns_r_noerror \/ ns_f_rcode response = ns_r_nxdomain) by (unfold ns_r_noerror, ns_r_nxdomain in *; lia).
  pose proof (negative_finish_ok response status (ns_f_rcode response) (d_canonical r) (default [] (d_cnames r)) Hb (chained_ok _ _ Hch) Hrcs Hst) as Hnf.
  destruct (negative_finish _ _ _ _ _ _) as [[status' n]|e|]; [|by destruct Hnf as [->| ->]|done]. cbn [mbind run_bind parsed].
  destruct Hnf as [Hno Hst']. rewrite Hq. change (d_question r0) with question in *. change (d_rcode r0) with (ns_f_rcode response) in Hrco.
  assert (Hans : (status' = DNS_PARSE_NXDOMAIN /\ status <> DNS_PARSE_OK /\ ns_f_rcode response = ns_r_nxdomain) \/
    (status' = status /\ ns_f_rcode response = ns_r_noerror /\ (status = DNS_PARSE_NODATA \/ n = dns_negative_record_zero))).
  { destruct Hrcs as [Hz|Hz]; rewrite Hz in Hst'; cbn [Z.eqb Pos.eqb ns_r_noerror ns_r_nxdomain] in Hst'; destruct Hst' as [H1 H2]; [right|left]; by rewrite Hz. }
  destruct Hans as [(-> & Hne & Hz)|(-> & Hz & Hor)].
  - split; [done|]. split; [done|]. split; [done|]. do 4 (split; [done|]). cbn [d_rcode d_records]. rewrite Hrco, Hz. split; [done|].
    by destruct Hst as [->|[->| ->]]; [|destruct Hrec|].
  - assert (Hgen : answers status {| d_question := question; d_canonical := d_canonical r; d_cnames := d_cnames r; d_negative := n; d_rcode := d_rcode r;
      d_records := d_records r |}).
    { do 5 (split; [done|]). cbn [d_rcode d_records d_negative]. rewrite Hrco, Hz.
      destruct Hst as [->|[->| ->]]; (split; [done|]); [..|done]; (destruct Hor as [|Hor]; [done|]); by split. }
    destruct Hst as [->|[->| ->]]; by split_and!.
Qed.

(** ** Aggregated answers *)

Lemma chain_end_app question l m : chain_end question (l ++ m) = chain_end (chain_end question l) m.
Proof.
  destruct (decide (m = [])) as [->|Hm]; [by rewrite app_nil_r|]. destruct (exists_last Hm) as (m' & c & ->). by rewrite app_assoc, !chain_end_snoc.
Qed.

Lemma chained_cons question c l : chained question (c :: l) -> cname_ok c /\ c_owner c = question /\ c_target c <> c_owner c /\ chained (c_target c) l.
Proof.
  intros Hc. pose proof (chained_ok _ _ Hc) as Hok. apply Forall_cons_1 in Hok as [Hok _]. split; [done|]. destruct (Hc 0%nat c eq_refl) as [H1 _].
  unfold cname_fits in H1. rewrite !andb_true_iff, negb_true_iff, bool_decide_eq_false, !bool_decide_eq_true in H1. destruct H1 as [[_ H1] H2].
  split; [done|]. split; [intros He; apply H2; rewrite He; left|].
  intros i d Hi. destruct (Hc (S i) d Hi) as [Hf Ht]. split; [|done]. cbn [take] in Hf. unfold cname_fits in *.
  rewrite !andb_true_iff, negb_true_iff, bool_decide_eq_false, !bool_decide_eq_true in *. destruct Hf as [[[F1 F2] F3] F4].
  split; [split; [done|]|].
  - rewrite F3. change (c :: take i l) with ([c] ++ take i l). by rewrite chain_end_app.
  - intros Hin. apply F4. cbn [app fmap list_fmap]. by right.
Qed.

Lemma append_cnames_ok question target source ttl : chained question target -> chained (chain_end question target) source -> ttl = chain_ttl target ->
  len target + len source <= 16 ->
  match append_cnames target source ttl with
  | Next (l, ttl') => l = target ++ source /\ chained question l /\ ttl' = chain_ttl l
  | Return e => e = DNS_LOOKUP_MALFORMED
  | Oob => False
  end.
Proof.
  revert target ttl. induction source as [|c source IH]; intros target ttl Ht Hs Httl Hl; cbn [append_cnames]; [by rewrite app_nil_r|].
  apply chained_cons in Hs as (Hok & Hown & Hne & Hs). pose proof Hok as (_ & Hg & _). rewrite len_cons in Hl.
  rewrite existsb_names; [|by eapply chained_ok|done]. case_bool_decide as Hin; [done|]. unfold DNS_CNAME_DEPTH_LIMIT. rewrite array_push_next by lia.
  cbn [mbind run_bind].
  assert (Hc' : chained question (target ++ [c])) by (apply chained_snoc; split; [done|]; by apply cname_links_fits).
  specialize (IH (target ++ [c]) (if c_ttl c <? ttl then c_ttl c else ttl) Hc'). rewrite chain_end_snoc in IH.
  specialize (IH Hs ltac:(rewrite chain_ttl_snoc, Httl; if_as E; lia) ltac:(rewrite len_app; cbn [length]; lia)).
  destruct (append_cnames _ _ _) as [[l ttl']|e|]; [|done..]. by rewrite <- app_assoc in IH.
Qed.

(** What the rounds so far have found for the name [h]: nothing, or aliases whose end is to be
    looked up. *)
Definition aggregate_ok (h : bytes) (query : bytes) (r : dns_result R) (ttl : Z) : Prop :=
  let cnames := default [] (d_cnames r) in
  is_cstr query /\ ttl = chain_ttl cnames /\ d_negative r = dns_negative_record_zero /\ d_records r = None /\
  ((r = dns_result_zero /\ resolver_name_normalize (Some query) = Some h) \/
   (d_question r = h /\ normal h /\ answers DNS_PARSE_ALIAS_ONLY r /\ query = d_canonical r)).

(** The source answers the name queried for; the append joins its chain to that of the
    target. *)
Lemma chain_append_ok h query alloc target source ttl status : aggregate_ok h query target ttl -> normal (d_question source) ->
  dns_name_equal (Some (d_question source)) (Some query) = true -> answers status source -> normal h ->
  match chain_append alloc target source ttl with
  | Next (r, ttl') => let cnames := default [] (d_cnames r) in
      d_question r = h /\ chained h cnames /\ d_canonical r = d_canonical source /\ d_canonical r = chain_end h cnames /\ len cnames <= 16 /\
      ttl' = chain_ttl cnames /\ ttl' <= chain_ttl (default [] (d_cnames source)) /\ d_negative r = dns_negative_record_zero /\
      d_rcode r = d_rcode source /\ d_records r = None /\ count_of (d_cnames target) + count_of (d_cnames source) = len cnames
  | Return e => e = DNS_LOOKUP_MALFORMED \/ e = DNS_LOOKUP_LIMIT \/ e = DNS_LOOKUP_MEMORY
  | Oob => False
  end.
Proof.
  intros (Hq & Httl & Hneg & Hrec & Hcase) Hns Heq (Hch & Hcan & Hnc & Hlen & _) Hnh. unfold chain_append.
  assert (Ht : chained h (default [] (d_cnames target)) /\ d_question source = chain_end h (default [] (d_cnames target)) /\
    (d_question target = [] -> d_question source = h) /\ (d_question target <> [] -> d_question target = h /\ d_canonical target = d_question source)).
  { destruct Hcase as [[-> Hnm]|(Hqt & _ & (Hct & Hcant & Hnct & _) & ->)].
    - rewrite (name_equal_normalize _ _ h) in Heq by done. apply bool_decide_eq_true in Heq. rewrite Heq. done.
    - rewrite name_equal_normal in Heq by done. apply bool_decide_eq_true in Heq. rewrite Hqt in *.
      split; [done|]. split; [congruence|]. split; [|by split]. intros ->. by destruct Hnh as [Hx _]. }
  destruct Ht as (Hct & Hqs & Hfirst & Hnext).
  assert (Hguard : negb (bool_decide (d_question target = [])) && negb (dns_name_equal (Some (d_canonical target)) (Some (d_question source))) = false).
  { case_bool_decide as Hz; [done|]. destruct (Hnext Hz) as [_ ->]. rewrite name_equal_normal, bool_decide_eq_true_2 by done. done. }
  rewrite Hguard. if_as E1; [by right; left|]. unfold DNS_CNAME_DEPTH_LIMIT, count_of in *. if_as E2; [by right; right|].
  pose proof (append_cnames_ok h (default [] (d_cnames target)) (default [] (d_cnames source)) ttl Hct ltac:(by rewrite <- Hqs) Httl ltac:(lia)) as Ha.
  destruct (append_cnames _ _ _) as [[l ttl']|e|]; [|by left|done]. cbn [mbind run_bind d_question d_canonical d_cnames d_negative d_rcode d_records].
  destruct Ha as (Hl & Hcl & Httl').
  assert (Hd : default [] (if bool_decide (d_cnames target = None) && (len (default [] (d_cnames source)) =? 0) then None else Some l) = l).
  { if_as E3; [|done]. apply andb_true_iff in E3 as [E3 E4]. apply bool_decide_eq_true in E3. rewrite Hl, E3.
    by rewrite (nil_length_inv (default [] (d_cnames source))) by lia. }
  rewrite Hd. split; [destruct (bool_decide_reflect (d_question target = [])) as [Hz|Hz]; [by apply Hfirst|by apply Hnext]|]. split; [done|]. split; [done|]. rewrite Hcan, Hqs, Hl, <- chain_end_app.
  split; [done|]. rewrite len_app. split; [lia|]. rewrite <- Hl. split; [done|]. split; [|by split_and!]. rewrite Httl', Hl.
  clear. generalize (default [] (d_cnames target)) as t. intros t. induction (default [] (d_cnames source)) as [|c s IH] using rev_ind.
  - rewrite app_nil_r. unfold chain_ttl at 2. cbn. unfold chain_ttl. generalize UINT32_MAX. induction t as [|c t IH]; intros v; [done|]. cbn.
    etransitivity; [apply IH|]. lia.
  - rewrite app_assoc, !chain_ttl_snoc. lia.
Qed.

(** ** Lookups *)

(** A failed lookup keeps what it had found: nothing, the question with an error code, or
    aliases whose end could not be looked up. *)
Definition failure_ok (h : bytes) (status : dns_lookup_status) (r : dns_result R) : Prop :=
  let cnames := default [] (d_cnames r) in
  r = dns_result_zero \/
  (d_question r = h /\ d_negative r = dns_negative_record_zero /\ d_records r = None /\ 0 <= d_rcode r < 16 /\
   (if decide (status = DNS_LOOKUP_TEMPORARY_ERROR) then d_rcode r = 0 \/ d_rcode r = ns_r_servfail
    else d_rcode r <> ns_r_nxdomain /\ d_rcode r <> ns_r_servfail) /\
   ((cnames = [] /\ d_canonical r = []) \/
    (chained h cnames /\ 0 < len cnames <= 16 /\ d_canonical r = chain_end h cnames /\ normal (d_canonical r)))).

Definition lookup_ok (h : bytes) (status : dns_lookup_status) (r : dns_result R) : Prop :=
  match status with
  | DNS_LOOKUP_OK => d_question r = h /\ answers DNS_PARSE_OK r
  | DNS_LOOKUP_NODATA => d_question r = h /\ answers DNS_PARSE_NODATA r
  | DNS_LOOKUP_NOT_FOUND => d_question r = h /\ answers DNS_PARSE_NXDOMAIN r
  | DNS_LOOKUP_PERMANENT_ERROR | DNS_LOOKUP_TEMPORARY_ERROR => failure_ok h status r
  | _ => r = dns_result_zero
  end.

Definition round_ok (h : bytes) (found : Z) (o : option (round R)) : Prop :=
  match o with
  | None => False
  | Some (Leave status r) => dns_lookup_status_keeps_result status = true -> lookup_ok h status r
  | Some (Again query r ttl) => aggregate_ok h query r ttl /\ found < count_of (d_cnames r) <= 16
  end.

(** An aggregate with another code is what a failure may keep. *)
Lemma aggregate_failure h query r ttl status rcode : aggregate_ok h query r ttl -> normal h -> 0 <= rcode < 16 -> r <> dns_result_zero ->
  (if decide (status = DNS_LOOKUP_TEMPORARY_ERROR) then rcode = 0 \/ rcode = ns_r_servfail else rcode <> ns_r_nxdomain /\ rcode <> ns_r_servfail) ->
  failure_ok h status (with_rcode r rcode).
Proof.
  intros (_ & _ & Hneg & Hrec & [[Hz _]|(Hq & _ & (Hch & Hcan & Hnc & Hlen & _ & _ & _ & _ & Hpos) & _)]) Hnh Hr Hnz Hst; [done|].
  right. cbn [with_rcode d_question d_canonical d_cnames d_negative d_rcode d_records]. do 5 (split; [done|]). right. rewrite Hq in *.
  split; [done|]. split; [lia|]. by split.
Qed.

Lemma aggregate_leaves h query r ttl status : aggregate_ok h query r ttl -> normal h ->
  status = DNS_LOOKUP_PERMANENT_ERROR \/ status = DNS_LOOKUP_TEMPORARY_ERROR -> failure_ok h status r.
Proof.
  intros Ha Hh Hst. pose proof Ha as (_ & _ & _ & _ & [[Hz _]|(Hq & _ & (_ & _ & _ & _ & _ & Hrc & _) & _)]); [by left|].
  cbn in Hrc. rewrite decide_False in Hrc by done. replace r with (with_rcode r 0) by (by destruct r; cbn in Hrc; subst). eapply aggregate_failure; try done.
  - intros ->. cbn in Hq. subst h. by destruct Hh as [Hx _].
  - if_as E; [by left|done].
Qed.

Lemma lower_found ttl ttl' l : Forall (fits ttl) l -> 0 <= ttl' <= ttl -> Forall (fits ttl') (map (k_lower k ttl') l).
Proof.
  intros Hl Ht. apply list.Forall_forall. intros x Hx. apply list_elem_of_In, in_map_iff in Hx as (r & <- & Hr). apply (ko_lower _ _ _ Hk ttl); [|done].
  eapply list.Forall_forall; [done|by apply list_elem_of_In].
Qed.

Lemma count_default {B} (o : option (list B)) : count_of o = len (default [] o).
Proof. by destruct o. Qed.

(** The chain of [p], found for the end of that of [r], joined to it. *)
Record joined (h : bytes) (r p r' : dns_result R) (ttl' : Z) : Prop := {
  jo_question : d_question r' = h;
  jo_chain : chained h (default [] (d_cnames r'));
  jo_canonical : d_canonical r' = d_canonical p;
  jo_end : d_canonical r' = chain_end h (default [] (d_cnames r'));
  jo_length : len (default [] (d_cnames r')) <= 16;
  jo_ttl : ttl' = chain_ttl (default [] (d_cnames r'));
  jo_lower : 0 <= ttl' <= chain_ttl (default [] (d_cnames p));
  jo_negative : d_negative r' = dns_negative_record_zero;
  jo_rcode : d_rcode r' = d_rcode p;
  jo_records : d_records r' = None;
  jo_count : count_of (d_cnames r) + count_of (d_cnames p) = len (default [] (d_cnames r'));
}.

Lemma appended_ok h query alloc r p ttl status f : aggregate_ok h query r ttl -> normal h -> normal (d_question p) ->
  dns_name_equal (Some (d_question p)) (Some query) = true -> answers status p ->
  (forall r' ttl', joined h r p r' ttl' -> round_ok h (count_of (d_cnames r)) (Some (f r' ttl'))) ->
  round_ok h (count_of (d_cnames r)) (appended r (chain_append alloc r p ttl) f).
Proof.
  intros Ha Hh Hn Heq Hans Hf. pose proof (chain_append_ok h query alloc r p ttl status Ha Hn Heq Hans Hh) as Hc. unfold appended.
  destruct (chain_append _ _ _ _) as [[r' ttl']|e|]; [|by destruct Hc as [->|[->| ->]]|done].
  destruct Hc as (C1 & C2 & C3 & C4 & C5 & C6 & C7 & C8 & C9 & C10 & C11). apply Hf. split; try done.
  split; [|done]. rewrite C6. apply chain_ttl_range. by eapply chained_ok.
Qed.

(** A response without records ends the lookup with the negative record, lowered to the chain. *)
Lemma joined_negative h r p r' ttl' status : joined h r p r' ttl' -> answers status p -> status = DNS_PARSE_NODATA \/ status = DNS_PARSE_NXDOMAIN ->
  let n := d_negative p in
  answers status (with_negative r' (if n_valid n && (ttl' <? n_effective_ttl n)
    then {| n_effective_ttl := ttl'; n_minimum := n_minimum n; n_owner := n_owner n; n_record_ttl := n_record_ttl n; n_valid := n_valid n |} else n)).
Proof.
  intros J (_ & _ & Hnc & _ & Hneg & Hrc & Hrec) Hst n. unfold answers. cbn [with_negative d_question d_canonical d_cnames d_negative d_rcode d_records].
  rewrite (jo_question _ _ _ _ _ J). split; [apply J|]. split; [apply J|]. rewrite (jo_canonical _ _ _ _ _ J). split; [done|]. split; [apply J|].
  rewrite (jo_rcode _ _ _ _ _ J), (jo_records _ _ _ _ _ J), <- (jo_ttl _ _ _ _ _ J).
  split; [apply (negative_lower _ (chain_ttl (default [] (d_cnames p)))); [done|apply J]|]. by destruct Hst as [->| ->].
Qed.

Lemma lookup_round_ok h answer query r ttl : aggregate_ok h query r ttl -> normal h -> is_bytes (qa_response answer) ->
  round_ok h (count_of (d_cnames r)) (lookup_round k answer query r ttl).
Proof.
  intros Ha Hh Hb. unfold lookup_round. destruct (dns_query_exact answer) as [[st size] id].
  destruct st; try (by intros _; apply (aggregate_leaves h query r ttl); [..|tauto]); try done.
  if_as E1; [done|].
  pose proof (response_parse_ok (qa_alloc answer) (take (Z.to_nat size) (qa_response answer)) query id ltac:(by apply Forall_take)) as Hp.
  destruct (response_parse k _ _ _ _) as [[status p]|]; [|done]. cbn [mbind option_bind]. if_as E2; [done|].
  destruct status; cbn [parse_ok dns_lookup_parse_status] in *; try done.
  - destruct Hp as (Hn & Heq & Hans). eapply appended_ok; try done. intros r' ttl' J _. destruct Hans as (_ & _ & Hnc & _ & _ & Hrc & _ & l & Hl & Hll & Hfit).
    unfold lookup_ok, answers. cbn [with_found d_question d_canonical d_cnames d_negative d_rcode d_records]. rewrite Hl, (jo_question _ _ _ _ _ J).
    split; [done|]. split; [apply J|]. split; [apply J|]. rewrite (jo_rcode _ _ _ _ _ J), (jo_canonical _ _ _ _ _ J), (jo_negative _ _ _ _ _ J).
    split; [done|]. split; [apply J|]. split; [by left|]. split; [done|]. split; [done|]. eexists. split; [done|]. rewrite length_map. split; [done|].
    rewrite <- (jo_ttl _ _ _ _ _ J). eapply lower_found; [done|apply J].
  - destruct Hp as (Hn & Heq & Hans). eapply appended_ok; try done. intros r' ttl' J. destruct Hans as (_ & _ & Hnc & _ & _ & Hrc & _ & _ & Hpos).
    pose proof (jo_count _ _ _ _ _ J) as Hc. rewrite !count_default in Hc. split; [|pose proof (jo_length _ _ _ _ _ J); rewrite !count_default; lia].
    split; [rewrite (jo_canonical _ _ _ _ _ J); apply Hnc|]. split; [apply J|]. split; [apply J|]. split; [apply J|]. right. split; [apply J|]. split; [done|].
    split; [|done]. unfold answers. rewrite (jo_question _ _ _ _ _ J), (jo_rcode _ _ _ _ _ J), (jo_negative _ _ _ _ _ J). split; [apply J|]. split; [apply J|].
    split; [by rewrite (jo_canonical _ _ _ _ _ J)|]. split; [apply J|]. split; [by left|]. split; [done|]. split; [done|]. split; [apply J|].
    lia.
  - destruct Hp as (Hn & Heq & Hans). eapply appended_ok; try done. intros r' ttl' J _. split; [apply J|]. by apply (joined_negative h r p r' ttl'); [| |left].
  - destruct Hp as (Hn & Heq & Hans). eapply appended_ok; try done. intros r' ttl' J _. split; [apply J|]. by apply (joined_negative h r p r' ttl'); [| |right].
  - destruct Hp as (Hn & Heq & Hrc & Hnx & Hpr). intros _. set (st := if d_rcode p =? ns_r_servfail then _ else _).
    assert (Hst : (if decide (st = DNS_LOOKUP_TEMPORARY_ERROR) then d_rcode p = 0 \/ d_rcode p = ns_r_servfail
      else d_rcode p <> ns_r_nxdomain /\ d_rcode p <> ns_r_servfail)) 
      by (unfold st; destruct (d_rcode p =? ns_r_servfail) eqn:Es; [rewrite decide_True by done|rewrite decide_False by done]; lia).
    assert (Hcase : st = DNS_LOOKUP_PERMANENT_ERROR \/ st = DNS_LOOKUP_TEMPORARY_ERROR) by (unfold st; if_as Es; tauto).
    assert (Hkeep : dns_lookup_status_keeps_result st = true) by (by destruct Hcase as [->| ->]). rewrite Hkeep.
    assert (Hfail : failure_ok h st (if bool_decide (d_question r = []) then p else with_rcode r (d_rcode p))); [|by destruct Hcase as [-> | ->]].
    pose proof Ha as (_ & _ & _ & _ & [[Hz Hnm]|(Hq & _ & _ & Hqc)]).
    + rewrite Hz, bool_decide_eq_true_2 by done. right. rewrite Hpr. cbn [d_question d_canonical d_cnames d_negative d_rcode d_records].
      rewrite (name_equal_normalize _ _ h) in Heq; [|done..|apply Ha]. apply bool_decide_eq_true in Heq. do 3 (split; [done|]). split; [lia|]. split; [done|by left].
    + rewrite bool_decide_eq_false_2 by (rewrite Hq; intros ->; by destruct Hh as [Hx _]).
      eapply aggregate_failure; try done; [lia|]. intros ->. cbn in Hq. subst h. by destruct Hh as [Hx _].
Qed.

(** Each round that goes on has found another alias, and the chain has at most sixteen. *)
Lemma lookup_loop_ok h res : normal h -> (forall i q, is_bytes (qa_response (res i q))) -> forall fuel i query r ttl,
  aggregate_ok h query r ttl -> count_of (d_cnames r) <= 16 -> 16 - count_of (d_cnames r) < Z.of_nat fuel ->
  exists status r', lookup_loop k fuel res i query r ttl = Some (status, r') /\ lookup_ok h status r'.
Proof.
  intros Hh Hb. induction fuel as [|fuel IH]; intros i query r ttl Ha Hc Hf; [lia|]. cbn [lookup_loop].
  pose proof (lookup_round_ok h (res i query) query r ttl Ha Hh (Hb i query)) as Hr.
  destruct (lookup_round k _ _ _ _) as [[status r'|query' r' ttl']|]; [|destruct Hr as [Ha' Hc']|done]; cbn [mbind option_bind round_ok] in *.
  - eexists status, _. split; [done|]. if_as E; [by apply Hr|by destruct status].
  - apply IH; [done|lia..].
Qed.

Lemma lookup_is_ok h init alloc res name : resolver_name_normalize (Some name) = Some h -> is_cstr name -> (forall i q, is_bytes (qa_response (res i q))) ->
  exists status r, lookup k init alloc res name = Some (status, r) /\ lookup_ok h status r.
Proof.
  intros Hn Hc Hb. unfold lookup. destruct (dns_resolver_init init); [|by eexists _, _; split; [done|left]]. if_as E; [by eexists _, _; split|].
  apply lookup_loop_ok; [..|done|done].
  - eapply normalize_normal; done.
  - done.
  - split; [done|]. split; [done|]. split; [done|]. split; [done|]. by left.
Qed.

End results.
End parsing.

(** ** Parses and lookups of the two kinds *)

Section kinds.
Context {NS : nameser} {NL : nameser_laws}.

(** C19: on any bytes, whatever the message parser of the system answers about them and
    whichever allocations fail, parsing a response reads only inside the message and
    returns; an answer is a loop-free chain of aliases from the question asked for, with
    the records at its end and lifetimes bounded by the chain; a response with an error
    code leaves only its question and that code, and every other failure leaves an empty
    result. *)
Theorem dns_response_parse_exact alloc message name id family : is_bytes message -> family = AF_INET \/ family = AF_INET6 ->
  (exists status r, dns_address_response_parse alloc (Some message) (Some name) id family (Some dns_address_result_zero)
     = Some (status, Some (to_address_result r)) /\ parse_ok (address_kind family) (address_found family) name status r) /\
  (exists status r, dns_srv_response_parse alloc (Some message) (Some name) id (Some dns_srv_result_zero)
     = Some (status, Some (to_srv_result r)) /\ parse_ok srv_kind srv_found name status r).
Proof.
  intros Hb Hf. split.
  - pose proof (response_parse_ok _ _ _ (address_kind_ok family Hf) alloc message name id Hb) as Hp. unfold dns_address_response_parse.
    replace (_ || _) with false by (destruct Hf as [-> | ->]; reflexivity).
    destruct (response_parse (address_kind family) _ _ _ _) as [[status r]|]; [|done]. by eexists _, _.
  - pose proof (response_parse_ok _ _ _ srv_kind_ok alloc message name id Hb) as Hp. unfold dns_srv_response_parse.
    change (negb (dns_srv_result_empty dns_srv_result_zero)) with false. cbn iota.
    destruct (response_parse srv_kind _ _ _ _) as [[status r]|]; [|done]. by eexists _, _.
Qed.

(** The two lookups, into empty results. *)
Lemma address_lookup_is init alloc res name h family : resolver_name_normalize (Some name) = Some h -> family = AF_INET \/ family = AF_INET6 ->
  dns_address_lookup init alloc res (Some name) family (Some dns_address_result_zero)
    = ('(status, r) ← Dns.lookup (address_kind family) init alloc res name; Some (status, Some (to_address_result r))).
Proof.
  intros Hn Hf. pose proof (normalize_length _ _ Hn). unfold dns_address_lookup. if_as E; [|done].
  rewrite bool_decide_eq_false_2 in E by (by intros ->). destruct Hf as [-> | ->]; cbn in E; lia.
Qed.

Lemma srv_lookup_is init alloc res name h : resolver_name_normalize (Some name) = Some h ->
  dns_srv_lookup init alloc res (Some name) (Some dns_srv_result_zero)
    = ('(status, r) ← Dns.lookup srv_kind init alloc res name; Some (status, Some (to_srv_result r))).
Proof.
  intros Hn. pose proof (normalize_length _ _ Hn). unfold dns_srv_lookup. if_as E; [|done].
  rewrite bool_decide_eq_false_2 in E by (by intros ->). cbn in E. lia.
Qed.

Lemma address_lookup_ok init alloc res name h family : resolver_name_normalize (Some name) = Some h -> is_cstr name ->
  (forall i q, is_bytes (qa_response (res i q))) -> family = AF_INET \/ family = AF_INET6 ->
  exists status r, dns_address_lookup init alloc res (Some name) family (Some dns_address_result_zero) = Some (status, Some (to_address_result r)) /\
    lookup_ok (address_kind family) (address_found family) h status r.
Proof.
  intros Hn Hc Hb Hf. destruct (lookup_is_ok _ _ _ (address_kind_ok family Hf) h init alloc res name Hn Hc Hb) as (status & r & He & Ho).
  exists status, r. split; [|done]. by rewrite (address_lookup_is init alloc res name h family Hn Hf), He.
Qed.

Lemma srv_lookup_ok init alloc res name h : resolver_name_normalize (Some name) = Some h -> is_cstr name ->
  (forall i q, is_bytes (qa_response (res i q))) ->
  exists status r, dns_srv_lookup init alloc res (Some name) (Some dns_srv_result_zero) = Some (status, Some (to_srv_result r)) /\
    lookup_ok srv_kind srv_found h status r.
Proof.
  intros Hn Hc Hb. destruct (lookup_is_ok _ _ _ srv_kind_ok h init alloc res name Hn Hc Hb) as (status & r & He & Ho).
  exists status, r. split; [|done]. by rewrite (srv_lookup_is init alloc res name h Hn), He.
Qed.

End kinds.

(** ** A resolver for the witnesses *)

(** Messages of five bytes: the first is 1 for an alias of [a.b] to [b], 2 for the address
    of [b] in the other four. *)
Definition sample_alias (m : bytes) : bool := bool_decide (m !! 0%nat = Some 1).
#[local] Instance sample_nameser : nameser := {|
  ns_initparse m := if len m =? 5 then Some {| msg_data := m; ns_msg_id := 7; ns_f_qr := true; ns_f_opcode := ns_o_query; ns_f_tc := false; ns_f_rcode := 0;
    ns_msg_count s := match s with ns_s_ns => 0 | _ => 1 end |} else None;
  ns_parserr m s _ := let alias := sample_alias (msg_data m) in
    Some {| ns_rr_name := if alias then [65; 46; 98; 46] else [98];
            ns_rr_type := match s with ns_s_an => if alias then ns_t_cname else ns_t_a | _ => ns_t_a end;
            ns_rr_class := ns_c_in; ns_rr_ttl := if alias then 30 else 60; ns_rr_rdata := 1; ns_rr_rdlen := 4 |};
  ns_name_uncompress _ _ := Some (4, [98]) |}.

Lemma sample_nameser_laws : nameser_laws.
Proof.
  split; cbn.
  - intros m r. if_as E; [|done]. intros [= <-]. cbn. split; [done|]. split; [lia|]. intros []; lia.
  - intros m s i rr [= <-]. cbn. destruct (sample_alias _); (split; [|lia]); (split; [repeat (apply Forall_cons; [lia|]); apply Forall_nil|]);
      (split; [unfold NS_MAXDNAME; cbn; lia|]); cbn; [|lia]. by intros _ [? ?].
  - intros _ _ c n [= <- <-]. split; [repeat (apply Forall_cons; [lia|]); apply Forall_nil|]. unfold NS_MAXDNAME. cbn. lia.
Qed.

(** The answer to each query. *)
Definition sample_answer (q : bytes) : query_answer := {|
  qa_query_size := 20; qa_query := [0; 7]; qa_result := 5; qa_errno := 0;
  qa_response := if bool_decide (q = [98]) then [2; 10; 0; 0; 1] else [1; 0; 0; 0; 0];
  qa_alloc := {| al_candidates := true; al_cnames := true; al_chain := true; al_records := true |}; qa_append := true |}.

Lemma sample_answer_bytes q : is_bytes (qa_response (sample_answer q)).
Proof. cbn. case_bool_decide; repeat constructor; lia. Qed.

Lemma dns_response_parse_exact_witness :
  exists status r, dns_address_response_parse (qa_alloc (sample_answer [])) (Some [2; 10; 0; 0; 1]) (Some [98]) 7 AF_INET (Some dns_address_result_zero)
     = Some (status, Some (to_address_result r)) /\ status = DNS_PARSE_OK /\ parse_ok (address_kind AF_INET) (address_found AF_INET) [98] status r.
Proof.
  pose proof sample_nameser_laws as NL.
  destruct (dns_response_parse_exact (qa_alloc (sample_answer [])) [2; 10; 0; 0; 1] [98] 7 AF_INET ltac:(repeat constructor; lia) ltac:(by left))
    as [(status & r & He & Ho) _].
  eexists _, _. split; [exact He|]. split; [|exact Ho]. vm_compute in He. congruence.
Defined.
