(* ===== verification/DnsAnswers.v ===== *)
(** * What a lookup finds

    The records, the aliases and the negative record of a lookup are those of the
    responses: this file reads a message record by record, and shows that the chain of
    a lookup is followed from response to response and that its result is what the last
    response holds for the end of the chain. *)

From S2P Require Import Prelude Proxy TimeUtil ResolverUtil Cache Ipc IpcAssembly Dns DnsCoherent.
From stdpp Require Import gmap.
#[local] Open Scope Z_scope.

Section messages.
Context {NS : nameser} {NL : nameser_laws}.

(** ** Messages *)

(** The records of class IN in a section, in order. *)
Definition section_of (m : ns_msg) (s : ns_sect) : list ns_rr :=
  filter (fun rr => ns_rr_class rr = ns_c_in) (omap (fun i => ns_parserr m s (Z.of_nat i)) (seq 0 (Z.to_nat (ns_msg_count m s)))).

Definition alias_read (m : ns_msg) (rr : ns_rr) : option dns_cname_record := if ns_rr_type rr =? ns_t_cname then dns_name_record_parse m rr else None.
Definition aliases (m : ns_msg) : list dns_cname_record := omap (alias_read m) (section_of m ns_s_an).

(** The address and the service of a record. *)
Definition address_read (family : Z) (m : ns_msg) (rr : ns_rr) : option dns_address_candidate :=
  if ns_rr_type rr =? address_type family then
    owner ← dns_name_normalize (Some (ns_rr_name rr)) NS_MAXDNAME;
    Some {| ac_address := {| family := family; err := NET_OK; addr := slice (msg_data m) (ns_rr_rdata rr) (address_size family) |};
            ac_owner := owner; ac_ttl := ns_rr_ttl rr |}
  else None.
Definition srv_read (m : ns_msg) (rr : ns_rr) : option dns_srv_candidate :=
  let field i := ntohl (slice (msg_data m) (ns_rr_rdata rr + i) 2) in
  if ns_rr_type rr =? ns_t_srv then
    '(_, target) ← ns_name_uncompress (msg_data m) (ns_rr_rdata rr + 6);
    owner ← dns_name_normalize (Some (ns_rr_name rr)) NS_MAXDNAME;
    target ← dns_name_normalize (Some target) NS_MAXDNAME;
    Some {| sc_owner := owner; sc_port := field 4; sc_priority := field 0; sc_target := target; sc_ttl := ns_rr_ttl rr; sc_weight := field 2 |}
  else None.

(** The start of authority of a zone that encloses the name. *)
Definition zone_read (m : ns_msg) (rr : ns_rr) : option dns_negative_record :=
  if ns_rr_type rr =? ns_t_soa then match dns_negative_record_parse m rr with Next c => Some c | _ => None end else None.
Definition zones (m : ns_msg) (name : bytes) : list dns_negative_record :=
  filter (fun c => resolver_name_encloses (Some (n_owner c)) (Some name) = true) (omap (zone_read m) (section_of m ns_s_ns)).

(** An alias of the chain: all the aliases of its owner in the response have its target, and
    its lifetime is the least of theirs. *)
Definition alias_in (l : list dns_cname_record) (c : dns_cname_record) : Prop :=
  let same := filter (fun x => c_owner x = c_owner c) l in
  same <> [] /\ Forall (fun x => c_target x = c_target c) same /\ c_ttl c = chain_ttl same.

(** The chain [l] from [start] is what the response says, up to a name without alias. *)
Definition extends (m : ns_msg) (start : bytes) (l : list dns_cname_record) : Prop :=
  Forall (alias_in (aliases m)) l /\ filter (fun x => c_owner x = chain_end start l) (aliases m) = [].

(** The negative record is that of the longest of the zones: the least minimum and the least
    lifetime of its records. *)
Definition least {A} (f : A -> Z) (l : list A) (v : Z) : Prop := (exists x, x ∈ l /\ f x = v) /\ forall x, x ∈ l -> v <= f x.
Definition longest_zone (l : list dns_negative_record) (n : dns_negative_record) : Prop :=
  let same := filter (fun c => n_owner c = n_owner n) l in
  (forall c, c ∈ l -> len (n_owner c) <= len (n_owner n)) /\ least n_minimum same (n_minimum n) /\ least n_record_ttl same (n_record_ttl n).
Definition zone_of (m : ns_msg) (name : bytes) (n : dns_negative_record) : Prop :=
  (zones m name = [] /\ n = dns_negative_record_zero) \/ longest_zone (zones m name) n.

(** ** Collecting *)

(** What a kind of records reads of a message; lowering the lifetime of a record twice is
    lowering it once. *)
Record kind_exact {A R} (k : record_kind A R) (look : ns_msg -> ns_rr -> option A) : Prop := {
  ke_collect : forall capacity m rr records cnames records' cnames', k_collect k capacity m rr records cnames = Next (records', cnames') ->
    records' = records ++ option_list (look m rr) /\ cnames' = cnames ++ option_list (alias_read m rr);
  ke_lower : forall ttl ttl' a, ttl' <= ttl -> k_lower k ttl' (k_record k ttl a) = k_record k ttl' a;
}.

Lemma collect_cname_exact {A} capacity m rr (records : list A) cnames records' cnames' :
  collect_cname capacity m rr records cnames = Next (records', cnames') -> records' = records /\ cnames' = cnames ++ option_list (alias_read m rr).
Proof.
  unfold collect_cname, alias_read. if_as E; [|intros [= <- <-]; by rewrite app_nil_r]. destruct (dns_name_record_parse m rr) as [c|]; [|done].
  unfold array_push. if_as E2; [|done]. cbn. by intros [= <- <-].
Qed.

Lemma address_exact family : kind_exact (address_kind family) (address_read family).
Proof.
  split; cbn [address_kind k_collect k_lower k_record].
  - intros capacity m rr records cnames records' cnames'. unfold collect_address, address_read. if_as E.
    + if_as E2; [done|]. unfold rdn. if_as E3; [|done]. cbn [mbind run_bind option_bind]. destruct (dns_name_normalize _ _) as [owner|]; [|done].
      unfold array_push. if_as E4; [|done]. cbn. intros [= <- <-]. split; [done|]. unfold alias_read. if_as E5; [|by rewrite app_nil_r].
      unfold address_type, ns_t_a, ns_t_aaaa, ns_t_cname in *. destruct (family =? AF_INET); lia.
    + intros [-> ->]%collect_cname_exact. by rewrite app_nil_r.
  - intros ttl ttl' [] Hle. cbn. split_ifs; cbn in *; f_equal; lia.
Qed.

Lemma srv_exact : kind_exact srv_kind srv_read.
Proof.
  split; cbn [srv_kind k_collect k_lower k_record].
  - intros capacity m rr records cnames records' cnames'. unfold collect_srv, srv_read. if_as E.
    + if_as E2; [done|]. destruct (ns_name_uncompress _ _) as [[consumed target]|]; [|done]. if_as E3; [done|]. cbn [mbind run_bind option_bind].
      unfold rdn. do 3 (match goal with |- context [if ?b then Next _ else Oob] => destruct b end); cbn [mbind run_bind option_bind]; try done. do 2 (destruct (dns_name_normalize _ _); cbn [mbind run_bind option_bind]; [|done]). cbn [mbind run_bind option_bind].
      unfold array_push. if_as E4; [|done]. cbn. intros [= <- <-]. rewrite Z.add_0_r. split; [done|]. unfold alias_read. if_as E5; [|by rewrite app_nil_r].
      unfold ns_t_srv, ns_t_cname in *. lia.
    + intros [-> ->]%collect_cname_exact. by rewrite app_nil_r.
  - intros ttl ttl' [] Hle. cbn. split_ifs; cbn in *; f_equal; lia.
Qed.

Lemma collect_loop_exact {A R} (k : record_kind A R) look capacity m indexes records cnames records' cnames' : kind_exact k look ->
  collect_loop (k_collect k capacity m) m indexes records cnames = Next (records', cnames') ->
  let rrs := filter (fun rr => ns_rr_class rr = ns_c_in) (omap (fun i => ns_parserr m ns_s_an (Z.of_nat i)) indexes) in
  records' = records ++ omap (look m) rrs /\ cnames' = cnames ++ omap (alias_read m) rrs.
Proof.
  intros Hk. cbn zeta. revert records cnames. induction indexes as [|i indexes IH]; intros records cnames; cbn [collect_loop omap list_omap]; [intros [= <- <-]; by rewrite !app_nil_r|].
  destruct (ns_parserr m ns_s_an (Z.of_nat i)) as [rr|]; [|done]. rewrite filter_cons. destruct (Z.eqb_spec (ns_rr_class rr) ns_c_in) as [E|E]; cbn [negb].
  - rewrite decide_True by done. destruct (k_collect k capacity m rr records cnames) as [[rs cs]|e|] eqn:Ec; [|done..]. cbn [mbind run_bind].
    apply (ke_collect _ _ Hk) in Ec as [-> ->]. intros [-> ->]%IH. cbn [omap list_omap]. by destruct (look m rr), (alias_read m rr); cbn; rewrite <- ?app_assoc, ?app_nil_r.
  - rewrite decide_False by done. apply IH.
Qed.

Lemma records_collect_exact {A R} (k : record_kind A R) look m records cnames : kind_exact k look -> records_collect k m = Next (records, cnames) ->
  records = omap (look m) (section_of m ns_s_an) /\ cnames = aliases m.
Proof. intros Hk. unfold records_collect. by intros H%(collect_loop_exact k look _ m _ _ _ _ _ Hk). Qed.

(** ** Zones *)

Lemma negative_loop_exact m name indexes n n' : negative_loop m name indexes n = Next n' ->
  n' = foldl negative_merge n (filter (fun c => resolver_name_encloses (Some (n_owner c)) (Some name) = true)
    (omap (zone_read m) (filter (fun rr => ns_rr_class rr = ns_c_in) (omap (fun i => ns_parserr m ns_s_ns (Z.of_nat i)) indexes)))).
Proof.
  revert n. induction indexes as [|i indexes IH]; intros n; cbn [negative_loop omap list_omap]; [by intros [= <-]|].
  destruct (ns_parserr m ns_s_ns (Z.of_nat i)) as [rr|]; [|done]. rewrite filter_cons. destruct (Z.eqb_spec (ns_rr_class rr) ns_c_in) as [E|E]; cbn [negb orb].
  2:{ rewrite decide_False by done. apply IH. }
  rewrite decide_True by done. cbn [omap list_omap]. unfold zone_read at 1. destruct (ns_rr_type rr =? ns_t_soa); cbn [negb]; [|apply IH].
  destruct (dns_negative_record_parse m rr) as [c|e|]; [|done..]. cbn [catch mbind run_bind]. rewrite filter_cons.
  destruct (resolver_name_encloses _ _) eqn:Ee; cbn [negb]; [rewrite decide_True by done|rewrite decide_False by done]; apply IH.
Qed.

Lemma filter_snoc {A} (P : A -> Prop) `{forall x, Decision (P x)} l x : filter P (l ++ [x]) = filter P l ++ if decide (P x) then [x] else [].
Proof. rewrite filter_app, filter_cons, filter_nil. by case_decide. Qed.

Lemma filter_none {A} (P : A -> Prop) `{forall x, Decision (P x)} l : (forall x, x ∈ l -> ~ P x) -> filter P l = [].
Proof. induction l as [|x l IH]; intros Hn; [done|]. rewrite filter_cons, decide_False by (apply Hn; left). apply IH. intros y Hy. apply Hn. by right. Qed.

Lemma least_snoc {A} (f : A -> Z) l v x : least f l v -> least f (l ++ [x]) (Z.min (f x) v).
Proof.
  intros [(y & Hy & Hf) Hl]. split.
  - destruct (Z_le_dec (f x) v); [exists x|exists y]; (split; [set_solver|lia]).
  - intros z. rewrite elem_of_app, list_elem_of_singleton. intros [Hz| ->]; [specialize (Hl z Hz)|]; lia.
Qed.
Lemma least_one {A} (f : A -> Z) x : least f [x] (f x).
Proof. split; [exists x; set_solver|]. intros y ->%list_elem_of_singleton. done. Qed.

Lemma merge_longest l n c : longest_zone l n -> n_valid n = true -> longest_zone (l ++ [c]) (negative_merge n c).
Proof.
  intros (Hl & Hm & Ht) Hv. unfold longest_zone, negative_merge. rewrite Hv. cbn [negb orb].
  assert (Hin : forall x, x ∈ l ++ [c] -> x ∈ l \/ x = c) by (intros x; rewrite elem_of_app, list_elem_of_singleton; tauto).
  if_as E; [|case_bool_decide as Ho; cbn [n_owner n_minimum n_record_ttl]].
  - split; [intros x [Hx| ->]%Hin; [specialize (Hl x Hx)|]; lia|]. rewrite filter_snoc, decide_True by done.
    rewrite (filter_none _ l); [split; apply least_one|]. intros x Hx He. specialize (Hl x Hx). rewrite He in Hl. lia.
  - split; [intros x [Hx| ->]%Hin; [by apply Hl|]; by rewrite Ho|]. rewrite filter_snoc, decide_True by done.
    pose proof (least_snoc n_minimum _ _ c Hm) as H1. pose proof (least_snoc n_record_ttl _ _ c Ht) as H2.
    split; [replace (if _ <? _ then _ else _) with (Z.min (n_minimum c) (n_minimum n)) by (if_as E2; lia)
           |replace (if _ <? _ then _ else _) with (Z.min (n_record_ttl c) (n_record_ttl n)) by (if_as E2; lia)]; done.
  - split; [intros x [Hx| ->]%Hin; [by apply Hl|]; lia|]. rewrite filter_snoc, decide_False, app_nil_r by done. done.
Qed.

Lemma merge_zones l n : Forall (fun c => n_valid c = true) l -> n = foldl negative_merge dns_negative_record_zero l ->
  (l = [] /\ n = dns_negative_record_zero) \/ (n_valid n = true /\ longest_zone l n).
Proof.
  intros Hl. revert n. induction l as [|c l IH] using rev_ind; intros n; [by left|]. rewrite foldl_snoc. intros ->. right.
  apply Forall_app in Hl as [Hl Hc]. apply Forall_cons_1 in Hc as [Hc _]. destruct (IH Hl _ eq_refl) as [[-> ->]|[Hv Hz]].
  - change (negative_merge dns_negative_record_zero c) with c. cbn [app]. split; [exact Hc|]. split; [by intros x ->%list_elem_of_singleton|]. cbn zeta. rewrite filter_cons, filter_nil, decide_True by done. split; apply least_one.
  - split; [|by apply merge_longest]. unfold negative_merge. by split_ifs.
Qed.

Lemma zones_valid m name : is_bytes (msg_data m) -> Forall (fun c => n_valid c = true) (zones m name).
Proof.
  intros Hb. apply list.Forall_forall. intros c [_ Hc]%list_elem_of_filter. apply list_elem_of_omap in Hc as (rr & Hrr & Hz).
  unfold section_of in Hrr. apply list_elem_of_filter in Hrr as [_ Hrr]. apply list_elem_of_omap in Hrr as (i & _ & Hp).
  unfold zone_read in Hz. destruct (ns_rr_type rr =? ns_t_soa); [|done].
  pose proof (negative_record_ok m rr (parserr_record _ _ _ _ Hp) Hb) as Hr. destruct (dns_negative_record_parse m rr); [|done..]. injection Hz as <-. apply Hr.
Qed.

(** Another lifetime of the result. *)
Lemma zone_lowered m name n ttl : zone_of m name n -> zone_of m name (if n_valid n && (ttl <? n_effective_ttl n)
    then {| n_effective_ttl := ttl; n_minimum := n_minimum n; n_owner := n_owner n; n_record_ttl := n_record_ttl n; n_valid := n_valid n |} else n).
Proof. intros [[Hz ->]|Hz]; [by left|]. right. by if_as E. Qed.

Lemma negative_parse_exact m name cnames n : is_bytes (msg_data m) -> dns_negative_response_parse m name cnames dns_negative_record_zero = Next n -> zone_of m name n.
Proof.
  intros Hb. unfold dns_negative_response_parse. if_as E; [done|]. destruct (negative_loop _ _ _ _) as [n0|e|] eqn:En; [|done..]. cbn [mbind run_bind].
  intros [= <-]. apply zone_lowered. apply negative_loop_exact in En. destruct (merge_zones (zones m name) n0) as [?|[_ ?]]; [by apply zones_valid|done|by left|by right].
Qed.

(** ** Chains *)

Lemma matching_exact current cnames found ttl found' ttl' : normal current -> Forall cname_ok cnames -> (forall f, found = Some f -> normal (c_target f)) ->
  matching_cnames current cnames found ttl = Next (found', ttl') ->
  let same := filter (fun x => c_owner x = current) cnames in
  found' = match found with Some f => Some f | None => head same end /\ ttl' = foldl Z.min ttl (c_ttl <$> same) /\
  (forall f, found' = Some f -> Forall (fun x => c_target x = c_target f) same).
Proof.
  intros Hn Hc. cbn zeta. revert found ttl. induction Hc as [|c cnames (Ho & Hg & Ht) Hc IH]; intros found ttl Hf; cbn [matching_cnames]; [by intros [= <- <-]; destruct found|].
  rewrite name_equal_normal, filter_cons by done. case_bool_decide as Heq; cbn [negb]; [rewrite decide_True by done|rewrite decide_False by done; by apply IH].
  if_as E; [done|]. set (f' := match found with Some f => Some f | None => Some c end).
  assert (Hf' : exists f, f' = Some f /\ c_target c = c_target f).
  { destruct found as [f|]; [|by exists c]. exists f. split; [done|]. rewrite name_equal_normal in E by (done || by apply Hf). case_bool_decide; [done|discriminate]. }
  destruct Hf' as (f & Ef & Htg). intros (E1 & E2 & E3)%IH; [|rewrite Ef; intros ? [= <-]; by rewrite <- Htg]. rewrite Ef in E1. cbn [head fmap list_fmap foldl].
  split; [rewrite E1; symmetry; destruct found; exact Ef|]. split; [rewrite E2; f_equal; if_as E4; lia|]. intros g Eg. rewrite E1 in Eg. injection Eg as <-.
  constructor; [done|by apply E3].
Qed.

(** A round follows the aliases of the response as far as they go. *)
Lemma chain_loop_exact fuel owners cnames current chain ttl current' chain' ttl' : Forall cname_ok cnames -> normal current ->
  chain_loop fuel owners cnames current chain ttl = Next (current', chain', ttl') ->
  filter (fun x => c_owner x = current') cnames = [] /\ exists l, chain' = chain ++ l /\ Forall (alias_in cnames) l.
Proof.
  intros Hc. revert current chain ttl. induction fuel as [|fuel IH]; intros current chain ttl Hn; [done|]. cbn [chain_loop].
  pose proof (matching_exact current cnames None UINT32_MAX) as Hm. destruct (matching_cnames current cnames None UINT32_MAX) as [[found t]|e|]; [|done..].
  destruct (Hm found t Hn Hc ltac:(done) eq_refl) as (E1 & E2 & E3). cbn [mbind run_bind]. destruct found as [c|].
  - destruct (_ || _); [done|]. destruct (existsb _ chain); [done|]. unfold array_push. destruct (len chain <? DNS_CNAME_DEPTH_LIMIT); cbn [mbind run_bind]; [|done].
    destruct (filter (fun x => c_owner x = current) cnames) as [|f same] eqn:Es; [done|]. injection E1 as ->.
    assert (Hfi : f ∈ filter (fun x => c_owner x = current) cnames) by (rewrite Es; left). apply list_elem_of_filter in Hfi as [Hown Hfi].
    assert (Hok : cname_ok f) by (by eapply list.Forall_forall). intros [Hend (l & -> & Hl)]%IH; [|apply Hok]. split; [done|].
    eexists. split; [by rewrite <- app_assoc|]. cbn [app]. constructor; [|done]. unfold alias_in. cbn [c_owner c_target c_ttl]. rewrite Hown, Es.
    split; [done|]. split; [by apply E3|done].
  - intros [= <- <- <-]. split; [by destruct (filter _ cnames)|]. exists []. by rewrite app_nil_r.
Qed.

(** ** Responses *)

Context {A R : Type} (k : record_kind A R) (good : A -> Prop) (fits : Z -> R -> Prop) (look : ns_msg -> ns_rr -> option A).
Context (Hk : kind_ok k good fits) (He : kind_exact k look).

(** The records of the kind that the response holds for a name. *)
Definition records_at (m : ns_msg) (name : bytes) : list A := filter (fun a => k_owner k a = name) (omap (look m) (section_of m ns_s_an)).

(** What the response says of the chain to a name, and of the name. *)
Definition tells (m : ns_msg) (status : dns_parse_status) (canonical : bytes) (cnames : list dns_cname_record) (r : dns_result R) : Prop :=
  match status with
  | DNS_PARSE_OK => ns_f_rcode m = ns_r_noerror /\ d_records r = Some (map (k_record k (chain_ttl cnames)) (records_at m canonical))
  | DNS_PARSE_ALIAS_ONLY => ns_f_rcode m = ns_r_noerror /\ records_at m canonical = []
  | DNS_PARSE_NODATA => ns_f_rcode m = ns_r_noerror /\ records_at m canonical = [] /\ zone_of m canonical (d_negative r)
  | DNS_PARSE_NXDOMAIN => ns_f_rcode m = ns_r_nxdomain /\ records_at m canonical = [] /\ zone_of m canonical (d_negative r)
  | _ => True
  end.

Lemma filter_owned current records : normal current -> Forall good records ->
  List.filter (fun a => owned_by current (k_owner k a)) records = filter (fun a => k_owner k a = current) records.
Proof.
  intros Hn Hg. induction Hg as [|a records Ha _ IH]; [done|]. cbn [List.filter]. rewrite filter_cons, IH. unfold owned_by.
  rewrite name_equal_normal by (done || by eapply ko_owner). case_bool_decide; [by rewrite decide_True|by rewrite decide_False].
Qed.

Lemma chain_build_exact alloc records cnames r status r' : Forall good records -> Forall cname_ok cnames -> normal (d_question r) ->
  chain_build k alloc records cnames r = Next (status, r') ->
  let chain := default [] (d_cnames r') in let here := filter (fun a => k_owner k a = d_canonical r') records in
  Forall (alias_in cnames) chain /\ filter (fun x => c_owner x = d_canonical r') cnames = [] /\
  (if len here =? 0 then status <> DNS_PARSE_OK /\ here = [] else status = DNS_PARSE_OK /\ d_records r' = Some (map (k_record k (chain_ttl chain)) here)).
Proof.
  intros Hg Hc Hn. unfold chain_build. if_as E; [done|].
  pose proof (chain_loop_built chain_fuel (d_question r) (k_owner k <$> records) cnames (d_question r) [] UINT32_MAX Hc Hn ltac:(done) eq_refl eq_refl ltac:(done) ltac:(done)) as Hb.
  pose proof (chain_loop_exact chain_fuel (k_owner k <$> records) cnames (d_question r) [] UINT32_MAX) as Hx.
  destruct (chain_loop _ _ _ _ _ _) as [[[current chain] ttl]|e|]; [|done..]. destruct Hb as (_ & _ & Hnc & Httl & _).
  destruct (Hx current chain ttl Hc Hn eq_refl) as [Hend (l & Hl & Hal)]. cbn [app] in Hl. subst l. cbn [mbind run_bind]. rewrite filter_owned by done.
  assert (Hd : default [] (if len cnames =? 0 then None else Some chain) = chain).
  { if_as E2; [|done]. destruct chain as [|c chain]; [done|]. apply Forall_cons_1 in Hal as [(Hne & _) _]. by rewrite (nil_length_inv cnames), filter_nil in Hne by lia. }
  if_as E2; [|if_as E3; [done|]]; intros [= <- <-]; cbn [d_cnames d_canonical d_records]; rewrite Hd, E2; (split; [done|]); (split; [done|]).
  - split; [by if_as E4|]. apply nil_length_inv. lia.
  - split; [done|]. by rewrite Httl.
Qed.

Definition answering (status : dns_parse_status) : Prop :=
  status = DNS_PARSE_OK \/ status = DNS_PARSE_ALIAS_ONLY \/ status = DNS_PARSE_NODATA \/ status = DNS_PARSE_NXDOMAIN.

#[local] Ltac unanswered H := cbn; intros [= <- _]; by destruct H as [?|[?|[?|?]]].

Lemma negative_finish_exact m st rcode canonical cnames status n : is_bytes (msg_data m) -> rcode = ns_r_noerror \/ rcode = ns_r_nxdomain ->
  st = DNS_PARSE_OK \/ st = DNS_PARSE_ALIAS_ONLY \/ st = DNS_PARSE_NODATA ->
  negative_finish m st rcode canonical cnames dns_negative_record_zero = Next (status, n) ->
  match status with
  | DNS_PARSE_OK | DNS_PARSE_ALIAS_ONLY => rcode = ns_r_noerror /\ status = st
  | DNS_PARSE_NODATA => rcode = ns_r_noerror /\ status = st /\ zone_of m canonical n
  | DNS_PARSE_NXDOMAIN => rcode = ns_r_nxdomain /\ st <> DNS_PARSE_OK /\ zone_of m canonical n
  | _ => True
  end.
Proof.
  intros Hb Hrc Hst. pose proof (negative_parse_exact m canonical cnames) as Hn. unfold negative_finish.
  destruct (dns_negative_response_parse _ _ _ _) as [n'|e|]; destruct Hst as [->|[->| ->]], Hrc as [->| ->]; cbn [catch mbind run_bind Z.eqb Pos.eqb ns_r_noerror ns_r_nxdomain];
    try done; intros [= <- <-]; repeat split; try done; by apply Hn.
Qed.

Lemma response_parse_exact alloc message query id status r : is_bytes message -> answering status ->
  response_parse k alloc (Some message) (Some query) id = Some (status, r) ->
  let cnames := default [] (d_cnames r) in
  exists m, response_open (Some message) (Some query) id (k_type k) = Next (m, d_question r) /\ extends m (d_question r) cnames /\ tells m status (d_canonical r) cnames r.
Proof.
  intros Hb Has Hr. pose proof (response_parse_ok k good fits Hk alloc message query id Hb) as Hok. rewrite Hr in Hok.
  assert (Hcan : d_canonical r = chain_end (d_question r) (default [] (d_cnames r))) by (destruct Has as [->|[->|[->| ->]]]; apply Hok). clear Hok.
  revert Hr. unfold response_parse. pose proof (response_open_ok message query id (k_type k)) as Ho.
  destruct (response_open _ _ _ _) as [[m question]|e|]; [| |done]; [|cbn; destruct Ho as [->|[->| ->]]; unanswered Has].
  destruct Ho as (Hm & Hrc & Hcnt & Hn & Heq). cbn [mbind run_bind].
  assert (Hu : u8 (ns_f_rcode m) = ns_f_rcode m) by (apply u8_id; unfold is_byte; lia). rewrite Hu. subst message.
  if_as E1; [unanswered Has|]. if_as E2; [unanswered Has|]. if_as E3; [unanswered Has|].
  pose proof (collect_loop_ok k good fits m (ns_msg_count m ns_s_an) (seq 0 (Z.to_nat (ns_msg_count m ns_s_an))) [] [] Hk Hb ltac:(done) ltac:(done)) as Hcl.
  rewrite length_seq in Hcl. specialize (Hcnt ns_s_an). specialize (Hcl ltac:(cbn; lia) ltac:(cbn; lia)). pose proof (records_collect_exact k look m) as Hce. unfold records_collect in *.
  destruct (collect_loop _ _ _ _ _) as [[records cnames]|e|]; [|subst e; cbn; unanswered Has|done].
  destruct Hcl as (Hgr & Hgc & Hlr & _). destruct (Hce records cnames He eq_refl) as [Hrs Hcs]. cbn [mbind run_bind]. set (r0 := {| d_question := question |}).
  pose proof (chain_build_ok k good fits Hk alloc records cnames r0 Hgr Hgc ltac:(lia) Hn eq_refl eq_refl) as Hbo. pose proof (chain_build_exact alloc records cnames r0) as Hbe.
  destruct (chain_build k alloc records cnames r0) as [[st r1]|e|]; [|destruct Hbo as [->|[->| ->]]; unanswered Has|done].
  destruct Hbo as (Hq & Hrco & Hneg & Hst & Hch & _). destruct (Hbe st r1 Hgr Hgc Hn eq_refl) as (Hal & Hend & Hhere). cbn [mbind run_bind]. rewrite Hneg.
  assert (Hrcs : ns_f_rcode m = ns_r_noerror \/ ns_f_rcode m = ns_r_nxdomain) by (unfold ns_r_noerror, ns_r_nxdomain in *; lia).
  pose proof (negative_finish_ok m st (ns_f_rcode m) (d_canonical r1) (default [] (d_cnames r1)) Hb (chained_ok _ _ Hch) Hrcs Hst) as Hno.
  pose proof (negative_finish_exact m st (ns_f_rcode m) (d_canonical r1) (default [] (d_cnames r1))) as Hne.
  destruct (negative_finish _ _ _ _ _ _) as [[st' n]|e|]; [|destruct Hno as [->| ->]; unanswered Has|done].
  specialize (Hne st' n Hb Hrcs Hst eq_refl). cbn [mbind run_bind parsed]. intros [= <- <-]. exists m. cbn [d_question d_canonical d_cnames d_negative d_records] in *.
  rewrite Hq in Hcan |- *. split; [done|]. split; [unfold extends; rewrite <- Hcs, <- Hcan; done|]. unfold tells, records_at. rewrite <- Hrs. cbn [d_negative d_records].
  destruct Has as [->|[->|[->| ->]]]; revert Hhere; if_as E; intros [Hs Hh]; (destruct Hne as [Hr Hne]; split; [done|]); try done; try (by subst st); destruct Hne as [Hs' Hz]; try done; by subst st.
Qed.

(** ** Lookups *)

(** The message that answers a query, if it passes the checks of a response to it. *)
Definition message_of (answer : query_answer) (query : bytes) : option ns_msg :=
  match dns_query_exact answer with
  | (DNS_QUERY_EXACT_OK, size, id) =>
      if NS_MAXMSG <? size then None else
      match response_open (Some (take (Z.to_nat size) (qa_response answer))) (Some query) id (k_type k) with Next (m, _) => Some m | _ => None end
  | _ => None
  end.

Section followed.
Context (res : nat -> bytes -> query_answer) (name h : bytes).

(** The chain [l] from [h] is followed by the queries [0] to [i]: the first is for the name, and
    each further one for the end of the chain so far, for which the response before had no
    records.  The last is for [query] and is answered by [m]. *)
Inductive followed : nat -> bytes -> list dns_cname_record -> ns_msg -> Prop :=
  | followed_first m l : message_of (res 0 name) name = Some m -> extends m h l -> followed 0 name l m
  | followed_next i query l m m' l' : followed i query l m -> l <> [] -> records_at m (chain_end h l) = [] ->
      message_of (res (S i) (chain_end h l)) (chain_end h l) = Some m' -> extends m' (chain_end h l) l' ->
      followed (S i) (chain_end h l) (l ++ l') m'.

(** The answer of a lookup of at most [n] queries. *)
Definition lookup_tells (n : nat) (status : dns_lookup_status) (r : dns_result R) : Prop :=
  let cnames := default [] (d_cnames r) in
  let last P := exists i query m, (i < n)%nat /\ followed i query cnames m /\ P m in
  match status with
  | DNS_LOOKUP_OK => last (fun m => tells m DNS_PARSE_OK (d_canonical r) cnames r)
  | DNS_LOOKUP_NODATA => last (fun m => tells m DNS_PARSE_NODATA (d_canonical r) cnames r)
  | DNS_LOOKUP_NOT_FOUND => last (fun m => tells m DNS_PARSE_NXDOMAIN (d_canonical r) cnames r)
  | DNS_LOOKUP_PERMANENT_ERROR | DNS_LOOKUP_TEMPORARY_ERROR => cnames = [] \/ last (fun m => tells m DNS_PARSE_ALIAS_ONLY (d_canonical r) cnames r)
  | _ => True
  end.

(** What the rounds before the query [i] have found. *)
Definition so_far (i : nat) (query : bytes) (r : dns_result R) : Prop :=
  let cnames := default [] (d_cnames r) in
  (i = 0%nat /\ query = name /\ r = dns_result_zero) \/
  (exists i' query' m, i = S i' /\ followed i' query' cnames m /\ cnames <> [] /\ ns_f_rcode m = ns_r_noerror /\ records_at m query = []).

Lemma append_cnames_is target source ttl l ttl' : append_cnames target source ttl = Next (l, ttl') -> l = target ++ source.
Proof.
  revert target ttl. induction source as [|c source IH]; intros target ttl; cbn [append_cnames]; [intros [= <- <-]; by rewrite app_nil_r|].
  destruct (existsb _ _); [done|]. unfold array_push. destruct (len target <? _); cbn [mbind run_bind]; [|done]. intros ->%IH. by rewrite <- app_assoc.
Qed.

Lemma chain_append_is alloc (target source : dns_result R) ttl r ttl' : chain_append alloc target source ttl = Next (r, ttl') ->
  default [] (d_cnames r) = default [] (d_cnames target) ++ default [] (d_cnames source).
Proof.
  unfold chain_append. if_as E1; [done|]. if_as E2; [done|]. if_as E3; [done|].
  destruct (append_cnames _ _ _) as [[l t]|e|] eqn:Ea; [|done..]. apply append_cnames_is in Ea. cbn [mbind run_bind]. intros [= <- <-]. cbn [d_cnames].
  if_as E; [|done]. apply andb_true_iff in E as [E4%bool_decide_eq_true E5]. by rewrite E4, (nil_length_inv (default [] (d_cnames source))) by lia.
Qed.

(** The response is for the end of the chain so far. *)
Lemma question_is query r ttl (p : dns_result R) : aggregate_ok k fits h query r ttl -> normal (d_question p) ->
  dns_name_equal (Some (d_question p)) (Some query) = true -> d_question p = chain_end h (default [] (d_cnames r)).
Proof.
  intros (Hq & _ & _ & _ & [[-> Hnm]|(Hqr & _ & (_ & Hcan & Hnc & _) & ->)]) Hn Heq.
  - rewrite (name_equal_normalize _ _ h) in Heq by done. by apply bool_decide_eq_true in Heq.
  - rewrite name_equal_normal in Heq by done. apply bool_decide_eq_true in Heq. congruence.
Qed.

Lemma followed_step i query r ttl m (p : dns_result R) : so_far i query r -> aggregate_ok k fits h query r ttl -> message_of (res i query) query = Some m ->
  d_question p = chain_end h (default [] (d_cnames r)) -> extends m (d_question p) (default [] (d_cnames p)) ->
  followed i query (default [] (d_cnames r) ++ default [] (d_cnames p)) m.
Proof.
  intros [(-> & -> & ->)|(i' & q' & m' & -> & Hf & Hne & _ & Hr)] Ha Hm Hq Hx; rewrite Hq in Hx; [by constructor|].
  assert (Hqe : query = chain_end h (default [] (d_cnames r))).
  { destruct Ha as (_ & _ & _ & _ & [[-> _]|(Hqr & _ & (_ & Hcan & _) & ->)]); [done|]. by rewrite Hcan, Hqr. }
  rewrite Hqe in *. by eapply followed_next.
Qed.

Definition round_tells (i : nat) (o : option (round R)) : Prop :=
  match o with
  | None => True
  | Some (Leave status r) => dns_lookup_status_keeps_result status = true -> lookup_tells (S i) status r
  | Some (Again query r _) => so_far (S i) query r
  end.

(** A failure keeps the chain so far. *)
Lemma failure_tells i query r ttl status rcode : so_far i query r -> aggregate_ok k fits h query r ttl ->
  status = DNS_LOOKUP_PERMANENT_ERROR \/ status = DNS_LOOKUP_TEMPORARY_ERROR -> lookup_tells (S i) status (with_rcode r rcode).
Proof.
  intros Hs Ha Hst. assert (H : let cnames := default [] (d_cnames r) in
    cnames = [] \/ exists i' q m, (i' < S i)%nat /\ followed i' q cnames m /\ tells m DNS_PARSE_ALIAS_ONLY (d_canonical r) cnames r); [|by destruct Hst as [->| ->]].
  destruct Hs as [(_ & _ & ->)|(i' & q' & m & -> & Hf & Hne & Hrc & Hr)]; [by left|]. right. exists i', q', m. split; [lia|]. split; [done|]. split; [done|].
  destruct Ha as (_ & _ & _ & _ & [[-> _]|(_ & _ & _ & ->)]); [by destruct Hne|done].
Qed.

Lemma appended_tells i query alloc r p ttl status m f : so_far i query r -> aggregate_ok k fits h query r ttl -> normal h ->
  message_of (res i query) query = Some m -> normal (d_question p) -> dns_name_equal (Some (d_question p)) (Some query) = true -> answers k fits status p ->
  extends m (d_question p) (default [] (d_cnames p)) ->
  (forall r' ttl', joined h r p r' ttl' -> followed i query (default [] (d_cnames r')) m -> round_tells i (Some (f r' ttl'))) ->
  round_tells i (appended r (chain_append alloc r p ttl) f).
Proof.
  intros Hs Ha Hh Hm Hn Heq Hans Hx Hf. pose proof (chain_append_ok k fits h query alloc r p ttl status Ha Hn Heq Hans Hh) as Hc. unfold appended.
  pose proof (chain_append_is alloc r p ttl) as Hi. destruct (chain_append _ _ _ _) as [[r' ttl']|e|]; [|by destruct Hc as [->|[->| ->]]|done].
  destruct Hc as (C1 & C2 & C3 & C4 & C5 & C6 & C7 & C8 & C9 & C10 & C11). apply Hf.
  - split; try done. split; [|done]. rewrite C6. apply chain_ttl_range. by eapply chained_ok.
  - rewrite (Hi r' ttl' eq_refl). eapply followed_step; try done. by eapply question_is.
Qed.

Lemma lower_record ttl ttl' l : ttl' <= ttl -> map (k_lower k ttl') (map (k_record k ttl) l) = map (k_record k ttl') l.
Proof. intros Hle. rewrite map_map. apply map_ext. intros a. by apply (ke_lower _ _ He). Qed.

Lemma lookup_round_tells i query r ttl : so_far i query r -> aggregate_ok k fits h query r ttl -> normal h -> is_bytes (qa_response (res i query)) ->
  round_tells i (lookup_round k (res i query) query r ttl).
Proof.
  intros Hs Ha Hh Hb. pose proof (failure_tells i query r ttl) as Hfail. assert (Hwr : with_rcode r (d_rcode r) = r) by (by destruct r).
  unfold lookup_round. assert (Hmo : message_of (res i query) query = message_of (res i query) query) by done. unfold message_of in Hmo at 2.
  destruct (dns_query_exact (res i query)) as [[st size] id]. destruct st; try done; try (intros _; rewrite <- Hwr; apply Hfail; tauto).
  destruct (NS_MAXMSG <? size); [done|]. set (message := take _ _) in *. assert (Hbm : is_bytes message) by (by apply Forall_take).
  pose proof (response_parse_ok k good fits Hk (qa_alloc (res i query)) message query id Hbm) as Hp.
  pose proof (response_parse_exact (qa_alloc (res i query)) message query id) as Hx.
  destruct (response_parse k _ _ _ _) as [[status p]|]; [|done]. specialize (Hx status p Hbm). cbn [mbind option_bind]. destruct (negb _ && _); [done|].
  assert (Hans : answering status -> exists m, message_of (res i query) query = Some m /\ extends m (d_question p) (default [] (d_cnames p)) /\
    tells m status (d_canonical p) (default [] (d_cnames p)) p /\ normal (d_question p) /\ dns_name_equal (Some (d_question p)) (Some query) = true /\ answers k fits status p).
  { intros Has. destruct (Hx Has eq_refl) as (m & Ho & Hex & Ht). rewrite Ho in Hmo. exists m. do 3 (split; [done|]). by destruct Has as [->|[->|[->| ->]]]. }
  destruct status; try done.
  - destruct Hans as (m & Hm & Hex & [Hrc Hrec] & Hn & Heq & Hai); [by left|]. eapply appended_tells; try done. intros r' ttl' J F _. exists i, query, m.
    split; [lia|]. split; [done|]. split; [done|]. cbn [with_found d_records d_canonical d_cnames]. rewrite Hrec. cbn [fmap option_fmap option_map].
    by rewrite lower_record, (jo_canonical _ _ _ _ _ J), (jo_ttl _ _ _ _ _ J) by apply J.
  - destruct Hans as (m & Hm & Hex & [Hrc Hrec] & Hn & Heq & Hai); [by right; left|]. eapply appended_tells; try done. intros r' ttl' J F. right. exists i, query, m.
    do 2 (split; [done|]). rewrite (jo_canonical _ _ _ _ _ J). split; [|done]. pose proof (jo_count _ _ _ _ _ J) as Hc. rewrite !count_default in Hc.
    destruct Hai as (_ & _ & _ & _ & _ & _ & _ & _ & Hpos). intros Hz. rewrite Hz in Hc. cbn in Hc. lia.
  - destruct Hans as (m & Hm & Hex & (Hrc & Hrec & Hz) & Hn & Heq & Hai); [by right; right; left|]. eapply appended_tells; try done. intros r' ttl' J F _. exists i, query, m.
    split; [lia|]. split; [done|]. split; [done|]. cbn [with_negative d_negative d_canonical]. rewrite (jo_canonical _ _ _ _ _ J). split; [done|]. by apply zone_lowered.
  - destruct Hans as (m & Hm & Hex & (Hrc & Hrec & Hz) & Hn & Heq & Hai); [by right; right; right|]. eapply appended_tells; try done. intros r' ttl' J F _. exists i, query, m.
    split; [lia|]. split; [done|]. split; [done|]. cbn [with_negative d_negative d_canonical]. rewrite (jo_canonical _ _ _ _ _ J). split; [done|]. by apply zone_lowered.
  - destruct Hp as (_ & _ & _ & _ & Hpr). cbn [dns_lookup_parse_status]. destruct (_ =? ns_r_servfail); cbn [dns_lookup_status_keeps_result]; intros _;
      (destruct (bool_decide _); [left; by rewrite Hpr|apply Hfail; tauto]).
Qed.

(** A lookup reports what its queries were answered. *)
Lemma lookup_loop_tells : normal h -> (forall i q, is_bytes (qa_response (res i q))) -> forall fuel i query r ttl status r',
  so_far i query r -> aggregate_ok k fits h query r ttl -> lookup_loop k fuel res i query r ttl = Some (status, r') -> lookup_tells (i + fuel) status r'.
Proof.
  intros Hh Hb. induction fuel as [|fuel IH]; intros i query r ttl status r' Hs Ha; [done|]. cbn [lookup_loop].
  pose proof (lookup_round_tells i query r ttl Hs Ha Hh (Hb i query)) as Ht. pose proof (lookup_round_ok k good fits Hk h (res i query) query r ttl Ha Hh (Hb i query)) as Hr.
  destruct (lookup_round k _ _ _ _) as [[st r1|query' r1 ttl']|]; [| |done]; cbn [mbind option_bind].
  - intros [= <- <-]. if_as E; [|by destruct st]. specialize (Ht E). revert Ht. unfold lookup_tells. destruct st; try done; cbn zeta;
      intros H; [..|destruct H as [H|H]; [by left|right]|destruct H as [H|H]; [by left|right]]; destruct H as (j & q & m & Hj & H); exists j, q, m; (split; [lia|done]).
  - rewrite Nat.add_succ_r. apply (IH (S i)); [done|apply Hr].
Qed.

End followed.

Lemma lookup_tells_is init alloc res name h status r : resolver_name_normalize (Some name) = Some h -> is_cstr name -> (forall i q, is_bytes (qa_response (res i q))) ->
  Dns.lookup k init alloc res name = Some (status, r) -> lookup_tells res name h 17 status r.
Proof.
  intros Hn Hc Hb. unfold Dns.lookup. destruct (dns_resolver_init init); [|intros [= <- <-]; by left]. destruct alloc; cbn [negb]; [|by intros [= <- <-]].
  apply (lookup_loop_tells res name h) with (i := 0%nat); [by eapply normalize_normal|done|by left|].
  split; [done|]. split; [done|]. split; [done|]. split; [done|]. by left.
Qed.

End messages.

(** ** Lookups of the two kinds *)

Section kinds.
Context {NS : nameser} {NL : nameser_laws}.

(** C18: a lookup of a name returns, after at most seventeen queries, whatever the answers
    to them are: an alias chain that never ends or closes into a loop is cut off.  An
    answer is one chain of aliases from the normalised name, each an alias of its owner in
    the response it comes from, with the least lifetime of its aliases there; each query
    after the first is for the end of the chain so far.  A positive answer has exactly
    the records of the asked type that the last response holds for the end of the chain,
    in order, with lifetimes bounded by the chain; a negative answer says that there
    are none, with the record of the longest enclosing zone in that response.  A lookup
    the resolver fails keeps at most the chain so far and the code, and every other
    failure nothing. *)
Theorem dns_lookup_ends init alloc res name h family : resolver_name_normalize (Some name) = Some h -> is_cstr name ->
  (forall i q, is_bytes (qa_response (res i q))) -> family = AF_INET \/ family = AF_INET6 ->
  (exists status r, dns_address_lookup init alloc res (Some name) family (Some dns_address_result_zero) = Some (status, Some (to_address_result r)) /\
     lookup_ok (address_kind family) (address_found family) h status r /\ lookup_tells (address_kind family) (address_read family) res name h 17 status r) /\
  (exists status r, dns_srv_lookup init alloc res (Some name) (Some dns_srv_result_zero) = Some (status, Some (to_srv_result r)) /\
     lookup_ok srv_kind srv_found h status r /\ lookup_tells srv_kind srv_read res name h 17 status r).
Proof.
  intros Hn Hc Hb Hf. rewrite (address_lookup_is init alloc res name h family Hn Hf), (srv_lookup_is init alloc res name h Hn). split.
  - destruct (lookup_is_ok _ _ _ (address_kind_ok family Hf) h init alloc res name Hn Hc Hb) as (status & r & He & Ho). exists status, r. rewrite He.
    split; [done|]. split; [done|]. by eapply (lookup_tells_is _ _ _ _ (address_kind_ok family Hf) (address_exact family)).
  - destruct (lookup_is_ok _ _ _ srv_kind_ok h init alloc res name Hn Hc Hb) as (status & r & He & Ho). exists status, r. rewrite He.
    split; [done|]. split; [done|]. by eapply (lookup_tells_is _ _ _ _ srv_kind_ok srv_exact).
Qed.

End kinds.

#[local] Existing Instance sample_nameser.

Lemma dns_lookup_ends_witness :
  exists status r, dns_address_lookup (Some (5, 2)) true (fun _ => sample_answer) (Some [65; 46; 98]) AF_INET (Some dns_address_result_zero)
     = Some (status, Some (to_address_result r)) /\ status = DNS_LOOKUP_OK /\ len (default [] (d_cnames r)) = 1 /\
     lookup_tells (address_kind AF_INET) (address_read AF_INET) (fun _ => sample_answer) [65; 46; 98] [97; 46; 98] 17 DNS_LOOKUP_OK r.
Proof.
  pose proof sample_nameser_laws as NL.
  destruct (dns_lookup_ends (Some (5, 2)) true (fun _ => sample_answer) [65; 46; 98] [97; 46; 98] AF_INET ltac:(reflexivity) ltac:(repeat constructor; lia)
    (fun _ q => sample_answer_bytes q) ltac:(by left)) as [(status & r & He & _ & Ho) _].
  assert (Hs : status = DNS_LOOKUP_OK) by (vm_compute in He; congruence). rewrite Hs in Ho.
  exists status, r. split; [exact He|]. split; [exact Hs|]. split; [|exact Ho]. clear Ho. vm_compute in He. destruct r; cbn in *. by injection He as _ _ _ <-.
Defined.
