(* ===== verification/Helper.v ===== *)
(** * The resolver helper process ([src/src/resolver/helper.c])

    What the kernel answers to each call of the helper is a list in its [channel], in
    order; a call whose list is used up has not returned yet, which is [Blocked].  The
    parent, the resolver and the clock are such lists too.  [Fault] is a memory error.
    The start of the process is in the module [Process]: its descriptor table is the set
    of its open descriptors. *)

From S2P Require Import Prelude Proxy TimeUtil ResolverUtil Cache Ipc IpcAssembly Dns DnsCoherent.
From stdpp Require Import gmap.
#[local] Open Scope Z_scope.

(** ** Types *)

Definition EINTR : Z := 4.
Definition EAGAIN : Z := 11.
Definition EWOULDBLOCK : Z := EAGAIN.
Definition POLLIN : Z := 1.
Definition POLLOUT : Z := 4.
Definition POLLHUP : Z := 16.
Definition POLLNVAL : Z := 32.
Definition RESOLVER_HELPER_RECEIVE_BYTE_CAPACITY : Z := RESOLVER_IPC_PACKET_BYTE_LIMIT + 1.

Inductive resolver_helper_status :=
  | RESOLVER_HELPER_OK | RESOLVER_HELPER_BAD_ARGUMENT | RESOLVER_HELPER_INTERNAL | RESOLVER_HELPER_IO | RESOLVER_HELPER_PROTOCOL.
#[export] Instance resolver_helper_status_eq_dec : EqDecision resolver_helper_status.
Proof. solve_decision. Defined.

Inductive resolver_helper_receive_status :=
  | RESOLVER_HELPER_RECEIVE_DATA | RESOLVER_HELPER_RECEIVE_END | RESOLVER_HELPER_RECEIVE_IO | RESOLVER_HELPER_RECEIVE_PROTOCOL.

Record poll_answer := { pl_result : Z; pl_errno : Z; pl_revents : Z }.
(** A record of the socket, of which [recv] copies what fits, or an error.  No bytes are
    an empty record or the end. *)
Inductive recv_answer := Received (record : bytes) | RecvFailed (errno : Z).
Inductive send_answer := Taken (size : Z) | SendFailed (errno : Z).
(** What one lookup meets: [res_ninit], the buffer, and the answers to its queries. *)
Record lookup_answers := { lk_init : option (Z * Z); lk_alloc : bool; lk_res : nat -> bytes -> query_answer }.

Record channel := {
  ch_polls : list poll_answer; ch_recvs : list recv_answer; ch_peeks : list recv_answer; ch_sends : list send_answer;
  ch_clocks : list (option timespec); ch_lookups : list lookup_answers;
  ch_waits : list Z; (* the events waited for *)
  ch_sent : list bytes; (* the packets sent *)
}.

Inductive progress (A : Type) := Done (a : A) (w : channel) | Blocked (w : channel) | Fault.
Arguments Done {_} _ _.
Arguments Blocked {_} _.
Arguments Fault {_}.

(** The state monad of the helper. *)
Definition task (A : Type) : Type := channel -> progress A.
#[export] Instance task_ret : MRet task := fun _ a w => Done a w.
#[export] Instance task_bind : MBind task := fun _ _ f m w => match m w with Done a w => f a w | Blocked w => Blocked w | Fault => Fault end.

Definition with_polls (w : channel) (polls : list poll_answer) (events : Z) : channel :=
  {| ch_polls := polls; ch_recvs := ch_recvs w; ch_peeks := ch_peeks w; ch_sends := ch_sends w; ch_clocks := ch_clocks w; ch_lookups := ch_lookups w;
     ch_waits := ch_waits w ++ [events]; ch_sent := ch_sent w |}.
Definition with_recvs (w : channel) (recvs : list recv_answer) : channel :=
  {| ch_polls := ch_polls w; ch_recvs := recvs; ch_peeks := ch_peeks w; ch_sends := ch_sends w; ch_clocks := ch_clocks w; ch_lookups := ch_lookups w;
     ch_waits := ch_waits w; ch_sent := ch_sent w |}.
Definition with_peeks (w : channel) (peeks : list recv_answer) : channel :=
  {| ch_polls := ch_polls w; ch_recvs := ch_recvs w; ch_peeks := peeks; ch_sends := ch_sends w; ch_clocks := ch_clocks w; ch_lookups := ch_lookups w;
     ch_waits := ch_waits w; ch_sent := ch_sent w |}.
Definition with_sends (w : channel) (sends : list send_answer) (sent : list bytes) : channel :=
  {| ch_polls := ch_polls w; ch_recvs := ch_recvs w; ch_peeks := ch_peeks w; ch_sends := sends; ch_clocks := ch_clocks w; ch_lookups := ch_lookups w;
     ch_waits := ch_waits w; ch_sent := ch_sent w ++ sent |}.
Definition with_clocks (w : channel) (clocks : list (option timespec)) : channel :=
  {| ch_polls := ch_polls w; ch_recvs := ch_recvs w; ch_peeks := ch_peeks w; ch_sends := ch_sends w; ch_clocks := clocks; ch_lookups := ch_lookups w;
     ch_waits := ch_waits w; ch_sent := ch_sent w |}.
Definition with_lookups (w : channel) (lookups : list lookup_answers) : channel :=
  {| ch_polls := ch_polls w; ch_recvs := ch_recvs w; ch_peeks := ch_peeks w; ch_sends := ch_sends w; ch_clocks := ch_clocks w; ch_lookups := lookups;
     ch_waits := ch_waits w; ch_sent := ch_sent w |}.

(** ** Packets *)

Fixpoint poll_retry (polls : list poll_answer) : option (poll_answer * list poll_answer) :=
  match polls with
  | [] => None
  | p :: polls => if (pl_result p =? -1) && (pl_errno p =? EINTR) then poll_retry polls else Some (p, polls)
  end.

(** The returned events with the status. *)
Definition resolver_helper_event_wait (events : Z) : task (resolver_helper_status * Z) := fun w =>
  match poll_retry (ch_polls w) with
  | None => Blocked (with_polls w [] events)
  | Some (p, polls) =>
      let w := with_polls w polls events in
      if negb (pl_result p =? 1) || negb (Z.land (pl_revents p) POLLNVAL =? 0) then Done (RESOLVER_HELPER_IO, 0) w
      else Done (RESOLVER_HELPER_OK, pl_revents p) w
  end.

Definition would_block (errno : Z) : bool := (errno =? EAGAIN) || (errno =? EWOULDBLOCK).

(** An empty record or the end: the next record is looked at. *)
Fixpoint peek_retry (peeks : list recv_answer) : option (recv_answer * list recv_answer) :=
  match peeks with
  | [] => None
  | RecvFailed errno :: peeks => if errno =? EINTR then peek_retry peeks else Some (RecvFailed errno, peeks)
  | Received record :: peeks => Some (Received record, peeks)
  end.
Definition receive_empty : task (resolver_helper_receive_status * bytes) := fun w =>
  match peek_retry (ch_peeks w) with
  | None => Blocked (with_peeks w [])
  | Some (peeked, peeks) =>
      Done (match peeked with
            | Received [] => RESOLVER_HELPER_RECEIVE_END
            | Received _ => RESOLVER_HELPER_RECEIVE_PROTOCOL
            | RecvFailed errno => if would_block errno then RESOLVER_HELPER_RECEIVE_PROTOCOL else RESOLVER_HELPER_RECEIVE_IO
            end, []) (with_peeks w peeks)
  end.

(** The loop of the receive, on the records still to come. *)
Fixpoint receive_loop (packet_capacity : Z) (recvs : list recv_answer) (w : channel) : progress (resolver_helper_receive_status * bytes) :=
  match resolver_helper_event_wait POLLIN w with
  | Done (status, events) w =>
      if negb (bool_decide (status = RESOLVER_HELPER_OK)) then Done (RESOLVER_HELPER_RECEIVE_IO, []) w else
      if Z.land events POLLIN =? 0 then
        Done (if negb (Z.land events POLLHUP =? 0) then RESOLVER_HELPER_RECEIVE_END else RESOLVER_HELPER_RECEIVE_IO, []) w else
      match recvs with
      | [] => Blocked (with_recvs w [])
      | Received record :: recvs =>
          let w := with_recvs w recvs in
          let received := Z.min (len record) packet_capacity in
          if 0 <? received then
            if RESOLVER_IPC_PACKET_BYTE_LIMIT <? received then Done (RESOLVER_HELPER_RECEIVE_PROTOCOL, []) w
            else Done (RESOLVER_HELPER_RECEIVE_DATA, take (Z.to_nat received) record) w
          else receive_empty w
      | RecvFailed errno :: recvs =>
          let w := with_recvs w recvs in
          if negb (errno =? EINTR) && negb (would_block errno) then Done (RESOLVER_HELPER_RECEIVE_IO, []) w
          else receive_loop packet_capacity recvs w
      end
  | Blocked w => Blocked w
  | Fault => Fault
  end.

Definition resolver_helper_packet_receive (packet_capacity : Z) : task (resolver_helper_receive_status * bytes) := fun w =>
  if packet_capacity <=? RESOLVER_IPC_PACKET_BYTE_LIMIT then Done (RESOLVER_HELPER_RECEIVE_PROTOCOL, []) w
  else receive_loop packet_capacity (ch_recvs w) w.

Fixpoint send_loop (packet : bytes) (sends : list send_answer) (w : channel) : progress resolver_helper_status :=
  match sends with
  | [] => Blocked (with_sends w [] [])
  | Taken sent :: sends =>
      if sent =? len packet then Done RESOLVER_HELPER_OK (with_sends w sends [packet]) else Done RESOLVER_HELPER_IO (with_sends w sends [])
  | SendFailed errno :: sends =>
      let w := with_sends w sends [] in
      if errno =? EINTR then send_loop packet sends w else
      if negb (would_block errno) then Done RESOLVER_HELPER_IO w else
      match resolver_helper_event_wait POLLOUT w with
      | Done (status, events) w =>
          if negb (bool_decide (status = RESOLVER_HELPER_OK)) || (Z.land events POLLOUT =? 0) then Done RESOLVER_HELPER_IO w
          else send_loop packet sends w
      | Blocked w => Blocked w
      | Fault => Fault
      end
  end.

Definition resolver_helper_packet_send (packet : bytes) : task resolver_helper_status := fun w =>
  if (len packet =? 0) || (RESOLVER_IPC_PACKET_BYTE_LIMIT <? len packet) then Done RESOLVER_HELPER_INTERNAL w
  else send_loop packet (ch_sends w) w.

(** ** Responses *)

Definition encoded_send (encoded : resolver_ipc_codec_status + bytes) : task resolver_helper_status :=
  match encoded with
  | inl _ => mret RESOLVER_HELPER_INTERNAL
  | inr packet => resolver_helper_packet_send packet
  end.

Definition resolver_helper_response_begin_send (response : resolver_ipc_response_begin) : task resolver_helper_status :=
  encoded_send (resolver_ipc_response_begin_encode response RESOLVER_IPC_PACKET_BYTE_LIMIT).
Definition resolver_helper_response_cname_send (response : resolver_ipc_response_cname) : task resolver_helper_status :=
  encoded_send (resolver_ipc_response_cname_encode response RESOLVER_IPC_PACKET_BYTE_LIMIT).
Definition resolver_helper_response_address_packet_send (response : resolver_ipc_response_address) : task resolver_helper_status :=
  encoded_send (resolver_ipc_response_address_encode response RESOLVER_IPC_PACKET_BYTE_LIMIT).
Definition resolver_helper_response_srv_packet_send (response : resolver_ipc_response_srv) : task resolver_helper_status :=
  encoded_send (resolver_ipc_response_srv_encode response RESOLVER_IPC_PACKET_BYTE_LIMIT).
Definition resolver_helper_response_end_send (response : resolver_ipc_response_end) : task resolver_helper_status :=
  encoded_send (resolver_ipc_response_end_encode response RESOLVER_IPC_PACKET_BYTE_LIMIT).

(** The loops over the aliases and the records, while the status is good. *)
Fixpoint records_send {R} (send : Z -> R -> task resolver_helper_status) (index : nat) (l : list R) (status : resolver_helper_status)
    : task resolver_helper_status :=
  match status, l with
  | RESOLVER_HELPER_OK, r :: l => status ← send (u16 (Z.of_nat index)) r; records_send send (S index) l status
  | _, _ => mret status
  end.

(** The packets of one response, once its result and the time are known. *)
Definition response_send {R} (request : resolver_ipc_request) (send : Z -> R -> task resolver_helper_status) (begin : resolver_ipc_response_begin)
    (cnames : list dns_cname_record) (records : list R) : task resolver_helper_status :=
  status ← resolver_helper_response_begin_send begin;
  status ← records_send (fun index c =>
    resolver_helper_response_cname_send {| rc_record := c; rc_index := index; rc_query_id := q_query_id request |}) 0 cnames status;
  status ← records_send send 0 records status;
  match status with
  | RESOLVER_HELPER_OK =>
      resolver_helper_response_end_send {| e_cname_count := len cnames; e_query_id := q_query_id request; e_record_count := len records |}
  | _ => mret status
  end.

Definition next_clock : task (option timespec) := fun w =>
  match ch_clocks w with [] => Blocked w | now :: clocks => Done now (with_clocks w clocks) end.
Definition next_lookup : task lookup_answers := fun w =>
  match ch_lookups w with [] => Blocked w | l :: lookups => Done l (with_lookups w lookups) end.
Definition faults {A} (o : option A) : task A := fun w => match o with None => Fault | Some a => Done a w end.

Section helper.
Context `{nameser}.

Definition resolver_helper_response_address_send (request : resolver_ipc_request) : task resolver_helper_status :=
  let family := if q_query_type request =? ns_t_a then AF_INET else AF_INET6 in
  answers ← next_lookup;
  '(lookup_status, result) ← faults (dns_address_lookup (lk_init answers) (lk_alloc answers) (lk_res answers) (Some (q_query_name request)) family
    (Some dns_address_result_zero));
  result ← faults result;
  match resolver_ipc_lookup_status_from_address lookup_status with
  | None => mret RESOLVER_HELPER_INTERNAL
  | Some response_status =>
      now ← next_clock;
      match now with
      | None => mret RESOLVER_HELPER_INTERNAL
      | Some completed_at =>
          response_send request (fun index r =>
              resolver_helper_response_address_packet_send {| ra_index := index; ra_query_id := q_query_id request; ra_record := r |})
            {| b_canonical_name := ar_canonical_name result; b_cname_count := count_of (ar_cnames result); b_completed_at := completed_at;
               b_negative := ar_negative result; b_query_class := q_query_class request; b_query_id := q_query_id request;
               b_query_type := q_query_type request; b_question_name := ar_question_name result; b_rcode := ar_rcode result;
               b_record_count := count_of (ar_addresses result); b_status := response_status |}
            (default [] (ar_cnames result)) (default [] (ar_addresses result))
      end
  end.

Definition resolver_helper_response_srv_send (request : resolver_ipc_request) : task resolver_helper_status :=
  answers ← next_lookup;
  '(lookup_status, result) ← faults (dns_srv_lookup (lk_init answers) (lk_alloc answers) (lk_res answers) (Some (q_query_name request))
    (Some dns_srv_result_zero));
  result ← faults result;
  match resolver_ipc_lookup_status_from_srv lookup_status with
  | None => mret RESOLVER_HELPER_INTERNAL
  | Some response_status =>
      now ← next_clock;
      match now with
      | None => mret RESOLVER_HELPER_INTERNAL
      | Some completed_at =>
          response_send request (fun index r =>
              resolver_helper_response_srv_packet_send {| rs_index := index; rs_query_id := q_query_id request; rs_record := r |})
            {| b_canonical_name := sr_canonical_name result; b_cname_count := count_of (sr_cnames result); b_completed_at := completed_at;
               b_negative := sr_negative result; b_query_class := q_query_class request; b_query_id := q_query_id request;
               b_query_type := q_query_type request; b_question_name := sr_question_name result; b_rcode := sr_rcode result;
               b_record_count := count_of (sr_records result); b_status := response_status |}
            (default [] (sr_cnames result)) (default [] (sr_records result))
      end
  end.

(** One round of the loop: [Some status] returns it. *)
Definition helper_round : task (option resolver_helper_status) :=
  '(receive_status, packet) ← resolver_helper_packet_receive RESOLVER_HELPER_RECEIVE_BYTE_CAPACITY;
  match receive_status with
  | RESOLVER_HELPER_RECEIVE_END => mret (Some RESOLVER_HELPER_OK)
  | RESOLVER_HELPER_RECEIVE_IO => mret (Some RESOLVER_HELPER_IO)
  | RESOLVER_HELPER_RECEIVE_PROTOCOL => mret (Some RESOLVER_HELPER_PROTOCOL)
  | RESOLVER_HELPER_RECEIVE_DATA =>
      match resolver_ipc_request_decode (Some packet) with
      | Oob => fun _ => Fault
      | Return _ => mret (Some RESOLVER_HELPER_PROTOCOL)
      | Next request =>
          status ← (if q_query_type request =? ns_t_srv then resolver_helper_response_srv_send request else resolver_helper_response_address_send request);
          mret (if bool_decide (status = RESOLVER_HELPER_OK) then None else Some status)
      end
  end.

(** Every round receives a record, so that [fuel] rounds are enough for the records there
    are; after them the helper waits. *)
Fixpoint helper_loop (fuel : nat) : task resolver_helper_status :=
  match fuel with
  | O => fun w => Blocked w
  | S fuel => r ← helper_round; match r with Some status => mret status | None => helper_loop fuel end
  end.
Definition resolver_helper_run (socket_fd : Z) : task resolver_helper_status := fun w =>
  if socket_fd <? 0 then Done RESOLVER_HELPER_BAD_ARGUMENT w else helper_loop (S (length (ch_recvs w))) w.

End helper.

(** ** The process *)

Module Process.

Definition RESOLVER_HELPER_PROCESS_SOCKET_FD : Z := 3.
Definition STDIN_FILENO : Z := 0.
Definition STDOUT_FILENO : Z := 1.
Definition STDERR_FILENO : Z := 2.
Definition SIGINT : Z := 2.
Definition SIGUSR1 : Z := 10.
Definition SIGTERM : Z := 15.

Inductive disposition := SIG_IGN | SIG_DFL.
(** A process: what its descriptors refer to, what its signals do, its signal mask, the
    signal of its parent's death and its name. *)
Record process := {
  pr_files : gmap Z Z; pr_actions : gmap Z disposition; pr_mask : gset Z; pr_death_signal : option Z; pr_name : bytes;
}.

Definition with_files (p : process) (files : gmap Z Z) : process :=
  {| pr_files := files; pr_actions := pr_actions p; pr_mask := pr_mask p; pr_death_signal := pr_death_signal p; pr_name := pr_name p |}.
Definition with_action (p : process) (signal : Z) (d : disposition) : process :=
  {| pr_files := pr_files p; pr_actions := <[signal := d]> (pr_actions p); pr_mask := pr_mask p; pr_death_signal := pr_death_signal p; pr_name := pr_name p |}.
Definition with_mask (p : process) (mask : gset Z) : process :=
  {| pr_files := pr_files p; pr_actions := pr_actions p; pr_mask := mask; pr_death_signal := pr_death_signal p; pr_name := pr_name p |}.
Definition with_death_signal (p : process) (signal : Z) : process :=
  {| pr_files := pr_files p; pr_actions := pr_actions p; pr_mask := pr_mask p; pr_death_signal := Some signal; pr_name := pr_name p |}.
Definition with_name (p : process) (name : bytes) : process :=
  {| pr_files := pr_files p; pr_actions := pr_actions p; pr_mask := pr_mask p; pr_death_signal := pr_death_signal p; pr_name := name |}.

(** A name of a process has at most fifteen bytes. *)
Definition TASK_COMM_LEN : nat := 16.

Definition close (p : process) (fd : Z) : process := with_files p (delete fd (pr_files p)).
Definition closefrom (p : process) (fd : Z) : process := with_files p (filter (fun e => e.1 < fd) (pr_files p)).
(** [dup3] fails on a closed descriptor, and when the kernel says so. *)
Definition dup3 (ok : bool) (p : process) (from to : Z) : option process :=
  file ← pr_files p !! from; if ok then Some (with_files p (<[to := file]> (pr_files p))) else None.

(** Which of the calls of the child succeed, and the parent it has. *)
Record child_answers := {
  ca_death_signal : bool; ca_parent : Z; ca_usr1 : bool; ca_int : bool; ca_term : bool; ca_mask : bool; ca_name : bool; ca_dup3 : bool;
}.

(** The new descriptor, or nothing for -1. *)
Definition resolver_helper_process_descriptors_prepare (a : child_answers) (p : process) (socket_fd : Z) : process * option Z :=
  match (if negb (socket_fd =? RESOLVER_HELPER_PROCESS_SOCKET_FD)
         then p ← dup3 (ca_dup3 a) p socket_fd RESOLVER_HELPER_PROCESS_SOCKET_FD; Some (close p socket_fd) else Some p) with
  | None => (p, None)
  | Some p =>
      let p := close p STDIN_FILENO in
      let p := close p STDOUT_FILENO in
      let p := close p STDERR_FILENO in
      (closefrom p (RESOLVER_HELPER_PROCESS_SOCKET_FD + 1), Some RESOLVER_HELPER_PROCESS_SOCKET_FD)
  end.

Definition resolver_helper_process_signals_restore (a : child_answers) (p : process) (signal_mask : gset Z) : process * bool :=
  if negb (ca_usr1 a) then (p, false) else
  let p := with_action p SIGUSR1 SIG_IGN in
  if negb (ca_int a) then (p, false) else
  let p := with_action p SIGINT SIG_DFL in
  if negb (ca_term a) then (p, false) else
  let p := with_action p SIGTERM SIG_DFL in
  if ca_mask a then (with_mask p signal_mask, true) else (p, false).

(** [Some s]: the helper returned [s] or is blocked, in the process as it is then; the
    descriptor is closed after the return. *)
Definition resolver_helper_process_child_run `{nameser} (a : child_answers) (p : process) (w : channel) (socket_fd parent_pid : Z) (signal_mask : gset Z)
    (process_name : bytes) : process * progress resolver_helper_status :=
  if negb (ca_death_signal a) then (p, Done RESOLVER_HELPER_INTERNAL w) else
  let p := with_death_signal p SIGTERM in
  if negb (ca_parent a =? parent_pid) then (p, Done RESOLVER_HELPER_INTERNAL w) else
  let '(p, restored) := resolver_helper_process_signals_restore a p signal_mask in
  if negb restored then (p, Done RESOLVER_HELPER_INTERNAL w) else
  let p := if ca_name a then with_name p (take (TASK_COMM_LEN - 1) process_name) else p in
  let '(p, socket_fd) := resolver_helper_process_descriptors_prepare a p socket_fd in
  match socket_fd with
  | None => (p, Done RESOLVER_HELPER_INTERNAL w)
  | Some socket_fd =>
      match resolver_helper_run socket_fd w with
      | Done status w => (close p socket_fd, Done status w)
      | r => (p, r)
      end
  end.

(** What the parent's calls answer: the two sockets with what they refer to, its
    identifier, and what [fork] returns. *)
Record start_answers := { sa_sockets : option ((Z * Z) * (Z * Z)); sa_pid : Z; sa_fork : Z; sa_errno : Z }.

(** The return of the parent, with [errno] and the two results, or the exit of the child. *)
Inductive started :=
  | Returned (p : process) (result errno : Z) (process_id socket_fd : option Z)
  | Exited (p : process) (r : progress resolver_helper_status).

Definition resolver_helper_process_start `{nameser} (s : start_answers) (a : child_answers) (p : process) (w : channel) (signal_mask : option (gset Z))
    (process_name : option bytes) (process_id socket_fd : option Z) : started :=
  let process_id := const (-1) <$> process_id in
  let socket_fd := const (-1) <$> socket_fd in
  match signal_mask, process_name, process_id, socket_fd with
  | Some signal_mask, Some ((_ :: _) as process_name), Some _, Some _ =>
      match sa_sockets s with
      | None => Returned p (-1) (sa_errno s) process_id socket_fd
      | Some ((fd0, file0), (fd1, file1)) =>
          let p := with_files p (<[fd1 := file1]> (<[fd0 := file0]> (pr_files p))) in
          if sa_fork s =? -1 then Returned (close (close p fd0) fd1) (-1) (sa_errno s) process_id socket_fd else
          if sa_fork s =? 0 then
            let '(p, r) := resolver_helper_process_child_run a (close p fd0) w fd1 (sa_pid s) signal_mask process_name in Exited p r else
          Returned (close p fd1) 0 0 (Some (sa_fork s)) (Some fd0)
      end
  | _, _, _, _ => Returned p (-1) EINVAL process_id socket_fd
  end.

End Process.
