(* ===== verification/HelperServes.v ===== *)
(** * What the resolver helper sends

    The result of every lookup is a coherent response to the request, so that the
    packets the helper sends are accepted by the assembly of the parent, which ends with
    the result of the lookup. *)

From S2P Require Import Prelude Proxy TimeUtil ResolverUtil Cache Ipc IpcAssembly Dns DnsCoherent Helper.
From stdpp Require Import gmap.
#[local] Open Scope Z_scope.

(** ** Results as responses *)

Definition begin_of {R} (q : resolver_ipc_request) (now : timespec) (status : resolver_ipc_lookup_status) (r : dns_result R) : resolver_ipc_response_begin := {|
  b_canonical_name := d_canonical r; b_cname_count := count_of (d_cnames r); b_completed_at := now; b_negative := d_negative r;
  b_query_class := q_query_class q; b_query_id := q_query_id q; b_query_type := q_query_type q; b_question_name := d_question r;
  b_rcode := d_rcode r; b_record_count := count_of (d_records r); b_status := status |}.

(** The assembly of the request, in the parent. *)
Definition assembly_of (handle : Z) (q : resolver_ipc_request) : resolver_ipc_assembly :=
  fresh_assembly handle (q_query_name q) (q_query_type q) (q_query_id q).

Lemma status_from st s : resolver_ipc_lookup_status_from_address st = Some s \/ resolver_ipc_lookup_status_from_srv st = Some s ->
  resolver_ipc_lookup_status_valid s = true /\ resolver_ipc_lookup_status_from_address st = Some s /\ resolver_ipc_lookup_status_from_srv st = Some s.
Proof. destruct st; vm_compute; intros [[= <-]|[= <-]]; done. Qed.

Lemma negative_ok_valid canonical ttl n : 0 <= ttl -> negative_ok canonical ttl n -> negative_typed n /\ resolver_ipc_negative_valid n = true.
Proof.
  intros Ht [->|(V & N & Ze & M & R & F)].
  - split; [|done]. unfold negative_typed. cbn. repeat split; try lia. by apply Forall_nil.
  - pose proof (normal_shape _ N) as (Hl & _). split; [split; [lia|]; split; [done|]; split; [done|apply N]|]. unfold resolver_ipc_negative_valid. rewrite V. cbn [negb].
    rewrite bool_decide_eq_true_2; [lia|]. unfold resolver_ipc_name_size. if_as E; [unfold NS_MAXDNAME in *; lia|done].
Qed.

Section coherence.
Context {A R : Type} (k : record_kind A R) (good : A -> Prop) (fits : Z -> R -> Prop) (Hk : kind_ok k good fits).

(** What a result has of a response. *)
Record shaped (h : bytes) (r : dns_result R) : Prop := {
  sh_question : d_question r = [] \/ d_question r = h;
  sh_canonical : d_canonical r = [] \/ normal (d_canonical r);
  sh_chain : chained (d_question r) (default [] (d_cnames r));
  sh_cnames : len (default [] (d_cnames r)) <= 16;
  sh_negative : negative_ok (d_canonical r) (chain_ttl (default [] (d_cnames r))) (d_negative r);
  sh_rcode : 0 <= d_rcode r <= 15;
  sh_records : Forall (fits (chain_ttl (default [] (d_cnames r)))) (default [] (d_records r));
  sh_limit : len (default [] (d_records r)) <= 128;
}.

Lemma answers_shaped h st r : d_question r = h -> answers k fits st r -> shaped h r.
Proof.
  intros Hq (Hch & Hcan & Hnc & Hlen & Hneg & Hrc & Hst). split; try done; try by right.
  - rewrite Hrc. case_decide; unfold ns_r_nxdomain, ns_r_noerror; lia.
  - destruct st; try (by rewrite Hst); [|by destruct Hst as (_ & -> & _)]. by destruct Hst as (_ & l & -> & _ & Hf).
  - pose proof (ko_limit _ _ _ Hk). destruct st; try (rewrite Hst; cbn; lia); [|destruct Hst as (_ & -> & _); cbn; lia].
    destruct Hst as (_ & l & -> & Hl & Hf). cbn. lia.
Qed.

Lemma zero_shaped h : shaped h dns_result_zero.
Proof. split; cbn; try (by left); try lia; try (by apply Forall_nil). intros i c Hi. by rewrite lookup_nil in Hi. Qed.

Lemma lookup_shaped h st r : lookup_ok k fits h st r -> shaped h r.
Proof.
  assert (Hfail : forall st, failure_ok h st r -> shaped h r).
  { intros st' [->|(Hq & Hneg & Hrec & Hrc & _ & Hc)]; [apply zero_shaped|]. split; rewrite ?Hq, ?Hneg, ?Hrec; try (by left); try (by right); cbn; try lia; try by apply Forall_nil.
    - destruct Hc as [[_ ->]|(_ & _ & _ & Hn)]; [by left|by right].
    - destruct Hc as [[-> _]|(Hch & _)]; [by intros i c Hi|done].
    - destruct Hc as [[-> _]|(_ & Hl & _)]; cbn; lia. }
  destruct st; cbn [lookup_ok]; try (intros [Hq Ha]; by eapply answers_shaped); try apply Hfail; intros ->; apply zero_shaped.
Qed.

Lemma begin_codec_valid q now st s r : codec_valid q -> normal (q_query_name q) -> valid now -> resolver_ipc_lookup_status_from_address st = Some s ->
  shaped (q_query_name q) r -> codec_valid (begin_of q now s r).
Proof.
  intros (Hid & Hcl & Hty & _) Hn Hnow Hs [Hq Hc Hch Hl Hneg Hrc _ Hlim]. destruct (status_from st s (or_introl Hs)) as (Hv & _).
  assert (Ht : 0 <= chain_ttl (default [] (d_cnames r))) by (by eapply chain_ttl_range, chained_ok).
  destruct (negative_ok_valid _ _ _ Ht Hneg) as [Hnt Hnv].
  cbn [codec_valid begin_codec begin_of b_query_id b_query_class b_query_type b_status b_rcode b_negative b_cname_count b_record_count b_completed_at
    b_question_name b_canonical_name]. do 7 (split; [done|]). unfold count_of. do 2 (split; [lia|]).
  assert (Hname : forall n, n = [] \/ normal n -> is_cstr n /\ len n < NS_MAXDNAME).
  { intros n [->|Hx]; [by split; [apply Forall_nil|]|]. split; [apply Hx|]. pose proof (normal_shape _ Hx). lia. }
  destruct (Hname (d_question r)) as [Q1 Q2]; [destruct Hq as [->| ->]; [by left|by right]|]. destruct (Hname (d_canonical r) Hc) as [C1 C2].
  split; [|done]. unfold resolver_ipc_response_count_valid, DNS_CNAME_DEPTH_LIMIT, DNS_ADDRESS_RECORD_LIMIT, DNS_SRV_RECORD_LIMIT.
  unfold resolver_ipc_query_type_valid in Hty. split_ifs; lia.
Qed.

Lemma failure_check q (r : dns_result R) st : normal (q_query_name q) -> q_query_name q <> [] -> failure_ok (q_query_name q) st r ->
  (if negb (count_of (d_records r) =? 0) || n_valid (d_negative r) then false
   else if (if decide (st = DNS_LOOKUP_TEMPORARY_ERROR) then negb (d_rcode r =? 0) && negb (d_rcode r =? ns_r_servfail) || false
            else (d_rcode r =? ns_r_nxdomain) || (d_rcode r =? ns_r_servfail)) then false
   else if bool_decide (d_question r = []) then bool_decide (d_canonical r = []) && (count_of (d_cnames r) =? 0) && (d_rcode r =? 0)
   else resolver_ipc_assembly_name_normalized (d_question r) && bool_decide (d_question r = q_query_name q) &&
        (if 0 <? count_of (d_cnames r) then resolver_ipc_assembly_name_normalized (d_canonical r) else bool_decide (d_canonical r = []))) = true.
Proof.
  intros Hn Hne [->|(Hq & Hneg & Hrec & Hrc & Hst & Hc)]; [by case_decide|]. rewrite Hneg, Hrec, Hq. cbn [dns_negative_record_zero n_valid count_of default length].
  change (Z.of_nat 0 =? 0) with true. cbn [negb orb]. rewrite (bool_decide_eq_false_2 (_ = [])), (bool_decide_eq_true_2 (_ = _)), (normal_normalized _ Hn) by done.
  cbn [andb]. unfold count_of. destruct Hc as [[-> ->]|(_ & Hl & _ & Hnc)].
  - case_decide; split_ifs; try done; lia.
  - rewrite (normal_normalized _ Hnc). case_decide; split_ifs; try done; lia.
Qed.

(** The checks of the assembler on the start and on the end of the response. *)
Lemma begin_of_check q now st s r handle : codec_valid q -> normal (q_query_name q) -> resolver_ipc_lookup_status_from_address st = Some s ->
  lookup_ok k fits (q_query_name q) st r -> resolver_ipc_assembly_begin_check (assembly_of handle q) (begin_of q now s r) = true.
Proof.
  intros (_ & Hcl & _) Hn Hs Hl. unfold resolver_ipc_assembly_begin_check.
  cbn [assembly_of fresh_assembly as_query_id as_query_class as_query_type as_expected_name begin_of b_query_id b_query_class b_query_type b_status b_rcode
    b_negative b_cname_count b_record_count b_question_name b_canonical_name]. rewrite Hcl, !Z.eqb_refl. cbn [negb orb].
  assert (Hne : q_query_name q <> []) by (intros He; rewrite He in Hn; by destruct Hn).
  destruct st; vm_compute in Hs; injection Hs as <-; cbn [lookup_ok] in Hl.
  all: try (rewrite Hl; reflexivity).
  all: unfold RESOLVER_IPC_LOOKUP_OK, RESOLVER_IPC_LOOKUP_NODATA, RESOLVER_IPC_LOOKUP_NOT_FOUND, RESOLVER_IPC_LOOKUP_PERMANENT_ERROR,
    RESOLVER_IPC_LOOKUP_TEMPORARY_ERROR; cbn [Z.eqb Pos.eqb orb andb].
  all: try (destruct Hl as [Hq (_ & _ & Hnc & _ & Hneg & Hrc & Hst)]; rewrite Hq, (normal_normalized _ Hn), (normal_normalized _ Hnc), Hrc,
    ?(bool_decide_eq_false_2 (_ = [])), (bool_decide_eq_true_2 (_ = _)) by done; cbn [negb orb]).
  - destruct Hst as (-> & l & -> & Hl & _). cbn. unfold count_of. change (default [] (Some l)) with l. rewrite decide_False by done. lia.
  - by rewrite Hst.
  - by rewrite Hst.
  - by apply (failure_check q r DNS_LOOKUP_PERMANENT_ERROR).
  - by apply (failure_check q r DNS_LOOKUP_TEMPORARY_ERROR).
Qed.

(** The end of the chain, for a result that is not a failure without aliases. *)
Lemma lookup_canonical h st r : lookup_ok k fits h st r -> 
  (count_of (d_cnames r) = 0 /\ (st = DNS_LOOKUP_PERMANENT_ERROR \/ st = DNS_LOOKUP_TEMPORARY_ERROR)) \/
  d_canonical r = chain_end (d_question r) (default [] (d_cnames r)).
Proof.
  assert (Hfail : forall st, failure_ok h st r -> count_of (d_cnames r) = 0 \/ d_canonical r = chain_end (d_question r) (default [] (d_cnames r))).
  { intros st' [->|(-> & _ & _ & _ & _ & [[Hc _]|(_ & _ & Hc & _)])]; [by left|left|by right]. unfold count_of. by rewrite Hc. }
  destruct st; cbn [lookup_ok]; try (intros [_ (_ & Hc & _)]; by right); try (intros ->; by right); intros [Hf|Hf]%Hfail; tauto.
Qed.

Lemma begin_of_closes q now st s r addresses services : resolver_ipc_lookup_status_from_address st = Some s -> lookup_ok k fits (q_query_name q) st r ->
  closes {| rp_begin := begin_of q now s r; rp_cnames := default [] (d_cnames r); rp_addresses := addresses; rp_services := services |} = true.
Proof.
  intros Hs Hl. unfold closes. cbn [rp_begin rp_cnames begin_of b_negative b_status b_cname_count b_canonical_name b_question_name].
  apply andb_true_iff. split.
  - destruct (lookup_canonical _ _ _ Hl) as [[-> Hst]| ->]; [|by rewrite bool_decide_eq_true_2, orb_true_r].
    destruct Hst as [-> | ->]; vm_compute in Hs; by injection Hs as <-.
  - destruct (sh_negative _ _ (lookup_shaped _ _ _ Hl)) as [->|(-> & N & -> & _ & _ & ->)]; [done|]. rewrite (normal_normalized _ N), Z.eqb_refl. done.
Qed.

Lemma lookup_partial q now st s r handle : codec_valid q -> normal (q_query_name q) -> valid now ->
  resolver_ipc_lookup_status_from_address st = Some s -> lookup_ok k fits (q_query_name q) st r ->
  let begin := begin_of q now s r in
  codec_valid begin /\ resolver_ipc_assembly_begin_check (assembly_of handle q) begin = true /\
  chained (d_question r) (default [] (d_cnames r)) /\ Forall (fits (chain_ttl (default [] (d_cnames r)))) (default [] (d_records r)).
Proof.
  intros Hq Hn Hnow Hs Hl begin. pose proof (lookup_shaped _ _ _ Hl) as Hsh.
  split; [by eapply begin_codec_valid|]. split; [by eapply begin_of_check|]. split; apply Hsh.
Qed.

End coherence.

(** ** The answers of the kernel *)

(** Between two states of a list of answers, one with [P] was used. *)
Definition met {A} (P : A -> Prop) (l l' : list A) : Prop := exists u a v, l = u ++ a :: v ++ l' /\ P a.

Lemma met_before {A} (P : A -> Prop) l l1 l' : suffix l1 l -> met P l1 l' -> met P l l'.
Proof. intros [k ->] (u & a & v & -> & Ha). exists (k ++ u), a, v. by rewrite <- app_assoc. Qed.
Lemma met_after {A} (P : A -> Prop) l l1 l' : met P l l1 -> suffix l' l1 -> met P l l'.
Proof. intros (u & a & v & -> & Ha) [k ->]. exists u, a, (v ++ k). by rewrite <- app_assoc. Qed.
Lemma met_first {A} (P : A -> Prop) (a : A) l : P a -> met P (a :: l) l.
Proof. intros Ha. by exists [], a, []. Qed.

(** A wait for [events] that was not merely interrupted and does not bring them; the parent
    has closed the channel; a wait for a request that fails otherwise. *)
Definition interrupted (p : poll_answer) : Prop := pl_result p = -1 /\ pl_errno p = EINTR.
Definition poll_lacks (events : Z) (p : poll_answer) : Prop :=
  ~ interrupted p /\ (pl_result p <> 1 \/ Z.land (pl_revents p) POLLNVAL <> 0 \/ Z.land (pl_revents p) events = 0).
Definition hangs_up (p : poll_answer) : Prop :=
  pl_result p = 1 /\ Z.land (pl_revents p) POLLNVAL = 0 /\ Z.land (pl_revents p) POLLIN = 0 /\ Z.land (pl_revents p) POLLHUP <> 0.
Definition poll_fails (p : poll_answer) : Prop := poll_lacks POLLIN p /\ ~ hangs_up p.
Definition hard (errno : Z) : Prop := errno <> EINTR /\ would_block errno = false.
Definition recv_fails (a : recv_answer) : Prop := match a with RecvFailed errno => hard errno | Received _ => False end.
Definition send_fails (a : send_answer) : Prop := match a with SendFailed errno => hard errno | Taken _ => False end.
Definition send_cuts (packet : bytes) (a : send_answer) : Prop := match a with Taken size => size <> len packet | SendFailed _ => False end.

(** A later state of the channel has used some of the answers. *)
Record follows (w w' : channel) : Prop := {
  fo_polls : suffix (ch_polls w') (ch_polls w); fo_recvs : suffix (ch_recvs w') (ch_recvs w); fo_peeks : suffix (ch_peeks w') (ch_peeks w);
  fo_sends : suffix (ch_sends w') (ch_sends w); fo_clocks : suffix (ch_clocks w') (ch_clocks w); fo_lookups : suffix (ch_lookups w') (ch_lookups w);
}.
Lemma follows_refl w : follows w w.
Proof. by split. Qed.
Lemma follows_trans w1 w2 w3 : follows w1 w2 -> follows w2 w3 -> follows w1 w3.
Proof. intros [] []. split; by etrans. Qed.

Lemma poll_retry_spec polls : match poll_retry polls with Some (p, rest) => ~ interrupted p /\ exists u, polls = u ++ p :: rest | None => True end.
Proof.
  induction polls as [|p polls IH]; [done|]. cbn [poll_retry]. if_as E.
  - destruct (poll_retry polls) as [[q rest]|]; [|done]. destruct IH as [Hq (u & ->)]. split; [done|]. by exists (p :: u).
  - split; [unfold interrupted; lia|]. by exists [].
Qed.

(** ** Sending *)

(** What sending leaves alone. *)
Definition frame (w w' : channel) : Prop := ch_recvs w' = ch_recvs w /\ ch_clocks w' = ch_clocks w /\ ch_lookups w' = ch_lookups w /\ follows w w'.

Lemma frame_refl w : frame w w.
Proof. do 3 (split; [done|]). apply follows_refl. Qed.
Lemma frame_trans w1 w2 w3 : frame w1 w2 -> frame w2 w3 -> frame w1 w3.
Proof. intros (A1 & B1 & C1 & D1) (A2 & B2 & C2 & D2). unfold frame. rewrite A2, B2, C2. do 3 (split; [done|]). by eapply follows_trans. Qed.

(** Some of the packets, but not all, were sent. *)
Definition cut_off (packets : list bytes) (w w' : channel) : Prop :=
  frame w w' /\ exists n, (n < length packets)%nat /\ ch_sent w' = ch_sent w ++ take n packets.
(** A call of [send] or of [poll] failed, or took a part of a packet. *)
Definition send_failed (packets : list bytes) (w w' : channel) : Prop :=
  met (poll_lacks POLLOUT) (ch_polls w) (ch_polls w') \/ met send_fails (ch_sends w) (ch_sends w') \/
  exists packet, packet ∈ packets /\ met (send_cuts packet) (ch_sends w) (ch_sends w').

(** All the packets are sent, in order, or sending fails or blocks after some of them. *)
Definition send_waits (a : send_answer) : Prop := match a with SendFailed errno => would_block errno = true | Taken _ => False end.
Definition send_blocks (w w' : channel) : Prop := ch_sends w' = [] \/ (met send_waits (ch_sends w) (ch_sends w') /\ ch_polls w' = []).
Definition sends (packets : list bytes) (w : channel) (r : progress resolver_helper_status) : Prop :=
  match r with
  | Done RESOLVER_HELPER_OK w' => frame w w' /\ ch_sent w' = ch_sent w ++ packets
  | Done RESOLVER_HELPER_IO w' => cut_off packets w w' /\ send_failed packets w w'
  | Blocked w' => cut_off packets w w' /\ send_blocks w w'
  | _ => False
  end.

Lemma send_blocks_later w w1 w' : frame w w1 -> send_blocks w1 w' -> send_blocks w w'.
Proof. intros (_ & _ & _ & F) [H|[H Hp]]; [by left|]. right. split; [|done]. by eapply met_before; [apply F|]. Qed.

Lemma send_failed_more ps qs w w1 w' : frame w w1 -> ps ⊆ qs -> send_failed ps w1 w' -> send_failed qs w w'.
Proof.
  intros (_ & _ & _ & F) Hsub [H|[H|(p & Hp & H)]].
  - left. by eapply met_before; [apply F|].
  - right; left. by eapply met_before; [apply F|].
  - right; right. exists p. split; [by apply Hsub|]. by eapply met_before; [apply F|].
Qed.

Lemma wait_frame events w :
  match resolver_helper_event_wait events w with
  | Done (RESOLVER_HELPER_OK, revents) w' => frame w w' /\ ch_sent w' = ch_sent w /\ ch_sends w' = ch_sends w /\ ch_peeks w' = ch_peeks w /\
      exists p, met (eq p) (ch_polls w) (ch_polls w') /\ ~ interrupted p /\ pl_result p = 1 /\ Z.land (pl_revents p) POLLNVAL = 0 /\ revents = pl_revents p
  | Done (RESOLVER_HELPER_IO, _) w' => frame w w' /\ ch_sent w' = ch_sent w /\ ch_sends w' = ch_sends w /\
      met (fun p => ~ interrupted p /\ (pl_result p <> 1 \/ Z.land (pl_revents p) POLLNVAL <> 0)) (ch_polls w) (ch_polls w')
  | Blocked w' => frame w w' /\ ch_sent w' = ch_sent w /\ ch_sends w' = ch_sends w /\ ch_polls w' = []
  | _ => False
  end.
Proof.
  unfold resolver_helper_event_wait. pose proof (poll_retry_spec (ch_polls w)) as H. destruct (poll_retry _) as [[p polls]|].
  - destruct H as [Hp (u & Hu)]. assert (F : frame w (with_polls w polls events)) by (do 3 (split; [done|]); split; try done; cbn; rewrite Hu; exists (u ++ [p]); by rewrite <- app_assoc).
    assert (Hm : forall P : poll_answer -> Prop, P p -> met P (ch_polls w) (ch_polls (with_polls w polls events))) by (intros P HP; exists u, p, []; by rewrite Hu).
    if_as E; do 3 (split; [done|]); [apply Hm; split; [done|]; lia|]. split; [done|]. exists p. split; [by apply Hm|]. split; [done|]. lia.
  - split; [|done]. do 3 (split; [done|]). split; try done. apply suffix_nil.
Qed.

Lemma cut_off_none w w' packet : frame w w' -> ch_sent w' = ch_sent w -> cut_off [packet] w w'.
Proof. intros Hf Hs. split; [done|]. exists 0%nat. split; [cbn; lia|]. by rewrite Hs, app_nil_r. Qed.

Lemma sends_frame packets w w' r : frame w w' -> ch_sent w' = ch_sent w -> sends packets w' r -> sends packets w r.
Proof.
  intros Hf Hs. assert (Hc : forall w'', cut_off packets w' w'' -> cut_off packets w w'') by (intros w'' [F H]; split; [by eapply frame_trans|by rewrite <- Hs]).
  destruct r as [[] w''|w''|]; cbn; try done.
  - intros [F ->]. split; [by eapply frame_trans|by rewrite Hs].
  - intros [C H]. split; [by apply Hc|]. by eapply send_failed_more.
  - intros [C H]. split; [by apply Hc|]. by eapply send_blocks_later.
Qed.

Lemma sent_frame w l packets : suffix l (ch_sends w) -> frame w (with_sends w l packets).
Proof. intros H. do 3 (split; [done|]). by split. Qed.

Lemma send_loop_sends packet l w : ch_sends w = l -> sends [packet] w (send_loop packet l w).
Proof.
  revert w. induction l as [|[size|errno] l IH]; intros w Hl; cbn [send_loop].
  - split; [|by left]. apply cut_off_none; [apply sent_frame, suffix_nil|cbn; by rewrite app_nil_r].
  - assert (F : forall ps, frame w (with_sends w l ps)) by (intros ps; apply sent_frame; rewrite Hl; by apply suffix_cons_r).
    if_as E; [by split|]. split; [apply cut_off_none; [done|cbn; by rewrite app_nil_r]|]. right; right. exists packet. split; [by left|]. rewrite Hl. apply met_first. cbn. lia.
  - set (w1 := with_sends w l []). assert (F1 : frame w w1) by (apply sent_frame; rewrite Hl; by apply suffix_cons_r). assert (S1 : ch_sent w1 = ch_sent w) by (cbn; by rewrite app_nil_r).
    if_as E; [eapply sends_frame; [done|done|by apply IH]|]. if_as E2.
    { split; [by apply cut_off_none|]. right; left. rewrite Hl. apply met_first. split; [lia|]. by apply negb_true_iff. }
    pose proof (wait_frame POLLOUT w1) as Hw. assert (Ht : forall w2, frame w1 w2 -> ch_sent w2 = ch_sent w1 -> cut_off [packet] w w2)
      by (intros w2 F S; apply cut_off_none; [by eapply frame_trans|by rewrite S]).
    destruct (resolver_helper_event_wait POLLOUT w1) as [[[] events] w2|w2|]; try done.
    + destruct Hw as (F2 & S2 & Hs2 & _ & p & Hm & Hp & Hr & Hn & ->). rewrite bool_decide_eq_true_2 by done. cbn [negb orb]. if_as E3.
      * split; [by apply Ht|]. left. destruct Hm as (u & a & v & Hu & ->). exists u, a, v. split; [exact Hu|]. split; [done|]. right; right. lia.
      * eapply sends_frame; [by eapply frame_trans|by rewrite S2|]. by apply IH.
    + destruct Hw as (F2 & S2 & _ & Hm). cbn. split; [by apply Ht|]. left. destruct Hm as (u & a & v & Hu & Ha & Hb). exists u, a, v. split; [exact Hu|]. split; [done|]. tauto.
    + destruct Hw as (F2 & S2 & _ & Hb). split; [by apply Ht|]. right. split; [|done]. rewrite Hl. eapply met_after; [apply met_first; by apply negb_false_iff|apply F2].
Qed.

Lemma encoded_sends `{ipc_codec_laws A} (m : A) w : codec_valid m -> sends [codec_wire m] w (encoded_send (codec_encode m RESOLVER_IPC_PACKET_BYTE_LIMIT) w).
Proof.
  intros Hm. destruct (codec_fits m Hm) as [_ Hf]. rewrite codec_encodes by done.
  assert (Hl : len (codec_wire m) = 20 + len (codec_body m)) by (unfold codec_wire; rewrite len_app, header_bytes_len; lia).
  if_as E; [lia|]. cbn [encoded_send]. unfold resolver_helper_packet_send. if_as E2; [lia|]. by apply send_loop_sends.
Qed.

Lemma begin_sends (m : resolver_ipc_response_begin) w : codec_valid m -> sends [codec_wire m] w (resolver_helper_response_begin_send m w).
Proof. exact (encoded_sends m w). Qed.
Lemma cname_sends (m : resolver_ipc_response_cname) w : codec_valid m -> sends [codec_wire m] w (resolver_helper_response_cname_send m w).
Proof. exact (encoded_sends m w). Qed.
Lemma end_sends (m : resolver_ipc_response_end) w : codec_valid m -> sends [codec_wire m] w (resolver_helper_response_end_send m w).
Proof. exact (encoded_sends m w). Qed.
Lemma address_packet_sends (m : resolver_ipc_response_address) w : codec_valid m -> sends [codec_wire m] w (resolver_helper_response_address_packet_send m w).
Proof. exact (encoded_sends m w). Qed.
Lemma srv_packet_sends (m : resolver_ipc_response_srv) w : codec_valid m -> sends [codec_wire m] w (resolver_helper_response_srv_packet_send m w).
Proof. exact (encoded_sends m w). Qed.

Lemma sends_then (m : task resolver_helper_status) (f : resolver_helper_status -> task resolver_helper_status) ps qs w : sends ps w (m w) -> (forall st, st <> RESOLVER_HELPER_OK -> f st = mret st) -> (forall w, sends qs w (f RESOLVER_HELPER_OK w)) ->
  sends (ps ++ qs) w ((m ≫= f) w).
Proof.
  intros Hm Hf Hq. unfold mbind, task_bind. assert (Hcut : forall w', cut_off ps w w' -> cut_off (ps ++ qs) w w').
  { intros w' [F (n & Hn & Hs)]. split; [done|]. exists n. rewrite length_app. split; [lia|]. rewrite Hs, take_app_le by lia. done. }
  destruct (m w) as [st w'|w'|]; [|destruct Hm as [Hm1 Hm2]; split; [by apply Hcut|done]|done]. destruct st; cbn in Hm; try done.
  2:{ rewrite Hf by done. destruct Hm as [C Hm]. split; [by apply Hcut|]. eapply send_failed_more; [apply frame_refl| |exact Hm]. set_solver. }
  destruct Hm as [F S]. specialize (Hq w'). assert (Hcut2 : forall w'', cut_off qs w' w'' -> cut_off (ps ++ qs) w w'').
  { intros w'' [F2 (n & Hn & Hs)]. split; [by eapply frame_trans|]. exists (length ps + n)%nat. rewrite length_app. split; [lia|].
    by rewrite Hs, S, take_app_add, <- app_assoc. }
  destruct (f RESOLVER_HELPER_OK w') as [[] w''|w''|]; cbn in *; try done.
  - destruct Hq as [F2 S2]. split; [by eapply frame_trans|]. by rewrite S2, S, app_assoc.
  - destruct Hq as [C Hm]. split; [by apply Hcut2|]. eapply send_failed_more; [exact F| |exact Hm]. set_solver.
  - destruct Hq as [C Hb]. split; [by apply Hcut2|]. by eapply send_blocks_later.
Qed.

Lemma records_send_failed {R} (send : Z -> R -> task resolver_helper_status) index l st : st <> RESOLVER_HELPER_OK -> records_send send index l st = mret st.
Proof. by destruct l, st. Qed.

Lemma records_sends {R} (send : Z -> R -> task resolver_helper_status) (packet : nat -> R -> bytes) l : forall index w,
  (forall i x w, l !! i = Some x -> sends [packet (index + i)%nat x] w (send (u16 (Z.of_nat (index + i))) x w)) ->
  sends (imap (fun i => packet (index + i)%nat) l) w (records_send send index l RESOLVER_HELPER_OK w).
Proof.
  induction l as [|x l IH]; intros index w Hs; [by cbn; rewrite app_nil_r|]. cbn [records_send imap].
  change (?a :: ?b) with ([a] ++ b). apply sends_then.
  - specialize (Hs 0%nat x w eq_refl). rewrite Nat.add_0_r in *. done.
  - intros [] Hst; done || (by destruct l).
  - intros w'. rewrite (imap_ext _ (fun i => packet (S index + i)%nat) l) by (intros i y _; cbn; by rewrite Nat.add_succ_r).
    apply IH. intros i y w'' Hy. specialize (Hs (S i) y w'' Hy). by rewrite Nat.add_succ_r in Hs.
Qed.

Lemma all_sends {R} (send : Z -> R -> task resolver_helper_status) (packet : nat -> R -> bytes) l w :
  (forall i x w, l !! i = Some x -> sends [packet i x] w (send (u16 (Z.of_nat i)) x w)) -> sends (imap packet l) w (records_send send 0 l RESOLVER_HELPER_OK w).
Proof. apply (records_sends send packet l 0). Qed.

Section helping.
Context {NS : nameser} {NL : nameser_laws}.

(** The response that carries a result. *)
Definition address_response (q : resolver_ipc_request) (now : timespec) (s : resolver_ipc_lookup_status) (r : dns_result dns_address_record) : response :=
  {| rp_begin := begin_of q now s r; rp_cnames := default [] (d_cnames r); rp_addresses := default [] (d_records r); rp_services := [] |}.
Definition srv_response (q : resolver_ipc_request) (now : timespec) (s : resolver_ipc_lookup_status) (r : dns_result dns_srv_record) : response :=
  {| rp_begin := begin_of q now s r; rp_cnames := default [] (d_cnames r); rp_addresses := []; rp_services := default [] (d_records r) |}.

Definition request_family (q : resolver_ipc_request) : Z := if q_query_type q =? ns_t_a then AF_INET else AF_INET6.

Lemma address_coherent q now st s r handle : codec_valid q -> normal (q_query_name q) -> valid now -> q_query_type q <> ns_t_srv ->
  resolver_ipc_lookup_status_from_address st = Some s ->
  lookup_ok (address_kind (request_family q)) (address_found (request_family q)) (q_query_name q) st r ->
  coherent (assembly_of handle q) (address_response q now s r).
Proof.
  intros Hq Hn Hnow Ht Hs Hl.
  assert (Hf : request_family q = AF_INET \/ request_family q = AF_INET6) by (unfold request_family; if_as E; [by left|by right]).
  assert (Hty : address_type (request_family q) = q_query_type q).
  { destruct Hq as (_ & _ & Hq & _). unfold resolver_ipc_query_type_valid in Hq. unfold request_family, address_type. destruct (q_query_type q =? ns_t_a) eqn:E; cbn; lia. }
  destruct (lookup_partial _ _ _ (address_kind_ok _ Hf) q now st s r handle Hq Hn Hnow Hs Hl) as (Hv & Hc & Hch & Hr).
  split; cbn [address_response rp_begin rp_cnames rp_addresses rp_services records_received begin_of b_cname_count b_record_count]; try done.
  - split; cbn [address_response rp_begin rp_cnames rp_addresses rp_services begin_of b_cname_count b_record_count b_question_name assembly_of fresh_assembly as_query_type]; try done.
    + by right.
    + eapply Forall_impl; [exact Hr|]. intros c Hc'. unfold address_found in Hc'. by rewrite Hty in Hc'.
    + if_as E; [lia|done].
    + unfold records_received. cbn. unfold count_of. lia.
  - unfold records_received. cbn. unfold count_of. lia.
  - by eapply (begin_of_closes _ _ _ (address_kind_ok _ Hf)).
Qed.

Lemma srv_coherent q now st s r handle : codec_valid q -> normal (q_query_name q) -> valid now -> q_query_type q = ns_t_srv ->
  resolver_ipc_lookup_status_from_srv st = Some s -> lookup_ok srv_kind srv_found (q_query_name q) st r ->
  coherent (assembly_of handle q) (srv_response q now s r).
Proof.
  intros Hq Hn Hnow Ht Hs Hl. destruct (status_from st s (or_intror Hs)) as (_ & Hs' & _).
  destruct (lookup_partial _ _ _ srv_kind_ok q now st s r handle Hq Hn Hnow Hs' Hl) as (Hv & Hc & Hch & Hr).
  split; cbn [srv_response rp_begin rp_cnames rp_addresses rp_services records_received begin_of b_cname_count b_record_count]; try done.
  - split; cbn [srv_response rp_begin rp_cnames rp_addresses rp_services begin_of b_cname_count b_record_count b_question_name assembly_of fresh_assembly as_query_type]; try done.
    + by right.
    + by rewrite Ht.
  - by eapply (begin_of_closes _ _ _ srv_kind_ok).
Qed.

Lemma u16_small x : 0 <= x < 2 ^ 16 -> u16 x = x.
Proof. intros Hx. unfold u16. by apply Z.mod_small. Qed.

(** The packets of a coherent response, when those of its records are sent. *)
Lemma response_sends {R} q handle r (send : Z -> R -> task resolver_helper_status) (packet : nat -> R -> bytes) records w :
  coherent (assembly_of handle q) r -> records_received r = len records ->
  imap packet records = imap (address_packet (q_query_id q)) (rp_addresses r) ++ imap (srv_packet (q_query_id q)) (rp_services r) ->
  (forall i x w, records !! i = Some x -> sends [packet i x] w (send (u16 (Z.of_nat i)) x w)) ->
  sends (response_packets r) w (response_send q send (rp_begin r) (rp_cnames r) records w).
Proof.
  intros Hc Hr Hp Hs. pose proof (co_partial _ _ Hc) as Hpa. pose proof (pa_valid _ _ Hpa) as Hv. destruct (begin_counts _ Hv) as [Hcn Hrn].
  destruct (begin_check_query _ _ (pa_check _ _ Hpa)) as (Hid & _). cbn [assembly_of fresh_assembly as_query_id] in Hid.
  pose proof (codec_fits _ Hv) as [Hidr _]. cbn [codec_id begin_codec] in Hidr. rewrite Hid in Hidr.
  pose proof (co_cnames _ _ Hc) as Hcc. pose proof (co_records _ _ Hc) as Hrc.
  assert (Hps : response_packets r = [codec_wire (rp_begin r)] ++ imap (cname_packet (q_query_id q)) (rp_cnames r) ++ imap packet records ++ [end_packet r]).
  { unfold response_packets, packets_before_end. rewrite Hid, Hp. cbn [app]. by rewrite <- !app_assoc. }
  rewrite Hps. unfold response_send. apply sends_then; [by apply begin_sends|intros st Hst|intros w1].
  { rewrite records_send_failed by done. unfold mbind, task_bind. cbn. rewrite records_send_failed by done. by destruct st. }
  apply sends_then; [|intros st Hst|].
  2: { rewrite records_send_failed by done. by destruct st. }
  - apply all_sends. intros i x w2 Hx. pose proof (lookup_lt_Some _ _ _ Hx).
    rewrite u16_small by lia.
    unfold cname_packet. apply cname_sends. destruct (pa_chain _ _ Hpa i x Hx) as [_ (Ht & Ho & Hg)].
    cbn [codec_valid cname_codec rc_query_id rc_index rc_record]. unfold DNS_CNAME_DEPTH_LIMIT. split; [done|]. split; [lia|]. done.
  - intros w2. apply sends_then; [by apply all_sends|intros [] Hst; done|]. intros w3.
    unfold end_packet. rewrite Hid, <- Hcc, <- Hrc, Hr.
    apply end_sends. cbn [codec_valid end_codec e_query_id e_cname_count e_record_count].
    unfold DNS_CNAME_DEPTH_LIMIT, DNS_ADDRESS_RECORD_LIMIT, DNS_SRV_RECORD_LIMIT. split; [done|]. lia.
Qed.

Lemma address_sends q handle now s r w : coherent (assembly_of handle q) (address_response q now s r) ->
  sends (response_packets (address_response q now s r)) w
    (response_send q (fun index x => resolver_helper_response_address_packet_send {| ra_index := index; ra_query_id := q_query_id q; ra_record := x |})
       (begin_of q now s r) (default [] (d_cnames r)) (default [] (d_records r)) w).
Proof.
  intros Hc. pose proof (co_partial _ _ Hc) as Hpa. pose proof (pa_valid _ _ Hpa) as Hv. destruct (begin_counts _ Hv) as [_ Hrn].
  pose proof (codec_fits _ Hv) as [Hidr _]. pose proof (co_records _ _ Hc) as Hrc. unfold records_received in Hrc. cbn in Hrc.
  apply (response_sends q handle (address_response q now s r) _ (address_packet (q_query_id q)) (default [] (d_records r))); [done|..].
  - unfold records_received. cbn. lia.
  - cbn. by rewrite app_nil_r.
  - intros i x w' Hx. pose proof (lookup_lt_Some _ _ _ Hx). cbn in Hrn. rewrite u16_small by lia.
    unfold address_packet. apply address_packet_sends. pose proof (pa_addresses _ _ Hpa) as Ha. rewrite list.Forall_forall in Ha. destruct (Ha x) as [_ Hx']; [by eapply list_elem_of_lookup_2|].
    cbn [codec_valid address_codec ra_query_id ra_index ra_record] in *. unfold address_typed in Hx'. cbn in Hx'. unfold DNS_ADDRESS_RECORD_LIMIT. split; [done|]. split; [lia|]. apply Hx'.
Qed.

Lemma srv_sends q handle now s r w : coherent (assembly_of handle q) (srv_response q now s r) ->
  sends (response_packets (srv_response q now s r)) w
    (response_send q (fun index x => resolver_helper_response_srv_packet_send {| rs_index := index; rs_query_id := q_query_id q; rs_record := x |})
       (begin_of q now s r) (default [] (d_cnames r)) (default [] (d_records r)) w).
Proof.
  intros Hc. pose proof (co_partial _ _ Hc) as Hpa. pose proof (pa_valid _ _ Hpa) as Hv. destruct (begin_counts _ Hv) as [_ Hrn].
  pose proof (codec_fits _ Hv) as [Hidr _]. pose proof (co_records _ _ Hc) as Hrc. unfold records_received in Hrc. cbn in Hrc.
  apply (response_sends q handle (srv_response q now s r) _ (srv_packet (q_query_id q)) (default [] (d_records r))); [done..|].
  intros i x w' Hx. pose proof (lookup_lt_Some _ _ _ Hx). cbn in Hrn. rewrite u16_small by lia.
  unfold srv_packet. apply srv_packet_sends. pose proof (pa_services _ _ Hpa) as Ha. rewrite list.Forall_forall in Ha.
  destruct (Ha x) as [_ Hx']; [by eapply list_elem_of_lookup_2|].
  cbn [codec_valid srv_codec rs_query_id rs_index rs_record] in *. unfold srv_typed in Hx'. cbn in Hx'. unfold DNS_SRV_RECORD_LIMIT. split; [done|]. split; [lia|]. apply Hx'.
Qed.

(** ** Requests *)

(** The records with bytes, in order. *)
Definition data (l : list recv_answer) : list bytes :=
  omap (fun a => match a with Received (b :: record) => Some (b :: record) | _ => None end) l.

(** What the helper relies on of its surroundings: bytes are bytes, the clock is valid,
    and the parent asks for normalised names. *)
Definition recv_ok (a : recv_answer) : Prop :=
  match a with
  | Received record => is_bytes record /\ forall q : resolver_ipc_request, codec_valid q -> record = codec_wire q -> normal (q_query_name q)
  | RecvFailed _ => True
  end.
Record channel_ok (w : channel) : Prop := {
  co_recvs : Forall recv_ok (ch_recvs w);
  co_clocks : Forall (fun now => match now with Some t => valid t | None => True end) (ch_clocks w);
  co_lookups : Forall (fun l => forall i q, is_bytes (qa_response (lk_res l i q))) (ch_lookups w);
}.

(** The response carries what the lookup of the request returns. *)
Definition answered (l : lookup_answers) (q : resolver_ipc_request) (r : response) : Prop :=
  (forall handle, coherent (assembly_of handle q) r) /\
  if q_query_type q =? ns_t_srv then exists status result s now, r = srv_response q now s result /\ resolver_ipc_lookup_status_from_srv status = Some s /\
    dns_srv_lookup (lk_init l) (lk_alloc l) (lk_res l) (Some (q_query_name q)) (Some dns_srv_result_zero) = Some (status, Some (to_srv_result result))
  else exists status result s now, r = address_response q now s result /\ resolver_ipc_lookup_status_from_address status = Some s /\
    dns_address_lookup (lk_init l) (lk_alloc l) (lk_res l) (Some (q_query_name q)) (request_family q) (Some dns_address_result_zero)
      = Some (status, Some (to_address_result result)).

(** Nothing but waiting and receiving has happened; and no record with bytes came. *)
Record silent (w w' : channel) : Prop := {
  si_follows : follows w w'; si_sent : ch_sent w' = ch_sent w; si_sends : ch_sends w' = ch_sends w;
  si_clocks : ch_clocks w' = ch_clocks w; si_lookups : ch_lookups w' = ch_lookups w;
}.
Definition idle (w w' : channel) : Prop := silent w w' /\ data (ch_recvs w') = data (ch_recvs w).

(** What a wait for a request shows: the parent has closed the channel, a call failed, or a
    call has not returned.  After an empty record a second look tells the end of the
    channel from an empty packet. *)
Definition empty_record (a : recv_answer) : Prop := a = Received [].
Definition not_the_end (a : recv_answer) : Prop := match a with Received record => record <> [] | RecvFailed errno => would_block errno = true end.
Definition parent_closed (w w' : channel) : Prop :=
  met hangs_up (ch_polls w) (ch_polls w') \/ (met empty_record (ch_recvs w) (ch_recvs w') /\ met empty_record (ch_peeks w) (ch_peeks w')).
Definition receive_failed (w w' : channel) : Prop :=
  met poll_fails (ch_polls w) (ch_polls w') \/ met recv_fails (ch_recvs w) (ch_recvs w') \/
  (met empty_record (ch_recvs w) (ch_recvs w') /\ met recv_fails (ch_peeks w) (ch_peeks w')).
Definition empty_packet (w w' : channel) : Prop := met empty_record (ch_recvs w) (ch_recvs w') /\ met not_the_end (ch_peeks w) (ch_peeks w').
Definition ready (p : poll_answer) : Prop := pl_result p = 1 /\ Z.land (pl_revents p) POLLIN <> 0.
Definition receive_blocks (w w' : channel) : Prop :=
  ch_polls w' = [] \/ (met ready (ch_polls w) (ch_polls w') /\ ch_recvs w' = []) \/ (met empty_record (ch_recvs w) (ch_recvs w') /\ ch_peeks w' = []).

(** The receive takes the next record with bytes, or says why it does not. *)
Definition receives (w : channel) (x : progress (resolver_helper_receive_status * bytes)) : Prop :=
  match x with
  | Done (RESOLVER_HELPER_RECEIVE_DATA, packet) w' => silent w w' /\ packet <> [] /\ exists pre, ch_recvs w = pre ++ Received packet :: ch_recvs w' /\ data pre = []
  | Done (RESOLVER_HELPER_RECEIVE_END, _) w' => idle w w' /\ parent_closed w w'
  | Done (RESOLVER_HELPER_RECEIVE_IO, _) w' => idle w w' /\ receive_failed w w'
  | Done (RESOLVER_HELPER_RECEIVE_PROTOCOL, _) w' => (idle w w' /\ empty_packet w w') \/
      (silent w w' /\ exists record, RESOLVER_IPC_PACKET_BYTE_LIMIT < len record /\ data (ch_recvs w) = record :: data (ch_recvs w'))
  | Blocked w' => idle w w' /\ receive_blocks w w'
  | Fault => False
  end.

Lemma silent_trans w1 w2 w3 : silent w1 w2 -> silent w2 w3 -> silent w1 w3.
Proof. intros [] []. split; [by eapply follows_trans|congruence..]. Qed.
Lemma idle_trans w1 w2 w3 : idle w1 w2 -> idle w2 w3 -> idle w1 w3.
Proof. intros [S1 D1] [S2 D2]. split; [by eapply silent_trans|congruence]. Qed.

Lemma receives_later pre w w1 x : silent w w1 -> ch_recvs w = pre ++ ch_recvs w1 -> data pre = [] -> receives w1 x -> receives w x.
Proof.
  intros Hs Hr Hd. assert (Hda : data (ch_recvs w1) = data (ch_recvs w)) by (unfold data in *; by rewrite Hr, omap_app, Hd).
  assert (Hi : idle w w1) by done. pose proof (si_follows _ _ Hs) as [P R K _ _ _].
  assert (Mp : forall Q l, met Q (ch_polls w1) l -> met Q (ch_polls w) l) by (intros; by eapply met_before).
  assert (Mr : forall Q l, met Q (ch_recvs w1) l -> met Q (ch_recvs w) l) by (intros; by eapply met_before).
  assert (Mk : forall Q l, met Q (ch_peeks w1) l -> met Q (ch_peeks w) l) by (intros; by eapply met_before).
  destruct x as [[[] packet] w'|w'|]; cbn [receives]; [| | | | |done].
  - intros (S & Hp & pre' & Hr' & Hd'). split; [by eapply silent_trans|]. split; [done|]. exists (pre ++ pre'). rewrite Hr, Hr', <- app_assoc. split; [done|].
    unfold data in *. by rewrite omap_app, Hd.
  - intros [I C]. split; [by eapply idle_trans|]. unfold parent_closed in *. intuition auto.
  - intros [I C]. split; [by eapply idle_trans|]. unfold receive_failed in *. intuition auto.
  - intros [[I C]|(S & record & L & D)]; [left; split; [by eapply idle_trans|]; unfold empty_packet in *; intuition auto|].
    right. split; [by eapply silent_trans|]. exists record. by rewrite <- Hda.
  - intros [I C]. split; [by eapply idle_trans|]. unfold receive_blocks in *. intuition auto.
Qed.

Lemma frame_silent w w' : frame w w' -> ch_sent w' = ch_sent w -> ch_sends w' = ch_sends w -> silent w w'.
Proof. intros (_ & C & L & F) S E. by split. Qed.

Lemma recvs_silent w l : suffix l (ch_recvs w) -> silent w (with_recvs w l).
Proof. intros H. by split; [split|..]. Qed.

(** After an empty record. *)
Lemma receive_empty_spec w w0 : silent w w0 -> data (ch_recvs w0) = data (ch_recvs w) -> met empty_record (ch_recvs w) (ch_recvs w0) -> ch_peeks w0 = ch_peeks w ->
  receives w (receive_empty w0).
Proof.
  intros Hs Hd He Hk. unfold receive_empty. assert (Hp : forall l, suffix l (ch_peeks w) -> idle w (with_peeks w0 l)).
  { intros l Hl. destruct Hs as [[] ? ? ? ?]. by split; [split; [split|..]|]. }
  assert (Hpk : match peek_retry (ch_peeks w0) with Some (a, l) => exists u, ch_peeks w = u ++ a :: l /\ a <> RecvFailed EINTR | None => True end).
  { rewrite Hk. clear. induction (ch_peeks w) as [|[record|errno] l IH]; cbn [peek_retry]; [done|by exists []|]. if_as E; [|exists []; split; [done|]; intros [= ->]; by vm_compute in E].
    destruct (peek_retry l) as [[a l']|]; [|done]. destruct IH as (u & -> & H). by exists (RecvFailed errno :: u). }
  destruct (peek_retry _) as [[a l]|]; [|by split; [apply Hp, suffix_nil|right; right]]. destruct Hpk as (u & Hu & Hne).
  assert (Hi : idle w (with_peeks w0 l)) by (apply Hp; rewrite Hu; exists (u ++ [a]); by rewrite <- app_assoc).
  assert (Hm : forall Q : recv_answer -> Prop, Q a -> met Q (ch_peeks w) l) by (intros Q HQ; by exists u, a, []).
  destruct a as [[|b record]|errno]; [| |if_as E]; cbn [receives].
  - split; [done|]. right. split; [done|]. by apply Hm.
  - left. split; [done|]. split; [done|]. by apply Hm.
  - left. split; [done|]. split; [done|]. by apply Hm.
  - split; [done|]. right; right. split; [done|]. apply Hm. split; [congruence|done].
Qed.

(** The wait before a receive, and what is left to do when a record is announced. *)
Lemma wait_receives w (f : channel -> progress (resolver_helper_receive_status * bytes)) :
  (forall w1, silent w w1 -> ch_recvs w1 = ch_recvs w -> ch_peeks w1 = ch_peeks w -> met ready (ch_polls w) (ch_polls w1) -> receives w (f w1)) ->
  receives w (match resolver_helper_event_wait POLLIN w with
    | Done (status, events) w =>
        if negb (bool_decide (status = RESOLVER_HELPER_OK)) then Done (RESOLVER_HELPER_RECEIVE_IO, []) w else
        if Z.land events POLLIN =? 0 then
          Done (if negb (Z.land events POLLHUP =? 0) then RESOLVER_HELPER_RECEIVE_END else RESOLVER_HELPER_RECEIVE_IO, []) w else f w
    | Blocked w => Blocked w
    | Fault => Fault
    end).
Proof.
  intros Hf. pose proof (wait_frame POLLIN w) as Hw.
  assert (Hi : forall w1, frame w w1 -> silent w w1 -> idle w w1) by (intros w1 (R & _) Hs; split; [done|by rewrite R]).
  destruct (resolver_helper_event_wait POLLIN w) as [[[] events] w1|w1|]; try done.
  - destruct Hw as (F & S & Hs & Hk & p & (u & a & v & Hu & <-) & Hp & Hr & Hn & ->). rewrite bool_decide_eq_true_2 by done. cbn [negb].
    assert (Hsi : silent w w1) by by apply frame_silent. assert (Hm : forall Q : poll_answer -> Prop, Q p -> met Q (ch_polls w) (ch_polls w1)) by (intros Q HQ; by exists u, p, v).
    if_as E; [|apply Hf; [done|apply F|done|apply Hm; split; [done|lia]]]. if_as E2; (split; [by apply Hi|]); left; apply Hm.
    + split; [done|]. lia.
    + split; [|intros (_ & _ & _ & H); lia]. split; [done|]. right; right. lia.
  - destruct Hw as (F & S & Hs & (u & p & v & Hu & Hp & Hr)). split; [apply Hi; [done|by apply frame_silent]|]. left. exists u, p, v.
    split; [done|]. split; [split; [done|tauto]|]. intros (H1 & H2 & _). lia.
  - destruct Hw as (F & S & Hs & Hb). split; [apply Hi; [done|by apply frame_silent]|by left].
Qed.

Lemma receive_loop_takes l w : ch_recvs w = l -> receives w (receive_loop RESOLVER_HELPER_RECEIVE_BYTE_CAPACITY l w).
Proof.
  revert w. induction l as [|a l IH]; intros w Hl; cbn [receive_loop].
  - apply (wait_receives w (fun w => Blocked (with_recvs w []))). intros w1 Hs Hr Hk Hm. rewrite Hl in Hr.
    assert (Hs2 : silent w (with_recvs w1 [])) by (eapply silent_trans; [done|apply recvs_silent, suffix_nil]).
    split; [split; [done|by rewrite Hl]|]. right; left. by split.
  - apply (wait_receives w (fun w => match a with
      | Received record => let w := with_recvs w l in let received := Z.min (len record) RESOLVER_HELPER_RECEIVE_BYTE_CAPACITY in
          if 0 <? received then if RESOLVER_IPC_PACKET_BYTE_LIMIT <? received then Done (RESOLVER_HELPER_RECEIVE_PROTOCOL, []) w
            else Done (RESOLVER_HELPER_RECEIVE_DATA, take (Z.to_nat received) record) w else receive_empty w
      | RecvFailed errno => let w := with_recvs w l in
          if negb (errno =? EINTR) && negb (would_block errno) then Done (RESOLVER_HELPER_RECEIVE_IO, []) w
          else receive_loop RESOLVER_HELPER_RECEIVE_BYTE_CAPACITY l w end)).
    intros w1 Hs Hr Hk Hm. assert (Hs2 : silent w (with_recvs w1 l)) by (eapply silent_trans; [done|apply recvs_silent; rewrite Hr, Hl; by apply suffix_cons_r]).
    assert (Hmet : forall Q : recv_answer -> Prop, Q a -> met Q (ch_recvs w) l) by (intros Q HQ; rewrite Hl; by apply met_first).
    unfold RESOLVER_HELPER_RECEIVE_BYTE_CAPACITY, RESOLVER_IPC_PACKET_BYTE_LIMIT in *. destruct a as [record|errno]; cbv zeta.
    + if_as E1; [if_as E2|].
      * right. split; [done|]. exists record. split; [unfold RESOLVER_IPC_PACKET_BYTE_LIMIT; lia|]. rewrite Hl. destruct record; [cbn in *; lia|done].
      * rewrite firstn_all2 by lia. split; [done|]. split; [by intros ->|]. exists []. by rewrite Hl.
      * assert (record = []) as -> by (destruct record; [done|cbn in *; lia]). apply receive_empty_spec; [done|by rewrite Hl|by apply Hmet|done].
    + if_as E1.
      * split; [split; [done|by rewrite Hl]|]. right; left. apply Hmet. apply andb_true_iff in E1 as [E1 E2]. split; [lia|by apply negb_true_iff].
      * apply (receives_later [RecvFailed errno] _ _ _ Hs2); [by rewrite Hl|done|]. by apply IH.
Qed.

Lemma receive_takes w : receives w (resolver_helper_packet_receive RESOLVER_HELPER_RECEIVE_BYTE_CAPACITY w).
Proof. by apply (receive_loop_takes (ch_recvs w) w). Qed.

(** ** Responses *)

(** The request was received, and the lookup of it has not begun. *)
Record asked (w : channel) (q : resolver_ipc_request) (w1 : channel) : Prop := {
  ak_valid : codec_valid q; ak_silent : silent w w1; ak_data : data (ch_recvs w) = codec_wire q :: data (ch_recvs w1);
}.

(** The response [r] to the request is sent as a whole, or only its first packets are. *)
Record replying (q : resolver_ipc_request) (w : channel) (r : response) (w' : channel) : Prop := {
  re_follows : follows w w'; re_recvs : ch_recvs w' = ch_recvs w;
  re_clock : ch_clocks w = Some (b_completed_at (rp_begin r)) :: ch_clocks w';
  re_lookup : exists l, ch_lookups w = l :: ch_lookups w' /\ answered l q r;
}.
Definition replied (q : resolver_ipc_request) (w : channel) (r : response) (w' : channel) : Prop :=
  replying q w r w' /\ ch_sent w' = ch_sent w ++ response_packets r.
Definition reply_cut (q : resolver_ipc_request) (w : channel) (r : response) (w' : channel) : Prop :=
  replying q w r w' /\ exists n, (n < length (response_packets r))%nat /\ ch_sent w' = ch_sent w ++ take n (response_packets r).

(** Why a request has no whole response: the clock failed, or sending did; or the lookup, the
    clock or the channel has not answered yet. *)
Definition breaks (q : resolver_ipc_request) (w : channel) (x : progress resolver_helper_status) : Prop :=
  match x with
  | Done RESOLVER_HELPER_INTERNAL w' => ch_sent w' = ch_sent w /\ ch_clocks w = None :: ch_clocks w'
  | Done RESOLVER_HELPER_IO w' => exists r, reply_cut q w r w' /\ send_failed (response_packets r) w w'
  | Blocked w' => (ch_sent w' = ch_sent w /\ (ch_lookups w = [] \/ ch_clocks w = [])) \/
      exists r, reply_cut q w r w' /\ send_blocks w w'
  | _ => False
  end.

Definition responds (q : resolver_ipc_request) (w : channel) (x : progress resolver_helper_status) : Prop :=
  match x with Done RESOLVER_HELPER_OK w' => exists r, replied q w r w' | _ => breaks q w x end.
Lemma sends_responds q w w2 l x r : ch_lookups w = l :: ch_lookups w2 -> ch_clocks w = Some (b_completed_at (rp_begin r)) :: ch_clocks w2 -> ch_recvs w2 = ch_recvs w ->
  ch_sent w2 = ch_sent w -> ch_polls w2 = ch_polls w -> ch_peeks w2 = ch_peeks w -> ch_sends w2 = ch_sends w -> answered l q r -> sends (response_packets r) w2 x -> responds q w x.
Proof.
  intros Hl Hc Hr Hs Hp Hk He Ha Hx. assert (Hre : forall w', frame w2 w' -> replying q w r w').
  { intros w' (F1 & F2 & F3 & [P R K S C L]). split; rewrite ?F2, ?F3, ?F1; [split| | |by exists l]; try done.
    all: rewrite ?F1, ?F2, ?F3, ?Hl, ?Hc; try done; try congruence; by apply suffix_cons_r. }
  destruct x as [[] w'|w'|]; cbn [responds sends] in *; try done.
  - destruct Hx as [F S]. exists r. split; [by apply Hre|]. by rewrite S, Hs.
  - destruct Hx as [[F (n & Hn & S)] Hf]. exists r. split; [split; [by apply Hre|]; exists n; by rewrite S, Hs|]. unfold send_failed in *. by rewrite <- Hp, <- He.
  - destruct Hx as [[F (n & Hn & S)] Hf]. right. exists r. split; [split; [by apply Hre|]; exists n; by rewrite S, Hs|]. unfold send_blocks in *. by rewrite <- He.
Qed.

Lemma address_responds q w : channel_ok w -> codec_valid q -> normal (q_query_name q) -> q_query_type q <> ns_t_srv ->
  responds q w (resolver_helper_response_address_send q w).
Proof.
  intros Hw Hq Hn Ht. unfold resolver_helper_response_address_send, mbind, task_bind, next_lookup.
  pose proof (co_lookups _ Hw) as Hls. destruct (ch_lookups w) as [|l ls] eqn:El; [left; by split; [|left]|]. apply Forall_cons_1 in Hls as [Hl _].
  destruct (address_lookup_ok (lk_init l) (lk_alloc l) (lk_res l) (q_query_name q) (q_query_name q) (request_family q)) as (st & r & He & Ho);
    [apply Hn|apply Hn|done|unfold request_family; if_as E; tauto|].
  fold (request_family q). rewrite He. cbn [faults].
  destruct (resolver_ipc_lookup_status_from_address st) as [s|] eqn:Es; [|by destruct st]. unfold next_clock. cbn [with_lookups ch_clocks].
  pose proof (co_clocks _ Hw) as Hcs. destruct (ch_clocks w) as [|[now|] clocks] eqn:Ec; [left; by split; [|right]| |by split]. apply Forall_cons_1 in Hcs as [Hnow _].
  assert (Hco : forall handle, coherent (assembly_of handle q) (address_response q now s r)) by (intros handle; by eapply address_coherent).
  eapply (sends_responds q w (with_clocks (with_lookups w ls) clocks) l _ (address_response q now s r)); try done.
  - split; [done|]. if_as E; [lia|]. by exists st, r, s, now.
  - exact (address_sends q 0 now s r _ (Hco 0)).
Qed.

Lemma srv_responds q w : channel_ok w -> codec_valid q -> normal (q_query_name q) -> q_query_type q = ns_t_srv ->
  responds q w (resolver_helper_response_srv_send q w).
Proof.
  intros Hw Hq Hn Ht. unfold resolver_helper_response_srv_send, mbind, task_bind, next_lookup.
  pose proof (co_lookups _ Hw) as Hls. destruct (ch_lookups w) as [|l ls] eqn:El; [left; by split; [|left]|]. apply Forall_cons_1 in Hls as [Hl _].
  destruct (srv_lookup_ok (lk_init l) (lk_alloc l) (lk_res l) (q_query_name q) (q_query_name q)) as (st & r & He & Ho); [apply Hn|apply Hn|done|].
  rewrite He. cbn [faults].
  destruct (resolver_ipc_lookup_status_from_srv st) as [s|] eqn:Es; [|by destruct st]. unfold next_clock. cbn [with_lookups ch_clocks].
  pose proof (co_clocks _ Hw) as Hcs. destruct (ch_clocks w) as [|[now|] clocks] eqn:Ec; [left; by split; [|right]| |by split]. apply Forall_cons_1 in Hcs as [Hnow _].
  assert (Hco : forall handle, coherent (assembly_of handle q) (srv_response q now s r)) by (intros handle; by eapply srv_coherent).
  eapply (sends_responds q w (with_clocks (with_lookups w ls) clocks) l _ (srv_response q now s r)); try done.
  - split; [done|]. if_as E; [|lia]. by exists st, r, s, now.
  - exact (srv_sends q 0 now s r _ (Hco 0)).
Qed.

(** ** The loop *)

(** Why the helper stops without a further request: the parent has closed the channel, a call
    failed, the next record is no request, or a call has not returned. *)
Definition malformed (record : bytes) : Prop := forall q : resolver_ipc_request, codec_valid q -> record <> codec_wire q.
Definition ends (w : channel) (x : progress resolver_helper_status) : Prop :=
  match x with
  | Done RESOLVER_HELPER_OK w' => idle w w' /\ parent_closed w w'
  | Done RESOLVER_HELPER_IO w' => idle w w' /\ receive_failed w w'
  | Done RESOLVER_HELPER_PROTOCOL w' => (idle w w' /\ empty_packet w w') \/
      (silent w w' /\ exists record, malformed record /\ data (ch_recvs w) = record :: data (ch_recvs w'))
  | Blocked w' => idle w w' /\ receive_blocks w w'
  | _ => False
  end.
Definition stopped (w : channel) (x : progress resolver_helper_status) : Prop :=
  ends w x \/ exists q w1, asked w q w1 /\ breaks q w1 x.

(** Requests received one after the other, each with its lookup and its whole response. *)
Inductive served : channel -> list response -> channel -> Prop :=
  | served_none w : served w [] w
  | served_next w q w1 r w2 rs w' : asked w q w1 -> replied q w1 r w2 -> served w2 rs w' -> served w (r :: rs) w'.

Definition round_post (w : channel) (x : progress (option resolver_helper_status)) : Prop :=
  match x with
  | Done None w' => channel_ok w' /\ (length (ch_recvs w') < length (ch_recvs w))%nat /\ exists q w1 r, asked w q w1 /\ replied q w1 r w'
  | Done (Some status) w' => stopped w (Done status w')
  | Blocked w' => stopped w (Blocked w')
  | Fault => False
  end.

Lemma data_after pre packet l : packet <> [] -> data pre = [] -> data (pre ++ Received packet :: l) = packet :: data l.
Proof. intros Hp Hd. unfold data in *. rewrite omap_app, Hd. by destruct packet. Qed.

Lemma malformed_long record : RESOLVER_IPC_PACKET_BYTE_LIMIT < len record -> malformed record.
Proof. intros Hl q Hq ->. destruct (codec_fits q Hq) as [_ Hf]. unfold codec_wire in Hl. rewrite len_app, header_bytes_len in Hl. lia. Qed.

Lemma helper_round_ok w : channel_ok w -> round_post w (helper_round w).
Proof.
  intros Hw. unfold helper_round, mbind, task_bind. pose proof (receive_takes w) as Hr.
  destruct (resolver_helper_packet_receive _ w) as [[[] packet] w1|w1|]; cbn [receives] in Hr; [|by left|by left| |by left|done].
  2:{ left. destruct Hr as [Hr|(S & record & L & D)]; [by left|]. right. split; [done|]. exists record. split; [by apply malformed_long|done]. }
  destruct Hr as (Hsi & Hne & pre & Hpre & Hd). pose proof (co_recvs _ Hw) as Hrs. rewrite Hpre in Hrs.
  apply Forall_app in Hrs as [_ Hrs]. apply Forall_cons_1 in Hrs as [[Hb Hnorm] Hrest]. assert (Hdata : data (ch_recvs w) = packet :: data (ch_recvs w1)) by (rewrite Hpre; by apply data_after).
  pose proof (codec_accepts (A:=resolver_ipc_request) packet Hb) as Hdec. pose proof (codec_decodes (A:=resolver_ipc_request)) as Hde.
  change (codec_decode (Some packet)) with (resolver_ipc_request_decode (Some packet)) in Hdec.
  destruct (resolver_ipc_request_decode (Some packet)) as [q|e|] eqn:Ed; [| |done].
  2:{ left. right. split; [done|]. exists packet. split; [|done]. intros q Hq ->. specialize (Hde q Hq). change (codec_decode (A:=resolver_ipc_request)) with resolver_ipc_request_decode in Hde. congruence. }
  destruct Hdec as [Hq Hwire]. specialize (Hnorm q Hq Hwire). destruct Hsi as [Fo S Se C L].
  assert (Hw1 : channel_ok w1) by (split; [done|rewrite C|rewrite L]; apply Hw). assert (Hak : asked w q w1) by (by split; [|split|rewrite <- Hwire]).
  set (x := (if q_query_type q =? ns_t_srv then resolver_helper_response_srv_send q else resolver_helper_response_address_send q) w1). assert (Hx : responds q w1 x).
  { unfold x. if_as E; [apply srv_responds|apply address_responds]; done || lia. }
  destruct x as [st w2|w2|]; [|right; by exists q, w1|done]. destruct st; cbn in Hx |- *; try (right; by exists q, w1).
  destruct Hx as (r & [Fo2 R2 C2 (l & L2 & Ha)] & S2). split; [|split].
  - split; [rewrite R2; done|..]; [pose proof (co_clocks _ Hw1) as H; rewrite C2 in H|pose proof (co_lookups _ Hw1) as H; rewrite L2 in H]; by apply Forall_cons_1 in H as [_ H].
  - rewrite R2, Hpre, length_app. cbn [length]. lia.
  - exists q, w1, r. split; [done|]. split; [|done]. split; [done..|by exists l].
Qed.

Definition run_channel {A} (x : progress A) : option channel := match x with Done _ w | Blocked w => Some w | Fault => None end.

(** Whole responses to the first requests, in order, then a reason to stop. *)
Definition serves (w : channel) (x : progress resolver_helper_status) : Prop :=
  exists rs w1 w', run_channel x = Some w' /\ served w rs w1 /\ ch_sent w1 = ch_sent w ++ concat (response_packets <$> rs) /\ stopped w1 x.

Lemma serves_stop w w' x : run_channel x = Some w' -> stopped w x -> serves w x.
Proof. intros Hx Hs. exists [], w, w'. split; [done|]. split; [constructor|]. cbn. by rewrite app_nil_r. Qed.

Lemma serves_next w q w1 r w2 x : asked w q w1 -> replied q w1 r w2 -> serves w2 x -> serves w x.
Proof.
  intros Ha Hr (rs & w3 & w' & Hx & Hs & Hsent & Hst). exists (r :: rs), w3, w'. split; [done|]. split; [by econstructor|]. split; [|done].
  destruct Hr as [_ Hr]. rewrite Hsent, Hr, (si_sent _ _ (ak_silent _ _ _ Ha)). cbn [fmap list_fmap concat]. by rewrite <- !app_assoc.
Qed.

Lemma helper_loop_serves fuel : forall w, channel_ok w -> (length (ch_recvs w) < fuel)%nat -> serves w (helper_loop fuel w).
Proof.
  induction fuel as [|fuel IH]; intros w Hw Hf; [lia|]. cbn [helper_loop]. unfold mbind, task_bind.
  pose proof (helper_round_ok w Hw) as Hr. destruct (helper_round w) as [[st|] w1|w1|]; [by eapply serves_stop| |by eapply serves_stop|done].
  destruct Hr as (Hw1 & Hlt & q & w0 & r & Ha & Hr). eapply serves_next; [done|done|]. apply IH; [done|lia].
Qed.

(** More rounds than records change nothing. *)
Lemma helper_loop_enough fuel : forall w, channel_ok w -> (length (ch_recvs w) < fuel)%nat -> helper_loop (S fuel) w = helper_loop fuel w.
Proof.
  induction fuel as [|fuel IH]; intros w Hw Hf; [lia|]. cbn [helper_loop]. unfold mbind, task_bind.
  pose proof (helper_round_ok w Hw) as Hr. destruct (helper_round w) as [[st|] w1|w1|]; try done. destruct Hr as (Hw1 & Hlt & _).
  apply IH; [done|lia].
Qed.

(** C15: when the parent asks for normalised names, whatever the kernel, the name servers
    and the clock answer, the helper makes no memory error; it takes the requests in the
    order they came and sends to each the whole response, one packet after the other, that
    carries the result of its lookup and that the assembler of the parent accepts.  It stops
    only for a reason: with OK when the parent has closed the channel and no request is left
    before that, with PROTOCOL at a record that is no request or at an empty packet, with
    INTERNAL when the clock fails, with IO when a call fails or a packet is taken in part;
    only after a failure of sending is a response cut off.  Otherwise it is inside a call
    that has not returned: the wait, the receive, the lookup, the clock or the send.  The
    rounds of its loop that the model allows are enough. *)
Theorem helper_serves socket_fd w : channel_ok w -> 0 <= socket_fd ->
  serves w (resolver_helper_run socket_fd w) /\
  forall n, helper_loop (n + S (length (ch_recvs w))) w = resolver_helper_run socket_fd w.
Proof.
  intros Hw Hfd. unfold resolver_helper_run. if_as E; [lia|]. split; [apply helper_loop_serves; [done|lia]|].
  induction n as [|n IH]; [done|]. cbn [Nat.add]. rewrite helper_loop_enough; [done|done|lia].
Qed.

(** ** To the parent *)

(** A result as it arrives: an array without elements is none. *)
Definition trimmed {A} (o : option (list A)) : option (list A) := match o with Some [] => None | _ => o end.
Definition address_trimmed (r : dns_address_result) : dns_address_result := {|
  ar_addresses := trimmed (ar_addresses r); ar_canonical_name := ar_canonical_name r; ar_cnames := trimmed (ar_cnames r); ar_negative := ar_negative r;
  ar_question_name := ar_question_name r; ar_rcode := ar_rcode r |}.
Definition srv_trimmed (r : dns_srv_result) : dns_srv_result := {|
  sr_canonical_name := sr_canonical_name r; sr_cnames := trimmed (sr_cnames r); sr_negative := sr_negative r; sr_question_name := sr_question_name r;
  sr_rcode := sr_rcode r; sr_records := trimmed (sr_records r) |}.

Lemma trimmed_default {A} (o : option (list A)) : (if count_of o =? 0 then None else Some (default [] o)) = trimmed o.
Proof. destruct o as [[|x l]|]; [done| |done]. unfold count_of. change (default [] (Some (x :: l))) with (x :: l). cbn [trimmed]. if_as E; [cbn in E; lia|done]. Qed.

(** What the lookup [l] of the request returns is what the assembly holds. *)
Definition received (l : lookup_answers) (q : resolver_ipc_request) (a : resolver_ipc_assembly) : Prop :=
  if q_query_type q =? ns_t_srv then exists status result, resolver_ipc_lookup_status_from_srv status = Some (as_status a) /\
    dns_srv_lookup (lk_init l) (lk_alloc l) (lk_res l) (Some (q_query_name q)) (Some dns_srv_result_zero) = Some (status, Some result) /\
    payload_srv (as_payload a) = srv_trimmed result
  else exists status result, resolver_ipc_lookup_status_from_address status = Some (as_status a) /\
    dns_address_lookup (lk_init l) (lk_alloc l) (lk_res l) (Some (q_query_name q)) (request_family q) (Some dns_address_result_zero) = Some (status, Some result) /\
    payload_address (as_payload a) = address_trimmed result.

Lemma answered_received l q r handle : answered l q r -> received l q (assembled (assembly_of handle q) r).
Proof.
  intros [Hc Hr]. specialize (Hc handle). unfold received. destruct (q_query_type q =? ns_t_srv) eqn:E.
  - destruct Hr as (st & res & s & now & -> & Hs & Hl). exists st, (to_srv_result res). split; [done|]. split; [done|].
    rewrite payload_srv_is by (done || (cbn; lia)). unfold srv_result_of, srv_trimmed, response_cnames.
    cbn [srv_response begin_of rp_begin rp_cnames rp_services b_canonical_name b_cname_count b_negative b_question_name b_rcode b_record_count to_srv_result
      sr_canonical_name sr_cnames sr_negative sr_question_name sr_rcode sr_records]. by rewrite !trimmed_default.
  - destruct Hr as (st & res & s & now & -> & Hs & Hl). exists st, (to_address_result res). split; [done|]. split; [done|].
    rewrite payload_address_is by (done || (cbn; lia)). unfold address_result_of, address_trimmed, response_cnames.
    cbn [address_response begin_of rp_begin rp_cnames rp_addresses b_canonical_name b_cname_count b_negative b_question_name b_rcode b_record_count to_address_result
      ar_canonical_name ar_cnames ar_negative ar_question_name ar_rcode ar_addresses]. by rewrite !trimmed_default.
Qed.

Lemma largest_room b a r : coherent a r ->
  bu_owned_bytes b + dynamic_size (as_query_type a) DNS_CNAME_DEPTH_LIMIT DNS_ADDRESS_RECORD_LIMIT <= RESOLVER_REPLY_ASSEMBLY_BYTE_LIMIT ->
  has_room b (as_query_type a) true true (rp_begin r) = true.
Proof.
  intros Hc Hroom. destruct (begin_counts _ (pa_valid _ _ (co_partial _ _ Hc))) as [Hcn Hrn]. unfold has_room. rewrite !orb_true_r, !andb_true_r.
  unfold dynamic_size in *. change (DNS_CNAME_DEPTH_LIMIT =? 0) with false in Hroom. unfold DNS_ADDRESS_RECORD_LIMIT in Hroom.
  assert (0 <= DNS_CNAME_DEPTH_LIMIT * sizeof_dns_cname_record) by by vm_compute.
  assert (0 <= sizeof_dns_srv_record /\ 0 <= sizeof_dns_address_record) as [? ?] by by vm_compute. split_ifs; nia.
Qed.

(** C14: a query makes the round trip: when the helper has answered a request, the packets it
    sent take a waiting assembly for the same query, of any budget with room for the
    largest response, to completion when memory is available, and the assembly then holds the status and the result of
    the lookup in the helper. *)
Theorem lookup_reaches_parent w w' q b taken h a : channel_ok w -> codec_valid q -> normal (q_query_name q) ->
  (if q_query_type q =? ns_t_srv then resolver_helper_response_srv_send q else resolver_helper_response_address_send q) w = Done RESOLVER_HELPER_OK w' ->
  budget_reachable b taken -> assembly_get b h = Some a -> as_state a = RESOLVER_IPC_ASSEMBLY_STATE_BEGIN ->
  as_expected_name a = q_query_name q -> as_query_type a = q_query_type q -> as_query_id a = q_query_id q ->
  bu_owned_bytes b + dynamic_size (as_query_type a) DNS_CNAME_DEPTH_LIMIT DNS_ADDRESS_RECORD_LIMIT <= RESOLVER_REPLY_ASSEMBLY_BYTE_LIMIT ->
  exists l lookups packets b' a', ch_lookups w = l :: lookups /\ ch_sent w' = ch_sent w ++ packets /\
    packets_consume true true h b RESOLVER_IPC_ASSEMBLY_OK packets = Some (b', RESOLVER_IPC_ASSEMBLY_COMPLETE) /\
    assembly_get b' h = Some a' /\ received l q a'.
Proof.
  intros Hw Hq Hn Hx Hb Hg Hs Hname Htype Hid Hroom.
  assert (Hr : responds q w (Done RESOLVER_HELPER_OK w')) by (rewrite <- Hx; if_as E; [apply srv_responds|apply address_responds]; done || lia).
  destruct Hr as (r & [_ _ _ (l & Hl & Ha)] & Hsent).
  pose proof (reachable_budget_ok _ _ Hb) as Hok. destruct (begin_is_fresh _ _ _ _ Hok Hg Hs) as [Hf Hh].
  assert (Hao : a = assembly_of h q) by (rewrite (fr_is _ Hf); unfold assembly_of; by rewrite Hname, Htype, Hid, Hh).
  assert (Hc : coherent a r) by (rewrite Hao; apply Ha).
  destruct (coherent_accepted b taken h a true true r Hb Hg Hs Hc) as (b' & Hp & Hg'); [by apply (largest_room b a)|].
  exists l, (ch_lookups w'), (response_packets r), b', (assembled a r). split; [done|]. split; [done|]. split; [done|]. split; [done|]. rewrite Hao. by apply answered_received.
Qed.

End helping.

(** ** A sample session *)

#[local] Existing Instance sample_nameser.
#[local] Existing Instance sample_nameser_laws.

Definition sample_request : resolver_ipc_request := {|
  q_query_name := sample_question; q_query_class := ns_c_in; q_query_id := 7; q_query_type := ns_t_a |}.
Definition sample_lookup : lookup_answers := {| lk_init := Some (5, 2); lk_alloc := true; lk_res := fun _ => sample_answer |}.
(** The request, then the end; the sizes taken are those of the four packets. *)
Definition sample_channel : channel := {|
  ch_polls := [{| pl_result := -1; pl_errno := EINTR; pl_revents := 0 |}; {| pl_result := 1; pl_errno := 0; pl_revents := POLLIN |};
               {| pl_result := 1; pl_errno := 0; pl_revents := POLLOUT |}; {| pl_result := 1; pl_errno := 0; pl_revents := POLLHUP |}];
  ch_recvs := [Received (codec_wire sample_request)]; ch_peeks := []; ch_sends := [SendFailed EAGAIN; Taken 66; Taken 34; Taken 38; Taken 24];
  ch_clocks := [Some {| tv_sec := 1000; tv_nsec := 5 |}]; ch_lookups := [sample_lookup]; ch_waits := []; ch_sent := [] |}.

Lemma sample_normal : normal sample_question.
Proof. split; [reflexivity|]. unfold sample_question, is_cstr. repeat (apply list.Forall_cons; split; [lia|]). by apply list.Forall_nil. Qed.

Lemma sample_request_valid : codec_valid sample_request.
Proof. split; [by vm_compute|]. split; [done|]. split; [done|]. by apply normal_valid, sample_normal. Qed.

Lemma sample_channel_ok : channel_ok sample_channel.
Proof.
  split; cbn [sample_channel ch_recvs ch_clocks ch_lookups]; (apply list.Forall_cons; split; [|by apply list.Forall_nil]).
  - split; [by apply bytes_by_check|]. intros q Hq Hw. assert (Hd : codec_decode (Some (codec_wire q)) = Next sample_request) by (rewrite <- Hw; by vm_compute).
    rewrite (codec_decodes q Hq) in Hd. injection Hd as ->. apply sample_normal.
  - by vm_compute.
  - intros i q. apply sample_answer_bytes.
Qed.

Lemma helper_serves_witness : exists w', resolver_helper_run 3 sample_channel = Done RESOLVER_HELPER_OK w' /\ length (ch_sent w') = 4%nat /\
  serves sample_channel (Done RESOLVER_HELPER_OK w').
Proof.
  destruct (helper_serves 3 sample_channel sample_channel_ok ltac:(lia)) as [H _].
  eexists. split; [vm_compute; reflexivity|]. split; [reflexivity|]. exact H.
Defined.

(** The channel when the request has been received. *)
Definition sample_asked : channel := with_polls sample_channel (drop 2 (ch_polls sample_channel)) POLLIN.
Definition sample_sent : channel := match resolver_helper_response_address_send sample_request sample_asked with Done _ w => w | _ => sample_asked end.

Lemma lookup_reaches_parent_witness : exists packets b' a',
  packets_consume true true 1 sample_budget RESOLVER_IPC_ASSEMBLY_OK packets = Some (b', RESOLVER_IPC_ASSEMBLY_COMPLETE) /\
  assembly_get b' 1 = Some a' /\ received sample_lookup sample_request a'.
Proof.
  assert (Hx : (if q_query_type sample_request =? ns_t_srv then resolver_helper_response_srv_send sample_request
    else resolver_helper_response_address_send sample_request) sample_asked = Done RESOLVER_HELPER_OK sample_sent) by by vm_compute.
  assert (Ha : channel_ok sample_asked) by (split; apply sample_channel_ok).
  assert (Hg : assembly_get sample_budget 1 = Some sample_assembly) by by vm_compute.
  destruct (lookup_reaches_parent sample_asked sample_sent sample_request sample_budget [] 1 sample_assembly Ha sample_request_valid
    sample_normal Hx sample_budget_reachable Hg eq_refl eq_refl eq_refl eq_refl ltac:(by vm_compute)) as (l & lookups & packets & b' & a' & Hl & Hs & Hr).
  assert (El : l = sample_lookup) by exact (f_equal (fun x => default l (head x)) (eq_sym Hl)).
  exists packets, b', a'. rewrite <- El. exact Hr.
Defined.

(** ** The process of the helper *)

Module Isolation.
Import Process.

Lemma lookup_close p fd i : pr_files (close p fd) !! i = if decide (i = fd) then None else pr_files p !! i.
Proof. unfold close. cbn. case_decide as E; [subst; apply lookup_delete_eq|by apply lookup_delete_ne]. Qed.

Lemma lookup_closefrom p fd i : pr_files (closefrom p fd) !! i = if decide (i < fd) then pr_files p !! i else None.
Proof.
  unfold closefrom. cbn. rewrite map_lookup_filter. destruct (pr_files p !! i) as [file|]; cbn; [|by case_decide]. unfold guard. by case_decide.
Qed.

(** The descriptors of a process are not negative. *)
Definition files_ok (p : process) : Prop := forall fd file, pr_files p !! fd = Some file -> 0 <= fd.

(** Only the channel stays open, under its number; a failure leaves the descriptors. *)
Lemma prepare_files a p fd file p' r : files_ok p -> pr_files p !! fd = Some file -> resolver_helper_process_descriptors_prepare a p fd = (p', r) ->
  (r = None /\ p' = p /\ ~ (fd = RESOLVER_HELPER_PROCESS_SOCKET_FD \/ ca_dup3 a = true)) \/
  (r = Some RESOLVER_HELPER_PROCESS_SOCKET_FD /\ pr_files p' = {[RESOLVER_HELPER_PROCESS_SOCKET_FD := file]} /\ (fd = RESOLVER_HELPER_PROCESS_SOCKET_FD \/ ca_dup3 a = true)).
Proof.
  intros Hok Hf. unfold resolver_helper_process_descriptors_prepare.
  assert (Hd : (if negb (fd =? RESOLVER_HELPER_PROCESS_SOCKET_FD) then p ← dup3 (ca_dup3 a) p fd RESOLVER_HELPER_PROCESS_SOCKET_FD; Some (close p fd) else Some p) = None <->
    ~ (fd = RESOLVER_HELPER_PROCESS_SOCKET_FD \/ ca_dup3 a = true)).
  { unfold dup3. rewrite Hf. destruct (Z.eqb_spec fd RESOLVER_HELPER_PROCESS_SOCKET_FD); cbn; [split; [done|tauto]|]. destruct (ca_dup3 a); cbn; split; (done || tauto || by intros _ [?|?]). }
  destruct (if negb _ then _ else Some p) as [p1|] eqn:E; [|intros [= <- <-]; left; split; [done|]; split; [done|]; by apply Hd]. intros [= <- <-]. right. split; [done|].
  split; [|destruct (decide (fd = RESOLVER_HELPER_PROCESS_SOCKET_FD)); [by left|]; destruct (ca_dup3 a); [by right|]; exfalso; cut (Some p1 = None); [done|]; apply Hd; intros [?|?]; done].
  assert (Hp1 : forall i, i = 3 \/ i < 0 -> pr_files p1 !! i = if decide (i = 3) then Some file else None).
  { intros i Hi. assert (Hneg : i < 0 -> pr_files p !! i = None) by (intros Hlt; destruct (pr_files p !! i) eqn:Ei; [apply Hok in Ei; lia|done]).
    pose proof (Hok _ _ Hf). unfold RESOLVER_HELPER_PROCESS_SOCKET_FD in E. destruct (fd =? 3) eqn:E3; cbn [negb] in E.
    - injection E as <-. apply Z.eqb_eq in E3 as ->. case_decide; [by subst|]. apply Hneg. lia.
    - unfold dup3 in E. rewrite Hf in E. cbn [mbind option_bind] in E. destruct (ca_dup3 a); [|done]. injection E as <-. rewrite lookup_close. cbn.
      repeat case_decide; subst; try lia; [by rewrite lookup_insert_eq|]. rewrite lookup_insert_ne by lia. apply Hneg. lia. }
  apply map_eq. intros i. rewrite lookup_closefrom, !lookup_close. unfold STDIN_FILENO, STDOUT_FILENO, STDERR_FILENO, RESOLVER_HELPER_PROCESS_SOCKET_FD in *.
  destruct (decide (i = 3)) as [->|Hi]; [rewrite lookup_singleton_eq; repeat (case_decide; try lia); by apply Hp1; left|].
  rewrite lookup_singleton_ne by lia. repeat case_decide; try done. rewrite Hp1 by lia. by rewrite decide_False.
Qed.

(** The process of the helper: its descriptors, and what it has set before it runs. *)
Record isolated (a : child_answers) (p p' : process) (files : gmap Z Z) (mask : gset Z) (name : bytes) : Prop := {
  is_files : pr_files p' = files;
  is_mask : pr_mask p' = mask;
  is_death_signal : pr_death_signal p' = Some SIGTERM;
  is_actions : pr_actions p' = <[SIGTERM := SIG_DFL]> (<[SIGINT := SIG_DFL]> (<[SIGUSR1 := SIG_IGN]> (pr_actions p)));
  is_name : pr_name p' = if ca_name a then take 15 name else pr_name p;
}.

Lemma prepare_keeps a p fd : let p' := (resolver_helper_process_descriptors_prepare a p fd).1 in
  pr_mask p' = pr_mask p /\ pr_death_signal p' = pr_death_signal p /\ pr_actions p' = pr_actions p /\ pr_name p' = pr_name p.
Proof.
  unfold resolver_helper_process_descriptors_prepare, dup3. destruct (negb _); [|done]. destruct (pr_files p !! fd); [|done]. cbn. by destruct (ca_dup3 a).
Qed.

(** The death of the parent will be signalled to the child and has not happened before, and
    the signals and the channel could be set up. *)
Definition child_ready (a : child_answers) (fd parent : Z) : Prop :=
  ca_death_signal a = true /\ ca_parent a = parent /\ ca_usr1 a = true /\ ca_int a = true /\ ca_term a = true /\ ca_mask a = true /\
  (fd = RESOLVER_HELPER_PROCESS_SOCKET_FD \/ ca_dup3 a = true).

(** The child runs the helper exactly when it is ready, isolated, and closes the channel
    when the helper returns; otherwise it gives up without touching the channel. *)
Definition child_ok `{nameser} (a : child_answers) (p : process) (w : channel) (fd file parent : Z) (mask : gset Z) (name : bytes)
    (o : process * progress resolver_helper_status) : Prop :=
  (~ child_ready a fd parent /\ o.2 = Done RESOLVER_HELPER_INTERNAL w /\ pr_files o.1 = pr_files p) \/
  (child_ready a fd parent /\ o.2 = resolver_helper_run RESOLVER_HELPER_PROCESS_SOCKET_FD w /\
   isolated a p o.1 (match o.2 with Done _ _ => ∅ | _ => {[RESOLVER_HELPER_PROCESS_SOCKET_FD := file]} end) mask name).

#[local] Ltac unready := left; split; [intros (? & ? & ? & ? & ? & ? & ?); (congruence || tauto)|done].

Lemma child_runs `{nameser} a p w fd parent mask name file : files_ok p -> pr_files p !! fd = Some file ->
  child_ok a p w fd file parent mask name (resolver_helper_process_child_run a p w fd parent mask name).
Proof.
  intros Hok Hf. unfold resolver_helper_process_child_run, resolver_helper_process_signals_restore, child_ok, child_ready.
  destruct (ca_death_signal a); [|unready]. cbn [negb]. destruct (Z.eqb_spec (ca_parent a) parent) as [Epa|]; [|unready]. cbn [negb].
  destruct (ca_usr1 a); [|unready]. cbn [negb]. destruct (ca_int a); [|unready]. cbn [negb].
  destruct (ca_term a); [|unready]. cbn [negb]. destruct (ca_mask a); [|unready].
  cbn [negb]. set (p1 := with_mask _ mask). set (p2 := if ca_name a then with_name p1 _ else p1).
  assert (H2 : isolated a p p2 (pr_files p) mask name) by (unfold p2; destruct (ca_name a) eqn:E; split; rewrite ?E; done).
  clearbody p2. destruct H2 as [F2 M2 D2 A2 N2]. pose proof (prepare_keeps a p2 fd) as (M3 & D3 & A3 & N3).
  pose proof (prepare_files a p2 fd file) as Hp. destruct (resolver_helper_process_descriptors_prepare a p2 fd) as [p3 r].
  destruct (Hp p3 r) as [(-> & -> & Hn)|(-> & F3 & Hy)]; [intros i f; rewrite F2; apply Hok|by rewrite F2|done|unready|].
  right. split; [done|]. cbn [fst] in *. destruct (resolver_helper_run RESOLVER_HELPER_PROCESS_SOCKET_FD w) as [st w'|w'|]; cbn; (split; [done|]); split; cbn; try congruence; [|exact F3..].
  rewrite F3. apply delete_singleton_eq.
Qed.

(** What is asked of the two sockets the kernel makes: they are new descriptors. *)
Definition sockets_ok (p : process) (s : start_answers) : Prop :=
  match sa_sockets s with
  | Some ((fd0, _), (fd1, _)) => 0 <= fd0 /\ 0 <= fd1 /\ fd0 <> fd1 /\ pr_files p !! fd0 = None /\ pr_files p !! fd1 = None
  | None => True
  end.

(** C16: starting a helper leaks no descriptor: the parent gains exactly its end of the
    channel, or, when the channel or the child cannot be made, nothing, with the error
    of the call.  The child runs the helper exactly when its parent is still the one that
    made it after it asked for the signal of its parent's death, and its signals and its
    channel are set up; the only descriptor of the helper is then its end of the channel, its
    signals are restored and it is terminated with its parent; after the helper returns the
    child has no descriptor at all. *)
Theorem helper_process_isolated `{nameser} s a p w mask name process_id socket_fd : files_ok p -> name <> [] -> sockets_ok p s ->
  match resolver_helper_process_start s a p w (Some mask) (Some name) (Some process_id) (Some socket_fd) with
  | Returned p' result errno process_id socket_fd =>
      ((sa_sockets s = None \/ sa_fork s = -1) /\ result = -1 /\ errno = sa_errno s /\ process_id = Some (-1) /\ socket_fd = Some (-1) /\ pr_files p' = pr_files p) \/
      (exists fd0 file0 other, sa_sockets s = Some ((fd0, file0), other) /\ sa_fork s <> -1 /\ sa_fork s <> 0 /\
        result = 0 /\ process_id = Some (sa_fork s) /\ socket_fd = Some fd0 /\ pr_files p' = <[fd0 := file0]> (pr_files p))
  | Exited p' r => sa_fork s = 0 /\ exists other fd1 file1, sa_sockets s = Some (other, (fd1, file1)) /\
      child_ok a (with_files p (<[fd1 := file1]> (pr_files p))) w fd1 file1 (sa_pid s) mask name (p', r)
  end.
Proof.
  intros Hok Hn Hs. unfold resolver_helper_process_start, sockets_ok in *. cbn [fmap option_fmap option_map const]. destruct name as [|c name]; [done|].
  destruct (sa_sockets s) as [[[fd0 file0] [fd1 file1]]|]; [|by left; split; [left|]]. destruct Hs as (H0 & H1 & Hne & N0 & N1).
  if_as E1; [left|if_as E2; [|right; exists fd0, file0, (fd1, file1)]].
  - split; [right; lia|]. do 4 (split; [done|]). cbn. rewrite delete_insert_ne by done. rewrite delete_insert_id; [by rewrite delete_insert_id|]. by rewrite delete_insert_id.
  - set (p1 := close _ fd0). assert (Hp1 : p1 = with_files p (<[fd1 := file1]> (pr_files p))).
    { unfold p1, close, with_files. cbn. rewrite delete_insert_ne, delete_insert_id by done. done. }
    rewrite Hp1. clear p1 Hp1. set (p1 := with_files p _). assert (Hc := child_runs a p1 w fd1 (sa_pid s) mask (c :: name) file1).
    destruct (resolver_helper_process_child_run _ _ _ _ _ _ _) as [p' r]. split; [lia|]. exists (fd0, file0), fd1, file1. split; [done|].
    apply Hc; [|apply lookup_insert_eq]. intros i f. cbn. intros [[<- _]|[_ Hi]]%lookup_insert_Some; [done|by apply Hok in Hi].
  - split; [done|]. do 2 (split; [lia|]). do 3 (split; [done|]). cbn. rewrite delete_insert_id; [done|]. by rewrite lookup_insert_ne.
Qed.

Definition sample_process : process := {| pr_files := {[0 := 100; 1 := 101; 2 := 102; 7 := 107]}; pr_actions := ∅; pr_mask := {[SIGTERM]}; pr_death_signal := None; pr_name := [] |}.
Definition sample_child : child_answers := {|
  ca_death_signal := true; ca_parent := 40; ca_usr1 := true; ca_int := true; ca_term := true; ca_mask := true; ca_name := true; ca_dup3 := true |}.
Definition sample_start : start_answers := {| sa_sockets := Some ((4, 200), (5, 201)); sa_pid := 40; sa_fork := 0; sa_errno := 0 |}.

Lemma helper_process_isolated_witness : exists p' r,
  resolver_helper_process_start sample_start sample_child sample_process sample_channel (Some ∅) (Some [114]) (Some 0) (Some 0) = Exited p' r /\
  child_ready sample_child 5 40 /\ r = resolver_helper_run 3 sample_channel /\ pr_files p' = ∅.
Proof.
  assert (Hok : files_ok sample_process).
  { intros fd file. cbn. rewrite !lookup_insert_Some, lookup_singleton_Some. lia. }
  assert (Hs : sockets_ok sample_process sample_start) by by vm_compute.
  pose proof (helper_process_isolated sample_start sample_child sample_process sample_channel ∅ [114] 0 0 Hok ltac:(done) Hs) as H.
  assert (Hr : child_ready sample_child 5 40) by (repeat (split; [done|]); by right).
  destruct (resolver_helper_process_start _ _ _ _ _ _ _ _) as [p' result errno pid fd|p' r]; [by destruct H as [([H|H] & _)|(? & ? & ? & _ & _ & H & _)]|].
  exists p', r. split; [reflexivity|]. split; [done|]. destruct H as (_ & other & fd1 & file1 & [= <- <- <-] & [[Hn _]|(_ & Hx & [F _ _ _ _])]); [done|].
  cbn [fst snd] in *. split; [exact Hx|]. rewrite F, Hx. vm_compute. reflexivity.
Defined.

End Isolation.
