(* ===== verification/Stateful.v ===== *)
(** * Records and programs with state

    Functional updates of the fields of a record, and the state monad of the components
    whose functions change shared structures through pointers: a program runs in a
    world and either returns a value with the world after it or makes a memory error
    ([None]: the use of freed memory or of a NULL pointer, or the corruption of a list).
    [wp] is its weakest precondition, in which the components' lemmas are stated. *)

From S2P Require Import Prelude.

(** ** Field updates *)

(** A record type declares its identity field by field; the update of a field is then
    derived from it. *)
Class Settable (R : Type) := identity : R -> R.
Class Setter {R T : Type} (field : R -> T) := update : (T -> T) -> R -> R.

Ltac derive_setter :=
  match goal with
  | |- @Setter ?R ?T ?field =>
      let e := constr:(@identity R _) in
      let e := eval hnf in e in
      match eval pattern field in e with
      | ?s _ => let u := eval cbv beta in (fun f => s (fun r => f (field r))) in exact u
      end
  end.
#[export] Hint Extern 1 (Setter _) => derive_setter : typeclass_instances.

#[warnings="-postfix-notation-not-level-1"]
Notation "r <| field ::= f |>" := (update (field := field) f r) (at level 12, left associativity, field at level 200, format "r  <|  field  ::=  f  |>").
#[warnings="-postfix-notation-not-level-1"]
Notation "r <| field := v |>" := (update (field := field) (fun _ => v) r) (at level 12, left associativity, field at level 200, format "r  <|  field  :=  v  |>").

(** ** Programs *)

Definition prog (W A : Type) : Type := W -> option (A * W).
#[export] Instance prog_ret W : MRet (prog W) := fun _ a w => Some (a, w).
#[export] Instance prog_bind W : MBind (prog W) := fun _ _ f m w => match m w with Some (a, w) => f a w | None => None end.

Section programs.
Context {W : Type}.

Definition fault {A} : prog W A := fun _ => None.
Definition read {A} (f : W -> A) : prog W A := fun w => Some (f w, w).
Definition modify (f : W -> W) : prog W unit := fun w => Some ((), f w).
Definition lift {A} (o : option A) : prog W A := match o with Some a => mret a | None => fault end.
Definition when (b : bool) (m : prog W unit) : prog W unit := if b then m else mret ().
Fixpoint for_each {A} (f : A -> prog W unit) (l : list A) : prog W unit :=
  match l with [] => mret () | x :: l => f x ;; for_each f l end.

(** ** Weakest preconditions *)

Definition wp {A} (m : prog W A) (Q : A -> W -> Prop) (w : W) : Prop :=
  match m w with Some (a, w') => Q a w' | None => False end.

Lemma wp_ret {A} (a : A) (Q : A -> W -> Prop) w : Q a w -> wp (mret a) Q w.
Proof. done. Qed.
Lemma wp_bind {A B} (m : prog W A) (f : A -> prog W B) (Q : B -> W -> Prop) w :
  wp m (fun a => wp (f a) Q) w -> wp (m ≫= f) Q w.
Proof. unfold wp, mbind, prog_bind. by destruct (m w) as [[a w']|]. Qed.
Lemma wp_mono {A} (m : prog W A) (P Q : A -> W -> Prop) w : wp m P w -> (forall a w', P a w' -> Q a w') -> wp m Q w.
Proof. unfold wp. destruct (m w) as [[a w']|]; [|done]. auto. Qed.
Lemma wp_read {A} (f : W -> A) (Q : A -> W -> Prop) w : Q (f w) w -> wp (read f) Q w.
Proof. done. Qed.
Lemma wp_modify (f : W -> W) (Q : () -> W -> Prop) w : Q () (f w) -> wp (modify f) Q w.
Proof. done. Qed.
Lemma wp_lift {A} (o : option A) a (Q : A -> W -> Prop) w : o = Some a -> Q a w -> wp (lift o) Q w.
Proof. by intros ->. Qed.
Lemma wp_when b m (Q : () -> W -> Prop) w : (b = true -> wp m Q w) -> (b = false -> Q () w) -> wp (when b m) Q w.
Proof. destruct b; intros H1 H2; [by apply H1|by apply H2]. Qed.

(** A loop keeps what each of its rounds keeps. *)
Lemma wp_for_each {A} (f : A -> prog W unit) (I : W -> Prop) l w :
  (forall x w, x ∈ l -> I w -> wp (f x) (fun _ => I) w) -> I w -> wp (for_each f l) (fun _ => I) w.
Proof.
  revert w. induction l as [|x l IH]; intros w Hf Hi; [done|]. cbn [for_each]. apply wp_bind.
  eapply wp_mono; [apply Hf; [by left|done]|]. intros ? w' Hw. apply IH; [|done]. intros y v Hy. apply Hf. by right.
Qed.

Lemma wp_assoc {A B C} (m : prog W A) (f : A -> prog W B) (k : B -> prog W C) (Q : C -> W -> Prop) w :
  wp ((m ≫= f) ≫= k) Q w -> wp (m ≫= fun a => f a ≫= k) Q w.
Proof. unfold wp, mbind, prog_bind. by destruct (m w) as [[a w']|]. Qed.

(** What holds of every result. *)
Lemma wp_elim {A} (m : prog W A) (Q : A -> W -> Prop) w a w' : wp m Q w -> m w = Some (a, w') -> Q a w'.
Proof. unfold wp. intros H E. by rewrite E in H. Qed.
Lemma wp_intro {A} (m : prog W A) (Q : A -> W -> Prop) w : (exists a w', m w = Some (a, w') /\ Q a w') -> wp m Q w.
Proof. unfold wp. by intros (a & w' & -> & H). Qed.

End programs.

(** One step of a program. *)
Ltac wp_step :=
  match goal with
  | |- wp (_ ≫= _) _ _ => apply wp_bind
  | |- wp (mret _) _ _ => apply wp_ret
  | |- wp (read _) _ _ => apply wp_read
  | |- wp (modify _) _ _ => apply wp_modify
  end; cbv beta.
Ltac wp_steps := repeat wp_step.
