(* ===== verification/Dll.v ===== *)
(** * Doubly linked lists

    The intrusive lists of [src/src/resolver/supervisor.c] (the two queues and the list of
    completions of the jobs): every node holds the addresses of its two neighbours, the
    list those of its first and last node.  [dll] says which list of addresses the links
    of a heap represent; the lemmas show that the pointer manipulations of a removal, an
    append and a prepend are those operations on it. *)

From S2P Require Import Prelude.
From stdpp Require Import gmap.
#[local] Open Scope Z_scope.

(** The links of each node: the previous and the next one. *)
Abbreviation links := (gmap Z (option Z * option Z)).
Definition set_previous (v : option Z) (m : links) (x : Z) : links := alter (fun l => (v, l.2)) x m.
Definition set_next (v : option Z) (m : links) (x : Z) : links := alter (fun l => (l.1, v)) x m.

Definition hd_or (l : list Z) (n : option Z) : option Z := match l with [] => n | y :: _ => Some y end.
Definition last_or (p : option Z) (l : list Z) : option Z := match list.last l with None => p | Some y => Some y end.

(** The nodes [l] linked one after the other, between [p] and [n]. *)
Fixpoint seg (m : links) (p : option Z) (l : list Z) (n : option Z) : Prop :=
  match l with
  | [] => True
  | x :: l => m !! x = Some (p, hd_or l n) /\ seg m (Some x) l n
  end.

Record dll (m : links) (head tail : option Z) (l : list Z) : Prop := {
  dll_nodup : NoDup l;
  dll_head : head = hd_or l None;
  dll_tail : tail = last_or None l;
  dll_seg : seg m None l None;
}.

(** ** The operations on links *)

(** A heap of links with the ends of a list. *)
Abbreviation list_state := (links * option Z * option Z)%type.

Definition dll_remove (s : list_state) (x : Z) (p n : option Z) : list_state :=
  let '(m, head, tail) := s in
  let '(m, head) := match p with None => (m, n) | Some q => (set_next n m q, head) end in
  let '(m, tail) := match n with None => (m, p) | Some q => (set_previous p m q, tail) end in
  (set_previous None (set_next None m x) x, head, tail).
Definition dll_append (s : list_state) (x : Z) : list_state :=
  let '(m, head, tail) := s in
  let m := set_previous tail m x in
  match tail with
  | None => (m, Some x, Some x)
  | Some t => (set_next (Some x) m t, head, Some x)
  end.
Definition dll_prepend (s : list_state) (x : Z) : list_state :=
  let '(m, head, tail) := s in
  let m := set_next head m x in
  match head with
  | None => (m, Some x, Some x)
  | Some t => (set_previous (Some x) m t, Some x, tail)
  end.

Lemma last_or_app p a b : last_or p (a ++ b) = last_or (last_or p a) b.
Proof. unfold last_or. rewrite list.last_app. by destruct (list.last b). Qed.
Lemma hd_or_app a b n : hd_or (a ++ b) n = hd_or a (hd_or b n).
Proof. by destruct a. Qed.

Lemma seg_app m p a b n : seg m p (a ++ b) n <-> seg m p a (hd_or b n) /\ seg m (last_or p a) b n.
Proof.
  revert p. induction a as [|x a IH]; intros p; cbn [app seg]; [by unfold last_or; cbn; tauto|].
  rewrite IH, hd_or_app. replace (last_or p (x :: a)) with (last_or (Some x) a) by (exact (eq_sym (last_or_app p [x] a))). tauto.
Qed.

Lemma seg_ext m m' p l n : (forall x, x ∈ l -> m' !! x = m !! x) -> seg m p l n -> seg m' p l n.
Proof.
  revert p. induction l as [|x l IH]; intros p Hm; [done|]. cbn [seg]. intros [Hx Hl]. split; [rewrite Hm by (by left); done|].
  apply IH; [|done]. intros y Hy. apply Hm. by right.
Qed.

Lemma dll_ext m m' head tail l : (forall x, x ∈ l -> m' !! x = m !! x) -> dll m head tail l -> dll m' head tail l.
Proof. intros Hm [H1 H2 H3 H4]. split; [done..|]. by eapply seg_ext. Qed.

Lemma set_previous_other v m x y : y <> x -> set_previous v m x !! y = m !! y.
Proof. intros H. unfold set_previous. by rewrite lookup_alter_ne. Qed.
Lemma set_next_other v m x y : y <> x -> set_next v m x !! y = m !! y.
Proof. intros H. unfold set_next. by rewrite lookup_alter_ne. Qed.
Lemma set_previous_here v m x l : m !! x = Some l -> set_previous v m x !! x = Some (v, l.2).
Proof. intros H. unfold set_previous. by rewrite lookup_alter_eq, H. Qed.
Lemma set_next_here v m x l : m !! x = Some l -> set_next v m x !! x = Some (l.1, v).
Proof. intros H. unfold set_next. by rewrite lookup_alter_eq, H. Qed.

Lemma unlinked m x : set_previous None (set_next None m x) x = alter (fun _ => (None, None)) x m.
Proof.
  unfold set_previous, set_next. apply map_eq. intros y. destruct (decide (y = x)) as [->|Hne]; [|by rewrite !lookup_alter_ne].
  rewrite !lookup_alter_eq. by destruct (m !! x).
Qed.

Lemma list_snoc (a : list Z) : a = [] \/ exists b y, a = b ++ [y].
Proof. destruct (list.last a) as [y|] eqn:E; [|left; by apply list.last_None]. right. apply list.last_Some in E as [b ->]. by exists b, y. Qed.

(** A removal from anywhere in the list: the node is left unlinked, nodes of other lists
    are not touched. *)
Lemma dll_remove_spec m head tail a x b : dll m head tail (a ++ x :: b) ->
  exists m' head' tail', dll_remove (m, head, tail) x (last_or None a) (hd_or b None) = (m', head', tail') /\ m !! x = Some (last_or None a, hd_or b None) /\
    dll m' head' tail' (a ++ b) /\ m' !! x = Some (None, None) /\ (forall y, y ∉ a ++ x :: b -> m' !! y = m !! y).
Proof.
  intros [Hn Hh Ht Hs]. apply seg_app in Hs as [Ha Hb]. cbn [seg] in Hb. destruct Hb as [Hx Hb].
  apply list.NoDup_app in Hn as (Hna & Hd & [Hxb Hnb]%list.NoDup_cons). assert (Hxa : x ∉ a) by (intros H; apply (Hd x H); by left).
  set (m1 := match last_or None a with None => m | Some q => set_next (hd_or b None) m q end).
  set (m2 := match hd_or b None with None => m1 | Some q => set_previous (last_or None a) m1 q end).
  assert (E1 : seg m1 None a (hd_or b None) /\ seg m1 (Some x) b None /\ m1 !! x = m !! x /\ forall y, y ∉ a -> m1 !! y = m !! y).
  { unfold m1. destruct (list_snoc a) as [->|(a' & y & ->)]; [cbn; tauto|]. rewrite last_or_app in *. change (last_or (last_or None a') [y]) with (Some y) in *.
    apply seg_app in Ha as [Ha Hy]. cbn [seg hd_or] in Hy. destruct Hy as [Hy _]. apply list.NoDup_app in Hna as (_ & Hay & _).
    assert (Hya : y ∉ a') by (intros H; apply (Hay y H); by left).
    split; [|split; [|split]].
    - apply seg_app. split; [|cbn [seg hd_or]; split; [|done]].
      + eapply seg_ext; [|exact Ha]. intros z Hz. apply set_next_other. by intros ->.
      + by rewrite (set_next_here _ _ _ _ Hy).
    - eapply seg_ext; [|exact Hb]. intros z Hz. apply set_next_other. intros ->. apply (Hd y); [apply list.elem_of_app; right; by left|by right].
    - apply set_next_other. intros ->. apply Hxa. apply list.elem_of_app. right. by left.
    - intros z Hz. apply set_next_other. intros ->. apply Hz. apply list.elem_of_app. right. by left. }
  destruct E1 as (E1a & E1b & E1x & E1o).
  assert (E2 : seg m2 None (a ++ b) None /\ m2 !! x = m !! x /\ forall y, y ∉ a ++ b -> m2 !! y = m !! y).
  { unfold m2. destruct b as [|z b]; cbn [hd_or].
    - rewrite app_nil_r. split; [done|]. split; [done|]. exact E1o.
    - cbn [seg] in E1b. destruct E1b as [Hz Hb']. apply list.NoDup_cons in Hnb as [Hzb Hnb]. assert (Hza : z ∉ a) by (intros H; apply (Hd z H); right; by left).
      split; [|split].
      + apply seg_app. split; [|cbn [seg]; split].
        * eapply seg_ext; [|exact E1a]. intros w Hw. apply set_previous_other. by intros ->.
        * by rewrite (set_previous_here _ _ _ _ Hz).
        * eapply seg_ext; [|exact Hb']. intros w Hw. apply set_previous_other. by intros ->.
      + rewrite set_previous_other; [done|]. intros ->. apply Hxb. by left.
      + intros w Hw. rewrite set_previous_other; [apply E1o|]; [intros H; apply Hw, list.elem_of_app; by left|].
        intros ->. apply Hw, list.elem_of_app. right. by left. }
  destruct E2 as (E2s & E2x & E2o). rewrite Hx in E2x.
  exists (set_previous None (set_next None m2 x) x), (hd_or a (hd_or b None)), (last_or (last_or None a) b).
  assert (E3 : forall y, y <> x -> set_previous None (set_next None m2 x) x !! y = m2 !! y) by (intros y Hy; by rewrite set_previous_other, set_next_other).
  split.
  { unfold dll_remove. rewrite Hh, Ht, hd_or_app, last_or_app. fold m1. unfold m2, m1. destruct (list_snoc a) as [->|(a' & y & ->)].
    - by destruct b.
    - rewrite last_or_app, hd_or_app. cbn. destruct b, a'; cbn; done. }
  split; [done|]. split; [|split].
  - split; [| | |].
    + apply list.NoDup_app. split; [done|]. split; [|done]. intros y Hy Hyb. apply (Hd y Hy). by right.
    + by rewrite hd_or_app.
    + by rewrite last_or_app.
    + eapply seg_ext; [|exact E2s]. intros y Hy. apply E3. intros ->. by apply list.elem_of_app in Hy as [?|?].
  - erewrite set_previous_here; [|by apply (set_next_here _ _ _ _ E2x)]. done.
  - intros y Hy. rewrite E3 by (intros ->; apply Hy, list.elem_of_app; right; by left). apply E2o.
    intros H. apply Hy. apply list.elem_of_app. apply list.elem_of_app in H as [H|H]; [by left|]. right. by right.
Qed.

Lemma dll_append_spec m head tail l x p : dll m head tail l -> x ∉ l -> m !! x = Some (p, None) ->
  exists m' head' tail', dll_append (m, head, tail) x = (m', head', tail') /\ dll m' head' tail' (l ++ [x]) /\
    (forall y, y ∉ l -> y <> x -> m' !! y = m !! y).
Proof.
  intros [Hn Hh Ht Hs] Hx Hm.
  assert (Hl : NoDup (l ++ [x])) by (apply list.NoDup_app; split; [done|]; split; [intros y Hy ->%list_elem_of_singleton; done|apply list.NoDup_singleton]).
  unfold dll_append. rewrite Ht. destruct (list_snoc l) as [->|(a & t & ->)].
  - cbn. eexists _, _, _. split; [done|]. split.
    + split; [done..|]. cbn. split; [|done]. by rewrite (set_previous_here _ _ _ _ Hm).
    + intros y _ Hy. by rewrite set_previous_other.
  - rewrite last_or_app. change (last_or (last_or None a) [t]) with (Some t). cbv match. eexists _, _, _. split; [done|].
    assert (Htx : x <> t) by (intros ->; apply Hx, list.elem_of_app; right; by left).
    apply list.NoDup_app in Hn as (_ & Hat & _). assert (Hta : t ∉ a) by (intros H; apply (Hat t H); by left).
    assert (Hxa : x ∉ a) by (intros H; apply Hx, list.elem_of_app; by left). apply seg_app in Hs as [Ha [Hm' _]]. split.
    + split; [done| |by rewrite last_or_app|].
      * rewrite Hh, <- app_assoc, !hd_or_app. by destruct a.
      * rewrite <- app_assoc. apply seg_app. split; [|cbn [app seg hd_or]; split; [|split; [|done]]].
        -- eapply seg_ext; [|exact Ha]. intros y Hy. rewrite set_next_other, set_previous_other; [done|by intros ->..].
        -- erewrite set_next_here; [|rewrite set_previous_other by done; exact Hm']. done.
        -- rewrite set_next_other by done. by rewrite (set_previous_here _ _ _ _ Hm).
    + intros y Hy Hyx. rewrite set_next_other, set_previous_other; [done..|]. intros ->. apply Hy, list.elem_of_app. right. by left.
Qed.

Lemma dll_prepend_spec m head tail l x n : dll m head tail l -> x ∉ l -> m !! x = Some (None, n) ->
  exists m' head' tail', dll_prepend (m, head, tail) x = (m', head', tail') /\ dll m' head' tail' (x :: l) /\
    (forall y, y ∉ l -> y <> x -> m' !! y = m !! y).
Proof.
  intros [Hn Hh Ht Hs] Hx Hm. assert (Hl : NoDup (x :: l)) by (by apply list.NoDup_cons).
  unfold dll_prepend. rewrite Hh. destruct l as [|t l]; cbn [hd_or].
  - eexists _, _, _. split; [done|]. split.
    + split; [done..|]. cbn. split; [|done]. by rewrite (set_next_here _ _ _ _ Hm).
    + intros y _ Hy. by rewrite set_next_other.
  - assert (Htx : t <> x) by (intros ->; apply Hx; by left). apply list.NoDup_cons in Hn as [Htl Hn]. destruct Hs as [Hm' Hs].
    eexists _, _, _. split; [done|]. split.
    + split; [done|done| |].
      * by rewrite Ht.
      * cbn [seg hd_or]. split; [|split].
        -- rewrite set_previous_other by done. by rewrite (set_next_here _ _ _ _ Hm).
        -- erewrite set_previous_here; [|rewrite set_next_other by done; exact Hm']. done.
        -- eapply seg_ext; [|exact Hs]. intros y Hy. rewrite set_previous_other, set_next_other; [done| |]; intros ->; [apply Hx; by right|done].
    + intros y Hy Hyx. rewrite set_previous_other, set_next_other; [done..|]. intros ->. apply Hy. by left.
Qed.
