(* ===== verification/Supervisor.v ===== *)
(** * The supervisor of the resolver helpers ([src/src/resolver/supervisor.c])

    The listener asks the supervisor to resolve cache entries; the supervisor keeps one job
    per entry, hands the jobs to two helper processes over their sockets, assembles the
    responses, publishes them to the cache and restarts helpers that fail.

    Jobs live in a heap of addresses and are linked into their lists as in the code: the
    two queues and the completions are doubly linked ([Dll]), the chain of a hash bucket
    is the list of its jobs in the order of the [hash_next] links.  The answers of the
    kernel and of the allocator are lists the functions consume, with a default once they
    are used up; what the functions do to the kernel (descriptors, registrations with
    epoll, the timer, signals) is recorded.  An allocation, like a new descriptor, gets an
    address that was never used, so that every use of freed memory is one of a missing
    address.  Starting a helper is [resolver_helper_process_start] of [Helper]. *)

From S2P Require Import Prelude Stateful Dll TimeUtil Metrics ResolverUtil Cache Ipc IpcAssembly Helper.
From stdpp Require Import gmap.
#[local] Open Scope Z_scope.

Definition RESOLVER_SUPERVISOR_HELPER_COUNT : nat := 2.
Definition RESOLVER_SUPERVISOR_JOB_LIMIT : Z := 4096.
Definition RESOLVER_SUPERVISOR_INTERACTIVE_RESERVE : Z := 256.
Definition RESOLVER_SUPERVISOR_OBSERVATION_CAPACITY : Z := 32.
Definition RESOLVER_SUPERVISOR_RESPAWN_INITIAL_MS : Z := 100.
Definition RESOLVER_SUPERVISOR_RESPAWN_MAX_MS : Z := 30000.
Definition RESOLVER_SUPERVISOR_RESPAWN_RESET_STABLE_SEC : Z := 60.
Definition RESOLVER_SUPERVISOR_RESPAWN_RESET_SUCCESS_COUNT : Z := 3.
Definition RESOLVER_SUPERVISOR_QUERY_RETRY_INITIAL_MS : Z := 1000.
Definition RESOLVER_SUPERVISOR_QUERY_RETRY_MAX_MS : Z := 60000.
Definition RESOLVER_SUPERVISOR_QUERY_TIMEOUT_SEC : Z := 10.
Definition RESOLVER_SUPERVISOR_JITTER_PERCENT : Z := 20.
Definition RESOLVER_SUPERVISOR_SHUTDOWN_GRACE_MS : Z := 1000.
Definition RESOLVER_SUPERVISOR_EVENT_TIMER : Z := 0.
Definition RESOLVER_SUPERVISOR_FNV_OFFSET : Z := 14695981039346656037.
Definition RESOLVER_SUPERVISOR_FNV_PRIME : Z := 1099511628211.
Definition RESOLVER_SUPERVISOR_JITTER_QUERY_DOMAIN : Z := 81.
Definition RESOLVER_SUPERVISOR_JITTER_RESPAWN_DOMAIN : Z := 82.
Definition RESOLVER_SUPERVISOR_INTEREST_COUNT_LIMIT : Z := SIZE_MAX.
Definition RESOLVER_SUPERVISOR_OBSERVATION_CYCLE_ID_LIMIT : Z := UINT64_MAX.
Definition RESOLVER_SUPERVISOR_RECEIVE_BYTE_CAPACITY : Z := RESOLVER_IPC_PACKET_BYTE_LIMIT + 1.
Definition EPOLLIN : Z := 1.
Definition EPOLLOUT : Z := 4.
Definition EPOLLERR : Z := 8.
Definition EPOLLHUP : Z := 16.
Definition EPOLLRDHUP : Z := 8192.
Definition SIGKILL : Z := 9.
Definition SIGTERM : Z := 15.
Definition ESRCH : Z := 3.

(** ** Types *)

Inductive resolver_supervisor_dns_outcome :=
  | RESOLVER_SUPERVISOR_DNS_OUTCOME_OK | RESOLVER_SUPERVISOR_DNS_OUTCOME_BAD_ARGUMENT | RESOLVER_SUPERVISOR_DNS_OUTCOME_LIMIT
  | RESOLVER_SUPERVISOR_DNS_OUTCOME_MALFORMED | RESOLVER_SUPERVISOR_DNS_OUTCOME_MEMORY | RESOLVER_SUPERVISOR_DNS_OUTCOME_NODATA
  | RESOLVER_SUPERVISOR_DNS_OUTCOME_NOT_FOUND | RESOLVER_SUPERVISOR_DNS_OUTCOME_PERMANENT | RESOLVER_SUPERVISOR_DNS_OUTCOME_TEMPORARY
  | RESOLVER_SUPERVISOR_DNS_OUTCOME_TRUNCATED.
Inductive resolver_supervisor_event_status :=
  | RESOLVER_SUPERVISOR_EVENT_OK | RESOLVER_SUPERVISOR_EVENT_BAD_ARGUMENT | RESOLVER_SUPERVISOR_EVENT_IO | RESOLVER_SUPERVISOR_EVENT_TIME.
Inductive resolver_supervisor_helper_failure :=
  | RESOLVER_SUPERVISOR_HELPER_FAILURE_NONE | RESOLVER_SUPERVISOR_HELPER_FAILURE_EXIT | RESOLVER_SUPERVISOR_HELPER_FAILURE_IO
  | RESOLVER_SUPERVISOR_HELPER_FAILURE_PROTOCOL | RESOLVER_SUPERVISOR_HELPER_FAILURE_SPAWN | RESOLVER_SUPERVISOR_HELPER_FAILURE_TIMEOUT.
Inductive resolver_supervisor_helper_recovery :=
  | RESOLVER_SUPERVISOR_HELPER_RECOVERY_SUCCESS_STREAK | RESOLVER_SUPERVISOR_HELPER_RECOVERY_STABLE_UPTIME.
Inductive resolver_supervisor_helper_state :=
  | RESOLVER_SUPERVISOR_HELPER_IDLE | RESOLVER_SUPERVISOR_HELPER_SENDING | RESOLVER_SUPERVISOR_HELPER_BUSY | RESOLVER_SUPERVISOR_HELPER_BACKOFF
  | RESOLVER_SUPERVISOR_HELPER_SHUTTING_DOWN | RESOLVER_SUPERVISOR_HELPER_STOPPED.
Inductive resolver_supervisor_job_state :=
  | RESOLVER_SUPERVISOR_JOB_QUEUED | RESOLVER_SUPERVISOR_JOB_SENDING | RESOLVER_SUPERVISOR_JOB_DISPATCHED | RESOLVER_SUPERVISOR_JOB_RETRY_WAIT
  | RESOLVER_SUPERVISOR_JOB_COMPLETE.
Inductive resolver_supervisor_priority := RESOLVER_SUPERVISOR_PRIORITY_BACKGROUND | RESOLVER_SUPERVISOR_PRIORITY_INTERACTIVE.
Inductive resolver_supervisor_release_status :=
  | RESOLVER_SUPERVISOR_RELEASE_OK | RESOLVER_SUPERVISOR_RELEASE_SATISFIED | RESOLVER_SUPERVISOR_RELEASE_BAD_ARGUMENT
  | RESOLVER_SUPERVISOR_RELEASE_IO | RESOLVER_SUPERVISOR_RELEASE_TIME.
Inductive resolver_supervisor_schedule_status :=
  | RESOLVER_SUPERVISOR_SCHEDULE_STARTED | RESOLVER_SUPERVISOR_SCHEDULE_COALESCED | RESOLVER_SUPERVISOR_SCHEDULE_COMPLETE
  | RESOLVER_SUPERVISOR_SCHEDULE_FRESH | RESOLVER_SUPERVISOR_SCHEDULE_BAD_ARGUMENT | RESOLVER_SUPERVISOR_SCHEDULE_IO
  | RESOLVER_SUPERVISOR_SCHEDULE_LIMIT | RESOLVER_SUPERVISOR_SCHEDULE_MEMORY | RESOLVER_SUPERVISOR_SCHEDULE_TIME.
Inductive resolver_supervisor_assign_status :=
  | RESOLVER_SUPERVISOR_ASSIGN_OK | RESOLVER_SUPERVISOR_ASSIGN_RETRY | RESOLVER_SUPERVISOR_ASSIGN_LIMIT | RESOLVER_SUPERVISOR_ASSIGN_TIME
  | RESOLVER_SUPERVISOR_ASSIGN_IO.
Inductive resolver_supervisor_send_status := RESOLVER_SUPERVISOR_SEND_OK | RESOLVER_SUPERVISOR_SEND_IO | RESOLVER_SUPERVISOR_SEND_TIME.

#[export] Instance helper_failure_eq_dec : EqDecision resolver_supervisor_helper_failure.
Proof. solve_decision. Defined.
#[export] Instance helper_recovery_eq_dec : EqDecision resolver_supervisor_helper_recovery.
Proof. solve_decision. Defined.
#[export] Instance helper_state_eq_dec : EqDecision resolver_supervisor_helper_state.
Proof. solve_decision. Defined.
#[export] Instance job_state_eq_dec : EqDecision resolver_supervisor_job_state.
Proof. solve_decision. Defined.
#[export] Instance priority_eq_dec : EqDecision resolver_supervisor_priority.
Proof. solve_decision. Defined.
#[export] Instance schedule_status_eq_dec : EqDecision resolver_supervisor_schedule_status.
Proof. solve_decision. Defined.
#[export] Instance dns_outcome_eq_dec : EqDecision resolver_supervisor_dns_outcome.
Proof. solve_decision. Defined.
#[export] Instance publish_status_eq_dec : EqDecision resolver_cache_publish_status.
Proof. solve_decision. Defined.

Record resolver_supervisor_completion := {
  co_entry : option Z; co_publication : resolver_cache_publish_status; co_response : resolver_ipc_assembly_result;
}.
Definition completion_zero : resolver_supervisor_completion :=
  {| co_entry := None; co_publication := RESOLVER_CACHE_PUBLISH_STORED; co_response := result_zero |}.

Record resolver_supervisor_observation_degraded := {
  dg_backoff_milliseconds : Z; dg_cycle_id : Z; dg_failure : resolver_supervisor_helper_failure; dg_failure_count : Z; dg_observed_at : timespec;
  dg_process_id : Z; dg_slot : nat;
}.
Record resolver_supervisor_observation_recovered := {
  rv_cycle_id : Z; rv_degraded_at : timespec; rv_failure_count : Z; rv_last_failure : resolver_supervisor_helper_failure; rv_observed_at : timespec;
  rv_process_id : Z; rv_recovery : resolver_supervisor_helper_recovery; rv_slot : nat;
}.
(** The union with the tag that selects its member. *)
Inductive resolver_supervisor_observation :=
  | RESOLVER_SUPERVISOR_OBSERVATION_DEGRADED (degraded : resolver_supervisor_observation_degraded)
  | RESOLVER_SUPERVISOR_OBSERVATION_RECOVERED (recovered : resolver_supervisor_observation_recovered).

(** The counters of [resolver_supervisor_metrics_attempt], [.._schedule] and [.._helper]. *)
Inductive attempt_counter :=
  | attempt_abandoned_shutdown | completion_abandoned_shutdown | completion_enqueued | completion_taken | attempt_dispatched
  | attempt_failure (failure : resolver_supervisor_helper_failure) | jobs_complete_current | jobs_dispatched_current
  | orphan_response (outcome : resolver_supervisor_dns_outcome) | attempt_response (outcome : resolver_supervisor_dns_outcome) | retry_scheduled.
Inductive schedule_counter :=
  | limit_background_admission | limit_entry_reference | limit_interest_count | limit_total_admission
  | schedule_status (status : resolver_supervisor_schedule_status).
Inductive helper_counter :=
  | helper_failure (failure : resolver_supervisor_helper_failure) | observation_dropped | helper_recovery (recovery : resolver_supervisor_helper_recovery)
  | spawn_attempt | spawn_success | state_current (state : resolver_supervisor_helper_state).
Inductive supervisor_counter :=
  | Attempt (query : metrics_query_type) (counter : attempt_counter)
  | Schedule (priority : resolver_supervisor_priority) (query : metrics_query_type) (counter : schedule_counter)
  | HelperPool (counter : helper_counter).
#[export] Instance attempt_counter_eq_dec : EqDecision attempt_counter.
Proof. solve_decision. Defined.
#[export] Instance schedule_counter_eq_dec : EqDecision schedule_counter.
Proof. solve_decision. Defined.
#[export] Instance helper_counter_eq_dec : EqDecision helper_counter.
Proof. solve_decision. Defined.
#[export] Instance supervisor_counter_eq_dec : EqDecision supervisor_counter.
Proof. solve_decision. Defined.

Record resolver_supervisor_metrics_state := {
  me_counter : supervisor_counter -> Z; me_attempt_duration : metrics_query_type -> metrics_histogram;
  me_dispatch_wait : resolver_supervisor_priority -> metrics_query_type -> metrics_histogram; me_jobs_high_water : Z;
  me_queue_high_water : resolver_supervisor_priority -> Z; me_saturation_total : Z;
}.
#[export] Instance metrics_state_settable : Settable resolver_supervisor_metrics_state := fun m => {|
  me_counter := me_counter m; me_attempt_duration := me_attempt_duration m; me_dispatch_wait := me_dispatch_wait m;
  me_jobs_high_water := me_jobs_high_water m; me_queue_high_water := me_queue_high_water m; me_saturation_total := me_saturation_total m |}.

Record resolver_supervisor_helper := {
  h_consecutive_successes : Z; h_cycle_id : Z; h_degraded_at : timespec; h_failure_count : Z; h_fd : Z; h_job : option Z;
  h_last_failed_process_id : Z; h_last_failure : resolver_supervisor_helper_failure; h_next_cycle_id : Z; h_next_event_at : timespec;
  h_process_id : Z; h_request_packet : bytes; h_request_size : Z; h_state : resolver_supervisor_helper_state;
}.
#[export] Instance helper_settable : Settable resolver_supervisor_helper := fun h => {|
  h_consecutive_successes := h_consecutive_successes h; h_cycle_id := h_cycle_id h; h_degraded_at := h_degraded_at h;
  h_failure_count := h_failure_count h; h_fd := h_fd h; h_job := h_job h; h_last_failed_process_id := h_last_failed_process_id h;
  h_last_failure := h_last_failure h; h_next_cycle_id := h_next_cycle_id h; h_next_event_at := h_next_event_at h;
  h_process_id := h_process_id h; h_request_packet := h_request_packet h; h_request_size := h_request_size h; h_state := h_state h |}.

Record resolver_supervisor_job := {
  j_background_interest_count : Z; j_completion_next : option Z; j_completion_previous : option Z; j_deadline : timespec;
  j_dispatched_at : timespec; j_dispatch_wait_at : timespec; j_entry : option Z; j_interactive_interest_count : Z; j_orphaned : bool;
  j_assembly : option Z; j_priority : resolver_supervisor_priority; j_queue_next : option Z; j_queue_previous : option Z; j_query_id : Z;
  j_publication : resolver_cache_publish_status; j_response : resolver_ipc_assembly_result; j_retry_at : timespec; j_retry_count : Z;
  j_slot_index : Z; j_state : resolver_supervisor_job_state;
}.
#[export] Instance job_settable : Settable resolver_supervisor_job := fun j => {|
  j_background_interest_count := j_background_interest_count j; j_completion_next := j_completion_next j;
  j_completion_previous := j_completion_previous j; j_deadline := j_deadline j; j_dispatched_at := j_dispatched_at j;
  j_dispatch_wait_at := j_dispatch_wait_at j; j_entry := j_entry j; j_interactive_interest_count := j_interactive_interest_count j;
  j_orphaned := j_orphaned j; j_assembly := j_assembly j; j_priority := j_priority j; j_queue_next := j_queue_next j;
  j_queue_previous := j_queue_previous j; j_query_id := j_query_id j; j_publication := j_publication j; j_response := j_response j;
  j_retry_at := j_retry_at j; j_retry_count := j_retry_count j; j_slot_index := j_slot_index j; j_state := j_state j |}.

Record resolver_supervisor_job_queue := { qu_head : option Z; qu_count : Z; qu_tail : option Z }.
#[export] Instance queue_settable : Settable resolver_supervisor_job_queue := fun q => {| qu_head := qu_head q; qu_count := qu_count q; qu_tail := qu_tail q |}.

(** [s_buckets] is empty while the table is not allocated, [s_helpers] likewise; the heap
    of the jobs is [s_jobs]. *)
Record resolver_supervisor := {
  s_assembly_budget : option resolver_ipc_assembly_budget; s_background_queue : resolver_supervisor_job_queue; s_buckets : list (list Z);
  s_completion_head : option Z; s_completion_tail : option Z; s_epoll_fd : Z; s_helpers : list resolver_supervisor_helper;
  s_interactive_queue : resolver_supervisor_job_queue; s_job_count : Z; s_last_now : timespec; s_metrics : resolver_supervisor_metrics_state;
  s_next_query_id : Z; s_observation_count : Z; s_observation_head : Z; s_observations : list (option resolver_supervisor_observation);
  s_shutting_down : bool; s_timer_fd : Z; s_jobs : gmap Z resolver_supervisor_job;
}.
#[export] Instance supervisor_settable : Settable resolver_supervisor := fun s => {|
  s_assembly_budget := s_assembly_budget s; s_background_queue := s_background_queue s; s_buckets := s_buckets s;
  s_completion_head := s_completion_head s; s_completion_tail := s_completion_tail s; s_epoll_fd := s_epoll_fd s; s_helpers := s_helpers s;
  s_interactive_queue := s_interactive_queue s; s_job_count := s_job_count s; s_last_now := s_last_now s; s_metrics := s_metrics s;
  s_next_query_id := s_next_query_id s; s_observation_count := s_observation_count s; s_observation_head := s_observation_head s;
  s_observations := s_observations s; s_shutting_down := s_shutting_down s; s_timer_fd := s_timer_fd s; s_jobs := s_jobs s |}.

(** ** The kernel *)

Inductive wait_answer := WaitReaped | WaitRunning | WaitFailed (errno : Z).
Inductive timer_read := TimerExpired | TimerFailed (errno : Z) | TimerShort.
Inductive effect := Sent (fd : Z) (packet : bytes) | Killed (process_id signal : Z) | Reaped (process_id : Z).

(** The answers to come, and the state of the descriptors the supervisor owns. *)
Record kernel := {
  k_allocs : list bool; k_starts : list (option Z); k_epoll_ctls : list bool; k_epoll_waits : list (Z + list (Z * Z)); k_sends : list send_answer;
  k_recvs : list recv_answer; k_peeks : list recv_answer; k_waits : list wait_answer; k_kills : list (option Z); k_settimes : list bool;
  k_timer_reads : list timer_read; k_next : Z; k_open : gset Z; k_registered : gmap Z Z; k_timer : option timespec; k_effects : list effect;
}.
#[export] Instance kernel_settable : Settable kernel := fun k => {|
  k_allocs := k_allocs k; k_starts := k_starts k; k_epoll_ctls := k_epoll_ctls k; k_epoll_waits := k_epoll_waits k; k_sends := k_sends k;
  k_recvs := k_recvs k; k_peeks := k_peeks k; k_waits := k_waits k; k_kills := k_kills k; k_settimes := k_settimes k;
  k_timer_reads := k_timer_reads k; k_next := k_next k; k_open := k_open k; k_registered := k_registered k; k_timer := k_timer k; k_effects := k_effects k |}.

Record world := { w_supervisor : resolver_supervisor; w_cache : resolver_cache; w_kernel : kernel }.
#[export] Instance world_settable : Settable world := fun w => {| w_supervisor := w_supervisor w; w_cache := w_cache w; w_kernel := w_kernel w |}.
#[local] Abbreviation prog := (prog world).

(** ** Reads and writes through pointers *)

Definition supervisor : prog resolver_supervisor := read w_supervisor.
Definition on_supervisor (f : resolver_supervisor -> resolver_supervisor) : prog unit := modify (fun w => w <| w_supervisor ::= f |>).
Definition on_kernel (f : kernel -> kernel) : prog unit := modify (fun w => w <| w_kernel ::= f |>).
Definition job_get (job : Z) : prog resolver_supervisor_job := s ← supervisor; lift (s_jobs s !! job).
Definition job_set (job : Z) (f : resolver_supervisor_job -> resolver_supervisor_job) : prog unit :=
  j ← job_get job; on_supervisor (fun s => s <| s_jobs ::= <[job := f j]> |>).
Definition helper_get (helper_index : nat) : prog resolver_supervisor_helper := s ← supervisor; lift (s_helpers s !! helper_index).
Definition helper_set (helper_index : nat) (f : resolver_supervisor_helper -> resolver_supervisor_helper) : prog unit :=
  h ← helper_get helper_index; on_supervisor (fun s => s <| s_helpers ::= <[helper_index := f h]> |>).
(** The entry a pointer leads to, for the accessors of the cache, which accept NULL. *)
Definition entry_read (entry : option Z) : prog (option resolver_cache_entry) :=
  match entry with None => mret None | Some id => c ← read w_cache; e ← lift (entry_get c id); mret (Some e) end.
(** A use of the assembly budget. *)
Definition with_budget {A} (f : resolver_ipc_assembly_budget -> option (resolver_ipc_assembly_budget * A)) : prog A :=
  s ← supervisor; b ← lift (s_assembly_budget s); '(b, a) ← lift (f b); on_supervisor (fun s => s <| s_assembly_budget := Some b |>) ;; mret a.
Definition assembly_destroy (assembly : option Z) : prog unit := with_budget (fun b => b ← resolver_ipc_assembly_destroy b assembly; Some (b, ())).
Definition result_destroy (response : resolver_ipc_assembly_result) : prog unit :=
  with_budget (fun b => Some ((resolver_ipc_assembly_result_destroy b (Some response)).1, ())).
Definition entry_release (entry : option Z) : prog unit :=
  c ← read w_cache; c ← lift (resolver_cache_entry_release c entry); modify (fun w => w <| w_cache := c |>).

(** ** Calls of the kernel and the allocator *)

Definition drawn {A} (default_ : A) (l : list A) : A * list A := match l with [] => (default_, []) | a :: l => (a, l) end.
Definition alloc : prog bool := k ← read w_kernel; let '(a, l) := drawn true (k_allocs k) in on_kernel (fun k => k <| k_allocs := l |>) ;; mret a.
Definition fresh_address : prog Z := k ← read w_kernel; on_kernel (fun k => k <| k_next ::= Z.succ |>) ;; mret (k_next k).

(** [epoll_ctl] with [EPOLL_CTL_ADD] or [EPOLL_CTL_MOD]: whether it succeeds. *)
Definition epoll_set (fd events : Z) : prog bool :=
  k ← read w_kernel; let '(a, l) := drawn true (k_epoll_ctls k) in
  on_kernel (fun k => k <| k_epoll_ctls := l |> <| k_registered ::= (if a : bool then <[fd := events]> else id) |>) ;; mret a.
Definition epoll_delete (fd : Z) : prog unit := on_kernel (fun k => k <| k_registered ::= delete fd |>).
Definition open_get (fd : Z) : prog unit := k ← read w_kernel; if bool_decide (fd ∈ k_open k) then mret () else fault.
Definition close (fd : Z) : prog unit := open_get fd ;; on_kernel (fun k => k <| k_open ::= (.∖ {[fd]}) |>).
Definition log (e : effect) : prog unit := on_kernel (fun k => k <| k_effects ::= (.++ [e]) |>).

Fixpoint send_retry (sends : list send_answer) : send_answer * list send_answer :=
  match sends with
  | [] => (SendFailed EAGAIN, [])
  | SendFailed errno :: sends => if errno =? EINTR then send_retry sends else (SendFailed errno, sends)
  | Taken size :: sends => (Taken size, sends)
  end.
(** The loop around [send] that repeats it when it is interrupted. *)
Definition send (fd : Z) (packet : bytes) : prog send_answer :=
  open_get fd ;; k ← read w_kernel; let '(a, l) := send_retry (k_sends k) in
  on_kernel (fun k => k <| k_sends := l |>) ;;
  when match a with Taken size => size =? len packet | SendFailed _ => false end (log (Sent fd packet)) ;; mret a.

Fixpoint wait_retry (waits : list wait_answer) : wait_answer * list wait_answer :=
  match waits with
  | [] => (WaitReaped, [])
  | WaitFailed errno :: waits => if errno =? EINTR then wait_retry waits else (WaitFailed errno, waits)
  | a :: waits => (a, waits)
  end.
(** The loop around [waitpid]. *)
Definition waitpid (process_id : Z) : prog wait_answer :=
  k ← read w_kernel; let '(a, l) := wait_retry (k_waits k) in
  on_kernel (fun k => k <| k_waits := l |>) ;; match a with WaitReaped => log (Reaped process_id) | _ => mret () end ;; mret a.
(** [None]: the signal was sent; otherwise the error. *)
Definition kill (process_id signal : Z) : prog (option Z) :=
  k ← read w_kernel; let '(a, l) := drawn None (k_kills k) in
  on_kernel (fun k => k <| k_kills := l |>) ;; match a with None => log (Killed process_id signal) | _ => mret () end ;; mret a.
(** [timerfd_settime] of an absolute time, [None] to disarm; whether it succeeds. *)
Definition timer_set (value : option timespec) : prog bool :=
  k ← read w_kernel; let '(a, l) := drawn true (k_settimes k) in
  on_kernel (fun k => k <| k_settimes := l |> <| k_timer ::= (if a : bool then const value else id) |>) ;; mret a.

(** ** Delays *)

Definition resolver_supervisor_hash_byte (hash value : Z) : Z := u64 (Z.lxor hash value * RESOLVER_SUPERVISOR_FNV_PRIME).
Definition resolver_supervisor_hash_u64 (hash value : Z) : Z :=
  fold_left (fun hash shift => resolver_supervisor_hash_byte hash (u8 (Z.shiftr value shift))) [56; 48; 40; 32; 24; 16; 8; 0] hash.

Definition resolver_supervisor_delay_jitter (base_milliseconds maximum_milliseconds domain identity attempt : Z) : Z :=
  let hash := resolver_supervisor_hash_byte RESOLVER_SUPERVISOR_FNV_OFFSET domain in
  let hash := resolver_supervisor_hash_u64 hash identity in
  let hash := resolver_supervisor_hash_u64 hash attempt in
  let percentage := hash mod (RESOLVER_SUPERVISOR_JITTER_PERCENT * 2 + 1) - RESOLVER_SUPERVISOR_JITTER_PERCENT in
  let factor := u64 (100 + percentage) in
  let delay := if factor =? 0 then 0 else if UINT64_MAX / factor <? base_milliseconds then UINT64_MAX else base_milliseconds * factor / 100 in
  if delay <? maximum_milliseconds then delay else maximum_milliseconds.

(** The loop that doubles a delay; a delay of 64 bits doubles at most 64 times. *)
Fixpoint delay_double (fuel : nat) (index count delay maximum : Z) : Z :=
  match fuel with
  | O => delay
  | S fuel =>
      if (index <? count) && (delay <? maximum) then
        if maximum / 2 <? delay then maximum else delay_double fuel (index + 1) count (delay * 2) maximum
      else delay
  end.
Definition resolver_supervisor_delay_query_base (retry_count : Z) : Z :=
  if retry_count =? 0 then 0 else
  let delay := delay_double 64 1 retry_count RESOLVER_SUPERVISOR_QUERY_RETRY_INITIAL_MS RESOLVER_SUPERVISOR_QUERY_RETRY_MAX_MS in
  if delay <? RESOLVER_SUPERVISOR_QUERY_RETRY_MAX_MS then delay else RESOLVER_SUPERVISOR_QUERY_RETRY_MAX_MS.
Definition resolver_supervisor_delay_respawn_base (failure_count : Z) : Z :=
  if failure_count <=? 1 then 0 else
  let delay := delay_double 64 2 failure_count RESOLVER_SUPERVISOR_RESPAWN_INITIAL_MS RESOLVER_SUPERVISOR_RESPAWN_MAX_MS in
  if delay <? RESOLVER_SUPERVISOR_RESPAWN_MAX_MS then delay else RESOLVER_SUPERVISOR_RESPAWN_MAX_MS.

Definition resolver_supervisor_time_update (now : option timespec) : prog bool :=
  s ← supervisor;
  match now with
  | Some t => if negb (timeutil_valid now) || (timeutil_compare t (s_last_now s) <? 0) then mret false else
              on_supervisor (fun s => s <| s_last_now := t |>) ;; mret true
  | None => mret false
  end.

(** ** Metrics and observations *)

Definition query_type_of (query_type : Z) : metrics_query_type :=
  if query_type =? ns_t_a then METRICS_QUERY_TYPE_A else if query_type =? ns_t_aaaa then METRICS_QUERY_TYPE_AAAA
  else if query_type =? ns_t_srv then METRICS_QUERY_TYPE_SRV else METRICS_QUERY_TYPE_OTHER.
Definition resolver_supervisor_metrics_query_type (entry : option Z) : prog metrics_query_type :=
  e ← entry_read entry;
  mret match e with Some e => query_type_of (resolver_cache_entry_query_type (Some e)) | None => METRICS_QUERY_TYPE_OTHER end.
(** The attempt counters of the query type of a job, [None] for NULL. *)
Definition resolver_supervisor_metrics_attempt_select (job : Z) : prog (option metrics_query_type) :=
  j ← job_get job; e ← entry_read (j_entry j);
  mret match query_type_of (resolver_cache_entry_query_type e) with METRICS_QUERY_TYPE_OTHER => None | q => Some q end.

Definition resolver_supervisor_metrics_dns_outcome (status : resolver_ipc_lookup_status) : resolver_supervisor_dns_outcome :=
  if status =? RESOLVER_IPC_LOOKUP_OK then RESOLVER_SUPERVISOR_DNS_OUTCOME_OK
  else if status =? RESOLVER_IPC_LOOKUP_BAD_ARGUMENT then RESOLVER_SUPERVISOR_DNS_OUTCOME_BAD_ARGUMENT
  else if status =? RESOLVER_IPC_LOOKUP_LIMIT then RESOLVER_SUPERVISOR_DNS_OUTCOME_LIMIT
  else if status =? RESOLVER_IPC_LOOKUP_MALFORMED then RESOLVER_SUPERVISOR_DNS_OUTCOME_MALFORMED
  else if status =? RESOLVER_IPC_LOOKUP_MEMORY then RESOLVER_SUPERVISOR_DNS_OUTCOME_MEMORY
  else if status =? RESOLVER_IPC_LOOKUP_NODATA then RESOLVER_SUPERVISOR_DNS_OUTCOME_NODATA
  else if status =? RESOLVER_IPC_LOOKUP_NOT_FOUND then RESOLVER_SUPERVISOR_DNS_OUTCOME_NOT_FOUND
  else if status =? RESOLVER_IPC_LOOKUP_PERMANENT_ERROR then RESOLVER_SUPERVISOR_DNS_OUTCOME_PERMANENT
  else if status =? RESOLVER_IPC_LOOKUP_TEMPORARY_ERROR then RESOLVER_SUPERVISOR_DNS_OUTCOME_TEMPORARY
  else if status =? RESOLVER_IPC_LOOKUP_TRUNCATED then RESOLVER_SUPERVISOR_DNS_OUTCOME_TRUNCATED
  else RESOLVER_SUPERVISOR_DNS_OUTCOME_BAD_ARGUMENT.

Definition on_metrics (f : resolver_supervisor_metrics_state -> resolver_supervisor_metrics_state) : prog unit :=
  on_supervisor (fun s => s <| s_metrics ::= f |>).
Definition resolver_supervisor_metrics_increment (c : supervisor_counter) : prog unit :=
  on_metrics (fun m =>
    let '(value, saturation, _) := metrics_counter_add (me_counter m c) 1 (me_saturation_total m) in
    m <| me_counter := fun c' => if bool_decide (c' = c) then value else me_counter m c' |> <| me_saturation_total := saturation |>).
Definition resolver_supervisor_metrics_gauge_add (gauge amount : Z) : Z := if UINT64_MAX - gauge <? amount then UINT64_MAX else gauge + amount.

Definition resolver_supervisor_observation_drop : prog unit := resolver_supervisor_metrics_increment (HelperPool observation_dropped).
Definition resolver_supervisor_observation_push (observation : resolver_supervisor_observation) : prog unit :=
  s ← supervisor;
  when (s_observation_count s =? RESOLVER_SUPERVISOR_OBSERVATION_CAPACITY)
    (on_supervisor (fun s => s <| s_observation_head := (s_observation_head s + 1) mod RESOLVER_SUPERVISOR_OBSERVATION_CAPACITY |>
                               <| s_observation_count ::= Z.pred |>) ;;
     resolver_supervisor_observation_drop) ;;
  s ← supervisor;
  let index := (s_observation_head s + s_observation_count s) mod RESOLVER_SUPERVISOR_OBSERVATION_CAPACITY in
  if len (s_observations s) <=? index then fault else
  on_supervisor (fun s => s <| s_observations ::= <[Z.to_nat index := Some observation]> |> <| s_observation_count ::= Z.succ |>).

Definition resolver_supervisor_metrics_schedule_record (entry : option Z) (priority : resolver_supervisor_priority)
    (status : resolver_supervisor_schedule_status) : prog unit :=
  query ← resolver_supervisor_metrics_query_type entry; resolver_supervisor_metrics_increment (Schedule priority query (schedule_status status)).

Definition attempt_duration_observe (q : metrics_query_type) (start finish : timespec) : prog unit :=
  on_metrics (fun m =>
    let '(h, saturation, _) := metrics_duration_histogram_observe (me_attempt_duration m q) (Some start) (Some finish) (me_saturation_total m) in
    m <| me_attempt_duration := fun q' => if bool_decide (q' = q) then h else me_attempt_duration m q' |> <| me_saturation_total := saturation |>).
Definition resolver_supervisor_metrics_attempt_failure_record (job : Z) (failure : resolver_supervisor_helper_failure) (now : timespec) : prog unit :=
  metrics ← resolver_supervisor_metrics_attempt_select job;
  match metrics, failure with
  | None, _ | _, RESOLVER_SUPERVISOR_HELPER_FAILURE_NONE | _, RESOLVER_SUPERVISOR_HELPER_FAILURE_SPAWN => mret ()
  | Some query, _ =>
      resolver_supervisor_metrics_increment (Attempt query (attempt_failure failure)) ;;
      j ← job_get job; attempt_duration_observe query (j_dispatched_at j) now
  end.
Definition resolver_supervisor_metrics_dispatch_record (job : Z) (now : timespec) : prog unit :=
  metrics ← resolver_supervisor_metrics_attempt_select job;
  match metrics with
  | None => mret ()
  | Some query =>
      resolver_supervisor_metrics_increment (Attempt query attempt_dispatched) ;;
      j ← job_get job;
      on_metrics (fun m =>
        let '(h, saturation, _) := metrics_duration_histogram_observe (me_dispatch_wait m (j_priority j) query) (Some (j_dispatch_wait_at j)) (Some now)
                                     (me_saturation_total m) in
        m <| me_dispatch_wait := fun p q => if bool_decide (p = j_priority j /\ q = query) then h else me_dispatch_wait m p q |>
          <| me_saturation_total := saturation |>)
  end.
Definition resolver_supervisor_metrics_response_record (job : Z) (response : resolver_ipc_assembly_result) : prog unit :=
  metrics ← resolver_supervisor_metrics_attempt_select job;
  match metrics with
  | None => mret ()
  | Some query =>
      let outcome := resolver_supervisor_metrics_dns_outcome (rt_status response) in
      resolver_supervisor_metrics_increment (Attempt query (attempt_response outcome)) ;;
      j ← job_get job;
      when (j_orphaned j) (resolver_supervisor_metrics_increment (Attempt query (orphan_response outcome))) ;;
      attempt_duration_observe query (j_dispatched_at j) (rt_completed_at response)
  end.

(** ** Jobs *)

(** The increment of one attempt counter of a job, when its query type has some. *)
Definition attempt_increment (job : Z) (counter : attempt_counter) : prog unit :=
  metrics ← resolver_supervisor_metrics_attempt_select job;
  match metrics with Some query => resolver_supervisor_metrics_increment (Attempt query counter) | None => mret () end.

Definition resolver_supervisor_job_complete (job : Z) (publication : resolver_cache_publish_status) (response : resolver_ipc_assembly_result) : prog unit :=
  attempt_increment job completion_enqueued ;;
  s ← supervisor;
  job_set job (fun j => j <| j_background_interest_count := 0 |> <| j_interactive_interest_count := 0 |> <| j_publication := publication |>
    <| j_response := response |> <| j_state := RESOLVER_SUPERVISOR_JOB_COMPLETE |> <| j_completion_previous := s_completion_tail s |>) ;;
  match s_completion_tail s with
  | None => on_supervisor (fun s => s <| s_completion_head := Some job |>)
  | Some tail => job_set tail (fun j => j <| j_completion_next := Some job |>)
  end ;;
  on_supervisor (fun s => s <| s_completion_tail := Some job |>).

Definition resolver_supervisor_job_completion_remove (job : Z) : prog unit :=
  j ← job_get job;
  match j_completion_previous j with
  | None => on_supervisor (fun s => s <| s_completion_head := j_completion_next j |>)
  | Some previous => job_set previous (fun p => p <| j_completion_next := j_completion_next j |>)
  end ;;
  match j_completion_next j with
  | None => on_supervisor (fun s => s <| s_completion_tail := j_completion_previous j |>)
  | Some next => job_set next (fun n => n <| j_completion_previous := j_completion_previous j |>)
  end ;;
  job_set job (fun j => j <| j_completion_next := None |> <| j_completion_previous := None |>).

Definition resolver_supervisor_job_bucket (entry : option Z) : prog nat :=
  e ← entry_read entry; mret (Z.to_nat (resolver_cache_entry_id e mod RESOLVER_SUPERVISOR_JOB_LIMIT)).
(** The walk along the links of a bucket to the job of an entry. *)
Fixpoint chain_find (entry : Z) (chain : list Z) : prog (option Z) :=
  match chain with
  | [] => mret None
  | job :: chain => j ← job_get job; if bool_decide (j_entry j = Some entry) then mret (Some job) else chain_find entry chain
  end.
Definition resolver_supervisor_job_find (entry : option Z) : prog (option Z) :=
  match entry with
  | None => mret None
  | Some id => bucket ← resolver_supervisor_job_bucket entry; s ← supervisor; chain ← lift (s_buckets s !! bucket); chain_find id chain
  end.
Fixpoint chain_remove (job : Z) (chain : list Z) : list Z :=
  match chain with [] => [] | j :: chain => if j =? job then chain else j :: chain_remove job chain end.
Definition resolver_supervisor_job_hash_remove (job : Z) : prog unit :=
  j ← job_get job; bucket ← resolver_supervisor_job_bucket (j_entry j);
  s ← supervisor; chain ← lift (s_buckets s !! bucket);
  on_supervisor (fun s => s <| s_buckets ::= <[bucket := chain_remove job chain]> |>).

Definition resolver_supervisor_job_queue_first : prog (option Z) :=
  s ← supervisor; mret match qu_head (s_interactive_queue s) with None => qu_head (s_background_queue s) | Some job => Some job end.
Definition resolver_supervisor_job_queue_select (s : resolver_supervisor) (priority : resolver_supervisor_priority) : resolver_supervisor_job_queue :=
  match priority with RESOLVER_SUPERVISOR_PRIORITY_INTERACTIVE => s_interactive_queue s | RESOLVER_SUPERVISOR_PRIORITY_BACKGROUND => s_background_queue s end.
Definition on_queue (priority : resolver_supervisor_priority) (f : resolver_supervisor_job_queue -> resolver_supervisor_job_queue) : prog unit :=
  on_supervisor (fun s => match priority with
    | RESOLVER_SUPERVISOR_PRIORITY_INTERACTIVE => s <| s_interactive_queue ::= f |>
    | RESOLVER_SUPERVISOR_PRIORITY_BACKGROUND => s <| s_background_queue ::= f |> end).

Definition resolver_supervisor_job_queue_remove (job : Z) : prog unit :=
  j ← job_get job;
  match j_queue_previous j with
  | None => on_queue (j_priority j) (fun q => q <| qu_head := j_queue_next j |>)
  | Some previous => job_set previous (fun p => p <| j_queue_next := j_queue_next j |>)
  end ;;
  match j_queue_next j with
  | None => on_queue (j_priority j) (fun q => q <| qu_tail := j_queue_previous j |>)
  | Some next => job_set next (fun n => n <| j_queue_previous := j_queue_previous j |>)
  end ;;
  job_set job (fun j => j <| j_queue_next := None |> <| j_queue_previous := None |>) ;;
  on_queue (j_priority j) (fun q => q <| qu_count ::= (fun n => if 0 <? n then n - 1 else n) |>).

Definition resolver_supervisor_job_destroy (job : option Z) : prog unit :=
  match job with
  | None => mret ()
  | Some job =>
      j ← job_get job;
      match j_state j with
      | RESOLVER_SUPERVISOR_JOB_QUEUED => resolver_supervisor_job_queue_remove job
      | RESOLVER_SUPERVISOR_JOB_COMPLETE => resolver_supervisor_job_completion_remove job
      | _ => mret ()
      end ;;
      resolver_supervisor_job_hash_remove job ;;
      j ← job_get job;
      assembly_destroy (j_assembly j) ;;
      result_destroy (j_response j) ;;
      entry_release (j_entry j) ;;
      on_supervisor (fun s => s <| s_job_count ::= (fun n => if 0 <? n then n - 1 else n) |> <| s_jobs ::= delete job |>)
  end.

Definition queue_high_water (priority : resolver_supervisor_priority) : prog unit :=
  s ← supervisor;
  on_metrics (fun m => m <| me_queue_high_water := fun p => if bool_decide (p = priority)
    then metrics_high_water_update (me_queue_high_water m p) (qu_count (resolver_supervisor_job_queue_select s priority)) else me_queue_high_water m p |>).
Definition resolver_supervisor_job_queue_append (job : Z) : prog unit :=
  j ← job_get job; s ← supervisor;
  let queue := resolver_supervisor_job_queue_select s (j_priority j) in
  job_set job (fun j => j <| j_queue_previous := qu_tail queue |>) ;;
  match qu_tail queue with
  | None => on_queue (j_priority j) (fun q => q <| qu_head := Some job |>)
  | Some tail => job_set tail (fun t => t <| j_queue_next := Some job |>)
  end ;;
  on_queue (j_priority j) (fun q => q <| qu_tail := Some job |> <| qu_count ::= Z.succ |>) ;;
  queue_high_water (j_priority j) ;;
  job_set job (fun j => j <| j_state := RESOLVER_SUPERVISOR_JOB_QUEUED |>).
Definition resolver_supervisor_job_queue_prepend (job : Z) : prog unit :=
  j ← job_get job; s ← supervisor;
  let queue := resolver_supervisor_job_queue_select s (j_priority j) in
  job_set job (fun j => j <| j_queue_next := qu_head queue |>) ;;
  match qu_head queue with
  | None => on_queue (j_priority j) (fun q => q <| qu_tail := Some job |>)
  | Some head => job_set head (fun h => h <| j_queue_previous := Some job |>)
  end ;;
  on_queue (j_priority j) (fun q => q <| qu_head := Some job |> <| qu_count ::= Z.succ |>) ;;
  queue_high_water (j_priority j) ;;
  job_set job (fun j => j <| j_state := RESOLVER_SUPERVISOR_JOB_QUEUED |>).

(** Changing the priority of a job moves it to the end of the other queue. *)
Definition priority_change (job : Z) (priority : resolver_supervisor_priority) : prog unit :=
  j ← job_get job;
  let queued := bool_decide (j_state j = RESOLVER_SUPERVISOR_JOB_QUEUED) in
  when queued (resolver_supervisor_job_queue_remove job) ;;
  job_set job (fun j => j <| j_priority := priority |>) ;;
  when queued (resolver_supervisor_job_queue_append job).
Definition resolver_supervisor_job_priority_downgrade (job : Z) : prog unit :=
  j ← job_get job;
  if negb (bool_decide (j_priority j = RESOLVER_SUPERVISOR_PRIORITY_INTERACTIVE)) || negb (j_interactive_interest_count j =? 0) then mret ()
  else priority_change job RESOLVER_SUPERVISOR_PRIORITY_BACKGROUND.
Definition resolver_supervisor_job_priority_promote (job : Z) : prog unit :=
  j ← job_get job;
  if bool_decide (j_priority j = RESOLVER_SUPERVISOR_PRIORITY_INTERACTIVE) then mret () else priority_change job RESOLVER_SUPERVISOR_PRIORITY_INTERACTIVE.

Definition resolver_supervisor_job_result_retryable (status : resolver_ipc_lookup_status) : bool := status =? RESOLVER_IPC_LOOKUP_TEMPORARY_ERROR.

(** A response that was not received: its query type and its status. *)
Definition failure_response (job : Z) (status : resolver_ipc_lookup_status) : prog resolver_ipc_assembly_result :=
  j ← job_get job; e ← entry_read (j_entry j);
  mret {| rt_budget := false; rt_completed_at := timespec_zero; rt_dynamic_bytes := 0; rt_payload := payload_zero; rt_query_id := 0;
          rt_query_type := resolver_cache_entry_query_type e; rt_status := status |}.
Definition resolver_supervisor_job_retry (job : Z) (now : timespec) : prog unit :=
  j ← job_get job;
  if j_orphaned j then resolver_supervisor_job_destroy (Some job) else
  job_set job (fun j => j <| j_retry_count ::= (fun n => if n <? UINT64_MAX then n + 1 else n) |>) ;;
  j ← job_get job; e ← entry_read (j_entry j);
  let base_delay := resolver_supervisor_delay_query_base (j_retry_count j) in
  let delay := resolver_supervisor_delay_jitter base_delay RESOLVER_SUPERVISOR_QUERY_RETRY_MAX_MS RESOLVER_SUPERVISOR_JITTER_QUERY_DOMAIN
                 (resolver_cache_entry_id e) (j_retry_count j) in
  match timeutil_add_milliseconds (Some now) delay with
  | None => response ← failure_response job RESOLVER_IPC_LOOKUP_PERMANENT_ERROR; resolver_supervisor_job_complete job RESOLVER_CACHE_PUBLISH_TIME response
  | Some retry_at =>
      job_set job (fun j => j <| j_retry_at := retry_at |> <| j_state := RESOLVER_SUPERVISOR_JOB_RETRY_WAIT |>) ;;
      attempt_increment job retry_scheduled
  end.
Definition resolver_supervisor_job_timestamp_valid (j : resolver_supervisor_job) (completed_at now : timespec) : bool :=
  timeutil_valid (Some completed_at) && (0 <=? timeutil_compare completed_at (j_dispatched_at j)) && (timeutil_compare completed_at (j_deadline j) <=? 0)
  && (timeutil_compare completed_at now <=? 0).

(** ** Helper processes *)

Definition resolver_supervisor_process_reap (process_id : Z) : prog unit :=
  if process_id <=? 0 then mret () else waitpid process_id ;; mret ().
Definition resolver_supervisor_process_terminate (process_id signal_number : Z) : prog unit :=
  if (process_id <=? 0) || (signal_number =? 0) then mret () else
  answer ← kill process_id signal_number;
  if match answer with Some errno => negb (errno =? ESRCH) | None => false end then mret () else
  when (signal_number =? SIGKILL) (resolver_supervisor_process_reap process_id).
Definition resolver_supervisor_process_reap_or_kill (process_id : Z) : prog unit :=
  if process_id <=? 0 then mret () else
  result ← waitpid process_id;
  match result with WaitRunning => resolver_supervisor_process_terminate process_id SIGKILL | _ => mret () end.

Definition resolver_supervisor_helper_events_update (helper_index : nat) : prog bool :=
  h ← helper_get helper_index;
  if h_fd h =? -1 then mret true else
  epoll_set (h_fd h) (Z.lor (Z.lor EPOLLIN EPOLLRDHUP) (if bool_decide (h_state h = RESOLVER_SUPERVISOR_HELPER_SENDING) then EPOLLOUT else 0)).

Definition resolver_supervisor_helper_process_close (helper_index : nat) (signal_number : Z) : prog unit :=
  h ← helper_get helper_index;
  when (negb (h_fd h =? -1)) (epoll_delete (h_fd h) ;; close (h_fd h) ;; helper_set helper_index (fun h => h <| h_fd := -1 |>)) ;;
  helper_set helper_index (fun h => h <| h_process_id := -1 |>) ;;
  if signal_number =? 0 then resolver_supervisor_process_reap_or_kill (h_process_id h)
  else resolver_supervisor_process_terminate (h_process_id h) signal_number.

Definition resolver_supervisor_helper_recover (helper_index : nat) (recovery : resolver_supervisor_helper_recovery) (now : timespec) : prog unit :=
  h ← helper_get helper_index;
  if h_failure_count h =? 0 then mret () else
  resolver_supervisor_metrics_increment (HelperPool (helper_recovery recovery)) ;;
  (if h_cycle_id h =? 0 then resolver_supervisor_observation_drop else
   resolver_supervisor_observation_push (RESOLVER_SUPERVISOR_OBSERVATION_RECOVERED
     {| rv_cycle_id := h_cycle_id h; rv_degraded_at := h_degraded_at h; rv_failure_count := h_failure_count h; rv_last_failure := h_last_failure h;
        rv_observed_at := now; rv_process_id := h_process_id h; rv_recovery := recovery; rv_slot := helper_index |})) ;;
  helper_set helper_index (fun h => h <| h_consecutive_successes := 0 |> <| h_cycle_id := 0 |> <| h_degraded_at := timespec_zero |>
    <| h_failure_count := 0 |> <| h_last_failed_process_id := -1 |> <| h_last_failure := RESOLVER_SUPERVISOR_HELPER_FAILURE_NONE |>
    <| h_next_event_at := timespec_zero |>).

Definition cycle_start (now : timespec) (h : resolver_supervisor_helper) : resolver_supervisor_helper :=
  if h_failure_count h =? 0 then
    let h := h <| h_degraded_at := now |> in
    if h_next_cycle_id h =? 0 then h else
    h <| h_cycle_id := h_next_cycle_id h |>
      <| h_next_cycle_id ::= (fun n => if n =? RESOLVER_SUPERVISOR_OBSERVATION_CYCLE_ID_LIMIT then 0 else n + 1) |>
  else h.
Definition resolver_supervisor_helper_respawn_schedule (helper_index : nat) (failure : resolver_supervisor_helper_failure) (now : timespec) : prog unit :=
  helper_set helper_index (fun h => h <| h_consecutive_successes := 0 |>) ;;
  s ← supervisor;
  if s_shutting_down s then
    helper_set helper_index (fun h => h <| h_state := RESOLVER_SUPERVISOR_HELPER_STOPPED |> <| h_next_event_at := timespec_zero |>) else
  helper_set helper_index (fun h => cycle_start now h <| h_failure_count ::= (fun n => if n <? UINT64_MAX then n + 1 else n) |> <| h_last_failure := failure |>) ;;
  when (negb (bool_decide (failure = RESOLVER_SUPERVISOR_HELPER_FAILURE_NONE))) (resolver_supervisor_metrics_increment (HelperPool (helper_failure failure))) ;;
  h ← helper_get helper_index;
  let base_delay := resolver_supervisor_delay_respawn_base (h_failure_count h) in
  let delay := if base_delay =? 0 then 0 else
    resolver_supervisor_delay_jitter base_delay RESOLVER_SUPERVISOR_RESPAWN_MAX_MS RESOLVER_SUPERVISOR_JITTER_RESPAWN_DOMAIN (Z.of_nat helper_index)
      (h_failure_count h) in
  helper_set helper_index (fun h => h <| h_state := RESOLVER_SUPERVISOR_HELPER_BACKOFF |>
    <| h_next_event_at := default now (timeutil_add_milliseconds (Some now) delay) |>) ;;
  if h_cycle_id h =? 0 then resolver_supervisor_observation_drop else
  resolver_supervisor_observation_push (RESOLVER_SUPERVISOR_OBSERVATION_DEGRADED
    {| dg_backoff_milliseconds := delay; dg_cycle_id := h_cycle_id h; dg_failure := failure; dg_failure_count := h_failure_count h;
       dg_observed_at := now; dg_process_id := if 0 <? h_last_failed_process_id h then h_last_failed_process_id h else 0; dg_slot := helper_index |}).

Definition resolver_supervisor_helper_success (helper_index : nat) (now : timespec) : prog unit :=
  h ← helper_get helper_index;
  if h_failure_count h =? 0 then mret () else
  helper_set helper_index (fun h => h <| h_consecutive_successes ::= Z.succ |>) ;;
  when (RESOLVER_SUPERVISOR_RESPAWN_RESET_SUCCESS_COUNT <=? h_consecutive_successes h + 1)
    (resolver_supervisor_helper_recover helper_index RESOLVER_SUPERVISOR_HELPER_RECOVERY_SUCCESS_STREAK now).

Definition resolver_supervisor_helper_fail (helper_index : nat) (failure : resolver_supervisor_helper_failure) (now : timespec) : prog unit :=
  h ← helper_get helper_index;
  helper_set helper_index (fun h => h <| h_last_failed_process_id := h_process_id h |>) ;;
  match h_job h with
  | None => mret ()
  | Some job =>
      j ← job_get job;
      let dispatched := bool_decide (j_state j = RESOLVER_SUPERVISOR_JOB_DISPATCHED) in
      job_set job (fun j => j <| j_query_id := 0 |>) ;;
      assembly_destroy (j_assembly j) ;;
      job_set job (fun j => j <| j_assembly := None |>) ;;
      helper_set helper_index (fun h => h <| h_job := None |> <| h_request_size := 0 |>) ;;
      if dispatched then
        resolver_supervisor_metrics_attempt_failure_record job failure now ;; resolver_supervisor_job_retry job now
      else resolver_supervisor_job_queue_prepend job
  end ;;
  resolver_supervisor_helper_process_close helper_index (match failure with RESOLVER_SUPERVISOR_HELPER_FAILURE_EXIT => 0 | _ => SIGKILL end) ;;
  resolver_supervisor_helper_respawn_schedule helper_index failure now.

(** [resolver_helper_process_start]: the process and the new descriptor of its channel. *)
Definition process_start : prog (option (Z * Z)) :=
  k ← read w_kernel; let '(a, l) := drawn None (k_starts k) in
  on_kernel (fun k => k <| k_starts := l |>) ;;
  match a with
  | None => mret None
  | Some process_id => fd ← fresh_address; on_kernel (fun k => k <| k_open ::= ({[fd]} ∪.) |>) ;; mret (Some (process_id, fd))
  end.
(** Whether the helper was started. *)
Definition resolver_supervisor_helper_spawn (helper_index : nat) (now : timespec) : prog bool :=
  helper_get helper_index ;;
  resolver_supervisor_metrics_increment (HelperPool spawn_attempt) ;;
  started ← process_start;
  match started with
  | None =>
      helper_set helper_index (fun h => h <| h_last_failed_process_id := -1 |>) ;;
      resolver_supervisor_helper_respawn_schedule helper_index RESOLVER_SUPERVISOR_HELPER_FAILURE_SPAWN now ;; mret false
  | Some (process_id, socket_fd) =>
      added ← epoll_set socket_fd (Z.lor EPOLLIN EPOLLRDHUP);
      if negb added then
        helper_set helper_index (fun h => h <| h_last_failed_process_id := process_id |>) ;;
        close socket_fd ;;
        resolver_supervisor_process_terminate process_id SIGKILL ;;
        resolver_supervisor_helper_respawn_schedule helper_index RESOLVER_SUPERVISOR_HELPER_FAILURE_SPAWN now ;; mret false
      else
        helper_set helper_index (fun h => h <| h_fd := socket_fd |>
          <| h_next_event_at := if 0 <? h_failure_count h then default now (timeutil_add_seconds (Some now) RESOLVER_SUPERVISOR_RESPAWN_RESET_STABLE_SEC) else now |>
          <| h_process_id := process_id |> <| h_state := RESOLVER_SUPERVISOR_HELPER_IDLE |>) ;;
        resolver_supervisor_metrics_increment (HelperPool spawn_success) ;; mret true
  end.
Definition resolver_supervisor_helper_stop (helper_index : nat) (force : bool) : prog unit :=
  resolver_supervisor_helper_process_close helper_index (if force then SIGKILL else 0) ;;
  helper_set helper_index (fun h => h <| h_state := RESOLVER_SUPERVISOR_HELPER_STOPPED |> <| h_next_event_at := timespec_zero |>).

(** ** Requests *)

(** The events of a helper after its state changed, as the result of a send. *)
Definition sent_status (helper_index : nat) : prog resolver_supervisor_send_status :=
  updated ← resolver_supervisor_helper_events_update helper_index;
  mret (if updated : bool then RESOLVER_SUPERVISOR_SEND_OK else RESOLVER_SUPERVISOR_SEND_IO).
Definition resolver_supervisor_helper_request_send (helper_index : nat) (now : timespec) : prog resolver_supervisor_send_status :=
  h ← helper_get helper_index;
  match timeutil_add_seconds (Some now) RESOLVER_SUPERVISOR_QUERY_TIMEOUT_SEC with
  | None => mret RESOLVER_SUPERVISOR_SEND_TIME
  | Some deadline =>
      sent ← send (h_fd h) (take (Z.to_nat (h_request_size h)) (h_request_packet h));
      match sent with
      | Taken size =>
          if size =? h_request_size h then
            job ← lift (h_job h);
            job_set job (fun j => j <| j_state := RESOLVER_SUPERVISOR_JOB_DISPATCHED |> <| j_dispatched_at := now |> <| j_deadline := deadline |>) ;;
            resolver_supervisor_metrics_dispatch_record job now ;;
            helper_set helper_index (fun h => h <| h_request_size := 0 |> <| h_state := RESOLVER_SUPERVISOR_HELPER_BUSY |>) ;;
            sent_status helper_index
          else mret RESOLVER_SUPERVISOR_SEND_IO
      | SendFailed errno =>
          if would_block errno then
            job ← lift (h_job h);
            job_set job (fun j => j <| j_state := RESOLVER_SUPERVISOR_JOB_SENDING |>) ;;
            helper_set helper_index (fun h => h <| h_state := RESOLVER_SUPERVISOR_HELPER_SENDING |>) ;;
            sent_status helper_index
          else mret RESOLVER_SUPERVISOR_SEND_IO
      end
  end.

(** Ids are used once; after the last one there are none. *)
Definition resolver_supervisor_query_id_allocate : prog (option Z) :=
  s ← supervisor;
  if s_next_query_id s =? 0 then mret None else
  on_supervisor (fun s => s <| s_next_query_id := u64 (s_next_query_id s + 1) |>) ;; mret (Some (s_next_query_id s)).

(** The job is taken back from the helper, which is idle again. *)
Definition request_abandon (helper_index : nat) (job : Z) : prog unit :=
  job_set job (fun j => j <| j_query_id := 0 |>) ;;
  j ← job_get job;
  assembly_destroy (j_assembly j) ;;
  job_set job (fun j => j <| j_assembly := None |>) ;;
  helper_set helper_index (fun h => h <| h_job := None |> <| h_request_size := 0 |> <| h_state := RESOLVER_SUPERVISOR_HELPER_IDLE |>) ;;
  resolver_supervisor_helper_events_update helper_index ;; mret ().
Definition assembly_create (name : option bytes) (query_type query_id : Z) : prog (option Z) :=
  allocated ← alloc; address ← fresh_address;
  with_budget (fun b => let '(b, status, assembly) := resolver_ipc_assembly_create (Some b) name ns_c_in query_type query_id true
                                                       (if allocated : bool then Some address else None) in
    b ← b; Some (b, match status with RESOLVER_IPC_ASSEMBLY_OK => assembly | _ => None end)).
Definition resolver_supervisor_helper_job_assign (helper_index : nat) (job : Z) (now : timespec) : prog resolver_supervisor_assign_status :=
  helper_get helper_index ;;
  match timeutil_add_seconds (Some now) RESOLVER_SUPERVISOR_QUERY_TIMEOUT_SEC with
  | None => mret RESOLVER_SUPERVISOR_ASSIGN_TIME
  | Some deadline =>
      job_set job (fun j => j <| j_deadline := deadline |>) ;;
      id ← resolver_supervisor_query_id_allocate;
      match id with
      | None => mret RESOLVER_SUPERVISOR_ASSIGN_LIMIT
      | Some query_id =>
          j ← job_get job; e ← entry_read (j_entry j);
          assembly ← assembly_create (resolver_cache_entry_name e) (resolver_cache_entry_query_type e) query_id;
          match assembly with
          | None => mret RESOLVER_SUPERVISOR_ASSIGN_RETRY
          | Some assembly =>
              name ← lift (resolver_cache_entry_name e);
              let request := {| q_query_name := take (Z.to_nat (NS_MAXDNAME - 1)) name; q_query_class := ns_c_in; q_query_id := query_id;
                                q_query_type := resolver_cache_entry_query_type e |} in
              match resolver_ipc_request_encode request RESOLVER_IPC_PACKET_BYTE_LIMIT with
              | inl _ => helper_set helper_index (fun h => h <| h_request_size := 0 |>) ;; assembly_destroy (Some assembly) ;; mret RESOLVER_SUPERVISOR_ASSIGN_LIMIT
              | inr packet =>
                  helper_set helper_index (fun h => h <| h_request_packet := packet |> <| h_request_size := len packet |>) ;;
                  job_set job (fun j => j <| j_assembly := Some assembly |> <| j_query_id := query_id |> <| j_slot_index := Z.of_nat helper_index |>) ;;
                  helper_set helper_index (fun h => h <| h_job := Some job |>) ;;
                  status ← resolver_supervisor_helper_request_send helper_index now;
                  match status with
                  | RESOLVER_SUPERVISOR_SEND_TIME => request_abandon helper_index job ;; mret RESOLVER_SUPERVISOR_ASSIGN_TIME
                  | RESOLVER_SUPERVISOR_SEND_OK => mret RESOLVER_SUPERVISOR_ASSIGN_OK
                  | RESOLVER_SUPERVISOR_SEND_IO => mret RESOLVER_SUPERVISOR_ASSIGN_IO
                  end
              end
          end
      end
  end.

(** The body of the loop of one helper: whether the loop goes on to test its condition. *)
Definition dispatch_round (helper_index : nat) (job : Z) (now : timespec) : prog bool :=
  resolver_supervisor_job_queue_remove job ;;
  status ← resolver_supervisor_helper_job_assign helper_index job now;
  match status with
  | RESOLVER_SUPERVISOR_ASSIGN_OK => mret false
  | RESOLVER_SUPERVISOR_ASSIGN_RETRY => resolver_supervisor_job_retry job now ;; mret true
  | RESOLVER_SUPERVISOR_ASSIGN_LIMIT =>
      response ← failure_response job RESOLVER_IPC_LOOKUP_LIMIT; resolver_supervisor_job_complete job RESOLVER_CACHE_PUBLISH_LIMIT response ;; mret true
  | RESOLVER_SUPERVISOR_ASSIGN_TIME =>
      response ← failure_response job RESOLVER_IPC_LOOKUP_PERMANENT_ERROR; resolver_supervisor_job_complete job RESOLVER_CACHE_PUBLISH_TIME response ;; mret true
  | RESOLVER_SUPERVISOR_ASSIGN_IO => resolver_supervisor_helper_fail helper_index RESOLVER_SUPERVISOR_HELPER_FAILURE_IO now ;; mret true
  end.
(** Each round takes a job off the queues, and only a helper that is idle no more puts it
    back, so the number of queued jobs bounds the rounds. *)
Fixpoint dispatch_loop (fuel : nat) (helper_index : nat) (now : timespec) : prog unit :=
  h ← helper_get helper_index; first ← resolver_supervisor_job_queue_first;
  match h_state h, first with
  | RESOLVER_SUPERVISOR_HELPER_IDLE, Some job =>
      match fuel with
      | O => fault
      | S fuel => again ← dispatch_round helper_index job now; if again : bool then dispatch_loop fuel helper_index now else mret ()
      end
  | _, _ => mret ()
  end.
Fixpoint dispatch_helpers (indices : list nat) (now : timespec) : prog unit :=
  match indices with
  | [] => mret ()
  | helper_index :: indices =>
      first ← resolver_supervisor_job_queue_first;
      match first with
      | None => mret ()
      | Some _ => s ← supervisor; dispatch_loop (S (size (s_jobs s))) helper_index now ;; dispatch_helpers indices now
      end
  end.
Definition resolver_supervisor_dispatch (now : timespec) : prog unit :=
  s ← supervisor; if s_shutting_down s then mret () else dispatch_helpers (seq 0 RESOLVER_SUPERVISOR_HELPER_COUNT) now.

(** ** Responses *)

#[export] Instance result_settable : Settable resolver_ipc_assembly_result := fun r => {|
  rt_budget := rt_budget r; rt_completed_at := rt_completed_at r; rt_dynamic_bytes := rt_dynamic_bytes r; rt_payload := rt_payload r;
  rt_query_id := rt_query_id r; rt_query_type := rt_query_type r; rt_status := rt_status r |}.

(** The status, and the response, whose payload is cleared when the cache takes it over. *)
Definition resolver_supervisor_result_publish (job : Z) (response : resolver_ipc_assembly_result)
    : prog (resolver_cache_publish_status * resolver_ipc_assembly_result) :=
  j ← job_get job;
  let taken (status : resolver_cache_publish_status) := if moved status then response <| rt_payload := payload_zero |> else response in
  if rt_query_type response =? ns_t_srv then
    match resolver_ipc_lookup_status_to_srv (rt_status response) with
    | None => mret (RESOLVER_CACHE_PUBLISH_INVALID, response)
    | Some lookup_status =>
        allocated ← alloc; c ← read w_cache;
        '(c, status, _) ← lift (resolver_cache_entry_publish_srv c (j_entry j) lookup_status (Some (rt_completed_at response))
                                   (Some (payload_srv (rt_payload response))) allocated);
        modify (fun w => w <| w_cache := c |>) ;; mret (status, taken status)
    end
  else
    match resolver_ipc_lookup_status_to_address (rt_status response) with
    | None => mret (RESOLVER_CACHE_PUBLISH_INVALID, response)
    | Some lookup_status =>
        allocated ← alloc; c ← read w_cache;
        '(c, status, _) ← lift (resolver_cache_entry_publish_address c (j_entry j) lookup_status (Some (rt_completed_at response))
                                   (Some (payload_address (rt_payload response))) allocated);
        modify (fun w => w <| w_cache := c |>) ;; mret (status, taken status)
    end.

Definition result_take (assembly : option Z) : prog (option resolver_ipc_assembly_result) :=
  with_budget (fun b => resolver_ipc_assembly_result_take b assembly (Some result_zero)).

(** A response that came in time, to a job that has left its helper. *)
Definition result_accept (job : Z) (response : resolver_ipc_assembly_result) (now : timespec) : prog unit :=
  resolver_supervisor_metrics_response_record job response ;;
  if resolver_supervisor_job_result_retryable (rt_status response) then result_destroy response ;; resolver_supervisor_job_retry job now else
  '(publication, response) ←
    (if (rt_status response =? RESOLVER_IPC_LOOKUP_OK) || (rt_status response =? RESOLVER_IPC_LOOKUP_NODATA)
        || (rt_status response =? RESOLVER_IPC_LOOKUP_NOT_FOUND)
     then resolver_supervisor_result_publish job response else mret (RESOLVER_CACHE_PUBLISH_INVALID, response));
  j ← job_get job;
  if j_orphaned j then result_destroy response ;; resolver_supervisor_job_destroy (Some job)
  else resolver_supervisor_job_complete job publication response.
Definition resolver_supervisor_helper_result_finish (helper_index : nat) (now : timespec) : prog unit :=
  h ← helper_get helper_index;
  match h_job h with
  | None => resolver_supervisor_helper_fail helper_index RESOLVER_SUPERVISOR_HELPER_FAILURE_PROTOCOL now
  | Some job =>
      j ← job_get job;
      taken ← result_take (j_assembly j);
      match taken with
      | None => resolver_supervisor_helper_fail helper_index RESOLVER_SUPERVISOR_HELPER_FAILURE_PROTOCOL now
      | Some response =>
          job_set job (fun j => j <| j_query_id := 0 |>) ;;
          assembly_destroy (j_assembly j) ;;
          job_set job (fun j => j <| j_assembly := None |>) ;;
          if negb (resolver_supervisor_job_timestamp_valid j (rt_completed_at response) now) then
            let timed_out := timeutil_valid (Some (rt_completed_at response)) && (0 <? timeutil_compare (rt_completed_at response) (j_deadline j)) in
            result_destroy response ;;
            resolver_supervisor_helper_fail helper_index
              (if timed_out then RESOLVER_SUPERVISOR_HELPER_FAILURE_TIMEOUT else RESOLVER_SUPERVISOR_HELPER_FAILURE_PROTOCOL) now
          else
            helper_set helper_index (fun h => h <| h_job := None |> <| h_state := RESOLVER_SUPERVISOR_HELPER_IDLE |>) ;;
            resolver_supervisor_helper_success helper_index now ;;
            result_accept job response now
      end
  end.

Fixpoint peeked (peeks : list recv_answer) : recv_answer * list recv_answer :=
  match peeks with
  | [] => (RecvFailed EAGAIN, [])
  | RecvFailed errno :: peeks => if errno =? EINTR then peeked peeks else (RecvFailed errno, peeks)
  | Received record :: peeks => (Received record, peeks)
  end.
Definition resolver_supervisor_helper_receive_zero_is_end (socket_fd : Z) : prog bool :=
  open_get socket_fd ;;
  k ← read w_kernel; let '(a, l) := peeked (k_peeks k) in
  on_kernel (fun k => k <| k_peeks := l |>) ;;
  mret match a with Received [] => true | _ => false end.

Definition packet_consume (job : Z) (packet : bytes) : prog resolver_ipc_assembly_status :=
  j ← job_get job; alloc_cnames ← alloc; alloc_records ← alloc;
  with_budget (fun b => resolver_ipc_assembly_packet_consume b (j_assembly j) alloc_cnames alloc_records (Some packet)).
(** One packet from a helper: whether the loop goes on. *)
Definition packet_received (helper_index : nat) (packet : bytes) (now : timespec) : prog bool :=
  h ← helper_get helper_index;
  if bool_decide (h_state h = RESOLVER_SUPERVISOR_HELPER_SHUTTING_DOWN) then mret true else
  match h_job h with
  | Some job =>
      if (RESOLVER_IPC_PACKET_BYTE_LIMIT <? len packet) || negb (bool_decide (h_state h = RESOLVER_SUPERVISOR_HELPER_BUSY)) then
        resolver_supervisor_helper_fail helper_index RESOLVER_SUPERVISOR_HELPER_FAILURE_PROTOCOL now ;; mret false else
      status ← packet_consume job packet;
      match status with
      | RESOLVER_IPC_ASSEMBLY_COMPLETE => resolver_supervisor_helper_result_finish helper_index now ;; mret true
      | RESOLVER_IPC_ASSEMBLY_OK => mret true
      | _ => resolver_supervisor_helper_fail helper_index RESOLVER_SUPERVISOR_HELPER_FAILURE_PROTOCOL now ;; mret false
      end
  | None => resolver_supervisor_helper_fail helper_index RESOLVER_SUPERVISOR_HELPER_FAILURE_PROTOCOL now ;; mret false
  end.
(** An empty record or the end of the channel. *)
Definition zero_received (helper_index : nat) (now : timespec) : prog unit :=
  h ← helper_get helper_index;
  stopped ← (if bool_decide (h_state h = RESOLVER_SUPERVISOR_HELPER_SHUTTING_DOWN) then resolver_supervisor_helper_receive_zero_is_end (h_fd h) else mret false);
  if stopped : bool then resolver_supervisor_helper_stop helper_index false else
  ended ← resolver_supervisor_helper_receive_zero_is_end (h_fd h);
  resolver_supervisor_helper_fail helper_index
    (if ended : bool then RESOLVER_SUPERVISOR_HELPER_FAILURE_EXIT else RESOLVER_SUPERVISOR_HELPER_FAILURE_PROTOCOL) now.
(** The records still to come; once they are used up the socket has none. *)
Fixpoint drain_loop (recvs : list recv_answer) (helper_index : nat) (now : timespec) : prog unit :=
  h ← helper_get helper_index;
  if h_fd h =? -1 then mret () else
  open_get (h_fd h) ;;
  on_kernel (fun k => k <| k_recvs := tail recvs |>) ;;
  match recvs with
  | [] => mret ()
  | Received record :: recvs =>
      let packet := take (Z.to_nat RESOLVER_SUPERVISOR_RECEIVE_BYTE_CAPACITY) record in
      if 0 <? len packet then
        again ← packet_received helper_index packet now; if again : bool then drain_loop recvs helper_index now else mret ()
      else zero_received helper_index now
  | RecvFailed errno :: recvs =>
      if errno =? EINTR then drain_loop recvs helper_index now else
      if would_block errno then mret () else resolver_supervisor_helper_fail helper_index RESOLVER_SUPERVISOR_HELPER_FAILURE_IO now
  end.
Definition resolver_supervisor_helper_drain (helper_index : nat) (now : timespec) : prog unit :=
  k ← read w_kernel; drain_loop (k_recvs k) helper_index now.

(** ** The timer *)

Definition resolver_supervisor_timer_candidate (target : option timespec) (candidate : timespec) : option timespec :=
  if negb (timeutil_valid (Some candidate)) then target else
  match target with
  | None => Some candidate
  | Some t => if timeutil_compare candidate t <? 0 then Some candidate else target
  end.
(** The time a job or a helper waits for. *)
Definition job_event (j : resolver_supervisor_job) : option timespec :=
  match j_state j with
  | RESOLVER_SUPERVISOR_JOB_DISPATCHED => Some (j_deadline j)
  | RESOLVER_SUPERVISOR_JOB_RETRY_WAIT => Some (j_retry_at j)
  | _ => None
  end.
Definition serving (state : resolver_supervisor_helper_state) : bool :=
  match state with
  | RESOLVER_SUPERVISOR_HELPER_IDLE | RESOLVER_SUPERVISOR_HELPER_SENDING | RESOLVER_SUPERVISOR_HELPER_BUSY => true
  | _ => false
  end.
Definition helper_event (h : resolver_supervisor_helper) : option timespec :=
  if match h_state h with RESOLVER_SUPERVISOR_HELPER_BACKOFF | RESOLVER_SUPERVISOR_HELPER_SHUTTING_DOWN => true | _ => false end
     || ((0 <? h_failure_count h) && serving (h_state h)) then Some (h_next_event_at h) else None.
Definition candidate_add (target : option timespec) (event : option timespec) : option timespec :=
  match event with None => target | Some t => resolver_supervisor_timer_candidate target t end.
Fixpoint chain_events (chain : list Z) (target : option timespec) : prog (option timespec) :=
  match chain with [] => mret target | job :: chain => j ← job_get job; chain_events chain (candidate_add target (job_event j)) end.
Definition timer_value (target : timespec) : timespec :=
  if (tv_sec target =? 0) && (tv_nsec target =? 0) then {| tv_sec := 0; tv_nsec := 1 |} else target.
(** Whether the timer was set. *)
Definition resolver_supervisor_timer_rearm : prog bool :=
  s ← supervisor;
  target ← chain_events (concat (s_buckets s)) None;
  timer_set (timer_value <$> fold_left (fun target h => candidate_add target (helper_event h)) (s_helpers s) target).

Fixpoint timer_drained (answers : list timer_read) : bool * list timer_read :=
  match answers with
  | [] => (true, [])
  | TimerExpired :: answers => timer_drained answers
  | TimerFailed errno :: answers => if errno =? EINTR then timer_drained answers else (would_block errno, answers)
  | TimerShort :: answers => (false, answers)
  end.
Definition resolver_supervisor_timer_drain : prog bool :=
  k ← read w_kernel; let '(ok, l) := timer_drained (k_timer_reads k) in on_kernel (fun k => k <| k_timer_reads := l |>) ;; mret ok.

(** The walk along the links of the buckets, which queueing a job leaves as they are. *)
Definition resolver_supervisor_timers_process_jobs (now : timespec) : prog unit :=
  s ← supervisor;
  for_each (fun job =>
    j ← job_get job;
    when (bool_decide (j_state j = RESOLVER_SUPERVISOR_JOB_RETRY_WAIT) && (0 <=? timeutil_compare now (j_retry_at j)))
      (job_set job (fun j => j <| j_dispatch_wait_at := now |>) ;; resolver_supervisor_job_queue_append job)) (concat (s_buckets s)).

Definition helper_timeout (helper_index : nat) (now : timespec) : prog unit :=
  h ← helper_get helper_index;
  match h_state h, h_job h with
  | RESOLVER_SUPERVISOR_HELPER_BUSY, Some job =>
      j ← job_get job;
      when (0 <=? timeutil_compare now (j_deadline j))
        (resolver_supervisor_helper_drain helper_index now ;;
         h ← helper_get helper_index;
         when (bool_decide (h_state h = RESOLVER_SUPERVISOR_HELPER_BUSY) && bool_decide (is_Some (h_job h)))
           (resolver_supervisor_helper_fail helper_index RESOLVER_SUPERVISOR_HELPER_FAILURE_TIMEOUT now))
  | _, _ => mret ()
  end.
Definition helper_timers (helper_index : nat) (now : timespec) : prog unit :=
  helper_timeout helper_index now ;;
  h ← helper_get helper_index;
  when ((0 <? h_failure_count h) && serving (h_state h) && (0 <=? timeutil_compare now (h_next_event_at h)))
    (resolver_supervisor_helper_recover helper_index RESOLVER_SUPERVISOR_HELPER_RECOVERY_STABLE_UPTIME now) ;;
  h ← helper_get helper_index;
  if bool_decide (h_state h = RESOLVER_SUPERVISOR_HELPER_BACKOFF) && (0 <=? timeutil_compare now (h_next_event_at h)) then
    resolver_supervisor_helper_spawn helper_index now ;; mret ()
  else when (bool_decide (h_state h = RESOLVER_SUPERVISOR_HELPER_SHUTTING_DOWN) && (0 <=? timeutil_compare now (h_next_event_at h)))
         (resolver_supervisor_helper_stop helper_index true).
Definition resolver_supervisor_timers_process_helpers (now : timespec) : prog unit :=
  for_each (fun helper_index => helper_timers helper_index now) (seq 0 RESOLVER_SUPERVISOR_HELPER_COUNT).

(** ** Destruction *)

(** A job that is dropped whatever its state: the counters of a shutdown, and the helper
    that has it. *)
Definition job_drop (job : Z) : prog unit :=
  s ← supervisor; j ← job_get job;
  metrics ← resolver_supervisor_metrics_attempt_select job;
  match metrics with
  | Some query =>
      when (s_shutting_down s)
        match j_state j with
        | RESOLVER_SUPERVISOR_JOB_COMPLETE => resolver_supervisor_metrics_increment (Attempt query completion_abandoned_shutdown)
        | RESOLVER_SUPERVISOR_JOB_DISPATCHED => resolver_supervisor_metrics_increment (Attempt query attempt_abandoned_shutdown)
        | _ => mret ()
        end
  | None => mret ()
  end ;;
  match j_state j with
  | RESOLVER_SUPERVISOR_JOB_SENDING | RESOLVER_SUPERVISOR_JOB_DISPATCHED =>
      job_set job (fun j => j <| j_query_id := 0 |>) ;;
      assembly_destroy (j_assembly j) ;;
      job_set job (fun j => j <| j_assembly := None |>) ;;
      when (j_slot_index j <? Z.of_nat RESOLVER_SUPERVISOR_HELPER_COUNT)
        (h ← helper_get (Z.to_nat (j_slot_index j));
         when (bool_decide (h_job h = Some job)) (helper_set (Z.to_nat (j_slot_index j)) (fun h => h <| h_job := None |> <| h_request_size := 0 |>)))
  | _ => mret ()
  end ;;
  resolver_supervisor_job_destroy (Some job).
Fixpoint bucket_destroy (fuel : nat) (bucket : nat) : prog unit :=
  s ← supervisor; chain ← lift (s_buckets s !! bucket);
  match chain, fuel with
  | [], _ => mret ()
  | job :: _, S fuel => job_drop job ;; bucket_destroy fuel bucket
  | _ :: _, O => fault
  end.
Definition resolver_supervisor_jobs_destroy_all : prog unit :=
  s ← supervisor;
  match s_buckets s with
  | [] => mret ()
  | _ => for_each (fun bucket => s ← supervisor; chain ← lift (s_buckets s !! bucket); bucket_destroy (length chain) bucket)
           (seq 0 (Z.to_nat RESOLVER_SUPERVISOR_JOB_LIMIT))
  end.

Definition queue_zero : resolver_supervisor_job_queue := {| qu_head := None; qu_count := 0; qu_tail := None |}.
Definition metrics_zero : resolver_supervisor_metrics_state := {|
  me_counter := fun _ => 0; me_attempt_duration := fun _ => metrics_histogram_zero; me_dispatch_wait := fun _ _ => metrics_histogram_zero;
  me_jobs_high_water := 0; me_queue_high_water := fun _ => 0; me_saturation_total := 0 |}.
Definition supervisor_zero : resolver_supervisor := {|
  s_assembly_budget := None; s_background_queue := queue_zero; s_buckets := []; s_completion_head := None; s_completion_tail := None;
  s_epoll_fd := 0; s_helpers := []; s_interactive_queue := queue_zero; s_job_count := 0; s_last_now := timespec_zero; s_metrics := metrics_zero;
  s_next_query_id := 0; s_observation_count := 0; s_observation_head := 0;
  s_observations := replicate (Z.to_nat RESOLVER_SUPERVISOR_OBSERVATION_CAPACITY) None; s_shutting_down := false; s_timer_fd := 0; s_jobs := ∅ |}.
Definition helper_zero : resolver_supervisor_helper := {|
  h_consecutive_successes := 0; h_cycle_id := 0; h_degraded_at := timespec_zero; h_failure_count := 0; h_fd := 0; h_job := None;
  h_last_failed_process_id := 0; h_last_failure := RESOLVER_SUPERVISOR_HELPER_FAILURE_NONE; h_next_cycle_id := 0; h_next_event_at := timespec_zero;
  h_process_id := 0; h_request_packet := []; h_request_size := 0; h_state := RESOLVER_SUPERVISOR_HELPER_IDLE |}.
Definition job_zero : resolver_supervisor_job := {|
  j_background_interest_count := 0; j_completion_next := None; j_completion_previous := None; j_deadline := timespec_zero;
  j_dispatched_at := timespec_zero; j_dispatch_wait_at := timespec_zero; j_entry := None; j_interactive_interest_count := 0; j_orphaned := false;
  j_assembly := None; j_priority := RESOLVER_SUPERVISOR_PRIORITY_BACKGROUND; j_queue_next := None; j_queue_previous := None; j_query_id := 0;
  j_publication := RESOLVER_CACHE_PUBLISH_STORED; j_response := result_zero; j_retry_at := timespec_zero; j_retry_count := 0;
  j_slot_index := 0; j_state := RESOLVER_SUPERVISOR_JOB_QUEUED |}.

Definition helper_discard (terminate_processes : bool) (helper_index : nat) : prog unit :=
  if terminate_processes then resolver_supervisor_helper_process_close helper_index SIGKILL else
  h ← helper_get helper_index;
  when (negb (h_fd h =? -1)) (close (h_fd h) ;; helper_set helper_index (fun h => h <| h_fd := -1 |> <| h_process_id := -1 |>)).
Definition resolver_supervisor_resources_destroy (supervisor_ : bool) (terminate_processes : bool) : prog unit :=
  if negb supervisor_ then mret () else
  resolver_supervisor_jobs_destroy_all ;;
  s ← supervisor;
  match s_helpers s with
  | [] => mret ()
  | _ => for_each (helper_discard terminate_processes) (seq 0 RESOLVER_SUPERVISOR_HELPER_COUNT)
  end ;;
  when (negb (s_timer_fd s =? -1)) (close (s_timer_fd s)) ;;
  when (negb (s_epoll_fd s =? -1)) (close (s_epoll_fd s)) ;;
  s ← supervisor;
  lift (resolver_ipc_assembly_budget_destroy (s_assembly_budget s)) ;;
  on_supervisor (fun _ => supervisor_zero).

(** ** Interests *)

Definition interest_count (priority : resolver_supervisor_priority) (j : resolver_supervisor_job) : Z :=
  match priority with RESOLVER_SUPERVISOR_PRIORITY_INTERACTIVE => j_interactive_interest_count j | RESOLVER_SUPERVISOR_PRIORITY_BACKGROUND => j_background_interest_count j end.
Definition interest_add (priority : resolver_supervisor_priority) (n : Z) (j : resolver_supervisor_job) : resolver_supervisor_job :=
  match priority with
  | RESOLVER_SUPERVISOR_PRIORITY_INTERACTIVE => j <| j_interactive_interest_count ::= Z.add n |>
  | RESOLVER_SUPERVISOR_PRIORITY_BACKGROUND => j <| j_background_interest_count ::= Z.add n |>
  end.

(** The last interest is gone: whether the events of the helper, if any, were updated. *)
Definition uninteresting (job : Z) (sending_helper : option nat) : prog bool :=
  j ← job_get job;
  if bool_decide (j_state j = RESOLVER_SUPERVISOR_JOB_DISPATCHED) then
    job_set job (fun j => j <| j_orphaned := true |>) ;; resolver_supervisor_job_priority_downgrade job ;; mret true
  else
    updated ← match sending_helper with
    | None => mret true
    | Some helper_index =>
        helper_set helper_index (fun h => h <| h_job := None |> <| h_request_size := 0 |> <| h_state := RESOLVER_SUPERVISOR_HELPER_IDLE |>) ;;
        updated ← resolver_supervisor_helper_events_update (Z.to_nat (j_slot_index j));
        job_set job (fun j => j <| j_query_id := 0 |>) ;; mret updated
    end;
    resolver_supervisor_job_destroy (Some job) ;; mret updated.
Definition resolver_supervisor_entry_release (supervisor_ : bool) (entry : option Z) (now : option timespec) (priority : resolver_supervisor_priority)
    : prog resolver_supervisor_release_status :=
  s ← supervisor;
  match supervisor_, entry, now, s_shutting_down s with
  | true, Some _, Some t, false =>
      updated ← resolver_supervisor_time_update now;
      if negb updated then mret RESOLVER_SUPERVISOR_RELEASE_TIME else
      found ← resolver_supervisor_job_find entry;
      match found with
      | None => mret RESOLVER_SUPERVISOR_RELEASE_SATISFIED
      | Some job =>
          j ← job_get job;
          if bool_decide (j_state j = RESOLVER_SUPERVISOR_JOB_COMPLETE) then mret RESOLVER_SUPERVISOR_RELEASE_SATISFIED else
          if interest_count priority j =? 0 then mret RESOLVER_SUPERVISOR_RELEASE_BAD_ARGUMENT else
          s ← supervisor;
          let sending := bool_decide (j_state j = RESOLVER_SUPERVISOR_JOB_SENDING) in
          if sending && ((Z.of_nat RESOLVER_SUPERVISOR_HELPER_COUNT <=? j_slot_index j)
                         || negb (bool_decide (s_helpers s !! Z.to_nat (j_slot_index j) ≫= h_job = Some job)))
          then mret RESOLVER_SUPERVISOR_RELEASE_BAD_ARGUMENT else
          job_set job (interest_add priority (-1)) ;;
          j ← job_get job;
          events_updated ←
            (if (j_background_interest_count j =? 0) && (j_interactive_interest_count j =? 0)
             then uninteresting job (if sending then Some (Z.to_nat (j_slot_index j)) else None)
             else resolver_supervisor_job_priority_downgrade job ;; mret true);
          resolver_supervisor_dispatch t ;;
          timer_updated ← resolver_supervisor_timer_rearm;
          mret (if events_updated && timer_updated : bool then RESOLVER_SUPERVISOR_RELEASE_OK else RESOLVER_SUPERVISOR_RELEASE_IO)
      end
  | _, _, _, _ => mret RESOLVER_SUPERVISOR_RELEASE_BAD_ARGUMENT
  end.

(** Another interest in a job that exists. *)
Definition schedule_existing (entry : Z) (job : Z) (priority : resolver_supervisor_priority) : prog resolver_supervisor_schedule_status :=
  j ← job_get job;
  if bool_decide (j_state j = RESOLVER_SUPERVISOR_JOB_COMPLETE) then mret RESOLVER_SUPERVISOR_SCHEDULE_COMPLETE else
  if RESOLVER_SUPERVISOR_INTEREST_COUNT_LIMIT <=? interest_count priority j then
    query ← resolver_supervisor_metrics_query_type (Some entry);
    resolver_supervisor_metrics_increment (Schedule priority query limit_interest_count) ;; mret RESOLVER_SUPERVISOR_SCHEDULE_LIMIT
  else
    job_set job (fun j => interest_add priority 1 j <| j_orphaned := false |>) ;;
    match priority with
    | RESOLVER_SUPERVISOR_PRIORITY_INTERACTIVE => resolver_supervisor_job_priority_promote job
    | RESOLVER_SUPERVISOR_PRIORITY_BACKGROUND => mret ()
    end ;;
    mret RESOLVER_SUPERVISOR_SCHEDULE_COALESCED.

(** A new job for an entry. *)
Definition schedule_new (entry : Z) (now : timespec) (priority : resolver_supervisor_priority) : prog resolver_supervisor_schedule_status :=
  s ← supervisor;
  let admission_limit := match priority with
    | RESOLVER_SUPERVISOR_PRIORITY_INTERACTIVE => RESOLVER_SUPERVISOR_JOB_LIMIT
    | RESOLVER_SUPERVISOR_PRIORITY_BACKGROUND => RESOLVER_SUPERVISOR_JOB_LIMIT - RESOLVER_SUPERVISOR_INTERACTIVE_RESERVE end in
  if admission_limit <=? s_job_count s then
    query ← resolver_supervisor_metrics_query_type (Some entry);
    resolver_supervisor_metrics_increment (Schedule priority query
      match priority with RESOLVER_SUPERVISOR_PRIORITY_BACKGROUND => limit_background_admission | RESOLVER_SUPERVISOR_PRIORITY_INTERACTIVE => limit_total_admission end) ;;
    mret RESOLVER_SUPERVISOR_SCHEDULE_LIMIT
  else
  allocated ← alloc;
  if negb allocated then mret RESOLVER_SUPERVISOR_SCHEDULE_MEMORY else
  c ← read w_cache;
  '(c, retained) ← lift (resolver_cache_entry_retain c (Some entry));
  modify (fun w => w <| w_cache := c |>) ;;
  if negb retained then
    query ← resolver_supervisor_metrics_query_type (Some entry);
    resolver_supervisor_metrics_increment (Schedule priority query limit_entry_reference) ;; mret RESOLVER_SUPERVISOR_SCHEDULE_LIMIT
  else
  job ← fresh_address;
  bucket ← resolver_supervisor_job_bucket (Some entry);
  s ← supervisor; chain ← lift (s_buckets s !! bucket);
  on_supervisor (fun s => s
    <| s_jobs ::= <[job := job_zero <| j_entry := Some entry |>
         <| j_background_interest_count := match priority with RESOLVER_SUPERVISOR_PRIORITY_BACKGROUND => 1 | RESOLVER_SUPERVISOR_PRIORITY_INTERACTIVE => 0 end |>
         <| j_interactive_interest_count := match priority with RESOLVER_SUPERVISOR_PRIORITY_INTERACTIVE => 1 | RESOLVER_SUPERVISOR_PRIORITY_BACKGROUND => 0 end |>
         <| j_priority := priority |> <| j_dispatch_wait_at := now |> <| j_slot_index := SIZE_MAX |>]> |>
    <| s_buckets ::= <[bucket := job :: chain]> |> <| s_job_count ::= Z.succ |>) ;;
  s ← supervisor;
  on_metrics (fun m => m <| me_jobs_high_water ::= (fun high => metrics_high_water_update high (s_job_count s)) |>) ;;
  resolver_supervisor_job_queue_append job ;;
  resolver_supervisor_dispatch now ;;
  armed ← resolver_supervisor_timer_rearm;
  mret (if armed : bool then RESOLVER_SUPERVISOR_SCHEDULE_STARTED else RESOLVER_SUPERVISOR_SCHEDULE_IO).
Definition resolver_supervisor_entry_schedule_priority (supervisor_ : bool) (entry : option Z) (now : option timespec)
    (priority : resolver_supervisor_priority) : prog resolver_supervisor_schedule_status :=
  s ← supervisor;
  match supervisor_, entry, now, s_shutting_down s with
  | true, Some id, Some t, false =>
      updated ← resolver_supervisor_time_update now;
      if negb updated then mret RESOLVER_SUPERVISOR_SCHEDULE_TIME else
      c ← read w_cache;
      '(c, view) ← lift (resolver_cache_entry_view c entry now);
      modify (fun w => w <| w_cache := c |>) ;;
      match view with
      | None => mret RESOLVER_SUPERVISOR_SCHEDULE_BAD_ARGUMENT
      | Some view =>
          if negb (bool_decide (v_status view = RESOLVER_CACHE_VIEW_EMPTY)) then mret RESOLVER_SUPERVISOR_SCHEDULE_FRESH else
          existing ← resolver_supervisor_job_find entry;
          match existing with
          | Some job => schedule_existing id job priority
          | None => schedule_new id t priority
          end
      end
  | _, _, _, _ => mret RESOLVER_SUPERVISOR_SCHEDULE_BAD_ARGUMENT
  end.

(** ** Exported operations *)

Definition resolver_supervisor_completion_empty (completion : option resolver_supervisor_completion) : bool :=
  match completion with
  | None => false
  | Some c =>
      let r := co_response c in
      bool_decide (co_entry c = None) && bool_decide (co_publication c = RESOLVER_CACHE_PUBLISH_STORED) && negb (rt_budget r)
      && (tv_sec (rt_completed_at r) =? 0) && (tv_nsec (rt_completed_at r) =? 0) && (rt_dynamic_bytes r =? 0) && (rt_query_id r =? 0)
      && (rt_query_type r =? 0) && (rt_status r =? 0)
  end.
(** The completion afterwards. *)
Definition resolver_supervisor_completion_destroy (completion : option resolver_supervisor_completion) : prog (option resolver_supervisor_completion) :=
  match completion with
  | None => mret None
  | Some c => entry_release (co_entry c) ;; result_destroy (co_response c) ;; mret (Some completion_zero)
  end.
(** [None] for false, the completion being as it was. *)
Definition resolver_supervisor_completion_take (supervisor_ : bool) (completion : option resolver_supervisor_completion)
    : prog (option resolver_supervisor_completion) :=
  s ← supervisor;
  match s_completion_head s with
  | Some job =>
      if negb supervisor_ || negb (resolver_supervisor_completion_empty completion) then mret None else
      attempt_increment job completion_taken ;;
      resolver_supervisor_job_completion_remove job ;;
      resolver_supervisor_job_hash_remove job ;;
      j ← job_get job;
      on_supervisor (fun s => s <| s_job_count ::= (fun n => if 0 <? n then n - 1 else n) |> <| s_jobs ::= delete job |>) ;;
      mret (Some {| co_entry := j_entry j; co_publication := j_publication j; co_response := j_response j |})
  | None => mret None
  end.

(** The events of one helper that became ready. *)
Definition send_ready (helper_index : nat) (now : timespec) : prog unit :=
  status ← resolver_supervisor_helper_request_send helper_index now;
  match status with
  | RESOLVER_SUPERVISOR_SEND_TIME =>
      h ← helper_get helper_index; job ← lift (h_job h);
      request_abandon helper_index job ;;
      response ← failure_response job RESOLVER_IPC_LOOKUP_PERMANENT_ERROR;
      resolver_supervisor_job_complete job RESOLVER_CACHE_PUBLISH_TIME response
  | RESOLVER_SUPERVISOR_SEND_IO => resolver_supervisor_helper_fail helper_index RESOLVER_SUPERVISOR_HELPER_FAILURE_IO now
  | RESOLVER_SUPERVISOR_SEND_OK => mret ()
  end.
Definition has_events (events mask : Z) : bool := negb (Z.land events mask =? 0).
Definition helper_ready (helper_index : nat) (events : Z) (now : timespec) : prog unit :=
  h ← helper_get helper_index;
  when (has_events events EPOLLOUT && bool_decide (h_state h = RESOLVER_SUPERVISOR_HELPER_SENDING)) (send_ready helper_index now) ;;
  h ← helper_get helper_index;
  when (has_events events EPOLLIN && negb (h_fd h =? -1)) (resolver_supervisor_helper_drain helper_index now) ;;
  h ← helper_get helper_index;
  when (has_events events (Z.lor EPOLLERR (Z.lor EPOLLHUP EPOLLRDHUP)) && negb (h_fd h =? -1))
    (resolver_supervisor_helper_drain helper_index now ;;
     h ← helper_get helper_index;
     when (negb (h_fd h =? -1))
       (if bool_decide (h_state h = RESOLVER_SUPERVISOR_HELPER_SHUTTING_DOWN) then resolver_supervisor_helper_stop helper_index false
        else resolver_supervisor_helper_fail helper_index RESOLVER_SUPERVISOR_HELPER_FAILURE_EXIT now)).

(** The loop around [epoll_wait]: the tags and the events, or an error. *)
Fixpoint epoll_retry (waits : list (Z + list (Z * Z))) : (Z + list (Z * Z)) * list (Z + list (Z * Z)) :=
  match waits with
  | [] => (inr [], [])
  | inl errno :: waits => if errno =? EINTR then epoll_retry waits else (inl errno, waits)
  | inr events :: waits => (inr events, waits)
  end.
(** The events by helper and whether the timer is ready; [None] for an unknown tag. *)
Fixpoint events_sort (events : list (Z * Z)) (helper_events : list Z) (timer_ready : bool) : option (list Z * bool) :=
  match events with
  | [] => Some (helper_events, timer_ready)
  | (tag, mask) :: events =>
      if tag =? RESOLVER_SUPERVISOR_EVENT_TIMER then events_sort events helper_events true
      else if tag <=? Z.of_nat RESOLVER_SUPERVISOR_HELPER_COUNT then events_sort events (alter (Z.lor mask) (Z.to_nat (tag - 1)) helper_events) timer_ready
      else None
  end.
Definition resolver_supervisor_events_process (supervisor_ : bool) (now : option timespec) : prog resolver_supervisor_event_status :=
  match supervisor_, now with
  | true, Some t =>
      updated ← resolver_supervisor_time_update now;
      if negb updated then mret RESOLVER_SUPERVISOR_EVENT_TIME else
      k ← read w_kernel; let '(a, l) := epoll_retry (k_epoll_waits k) in
      on_kernel (fun k => k <| k_epoll_waits := l |>) ;;
      match a with
      | inl _ => mret RESOLVER_SUPERVISOR_EVENT_IO
      | inr events =>
          match events_sort events (replicate RESOLVER_SUPERVISOR_HELPER_COUNT 0) false with
          | None => mret RESOLVER_SUPERVISOR_EVENT_IO
          | Some (helper_events, timer_ready) =>
              for_each (fun helper_index => helper_ready helper_index (default 0 (helper_events !! helper_index)) t) (seq 0 RESOLVER_SUPERVISOR_HELPER_COUNT) ;;
              drained ← (if timer_ready : bool then resolver_supervisor_timer_drain else mret true);
              if negb drained then mret RESOLVER_SUPERVISOR_EVENT_IO else
              resolver_supervisor_timers_process_helpers t ;;
              resolver_supervisor_timers_process_jobs t ;;
              resolver_supervisor_dispatch t ;;
              armed ← resolver_supervisor_timer_rearm;
              mret (if armed : bool then RESOLVER_SUPERVISOR_EVENT_OK else RESOLVER_SUPERVISOR_EVENT_IO)
          end
      end
  | _, _ => mret RESOLVER_SUPERVISOR_EVENT_BAD_ARGUMENT
  end.

Definition resolver_supervisor_destroy (supervisor_ : bool) : prog unit := resolver_supervisor_resources_destroy supervisor_ true.
Definition resolver_supervisor_dispose_in_child (supervisor_ : bool) : prog unit := resolver_supervisor_resources_destroy supervisor_ false.

(** A descriptor of the supervisor's own, or -1. *)
Definition descriptor_create : prog Z :=
  created ← alloc; if negb created then mret (-1) else fd ← fresh_address; on_kernel (fun k => k <| k_open ::= ({[fd]} ∪.) |>) ;; mret fd.
(** The supervisor in the world afterwards; false for NULL.  The tests of the build's
    constants hold. *)
Definition resolver_supervisor_create (helper_signal_mask : bool) (now : option timespec) : prog bool :=
  match helper_signal_mask, now with
  | true, Some t =>
      if negb (timeutil_valid now) then mret false else
      allocated ← alloc;
      if negb allocated then mret false else
      budget ← alloc; buckets ← alloc; helpers ← alloc;
      epoll_fd ← descriptor_create; timer_fd ← descriptor_create;
      on_supervisor (fun _ => supervisor_zero <| s_next_query_id := 1 |> <| s_last_now := t |>
        <| s_assembly_budget := resolver_ipc_assembly_budget_create budget |>
        <| s_buckets := if buckets : bool then replicate (Z.to_nat RESOLVER_SUPERVISOR_JOB_LIMIT) [] else [] |>
        <| s_helpers := if helpers : bool then replicate RESOLVER_SUPERVISOR_HELPER_COUNT
             (helper_zero <| h_fd := -1 |> <| h_last_failed_process_id := -1 |> <| h_next_cycle_id := 1 |> <| h_process_id := -1 |>
                <| h_state := RESOLVER_SUPERVISOR_HELPER_STOPPED |>) else [] |>
        <| s_epoll_fd := epoll_fd |> <| s_timer_fd := timer_fd |>) ;;
      let failed := resolver_supervisor_destroy true ;; mret false in
      if negb budget || negb buckets || negb helpers || (epoll_fd =? -1) || (timer_fd =? -1) then failed else
      added ← epoll_set timer_fd EPOLLIN;
      if negb added then failed else
      for_each (fun helper_index => resolver_supervisor_helper_spawn helper_index t ;; mret ()) (seq 0 RESOLVER_SUPERVISOR_HELPER_COUNT) ;;
      armed ← resolver_supervisor_timer_rearm;
      if negb armed then failed else mret true
  | _, _ => mret false
  end.

Definition resolver_supervisor_entry_background_release (supervisor_ : bool) (entry : option Z) (now : option timespec) : prog resolver_supervisor_release_status :=
  resolver_supervisor_entry_release supervisor_ entry now RESOLVER_SUPERVISOR_PRIORITY_BACKGROUND.
Definition resolver_supervisor_entry_interactive_release (supervisor_ : bool) (entry : option Z) (now : option timespec) : prog resolver_supervisor_release_status :=
  resolver_supervisor_entry_release supervisor_ entry now RESOLVER_SUPERVISOR_PRIORITY_INTERACTIVE.
(** The call of [priority] with its record in the metrics. *)
Definition schedule_recorded (supervisor_ : bool) (entry : option Z) (now : option timespec) (priority : resolver_supervisor_priority)
    : prog resolver_supervisor_schedule_status :=
  status ← resolver_supervisor_entry_schedule_priority supervisor_ entry now priority;
  when supervisor_ (resolver_supervisor_metrics_schedule_record entry priority status) ;; mret status.
Definition resolver_supervisor_entry_schedule (supervisor_ : bool) (entry : option Z) (now : option timespec) : prog resolver_supervisor_schedule_status :=
  schedule_recorded supervisor_ entry now RESOLVER_SUPERVISOR_PRIORITY_BACKGROUND.
Definition resolver_supervisor_entry_schedule_interactive (supervisor_ : bool) (entry : option Z) (now : option timespec)
    : prog resolver_supervisor_schedule_status :=
  schedule_recorded supervisor_ entry now RESOLVER_SUPERVISOR_PRIORITY_INTERACTIVE.

Definition resolver_supervisor_event_fd (s : option resolver_supervisor) : Z := match s with None => -1 | Some s => s_epoll_fd s end.
Definition resolver_supervisor_metrics_assembly_get (s : option resolver_supervisor) (result : bool) : option resolver_ipc_assembly_metrics_snapshot :=
  s ← s; resolver_ipc_assembly_metrics_get (s_assembly_budget s) result.

Record resolver_supervisor_metrics_snapshot := {
  sn_counter : supervisor_counter -> Z; sn_attempt_duration : metrics_query_type -> metrics_histogram_snapshot;
  sn_dispatch_wait : resolver_supervisor_priority -> metrics_query_type -> metrics_histogram_snapshot;
  sn_interests_current : resolver_supervisor_priority -> Z; sn_jobs_current : Z; sn_jobs_high_water : Z;
  sn_jobs_priority_current : resolver_supervisor_priority -> Z; sn_jobs_state_current : resolver_supervisor_job_state -> Z;
  sn_orphaned_dispatched_current : Z; sn_queue_current : resolver_supervisor_priority -> Z; sn_queue_high_water : resolver_supervisor_priority -> Z;
  sn_saturation_total : Z;
}.
#[export] Instance snapshot_settable : Settable resolver_supervisor_metrics_snapshot := fun n => {|
  sn_counter := sn_counter n; sn_attempt_duration := sn_attempt_duration n; sn_dispatch_wait := sn_dispatch_wait n;
  sn_interests_current := sn_interests_current n; sn_jobs_current := sn_jobs_current n; sn_jobs_high_water := sn_jobs_high_water n;
  sn_jobs_priority_current := sn_jobs_priority_current n; sn_jobs_state_current := sn_jobs_state_current n;
  sn_orphaned_dispatched_current := sn_orphaned_dispatched_current n; sn_queue_current := sn_queue_current n;
  sn_queue_high_water := sn_queue_high_water n; sn_saturation_total := sn_saturation_total n |}.
(** [f[x] += 1] on counters of 64 bits. *)
Definition bump {A} `{EqDecision A} (x : A) (f : A -> Z) (y : A) : Z := if bool_decide (y = x) then u64 (f y + 1) else f y.
Definition snapshot_job (n : resolver_supervisor_metrics_snapshot) (query : metrics_query_type) (j : resolver_supervisor_job)
    : resolver_supervisor_metrics_snapshot :=
  let n := n <| sn_jobs_priority_current ::= bump (j_priority j) |> <| sn_jobs_state_current ::= bump (j_state j) |>
             <| sn_interests_current := fun p => resolver_supervisor_metrics_gauge_add (sn_interests_current n p) (interest_count p j) |> in
  match query, j_state j with
  | METRICS_QUERY_TYPE_OTHER, _ => n
  | _, RESOLVER_SUPERVISOR_JOB_DISPATCHED =>
      n <| sn_counter ::= bump (Attempt query jobs_dispatched_current) |>
        <| sn_orphaned_dispatched_current ::= (fun c => if j_orphaned j then u64 (c + 1) else c) |>
  | _, RESOLVER_SUPERVISOR_JOB_COMPLETE => n <| sn_counter ::= bump (Attempt query jobs_complete_current) |>
  | _, _ => n
  end.
Fixpoint snapshot_jobs (chain : list Z) (n : resolver_supervisor_metrics_snapshot) : prog resolver_supervisor_metrics_snapshot :=
  match chain with
  | [] => mret n
  | job :: chain => j ← job_get job; query ← resolver_supervisor_metrics_query_type (j_entry j); snapshot_jobs chain (snapshot_job n query j)
  end.
Definition resolver_supervisor_metrics_get (supervisor_ result : bool) : prog (option resolver_supervisor_metrics_snapshot) :=
  if negb supervisor_ || negb result then mret None else
  s ← supervisor; let m := s_metrics s in
  n ← snapshot_jobs (concat (s_buckets s))
    {| sn_counter := fold_left (fun f h => bump (HelperPool (state_current (h_state h))) f) (s_helpers s) (me_counter m);
       sn_attempt_duration := fun q => metrics_duration_histogram_get (me_attempt_duration m q);
       sn_dispatch_wait := fun p q => metrics_duration_histogram_get (me_dispatch_wait m p q);
       sn_interests_current := fun _ => 0; sn_jobs_current := s_job_count s; sn_jobs_high_water := me_jobs_high_water m;
       sn_jobs_priority_current := fun _ => 0; sn_jobs_state_current := fun _ => 0; sn_orphaned_dispatched_current := 0;
       sn_queue_current := fun p => qu_count (resolver_supervisor_job_queue_select s p); sn_queue_high_water := me_queue_high_water m;
       sn_saturation_total := me_saturation_total m |};
  mret (Some n).

Definition resolver_supervisor_observation_dropped (s : option resolver_supervisor) : Z :=
  match s with None => 0 | Some s => me_counter (s_metrics s) (HelperPool observation_dropped) end.
Definition resolver_supervisor_observation_take (supervisor_ result : bool) : prog (option resolver_supervisor_observation) :=
  s ← supervisor;
  if negb supervisor_ || negb result || (s_observation_count s =? 0) then mret None else
  slot ← lift (s_observations s !! Z.to_nat (s_observation_head s));
  on_supervisor (fun s => s <| s_observations ::= <[Z.to_nat (s_observation_head s) := None]> |>
    <| s_observation_head := (s_observation_head s + 1) mod RESOLVER_SUPERVISOR_OBSERVATION_CAPACITY |> <| s_observation_count ::= Z.pred |>) ;;
  mret slot.

Definition helper_shutdown (now : timespec) (helper_index : nat) : prog unit :=
  h ← helper_get helper_index;
  if (h_fd h =? -1) || (h_process_id h <=? 0) then helper_set helper_index (fun h => h <| h_state := RESOLVER_SUPERVISOR_HELPER_STOPPED |>) else
  resolver_supervisor_process_terminate (h_process_id h) SIGTERM ;;
  helper_set helper_index (fun h => h <| h_state := RESOLVER_SUPERVISOR_HELPER_SHUTTING_DOWN |>
    <| h_next_event_at := default now (timeutil_add_milliseconds (Some now) RESOLVER_SUPERVISOR_SHUTDOWN_GRACE_MS) |>).
Definition resolver_supervisor_shutdown (supervisor_ : bool) (now : option timespec) : prog bool :=
  match supervisor_, now with
  | true, Some t =>
      updated ← resolver_supervisor_time_update now;
      if negb updated then mret false else
      s ← supervisor;
      if s_shutting_down s then mret true else
      on_supervisor (fun s => s <| s_shutting_down := true |>) ;;
      resolver_supervisor_jobs_destroy_all ;;
      for_each (helper_shutdown t) (seq 0 RESOLVER_SUPERVISOR_HELPER_COUNT) ;;
      resolver_supervisor_timer_rearm
  | _, _ => mret false
  end.
Definition resolver_supervisor_shutdown_complete (s : option resolver_supervisor) : bool :=
  match s with
  | None => false
  | Some s => s_shutting_down s && forallb (fun h => bool_decide (h_state h = RESOLVER_SUPERVISOR_HELPER_STOPPED)) (s_helpers s)
  end.
