(* ===== verification/SupervisorDelay.v ===== *)
(** * The delays of the supervisor

    The delay before a query is tried again and before a helper is started again: each
    doubles from one failure to the next up to a limit, then spread by at most a fifth. *)

From S2P Require Import Prelude Stateful TimeUtil Supervisor.
#[local] Open Scope Z_scope.

Lemma delay_double_spec fuel index count delay maximum : 0 < delay <= maximum -> index <= count -> maximum < delay * 2 ^ Z.of_nat fuel ->
  delay_double fuel index count delay maximum = Z.min maximum (delay * 2 ^ (count - index)).
Proof.
  revert index delay. induction fuel as [|fuel IH]; intros index delay Hd Hi Hf; [change (2 ^ Z.of_nat 0) with 1 in Hf; lia|].
  assert (Hp : 0 < 2 ^ (count - index)) by lia. cbn [delay_double]. if_as E.
  - assert (E2 : 2 ^ (count - index) = 2 * 2 ^ (count - (index + 1))).
    { replace (count - index) with (Z.succ (count - (index + 1))) by lia. apply Z.pow_succ_r. lia. }
    assert (Hp' : 0 < 2 ^ (count - (index + 1))) by lia. if_as E1.
    + assert (maximum < delay * 2) by (pose proof (Z.div_mod maximum 2 ltac:(lia)); pose proof (Z.mod_pos_bound maximum 2 ltac:(lia)); lia). nia.
    + rewrite IH; [rewrite E2; f_equal; lia| |lia|].
      * pose proof (Z.div_mod maximum 2 ltac:(lia)). pose proof (Z.mod_pos_bound maximum 2 ltac:(lia)). lia.
      * rewrite Nat2Z.inj_succ, Z.pow_succ_r in Hf by lia. lia.
  - destruct (Z.eq_dec count index) as [->|Hne]; [rewrite Z.sub_diag; lia|]. assert (delay = maximum) as -> by lia. nia.
Qed.

Lemma query_base_spec n : 0 < n -> resolver_supervisor_delay_query_base n = Z.min RESOLVER_SUPERVISOR_QUERY_RETRY_MAX_MS (RESOLVER_SUPERVISOR_QUERY_RETRY_INITIAL_MS * 2 ^ (n - 1)).
Proof.
  intros Hn. unfold resolver_supervisor_delay_query_base, RESOLVER_SUPERVISOR_QUERY_RETRY_MAX_MS, RESOLVER_SUPERVISOR_QUERY_RETRY_INITIAL_MS. replace (n =? 0) with false by lia.
  rewrite delay_double_spec by lia. if_as E; lia.
Qed.
Lemma respawn_base_spec n : 1 < n -> resolver_supervisor_delay_respawn_base n = Z.min RESOLVER_SUPERVISOR_RESPAWN_MAX_MS (RESOLVER_SUPERVISOR_RESPAWN_INITIAL_MS * 2 ^ (n - 2)).
Proof.
  intros Hn. unfold resolver_supervisor_delay_respawn_base, RESOLVER_SUPERVISOR_RESPAWN_MAX_MS, RESOLVER_SUPERVISOR_RESPAWN_INITIAL_MS. replace (n <=? 1) with false by lia.
  rewrite delay_double_spec by lia. if_as E; lia.
Qed.

Lemma jitter_spec base maximum domain identity attempt : 0 <= base <= 1000000 -> 0 <= maximum ->
  exists percentage, -20 <= percentage <= 20 /\
    resolver_supervisor_delay_jitter base maximum domain identity attempt = Z.min maximum (base * (100 + percentage) / 100).
Proof.
  intros Hb Hm. unfold resolver_supervisor_delay_jitter, RESOLVER_SUPERVISOR_JITTER_PERCENT. cbv zeta.
  set (hash := resolver_supervisor_hash_u64 _ attempt). exists (hash mod (20 * 2 + 1) - 20).
  assert (Hp : -20 <= hash mod (20 * 2 + 1) - 20 <= 20) by (pose proof (Z.mod_pos_bound hash 41 ltac:(lia)); change (20 * 2 + 1) with 41; lia).
  split; [done|]. set (q := hash mod (20 * 2 + 1) - 20) in *. rewrite u64_id by lia. replace (100 + q =? 0) with false by lia.
  assert (Hd : 1000000 < UINT64_MAX / (100 + q)).
  { apply Z.lt_le_trans with (UINT64_MAX / 120); [done|]. apply Z.div_le_compat_l; unfold UINT64_MAX; lia. }
  replace (UINT64_MAX / (100 + q) <? base) with false by lia. if_as E; lia.
Qed.

Lemma jitter_range base maximum domain identity attempt : 0 <= base <= 1000000 -> 0 <= maximum <= 1000000 ->
  0 <= resolver_supervisor_delay_jitter base maximum domain identity attempt < 2 ^ 64.
Proof.
  intros Hb Hm. destruct (jitter_spec base maximum domain identity attempt) as (q & Hq & ->); [lia|lia|].
  assert (0 <= base * (100 + q) / 100) by (apply Z.div_pos; nia). lia.
Qed.
Lemma query_base_range n : 0 <= n -> 0 <= resolver_supervisor_delay_query_base n <= 1000000.
Proof.
  intros Hn. destruct (Z.eq_dec n 0) as [->|Hz]; [by cbn|]. rewrite query_base_spec by lia. unfold RESOLVER_SUPERVISOR_QUERY_RETRY_MAX_MS, RESOLVER_SUPERVISOR_QUERY_RETRY_INITIAL_MS.
  assert (0 < 2 ^ (n - 1)) by lia. lia.
Qed.
Lemma respawn_base_range n : 0 <= resolver_supervisor_delay_respawn_base n <= 1000000.
Proof.
  destruct (Z_le_gt_dec n 1) as [H|H]; [unfold resolver_supervisor_delay_respawn_base; by replace (n <=? 1) with true by lia|].
  rewrite respawn_base_spec by lia. unfold RESOLVER_SUPERVISOR_RESPAWN_MAX_MS, RESOLVER_SUPERVISOR_RESPAWN_INITIAL_MS. assert (0 < 2 ^ (n - 2)) by lia. lia.
Qed.

(** The time of a retry. *)
Definition retry_delay (identity n : Z) : Z :=
  resolver_supervisor_delay_jitter (resolver_supervisor_delay_query_base n) RESOLVER_SUPERVISOR_QUERY_RETRY_MAX_MS RESOLVER_SUPERVISOR_JITTER_QUERY_DOMAIN identity n.
Definition respawn_delay (identity n : Z) : Z :=
  resolver_supervisor_delay_jitter (resolver_supervisor_delay_respawn_base n) RESOLVER_SUPERVISOR_RESPAWN_MAX_MS RESOLVER_SUPERVISOR_JITTER_RESPAWN_DOMAIN identity n.

(** C31: the delays before a query is repeated and a helper restarted.  The base of the
    n-th retry is one second doubled n - 1 times, at most a minute; the first restart is
    immediate and the base of the n-th is 100 milliseconds doubled n - 2 times, at most
    half a minute.  The delay used lies within a fifth of the base and never above the
    limit, for every entry, helper and count; in particular it never overflows and never
    vanishes for a repeated failure. *)
Theorem backoff_delays (identity n : Z) : 0 < n ->
  resolver_supervisor_delay_query_base n = Z.min 60000 (1000 * 2 ^ (n - 1)) /\
  resolver_supervisor_delay_respawn_base n = (if n =? 1 then 0 else Z.min 30000 (100 * 2 ^ (n - 2))) /\
  (let base := resolver_supervisor_delay_query_base n in base * 80 / 100 <= retry_delay identity n <= Z.min 60000 (base * 120 / 100)) /\
  (let base := resolver_supervisor_delay_respawn_base n in base * 80 / 100 <= respawn_delay identity n <= Z.min 30000 (base * 120 / 100)).
Proof.
  intros Hn. split; [by apply query_base_spec|]. split.
  { if_as E; [unfold resolver_supervisor_delay_respawn_base; by replace (n <=? 1) with true by lia|]. apply respawn_base_spec. lia. }
  assert (Hj : forall base maximum domain, 0 <= base <= maximum -> maximum <= 60000 ->
    base * 80 / 100 <= resolver_supervisor_delay_jitter base maximum domain identity n <= Z.min maximum (base * 120 / 100)).
  { intros base maximum domain Hb Hm. destruct (jitter_spec base maximum domain identity n) as (q & Hq & ->); [lia|lia|].
    assert (base * 80 / 100 <= base * (100 + q) / 100) by (apply Z.div_le_mono; nia).
    assert (base * (100 + q) / 100 <= base * 120 / 100) by (apply Z.div_le_mono; nia).
    assert (base * 80 / 100 <= base) by (apply Z.div_le_upper_bound; lia). lia. }
  split; cbv zeta; [unfold retry_delay; change 60000 with RESOLVER_SUPERVISOR_QUERY_RETRY_MAX_MS|unfold respawn_delay; change 30000 with RESOLVER_SUPERVISOR_RESPAWN_MAX_MS];
    (apply Hj; [|done]).
  - rewrite query_base_spec by lia. unfold RESOLVER_SUPERVISOR_QUERY_RETRY_MAX_MS, RESOLVER_SUPERVISOR_QUERY_RETRY_INITIAL_MS. assert (0 < 2 ^ (n - 1)) by lia. lia.
  - destruct (Z.eq_dec n 1) as [->|Hne]; [by cbn|]. rewrite respawn_base_spec by lia.
    unfold RESOLVER_SUPERVISOR_RESPAWN_MAX_MS, RESOLVER_SUPERVISOR_RESPAWN_INITIAL_MS. assert (0 < 2 ^ (n - 2)) by lia. lia.
Qed.

Lemma backoff_delays_witness : resolver_supervisor_delay_query_base 7 = 60000 /\ 640 <= respawn_delay 1 5 <= 960.
Proof.
  split; [exact (proj1 (backoff_delays 1 7 ltac:(done)))|]. pose proof (proj2 (proj2 (proj2 (backoff_delays 1 5 ltac:(done))))) as H. exact H.
Defined.
