(* ===== verification/SupervisorInv.v ===== *)
(** * The invariant of the supervisor

    What holds of the structures of [Supervisor] between its operations, whatever the
    kernel and the allocator answer: the lists of the jobs, the hash table, the references
    to cache entries, the reply assemblies, the helpers with their descriptors, and the
    interests in the jobs fit together.  The operations are shown to keep it, which
    includes that they make no memory error and that their loops end.

    Inside an operation a job may be in hand (in no list and with no helper), a helper may
    be between two states, and references and charges may be held by the caller; the ghost
    state says so. *)

From S2P Require Import Prelude Stateful Dll TimeUtil Metrics ResolverUtil Cache Ipc IpcAssembly Helper Supervisor.
From stdpp Require Import gmap.
#[local] Open Scope Z_scope.
#[local] Abbreviation prog := (prog world).
#[export] Abbreviation job := resolver_supervisor_job.
#[export] Abbreviation helper := resolver_supervisor_helper.
#[export] Abbreviation jobs_map := (gmap Z resolver_supervisor_job).

(** ** The ghost state *)

Record ghost := {
  g_queue : resolver_supervisor_priority -> list Z; (* the queues *)
  g_done : list Z; (* the completions *)
  g_hand : option Z; (* the job in hand *)
  g_loose : nat -> bool; (* helpers between two states *)
  g_stray : list Z; (* assemblies no job has yet *)
  g_charges : list Z; (* the budget charged for responses held by callers *)
  g_refs : list Z; (* references to entries held by callers *)
  g_unsettled : option Z; (* a job whose interests are being changed *)
  g_phase : bool; (* the helpers are being shut down *)
}.
#[export] Instance ghost_settable : Settable ghost := fun g => {|
  g_queue := g_queue g; g_done := g_done g; g_hand := g_hand g; g_loose := g_loose g; g_stray := g_stray g; g_charges := g_charges g;
  g_refs := g_refs g; g_unsettled := g_unsettled g; g_phase := g_phase g |}.

(** ** The parts of the invariant *)

Definition queue_links (jobs : jobs_map) : links := (fun j => (j_queue_previous j, j_queue_next j)) <$> jobs.
Definition completion_links (jobs : jobs_map) : links := (fun j => (j_completion_previous j, j_completion_next j)) <$> jobs.

(** A queued job is in the queue of its priority, the others are unlinked. *)
Record queues_ok (hand : option Z) (queue : resolver_supervisor_priority -> list Z) (jobs : jobs_map)
    (select : resolver_supervisor_priority -> resolver_supervisor_job_queue) : Prop := {
  qo_dll : forall pr, dll (queue_links jobs) (qu_head (select pr)) (qu_tail (select pr)) (queue pr);
  qo_count : forall pr, qu_count (select pr) = len (queue pr);
  qo_place : forall p j, jobs !! p = Some j -> hand <> Some p ->
    (forall pr, p ∈ queue pr <-> j_state j = RESOLVER_SUPERVISOR_JOB_QUEUED /\ j_priority j = pr) /\
    (j_state j <> RESOLVER_SUPERVISOR_JOB_QUEUED -> j_queue_previous j = None /\ j_queue_next j = None);
  qo_hand : forall p j, jobs !! p = Some j -> hand = Some p ->
    (forall pr, p ∉ queue pr) /\ j_queue_previous j = None /\ j_queue_next j = None;
}.

Record completions_ok (hand : option Z) (completed : list Z) (jobs : jobs_map) (head tail : option Z) : Prop := {
  co_dll : dll (completion_links jobs) head tail completed;
  co_place : forall p j, jobs !! p = Some j -> hand <> Some p ->
    (p ∈ completed <-> j_state j = RESOLVER_SUPERVISOR_JOB_COMPLETE) /\
    (j_state j <> RESOLVER_SUPERVISOR_JOB_COMPLETE -> j_completion_previous j = None /\ j_completion_next j = None);
  co_hand : forall p j, jobs !! p = Some j -> hand = Some p -> (p ∉ completed) /\ j_completion_previous j = None /\ j_completion_next j = None;
}.

(** The hash table holds every job once, by the id of its entry; no two jobs have one. *)
Definition bucket_of (id : Z) : nat := Z.to_nat (id mod RESOLVER_SUPERVISOR_JOB_LIMIT).
Record table_holds (entries : gmap Z (option Z)) (buckets : list (list Z)) : Prop := {
  th_length : length buckets = Z.to_nat RESOLVER_SUPERVISOR_JOB_LIMIT;
  th_nodup : NoDup (concat buckets);
  th_place : forall i chain p, buckets !! i = Some chain -> p ∈ chain <-> exists id, entries !! p = Some (Some id) /\ i = bucket_of id;
  th_entry : forall p o, entries !! p = Some o -> exists id, o = Some id;
  th_unique : forall p q id, entries !! p = Some (Some id) -> entries !! q = Some (Some id) -> p = q;
}.

(** The references [l] are held in the cache, and no others. *)
Definition references_of (c : resolver_cache) (id : Z) : Z := match entry_get c id with Some e => e_reference_count e | None => 0 end.
Definition holds (c : resolver_cache) (l : list Z) : Prop := cache_ok c /\ forall id, references_of c id = Z.of_nat (count_occ Z.eq_dec l id).
Definition job_refs (entries : gmap Z (option Z)) : list Z := omap snd (map_to_list entries).

(** The budget: exactly the assemblies of the jobs are live, exactly the responses of the
    jobs and of the callers are charged. *)
Definition charge (r : resolver_ipc_assembly_result) : list Z := if rt_budget r then [rt_dynamic_bytes r] else [].
Definition job_handles (owned : gmap Z (option Z * resolver_ipc_assembly_result)) : list Z := omap (fun kv => kv.2.1) (map_to_list owned).
Definition job_charges (owned : gmap Z (option Z * resolver_ipc_assembly_result)) : list Z := concat ((fun kv => charge kv.2.2) <$> map_to_list owned).
Definition budget_holds (stray charges : list Z) (owned : gmap Z (option Z * resolver_ipc_assembly_result))
    (budget : option resolver_ipc_assembly_budget) (next : Z) : Prop :=
  exists b taken, budget = Some b /\ budget_ok b taken /\ rt_dynamic_bytes <$> taken ≡ₚ charges ++ job_charges owned /\
    as_handle <$> bu_assemblies b ≡ₚ stray ++ job_handles owned /\ Forall (fun h => h < next) (as_handle <$> bu_assemblies b).

(** The descriptors of the supervisor, all open, and no others. *)
Definition helper_fds (helpers : list helper) : list Z := omap (fun h => if h_fd h =? -1 then None else Some (h_fd h)) helpers.
Record descriptors_ok (epoll_fd timer_fd : Z) (helpers : list helper) (k : kernel) : Prop := {
  do_nodup : NoDup (epoll_fd :: timer_fd :: helper_fds helpers);
  do_open : k_open k = list_to_set (epoll_fd :: timer_fd :: helper_fds helpers);
  do_range : Forall (fun fd => 0 <= fd < k_next k) (epoll_fd :: timer_fd :: helper_fds helpers);
  do_process : forall i h, helpers !! i = Some h -> h_fd h <> -1 -> 0 < h_process_id h;
}.

(** A helper that is not between two states. *)
Definition at_helper (hand : option Z) (jobs : jobs_map) (helper_index : nat) (h : helper) (state : resolver_supervisor_job_state) : Prop :=
  exists p j, h_job h = Some p /\ hand <> Some p /\ jobs !! p = Some j /\ j_state j = state /\ j_slot_index j = Z.of_nat helper_index.
Definition helper_fits (phase : bool) (hand : option Z) (jobs : jobs_map) (helper_index : nat) (h : helper) : Prop :=
  match h_state h with
  | RESOLVER_SUPERVISOR_HELPER_IDLE => h_job h = None /\ h_fd h <> -1 /\ phase = false
  | RESOLVER_SUPERVISOR_HELPER_SENDING => at_helper hand jobs helper_index h RESOLVER_SUPERVISOR_JOB_SENDING /\ h_fd h <> -1 /\ phase = false
  | RESOLVER_SUPERVISOR_HELPER_BUSY => at_helper hand jobs helper_index h RESOLVER_SUPERVISOR_JOB_DISPATCHED /\ h_fd h <> -1 /\ phase = false
  | RESOLVER_SUPERVISOR_HELPER_BACKOFF => h_job h = None /\ h_fd h = -1 /\ phase = false
  | RESOLVER_SUPERVISOR_HELPER_SHUTTING_DOWN => h_job h = None /\ h_fd h <> -1 /\ phase = true
  | RESOLVER_SUPERVISOR_HELPER_STOPPED => h_job h = None /\ h_fd h = -1 /\ phase = true
  end.
Definition with_helper (state : resolver_supervisor_job_state) : bool :=
  match state with RESOLVER_SUPERVISOR_JOB_SENDING | RESOLVER_SUPERVISOR_JOB_DISPATCHED => true | _ => false end.

Record helpers_ok (phase : bool) (hand : option Z) (loose : nat -> bool) (jobs : jobs_map) (helpers : list helper) : Prop := {
  ho_length : length helpers = RESOLVER_SUPERVISOR_HELPER_COUNT;
  ho_fits : forall i h, helpers !! i = Some h -> loose i = false -> helper_fits phase hand jobs i h;
  ho_loose : forall i h, helpers !! i = Some h -> loose i = true -> h_job h = None \/ h_job h = hand;
  ho_jobs : forall p j, jobs !! p = Some j -> hand <> Some p -> with_helper (j_state j) = true ->
    exists i h, helpers !! i = Some h /\ loose i = false /\ j_slot_index j = Z.of_nat i /\ h_job h = Some p;
  ho_assembly : forall p j, jobs !! p = Some j -> hand <> Some p -> is_Some (j_assembly j) <-> with_helper (j_state j) = true;
}.

(** The interests in a job decide its priority; a job without any is an orphan, which only
    a dispatched job can be. *)
Definition interests_ok (j : job) : Prop :=
  0 <= j_background_interest_count j <= SIZE_MAX /\ 0 <= j_interactive_interest_count j <= SIZE_MAX.
Definition settled (j : job) : Prop :=
  if bool_decide (j_state j = RESOLVER_SUPERVISOR_JOB_COMPLETE)
  then j_background_interest_count j = 0 /\ j_interactive_interest_count j = 0 /\ j_orphaned j = false
  else (j_priority j = RESOLVER_SUPERVISOR_PRIORITY_INTERACTIVE <-> 0 < j_interactive_interest_count j) /\
    (j_orphaned j = true <-> j_background_interest_count j = 0 /\ j_interactive_interest_count j = 0) /\
    (j_orphaned j = true -> j_state j = RESOLVER_SUPERVISOR_JOB_DISPATCHED).

Definition job_times (j : job) : Prop := valid (j_deadline j) /\ valid (j_dispatched_at j) /\ valid (j_retry_at j) /\ 0 <= j_retry_count j.
Definition response_kept (j : job) : Prop := j_state j <> RESOLVER_SUPERVISOR_JOB_COMPLETE -> rt_budget (j_response j) = false.

(** A helper waits for a valid time, and one that is sending for its socket. *)
Definition registered_ok (loose : bool) (h : helper) (registered : gmap Z Z) : Prop := h_fd h <> -1 ->
  exists mask, registered !! h_fd h = Some mask /\ Z.testbit mask 0 = true /\
    (loose = false -> h_state h = RESOLVER_SUPERVISOR_HELPER_SENDING -> Z.testbit mask 2 = true).

Definition received_bytes (a : recv_answer) : Prop := match a with Received record => is_bytes record | RecvFailed _ => True end.
Definition started_process (a : option Z) : Prop := match a with Some process_id => 0 < process_id | None => True end.

Record inv (g : ghost) (w : world) : Prop := {
  i_queues : queues_ok (g_hand g) (g_queue g) (s_jobs (w_supervisor w)) (resolver_supervisor_job_queue_select (w_supervisor w));
  i_done : completions_ok (g_hand g) (g_done g) (s_jobs (w_supervisor w)) (s_completion_head (w_supervisor w)) (s_completion_tail (w_supervisor w));
  i_table : table_holds (j_entry <$> s_jobs (w_supervisor w)) (s_buckets (w_supervisor w));
  i_refs : holds (w_cache w) (g_refs g ++ job_refs (j_entry <$> s_jobs (w_supervisor w)));
  i_budget : budget_holds (g_stray g) (g_charges g) ((fun j => (j_assembly j, j_response j)) <$> s_jobs (w_supervisor w))
    (s_assembly_budget (w_supervisor w)) (k_next (w_kernel w));
  i_descriptors : descriptors_ok (s_epoll_fd (w_supervisor w)) (s_timer_fd (w_supervisor w)) (s_helpers (w_supervisor w)) (w_kernel w);
  i_helpers : helpers_ok (g_phase g) (g_hand g) (g_loose g) (s_jobs (w_supervisor w)) (s_helpers (w_supervisor w));
  i_registered : forall i h, s_helpers (w_supervisor w) !! i = Some h -> registered_ok (g_loose g i) h (k_registered (w_kernel w));
  i_interests : forall p j, s_jobs (w_supervisor w) !! p = Some j -> interests_ok j /\ (g_unsettled g <> Some p -> settled j);
  i_responses : forall p j, s_jobs (w_supervisor w) !! p = Some j -> response_kept j;
  i_times : valid (s_last_now (w_supervisor w)) /\ (forall p j, s_jobs (w_supervisor w) !! p = Some j -> job_times j) /\
    (forall i h, s_helpers (w_supervisor w) !! i = Some h -> valid (h_next_event_at h) /\ 0 <= h_failure_count h);
  i_hand : forall p, g_hand g = Some p -> is_Some (s_jobs (w_supervisor w) !! p);
  i_addresses : forall p, is_Some (s_jobs (w_supervisor w) !! p) -> p < k_next (w_kernel w);
  i_count : s_job_count (w_supervisor w) = Z.of_nat (size (s_jobs (w_supervisor w))) /\ s_job_count (w_supervisor w) <= RESOLVER_SUPERVISOR_JOB_LIMIT;
  i_query_id : 0 <= s_next_query_id (w_supervisor w) < 2 ^ 64;
  i_ring : len (s_observations (w_supervisor w)) = RESOLVER_SUPERVISOR_OBSERVATION_CAPACITY /\
    0 <= s_observation_head (w_supervisor w) < RESOLVER_SUPERVISOR_OBSERVATION_CAPACITY /\
    0 <= s_observation_count (w_supervisor w) <= RESOLVER_SUPERVISOR_OBSERVATION_CAPACITY;
  i_kernel : Forall received_bytes (k_recvs (w_kernel w)) /\ Forall started_process (k_starts (w_kernel w));
}.

(** ** Steps of programs *)

Definition put_job (p : Z) (j : job) (w : world) : world := w <| w_supervisor ::= (fun s => s <| s_jobs ::= <[p := j]> |>) |>.
Definition put_helper (i : nat) (h : helper) (w : world) : world := w <| w_supervisor ::= (fun s => s <| s_helpers ::= <[i := h]> |>) |>.
#[export] Abbreviation jobs_of w := (s_jobs (w_supervisor w)).
#[export] Abbreviation helpers_of w := (s_helpers (w_supervisor w)).

Ltac step :=
  match goal with
  | |- wp supervisor _ _ => apply (wp_read w_supervisor)
  | |- wp (on_supervisor ?f) _ _ => apply (wp_modify (fun w => w <| w_supervisor ::= f |>))
  | |- wp (on_kernel ?f) _ _ => apply (wp_modify (fun w => w <| w_kernel ::= f |>))
  | |- wp (on_metrics ?f) _ _ => unfold on_metrics
  | |- wp (if ?b then _ else _) _ _ => let E := fresh "E" in destruct b eqn:E
  | |- wp (let '(_, _) := ?p in _) _ _ => destruct p
  | _ => wp_step
  end; cbv beta.
Ltac steps := repeat step.

Lemma wp_job_get p j (Q : job -> world -> Prop) w : jobs_of w !! p = Some j -> Q j w -> wp (job_get p) Q w.
Proof. intros H HQ. unfold job_get. steps. by eapply wp_lift. Qed.
Lemma wp_job_set p j f (Q : () -> world -> Prop) w : jobs_of w !! p = Some j -> Q () (put_job p (f j) w) -> wp (job_set p f) Q w.
Proof. intros H HQ. unfold job_set. step. by eapply wp_job_get. Qed.
Lemma wp_helper_get i h (Q : helper -> world -> Prop) w : helpers_of w !! i = Some h -> Q h w -> wp (helper_get i) Q w.
Proof. intros H HQ. unfold helper_get. steps. by eapply wp_lift. Qed.
Lemma wp_helper_set i h f (Q : () -> world -> Prop) w : helpers_of w !! i = Some h -> Q () (put_helper i (f h) w) -> wp (helper_set i f) Q w.
Proof. intros H HQ. unfold helper_set. step. by eapply wp_helper_get. Qed.
Lemma wp_entry_read id e (Q : option resolver_cache_entry -> world -> Prop) w : entry_get (w_cache w) id = Some e -> Q (Some e) w -> wp (entry_read (Some id)) Q w.
Proof. intros H HQ. unfold entry_read. steps. by eapply wp_lift. Qed.
Lemma wp_with_budget {A} b b' (a : A) f (Q : A -> world -> Prop) w : s_assembly_budget (w_supervisor w) = Some b -> f b = Some (b', a) ->
  Q a (w <| w_supervisor ::= (fun s => s <| s_assembly_budget := Some b' |>) |>) -> wp (with_budget f) Q w.
Proof. intros H Hf HQ. unfold with_budget. steps. eapply wp_lift; [done|]. steps. eapply wp_lift; [done|]. done. Qed.

(** ** Steps the invariant does not see: the metrics, and what the kernel answers *)

Record kernel_quiet (k k' : kernel) : Prop := {
  kq_next : k_next k <= k_next k'; kq_open : k_open k' = k_open k; kq_registered : k_registered k' = k_registered k;
  kq_recvs : Forall received_bytes (k_recvs k) -> Forall received_bytes (k_recvs k');
  kq_starts : Forall started_process (k_starts k) -> Forall started_process (k_starts k');
}.
Definition quiet (w w' : world) : Prop :=
  exists m, w_supervisor w' = w_supervisor w <| s_metrics := m |> /\ w_cache w' = w_cache w /\ kernel_quiet (w_kernel w) (w_kernel w').

Lemma kernel_quiet_refl k : kernel_quiet k k.
Proof. by split. Qed.
Lemma quiet_refl w : quiet w w.
Proof. exists (s_metrics (w_supervisor w)). split; [by destruct (w_supervisor w)|]. split; [done|]. apply kernel_quiet_refl. Qed.
Lemma quiet_trans w1 w2 w3 : quiet w1 w2 -> quiet w2 w3 -> quiet w1 w3.
Proof.
  intros (m & H1 & H2 & [K1 K2 K3 K4 K5]) (m' & H3 & H4 & [L1 L2 L3 L4 L5]). exists m'. rewrite H3, H1, H4. split; [done|]. split; [done|].
  split; [lia|congruence|congruence|tauto|tauto].
Qed.

Lemma budget_holds_next stray charges owned b n n' : n <= n' -> budget_holds stray charges owned b n -> budget_holds stray charges owned b n'.
Proof.
  intros Hn (bu & taken & H1 & H2 & H3 & H4 & H5). exists bu, taken. do 4 (split; [done|]). eapply Forall_impl; [exact H5|]. cbn. lia.
Qed.

Lemma inv_quiet g w w' : quiet w w' -> inv g w -> inv g w'.
Proof.
  intros (m & Hs & Hc & [K1 K2 K3 K4 K5]) [H1 H2 H3 H4 H5 H6 H7 H8 H9 H10 H11 H12 H13 H14 H15 H16 [H17 H18]].
  split; rewrite ?Hs, ?Hc, ?K3; try assumption.
  - eapply budget_holds_next; [exact K1|]. exact H5.
  - destruct H6 as [D1 D2 D3 D4]. split; [done|by rewrite K2| |done]. eapply Forall_impl; [exact D3|]. cbn. lia.
  - intros p Hp. specialize (H13 p Hp). lia.
  - tauto.
Qed.

Create HintDb quiet.

(** A step is quiet. *)
Definition quietly {A} (m : prog A) (w : world) : Prop := wp m (fun _ => quiet w) w.

Lemma quietly_bind {A B} (m : prog A) (f : A -> prog B) w : quietly m w -> (forall a w', quiet w w' -> quietly (f a) w') -> quietly (m ≫= f) w.
Proof.
  intros Hm Hf. apply wp_bind. eapply wp_mono; [exact Hm|]. intros a w' Hw. eapply wp_mono; [by apply Hf|]. intros b w'' Hw'. exact (quiet_trans _ _ _ Hw Hw').
Qed.
Lemma quietly_ret {A} (a : A) w : quietly (mret a) w.
Proof. apply quiet_refl. Qed.
Lemma quietly_when b m w : (b = true -> quietly m w) -> quietly (when b m) w.
Proof. intros H. apply wp_when; [done|]. intros _. apply quiet_refl. Qed.
Lemma quietly_read {A} (f : world -> A) w : quietly (read f) w.
Proof. apply quiet_refl. Qed.
Lemma quietly_metrics f w : quietly (on_metrics f) w.
Proof. unfold quietly. steps. eexists. split; [cbn; reflexivity|]. split; [done|]. apply kernel_quiet_refl. Qed.
Lemma quietly_kernel f w : kernel_quiet (w_kernel w) (f (w_kernel w)) -> quietly (on_kernel f) w.
Proof. intros H. unfold quietly. steps. exists (s_metrics (w_supervisor w)). split; [cbn; by destruct (w_supervisor w)|]. by split. Qed.
#[export] Hint Resolve quiet_refl quietly_ret quietly_read quietly_metrics : quiet.

Lemma quietly_increment c w : quietly (resolver_supervisor_metrics_increment c) w.
Proof. apply quietly_metrics. Qed.
#[export] Hint Resolve quietly_increment : quiet.

Lemma quiet_jobs w w' : quiet w w' -> jobs_of w' = jobs_of w.
Proof. intros (m & -> & _). done. Qed.
Lemma quiet_cache w w' : quiet w w' -> w_cache w' = w_cache w.
Proof. by intros (m & _ & -> & _). Qed.
Lemma quiet_helpers w w' : quiet w w' -> helpers_of w' = helpers_of w.
Proof. intros (m & -> & _). done. Qed.
Lemma quiet_supervisor w w' : quiet w w' -> exists m, w_supervisor w' = (w_supervisor w) <| s_metrics := m |>.
Proof. intros (m & H & _). by exists m. Qed.

(** The entry of a job is live. *)
Lemma job_refs_elem entries p id : entries !! p = Some (Some id) -> id ∈ job_refs entries.
Proof. intros H. unfold job_refs. apply list_elem_of_omap. exists (p, Some id). split; [by apply elem_of_map_to_list|done]. Qed.
Lemma holds_entry c l id : holds c l -> id ∈ l -> exists e, entry_get c id = Some e /\ e_reference_count e = Z.of_nat (count_occ Z.eq_dec l id).
Proof.
  intros [_ H] Hin. specialize (H id). unfold references_of in H. apply list_elem_of_In, (count_occ_In Z.eq_dec) in Hin. destruct (entry_get c id) as [e|]; [by exists e|lia].
Qed.
Lemma inv_entry g w p j : inv g w -> jobs_of w !! p = Some j -> exists id e, j_entry j = Some id /\ entry_get (w_cache w) id = Some e.
Proof.
  intros Hi Hj. assert (Hl : (j_entry <$> jobs_of w) !! p = Some (j_entry j)) by (by rewrite lookup_fmap, Hj).
  destruct (th_entry _ _ (i_table _ _ Hi) _ _ Hl) as [id Hid]. rewrite Hid in Hl.
  destruct (holds_entry _ _ id (i_refs _ _ Hi)) as (e & He & _); [apply elem_of_app; right; by eapply job_refs_elem|]. by exists id, e.
Qed.
(** What the steps of the metrics need of the world: that the job and its entry are live. *)
Definition live (w : world) (p : Z) : Prop := exists j id e, jobs_of w !! p = Some j /\ j_entry j = Some id /\ entry_get (w_cache w) id = Some e.
Lemma inv_live g w p j : inv g w -> jobs_of w !! p = Some j -> live w p.
Proof. intros Hi Hj. destruct (inv_entry g w p j Hi Hj) as (id & e & H1 & H2). by exists j, id, e. Qed.
Lemma live_quiet w w' p : quiet w w' -> live w p -> live w' p.
Proof. intros Hq (j & id & e & H1 & H2 & H3). exists j, id, e. by rewrite (quiet_jobs _ _ Hq), (quiet_cache _ _ Hq). Qed.

Lemma quietly_select p w : live w p -> quietly (resolver_supervisor_metrics_attempt_select p) w.
Proof.
  intros (j & id & e & H1 & H2 & H3). unfold quietly, resolver_supervisor_metrics_attempt_select. step. eapply wp_job_get; [done|]. step. rewrite H2.
  eapply wp_entry_read; [done|]. step. apply quiet_refl.
Qed.
Lemma quietly_job_get p w : live w p -> quietly (job_get p) w.
Proof. intros (j & id & e & H1 & _). eapply wp_job_get; [done|]. apply quiet_refl. Qed.
Lemma quietly_query_type w id e : entry_get (w_cache w) id = Some e -> quietly (resolver_supervisor_metrics_query_type (Some id)) w.
Proof. intros H. unfold quietly, resolver_supervisor_metrics_query_type. step. eapply wp_entry_read; [done|]. apply quiet_refl. Qed.

(** Goes through quiet steps one by one. *)
Ltac quiet_steps :=
  repeat match goal with
  | |- quietly (_ ≫= _) _ => apply quietly_bind; [|let w := fresh "w" in let Hq := fresh "Hq" in intros ? w Hq]
  | H : live ?w ?p, Hq : quiet ?w ?w' |- quietly _ ?w' => lazymatch goal with _ : live w' p |- _ => fail | _ => pose proof (live_quiet _ _ _ Hq H) end
  | |- quietly (when _ _) _ => apply quietly_when; intros _
  | |- quietly (match ?x with _ => _ end) _ => destruct x
  | |- quietly (resolver_supervisor_metrics_attempt_select _) _ => by apply quietly_select
  | |- quietly (job_get _) _ => by apply quietly_job_get
  | _ => solve [auto with quiet]
  end.

Lemma quietly_attempt_increment p c w : live w p -> quietly (attempt_increment p c) w.
Proof. intros H. unfold attempt_increment. quiet_steps. Qed.
Lemma quietly_failure_record p f now w : live w p -> quietly (resolver_supervisor_metrics_attempt_failure_record p f now) w.
Proof. intros H. unfold resolver_supervisor_metrics_attempt_failure_record, attempt_duration_observe. quiet_steps. Qed.
Lemma quietly_dispatch_record p now w : live w p -> quietly (resolver_supervisor_metrics_dispatch_record p now) w.
Proof. intros H. unfold resolver_supervisor_metrics_dispatch_record. quiet_steps. Qed.
Lemma quietly_response_record p r w : live w p -> quietly (resolver_supervisor_metrics_response_record p r) w.
Proof. intros H. unfold resolver_supervisor_metrics_response_record, attempt_duration_observe. quiet_steps. Qed.
Lemma quietly_failure_response p status w : live w p -> quietly (failure_response p status) w.
Proof.
  intros (j & id & e & H1 & H2 & H3). unfold quietly, failure_response. step. eapply wp_job_get; [done|]. step. rewrite H2.
  eapply wp_entry_read; [done|]. step. apply quiet_refl.
Qed.
Lemma quietly_schedule_record id e pr st w : entry_get (w_cache w) id = Some e -> quietly (resolver_supervisor_metrics_schedule_record (Some id) pr st) w.
Proof.
  intros H. unfold resolver_supervisor_metrics_schedule_record. apply quietly_bind; [by eapply quietly_query_type|]. intros. apply quietly_increment.
Qed.

(** ** Quiet calls of the kernel *)

Ltac kernel_same := apply quietly_kernel; split; cbn; try done; try lia.

Lemma quietly_alloc w : quietly alloc w.
Proof. unfold alloc. quiet_steps. kernel_same. Qed.
Lemma quietly_log e w : quietly (log e) w.
Proof. kernel_same. Qed.
#[export] Hint Resolve quietly_alloc quietly_log : quiet.
Lemma quietly_waitpid p w : quietly (waitpid p) w.
Proof. unfold waitpid. quiet_steps. kernel_same. Qed.
Lemma quietly_kill p n w : quietly (kill p n) w.
Proof. unfold kill. quiet_steps. kernel_same. Qed.
Lemma quietly_timer_set t w : quietly (timer_set t) w.
Proof. unfold timer_set. quiet_steps. kernel_same. Qed.
#[export] Hint Resolve quietly_waitpid quietly_kill quietly_timer_set : quiet.
Lemma quietly_reap p w : quietly (resolver_supervisor_process_reap p) w.
Proof. unfold resolver_supervisor_process_reap. quiet_steps. Qed.
#[export] Hint Resolve quietly_reap : quiet.
Lemma quietly_terminate p n w : quietly (resolver_supervisor_process_terminate p n) w.
Proof. unfold resolver_supervisor_process_terminate. quiet_steps. Qed.
#[export] Hint Resolve quietly_terminate : quiet.
Lemma quietly_reap_or_kill p w : quietly (resolver_supervisor_process_reap_or_kill p) w.
Proof. unfold resolver_supervisor_process_reap_or_kill. quiet_steps. Qed.
Lemma quietly_drop w : quietly resolver_supervisor_observation_drop w.
Proof. apply quietly_increment. Qed.
#[export] Hint Resolve quietly_reap_or_kill quietly_drop : quiet.

Lemma wp_fresh_address (Q : Z -> world -> Prop) w :
  (forall w', quiet w w' -> k_next (w_kernel w') = k_next (w_kernel w) + 1 -> Q (k_next (w_kernel w)) w') -> wp fresh_address Q w.
Proof.
  intros H. unfold fresh_address. steps. apply H; [|done]. exists (s_metrics (w_supervisor w)). split; [cbn; by destruct (w_supervisor w)|]. split; [done|].
  split; cbn; try done. lia.
Qed.
Lemma wp_open_get fd (Q : () -> world -> Prop) w : fd ∈ k_open (w_kernel w) -> Q () w -> wp (open_get fd) Q w.
Proof. intros H HQ. unfold open_get. steps; [done|]. by rewrite bool_decide_eq_false in E. Qed.
Lemma quietly_open_get fd w : fd ∈ k_open (w_kernel w) -> quietly (open_get fd) w.
Proof. intros H. apply wp_open_get; [done|]. apply quiet_refl. Qed.
Lemma quietly_send fd packet w : fd ∈ k_open (w_kernel w) -> quietly (send fd packet) w.
Proof.
  intros H. unfold send. apply quietly_bind; [by apply quietly_open_get|]. intros _ w1 _. quiet_steps. kernel_same.
Qed.
Lemma quietly_zero_is_end fd w : fd ∈ k_open (w_kernel w) -> quietly (resolver_supervisor_helper_receive_zero_is_end fd) w.
Proof.
  intros H. unfold resolver_supervisor_helper_receive_zero_is_end. apply quietly_bind; [by apply quietly_open_get|]. intros _ w1 _. quiet_steps. kernel_same.
Qed.
Lemma quietly_queue_high_water pr w : quietly (queue_high_water pr) w.
Proof. unfold queue_high_water. apply quietly_bind; [apply quiet_refl|]. intros. apply quietly_metrics. Qed.
#[export] Hint Resolve quietly_queue_high_water : quiet.

(** Goes on after a quiet step, with the invariant in the world after it. *)
Lemma wp_quietly {A} (m : prog A) (Q : A -> world -> Prop) w : quietly m w -> (forall a w', quiet w w' -> Q a w') -> wp m Q w.
Proof. intros Hm HQ. eapply wp_mono; [exact Hm|]. auto. Qed.

(** ** Changes of the links *)

Definition erase (j : job) : job :=
  j <| j_queue_previous := None |> <| j_queue_next := None |> <| j_completion_previous := None |> <| j_completion_next := None |>.
(** The same jobs up to their links. *)
Definition relinked (jobs jobs' : jobs_map) : Prop := erase <$> jobs' = erase <$> jobs.

Lemma relinked_lookup jobs jobs' p j' : relinked jobs jobs' -> jobs' !! p = Some j' -> exists j, jobs !! p = Some j /\ erase j' = erase j.
Proof.
  intros H Hj. assert (E : (erase <$> jobs') !! p = Some (erase j')) by (by rewrite lookup_fmap, Hj). rewrite H, lookup_fmap in E.
  apply fmap_Some in E as (j & Hj' & E). by exists j.
Qed.
Lemma relinked_sym jobs jobs' : relinked jobs jobs' -> relinked jobs' jobs.
Proof. unfold relinked. done. Qed.
Lemma relinked_trans a b c : relinked a b -> relinked b c -> relinked a c.
Proof. unfold relinked. congruence. Qed.
Lemma relinked_refl jobs : relinked jobs jobs.
Proof. done. Qed.
Lemma relinked_insert jobs jobs' p j j' : relinked jobs jobs' -> jobs' !! p = Some j -> erase j' = erase j -> relinked jobs (<[p := j']> jobs').
Proof. unfold relinked. intros <- Hj He. rewrite fmap_insert, He. apply insert_id. by rewrite lookup_fmap, Hj. Qed.
Lemma relinked_view {B} (v : job -> B) jobs jobs' : relinked jobs jobs' -> (forall j, v (erase j) = v j) -> v <$> jobs' = v <$> jobs.
Proof.
  intros H Hv. assert (E : forall m : jobs_map, v <$> m = v <$> (erase <$> m)).
  { intros m. rewrite <- map_fmap_compose. apply map_fmap_ext. intros p j _. cbn. by rewrite Hv. }
  by rewrite (E jobs), (E jobs'), H.
Qed.
Lemma relinked_field {B} (v : job -> B) j j' : erase j' = erase j -> (forall j, v (erase j) = v j) -> v j' = v j.
Proof. intros H Hv. by rewrite <- (Hv j), <- (Hv j'), H. Qed.

Lemma relinked_forall (P : Z -> job -> Prop) jobs jobs' : relinked jobs jobs' -> (forall p j j', erase j' = erase j -> P p j -> P p j') ->
  (forall p j, jobs !! p = Some j -> P p j) -> forall p j, jobs' !! p = Some j -> P p j.
Proof. intros H HP Ha p j Hj. destruct (relinked_lookup _ _ _ _ H Hj) as (j0 & H0 & He). eauto. Qed.
Lemma relinked_some jobs jobs' p : relinked jobs jobs' -> is_Some (jobs' !! p) <-> is_Some (jobs !! p).
Proof. intros H. split; intros [j Hj]; [|apply relinked_sym in H]; destruct (relinked_lookup _ _ _ _ H Hj) as (j0 & -> & _); done. Qed.
Lemma relinked_size jobs jobs' : relinked jobs jobs' -> size jobs' = size jobs.
Proof. intros H. rewrite <- (map_size_fmap erase jobs), <- (map_size_fmap erase jobs'). by rewrite H. Qed.

Ltac erased H := repeat match goal with
  | |- context [?f ?j'] => match type of H with erase j' = erase ?j => rewrite (relinked_field f j j' H (fun _ => eq_refl)) end
  end.

Lemma settled_erased j j' : erase j' = erase j -> settled j -> settled j'.
Proof. intros H. unfold settled. by erased H. Qed.

Lemma helpers_relinked phase hand loose jobs jobs' helpers : relinked jobs jobs' -> helpers_ok phase hand loose jobs helpers -> helpers_ok phase hand loose jobs' helpers.
Proof.
  intros Hr [H1 H2 H3 H4 H5].
  assert (Ha : forall i h st, at_helper hand jobs i h st -> at_helper hand jobs' i h st).
  { intros i h st (p & j & A1 & A2 & A3 & A4 & A5). destruct (relinked_lookup _ _ _ _ (relinked_sym _ _ Hr) A3) as (j' & A6 & He).
    exists p, j'. apply eq_sym in He. erased He. done. }
  split; [done| |done| |].
  - intros i h Hi Hl. specialize (H2 i h Hi Hl). unfold helper_fits in *. destruct (h_state h); try done; destruct H2 as [B1 B2]; (split; [|done]); auto.
  - refine (relinked_forall _ _ _ Hr _ H4). intros p j j' He HP. by erased He.
  - refine (relinked_forall _ _ _ Hr _ H5). intros p j j' He HP. by erased He.
Qed.

(** The supervisor with other jobs, queues, completions and metrics. *)
Definition relist (s : resolver_supervisor) (jobs : jobs_map) (bq iq : resolver_supervisor_job_queue) (head tail : option Z)
    (m : resolver_supervisor_metrics_state) : resolver_supervisor :=
  s <| s_jobs := jobs |> <| s_background_queue := bq |> <| s_interactive_queue := iq |> <| s_completion_head := head |> <| s_completion_tail := tail |>
    <| s_metrics := m |>.

(** A change of the lists: the rest of the invariant does not depend on the links. *)
Lemma inv_relink g q completed hand w jobs bq iq head tail m : inv g w -> relinked (jobs_of w) jobs ->
  queues_ok hand q jobs (resolver_supervisor_job_queue_select (relist (w_supervisor w) jobs bq iq head tail m)) ->
  completions_ok hand completed jobs head tail ->
  helpers_ok (g_phase g) hand (g_loose g) (jobs_of w) (helpers_of w) -> (forall p, hand = Some p -> is_Some (jobs_of w !! p)) ->
  inv (g <| g_queue := q |> <| g_done := completed |> <| g_hand := hand |>) (w <| w_supervisor := relist (w_supervisor w) jobs bq iq head tail m |>).
Proof.
  intros [H1 H2 H3 H4 H5 H6 H7 H8 H9 H10 (H11 & H11' & H11'') H12 H13 H14 H15 H16 H17] Hr HA HB HF HH.
  assert (E1 : j_entry <$> jobs = j_entry <$> jobs_of w) by (by apply relinked_view).
  assert (E2 : (fun j => (j_assembly j, j_response j)) <$> jobs = (fun j => (j_assembly j, j_response j)) <$> jobs_of w) by (by apply relinked_view).
  split; cbn; try assumption; rewrite ?E1, ?E2; try assumption.
  - by eapply helpers_relinked.
  - refine (relinked_forall _ _ _ Hr _ H9). intros p j j' He [HP HS]. split; [unfold interests_ok in *; by erased He|]. intros Hu. by eapply settled_erased, HS.
  - refine (relinked_forall _ _ _ Hr _ H10). intros p j j' He HP. unfold response_kept in *. by erased He.
  - split; [done|]. split; [|done]. refine (relinked_forall _ _ _ Hr _ H11'). intros p j j' He HP. unfold job_times in *. by erased He.
  - intros p Hp. rewrite (relinked_some _ _ p Hr). by apply HH.
  - intros p Hp. apply H13. by rewrite <- (relinked_some _ _ p Hr).
  - by rewrite (relinked_size _ _ Hr).
Qed.

(** ** Taking a job in hand and putting it down *)

Lemma helpers_hand phase loose jobs helpers p j : jobs !! p = Some j -> with_helper (j_state j) = false ->
  helpers_ok phase None loose jobs helpers -> helpers_ok phase (Some p) loose jobs helpers.
Proof.
  intros Hj Hw [H1 H2 H3 H4 H5]. assert (Ha : forall i h st, with_helper st = true -> at_helper None jobs i h st -> at_helper (Some p) jobs i h st).
  { intros i h st Hst (q & k & A1 & _ & A3 & A4 & A5). exists q, k. do 2 (split; [congruence|]). done. }
  split; [done| | | |].
  - intros i h Hi Hl. specialize (H2 i h Hi Hl). unfold helper_fits in *. destruct (h_state h); try done; destruct H2 as [B1 B2]; (split; [|done]); by apply Ha.
  - intros i h Hi Hl. destruct (H3 i h Hi Hl) as [->| ->]; by left.
  - intros q k Hk _. by apply H4.
  - intros q k Hk _. by apply (H5 q).
Qed.
Lemma helpers_unhand phase loose jobs helpers p j : jobs !! p = Some j -> with_helper (j_state j) = false -> j_assembly j = None ->
  (forall i h, helpers !! i = Some h -> loose i = true -> h_job h = None) ->
  helpers_ok phase (Some p) loose jobs helpers -> helpers_ok phase None loose jobs helpers.
Proof.
  intros Hj Hw Ha Hn [H1 H2 H3 H4 H5]. split; [done| | | |].
  - intros i h Hi Hl. specialize (H2 i h Hi Hl). unfold helper_fits in *.
    destruct (h_state h); try done; destruct H2 as [(q & k & A1 & A2 & A3 & A4 & A5) B2]; (split; [|done]); by exists q, k.
  - intros i h Hi Hl. left. by eapply Hn.
  - intros q k Hk _ Hst. destruct (decide (q = p)) as [->|Hne]; [congruence|]. apply (H4 q k Hk); [congruence|done].
  - intros q k Hk _. destruct (decide (q = p)) as [->|Hne]; [|apply (H5 q k Hk); congruence]. assert (k = j) as -> by congruence. rewrite Ha, Hw.
    split; [by intros [??]|done].
Qed.

(** ** Links of the queues *)

Lemma view_update {B} (v : job -> B) (f : job -> job) (u : B -> B) (jobs : jobs_map) p j : jobs !! p = Some j -> v (f j) = u (v j) ->
  v <$> <[p := f j]> jobs = alter u p (v <$> jobs).
Proof.
  intros H Hv. apply map_eq. intros q. rewrite lookup_fmap. destruct (decide (q = p)) as [->|Hne].
  - rewrite lookup_insert_eq, lookup_alter_eq, lookup_fmap, H. cbn. by rewrite Hv.
  - by rewrite lookup_insert_ne, lookup_alter_ne, lookup_fmap.
Qed.
Lemma view_same {B} (v : job -> B) (jobs : jobs_map) p j j' : jobs !! p = Some j -> v j' = v j -> v <$> <[p := j']> jobs = v <$> jobs.
Proof. intros H Hv. rewrite fmap_insert, Hv. apply insert_id. by rewrite lookup_fmap, H. Qed.

(** Worlds with other jobs and another queue. *)
Definition with_queue (pr : resolver_supervisor_priority) (q : resolver_supervisor_job_queue) (s : resolver_supervisor) : resolver_supervisor :=
  match pr with RESOLVER_SUPERVISOR_PRIORITY_INTERACTIVE => s <| s_interactive_queue := q |> | RESOLVER_SUPERVISOR_PRIORITY_BACKGROUND => s <| s_background_queue := q |> end.
Definition requeued (pr : resolver_supervisor_priority) (jobs : jobs_map) (q : resolver_supervisor_job_queue) (w : world) : world :=
  w <| w_supervisor ::= (fun s => with_queue pr q (s <| s_jobs := jobs |>)) |>.
#[export] Abbreviation queue_at w pr := (resolver_supervisor_job_queue_select (w_supervisor w) pr).

Lemma requeued_twice pr jobs jobs' q q' w : requeued pr jobs' q' (requeued pr jobs q w) = requeued pr jobs' q' w.
Proof. by destruct pr. Qed.
Lemma requeued_jobs pr jobs q w : jobs_of (requeued pr jobs q w) = jobs.
Proof. by destruct pr. Qed.
Lemma requeued_queue pr jobs q w : queue_at (requeued pr jobs q w) pr = q.
Proof. by destruct pr. Qed.
Lemma requeued_other pr pr' jobs q w : pr' <> pr -> queue_at (requeued pr jobs q w) pr' = queue_at w pr'.
Proof. by destruct pr, pr'. Qed.
Lemma put_requeued pr p j jobs q w : put_job p j (requeued pr jobs q w) = requeued pr (<[p := j]> jobs) q w.
Proof. by destruct pr. Qed.
Lemma requeued_self pr w : requeued pr (jobs_of w) (queue_at w pr) w = w.
Proof. destruct w as [s c k], s, pr; reflexivity. Qed.
Lemma put_as_requeued pr p j w : put_job p j w = requeued pr (<[p := j]> (jobs_of w)) (queue_at w pr) w.
Proof. destruct w as [s c k], s, pr; reflexivity. Qed.
Lemma wp_on_queue pr f (Q : () -> world -> Prop) w : Q () (requeued pr (jobs_of w) (f (queue_at w pr)) w) -> wp (on_queue pr f) Q w.
Proof. intros H. unfold on_queue. step. by destruct w as [s c k], s, pr. Qed.

Definition next_of (o v : option Z) (m : links) : links := match o with None => m | Some q => set_next v m q end.
Definition previous_of (o v : option Z) (m : links) : links := match o with None => m | Some q => set_previous v m q end.

(** The assignment through a [previous] link or to the head of the queue, and likewise for
    [next] and the tail. *)
Lemma wp_set_next o pr v (Q : () -> world -> Prop) w : (forall q, o = Some q -> is_Some (jobs_of w !! q)) ->
  (forall jobs, relinked (jobs_of w) jobs -> queue_links jobs = next_of o v (queue_links (jobs_of w)) -> completion_links jobs = completion_links (jobs_of w) ->
    Q () (requeued pr jobs (match o with None => (queue_at w pr) <| qu_head := v |> | Some _ => queue_at w pr end) w)) ->
  wp (match o with None => on_queue pr (fun q => q <| qu_head := v |>) | Some p => job_set p (fun j => j <| j_queue_next := v |>) end) Q w.
Proof.
  intros Ho HQ. destruct o as [p|].
  - destruct (Ho p eq_refl) as [j Hj]. eapply wp_job_set; [done|]. rewrite <- (requeued_self pr w) at 1. rewrite put_requeued. apply HQ.
    + by eapply relinked_insert.
    + unfold queue_links. by erewrite (view_update _ (fun j => j <| j_queue_next := v |>)); [|done|].
    + unfold completion_links. by eapply view_same.
  - apply wp_on_queue, HQ; done.
Qed.
Lemma wp_set_previous o pr v (Q : () -> world -> Prop) w : (forall q, o = Some q -> is_Some (jobs_of w !! q)) ->
  (forall jobs, relinked (jobs_of w) jobs -> queue_links jobs = previous_of o v (queue_links (jobs_of w)) ->
    completion_links jobs = completion_links (jobs_of w) ->
    Q () (requeued pr jobs (match o with None => (queue_at w pr) <| qu_tail := v |> | Some _ => queue_at w pr end) w)) ->
  wp (match o with None => on_queue pr (fun q => q <| qu_tail := v |>) | Some p => job_set p (fun j => j <| j_queue_previous := v |>) end) Q w.
Proof.
  intros Ho HQ. destruct o as [p|].
  - destruct (Ho p eq_refl) as [j Hj]. eapply wp_job_set; [done|]. rewrite <- (requeued_self pr w) at 1. rewrite put_requeued. apply HQ.
    + by eapply relinked_insert.
    + unfold queue_links. by erewrite (view_update _ (fun j => j <| j_queue_previous := v |>)); [|done|].
    + unfold completion_links. by eapply view_same.
  - apply wp_on_queue, HQ; done.
Qed.

(** ** The lists when a job is taken in hand or put down *)

Lemma completions_relinked hand completed jobs jobs' head tail : relinked jobs jobs' -> completion_links jobs' = completion_links jobs ->
  completions_ok hand completed jobs head tail -> completions_ok hand completed jobs' head tail.
Proof.
  intros Hr Hl [H1 H2 H3]. assert (Hf : forall p j j', jobs' !! p = Some j' -> jobs !! p = Some j -> erase j' = erase j ->
      j_completion_previous j' = j_completion_previous j /\ j_completion_next j' = j_completion_next j).
  { intros p j j' Hj' Hj _. assert (E : completion_links jobs' !! p = completion_links jobs !! p) by (by rewrite Hl). unfold completion_links in E.
    rewrite !lookup_fmap, Hj, Hj' in E. by injection E. }
  split; [by rewrite Hl| |]; intros p j' Hj' Hh; destruct (relinked_lookup _ _ _ _ Hr Hj') as (j & Hj & He); destruct (Hf p j j' Hj' Hj He) as [-> ->].
  - erased He. by apply H2.
  - by apply H3.
Qed.
Lemma completions_hand completed jobs head tail p j : jobs !! p = Some j -> j_state j <> RESOLVER_SUPERVISOR_JOB_COMPLETE ->
  completions_ok None completed jobs head tail <->
  completions_ok (Some p) completed jobs head tail.
Proof.
  intros Hj Hs. split; intros [H1 H2 H3]; (split; [done| |]).
  - intros q k Hk _. by apply H2.
  - intros q k Hk [= ->]. assert (k = j) as -> by congruence. destruct (H2 q j Hj) as [Hin Hn]; [done|]. split; [by rewrite Hin|]. by apply Hn.
  - intros q k Hk _. destruct (decide (q = p)) as [->|Hne].
    + assert (k = j) as -> by congruence. destruct (H3 p j Hj eq_refl) as [Hin Hn]. split; [|done]. by split.
    + apply H2; [done|congruence].
  - intros q k Hk [=].
Qed.
Lemma queues_hand queue jobs select p j : jobs !! p = Some j -> j_state j <> RESOLVER_SUPERVISOR_JOB_QUEUED ->
  queues_ok None queue jobs select <->
  queues_ok (Some p) queue jobs select.
Proof.
  intros Hj Hs. split; intros [H0 H1 H2 H3]; (split; [done|done| |]).
  - intros q k Hk _. by apply H2.
  - intros q k Hk [= ->]. assert (k = j) as -> by congruence. destruct (H2 q j Hj) as [Hin Hn]; [done|]. split; [|by apply Hn].
    intros pr Hp. by apply Hin in Hp as [? _].
  - intros q k Hk _. destruct (decide (q = p)) as [->|Hne].
    + assert (k = j) as -> by congruence. destruct (H3 p j Hj eq_refl) as [Hin Hn]. split; [|done]. intros pr. split; [by intros ?%Hin|by intros [? _]].
    + apply H2; [done|congruence].
  - intros q k Hk [=].
Qed.

(** ** Removal from a queue *)

Definition without (p : Z) (l : list Z) : list Z := List.filter (fun x => negb (x =? p)) l.
Lemma without_split p a b : NoDup (a ++ p :: b) -> without p (a ++ p :: b) = a ++ b.
Proof.
  intros (_ & Hd & [Hp _]%list.NoDup_cons)%list.NoDup_app. unfold without. rewrite List.filter_app. cbn. rewrite Z.eqb_refl. cbn [negb].
  assert (E : forall l, p ∉ l -> List.filter (fun x => negb (x =? p)) l = l).
  { intros l Hl. apply List.forallb_filter_id, forallb_forall. intros x Hx%list_elem_of_In. apply negb_true_iff, Z.eqb_neq. by intros ->. }
  rewrite !E; [done|done|]. intros Hin. apply (Hd p Hin). by left.
Qed.
Lemma without_elem p l x : x ∈ without p l <-> x ∈ l /\ x <> p.
Proof.
  unfold without. rewrite !list_elem_of_In, List.filter_In. split; intros [H1 H2]; (split; [done|]).
  - apply negb_true_iff, Z.eqb_neq in H2. done.
  - by apply negb_true_iff, Z.eqb_neq.
Qed.
Definition queue_without (p : Z) (pr : resolver_supervisor_priority) (q : resolver_supervisor_priority -> list Z) (pr' : resolver_supervisor_priority)
    : list Z := if bool_decide (pr' = pr) then without p (q pr') else q pr'.

Lemma dll_elem m head tail l x : dll m head tail l -> x ∈ l -> is_Some (m !! x).
Proof.
  intros [_ _ _ Hs]. revert Hs. generalize (@None Z) at 1. induction l as [|y l IH]; intros p Hs Hx; [by apply list.elem_of_nil in Hx|].
  destruct Hs as [Hy Hs]. apply list.elem_of_cons in Hx as [->|Hx]; [by rewrite Hy|]. by eapply IH.
Qed.
Lemma queue_elem_job hand queue jobs select pr p : queues_ok hand queue jobs select -> p ∈ queue pr -> is_Some (jobs !! p).
Proof.
  intros Hq Hp. pose proof (dll_elem _ _ _ _ _ (qo_dll _ _ _ _ Hq pr) Hp) as H. unfold queue_links in H. rewrite lookup_fmap in H.
  by apply fmap_is_Some in H.
Qed.
Lemma last_or_elem a y : last_or None a = Some y -> y ∈ a.
Proof. unfold last_or. destruct (list.last a) as [z|] eqn:E; [|done]. intros [= ->]. apply list.last_Some in E as [l ->]. apply elem_of_app. right. by left. Qed.
Lemma hd_or_elem b y : hd_or b None = Some y -> y ∈ b.
Proof. destruct b; [done|]. intros [= ->]. by left. Qed.

Lemma inv_requeue g w pr q hand jobs queue : inv g w -> relinked (jobs_of w) jobs -> completion_links jobs = completion_links (jobs_of w) ->
  queues_ok hand q jobs (fun pr' => queue_at (requeued pr jobs queue w) pr') ->
  completions_ok hand (g_done g) (jobs_of w) (s_completion_head (w_supervisor w)) (s_completion_tail (w_supervisor w)) ->
  helpers_ok (g_phase g) hand (g_loose g) (jobs_of w) (helpers_of w) -> (forall p, hand = Some p -> is_Some (jobs_of w !! p)) ->
  inv (g <| g_queue := q |> <| g_hand := hand |>) (requeued pr jobs queue w).
Proof.
  intros Hi Hr Hl HA HB HF HH. assert (HB' := completions_relinked _ _ _ _ _ _ Hr Hl HB).
  destruct pr; [apply (inv_relink g q (g_done g) hand w jobs queue (s_interactive_queue (w_supervisor w)) (s_completion_head (w_supervisor w))
      (s_completion_tail (w_supervisor w)) (s_metrics (w_supervisor w))); done
    |apply (inv_relink g q (g_done g) hand w jobs (s_background_queue (w_supervisor w)) queue (s_completion_head (w_supervisor w))
      (s_completion_tail (w_supervisor w)) (s_metrics (w_supervisor w))); done].
Qed.

Lemma queue_split hand queue jobs select p j : queues_ok hand queue jobs select -> jobs !! p = Some j -> hand <> Some p ->
  j_state j = RESOLVER_SUPERVISOR_JOB_QUEUED -> exists a b, queue (j_priority j) = a ++ p :: b /\ j_queue_previous j = last_or None a /\ j_queue_next j = hd_or b None.
Proof.
  intros Hq Hj Hh Hs. destruct (qo_place _ _ _ _ Hq p j Hj Hh) as [Hin _]. specialize (Hin (j_priority j)). destruct Hin as [_ Hin].
  specialize (Hin (conj Hs eq_refl)). apply list_elem_of_split in Hin as (a & b & Hab). exists a, b. split; [done|].
  pose proof (qo_dll _ _ _ _ Hq (j_priority j)) as Hd. rewrite Hab in Hd. destruct (dll_remove_spec _ _ _ _ _ _ Hd) as (m & h & t & _ & Hm & _).
  unfold queue_links in Hm. rewrite lookup_fmap, Hj in Hm. by injection Hm as -> ->.
Qed.

(** Removing [p] from its queue leaves it in hand. *)
Lemma queues_remove queue jobs jobs' select select' p j : queues_ok None queue jobs select -> jobs !! p = Some j -> j_state j = RESOLVER_SUPERVISOR_JOB_QUEUED ->
  relinked jobs jobs' ->
  dll_remove (queue_links jobs, qu_head (select (j_priority j)), qu_tail (select (j_priority j))) p (j_queue_previous j) (j_queue_next j) =
    (queue_links jobs', qu_head (select' (j_priority j)), qu_tail (select' (j_priority j))) ->
  qu_count (select' (j_priority j)) = qu_count (select (j_priority j)) - 1 -> (forall pr, pr <> j_priority j -> select' pr = select pr) ->
  queues_ok (Some p) (queue_without p (j_priority j) queue) jobs' select'.
Proof.
  intros Hq Hj Hs Hr Hd Hc Ho. destruct (queue_split _ _ _ _ _ _ Hq Hj ltac:(done) Hs) as (a & b & Hab & Hpr & Hnx).
  pose proof (qo_dll _ _ _ _ Hq (j_priority j)) as Hdll. rewrite Hab in Hdll.
  destruct (dll_remove_spec _ _ _ _ _ _ Hdll) as (m & h & t & Hd' & _ & Hdll' & Hm & Hfr). rewrite Hpr, Hnx, Hd' in Hd. injection Hd as -> -> ->.
  assert (Hw : without p (queue (j_priority j)) = a ++ b) by (rewrite Hab; apply without_split; apply Hdll).
  assert (Hdisj : forall pr q, pr <> j_priority j -> q ∈ queue pr -> q ∉ queue (j_priority j)).
  { intros pr q Hne H1 H2. destruct (queue_elem_job _ _ _ _ _ _ Hq H1) as [k Hk]. destruct (qo_place _ _ _ _ Hq q k Hk ltac:(done)) as [Hin _].
    apply Hin in H1 as [_ H1]. apply Hin in H2 as [_ H2]. congruence. }
  split.
  - intros pr. unfold queue_without. case_bool_decide as E; [subst pr; by rewrite Hw|]. rewrite (Ho pr E).
    eapply dll_ext; [|apply (qo_dll _ _ _ _ Hq pr)]. intros x Hx. apply Hfr. rewrite <- Hab. by eapply Hdisj.
  - intros pr. unfold queue_without. case_bool_decide as E; [subst pr|by rewrite (Ho pr E), (qo_count _ _ _ _ Hq pr)].
    rewrite Hc, (qo_count _ _ _ _ Hq), Hw, Hab, !length_app. simpl. lia.
  - intros x k' Hk' Hx. destruct (relinked_lookup _ _ _ _ Hr Hk') as (k & Hk & He). destruct (qo_place _ _ _ _ Hq x k Hk ltac:(done)) as [Hin Hnl]. split.
    + intros pr. erased He. rewrite <- Hin. unfold queue_without. case_bool_decide as E; [|done]. rewrite without_elem. split; [by intros [? _]|].
      intros H. split; [done|]. congruence.
    + intros Hns. erased He. assert (Hns' : j_state k <> RESOLVER_SUPERVISOR_JOB_QUEUED) by (by rewrite <- (relinked_field j_state k k' He)).
      assert (Hx' : x ∉ a ++ p :: b) by (rewrite <- Hab; intros H; by apply Hin in H as [? _]). specialize (Hfr x Hx').
      unfold queue_links in Hfr. rewrite !lookup_fmap, Hk, Hk' in Hfr. injection Hfr as -> ->. by apply Hnl.
  - intros x k' Hk' [= <-]. split.
    + intros pr. unfold queue_without. case_bool_decide as E; [by rewrite without_elem; intros [_ ?]|]. intros H. apply (Hdisj _ _ E H). rewrite Hab.
      apply elem_of_app. right. by left.
    + unfold queue_links in Hm. rewrite lookup_fmap, Hk' in Hm. by injection Hm as -> ->.
Qed.

Lemma wp_queue_remove g w p j : inv g w -> g_hand g = None -> jobs_of w !! p = Some j -> j_state j = RESOLVER_SUPERVISOR_JOB_QUEUED ->
  wp (resolver_supervisor_job_queue_remove p) (fun _ w' =>
    inv (g <| g_queue := queue_without p (j_priority j) (g_queue g) |> <| g_hand := Some p |>) w' /\
    exists jobs q, w' = requeued (j_priority j) jobs q w /\ relinked (jobs_of w) jobs) w.
Proof.
  intros Hi Hh Hj Hs. pose proof (i_queues _ _ Hi) as Hq. rewrite Hh in Hq.
  destruct (queue_split _ _ _ _ _ _ Hq Hj ltac:(done) Hs) as (a & b & Hab & Hpr & Hnx).
  assert (Hex : forall q, q ∈ a ++ p :: b -> is_Some (jobs_of w !! q)) by (intros q Hin; rewrite <- Hab in Hin; by eapply queue_elem_job).
  unfold resolver_supervisor_job_queue_remove. step. eapply wp_job_get; [done|]. step. apply wp_set_next.
  { intros q Hq'. apply Hex, elem_of_app. left. apply last_or_elem. by rewrite <- Hpr. }
  intros jobs1 R1 L1 C1. step. apply wp_set_previous; rewrite ?requeued_jobs.
  { intros q Hq'. rewrite (relinked_some _ _ q R1). apply Hex, elem_of_app. right. right. apply hd_or_elem. by rewrite <- Hnx. }
  intros jobs2 R2 L2 C2. rewrite requeued_twice. step. assert (R02 := relinked_trans _ _ _ R1 R2).
  assert (Hp2 : is_Some (jobs2 !! p)) by (rewrite (relinked_some _ _ p R02); by rewrite Hj). destruct Hp2 as [j2 Hj2].
  eapply wp_job_set; [by rewrite requeued_jobs|]. rewrite put_requeued. apply wp_on_queue. rewrite requeued_jobs, requeued_queue, requeued_twice.
  assert (R3 : relinked (jobs_of w) (<[p := j2 <| j_queue_next := None |> <| j_queue_previous := None |>]> jobs2)) by (by eapply relinked_insert).
  split; [|by eexists _, _]. apply inv_requeue; [done|done| | | | |].
  - rewrite <- C1, <- C2. unfold completion_links. by eapply view_same.
  - eapply queues_remove; [exact Hq|done|done|done| | |].
    + rewrite requeued_queue. unfold dll_remove. fold (next_of (j_queue_previous j) (j_queue_next j) (queue_links (jobs_of w))).
      replace (match j_queue_previous j with None => _ | Some q => _ end) with
        (next_of (j_queue_previous j) (j_queue_next j) (queue_links (jobs_of w)), match j_queue_previous j with None => j_queue_next j | Some _ => qu_head (queue_at w (j_priority j)) end)
        by (by destruct (j_queue_previous j)). cbv beta iota.
      replace (match j_queue_next j with None => _ | Some q => _ end) with
        (queue_links jobs2, match j_queue_next j with None => j_queue_previous j | Some _ => qu_tail (queue_at w (j_priority j)) end)
        by (rewrite L2, L1; by destruct (j_queue_next j)).
      rewrite requeued_queue. f_equal; [f_equal|].
      * unfold queue_links. erewrite (view_update _ (fun j => j <| j_queue_next := None |> <| j_queue_previous := None |>) (fun _ => (None, None))); [|done|done].
        by rewrite unlinked.
      * by destruct (j_queue_previous j), (j_queue_next j).
      * by destruct (j_queue_previous j), (j_queue_next j).
    + rewrite requeued_queue. rewrite requeued_queue. pose proof (qo_count _ _ _ _ Hq (j_priority j)) as Hc. rewrite Hab, length_app in Hc. simpl in Hc.
      destruct (j_queue_previous j), (j_queue_next j); cbn; (if_as E; lia).
    + intros pr Hne. by apply requeued_other.
  - apply (completions_hand _ _ _ _ p j); [done|congruence|]. pose proof (i_done _ _ Hi) as Hd. by rewrite Hh in Hd.
  - apply (helpers_hand _ _ _ _ p j); [done|by rewrite Hs|]. pose proof (i_helpers _ _ Hi) as Hd. by rewrite Hh in Hd.
  - intros q [= <-]. by rewrite Hj.
Qed.

(** ** Changes of one job that leave its links and what it owns *)

Record same_links (j j' : job) : Prop := {
  sl_queue : j_queue_previous j' = j_queue_previous j /\ j_queue_next j' = j_queue_next j;
  sl_completion : j_completion_previous j' = j_completion_previous j /\ j_completion_next j' = j_completion_next j;
  sl_owned : j_entry j' = j_entry j /\ j_assembly j' = j_assembly j /\ j_response j' = j_response j;
}.
(** In its place a job keeps its state and, while it is queued, its priority. *)
Definition same_place (j j' : job) : Prop := j_state j' = j_state j /\ j_slot_index j' = j_slot_index j /\
  (j_state j = RESOLVER_SUPERVISOR_JOB_QUEUED -> j_priority j' = j_priority j).

Lemma lookup_put (jobs : jobs_map) p j' q k : <[p := j']> jobs !! q = Some k -> (q = p /\ k = j') \/ (q <> p /\ jobs !! q = Some k).
Proof. destruct (decide (q = p)) as [->|Hne]; [rewrite lookup_insert_eq; intros [= ->]; by left|]. rewrite lookup_insert_ne by done. by right. Qed.
Lemma put_some (jobs : jobs_map) p j j' q : jobs !! p = Some j -> is_Some (<[p := j']> jobs !! q) <-> is_Some (jobs !! q).
Proof. intros H. destruct (decide (q = p)) as [->|Hne]; [|by rewrite lookup_insert_ne]. rewrite lookup_insert_eq, H. split; by eexists. Qed.

Lemma queues_put hand queue jobs select p j j' : jobs !! p = Some j ->
  j_queue_previous j' = j_queue_previous j /\ j_queue_next j' = j_queue_next j -> hand = Some p \/ same_place j j' ->
  queues_ok hand queue jobs select -> queues_ok hand queue (<[p := j']> jobs) select.
Proof.
  intros Hj [L1 L2] Hp [H0 H1 H2 H3]. assert (El : queue_links (<[p := j']> jobs) = queue_links jobs) by (eapply view_same; [done|]; cbn; congruence).
  split; [by rewrite El|done| |].
  - intros q k Hk Hq. apply lookup_put in Hk as [[-> ->]|[Hne Hk]]; [|by apply H2]. destruct Hp as [Hp|(P1 & P2 & P3)]; [congruence|].
    destruct (H2 p j Hj Hq) as [I1 I2]. rewrite L1, L2, P1. split; [|by apply I2]. intros pr. rewrite I1. split; intros [A1 A2]; (split; [done|]); specialize (P3 A1); congruence.
  - intros q k Hk Hq. apply lookup_put in Hk as [[-> ->]|[Hne Hk]]; [|by apply H3]. rewrite L1, L2. by apply H3.
Qed.
Lemma completions_put hand completed jobs head tail p j j' : jobs !! p = Some j ->
  j_completion_previous j' = j_completion_previous j /\ j_completion_next j' = j_completion_next j -> hand = Some p \/ same_place j j' ->
  completions_ok hand completed jobs head tail -> completions_ok hand completed (<[p := j']> jobs) head tail.
Proof.
  intros Hj [L1 L2] Hp [H0 H2 H3].
  assert (El : completion_links (<[p := j']> jobs) = completion_links jobs) by (eapply view_same; [done|]; cbn; congruence).
  split; [by rewrite El| |].
  - intros q k Hk Hq. apply lookup_put in Hk as [[-> ->]|[Hne Hk]]; [|by apply H2]. destruct Hp as [Hp|(P1 & _)]; [congruence|]. rewrite L1, L2, P1. by apply H2.
  - intros q k Hk Hq. apply lookup_put in Hk as [[-> ->]|[Hne Hk]]; [|by apply H3]. rewrite L1, L2. by apply H3.
Qed.
Lemma helpers_put phase hand loose jobs helpers p j j' : jobs !! p = Some j -> hand = Some p \/ (j_assembly j' = j_assembly j /\ same_place j j') ->
  helpers_ok phase hand loose jobs helpers -> helpers_ok phase hand loose (<[p := j']> jobs) helpers.
Proof.
  intros Hj Hp [H1 H2 H3 H4 H5].
  assert (Ha : forall i h st, at_helper hand jobs i h st -> at_helper hand (<[p := j']> jobs) i h st).
  { intros i h st (q & k & A1 & A2 & A3 & A4 & A5). destruct (decide (q = p)) as [->|Hne]; [|exists q, k; by rewrite lookup_insert_ne].
    assert (k = j) as -> by congruence. destruct Hp as [Hp|(_ & P1 & P2 & _)]; [congruence|]. exists p, j'. rewrite lookup_insert_eq. by rewrite P1, P2. }
  split; [done| |done| |].
  - intros i h Hi Hl. specialize (H2 i h Hi Hl). unfold helper_fits in *. destruct (h_state h); try done; destruct H2 as [B1 B2]; (split; [|done]); auto.
  - intros q k Hk Hq. apply lookup_put in Hk as [[-> ->]|[Hne Hk]]; [|by apply H4]. destruct Hp as [Hp|(_ & P1 & P2 & _)]; [congruence|]. rewrite P1, P2. by apply H4.
  - intros q k Hk Hq. apply lookup_put in Hk as [[-> ->]|[Hne Hk]]; [|by apply (H5 q)]. destruct Hp as [Hp|(P0 & P1 & _)]; [congruence|]. rewrite P1, P0. by apply (H5 p).
Qed.

(** ** What the jobs own *)

Lemma concat_perm {A} (l k : list (list A)) : l ≡ₚ k -> concat l ≡ₚ concat k.
Proof. induction 1 as [|x l k _ IH|x y l|l k m _ IH1 _ IH2]; cbn; [done|by rewrite IH|by rewrite !app_assoc, (Permutation_app_comm x y)|by rewrite IH1]. Qed.
Lemma job_refs_delete (m : gmap Z (option Z)) p o : m !! p = Some o -> job_refs m ≡ₚ option_list o ++ job_refs (delete p m).
Proof. intros H. unfold job_refs. rewrite <- (map_to_list_delete m p o H). cbn. by destruct o. Qed.
Lemma job_handles_delete m p (a : option Z) (r : resolver_ipc_assembly_result) : m !! p = Some (a, r) -> job_handles m ≡ₚ option_list a ++ job_handles (delete p m).
Proof. intros H. unfold job_handles. rewrite <- (map_to_list_delete m p (a, r) H). cbn. by destruct a. Qed.
Lemma job_charges_delete m p (a : option Z) r : m !! p = Some (a, r) -> job_charges m ≡ₚ charge r ++ job_charges (delete p m).
Proof. intros H. unfold job_charges. rewrite (concat_perm _ _ (fmap_Permutation _ _ _ (symmetry (map_to_list_delete m p (a, r) H)))). done. Qed.

(** A job gives to the callers, and takes from them, assemblies and charges. *)
Lemma budget_swap stray charges stray' charges' owned b n p a r a' r' : budget_holds stray charges owned b n -> owned !! p = Some (a, r) ->
  stray ++ option_list a ≡ₚ stray' ++ option_list a' -> charges ++ charge r ≡ₚ charges' ++ charge r' -> budget_holds stray' charges' (<[p := (a', r')]> owned) b n.
Proof.
  intros (bu & taken & H1 & H2 & H3 & H4 & H5) Hp Hs Hc. exists bu, taken. split; [done|]. split; [done|].
  assert (Hp' : <[p := (a', r')]> owned !! p = Some (a', r')) by (by rewrite lookup_insert_eq).
  assert (Ed : delete p (<[p := (a', r')]> owned) = delete p owned) by (apply delete_insert_eq). split; [|split; [|done]].
  - rewrite H3, (job_charges_delete _ _ _ _ Hp), (job_charges_delete _ _ _ _ Hp'), Ed, !app_assoc. by apply Permutation_app_tail.
  - rewrite H4, (job_handles_delete _ _ _ _ Hp), (job_handles_delete _ _ _ _ Hp'), Ed, !app_assoc. by apply Permutation_app_tail.
Qed.
Lemma budget_remove stray charges owned b n p a r : budget_holds stray charges owned b n -> owned !! p = Some (a, r) ->
  budget_holds (stray ++ option_list a) (charges ++ charge r) (delete p owned) b n.
Proof.
  intros (bu & taken & H1 & H2 & H3 & H4 & H5) Hp. exists bu, taken. split; [done|]. split; [done|]. split; [|split; [|done]].
  - by rewrite H3, (job_charges_delete _ _ _ _ Hp), !app_assoc.
  - by rewrite H4, (job_handles_delete _ _ _ _ Hp), !app_assoc.
Qed.

Lemma inv_put_owned g w p j j' stray charges : inv g w -> jobs_of w !! p = Some j ->
  j_queue_previous j' = j_queue_previous j /\ j_queue_next j' = j_queue_next j ->
  j_completion_previous j' = j_completion_previous j /\ j_completion_next j' = j_completion_next j -> j_entry j' = j_entry j ->
  g_hand g = Some p \/ (j_assembly j' = j_assembly j /\ same_place j j') ->
  g_stray g ++ option_list (j_assembly j) ≡ₚ stray ++ option_list (j_assembly j') -> g_charges g ++ charge (j_response j) ≡ₚ charges ++ charge (j_response j') ->
  interests_ok j' -> (g_unsettled g <> Some p -> settled j') -> response_kept j' -> job_times j' ->
  inv (g <| g_stray := stray |> <| g_charges := charges |>) (put_job p j' w).
Proof.
  intros [H1 H2 H3 H4 H5 H6 H7 H8 H9 H10 (H11 & H11' & H11'') H12 H13 H14 H15 H16 H17] Hj L1 L2 L3 Hp Hst Hch HI HS HR HT.
  assert (E1 : j_entry <$> <[p := j']> (jobs_of w) = j_entry <$> jobs_of w) by (by eapply view_same).
  assert (Hp' : g_hand g = Some p \/ same_place j j') by (destruct Hp as [?|[_ ?]]; [by left|by right]).
  split; cbn; rewrite ?E1; try assumption.
  - by eapply queues_put.
  - by eapply completions_put.
  - rewrite fmap_insert. eapply budget_swap; [exact H5| |exact Hst|exact Hch]. by rewrite lookup_fmap, Hj.
  - by eapply helpers_put.
  - intros q k Hk. apply lookup_put in Hk as [[-> ->]|[Hne Hk]]; [done|by apply H9].
  - intros q k Hk. apply lookup_put in Hk as [[-> ->]|[Hne Hk]]; [done|by eapply H10].
  - split; [done|]. split; [|done]. intros q k Hk. apply lookup_put in Hk as [[-> ->]|[Hne Hk]]; [done|by eapply H11'].
  - intros q Hq. rewrite put_some by done. by apply H12.
  - intros q Hq. rewrite put_some in Hq by done. by apply H13.
  - by rewrite map_size_insert_Some by (by rewrite Hj).
Qed.
Lemma inv_put_job g w p j j' : inv g w -> jobs_of w !! p = Some j -> same_links j j' -> g_hand g = Some p \/ same_place j j' ->
  interests_ok j' -> (g_unsettled g <> Some p -> settled j') -> response_kept j' -> job_times j' -> inv g (put_job p j' w).
Proof.
  intros Hi Hj [L1 L2 (L3 & L4 & L5)] Hp HI HS HR HT.
  replace g with (g <| g_stray := g_stray g |> <| g_charges := g_charges g |>) by (by destruct g).
  apply (inv_put_owned g w p j j' (g_stray g) (g_charges g)); try done; [|by rewrite L4|by rewrite L5]. destruct Hp; [by left|by right].
Qed.

(** ** Insertion into a queue *)

Definition queue_with (l : list Z) (pr : resolver_supervisor_priority) (q : resolver_supervisor_priority -> list Z) (pr' : resolver_supervisor_priority)
    : list Z := if bool_decide (pr' = pr) then l else q pr'.

Lemma queues_insert queue jobs jobs' select select' p j l : queues_ok (Some p) queue jobs select -> jobs !! p = Some j ->
  j_state j = RESOLVER_SUPERVISOR_JOB_QUEUED -> relinked jobs jobs' ->
  dll (queue_links jobs') (qu_head (select' (j_priority j))) (qu_tail (select' (j_priority j))) l ->
  (forall x, x ∈ l <-> x = p \/ x ∈ queue (j_priority j)) -> length l = S (length (queue (j_priority j))) ->
  (forall y, y ∉ queue (j_priority j) -> y <> p -> queue_links jobs' !! y = queue_links jobs !! y) ->
  qu_count (select' (j_priority j)) = qu_count (select (j_priority j)) + 1 -> (forall pr, pr <> j_priority j -> select' pr = select pr) ->
  queues_ok None (queue_with l (j_priority j) queue) jobs' select'.
Proof.
  intros Hq Hj Hs Hr Hd Hin Hlen Hfr Hc Ho. destruct (qo_hand _ _ _ _ Hq p j Hj eq_refl) as [Hnp _].
  assert (Hdisj : forall pr q, pr <> j_priority j -> q ∈ queue pr -> (q ∉ queue (j_priority j)) /\ q <> p).
  { intros pr q Hne H1. assert (q <> p) by (intros ->; by apply (Hnp pr)). split; [|done]. intros H2. destruct (queue_elem_job _ _ _ _ _ _ Hq H1) as [k Hk].
    destruct (qo_place _ _ _ _ Hq q k Hk) as [Hi _]; [congruence|]. apply Hi in H1 as [_ H1]. apply Hi in H2 as [_ H2]. congruence. }
  split.
  - intros pr. unfold queue_with. case_bool_decide as E; [by subst pr|]. rewrite (Ho pr E).
    eapply dll_ext; [|apply (qo_dll _ _ _ _ Hq pr)]. intros x Hx. destruct (Hdisj pr x E Hx). by apply Hfr.
  - intros pr. unfold queue_with. case_bool_decide as E; [subst pr|by rewrite (Ho pr E), (qo_count _ _ _ _ Hq pr)].
    rewrite Hc, (qo_count _ _ _ _ Hq), Hlen. lia.
  - intros x k' Hk' _. destruct (relinked_lookup _ _ _ _ Hr Hk') as (k & Hk & He). destruct (decide (x = p)) as [->|Hne].
    + assert (k = j) as -> by congruence. erased He. split; [|done]. intros pr. unfold queue_with. case_bool_decide as E.
      * subst pr. rewrite Hin. split; [done|by left].
      * split; [by intros H%(Hnp pr)|]. by intros [_ <-].
    + destruct (qo_place _ _ _ _ Hq x k Hk) as [Hi Hnl]; [congruence|]. split.
      * intros pr. erased He. rewrite <- Hi. unfold queue_with. case_bool_decide as E; [|done]. subst pr. rewrite Hin. split; [by intros [?|?]|by right].
      * intros Hns. assert (Hns' : j_state k <> RESOLVER_SUPERVISOR_JOB_QUEUED) by (by rewrite <- (relinked_field j_state k k' He)).
        assert (Hx' : x ∉ queue (j_priority j)) by (intros H; by apply Hi in H as [? _]). specialize (Hfr x Hx' Hne).
        unfold queue_links in Hfr. rewrite !lookup_fmap, Hk, Hk' in Hfr. injection Hfr as -> ->. by apply Hnl.
  - intros x k Hk [=].
Qed.

(** Worlds that differ only in the lists of the jobs and the metrics. *)
Definition lists_only (w w' : world) : Prop :=
  exists jobs bq iq head tail m, w' = w <| w_supervisor := relist (w_supervisor w) jobs bq iq head tail m |>.
Lemma requeued_lists pr jobs q w : lists_only w (requeued pr jobs q w).
Proof.
  destruct pr; [exists jobs, q, (s_interactive_queue (w_supervisor w))|exists jobs, (s_background_queue (w_supervisor w)), q];
    exists (s_completion_head (w_supervisor w)), (s_completion_tail (w_supervisor w)), (s_metrics (w_supervisor w)); reflexivity.
Qed.
Lemma lists_only_refl w : lists_only w w.
Proof.
  exists (jobs_of w), (s_background_queue (w_supervisor w)), (s_interactive_queue (w_supervisor w)), (s_completion_head (w_supervisor w)),
    (s_completion_tail (w_supervisor w)), (s_metrics (w_supervisor w)). by destruct w as [s c k], s.
Qed.
Lemma lists_only_trans w1 w2 w3 : lists_only w1 w2 -> lists_only w2 w3 -> lists_only w1 w3.
Proof. intros (j1 & b1 & i1 & h1 & t1 & m1 & ->) (j2 & b2 & i2 & h2 & t2 & m2 & ->). exists j2, b2, i2, h2, t2, m2. reflexivity. Qed.
Lemma lists_put w p j : lists_only w (put_job p j w).
Proof.
  exists (<[p := j]> (jobs_of w)), (s_background_queue (w_supervisor w)), (s_interactive_queue (w_supervisor w)), (s_completion_head (w_supervisor w)),
    (s_completion_tail (w_supervisor w)), (s_metrics (w_supervisor w)). reflexivity.
Qed.
Lemma lists_helpers w w' : lists_only w w' -> (helpers_of w' = helpers_of w) /\ w_cache w' = w_cache w /\ w_kernel w' = w_kernel w /\
  s_shutting_down (w_supervisor w') = s_shutting_down (w_supervisor w) /\ s_last_now (w_supervisor w') = s_last_now (w_supervisor w).
Proof. by intros (jobs & bq & iq & head & tail & m & ->). Qed.
Lemma quietly_lists w m : lists_only w (w <| w_supervisor ::= (fun s => s <| s_metrics := m |>) |>).
Proof.
  exists (jobs_of w), (s_background_queue (w_supervisor w)), (s_interactive_queue (w_supervisor w)), (s_completion_head (w_supervisor w)),
    (s_completion_tail (w_supervisor w)), m. by destruct w as [s c k], s.
Qed.

Lemma measured_jobs f w : jobs_of (w <| w_supervisor ::= (fun s => s <| s_metrics ::= f |>) |>) = jobs_of w.
Proof. done. Qed.

(** No helper between two states has a job other than the one in hand, which none has. *)
Definition no_job_loose (g : ghost) (w : world) : Prop := forall i h, helpers_of w !! i = Some h -> g_loose g i = true -> h_job h = None.
(** The job in hand owns nothing and can wait in a queue. *)
Definition can_queue (g : ghost) (p : Z) (j : job) : Prop :=
  j_assembly j = None /\ rt_budget (j_response j) = false /\ (g_unsettled g <> Some p -> settled (j <| j_state := RESOLVER_SUPERVISOR_JOB_QUEUED |>)).

Lemma inv_queued_hand g w p j : inv g w -> g_hand g = Some p -> jobs_of w !! p = Some j -> can_queue g p j ->
  inv g (put_job p (j <| j_state := RESOLVER_SUPERVISOR_JOB_QUEUED |>) w).
Proof.
  intros Hi Hh Hj (Ha & Hb & Hs). eapply inv_put_job; [done|done|done|by left| |done| |].
  - apply (i_interests _ _ Hi p j Hj).
  - intros _. done.
  - by apply (proj1 (proj2 (i_times _ _ Hi)) p j).
Qed.

(** The end of an insertion: the queue and its links as the operation on lists leaves them. *)
Lemma inv_inserted g w p j jobs q m l : inv g w -> g_hand g = Some p -> jobs_of w !! p = Some j -> can_queue g p j -> no_job_loose g w ->
  let j' := j <| j_state := RESOLVER_SUPERVISOR_JOB_QUEUED |> in relinked (<[p := j']> (jobs_of w)) jobs ->
  completion_links jobs = completion_links (jobs_of w) -> dll (queue_links jobs) (qu_head q) (qu_tail q) l ->
  (forall x, x ∈ l <-> x = p \/ x ∈ g_queue g (j_priority j)) -> length l = S (length (g_queue g (j_priority j))) ->
  (forall y, y ∉ g_queue g (j_priority j) -> y <> p -> queue_links jobs !! y = queue_links (jobs_of w) !! y) ->
  qu_count q = qu_count (queue_at w (j_priority j)) + 1 ->
  inv (g <| g_queue := queue_with l (j_priority j) (g_queue g) |> <| g_hand := None |>)
    ((requeued (j_priority j) jobs q w) <| w_supervisor ::= (fun s => s <| s_metrics := m |>) |>).
Proof.
  intros Hi Hh Hj Hc Hn j' Hr Hl Hd Hin Hlen Hfr Hcount. pose proof (inv_queued_hand g w p j Hi Hh Hj Hc) as Hi0. fold j' in Hi0. set (w0 := put_job p j' w) in *.
  assert (Hj0 : jobs_of w0 !! p = Some j') by (unfold w0; cbn; by rewrite lookup_insert_eq).
  assert (Hl0 : completion_links jobs = completion_links (jobs_of w0)) by (rewrite Hl; symmetry; by eapply view_same).
  assert (Hq0 : queue_links (jobs_of w0) = queue_links (jobs_of w)) by (by eapply view_same).
  assert (He : requeued (j_priority j) jobs q w0 = requeued (j_priority j) jobs q w) by (by destruct (j_priority j)). 
  eapply (inv_quiet _ (requeued (j_priority j) jobs q w)); [by exists m; split; [|split; [|apply kernel_quiet_refl]]|]. rewrite <- He.
  apply inv_requeue; [done|done|done| | | |].
  - pose proof (i_queues _ _ Hi0) as Hq. rewrite Hh in Hq.
    refine (queues_insert _ _ _ _ _ _ _ l Hq Hj0 eq_refl Hr _ Hin Hlen _ _ _).
    + by rewrite requeued_queue.
    + intros y H1 H2. rewrite Hq0. by apply Hfr.
    + rewrite requeued_queue, Hcount. change (j_priority j') with (j_priority j). by destruct (j_priority j).
    + intros pr Hne. by apply requeued_other.
  - apply (completions_hand _ _ _ _ p j'); [done|done|]. pose proof (i_done _ _ Hi0) as Hq. by rewrite Hh in Hq.
  - eapply (helpers_unhand _ _ _ _ p j'); [done|done|apply Hc|exact Hn|]. pose proof (i_helpers _ _ Hi0) as Hq. by rewrite Hh in Hq.
  - done.
Qed.

Lemma put_measured p j f w : put_job p j (w <| w_supervisor ::= (fun s => s <| s_metrics ::= f |>) |>) =
  (put_job p j w) <| w_supervisor ::= (fun s => s <| s_metrics := f (s_metrics (w_supervisor w)) |>) |>.
Proof. done. Qed.
Lemma relinked_put jobs jobs' p j j' : relinked jobs jobs' -> erase j' = erase j -> relinked (<[p := j]> jobs) (<[p := j']> jobs').
Proof. unfold relinked. intros H He. by rewrite !fmap_insert, H, He. Qed.
Lemma erase_state j j' st : erase j' = erase j -> erase (j' <| j_state := st |>) = erase (j <| j_state := st |>).
Proof. intros H. change ((erase j') <| j_state := st |> = (erase j) <| j_state := st |>). by rewrite H. Qed.

(** The end of an append or a prepend: the state is set, the lists are as [dll] says. *)
Lemma wp_inserted g w p j jobs q l f : inv g w -> g_hand g = Some p -> jobs_of w !! p = Some j -> can_queue g p j -> no_job_loose g w ->
  relinked (jobs_of w) jobs -> completion_links jobs = completion_links (jobs_of w) -> dll (queue_links jobs) (qu_head q) (qu_tail q) l ->
  (forall x, x ∈ l <-> x = p \/ x ∈ g_queue g (j_priority j)) -> length l = S (length (g_queue g (j_priority j))) ->
  (forall y, y ∉ g_queue g (j_priority j) -> y <> p -> queue_links jobs !! y = queue_links (jobs_of w) !! y) ->
  qu_count q = qu_count (queue_at w (j_priority j)) + 1 ->
  wp (job_set p (fun j => j <| j_state := RESOLVER_SUPERVISOR_JOB_QUEUED |>)) (fun _ w' =>
    inv (g <| g_queue := queue_with l (j_priority j) (g_queue g) |> <| g_hand := None |>) w' /\ lists_only w w' /\
    relinked (<[p := j <| j_state := RESOLVER_SUPERVISOR_JOB_QUEUED |>]> (jobs_of w)) (jobs_of w'))
    ((requeued (j_priority j) jobs q w) <| w_supervisor ::= (fun s => s <| s_metrics ::= f |>) |>).
Proof.
  intros Hi Hh Hj Hc Hn Hr Hl Hd Hin Hlen Hfr Hcount.
  assert (Hp2 : is_Some (jobs !! p)) by (rewrite (relinked_some _ _ p Hr); by rewrite Hj). destruct Hp2 as [j2 Hj2].
  destruct (relinked_lookup _ _ _ _ Hr Hj2) as (j0 & Hj0 & He). assert (j0 = j) as -> by congruence.
  eapply wp_job_set; [rewrite measured_jobs, requeued_jobs; exact Hj2|]. rewrite put_measured, put_requeued. generalize (f (s_metrics (w_supervisor (requeued (j_priority j) jobs q w)))).
  intros m. assert (R3 := relinked_put _ _ p _ _ Hr (erase_state _ _ RESOLVER_SUPERVISOR_JOB_QUEUED He)).
  assert (Q3 : queue_links (<[p := j2 <| j_state := RESOLVER_SUPERVISOR_JOB_QUEUED |>]> jobs) = queue_links jobs) by (by eapply view_same).
  split; [|split].
  - eapply inv_inserted; [done..| | | | | |]; rewrite ?Q3; try done. rewrite <- Hl. by eapply view_same.
  - eapply lists_only_trans; [apply requeued_lists|apply quietly_lists].
  - change (jobs_of (?v <| w_supervisor ::= _ |>)) with (jobs_of v). by rewrite requeued_jobs.
Qed.

Lemma wp_queue_append g w p j : inv g w -> g_hand g = Some p -> jobs_of w !! p = Some j -> can_queue g p j -> no_job_loose g w ->
  wp (resolver_supervisor_job_queue_append p) (fun _ w' =>
    inv (g <| g_queue := queue_with (g_queue g (j_priority j) ++ [p]) (j_priority j) (g_queue g) |> <| g_hand := None |>) w' /\ lists_only w w' /\
    relinked (<[p := j <| j_state := RESOLVER_SUPERVISOR_JOB_QUEUED |>]> (jobs_of w)) (jobs_of w')) w.
Proof.
  intros Hi Hh Hj Hc Hn. pose proof (i_queues _ _ Hi) as Hq. rewrite Hh in Hq. destruct (qo_hand _ _ _ _ Hq p j Hj eq_refl) as (Hnp & Hpr & Hnx).
  set (pr := j_priority j). assert (Hm : queue_links (jobs_of w) !! p = Some (None, None)) by (unfold queue_links; rewrite lookup_fmap, Hj; cbn; by rewrite Hpr, Hnx).
  destruct (dll_append_spec _ _ _ _ _ _ (qo_dll _ _ _ _ Hq pr) (Hnp pr) Hm) as (m & h & t & Hd & Hdll & Hfr).
  unfold resolver_supervisor_job_queue_append. step. eapply wp_job_get; [done|]. steps. eapply wp_job_set; [done|].
  fold pr. rewrite (put_as_requeued pr). set (jobs1 := <[p := j <| j_queue_previous := qu_tail (queue_at w pr) |>]> (jobs_of w)).
  assert (R1 : relinked (jobs_of w) jobs1) by (by apply (relinked_insert _ _ _ j)).
  assert (L1 : queue_links jobs1 = set_previous (qu_tail (queue_at w pr)) (queue_links (jobs_of w)) p)
    by (unfold queue_links, jobs1; by erewrite (view_update _ (fun j => j <| j_queue_previous := qu_tail (queue_at w pr) |>)); [|done|]).
  step. apply wp_set_next; rewrite ?requeued_jobs.
  { intros q Hq'. rewrite (relinked_some _ _ q R1). eapply (queue_elem_job _ _ _ _ pr); [exact Hq|]. apply last_or_elem.
    by rewrite <- (dll_tail _ _ _ _ (qo_dll _ _ _ _ Hq pr)). }
  intros jobs2 R2 L2 C2. rewrite requeued_twice, requeued_queue. step. apply wp_on_queue. rewrite requeued_jobs, requeued_queue, requeued_twice. step.
  unfold queue_high_water. steps.
  assert (E : (queue_links jobs2, qu_head (match qu_tail (queue_at w pr) with None => (queue_at w pr) <| qu_head := Some p |> | Some _ => queue_at w pr end), Some p) = (m, h, t))
    by (rewrite <- Hd, L2, L1; unfold dll_append, next_of; by destruct (qu_tail (queue_at w pr))). injection E as E1 E2 E3.
  apply wp_inserted; try done.
  - by eapply relinked_trans.
  - rewrite C2. by eapply view_same.
  - cbn. by rewrite E1, E2, E3.
  - intros x. rewrite elem_of_app, list_elem_of_singleton. unfold pr. tauto.
  - rewrite length_app. cbn. unfold pr. lia.
  - intros y H1 H2. rewrite E1. by apply Hfr.
  - by destruct (qu_tail (queue_at w pr)).
Qed.

Lemma wp_queue_prepend g w p j : inv g w -> g_hand g = Some p -> jobs_of w !! p = Some j -> can_queue g p j -> no_job_loose g w ->
  wp (resolver_supervisor_job_queue_prepend p) (fun _ w' =>
    inv (g <| g_queue := queue_with (p :: g_queue g (j_priority j)) (j_priority j) (g_queue g) |> <| g_hand := None |>) w' /\ lists_only w w' /\
    relinked (<[p := j <| j_state := RESOLVER_SUPERVISOR_JOB_QUEUED |>]> (jobs_of w)) (jobs_of w')) w.
Proof.
  intros Hi Hh Hj Hc Hn. pose proof (i_queues _ _ Hi) as Hq. rewrite Hh in Hq. destruct (qo_hand _ _ _ _ Hq p j Hj eq_refl) as (Hnp & Hpr & Hnx).
  set (pr := j_priority j). assert (Hm : queue_links (jobs_of w) !! p = Some (None, None)) by (unfold queue_links; rewrite lookup_fmap, Hj; cbn; by rewrite Hpr, Hnx).
  destruct (dll_prepend_spec _ _ _ _ _ _ (qo_dll _ _ _ _ Hq pr) (Hnp pr) Hm) as (m & h & t & Hd & Hdll & Hfr).
  unfold resolver_supervisor_job_queue_prepend. step. eapply wp_job_get; [done|]. steps. eapply wp_job_set; [done|].
  fold pr. rewrite (put_as_requeued pr). set (jobs1 := <[p := j <| j_queue_next := qu_head (queue_at w pr) |>]> (jobs_of w)).
  assert (R1 : relinked (jobs_of w) jobs1) by (by apply (relinked_insert _ _ _ j)).
  assert (L1 : queue_links jobs1 = set_next (qu_head (queue_at w pr)) (queue_links (jobs_of w)) p)
    by (unfold queue_links, jobs1; by erewrite (view_update _ (fun j => j <| j_queue_next := qu_head (queue_at w pr) |>)); [|done|]).
  step. apply wp_set_previous; rewrite ?requeued_jobs.
  { intros q Hq'. rewrite (relinked_some _ _ q R1). eapply (queue_elem_job _ _ _ _ pr); [exact Hq|]. apply hd_or_elem.
    by rewrite <- (dll_head _ _ _ _ (qo_dll _ _ _ _ Hq pr)). }
  intros jobs2 R2 L2 C2. rewrite requeued_twice, requeued_queue. step. apply wp_on_queue. rewrite requeued_jobs, requeued_queue, requeued_twice. step.
  unfold queue_high_water. steps.
  assert (E : (queue_links jobs2, Some p, qu_tail (match qu_head (queue_at w pr) with None => (queue_at w pr) <| qu_tail := Some p |> | Some _ => queue_at w pr end)) = (m, h, t))
    by (rewrite <- Hd, L2, L1; unfold dll_prepend, previous_of; by destruct (qu_head (queue_at w pr))). injection E as E1 E2 E3.
  apply wp_inserted; try done.
  - by eapply relinked_trans.
  - rewrite C2. by eapply view_same.
  - rewrite <- E1, <- E2, <- E3 in Hdll. by destruct (qu_head (queue_at w pr)).
  - intros x. rewrite elem_of_cons. unfold pr. tauto.
  - intros y H1 H2. rewrite E1. by apply Hfr.
  - by destruct (qu_head (queue_at w pr)).
Qed.

(** ** Completions *)

Lemma completions_remove completed jobs jobs' head tail head' tail' p j : completions_ok None completed jobs head tail -> jobs !! p = Some j ->
  j_state j = RESOLVER_SUPERVISOR_JOB_COMPLETE -> relinked jobs jobs' ->
  dll_remove (completion_links jobs, head, tail) p (j_completion_previous j) (j_completion_next j) = (completion_links jobs', head', tail') ->
  completions_ok (Some p) (without p completed) jobs' head' tail' .
Proof.
  intros Hq Hj Hs Hr Hd. destruct (co_place _ _ _ _ _ Hq p j Hj ltac:(done)) as [Hin _]. apply Hin in Hs as Hin'. apply list_elem_of_split in Hin' as (a & b & Hab).
  pose proof (co_dll _ _ _ _ _ Hq) as Hdll. rewrite Hab in Hdll.
  destruct (dll_remove_spec _ _ _ _ _ _ Hdll) as (m & h & t & Hd' & Hl & Hdll' & Hm & Hfr). unfold completion_links in Hl at 1. rewrite lookup_fmap, Hj in Hl.
  injection Hl as Hpr Hnx. rewrite Hpr, Hnx, Hd' in Hd. injection Hd as -> -> ->.
  assert (Hw : without p completed = a ++ b) by (rewrite Hab; apply without_split; apply Hdll). split.
  - by rewrite Hw.
  - intros x k' Hk' Hx. destruct (relinked_lookup _ _ _ _ Hr Hk') as (k & Hk & He). destruct (co_place _ _ _ _ _ Hq x k Hk ltac:(done)) as [Hix Hnl]. split.
    + erased He. rewrite <- Hix, without_elem. split; [by intros [? _]|]. intros H. split; [done|]. congruence.
    + intros Hns. assert (Hns' : j_state k <> RESOLVER_SUPERVISOR_JOB_COMPLETE) by (by rewrite <- (relinked_field j_state k k' He)).
      assert (Hx' : x ∉ a ++ p :: b) by (rewrite <- Hab; intros H; by apply Hix in H). specialize (Hfr x Hx').
      unfold completion_links in Hfr. rewrite !lookup_fmap, Hk, Hk' in Hfr. injection Hfr as -> ->. by apply Hnl.
  - intros x k' Hk' [= <-]. split; [by rewrite without_elem; intros [_ ?]|]. unfold completion_links in Hm. rewrite lookup_fmap, Hk' in Hm. by injection Hm as -> ->.
Qed.

Lemma completions_append completed jobs jobs' head tail head' tail' p j : completions_ok (Some p) completed jobs head tail -> jobs !! p = Some j ->
  j_state j = RESOLVER_SUPERVISOR_JOB_COMPLETE -> relinked jobs jobs' ->
  dll_append (completion_links jobs, head, tail) p = (completion_links jobs', head', tail') ->
  completions_ok None (completed ++ [p]) jobs' head' tail' .
Proof.
  intros Hq Hj Hs Hr Hd. destruct (co_hand _ _ _ _ _ Hq p j Hj eq_refl) as (Hnp & Hpr & Hnx).
  assert (Hm : completion_links jobs !! p = Some (None, None)) by (unfold completion_links; rewrite lookup_fmap, Hj; cbn; by rewrite Hpr, Hnx).
  destruct (dll_append_spec _ _ _ _ _ _ (co_dll _ _ _ _ _ Hq) Hnp Hm) as (m & h & t & Hd' & Hdll & Hfr). rewrite Hd' in Hd. injection Hd as -> -> ->. split.
  - done.
  - intros x k' Hk' _. destruct (relinked_lookup _ _ _ _ Hr Hk') as (k & Hk & He). destruct (decide (x = p)) as [->|Hne].
    + assert (k = j) as -> by congruence. erased He. split; [|done]. rewrite elem_of_app, list_elem_of_singleton. split; [done|by right].
    + destruct (co_place _ _ _ _ _ Hq x k Hk) as [Hi Hnl]; [congruence|]. split.
      * erased He. rewrite <- Hi, elem_of_app, list_elem_of_singleton. split; [by intros [?|?]|by left].
      * intros Hns. assert (Hns' : j_state k <> RESOLVER_SUPERVISOR_JOB_COMPLETE) by (by rewrite <- (relinked_field j_state k k' He)).
        assert (Hx' : x ∉ completed) by (intros H; by apply Hi in H). specialize (Hfr x Hx' Hne).
        unfold completion_links in Hfr. rewrite !lookup_fmap, Hk, Hk' in Hfr. injection Hfr as -> ->. by apply Hnl.
  - intros x k Hk [=].
Qed.

(** Worlds with other jobs and other ends of the completions. *)
Definition recompleted (jobs : jobs_map) (head tail : option Z) (w : world) : world :=
  w <| w_supervisor ::= (fun s => s <| s_jobs := jobs |> <| s_completion_head := head |> <| s_completion_tail := tail |>) |>.
#[export] Abbreviation head_of w := (s_completion_head (w_supervisor w)).
#[export] Abbreviation tail_of w := (s_completion_tail (w_supervisor w)).

Lemma put_as_recompleted p j w : put_job p j w = recompleted (<[p := j]> (jobs_of w)) (head_of w) (tail_of w) w.
Proof. done. Qed.
Lemma recompleted_lists jobs head tail w : lists_only w (recompleted jobs head tail w).
Proof. exists jobs, (s_background_queue (w_supervisor w)), (s_interactive_queue (w_supervisor w)), head, tail, (s_metrics (w_supervisor w)). done. Qed.

Lemma recompleted_twice jobs head tail jobs' head' tail' w : recompleted jobs head tail (recompleted jobs' head' tail' w) = recompleted jobs head tail w.
Proof. done. Qed.

Lemma recompleted_jobs jobs head tail w : jobs_of (recompleted jobs head tail w) = jobs.
Proof. done. Qed.

Lemma wp_set_completion_next o v (Q : () -> world -> Prop) w : (forall q, o = Some q -> is_Some (jobs_of w !! q)) ->
  (forall jobs, relinked (jobs_of w) jobs -> completion_links jobs = next_of o v (completion_links (jobs_of w)) -> queue_links jobs = queue_links (jobs_of w) ->
    Q () (recompleted jobs (match o with None => v | Some _ => head_of w end) (tail_of w) w)) ->
  wp (match o with None => on_supervisor (fun s => s <| s_completion_head := v |>) | Some p => job_set p (fun j => j <| j_completion_next := v |>) end) Q w.
Proof.
  intros Ho HQ. destruct o as [p|].
  - destruct (Ho p eq_refl) as [j Hj]. eapply wp_job_set; [done|]. rewrite put_as_recompleted. apply HQ.
    + by eapply relinked_insert.
    + unfold completion_links. by erewrite (view_update _ (fun j => j <| j_completion_next := v |>)); [|done|].
    + unfold queue_links. by eapply view_same.
  - step. by apply HQ.
Qed.
Lemma wp_set_completion_previous o v (Q : () -> world -> Prop) w : (forall q, o = Some q -> is_Some (jobs_of w !! q)) ->
  (forall jobs, relinked (jobs_of w) jobs -> completion_links jobs = previous_of o v (completion_links (jobs_of w)) ->
    queue_links jobs = queue_links (jobs_of w) -> Q () (recompleted jobs (head_of w) (match o with None => v | Some _ => tail_of w end) w)) ->
  wp (match o with None => on_supervisor (fun s => s <| s_completion_tail := v |>) | Some p => job_set p (fun j => j <| j_completion_previous := v |>) end) Q w.
Proof.
  intros Ho HQ. destruct o as [p|].
  - destruct (Ho p eq_refl) as [j Hj]. eapply wp_job_set; [done|]. rewrite put_as_recompleted. apply HQ.
    + by eapply relinked_insert.
    + unfold completion_links. by erewrite (view_update _ (fun j => j <| j_completion_previous := v |>)); [|done|].
    + unfold queue_links. by eapply view_same.
  - step. by apply HQ.
Qed.

Lemma queues_relinked hand queue jobs jobs' select : relinked jobs jobs' -> queue_links jobs' = queue_links jobs ->
  queues_ok hand queue jobs select -> queues_ok hand queue jobs' select.
Proof.
  intros Hr Hl [H0 H1 H2 H3]. assert (Hf : forall p j j', jobs' !! p = Some j' -> jobs !! p = Some j ->
      j_queue_previous j' = j_queue_previous j /\ j_queue_next j' = j_queue_next j).
  { intros p j j' Hj' Hj. assert (E : queue_links jobs' !! p = queue_links jobs !! p) by (by rewrite Hl). unfold queue_links in E.
    rewrite !lookup_fmap, Hj, Hj' in E. by injection E. }
  split; [by rewrite Hl|done| |]; intros p j' Hj' Hh; destruct (relinked_lookup _ _ _ _ Hr Hj') as (j & Hj & He); destruct (Hf p j j' Hj' Hj) as [-> ->].
  - erased He. by apply H2.
  - by apply H3.
Qed.

Lemma inv_recomplete g w completed hand jobs head tail : inv g w -> relinked (jobs_of w) jobs -> queue_links jobs = queue_links (jobs_of w) ->
  completions_ok hand completed jobs head tail ->
  queues_ok hand (g_queue g) (jobs_of w) (resolver_supervisor_job_queue_select (w_supervisor w)) ->
  helpers_ok (g_phase g) hand (g_loose g) (jobs_of w) (helpers_of w) -> (forall p, hand = Some p -> is_Some (jobs_of w !! p)) ->
  inv (g <| g_done := completed |> <| g_hand := hand |>) (recompleted jobs head tail w).
Proof.
  intros Hi Hr Hl HA HB HF HH. assert (HB' := queues_relinked _ _ _ _ _ Hr Hl HB).
  apply (inv_relink g (g_queue g) completed hand w jobs (s_background_queue (w_supervisor w)) (s_interactive_queue (w_supervisor w)) head tail
    (s_metrics (w_supervisor w))); done.
Qed.

Lemma completion_elem_job hand completed jobs head tail p : completions_ok hand completed jobs head tail -> p ∈ completed -> is_Some (jobs !! p).
Proof.
  intros Hq Hp. pose proof (dll_elem _ _ _ _ _ (co_dll _ _ _ _ _ Hq) Hp) as H. unfold completion_links in H. rewrite lookup_fmap in H. by apply fmap_is_Some in H.
Qed.

Lemma wp_completion_remove g w p j : inv g w -> g_hand g = None -> jobs_of w !! p = Some j -> j_state j = RESOLVER_SUPERVISOR_JOB_COMPLETE ->
  wp (resolver_supervisor_job_completion_remove p) (fun _ w' => inv (g <| g_done := without p (g_done g) |> <| g_hand := Some p |>) w' /\
    exists jobs head tail, w' = recompleted jobs head tail w /\ relinked (jobs_of w) jobs) w.
Proof.
  intros Hi Hh Hj Hs. pose proof (i_done _ _ Hi) as Hq. rewrite Hh in Hq. destruct (co_place _ _ _ _ _ Hq p j Hj ltac:(done)) as [Hin _].
  apply Hin in Hs as Hin'. apply list_elem_of_split in Hin' as (a & b & Hab). pose proof (co_dll _ _ _ _ _ Hq) as Hdll. rewrite Hab in Hdll.
  destruct (dll_remove_spec _ _ _ _ _ _ Hdll) as (_ & _ & _ & _ & Hl & _). unfold completion_links in Hl. rewrite lookup_fmap, Hj in Hl. injection Hl as Hpr Hnx.
  assert (Hex : forall q, q ∈ a ++ p :: b -> is_Some (jobs_of w !! q)) by (intros q Hin'; rewrite <- Hab in Hin'; by eapply completion_elem_job).
  unfold resolver_supervisor_job_completion_remove. step. eapply wp_job_get; [done|]. step. apply wp_set_completion_next.
  { intros q Hq'. apply Hex, elem_of_app. left. apply last_or_elem. by rewrite <- Hpr. }
  intros jobs1 R1 L1 C1. step. apply wp_set_completion_previous; rewrite ?recompleted_jobs.
  { intros q Hq'. rewrite (relinked_some _ _ q R1). apply Hex, elem_of_app. right. right. apply hd_or_elem. by rewrite <- Hnx. }
  intros jobs2 R2 L2 C2. assert (R02 := relinked_trans _ _ _ R1 R2).
  assert (Hp2 : is_Some (jobs2 !! p)) by (rewrite (relinked_some _ _ p R02); by rewrite Hj). destruct Hp2 as [j2 Hj2].
  eapply wp_job_set; [exact Hj2|]. rewrite put_as_recompleted, !recompleted_jobs.
  assert (R3 : relinked (jobs_of w) (<[p := j2 <| j_completion_next := None |> <| j_completion_previous := None |>]> jobs2)) by (by eapply relinked_insert).
  split; [|by eexists _, _, _]. rewrite !recompleted_twice. cbn [s_completion_head s_completion_tail]. apply (inv_recomplete g w); [done|done| | | | |].
  - rewrite <- C1, <- C2. by eapply view_same.
  - eapply completions_remove; [exact Hq|done|done|done|]. unfold dll_remove.
    assert (E : completion_links (<[p := j2 <| j_completion_next := None |> <| j_completion_previous := None |>]> jobs2) =
      set_previous None (set_next None (completion_links jobs2) p) p).
    { rewrite unlinked. unfold completion_links. by erewrite (view_update _ (fun j => j <| j_completion_next := None |> <| j_completion_previous := None |>)); [|done|]. }
    rewrite E, L2, L1. by destruct (j_completion_previous j), (j_completion_next j).
  - apply (queues_hand _ _ _ p j); [done|congruence|]. pose proof (i_queues _ _ Hi) as Hd. by rewrite Hh in Hd.
  - apply (helpers_hand _ _ _ _ p j); [done|by rewrite Hs|]. pose proof (i_helpers _ _ Hi) as Hd. by rewrite Hh in Hd.
  - intros q [= <-]. by rewrite Hj.
Qed.
