(* ===== verification/SupervisorJobs.v ===== *)
(** * Operations on the jobs of the supervisor keep its invariant

    Completing, destroying, retrying a job and changing its priority, from the invariant
    of [SupervisorInv]: each takes a job that is in hand, or one in its place, and leaves
    the invariant with the job put down or gone. *)

From S2P Require Import Prelude Stateful Dll TimeUtil Metrics ResolverUtil Cache Ipc IpcAssembly Helper Supervisor SupervisorDelay SupervisorInv.
From stdpp Require Import gmap.
#[local] Open Scope Z_scope.
#[local] Abbreviation prog := (prog world).

(** ** What the operations on jobs leave as it is *)

Definition queue_total (w : world) : Z := qu_count (queue_at w RESOLVER_SUPERVISOR_PRIORITY_BACKGROUND) + qu_count (queue_at w RESOLVER_SUPERVISOR_PRIORITY_INTERACTIVE).
Record steady (w w' : world) : Prop := {
  st_helpers : helpers_of w' = helpers_of w;
  st_down : s_shutting_down (w_supervisor w') = s_shutting_down (w_supervisor w);
  st_now : s_last_now (w_supervisor w') = s_last_now (w_supervisor w);
  st_kernel : kernel_quiet (w_kernel w) (w_kernel w');
}.
Lemma steady_refl w : steady w w.
Proof. by split. Qed.
Lemma kernel_quiet_trans k1 k2 k3 : kernel_quiet k1 k2 -> kernel_quiet k2 k3 -> kernel_quiet k1 k3.
Proof. intros [K1 K2 K3 K4 K5] [L1 L2 L3 L4 L5]. split; [lia|congruence|congruence|tauto|tauto]. Qed.
Lemma steady_trans w1 w2 w3 : steady w1 w2 -> steady w2 w3 -> steady w1 w3.
Proof. intros [A1 A2 A3 A4] [B1 B2 B3 B4]. split; [congruence..|]. exact (kernel_quiet_trans _ _ _ A4 B4). Qed.
Lemma quiet_steady w w' : quiet w w' -> steady w w'.
Proof. intros (m & Hs & _ & Hk). split; try done; by rewrite Hs. Qed.
Lemma lists_steady w w' : lists_only w w' -> steady w w'.
Proof. intros H%lists_helpers. destruct H as (H1 & _ & H3 & H4 & H5). split; try done. rewrite H3. apply kernel_quiet_refl. Qed.
Lemma quiet_total w w' : quiet w w' -> queue_total w' = queue_total w.
Proof. intros (m & Hs & _). unfold queue_total. by rewrite Hs. Qed.
Lemma recompleted_total jobs head tail w : queue_total (recompleted jobs head tail w) = queue_total w.
Proof. done. Qed.
Lemma no_job_loose_steady g w w' : steady w w' -> no_job_loose g w -> no_job_loose g w'.
Proof. intros [H _ _ _]. unfold no_job_loose. by rewrite H. Qed.

(** ** Completion *)

Definition completed_job (publication : resolver_cache_publish_status) (response : resolver_ipc_assembly_result) (j : job) : job :=
  j <| j_background_interest_count := 0 |> <| j_interactive_interest_count := 0 |> <| j_publication := publication |> <| j_response := response |>
    <| j_state := RESOLVER_SUPERVISOR_JOB_COMPLETE |>.

Lemma inv_completed_hand g w p j publication response charges : inv g w -> g_hand g = Some p -> jobs_of w !! p = Some j -> j_orphaned j = false ->
  rt_budget (j_response j) = false -> g_charges g ≡ₚ charges ++ charge response ->
  inv (g <| g_charges := charges |>) (put_job p (completed_job publication response j) w).
Proof.
  intros Hi Hh Hj Ho Hb Hc. change (g <| g_charges := charges |>) with (g <| g_stray := g_stray g |> <| g_charges := charges |>).
  eapply inv_put_owned; [done|done|done|done|done|by left|done| | | | |].
  - unfold charge at 1. rewrite Hb, app_nil_r. done.
  - by split.
  - intros _. done.
  - intros Hn. done.
  - by apply (proj1 (proj2 (i_times _ _ Hi)) p j).
Qed.

Lemma recompleted_put p j jobs head tail w : recompleted jobs head tail (put_job p j w) = recompleted jobs head tail w.
Proof. done. Qed.
Lemma recompleted_tail jobs head tail v w :
  (recompleted jobs head tail w) <| w_supervisor ::= (fun s => s <| s_completion_tail := v |>) |> = recompleted jobs head v w.
Proof. done. Qed.

Lemma wp_job_complete g w p j publication response charges : inv g w -> g_hand g = Some p -> jobs_of w !! p = Some j -> j_orphaned j = false ->
  j_assembly j = None -> rt_budget (j_response j) = false -> no_job_loose g w -> g_charges g ≡ₚ charges ++ charge response ->
  wp (resolver_supervisor_job_complete p publication response) (fun _ w' =>
    inv (g <| g_charges := charges |> <| g_done := g_done g ++ [p] |> <| g_hand := None |>) w' /\ steady w w' /\ queue_total w' = queue_total w /\
    relinked (<[p := completed_job publication response j]> (jobs_of w)) (jobs_of w')) w.
Proof.
  intros Hi Hh Hj Ho Ha Hb Hn Hc. unfold resolver_supervisor_job_complete. step. apply wp_quietly.
  { apply quietly_attempt_increment. by eapply inv_live. }
  intros _ w1 Hq. pose proof (inv_quiet _ _ _ Hq Hi) as Hi1. rewrite <- (quiet_jobs _ _ Hq) in Hj |- *.
  assert (Hs1 := quiet_steady _ _ Hq). apply (no_job_loose_steady _ _ _ Hs1) in Hn. rewrite <- (quiet_total _ _ Hq). clear Hq Hi.
  pose proof (inv_completed_hand _ _ _ _ publication _ charges Hi1 Hh Hj Ho Hb Hc) as Hi2. 
  assert (Hsj : j_state (completed_job publication response j) = RESOLVER_SUPERVISOR_JOB_COMPLETE) by done.
  change (j_assembly j) with (j_assembly (completed_job publication response j)) in Ha.
  change (g_hand g) with (g_hand (g <| g_charges := charges |>)) in Hh. 
  step. step. step. eapply wp_job_set; [exact Hj|]. fold (completed_job publication response j). rewrite put_as_recompleted.
  change (no_job_loose g w1) with (no_job_loose (g <| g_charges := charges |>) (put_job p (completed_job publication response j) w1)) in Hn.
  change (g_done g) with (g_done (g <| g_charges := charges |>)).
  revert Ha Hi2 Hsj Hn Hh. generalize (g <| g_charges := charges |>). generalize (completed_job publication response j). intros j' g' Ha Hi2 Hsj Hn Hh.
  assert (Hj2 : jobs_of (put_job p j' w1) !! p = Some j') by (cbn; by rewrite lookup_insert_eq).
  pose proof (i_done _ _ Hi2) as Hd2. rewrite Hh in Hd2. pose proof (i_queues _ _ Hi2) as Hq2. rewrite Hh in Hq2. pose proof (i_helpers _ _ Hi2) as Hp2. rewrite Hh in Hp2.
  rewrite <- (recompleted_put p j').
  set (jobs1 := <[p := j' <| j_completion_previous := tail_of w1 |>]> (jobs_of w1)). set (w2 := put_job p j' w1) in *.
  assert (E1 : jobs1 = <[p := j' <| j_completion_previous := tail_of w1 |>]> (jobs_of w2)) by (unfold jobs1, w2; cbn; by rewrite insert_insert_eq).
  assert (R1 : relinked (jobs_of w2) jobs1) by (rewrite E1; by eapply relinked_insert).
  assert (L1 : completion_links jobs1 = set_previous (tail_of w1) (completion_links (jobs_of w2)) p).
  { rewrite E1. unfold completion_links. by erewrite (view_update _ (fun j => j <| j_completion_previous := tail_of w1 |>)); [|done|]. }
  assert (C1 : queue_links jobs1 = queue_links (jobs_of w2)) by (rewrite E1; by eapply view_same).
  step. apply wp_set_completion_next; rewrite ?recompleted_jobs.
  { intros q Hq. rewrite (relinked_some _ _ q R1). eapply completion_elem_job; [exact Hd2|]. apply last_or_elem. by rewrite <- (dll_tail _ _ _ _ (co_dll _ _ _ _ _ Hd2)). }
  intros jobs2 R2 L2 C2. assert (R3 := relinked_trans _ _ _ R1 R2). step. rewrite recompleted_twice, recompleted_tail.
  split; [|split; [|split; [done|exact R3]]].
  - apply (inv_recomplete g' w2); [done|done|congruence| | | |done].
    + refine (completions_append _ _ _ _ _ _ _ _ _ Hd2 Hj2 Hsj R3 _). rewrite L2, L1. unfold dll_append, next_of. change (tail_of w2) with (tail_of w1).
      by destruct (tail_of w1).
    + apply (queues_hand _ _ _ p j'); [done|congruence|done].
    + eapply (helpers_unhand _ _ _ _ p j'); [done|by rewrite Hsj|exact Ha|exact Hn|done].
  - eapply steady_trans; [exact Hs1|]. apply lists_steady. eapply lists_only_trans; [apply (lists_put w1 p j')|apply recompleted_lists].
Qed.

(** ** What the jobs own is given back *)

Lemma references_perm c l l' : l ≡ₚ l' -> holds c l -> holds c l'.
Proof. intros Hp [Hc H]. split; [done|]. intros id. rewrite H. by rewrite (proj1 (Permutation_count_occ Z.eq_dec _ _) Hp id). Qed.
Lemma references_set c id n k : references_of (entry_set c id (with_reference_count n)) k =
  if (k =? id) && bool_decide (is_Some (entry_get c k)) then n else references_of c k.
Proof.
  unfold references_of. rewrite entry_get_set by apply keeps_reference_count. destruct (k =? id); [|done]. by destruct (entry_get c k).
Qed.
Lemma holds_release c o l : holds c (option_list o ++ l) -> exists c', resolver_cache_entry_release c o = Some c' /\ holds c' l.
Proof.
  intros H. destruct o as [id|]; [|by exists c]. change (option_list (Some id) ++ l) with (id :: l) in H. destruct (holds_entry _ _ id H) as (e & He & Hn); [by left|].
  destruct H as [Hc H]. rewrite count_occ_cons_eq in Hn by done. destruct (payload_room c id e Hc He) as (Heok & _ & _). pose proof (eo_refs e Heok) as Hr.
  destruct (decide (e_reference_count e = 1)) as [H1|H1].
  - exists (Cache.without c e). rewrite (release_last c id e) by done. split; [done|]. split; [by eapply without_ok|]. intros k. specialize (H k). unfold references_of in *.
    rewrite (entry_get_without c id e) by done. destruct (k =? id) eqn:E; [apply Z.eqb_eq in E as ->; lia|]. rewrite count_occ_cons_neq in H by lia. exact H.
  - assert (Hrel : resolver_cache_entry_release c (Some id) = Some (entry_set c id (with_reference_count (e_reference_count e - 1)))).
    { unfold resolver_cache_entry_release. rewrite He. cbn [mbind option_bind]. replace (e_reference_count e =? 0) with false by lia.
      by replace (e_reference_count e - 1 =? 0) with false by lia. }
    eexists. split; [exact Hrel|]. split; [by eapply release_ok|]. intros k. rewrite references_set. specialize (H k). destruct (k =? id) eqn:E; cbn [andb].
    + apply Z.eqb_eq in E as ->. rewrite He, bool_decide_eq_true_2 by done. lia.
    + rewrite count_occ_cons_neq in H by lia. exact H.
Qed.

Lemma without_perm h l k : l ≡ₚ k -> without h l ≡ₚ without h k.
Proof.
  unfold without. induction 1 as [|x l k _ IH|x y l|l k m _ IH1 _ IH2]; cbn; [done| | |by rewrite IH1].
  - destruct (negb (x =? h)); [by rewrite IH|done].
  - destruct (negb (x =? h)), (negb (y =? h)); try done. apply Permutation_swap.
Qed.
Lemma without_cons h l : NoDup (h :: l) -> without h (h :: l) = l.
Proof. intros H. exact (without_split h [] l H). Qed.

Lemma assembly_get_handle b h : h ∈ as_handle <$> bu_assemblies b -> exists a, assembly_get b h = Some a.
Proof.
  unfold assembly_get. induction (bu_assemblies b) as [|a l IH]; [by intros ?%list.elem_of_nil|]. rewrite fmap_cons, list.elem_of_cons. cbn. intros [->|H].
  - rewrite Z.eqb_refl. by exists a.
  - if_as E; [by exists a|by apply IH].
Qed.
Lemma budget_destroy o stray charges owned b n : budget_holds (option_list o ++ stray) charges owned (Some b) n ->
  exists b', resolver_ipc_assembly_destroy b o = Some b' /\ budget_holds stray charges owned (Some b') n.
Proof.
  intros (bu & taken & [= <-] & H2 & H3 & H4 & H5). destruct o as [h|]; [|exists b; split; [done|]; by exists b, taken].
  change ((option_list (Some h) ++ stray) ++ job_handles owned) with (h :: (stray ++ job_handles owned)) in H4. destruct (assembly_get_handle b h) as [a Ha]; [rewrite H4; by left|].
  destruct (destroy_keeps b taken h a H2 Ha) as (b' & Hb' & Hok & Hf). exists b'. split; [done|]. exists b', taken. split; [done|]. split; [done|]. split; [done|].
  assert (Hw : as_handle <$> bu_assemblies b' = without h (as_handle <$> bu_assemblies b)).
  { rewrite Hf. unfold without. clear. induction (bu_assemblies b) as [|x l IH]; [done|]. cbn. destruct (negb (as_handle x =? h)); cbn; [by f_equal|done]. }
  split.
  - rewrite Hw, (without_perm h _ _ H4), without_cons; [done|]. rewrite <- H4. apply H2.
  - rewrite Hw. unfold without. apply list.Forall_forall. intros x Hx%list_elem_of_In%filter_In. destruct Hx as [Hx _]. eapply list.Forall_forall in H5; [exact H5|].
    by apply list_elem_of_In.
Qed.
Lemma budget_result_destroy r stray charges owned b n : budget_holds stray (charge r ++ charges) owned (Some b) n ->
  budget_holds stray charges owned (Some (resolver_ipc_assembly_result_destroy b (Some r)).1) n.
Proof.
  intros (bu & taken & [= <-] & H2 & H3 & H4 & H5). unfold charge in H3. cbn [resolver_ipc_assembly_result_destroy fst]. destruct (rt_budget r) eqn:Eb.
  2:{ by exists b, taken. }
  assert (Hin : rt_dynamic_bytes r ∈ rt_dynamic_bytes <$> taken) by (rewrite H3; by left). apply list_elem_of_fmap in Hin as (x & Hx & Hin).
  apply list_elem_of_split in Hin as (l & k & ->). destruct (result_destroy_keeps b l x k H2) as (b' & Hb' & Hok & _).
  assert (Hxb : rt_budget x = true).
  { pose proof (bo_taken _ _ H2) as Ht. apply list.Forall_app in Ht as [_ Ht]. apply list.Forall_cons in Ht as [(a0 & resp & _ & _ & ->) _]. done. }
  cbn [resolver_ipc_assembly_result_destroy] in Hb'. rewrite Hxb, <- Hx in Hb'. injection Hb' as Hb'.
  assert (Ha : bu_assemblies b' = bu_assemblies b) by (rewrite <- Hb'; done). exists b', (l ++ k). split; [by rewrite Hb'|]. split; [done|]. rewrite Ha.
  split; [|done]. rewrite fmap_app, fmap_cons, <- Hx in H3. cbn in H3. rewrite <- Permutation_middle in H3. apply Permutation.Permutation_cons_inv in H3. by rewrite fmap_app.
Qed.

(** ** A job leaves the supervisor *)

Lemma chain_remove_elem p l x : NoDup l -> x ∈ chain_remove p l <-> x ∈ l /\ x <> p.
Proof.
  induction l as [|y l IH]; intros Hn; cbn; [rewrite !list.elem_of_nil; tauto|]. apply list.NoDup_cons in Hn as [Hy Hn]. if_as E.
  - apply Z.eqb_eq in E as ->. rewrite list.elem_of_cons. split; [|tauto]. intros H. split; [by right|]. by intros ->.
  - rewrite !list.elem_of_cons, IH by done. split; [|tauto]. intros [->|[? ?]]; [|tauto]. split; [by left|lia].
Qed.
Lemma chain_remove_sublist p l : sublist (chain_remove p l) l.
Proof. induction l as [|y l IH]; cbn; [done|]. if_as E; [by apply sublist_cons|by apply sublist_skip]. Qed.

Lemma concat_insert_sublist (buckets : list (list Z)) i chain chain' : buckets !! i = Some chain -> sublist chain' chain -> sublist (concat (<[i := chain']> buckets)) (concat buckets).
Proof.
  revert i. induction buckets as [|b buckets IH]; intros i Hi Hs; [done|]. destruct i as [|i]; cbn in *.
  - injection Hi as ->. by apply sublist_app.
  - apply sublist_app; [done|]. by apply IH.
Qed.

Lemma bucket_sublist (buckets : list (list Z)) i chain : buckets !! i = Some chain -> sublist chain (concat buckets).
Proof.
  revert i. induction buckets as [|b buckets IH]; intros i Hi; [done|]. destruct i as [|i]; cbn in *.
  - injection Hi as ->. by apply sublist_inserts_r.
  - by eapply sublist_inserts_l, IH.
Qed.

Lemma table_remove entries buckets p id chain : table_holds entries buckets -> entries !! p = Some (Some id) -> buckets !! bucket_of id = Some chain ->
  table_holds (delete p entries) (<[bucket_of id := chain_remove p chain]> buckets).
Proof.
  intros [H1 H2 H3 H4 H5] Hp Hc.
  assert (Hnc : NoDup chain) by (eapply sublist_NoDup; [exact H2|]; by eapply bucket_sublist).
  split.
  - by rewrite length_insert.
  - eapply sublist_NoDup; [exact H2|]. apply (concat_insert_sublist _ _ chain); [done|apply chain_remove_sublist].
  - intros i chain' q Hi. rewrite list_lookup_insert_Some in Hi. destruct Hi as [(<- & <- & _)|[Hne Hi]].
    + rewrite (chain_remove_elem p chain q Hnc), (H3 _ _ q Hc). split.
      * intros [(id' & Hq & E) Hqp]. exists id'. by rewrite lookup_delete_ne.
      * intros (id' & Hq & E). apply lookup_delete_Some in Hq as [Hqp Hq]. split; [by exists id'|done].
    + rewrite (H3 _ _ q Hi). split; intros (id' & Hq & E); exists id'.
      * split; [|done]. apply lookup_delete_Some. split; [|done]. intros <-. congruence.
      * by apply lookup_delete_Some in Hq as [_ Hq].
  - intros q o Hq%lookup_delete_Some. eapply H4, Hq.
  - intros q r id' Hq%lookup_delete_Some Hr%lookup_delete_Some. eapply H5; [apply Hq|apply Hr].
Qed.

Lemma queues_delete queue jobs select p j : jobs !! p = Some j -> queues_ok (Some p) queue jobs select -> queues_ok None queue (delete p jobs) select.
Proof.
  intros Hj [H0 H1 H2 H3]. destruct (H3 p j Hj eq_refl) as [Hn _]. split; [|done| |done].
  - intros pr. eapply dll_ext; [|apply H0]. intros x Hx. unfold queue_links. rewrite fmap_delete, lookup_delete_ne; [done|]. intros <-. by apply (Hn pr).
  - intros q k [Hq Hk]%lookup_delete_Some _. apply H2; [done|congruence].
Qed.
Lemma completions_delete completed jobs head tail p j : jobs !! p = Some j -> completions_ok (Some p) completed jobs head tail ->
  completions_ok None completed (delete p jobs) head tail.
Proof.
  intros Hj [H0 H2 H3]. destruct (H3 p j Hj eq_refl) as [Hn _]. split; [| |done].
  - eapply dll_ext; [|apply H0]. intros x Hx. unfold completion_links. rewrite fmap_delete, lookup_delete_ne; [done|]. by intros <-.
  - intros q k [Hq Hk]%lookup_delete_Some _. apply H2; [done|congruence].
Qed.
Lemma helpers_delete phase loose jobs helpers p : (forall i h, helpers !! i = Some h -> loose i = true -> h_job h = None) ->
  helpers_ok phase (Some p) loose jobs helpers -> helpers_ok phase None loose (delete p jobs) helpers.
Proof.
  intros Hn [H1 H2 H3 H4 H5]. split; [done| | | |].
  - intros i h Hi Hl. specialize (H2 i h Hi Hl). unfold helper_fits in *.
    destruct (h_state h); try done; destruct H2 as [(q & k & A1 & A2 & A3 & A4 & A5) B2]; (split; [|done]); exists q, k; rewrite lookup_delete_ne; [done|congruence|done|congruence].
  - intros i h Hi Hl. left. by eapply Hn.
  - intros q k [Hq Hk]%lookup_delete_Some _. apply H4; [done|congruence].
  - intros q k [Hq Hk]%lookup_delete_Some _. apply (H5 q); [done|congruence].
Qed.

(** The world without a job, the bucket of the job being [chain]. *)
Definition forgotten (p : Z) (bucket : nat) (chain : list Z) (w : world) : world :=
  w <| w_supervisor ::= (fun s => s <| s_buckets ::= <[bucket := chain_remove p chain]> |> <| s_job_count ::= (fun n => if 0 <? n then n - 1 else n) |>
    <| s_jobs ::= delete p |>) |>.

(** The callers have what the job owned. *)
Definition inherit (j : job) (g : ghost) : ghost :=
  g <| g_hand := None |> <| g_stray := option_list (j_assembly j) ++ g_stray g |> <| g_charges := charge (j_response j) ++ g_charges g |>
    <| g_refs := option_list (j_entry j) ++ g_refs g |>.

Lemma inv_forgotten g w p j id chain : inv g w -> g_hand g = Some p -> jobs_of w !! p = Some j -> no_job_loose g w ->
  j_entry j = Some id -> s_buckets (w_supervisor w) !! bucket_of id = Some chain -> inv (inherit j g) (forgotten p (bucket_of id) chain w).
Proof.
  intros [H1 H2 H3 H4 H5 H6 H7 H8 H9 H10 (H11 & H11' & H11'') H12 H13 H14 H15 H16 H17] Hh Hj Hn Hid Hc. rewrite Hh in *.
  assert (Hl : (j_entry <$> jobs_of w) !! p = Some (Some id)) by (by rewrite lookup_fmap, Hj, <- Hid).
  assert (Ho : ((fun j => (j_assembly j, j_response j)) <$> jobs_of w) !! p = Some (j_assembly j, j_response j)) by (by rewrite lookup_fmap, Hj).
  split; cbn; rewrite ?fmap_delete; try assumption.
  - by eapply queues_delete.
  - by eapply completions_delete.
  - by apply table_remove.
  - eapply references_perm; [|exact H4]. rewrite (job_refs_delete _ _ _ Hl), Hid, !app_assoc. apply Permutation_app_tail, Permutation_app_comm.
  - destruct (budget_remove _ _ _ _ _ _ _ _ H5 Ho) as (b & taken & B1 & B2 & B3 & B4 & B5). exists b, taken. split; [done|]. split; [done|].
    rewrite B3, B4. split; [apply Permutation_app_tail, Permutation_app_comm|]. split; [apply Permutation_app_tail, Permutation_app_comm|]. by rewrite <- B4.
  - by eapply helpers_delete.
  - intros q k [_ Hk]%lookup_delete_Some. by apply H9.
  - intros q k [_ Hk]%lookup_delete_Some. by eapply H10.
  - split; [done|]. split; [|done]. intros q k [_ Hk]%lookup_delete_Some. by eapply H11'.
  - done.
  - intros q Hq. apply H13. destruct Hq as [k Hk%lookup_delete_Some]. destruct Hk as [_ Hk]. by rewrite Hk.
  - rewrite map_size_delete_Some by done. assert (Hs : size (jobs_of w) <> 0%nat) by (intros Ez%map_size_empty_iff; by rewrite Ez in Hj). if_as E; lia.
Qed.

Lemma inv_with_budget g w b stray charges : inv g w ->
  budget_holds stray charges ((fun j => (j_assembly j, j_response j)) <$> jobs_of w) (Some b) (k_next (w_kernel w)) ->
  inv (g <| g_stray := stray |> <| g_charges := charges |>) (w <| w_supervisor ::= (fun s => s <| s_assembly_budget := Some b |>) |>).
Proof. intros [H1 H2 H3 H4 H5 H6 H7 H8 H9 H10 H11 H12 H13 H14 H15 H16 H17] Hb. split; assumption. Qed.
Lemma inv_with_cache g w c refs : inv g w -> holds c (refs ++ job_refs (j_entry <$> jobs_of w)) -> inv (g <| g_refs := refs |>) (w <| w_cache := c |>).
Proof. intros [H1 H2 H3 H4 H5 H6 H7 H8 H9 H10 H11 H12 H13 H14 H15 H16 H17] Hb. split; assumption. Qed.

(** The callers give back assemblies, charges and references. *)
Lemma wp_assembly_destroy g w o stray (Q : () -> world -> Prop) : inv g w -> g_stray g = option_list o ++ stray ->
  (forall b, let w' := w <| w_supervisor ::= (fun s => s <| s_assembly_budget := Some b |>) |> in inv (g <| g_stray := stray |>) w' -> Q () w') ->
  wp (assembly_destroy o) Q w.
Proof.
  intros Hi Hs HQ. pose proof (i_budget _ _ Hi) as Hb. rewrite Hs in Hb. assert (Hb' := Hb). destruct Hb' as (b & _ & Hb' & _). rewrite Hb' in Hb.
  destruct (budget_destroy _ _ _ _ _ _ Hb) as (b' & Hd & Hn). eapply wp_with_budget; [done|by rewrite Hd|]. apply HQ.
  by apply (inv_with_budget g w b' stray (g_charges g)).
Qed.
Lemma wp_result_destroy g w r charges (Q : () -> world -> Prop) : inv g w -> g_charges g = charge r ++ charges ->
  (forall b, let w' := w <| w_supervisor ::= (fun s => s <| s_assembly_budget := Some b |>) |> in inv (g <| g_charges := charges |>) w' -> Q () w') ->
  wp (result_destroy r) Q w.
Proof.
  intros Hi Hs HQ. pose proof (i_budget _ _ Hi) as Hb. rewrite Hs in Hb. assert (Hb' := Hb). destruct Hb' as (b & _ & Hb' & _). rewrite Hb' in Hb.
  apply budget_result_destroy in Hb. eapply wp_with_budget; [done|done|]. apply HQ. by apply (inv_with_budget g w _ (g_stray g) charges).
Qed.
Lemma wp_entry_release g w o refs (Q : () -> world -> Prop) : inv g w -> g_refs g = option_list o ++ refs ->
  (forall c, let w' := w <| w_cache := c |> in inv (g <| g_refs := refs |>) w' -> Q () w') -> wp (entry_release o) Q w.
Proof.
  intros Hi Hs HQ. pose proof (i_refs _ _ Hi) as Hr. rewrite Hs, <- app_assoc in Hr. destruct (holds_release _ _ _ Hr) as (c & Hc & Hh).
  unfold entry_release. steps. eapply wp_lift; [done|]. step. apply HQ. by apply inv_with_cache.
Qed.

Lemma bucket_exists g w id : inv g w -> exists chain, s_buckets (w_supervisor w) !! bucket_of id = Some chain.
Proof.
  intros Hi. apply lookup_lt_is_Some. rewrite (th_length _ _ (i_table _ _ Hi)). unfold bucket_of, RESOLVER_SUPERVISOR_JOB_LIMIT.
  pose proof (Z.mod_pos_bound id 4096 ltac:(lia)). lia.
Qed.
Lemma wp_bucket id e (Q : nat -> world -> Prop) w : entry_get (w_cache w) id = Some e -> Q (bucket_of id) w -> wp (resolver_supervisor_job_bucket (Some id)) Q w.
Proof.
  intros He HQ. unfold resolver_supervisor_job_bucket. step. eapply wp_entry_read; [done|]. step. destruct (entry_get_Some _ _ _ He) as [_ Hid].
  cbn [resolver_cache_entry_id]. rewrite Hid. exact HQ.
Qed.
Lemma wp_hash_remove g w p j (Q : () -> world -> Prop) : inv g w -> jobs_of w !! p = Some j ->
  (forall id chain, j_entry j = Some id -> s_buckets (w_supervisor w) !! bucket_of id = Some chain ->
    Q () (w <| w_supervisor ::= (fun s => s <| s_buckets ::= <[bucket_of id := chain_remove p chain]> |>) |>)) ->
  wp (resolver_supervisor_job_hash_remove p) Q w.
Proof.
  intros Hi Hj HQ. destruct (inv_entry _ _ _ _ Hi Hj) as (id & e & Hid & He). destruct (bucket_exists _ _ id Hi) as [chain Hc].
  unfold resolver_supervisor_job_hash_remove. step. eapply wp_job_get; [done|]. step. rewrite Hid. eapply wp_bucket; [done|]. steps. eapply wp_lift; [done|]. step.
  by apply HQ.
Qed.

(** What [resolver_supervisor_job_destroy] does with a job that is in no list. *)
Definition job_discard (job : Z) : prog () :=
  resolver_supervisor_job_hash_remove job ;;
  j ← job_get job;
  assembly_destroy (j_assembly j) ;;
  result_destroy (j_response j) ;;
  entry_release (j_entry j) ;;
  on_supervisor (fun s => s <| s_job_count ::= (fun n => if 0 <? n then n - 1 else n) |> <| s_jobs ::= delete job |>).

Lemma discarded_world p bucket chain b c w :
  ((w <| w_supervisor ::= (fun s => s <| s_buckets ::= <[bucket := chain_remove p chain]> |>) |> <| w_supervisor ::= (fun s => s <| s_assembly_budget := Some b |>) |>
    <| w_cache := c |>) <| w_supervisor ::= (fun s => s <| s_job_count ::= (fun n => if 0 <? n then n - 1 else n) |> <| s_jobs ::= delete p |>) |>) =
  (forgotten p bucket chain w) <| w_supervisor ::= (fun s => s <| s_assembly_budget := Some b |>) |> <| w_cache := c |>.
Proof. done. Qed.
Lemma budget_twice b b' w : w <| w_supervisor ::= (fun s => s <| s_assembly_budget := Some b |>) |> <| w_supervisor ::= (fun s => s <| s_assembly_budget := Some b' |>) |> =
  w <| w_supervisor ::= (fun s => s <| s_assembly_budget := Some b' |>) |>.
Proof. done. Qed.
Lemma forgotten_steady p bucket chain b c w :
  let w' := (forgotten p bucket chain w) <| w_supervisor ::= (fun s => s <| s_assembly_budget := Some b |>) |> <| w_cache := c |> in
  steady w w' /\ queue_total w' = queue_total w /\ jobs_of w' = delete p (jobs_of w).
Proof. split; [|done]. split; try done. Qed.
Lemma inherit_back j g : (inherit j g) <| g_stray := g_stray g |> <| g_charges := g_charges g |> <| g_refs := g_refs g |> = g <| g_hand := None |>.
Proof. done. Qed.

Lemma wp_job_discard g w p j : inv g w -> g_hand g = Some p -> jobs_of w !! p = Some j -> no_job_loose g w ->
  wp (job_discard p) (fun _ w' => inv (g <| g_hand := None |>) w' /\ steady w w' /\ queue_total w' = queue_total w /\ jobs_of w' = delete p (jobs_of w)) w.
Proof.
  intros Hi Hh Hj Hn. unfold job_discard. step. eapply wp_hash_remove; [done|done|]. intros id chain Hid Hc.
  pose proof (inv_forgotten _ _ _ _ _ _ Hi Hh Hj Hn Hid Hc) as Hf. pose proof (i_budget _ _ Hf) as Hb. pose proof (i_refs _ _ Hf) as Hr.
  assert (Hb' := Hb). destruct Hb' as (b & _ & Hbs & _). rewrite Hbs in Hb.
  change (g_stray (inherit j g)) with (option_list (j_assembly j) ++ g_stray g) in Hb. destruct (budget_destroy _ _ _ _ _ _ Hb) as (b1 & Hd1 & Hb1).
  change (g_charges (inherit j g)) with (charge (j_response j) ++ g_charges g) in Hb1. apply budget_result_destroy in Hb1.
  change (g_refs (inherit j g)) with (option_list (j_entry j) ++ g_refs g) in Hr. rewrite <- app_assoc in Hr. destruct (holds_release _ _ _ Hr) as (c & Hcr & Hh').
  step. eapply wp_job_get; [exact Hj|]. step. eapply wp_with_budget; [exact Hbs|by rewrite Hd1|]. step. eapply wp_with_budget; [done|done|]. rewrite budget_twice.
  step. unfold entry_release. step. step. step. eapply wp_lift; [exact Hcr|]. step. step. rewrite discarded_world. split; [|apply forgotten_steady].
  rewrite <- (inherit_back j g). apply inv_with_cache; [|exact Hh']. by apply inv_with_budget.
Qed.

(** A job in the hand of the caller, whose state says so, or in its place. *)
Lemma wp_job_destroy_hand g w p j : inv g w -> g_hand g = Some p -> jobs_of w !! p = Some j -> no_job_loose g w ->
  j_state j <> RESOLVER_SUPERVISOR_JOB_QUEUED -> j_state j <> RESOLVER_SUPERVISOR_JOB_COMPLETE ->
  wp (resolver_supervisor_job_destroy (Some p)) (fun _ w' =>
    inv (g <| g_hand := None |>) w' /\ steady w w' /\ queue_total w' = queue_total w /\ jobs_of w' = delete p (jobs_of w)) w.
Proof.
  intros Hi Hh Hj Hn Hq Hc. cbn [resolver_supervisor_job_destroy]. step. eapply wp_job_get; [done|]. step.
  destruct (j_state j); try done; step; by eapply wp_job_discard.
Qed.

(** The invariant, whatever is in the queues and the completions. *)
Definition holding (g : ghost) (w : world) : Prop := exists q d, inv (g <| g_queue := q |> <| g_done := d |>) w.
Lemma inv_holding g w : inv g w -> holding g w.
Proof. intros H. exists (g_queue g), (g_done g). by destruct g. Qed.
Lemma holding_of g g' w : inv g' w -> g <| g_queue := g_queue g' |> <| g_done := g_done g' |> = g' -> holding g w.
Proof. intros H E. exists (g_queue g'), (g_done g'). by rewrite E. Qed.
Lemma holding_quiet g w w' : quiet w w' -> holding g w -> holding g w'.
Proof. intros Hq (q & d & H). exists q, d. by eapply inv_quiet. Qed.

Definition entries_of (w : world) : gmap Z (option Z) := j_entry <$> jobs_of w.
Lemma relinked_entries jobs jobs' : relinked jobs jobs' -> j_entry <$> jobs' = j_entry <$> jobs.
Proof. intros H. by apply relinked_view. Qed.

(** A job that waits for its next attempt is in no list and with no helper. *)
Lemma inv_pick_up g w p j : inv g w -> g_hand g = None -> jobs_of w !! p = Some j -> j_state j = RESOLVER_SUPERVISOR_JOB_RETRY_WAIT ->
  inv (g <| g_hand := Some p |>) w.
Proof.
  intros [H1 H2 H3 H4 H5 H6 H7 H8 H9 H10 H11 H12 H13 H14 H15 H16 H17] Hh Hj Hs. rewrite Hh in *. split; try assumption.
  - apply (queues_hand _ _ _ p j); [done|congruence|done].
  - apply (completions_hand _ _ _ _ p j); [done|congruence|done].
  - apply (helpers_hand _ _ _ _ p j); [done|by rewrite Hs|done].
  - intros q [= <-]. by rewrite Hj.
Qed.
Lemma inv_put_down g w p j : inv g w -> g_hand g = Some p -> jobs_of w !! p = Some j -> j_state j = RESOLVER_SUPERVISOR_JOB_RETRY_WAIT ->
  j_assembly j = None -> no_job_loose g w -> inv (g <| g_hand := None |>) w.
Proof.
  intros [H1 H2 H3 H4 H5 H6 H7 H8 H9 H10 H11 H12 H13 H14 H15 H16 H17] Hh Hj Hs Ha Hn. rewrite Hh in *. split; try assumption.
  - apply (queues_hand _ _ _ p j); [done|congruence|done].
  - apply (completions_hand _ _ _ _ p j); [done|congruence|done].
  - apply (helpers_unhand _ _ _ _ p j); [done|by rewrite Hs|done|exact Hn|done].
  - done.
Qed.

Lemma queue_without_total g w p j w' : inv g w -> g_hand g = None -> jobs_of w !! p = Some j -> j_state j = RESOLVER_SUPERVISOR_JOB_QUEUED ->
  inv (g <| g_queue := queue_without p (j_priority j) (g_queue g) |> <| g_hand := Some p |>) w' -> queue_total w' = queue_total w - 1.
Proof.
  intros Hi Hh Hj Hs Hi'. pose proof (i_queues _ _ Hi) as Hq. rewrite Hh in Hq. destruct (queue_split _ _ _ _ _ _ Hq Hj ltac:(done) Hs) as (a & b & Hab & _).
  unfold queue_total. rewrite !(qo_count _ _ _ _ (i_queues _ _ Hi)), !(qo_count _ _ _ _ (i_queues _ _ Hi')).
  change (g_queue (_ <| g_queue := ?q |> <| g_hand := _ |>)) with q. unfold queue_without.
  assert (Hw : len (without p (g_queue g (j_priority j))) = len (g_queue g (j_priority j)) - 1).
  { rewrite Hab, without_split, !length_app; [cbn; lia|]. rewrite <- Hab. apply (qo_dll _ _ _ _ Hq). }
  destruct (j_priority j); cbn [bool_decide]; repeat case_bool_decide; try done; lia.
Qed.

Lemma wp_job_destroy_placed g w p j : inv g w -> g_hand g = None -> jobs_of w !! p = Some j -> no_job_loose g w -> with_helper (j_state j) = false ->
  wp (resolver_supervisor_job_destroy (Some p)) (fun _ w' =>
    holding g w' /\ steady w w' /\ queue_total w' <= queue_total w /\ entries_of w' = delete p (entries_of w)) w.
Proof.
  intros Hi Hh Hj Hn Hw. cbn [resolver_supervisor_job_destroy]. step. eapply wp_job_get; [done|]. step.
  assert (Hrest : forall g' w1, inv g' w1 -> g_hand g' = Some p -> g <| g_queue := g_queue g' |> <| g_done := g_done g' |> = g' <| g_hand := None |> ->
    steady w w1 -> queue_total w1 <= queue_total w -> relinked (jobs_of w) (jobs_of w1) -> no_job_loose g' w1 ->
    wp (job_discard p) (fun _ w' => holding g w' /\ steady w w' /\ queue_total w' <= queue_total w /\ entries_of w' = delete p (entries_of w)) w1).
  { intros g' w1 Hi1 Hh1 Hg Hs1 Ht1 Hr Hn1. assert (Hj1 : is_Some (jobs_of w1 !! p)) by (rewrite (relinked_some _ _ p Hr); by rewrite Hj). destruct Hj1 as [j1 Hj1].
    eapply wp_mono; [by eapply wp_job_discard|]. cbv beta. intros _ w2 (Hi2 & Hs2 & Ht2 & Hd2). split; [|split; [exact (steady_trans _ _ _ Hs1 Hs2)|split; [lia|]]].
    - exists (g_queue g'), (g_done g'). by rewrite Hg.
    - unfold entries_of. rewrite Hd2, fmap_delete. by rewrite (relinked_entries _ _ Hr). }
  destruct (j_state j) eqn:Es; try done.
  - eapply wp_mono; [by eapply wp_queue_remove|]. cbv beta. intros _ w1 (Hi1 & jobs & q & -> & Hr).
    pose proof (lists_steady _ _ (requeued_lists (j_priority j) jobs q w)) as Hs. eapply Hrest; [exact Hi1|done| |exact Hs| |by rewrite requeued_jobs|].
    + destruct g; cbn in *; by rewrite Hh.
    + rewrite (queue_without_total _ _ _ _ _ Hi Hh Hj Es Hi1). lia.
    + exact (no_job_loose_steady _ _ _ Hs Hn).
  - step. eapply Hrest; [by eapply inv_pick_up|done| |apply steady_refl|lia|done|exact Hn]. destruct g; cbn in *; by rewrite Hh.
  - eapply wp_mono; [by eapply wp_completion_remove|]. cbv beta. intros _ w1 (Hi1 & jobs & head & tail & -> & Hr).
    pose proof (lists_steady _ _ (recompleted_lists jobs head tail w)) as Hs. eapply Hrest; [exact Hi1|done| |exact Hs|done|done|].
    + destruct g; cbn in *; by rewrite Hh.
    + exact (no_job_loose_steady _ _ _ Hs Hn).
Qed.

(** ** A job in hand is put down *)

Lemma put_lookup p j w : jobs_of (put_job p j w) !! p = Some j.
Proof. cbn. by rewrite lookup_insert_eq. Qed.
Lemma put_put p j j' w : put_job p j' (put_job p j w) = put_job p j' w.
Proof. change (w <| w_supervisor := (w_supervisor w) <| s_jobs := <[p := j']> (<[p := j]> (jobs_of w)) |> |> = put_job p j' w). by rewrite insert_insert_eq. Qed.
Lemma put_steady p j w : steady w (put_job p j w) /\ queue_total (put_job p j w) = queue_total w.
Proof. split; [|done]. by split. Qed.

(** A job in hand that owns nothing but its entry. *)
Record in_hand (g : ghost) (w : world) (p : Z) (j : job) : Prop := {
  ih_inv : inv g w; ih_hand : g_hand g = Some p; ih_job : jobs_of w !! p = Some j; ih_loose : no_job_loose g w;
  ih_assembly : j_assembly j = None; ih_response : rt_budget (j_response j) = false; ih_state : j_state j <> RESOLVER_SUPERVISOR_JOB_COMPLETE;
  ih_settled : g_unsettled g <> Some p;
}.

Lemma in_hand_settled g w p j : in_hand g w p j ->
  (j_priority j = RESOLVER_SUPERVISOR_PRIORITY_INTERACTIVE <-> 0 < j_interactive_interest_count j) /\
  (j_orphaned j = true <-> j_background_interest_count j = 0 /\ j_interactive_interest_count j = 0) /\
  (j_orphaned j = true -> j_state j = RESOLVER_SUPERVISOR_JOB_DISPATCHED).
Proof.
  intros H. destruct (i_interests _ _ (ih_inv _ _ _ _ H) p j (ih_job _ _ _ _ H)) as [_ Hs]. specialize (Hs (ih_settled _ _ _ _ H)). unfold settled in Hs.
  rewrite bool_decide_eq_false_2 in Hs by apply H. done.
Qed.
(** Changes of a job in hand that keep what it owns and the interests in it. *)
Lemma in_hand_put g w p j j' : in_hand g w p j -> same_links j j' -> j_background_interest_count j' = j_background_interest_count j ->
  j_interactive_interest_count j' = j_interactive_interest_count j -> j_priority j' = j_priority j -> j_orphaned j' = j_orphaned j -> job_times j' ->
  j_state j' <> RESOLVER_SUPERVISOR_JOB_COMPLETE -> (j_orphaned j = true -> j_state j' = RESOLVER_SUPERVISOR_JOB_DISPATCHED) -> in_hand g (put_job p j' w) p j'.
Proof.
  intros H Hl E1 E2 E3 E4 Ht Hs Ho. destruct (in_hand_settled _ _ _ _ H) as (S1 & S2 & S3). destruct Hl as [L1 L2 (L3 & L4 & L5)].
  split; [|apply H|apply put_lookup| |by rewrite L4; apply H|by rewrite L5; apply H|done|apply H].
  - eapply inv_put_job; [apply H|apply H|done|left; apply H| | | |done].
    + unfold interests_ok. rewrite E1, E2. apply (i_interests _ _ (ih_inv _ _ _ _ H) p j (ih_job _ _ _ _ H)).
    + intros _. unfold settled. rewrite bool_decide_eq_false_2 by done. rewrite E1, E2, E3, E4. done.
    + intros _. rewrite L5. apply H.
  - exact (ih_loose _ _ _ _ H).
Qed.
Lemma in_hand_quiet g w w' p j : quiet w w' -> in_hand g w p j -> in_hand g w' p j.
Proof.
  intros Hq [H1 H2 H3 H4 H5 H6 H7 H8]. split; try done; [by eapply inv_quiet|by rewrite (quiet_jobs _ _ Hq)|].
  by apply (no_job_loose_steady g w), H4; apply quiet_steady.
Qed.

(** A failed job completes with a response that was not received. *)
Lemma wp_fail_complete g w p j status publication : in_hand g w p j -> j_orphaned j = false ->
  wp (response ← failure_response p status; resolver_supervisor_job_complete p publication response)
    (fun _ w' => holding (g <| g_hand := None |>) w' /\ steady w w' /\ queue_total w' = queue_total w) w.
Proof.
  intros H Ho. destruct (inv_live _ _ _ _ (ih_inv _ _ _ _ H) (ih_job _ _ _ _ H)) as (j0 & id & e & Hj0 & Hid & He).
  assert (j0 = j) as -> by (rewrite (ih_job _ _ _ _ H) in Hj0; congruence).
  unfold failure_response. do 2 step. eapply wp_job_get; [done|]. step. rewrite Hid. eapply wp_entry_read; [done|]. step.
  eapply wp_mono; [eapply (wp_job_complete g w p j _ _ (g_charges g)); try apply H; [done|]; unfold charge; cbn [rt_budget]; by rewrite app_nil_r|]. cbv beta.
  intros _ w' (Hi & Hs & Ht & _). split; [|done]. exists (g_queue g), (g_done g ++ [p]). exact Hi.
Qed.

Lemma in_hand_times g w p j : in_hand g w p j -> job_times j.
Proof. intros H. by apply (proj1 (proj2 (i_times _ _ (ih_inv _ _ _ _ H))) p j), H. Qed.

Lemma wp_job_retry g w p j now : in_hand g w p j -> valid now ->
  wp (resolver_supervisor_job_retry p now) (fun _ w' => holding (g <| g_hand := None |>) w' /\ steady w w' /\ queue_total w' = queue_total w) w.
Proof.
  intros H Hnow. destruct (in_hand_settled _ _ _ _ H) as (S1 & S2 & S3). destruct (in_hand_times _ _ _ _ H) as (T1 & T2 & T3 & T4).
  unfold resolver_supervisor_job_retry. step. eapply wp_job_get; [apply H|]. step.
  { eapply wp_mono; [eapply wp_job_destroy_hand; try apply H; by rewrite S3|]. cbv beta. intros _ w' (Hi & Hs & Ht & _). split; [by apply inv_holding|done]. }
  step. eapply wp_job_set; [apply H|]. set (j1 := j <| j_retry_count ::= _ |>).
  assert (Hc1 : 0 <= j_retry_count j1) by (unfold j1; cbn; if_as E1; lia).
  assert (H1 : in_hand g (put_job p j1 w) p j1).
  { apply (in_hand_put _ _ _ j); [done|done|done|done|done|done|done|exact (ih_state _ _ _ _ H)|congruence]. }
  destruct (put_steady p j1 w) as [Hst Htot]. rewrite <- Htot. assert (Ho1 : j_orphaned j1 = false) by done. clearbody j1. revert H1 Hst. generalize (put_job p j1 w). intros w1 H1 Hst.
  destruct (inv_live _ _ _ _ (ih_inv _ _ _ _ H1) (ih_job _ _ _ _ H1)) as (j0 & id & e & Hj0 & Hid & He).
  assert (j0 = j1) as -> by (rewrite (ih_job _ _ _ _ H1) in Hj0; congruence).
  step. eapply wp_job_get; [done|]. step. rewrite Hid. eapply wp_entry_read; [done|].
  set (delay := resolver_supervisor_delay_jitter _ _ _ _ _).
  assert (Hd : 0 <= delay < 2 ^ 64) by (apply jitter_range; [by apply query_base_range|done]).
  destruct (timeutil_exact now now delay Hnow Hnow Hd) as (_ & Ha & _). destruct (timeutil_add_milliseconds (Some now) delay) as [retry_at|].
  - destruct Ha as [Hv _]. step. eapply wp_job_set; [done|]. set (j2 := j1 <| j_retry_at := _ |> <| j_state := _ |>).
    assert (H2 : in_hand g (put_job p j2 w1) p j2).
    { apply (in_hand_put _ _ _ j1); try done; [|by rewrite Ho1]. destruct (in_hand_times _ _ _ _ H1) as (U1 & U2 & U3 & U4). done. }
    apply wp_quietly; [apply quietly_attempt_increment; eapply inv_live; apply H2|]. intros _ w2 Hq. apply (in_hand_quiet _ _ _ _ _ Hq) in H2.
    split; [|split; [|by rewrite (quiet_total _ _ Hq)]].
    + apply inv_holding. eapply inv_put_down; try apply H2. done.
    + eapply steady_trans; [exact Hst|]. eapply steady_trans; [apply (put_steady p j2)|by apply quiet_steady].
  - eapply wp_mono; [by eapply wp_fail_complete|]. cbv beta. intros _ w2 (A1 & A2 & A3). split; [done|]. split; [exact (steady_trans _ _ _ Hst A2)|done].
Qed.

(** ** Changes of priority *)

Lemma no_job_loose_free g w : inv g w -> g_hand g = None -> no_job_loose g w.
Proof. intros Hi Hh i h Hl Hlo. destruct (ho_loose _ _ _ _ _ (i_helpers _ _ Hi) i h Hl Hlo) as [?|E]; [done|]. by rewrite E. Qed.
Lemma placed_assembly g w p j : inv g w -> g_hand g = None -> jobs_of w !! p = Some j -> with_helper (j_state j) = false -> j_assembly j = None.
Proof.
  intros Hi Hh Hj Hw. pose proof (ho_assembly _ _ _ _ _ (i_helpers _ _ Hi) p j Hj) as Ha. rewrite Hh, Hw in Ha. destruct (j_assembly j); [|done].
  destruct Ha as [Ha _]; [done|]. by discriminate Ha.
Qed.
Lemma inv_settle g w p j : inv g w -> g_unsettled g = Some p -> jobs_of w !! p = Some j -> settled j -> inv (g <| g_unsettled := None |>) w.
Proof.
  intros [H1 H2 H3 H4 H5 H6 H7 H8 H9 H10 H11 H12 H13 H14 H15 H16 H17] Hu Hj Hs. split; try assumption. intros q k Hk. destruct (H9 q k Hk) as [A1 A2]. split; [done|].
  intros _. destruct (decide (q = p)) as [->|Hne]; [by assert (k = j) as -> by congruence|]. apply A2. congruence.
Qed.
Lemma inv_unsettle g w p : inv g w -> g_unsettled g = None -> inv (g <| g_unsettled := Some p |>) w.
Proof.
  intros [H1 H2 H3 H4 H5 H6 H7 H8 H9 H10 H11 H12 H13 H14 H15 H16 H17] Hu. split; try assumption. intros q k Hk. destruct (H9 q k Hk) as [A1 A2]. split; [done|].
  intros _. apply A2. by rewrite Hu.
Qed.

Lemma erase_priority j j' pr : erase j' = erase j -> erase (j' <| j_priority := pr |>) = erase (j <| j_priority := pr |>).
Proof. intros H. change ((erase j') <| j_priority := pr |> = (erase j) <| j_priority := pr |>). by rewrite H. Qed.
Lemma put_states_kept g w p j pr : inv g w -> jobs_of w !! p = Some j -> g_unsettled g = Some p -> g_hand g = Some p \/ j_state j <> RESOLVER_SUPERVISOR_JOB_QUEUED ->
  inv g (put_job p (j <| j_priority := pr |>) w).
Proof.
  intros Hi Hj Hu Hp. eapply inv_put_job; [done|done|done| | | | |].
  - destruct Hp; [by left|right; by split].
  - apply (i_interests _ _ Hi p j Hj).
  - by rewrite Hu.
  - exact (i_responses _ _ Hi p j Hj).
  - by apply (proj1 (proj2 (i_times _ _ Hi)) p j).
Qed.

Lemma wp_priority_change g w p j pr : inv g w -> g_hand g = None -> g_unsettled g = Some p -> jobs_of w !! p = Some j ->
  wp (priority_change p pr) (fun _ w' => holding g w' /\ steady w w' /\ relinked (<[p := j <| j_priority := pr |>]> (jobs_of w)) (jobs_of w')) w.
Proof.
  intros Hi Hh Hu Hj. unfold priority_change. step. eapply wp_job_get; [done|]. case_bool_decide as Es; cbn [when].
  2:{ do 2 step. step. eapply wp_job_set; [done|]. step. split; [|split; [apply put_steady|done]]. apply inv_holding. by eapply put_states_kept; [| | |right]. }
  step. eapply wp_mono; [by eapply wp_queue_remove|]. cbv beta. intros _ w1 (Hi1 & jobs & q & -> & Hr).
  pose proof (lists_steady _ _ (requeued_lists (j_priority j) jobs q w)) as Hs1. set (w1 := requeued (j_priority j) jobs q w) in *.
  assert (Hjw : jobs_of w1 = jobs) by apply requeued_jobs. rewrite <- Hjw in Hr. clearbody w1. clear Hjw jobs.
  assert (Hj1 : is_Some (jobs_of w1 !! p)) by (rewrite (relinked_some _ _ p Hr); by rewrite Hj). destruct Hj1 as [j1 Hj1].
  destruct (relinked_lookup _ _ _ _ Hr Hj1) as (j0 & Hj0 & He). assert (j0 = j) as -> by congruence.
  step. eapply wp_job_set; [done|]. set (g1 := g <| g_queue := _ |> <| g_hand := _ |>) in *.
  assert (Hi2 : inv g1 (put_job p (j1 <| j_priority := pr |>) w1)) by (by apply put_states_kept; [| | |left]).
  eapply wp_mono; [eapply wp_queue_append; [exact Hi2|done|apply put_lookup| |]|].
  - split; [|split].
    + change (j_assembly (j1 <| j_priority := pr |>)) with (j_assembly j1). rewrite (relinked_field j_assembly j j1 He) by done.
      eapply placed_assembly; [exact Hi|done|done|by rewrite Es].
    + change (rt_budget (j_response j1) = false). rewrite (relinked_field j_response j j1 He) by done. apply (i_responses _ _ Hi p j Hj). by rewrite Es.
    + by intros [].
  - exact (no_job_loose_steady _ _ _ Hs1 (no_job_loose_free _ _ Hi Hh)).
  - cbv beta. intros _ w2 (Hi3 & Hl & Hr3). split; [|split].
    + apply (holding_of _ _ _ Hi3). destruct g; cbn in *. by rewrite Hh.
    + eapply steady_trans; [exact Hs1|]. eapply steady_trans; [apply put_steady|by apply lists_steady].
    + eapply relinked_trans; [|exact Hr3]. change (jobs_of (put_job p ?x w1)) with (<[p := x]> (jobs_of w1)). rewrite insert_insert_eq. apply relinked_put; [done|].
      change (_ <| j_state := _ |>) with (j1 <| j_state := RESOLVER_SUPERVISOR_JOB_QUEUED |> <| j_priority := pr |>).
      rewrite (erase_priority (j <| j_state := RESOLVER_SUPERVISOR_JOB_QUEUED |>)); [|by apply erase_state]. rewrite <- Es. by destruct j.
Qed.

(** What is left to settle is the priority. *)
Definition orphan_ok (j : job) : Prop := j_state j <> RESOLVER_SUPERVISOR_JOB_COMPLETE /\
  (j_orphaned j = true <-> j_background_interest_count j = 0 /\ j_interactive_interest_count j = 0) /\
  (j_orphaned j = true -> j_state j = RESOLVER_SUPERVISOR_JOB_DISPATCHED).
Lemma orphan_settled j : orphan_ok j -> (j_priority j = RESOLVER_SUPERVISOR_PRIORITY_INTERACTIVE <-> 0 < j_interactive_interest_count j) -> settled j.
Proof. intros (H1 & H2 & H3) H. unfold settled. by rewrite bool_decide_eq_false_2. Qed.

Lemma holding_settle g w p j jobs : holding g w -> g_unsettled g = Some p -> relinked (<[p := j]> jobs) (jobs_of w) -> settled j ->
  holding (g <| g_unsettled := None |>) w.
Proof.
  intros (q & d & Hi) Hu Hr Hs. assert (Hp : is_Some (jobs_of w !! p)) by (rewrite (relinked_some _ _ p Hr); by rewrite lookup_insert_eq). destruct Hp as [j' Hj'].
  destruct (relinked_lookup _ _ _ _ Hr Hj') as (j0 & Hj0 & He). rewrite lookup_insert_eq in Hj0. injection Hj0 as <-.
  exists q, d. exact (inv_settle _ _ _ _ Hi Hu Hj' (settled_erased _ _ He Hs)).
Qed.
Lemma relinked_put_entries (jobs : jobs_map) p j j' : jobs !! p = Some j -> j_entry j' = j_entry j -> j_entry <$> <[p := j']> jobs = j_entry <$> jobs.
Proof. intros. by eapply view_same. Qed.
Lemma inv_interests g w p j : inv g w -> jobs_of w !! p = Some j -> interests_ok j.
Proof. intros Hi Hj. apply (i_interests _ _ Hi p j Hj). Qed.

Lemma wp_downgrade g w p j : inv g w -> g_hand g = None -> g_unsettled g = Some p -> jobs_of w !! p = Some j -> orphan_ok j ->
  (0 < j_interactive_interest_count j -> j_priority j = RESOLVER_SUPERVISOR_PRIORITY_INTERACTIVE) ->
  wp (resolver_supervisor_job_priority_downgrade p) (fun _ w' => holding (g <| g_unsettled := None |>) w' /\ steady w w') w.
Proof.
  intros Hi Hh Hu Hj Ho Hp. destruct (inv_interests _ _ _ _ Hi Hj) as [_ Hn]. unfold resolver_supervisor_job_priority_downgrade. step. eapply wp_job_get; [done|]. step.
  - step. split; [|apply steady_refl]. apply inv_holding. eapply inv_settle; [done|done|done|]. apply orphan_settled; [done|]. split; [|done].
    intros Hi'. rewrite bool_decide_eq_true_2 in E by done. cbn in E. lia.
  - apply orb_false_iff in E as [E1%negb_false_iff%bool_decide_eq_true E2]. eapply wp_mono; [by eapply wp_priority_change|]. cbv beta. intros _ w' (H1 & H2 & H3). split; [|done].
    eapply holding_settle; [done|done|done|]. apply orphan_settled; [done|]. cbn. split; [done|]. lia.
Qed.
Lemma wp_promote g w p j : inv g w -> g_hand g = None -> g_unsettled g = Some p -> jobs_of w !! p = Some j -> orphan_ok j -> 0 < j_interactive_interest_count j ->
  wp (resolver_supervisor_job_priority_promote p) (fun _ w' => holding (g <| g_unsettled := None |>) w' /\ steady w w') w.
Proof.
  intros Hi Hh Hu Hj Ho Hp. unfold resolver_supervisor_job_priority_promote. step. eapply wp_job_get; [done|]. step.
  - apply bool_decide_eq_true in E. step. split; [|apply steady_refl]. apply inv_holding. eapply inv_settle; [done|done|done|]. by apply orphan_settled.
  - eapply wp_mono; [by eapply wp_priority_change|]. cbv beta. intros _ w' (H1 & H2 & H3). split; [|done].
    eapply holding_settle; [done|done|done|]. by apply orphan_settled.
Qed.
