(* ===== verification/SupervisorHelpers.v ===== *)
(** * Operations on the helpers of the supervisor keep its invariant

    Closing, failing, starting and stopping a helper, from the invariant of
    [SupervisorInv].  A helper is taken out of its state first, with the job it has in
    hand, and is in a state again at the end. *)

From S2P Require Import Prelude Stateful Dll TimeUtil Metrics ResolverUtil Cache Ipc IpcAssembly Helper Supervisor SupervisorDelay SupervisorInv SupervisorJobs.
From stdpp Require Import gmap.
#[local] Open Scope Z_scope.
#[local] Abbreviation prog := (prog world).

(** ** Helpers between two states *)

Definition set_loose (i : nat) (b : bool) (loose : nat -> bool) (k : nat) : bool := if bool_decide (k = i) then b else loose k.
Definition unbound : nat -> bool := fun _ => false.

Lemma inv_loose_ext g w loose : inv g w -> (forall k, loose k = g_loose g k) -> inv (g <| g_loose := loose |>) w.
Proof.
  intros [H1 H2 H3 H4 H5 H6 [F1 F2 F3 F4 F5] H8 H9 H10 H11 H12 H13 H14 H15 H16 H17] He. split; try assumption.
  - split; try assumption.
    + intros i h Hi Hl. apply F2; [done|]. by rewrite <- He.
    + intros i h Hi Hl. apply (F3 i); [done|]. by rewrite <- He.
    + intros p j Hj Hh Hw. destruct (F4 p j Hj Hh Hw) as (i & h & A1 & A2 & A3). exists i, h. cbn. by rewrite He.
  - intros i h Hi. cbn. rewrite He. by apply H8.
Qed.

Lemma registered_loosen b h r : registered_ok b h r -> registered_ok true h r.
Proof. intros H Hf. destruct (H Hf) as (mask & A1 & A2 & _). by exists mask. Qed.

Lemma registered_set_loose i g (helpers : list helper) r : (forall k h, helpers !! k = Some h -> registered_ok (g_loose g k) h r) ->
  forall k h, helpers !! k = Some h -> registered_ok (set_loose i true (g_loose g) k) h r.
Proof. intros H k h Hk. unfold set_loose. case_bool_decide; [by eapply registered_loosen, H|by apply H]. Qed.

(** A helper leaves its state; the job it has is in hand then. *)
Lemma inv_take_idle g w i h : inv g w -> helpers_of w !! i = Some h -> h_job h = None -> inv (g <| g_loose ::= set_loose i true |>) w.
Proof.
  intros [H1 H2 H3 H4 H5 H6 [F1 F2 F3 F4 F5] H8 H9 H10 H11 H12 H13 H14 H15 H16 H17] Hi Hj. split; try assumption.
  - split; try assumption; cbn; unfold set_loose.
    + intros k h' Hk. case_bool_decide; [done|]. by apply F2.
    + intros k h' Hk. case_bool_decide as E; [|by apply F3]. intros _. left. congruence.
    + intros p j Hp Hh Hw. destruct (F4 p j Hp Hh Hw) as (k & h' & A1 & A2 & A3 & A4). exists k, h'. rewrite bool_decide_eq_false_2; [done|]. intros ->. congruence.
  - by apply registered_set_loose.
Qed.
Lemma helper_job_here phase hand loose jobs helpers i h p : helpers_ok phase hand loose jobs helpers -> helpers !! i = Some h -> loose i = false -> h_job h = Some p ->
  exists j, jobs !! p = Some j /\ hand <> Some p /\ j_slot_index j = Z.of_nat i /\ h_fd h <> -1 /\ phase = false /\
    ((h_state h = RESOLVER_SUPERVISOR_HELPER_SENDING /\ j_state j = RESOLVER_SUPERVISOR_JOB_SENDING) \/
     (h_state h = RESOLVER_SUPERVISOR_HELPER_BUSY /\ j_state j = RESOLVER_SUPERVISOR_JOB_DISPATCHED)).
Proof.
  intros [F1 F2 F3 F4 F5] Hi Hl Hp. specialize (F2 i h Hi Hl). unfold helper_fits in F2.
  destruct (h_state h) eqn:Es; try (destruct F2 as (F & _); congruence);
    destruct F2 as ((q & j & A1 & A2 & A3 & A4 & A5) & B1 & B2); exists j; assert (q = p) as -> by congruence; do 5 (split; [done|]); [by left|by right].
Qed.
Lemma inv_take_busy g w i h p : inv g w -> g_hand g = None -> helpers_of w !! i = Some h -> g_loose g i = false -> h_job h = Some p ->
  inv (g <| g_hand := Some p |> <| g_loose ::= set_loose i true |>) w.
Proof.
  intros Hinv Hh Hi Hl Hp. destruct (helper_job_here _ _ _ _ _ _ _ _ (i_helpers _ _ Hinv) Hi Hl Hp) as (j & Hj & _ & Hsl & _ & _ & Hst).
  assert (Hw : with_helper (j_state j) = true) by (destruct Hst as [[_ ->]|[_ ->]]; done).
  destruct Hinv as [H1 H2 H3 H4 H5 H6 [F1 F2 F3 F4 F5] H8 H9 H10 H11 H12 H13 H14 H15 H16 H17]. rewrite Hh in *. split; try assumption.
  - apply (queues_hand _ _ _ p j); [done|intros E; by rewrite E in Hw|done].
  - apply (completions_hand _ _ _ _ p j); [done|intros E; by rewrite E in Hw|done].
  - split; try assumption; cbn; unfold set_loose.
    + intros k h' Hk. case_bool_decide as E; [done|]. intros Hlk. specialize (F2 k h' Hk Hlk). unfold helper_fits in *.
      destruct (h_state h'); try done; destruct F2 as [(q & j' & A1 & A2 & A3 & A4 & A5) B2]; (split; [|done]); exists q, j'; (split; [done|]); (split; [|done]);
        intros [= <-]; assert (j' = j) as -> by congruence; apply E; lia.
    + intros k h' Hk. case_bool_decide as E; [intros _; right; congruence|]. intros Hlk. destruct (F3 k h' Hk Hlk) as [->| ->]; by left.
    + intros q j' Hq Hne Hw'. destruct (F4 q j' Hq ltac:(done) Hw') as (k & h' & A1 & A2 & A3 & A4). exists k, h'. rewrite bool_decide_eq_false_2; [done|]. intros ->. congruence.
    + intros q j' Hq _. by apply (F5 q).
  - by apply registered_set_loose.
  - intros q [= <-]. by rewrite Hj.
Qed.

(** A helper is in a state again. *)
Lemma inv_settle_idle g w i h : inv g w -> helpers_of w !! i = Some h -> h_job h = None -> helper_fits (g_phase g) (g_hand g) (jobs_of w) i h ->
  h_state h <> RESOLVER_SUPERVISOR_HELPER_SENDING -> inv (g <| g_loose ::= set_loose i false |>) w.
Proof.
  intros [H1 H2 H3 H4 H5 H6 [F1 F2 F3 F4 F5] H8 H9 H10 H11 H12 H13 H14 H15 H16 H17] Hi Hj Hf Hs. split; try assumption.
  - split; try assumption; cbn; unfold set_loose.
    + intros k h' Hk. case_bool_decide as E; [|by apply F2]. intros _. assert (h' = h) as -> by congruence. by subst k.
    + intros k h' Hk. case_bool_decide as E; [done|by apply F3].
    + intros p j Hp Hh Hw. destruct (F4 p j Hp Hh Hw) as (k & h' & A1 & A2 & A3 & A4). exists k, h'. rewrite bool_decide_eq_false_2; [done|]. intros ->. congruence.
  - cbn. intros k h' Hk. unfold set_loose. case_bool_decide as E; [|by apply H8]. subst k. assert (h' = h) as -> by congruence. intros Hfd.
    destruct (H8 i h Hi Hfd) as (mask & A1 & A2 & _). by exists mask.
Qed.
Lemma inv_settle_busy g w i h p j : inv g w -> g_hand g = Some p -> jobs_of w !! p = Some j -> helpers_of w !! i = Some h -> g_loose g i = true -> h_job h = Some p ->
  (forall k h', helpers_of w !! k = Some h' -> k <> i -> g_loose g k = true -> h_job h' = None) ->
  is_Some (j_assembly j) -> j_slot_index j = Z.of_nat i -> h_fd h <> -1 -> g_phase g = false ->
  ((h_state h = RESOLVER_SUPERVISOR_HELPER_SENDING /\ j_state j = RESOLVER_SUPERVISOR_JOB_SENDING) \/
   (h_state h = RESOLVER_SUPERVISOR_HELPER_BUSY /\ j_state j = RESOLVER_SUPERVISOR_JOB_DISPATCHED)) ->
  registered_ok false h (k_registered (w_kernel w)) -> inv (g <| g_hand := None |> <| g_loose ::= set_loose i false |>) w.
Proof.
  intros [H1 H2 H3 H4 H5 H6 [F1 F2 F3 F4 F5] H8 H9 H10 H11 H12 H13 H14 H15 H16 H17] Hh Hj Hi Hl Hp Hother Ha Hsl Hfd Hph Hst Hreg. rewrite Hh in *.
  assert (Hw : with_helper (j_state j) = true) by (destruct Hst as [[_ ->]|[_ ->]]; done). split; try assumption.
  - apply (queues_hand _ _ _ p j); [done|intros E; by rewrite E in Hw|done].
  - apply (completions_hand _ _ _ _ p j); [done|intros E; by rewrite E in Hw|done].
  - split; try assumption; cbn; unfold set_loose.
    + intros k h' Hk. case_bool_decide as E.
      * intros _. subst k. assert (h' = h) as -> by congruence. unfold helper_fits. destruct Hst as [[-> Hs]|[-> Hs]]; (split; [|done]); by exists p, j.
      * intros Hlk. specialize (F2 k h' Hk Hlk). unfold helper_fits in *.
        destruct (h_state h'); try done; destruct F2 as [(q & j' & A1 & A2 & A3 & A4 & A5) B2]; (split; [|done]); by exists q, j'.
    + intros k h' Hk. case_bool_decide as E; [done|]. intros Hlk. left. by eapply Hother.
    + intros q j' Hq _ Hw'. destruct (decide (q = p)) as [->|Hne].
      * assert (j' = j) as -> by congruence. exists i, h. by rewrite bool_decide_eq_true_2.
      * destruct (F4 q j' Hq ltac:(congruence) Hw') as (k & h' & A1 & A2 & A3 & A4). exists k, h'. rewrite bool_decide_eq_false_2; [done|]. intros ->. congruence.
    + intros q j' Hq _. destruct (decide (q = p)) as [->|Hne]; [by assert (j' = j) as -> by congruence|]. apply (F5 q); [done|congruence].
  - cbn. intros k h' Hk. unfold set_loose. case_bool_decide as E; [|by apply H8]. subst k. by assert (h' = h) as -> by congruence.
  - done.
Qed.

(** ** Changes of one helper *)

Lemma put_helper_lookup i h h' w : helpers_of w !! i = Some h -> helpers_of (put_helper i h' w) !! i = Some h'.
Proof. intros H. cbn. apply list_lookup_insert_eq. by eapply lookup_lt_Some. Qed.
Lemma put_helper_twice i h h' w : put_helper i h' (put_helper i h w) = put_helper i h' w.
Proof.
  change (w <| w_supervisor := (w_supervisor w) <| s_helpers := <[i := h']> (<[i := h]> (helpers_of w)) |> |> = put_helper i h' w). by rewrite list_insert_insert_eq.
Qed.
Lemma helpers_lookup_put (helpers : list helper) i h' k x : <[i := h']> helpers !! k = Some x -> (k = i /\ x = h') \/ (k <> i /\ helpers !! k = Some x).
Proof. rewrite list_lookup_insert_Some. intros [(<- & <- & _)|[? ?]]; [by left|right; split; congruence]. Qed.

Lemma helper_fds_split (helpers : list helper) i h : helpers !! i = Some h -> exists l k, helpers = l ++ h :: k /\ forall h', <[i := h']> helpers = l ++ h' :: k.
Proof.
  intros Hi. exists (take i helpers), (drop (S i) helpers). split; [by rewrite take_drop_middle|]. intros h'. rewrite insert_take_drop; [done|]. by eapply lookup_lt_Some.
Qed.
Definition fd_list (h : helper) : list Z := if h_fd h =? -1 then [] else [h_fd h].
Lemma helper_fds_app l k : helper_fds (l ++ k) = helper_fds l ++ helper_fds k.
Proof. unfold helper_fds. apply omap_app. Qed.
Lemma helper_fds_cons h k : helper_fds (h :: k) = fd_list h ++ helper_fds k.
Proof. unfold helper_fds, fd_list. cbn. by destruct (h_fd h =? -1). Qed.
Lemma helper_fds_perm (helpers : list helper) i h h' : helpers !! i = Some h ->
  exists rest, helper_fds helpers ≡ₚ fd_list h ++ rest /\ helper_fds (<[i := h']> helpers) ≡ₚ fd_list h' ++ rest.
Proof.
  intros (l & k & Hl & Hins)%helper_fds_split. exists (helper_fds l ++ helper_fds k). rewrite Hins, Hl, !helper_fds_app, !helper_fds_cons.
  split; apply Permutation_app_swap_app.
Qed.
Lemma helper_fds_elem (helpers : list helper) i h : helpers !! i = Some h -> h_fd h <> -1 -> h_fd h ∈ helper_fds helpers.
Proof.
  intros Hi Hf. destruct (helper_fds_perm helpers i h h Hi) as (rest & -> & _). unfold fd_list. replace (h_fd h =? -1) with false by lia. by left.
Qed.
Lemma inv_fd_open g w i h : inv g w -> helpers_of w !! i = Some h -> h_fd h <> -1 -> h_fd h ∈ k_open (w_kernel w).
Proof.
  intros Hi Hh Hf. rewrite (do_open _ _ _ _ (i_descriptors _ _ Hi)). apply elem_of_list_to_set. right. right. by eapply helper_fds_elem.
Qed.

Definition same_station (h h' : helper) : Prop := h_fd h' = h_fd h /\ h_state h' = h_state h /\ h_job h' = h_job h.

Lemma inv_put_helper g w i h h' : inv g w -> helpers_of w !! i = Some h -> h_fd h' = h_fd h -> (h_fd h <> -1 -> 0 < h_process_id h') ->
  (g_loose g i = true /\ (h_job h' = None \/ h_job h' = g_hand g)) \/ same_station h h' ->
  valid (h_next_event_at h') -> 0 <= h_failure_count h' -> inv g (put_helper i h' w).
Proof.
  intros [H1 H2 H3 H4 H5 H6 [F1 F2 F3 F4 F5] H8 H9 H10 (H11 & H11' & H11'') H12 H13 H14 H15 H16 H17] Hi Hfd Hpid Hkind Hv Hn.
  assert (Hfds : helper_fds (<[i := h']> (helpers_of w)) = helper_fds (helpers_of w)).
  { destruct (helper_fds_split _ _ _ Hi) as (l & k & Hl & Hins). rewrite Hins, Hl, !helper_fds_app, !helper_fds_cons. unfold fd_list. by rewrite Hfd. }
  split; try assumption; cbn.
  - destruct H6 as [D1 D2 D3 D4]. split; rewrite ?Hfds; try assumption. intros k x Hk. apply helpers_lookup_put in Hk as [[-> ->]|[Hne Hk]]; [|by eapply D4]. rewrite Hfd. done.
  - split; [by rewrite length_insert| | | |done].
    + intros k x Hk Hl. apply helpers_lookup_put in Hk as [[-> ->]|[Hne Hk]]; [|by apply F2]. destruct Hkind as [[Hlo _]|(S1 & S2 & S3)]; [congruence|].
      specialize (F2 i h Hi Hl). unfold helper_fits, at_helper in *. by rewrite S1, S2, S3.
    + intros k x Hk Hl. apply helpers_lookup_put in Hk as [[-> ->]|[Hne Hk]]; [|by eapply F3]. destruct Hkind as [[_ Hlo]|(S1 & S2 & S3)]; [done|]. rewrite S3. by eapply F3.
    + intros p j Hp Hh Hw. destruct (F4 p j Hp Hh Hw) as (k & x & A1 & A2 & A3 & A4). destruct (decide (k = i)) as [->|Hne].
      * assert (x = h) as -> by congruence. destruct Hkind as [[Hlo _]|(S1 & S2 & S3)]; [congruence|]. exists i, h'. rewrite list_lookup_insert_eq by (by eapply lookup_lt_Some). by rewrite S3.
      * exists k, x. by rewrite list_lookup_insert_ne by done.
  - intros k x Hk. apply helpers_lookup_put in Hk as [[-> ->]|[Hne Hk]]; [|by apply H8]. intros Hf. rewrite Hfd in Hf. destruct (H8 i h Hi Hf) as (mask & A1 & A2 & A3).
    exists mask. rewrite Hfd. split; [done|]. split; [done|]. intros Hl Hs. destruct Hkind as [[Hlo _]|(S1 & S2 & S3)]; [congruence|]. apply A3; [done|congruence].
  - split; [done|]. split; [done|]. intros k x Hk. apply helpers_lookup_put in Hk as [[-> ->]|[Hne Hk]]; [done|by eapply H11''].
Qed.

(** Worlds that differ in one helper, the observations, the metrics and the kernel. *)
Definition own_fds (w : world) : Z * Z := (s_epoll_fd (w_supervisor w), s_timer_fd (w_supervisor w)).
Record helper_step (i : nat) (h' : helper) (w w' : world) : Prop := {
  hs_helpers : helpers_of w' = <[i := h']> (helpers_of w); hs_jobs : jobs_of w' = jobs_of w; hs_total : queue_total w' = queue_total w;
  hs_down : s_shutting_down (w_supervisor w') = s_shutting_down (w_supervisor w); hs_now : s_last_now (w_supervisor w') = s_last_now (w_supervisor w);
  hs_own : own_fds w' = own_fds w;
}.
Lemma helper_step_put i h' w : helper_step i h' w (put_helper i h' w).
Proof. by split. Qed.
Lemma helper_step_quiet i h' w1 w2 w3 : helper_step i h' w1 w2 -> quiet w2 w3 -> helper_step i h' w1 w3.
Proof.
  intros [H1 H2 H3 H4 H5 H6] Hq. pose proof (quiet_total _ _ Hq). destruct Hq as (m & Hs & _). unfold own_fds in *. split; unfold own_fds; rewrite ?Hs; try done. congruence.
Qed.
Lemma helper_step_trans i h' h'' w1 w2 w3 : helper_step i h' w1 w2 -> helper_step i h'' w2 w3 -> helper_step i h'' w1 w3.
Proof. intros [A1 A2 A3 A4 A5 A6] [B1 B2 B3 B4 B5 B6]. split; try congruence. by rewrite B1, A1, list_insert_insert_eq. Qed.
Lemma helper_step_refl i h w : helpers_of w !! i = Some h -> helper_step i h w w.
Proof. intros H. split; try done. by rewrite list_insert_id. Qed.
Lemma helper_step_lookup i h h' w w' : helper_step i h' w w' -> helpers_of w !! i = Some h -> helpers_of w' !! i = Some h'.
Proof. intros [H _ _ _ _ _] Hi. rewrite H. apply list_lookup_insert_eq. by eapply lookup_lt_Some. Qed.

Definition closed_helper (h : helper) : helper := h <| h_fd := -1 |> <| h_process_id := -1 |>.
Definition fd_closed (fd : Z) (w : world) : world := w <| w_kernel ::= (fun k => k <| k_registered ::= delete fd |> <| k_open ::= (.∖ {[fd]}) |>) |>.

Lemma inv_helper_closed g w i h : inv g w -> g_loose g i = true -> helpers_of w !! i = Some h -> h_fd h <> -1 ->
  inv g (put_helper i (closed_helper h) (fd_closed (h_fd h) w)).
Proof.
  intros [H1 H2 H3 H4 H5 H6 [F1 F2 F3 F4 F5] H8 H9 H10 (H11 & H11' & H11'') H12 H13 H14 H15 H16 H17] Hl Hi Hf.
  destruct H6 as [D1 D2 D3 D4]. destruct (helper_fds_perm _ _ _ (closed_helper h) Hi) as (rest & P1 & P2).
  unfold fd_list in P1, P2. replace (h_fd h =? -1) with false in P1 by lia. cbn in P1, P2. rewrite P1 in D1. rewrite P1 in D3.
  apply list.NoDup_cons in D1 as [D1 D1']. apply list.NoDup_cons in D1' as [D1' D1'']. apply list.NoDup_cons in D1'' as [D1'' D1'''].
  assert (Hrest : forall k x, helpers_of w !! k = Some x -> k <> i -> h_fd x <> -1 -> h_fd x <> h_fd h).
  { intros k x Hk Hne Hx E. apply D1''. assert (Hk' : <[i := closed_helper h]> (helpers_of w) !! k = Some x) by (by rewrite list_lookup_insert_ne).
    apply helper_fds_elem in Hk'; [|done]. rewrite P2, E in Hk'. done. }
  split; try assumption; cbn.
  - split; cbn.
    + rewrite P2. repeat (apply list.NoDup_cons; split; [|done || idtac]); rewrite ?list.elem_of_cons in *; tauto.
    + rewrite D2. apply set_eq. intros x. rewrite elem_of_difference, !elem_of_union, !elem_of_list_to_set, !elem_of_singleton, !list.elem_of_cons, P1, P2, list.elem_of_cons.
      rewrite !list.elem_of_cons in D1, D1'. split; [tauto|]. intros [->|[->|Hx]]; (split; [tauto|]); intros E; [apply D1; right; rewrite E; by left|apply D1'; tauto|apply D1''; by rewrite <- E].
    + rewrite P2. apply list.Forall_cons in D3 as [? D3]. apply list.Forall_cons in D3 as [? D3]. apply list.Forall_cons in D3 as [? D3]. apply list.Forall_cons; split; [done|]. by apply list.Forall_cons.
    + intros k x Hk. apply helpers_lookup_put in Hk as [[-> ->]|[Hne Hk]]; [done|by eapply D4].
  - split; [by rewrite length_insert| | | |done].
    + intros k x Hk Hlk. apply helpers_lookup_put in Hk as [[-> ->]|[Hne Hk]]; [congruence|by apply F2].
    + intros k x Hk Hlk. apply helpers_lookup_put in Hk as [[-> ->]|[Hne Hk]]; [|by eapply F3]. by apply (F3 i h).
    + intros p j Hp Hh Hw. destruct (F4 p j Hp Hh Hw) as (k & x & A1 & A2 & A3 & A4). exists k, x. rewrite list_lookup_insert_ne; [done|]. intros ->. congruence.
  - intros k x Hk. apply helpers_lookup_put in Hk as [[-> ->]|[Hne Hk]]; [by intros []|]. intros Hx. destruct (H8 k x Hk Hx) as (mask & A1 & A2). exists mask. split; [|done].
    rewrite lookup_delete_ne; [done|]. apply not_eq_sym. by eapply Hrest.
  - split; [done|]. split; [done|]. intros k x Hk. apply helpers_lookup_put in Hk as [[-> ->]|[Hne Hk]]; [by apply (H11'' i h)|by eapply H11''].
Qed.

Lemma closed_world i h w :
  put_helper i (h <| h_fd := -1 |>) ((w <| w_kernel ::= (fun k => k <| k_registered ::= delete (h_fd h) |>) |>) <| w_kernel ::= (fun k => k <| k_open ::= (.∖ {[h_fd h]}) |>) |>) =
  put_helper i (h <| h_fd := -1 |>) (fd_closed (h_fd h) w).
Proof. done. Qed.
Lemma closed_station g w i h : inv g w -> helpers_of w !! i = Some h -> h_fd h = -1 -> g_loose g i = true -> inv g (put_helper i (closed_helper h) w).
Proof.
  intros Hi Hh Hf Hl. eapply inv_put_helper; [done|done|done|done| | |]; [left; split; [done|]; by apply (ho_loose _ _ _ _ _ (i_helpers _ _ Hi) i h)|..];
    by apply (proj2 (proj2 (i_times _ _ Hi)) i h).
Qed.

Lemma wp_process_close g w i h signal : inv g w -> g_loose g i = true -> helpers_of w !! i = Some h ->
  wp (resolver_supervisor_helper_process_close i signal) (fun _ w' => inv g w' /\ helper_step i (closed_helper h) w w') w.
Proof.
  intros Hi Hl Hh. unfold resolver_supervisor_helper_process_close. step. eapply wp_helper_get; [done|].
  assert (Hend : forall w1, inv g (put_helper i (closed_helper h) w1) -> helper_step i (closed_helper h) w (put_helper i (closed_helper h) w1) ->
    wp (if signal =? 0 then resolver_supervisor_process_reap_or_kill (h_process_id h) else resolver_supervisor_process_terminate (h_process_id h) signal)
      (fun _ w' => inv g w' /\ helper_step i (closed_helper h) w w') (put_helper i (closed_helper h) w1)).
  { intros w1 Hi1 Hs1. apply wp_quietly; [destruct (signal =? 0); auto with quiet|]. intros _ w2 Hq. split; [by eapply inv_quiet|by eapply helper_step_quiet]. }
  step. destruct (h_fd h =? -1) eqn:E; cbn [negb when].
  - step. step. eapply wp_helper_set; [done|]. replace (h <| h_process_id := -1 |>) with (closed_helper h) by (apply Z.eqb_eq in E; destruct h; cbn in E; by subst).
    apply Hend; [apply closed_station; [done|done|lia|done]|apply helper_step_put].
  - step. unfold epoll_delete, close. step. step. step. apply wp_open_get; [cbn; eapply inv_fd_open; [done|done|lia]|]. step. eapply wp_helper_set; [done|].
    rewrite closed_world. step. eapply wp_helper_set; [by eapply put_helper_lookup|]. rewrite put_helper_twice. apply Hend.
    + apply inv_helper_closed; [done|done|done|lia].
    + by split.
Qed.

(** ** Observations *)

Record still (w w' : world) : Prop := {
  sw_helpers : helpers_of w' = helpers_of w; sw_jobs : jobs_of w' = jobs_of w; sw_total : queue_total w' = queue_total w;
  sw_down : s_shutting_down (w_supervisor w') = s_shutting_down (w_supervisor w); sw_now : s_last_now (w_supervisor w') = s_last_now (w_supervisor w);
  sw_own : own_fds w' = own_fds w;
}.
Lemma still_refl w : still w w.
Proof. by split. Qed.
Lemma still_trans w1 w2 w3 : still w1 w2 -> still w2 w3 -> still w1 w3.
Proof. intros [A1 A2 A3 A4 A5 A6] [B1 B2 B3 B4 B5 B6]. split; congruence. Qed.
Lemma quiet_still w w' : quiet w w' -> still w w'.
Proof. intros Hq. pose proof (quiet_total _ _ Hq). destruct Hq as (m & Hs & _). split; unfold own_fds; rewrite ?Hs; done. Qed.
Lemma helper_step_still i h w1 w2 w3 : helper_step i h w1 w2 -> still w2 w3 -> helper_step i h w1 w3.
Proof. intros [A1 A2 A3 A4 A5 A6] [B1 B2 B3 B4 B5 B6]. split; congruence. Qed.
Lemma still_helper_step i h w1 w2 w3 : still w1 w2 -> helper_step i h w2 w3 -> helper_step i h w1 w3.
Proof. intros [A1 A2 A3 A4 A5 A6] [B1 B2 B3 B4 B5 B6]. split; congruence. Qed.

Definition ringed (obs : list (option resolver_supervisor_observation)) (head count : Z) (w : world) : world :=
  w <| w_supervisor ::= (fun s => s <| s_observations := obs |> <| s_observation_head := head |> <| s_observation_count := count |>) |>.
Lemma inv_ringed g w obs head count : inv g w -> len obs = RESOLVER_SUPERVISOR_OBSERVATION_CAPACITY -> 0 <= head < RESOLVER_SUPERVISOR_OBSERVATION_CAPACITY ->
  0 <= count <= RESOLVER_SUPERVISOR_OBSERVATION_CAPACITY -> inv g (ringed obs head count w) /\ still w (ringed obs head count w).
Proof. intros [H1 H2 H3 H4 H5 H6 H7 H8 H9 H10 H11 H12 H13 H14 H15 H16 H17] Ho Hh Hc. split; [|by split]. split; try assumption. done. Qed.

Lemma wp_observation_push g w o : inv g w -> wp (resolver_supervisor_observation_push o) (fun _ w' => inv g w' /\ still w w') w.
Proof.
  intros Hi. unfold resolver_supervisor_observation_push. do 3 step.
  assert (Hput : forall w1, inv g w1 -> still w w1 -> s_observation_count (w_supervisor w1) < RESOLVER_SUPERVISOR_OBSERVATION_CAPACITY ->
    wp (s ← supervisor; let index := (s_observation_head s + s_observation_count s) mod RESOLVER_SUPERVISOR_OBSERVATION_CAPACITY in
        if len (s_observations s) <=? index then fault else
        on_supervisor (fun s => s <| s_observations ::= <[Z.to_nat index := Some o]> |> <| s_observation_count ::= Z.succ |>)) (fun _ w' => inv g w' /\ still w w') w1).
  { intros w1 Hi1 Hs1 Hc1. destruct (i_ring _ _ Hi1) as (R1 & R2 & R3). unfold RESOLVER_SUPERVISOR_OBSERVATION_CAPACITY in *. do 2 step. cbv zeta. step.
    - pose proof (Z.mod_pos_bound (s_observation_head (w_supervisor w1) + s_observation_count (w_supervisor w1)) 32 ltac:(lia)). lia.
    - step. set (obs := <[Z.to_nat ((s_observation_head (w_supervisor w1) + s_observation_count (w_supervisor w1)) mod 32) := Some o]> (s_observations (w_supervisor w1))).
      destruct (inv_ringed g w1 obs (s_observation_head (w_supervisor w1)) (Z.succ (s_observation_count (w_supervisor w1))) Hi1) as [Hi2 Hs2];
        [unfold obs; by rewrite length_insert|done|unfold RESOLVER_SUPERVISOR_OBSERVATION_CAPACITY; lia|]. split; [exact Hi2|exact (still_trans _ _ _ Hs1 Hs2)]. }
  destruct (i_ring _ _ Hi) as (R1 & R2 & R3). apply wp_when; intros E.
  - step. step. set (head := (s_observation_head (w_supervisor w) + 1) mod RESOLVER_SUPERVISOR_OBSERVATION_CAPACITY).
    assert (Hh : 0 <= head < RESOLVER_SUPERVISOR_OBSERVATION_CAPACITY) by (apply Z.mod_pos_bound; done).
    destruct (inv_ringed g w (s_observations (w_supervisor w)) head (Z.pred (s_observation_count (w_supervisor w))) Hi) as [Hi1 Hs1]; [done|done|lia|].
    apply wp_quietly; [auto with quiet|]. intros _ w1 Hq. apply Hput.
    + eapply inv_quiet; [exact Hq|]. exact Hi1.
    + eapply still_trans; [exact Hs1|]. by apply quiet_still.
    + apply quiet_supervisor in Hq as [m ->]. cbn. unfold RESOLVER_SUPERVISOR_OBSERVATION_CAPACITY in *. lia.
  - apply Hput; [done|apply still_refl|lia].
Qed.

(** ** Recovery and failure *)

Lemma valid_zero : valid timespec_zero.
Proof. by split. Qed.
Lemma inv_process g w i h : inv g w -> helpers_of w !! i = Some h -> h_fd h <> -1 -> 0 < h_process_id h.
Proof. intros Hi Hh. by apply (do_process _ _ _ _ (i_descriptors _ _ Hi) i h). Qed.
Lemma inv_helper_times g w i h : inv g w -> helpers_of w !! i = Some h -> valid (h_next_event_at h) /\ 0 <= h_failure_count h.
Proof. intros Hi Hh. by apply (proj2 (proj2 (i_times _ _ Hi)) i h). Qed.

Lemma wp_recover g w i h recovery now : inv g w -> helpers_of w !! i = Some h ->
  wp (resolver_supervisor_helper_recover i recovery now) (fun _ w' => inv g w' /\ exists h', helper_step i h' w w' /\ same_station h h') w.
Proof.
  intros Hi Hh. unfold resolver_supervisor_helper_recover. step. eapply wp_helper_get; [done|]. step.
  { step. split; [done|]. exists h. split; [by apply helper_step_refl|done]. }
  step. apply wp_quietly; [auto with quiet|]. intros _ w1 Hq1. step.
  assert (Hend : forall w2, inv g w2 -> still w w2 -> wp (helper_set i (fun h => h <| h_consecutive_successes := 0 |> <| h_cycle_id := 0 |> <| h_degraded_at := timespec_zero |>
    <| h_failure_count := 0 |> <| h_last_failed_process_id := -1 |> <| h_last_failure := RESOLVER_SUPERVISOR_HELPER_FAILURE_NONE |>
    <| h_next_event_at := timespec_zero |>)) (fun _ w' => inv g w' /\ exists h', helper_step i h' w w' /\ same_station h h') w2).
  { intros w2 Hi2 Hs2. assert (Hh2 : helpers_of w2 !! i = Some h) by (by rewrite (sw_helpers _ _ Hs2)). eapply wp_helper_set; [done|]. split.
    - eapply inv_put_helper; [done|done|done| |by right|apply valid_zero|done]. by eapply inv_process.
    - eexists. split; [exact (still_helper_step _ _ _ _ _ Hs2 (helper_step_put _ _ _))|done]. }
  apply (inv_quiet _ _ _ Hq1) in Hi. apply quiet_still in Hq1. step.
  - apply wp_quietly; [auto with quiet|]. intros _ w2 Hq2. apply Hend; [by eapply inv_quiet|]. eapply still_trans; [done|by apply quiet_still].
  - eapply wp_mono; [by apply wp_observation_push|]. cbv beta. intros _ w2 [Hi2 Hs2]. apply Hend; [done|exact (still_trans _ _ _ Hq1 Hs2)].
Qed.

Lemma wp_success g w i h now : inv g w -> helpers_of w !! i = Some h ->
  wp (resolver_supervisor_helper_success i now) (fun _ w' => inv g w' /\ exists h', helper_step i h' w w' /\ same_station h h') w.
Proof.
  intros Hi Hh. unfold resolver_supervisor_helper_success. step. eapply wp_helper_get; [done|]. step.
  { step. split; [done|]. exists h. split; [by apply helper_step_refl|done]. }
  step. eapply wp_helper_set; [done|]. set (h1 := h <| h_consecutive_successes ::= _ |>).
  assert (Hi1 : inv g (put_helper i h1 w)).
  { destruct (inv_helper_times _ _ _ _ Hi Hh). eapply inv_put_helper; [done|done|done| |by right|done|done]. by eapply inv_process. }
  apply wp_when; intros E'.
  - eapply wp_mono; [eapply wp_recover; [exact Hi1|by eapply put_helper_lookup]|]. cbv beta. intros _ w2 (Hi2 & h2 & Hs2 & Hst2). split; [done|]. exists h2.
    split; [exact (helper_step_trans _ _ _ _ _ _ (helper_step_put i h1 w) Hs2)|]. exact Hst2.
  - split; [done|]. exists h1. split; [apply helper_step_put|done].
Qed.

Lemma cycle_start_station now h : h_fd (cycle_start now h) = h_fd h /\ h_job (cycle_start now h) = h_job h /\ h_failure_count (cycle_start now h) = h_failure_count h /\
  h_next_event_at (cycle_start now h) = h_next_event_at h.
Proof. unfold cycle_start. if_as E1; [|done]. if_as E2; done. Qed.

Lemma wp_respawn_schedule g w i h failure now : inv g w -> g_loose g i = true -> helpers_of w !! i = Some h -> h_job h = None -> h_fd h = -1 ->
  g_phase g = s_shutting_down (w_supervisor w) -> valid now ->
  wp (resolver_supervisor_helper_respawn_schedule i failure now) (fun _ w' => inv (g <| g_loose ::= set_loose i false |>) w' /\
    exists h', helper_step i h' w w' /\ h_fd h' = -1 /\ h_job h' = None /\ h_state h' <> RESOLVER_SUPERVISOR_HELPER_IDLE) w.
Proof.
  intros Hi Hl Hh Hj Hf Hph Hnow. destruct (inv_helper_times _ _ _ _ Hi Hh) as [Hv Hn].
  assert (Hput : forall w1 h1 h2, inv g w1 -> helpers_of w1 !! i = Some h1 -> h_fd h1 = -1 -> h_fd h2 = -1 -> h_job h2 = None -> valid (h_next_event_at h2) -> 0 <= h_failure_count h2 ->
    inv g (put_helper i h2 w1)).
  { intros w1 h1 h2 A1 A2 A3 A4 A5 A6 A7. eapply inv_put_helper; [done|done|congruence|congruence|left; split; [done|by left]|done|done]. }
  assert (Hset : forall w1 h1, inv g w1 -> helper_step i h1 w w1 -> h_job h1 = None -> h_fd h1 = -1 ->
      (h_state h1 = RESOLVER_SUPERVISOR_HELPER_BACKOFF /\ g_phase g = false) \/ (h_state h1 = RESOLVER_SUPERVISOR_HELPER_STOPPED /\ g_phase g = true) ->
      inv (g <| g_loose ::= set_loose i false |>) w1 /\ exists h', helper_step i h' w w1 /\ h_fd h' = -1 /\ h_job h' = None /\ h_state h' <> RESOLVER_SUPERVISOR_HELPER_IDLE).
  { intros w1 h1 B1 B2 B3 B4 B5. split.
    - eapply inv_settle_idle; [done|by eapply helper_step_lookup|done| |by destruct B5 as [[-> _]|[-> _]]]. unfold helper_fits. destruct B5 as [[-> ?]|[-> ?]]; done.
    - exists h1. split; [done|]. split; [done|]. split; [done|]. by destruct B5 as [[-> _]|[-> _]]. }
  unfold resolver_supervisor_helper_respawn_schedule. step. eapply wp_helper_set; [done|]. set (h1 := h <| h_consecutive_successes := 0 |>).
  assert (Hi1 : inv g (put_helper i h1 w)) by (by eapply Hput). assert (Hh1 := put_helper_lookup i h h1 w Hh). step. step.
  change (s_shutting_down (w_supervisor (put_helper i h1 w))) with (s_shutting_down (w_supervisor w)). step.
  { eapply wp_helper_set; [done|]. rewrite put_helper_twice. set (h2 := h1 <| h_state := _ |> <| h_next_event_at := _ |>). eapply Hset; [|apply helper_step_put|done|done|].
    - eapply Hput; try done.
    - right. done. }
  step. eapply wp_helper_set; [done|]. rewrite put_helper_twice. set (h2 := _ <| h_failure_count ::= _ |> <| h_last_failure := _ |>).
  destruct (cycle_start_station now h1) as (C1 & C2 & C3 & C4).
  assert (F2 : h_fd h2 = -1 /\ h_job h2 = None /\ 0 <= h_failure_count h2 /\ h_next_event_at h2 = h_next_event_at h).
  { unfold h2. cbn. rewrite C1, C2, C3, C4. split; [done|]. split; [done|]. split; [|done]. change (h_failure_count h1) with (h_failure_count h). if_as E2; lia. }
  destruct F2 as (F21 & F22 & F23 & F24). clearbody h2.
  assert (Hi2 : inv g (put_helper i h2 w)) by (eapply Hput; try done; by rewrite F24). step. apply wp_quietly; [apply quietly_when; intros _; auto with quiet|]. intros _ w3 Hq.
  apply (inv_quiet _ _ _ Hq) in Hi2. pose proof (helper_step_quiet _ _ _ _ _ (helper_step_put i h2 w) Hq) as Hs3. assert (Hh3 := helper_step_lookup _ _ _ _ _ Hs3 Hh).
  step. eapply wp_helper_get; [done|]. set (delay := if resolver_supervisor_delay_respawn_base _ =? 0 then 0 else _).
  assert (Hd : 0 <= delay < 2 ^ 64) by (unfold delay; if_as Eb; [done|]; apply jitter_range; [apply respawn_base_range|done]).
  step. eapply wp_helper_set; [done|]. set (h4 := h2 <| h_state := _ |> <| h_next_event_at := _ |>).
  assert (V4 : valid (h_next_event_at h4)).
  { change (valid (default now (timeutil_add_milliseconds (Some now) delay))). destruct (timeutil_exact now now delay Hnow Hnow Hd) as (_ & Ha & _). destruct (timeutil_add_milliseconds (Some now) delay) as [t|]; [apply Ha|done]. }
  assert (Hi4 : inv g (put_helper i h4 w3)) by (eapply Hput; done). pose proof (helper_step_trans _ _ _ _ _ _ Hs3 (helper_step_put i h4 w3)) as Hs4.
  step.
  - apply wp_quietly; [auto with quiet|]. intros _ w5 Hq5. eapply (Hset w5 h4); [by eapply inv_quiet|by eapply helper_step_quiet|done|done|]. left. done.
  - eapply wp_mono; [by apply wp_observation_push|]. cbv beta. intros _ w5 [Hi5 Hs5]. eapply (Hset w5 h4); [done|exact (helper_step_still _ _ _ _ _ Hs4 Hs5)|done|done|]. left. done.
Qed.

(** ** A helper loses its job *)

Lemma dropped_world p (j : job) b w : put_job p j (w <| w_supervisor ::= (fun s => s <| s_assembly_budget := Some b |>) |>) =
  (put_job p j w) <| w_supervisor ::= (fun s => s <| s_assembly_budget := Some b |>) |>.
Proof. done. Qed.
Lemma ghost_own g stray : (g <| g_stray := stray |> <| g_charges := g_charges g |>) <| g_stray := g_stray g |> <| g_charges := g_charges g |> = g.
Proof. by destruct g. Qed.
Lemma wp_assembly_drop g w p j : inv g w -> g_hand g = Some p -> jobs_of w !! p = Some j ->
  wp (assembly_destroy (j_assembly j) ;; job_set p (fun j => j <| j_assembly := None |>)) (fun _ w' => inv g w' /\ steady w w' /\ queue_total w' = queue_total w /\
    jobs_of w' = <[p := j <| j_assembly := None |>]> (jobs_of w)) w.
Proof.
  intros Hi Hh Hj. destruct (i_interests _ _ Hi p j Hj) as [I1 I2].
  assert (Hm : inv (g <| g_stray := option_list (j_assembly j) ++ g_stray g |> <| g_charges := g_charges g |>) (put_job p (j <| j_assembly := None |>) w)).
  { apply (inv_put_owned g w p j); try done; [by left|cbn; by rewrite app_nil_r, Permutation_app_comm|exact (i_responses _ _ Hi p j Hj)|by apply (proj1 (proj2 (i_times _ _ Hi)) p j)]. }
  pose proof (i_budget _ _ Hm) as Hb. assert (Hb' := Hb). destruct Hb' as (b & _ & Hbs & _). rewrite Hbs in Hb.
  destruct (budget_destroy _ _ _ _ _ _ Hb) as (b1 & Hd1 & Hb1). step. eapply wp_with_budget; [exact Hbs|by rewrite Hd1|]. eapply wp_job_set; [exact Hj|]. rewrite dropped_world.
  split; [|split; [by split|done]]. rewrite <- (ghost_own g (option_list (j_assembly j) ++ g_stray g)) at 1. by apply inv_with_budget.
Qed.

Record aside (i : nat) (w w' : world) : Prop := {
  ad_helpers : forall k, k <> i -> helpers_of w' !! k = helpers_of w !! k;
  ad_down : s_shutting_down (w_supervisor w') = s_shutting_down (w_supervisor w); ad_now : s_last_now (w_supervisor w') = s_last_now (w_supervisor w);
}.
Lemma aside_refl i w : aside i w w.
Proof. by split. Qed.
Lemma aside_trans i w1 w2 w3 : aside i w1 w2 -> aside i w2 w3 -> aside i w1 w3.
Proof. intros [A1 A2 A3] [B1 B2 B3]. split; [|congruence..]. intros k Hk. rewrite B1, A1; done. Qed.
Lemma steady_aside i w w' : steady w w' -> aside i w w'.
Proof. intros [H1 H2 H3 _]. split; [|done|done]. intros k _. by rewrite H1. Qed.
Lemma helper_step_aside i h w w' : helper_step i h w w' -> aside i w w'.
Proof. intros [H1 _ _ H2 H3]. split; [|done|done]. intros k Hk. by rewrite H1, list_lookup_insert_ne. Qed.
Lemma still_aside i w w' : still w w' -> aside i w w'.
Proof. intros [H1 _ _ H2 H3]. split; [|done|done]. intros k _. by rewrite H1. Qed.

(** A helper out of its state with the job in hand. *)
Record at_work (g : ghost) (w : world) (i : nat) (h : helper) (p : Z) (j : job) : Prop := {
  aw_inv : inv g w; aw_hand : g_hand g = Some p; aw_job : jobs_of w !! p = Some j; aw_helper : helpers_of w !! i = Some h; aw_loose : g_loose g i = true;
  aw_has : h_job h = Some p; aw_others : forall k h', helpers_of w !! k = Some h' -> k <> i -> g_loose g k = true -> h_job h' = None;
  aw_response : rt_budget (j_response j) = false; aw_state : j_state j <> RESOLVER_SUPERVISOR_JOB_COMPLETE; aw_settled : g_unsettled g <> Some p;
}.
Lemma at_work_put_helper g w i h h' p j : at_work g w i h p j -> h_fd h' = h_fd h -> h_process_id h' = h_process_id h -> h_job h' = h_job h ->
  valid (h_next_event_at h') -> 0 <= h_failure_count h' -> at_work g (put_helper i h' w) i h' p j.
Proof.
  intros [H1 H2 H3 H4 H5 H6 H7 H8 H9 H10] E1 E2 E3 E4 E5. split; try done.
  - eapply inv_put_helper; [done|done|done|rewrite E2; by eapply inv_process|left; split; [done|right; congruence]|done|done].
  - by eapply put_helper_lookup.
  - congruence.
  - intros k x Hk Hne. apply helpers_lookup_put in Hk as [[-> _]|[_ Hk]]; [done|by apply H7].
Qed.
Lemma at_work_put_job g w i h p j j' : at_work g w i h p j -> same_links j j' -> j_background_interest_count j' = j_background_interest_count j ->
  j_interactive_interest_count j' = j_interactive_interest_count j -> j_priority j' = j_priority j -> j_orphaned j' = j_orphaned j -> job_times j' ->
  j_state j' <> RESOLVER_SUPERVISOR_JOB_COMPLETE -> (j_orphaned j = true -> j_state j' = RESOLVER_SUPERVISOR_JOB_DISPATCHED) -> at_work g (put_job p j' w) i h p j'.
Proof.
  intros [H1 H2 H3 H4 H5 H6 H7 H8 H9 H10] [L1 L2 (L3 & L4 & L5)] E1 E2 E3 E4 Ht Hs Ho. destruct (i_interests _ _ H1 p j H3) as [I1 I2]. split; try done.
  - eapply inv_put_job; [done|done|done|by left| | | |done].
    + unfold interests_ok. by rewrite E1, E2.
    + intros _. specialize (I2 H10). unfold settled in *. rewrite bool_decide_eq_false_2 in * by done. rewrite E1, E2, E3, E4. tauto.
    + intros _. by rewrite L5.
  - apply put_lookup.
  - by rewrite L5.
Qed.
Lemma at_work_times g w i h p j : at_work g w i h p j -> job_times j /\ valid (h_next_event_at h) /\ 0 <= h_failure_count h.
Proof. intros H. split; [by apply (proj1 (proj2 (i_times _ _ (aw_inv _ _ _ _ _ _ H))) p j), H|]. eapply inv_helper_times; apply H. Qed.
Lemma at_work_settled g w i h p j : at_work g w i h p j ->
  (j_priority j = RESOLVER_SUPERVISOR_PRIORITY_INTERACTIVE <-> 0 < j_interactive_interest_count j) /\
  (j_orphaned j = true <-> j_background_interest_count j = 0 /\ j_interactive_interest_count j = 0) /\
  (j_orphaned j = true -> j_state j = RESOLVER_SUPERVISOR_JOB_DISPATCHED).
Proof.
  intros H. destruct (i_interests _ _ (aw_inv _ _ _ _ _ _ H) p j (aw_job _ _ _ _ _ _ H)) as [_ Hs]. specialize (Hs (aw_settled _ _ _ _ _ _ H)). unfold settled in Hs.
  rewrite bool_decide_eq_false_2 in Hs by apply H. done.
Qed.

Definition detached (j : job) : job := j <| j_query_id := 0 |> <| j_assembly := None |>.

Lemma wp_detach {B} g w i h p j (rest : prog B) (Q : B -> world -> Prop) : at_work g w i h p j ->
  (forall w', at_work g w' i h p (detached j) -> steady w w' -> queue_total w' = queue_total w -> entries_of w' = entries_of w -> wp rest Q w') ->
  wp (job_set p (fun j => j <| j_query_id := 0 |>) ;; assembly_destroy (j_assembly j) ;; job_set p (fun j => j <| j_assembly := None |>) ;; rest) Q w.
Proof.
  intros H HQ. destruct (at_work_times _ _ _ _ _ _ H) as (T1 & _). destruct (at_work_settled _ _ _ _ _ _ H) as (S1 & S2 & S3).
  step. eapply wp_job_set; [apply H|]. set (j1 := j <| j_query_id := 0 |>).
  assert (H1 : at_work g (put_job p j1 w) i h p j1) by (apply (at_work_put_job _ _ _ _ _ j); try done; apply H).
  change (j_assembly j) with (j_assembly j1). pose proof (wp_assembly_drop _ _ _ _ (aw_inv _ _ _ _ _ _ H1) (aw_hand _ _ _ _ _ _ H1) (aw_job _ _ _ _ _ _ H1)) as Hd.
  unfold wp at 1, mbind, prog_bind in Hd. unfold wp at 1, mbind, prog_bind. destruct (assembly_destroy _ _) as [[? w2]|]; [|done].
  destruct (job_set p _ w2) as [[? w3]|]; [|done]. destruct Hd as (Hi3 & Hs3 & Ht3 & Hj3). apply (HQ w3).
  - destruct H1 as [A1 A2 A3 A4 A5 A6 A7 A8 A9 A10]. split; try done.
    + rewrite Hj3. change (jobs_of (put_job p j1 w)) with (<[p := j1]> (jobs_of w)). by rewrite insert_insert_eq, lookup_insert_eq.
    + by rewrite (st_helpers _ _ Hs3).
    + intros k x. rewrite (st_helpers _ _ Hs3). apply A7.
  - eapply steady_trans; [apply put_steady|exact Hs3].
  - by rewrite Ht3.
  - unfold entries_of. rewrite Hj3. change (jobs_of (put_job p j1 w)) with (<[p := j1]> (jobs_of w)). rewrite insert_insert_eq. by eapply relinked_put_entries; [apply H|].
Qed.

(** The helper lets the job go; the job is in hand alone. *)
Lemma at_work_released g w i h h' p j : at_work g w i h p j -> j_assembly j = None -> h_fd h' = h_fd h -> h_process_id h' = h_process_id h -> h_job h' = None ->
  valid (h_next_event_at h') -> 0 <= h_failure_count h' -> in_hand g (put_helper i h' w) p j.
Proof.
  intros [H1 H2 H3 H4 H5 H6 H7 H8 H9 H10] Ha E1 E2 E3 E4 E5. split; try done.
  - eapply inv_put_helper; [done|done|done|rewrite E2; by eapply inv_process|left; split; [done|by left]|done|done].
  - intros k x Hk Hl. apply helpers_lookup_put in Hk as [[-> ->]|[Hne Hk]]; [done|]. by eapply H7.
Qed.

(** [resolver_supervisor_helper_fail] after the job is taken care of. *)
Lemma wp_fail_close g w i h failure now : inv g w -> g_loose g i = true -> helpers_of w !! i = Some h -> h_job h = None ->
  g_phase g = s_shutting_down (w_supervisor w) -> valid now ->
  wp (resolver_supervisor_helper_process_close i (match failure with RESOLVER_SUPERVISOR_HELPER_FAILURE_EXIT => 0 | _ => SIGKILL end) ;;
      resolver_supervisor_helper_respawn_schedule i failure now)
    (fun _ w' => inv (g <| g_loose ::= set_loose i false |>) w' /\
      exists h', helper_step i h' w w' /\ h_fd h' = -1 /\ h_job h' = None /\ h_state h' <> RESOLVER_SUPERVISOR_HELPER_IDLE) w.
Proof.
  intros Hi Hl Hh Hj Hph Hnow. step. eapply wp_mono; [by eapply wp_process_close|]. cbv beta. intros _ w1 (Hi1 & Hs1).
  eapply wp_mono; [eapply wp_respawn_schedule; [exact Hi1|done|by eapply helper_step_lookup|done|done| |done]|].
  - by rewrite (hs_down _ _ _ _ Hs1).
  - cbv beta. intros _ w2 (Hi2 & h' & Hs2 & F). split; [done|]. exists h'. split; [exact (helper_step_trans _ _ _ _ _ _ Hs1 Hs2)|done].
Qed.

(** What a failed helper leaves. *)
Definition failed_helper (i : nat) (w w' : world) : Prop :=
  aside i w w' /\ exists h', helpers_of w' !! i = Some h' /\ h_fd h' = -1 /\ h_job h' = None /\ h_state h' <> RESOLVER_SUPERVISOR_HELPER_IDLE.
Definition fail_end (i : nat) (g : ghost) (w w' : world) : Prop := holding (g <| g_hand := None |> <| g_loose ::= set_loose i false |>) w' /\ failed_helper i w w'.

Lemma wp_fail_end g w w1 i h failure now : holding (g <| g_hand := None |>) w1 -> g_loose g i = true -> aside i w w1 -> helpers_of w1 !! i = Some h -> h_job h = None ->
  g_phase g = s_shutting_down (w_supervisor w) -> valid now ->
  wp (resolver_supervisor_helper_process_close i (match failure with RESOLVER_SUPERVISOR_HELPER_FAILURE_EXIT => 0 | _ => SIGKILL end) ;;
      resolver_supervisor_helper_respawn_schedule i failure now) (fun _ => fail_end i g w) w1.
Proof.
  intros (q & d & Hi) Hl Ha Hh Hj Hph Hnow. eapply wp_mono; [eapply wp_fail_close; [exact Hi|done|done|done| |done]|].
  - by rewrite (ad_down _ _ _ Ha).
  - cbv beta. intros _ w2 (Hi2 & h' & Hs2 & F). split; [by exists q, d|]. split; [exact (aside_trans _ _ _ _ Ha (helper_step_aside _ _ _ _ Hs2))|].
    exists h'. split; [by eapply helper_step_lookup|done].
Qed.

Lemma ghost_no_hand g : g_hand g = None -> g <| g_hand := None |> = g.
Proof. destruct g. cbn. by intros ->. Qed.

Lemma wp_helper_fail_idle g w i h failure now : inv g w -> g_hand g = None -> g_loose g i = true -> helpers_of w !! i = Some h -> h_job h = None ->
  g_phase g = s_shutting_down (w_supervisor w) -> valid now -> wp (resolver_supervisor_helper_fail i failure now) (fun _ => fail_end i g w) w.
Proof.
  intros Hi Hh Hl Hhe Hj Hph Hnow. destruct (inv_helper_times _ _ _ _ Hi Hhe). unfold resolver_supervisor_helper_fail. step. eapply wp_helper_get; [done|].
  step. eapply wp_helper_set; [done|]. rewrite Hj. step. step. set (h1 := h <| h_last_failed_process_id := _ |>).
  eapply (wp_fail_end g w _ i h1); [|done|apply (helper_step_aside _ h1), helper_step_put|by eapply put_helper_lookup|done|done|done].
  rewrite (ghost_no_hand _ Hh). apply inv_holding. eapply inv_put_helper; [done|done|done|by eapply inv_process|left; split; [done|by left]|done|done].
Qed.

Lemma wp_helper_fail_busy g w i h p j failure now : at_work g w i h p j -> g_phase g = s_shutting_down (w_supervisor w) -> valid now ->
  wp (resolver_supervisor_helper_fail i failure now) (fun _ => fail_end i g w) w.
Proof.
  intros H Hph Hnow. destruct (at_work_times _ _ _ _ _ _ H) as (_ & V1 & V2). unfold resolver_supervisor_helper_fail. step. eapply wp_helper_get; [apply H|].
  step. eapply wp_helper_set; [apply H|]. rewrite (aw_has _ _ _ _ _ _ H). set (h1 := h <| h_last_failed_process_id := _ |>).
  assert (H1 : at_work g (put_helper i h1 w) i h1 p j) by (by apply (at_work_put_helper _ _ _ h)). pose proof (helper_step_aside _ _ _ _ (helper_step_put i h1 w)) as A1.
  step. step. eapply wp_job_get; [apply H1|]. cbv zeta. eapply wp_detach; [exact H1|]. intros w2 H2 S2 _ _. pose proof (aside_trans _ _ _ _ A1 (steady_aside i _ _ S2)) as A2.
  step. eapply wp_helper_set; [apply H2|]. set (h3 := h1 <| h_job := None |> <| h_request_size := 0 |>).
  assert (H3 : in_hand g (put_helper i h3 w2) p (detached j)) by (by apply (at_work_released _ _ _ h1)).
  pose proof (aside_trans _ _ _ _ A2 (helper_step_aside _ _ _ _ (helper_step_put i h3 w2))) as A3.
  assert (Hh3 : helpers_of (put_helper i h3 w2) !! i = Some h3) by (eapply put_helper_lookup, H2).
  assert (Hend : forall w4, holding (g <| g_hand := None |>) w4 -> steady (put_helper i h3 w2) w4 ->
    wp (resolver_supervisor_helper_process_close i (match failure with RESOLVER_SUPERVISOR_HELPER_FAILURE_EXIT => 0 | _ => SIGKILL end) ;;
      resolver_supervisor_helper_respawn_schedule i failure now) (fun _ => fail_end i g w) w4).
  { intros w4 Hi4 S4. eapply (wp_fail_end g w w4 i h3); [done|apply H|exact (aside_trans _ _ _ _ A3 (steady_aside i _ _ S4))|by rewrite (st_helpers _ _ S4)|done|done|done]. }
  destruct (in_hand_settled _ _ _ _ H3) as (U1 & U2 & U3). case_bool_decide as Es.
  - step. apply wp_quietly; [apply quietly_failure_record; eapply inv_live; apply H3|]. intros _ w4 Hq. apply (in_hand_quiet _ _ _ _ _ Hq) in H3.
    eapply wp_mono; [by eapply wp_job_retry|]. cbv beta. intros _ w5 (Hi5 & S5 & _). apply Hend; [done|]. exact (steady_trans _ _ _ (quiet_steady _ _ Hq) S5).
  - eapply wp_mono; [eapply wp_queue_prepend; try apply H3|].
    + split; [done|]. split; [apply H3|]. intros _. unfold settled. rewrite bool_decide_eq_false_2 by done. split; [exact U1|]. split; [exact U2|].
      intros Ho. by specialize (U3 Ho).
    + cbv beta. intros _ w5 (Hi5 & L5 & _). apply Hend; [|by apply lists_steady]. apply (holding_of _ _ _ Hi5). done.
Qed.
