(* ===== verification/SupervisorSteps.v ===== *)
(** * The steps of the supervisor keep its invariant

    Whole steps on one helper, from the invariant with every helper in a state and no job
    in hand to the same: failing, starting and stopping a helper, sending a request,
    assigning a job, receiving packets and finishing a result; and the dispatch loop. *)

From S2P Require Import Prelude Stateful Dll TimeUtil Metrics ResolverUtil Cache Ipc IpcAssembly Helper Supervisor SupervisorDelay SupervisorInv SupervisorJobs SupervisorHelpers.
From stdpp Require Import gmap.
#[local] Open Scope Z_scope.
#[local] Abbreviation prog := (prog world).

(** Between two steps. *)
Record calm (g : ghost) : Prop := { ca_hand : g_hand g = None; ca_loose : g_loose g = unbound; ca_unsettled : g_unsettled g = None }.

Lemma holding_loose_ext g w loose : holding g w -> (forall k, loose k = g_loose g k) -> holding (g <| g_loose := loose |>) w.
Proof. intros (q & d & Hi) He. exists q, d. exact (inv_loose_ext _ _ loose Hi He). Qed.
Lemma set_loose_back i k : set_loose i false (set_loose i true unbound) k = unbound k.
Proof. unfold set_loose. by repeat case_bool_decide. Qed.
Lemma calm_back g w hand i : calm g -> holding (g <| g_hand := hand |> <| g_loose ::= set_loose i true |> <| g_hand := None |> <| g_loose ::= set_loose i false |>) w -> holding g w.
Proof.
  intros [C1 C2 C3] H. apply (holding_loose_ext _ _ unbound) in H; [|intros k; cbn; rewrite C2; by rewrite set_loose_back]. destruct g; cbn in *. by subst.
Qed.
Lemma holding_lists g w q d : holding (g <| g_queue := q |> <| g_done := d |>) w -> holding g w.
Proof. intros (q' & d' & H). by exists q', d'. Qed.
Lemma calm_back_idle g w i : calm g -> holding (g <| g_loose ::= set_loose i true |> <| g_loose ::= set_loose i false |>) w -> holding g w.
Proof.
  intros [C1 C2 C3] H. apply (holding_loose_ext _ _ unbound) in H; [|intros k; cbn; rewrite C2; by rewrite set_loose_back]. destruct g; cbn in *. by subst.
Qed.

(** A helper with its job, taken out of its state. *)
Lemma take_at_work g w i h p : inv g w -> calm g -> helpers_of w !! i = Some h -> h_job h = Some p ->
  exists j, at_work (g <| g_hand := Some p |> <| g_loose ::= set_loose i true |>) w i h p j /\ g_phase g = false /\ h_fd h <> -1 /\
    j_slot_index j = Z.of_nat i /\ is_Some (j_assembly j) /\
    ((h_state h = RESOLVER_SUPERVISOR_HELPER_SENDING /\ j_state j = RESOLVER_SUPERVISOR_JOB_SENDING) \/
     (h_state h = RESOLVER_SUPERVISOR_HELPER_BUSY /\ j_state j = RESOLVER_SUPERVISOR_JOB_DISPATCHED)).
Proof.
  intros Hi [C1 C2 C3] Hh Hp. assert (Hl : g_loose g i = false) by (by rewrite C2).
  destruct (helper_job_here _ _ _ _ _ _ _ _ (i_helpers _ _ Hi) Hh Hl Hp) as (j & Hj & _ & Hsl & Hfd & Hph & Hst). exists j.
  assert (Hw : with_helper (j_state j) = true) by (destruct Hst as [[_ ->]|[_ ->]]; done).
  assert (Ha : is_Some (j_assembly j)) by (by apply (ho_assembly _ _ _ _ _ (i_helpers _ _ Hi) p j Hj ltac:(by rewrite C1))). split; [|done].
  assert (Hc : j_state j <> RESOLVER_SUPERVISOR_JOB_COMPLETE) by (intros E; by rewrite E in Hw). split; cbn; try done.
  - by eapply inv_take_busy.
  - unfold set_loose. by rewrite bool_decide_eq_true_2.
  - intros k x Hk Hne. unfold set_loose. rewrite bool_decide_eq_false_2, C2 by done. done.
  - by apply (i_responses _ _ Hi p j Hj).
  - by rewrite C3.
Qed.

Lemma wp_helper_fail g w i h failure now : holding g w -> calm g -> helpers_of w !! i = Some h -> g_phase g = s_shutting_down (w_supervisor w) -> valid now ->
  wp (resolver_supervisor_helper_fail i failure now) (fun _ w' => holding g w' /\ failed_helper i w w') w.
Proof.
  intros (q & d & Hi) Hc Hh Hph Hnow. set (g0 := g <| g_queue := q |> <| g_done := d |>) in *. assert (Hc0 : calm g0) by (by destruct Hc).
  assert (Hl : g_loose (g0 <| g_loose ::= set_loose i true |>) i = true) by (cbn; unfold set_loose; by rewrite bool_decide_eq_true_2).
  destruct (h_job h) as [p|] eqn:Ej.
  - destruct (take_at_work _ _ _ _ _ Hi Hc0 Hh Ej) as (j & Hw & _). eapply wp_mono; [by eapply wp_helper_fail_busy|]. cbv beta. intros _ w' [H1 H2]. split; [|done].
    exact (holding_lists _ _ _ _ (calm_back _ _ _ _ Hc0 H1)).
  - eapply wp_mono; [eapply wp_helper_fail_idle; [by eapply inv_take_idle|apply Hc|done|done|done|done|done]|]. cbv beta. intros _ w' [H1 H2]. split; [|done].
    rewrite (ghost_no_hand (g0 <| g_loose ::= set_loose i true |>)) in H1 by apply Hc. exact (holding_lists _ _ _ _ (calm_back_idle _ _ _ Hc0 H1)).
Qed.

(** ** Starting and stopping helpers *)

Lemma wp_helper_stop g w i h force : holding g w -> calm g -> helpers_of w !! i = Some h -> h_job h = None -> g_phase g = true ->
  wp (resolver_supervisor_helper_stop i force) (fun _ w' => holding g w' /\ aside i w w' /\
    exists h', helpers_of w' !! i = Some h' /\ h_state h' = RESOLVER_SUPERVISOR_HELPER_STOPPED) w.
Proof.
  intros (q & d & Hi) Hc Hh Hj Hph. set (g0 := g <| g_queue := q |> <| g_done := d |>) in *. assert (Hc0 : calm g0) by (by destruct Hc).
  pose proof (inv_take_idle _ _ _ _ Hi Hh Hj) as Hi0. unfold resolver_supervisor_helper_stop. step.
  eapply wp_mono; [eapply wp_process_close; [exact Hi0|cbn; unfold set_loose; by rewrite bool_decide_eq_true_2|exact Hh]|]. cbv beta. intros _ w1 (Hi1 & Hs1).
  pose proof (helper_step_lookup _ _ _ _ _ Hs1 Hh) as Hh1. eapply wp_helper_set; [done|]. set (h2 := closed_helper h <| h_state := _ |> <| h_next_event_at := _ |>).
  split; [|split; [eapply aside_trans; eapply helper_step_aside; [exact Hs1|apply (helper_step_put i h2)]|exists h2; split; [by eapply put_helper_lookup|done]]].
  apply (holding_lists g _ q d), (calm_back_idle _ _ i Hc0), inv_holding. apply (inv_settle_idle _ _ i h2); [|by eapply put_helper_lookup|done|done|done].
  eapply inv_put_helper; [exact Hi1|done|done|done|left; split; [|by left]|apply valid_zero|].
  - cbn. unfold set_loose. by rewrite bool_decide_eq_true_2.
  - by apply (inv_helper_times _ _ _ _ Hi1 Hh1).
Qed.

(** A helper gets a descriptor that is new. *)
Definition fd_opened (mask : Z) (starts : list (option Z)) (ctls : list bool) (w : world) : world :=
  w <| w_kernel ::= (fun k => k <| k_starts := starts |> <| k_next ::= Z.succ |> <| k_open ::= ({[k_next k]} ∪.) |> <| k_epoll_ctls := ctls |> <| k_registered ::= <[k_next k := mask]> |>) |>.
Lemma inv_helper_opened g w i h h' mask starts ctls : inv g w -> helpers_of w !! i = Some h -> g_loose g i = true -> h_fd h = -1 -> h_fd h' = k_next (w_kernel w) ->
  0 < h_process_id h' -> h_job h' = None -> valid (h_next_event_at h') -> 0 <= h_failure_count h' -> Z.testbit mask 0 = true -> Forall started_process starts ->
  inv g (put_helper i h' (fd_opened mask starts ctls w)).
Proof.
  intros [H1 H2 H3 H4 H5 H6 [F1 F2 F3 F4 F5] H8 H9 H10 (H11 & H11' & H11'') H12 H13 H14 H15 H16 [H17 H18]] Hi Hl Hf Hf' Hp Hj Hv Hn Hm Hst.
  destruct H6 as [D1 D2 D3 D4]. destruct (helper_fds_perm _ _ _ h' Hi) as (rest & P1 & P2).
  assert (Hr : 0 <= k_next (w_kernel w)) by (apply list.Forall_cons in D3 as [? _]; lia). unfold fd_list in P1, P2. rewrite Hf in P1. replace (h_fd h' =? -1) with false in P2 by lia. cbn in P1, P2.
  assert (Hnew : forall x, x ∈ s_epoll_fd (w_supervisor w) :: s_timer_fd (w_supervisor w) :: helper_fds (helpers_of w) -> x <> k_next (w_kernel w)).
  { intros x Hx ->. eapply list.Forall_forall in D3; [|exact Hx]. lia. }
  assert (P3 : s_epoll_fd (w_supervisor w) :: s_timer_fd (w_supervisor w) :: helper_fds (<[i := h']> (helpers_of w)) ≡ₚ
    k_next (w_kernel w) :: s_epoll_fd (w_supervisor w) :: s_timer_fd (w_supervisor w) :: helper_fds (helpers_of w)).
  { rewrite P2, P1, Hf'. solve_Permutation. }
  split; try assumption; cbn.
  - eapply budget_holds_next; [|exact H5]. lia.
  - split; cbn.
    + rewrite P3. apply list.NoDup_cons. split; [|done]. intros Hx. by eapply Hnew.
    + rewrite D2. symmetry. etransitivity; [exact (list_to_set_perm_L (C := gset Z) _ _ P3)|done].
    + rewrite P3. apply list.Forall_cons. split; [lia|]. eapply Forall_impl; [exact D3|]. cbn. lia.
    + intros k x Hk. apply helpers_lookup_put in Hk as [[-> ->]|[Hne Hk]]; [done|by eapply D4].
  - split; [by rewrite length_insert| | | |done].
    + intros k x Hk Hlk. apply helpers_lookup_put in Hk as [[-> ->]|[Hne Hk]]; [congruence|by apply F2].
    + intros k x Hk Hlk. apply helpers_lookup_put in Hk as [[-> ->]|[Hne Hk]]; [by left|by eapply F3].
    + intros p j Hpj Hh Hw. destruct (F4 p j Hpj Hh Hw) as (k & x & A1 & A2 & A3 & A4). exists k, x. rewrite list_lookup_insert_ne; [done|]. intros ->. congruence.
  - intros k x Hk. apply helpers_lookup_put in Hk as [[-> ->]|[Hne Hk]].
    + intros _. exists mask. rewrite Hf', lookup_insert_eq. split; [done|]. split; [done|]. congruence.
    + intros Hx. destruct (H8 k x Hk Hx) as (mask' & A1 & A2). exists mask'. rewrite lookup_insert_ne; [done|]. apply not_eq_sym, Hnew. right. right. by eapply helper_fds_elem.
  - split; [done|]. split; [done|]. intros k x Hk. apply helpers_lookup_put in Hk as [[-> ->]|[Hne Hk]]; [done|by eapply H11''].
  - intros p Hpj. specialize (H13 p Hpj). lia.
  - done.
Qed.

Lemma quiet_kernel w f : kernel_quiet (w_kernel w) (f (w_kernel w)) -> quiet w (w <| w_kernel ::= f |>).
Proof. intros H. exists (s_metrics (w_supervisor w)). split; [cbn; by destruct (w_supervisor w)|]. by split. Qed.

(** The start of a helper failed. *)
Lemma wp_spawn_failed g w i h pid w1 now : inv g w -> g_loose g i = true -> helpers_of w !! i = Some h -> h_job h = None -> h_fd h = -1 ->
  g_phase g = s_shutting_down (w_supervisor w) -> valid now -> quiet (put_helper i (h <| h_last_failed_process_id := pid |>) w) w1 ->
  wp (resolver_supervisor_helper_respawn_schedule i RESOLVER_SUPERVISOR_HELPER_FAILURE_SPAWN now ;; mret false)
    (fun _ w' => inv (g <| g_loose ::= set_loose i false |>) w' /\ exists h', helper_step i h' w w') w1.
Proof.
  intros Hi Hl Hh Hj Hf Hph Hnow Hq. set (h1 := h <| h_last_failed_process_id := pid |>) in *. destruct (inv_helper_times _ _ _ _ Hi Hh) as [V1 V2]. step.
  pose proof (helper_step_quiet _ _ _ _ _ (helper_step_put i h1 w) Hq) as Hs1.
  eapply wp_mono; [eapply wp_respawn_schedule; [|done|by eapply helper_step_lookup|done|done| |done]|].
  - eapply inv_quiet; [exact Hq|]. eapply inv_put_helper; [done|done|done|congruence|left; split; [done|by left]|done|done].
  - by rewrite (hs_down _ _ _ _ Hs1).
  - cbv beta. intros _ w2 (Hi2 & h' & Hs2 & _). step. split; [done|]. exists h'. exact (helper_step_trans _ _ _ _ _ _ Hs1 Hs2).
Qed.

Lemma spawn_unregistered w i h l ctls (Hf : k_next (w_kernel w) ∉ k_open (w_kernel w)) :
  let w1 := w <| w_kernel ::= (fun k => k <| k_starts := l |>) |> <| w_kernel ::= (fun k => k <| k_next ::= Z.succ |>) |> in
  let w2 := w1 <| w_kernel ::= (fun k => k <| k_open ::= ({[k_next (w_kernel w)]} ∪.) |>) |> in
  let w3 := w2 <| w_kernel ::= (fun k => k <| k_epoll_ctls := ctls |> <| k_registered ::= id |>) |> in
  k_starts (w_kernel w) <> [] /\ l = tail (k_starts (w_kernel w)) ->
  quiet (put_helper i h w) ((put_helper i h w3) <| w_kernel ::= (fun k => k <| k_open ::= (.∖ {[k_next (w_kernel w)]}) |>) |>).
Proof.
  intros w1 w2 w3 [Hne ->]. exists (s_metrics (w_supervisor w)). split; [cbn; by destruct (w_supervisor w)|]. split; [done|]. split; cbn; try done.
  - lia.
  - apply set_eq. intros x. rewrite elem_of_difference, elem_of_union, elem_of_singleton. split; [tauto|]. intros Hx. split; [by right|]. by intros ->.
  - intros H. destruct (k_starts (w_kernel w)); [done|]. by apply list.Forall_cons in H as [_ ?].
Qed.

Lemma wp_spawn g w0 i h now : inv g w0 -> g_loose g i = true -> helpers_of w0 !! i = Some h -> h_job h = None -> h_fd h = -1 -> g_phase g = false ->
  s_shutting_down (w_supervisor w0) = false -> valid now ->
  wp (resolver_supervisor_helper_spawn i now) (fun _ w' => inv (g <| g_loose ::= set_loose i false |>) w' /\ exists h', helper_step i h' w0 w') w0.
Proof.
  intros Hi0 Hl Hh0 Hj Hf Hph Hdn Hnow. unfold resolver_supervisor_helper_spawn. step. eapply wp_helper_get; [done|]. step. apply wp_quietly; [auto with quiet|].
  intros _ w Hq. pose proof (inv_quiet _ _ _ Hq Hi0) as Hi. apply quiet_still in Hq.
  eapply (wp_mono _ (fun _ w' => inv (g <| g_loose ::= set_loose i false |>) w' /\ exists h', helper_step i h' w w')).
  2:{ cbv beta. intros _ w' (A & h' & B). split; [done|]. exists h'. exact (still_helper_step _ _ _ _ _ Hq B). }
  rewrite <- (sw_helpers _ _ Hq) in Hh0. rewrite <- (sw_down _ _ Hq) in Hdn. clear Hq Hi0. rename Hh0 into Hh.
  assert (Hr : 0 <= k_next (w_kernel w)) by (pose proof (do_range _ _ _ _ (i_descriptors _ _ Hi)) as D; apply list.Forall_cons in D as [? _]; lia).
  assert (Hfr : k_next (w_kernel w) ∉ k_open (w_kernel w)).
  { rewrite (do_open _ _ _ _ (i_descriptors _ _ Hi)). intros Hx%elem_of_list_to_set. pose proof (do_range _ _ _ _ (i_descriptors _ _ Hi)) as D.
    eapply list.Forall_forall in D; [|exact Hx]. lia. }
  destruct (i_kernel _ _ Hi) as [_ Hst]. destruct (inv_helper_times _ _ _ _ Hi Hh) as [V1 V2].
  step. unfold process_start. do 2 step. destruct (k_starts (w_kernel w)) as [|[pid|] l] eqn:Es; cbn [drawn]; do 2 step.
  - do 2 step. eapply wp_helper_set; [done|]. set (w1 := w <| w_kernel ::= _ |>). assert (Hq1 : quiet w w1) by (apply quiet_kernel; by split).
    eapply wp_mono; [eapply (wp_spawn_failed g w1); [by eapply inv_quiet|done|done|done|done| |done|apply quiet_refl]|]; [by rewrite Hph|].
    cbv beta. intros _ w' (A & h' & B). split; [done|]. exists h'. exact (still_helper_step _ _ _ _ _ (quiet_still _ _ Hq1) B).
  - apply list.Forall_cons in Hst as [Hpid Hl']. cbn in Hpid. unfold fresh_address, epoll_set. do 12 step. destruct (drawn true _) as [a ctls] eqn:Ed. cbn in Ed. do 3 step. destruct a; cbn [negb].
    + step. eapply wp_helper_set; [done|]. set (h1 := h <| h_fd := _ |> <| h_next_event_at := _ |> <| h_process_id := _ |> <| h_state := _ |>).
      match goal with |- wp _ _ (put_helper i h1 ?w1) => change w1 with (fd_opened (Z.lor EPOLLIN EPOLLRDHUP) l ctls w) end.
      assert (Hv : valid (h_next_event_at h1)).
      { unfold h1. change (valid (if 0 <? h_failure_count h then default now (timeutil_add_seconds (Some now) RESOLVER_SUPERVISOR_RESPAWN_RESET_STABLE_SEC) else now)).
        destruct (timeutil_exact now now RESOLVER_SUPERVISOR_RESPAWN_RESET_STABLE_SEC Hnow Hnow ltac:(done)) as (Ha & _).
        destruct (0 <? h_failure_count h); [|done]. destruct (timeutil_add_seconds (Some now) _) as [t|]; [apply Ha|done]. }
      assert (Hi1 : inv g (put_helper i h1 (fd_opened (Z.lor EPOLLIN EPOLLRDHUP) l ctls w))) by (by eapply inv_helper_opened).
      step. apply wp_quietly; [auto with quiet|]. intros _ w2 Hq2. step. assert (Hs1 : helper_step i h1 w (put_helper i h1 (fd_opened (Z.lor EPOLLIN EPOLLRDHUP) l ctls w))) by (by split).
      split; [|exists h1; by eapply helper_step_quiet]. eapply inv_quiet; [exact Hq2|].
      apply (inv_settle_idle _ _ i h1); [done|by eapply put_helper_lookup|done| |done]. split; [done|]. split; [|done]. change (k_next (w_kernel w) <> -1). lia.
    + step. eapply wp_helper_set; [done|]. set (h1 := h <| h_last_failed_process_id := pid |>). step. unfold close. step. apply wp_open_get; [cbn; set_solver|]. do 2 step.
      apply wp_quietly; [auto with quiet|]. intros _ w2 Hq2. eapply (wp_spawn_failed g w i h pid); [done|done|done|done|done|by rewrite Hph|done|].
      eapply quiet_trans; [|exact Hq2]. pose proof (spawn_unregistered w i h1 l ctls Hfr) as Hu. cbv zeta in Hu. rewrite Es in Hu. apply Hu. by split.
  - do 2 step. eapply wp_helper_set; [done|]. set (w1 := w <| w_kernel ::= _ |>).
    assert (Hq1 : quiet w w1) by (apply quiet_kernel; split; cbn; try done; rewrite Es; by intros [_ ?]%list.Forall_cons).
    eapply wp_mono; [eapply (wp_spawn_failed g w1); [by eapply inv_quiet|done|done|done|done| |done|apply quiet_refl]|]; [by rewrite Hph|].
    cbv beta. intros _ w' (A & h' & B). split; [done|]. exists h'. exact (still_helper_step _ _ _ _ _ (quiet_still _ _ Hq1) B).
Qed.

(** ** Sending requests *)

Lemma inv_fd_distinct g w i h k x : inv g w -> helpers_of w !! i = Some h -> helpers_of w !! k = Some x -> k <> i -> h_fd x <> -1 -> h_fd x <> h_fd h.
Proof.
  intros Hi Hh Hx Hne Hf E. pose proof (do_nodup _ _ _ _ (i_descriptors _ _ Hi)) as D. destruct (helper_fds_perm _ _ _ (closed_helper h) Hh) as (rest & P1 & P2).
  apply list.NoDup_cons in D as [_ D]. apply list.NoDup_cons in D as [_ D]. rewrite P1 in D. unfold fd_list in D. replace (h_fd h =? -1) with false in D by lia.
  cbn in D. apply list.NoDup_cons in D as [D _]. apply D. assert (Hk : <[i := closed_helper h]> (helpers_of w) !! k = Some x) by (by rewrite list_lookup_insert_ne).
  apply helper_fds_elem in Hk; [|done]. rewrite P2, E in Hk. exact Hk.
Qed.

Definition event_mask (h : helper) : Z :=
  Z.lor (Z.lor EPOLLIN EPOLLRDHUP) (if bool_decide (h_state h = RESOLVER_SUPERVISOR_HELPER_SENDING) then EPOLLOUT else 0).
Lemma event_mask_in h : Z.testbit (event_mask h) 0 = true /\ (h_state h = RESOLVER_SUPERVISOR_HELPER_SENDING -> Z.testbit (event_mask h) 2 = true).
Proof. unfold event_mask. case_bool_decide; by split. Qed.

Lemma wp_events_update g w i h : inv g w -> helpers_of w !! i = Some h ->
  wp (resolver_supervisor_helper_events_update i) (fun a w' => inv g w' /\ still w w' /\ (a = true -> registered_ok false h (k_registered (w_kernel w')))) w.
Proof.
  intros Hi Hh. unfold resolver_supervisor_helper_events_update. step. eapply wp_helper_get; [done|]. step.
  { step. split; [done|]. split; [apply still_refl|]. intros _ Hf. lia. }
  unfold epoll_set. do 2 step. destruct (drawn true _) as [a ctls]. fold (event_mask h). do 3 step. destruct (event_mask_in h) as [M1 M2].
  destruct Hi as [H1 H2 H3 H4 H5 H6 H7 H8 H9 H10 H11 H12 H13 H14 H15 H16 H17]. assert (Hi : inv g w) by done. split; [|split; [by split|]].
  - split; try assumption; [by destruct H6; split|]. intros k x Hk Hx. change (helpers_of w !! k = Some x) in Hk. destruct (H8 k x Hk Hx) as (mask & A1 & A2 & A3). destruct a; [|by exists mask]. cbn.
    destruct (decide (k = i)) as [->|Hne].
    + assert (x = h) as -> by congruence. exists (event_mask h). rewrite lookup_insert_eq. by split; [|split; [|intros _]].
    + exists mask. rewrite lookup_insert_ne; [done|]. apply not_eq_sym. by eapply inv_fd_distinct.
  - intros -> Hf. exists (event_mask h). cbn. rewrite lookup_insert_eq. by split; [|split; [|intros _]].
Qed.

Lemma kernel_quiet_registered b h k k' : kernel_quiet k k' -> registered_ok b h (k_registered k) -> registered_ok b h (k_registered k').
Proof. intros H. by rewrite (kq_registered _ _ H). Qed.

Lemma at_work_still g w w' i h p j : inv g w' -> still w w' -> at_work g w i h p j -> at_work g w' i h p j.
Proof.
  intros Hi [S1 S2 _ _ _] [H1 H2 H3 H4 H5 H6 H7 H8 H9 H10]. split; try done; [congruence|congruence|]. intros k x. rewrite S1. apply H7.
Qed.
Lemma at_work_quiet g w w' i h p j : quiet w w' -> at_work g w i h p j -> at_work g w' i h p j.
Proof. intros Hq H. eapply at_work_still; [|by apply quiet_still|exact H]. eapply inv_quiet; [exact Hq|apply H]. Qed.
Lemma aside_quiet i w1 w2 w3 : aside i w1 w2 -> quiet w2 w3 -> aside i w1 w3.
Proof. intros H Hq. exact (aside_trans _ _ _ _ H (still_aside i _ _ (quiet_still _ _ Hq))). Qed.

(** What is known of the helper and the job a request is sent with. *)
Record ready_to_send (g : ghost) (w : world) (i : nat) (h : helper) (p : Z) (j : job) : Prop := {
  rs_work : at_work g w i h p j; rs_fd : h_fd h <> -1; rs_phase : g_phase g = false; rs_slot : j_slot_index j = Z.of_nat i;
  rs_assembly : is_Some (j_assembly j); rs_orphan : j_orphaned j = false;
}.
Definition send_end (g : ghost) (w : world) (i : nat) (p : Z) (status : resolver_supervisor_send_status) (w' : world) : Prop :=
  match status with
  | RESOLVER_SUPERVISOR_SEND_OK => holding (g <| g_hand := None |> <| g_loose ::= set_loose i false |>) w' /\ aside i w w' /\
      exists h', helpers_of w' !! i = Some h' /\ h_state h' <> RESOLVER_SUPERVISOR_HELPER_IDLE
  | RESOLVER_SUPERVISOR_SEND_IO => aside i w w' /\ exists h' j', at_work g w' i h' p j'
  | RESOLVER_SUPERVISOR_SEND_TIME => w' = w
  end.

(** The end of a send: the states of helper and job are set, the events are not yet. *)
Lemma wp_sent g w w1 i h h1 p j1 : at_work g w1 i h p j1 -> aside i w w1 -> h_fd h <> -1 -> g_phase g = false -> j_slot_index j1 = Z.of_nat i -> is_Some (j_assembly j1) ->
  h_fd h1 = h_fd h -> h_process_id h1 = h_process_id h -> h_job h1 = h_job h -> h_next_event_at h1 = h_next_event_at h -> h_failure_count h1 = h_failure_count h ->
  ((h_state h1 = RESOLVER_SUPERVISOR_HELPER_SENDING /\ j_state j1 = RESOLVER_SUPERVISOR_JOB_SENDING) \/
   (h_state h1 = RESOLVER_SUPERVISOR_HELPER_BUSY /\ j_state j1 = RESOLVER_SUPERVISOR_JOB_DISPATCHED)) ->
  wp (sent_status i) (send_end g w i p) (put_helper i h1 w1).
Proof.
  intros H Ha Hf Hph Hsl Has E1 E2 E3 E4 E5 Hst. destruct (at_work_times _ _ _ _ _ _ H) as (_ & V1 & V2).
  assert (H1 : at_work g (put_helper i h1 w1) i h1 p j1) by (apply (at_work_put_helper _ _ _ h); try done; congruence).
  pose proof (aside_trans _ _ _ _ Ha (helper_step_aside _ _ _ _ (helper_step_put i h1 w1))) as A1.
  unfold sent_status. step. eapply wp_mono; [eapply wp_events_update; apply H1|]. cbv beta. intros a w2 (Hi2 & S2 & R2). step.
  pose proof (at_work_still _ _ _ _ _ _ _ Hi2 S2 H1) as H2. pose proof (aside_trans _ _ _ _ A1 (still_aside i _ _ S2)) as A2. destruct a; cbn [send_end].
  - split; [|split; [done|exists h1; split; [apply H2|by destruct Hst as [[-> _]|[-> _]]]]]. apply inv_holding.
    eapply (inv_settle_busy _ _ _ _ p j1); try apply H2; [done|done|congruence|done|done|by apply R2].
  - split; [done|]. by exists h1, j1.
Qed.

Lemma wp_request_send g w i h p j now : ready_to_send g w i h p j -> valid now ->
  wp (resolver_supervisor_helper_request_send i now) (send_end g w i p) w.
Proof.
  intros [H Hf Hph Hsl Has Ho] Hnow. destruct (at_work_times _ _ _ _ _ _ H) as ((T1 & T2 & T3 & T4) & _). destruct (at_work_settled _ _ _ _ _ _ H) as (S1 & S2 & S3).
  unfold resolver_supervisor_helper_request_send. step. eapply wp_helper_get; [apply H|].
  destruct (timeutil_exact now now RESOLVER_SUPERVISOR_QUERY_TIMEOUT_SEC Hnow Hnow ltac:(done)) as (Ha & _).
  destruct (timeutil_add_seconds (Some now) _) as [deadline|]; [|by step]. destruct Ha as [Hv _].
  step. apply wp_quietly; [apply quietly_send; eapply inv_fd_open; [apply H|apply H|done]|]. intros sent w1 Hq. pose proof (at_work_quiet _ _ _ _ _ _ _ Hq H) as H1.
  pose proof (aside_quiet i _ _ _ (aside_refl i w) Hq) as A1. assert (Hio : send_end g w i p RESOLVER_SUPERVISOR_SEND_IO w1) by (split; [done|by exists h, j]).
  assert (Hput : forall j2, at_work g (put_job p j2 w1) i h p j2 -> aside i w (put_job p j2 w1)) by (intros j2 _; eapply aside_trans; [exact A1|]; apply steady_aside, put_steady).
  destruct sent as [size|errno]; [destruct (size =? h_request_size h)|destruct (would_block errno)]; try (by step); step;
    (eapply wp_lift; [apply H|]); (step; eapply wp_job_set; [apply H1|]); (set (j2 := j <| j_state := _ |> ) || idtac).
  - set (j3 := _ <| j_deadline := deadline |>). assert (H2 : at_work g (put_job p j3 w1) i h p j3) by (apply (at_work_put_job _ _ _ _ _ j); done).
    step. apply wp_quietly; [apply quietly_dispatch_record; eapply inv_live; apply H2|]. intros _ w2 Hq2. pose proof (at_work_quiet _ _ _ _ _ _ _ Hq2 H2) as H3.
    step. eapply wp_helper_set; [apply H3|]. eapply (wp_sent g w w2 i h _ p j3); try done; [|by right]. exact (aside_quiet _ _ _ _ (Hput _ H2) Hq2).
  - assert (H2 : at_work g (put_job p j2 w1) i h p j2) by (apply (at_work_put_job _ _ _ _ _ j); try done; congruence).
    step. eapply wp_helper_set; [apply H2|]. eapply (wp_sent g w _ i h _ p j2); try done; [by apply Hput|by left].
Qed.

(** ** Assigning a job *)

Lemma create_handles b name class type id res alloc b' st r : resolver_ipc_assembly_create (Some b) name class type id res alloc = (b', st, r) ->
  exists b1, b' = Some b1 /\ as_handle <$> bu_assemblies b1 = option_list r ++ (as_handle <$> bu_assemblies b) /\ (r = None \/ (r = alloc /\ st = RESOLVER_IPC_ASSEMBLY_OK)).
Proof.
  unfold resolver_ipc_assembly_create. if_as E1.
  { intros [= <- <- <-]. eexists. split; [done|]. split; [|by left]. if_as E2; [by rewrite (proj1 (increment_same _ _ _))|done]. }
  destruct (resolver_name_normalize name) as [n|].
  2:{ intros [= <- <- <-]. eexists. split; [done|]. split; [|by left]. if_as E2; [by rewrite (proj1 (increment_same _ _ _))|done]. }
  if_as E3; [intros [= <- <- <-]; eexists; split; [done|]; split; [|by left]; by rewrite !(proj1 (increment_same _ _ _))|].
  destruct alloc as [h|]; intros [= <- <- <-]; eexists; (split; [done|]).
  - rewrite (proj1 (increment_same _ _ _)). split; [done|by right].
  - rewrite (proj1 (increment_same _ _ _)). split; [done|by left].
Qed.

Lemma inv_range g w : inv g w -> 0 <= k_next (w_kernel w).
Proof. intros Hi. pose proof (do_range _ _ _ _ (i_descriptors _ _ Hi)) as D. apply list.Forall_cons in D as [? _]. lia. Qed.
Lemma budget_still b w : still w (w <| w_supervisor ::= (fun s => s <| s_assembly_budget := Some b |>) |>).
Proof. by split. Qed.

Lemma wp_assembly_create g w name type id : inv g w ->
  wp (assembly_create name type id) (fun o w' => inv (g <| g_stray := option_list o ++ g_stray g |>) w' /\ still w w') w.
Proof.
  intros Hi. unfold assembly_create. step. apply wp_quietly; [auto with quiet|]. intros allocated w1 Hq1. step. apply wp_fresh_address. intros w2 Hq2 Hn2.
  pose proof (inv_quiet _ _ _ Hq1 Hi) as Hi1. pose proof (inv_quiet _ _ _ Hq2 Hi1) as Hi2. pose proof (still_trans _ _ _ (quiet_still _ _ Hq1) (quiet_still _ _ Hq2)) as S2.
  destruct (i_budget _ _ Hi2) as (b & taken & Hb & Hok & B3 & B4 & B5).
  assert (Hold : Forall (fun h => h < k_next (w_kernel w1)) (as_handle <$> bu_assemblies b)).
  { destruct (i_budget _ _ Hi1) as (b1 & t1 & Hb1 & _ & _ & _ & Hh1). apply quiet_supervisor in Hq2 as [m Hs2]. rewrite Hs2 in Hb. cbn in Hb. congruence. }
  destruct (resolver_ipc_assembly_create (Some b) name ns_c_in type id true (if allocated then Some (k_next (w_kernel w1)) else None)) as [[b' st] r] eqn:Ec.
  destruct (create_handles _ _ _ _ _ _ _ _ _ _ Ec) as (b1 & -> & Hh & Hr).
  assert (Hk : budget_ok b1 taken).
  { eapply create_keeps; [exact Hok| |exact Ec]. intros h Hh' Hin. destruct allocated; [|done]. injection Hh' as <-. eapply list.Forall_forall in Hold; [|exact Hin]. lia. }
  eapply wp_with_budget; [exact Hb|rewrite Ec; reflexivity|].
  assert (Hst : (match st with RESOLVER_IPC_ASSEMBLY_OK => r | _ => None end) = r) by (destruct Hr as [->|[_ ->]]; [by destruct st|done]). rewrite Hst.
  split; [|exact (still_trans _ _ _ S2 (budget_still _ _))]. apply (inv_with_budget g w2 b1 _ (g_charges g)); [done|]. exists b1, taken. split; [done|]. split; [done|]. split; [done|].
  rewrite Hh. split; [by rewrite B4, app_assoc|]. apply list.Forall_app. split; [|done]. destruct Hr as [->|[-> _]]; [done|]. destruct allocated; [|done]. cbn.
  apply list.Forall_singleton. lia.
Qed.

Lemma wp_request_abandon g w i h p j : at_work g w i h p j ->
  wp (request_abandon i p) (fun _ w' => in_hand g w' p (detached j) /\ aside i w w' /\ queue_total w' = queue_total w /\
    exists h', helpers_of w' !! i = Some h' /\ h_fd h' = h_fd h /\ h_job h' = None /\ h_state h' = RESOLVER_SUPERVISOR_HELPER_IDLE) w.
Proof.
  intros H. destruct (at_work_times _ _ _ _ _ _ H) as (_ & V1 & V2).
  cut (wp (job_set p (fun j => j <| j_query_id := 0 |>) ;; assembly_destroy (j_assembly j) ;; job_set p (fun j => j <| j_assembly := None |>) ;;
    helper_set i (fun h => h <| h_job := None |> <| h_request_size := 0 |> <| h_state := RESOLVER_SUPERVISOR_HELPER_IDLE |>) ;;
    resolver_supervisor_helper_events_update i ;; mret ()) (fun _ w' => in_hand g w' p (detached j) /\ aside i w w' /\ queue_total w' = queue_total w /\
    exists h', helpers_of w' !! i = Some h' /\ h_fd h' = h_fd h /\ h_job h' = None /\ h_state h' = RESOLVER_SUPERVISOR_HELPER_IDLE) w).
  { intros Hw. unfold request_abandon. step. eapply wp_job_set; [apply H|]. step. eapply wp_job_get; [apply put_lookup|].
    unfold wp at 1, mbind, prog_bind at 1 in Hw. unfold job_set at 1, job_get in Hw. unfold mbind, prog_bind, lift in Hw. cbn in Hw. rewrite (aw_job _ _ _ _ _ _ H) in Hw. exact Hw. }
  eapply wp_detach; [exact H|]. intros w1 H1 S1 T1 _. step. eapply wp_helper_set; [apply H1|]. set (h1 := h <| h_job := _ |> <| h_request_size := _ |> <| h_state := _ |>).
  assert (H2 : in_hand g (put_helper i h1 w1) p (detached j)) by (by apply (at_work_released _ _ _ h)).
  assert (Hh2 : helpers_of (put_helper i h1 w1) !! i = Some h1) by (eapply put_helper_lookup, H1).
  step. eapply wp_mono; [eapply wp_events_update; [apply H2|exact Hh2]|]. cbv beta. intros _ w2 (Hi2 & S2 & _). step.
  pose proof (aside_trans _ _ _ _ (aside_trans _ _ _ _ (steady_aside i _ _ S1) (helper_step_aside _ _ _ _ (helper_step_put i h1 w1))) (still_aside i _ _ S2)) as A2.
  split; [|split; [done|split; [rewrite (sw_total _ _ S2); exact T1|exists h1; split; [by rewrite (sw_helpers _ _ S2)|done]]]].
  destruct H2 as [B1 B2 B3 B4 B5 B6 B7 B8]. split; try done; [by rewrite (sw_jobs _ _ S2)|]. intros k x. rewrite (sw_helpers _ _ S2). apply B4.
Qed.

Lemma wp_query_id g w : inv g w -> wp resolver_supervisor_query_id_allocate (fun _ w' => inv g w' /\ still w w') w.
Proof.
  intros Hi. unfold resolver_supervisor_query_id_allocate. do 2 step. step; [step; split; [done|apply still_refl]|]. do 3 step. split; [|by split].
  destruct Hi as [H1 H2 H3 H4 H5 H6 H7 H8 H9 H10 H11 H12 H13 H14 H15 H16 H17]. split; try assumption. cbn. unfold u64. apply Z.mod_pos_bound. done.
Qed.

(** A job in hand and an idle helper between two states. *)
Record may_assign (g : ghost) (w : world) (i : nat) (h : helper) (p : Z) (j : job) : Prop := {
  ma_hand : in_hand g w p j; ma_helper : helpers_of w !! i = Some h; ma_loose : g_loose g i = true; ma_fd : h_fd h <> -1; ma_phase : g_phase g = false;
  ma_job : h_job h = None; ma_state : h_state h = RESOLVER_SUPERVISOR_HELPER_IDLE; ma_orphan : j_orphaned j = false;
}.
Definition not_idle (i : nat) (w : world) : Prop := forall h, helpers_of w !! i = Some h -> h_state h <> RESOLVER_SUPERVISOR_HELPER_IDLE.
Definition assign_end (g : ghost) (w : world) (i : nat) (p : Z) (status : resolver_supervisor_assign_status) (w' : world) : Prop := aside i w w' /\
  match status with
  | RESOLVER_SUPERVISOR_ASSIGN_OK => holding (g <| g_hand := None |> <| g_loose ::= set_loose i false |>) w' /\ not_idle i w'
  | RESOLVER_SUPERVISOR_ASSIGN_IO => exists h' j', at_work g w' i h' p j'
  | _ => queue_total w' = queue_total w /\ exists h' j', may_assign g w' i h' p j'
  end.
Lemma may_assign_still g w w' i h p j : inv g w' -> still w w' -> may_assign g w i h p j -> may_assign g w' i h p j.
Proof.
  intros Hi [S1 S2 _ _ _] [[H1 H2 H3 H4 H5 H6 H7 H8] B2 B3 B4 B5 B6 B7 B8]. split; try done; [|congruence]. split; try done; [congruence|]. intros k x. rewrite S1. apply H4.
Qed.
Lemma may_assign_helper g w i h h' p j : may_assign g w i h p j -> h_fd h' = h_fd h -> h_process_id h' = h_process_id h -> h_job h' = h_job h -> h_state h' = h_state h ->
  h_next_event_at h' = h_next_event_at h -> h_failure_count h' = h_failure_count h -> may_assign g (put_helper i h' w) i h' p j.
Proof.
  intros [[H1 H2 H3 H4 H5 H6 H7 H8] B2 B3 B4 B5 B6 B7 B8] E1 E2 E3 E4 E5 E6. destruct (inv_helper_times _ _ _ _ H1 B2) as [V1 V2].
  split; try congruence; [|by eapply put_helper_lookup]. split; try done.
  - eapply inv_put_helper; [done|done|done|rewrite E2; by eapply inv_process|left; split; [done|left; congruence]|by rewrite E5|by rewrite E6].
  - intros k x Hk Hl. apply helpers_lookup_put in Hk as [[-> ->]|[Hne Hk]]; [congruence|by eapply H4].
Qed.
Lemma aside_still i w1 w2 w3 : aside i w1 w2 -> still w2 w3 -> aside i w1 w3.
Proof. intros H S. exact (aside_trans _ _ _ _ H (still_aside i _ _ S)). Qed.
Lemma aside_put i h w1 w2 : aside i w1 w2 -> aside i w1 (put_helper i h w2).
Proof. intros H. exact (aside_trans _ _ _ _ H (helper_step_aside _ _ _ _ (helper_step_put i h w2))). Qed.

(** The job gets its assembly and the helper the job. *)
Lemma assigned_at_work g w i h p j a id : may_assign (g <| g_stray := a :: g_stray g |>) w i h p j ->
  let j' := j <| j_assembly := Some a |> <| j_query_id := id |> <| j_slot_index := Z.of_nat i |> in
  ready_to_send g (put_helper i (h <| h_job := Some p |>) (put_job p j' w)) i (h <| h_job := Some p |>) p j'.
Proof.
  intros [[H1 H2 H3 H4 H5 H6 H7 H8] B2 B3 B4 B5 B6 B7 B8] j'. destruct (inv_helper_times _ _ _ _ H1 B2) as [V1 V2]. destruct (i_interests _ _ H1 p j H3) as [I1 I2].
  assert (Hi1 : inv g (put_job p j' w)).
  { replace g with ((g <| g_stray := a :: g_stray g |>) <| g_stray := g_stray g |> <| g_charges := g_charges g |>) by (by destruct g).
    apply (inv_put_owned (g <| g_stray := a :: g_stray g |>) w p j j' (g_stray g) (g_charges g)); try done; [by left| |exact (i_responses _ _ H1 p j H3)|by apply (proj1 (proj2 (i_times _ _ H1)) p j)].
    cbn. rewrite H5. cbn. rewrite app_nil_r. apply Permutation_cons_append. }
  split; try done. split; try done.
  - eapply inv_put_helper; [done|done|done|by eapply inv_process|left; split; [done|by right]|done|done].
  - apply put_lookup.
  - by eapply put_helper_lookup.
  - intros k x Hk Hne. apply helpers_lookup_put in Hk as [[-> _]|[_ Hk]]; [done|]. by apply H4.
Qed.

(** The end of an assignment that sent a request. *)
Lemma wp_assign_send g w w1 i h p j now : ready_to_send g w1 i h p j -> aside i w w1 -> queue_total w1 = queue_total w -> valid now ->
  wp (status ← resolver_supervisor_helper_request_send i now;
      match status with
      | RESOLVER_SUPERVISOR_SEND_TIME => request_abandon i p ;; mret RESOLVER_SUPERVISOR_ASSIGN_TIME
      | RESOLVER_SUPERVISOR_SEND_OK => mret RESOLVER_SUPERVISOR_ASSIGN_OK
      | RESOLVER_SUPERVISOR_SEND_IO => mret RESOLVER_SUPERVISOR_ASSIGN_IO
      end) (assign_end g w i p) w1.
Proof.
  intros H Ha Ht Hnow. step. eapply wp_mono; [by eapply wp_request_send|]. intros status w2 Hs. destruct status; cbn [send_end] in Hs.
  - destruct Hs as (H2 & A2 & h' & E1 & E2). step. split; [exact (aside_trans _ _ _ _ Ha A2)|]. split; [done|]. intros x Hx. congruence.
  - destruct Hs as (A2 & h' & j' & H2). step. split; [exact (aside_trans _ _ _ _ Ha A2)|by exists h', j'].
  - subst w2. step. eapply wp_mono; [eapply wp_request_abandon, H|]. cbv beta. intros _ w2 (H2 & A2 & T2 & h' & E1 & E2 & E3 & E4). step.
    split; [exact (aside_trans _ _ _ _ Ha A2)|]. split; [congruence|]. exists h', (detached j). destruct H as [R1 R2 R3 R4 R5 R6]. split; try done; [apply R1|congruence].
Qed.

Lemma wp_job_assign g w i h p j now : may_assign g w i h p j -> valid now -> wp (resolver_supervisor_helper_job_assign i p now) (assign_end g w i p) w.
Proof.
  intros H Hnow. unfold resolver_supervisor_helper_job_assign. step. eapply wp_helper_get; [apply H|].
  destruct (timeutil_exact now now RESOLVER_SUPERVISOR_QUERY_TIMEOUT_SEC Hnow Hnow ltac:(done)) as (Ha & _).
  destruct (timeutil_add_seconds (Some now) _) as [deadline|]; [|step; split; [apply aside_refl|split; [done|by exists h, j]]]. destruct Ha as [Hv _].
  step. eapply wp_job_set; [apply H|]. set (j1 := j <| j_deadline := deadline |>).
  assert (H1 : may_assign g (put_job p j1 w) i h p j1).
  { destruct H as [B1 B2 B3 B4 B5 B6 B7 B8]. destruct (in_hand_times _ _ _ _ B1) as (T1 & T2 & T3 & T4). split; try done. apply (in_hand_put _ _ _ j); try done; [apply B1|congruence]. }
  assert (A1 : aside i w (put_job p j1 w)) by apply steady_aside, put_steady. assert (T1 : queue_total (put_job p j1 w) = queue_total w) by done. clearbody j1.
  revert H1 A1 T1. generalize (put_job p j1 w). intros w1 H1 A1 T1. step. eapply wp_mono; [apply wp_query_id, H1|]. cbv beta. intros o w2 (Hi2 & S2).
  pose proof (may_assign_still _ _ _ _ _ _ _ Hi2 S2 H1) as H2. pose proof (aside_still _ _ _ _ A1 S2) as A2. rewrite <- (sw_total _ _ S2) in T1. destruct o as [id|].
  2:{ step. split; [done|]. split; [done|]. by exists h, j1. }
  destruct (inv_live _ _ _ _ Hi2 (ih_job _ _ _ _ (ma_hand _ _ _ _ _ _ H2))) as (j0 & eid & e & Hj0 & Hid & He).
  assert (j0 = j1) as -> by (rewrite (ih_job _ _ _ _ (ma_hand _ _ _ _ _ _ H2)) in Hj0; congruence).
  step. eapply wp_job_get; [done|]. step. rewrite Hid. eapply wp_entry_read; [done|]. step. eapply wp_mono; [by apply wp_assembly_create|]. cbv beta. intros a w3 (Hi3 & S3).
  pose proof (aside_still _ _ _ _ A2 S3) as A3. rewrite <- (sw_total _ _ S3) in T1.
  assert (H3 : may_assign (g <| g_stray := option_list a ++ g_stray g |>) w3 i h p j1).
  { destruct H2 as [[C1 C2 C3 C4 C5 C6 C7 C8] B2 B3 B4 B5 B6 B7 B8]. destruct S3 as [D1 D2 _ _ _]. split; try done; [|congruence]. split; try done; [congruence|].
    intros k x. rewrite D1. apply C4. }
  destruct a as [a|].
  2:{ step. split; [done|]. split; [done|]. exists h, j1. replace g with (g <| g_stray := option_list None ++ g_stray g |>) by (by destruct g). exact H3. }
  step. cbn [resolver_cache_entry_name fmap option_fmap option_map]. eapply wp_lift; [reflexivity|]. cbv zeta. destruct (resolver_ipc_request_encode _ _) as [st|packet].
  - step. eapply wp_helper_set; [apply H3|]. set (h4 := h <| h_request_size := 0 |>).
    assert (H4 : may_assign (g <| g_stray := option_list (Some a) ++ g_stray g |>) (put_helper i h4 w3) i h4 p j1) by (by apply (may_assign_helper _ _ _ h)).
    step. eapply (wp_assembly_destroy _ _ (Some a) (g_stray g)); [apply H4|done|]. intros b w5 Hi5. step. split; [eapply aside_still; [apply (aside_put i h4), A3|apply (budget_still b)]|]. split; [done|]. exists h4, j1.
    replace g with ((g <| g_stray := option_list (Some a) ++ g_stray g |>) <| g_stray := g_stray g |>) by (by destruct g).
    destruct H4 as [[C1 C2 C3 C4 C5 C6 C7 C8] B2 B3 B4 B5 B6 B7 B8]. by split.
  - step. eapply wp_helper_set; [apply H3|]. set (h4 := h <| h_request_packet := packet |> <| h_request_size := len packet |>).
    assert (H4 : may_assign (g <| g_stray := a :: g_stray g |>) (put_helper i h4 w3) i h4 p j1) by (by apply (may_assign_helper _ _ _ h)).
    pose proof (assigned_at_work _ _ _ _ _ _ _ id H4) as H5. cbv zeta in H5. step. eapply wp_job_set; [apply H4|]. step. eapply wp_helper_set; [apply H4|].
    eapply wp_assign_send; [exact H5| |done|done]. apply aside_put. eapply aside_trans; [apply aside_put; exact A3|apply steady_aside, put_steady].
Qed.

(** ** The dispatch loop *)

Lemma queue_first_job g w p pr : inv g w -> g_hand g = None -> p ∈ g_queue g pr -> exists j, jobs_of w !! p = Some j /\ j_state j = RESOLVER_SUPERVISOR_JOB_QUEUED.
Proof.
  intros Hi Hh Hp. pose proof (i_queues _ _ Hi) as Hq. rewrite Hh in Hq. destruct (queue_elem_job _ _ _ _ _ _ Hq Hp) as [j Hj]. exists j. split; [done|].
  destruct (qo_place _ _ _ _ Hq p j Hj ltac:(done)) as [Hin _]. by apply Hin in Hp as [? _].
Qed.
Lemma wp_queue_first g w (Q : option Z -> world -> Prop) : inv g w -> g_hand g = None ->
  (forall p j, jobs_of w !! p = Some j -> j_state j = RESOLVER_SUPERVISOR_JOB_QUEUED -> 0 < queue_total w -> Q (Some p) w) -> (queue_total w = 0 -> Q None w) ->
  wp resolver_supervisor_job_queue_first Q w.
Proof.
  intros Hi Hh Hs Hn. unfold resolver_supervisor_job_queue_first. do 3 step. pose proof (i_queues _ _ Hi) as Hq.
  assert (Hin : forall pr p, qu_head (queue_at w pr) = Some p -> Q (Some p) w).
  { intros pr p Hp. rewrite (dll_head _ _ _ _ (qo_dll _ _ _ _ Hq pr)) in Hp. destruct (g_queue g pr) as [|x l] eqn:E; [done|]. injection Hp as ->.
    destruct (queue_first_job g w p pr Hi Hh) as (j & Hj & Hs'); [rewrite E; by left|]. apply (Hs p j Hj Hs'). unfold queue_total.
    rewrite !(qo_count _ _ _ _ Hq). destruct pr; rewrite E; cbn [length]; lia. }
  destruct (qu_head (s_interactive_queue (w_supervisor w))) as [p|] eqn:E1; [by apply (Hin RESOLVER_SUPERVISOR_PRIORITY_INTERACTIVE)|].
  destruct (qu_head (s_background_queue (w_supervisor w))) as [p|] eqn:E2; [by apply (Hin RESOLVER_SUPERVISOR_PRIORITY_BACKGROUND)|].
  apply Hn. unfold queue_total. rewrite !(qo_count _ _ _ _ Hq). pose proof (dll_head _ _ _ _ (qo_dll _ _ _ _ Hq RESOLVER_SUPERVISOR_PRIORITY_BACKGROUND)) as D1.
  pose proof (dll_head _ _ _ _ (qo_dll _ _ _ _ Hq RESOLVER_SUPERVISOR_PRIORITY_INTERACTIVE)) as D2. cbn in D1, D2. rewrite E2 in D1. rewrite E1 in D2.
  destruct (g_queue g RESOLVER_SUPERVISOR_PRIORITY_BACKGROUND); [|done]. by destruct (g_queue g RESOLVER_SUPERVISOR_PRIORITY_INTERACTIVE).
Qed.
Lemma queue_total_size g w : inv g w -> g_hand g = None -> queue_total w <= Z.of_nat (size (jobs_of w)).
Proof.
  intros Hi Hh. pose proof (i_queues _ _ Hi) as Hq. unfold queue_total. rewrite !(qo_count _ _ _ _ Hq), <- Nat2Z.inj_add, <- length_app.
  rewrite <- size_dom. apply inj_le. set (l := _ ++ _). assert (Hn : NoDup l).
  { apply list.NoDup_app. split; [apply (qo_dll _ _ _ _ Hq)|]. split; [|apply (qo_dll _ _ _ _ Hq)]. intros x H1 H2. rewrite Hh in Hq.
    destruct (queue_elem_job _ _ _ _ _ _ Hq H1) as [j Hj]. destruct (qo_place _ _ _ _ Hq x j Hj ltac:(done)) as [Hin _]. apply Hin in H1 as [_ H1]. apply Hin in H2 as [_ H2]. congruence. }
  rewrite <- (size_list_to_set (C := gset Z) l Hn). apply subseteq_size. intros x Hx%elem_of_list_to_set. apply elem_of_dom.
  apply elem_of_app in Hx as [Hx|Hx]; by eapply queue_elem_job.
Qed.

(** A round on an idle helper. *)
Definition round_end (g : ghost) (i : nat) (w : world) (again : bool) (w' : world) : Prop :=
  holding g w' /\ aside i w w' /\
  (if again then queue_total w' < queue_total w \/ not_idle i w' else not_idle i w').

Lemma idle_helper g w i h : inv g w -> calm g -> helpers_of w !! i = Some h -> h_state h = RESOLVER_SUPERVISOR_HELPER_IDLE ->
  h_job h = None /\ h_fd h <> -1 /\ g_phase g = false.
Proof.
  intros Hi [_ Hl _] Hh Hs. pose proof (ho_fits _ _ _ _ _ (i_helpers _ _ Hi) i h Hh ltac:(by rewrite Hl)) as Hf. unfold helper_fits in Hf. by rewrite Hs in Hf.
Qed.

(** The helper of an unsuccessful assignment is idle again. *)
Lemma round_idle g w w1 w2 i h p j q d : calm g -> aside i w w1 -> queue_total w1 < queue_total w ->
  may_assign (g <| g_queue := q |> <| g_done := d |> <| g_hand := Some p |> <| g_loose ::= set_loose i true |>) w1 i h p j ->
  holding (g <| g_hand := Some p |> <| g_loose ::= set_loose i true |> <| g_hand := None |>) w2 -> steady w1 w2 -> queue_total w2 = queue_total w1 ->
  round_end g i w true w2.
Proof.
  intros Hc Ha Ht Hm (q' & d' & Hi) Hs Ht2. split; [|split; [exact (aside_trans _ _ _ _ Ha (steady_aside i _ _ Hs))|left; lia]].
  apply (calm_back _ _ (Some p) i Hc). exists q', d'. destruct Hm as [B1 B2 B3 B4 B5 B6 B7 B8].
  refine (inv_settle_idle _ _ i h Hi _ B6 _ _); [by rewrite (st_helpers _ _ Hs)|unfold helper_fits; by rewrite B7|by rewrite B7].
Qed.

Lemma wp_dispatch_round g w i h p j now : holding g w -> calm g -> helpers_of w !! i = Some h -> h_state h = RESOLVER_SUPERVISOR_HELPER_IDLE ->
  jobs_of w !! p = Some j -> j_state j = RESOLVER_SUPERVISOR_JOB_QUEUED -> s_shutting_down (w_supervisor w) = false -> valid now ->
  wp (dispatch_round i p now) (round_end g i w) w.
Proof.
  intros (q & d & Hi) Hc Hh Hs Hj Hjs Hdn Hnow. set (g0 := g <| g_queue := q |> <| g_done := d |>) in *. assert (Hc0 : calm g0) by (by destruct Hc).
  destruct (idle_helper _ _ _ _ Hi Hc0 Hh Hs) as (I1 & I2 & I3). destruct Hc0 as [C1 C2 C3]. pose proof (i_responses _ _ Hi p j Hj ltac:(by rewrite Hjs)) as Hr.
  pose proof (placed_assembly _ _ _ _ Hi C1 Hj ltac:(by rewrite Hjs)) as Has. destruct (i_interests _ _ Hi p j Hj) as [_ Hset]. specialize (Hset ltac:(by rewrite C3)).
  assert (Hor : j_orphaned j = false).
  { unfold settled in Hset. rewrite bool_decide_eq_false_2 in Hset by (by rewrite Hjs). destruct (j_orphaned j); [|done]. destruct Hset as (_ & _ & Hx). by rewrite Hjs in Hx; specialize (Hx eq_refl). }
  unfold dispatch_round. step. eapply wp_mono; [by eapply wp_queue_remove|]. cbv beta. intros _ w1 (Hi1 & jobs & qq & Hw1 & Hrl).
  pose proof (queue_without_total _ _ _ _ _ Hi C1 Hj Hjs Hi1) as Ht1. pose proof (lists_steady _ _ (requeued_lists (j_priority j) jobs qq w)) as S1. rewrite <- Hw1 in S1.
  assert (Hrl1 : relinked (jobs_of w) (jobs_of w1)) by (rewrite Hw1, requeued_jobs; done). clear Hw1 Hrl.
  assert (Hj1 : is_Some (jobs_of w1 !! p)) by (rewrite (relinked_some _ _ p Hrl1); by rewrite Hj). destruct Hj1 as [j1 Hj1].
  destruct (relinked_lookup _ _ _ _ Hrl1 Hj1) as (j0 & Hj0 & He). assert (j0 = j) as -> by congruence.
  assert (Hh1 : helpers_of w1 !! i = Some h) by (by rewrite (st_helpers _ _ S1)). set (qr := queue_without p (j_priority j) (g_queue g0)) in *.
  pose proof (inv_take_idle _ _ _ _ Hi1 Hh1 I1) as Hi2.
  assert (H2 : may_assign (g <| g_queue := qr |> <| g_done := d |> <| g_hand := Some p |> <| g_loose ::= set_loose i true |>) w1 i h p j1).
  { split; try done; [|cbn; unfold set_loose; by rewrite bool_decide_eq_true_2|by erased He]. split; [exact Hi2|done|done| |by erased He|by erased He|erased He; by rewrite Hjs|change (g_unsettled g <> Some p); by rewrite (ca_unsettled _ Hc)].
    intros k x Hk. cbn. unfold set_loose. case_bool_decide; [subst k; congruence|]. rewrite (ca_loose _ Hc). done. }
  pose proof (steady_aside i _ _ S1) as A1. step. eapply wp_mono; [by eapply wp_job_assign|]. intros status w3 [A3 Hend]. pose proof (aside_trans _ _ _ _ A1 A3) as A13.
  destruct status; cbn beta iota in Hend.
  - destruct Hend as ((q' & d' & Hi3) & Hn3). step. split; [|by split]. apply (calm_back _ _ (Some p) i Hc). exists q', d'. exact Hi3.
  - destruct Hend as (T3 & h3 & j3 & H3). step. eapply wp_mono; [eapply wp_job_retry; [apply H3|done]|]. cbv beta. intros _ w4 (Hi4 & S4 & T4). step.
    eapply (round_idle g w w3 w4); [done|done|lia|exact H3|destruct Hi4 as (q' & d' & Hi4); by exists q', d'|done|done].
  - destruct Hend as (T3 & h3 & j3 & H3). apply wp_assoc. step. eapply wp_mono; [eapply wp_fail_complete; apply H3|]. cbv beta. intros _ w4 (Hi4 & S4 & T4). step.
    eapply (round_idle g w w3 w4); [done|done|lia|exact H3|destruct Hi4 as (q' & d' & Hi4); by exists q', d'|done|done].
  - destruct Hend as (T3 & h3 & j3 & H3). apply wp_assoc. step. eapply wp_mono; [eapply wp_fail_complete; apply H3|]. cbv beta. intros _ w4 (Hi4 & S4 & T4). step.
    eapply (round_idle g w w3 w4); [done|done|lia|exact H3|destruct Hi4 as (q' & d' & Hi4); by exists q', d'|done|done].
  - destruct Hend as (h3 & j3 & H3). step. eapply wp_mono; [eapply wp_helper_fail_busy; [exact H3| |done]|].
    + rewrite (ad_down _ _ _ A13), Hdn. exact I3.
    + intros _ w4 (Hi4 & A4 & h4 & E1 & E2 & E3 & E4). step. split; [|split; [exact (aside_trans _ _ _ _ A13 A4)|right; intros x Hx; congruence]].
      apply (calm_back _ _ (Some p) i Hc). destruct Hi4 as (q' & d' & Hi4). exists q', d'. exact Hi4.
Qed.

Lemma wp_dispatch_loop fuel g w i now : holding g w -> calm g -> (i < RESOLVER_SUPERVISOR_HELPER_COUNT)%nat -> s_shutting_down (w_supervisor w) = false -> valid now ->
  queue_total w <= Z.of_nat fuel \/ not_idle i w ->
  wp (dispatch_loop fuel i now) (fun _ w' => holding g w' /\ aside i w w' /\ (not_idle i w' \/ queue_total w' = 0)) w.
Proof.
  revert w. induction fuel as [|fuel IH]; intros w Hi Hc Hlt Hdn Hnow Hf; assert (Hi0 := Hi); destruct Hi0 as (q & d & Hi0);
    (assert (Hh : is_Some (helpers_of w !! i)) by (apply lookup_lt_is_Some; by rewrite (ho_length _ _ _ _ _ (i_helpers _ _ Hi0)))); destruct Hh as [h Hh]; cbn [dispatch_loop];
    (step; eapply wp_helper_get; [done|]); step.
  - eapply wp_queue_first; [exact Hi0|apply Hc| |].
    + intros p j Hj Hs Ht. destruct Hf as [Hf|Hf]; [lia|]. specialize (Hf h Hh). destruct (h_state h) eqn:Es; try done; step; (split; [done|]); (split; [apply aside_refl|]); left; intros x Hx; congruence.
    + intros Ht. destruct (h_state h); step; (split; [done|]); (split; [apply aside_refl|by right]).
  - eapply wp_queue_first; [exact Hi0|apply Hc| |].
    + intros p j Hj Hs Ht. destruct (h_state h) eqn:Es; try (step; (split; [done|]); (split; [apply aside_refl|]); left; intros x Hx; congruence).
      step. eapply wp_mono; [by eapply wp_dispatch_round|]. intros again w1 (Hi1 & A1 & Hag). destruct again.
      * eapply wp_mono; [apply (IH w1); [done|done|done|by rewrite (ad_down _ _ _ A1)|done|]|].
        { destruct Hag as [Hlt1|Hn]; [|by right]. left. destruct Hf as [Hf|Hf]; [lia|]. by destruct (Hf h Hh). }
        cbv beta. intros _ w2 (Hi2 & A2 & Hend). split; [done|]. split; [exact (aside_trans _ _ _ _ A1 A2)|done].
      * step. split; [done|]. split; [done|by left].
    + intros Ht. destruct (h_state h); step; (split; [done|]); (split; [apply aside_refl|by right]).
Qed.

Lemma wp_dispatch_none g w indices now : holding g w -> calm g -> queue_total w = 0 -> wp (dispatch_helpers indices now) (fun _ w' => w' = w) w.
Proof.
  intros (q & d & Hi) Hc Hz. destruct indices as [|i indices]; cbn [dispatch_helpers]; [by step|]. step. eapply wp_queue_first; [exact Hi|apply Hc| |].
  - intros p j _ _ Ht. lia.
  - intros _. by step.
Qed.

Lemma wp_dispatch_helpers g w indices now : holding g w -> calm g -> NoDup indices -> Forall (fun i => i < RESOLVER_SUPERVISOR_HELPER_COUNT)%nat indices ->
  s_shutting_down (w_supervisor w) = false -> valid now ->
  wp (dispatch_helpers indices now) (fun _ w' => holding g w' /\ s_shutting_down (w_supervisor w') = s_shutting_down (w_supervisor w) /\
    s_last_now (w_supervisor w') = s_last_now (w_supervisor w) /\ (forall k, k ∉ indices -> helpers_of w' !! k = helpers_of w !! k) /\
    ((forall k, k ∈ indices -> not_idle k w') \/ queue_total w' = 0)) w.
Proof.
  revert w. induction indices as [|i indices IH]; intros w Hi Hc Hnd Hlt Hdn Hnow; cbn [dispatch_helpers].
  { step. do 4 (split; [done|]). left. by intros k Hk%list.elem_of_nil. }
  apply list.NoDup_cons in Hnd as [Hni Hnd]. apply list.Forall_cons in Hlt as [Hlt Hlts]. assert (Hi0 := Hi). destruct Hi0 as (q & d & Hi0). step.
  eapply wp_queue_first; [exact Hi0|apply Hc| |].
  - intros p j Hj Hs Ht. do 3 step. eapply wp_mono; [eapply wp_dispatch_loop; [exact Hi|done|done|done|done|]|].
    + left. pose proof (queue_total_size _ _ Hi0 (ca_hand _ Hc)). rewrite Nat2Z.inj_succ. lia.
    + cbv beta. intros _ w1 (Hi1 & A1 & Hend). destruct Hend as [Hend|Hz].
      * eapply wp_mono; [apply (IH w1); try done; by rewrite (ad_down _ _ _ A1)|]. cbv beta. intros _ w2 (Hi2 & D2 & N2 & F2 & E2).
        split; [done|]. split; [by rewrite D2, (ad_down _ _ _ A1)|]. split; [by rewrite N2, (ad_now _ _ _ A1)|]. split.
        { intros k Hk. rewrite list.elem_of_cons in Hk. rewrite F2, (ad_helpers _ _ _ A1); [done|tauto|tauto]. }
        destruct E2 as [E2|E2]; [left|by right]. intros k [->|Hk]%list.elem_of_cons; [|by apply E2]. intros x. rewrite F2 by done. apply Hend.
      * eapply wp_mono; [apply (wp_dispatch_none g w1); done|]. cbv beta. intros _ w2 ->. split; [done|]. split; [apply A1|]. split; [apply A1|].
        split; [|by right]. intros k Hk. rewrite list.elem_of_cons in Hk. apply (ad_helpers _ _ _ A1). tauto.
  - intros Ht. step. do 4 (split; [done|]). by right.
Qed.

(** Dispatching is work conserving: a helper is left idle only when no job is queued. *)
Definition dispatch_end (w w' : world) : Prop :=
  s_shutting_down (w_supervisor w') = s_shutting_down (w_supervisor w) /\ s_last_now (w_supervisor w') = s_last_now (w_supervisor w) /\
  ((forall k, not_idle k w') \/ queue_total w' = 0).

Lemma wp_dispatch g w now : holding g w -> calm g -> s_shutting_down (w_supervisor w) = false -> valid now ->
  wp (resolver_supervisor_dispatch now) (fun _ w' => holding g w' /\ dispatch_end w w') w.
Proof.
  intros Hi Hc Hdn Hnow. unfold resolver_supervisor_dispatch. do 3 step; [congruence|]. eapply wp_mono; [apply (wp_dispatch_helpers g); try done|].
  - apply list.NoDup_seq.
  - apply list.Forall_seq. lia.
  - cbv beta. intros _ w' (Hi' & D & N & _ & Ed). split; [done|]. split; [done|]. split; [done|]. destruct Ed as [Ed|Ed]; [left|by right].
    intros k x Hx. apply (Ed k); [|done]. apply list.elem_of_seq. destruct Hi' as (q & d & Hi').
    pose proof (lookup_lt_Some _ _ _ Hx) as Hl. rewrite (ho_length _ _ _ _ _ (i_helpers _ _ Hi')) in Hl. lia.
Qed.
