(* ===== verification/SupervisorReplies.v ===== *)
(** * The responses of helpers keep the invariant of the supervisor

    Receiving packets, taking and publishing results, and the end of a query, from the
    invariant of [SupervisorInv].  A result that is taken was assembled from a coherent
    response, so that the cache can be given it. *)

From S2P Require Import Prelude Stateful Dll TimeUtil Metrics ResolverUtil Cache Ipc IpcAssembly Helper Supervisor SupervisorDelay SupervisorInv SupervisorJobs SupervisorHelpers SupervisorSteps.
From stdpp Require Import gmap.
#[local] Open Scope Z_scope.
#[local] Abbreviation prog := (prog world).

(** ** Results for the cache *)

Lemma fits_typed a r : coherent a r ->
  Forall (fun x => typed_ttl (a_effective_ttl x)) (rp_addresses r) /\ Forall (fun x => typed_ttl (r_effective_ttl x)) (rp_services r) /\
  typed_ttl (n_effective_ttl (b_negative (rp_begin r))) /\ valid (b_completed_at (rp_begin r)).
Proof.
  intros Hc. pose proof (co_partial _ _ Hc) as Hp. destruct (pa_valid _ _ Hp) as (_ & _ & _ & _ & _ & Hn & _ & _ & _ & _ & Hv & _). split; [|split; [|split]].
  - eapply Forall_impl; [apply (pa_addresses _ _ Hp)|]. cbv beta. intros x [_ Hx]. cbn in Hx. unfold typed_ttl, UINT32_MAX. lia.
  - eapply Forall_impl; [apply (pa_services _ _ Hp)|]. cbv beta. intros x [_ Hx]. cbn in Hx. unfold typed_ttl, UINT32_MAX. lia.
  - unfold negative_typed in Hn. unfold typed_ttl, UINT32_MAX. lia.
  - done.
Qed.
Lemma result_typed r : result_ok r -> rt_budget r = true /\ valid (rt_completed_at r) /\
  if rt_query_type r =? ns_t_srv then typed_srv_result (payload_srv (rt_payload r)) else typed_address_result (payload_address (rt_payload r)).
Proof.
  intros (a & rp & Hf & Hc & ->). split; [done|]. destruct (fits_typed a rp Hc) as (F1 & F2 & F3 & F4). split; [exact F4|].
  cbn [result_of rt_query_type rt_payload]. change (as_query_type (assembled a rp)) with (as_query_type a). destruct (as_query_type a =? ns_t_srv) eqn:E.
  - rewrite payload_srv_is by (done || lia). split; [|exact F3]. cbn. by destruct (b_record_count (rp_begin rp) =? 0).
  - rewrite payload_address_is by (done || lia). split; [|exact F3]. cbn. by destruct (b_record_count (rp_begin rp) =? 0).
Qed.

(** A publication leaves the references as they are. *)
Lemma set_payload_references c id p c' k : entries c' = entries (entry_set c id (with_payload p)) -> references_of c' k = references_of c k.
Proof.
  intros He. assert (Hg : entry_get c' k = entry_get (entry_set c id (with_payload p)) k) by (unfold entry_get; by rewrite He).
  unfold references_of. rewrite Hg, entry_get_set by apply keeps_payload. destruct (k =? id); [|done]. by destruct (entry_get c k).
Qed.
Lemma holds_payload c l id p c' : holds c l -> cache_ok c' -> entries c' = entries (entry_set c id (with_payload p)) -> holds c' l.
Proof. intros [_ H] Hok He. split; [done|]. intros k. rewrite (set_payload_references _ _ _ _ _ He). apply H. Qed.
Lemma holds_published c l id t r v c' st : holds c l -> cache_ok c' -> published c id t r v c' st -> holds c' l.
Proof.
  intros H Hok Hp. destruct st; cbv beta iota delta [published] in Hp; try (destruct Hp as [m ->]; destruct H as [_ H]; by split).
  - destruct Hp as (n & v' & size & _ & _ & _ & _ & He). by eapply holds_payload.
  - destruct Hp as [_ He]. by eapply holds_payload.
Qed.

Lemma publish_srv_total c id s t r alloc : is_Some (entry_get c id) -> exists c' status r', resolver_cache_entry_publish_srv c (Some id) s (Some t) (Some r) alloc = Some (c', status, r').
Proof. intros [e He]. unfold resolver_cache_entry_publish_srv. rewrite He. cbn [mbind option_bind]. destruct (publish_validated _ _ _ _ _ _ _) as [c' st]. by do 3 eexists. Qed.
Lemma publish_address_total c id s t r alloc : is_Some (entry_get c id) -> exists c' status r', resolver_cache_entry_publish_address c (Some id) s (Some t) (Some r) alloc = Some (c', status, r').
Proof. intros [e He]. unfold resolver_cache_entry_publish_address. rewrite He. cbn [mbind option_bind]. destruct (publish_validated _ _ _ _ _ _ _) as [c' st]. by do 3 eexists. Qed.

(** The same response with another payload costs the same. *)
Definition same_charge (r r' : resolver_ipc_assembly_result) : Prop := charge r' = charge r.
Lemma cache_still c w : still w (w <| w_cache := c |>).
Proof. by split. Qed.
Lemma inv_cache g w c : inv g w -> holds c (g_refs g ++ job_refs (j_entry <$> jobs_of w)) -> inv g (w <| w_cache := c |>).
Proof. intros Hi Hh. pose proof (inv_with_cache _ _ _ _ Hi Hh) as H. by destruct g. Qed.

Lemma wp_publish g w p j r : inv g w -> jobs_of w !! p = Some j -> result_ok r ->
  wp (resolver_supervisor_result_publish p r) (fun a w' => inv g w' /\ still w w' /\ kernel_quiet (w_kernel w) (w_kernel w') /\ same_charge r a.2) w.
Proof.
  intros Hi Hj Hr. destruct (result_typed r Hr) as (_ & [_ Hv] & Ht). destruct (inv_entry _ _ _ _ Hi Hj) as (id & e & Hid & He).
  unfold resolver_supervisor_result_publish. step. eapply wp_job_get; [done|]. rewrite Hid. destruct (rt_query_type r =? ns_t_srv) eqn:E.
  - destruct (resolver_ipc_lookup_status_to_srv _) as [s|]; [|step; split; [done|]; split; [apply still_refl|]; split; [apply kernel_quiet_refl|done]].
    step. apply wp_quietly; [auto with quiet|]. intros a w1 Hq. do 3 step. rewrite (quiet_cache _ _ Hq).
    destruct (publish_srv_total (w_cache w) id s (rt_completed_at r) (payload_srv (rt_payload r)) a ltac:(by exists e)) as (c' & st & r' & Hp). eapply wp_lift; [exact Hp|].
    cbv beta iota. do 3 step. apply publish_srv_spec in Hp as (e1 & He1 & Hok & Hpub & _); [|apply Hi|done|done].
    split; [|split; [exact (still_trans _ _ _ (quiet_still _ _ Hq) (cache_still c' w1))|split; [apply (st_kernel _ _ (quiet_steady _ _ Hq))|by destruct st]]]. apply inv_cache; [by eapply inv_quiet|]. rewrite (quiet_jobs _ _ Hq).
    eapply holds_published; [apply (i_refs _ _ Hi)|done|exact Hpub].
  - destruct (resolver_ipc_lookup_status_to_address _) as [s|]; [|step; split; [done|]; split; [apply still_refl|]; split; [apply kernel_quiet_refl|done]].
    step. apply wp_quietly; [auto with quiet|]. intros a w1 Hq. do 3 step. rewrite (quiet_cache _ _ Hq).
    destruct (publish_address_total (w_cache w) id s (rt_completed_at r) (payload_address (rt_payload r)) a ltac:(by exists e)) as (c' & st & r' & Hp). eapply wp_lift; [exact Hp|].
    cbv beta iota. do 3 step. apply publish_address_spec in Hp as (e1 & He1 & Hok & Hpub & _); [|apply Hi|done|done].
    split; [|split; [exact (still_trans _ _ _ (quiet_still _ _ Hq) (cache_still c' w1))|split; [apply (st_kernel _ _ (quiet_steady _ _ Hq))|by destruct st]]]. apply inv_cache; [by eapply inv_quiet|]. rewrite (quiet_jobs _ _ Hq).
    eapply holds_published; [apply (i_refs _ _ Hi)|done|exact Hpub].
Qed.

(** ** The assemblies of the jobs *)

Lemma job_handle_elem owned p h r : owned !! p = Some (Some h, r) -> h ∈ job_handles owned.
Proof. intros H. unfold job_handles. apply list_elem_of_omap. exists (p, (Some h, r)). split; [by apply elem_of_map_to_list|done]. Qed.
Lemma handle_live g w p j a : inv g w -> jobs_of w !! p = Some j -> j_assembly j = Some a -> exists b taken x, s_assembly_budget (w_supervisor w) = Some b /\
  budget_ok b taken /\ rt_dynamic_bytes <$> taken ≡ₚ g_charges g ++ job_charges ((fun j => (j_assembly j, j_response j)) <$> jobs_of w) /\
  handles_of b ≡ₚ g_stray g ++ job_handles ((fun j => (j_assembly j, j_response j)) <$> jobs_of w) /\
  Forall (fun h => h < k_next (w_kernel w)) (handles_of b) /\ assembly_get b a = Some x.
Proof.
  intros Hi Hj Ha. destruct (i_budget _ _ Hi) as (b & taken & H1 & H2 & H3 & H4 & H5). destruct (assembly_get_handle b a) as [x Hx].
  - rewrite H4. apply elem_of_app. right. apply (job_handle_elem _ p _ (j_response j)). by rewrite lookup_fmap, Hj, <- Ha.
  - by exists b, taken, x.
Qed.
Lemma budget_world_steady b w : steady w (w <| w_supervisor ::= (fun s => s <| s_assembly_budget := b |>) |>).
Proof. by split. Qed.
Lemma ghost_same_budget g : g <| g_stray := g_stray g |> <| g_charges := g_charges g |> = g.
Proof. by destruct g. Qed.

Lemma wp_packet_consume g w p j packet : inv g w -> jobs_of w !! p = Some j -> is_Some (j_assembly j) -> is_bytes packet ->
  wp (packet_consume p packet) (fun _ w' => inv g w' /\ still w w') w.
Proof.
  intros Hi Hj [a Ha] Hb. unfold packet_consume. step. eapply wp_job_get; [done|]. step. apply wp_quietly; [auto with quiet|]. intros x w1 Q1.
  step. apply wp_quietly; [auto with quiet|]. intros y w2 Q2. pose proof (quiet_trans _ _ _ Q1 Q2) as Q. pose proof (inv_quiet _ _ _ Q Hi) as Hi2.
  rewrite <- (quiet_jobs _ _ Q) in Hj. destruct (handle_live _ _ _ _ _ Hi2 Hj Ha) as (b & taken & z & B1 & B2 & B3 & B4 & B5 & B6).
  destruct (consume_keeps b taken a z x y packet B2 B6 Hb) as (b' & st & Hc & Hok & Hh). rewrite Ha. eapply wp_with_budget; [exact B1|exact Hc|]. split.
  - pose proof (inv_with_budget g w2 b' (g_stray g) (g_charges g) Hi2) as H. rewrite ghost_same_budget in H. apply H.
    exists b', taken. split; [done|]. split; [done|]. split; [done|]. change (as_handle <$> bu_assemblies b') with (handles_of b'). by rewrite Hh.
  - exact (still_trans _ _ _ (quiet_still _ _ Q) (budget_still b' w2)).
Qed.

Lemma wp_result_take g w p j : inv g w -> jobs_of w !! p = Some j -> is_Some (j_assembly j) ->
  wp (result_take (j_assembly j)) (fun o w' => still w w' /\ steady w w' /\
    match o with None => inv g w' | Some r => result_ok r /\ inv (g <| g_charges := charge r ++ g_charges g |>) w' end) w.
Proof.
  intros Hi Hj [a Ha]. destruct (handle_live _ _ _ _ _ Hi Hj Ha) as (b & taken & z & B1 & B2 & B3 & B4 & B5 & B6). unfold result_take. rewrite Ha.
  destruct (take_keeps b taken a z result_zero B2 B6 eq_refl) as (b' & r & Ht & Hok & Hr). eapply wp_with_budget; [exact B1|exact Ht|].
  split; [apply budget_still|]. split; [apply budget_world_steady|].
  assert (Hh : handles_of b' = handles_of b).
  { unfold resolver_ipc_assembly_result_take in Ht. rewrite B6 in Ht. cbn [negb mbind option_bind] in Ht. destruct (as_state z); injection Ht as <- _; try done. apply put_handles. }
  destruct r as [r|].
  - pose proof (bo_taken _ _ Hok) as Hrs. apply list.Forall_cons in Hrs as [Hro _]. split; [done|]. apply (inv_with_budget g w b' (g_stray g)); [done|].
    exists b', (r :: taken). split; [done|]. split; [done|]. change (as_handle <$> bu_assemblies b') with (handles_of b'). rewrite Hh. split; [|done].
    unfold charge. rewrite (proj1 (result_typed r Hro)). cbn. by rewrite B3.
  - pose proof (inv_with_budget g w b' (g_stray g) (g_charges g) Hi) as H. rewrite ghost_same_budget in H. apply H.
    exists b', taken. split; [done|]. split; [done|]. split; [done|]. change (as_handle <$> bu_assemblies b') with (handles_of b'). by rewrite Hh.
Qed.

(** ** A response that is accepted *)

Lemma in_hand_still g w w' p j : inv g w' -> still w w' -> in_hand g w p j -> in_hand g w' p j.
Proof.
  intros Hi [S1 S2 S3 S4 S5] [H1 H2 H3 H4 H5 H6 H7 H8]. split; try done; [congruence|]. unfold no_job_loose in *. by rewrite S1.
Qed.
Lemma in_hand_charges g w p j l : inv (g <| g_charges := l |>) w -> in_hand g w p j -> in_hand (g <| g_charges := l |>) w p j.
Proof. intros Hi [H1 H2 H3 H4 H5 H6 H7 H8]. by split. Qed.
Lemma still_charges g w w' p j l : inv (g <| g_charges := l |>) w' -> still w w' -> in_hand g w p j -> in_hand (g <| g_charges := l |>) w' p j.
Proof.
  intros Hi [S1 S2 S3 S4 S5] [H1 H2 H3 H4 H5 H6 H7 H8]. split; try done; [congruence|]. unfold no_job_loose in *. by rewrite S1.
Qed.

Definition accept_end (g : ghost) (charges : list Z) (w w' : world) : Prop :=
  holding (g <| g_charges := charges |> <| g_hand := None |>) w' /\ steady w w'.

Lemma wp_accept_end g w p j r publication charges : in_hand g w p j -> g_charges g = charge r ++ charges ->
  wp (j ← job_get p;
      if j_orphaned j then result_destroy r ;; resolver_supervisor_job_destroy (Some p)
      else resolver_supervisor_job_complete p publication r) (fun _ => accept_end g charges w) w.
Proof.
  intros H Hch. destruct (in_hand_settled _ _ _ _ H) as (_ & _ & S3). step. eapply wp_job_get; [apply H|]. step.
  - step. eapply wp_result_destroy; [apply H|exact Hch|]. intros b w1 Hi1. assert (H1 : in_hand (g <| g_charges := charges |>) w1 p j) by (by eapply still_charges; [|apply budget_still|]).
    eapply wp_mono; [eapply (wp_job_destroy_hand (g <| g_charges := charges |>)); [done|apply H1|apply H1|apply H1| |]|]; [by rewrite S3..|].
    cbv beta. intros _ w2 (Hi2 & Hs2 & _). split; [by apply inv_holding|]. eapply steady_trans; [apply (budget_world_steady (Some b))|exact Hs2].
  - eapply wp_mono; [eapply (wp_job_complete g w p j publication r charges); try apply H; [done|]|].
    + rewrite Hch. apply Permutation_app_comm.
    + cbv beta. intros _ w2 (Hi2 & Hs2 & _). split; [|done]. eexists _, _. exact Hi2.
Qed.

Lemma wp_result_accept g w p j r now charges : in_hand g w p j -> g_charges g = charge r ++ charges -> result_ok r -> valid now ->
  wp (result_accept p r now) (fun _ => accept_end g charges w) w.
Proof.
  intros H Hch Hr Hnow. unfold result_accept. step. apply wp_quietly; [apply quietly_response_record; eapply inv_live; apply H|]. intros _ w1 Hq.
  pose proof (in_hand_quiet _ _ _ _ _ Hq H) as H1. pose proof (quiet_steady _ _ Hq) as Hs1. step.
  - step. eapply wp_result_destroy; [apply H1|exact Hch|]. intros b w2 Hi2. assert (H2 : in_hand (g <| g_charges := charges |>) w2 p j) by (by eapply still_charges; [|apply budget_still|]).
    eapply wp_mono; [by eapply wp_job_retry|]. cbv beta. intros _ w3 (Hi3 & Hs3 & _). split; [done|].
    eapply steady_trans; [exact Hs1|]. eapply steady_trans; [apply (budget_world_steady (Some b))|exact Hs3].
  - step. assert (Hend : forall publication r' w2, inv g w2 -> still w1 w2 -> kernel_quiet (w_kernel w1) (w_kernel w2) -> same_charge r r' ->
      wp (j ← job_get p; if j_orphaned j then result_destroy r' ;; resolver_supervisor_job_destroy (Some p)
          else resolver_supervisor_job_complete p publication r') (fun _ => accept_end g charges w) w2).
    { intros publication r' w2 Hi2 Hs2 Hk2 Hsc. eapply wp_mono; [eapply (wp_accept_end g w2 p j r'); [by eapply in_hand_still|by rewrite Hsc]|].
      cbv beta. intros _ w3 [A B]. split; [done|]. eapply steady_trans; [exact Hs1|]. eapply steady_trans; [|exact B]. split; [apply Hs2..|done]. }
    step.
    + eapply wp_mono; [eapply wp_publish; [apply H1|apply H1|done]|]. cbv beta. intros [publication r'] w2 (Hi2 & Hs2 & Hk2 & Hsc). by apply Hend.
    + step. apply Hend; [apply H1|apply still_refl|apply kernel_quiet_refl|done].
Qed.

Lemma holding_settle_idle g w i h : holding g w -> helpers_of w !! i = Some h -> h_job h = None -> h_fd h <> -1 -> h_state h = RESOLVER_SUPERVISOR_HELPER_IDLE ->
  g_phase g = false -> holding (g <| g_loose ::= set_loose i false |>) w.
Proof.
  intros (q & d & Hi) Hh Hj Hf Hs Hp. exists q, d. apply (inv_settle_idle _ _ i h Hi); [done|done| |by rewrite Hs]. unfold helper_fits. by rewrite Hs.
Qed.

(** The query of a helper has ended: the result is taken, and the helper is idle again or
    has failed. *)
Lemma wp_finish_late g w1 i h p j r failure now charges : at_work g w1 i h p j -> g_charges g = charge r ++ charges -> g_phase g = s_shutting_down (w_supervisor w1) -> valid now ->
  wp (result_destroy r ;; resolver_supervisor_helper_fail i failure now) (fun _ => fail_end i (g <| g_charges := charges |>) w1) w1.
Proof.
  intros H Hch Hph Hnow. step. eapply wp_result_destroy; [apply H|exact Hch|]. intros b w2 Hi2.
  assert (H2 : at_work (g <| g_charges := charges |>) w2 i h p j) by (destruct H; by split).
  eapply wp_mono; [by eapply wp_helper_fail_busy|]. cbv beta. intros _ w3 (A & B & C). split; [done|]. split; [|done]. eapply aside_trans; [|exact B]. apply (steady_aside i), (budget_world_steady (Some b)).
Qed.
Lemma wp_finish_accept g w1 i h p j r now charges : at_work g w1 i h p j -> j_assembly j = None -> h_fd h <> -1 -> g_phase g = false -> g_charges g = charge r ++ charges -> result_ok r -> valid now ->
  wp (helper_set i (fun h => h <| h_job := None |> <| h_state := RESOLVER_SUPERVISOR_HELPER_IDLE |>) ;; resolver_supervisor_helper_success i now ;; result_accept p r now)
    (fun _ w' => holding (g <| g_charges := charges |> <| g_hand := None |> <| g_loose ::= set_loose i false |>) w' /\ aside i w1 w') w1.
Proof.
  intros H Ha Hf Hph Hch Hr Hnow. step. eapply wp_helper_set; [apply H|]. set (h1 := h <| h_job := None |> <| h_state := RESOLVER_SUPERVISOR_HELPER_IDLE |>).
  destruct (at_work_times _ _ _ _ _ _ H) as (_ & T2 & T3). pose proof (at_work_released _ _ _ _ h1 _ _ H Ha eq_refl eq_refl eq_refl T2 T3) as H1.
  pose proof (put_helper_lookup i h h1 w1 (aw_helper _ _ _ _ _ _ H)) as Hh1. step.
  eapply wp_mono; [eapply wp_success; [apply H1|exact Hh1]|]. cbv beta. intros _ w2 (Hi2 & h2 & Hs2 & Hf2 & Hst2 & Hj2). pose proof (helper_step_lookup _ _ _ _ _ Hs2 Hh1) as Hh2.
  assert (H2 : in_hand g w2 p j).
  { destruct H1 as [A1 A2 A3 A4 A5 A6 A7 A8]. split; try done; [by rewrite (hs_jobs _ _ _ _ Hs2)|]. intros k x. rewrite (hs_helpers _ _ _ _ Hs2).
    intros [[-> ->]|[_ Hk]]%helpers_lookup_put; [by rewrite Hj2|by apply (A4 k)]. }
  eapply wp_mono; [by eapply wp_result_accept|]. cbv beta. intros _ w3 [Hi3 Hs3]. split.
  - eapply holding_settle_idle; [exact Hi3|by rewrite (st_helpers _ _ Hs3)|by rewrite Hj2|by rewrite Hf2|by rewrite Hst2|done].
  - eapply aside_trans; [eapply helper_step_aside, (helper_step_put i h1)|]. eapply aside_trans; [by eapply helper_step_aside|by apply steady_aside].
Qed.

Lemma calm_lists g q d : calm g -> calm (g <| g_queue := q |> <| g_done := d |>).
Proof. by intros [H1 H2 H3]. Qed.
Lemma calm_charges g l : calm g -> calm (g <| g_charges := l |>).
Proof. by intros [H1 H2 H3]. Qed.
Lemma charges_back g w l hand i : calm g ->
  holding (g <| g_charges := l |> <| g_hand := hand |> <| g_loose ::= set_loose i true |> <| g_charges := g_charges g |> <| g_hand := None |> <| g_loose ::= set_loose i false |>) w -> holding g w.
Proof.
  intros Hc H. apply (calm_back g w hand i Hc). destruct H as (q & d & H). exists q, d. exact H.
Qed.

Lemma wp_result_finish g w i h now : holding g w -> calm g -> helpers_of w !! i = Some h -> g_phase g = s_shutting_down (w_supervisor w) -> valid now ->
  wp (resolver_supervisor_helper_result_finish i now) (fun _ w' => holding g w' /\ aside i w w') w.
Proof.
  intros Hi Hc Hh Hph Hnow. assert (Hfail : forall failure w1, holding g w1 -> still w w1 ->
    wp (resolver_supervisor_helper_fail i failure now) (fun _ w' => holding g w' /\ aside i w w') w1).
  { intros failure w1 Hi1 Hs1. eapply wp_mono; [eapply wp_helper_fail; [exact Hi1|done|rewrite (sw_helpers _ _ Hs1); exact Hh|by rewrite (sw_down _ _ Hs1)|done]|].
    cbv beta. intros _ w2 (A & B & _). split; [done|]. eapply aside_trans; [by apply still_aside|done]. }
  unfold resolver_supervisor_helper_result_finish. step. eapply wp_helper_get; [done|]. destruct (h_job h) as [p|] eqn:Ej; [|apply Hfail; [done|apply still_refl]].
  destruct Hi as (q & d & Hi). set (g0 := g <| g_queue := q |> <| g_done := d |>) in *. assert (Hc0 : calm g0) by (by destruct Hc).
  destruct (take_at_work _ _ _ _ _ Hi Hc0 Hh Ej) as (j & Hw & Hp0 & Hf & _ & Ha & _). step. eapply wp_job_get; [apply Hw|]. step.
  eapply wp_mono; [eapply (wp_result_take g0); [done|apply Hw|done]|]. cbv beta. intros [r|] w1 (S1 & _ & Hr).
  - destruct Hr as [Hro Hi1]. pose proof (calm_charges _ (charge r ++ g_charges g0) Hc0) as Hc1.
    destruct (take_at_work _ _ i h p Hi1 Hc1 ltac:(by rewrite (sw_helpers _ _ S1)) Ej) as (j1 & Hw1 & _).
    assert (j1 = j) as -> by (pose proof (aw_job _ _ _ _ _ _ Hw1) as E1; pose proof (aw_job _ _ _ _ _ _ Hw) as E2; rewrite (sw_jobs _ _ S1) in E1; congruence).
    eapply wp_detach; [exact Hw1|]. intros w2 Hw2 S2 _ _. pose proof (aside_trans i _ _ _ (still_aside i _ _ S1) (steady_aside i _ _ S2)) as A2.
    assert (Hdn : g_phase g = s_shutting_down (w_supervisor w2)) by (by rewrite (ad_down _ _ _ A2)). step.
    + eapply wp_mono; [eapply (wp_finish_late _ w2 i h p _ r _ now (g_charges g0)); [exact Hw2|done|done|done]|]. cbv beta. intros _ w3 (B1 & B2 & _).
      split; [|exact (aside_trans _ _ _ _ A2 B2)]. apply (holding_lists g _ q d). exact (charges_back g0 _ _ _ _ Hc0 B1).
    + eapply wp_mono; [eapply (wp_finish_accept _ w2 i h p _ r now (g_charges g0)); [exact Hw2|done|done|done|done|done|done]|]. cbv beta. intros _ w3 (B1 & B2).
      split; [|exact (aside_trans _ _ _ _ A2 B2)]. apply (holding_lists g _ q d). exact (charges_back g0 _ _ _ _ Hc0 B1).
  - apply Hfail; [|done]. by exists q, d.
Qed.

(** ** Receiving *)

(** What the operations on a running or stopping helper keep. *)
Definition kept (g : ghost) (i : nat) (w w' : world) : Prop := holding g w' /\ aside i w w'.

Lemma aside_kept g i w1 w2 w3 : aside i w1 w2 -> kept g i w2 w3 -> kept g i w1 w3.
Proof. intros A [H B]. split; [done|]. exact (aside_trans _ _ _ _ A B). Qed.
Lemma wp_fail_kept g w w1 i failure now : holding g w1 -> calm g -> aside i w w1 -> is_Some (helpers_of w1 !! i) -> g_phase g = s_shutting_down (w_supervisor w) -> valid now ->
  wp (resolver_supervisor_helper_fail i failure now) (fun _ => kept g i w) w1.
Proof.
  intros Hi Hc A [h Hh] Hph Hnow. eapply wp_mono; [eapply wp_helper_fail; [exact Hi|done|exact Hh|by rewrite (ad_down _ _ _ A)|done]|].
  cbv beta. intros _ w2 (B & C & _). split; [done|]. exact (aside_trans _ _ _ _ A C).
Qed.
Lemma holding_helper g w i : holding g w -> (i < RESOLVER_SUPERVISOR_HELPER_COUNT)%nat -> is_Some (helpers_of w !! i).
Proof. intros (q & d & Hi) Hl. apply lookup_lt_is_Some. by rewrite (ho_length _ _ _ _ _ (i_helpers _ _ Hi)). Qed.

Lemma wp_packet_received g w i packet now : holding g w -> calm g -> (i < RESOLVER_SUPERVISOR_HELPER_COUNT)%nat -> g_phase g = s_shutting_down (w_supervisor w) -> valid now ->
  is_bytes packet -> wp (packet_received i packet now) (fun _ => kept g i w) w.
Proof.
  intros Hi Hc Hl Hph Hnow Hb. destruct (holding_helper g w i Hi Hl) as [h Hh]. unfold packet_received. step. eapply wp_helper_get; [done|].
  assert (Hfail : forall w1 (b : bool), holding g w1 -> aside i w w1 ->
    wp (resolver_supervisor_helper_fail i RESOLVER_SUPERVISOR_HELPER_FAILURE_PROTOCOL now ;; mret b) (fun _ => kept g i w) w1).
  { intros w1 b Hi1 A1. step. eapply wp_mono; [eapply wp_fail_kept; [done|done|exact A1|by apply (holding_helper g)|done|done]|]. cbv beta. intros _ w2 K. by step. }
  step; [step; by split; [|apply aside_refl]|]. destruct (h_job h) as [p|] eqn:Ej; [|apply Hfail; [done|apply aside_refl]].
  step; [apply Hfail; [done|apply aside_refl]|]. assert (Hi' := Hi). destruct Hi' as (q & d & Hi').
  destruct (take_at_work _ _ _ _ _ Hi' (calm_lists g q d Hc) Hh Ej) as (j & Hw & _ & _ & _ & Ha & _). step.
  eapply wp_mono; [eapply wp_packet_consume; [exact Hi'|apply Hw|done|done]|]. cbv beta. intros st w1 (Hi1 & S1).
  assert (H1 : holding g w1) by (by exists q, d). pose proof (still_aside i _ _ S1) as A1.
  destruct st; try (apply Hfail; done); [step; by split|]. step.
  eapply wp_mono; [eapply wp_result_finish; [exact H1|done|rewrite (sw_helpers _ _ S1); exact Hh|by rewrite (sw_down _ _ S1)|done]|].
  cbv beta. intros _ w2 K. step. exact (aside_kept _ _ _ _ _ A1 K).
Qed.

Lemma shutting_helper g w i h : inv g w -> calm g -> helpers_of w !! i = Some h -> h_state h = RESOLVER_SUPERVISOR_HELPER_SHUTTING_DOWN ->
  h_job h = None /\ h_fd h <> -1 /\ g_phase g = true.
Proof.
  intros Hi [_ Hl _] Hh Hs. pose proof (ho_fits _ _ _ _ _ (i_helpers _ _ Hi) i h Hh ltac:(by rewrite Hl)) as Hf. unfold helper_fits in Hf. by rewrite Hs in Hf.
Qed.

Lemma wp_zero_received g w i h now : holding g w -> calm g -> helpers_of w !! i = Some h -> h_fd h <> -1 -> g_phase g = s_shutting_down (w_supervisor w) -> valid now ->
  wp (zero_received i now) (fun _ => kept g i w) w.
Proof.
  intros Hi Hc Hh Hf Hph Hnow. assert (Hi' := Hi). destruct Hi' as (q & d & Hi'). unfold zero_received. step. eapply wp_helper_get; [done|].
  assert (Hend : forall w1, quiet w w1 -> wp (ended ← resolver_supervisor_helper_receive_zero_is_end (h_fd h);
     resolver_supervisor_helper_fail i (if ended : bool then RESOLVER_SUPERVISOR_HELPER_FAILURE_EXIT else RESOLVER_SUPERVISOR_HELPER_FAILURE_PROTOCOL) now) (fun _ => kept g i w) w1).
  { intros w1 Q1. step. apply wp_quietly; [apply quietly_zero_is_end; apply (inv_fd_open _ _ i h (inv_quiet _ _ _ Q1 Hi')); [by rewrite (quiet_helpers _ _ Q1)|done]|].
    intros b w2 Q2. pose proof (quiet_trans _ _ _ Q1 Q2) as Q. eapply wp_fail_kept; [by eapply holding_quiet|done|by apply still_aside, quiet_still| |done|done].
    exists h. by rewrite (quiet_helpers _ _ Q). }
  case_bool_decide as Es.
  - step. apply wp_quietly; [apply quietly_zero_is_end; by apply (inv_fd_open _ _ i h Hi')|]. intros b w1 Q1. step; [|by apply Hend].
    destruct (shutting_helper _ _ _ _ Hi' (calm_lists g q d Hc) Hh Es) as (Hj & _ & Hp).
    eapply wp_mono; [eapply (wp_helper_stop g w1 i h); [by eapply holding_quiet|done|by rewrite (quiet_helpers _ _ Q1)|done|done]|].
    cbv beta. intros _ w2 (A & B & _). split; [done|]. eapply aside_trans; [|exact B]. by apply still_aside, quiet_still.
  - do 2 step. apply Hend, quiet_refl.
Qed.

Lemma is_bytes_take n (l : bytes) : is_bytes l -> is_bytes (take n l).
Proof. apply Forall_take. Qed.

Lemma wp_drain_loop g recvs w i now : holding g w -> calm g -> (i < RESOLVER_SUPERVISOR_HELPER_COUNT)%nat -> g_phase g = s_shutting_down (w_supervisor w) -> valid now ->
  Forall received_bytes recvs -> wp (drain_loop recvs i now) (fun _ => kept g i w) w.
Proof.
  revert w. induction recvs as [|a recvs IH]; intros w Hi Hc Hl Hph Hnow Hr; assert (Hi' := Hi); destruct Hi' as (q & d & Hi'); destruct (holding_helper g w i Hi Hl) as [h Hh];
    cbn [drain_loop]; (step; eapply wp_helper_get; [done|]); (step; [step; by split; [|apply aside_refl]|]);
    (step; apply wp_open_get; [apply (inv_fd_open _ _ i h Hi'); [done|lia]|]); do 2 step; set (w1 := w <| w_kernel ::= _ |>).
  - step. assert (Q : quiet w w1) by (apply quiet_kernel; by split). split; [by eapply holding_quiet|by apply still_aside, quiet_still].
  - apply list.Forall_cons in Hr as [Ha Hr]. assert (Q : quiet w w1) by (apply quiet_kernel; by split).
    pose proof (holding_quiet _ _ _ Q Hi) as H1. pose proof (still_aside i _ _ (quiet_still _ _ Q)) as A1.
    assert (Hh1 : helpers_of w1 !! i = Some h) by done. assert (Hp1 : g_phase g = s_shutting_down (w_supervisor w1)) by done. clearbody w1.
    assert (Hgo : forall w2, kept g i w w2 -> wp (drain_loop recvs i now) (fun _ => kept g i w) w2).
    { intros w2 [K1 K2]. eapply wp_mono; [apply IH; try done; by rewrite (ad_down _ _ _ K2)|]. cbv beta. intros _ w3 K. exact (aside_kept _ _ _ _ _ K2 K). }
    destruct a as [record|errno]; cbn [received_bytes] in Ha.
    + cbv zeta. step.
      * step. eapply wp_mono; [by apply wp_packet_received; [..|apply is_bytes_take]|]. cbv beta. intros again w2 K.
        pose proof (aside_kept _ _ _ _ _ A1 K) as K'. step; [by apply Hgo|by step].
      * eapply wp_mono; [eapply wp_zero_received; [done|done|exact Hh1|lia|done|done]|]. cbv beta. intros _ w2 K. exact (aside_kept _ _ _ _ _ A1 K).
    + step; [by apply Hgo|]. step; [by step|]. eapply wp_fail_kept; [done|done|done|by exists h|done|done].
Qed.

Lemma wp_drain g w i now : holding g w -> calm g -> (i < RESOLVER_SUPERVISOR_HELPER_COUNT)%nat -> g_phase g = s_shutting_down (w_supervisor w) -> valid now ->
  wp (resolver_supervisor_helper_drain i now) (fun _ => kept g i w) w.
Proof.
  intros Hi Hc Hl Hph Hnow. unfold resolver_supervisor_helper_drain. do 2 step. apply wp_drain_loop; try done. destruct Hi as (q & d & Hi). apply (i_kernel _ _ Hi).
Qed.
