(* ===== verification/SupervisorTimers.v ===== *)
(** * The timers and the events keep the invariant of the supervisor

    The clock, the one timer of the supervisor, retries that are due, the deadlines of
    queries, the starts and stops of helpers, and the processing of a batch of events. *)

From S2P Require Import Prelude Stateful Dll TimeUtil Metrics ResolverUtil Cache Ipc IpcAssembly Helper Supervisor SupervisorDelay SupervisorInv SupervisorJobs SupervisorHelpers SupervisorSteps SupervisorReplies.
From stdpp Require Import gmap.
#[local] Open Scope Z_scope.
#[local] Abbreviation prog := (prog world).

(** ** The clock *)

(** A time of the clock of the system. *)
Definition clock (now : option timespec) : Prop := forall t, now = Some t -> tv_sec t < 2 ^ 63.
Definition timed (t : timespec) (w : world) : world := w <| w_supervisor ::= (fun s => s <| s_last_now := t |>) |>.

Lemma inv_timed g w t : inv g w -> valid t -> inv g (timed t w).
Proof. intros [H1 H2 H3 H4 H5 H6 H7 H8 H9 H10 [_ H11] H12 H13 H14 H15 H16 H17] Ht. by split. Qed.
Lemma holding_timed g w t : holding g w -> valid t -> holding g (timed t w).
Proof. intros (q & d & Hi) Ht. exists q, d. by apply inv_timed. Qed.
Lemma wp_time_update now w (Q : bool -> world -> Prop) : clock now -> Q false w ->
  (forall t, now = Some t -> valid t -> (timeutil_compare t (s_last_now (w_supervisor w)) <? 0) = false -> Q true (timed t w)) -> wp (resolver_supervisor_time_update now) Q w.
Proof.
  intros Hc Hf Ht. unfold resolver_supervisor_time_update. do 2 step. destruct now as [t|]; [|by step]. step; [by step|]. do 3 step. apply orb_false_iff in E as [E1 E2].
  apply Ht; [done| |done]. split; [by apply negb_false_iff|by apply Hc].
Qed.

(** ** The timer *)

Lemma table_job g w p : inv g w -> p ∈ concat (s_buckets (w_supervisor w)) -> is_Some (jobs_of w !! p).
Proof.
  intros Hi Hp. apply list_elem_of_In, in_concat in Hp as (chain & Hc & Hin). apply list_elem_of_In, list_elem_of_lookup in Hc as [i Hi']. apply list_elem_of_In in Hin.
  apply (th_place _ _ (i_table _ _ Hi) i chain p Hi') in Hin as (id & He & _). rewrite lookup_fmap in He. by destruct (jobs_of w !! p).
Qed.
Lemma wp_chain_events chain target w : (forall p, p ∈ chain -> is_Some (jobs_of w !! p)) -> wp (chain_events chain target) (fun _ w' => w' = w) w.
Proof.
  revert target. induction chain as [|p chain IH]; intros target H; cbn [chain_events]; [by step|]. destruct (H p) as [j Hj]; [by left|]. step.
  eapply wp_job_get; [done|]. apply IH. intros q Hq. apply H. by right.
Qed.
Lemma quietly_rearm g w : holding g w -> quietly resolver_supervisor_timer_rearm w.
Proof.
  intros (q & d & Hi). unfold quietly, resolver_supervisor_timer_rearm. do 3 step. eapply wp_mono; [apply wp_chain_events; intros p; by apply (table_job _ _ _ Hi)|].
  cbv beta. intros target w' ->. apply quietly_timer_set.
Qed.
Lemma quietly_timer_drain w : quietly resolver_supervisor_timer_drain w.
Proof. unfold resolver_supervisor_timer_drain. quiet_steps. kernel_same. Qed.

(** ** Retries *)

Lemma wp_requeue g w p j now : inv g w -> calm g -> jobs_of w !! p = Some j -> j_state j = RESOLVER_SUPERVISOR_JOB_RETRY_WAIT ->
  wp (job_set p (fun j => j <| j_dispatch_wait_at := now |>) ;; resolver_supervisor_job_queue_append p)
    (fun _ w' => holding g w' /\ steady w w' /\ entries_of w' = entries_of w) w.
Proof.
  intros Hi Hc Hj Hs. pose proof (inv_pick_up _ _ _ _ Hi (ca_hand _ Hc) Hj Hs) as Hi1. step. eapply wp_job_set; [done|]. set (j1 := j <| j_dispatch_wait_at := now |>).
  assert (Hu : g_unsettled g <> Some p) by (by rewrite (ca_unsettled _ Hc)). pose proof (i_interests _ _ Hi p j Hj) as [I1 I2].
  assert (Hi2 : inv (g <| g_hand := Some p |>) (put_job p j1 w)).
  { eapply inv_put_job; [exact Hi1|exact Hj|done|by left|exact I1|intros _; by apply I2| |]; [by apply (i_responses _ _ Hi p j Hj)|]. destruct (i_times _ _ Hi) as (_ & T & _). exact (T p j Hj). }
  assert (Hn : no_job_loose (g <| g_hand := Some p |>) (put_job p j1 w)).
  { intros k h Hk Hl. exact (no_job_loose_free _ _ Hi (ca_hand _ Hc) k h Hk Hl). }
  eapply wp_mono; [eapply wp_queue_append; [exact Hi2|done|apply put_lookup| |exact Hn]|].
  - split; [apply (placed_assembly g w p j Hi (ca_hand _ Hc) Hj); by rewrite Hs|]. split; [apply (i_responses _ _ Hi p j Hj); by rewrite Hs|].
    intros _. specialize (I2 Hu). unfold settled in I2 |- *. rewrite bool_decide_eq_false_2 in I2 by (by rewrite Hs). destruct I2 as (I2 & I3 & I4).
    cbn. split; [exact I2|]. split; [exact I3|]. intros Ho. by rewrite I4 in Hs.
  - cbv beta. intros _ w2 (Hi3 & Hl & Hr). split; [|split].
    + apply (holding_of _ _ _ Hi3). destruct Hc as [C1 _ _]. destruct g; cbn in *. by rewrite C1.
    + eapply steady_trans; [apply put_steady|by apply lists_steady].
    + unfold entries_of. rewrite (relinked_entries _ _ Hr). change (jobs_of (put_job p j1 w)) with (<[p := j1]> (jobs_of w)). rewrite insert_insert_eq.
      by eapply relinked_put_entries.
Qed.

Lemma entries_some w w' p : entries_of w' = entries_of w -> is_Some (jobs_of w !! p) -> is_Some (jobs_of w' !! p).
Proof. unfold entries_of. intros He Hp. apply (fmap_is_Some j_entry). rewrite <- lookup_fmap, He, lookup_fmap. by apply fmap_is_Some. Qed.

Lemma wp_timers_jobs g w now : holding g w -> calm g -> wp (resolver_supervisor_timers_process_jobs now) (fun _ w' => holding g w' /\ steady w w' /\ entries_of w' = entries_of w) w.
Proof.
  intros Hi Hc. unfold resolver_supervisor_timers_process_jobs. do 2 step. apply (wp_for_each _ (fun w' => holding g w' /\ steady w w' /\ entries_of w' = entries_of w));
    [|split; [done|split; [apply steady_refl|done]]].
  intros p w1 Hp (Hi1 & Hs1 & He1). assert (Hp1 : is_Some (jobs_of w1 !! p)) by (apply (entries_some w); [done|]; destruct Hi as (q & d & Hi); by eapply table_job).
  destruct Hp1 as [j Hj]. step. eapply wp_job_get; [done|]. apply wp_when; [|done]. intros [E _]%andb_true_iff. apply bool_decide_eq_true in E.
  destruct Hi1 as (q & d & Hi1). eapply wp_mono; [by eapply wp_requeue; [exact Hi1|apply calm_lists|..]|]. cbv beta. intros _ w2 (H & Hs & He).
  split; [exact (holding_lists _ _ _ _ H)|]. split; [exact (steady_trans _ _ _ Hs1 Hs)|congruence].
Qed.

(** ** The timers of the helpers *)

(** What the helpers need of the world: whether they are being shut down is known. *)
Record running (g : ghost) (w : world) : Prop := { ru_holding : holding g w; ru_calm : calm g; ru_phase : g_phase g = s_shutting_down (w_supervisor w) }.

Lemma running_kept g i w w' : running g w -> kept g i w w' -> running g w'.
Proof. intros [H1 H2 H3] [K1 K2]. split; [done|done|]. by rewrite (ad_down _ _ _ K2). Qed.
Lemma kept_here g i w : running g w -> kept g i w w.
Proof. intros [H _ _]. split; [done|apply aside_refl]. Qed.
Lemma kept_then g i w1 w2 w3 : kept g i w1 w2 -> kept g i w2 w3 -> kept g i w1 w3.
Proof. intros [_ A]. by apply aside_kept. Qed.
Lemma running_helper g w i : running g w -> (i < RESOLVER_SUPERVISOR_HELPER_COUNT)%nat -> is_Some (helpers_of w !! i).
Proof. intros [H _ _]. by apply (holding_helper g). Qed.
Lemma running_job g w i h p : running g w -> helpers_of w !! i = Some h -> h_job h = Some p -> exists j, jobs_of w !! p = Some j.
Proof.
  intros [(q & d & Hi) Hc _] Hh Hp. destruct (take_at_work _ _ _ _ _ Hi (calm_lists g q d Hc) Hh Hp) as (j & Hw & _). exists j. apply Hw.
Qed.
Lemma running_fits g w i h : running g w -> helpers_of w !! i = Some h -> exists jobs, helper_fits (g_phase g) None jobs i h.
Proof.
  intros [(q & d & Hi) Hc _] Hh. exists (jobs_of w). pose proof (ho_fits _ _ _ _ _ (i_helpers _ _ Hi) i h Hh ltac:(by rewrite (ca_loose _ (calm_lists g q d Hc)))) as Hf.
  change (g_hand (g <| g_queue := q |> <| g_done := d |>)) with (g_hand g) in Hf. by rewrite (ca_hand _ Hc) in Hf.
Qed.

Lemma wp_helper_timeout g w i now : running g w -> (i < RESOLVER_SUPERVISOR_HELPER_COUNT)%nat -> valid now -> wp (helper_timeout i now) (fun _ => kept g i w) w.
Proof.
  intros Hr Hl Hnow. destruct (running_helper g w i Hr Hl) as [h Hh]. unfold helper_timeout. step. eapply wp_helper_get; [done|].
  destruct (h_state h); try (step; by apply kept_here). destruct (h_job h) as [p|] eqn:Ep; [|step; by apply kept_here].
  destruct (running_job g w i h p Hr Hh Ep) as [j Hj]. step. eapply wp_job_get; [done|]. apply wp_when; [|intros _; by apply kept_here]. intros _. step.
  destruct Hr as [R1 R2 R3]. eapply wp_mono; [by apply wp_drain|]. cbv beta. intros _ w1 K1. pose proof (running_kept g i w w1 (Build_running _ _ R1 R2 R3) K1) as Hr1.
  destruct (running_helper g w1 i Hr1 Hl) as [h1 Hh1]. step. eapply wp_helper_get; [done|]. apply wp_when; [|done]. intros _.
  destruct Hr1 as [S1 S2 S3]. eapply wp_mono; [eapply (wp_fail_kept g w1 w1); [done|done|apply aside_refl|by exists h1|done|done]|]. cbv beta. intros _ w2 K2. exact (kept_then _ _ _ _ _ K1 K2).
Qed.

Lemma wp_recover_kept g w i recovery now : running g w -> (i < RESOLVER_SUPERVISOR_HELPER_COUNT)%nat ->
  wp (resolver_supervisor_helper_recover i recovery now) (fun _ => kept g i w) w.
Proof.
  intros Hr Hl. destruct (running_helper g w i Hr Hl) as [h Hh]. destruct Hr as [(q & d & Hi) Hc _].
  eapply wp_mono; [by eapply wp_recover|]. cbv beta. intros _ w' (Hi' & h' & Hs & _). split; [by exists q, d|by eapply helper_step_aside].
Qed.
Lemma wp_spawn_kept g w i h now : running g w -> helpers_of w !! i = Some h -> h_state h = RESOLVER_SUPERVISOR_HELPER_BACKOFF -> valid now ->
  wp (resolver_supervisor_helper_spawn i now) (fun _ => kept g i w) w.
Proof.
  intros Hr Hh Hs Hnow. destruct (running_fits _ _ _ _ Hr Hh) as [jobs Hf]. unfold helper_fits in Hf. rewrite Hs in Hf. destruct Hf as (Hj & Hfd & Hp).
  destruct Hr as [(q & d & Hi) Hc Hph]. set (g0 := g <| g_queue := q |> <| g_done := d |>) in *. pose proof (calm_lists g q d Hc) as Hc0. fold g0 in Hc0.
  pose proof (inv_take_idle _ _ _ _ Hi Hh Hj) as Hi0. eapply wp_mono; [eapply wp_spawn; [exact Hi0| |exact Hh|done|done|done|congruence|done]|].
  - cbn. unfold set_loose. by rewrite bool_decide_eq_true_2.
  - cbv beta. intros _ w' (Hi' & h' & Hs'). split; [|by eapply helper_step_aside]. apply (holding_lists g _ q d), (calm_back_idle _ _ i Hc0). by apply inv_holding.
Qed.
Lemma wp_stop_kept g w i h force : running g w -> helpers_of w !! i = Some h -> h_state h = RESOLVER_SUPERVISOR_HELPER_SHUTTING_DOWN ->
  wp (resolver_supervisor_helper_stop i force) (fun _ => kept g i w) w.
Proof.
  intros Hr Hh Hs. destruct (running_fits _ _ _ _ Hr Hh) as [jobs Hf]. unfold helper_fits in Hf. rewrite Hs in Hf. destruct Hf as (Hj & Hfd & Hp).
  destruct Hr as [Hi Hc _]. eapply wp_mono; [by eapply wp_helper_stop|]. cbv beta. intros _ w' (A & B & _). by split.
Qed.

Lemma wp_helper_timers g w i now : running g w -> (i < RESOLVER_SUPERVISOR_HELPER_COUNT)%nat -> valid now -> wp (helper_timers i now) (fun _ => kept g i w) w.
Proof.
  intros Hr Hl Hnow. unfold helper_timers. step. eapply wp_mono; [by apply wp_helper_timeout|]. cbv beta. intros _ w1 K1. pose proof (running_kept _ _ _ _ Hr K1) as Hr1.
  destruct (running_helper g w1 i Hr1 Hl) as [h1 Hh1]. step. eapply wp_helper_get; [done|]. step.
  eapply (wp_mono _ (fun _ => kept g i w)); [|cbv beta; intros _ w2 K2].
  { apply wp_when; [|done]. intros _. eapply wp_mono; [by apply wp_recover_kept|]. cbv beta. intros _ w2 K2. exact (kept_then _ _ _ _ _ K1 K2). }
  pose proof (running_kept _ _ _ _ Hr K2) as Hr2. destruct (running_helper g w2 i Hr2 Hl) as [h2 Hh2]. step. eapply wp_helper_get; [done|]. step.
  - apply andb_true_iff in E as [E _]. apply bool_decide_eq_true in E. step. eapply wp_mono; [by eapply wp_spawn_kept|]. cbv beta. intros _ w3 K3. step. exact (kept_then _ _ _ _ _ K2 K3).
  - apply wp_when; [|done]. intros [E' _]%andb_true_iff. apply bool_decide_eq_true in E'.
    eapply wp_mono; [by eapply wp_stop_kept|]. cbv beta. intros _ w3 K3. exact (kept_then _ _ _ _ _ K2 K3).
Qed.

(** The helpers one after the other. *)
Definition going (g : ghost) (w w' : world) : Prop :=
  running g w' /\ s_shutting_down (w_supervisor w') = s_shutting_down (w_supervisor w) /\ s_last_now (w_supervisor w') = s_last_now (w_supervisor w).
Lemma going_refl g w : running g w -> going g w w.
Proof. done. Qed.
Lemma going_kept g i w w1 w2 : going g w w1 -> kept g i w1 w2 -> going g w w2.
Proof. intros (R & D & N) K. split; [by eapply running_kept|]. destruct K as [_ A]. by rewrite (ad_down _ _ _ A), (ad_now _ _ _ A). Qed.
Lemma going_steady g w w1 w2 : going g w w1 -> holding g w2 -> steady w1 w2 -> going g w w2.
Proof. intros G H S. eapply (going_kept g 0); [exact G|]. split; [done|by apply steady_aside]. Qed.
Lemma going_quiet g w w1 w2 : going g w w1 -> quiet w1 w2 -> going g w w2.
Proof. intros G Q. eapply going_steady; [exact G| |by apply quiet_steady]. eapply holding_quiet; [done|]. apply G. Qed.

Lemma wp_each_helper g w w0 (f : nat -> prog unit) : going g w0 w ->
  (forall i w, (i < RESOLVER_SUPERVISOR_HELPER_COUNT)%nat -> running g w -> wp (f i) (fun _ => kept g i w) w) ->
  wp (for_each f (seq 0 RESOLVER_SUPERVISOR_HELPER_COUNT)) (fun _ => going g w0) w.
Proof.
  intros Hg Hf. apply (wp_for_each _ (going g w0)); [|done]. intros i w1 Hi%list.elem_of_seq G1. eapply wp_mono; [apply Hf; [lia|apply G1]|].
  cbv beta. intros _ w2 K. by eapply going_kept.
Qed.

(** ** Events *)

Lemma wp_send_time g w i h p j : at_work g w i h p j -> j_orphaned j = false -> h_fd h <> -1 -> g_phase g = false ->
  wp (request_abandon i p ;; response ← failure_response p RESOLVER_IPC_LOOKUP_PERMANENT_ERROR; resolver_supervisor_job_complete p RESOLVER_CACHE_PUBLISH_TIME response)
    (fun _ w' => holding (g <| g_hand := None |> <| g_loose ::= set_loose i false |>) w' /\ aside i w w') w.
Proof.
  intros H Ho Hf Hp. step. eapply wp_mono; [by eapply wp_request_abandon|]. cbv beta. intros _ w1 (H1 & A1 & _ & h1 & Hh1 & Hf1 & Hj1 & Hs1).
  eapply wp_mono; [by eapply wp_fail_complete|]. cbv beta. intros _ w2 (Hi2 & Hs2 & _). split.
  - eapply holding_settle_idle; [exact Hi2|by rewrite (st_helpers _ _ Hs2)|done|by rewrite Hf1|done|done].
  - exact (aside_trans _ _ _ _ A1 (steady_aside i _ _ Hs2)).
Qed.
Lemma wp_send_ready g w i h now : running g w -> helpers_of w !! i = Some h -> h_state h = RESOLVER_SUPERVISOR_HELPER_SENDING -> valid now ->
  wp (send_ready i now) (fun _ => kept g i w) w.
Proof.
  intros Hr Hh Hs Hnow. destruct (running_fits _ _ _ _ Hr Hh) as [jobs Hf]. unfold helper_fits in Hf. rewrite Hs in Hf. destruct Hf as ((p & _ & Ep & _) & _ & _). clear jobs.
  destruct Hr as [(q & d & Hi) Hc Hph]. set (g0 := g <| g_queue := q |> <| g_done := d |>) in *. pose proof (calm_lists g q d Hc) as Hc0. fold g0 in Hc0.
  destruct (take_at_work _ _ _ _ _ Hi Hc0 Hh Ep) as (j & Hw & Hp & Hfd & Hsl & Ha & Hst). destruct Hst as [[_ Hst]|[Hst _]]; [|congruence].
  assert (Ho : j_orphaned j = false).
  { destruct (at_work_settled _ _ _ _ _ _ Hw) as (_ & _ & S3). destruct (j_orphaned j); [|done]. rewrite S3 in Hst; done. }
  unfold send_ready. step. eapply wp_mono; [eapply wp_request_send; [split; [exact Hw|done|done|done|done|done]|done]|]. cbv beta. intros st w1 Hs1.
  set (g1 := g0 <| g_hand := Some p |> <| g_loose ::= set_loose i true |>) in *.
  assert (Hback : forall w2, holding (g1 <| g_hand := None |> <| g_loose ::= set_loose i false |>) w2 -> holding g w2).
  { intros w2 H. apply (holding_lists g _ q d). exact (calm_back g0 _ _ _ Hc0 H). }
  destruct st; cbn [send_end] in Hs1.
  - destruct Hs1 as (H1 & A1 & _). step. split; [by apply Hback|done].
  - destruct Hs1 as (A1 & h' & j' & Hw1). eapply wp_mono; [eapply wp_helper_fail_busy; [exact Hw1|by rewrite (ad_down _ _ _ A1)|done]|].
    cbv beta. intros _ w2 (B1 & B2 & _). split; [by apply Hback|exact (aside_trans _ _ _ _ A1 B2)].
  - subst w1. step. eapply wp_helper_get; [done|]. step. eapply wp_lift; [done|]. eapply wp_mono; [by eapply wp_send_time|].
    cbv beta. intros _ w2 (B1 & B2). split; [by apply Hback|done].
Qed.

Lemma wp_helper_ready g w i events now : running g w -> (i < RESOLVER_SUPERVISOR_HELPER_COUNT)%nat -> valid now -> wp (helper_ready i events now) (fun _ => kept g i w) w.
Proof.
  intros Hr Hl Hnow. destruct (running_helper g w i Hr Hl) as [h Hh].
  assert (Hdrain : forall w1, kept g i w w1 -> wp (resolver_supervisor_helper_drain i now) (fun _ => kept g i w) w1).
  { intros w1 K. destruct (running_kept _ _ _ _ Hr K) as [R1 R2 R3]. eapply wp_mono; [by apply wp_drain|]. cbv beta. intros _ w2 K2. exact (kept_then _ _ _ _ _ K K2). }
  unfold helper_ready. step. eapply wp_helper_get; [done|]. step. eapply (wp_mono _ (fun _ => kept g i w)); [|cbv beta; intros _ w1 K1].
  { apply wp_when; [|intros _; by apply kept_here]. intros [_ E]%andb_true_iff. apply bool_decide_eq_true in E. by eapply wp_send_ready. }
  destruct (running_helper g w1 i (running_kept _ _ _ _ Hr K1) Hl) as [h1 Hh1]. step. eapply wp_helper_get; [done|]. step.
  eapply (wp_mono _ (fun _ => kept g i w)); [|cbv beta; intros _ w2 K2]. { apply wp_when; [|done]. intros _. by apply Hdrain. }
  destruct (running_helper g w2 i (running_kept _ _ _ _ Hr K2) Hl) as [h2 Hh2]. step. eapply wp_helper_get; [done|]. apply wp_when; [|done]. intros _. step.
  eapply wp_mono; [by apply Hdrain|]. cbv beta. intros _ w3 K3. pose proof (running_kept _ _ _ _ Hr K3) as Hr3. destruct (running_helper g w3 i Hr3 Hl) as [h3 Hh3].
  step. eapply wp_helper_get; [done|]. apply wp_when; [|done]. intros _. case_bool_decide as Es.
  - eapply wp_mono; [by eapply wp_stop_kept|]. cbv beta. intros _ w4 K4. exact (kept_then _ _ _ _ _ K3 K4).
  - destruct Hr3 as [S1 S2 S3]. eapply wp_mono; [eapply (wp_fail_kept g w3 w3); [done|done|apply aside_refl|by exists h3|done|done]|]. cbv beta. intros _ w4 K4. exact (kept_then _ _ _ _ _ K3 K4).
Qed.

(** No helper is idle while a job is queued. *)
Definition conserved (w : world) : Prop := s_shutting_down (w_supervisor w) = false -> (forall k, not_idle k w) \/ queue_total w = 0.
Lemma conserved_quiet w w' : quiet w w' -> conserved w -> conserved w'.
Proof.
  intros Q. unfold conserved, not_idle. rewrite (st_down _ _ (quiet_steady _ _ Q)), (quiet_total _ _ Q). intros H Hd. destruct (H Hd) as [A|A]; [left|by right].
  intros k h. rewrite (quiet_helpers _ _ Q). apply A.
Qed.

Lemma wp_dispatch_running g w0 w now : going g w0 w -> valid now -> wp (resolver_supervisor_dispatch now) (fun _ w' => going g w0 w' /\ conserved w') w.
Proof.
  intros (R & D & N) Hnow. assert (R' := R). destruct R' as [H Hc Hp]. destruct (s_shutting_down (w_supervisor w)) eqn:Ed.
  - unfold resolver_supervisor_dispatch. do 2 step. rewrite Ed. step. split; [by split; [|rewrite Ed]|]. unfold conserved. by rewrite Ed.
  - eapply wp_mono; [by eapply wp_dispatch|]. cbv beta. intros _ w' (H' & D' & N' & C'). rewrite Ed in D'. split; [|by intros _].
    split; [split; [done|done|congruence]|]. split; congruence.
Qed.

Lemma running_timed g w t : running g w -> valid t -> running g (timed t w).
Proof. intros [H1 H2 H3] Ht. split; [by apply holding_timed|done|done]. Qed.

(** The events of a turn. *)
Lemma wp_events_process g w now : running g w -> clock now -> wp (resolver_supervisor_events_process true now) (fun status w' => running g w' /\
  s_shutting_down (w_supervisor w') = s_shutting_down (w_supervisor w) /\ (status = RESOLVER_SUPERVISOR_EVENT_OK -> conserved w')) w.
Proof.
  intros Hr Hc. unfold resolver_supervisor_events_process. destruct now as [t|]; [|by step]. step. apply wp_time_update; [done|by step|]. intros t' [= <-] Ht _. cbn [negb].
  pose proof (running_timed _ _ _ Hr Ht) as Hr1. set (w1 := timed t w) in *. assert (D1 : s_shutting_down (w_supervisor w1) = s_shutting_down (w_supervisor w)) by done. clearbody w1. rewrite <- D1.
  do 2 step. destruct (epoll_retry (k_epoll_waits (w_kernel w1))) as [a l]. do 2 step. set (w2 := w1 <| w_kernel ::= _ |>). assert (Q2 : quiet w1 w2) by (apply quiet_kernel; by split). clearbody w2.
  assert (G2 : going g w1 w2) by (by eapply going_quiet; [apply going_refl|]).
  destruct a as [errno|events]; [step; by destruct G2 as (? & ? & _)|].
  destruct (events_sort _ _ _) as [[helper_events timer_ready]|]; [|step; by destruct G2 as (? & ? & _)].
  step. eapply wp_mono; [eapply (wp_each_helper g w2 w1); [done|]|]. { intros i w3 Hi Hr3. by apply wp_helper_ready. }
  cbv beta. intros _ w3 G3. step. eapply (wp_mono _ (fun _ => going g w1)); [|cbv beta; intros drained w4 G4].
  { destruct timer_ready; [|by step]. apply wp_quietly; [apply quietly_timer_drain|]. intros b w4 Q. by eapply going_quiet. }
  step; [step; by destruct G4 as (? & ? & _)|]. step. unfold resolver_supervisor_timers_process_helpers.
  eapply wp_mono; [eapply (wp_each_helper g w4 w1); [done|]|]. { intros i w5 Hi Hr5. by apply wp_helper_timers. }
  cbv beta. intros _ w5 G5. step. eapply wp_mono; [eapply (wp_timers_jobs g); apply G5|]. cbv beta. intros _ w6 (H6 & S6 & _). pose proof (going_steady _ _ _ _ G5 H6 S6) as G6.
  step. eapply wp_mono; [by apply (wp_dispatch_running g w1)|]. cbv beta. intros _ w7 [G7 C7]. step. apply wp_quietly; [apply (quietly_rearm g), G7|]. intros armed w8 Q8.
  step. destruct (going_quiet _ _ _ _ G7 Q8) as (? & ? & _). split; [done|]. split; [done|]. intros _. exact (conserved_quiet _ _ Q8 C7).
Qed.
