(* ===== verification/SupervisorRequests.v ===== *)
(** * The requests of callers keep the invariant of the supervisor

    Scheduling an entry, releasing an interest, and taking completions and observations,
    from the invariant of [SupervisorInv].  The callers hold references to the entries they
    ask for, and the references and charges of the completions they have taken. *)

From S2P Require Import Prelude Stateful Dll TimeUtil Metrics ResolverUtil Cache Ipc IpcAssembly Helper Supervisor SupervisorDelay SupervisorInv SupervisorJobs SupervisorHelpers SupervisorSteps SupervisorReplies SupervisorTimers.
From stdpp Require Import gmap.
#[local] Open Scope Z_scope.
#[local] Abbreviation prog := (prog world).

(** ** Finding a job *)

Lemma wp_chain_find id chain w (Q : option Z -> world -> Prop) : (forall p, p ∈ chain -> is_Some (jobs_of w !! p)) ->
  (forall p j, p ∈ chain -> jobs_of w !! p = Some j -> j_entry j = Some id -> Q (Some p) w) ->
  ((forall p j, p ∈ chain -> jobs_of w !! p = Some j -> j_entry j <> Some id) -> Q None w) -> wp (chain_find id chain) Q w.
Proof.
  intros H Hs Hn. induction chain as [|p chain IH]; cbn [chain_find]; [step; apply Hn; by intros p j Hp%list.elem_of_nil|].
  destruct (H p) as [j Hj]; [by left|]. step. eapply wp_job_get; [done|]. case_bool_decide as E; [step; eapply Hs; [by left|done|done]|].
  apply IH; [intros q Hq; apply H; by right|intros q k Hq; apply Hs; by right|]. intros Hno. apply Hn. intros q k [->|Hq]%list.elem_of_cons Hk; [congruence|by eapply Hno].
Qed.
Lemma wp_job_find g w id e (Q : option Z -> world -> Prop) : inv g w -> entry_get (w_cache w) id = Some e ->
  (forall p j, jobs_of w !! p = Some j -> j_entry j = Some id -> Q (Some p) w) ->
  ((forall p j, jobs_of w !! p = Some j -> j_entry j <> Some id) -> Q None w) -> wp (resolver_supervisor_job_find (Some id)) Q w.
Proof.
  intros Hi He Hs Hn. unfold resolver_supervisor_job_find. step. eapply wp_bucket; [done|]. do 3 step. destruct (bucket_exists _ _ id Hi) as [chain Hc]. eapply wp_lift; [done|].
  pose proof (fun p => th_place _ _ (i_table _ _ Hi) _ _ p Hc) as Hp. apply wp_chain_find.
  - intros p Hin. apply (table_job g w); [done|]. eapply sublist_subseteq; [by eapply bucket_sublist|done].
  - intros p j _. by apply Hs.
  - intros Hno. apply Hn. intros p j Hj Hid. apply (Hno p j); [|done|done]. apply Hp. exists id. split; [|done]. rewrite lookup_fmap, Hj. cbn. by rewrite Hid.
Qed.

(** A caller that holds a reference to an entry. *)
Lemma held_entry g w id : inv g w -> id ∈ g_refs g -> exists e, entry_get (w_cache w) id = Some e.
Proof. intros Hi Hin. destruct (holds_entry _ _ id (i_refs _ _ Hi)) as (e & He & _); [apply elem_of_app; by left|]. by exists e. Qed.

(** ** Releasing an interest *)

Lemma inv_settle_gone g w p : inv g w -> g_unsettled g = Some p -> jobs_of w !! p = None -> inv (g <| g_unsettled := None |>) w.
Proof.
  intros [H1 H2 H3 H4 H5 H6 H7 H8 H9 H10 H11 H12 H13 H14 H15 H16 H17] Hu Hp. split; try assumption. intros q k Hk. destruct (H9 q k Hk) as [A1 A2]. split; [done|].
  intros _. apply A2. rewrite Hu. intros [= <-]. congruence.
Qed.

(** The job is being changed, what it is to be is said by [j']. *)
Lemma inv_put_unsettled g w p j j' : inv g w -> g_unsettled g = Some p -> jobs_of w !! p = Some j -> same_links j j' -> same_place j j' -> interests_ok j' ->
  response_kept j' -> job_times j' -> inv g (put_job p j' w).
Proof. intros Hi Hu Hj Hl Hp HI HR HT. eapply inv_put_job; [done|done|done|by right|done|by intros []|done|done]. Qed.

Definition no_interest (j : job) : Prop := j_background_interest_count j = 0 /\ j_interactive_interest_count j = 0 /\ j_orphaned j = false.

Lemma wp_orphan g w p j : inv g w -> g_hand g = None -> g_unsettled g = Some p -> jobs_of w !! p = Some j -> j_state j = RESOLVER_SUPERVISOR_JOB_DISPATCHED -> no_interest j ->
  wp (job_set p (fun j => j <| j_orphaned := true |>) ;; resolver_supervisor_job_priority_downgrade p ;; mret true)
    (fun _ w' => holding (g <| g_unsettled := None |>) w' /\ steady w w') w.
Proof.
  intros Hi Hh Hu Hj Hs (B1 & B2 & B3). step. eapply wp_job_set; [done|]. set (j1 := j <| j_orphaned := true |>). destruct (i_times _ _ Hi) as (_ & T & _).
  assert (Hi1 : inv g (put_job p j1 w)).
  { eapply inv_put_unsettled; [exact Hi|done|exact Hj|done|done|exact (inv_interests _ _ _ _ Hi Hj)|exact (i_responses _ _ Hi p j Hj)|exact (T p j Hj)]. }
  step. eapply wp_mono; [eapply (wp_downgrade g _ p j1); [done|done|done|apply put_lookup| |]|].
  - split; [unfold j1; cbn; by rewrite Hs|]. split; [|intros _; exact Hs]. split; [intros _; exact (conj B1 B2)|done].
  - change (0 < j_interactive_interest_count j -> j_priority j = RESOLVER_SUPERVISOR_PRIORITY_INTERACTIVE). lia.
  - cbv beta. intros _ w2 (H2 & S2). step. split; [done|]. eapply steady_trans; [apply put_steady|exact S2].
Qed.

Lemma wp_unqueue g w p j : inv g w -> g_hand g = None -> g_unsettled g = Some p -> jobs_of w !! p = Some j -> with_helper (j_state j) = false ->
  wp (resolver_supervisor_job_destroy (Some p)) (fun _ w' => holding (g <| g_unsettled := None |>) w' /\ steady w w') w.
Proof.
  intros Hi Hh Hu Hj Hs. eapply wp_mono; [eapply wp_job_destroy_placed; [exact Hi|done|exact Hj|by apply no_job_loose_free|done]|]. cbv beta. intros _ w1 ((q & d & H1) & S1 & _ & E1).
  split; [|done]. exists q, d. apply (inv_settle_gone (g <| g_queue := q |> <| g_done := d |>) w1 p H1 Hu). apply fmap_None with (f := j_entry). rewrite <- lookup_fmap.
  change (entries_of w1 !! p = None). rewrite E1. apply lookup_delete_eq.
Qed.

(** The request of a helper that is sending is given up with the job. *)
Lemma wp_unsend g w p j i h : inv g w -> g_hand g = None -> g_loose g = unbound -> g_unsettled g = Some p -> jobs_of w !! p = Some j ->
  j_state j = RESOLVER_SUPERVISOR_JOB_SENDING -> helpers_of w !! i = Some h -> h_job h = Some p ->
  wp (updated ← (helper_set i (fun h => h <| h_job := None |> <| h_request_size := 0 |> <| h_state := RESOLVER_SUPERVISOR_HELPER_IDLE |>) ;;
        updated ← resolver_supervisor_helper_events_update i; job_set p (fun j => j <| j_query_id := 0 |>) ;; mret updated);
      resolver_supervisor_job_destroy (Some p) ;; mret updated)
    (fun (_ : bool) w' => holding (g <| g_unsettled := None |>) w' /\ aside i w w') w.
Proof.
  intros Hi Hh Hl Hu Hj Hs Hhi Hp. assert (Hli : g_loose g i = false) by (by rewrite Hl).
  destruct (helper_job_here _ _ _ _ _ _ _ _ (i_helpers _ _ Hi) Hhi Hli Hp) as (j' & Hj' & _ & _ & Hf & Hph & _). clear j' Hj'.
  pose proof (inv_take_busy _ _ _ _ _ Hi Hh Hhi Hli Hp) as Hi0. set (g0 := g <| g_hand := Some p |> <| g_loose ::= set_loose i true |>) in *.
  assert (Hl0 : g_loose g0 i = true) by (cbn; unfold set_loose; by rewrite bool_decide_eq_true_2).
  do 2 step. eapply wp_helper_set; [done|]. set (h1 := h <| h_job := None |> <| h_request_size := 0 |> <| h_state := _ |>). destruct (inv_helper_times _ _ _ _ Hi Hhi) as [T1 T2].
  assert (Hi1 : inv g0 (put_helper i h1 w)).
  { eapply inv_put_helper; [exact Hi0|exact Hhi|done|intros _; exact (inv_process g w i h Hi Hhi Hf)|left; split; [done|by left]|done|done]. }
  pose proof (put_helper_lookup i h h1 w Hhi) as Hh1. step. eapply wp_mono; [by eapply wp_events_update|]. cbv beta. intros updated w2 (Hi2 & S2 & _).
  assert (Hj2 : jobs_of w2 !! p = Some j) by (by rewrite (sw_jobs _ _ S2)). assert (Hh2 : helpers_of w2 !! i = Some h1) by (by rewrite (sw_helpers _ _ S2)).
  step. eapply wp_job_set; [done|]. set (j1 := j <| j_query_id := 0 |>). do 2 step. destruct (i_times _ _ Hi) as (_ & T & _).
  assert (Hi3 : inv g0 (put_job p j1 w2)).
  { eapply inv_put_unsettled; [exact Hi2|done|exact Hj2|done|done|exact (inv_interests _ _ _ _ Hi Hj)|exact (i_responses _ _ Hi p j Hj)|exact (T p j Hj)]. }
  eapply wp_mono; [eapply (wp_job_destroy_hand g0); [exact Hi3|done|apply put_lookup| |unfold j1; cbn; by rewrite Hs|unfold j1; cbn; by rewrite Hs]|].
  - intros k x Hk. change (helpers_of w2 !! k = Some x) in Hk. rewrite (sw_helpers _ _ S2) in Hk. apply helpers_lookup_put in Hk as [[-> ->]|[Hne Hk]]; [done|].
    cbn. unfold set_loose. by rewrite bool_decide_eq_false_2, Hl.
  - cbv beta. intros _ w3 (Hi4 & S4 & _ & J4). step. split.
    + assert (Hn : jobs_of w3 !! p = None) by (rewrite J4; apply lookup_delete_eq). pose proof (inv_settle_gone _ _ _ Hi4 Hu Hn) as Hi5.
      assert (Hh3 : helpers_of w3 !! i = Some h1) by (by rewrite (st_helpers _ _ S4)).
      pose proof (inv_settle_idle _ _ i h1 Hi5 Hh3 eq_refl ltac:(by split) ltac:(done)) as Hi6.
      assert (C : calm (g <| g_unsettled := None |>)) by (by split). apply (calm_back _ _ (Some p) i C). by apply inv_holding.
    + eapply aside_trans; [apply (helper_step_aside i h1), helper_step_put|]. eapply aside_trans; [by apply still_aside|]. eapply aside_trans; [apply steady_aside, (put_steady p j1)|by apply steady_aside].
Qed.

Lemma wp_assoc2 {A B C D} (m : prog A) (n : A -> prog B) (f : A -> B -> prog C) (k : C -> prog D) (Q : D -> world -> Prop) w :
  wp ((m ≫= fun a => n a ≫= fun b => f a b) ≫= k) Q w -> wp (m ≫= fun a => n a ≫= fun b => f a b ≫= k) Q w.
Proof. unfold wp, mbind, prog_bind. destruct (m w) as [[a w1]|]; [|done]. by destruct (n a w1) as [[b w2]|]. Qed.

(** The end of a request: dispatch and the timer. *)
Lemma wp_request_end {A} g w0 w now (f : bool -> A) : going g w0 w -> valid now ->
  wp (resolver_supervisor_dispatch now ;; armed ← resolver_supervisor_timer_rearm; mret (f armed)) (fun _ w' => going g w0 w' /\ conserved w') w.
Proof.
  intros G Hnow. step. eapply wp_mono; [by apply (wp_dispatch_running g w0)|]. cbv beta. intros _ w1 [G1 C1]. step. apply wp_quietly; [apply (quietly_rearm g), G1|].
  intros b w2 Q. step. split; [by eapply going_quiet|by eapply conserved_quiet].
Qed.

Lemma going_aside g i w w1 w2 : going g w w1 -> holding g w2 -> aside i w1 w2 -> going g w w2.
Proof. intros G H A. by eapply going_kept. Qed.

Lemma interest_less pr j : interests_ok j -> interest_count pr j <> 0 -> interests_ok (interest_add pr (-1) j).
Proof. unfold interests_ok. destruct pr; cbn; lia. Qed.

(** The interest is taken from the job; without any the job goes, or is an orphan. *)
Lemma wp_released g w p j priority : inv g w -> calm g -> jobs_of w !! p = Some j -> j_state j <> RESOLVER_SUPERVISOR_JOB_COMPLETE -> interest_count priority j <> 0 ->
  let sending := bool_decide (j_state j = RESOLVER_SUPERVISOR_JOB_SENDING) in
  (sending = true -> helpers_of w !! Z.to_nat (j_slot_index j) ≫= h_job = Some p) ->
  wp (job_set p (interest_add priority (-1)) ;; j ← job_get p;
      if (j_background_interest_count j =? 0) && (j_interactive_interest_count j =? 0)
      then uninteresting p (if sending then Some (Z.to_nat (j_slot_index j)) else None)
      else resolver_supervisor_job_priority_downgrade p ;; mret true)
    (fun _ w' => holding g w' /\ exists i, aside i w w') w.
Proof.
  intros Hi Hc Hj Hs Hn sending Hsend. step. eapply wp_job_set; [done|]. set (j1 := interest_add priority (-1) j). destruct (i_interests _ _ Hi p j Hj) as [I1 I2].
  assert (Hset : settled j) by (apply I2; by rewrite (ca_unsettled _ Hc)). unfold settled in Hset. rewrite bool_decide_eq_false_2 in Hset by done. destruct Hset as (S1 & S2 & S3).
  destruct (i_times _ _ Hi) as (_ & T & _). pose proof (inv_unsettle g w p Hi (ca_unsettled _ Hc)) as Hu. set (g1 := g <| g_unsettled := Some p |>) in *.
  assert (E1 : j_state j1 = j_state j /\ j_slot_index j1 = j_slot_index j /\ j_orphaned j1 = j_orphaned j /\ j_priority j1 = j_priority j) by (unfold j1; by destruct priority).
  destruct E1 as (E1 & E2 & E3 & E4). assert (Ho : j_orphaned j = false).
  { destruct (j_orphaned j); [|done]. destruct S2 as [S2 _]. destruct (S2 eq_refl). destruct priority; cbn in Hn; lia. }
  assert (Hi1 : inv g1 (put_job p j1 w)).
  { eapply inv_put_unsettled; [exact Hu|done|exact Hj|unfold j1; by destruct priority|by split| | |].
    - by apply interest_less.
    - unfold response_kept. rewrite E1. intros H. replace (j_response j1) with (j_response j) by (unfold j1; by destruct priority). by apply (i_responses _ _ Hi p j Hj).
    - pose proof (T p j Hj). unfold j1; by destruct priority. }
  assert (Hback : forall w', holding (g1 <| g_unsettled := None |>) w' -> holding g w').
  { intros w' H. destruct Hc as [C1 C2 C3]. unfold g1 in H. destruct g; cbn in *. by subst. }
  assert (P1 : steady w (put_job p j1 w)) by apply put_steady. pose proof (put_lookup p j1 w) as Hj1.
  assert (Hh1 : helpers_of (put_job p j1 w) = helpers_of w) by done. revert Hi1 P1 Hj1 Hh1. generalize (put_job p j1 w). intros w1 Hi1 P1 Hj1 Hh1.
  step. eapply wp_job_get; [done|]. step.
  - apply andb_true_iff in E as [B1 B2]. unfold uninteresting. step. eapply wp_job_get; [done|]. case_bool_decide as Ed.
    + eapply wp_mono; [eapply wp_orphan; [exact Hi1|apply Hc|done|done|done|split; [lia|split; [lia|congruence]]]|]. cbv beta. intros _ w2 (H2 & S). split; [by apply Hback|].
      exists 0%nat. exact (aside_trans _ _ _ _ (steady_aside _ _ _ P1) (steady_aside _ _ _ S)).
    + subst sending. case_bool_decide as Es.
      * specialize (Hsend eq_refl). rewrite <- E2 in *. destruct (helpers_of w !! Z.to_nat (j_slot_index j1)) as [h|] eqn:Eh; [|done]. cbn in Hsend.
        eapply wp_mono; [eapply (wp_unsend g1 w1 p j1 _ h); [exact Hi1|apply Hc|apply Hc|done|done|congruence|by rewrite Hh1|done]|].
        cbv beta. intros b w2 (H2 & A2). split; [by apply Hback|]. eexists. exact (aside_trans _ _ _ _ (steady_aside _ _ _ P1) A2).
      * do 3 step. eapply wp_mono; [eapply wp_unqueue; [exact Hi1|apply Hc|done|done|]|].
        { rewrite <- E1 in Es, Hs. by destruct (j_state j1). }
        cbv beta. intros _ w2 (H2 & S). step. split; [by apply Hback|]. exists 0%nat. exact (aside_trans _ _ _ _ (steady_aside _ _ _ P1) (steady_aside _ _ _ S)).
  - step. eapply wp_mono; [eapply (wp_downgrade g1 w1 p j1); [done|apply Hc|done|done| |]|].
    + split; [by rewrite E1|]. rewrite E3, Ho. split; [|done]. split; [done|]. intros [X1 X2]. lia.
    + rewrite E4. intros Hp. apply S1. unfold j1 in Hp. destruct I1 as [_ I1]. destruct priority; cbn in Hp; lia.
    + cbv beta. intros _ w2 (H2 & S). step. split; [by apply Hback|]. exists 0%nat. exact (aside_trans _ _ _ _ (steady_aside _ _ _ P1) (steady_aside _ _ _ S)).
Qed.

(** What the operations of the callers promise. *)
Definition request_end (g : ghost) (w w' : world) : Prop := running g w' /\ s_shutting_down (w_supervisor w') = s_shutting_down (w_supervisor w).
Lemma going_request g w w' : going g w w' -> request_end g w w'.
Proof. intros (R & D & _). by split. Qed.
Lemma going_timed g w t : running g w -> valid t -> going g (timed t w) (timed t w).
Proof. intros R Ht. apply going_refl. by apply running_timed. Qed.

Lemma wp_entry_release_priority g w id now priority : running g w -> clock now -> id ∈ g_refs g ->
  wp (resolver_supervisor_entry_release true (Some id) now priority) (fun status w' => request_end g w w' /\ (status = RESOLVER_SUPERVISOR_RELEASE_OK -> conserved w')) w.
Proof.
  intros Hr Hc Hid. unfold resolver_supervisor_entry_release. do 2 step. destruct now as [t|]; [|by step]. destruct (s_shutting_down (w_supervisor w)) eqn:Ed; [step; by split|].
  step. apply wp_time_update; [done|cbn [negb]; step; by split|]. intros t' [= <-] Ht _. cbn [negb]. pose proof (running_timed _ _ _ Hr Ht) as Hr1. set (w1 := timed t w) in *.
  eapply (wp_mono _ (fun status w' => request_end g w1 w' /\ (status = RESOLVER_SUPERVISOR_RELEASE_OK -> conserved w'))); [|by intros a w' [[? ?] ?]]. assert (Hw : going g w1 w1) by done. clearbody w1. clear Hr Ed w. destruct Hr1 as [(q & d & Hi) Hcalm Hph].
  pose proof (calm_lists g q d Hcalm) as Hc0. destruct (held_entry _ _ id Hi Hid) as [e He]. step. eapply wp_job_find; [exact Hi|done| |].
  2:{ intros _. step. split; [by apply going_request|done]. }
  intros p j Hj Hje. step. eapply wp_job_get; [done|]. case_bool_decide as Es; [step; split; [by apply going_request|done]|]. step; [step; split; [by apply going_request|done]|]. do 2 step. cbv zeta.
  step; [step; split; [by apply going_request|done]|].
  assert (Hsend : bool_decide (j_state j = RESOLVER_SUPERVISOR_JOB_SENDING) = true -> helpers_of w1 !! Z.to_nat (j_slot_index j) ≫= h_job = Some p).
  { intros X. rewrite X in E0. cbn [andb] in E0. apply orb_false_iff in E0 as [_ E0%negb_false_iff%bool_decide_eq_true]. done. }
  apply wp_assoc2. step. eapply wp_mono; [eapply wp_released; [exact Hi|done|exact Hj|done|lia|done]|]. cbv beta. intros updated w2 (H2 & i & A2).
  eapply wp_mono; [apply (wp_request_end g w1 w2); [|done]|intros a w3 [G3 C3]; split; [by apply going_request|done]].
  eapply going_aside; [exact Hw|exact (holding_lists _ _ _ _ H2)|exact A2].
Qed.

(** ** A new job *)

Lemma holds_retain c id e l : holds c l -> entry_get c id = Some e ->
  exists c' b, resolver_cache_entry_retain c (Some id) = Some (c', b) /\ if b : bool then holds c' (id :: l) else c' = c.
Proof.
  intros [Hok H] He. unfold resolver_cache_entry_retain. rewrite He. cbn [mbind option_bind]. destruct (e_reference_count e =? SIZE_MAX) eqn:E; [by eexists _, _|].
  eexists _, true. split; [done|]. split; [apply retain_spec; [done|done|lia]|]. intros k. rewrite references_set. specialize (H k). destruct (k =? id) eqn:Ek; cbn [andb].
  - apply Z.eqb_eq in Ek as ->. rewrite He, bool_decide_eq_true_2, count_occ_cons_eq by done. unfold references_of in H. rewrite He in H. lia.
  - rewrite count_occ_cons_neq by lia. done.
Qed.

Lemma job_refs_insert entries p id : entries !! p = None -> job_refs (<[p := Some id]> entries) ≡ₚ id :: job_refs entries.
Proof. intros Hp. unfold job_refs. by rewrite map_to_list_insert. Qed.
Lemma job_handles_insert owned p r : owned !! p = None -> job_handles (<[p := (None, r)]> owned) ≡ₚ job_handles owned.
Proof. intros Hp. unfold job_handles. by rewrite map_to_list_insert. Qed.
Lemma job_charges_insert owned p a r : owned !! p = None -> rt_budget r = false -> job_charges (<[p := (a, r)]> owned) ≡ₚ job_charges owned.
Proof. intros Hp Hr. unfold job_charges. rewrite map_to_list_insert by done. cbn. unfold charge at 1. by rewrite Hr. Qed.

Lemma concat_insert_cons (buckets : list (list Z)) i chain p : buckets !! i = Some chain -> concat (<[i := p :: chain]> buckets) ≡ₚ p :: concat buckets.
Proof.
  revert i. induction buckets as [|b buckets IH]; intros i Hi; [done|]. destruct i as [|i]; cbn in *; [by injection Hi as ->|]. rewrite IH by done. by rewrite Permutation_middle.
Qed.
Lemma table_insert entries buckets p id chain : table_holds entries buckets -> entries !! p = None -> (forall q, entries !! q <> Some (Some id)) ->
  buckets !! bucket_of id = Some chain -> table_holds (<[p := Some id]> entries) (<[bucket_of id := p :: chain]> buckets).
Proof.
  intros [H1 H2 H3 H4 H5] Hp Hid Hc. split.
  - by rewrite length_insert.
  - rewrite (concat_insert_cons _ _ chain) by done. apply list.NoDup_cons. split; [|done]. intros Hin. apply list_elem_of_In, in_concat in Hin as (x & Hx & Hin).
    apply list_elem_of_In, list_elem_of_lookup in Hx as [i Hi]. apply list_elem_of_In in Hin. apply (H3 i x p Hi) in Hin as (id' & He & _). congruence.
  - intros i chain' q Hi. rewrite list_lookup_insert_Some in Hi. destruct Hi as [(<- & <- & _)|[Hne Hi]].
    + rewrite list.elem_of_cons, (H3 _ _ q Hc). split.
      * intros [->|(id' & Hq & E)]; [exists id; by rewrite lookup_insert_eq|]. exists id'. rewrite lookup_insert_ne; [done|]. by intros ->; congruence.
      * intros (id' & Hq & E). apply lookup_insert_Some in Hq as [[-> _]|[_ Hq]]; [by left|right; by exists id'].
    + rewrite (H3 _ _ q Hi). split; intros (id' & Hq & E); exists id'.
      * split; [|done]. rewrite lookup_insert_ne; [done|]. by intros ->; congruence.
      * split; [|done]. apply lookup_insert_Some in Hq as [[_ [= ->]]|[_ Hq]]; [by subst|done].
  - intros q o Hq%lookup_insert_Some. destruct Hq as [[_ <-]|[_ Hq]]; [by eexists|by eapply H4].
  - intros q r id' Hq%lookup_insert_Some Hr%lookup_insert_Some. destruct Hq as [[<- [= <-]]|[_ Hq]], Hr as [[<- Hr']|[_ Hr]]; [done|by apply Hid in Hr| |by eapply H5].
    injection Hr' as ->. by apply Hid in Hq.
Qed.

Lemma queues_enrol queue jobs select p j : jobs !! p = None -> queues_ok None queue jobs select -> j_queue_previous j = None -> j_queue_next j = None ->
  queues_ok (Some p) queue (<[p := j]> jobs) select.
Proof.
  intros Hp Hq Hpr Hnx. assert (Hn : forall pr, p ∉ queue pr) by (intros pr Hin; destruct (queue_elem_job _ _ _ _ pr p Hq Hin); congruence). destruct Hq as [H0 H1 H2 H3]. split; [|done| |].
  - intros pr. eapply dll_ext; [|apply H0]. intros x Hx. unfold queue_links. rewrite fmap_insert, lookup_insert_ne; [done|]. intros <-. by apply (Hn pr).
  - intros q k [[-> ->]|[Hne Hk]]%lookup_put Hh; [congruence|]. by apply H2.
  - intros q k [[-> ->]|[Hne Hk]]%lookup_put Hh; [done|]. by injection Hh as ->.
Qed.
Lemma completions_insert completed jobs head tail p j : jobs !! p = None -> completions_ok None completed jobs head tail -> j_completion_previous j = None ->
  j_completion_next j = None -> completions_ok (Some p) completed (<[p := j]> jobs) head tail.
Proof.
  intros Hp Hq Hpr Hnx. assert (Hn : p ∉ completed) by (intros Hin; destruct (completion_elem_job _ _ _ _ _ p Hq Hin); congruence). destruct Hq as [H0 H2 H3]. split.
  - eapply dll_ext; [|apply H0]. intros x Hx. unfold completion_links. rewrite fmap_insert, lookup_insert_ne; [done|]. by intros <-.
  - intros q k [[-> ->]|[Hne Hk]]%lookup_put Hh; [congruence|]. by apply H2.
  - intros q k [[-> ->]|[Hne Hk]]%lookup_put Hh; [done|]. by injection Hh as ->.
Qed.
Lemma helpers_insert phase loose jobs helpers p j : jobs !! p = None -> helpers_ok phase None loose jobs helpers -> helpers_ok phase (Some p) loose (<[p := j]> jobs) helpers.
Proof.
  intros Hp [H1 H2 H3 H4 H5]. split; [done| | | |].
  - intros i h Hi Hl. specialize (H2 i h Hi Hl). unfold helper_fits in *. assert (Hne : forall q k, jobs !! q = Some k -> q <> p) by (intros q k Hk ->; congruence).
    destruct (h_state h); try done; destruct H2 as [(q & k & A1 & A2 & A3 & A4 & A5) B2]; (split; [|done]); exists q, k; pose proof (Hne q k A3);
      (split; [done|]); (split; [congruence|]); by rewrite lookup_insert_ne.
  - intros i h Hi Hl. left. by destruct (H3 i h Hi Hl).
  - intros q k [[-> ->]|[Hne Hk]]%lookup_put Hh; [congruence|]. by apply H4.
  - intros q k [[-> ->]|[Hne Hk]]%lookup_put Hh; [congruence|]. by apply (H5 q).
Qed.

(** The job as it is entered, before it is queued. *)
Definition new_job (entry : Z) (now : timespec) (priority : resolver_supervisor_priority) : job :=
  job_zero <| j_entry := Some entry |>
    <| j_background_interest_count := match priority with RESOLVER_SUPERVISOR_PRIORITY_BACKGROUND => 1 | RESOLVER_SUPERVISOR_PRIORITY_INTERACTIVE => 0 end |>
    <| j_interactive_interest_count := match priority with RESOLVER_SUPERVISOR_PRIORITY_INTERACTIVE => 1 | RESOLVER_SUPERVISOR_PRIORITY_BACKGROUND => 0 end |>
    <| j_priority := priority |> <| j_dispatch_wait_at := now |> <| j_slot_index := SIZE_MAX |>.
Definition enrolled (p : Z) (j : job) (bucket : nat) (chain : list Z) (w : world) : world :=
  w <| w_supervisor ::= (fun s => s <| s_jobs ::= <[p := j]> |> <| s_buckets ::= <[bucket := p :: chain]> |> <| s_job_count ::= Z.succ |>) |>.

Lemma new_job_ok id now pr : interests_ok (new_job id now pr) /\ settled (new_job id now pr) /\ job_times (new_job id now pr) /\ response_kept (new_job id now pr).
Proof.
  split; [unfold interests_ok, SIZE_MAX; by destruct pr|]. split; [unfold settled; rewrite bool_decide_eq_false_2 by done; cbn; destruct pr; cbn; (split; [|split]; [|split|]); try done; try lia|].
  split; [split; [apply valid_zero|]; split; [apply valid_zero|]; by split; [apply valid_zero|]|done].
Qed.
Lemma state_same (j : job) st : j_state j = st -> j <| j_state := st |> = j.
Proof. intros <-. by destruct j. Qed.
Lemma new_job_queue g p id now pr : can_queue g p (new_job id now pr).
Proof. destruct (new_job_ok id now pr) as (_ & N2 & _). split; [done|]. split; [done|]. intros _. by rewrite state_same. Qed.

Lemma inv_enrolled g w p id now pr chain : inv (g <| g_refs := id :: g_refs g |>) w -> g_hand g = None -> jobs_of w !! p = None -> p < k_next (w_kernel w) ->
  (forall q j, jobs_of w !! q = Some j -> j_entry j <> Some id) -> s_buckets (w_supervisor w) !! bucket_of id = Some chain ->
  s_job_count (w_supervisor w) < RESOLVER_SUPERVISOR_JOB_LIMIT -> inv (g <| g_hand := Some p |>) (enrolled p (new_job id now pr) (bucket_of id) chain w).
Proof.
  intros [H1 H2 H3 H4 H5 H6 H7 H8 H9 H10 (H11 & H11' & H11'') H12 H13 H14 H15 H16 H17] Hh Hp Hlt Hno Hc Hcount. cbn in Hh, H1, H2, H7. rewrite Hh in *.
  destruct (new_job_ok id now pr) as (N1 & N2 & N3 & N4). revert N1 N2 N3 N4. assert (E : j_entry (new_job id now pr) = Some id /\ j_assembly (new_job id now pr) = None /\ j_response (new_job id now pr) = result_zero /\
    j_queue_previous (new_job id now pr) = None /\ j_queue_next (new_job id now pr) = None /\ j_completion_previous (new_job id now pr) = None /\ j_completion_next (new_job id now pr) = None) by done.
  revert E. generalize (new_job id now pr). intros j (E1 & E2 & E3 & E4 & E5 & E6 & E7) N1 N2 N3 N4.
  assert (Hl : (j_entry <$> jobs_of w) !! p = None) by (by rewrite lookup_fmap, Hp).
  assert (Ho : ((fun j => (j_assembly j, j_response j)) <$> jobs_of w) !! p = None) by (by rewrite lookup_fmap, Hp).
  split; cbn; rewrite ?fmap_insert, ?E1, ?E2, ?E3; try assumption.
  - by apply queues_enrol.
  - by apply completions_insert.
  - apply table_insert; [done|done| |done]. intros q. rewrite lookup_fmap. destruct (jobs_of w !! q) as [k|] eqn:Ek; [|done]. intros [= Hk]. by eapply Hno.
  - eapply references_perm; [|exact H4]. rewrite job_refs_insert by done. cbn. by rewrite Permutation_middle.
  - destruct H5 as (b & taken & B1 & B2 & B3 & B4 & B5). exists b, taken. split; [done|]. split; [done|]. by rewrite job_charges_insert, job_handles_insert.
  - by apply helpers_insert.
  - intros q k [[-> ->]|[Hne Hk]]%lookup_put; [done|]. by apply H9.
  - intros q k [[-> ->]|[Hne Hk]]%lookup_put; [done|]. by eapply H10.
  - split; [done|]. split; [|done]. intros q k [[-> ->]|[Hne Hk]]%lookup_put; [done|]. by eapply H11'.
  - intros q [= <-]. by rewrite lookup_insert_eq.
  - intros q Hq. destruct (decide (q = p)) as [->|Hne]; [done|]. apply H13. by rewrite lookup_insert_ne in Hq.
  - rewrite map_size_insert_None by done. lia.
Qed.

Lemma cache_same w : w <| w_cache := w_cache w |> = w.
Proof. by destruct w. Qed.
Lemma fresh_quiet w : quiet w (w <| w_kernel ::= (fun k => k <| k_next ::= Z.succ |>) |>).
Proof. apply quiet_kernel. split; cbn; try done. lia. Qed.
Lemma inv_fresh g w : inv g w -> jobs_of w !! k_next (w_kernel w) = None.
Proof. intros Hi. destruct (jobs_of w !! k_next (w_kernel w)) eqn:E; [|done]. pose proof (i_addresses _ _ Hi (k_next (w_kernel w)) ltac:(by rewrite E)). lia. Qed.

Lemma steady_cache c w : steady w (w <| w_cache := c |>).
Proof. by split. Qed.
Lemma wp_query_type_counted {A} g w id e c (a : A) : going g w w -> entry_get (w_cache w) id = Some e ->
  wp (query ← resolver_supervisor_metrics_query_type (Some id); resolver_supervisor_metrics_increment (c query) ;; mret a) (fun b w' => going g w w' /\ b = a) w.
Proof.
  intros G He. step. apply wp_quietly; [by eapply quietly_query_type|]. intros q w1 Q1. step. apply wp_quietly; [auto with quiet|]. intros _ w2 Q2. step.
  split; [|done]. eapply going_quiet; [by eapply going_quiet|done].
Qed.

(** The job is entered and queued. *)
Lemma wp_enroll {B} g w id e now pr (rest : prog B) (Q : B -> world -> Prop) : inv (g <| g_refs := id :: g_refs g |>) w -> calm g -> (forall q j, jobs_of w !! q = Some j -> j_entry j <> Some id) ->
  s_job_count (w_supervisor w) < RESOLVER_SUPERVISOR_JOB_LIMIT -> entry_get (w_cache w) id = Some e -> (forall w', holding g w' -> steady w w' -> wp rest Q w') ->
  wp (job ← fresh_address; bucket ← resolver_supervisor_job_bucket (Some id); s ← supervisor; chain ← lift (s_buckets s !! bucket);
      on_supervisor (fun s => s <| s_jobs ::= <[job := new_job id now pr]> |> <| s_buckets ::= <[bucket := job :: chain]> |> <| s_job_count ::= Z.succ |>) ;;
      s ← supervisor; on_metrics (fun m => m <| me_jobs_high_water ::= (fun high => metrics_high_water_update high (s_job_count s)) |>) ;;
      resolver_supervisor_job_queue_append job ;; rest) Q w.
Proof.
  intros Hi Hc Hno Hcount He Hrest. unfold fresh_address. do 5 step. set (w1 := w <| w_kernel ::= _ |>). step. pose proof (fresh_quiet w) as Q1. fold w1 in Q1.
  pose proof (inv_quiet _ _ _ Q1 Hi) as Hi1. assert (Hp : jobs_of w1 !! k_next (w_kernel w) = None) by exact (inv_fresh _ _ Hi).
  assert (Hk : k_next (w_kernel w) < k_next (w_kernel w1)) by (cbn; lia). assert (Hno1 : forall q j, jobs_of w1 !! q = Some j -> j_entry j <> Some id) by exact Hno.
  assert (Hc1 : s_job_count (w_supervisor w1) < RESOLVER_SUPERVISOR_JOB_LIMIT) by exact Hcount. assert (He1 : entry_get (w_cache w1) id = Some e) by exact He.
  revert Hp Hk. generalize (k_next (w_kernel w)). intros p Hp Hk. apply quiet_steady in Q1. clearbody w1. clear Hi Hno Hcount He. step. eapply wp_bucket; [done|]. do 3 step.
  destruct (bucket_exists _ _ id Hi1) as [chain Hch]. eapply wp_lift; [done|]. do 2 step. fold (enrolled p (new_job id now pr) (bucket_of id) chain w1).
  pose proof (inv_enrolled g w1 p id now pr chain Hi1 (ca_hand _ Hc) Hp Hk Hno1 Hch Hc1) as Hi2.
  assert (S2 : steady w1 (enrolled p (new_job id now pr) (bucket_of id) chain w1)) by (by split).
  assert (Hj2 : jobs_of (enrolled p (new_job id now pr) (bucket_of id) chain w1) !! p = Some (new_job id now pr)) by apply lookup_insert_eq.
  revert Hi2 S2 Hj2. generalize (enrolled p (new_job id now pr) (bucket_of id) chain w1). intros w2 Hi2 S2 Hj2. do 3 step. apply wp_quietly; [apply quietly_metrics|]. intros _ w3 Q3.
  pose proof (inv_quiet _ _ _ Q3 Hi2) as Hi3. rewrite <- (quiet_jobs _ _ Q3) in Hj2.
  pose proof (new_job_queue (g <| g_hand := Some p |>) p id now pr) as Hq. revert Hj2 Hq. generalize (new_job id now pr). intros j Hj2 Hq. step.
  eapply wp_mono; [eapply wp_queue_append; [exact Hi3|done|exact Hj2|exact Hq|]|].
  - intros k h Hk' Hl. rewrite (quiet_helpers _ _ Q3), (st_helpers _ _ S2) in Hk'. exact (no_job_loose_free _ _ Hi1 (ca_hand _ Hc) k h Hk' Hl).
  - cbv beta. intros _ w4 (Hi4 & Hl & _). apply Hrest.
    + apply (holding_of _ _ _ Hi4). destruct Hc as [C1 _ _]. destruct g; cbn in *. by rewrite C1.
    + eapply steady_trans; [exact Q1|]. eapply steady_trans; [exact S2|]. eapply steady_trans; [by apply quiet_steady|by apply lists_steady].
Qed.

Lemma wp_schedule_new g w id e now pr : running g w -> id ∈ g_refs g -> entry_get (w_cache w) id = Some e -> valid now ->
  (forall q j, jobs_of w !! q = Some j -> j_entry j <> Some id) ->
  wp (schedule_new id now pr) (fun status w' => going g w w' /\ (status = RESOLVER_SUPERVISOR_SCHEDULE_STARTED -> conserved w')) w.
Proof.
  intros Hr Hid He Hnow Hno. unfold schedule_new. do 2 step. cbv zeta. step; [eapply wp_mono; [by eapply wp_query_type_counted|by intros a w' [? ->]]|].
  assert (Hcount : s_job_count (w_supervisor w) < RESOLVER_SUPERVISOR_JOB_LIMIT) by (unfold RESOLVER_SUPERVISOR_JOB_LIMIT, RESOLVER_SUPERVISOR_INTERACTIVE_RESERVE in *; destruct pr; lia).
  step. apply wp_quietly; [auto with quiet|]. intros allocated w1 Q1. assert (G1 : going g w w1) by (by eapply going_quiet; [apply going_refl|]). step; [by step|].
  assert (R1 : running g w1) by apply G1. rewrite <- (quiet_jobs _ _ Q1) in Hno. rewrite <- (quiet_cache _ _ Q1) in He.
  assert (Hc1 : s_job_count (w_supervisor w1) < RESOLVER_SUPERVISOR_JOB_LIMIT) by (by destruct (quiet_supervisor _ _ Q1) as [m ->]).
  destruct R1 as [(q & d & Hi1) Hc Hph]. do 3 step. destruct (holds_retain _ _ _ _ (i_refs _ _ Hi1) He) as (c & b & Hrt & Hb).
  eapply wp_lift; [exact Hrt|]. cbv beta iota. do 2 step. destruct b; cbn [negb].
  - pose proof (inv_with_cache _ _ c (id :: g_refs g) Hi1 Hb) as Hi2.
    assert (He2 : exists e2, entry_get c id = Some e2) by (destruct (holds_entry _ _ id Hb) as (e2 & He2 & _); [by left|by exists e2]). destruct He2 as [e2 He2].
    eapply (wp_enroll (g <| g_queue := q |> <| g_done := d |>) _ id e2); [exact Hi2|by apply calm_lists|exact Hno|exact Hc1|exact He2|]. intros w3 H3 S3.
    eapply wp_mono; [apply (wp_request_end g w w3); [|done]|by intros a w4 [? ?]]. eapply going_steady; [exact G1|exact (holding_lists _ _ _ _ H3)|exact (steady_trans _ _ _ (steady_cache c w1) S3)].
  - subst c. rewrite cache_same. eapply wp_mono; [eapply (wp_query_type_counted g w1 id e); [apply going_refl, G1|done]|]. cbv beta. intros a w2 [(R2 & D2 & N2) ->].
    destruct G1 as (_ & D1 & N1). split; [|done]. split; [done|]. by rewrite D2, N2.
Qed.

Lemma interest_more pr j : interests_ok j -> (RESOLVER_SUPERVISOR_INTEREST_COUNT_LIMIT <=? interest_count pr j) = false -> interests_ok (interest_add pr 1 j <| j_orphaned := false |>).
Proof. unfold interests_ok, RESOLVER_SUPERVISOR_INTEREST_COUNT_LIMIT, SIZE_MAX. destruct pr; cbn; lia. Qed.

Lemma wp_schedule_existing g w id e p j pr : running g w -> entry_get (w_cache w) id = Some e -> jobs_of w !! p = Some j ->
  wp (schedule_existing id p pr) (fun status w' => going g w w' /\ status <> RESOLVER_SUPERVISOR_SCHEDULE_STARTED) w.
Proof.
  intros Hr He Hj. unfold schedule_existing. step. eapply wp_job_get; [done|]. case_bool_decide as Es; [by step|]. step; [eapply wp_mono; [by eapply wp_query_type_counted|by intros a w' [? ->]]|].
  assert (G : going g w w) by done. destruct Hr as [(q & d & Hi) Hc Hph]. set (g0 := g <| g_queue := q |> <| g_done := d |>) in *. pose proof (calm_lists g q d Hc) as Hc0. fold g0 in Hc0.
  step. eapply wp_job_set; [done|]. set (j1 := interest_add pr 1 j <| j_orphaned := false |>). destruct (i_interests _ _ Hi p j Hj) as [I1 I2].
  assert (Hset : settled j) by (apply I2; by rewrite (ca_unsettled _ Hc0)). unfold settled in Hset. rewrite bool_decide_eq_false_2 in Hset by done. destruct Hset as (S1 & S2 & S3).
  destruct (i_times _ _ Hi) as (_ & T & _). pose proof (inv_unsettle g0 w p Hi (ca_unsettled _ Hc0)) as Hu. set (g1 := g0 <| g_unsettled := Some p |>) in *.
  pose proof (interest_more pr j I1 E) as I3. assert (Hi1 : inv g1 (put_job p j1 w)).
  { eapply inv_put_unsettled; [exact Hu|done|exact Hj|unfold j1; by destruct pr|unfold j1; by destruct pr|exact I3| |].
    - pose proof (i_responses _ _ Hi p j Hj). unfold j1; by destruct pr.
    - pose proof (T p j Hj). unfold j1; by destruct pr. }
  assert (Hback : forall w', holding (g1 <| g_unsettled := None |>) w' -> holding g w').
  { intros w' H. apply (holding_lists g _ q d). fold g0. destruct Hc0 as [C1 C2 C3]. unfold g1 in H. clearbody g0. destruct g0; cbn in *. by subst. }
  assert (Ho : orphan_ok j1).
  { split; [unfold j1; by destruct pr|]. split; [|unfold j1; by destruct pr]. split; [unfold j1; by destruct pr|]. intros [X1 X2]. unfold interests_ok in I1. unfold j1 in X1, X2. destruct pr; cbn in X1, X2; lia. }
  assert (P1 : steady w (put_job p j1 w)) by apply put_steady. pose proof (put_lookup p j1 w) as Hj1. step. destruct pr.
  - do 2 step. split; [|done]. eapply going_steady; [exact G| |exact P1]. apply Hback, inv_holding. eapply inv_settle; [exact Hi1|done|exact Hj1|]. apply orphan_settled; [exact Ho|exact S1].
  - eapply wp_mono; [eapply (wp_promote g1 _ p j1); [exact Hi1|apply Hc0|done|exact Hj1|exact Ho|]|].
    + unfold interests_ok in I1. unfold j1. cbn. lia.
    + cbv beta. intros _ w2 (H2 & S). step. split; [|done]. eapply going_steady; [exact G|by apply Hback|exact (steady_trans _ _ _ P1 S)].
Qed.

(** ** Scheduling *)

Lemma holds_view c l id now : holds c l -> id ∈ l -> valid now ->
  exists c' v, resolver_cache_entry_view c (Some id) (Some now) = Some (c', Some v) /\ holds c' l.
Proof.
  intros Hh Hin Hnow. destruct (holds_entry _ _ _ Hh Hin) as (e & He & _). destruct (view_spec c id e now (proj1 Hh) He Hnow) as (c' & Hok & Hv). destruct (e_payload e) as [p|].
  2:{ destruct Hv as [Hv ->]. by eexists _, _. }
  destruct (ns now <? ns (p_expires_at p)); destruct Hv as [Hv Hc]; [subst c'; by eexists _, _|]. eexists _, _. split; [exact Hv|]. by eapply holds_payload.
Qed.

Lemma wp_schedule_priority g w id now pr : running g w -> clock now -> id ∈ g_refs g ->
  wp (resolver_supervisor_entry_schedule_priority true (Some id) now pr) (fun status w' => request_end g w w' /\ (status = RESOLVER_SUPERVISOR_SCHEDULE_STARTED -> conserved w')) w.
Proof.
  intros Hr Hc Hid. unfold resolver_supervisor_entry_schedule_priority. do 2 step. destruct now as [t|]; [|by step]. destruct (s_shutting_down (w_supervisor w)) eqn:Ed; [step; by split|].
  step. apply wp_time_update; [done|cbn [negb]; step; by split|]. intros t' [= <-] Ht _. cbn [negb]. pose proof (running_timed _ _ _ Hr Ht) as Hr1. set (w1 := timed t w) in *.
  eapply (wp_mono _ (fun status w' => request_end g w1 w' /\ (status = RESOLVER_SUPERVISOR_SCHEDULE_STARTED -> conserved w'))); [|by intros a w' [[? ?] ?]]. assert (G1 : going g w1 w1) by done. clearbody w1. clear Hr Ed w. destruct Hr1 as [(q & d & Hi) Hcalm Hph].
  destruct (held_entry _ _ id Hi Hid) as [e He]. do 3 step. assert (Hin : id ∈ g_refs g ++ job_refs (j_entry <$> jobs_of w1)) by (apply elem_of_app; by left).
  destruct (holds_view _ _ _ t (i_refs _ _ Hi) Hin Ht) as (c & v & Hv & Hh). destruct (holds_entry _ _ _ Hh Hin) as (e' & He' & _). eapply wp_lift; [exact Hv|].
  cbv beta iota. do 2 step. set (w2 := w1 <| w_cache := c |>). assert (Hi2 : inv (g <| g_queue := q |> <| g_done := d |>) w2) by (by apply inv_cache).
  assert (G2 : going g w1 w2) by (eapply going_steady; [exact G1|by exists q, d|apply steady_cache]). assert (He2 : entry_get (w_cache w2) id = Some e') by done. clearbody w2.
  step; [step; split; [by apply going_request|done]|]. assert (Hend : forall w3, going g w2 w3 -> request_end g w1 w3).
  { intros w3 (R3 & D3 & _). destruct G2 as (_ & D2 & _). split; [done|]. by rewrite D3. }
  step. eapply wp_job_find; [exact Hi2|done| |].
  - intros p j Hj _. eapply wp_mono; [eapply wp_schedule_existing; [apply G2|done|done]|]. cbv beta. intros a w3 [G3 E3]. split; [by apply Hend|done].
  - intros Hno. eapply wp_mono; [eapply wp_schedule_new; [apply G2|done|done|done|done]|]. cbv beta. intros a w3 [G3 E3]. split; [by apply Hend|done].
Qed.

Lemma running_entry g w id : running g w -> id ∈ g_refs g -> exists e, entry_get (w_cache w) id = Some e.
Proof. intros [(q & d & Hi) _ _] Hid. by eapply held_entry. Qed.
Lemma request_quiet g w w1 w2 : request_end g w w1 -> quiet w1 w2 -> request_end g w w2.
Proof.
  intros [[H Hc Hp] D] Q. pose proof (st_down _ _ (quiet_steady _ _ Q)) as D2. split; [split; [by eapply holding_quiet|done|congruence]|congruence].
Qed.
Lemma wp_schedule_recorded g w id now pr : running g w -> clock now -> id ∈ g_refs g -> 
  wp (schedule_recorded true (Some id) now pr) (fun status w' => request_end g w w' /\ (status = RESOLVER_SUPERVISOR_SCHEDULE_STARTED -> conserved w')) w.
Proof.
  intros Hr Hc Hid. unfold schedule_recorded. step. eapply wp_mono; [by apply wp_schedule_priority|]. cbv beta. intros status w1 [R C]. cbn [when]. step.
  destruct (running_entry g w1 id (proj1 R) Hid) as [e He]. apply wp_quietly; [by eapply quietly_schedule_record|]. intros _ w2 Q. step. split; [by eapply request_quiet|]. intros Hst. exact (conserved_quiet _ _ Q (C Hst)).
Qed.

(** ** Completions *)

(** The callers own the reference and the charge of a completion they take. *)
Definition completion_taken_by (c : resolver_supervisor_completion) (g : ghost) : ghost :=
  g <| g_refs := option_list (co_entry c) ++ g_refs g |> <| g_charges := charge (co_response c) ++ g_charges g |>.

Lemma wp_completion_destroy g w c : running (completion_taken_by c g) w ->
  wp (resolver_supervisor_completion_destroy (Some c)) (fun r w' => r = Some completion_zero /\ request_end g w w') w.
Proof.
  intros [(q & d & Hi) Hc Hp]. cbn [resolver_supervisor_completion_destroy]. step. eapply wp_entry_release; [exact Hi|done|]. intros k w1 Hi1. step.
  eapply wp_result_destroy; [exact Hi1|done|]. intros b w2 Hi2. step. split; [done|]. split; [|done]. split; [|by destruct Hc|exact Hp].
  exists q, d. cbn in Hi2. by destruct g.
Qed.

Lemma completion_head g w p : inv g w -> g_hand g = None -> s_completion_head (w_supervisor w) = Some p ->
  exists j, jobs_of w !! p = Some j /\ j_state j = RESOLVER_SUPERVISOR_JOB_COMPLETE.
Proof.
  intros Hi Hh Hp. pose proof (i_done _ _ Hi) as Hd. rewrite (dll_head _ _ _ _ (co_dll _ _ _ _ _ Hd)) in Hp. destruct (g_done g) as [|x l] eqn:E; [done|]. injection Hp as ->.
  assert (Hin : p ∈ p :: l) by (by left). destruct (completion_elem_job _ _ _ _ _ p Hd Hin) as [j Hj]. exists j. split; [done|]. apply (co_place _ _ _ _ _ Hd p j Hj); [congruence|done].
Qed.
Lemma taken_world p bucket chain w :
  (w <| w_supervisor ::= (fun s => s <| s_buckets ::= <[bucket := chain_remove p chain]> |>) |>)
    <| w_supervisor ::= (fun s => s <| s_job_count ::= (fun n => if 0 <? n then n - 1 else n) |> <| s_jobs ::= delete p |>) |> = forgotten p bucket chain w.
Proof. done. Qed.
Lemma forgotten_down p bucket chain w : s_shutting_down (w_supervisor (forgotten p bucket chain w)) = s_shutting_down (w_supervisor w).
Proof. done. Qed.

Definition take_end (g : ghost) (w : world) (r : option resolver_supervisor_completion) (w' : world) : Prop :=
  match r with Some c => request_end (completion_taken_by c g) w w' | None => request_end g w w' end.

Lemma wp_completion_take g w completion : running g w -> wp (resolver_supervisor_completion_take true completion) (take_end g w) w.
Proof.
  intros Hr. unfold resolver_supervisor_completion_take. do 2 step. destruct (s_completion_head (w_supervisor w)) as [p|] eqn:Ep; [|by step]. step; [by step|].
  destruct Hr as [(q & d & Hi) Hc Hph]. set (g0 := g <| g_queue := q |> <| g_done := d |>) in *. pose proof (calm_lists g q d Hc) as Hc0. fold g0 in Hc0.
  destruct (completion_head g0 w p Hi (ca_hand _ Hc0) Ep) as (j & Hj & Hs). step. apply wp_quietly; [apply quietly_attempt_increment; by eapply inv_live|]. intros _ w1 Q1.
  pose proof (inv_quiet _ _ _ Q1 Hi) as Hi1. rewrite <- (quiet_jobs _ _ Q1) in Hj. pose proof (st_down _ _ (quiet_steady _ _ Q1)) as D1.
  pose proof (placed_assembly _ _ _ _ Hi1 (ca_hand _ Hc0) Hj ltac:(by rewrite Hs)) as Ha. pose proof (no_job_loose_free _ _ Hi1 (ca_hand _ Hc0)) as Hl.
  step. eapply wp_mono; [eapply wp_completion_remove; [exact Hi1|apply Hc0|exact Hj|exact Hs]|]. cbv beta. intros _ w2 (Hi2 & jobs & head & tail & Hw2 & Hrel).
  assert (Hj2 : exists j2, jobs_of w2 !! p = Some j2 /\ erase j2 = erase j).
  { subst w2. assert (Hsome : is_Some (jobs !! p)) by (rewrite (relinked_some _ _ p Hrel); by rewrite Hj). destruct Hsome as [j2 Hj2]. exists j2. split; [done|].
    destruct (relinked_lookup _ _ _ _ Hrel Hj2) as (j0 & Hj0 & He). congruence. }
  destruct Hj2 as (j2 & Hj2 & He). assert (Ha2 : j_assembly j2 = None) by (by erased He). assert (Hl2 : no_job_loose g0 w2) by (by subst w2).
  assert (D2 : s_shutting_down (w_supervisor w2) = s_shutting_down (w_supervisor w)) by (by subst w2). clear Hw2 Hrel jobs head tail.
  step. eapply wp_hash_remove; [exact Hi2|exact Hj2|]. intros id chain Hid Hch. step. eapply wp_job_get; [exact Hj2|]. do 3 step. rewrite taken_world.
  pose proof (inv_forgotten _ w2 p j2 id chain Hi2 eq_refl Hj2 Hl2 Hid Hch) as Hi3. pose proof (forgotten_down p (bucket_of id) chain w2) as D3. revert Hi3 D3.
  generalize (forgotten p (bucket_of id) chain w2). intros w3 Hi3 D3. unfold take_end. split; [|congruence]. split; [|by destruct Hc|cbn; congruence].
  eexists _, _. unfold inherit in Hi3. rewrite Ha2 in Hi3. unfold completion_taken_by. cbn in Hi3. destruct Hc as [C1 C2 C3]. destruct g; cbn in *. subst. exact Hi3.
Qed.

(** ** Observations and metrics *)

Lemma wp_observation_take g w result : running g w -> wp (resolver_supervisor_observation_take true result) (fun _ => request_end g w) w.
Proof.
  intros Hr. unfold resolver_supervisor_observation_take. do 2 step. step; [by step|]. destruct Hr as [(q & d & Hi) Hc Hph]. destruct (i_ring _ _ Hi) as (R1 & R2 & R3).
  apply orb_false_iff in E as [_ E]. destruct (lookup_lt_is_Some_2 (s_observations (w_supervisor w)) (Z.to_nat (s_observation_head (w_supervisor w)))) as [slot Hslot]; [lia|].
  step. eapply wp_lift; [exact Hslot|]. do 3 step.
  match goal with |- request_end g w ?x => pose proof (inv_ringed _ w (<[Z.to_nat (s_observation_head (w_supervisor w)) := None]> (s_observations (w_supervisor w)))
    ((s_observation_head (w_supervisor w) + 1) mod RESOLVER_SUPERVISOR_OBSERVATION_CAPACITY) (Z.pred (s_observation_count (w_supervisor w))) Hi) as Hx;
    change x with (ringed (<[Z.to_nat (s_observation_head (w_supervisor w)) := None]> (s_observations (w_supervisor w)))
    ((s_observation_head (w_supervisor w) + 1) mod RESOLVER_SUPERVISOR_OBSERVATION_CAPACITY) (Z.pred (s_observation_count (w_supervisor w))) w) end.
  rewrite length_insert in Hx. pose proof (Z.mod_pos_bound (s_observation_head (w_supervisor w) + 1) RESOLVER_SUPERVISOR_OBSERVATION_CAPACITY ltac:(done)).
  destruct Hx as [Hx Hst]; [done|done|lia|]. split; [|apply Hst]. split; [by exists q, d|done|]. by rewrite (sw_down _ _ Hst).
Qed.

Lemma wp_snapshot_jobs chain n w g : inv g w -> (forall p, p ∈ chain -> is_Some (jobs_of w !! p)) -> wp (snapshot_jobs chain n) (fun _ w' => w' = w) w.
Proof.
  intros Hi. revert n. induction chain as [|p chain IH]; intros n H; cbn [snapshot_jobs]; [by step|]. destruct (H p) as [j Hj]; [by left|].
  destruct (inv_entry _ _ _ _ Hi Hj) as (id & e & Hid & He). step. eapply wp_job_get; [done|]. rewrite Hid. unfold resolver_supervisor_metrics_query_type. step.
  step. eapply wp_entry_read; [done|]. step. apply IH. intros x Hx. apply H. by right.
Qed.
Lemma wp_metrics_get g w result : running g w -> wp (resolver_supervisor_metrics_get true result) (fun _ w' => w' = w) w.
Proof.
  intros [(q & d & Hi) _ _]. unfold resolver_supervisor_metrics_get. step; [by step|]. do 3 step. eapply wp_mono; [eapply wp_snapshot_jobs; [exact Hi|intros p; by apply (table_job _ _ _ Hi)]|].
  cbv beta. intros n w' ->. by step.
Qed.
