(* ===== verification/SupervisorLife.v ===== *)
(** * The life of the supervisor: its creation, shutdown and destruction

    Dropping all jobs, stopping the helpers and giving back everything that is owned, from
    the invariant of [SupervisorInv]; and the states a supervisor can reach by the
    operations of its callers, whatever the kernel answers. *)

From S2P Require Import Prelude Stateful Dll TimeUtil Metrics ResolverUtil Cache Ipc IpcAssembly Helper Supervisor SupervisorDelay SupervisorInv SupervisorJobs SupervisorHelpers SupervisorSteps SupervisorReplies SupervisorTimers SupervisorRequests.
From stdpp Require Import gmap.
#[local] Open Scope Z_scope.
#[local] Abbreviation prog := (prog world).

(** ** Dropping the jobs *)

(** A job with its helper, taken out of its state while other helpers may be between two
    states. *)
Lemma take_job g w p j : inv g w -> g_hand g = None -> g_unsettled g = None -> jobs_of w !! p = Some j -> with_helper (j_state j) = true ->
  exists i h, j_slot_index j = Z.of_nat i /\ (i < RESOLVER_SUPERVISOR_HELPER_COUNT)%nat /\ h_job h = Some p /\
    at_work (g <| g_hand := Some p |> <| g_loose ::= set_loose i true |>) w i h p j.
Proof.
  intros Hi Hh Hu Hj Hw. destruct (ho_jobs _ _ _ _ _ (i_helpers _ _ Hi) p j Hj ltac:(by rewrite Hh) Hw) as (i & h & Hhi & Hl & Hs & Hp). exists i, h. split; [done|].
  split; [pose proof (lookup_lt_Some _ _ _ Hhi) as X; by rewrite (ho_length _ _ _ _ _ (i_helpers _ _ Hi)) in X|]. split; [done|].
  assert (Hc : j_state j <> RESOLVER_SUPERVISOR_JOB_COMPLETE) by (intros E; by rewrite E in Hw). split; cbn; try done.
  - by eapply inv_take_busy.
  - unfold set_loose. by rewrite bool_decide_eq_true_2.
  - intros k x Hk Hne. unfold set_loose. rewrite bool_decide_eq_false_2 by done. exact (no_job_loose_free _ _ Hi Hh k x Hk).
  - by apply (i_responses _ _ Hi p j Hj).
  - by rewrite Hu.
Qed.

Definition frozen (w w' : world) : Prop := s_shutting_down (w_supervisor w') = s_shutting_down (w_supervisor w) /\ s_last_now (w_supervisor w') = s_last_now (w_supervisor w).
Lemma frozen_refl w : frozen w w.
Proof. done. Qed.
Lemma frozen_trans w1 w2 w3 : frozen w1 w2 -> frozen w2 w3 -> frozen w1 w3.
Proof. unfold frozen. intros [A1 A2] [B1 B2]. split; congruence. Qed.
Lemma aside_frozen i w w' : aside i w w' -> frozen w w'.
Proof. intros [_ A B]. by split. Qed.
Lemma steady_frozen w w' : steady w w' -> frozen w w'.
Proof. intros [_ A B _]. by split. Qed.

(** The helpers may all be between two states. *)
Definition dropped (g : ghost) (w : world) : Prop := exists loose, holding (g <| g_loose := loose |>) w.

Lemma dropped_of g w loose : holding (g <| g_loose := loose |>) w -> dropped g w.
Proof. intros H. by exists loose. Qed.

(** The counters of a job that is dropped. *)
Lemma quietly_drop_counted (b : bool) q st w : quietly (match q with
  | Some query => when b match st with
      | RESOLVER_SUPERVISOR_JOB_COMPLETE => resolver_supervisor_metrics_increment (Attempt query completion_abandoned_shutdown)
      | RESOLVER_SUPERVISOR_JOB_DISPATCHED => resolver_supervisor_metrics_increment (Attempt query attempt_abandoned_shutdown)
      | _ => mret () end
  | None => mret () end) w.
Proof. destruct q; [|auto with quiet]. apply quietly_when. intros _. destruct st; auto with quiet. Qed.

Lemma wp_job_drop g w p j : inv g w -> g_hand g = None -> g_unsettled g = None -> jobs_of w !! p = Some j ->
  wp (job_drop p) (fun _ w' => dropped g w' /\ frozen w w' /\ entries_of w' = delete p (entries_of w)) w.
Proof.
  intros Hi Hh Hu Hj. unfold job_drop. do 3 step. eapply wp_job_get; [done|]. step. apply wp_quietly; [apply quietly_select; by eapply inv_live|]. intros m w1 Q1.
  step. apply wp_quietly; [apply quietly_drop_counted|]. intros _ w2 Q2. pose proof (quiet_trans _ _ _ Q1 Q2) as Q. pose proof (inv_quiet _ _ _ Q Hi) as Hi2.
  rewrite <- (quiet_jobs _ _ Q) in Hj. assert (He : entries_of w2 = entries_of w) by (unfold entries_of; by rewrite (quiet_jobs _ _ Q)). apply quiet_steady, steady_frozen in Q. rewrite <- He.
  eapply (wp_mono _ (fun _ w' => dropped g w' /\ frozen w2 w' /\ entries_of w' = delete p (entries_of w2))).
  2:{ intros _ w3 (A & B & C). split; [done|]. split; [exact (frozen_trans _ _ _ Q B)|done]. }
  clear Hi Q1 Q2 Q He w1 w m. rename w2 into w, Hi2 into Hi. step. destruct (with_helper (j_state j)) eqn:Ew.
  - destruct (take_job _ _ _ _ Hi Hh Hu Hj Ew) as (i & h & Hs & Hl & Hp & Hw). set (g1 := g <| g_hand := Some p |> <| g_loose ::= set_loose i true |>) in *.
    assert (Hdone : wp (job_set p (fun j => j <| j_query_id := 0 |>) ;; assembly_destroy (j_assembly j) ;; job_set p (fun j => j <| j_assembly := None |>) ;;
      when (j_slot_index j <? Z.of_nat RESOLVER_SUPERVISOR_HELPER_COUNT) (h ← helper_get (Z.to_nat (j_slot_index j));
         when (bool_decide (h_job h = Some p)) (helper_set (Z.to_nat (j_slot_index j)) (fun h => h <| h_job := None |> <| h_request_size := 0 |>))))
      (fun _ w' => wp (resolver_supervisor_job_destroy (Some p)) (fun _ w' => dropped g w' /\ frozen w w' /\ entries_of w' = delete p (entries_of w)) w') w).
    { eapply wp_detach; [exact Hw|]. intros w1 Hw1 S1 _ E1. rewrite Hs, Nat2Z.id. replace (Z.of_nat i <? Z.of_nat RESOLVER_SUPERVISOR_HELPER_COUNT) with true by lia. cbn [when].
      step. eapply wp_helper_get; [apply Hw1|]. rewrite bool_decide_eq_true_2 by done. cbn [when]. eapply wp_helper_set; [apply Hw1|]. set (h1 := h <| h_job := None |> <| h_request_size := 0 |>).
      destruct (at_work_times _ _ _ _ _ _ Hw1) as (_ & T2 & T3). pose proof (at_work_released _ _ _ _ h1 _ _ Hw1 eq_refl eq_refl eq_refl eq_refl T2 T3) as H2.
      assert (Hst : j_state (detached j) = j_state j) by done.
      eapply wp_mono; [eapply wp_job_destroy_hand; try apply H2; rewrite Hst; by intros E; rewrite E in Ew|]. cbv beta. intros _ w3 (Hi3 & S3 & _ & J3).
      split; [|split].
      - apply (dropped_of _ _ (g_loose g1)). apply inv_holding in Hi3. destruct Hi3 as (q & d & Hi3). exists q, d. destruct g; cbn in *. by subst.
      - eapply frozen_trans; [by apply steady_frozen|]. eapply frozen_trans; [apply (aside_frozen i), (helper_step_aside i h1), helper_step_put|by apply steady_frozen].
      - unfold entries_of. rewrite J3, fmap_delete. f_equal. exact E1. }
    destruct (j_state j); try done; exact Hdone.
  - assert (Hdone : wp (resolver_supervisor_job_destroy (Some p)) (fun _ w' => dropped g w' /\ frozen w w' /\ entries_of w' = delete p (entries_of w)) w).
    { eapply wp_mono; [eapply wp_job_destroy_placed; [exact Hi|done|exact Hj|by apply no_job_loose_free|done]|]. cbv beta. intros _ w1 (H1 & S1 & _ & E1).
      split; [apply (dropped_of _ _ (g_loose g)); by destruct g|]. split; [by apply steady_frozen|done]. }
    destruct (j_state j); try done; step; exact Hdone.
Qed.

(** What is left of the jobs after the ones of some buckets are gone. *)
Definition left_out (gone : list nat) (w w' : world) : Prop := forall p id, entries_of w' !! p = Some (Some id) -> entries_of w !! p = Some (Some id) /\ bucket_of id ∉ gone.
Record emptied (g : ghost) (gone : list nat) (w w' : world) : Prop := { em_dropped : dropped g w'; em_frozen : frozen w w'; em_left : left_out gone w w' }.

Lemma emptied_trans g l k w1 w2 w3 : emptied g l w1 w2 -> emptied g k w2 w3 -> emptied g (l ++ k) w1 w3.
Proof.
  intros [A1 A2 A3] [B1 B2 B3]. split; [done|exact (frozen_trans _ _ _ A2 B2)|]. intros p id Hp. destruct (B3 p id Hp) as [C1 C2]. destruct (A3 p id C1) as [D1 D2].
  split; [done|]. by intros [?|?]%elem_of_app.
Qed.

Section Drop.
Context (g : ghost) (Hh : g_hand g = None) (Hu : g_unsettled g = None).

Lemma dropped_bucket w bucket : dropped g w -> (bucket < Z.to_nat RESOLVER_SUPERVISOR_JOB_LIMIT)%nat -> exists chain, s_buckets (w_supervisor w) !! bucket = Some chain /\
  NoDup chain /\ forall p, p ∈ chain <-> exists id, entries_of w !! p = Some (Some id) /\ bucket = bucket_of id.
Proof.
  intros (loose & q & d & Hi) Hb. pose proof (i_table _ _ Hi) as Ht. destruct (lookup_lt_is_Some_2 (s_buckets (w_supervisor w)) bucket) as [chain Hc]; [by rewrite (th_length _ _ Ht)|].
  exists chain. split; [done|]. split; [|intros p; by apply (th_place _ _ Ht)]. eapply sublist_NoDup; [apply (th_nodup _ _ Ht)|by eapply bucket_sublist].
Qed.

Lemma wp_bucket_destroy fuel bucket w chain : dropped g w -> (bucket < Z.to_nat RESOLVER_SUPERVISOR_JOB_LIMIT)%nat -> s_buckets (w_supervisor w) !! bucket = Some chain ->
  (length chain <= fuel)%nat -> wp (bucket_destroy fuel bucket) (fun _ => emptied g [bucket] w) w.
Proof.
  revert w chain. induction fuel as [|fuel IH]; intros w chain Hd Hb Hc Hf; destruct (dropped_bucket w bucket Hd Hb) as (chain' & Hc' & Hn & Hin);
    assert (chain' = chain) as -> by congruence; cbn [bucket_destroy]; do 3 step; (eapply wp_lift; [exact Hc|]); cbv beta;
    destruct chain as [|p chain]; try (cbn in Hf; lia).
  1,2: step; split; [done|apply frozen_refl|]; intros p id Hp; split; [done|]; intros Hb'%list_elem_of_singleton; apply (list.not_elem_of_nil p), Hin; by exists id.
  destruct Hd as (loose & q & d & Hi). destruct (proj1 (Hin p)) as (id & Hid & Hbu); [by left|]. unfold entries_of in Hid. rewrite lookup_fmap in Hid.
  destruct (jobs_of w !! p) as [j|] eqn:Hj; [|done]. step. eapply wp_mono; [eapply wp_job_drop; [exact Hi|done|done|exact Hj]|]. cbv beta. intros _ w1 ((loose' & H1) & F1 & E1).
  assert (Hd1 : dropped g w1) by (apply (dropped_of _ _ loose'); destruct H1 as (q1 & d1 & H1); exists q1, d1; exact H1).
  destruct (dropped_bucket w1 bucket Hd1 Hb) as (chain1 & Hc1 & Hn1 & Hin1). apply list.NoDup_cons in Hn as [Hnp Hn].
  assert (Hsub : chain1 ⊆ chain).
  { intros x Hx. apply Hin1 in Hx as (id' & Hx & Hbx). rewrite E1 in Hx. apply lookup_delete_Some in Hx as [Hne Hx]. assert (Hx' : x ∈ p :: chain) by (apply Hin; by exists id').
    by apply list.elem_of_cons in Hx' as [->|?]. }
  eapply wp_mono; [apply (IH w1 chain1 Hd1 Hb Hc1)|].
  - etransitivity; [by apply submseteq_length, NoDup_submseteq|]. cbn in Hf. lia.
  - cbv beta. intros _ w2 [A1 A2 A3]. split; [done|exact (frozen_trans _ _ _ F1 A2)|]. intros x id' Hx. destruct (A3 x id' Hx) as [B1 B2]. split; [|done].
    rewrite E1 in B1. by apply lookup_delete_Some in B1 as [_ B1].
Qed.

Lemma wp_buckets_destroy l w : dropped g w -> Forall (fun bucket => bucket < Z.to_nat RESOLVER_SUPERVISOR_JOB_LIMIT)%nat l ->
  wp (for_each (fun bucket => s ← supervisor; chain ← lift (s_buckets s !! bucket); bucket_destroy (length chain) bucket) l) (fun _ => emptied g l w) w.
Proof.
  revert w. induction l as [|bucket l IH]; intros w Hd Hl; cbn [for_each].
  { step. split; [done|apply frozen_refl|]. intros p id Hp. split; [done|apply list.not_elem_of_nil]. }
  apply list.Forall_cons in Hl as [Hb Hl]. destruct (dropped_bucket w bucket Hd Hb) as (chain & Hc & _). do 4 step. eapply wp_lift; [exact Hc|]. cbv beta.
  eapply wp_mono; [by eapply wp_bucket_destroy|]. cbv beta. intros _ w1 E1. eapply wp_mono; [apply IH; [apply E1|done]|]. cbv beta. intros _ w2 E2. exact (emptied_trans _ [bucket] l _ _ _ E1 E2).
Qed.

(** All jobs are gone. *)
Lemma wp_jobs_destroy_all w : dropped g w -> wp resolver_supervisor_jobs_destroy_all (fun _ w' => dropped g w' /\ frozen w w' /\ jobs_of w' = ∅) w.
Proof.
  intros Hd. unfold resolver_supervisor_jobs_destroy_all. do 2 step. destruct (s_buckets (w_supervisor w)) as [|b l] eqn:Eb.
  { destruct (dropped_bucket w 0 Hd) as (chain & Hc & _); [unfold RESOLVER_SUPERVISOR_JOB_LIMIT; lia|]. by rewrite Eb in Hc. }
  eapply wp_mono; [apply wp_buckets_destroy; [done|]|].
  - apply list.Forall_seq. lia.
  - cbv beta. intros _ w1 [A1 A2 A3]. split; [done|]. split; [done|]. apply map_empty. intros p. destruct (jobs_of w1 !! p) as [j|] eqn:Ej; [|done]. exfalso.
    destruct A1 as (loose & q & d & Hi). destruct (inv_entry _ _ _ _ Hi Ej) as (id & e & Hid & _). destruct (A3 p id) as [_ Hn]; [unfold entries_of; by rewrite lookup_fmap, Ej, <- Hid|].
    apply Hn, list.elem_of_seq. unfold bucket_of, RESOLVER_SUPERVISOR_JOB_LIMIT. pose proof (Z.mod_pos_bound id 4096 ltac:(lia)). lia.
Qed.
End Drop.

(** Without jobs every helper can be between two states, whatever the phase. *)
Lemma inv_all_loose g w phase : inv g w -> g_hand g = None -> jobs_of w = ∅ -> inv (g <| g_loose := fun _ => true |> <| g_phase := phase |>) w.
Proof.
  intros [H1 H2 H3 H4 H5 H6 [F1 F2 F3 F4 F5] H8 H9 H10 H11 H12 H13 H14 H15 H16 H17] Hh Hj. split; try assumption.
  - cbn. rewrite Hh, Hj in *. split; try done.
    + intros i h Hi _. left. destruct (g_loose g i) eqn:El; [by destruct (F3 i h Hi El)|]. specialize (F2 i h Hi El). unfold helper_fits in F2.
      destruct (h_state h); try apply F2; destruct F2 as [(p & j & _ & _ & Hp & _) _]; by rewrite lookup_empty in Hp.
  - intros i h Hi. cbn. by eapply registered_loosen, H8.
Qed.

Lemma inv_loose_helpers g w loose : inv g w -> (forall k h, helpers_of w !! k = Some h -> loose k = g_loose g k) -> inv (g <| g_loose := loose |>) w.
Proof.
  intros [H1 H2 H3 H4 H5 H6 [F1 F2 F3 F4 F5] H8 H9 H10 H11 H12 H13 H14 H15 H16 H17] He. split; try assumption.
  - split; [done| | | |done].
    + intros i h Hi Hl. apply F2; [done|]. by rewrite <- (He i h Hi).
    + intros i h Hi Hl. apply (F3 i); [done|]. by rewrite <- (He i h Hi).
    + intros p j Hj Hh Hw. destruct (F4 p j Hj Hh Hw) as (i & h & A1 & A2 & A3). exists i, h. cbn. by rewrite (He i h A1).
  - intros i h Hi. cbn. rewrite (He i h Hi). by apply H8.
Qed.

(** ** Shutdown *)

(** A helper after the supervisor was told to shut down. *)
Definition stopping (now : timespec) (h : helper) : Prop :=
  h_state h = RESOLVER_SUPERVISOR_HELPER_STOPPED \/
  (h_state h = RESOLVER_SUPERVISOR_HELPER_SHUTTING_DOWN /\ h_next_event_at h = default now (timeutil_add_milliseconds (Some now) RESOLVER_SUPERVISOR_SHUTDOWN_GRACE_MS)).
Definition awaiting (l : list nat) (k : nat) : bool := bool_decide (k ∈ l).

Lemma grace_valid now : valid now -> valid (default now (timeutil_add_milliseconds (Some now) RESOLVER_SUPERVISOR_SHUTDOWN_GRACE_MS)).
Proof.
  intros Hnow. destruct (timeutil_exact now now RESOLVER_SUPERVISOR_SHUTDOWN_GRACE_MS Hnow Hnow ltac:(done)) as (_ & Ha & _).
  destruct (timeutil_add_milliseconds _ _); [apply Ha|done].
Qed.

Lemma loose_idle g w i h : inv g w -> g_hand g = None -> g_loose g i = true -> helpers_of w !! i = Some h -> h_job h = None.
Proof. intros Hi Hh Hl Hi'. exact (no_job_loose_free _ _ Hi Hh i h Hi' Hl). Qed.

Lemma wp_helper_shutdown g w i l now : inv (g <| g_loose := awaiting (i :: l) |>) w -> g_hand g = None -> g_phase g = true -> valid now -> i ∉ l ->
  (i < RESOLVER_SUPERVISOR_HELPER_COUNT)%nat ->
  wp (helper_shutdown now i) (fun _ w' => inv (g <| g_loose := awaiting l |>) w' /\ (frozen w w' /\ jobs_of w' = jobs_of w) /\ exists h', helpers_of w' = <[i := h']> (helpers_of w) /\ stopping now h') w.
Proof.
  intros Hi Hh Hp Hnow Hn Hl. destruct (lookup_lt_is_Some_2 (helpers_of w) i) as [h Hhi]; [by rewrite (ho_length _ _ _ _ _ (i_helpers _ _ Hi))|].
  assert (Hli : awaiting (i :: l) i = true) by (apply bool_decide_eq_true; by left). pose proof (loose_idle _ _ _ _ Hi Hh Hli Hhi) as Hj. destruct (inv_helper_times _ _ _ _ Hi Hhi) as [T1 T2].
  assert (Hend : forall w1 h', quiet w w1 -> h_fd h' = h_fd h -> h_process_id h' = h_process_id h -> h_job h' = None -> valid (h_next_event_at h') -> h_failure_count h' = h_failure_count h ->
    helper_fits true (g_hand g) (jobs_of w1) i h' -> h_state h' <> RESOLVER_SUPERVISOR_HELPER_SENDING -> stopping now h' ->
    inv (g <| g_loose := awaiting l |>) (put_helper i h' w1) /\ (frozen w (put_helper i h' w1) /\ jobs_of (put_helper i h' w1) = jobs_of w) /\ exists x, helpers_of (put_helper i h' w1) = <[i := x]> (helpers_of w) /\ stopping now x).
  { intros w1 h' Q B1 B2 B3 B4 B5 B6 B7 B8. pose proof (inv_quiet _ _ _ Q Hi) as Hi1. assert (Hh1 : helpers_of w1 !! i = Some h) by (by rewrite (quiet_helpers _ _ Q)). split; [|split].
    - assert (Hi2 : inv (g <| g_loose := awaiting (i :: l) |>) (put_helper i h' w1)).
      { eapply inv_put_helper; [exact Hi1|exact Hh1|done| |left; split; [exact Hli|by left]|done|by rewrite B5]. intros Hf. rewrite B2. by apply (inv_process _ _ _ _ Hi1 Hh1). }
      pose proof (inv_settle_idle _ _ i h' Hi2 (put_helper_lookup _ _ _ _ Hh1) B3 ltac:(cbn; rewrite Hp; exact B6) B7) as Hi3.
      apply (inv_loose_helpers _ _ (awaiting l)) in Hi3; [by destruct g|]. intros k x _. cbn. unfold set_loose, awaiting. case_bool_decide as E.
      + case_bool_decide as E2; [by subst|]. symmetry. apply bool_decide_eq_true. by right.
      + case_bool_decide as E2; [done|]. symmetry. apply bool_decide_eq_false. by intros [?|?]%list.elem_of_cons.
    - split; [eapply frozen_trans; [by apply steady_frozen, quiet_steady|done]|exact (quiet_jobs _ _ Q)].
    - exists h'. split; [|done]. cbn. by rewrite (quiet_helpers _ _ Q). }
  unfold helper_shutdown. step. eapply wp_helper_get; [done|]. step.
  - eapply wp_helper_set; [done|]. apply Hend; try done; [apply quiet_refl| |by left]. unfold helper_fits. cbn. split; [done|]. split; [|done].
    destruct (decide (h_fd h = -1)) as [|Hf]; [done|]. pose proof (inv_process _ _ _ _ Hi Hhi Hf). lia.
  - apply orb_false_iff in E as [E1 E2]. step. apply wp_quietly; [auto with quiet|]. intros _ w1 Q. eapply wp_helper_set; [by rewrite (quiet_helpers _ _ Q)|].
    apply Hend; try done; [by apply grace_valid| |by right]. unfold helper_fits. cbn. split; [done|]. split; [lia|done].
Qed.

Lemma wp_helpers_shutdown g w l now : inv (g <| g_loose := awaiting l |>) w -> g_hand g = None -> g_phase g = true -> valid now -> NoDup l ->
  Forall (fun i => i < RESOLVER_SUPERVISOR_HELPER_COUNT)%nat l ->
  wp (for_each (helper_shutdown now) l) (fun _ w' => inv (g <| g_loose := awaiting [] |>) w' /\ (frozen w w' /\ jobs_of w' = jobs_of w) /\
    (forall k, k ∉ l -> helpers_of w' !! k = helpers_of w !! k) /\ (forall k h, k ∈ l -> helpers_of w' !! k = Some h -> stopping now h)) w.
Proof.
  revert w. induction l as [|i l IH]; intros w Hi Hh Hp Hnow Hn Hl; cbn [for_each].
  { step. split; [done|]. split; [by split|]. split; [done|]. by intros k h Hk%list.elem_of_nil. }
  apply list.NoDup_cons in Hn as [Hni Hn]. apply list.Forall_cons in Hl as [Hli Hl]. step. eapply wp_mono; [by apply (wp_helper_shutdown g w i l now)|].
  cbv beta. intros _ w1 (Hi1 & [F1 J1] & h1 & Hw1 & Hs1). eapply wp_mono; [by apply (IH w1)|]. cbv beta. intros _ w2 (Hi2 & [F2 J2] & A2 & B2). split; [done|].
  split; [split; [exact (frozen_trans _ _ _ F1 F2)|congruence]|]. split.
  - intros k Hk. rewrite A2, Hw1, list_lookup_insert_ne; [done| |]; set_solver.
  - intros k h [->|Hk]%list.elem_of_cons Hkh; [|by eapply B2]. rewrite A2, Hw1 in Hkh by done.
    apply list_lookup_insert_Some in Hkh as [(_ & <- & _)|[? _]]; done.
Qed.

Lemma awaiting_none (k : nat) : awaiting [] k = unbound k.
Proof. unfold awaiting. apply bool_decide_eq_false, list.not_elem_of_nil. Qed.
Lemma downed_inv g w : inv g w -> inv g (w <| w_supervisor ::= (fun s => s <| s_shutting_down := true |>) |>).
Proof. intros [H1 H2 H3 H4 H5 H6 H7 H8 H9 H10 H11 H12 H13 H14 H15 H16 H17]. by split. Qed.

Definition shut (g : ghost) (now : timespec) (w : world) : Prop :=
  running (g <| g_phase := true |>) w /\ s_shutting_down (w_supervisor w) = true /\ jobs_of w = ∅ /\ forall k h, helpers_of w !! k = Some h -> stopping now h.

Lemma wp_shut g w t : running g w -> valid t ->
  wp (on_supervisor (fun s => s <| s_shutting_down := true |>) ;; resolver_supervisor_jobs_destroy_all ;;
      for_each (helper_shutdown t) (seq 0 RESOLVER_SUPERVISOR_HELPER_COUNT) ;; resolver_supervisor_timer_rearm) (fun _ => shut g t) w.
Proof.
  intros [(q & d & Hi) Hc _] Ht. do 2 step. apply downed_inv in Hi. set (w1 := w <| w_supervisor ::= _ |>) in *. assert (D1 : s_shutting_down (w_supervisor w1) = true) by done. clearbody w1. clear w. step.
  eapply wp_mono; [apply (wp_jobs_destroy_all g); [apply Hc|apply Hc|apply (dropped_of g _ (g_loose g)); exists q, d; by destruct g]|]. cbv beta.
  intros _ w2 ((loose & q2 & d2 & Hi2) & [D2 _] & J2). apply (inv_all_loose _ _ true) in Hi2; [|apply Hc|done].
  set (g2 := g <| g_queue := q2 |> <| g_done := d2 |> <| g_phase := true |>).
  assert (Hi3 : inv (g2 <| g_loose := awaiting (seq 0 RESOLVER_SUPERVISOR_HELPER_COUNT) |>) w2).
  { apply (inv_loose_helpers _ _ (awaiting (seq 0 RESOLVER_SUPERVISOR_HELPER_COUNT))) in Hi2; [by unfold g2; destruct g|]. intros k h Hk. apply bool_decide_eq_true, list.elem_of_seq.
    pose proof (lookup_lt_Some _ _ _ Hk) as X. rewrite (ho_length _ _ _ _ _ (i_helpers _ _ Hi2)) in X. lia. }
  step. eapply wp_mono; [apply (wp_helpers_shutdown g2 w2); [exact Hi3|apply Hc|done|done|apply list.NoDup_seq|apply list.Forall_seq; lia]|]. cbv beta.
  intros _ w3 (Hi4 & [[D3 _] J3] & _ & B3). apply (inv_loose_helpers _ _ unbound) in Hi4; [|intros k h _; symmetry; apply awaiting_none].
  assert (Hh3 : holding (g <| g_phase := true |>) w3).
  { exists q2, d2. unfold g2 in Hi4. destruct Hc as [C1 C2 C3]. destruct g; cbn in *. by subst. }
  apply wp_quietly; [by apply (quietly_rearm (g <| g_phase := true |>))|]. intros b w4 Q4. split; [|split; [|split]].
  - split; [by eapply holding_quiet|by destruct Hc|]. rewrite (st_down _ _ (quiet_steady _ _ Q4)). cbn. congruence.
  - rewrite (st_down _ _ (quiet_steady _ _ Q4)). congruence.
  - rewrite (quiet_jobs _ _ Q4). congruence.
  - intros k h. rewrite (quiet_helpers _ _ Q4). intros Hk. apply (B3 k); [|done]. apply list.elem_of_seq. pose proof (lookup_lt_Some _ _ _ Hk) as X.
    rewrite (ho_length _ _ _ _ _ (i_helpers _ _ Hi4)) in X. lia.
Qed.

Lemma wp_shutdown g w now : running g w -> clock now -> wp (resolver_supervisor_shutdown true now) (fun b w' =>
  (running g w' /\ s_shutting_down (w_supervisor w') = s_shutting_down (w_supervisor w) /\ (b = true -> s_shutting_down (w_supervisor w) = true)) \/
  exists t, now = Some t /\ valid t /\ shut g t w') w.
Proof.
  intros Hr Hc. unfold resolver_supervisor_shutdown. destruct now as [t|]; [|step; by left]. step. apply wp_time_update; [done|cbn [negb]; step; by left|]. intros t' [= <-] Ht _. cbn [negb].
  pose proof (running_timed _ _ _ Hr Ht) as Hr1. do 2 step. destruct (s_shutting_down (w_supervisor (timed t w))) eqn:Ed.
  - step. left. split; [done|]. by split.
  - eapply wp_mono; [by apply (wp_shut g)|]. cbv beta. intros b w' H. right. by exists t.
Qed.

(** ** Destruction *)

(** The descriptors there are, also while a supervisor is being created. *)
Definition open_list (fd : Z) : list Z := if fd =? -1 then [] else [fd].
Definition all_fds (w : world) : list Z := open_list (s_epoll_fd (w_supervisor w)) ++ open_list (s_timer_fd (w_supervisor w)) ++ helper_fds (helpers_of w).
Record remains (w : world) : Prop := {
  rm_nodup : NoDup (all_fds w); rm_open : k_open (w_kernel w) = list_to_set (all_fds w);
  rm_count : helpers_of w = [] \/ length (helpers_of w) = RESOLVER_SUPERVISOR_HELPER_COUNT;
}.
(** What closing descriptors leaves as it is. *)
Definition outside (w w' : world) : Prop := own_fds w' = own_fds w /\ s_assembly_budget (w_supervisor w') = s_assembly_budget (w_supervisor w) /\ w_cache w' = w_cache w.

Lemma outside_trans w1 w2 w3 : outside w1 w2 -> outside w2 w3 -> outside w1 w3.
Proof. intros (A1 & A2 & A3) (B1 & B2 & B3). unfold outside. by rewrite B1, B2, B3. Qed.
Lemma outside_quiet w w' : quiet w w' -> outside w w'.
Proof. intros (m & Hs & Hc & _). unfold outside, own_fds. by rewrite Hs. Qed.
Lemma remains_quiet w w' : quiet w w' -> remains w -> remains w'.
Proof.
  intros (m & Hs & _ & [_ K _ _ _]) [R1 R2 R3]. assert (E : all_fds w' = all_fds w) by (unfold all_fds; by rewrite Hs). split; rewrite ?E; [done|congruence|]. by rewrite Hs.
Qed.

Lemma close_one (fd : Z) (s : gset Z) l rest : NoDup l -> s = list_to_set l -> l ≡ₚ fd :: rest -> NoDup rest /\ s ∖ {[fd]} = list_to_set rest /\ fd ∈ s.
Proof.
  intros Hn -> Hp. rewrite Hp in Hn. apply list.NoDup_cons in Hn as [Hf Hn]. split; [done|]. rewrite (list_to_set_perm_L (C := gset Z) _ _ Hp). split; [|set_solver].
  apply set_eq. intros x. rewrite elem_of_difference, !elem_of_list_to_set, elem_of_singleton, list.elem_of_cons. split; [tauto|]. intros Hx. split; [by right|]. by intros ->.
Qed.

Lemma all_fds_put w i h h' : helpers_of w !! i = Some h -> h_fd h <> -1 -> h_fd h' = -1 -> all_fds w ≡ₚ h_fd h :: all_fds (put_helper i h' w).
Proof.
  intros Hi Hf Hf'. destruct (helper_fds_perm _ _ _ h' Hi) as (rest & P1 & P2). unfold all_fds. cbn. rewrite P1, P2. unfold fd_list. rewrite Hf'.
  replace (h_fd h =? -1) with false by lia. cbn. by rewrite !Permutation_middle.
Qed.
Lemma all_fds_same w i h h' : helpers_of w !! i = Some h -> h_fd h' = h_fd h -> all_fds (put_helper i h' w) ≡ₚ all_fds w.
Proof.
  intros Hi Hf. destruct (helper_fds_perm _ _ _ h' Hi) as (rest & P1 & P2). unfold all_fds. cbn. rewrite P1, P2. unfold fd_list. by rewrite Hf.
Qed.
Lemma remains_same w i h h' : remains w -> helpers_of w !! i = Some h -> h_fd h' = h_fd h -> remains (put_helper i h' w).
Proof.
  intros [R1 R2 R3] Hi Hf. pose proof (all_fds_same w i h h' Hi Hf) as P. split; [by rewrite P|cbn; rewrite R2; by rewrite (list_to_set_perm_L (C := gset Z) _ _ P)|].
  cbn. rewrite length_insert. destruct R3 as [R3|R3]; [by rewrite R3 in Hi|by right].
Qed.
Lemma remains_closed w i h h' k : remains w -> helpers_of w !! i = Some h -> h_fd h <> -1 -> h_fd h' = -1 -> k_open k = k_open (w_kernel w) ∖ {[h_fd h]} ->
  remains (put_helper i h' w <| w_kernel := k |>).
Proof.
  intros [R1 R2 R3] Hi Hf Hf' Hk. destruct (close_one _ _ _ _ R1 R2 (all_fds_put w i h h' Hi Hf Hf')) as (A & B & _). split; [exact A|cbn; rewrite Hk; exact B|].
  cbn. rewrite length_insert. destruct R3 as [R3|R3]; [by rewrite R3 in Hi|by right].
Qed.
Lemma remains_fd w i h : remains w -> helpers_of w !! i = Some h -> h_fd h <> -1 -> h_fd h ∈ k_open (w_kernel w).
Proof. intros [R1 R2 R3] Hi Hf. by destruct (close_one _ _ _ _ R1 R2 (all_fds_put w i h (h <| h_fd := -1 |>) Hi Hf ltac:(done))) as (_ & _ & ?). Qed.

Definition discarded (i : nat) (w w' : world) : Prop :=
  remains w' /\ outside w w' /\ exists h', helpers_of w' = <[i := h']> (helpers_of w) /\ h_fd h' = -1.

Lemma discarded_quiet i w w1 w2 : discarded i w w1 -> quiet w1 w2 -> discarded i w w2.
Proof.
  intros (A & B & h' & C & D) Q. split; [by eapply remains_quiet|]. split; [by eapply outside_trans, outside_quiet|]. exists h'. by rewrite (quiet_helpers _ _ Q).
Qed.

Lemma wp_helper_discard terminate w i h : remains w -> helpers_of w !! i = Some h -> wp (helper_discard terminate i) (fun _ => discarded i w) w.
Proof.
  intros R Hi. unfold helper_discard. destruct terminate.
  - unfold resolver_supervisor_helper_process_close. step. eapply wp_helper_get; [done|]. step.
    assert (Hend : forall w1 h1, helpers_of w1 !! i = Some h1 -> remains w1 -> outside w w1 -> helpers_of w1 = <[i := h1]> (helpers_of w) -> h_fd h1 = -1 ->
      wp (helper_set i (fun h => h <| h_process_id := -1 |>) ;; if SIGKILL =? 0 then resolver_supervisor_process_reap_or_kill (h_process_id h)
          else resolver_supervisor_process_terminate (h_process_id h) SIGKILL) (fun _ => discarded i w) w1).
    { intros w1 h1 H1 R1 O1 E1 F1. step. eapply wp_helper_set; [done|]. apply wp_quietly; [destruct (SIGKILL =? 0); auto with quiet|]. intros _ w2 Q2. eapply discarded_quiet; [|exact Q2].
      split; [by eapply remains_same|]. split; [exact O1|]. eexists. split; [cbn; rewrite E1, list_insert_insert_eq; reflexivity|done]. }
    destruct (h_fd h =? -1) eqn:E; cbn [negb when].
    + step. apply (Hend w h); try done; [by rewrite list_insert_id|lia].
    + step. unfold epoll_delete. step. unfold close. do 2 step. apply wp_open_get; [cbn; eapply remains_fd; [done|done|lia]|]. step. eapply wp_helper_set; [done|].
      eapply Hend; [by eapply put_helper_lookup| |by split|done|done]. eapply (remains_closed w i h (h <| h_fd := -1 |>)); [done|done|lia|done|done].
  - step. eapply wp_helper_get; [done|]. apply wp_when; [|intros E; split; [done|]; split; [done|]; exists h; rewrite list_insert_id by done; split; [done|lia]].
    intros E. step. unfold close. step. apply wp_open_get; [eapply remains_fd; [done|done|lia]|]. step. eapply wp_helper_set; [done|].
    split; [|split; [done|by eexists]]. eapply (remains_closed w i h (h <| h_fd := -1 |> <| h_process_id := -1 |>)); [done|done|lia|done|done].
Qed.

Lemma wp_helpers_discard terminate l w : remains w -> Forall (fun i => is_Some (helpers_of w !! i)) l ->
  wp (for_each (helper_discard terminate) l) (fun _ w' => remains w' /\ outside w w' /\ length (helpers_of w') = length (helpers_of w) /\
    (forall k, k ∉ l -> helpers_of w' !! k = helpers_of w !! k) /\ (forall k h, k ∈ l -> helpers_of w' !! k = Some h -> h_fd h = -1)) w.
Proof.
  revert w. induction l as [|i l IH]; intros w R Hl; cbn [for_each].
  { step. split; [done|]. split; [done|]. split; [done|]. split; [done|]. by intros k h Hk%list.elem_of_nil. }
  apply list.Forall_cons in Hl as [[h Hi] Hl]. step. eapply wp_mono; [by eapply wp_helper_discard|]. cbv beta. intros _ w1 (R1 & O1 & h1 & E1 & F1).
  eapply wp_mono; [apply (IH w1); [done|]|].
  - eapply Forall_impl; [exact Hl|]. cbv beta. intros k Hk. rewrite E1. apply lookup_lt_is_Some. rewrite length_insert. by apply lookup_lt_is_Some.
  - cbv beta. intros _ w2 (R2 & O2 & L2 & A2 & B2). split; [done|]. split; [exact (outside_trans _ _ _ O1 O2)|]. split; [rewrite L2, E1; by rewrite length_insert|]. split.
    + intros k Hk. rewrite A2, E1, list_lookup_insert_ne; [done| |]; set_solver.
    + intros k x [->|Hk]%list.elem_of_cons Hx; [|by eapply B2]. destruct (decide (i ∈ l)) as [Hin|Hin]; [by eapply B2|]. rewrite A2, E1 in Hx by done.
      by apply list_lookup_insert_Some in Hx as [(_ & <- & _)|[? _]].
Qed.

Lemma helper_fds_closed (helpers : list helper) : (forall k h, helpers !! k = Some h -> h_fd h = -1) -> helper_fds helpers = [].
Proof.
  induction helpers as [|h helpers IH]; intros H; [done|]. rewrite helper_fds_cons. unfold fd_list. rewrite (H 0%nat h) by done. cbn. apply IH. intros k x Hk. by apply (H (S k)).
Qed.

(** A descriptor of the supervisor is closed, if there is one. *)
Lemma wp_close_own fd l w : NoDup (open_list fd ++ l) -> k_open (w_kernel w) = list_to_set (open_list fd ++ l) ->
  wp (when (negb (fd =? -1)) (close fd)) (fun _ w' => k_open (w_kernel w') = list_to_set l /\ w_cache w' = w_cache w /\ w_supervisor w' = w_supervisor w) w.
Proof.
  intros Hn Ho. unfold open_list in *. destruct (fd =? -1) eqn:E; cbn [negb when]; [by step|]. destruct (close_one fd _ _ l Hn Ho ltac:(done)) as (_ & A & B).
  unfold close. step. apply wp_open_get; [done|]. step. split; [|done]. cbn. exact A.
Qed.

Definition destroyed (c : resolver_cache) (w : world) : Prop := w_supervisor w = supervisor_zero /\ k_open (w_kernel w) = ∅ /\ w_cache w = c.

(** The rest of the destruction, once the jobs are gone. *)
Lemma wp_destroy_rest terminate w : remains w -> (forall b, s_assembly_budget (w_supervisor w) = Some b -> exists taken, budget_ok b taken) ->
  wp (s ← supervisor;
      match s_helpers s with [] => mret () | _ => for_each (helper_discard terminate) (seq 0 RESOLVER_SUPERVISOR_HELPER_COUNT) end ;;
      when (negb (s_timer_fd s =? -1)) (close (s_timer_fd s)) ;; when (negb (s_epoll_fd s =? -1)) (close (s_epoll_fd s)) ;;
      s ← supervisor; lift (resolver_ipc_assembly_budget_destroy (s_assembly_budget s)) ;; on_supervisor (fun _ => supervisor_zero)) (fun _ => destroyed (w_cache w)) w.
Proof.
  intros R Hb. do 3 step. eapply (wp_mono _ (fun _ w' => remains w' /\ outside w w' /\ helper_fds (helpers_of w') = [])).
  { destruct (helpers_of w) as [|h0 l0] eqn:E0.
    - step. split; [done|]. split; [done|]. by rewrite E0.
    - assert (Hc : length (helpers_of w) = RESOLVER_SUPERVISOR_HELPER_COUNT) by (destruct R as [_ _ [R3|R3]]; [by rewrite E0 in R3|done]). eapply wp_mono; [apply wp_helpers_discard; [done|]|].
      + apply list.Forall_forall. intros i Hi%list.elem_of_seq. apply lookup_lt_is_Some. lia.
      + cbv beta. intros _ w1 (R1 & O1 & L1 & _ & B1). split; [done|]. split; [done|]. apply helper_fds_closed. intros k h Hk. apply (B1 k); [|done]. apply list.elem_of_seq.
        apply lookup_lt_Some in Hk. lia. }
  cbv beta. intros _ w1 ([N1 O1 _] & (F1 & B1 & C1) & H1). injection F1 as E1 E2. unfold all_fds in N1, O1. rewrite H1, E1, E2, app_nil_r in N1, O1.
  step. eapply wp_mono; [eapply (wp_close_own _ (open_list (s_epoll_fd (w_supervisor w)))); [|rewrite O1; apply list_to_set_perm_L, Permutation_app_comm]; rewrite Permutation_app_comm; exact N1|].
  cbv beta. intros _ w2 (O2 & C2 & S2). step. eapply wp_mono; [eapply (wp_close_own _ []); rewrite app_nil_r; [|exact O2]|].
  { unfold open_list. destruct (_ =? -1); [apply NoDup_nil_2|apply NoDup_singleton]. }
  cbv beta. intros _ w3 (O3 & C3 & S3). do 3 step. rewrite S3, S2, B1. destruct (s_assembly_budget (w_supervisor w)) as [b|] eqn:Eb.
  - destruct (Hb b eq_refl) as [taken Hok]. destruct (budget_clear_spec _ b taken Hok (le_n _)) as (b' & Hcl & _). eapply wp_lift; [unfold resolver_ipc_assembly_budget_destroy; rewrite Hcl; reflexivity|].
    step. split; [done|]. split; [exact O3|]. cbn. congruence.
  - eapply wp_lift; [done|]. step. split; [done|]. split; [exact O3|]. cbn. congruence.
Qed.

Lemma inv_remains g w : inv g w -> remains w /\ forall b, s_assembly_budget (w_supervisor w) = Some b -> exists taken, budget_ok b taken.
Proof.
  intros Hi. destruct (i_descriptors _ _ Hi) as [D1 D2 D3 _]. assert (E : all_fds w = s_epoll_fd (w_supervisor w) :: s_timer_fd (w_supervisor w) :: helper_fds (helpers_of w)).
  { apply list.Forall_cons in D3 as [A D3]. apply list.Forall_cons in D3 as [B _]. unfold all_fds, open_list. replace (s_epoll_fd (w_supervisor w) =? -1) with false by lia.
    by replace (s_timer_fd (w_supervisor w) =? -1) with false by lia. }
  split; [split; [by rewrite E|by rewrite E|right; apply (ho_length _ _ _ _ _ (i_helpers _ _ Hi))]|]. intros b Hb. destruct (i_budget _ _ Hi) as (b' & taken & H1 & H2 & _). exists taken. congruence.
Qed.

(** Destroying a supervisor gives back everything it owns but what the callers have. *)
Lemma wp_resources_destroy g w terminate : running g w -> wp (resolver_supervisor_resources_destroy true terminate)
  (fun _ w' => destroyed (w_cache w') w' /\ holds (w_cache w') (g_refs g)) w.
Proof.
  intros [(q & d & Hi) Hc _]. unfold resolver_supervisor_resources_destroy. cbn [negb]. step.
  eapply wp_mono; [apply (wp_jobs_destroy_all g); [apply Hc|apply Hc|apply (dropped_of g _ (g_loose g)); exists q, d; by destruct g]|]. cbv beta. intros _ w1 ((loose & q1 & d1 & Hi1) & _ & J1).
  destruct (inv_remains _ _ Hi1) as [R1 B1]. eapply wp_mono; [by apply wp_destroy_rest|]. cbv beta. intros _ w2 H2. assert (E2 : w_cache w2 = w_cache w1) by apply H2.
  rewrite E2. split; [done|]. pose proof (i_refs _ _ Hi1) as Hr. rewrite J1 in Hr. cbn in Hr. unfold job_refs in Hr. rewrite fmap_empty, map_to_list_empty in Hr. cbn in Hr. by rewrite app_nil_r in Hr.
Qed.

(** ** Creation *)

Definition idle_ghost (refs : list Z) : ghost := {|
  g_queue := fun _ => []; g_done := []; g_hand := None; g_loose := unbound; g_stray := []; g_charges := []; g_refs := refs; g_unsettled := None; g_phase := false |}.
Definition first_helper : helper :=
  helper_zero <| h_fd := -1 |> <| h_last_failed_process_id := -1 |> <| h_next_cycle_id := 1 |> <| h_process_id := -1 |> <| h_state := RESOLVER_SUPERVISOR_HELPER_STOPPED |>.
Definition first_supervisor (now : timespec) (budget buckets helpers : bool) (epoll_fd timer_fd : Z) : resolver_supervisor :=
  supervisor_zero <| s_next_query_id := 1 |> <| s_last_now := now |> <| s_assembly_budget := resolver_ipc_assembly_budget_create budget |>
    <| s_buckets := if buckets : bool then replicate (Z.to_nat RESOLVER_SUPERVISOR_JOB_LIMIT) [] else [] |>
    <| s_helpers := if helpers : bool then replicate RESOLVER_SUPERVISOR_HELPER_COUNT first_helper else [] |> <| s_epoll_fd := epoll_fd |> <| s_timer_fd := timer_fd |>.

(** Before there are jobs there is nothing to drop. *)
Lemma wp_no_jobs w : s_buckets (w_supervisor w) = [] \/ s_buckets (w_supervisor w) = replicate (Z.to_nat RESOLVER_SUPERVISOR_JOB_LIMIT) [] ->
  wp resolver_supervisor_jobs_destroy_all (fun _ w' => w' = w) w.
Proof.
  intros Hb. unfold resolver_supervisor_jobs_destroy_all. do 2 step. destruct (s_buckets (w_supervisor w)) as [|b l] eqn:Eb; [by step|]. destruct Hb as [|Hb]; [done|].
  apply (wp_for_each _ (fun w' => w' = w)); [|done]. intros i w1 Hi%list.elem_of_seq ->. do 3 step. rewrite Eb, Hb. eapply wp_lift; [apply lookup_replicate_2; lia|]. cbv beta.
  cbn [length bucket_destroy]. do 3 step. rewrite Eb, Hb. eapply wp_lift; [apply lookup_replicate_2; lia|]. by step.
Qed.

(** The world of a supervisor that is being created. *)
Record beginning (c : resolver_cache) (now : timespec) (budget buckets helpers : bool) (epoll_fd timer_fd : Z) (w : world) : Prop := {
  bg_supervisor : w_supervisor w = first_supervisor now budget buckets helpers epoll_fd timer_fd; bg_cache : w_cache w = c;
  bg_open : k_open (w_kernel w) = list_to_set (open_list epoll_fd ++ open_list timer_fd); bg_nodup : NoDup (open_list epoll_fd ++ open_list timer_fd);
  bg_range : Forall (fun fd => 0 <= fd < k_next (w_kernel w)) (open_list epoll_fd ++ open_list timer_fd);
  bg_kernel : Forall received_bytes (k_recvs (w_kernel w)) /\ Forall started_process (k_starts (w_kernel w));
}.

Lemma first_helpers_fds n : helper_fds (replicate n first_helper) = [].
Proof. apply helper_fds_closed. intros k h [-> _]%lookup_replicate_1. done. Qed.

Lemma wp_create_failed c now bu bk he ep ti w : beginning c now bu bk he ep ti w -> wp (resolver_supervisor_destroy true ;; mret false) (fun b w' => b = false /\ destroyed c w') w.
Proof.
  intros [B1 B2 B3 B4 B5 B6]. unfold resolver_supervisor_destroy, resolver_supervisor_resources_destroy. cbn [negb]. do 2 step.
  eapply wp_mono; [apply wp_no_jobs; rewrite B1; destruct bk; [by right|by left]|]. cbv beta. intros _ w1 ->.
  assert (E : all_fds w = open_list ep ++ open_list ti).
  { unfold all_fds. rewrite B1. change (open_list ep ++ open_list ti ++ helper_fds (if he then replicate RESOLVER_SUPERVISOR_HELPER_COUNT first_helper else []) = open_list ep ++ open_list ti).
    destruct he; [rewrite first_helpers_fds|]; by rewrite app_nil_r. }
  assert (R : remains w).
  { split; rewrite ?E; [done|done|]. rewrite B1. destruct he; [right; apply length_replicate|by left]. }
  eapply wp_mono; [apply (wp_destroy_rest true w R)|].
  - rewrite B1. cbn. intros b Hb. exists []. destruct bu; [|done]. injection Hb as <-. split; try done; by constructor.
  - cbv beta. intros _ w2 H2. step. split; [done|]. by rewrite <- B2.
Qed.

Lemma dll_none m : dll m None None [].
Proof. split; try done. apply NoDup_nil_2. Qed.
Lemma concat_none {A} n : concat (replicate n (@nil A)) = [].
Proof. by induction n. Qed.
Lemma table_none : table_holds ∅ (replicate (Z.to_nat RESOLVER_SUPERVISOR_JOB_LIMIT) []).
Proof.
  split; try (by intros p o; rewrite lookup_empty).
  - apply length_replicate.
  - rewrite concat_none. apply NoDup_nil_2.
  - intros i chain p [-> _]%lookup_replicate_1. split; [by intros ?%list.elem_of_nil|]. intros (id & H & _). by rewrite lookup_empty in H.
Qed.

(** The invariant at the start: no helper has been started. *)
Lemma beginning_inv c now ep ti w refs : beginning c now true true true ep ti w -> ep <> -1 -> ti <> -1 -> holds c refs -> valid now ->
  inv (idle_ghost refs <| g_loose := awaiting (seq 0 RESOLVER_SUPERVISOR_HELPER_COUNT) |>) w.
Proof.
  intros [B1 B2 B3 B4 B5 [B6 B7]] He Ht Hr Hnow. assert (E : open_list ep ++ open_list ti = [ep; ti]).
  { unfold open_list. replace (ep =? -1) with false by lia. by replace (ti =? -1) with false by lia. }
  rewrite E in *. assert (Hh : s_helpers (w_supervisor w) = replicate RESOLVER_SUPERVISOR_HELPER_COUNT first_helper) by (by rewrite B1).
  assert (Hf : forall i h, s_helpers (w_supervisor w) !! i = Some h -> h = first_helper /\ (i < RESOLVER_SUPERVISOR_HELPER_COUNT)%nat) by (intros i h; rewrite Hh; apply lookup_replicate_1).
  assert (Hj : s_jobs (w_supervisor w) = ∅) by (by rewrite B1).
  split.
  - rewrite Hj, B1. split; try (by intros p j; rewrite lookup_empty); intros pr; destruct pr; try done; apply dll_none.
  - rewrite Hj, B1. split; try (by intros p j; rewrite lookup_empty). apply dll_none.
  - rewrite Hj, fmap_empty, B1. apply table_none.
  - rewrite Hj, fmap_empty, B2. cbn. unfold job_refs. rewrite map_to_list_empty. cbn. by rewrite app_nil_r.
  - rewrite Hj, fmap_empty, B1. eexists _, []. split; [done|]. split; [split; try done; by constructor|]. unfold job_charges, job_handles. rewrite map_to_list_empty. by repeat split.
  - rewrite Hh. rewrite B1. split; rewrite ?first_helpers_fds; [done|done|done|]. intros i h [-> _]%lookup_replicate_1. by intros [].
  - rewrite Hj. split; try (by intros p j; rewrite lookup_empty); [rewrite Hh; apply length_replicate| |].
    + intros i h [-> Hi]%Hf Hl. exfalso. change (awaiting (seq 0 RESOLVER_SUPERVISOR_HELPER_COUNT) i = false) in Hl. apply bool_decide_eq_false in Hl. apply Hl, list.elem_of_seq. lia.
    + intros i h [-> _]%Hf _. by left.
  - intros i h [-> _]%Hf. by intros [].
  - intros p j. by rewrite Hj, lookup_empty.
  - intros p j. by rewrite Hj, lookup_empty.
  - split; [by rewrite B1|]. split; [intros p j; by rewrite Hj, lookup_empty|]. intros i h [-> _]%Hf. split; [apply valid_zero|done].
  - done.
  - intros p. rewrite Hj, lookup_empty. by intros [].
  - rewrite Hj. by rewrite B1.
  - by rewrite B1.
  - by rewrite B1.
  - done.
Qed.

Lemma awaiting_less i l (k : nat) : i ∉ l -> awaiting l k = set_loose i false (awaiting (i :: l)) k.
Proof.
  intros Hn. unfold set_loose, awaiting. case_bool_decide as E; case_bool_decide as E2; try done; [by subst| |].
  - symmetry. apply bool_decide_eq_true. by right.
  - symmetry. apply bool_decide_eq_false. by intros [?|?]%list.elem_of_cons.
Qed.

Lemma wp_spawn_all g w l now : inv (g <| g_loose := awaiting l |>) w -> g_hand g = None -> g_phase g = false -> s_shutting_down (w_supervisor w) = false -> valid now -> NoDup l ->
  (forall i, i ∈ l -> exists h, helpers_of w !! i = Some h /\ h_fd h = -1) ->
  wp (for_each (fun i => resolver_supervisor_helper_spawn i now ;; mret ()) l) (fun _ w' => inv (g <| g_loose := awaiting [] |>) w' /\ frozen w w') w.
Proof.
  revert w. induction l as [|i l IH]; intros w Hi Hh Hp Hd Hnow Hn Hl; cbn [for_each]; [step; by split|]. apply list.NoDup_cons in Hn as [Hni Hn].
  destruct (Hl i) as (h & Hhi & Hf); [by left|]. assert (Hli : awaiting (i :: l) i = true) by (apply bool_decide_eq_true; by left).
  pose proof (loose_idle _ _ _ _ Hi Hh Hli Hhi) as Hj. do 2 step. eapply wp_mono; [eapply wp_spawn; [exact Hi|exact Hli|exact Hhi|done|done|done|done|done]|]. cbv beta.
  intros _ w1 (Hi1 & h1 & S1). step. apply (inv_loose_helpers _ _ (awaiting l)) in Hi1; [|intros k x _; by apply awaiting_less].
  eapply wp_mono; [apply (IH w1); [by destruct g|done|done|by rewrite (hs_down _ _ _ _ S1)|done|done|]|].
  - intros k Hk. destruct (Hl k) as (x & Hx & Hfx); [by right|]. exists x. rewrite (hs_helpers _ _ _ _ S1), list_lookup_insert_ne; [done|]. by intros ->.
  - cbv beta. intros _ w2 (Hi2 & F2). split; [done|]. eapply frozen_trans; [|exact F2]. split; [apply (hs_down _ _ _ _ S1)|apply (hs_now _ _ _ _ S1)].
Qed.

(** The kernel before a supervisor is created, which owns nothing in it yet. *)
Record vacant (w : world) : Prop := {
  va_open : k_open (w_kernel w) = ∅; va_next : 0 <= k_next (w_kernel w);
  va_kernel : Forall received_bytes (k_recvs (w_kernel w)) /\ Forall started_process (k_starts (w_kernel w));
}.
Lemma vacant_quiet w w' : quiet w w' -> vacant w -> vacant w'.
Proof. intros (m & _ & _ & [K1 K2 K3 K4 K5]) [V1 V2 [V3 V4]]. split; [congruence|lia|tauto]. Qed.

(** What the creation of the descriptors leaves. *)
Definition described (fds : list Z) (w : world) : Prop :=
  k_open (w_kernel w) = list_to_set fds /\ NoDup fds /\ Forall (fun fd => 0 <= fd < k_next (w_kernel w)) fds /\ 0 <= k_next (w_kernel w) /\
  Forall received_bytes (k_recvs (w_kernel w)) /\ Forall started_process (k_starts (w_kernel w)).
Lemma wp_descriptor_create fds w : described fds w -> wp descriptor_create (fun fd w' => described (open_list fd ++ fds) w' /\ w_cache w' = w_cache w /\ -1 <= fd) w.
Proof.
  intros (D1 & D2 & D3 & D4 & D5 & D6). unfold descriptor_create. step. apply wp_quietly; [auto with quiet|]. intros b w1 (m & _ & C1 & [K1 K2 K3 K4 K5]).
  assert (D1' : described fds w1) by (split; [congruence|]; split; [done|]; split; [eapply Forall_impl; [exact D3|cbn; lia]|]; split; [lia|tauto]). rewrite <- C1.
  clear D1 D2 D3 D4 D5 D6 K1 K2 K3 K4 K5 C1. destruct D1' as (D1 & D2 & D3 & D4 & D5 & D6). destruct b; cbn [negb]; [|step; split; [done|]; by split].
  unfold fresh_address. do 9 step. assert (Hf : (k_next (w_kernel w1) =? -1) = false) by lia. unfold open_list. rewrite Hf. split; [|split; [done|lia]]. split; [|split; [|split; [|split; [|done]]]]; cbn.
  - by rewrite D1.
  - apply list.NoDup_cons. split; [|done]. intros Hx. eapply list.Forall_forall in D3; [|exact Hx]. lia.
  - apply list.Forall_cons. split; [lia|]. eapply Forall_impl; [exact D3|]. cbn. lia.
  - lia.
Qed.

Lemma described_beginning now bu bk he ep ti w : described (open_list ti ++ open_list ep) w ->
  beginning (w_cache w) now bu bk he ep ti (w <| w_supervisor ::= (fun _ => first_supervisor now bu bk he ep ti) |>).
Proof.
  intros (D1 & D2 & D3 & D4 & D5). pose proof (Permutation_app_comm (open_list ti) (open_list ep)) as P. split; try done; cbn.
  - rewrite D1. by apply list_to_set_perm_L.
  - by rewrite <- P.
  - by rewrite <- P.
Qed.
Lemma beginning_registered c now bu bk he ep ti w f ctls : beginning c now bu bk he ep ti w ->
  beginning c now bu bk he ep ti (w <| w_kernel ::= (fun k => k <| k_epoll_ctls := ctls |> <| k_registered ::= f |>) |>).
Proof. by intros [B1 B2 B3 B4 B5 B6]. Qed.

Definition create_end (refs : list Z) (w : world) (b : bool) (w' : world) : Prop :=
  if b then running (idle_ghost refs) w' /\ s_shutting_down (w_supervisor w') = false else k_open (w_kernel w') = ∅ /\ holds (w_cache w') refs.

Lemma wp_create_helpers c refs now ep ti w : beginning c now true true true ep ti w -> ep <> -1 -> ti <> -1 -> holds c refs -> valid now ->
  wp (for_each (fun i => resolver_supervisor_helper_spawn i now ;; mret ()) (seq 0 RESOLVER_SUPERVISOR_HELPER_COUNT) ;;
      armed ← resolver_supervisor_timer_rearm; if negb armed then resolver_supervisor_destroy true ;; mret false else mret true) (create_end refs w) w.
Proof.
  intros B He Ht Hr Hnow. pose proof (beginning_inv _ _ _ _ _ _ B He Ht Hr Hnow) as Hi. assert (Hd : s_shutting_down (w_supervisor w) = false) by (by rewrite (bg_supervisor _ _ _ _ _ _ _ _ B)).
  step. eapply wp_mono; [eapply (wp_spawn_all (idle_ghost refs)); [exact Hi|done|done|done|done|apply list.NoDup_seq|]|].
  - intros i Hin%list.elem_of_seq. exists first_helper. rewrite (bg_supervisor _ _ _ _ _ _ _ _ B). split; [apply lookup_replicate_2; lia|done].
  - cbv beta. intros _ w1 (Hi1 & [D1 _]). apply (inv_loose_helpers _ _ unbound) in Hi1; [|intros k h _; symmetry; apply awaiting_none].
    assert (H1 : holding (idle_ghost refs) w1) by (exists (fun _ => []), []; exact Hi1). step. apply wp_quietly; [by apply (quietly_rearm (idle_ghost refs))|]. intros b w2 Q2.
    assert (R2 : running (idle_ghost refs) w2).
    { split; [by eapply holding_quiet|by split|]. rewrite (st_down _ _ (quiet_steady _ _ Q2)). cbn. congruence. }
    destruct b; cbn [negb].
    + step. split; [done|]. rewrite (st_down _ _ (quiet_steady _ _ Q2)). congruence.
    + step. unfold resolver_supervisor_destroy. eapply wp_mono; [by apply (wp_resources_destroy (idle_ghost refs))|]. cbv beta. intros _ w3 ((_ & O3 & _) & Hr3). step. by split.
Qed.

Lemma failed_end refs c (w : world) (b : bool) w' : holds c refs -> b = false /\ destroyed c w' -> create_end refs w b w'.
Proof. intros Hr (-> & _ & A & B). split; [done|]. by rewrite B. Qed.

Lemma wp_create refs w mask now : vacant w -> holds (w_cache w) refs -> clock now -> wp (resolver_supervisor_create mask now) (create_end refs w) w.
Proof.
  intros V Hr Hc. unfold resolver_supervisor_create. destruct mask; [|step; split; [apply V|done]]. destruct now as [t|]; [|step; split; [apply V|done]].
  destruct (timeutil_valid (Some t)) eqn:Et; cbn [negb]; [|step; split; [apply V|done]]. assert (Hnow : valid t) by (split; [done|by apply Hc]).
  step. apply wp_quietly; [auto with quiet|]. intros allocated w1 Q1. pose proof (vacant_quiet _ _ Q1 V) as V1. rewrite <- (quiet_cache _ _ Q1) in Hr. clear Q1 V.
  destruct allocated; cbn [negb]; [|step; split; [apply V1|done]].
  step. apply wp_quietly; [auto with quiet|]. intros budget w2 Q2. step. apply wp_quietly; [auto with quiet|]. intros buckets w3 Q3. step. apply wp_quietly; [auto with quiet|]. intros helpers w4 Q4.
  pose proof (quiet_trans _ _ _ (quiet_trans _ _ _ Q2 Q3) Q4) as Q. pose proof (vacant_quiet _ _ Q V1) as [V2 V3 [V4 V5]]. rewrite <- (quiet_cache _ _ Q) in Hr. clear Q Q2 Q3 Q4 V1 w1 w2 w3.
  step. eapply wp_mono; [apply (wp_descriptor_create []); split; [done|]; split; [apply NoDup_nil_2|]; by split; [constructor|]|]. cbv beta. intros ep w5 (D5 & C5 & E5). rewrite app_nil_r in D5.
  step. eapply wp_mono; [by apply wp_descriptor_create|]. cbv beta. intros ti w6 (D6 & C6 & E6). assert (Hr6 : holds (w_cache w6) refs) by congruence. clear D5 C5 C6 Hr V2 V3 V4 V5 w4 w5.
  do 2 step. fold first_helper. fold (first_supervisor t budget buckets helpers ep ti). pose proof (described_beginning t budget buckets helpers ep ti w6 D6) as B. revert B. generalize (w6 <| w_supervisor ::= fun _ => first_supervisor t budget buckets helpers ep ti |>).
  intros w7 B. cbv zeta. step.
  { eapply wp_mono; [by eapply wp_create_failed|]. cbv beta. intros b w8. by apply failed_end. }
  destruct budget, buckets, helpers; try done. cbn [negb orb] in E. apply orb_false_iff in E as [Ee Eti]. unfold epoll_set. do 7 step.
  pose proof (beginning_registered _ _ _ _ _ _ _ w7 (if b then <[ti := EPOLLIN]> else id) l B) as B8. revert B8.
  generalize (w7 <| w_kernel ::= fun k => k <| k_epoll_ctls := l |> <| k_registered ::= (if b then <[ti := EPOLLIN]> else id) |> |>). intros w8 B8. destruct b; cbn [negb].
  - eapply wp_mono; [eapply wp_create_helpers; [exact B8|lia|lia|done|done]|]. cbv beta. by intros b w9.
  - eapply wp_mono; [by eapply wp_create_failed|]. cbv beta. intros b w9. by apply failed_end.
Qed.
