(* ===== verification/SupervisorStops.v ===== *)
(** * The helpers stop

    Once the supervisor is shutting down, a helper changes only by stopping: it does so when
    its channel ends or fails, and at the latest when its grace period is over. *)

From S2P Require Import Prelude Stateful Dll TimeUtil Metrics ResolverUtil Cache Ipc IpcAssembly Helper Supervisor SupervisorDelay SupervisorInv SupervisorJobs SupervisorHelpers SupervisorSteps SupervisorReplies SupervisorTimers SupervisorRequests SupervisorLife.
From stdpp Require Import gmap.
#[local] Open Scope Z_scope.
#[local] Abbreviation prog := (prog world).

Section Stops.
Context (g : ghost) (Hphase : g_phase g = true).

(** A helper is as it was, or has stopped. *)
Definition only_stops (i : nat) (w w' : world) : Prop :=
  forall h', helpers_of w' !! i = Some h' -> helpers_of w !! i = Some h' \/ h_state h' = RESOLVER_SUPERVISOR_HELPER_STOPPED.
Definition wound (i : nat) (w w' : world) : Prop := kept g i w w' /\ only_stops i w w'.

Lemma wound_refl i w : running g w -> wound i w w.
Proof. intros R. split; [by apply kept_here|]. by left. Qed.
Lemma wound_trans i w1 w2 w3 : wound i w1 w2 -> wound i w2 w3 -> wound i w1 w3.
Proof.
  intros [K1 S1] [K2 S2]. split; [exact (kept_then _ _ _ _ _ K1 K2)|]. intros h Hh. destruct (S2 h Hh) as [Hh2|]; [|by right]. by apply S1.
Qed.
Lemma running_wound i w w' : running g w -> wound i w w' -> running g w'.
Proof. intros R [K _]. by eapply running_kept. Qed.
Lemma wound_quiet i w w' : running g w -> quiet w w' -> wound i w w'.
Proof.
  intros [H Hc Hp] Q. split; [split; [by eapply holding_quiet|by apply still_aside, quiet_still]|]. intros h. rewrite (quiet_helpers _ _ Q). by left.
Qed.

(** The two states of a helper. *)
Lemma stopping_states w i h : running g w -> helpers_of w !! i = Some h ->
  (h_state h = RESOLVER_SUPERVISOR_HELPER_SHUTTING_DOWN /\ h_fd h <> -1) \/ (h_state h = RESOLVER_SUPERVISOR_HELPER_STOPPED /\ h_fd h = -1).
Proof.
  intros R Hh. destruct (running_fits _ _ _ _ R Hh) as [jobs Hf]. unfold helper_fits in Hf. rewrite Hphase in Hf.
  destruct (h_state h); try (by destruct Hf as (_ & _ & ?)); destruct Hf as (_ & ? & _); [by left|by right].
Qed.

Lemma wp_fail_stops w i failure now : running g w -> (i < RESOLVER_SUPERVISOR_HELPER_COUNT)%nat -> valid now -> wp (resolver_supervisor_helper_fail i failure now) (fun _ => wound i w) w.
Proof.
  intros R Hl Hnow. destruct (running_helper g w i R Hl) as [h Hh]. assert (R0 := R). destruct R0 as [H Hc Hp]. eapply wp_mono; [by eapply wp_helper_fail|].
  cbv beta. intros _ w' (H' & A & h' & Hh' & Hf & _). assert (K : kept g i w w') by (by split). split; [done|]. intros x Hx. right.
  destruct (stopping_states w' i x (running_kept _ _ _ _ R K) Hx) as [[_ Hx']|[Hx' _]]; [congruence|done].
Qed.
Lemma wp_stop_stops w i h force : running g w -> helpers_of w !! i = Some h -> h_state h = RESOLVER_SUPERVISOR_HELPER_SHUTTING_DOWN ->
  wp (resolver_supervisor_helper_stop i force) (fun _ w' => wound i w w' /\ forall h', helpers_of w' !! i = Some h' -> h_state h' = RESOLVER_SUPERVISOR_HELPER_STOPPED) w.
Proof.
  intros R Hh Hs. destruct (running_fits _ _ _ _ R Hh) as [jobs Hf]. unfold helper_fits in Hf. rewrite Hs in Hf. destruct Hf as (Hj & Hfd & Hp).
  destruct R as [Hi Hc _]. eapply wp_mono; [by eapply wp_helper_stop|]. cbv beta. intros _ w' (A & B & h' & Hh' & Hs'). assert (Hx : forall x, helpers_of w' !! i = Some x -> h_state x = RESOLVER_SUPERVISOR_HELPER_STOPPED) by (intros x Hx; congruence).
  split; [|done]. split; [by split|]. intros x Hx'. right. by apply Hx.
Qed.

Lemma wp_drain_stops recvs w i now : running g w -> (i < RESOLVER_SUPERVISOR_HELPER_COUNT)%nat -> valid now -> Forall received_bytes recvs -> wp (drain_loop recvs i now) (fun _ => wound i w) w.
Proof.
  revert w. induction recvs as [|a recvs IH]; intros w R Hl Hnow Hr; destruct (running_helper g w i R Hl) as [h Hh]; assert (R0 := R); destruct R0 as [(q & d & Hi) _ _];
    cbn [drain_loop]; (step; eapply wp_helper_get; [done|]); (step; [step; by apply wound_refl|]);
    (step; apply wp_open_get; [apply (inv_fd_open _ _ i h Hi); [done|lia]|]); do 2 step; set (w1 := w <| w_kernel ::= _ |>).
  - step. apply wound_quiet; [done|]. apply quiet_kernel. by split.
  - apply list.Forall_cons in Hr as [Ha Hr]. assert (Q : quiet w w1) by (apply quiet_kernel; by split). pose proof (wound_quiet i w w1 R Q) as W1. pose proof (running_wound _ _ _ R W1) as R1.
    assert (Hh1 : helpers_of w1 !! i = Some h) by done. clearbody w1. destruct (stopping_states w i h R Hh) as [[Hs Hf]|[_ Hf]]; [|lia].
    assert (Hmore : forall w2 (m : prog unit), wound i w w2 -> wp m (fun _ => wound i w2) w2 -> wp m (fun _ => wound i w) w2).
    { intros w2 m W2 Hm. eapply wp_mono; [exact Hm|]. cbv beta. intros _ w3 W3. exact (wound_trans _ _ _ _ W2 W3). }
    destruct a as [record|errno]; cbn [received_bytes] in Ha.
    + cbv zeta. step.
      * step. unfold packet_received. step. eapply wp_helper_get; [done|]. rewrite bool_decide_eq_true_2 by done. step. cbv beta iota. apply Hmore; [done|]. by apply IH.
      * unfold zero_received. step. eapply wp_helper_get; [done|]. rewrite bool_decide_eq_true_2 by done. step. assert (R1' := R1). destruct R1' as [(q1 & d1 & Hi1) _ _].
        apply wp_quietly; [apply quietly_zero_is_end; by apply (inv_fd_open _ _ i h Hi1)|]. intros b w2 Q2. pose proof (wound_trans _ _ _ _ W1 (wound_quiet i w1 w2 R1 Q2)) as W2.
        pose proof (running_wound _ _ _ R W2) as R2. assert (Hh2 : helpers_of w2 !! i = Some h) by (by rewrite (quiet_helpers _ _ Q2)). step.
        -- apply Hmore; [done|]. eapply wp_mono; [by eapply wp_stop_stops|]. by intros _ w3 [? _].
        -- step. assert (R2' := R2). destruct R2' as [(q2 & d2 & Hi2) _ _]. apply wp_quietly; [apply quietly_zero_is_end; by apply (inv_fd_open _ _ i h Hi2)|]. intros b' w3 Q3.
           pose proof (wound_trans _ _ _ _ W2 (wound_quiet i w2 w3 R2 Q3)) as W3. apply Hmore; [done|]. apply wp_fail_stops; [exact (running_wound _ _ _ R W3)|done|done].
    + step; [apply Hmore; [done|]; by apply IH|]. step; [by step|]. apply Hmore; [done|]. by apply wp_fail_stops.
Qed.
Lemma wp_drained w i now : running g w -> (i < RESOLVER_SUPERVISOR_HELPER_COUNT)%nat -> valid now -> wp (resolver_supervisor_helper_drain i now) (fun _ => wound i w) w.
Proof.
  intros R Hl Hnow. unfold resolver_supervisor_helper_drain. do 2 step. apply wp_drain_stops; try done. destruct R as [(q & d & Hi) _ _]. apply (i_kernel _ _ Hi).
Qed.

Lemma wp_ready_stops w i events now : running g w -> (i < RESOLVER_SUPERVISOR_HELPER_COUNT)%nat -> valid now -> wp (helper_ready i events now) (fun _ => wound i w) w.
Proof.
  intros R Hl Hnow. destruct (running_helper g w i R Hl) as [h Hh].
  assert (Hmore : forall w2 (m : prog unit), wound i w w2 -> wp m (fun _ => wound i w2) w2 -> wp m (fun _ => wound i w) w2).
  { intros w2 m W2 Hm. eapply wp_mono; [exact Hm|]. cbv beta. intros _ w3 W3. exact (wound_trans _ _ _ _ W2 W3). }
  assert (Hdrain : forall w1, wound i w w1 -> wp (resolver_supervisor_helper_drain i now) (fun _ => wound i w) w1).
  { intros w1 W1. apply Hmore; [done|]. apply wp_drained; [exact (running_wound _ _ _ R W1)|done|done]. }
  unfold helper_ready. step. eapply wp_helper_get; [done|]. step.
  replace (bool_decide (h_state h = RESOLVER_SUPERVISOR_HELPER_SENDING)) with false.
  2:{ symmetry. apply bool_decide_eq_false. intros E. by destruct (stopping_states w i h R Hh) as [[E2 _]|[E2 _]]; rewrite E in E2. }
  rewrite andb_false_r. cbn [when]. step. step. eapply wp_helper_get; [done|]. step. eapply (wp_mono _ (fun _ => wound i w)); [|cbv beta; intros _ w2 W2].
  { apply wp_when; [|intros _; by apply wound_refl]. intros _. apply Hdrain. by apply wound_refl. }
  destruct (running_helper g w2 i (running_wound _ _ _ R W2) Hl) as [h2 Hh2]. step. eapply wp_helper_get; [done|]. apply wp_when; [|done]. intros _. step.
  eapply wp_mono; [by apply Hdrain|]. cbv beta. intros _ w3 W3. pose proof (running_wound _ _ _ R W3) as R3. destruct (running_helper g w3 i R3 Hl) as [h3 Hh3].
  step. eapply wp_helper_get; [done|]. apply wp_when; [|done]. intros _. apply Hmore; [done|]. case_bool_decide as Es; [|by apply wp_fail_stops].
  eapply wp_mono; [by eapply wp_stop_stops|]. by intros _ w4 [? _].
Qed.

(** After its timers a helper that has not stopped waits for a later time. *)
Definition timed_out (now : timespec) (i : nat) (w : world) : Prop :=
  forall h, helpers_of w !! i = Some h -> h_state h = RESOLVER_SUPERVISOR_HELPER_STOPPED \/ (0 <=? timeutil_compare now (h_next_event_at h)) = false.

Lemma wp_timers_stop w i now : running g w -> (i < RESOLVER_SUPERVISOR_HELPER_COUNT)%nat -> valid now -> wp (helper_timers i now) (fun _ w' => wound i w w' /\ timed_out now i w') w.
Proof.
  intros R Hl Hnow. destruct (running_helper g w i R Hl) as [h Hh]. unfold helper_timers. step. unfold helper_timeout. step. eapply wp_helper_get; [done|].
  destruct (stopping_states w i h R Hh) as [[Hs Hf]|[Hs Hf]].
  - rewrite Hs. step. step. eapply wp_helper_get; [done|]. step. rewrite Hs. cbn [serving]. rewrite andb_false_r. cbn [andb when]. step. step. eapply wp_helper_get; [done|]. rewrite Hs.
    rewrite bool_decide_eq_false_2, bool_decide_eq_true_2 by done. cbn [andb]. apply wp_when.
    + intros _. eapply wp_mono; [by eapply wp_stop_stops|]. cbv beta. intros _ w' [W Hx]. split; [done|]. intros x Hx'. left. by apply Hx.
    + intros E. split; [by apply wound_refl|]. intros x Hx. right. congruence.
  - rewrite Hs. step. step. eapply wp_helper_get; [done|]. step. rewrite Hs. cbn [serving]. rewrite andb_false_r. cbn [andb when]. step. step. eapply wp_helper_get; [done|]. rewrite Hs.
    rewrite !bool_decide_eq_false_2 by done. cbn [andb when]. step. split; [by apply wound_refl|]. intros x Hx. left. congruence.
Qed.

(** The helpers of a turn: as they were, or stopped. *)
Definition all_stop (w w' : world) : Prop := going g w w' /\ forall i, only_stops i w w'.
Lemma all_stop_refl w : running g w -> all_stop w w.
Proof. intros R. split; [done|]. by left. Qed.
Lemma all_stop_wound w i w1 w2 : all_stop w w1 -> wound i w1 w2 -> all_stop w w2.
Proof.
  intros [G S] [K W]. split; [by eapply going_kept|]. intros k h Hk. destruct (decide (k = i)) as [->|Hne].
  - destruct (W h Hk) as [Hk'|]; [by apply S|by right].
  - destruct K as [_ A]. rewrite (ad_helpers _ _ _ A) in Hk by done. by apply S.
Qed.
Lemma all_stop_steady w w1 w2 : all_stop w w1 -> holding g w2 -> steady w1 w2 -> all_stop w w2.
Proof. intros [G S] H St. split; [by eapply going_steady|]. intros k h. rewrite (st_helpers _ _ St). apply S. Qed.
Lemma all_stop_quiet w w1 w2 : all_stop w w1 -> quiet w1 w2 -> all_stop w w2.
Proof. intros A Q. eapply all_stop_steady; [exact A| |by apply quiet_steady]. eapply holding_quiet; [exact Q|]. apply A. Qed.

Lemma wp_all_ready w w0 f : all_stop w0 w -> (forall i w, (i < RESOLVER_SUPERVISOR_HELPER_COUNT)%nat -> running g w -> wp (f i) (fun _ => wound i w) w) ->
  wp (for_each f (seq 0 RESOLVER_SUPERVISOR_HELPER_COUNT)) (fun _ => all_stop w0) w.
Proof.
  intros A Hf. apply (wp_for_each _ (all_stop w0)); [|done]. intros i w1 Hi%list.elem_of_seq A1. eapply wp_mono; [apply Hf; [lia|apply A1]|]. cbv beta. intros _ w2 W. by eapply all_stop_wound.
Qed.
Lemma wp_all_timers l w w0 now : all_stop w0 w -> NoDup l -> Forall (fun i => i < RESOLVER_SUPERVISOR_HELPER_COUNT)%nat l -> valid now ->
  wp (for_each (fun i => helper_timers i now) l) (fun _ w' => all_stop w0 w' /\ (forall i, i ∉ l -> helpers_of w' !! i = helpers_of w !! i) /\ forall i, i ∈ l -> timed_out now i w') w.
Proof.
  revert w. induction l as [|i l IH]; intros w A Hn Hl Hnow; cbn [for_each]; [step; split; [done|]; split; [done|]; by intros i Hi%list.elem_of_nil|].
  apply list.NoDup_cons in Hn as [Hni Hn]. apply list.Forall_cons in Hl as [Hli Hl]. step. eapply wp_mono; [apply wp_timers_stop; [apply A|done|done]|]. cbv beta. intros _ w1 [W1 T1].
  eapply wp_mono; [apply (IH w1); [by eapply all_stop_wound|done|done|done]|]. cbv beta. intros _ w2 (A2 & F2 & T2). split; [done|]. split.
  - intros k Hk. rewrite list.elem_of_cons in Hk. destruct W1 as [[_ Ad] _]. rewrite F2 by tauto. apply (ad_helpers _ _ _ Ad). tauto.
  - intros k [->|Hk]%list.elem_of_cons; [|by apply T2]. intros h Hh. rewrite F2 in Hh by done. by apply T1.
Qed.

Lemma wp_events_stop w now : running g w -> tv_sec now < 2 ^ 63 -> wp (resolver_supervisor_events_process true (Some now)) (fun status w' => (forall i, only_stops i w w') /\
  (status = RESOLVER_SUPERVISOR_EVENT_OK -> valid now /\ forall i h, helpers_of w' !! i = Some h -> h_state h = RESOLVER_SUPERVISOR_HELPER_STOPPED \/
    (helpers_of w !! i = Some h /\ (0 <=? timeutil_compare now (h_next_event_at h)) = false))) w.
Proof.
  intros R Hc. unfold resolver_supervisor_events_process. step. apply wp_time_update; [by intros t [= <-]|cbn [negb]; step; split; [by left|done]|]. intros t' [= <-] Ht _. cbn [negb].
  pose proof (running_timed _ _ _ R Ht) as R1. unfold only_stops. change (helpers_of w) with (helpers_of (timed now w)). set (w1 := timed now w) in *. clearbody w1. clear R w.
  assert (Hend : forall w', all_stop w1 w' -> (forall i h', helpers_of w' !! i = Some h' -> helpers_of w1 !! i = Some h' \/ h_state h' = RESOLVER_SUPERVISOR_HELPER_STOPPED)) by (by intros w' [_ S]).
  do 2 step. destruct (epoll_retry (k_epoll_waits (w_kernel w1))) as [a l]. do 2 step. set (w2 := w1 <| w_kernel ::= _ |>). assert (Q2 : quiet w1 w2) by (apply quiet_kernel; by split). clearbody w2.
  pose proof (all_stop_quiet _ _ _ (all_stop_refl w1 R1) Q2) as A2. destruct a as [errno|events]; [step; split; [by apply Hend|done]|].
  destruct (events_sort _ _ _) as [[helper_events timer_ready]|]; [|step; split; [by apply Hend|done]].
  step. eapply wp_mono; [eapply (wp_all_ready w2 w1); [done|]|]. { intros i w3 Hi R3. by apply wp_ready_stops. }
  cbv beta. intros _ w3 A3. step. eapply (wp_mono _ (fun _ => all_stop w1)); [|cbv beta; intros drained w4 A4].
  { destruct timer_ready; [|by step]. apply wp_quietly; [apply quietly_timer_drain|]. intros b w4 Q. by eapply all_stop_quiet. }
  step; [step; split; [by apply Hend|done]|]. step. unfold resolver_supervisor_timers_process_helpers. eapply wp_mono; [eapply (wp_all_timers _ w4 w1); [done|apply list.NoDup_seq|apply list.Forall_seq; lia|done]|].
  cbv beta. intros _ w5 (A5 & _ & T5). step. eapply wp_mono; [eapply (wp_timers_jobs g); apply A5|]. cbv beta. intros _ w6 (H6 & S6 & _). pose proof (all_stop_steady _ _ _ A5 H6 S6) as A6.
  step. unfold resolver_supervisor_dispatch. do 3 step; [|exfalso; destruct A6 as [([_ _ P6] & _) _]; congruence]. step. step. apply wp_quietly; [apply (quietly_rearm g), A6|]. intros armed w8 Q8.
  step. pose proof (all_stop_quiet _ _ _ A6 Q8) as A8. split; [by apply Hend|]. intros _. split; [done|]. intros i h. rewrite (quiet_helpers _ _ Q8), (st_helpers _ _ S6). intros Hh.
  destruct A5 as [([(q & d & Hi5) _ _] & _) S5]. destruct (T5 i) with (h := h) as [Hx|Hx]; [|done|by left|].
  - apply list.elem_of_seq. pose proof (lookup_lt_Some _ _ _ Hh) as X. rewrite (ho_length _ _ _ _ _ (i_helpers _ _ Hi5)) in X. lia.
  - destruct (S5 i h Hh) as [Hy|Hy]; [right; by split|by left].
Qed.
End Stops.
