(* ===== verification/SupervisorSafe.v ===== *)
(** * What the supervisor guarantees to its callers

    The states of a supervisor its callers can bring about, together with the references
    and the completions they hold, whatever the kernel and the allocator answer; and what
    holds in all of them. *)

From S2P Require Import Prelude Stateful Dll TimeUtil Metrics ResolverUtil Cache Ipc IpcAssembly Helper Supervisor SupervisorDelay SupervisorInv SupervisorJobs SupervisorHelpers SupervisorSteps SupervisorReplies SupervisorTimers SupervisorRequests SupervisorLife SupervisorStops.
From stdpp Require Import gmap.
#[local] Open Scope Z_scope.
#[local] Abbreviation prog := (prog world).

(** ** References acquired from the cache *)

Lemma holds_same_table c c' l : holds c l -> same_table c c' -> cache_ok c' -> holds c' l.
Proof. intros [_ H] [m ->] Hok. by split. Qed.
Lemma entry_get_linked c c' e0 k : cache_ok c -> cache_ok c' -> Permutation (entries c') (e0 :: entries c) -> entry_get c' k = if k =? e_id e0 then Some e0 else entry_get c k.
Proof.
  intros Hok Hok' Hp. destruct (k =? e_id e0) eqn:E.
  - apply Z.eqb_eq in E as ->. apply entry_get_elem; [done|]. rewrite Hp. by left.
  - destruct (entry_get c k) as [e|] eqn:Ek.
    + apply entry_get_Some in Ek as [Hin <-]. apply entry_get_elem; [done|]. rewrite Hp. by right.
    + destruct (entry_get c' k) as [e|] eqn:Ek'; [|done]. apply entry_get_Some in Ek' as [Hin Hid]. rewrite Hp in Hin. apply list.elem_of_cons in Hin as [->|Hin]; [lia|].
      apply (entry_get_elem c e Hok) in Hin. congruence.
Qed.
Lemma entry_get_next c : cache_ok c -> entry_get c (next_entry_id c) = None.
Proof.
  intros Hok. destruct (entry_get c (next_entry_id c)) as [e|] eqn:E; [|done]. apply entry_get_Some in E as [Hin Hid]. destruct (to_next _ _ _ _ _ Hok) as [_ H].
  eapply list.Forall_forall in H; [|exact Hin]. cbn in H. lia.
Qed.
Lemma holds_acquire c l name t alloc : holds c l -> exists c' r s, resolver_cache_entry_acquire c name t alloc = Some (c', r, s) /\ holds c' (option_list r ++ l).
Proof.
  intros H. destruct (acquire_spec c name t alloc (proj1 H)) as (c' & r & s & Ha & Hok & Hs). exists c', r, s. split; [done|]. assert (H0 := H). destruct H0 as [Hc Hr].
  destruct s; try (destruct Hs as [-> Hs]; by eapply holds_same_table). destruct Hs as (n & _ & _ & Hl). destruct (cache_lookup c (n, t)) as [e|] eqn:El.
  - destruct Hl as [-> He]. apply (lookup_Some c (n, t) e Hc) in El as [Hin _]. apply (entry_get_elem c e Hc) in Hin. split; [done|]. intros k. change (option_list (Some (e_id e)) ++ l) with (e_id e :: l).
    assert (Hg : references_of c' k = references_of (entry_set c (e_id e) (with_reference_count (e_reference_count e + 1))) k) by (unfold references_of, entry_get; by rewrite He).
    rewrite Hg, references_set. specialize (Hr k). destruct (k =? e_id e) eqn:Ek; cbn [andb]; [|by rewrite count_occ_cons_neq by lia].
    apply Z.eqb_eq in Ek as ->. rewrite Hin, bool_decide_eq_true_2, count_occ_cons_eq by done. unfold references_of in Hr. rewrite Hin in Hr. lia.
  - destruct Hl as [-> Hp]. split; [done|]. intros k. change (option_list (Some (next_entry_id c)) ++ l) with (next_entry_id c :: l). specialize (Hr k). unfold references_of in *.
    rewrite (entry_get_linked c c' _ k Hc Hok Hp). cbn [e_id e_reference_count]. destruct (k =? next_entry_id c) eqn:Ek; [|by rewrite count_occ_cons_neq by lia].
    apply Z.eqb_eq in Ek as ->. rewrite entry_get_next in Hr by done. rewrite count_occ_cons_eq by done. cbn [e_reference_count]. lia.
Qed.

(** ** The states of a supervisor *)

(** The references and charges of the completions that were taken. *)
Definition completion_refs (cs : list resolver_supervisor_completion) : list Z := concat ((fun c => option_list (co_entry c)) <$> cs).
Definition completion_charges (cs : list resolver_supervisor_completion) : list Z := concat ((fun c => charge (co_response c)) <$> cs).

(** What a caller can do next, and what can happen meanwhile: a world with the references
    its callers hold and the completions they have taken and not destroyed, and the same
    after one operation of the supervisor or of its cache, or after the kernel and the
    allocator have made up their answers. *)
Inductive supervisor_step : world -> list Z -> list resolver_supervisor_completion -> world -> list Z -> list resolver_supervisor_completion -> Prop :=
  | st_answers w refs cs k : kernel_quiet (w_kernel w) k -> supervisor_step w refs cs (w <| w_kernel := k |>) refs cs
  | st_acquire w refs cs name t alloc c r s : resolver_cache_entry_acquire (w_cache w) name t alloc = Some (c, r, s) ->
      supervisor_step w refs cs (w <| w_cache := c |>) (option_list r ++ refs) cs
  | st_release w l id k cs c : resolver_cache_entry_release (w_cache w) (Some id) = Some c -> supervisor_step w (l ++ id :: k) cs (w <| w_cache := c |>) (l ++ k) cs
  | st_view w refs cs id now c v : id ∈ refs -> valid now -> resolver_cache_entry_view (w_cache w) (Some id) (Some now) = Some (c, v) ->
      supervisor_step w refs cs (w <| w_cache := c |>) refs cs
  | st_schedule w refs cs id now priority status w' : id ∈ refs -> clock now ->
      match priority with
      | RESOLVER_SUPERVISOR_PRIORITY_BACKGROUND => resolver_supervisor_entry_schedule true (Some id) now w
      | RESOLVER_SUPERVISOR_PRIORITY_INTERACTIVE => resolver_supervisor_entry_schedule_interactive true (Some id) now w
      end = Some (status, w') -> supervisor_step w refs cs w' refs cs
  | st_uninterest w refs cs id now priority status w' : id ∈ refs -> clock now ->
      match priority with
      | RESOLVER_SUPERVISOR_PRIORITY_BACKGROUND => resolver_supervisor_entry_background_release true (Some id) now w
      | RESOLVER_SUPERVISOR_PRIORITY_INTERACTIVE => resolver_supervisor_entry_interactive_release true (Some id) now w
      end = Some (status, w') -> supervisor_step w refs cs w' refs cs
  | st_events w refs cs now status w' : clock now -> resolver_supervisor_events_process true now w = Some (status, w') -> supervisor_step w refs cs w' refs cs
  | st_take w refs cs completion r w' : resolver_supervisor_completion_take true completion w = Some (r, w') -> supervisor_step w refs cs w' refs (option_list r ++ cs)
  | st_discard w refs l c k r w' : resolver_supervisor_completion_destroy (Some c) w = Some (r, w') -> supervisor_step w refs (l ++ c :: k) w' refs (l ++ k)
  | st_observe w refs cs result o w' : resolver_supervisor_observation_take true result w = Some (o, w') -> supervisor_step w refs cs w' refs cs
  | st_shutdown w refs cs now b w' : clock now -> resolver_supervisor_shutdown true now w = Some (b, w') -> supervisor_step w refs cs w' refs cs.

(** Any number of such steps, in any order. *)
Inductive proceeds (w : world) (refs : list Z) (cs : list resolver_supervisor_completion) : world -> list Z -> list resolver_supervisor_completion -> Prop :=
  | pr_here : proceeds w refs cs w refs cs
  | pr_step w1 refs1 cs1 w2 refs2 cs2 : proceeds w refs cs w1 refs1 cs1 -> supervisor_step w1 refs1 cs1 w2 refs2 cs2 -> proceeds w refs cs w2 refs2 cs2.

(** The states of a supervisor: what follows its creation in a world without one. *)
Inductive supervised : world -> list Z -> list resolver_supervisor_completion -> Prop :=
  | sv_create w0 refs t w : vacant w0 -> holds (w_cache w0) refs -> tv_sec t < 2 ^ 63 -> resolver_supervisor_create true (Some t) w0 = Some (true, w) -> supervised w refs []
  | sv_step w refs cs w' refs' cs' : supervised w refs cs -> supervisor_step w refs cs w' refs' cs' -> supervised w' refs' cs'.

(** ** The invariant of the states *)

Definition caller_ghost (refs : list Z) (cs : list resolver_supervisor_completion) (phase : bool) : ghost :=
  idle_ghost (completion_refs cs ++ refs) <| g_charges := completion_charges cs |> <| g_phase := phase |>.

Lemma calm_callers refs cs phase : calm (caller_ghost refs cs phase).
Proof. done. Qed.
Lemma inv_perm g w refs charges : inv g w -> g_refs g ≡ₚ refs -> g_charges g ≡ₚ charges -> inv (g <| g_refs := refs |> <| g_charges := charges |>) w.
Proof.
  intros [H1 H2 H3 H4 H5 H6 H7 H8 H9 H10 H11 H12 H13 H14 H15 H16 H17] P1 P2. split; try assumption.
  - cbn. eapply references_perm; [|exact H4]. by rewrite P1.
  - destruct H5 as (b & taken & B1 & B2 & B3 & B4 & B5). exists b, taken. cbn. split; [done|]. split; [done|]. by rewrite B3, P2.
Qed.
Lemma running_perm refs cs refs' cs' phase w : completion_refs cs ++ refs ≡ₚ completion_refs cs' ++ refs' -> completion_charges cs ≡ₚ completion_charges cs' ->
  running (caller_ghost refs cs phase) w -> running (caller_ghost refs' cs' phase) w.
Proof. intros P1 P2 [(q & d & Hi) _ Hp]. split; [|done|done]. exists q, d. exact (inv_perm _ _ _ _ Hi P1 P2). Qed.
Lemma running_cache refs cs refs' phase w c : running (caller_ghost refs cs phase) w ->
  (forall l, holds (w_cache w) (completion_refs cs ++ refs ++ l) -> holds c (completion_refs cs ++ refs' ++ l)) -> running (caller_ghost refs' cs phase) (w <| w_cache := c |>).
Proof.
  intros [(q & d & Hi) _ Hp] Hh. split; [|done|done]. exists q, d. refine (inv_with_cache _ w c (completion_refs cs ++ refs') Hi _). pose proof (i_refs _ _ Hi) as Hr. cbn in Hr.
  rewrite <- app_assoc in *. by apply Hh.
Qed.
Lemma running_answers g w k : running g w -> kernel_quiet (w_kernel w) k -> running g (w <| w_kernel := k |>).
Proof.
  intros [H Hc Hp] Hk. split; [|done|done]. eapply holding_quiet; [|exact H]. exists (s_metrics (w_supervisor w)). split; [cbn; by destruct (w_supervisor w)|]. by split.
Qed.

Lemma callers_ref refs cs phase id : id ∈ refs -> id ∈ g_refs (caller_ghost refs cs phase).
Proof. intros H. cbn. apply elem_of_app. by right. Qed.

Lemma acquire_running refs cs phase w name t alloc c r s : running (caller_ghost refs cs phase) w -> resolver_cache_entry_acquire (w_cache w) name t alloc = Some (c, r, s) ->
  running (caller_ghost (option_list r ++ refs) cs phase) (w <| w_cache := c |>).
Proof.
  intros R Ha. apply (running_cache refs); [done|]. intros l Hl. destruct (holds_acquire _ _ name t alloc Hl) as (c2 & r2 & s2 & Ha2 & H2). rewrite Ha in Ha2. injection Ha2 as <- <- <-.
  eapply references_perm; [|exact H2]. rewrite <- app_assoc. apply Permutation_app_swap_app.
Qed.
Lemma release_running l id k cs phase w c : running (caller_ghost (l ++ id :: k) cs phase) w -> resolver_cache_entry_release (w_cache w) (Some id) = Some c ->
  running (caller_ghost (l ++ k) cs phase) (w <| w_cache := c |>).
Proof.
  intros R Ha. apply (running_cache (l ++ id :: k)); [done|]. intros m Hm. assert (P : completion_refs cs ++ (l ++ id :: k) ++ m ≡ₚ option_list (Some id) ++ completion_refs cs ++ (l ++ k) ++ m).
  { change (option_list (Some id) ++ completion_refs cs ++ (l ++ k) ++ m) with (id :: completion_refs cs ++ (l ++ k) ++ m). rewrite <- !app_assoc. cbn [app]. by rewrite <- !Permutation_middle. }
  apply (references_perm _ _ _ P) in Hm. destruct (holds_release _ _ _ Hm) as (c2 & Hc2 & H2). rewrite Ha in Hc2. by injection Hc2 as <-.
Qed.
Lemma view_running refs cs phase w id now c v : running (caller_ghost refs cs phase) w -> id ∈ refs -> valid now -> resolver_cache_entry_view (w_cache w) (Some id) (Some now) = Some (c, v) ->
  running (caller_ghost refs cs phase) (w <| w_cache := c |>).
Proof.
  intros R Hid Hnow Hv. apply (running_cache refs); [done|]. intros l Hl. destruct (holds_view _ _ id now Hl) as (c2 & v2 & Hv2 & H2); [set_solver|done|]. rewrite Hv in Hv2. by injection Hv2 as <- _.
Qed.

Lemma taken_ghost c refs cs phase w : running (completion_taken_by c (caller_ghost refs cs phase)) w <-> running (caller_ghost refs (c :: cs) phase) w.
Proof.
  assert (E : completion_taken_by c (caller_ghost refs cs phase) = caller_ghost refs (c :: cs) phase).
  { unfold completion_taken_by, caller_ghost, completion_refs, completion_charges. cbn. by rewrite <- app_assoc. }
  by rewrite E.
Qed.
Lemma discard_ghost l c k refs phase w : running (caller_ghost refs (l ++ c :: k) phase) w -> running (completion_taken_by c (caller_ghost refs (l ++ k) phase)) w.
Proof.
  intros R. apply taken_ghost. revert R. unfold completion_refs, completion_charges. apply running_perm; unfold completion_refs, completion_charges; rewrite !fmap_app, !fmap_cons, !fmap_app.
  - cbn [concat]. rewrite !concat_app. cbn [concat]. rewrite <- !app_assoc. by rewrite Permutation_app_swap_app.
  - cbn [concat]. rewrite !concat_app. cbn [concat]. by rewrite Permutation_app_swap_app.
Qed.

(** Every operation, from any such state. *)
Lemma wp_schedule_exported refs cs phase w id now pr : running (caller_ghost refs cs phase) w -> id ∈ refs -> clock now ->
  wp (match pr with
      | RESOLVER_SUPERVISOR_PRIORITY_BACKGROUND => resolver_supervisor_entry_schedule true (Some id) now
      | RESOLVER_SUPERVISOR_PRIORITY_INTERACTIVE => resolver_supervisor_entry_schedule_interactive true (Some id) now
      end) (fun status w' => request_end (caller_ghost refs cs phase) w w' /\ (status = RESOLVER_SUPERVISOR_SCHEDULE_STARTED -> conserved w')) w.
Proof. intros R Hid Hc. destruct pr; apply wp_schedule_recorded; try done; by apply callers_ref. Qed.
Lemma wp_uninterest_exported refs cs phase w id now pr : running (caller_ghost refs cs phase) w -> id ∈ refs -> clock now ->
  wp (match pr with
      | RESOLVER_SUPERVISOR_PRIORITY_BACKGROUND => resolver_supervisor_entry_background_release true (Some id) now
      | RESOLVER_SUPERVISOR_PRIORITY_INTERACTIVE => resolver_supervisor_entry_interactive_release true (Some id) now
      end) (fun status w' => request_end (caller_ghost refs cs phase) w w' /\ (status = RESOLVER_SUPERVISOR_RELEASE_OK -> conserved w')) w.
Proof. intros R Hid Hc. destruct pr; apply wp_entry_release_priority; try done; by apply callers_ref. Qed.

Lemma step_running w refs cs w' refs' cs' ph : supervisor_step w refs cs w' refs' cs' -> running (caller_ghost refs cs ph) w ->
  exists ph', running (caller_ghost refs' cs' ph') w' /\ (ph = true -> ph' = true).
Proof.
  intros Hs IH. assert (Hsame : forall v refs cs, running (caller_ghost refs cs ph) v -> exists ph', running (caller_ghost refs cs ph') v /\ (ph = true -> ph' = true)) by (intros; by exists ph).
  destruct Hs as [w refs cs k Hk|w refs cs name t alloc c r s Ha|w l id k cs c Hr|w refs cs id now c v Hid Hnow Hv|w refs cs id now pr st w' Hid Hc Hs|w refs cs id now pr st w' Hid Hc Hs
    |w refs cs now st w' Hc Hs|w refs cs co r w' Ht|w refs l c k r w' Hd|w refs cs re o w' Ho|w refs cs now b w' Hc Hs].
  - apply Hsame. by apply running_answers.
  - apply Hsame. by eapply acquire_running.
  - apply Hsame. by eapply release_running.
  - apply Hsame. by eapply view_running.
  - apply Hsame. refine (proj1 (proj1 (wp_elim _ _ _ _ _ (wp_schedule_exported refs cs ph w id now pr IH Hid Hc) _))). by destruct pr.
  - apply Hsame. refine (proj1 (proj1 (wp_elim _ _ _ _ _ (wp_uninterest_exported refs cs ph w id now pr IH Hid Hc) _))). by destruct pr.
  - apply Hsame. exact (proj1 (wp_elim _ _ _ _ _ (wp_events_process _ w now IH Hc) Hs)).
  - apply Hsame. pose proof (wp_elim _ _ _ _ _ (wp_completion_take _ w co IH) Ht) as H. destruct r as [c|]; destruct H as [H _]; [|done]. by apply taken_ghost.
  - apply Hsame. apply discard_ghost in IH. exact (proj1 (proj2 (wp_elim _ _ _ _ _ (wp_completion_destroy _ w c IH) Hd))).
  - apply Hsame. exact (proj1 (wp_elim _ _ _ _ _ (wp_observation_take _ w re IH) Ho)).
  - destruct (wp_elim _ _ _ _ _ (wp_shutdown _ w now IH Hc) Hs) as [[H _]|(t & _ & _ & H & _)]; [by apply Hsame|by exists true].
Qed.

Lemma supervised_running w refs cs : supervised w refs cs -> exists phase, running (caller_ghost refs cs phase) w.
Proof.
  induction 1 as [w0 refs t w V Hh Ht Hc|w refs cs w' refs' cs' _ [ph IH] Hs].
  - exists false. pose proof (wp_elim _ _ _ _ _ (wp_create refs w0 true (Some t) V Hh ltac:(by intros x [= <-])) Hc) as [R _]. exact R.
  - destruct (step_running _ _ _ _ _ _ _ Hs IH) as (ph' & R & _). by exists ph'.
Qed.

(** ** Helpers of a supervisor that is shutting down *)

(** Programs that leave the helpers alone. *)
Definition spares {A} (m : prog A) : Prop := forall w a w', m w = Some (a, w') -> helpers_of w' = helpers_of w.

Lemma spares_ret {A} (a : A) : spares (mret a).
Proof. by intros w b w' [= <- <-]. Qed.
Lemma spares_read {A} (f : world -> A) : spares (read f).
Proof. by intros w b w' [= <- <-]. Qed.
Lemma spares_lift {A} (o : option A) : spares (lift o).
Proof. destruct o; [apply spares_ret|]. by intros w b w'. Qed.
Lemma spares_bind {A B} (m : prog A) (f : A -> prog B) : spares m -> (forall a, spares (f a)) -> spares (m ≫= f).
Proof.
  intros Hm Hf w b w' H. unfold mbind, prog_bind in H. destruct (m w) as [[a w1]|] eqn:E; [|done]. rewrite (Hf _ _ _ _ H). by eapply Hm.
Qed.
Lemma spares_modify (f : world -> world) : (forall w, helpers_of (f w) = helpers_of w) -> spares (modify f).
Proof. by intros Hf w b w' [= <- <-]. Qed.
Lemma spares_supervisor (f : resolver_supervisor -> resolver_supervisor) : (forall s, s_helpers (f s) = s_helpers s) -> spares (on_supervisor f).
Proof. intros Hf. apply spares_modify. intros w. apply Hf. Qed.
Lemma spares_job_set p f : spares (job_set p f).
Proof. unfold job_set, job_get, supervisor. apply spares_bind; [apply spares_bind; [apply spares_read|intros s; apply spares_lift]|]. intros j. by apply spares_supervisor. Qed.
Lemma spares_increment c : spares (resolver_supervisor_metrics_increment c).
Proof. unfold resolver_supervisor_metrics_increment, on_metrics. by apply spares_supervisor. Qed.

Ltac spare := repeat first [progress intros | apply spares_bind | apply spares_job_set | apply spares_increment | apply spares_lift | apply spares_read | apply spares_ret
  | apply spares_supervisor; done | apply spares_modify; done | case_match].
Lemma spares_take c : spares (resolver_supervisor_completion_take true c).
Proof.
  unfold resolver_supervisor_completion_take, attempt_increment, resolver_supervisor_metrics_attempt_select, resolver_supervisor_job_completion_remove, resolver_supervisor_job_hash_remove,
    resolver_supervisor_job_bucket, job_get, entry_read, supervisor. spare.
Qed.
Lemma spares_discard c : spares (resolver_supervisor_completion_destroy c).
Proof. unfold resolver_supervisor_completion_destroy, entry_release, result_destroy, with_budget, supervisor. spare. Qed.
Lemma spares_observe b : spares (resolver_supervisor_observation_take true b).
Proof. unfold resolver_supervisor_observation_take, supervisor. spare. Qed.
Lemma spares_record entry pr st : spares (resolver_supervisor_metrics_schedule_record entry pr st).
Proof. unfold resolver_supervisor_metrics_schedule_record, resolver_supervisor_metrics_query_type, entry_read. spare. Qed.

(** While it is shutting down, every step leaves each helper as it is, or stopped. *)
Lemma spares_stops {A} (m : prog A) w a w' : spares m -> m w = Some (a, w') -> forall i, only_stops i w w'.
Proof. intros Hm H i h. rewrite (Hm _ _ _ H). by left. Qed.
Lemma schedule_down id now pr w st w' : s_shutting_down (w_supervisor w) = true -> schedule_recorded true (Some id) now pr w = Some (st, w') -> forall i, only_stops i w w'.
Proof.
  intros Hd. unfold schedule_recorded, resolver_supervisor_entry_schedule_priority, supervisor, read. unfold mbind, prog_bind. rewrite Hd. destruct now; cbn [mret prog_ret when];
    exact (spares_stops (resolver_supervisor_metrics_schedule_record (Some id) pr _ ;; mret _) w st w' ltac:(apply spares_bind; [apply spares_record|intros _; apply spares_ret])).
Qed.
Lemma release_down id now pr w st w' : s_shutting_down (w_supervisor w) = true -> resolver_supervisor_entry_release true (Some id) now pr w = Some (st, w') -> w' = w.
Proof. intros Hd. unfold resolver_supervisor_entry_release, supervisor, read, mbind, prog_bind. rewrite Hd. destruct now; by intros [= <- <-]. Qed.
Lemma shutdown_down now w b w' : s_shutting_down (w_supervisor w) = true -> resolver_supervisor_shutdown true now w = Some (b, w') -> helpers_of w' = helpers_of w.
Proof.
  intros Hd. unfold resolver_supervisor_shutdown, resolver_supervisor_time_update, supervisor, read, mbind, prog_bind. destruct now as [t|]; [|by intros [= <- <-]].
  destruct (_ || _); [by intros [= <- <-]|]. cbn [mret prog_ret on_supervisor modify negb]. change (s_shutting_down (w_supervisor (timed t w)) = true) in Hd. unfold timed in Hd. rewrite Hd. by intros [= <- <-].
Qed.

Lemma step_stops w refs cs w' refs' cs' ph : supervisor_step w refs cs w' refs' cs' -> running (caller_ghost refs cs ph) w -> s_shutting_down (w_supervisor w) = true ->
  forall i, only_stops i w w'.
Proof.
  intros Hs R Hd. assert (Hsame : forall w', helpers_of w' = helpers_of w -> forall i, only_stops i w w') by (intros v Hv i h; rewrite Hv; by left).
  assert (Hph : ph = true) by (destruct R as [_ _ P]; by rewrite Hd in P).
  destruct Hs as [w refs cs k Hk|w refs cs name t alloc c r s Ha|w l id k cs c Hr|w refs cs id now c v Hid Hnow Hv|w refs cs id now pr st w' Hid Hc Hs|w refs cs id now pr st w' Hid Hc Hs
    |w refs cs now st w' Hc Hs|w refs cs co r w' Ht|w refs l c k r w' Hx|w refs cs re o w' Ho|w refs cs now b w' Hc Hs]; try (by apply Hsame).
  - destruct pr; by eapply schedule_down.
  - assert (w' = w) as -> by (destruct pr; by eapply release_down). by apply Hsame.
  - destruct now as [t|]; [|by injection Hs as <- <-; apply Hsame]. subst ph.
    exact (proj1 (wp_elim _ _ _ _ _ (wp_events_stop (caller_ghost refs cs true) ltac:(done) w t R (Hc t eq_refl)) Hs)).
  - apply (spares_stops _ _ _ _ (spares_take _) Ht).
  - apply (spares_stops _ _ _ _ (spares_discard _) Hx).
  - apply (spares_stops _ _ _ _ (spares_observe _) Ho).
  - apply Hsame. by eapply shutdown_down.
Qed.

(** A supervisor that was told to shut down at [t]: each helper has stopped or waits for the
    end of the same grace period. *)
Definition winding_down (t : timespec) (w : world) : Prop := s_shutting_down (w_supervisor w) = true /\ forall i h, helpers_of w !! i = Some h -> stopping t h.

Lemma winding_stops t w w' : winding_down t w -> s_shutting_down (w_supervisor w') = true -> (forall i, only_stops i w w') -> winding_down t w'.
Proof. intros [_ H] Hd Hs. split; [done|]. intros i h Hh. destruct (Hs i h Hh) as [Hx|Hx]; [by apply (H i)|by left]. Qed.

Lemma proceeds_winding t w refs cs w' refs' cs' : proceeds w refs cs w' refs' cs' -> running (caller_ghost refs cs true) w -> winding_down t w ->
  running (caller_ghost refs' cs' true) w' /\ winding_down t w'.
Proof.
  intros H R W. induction H as [|w1 refs1 cs1 w2 refs2 cs2 _ [R1 W1] Hs]; [done|]. destruct (step_running _ _ _ _ _ _ _ Hs R1) as (ph & R2 & Hph). rewrite (Hph eq_refl) in R2.
  split; [done|]. apply (winding_stops t w1); [done|by destruct R2 as [_ _ <-]|]. by eapply step_stops; [exact Hs|exact R1|apply W1].
Qed.
Lemma stays_stopped w refs cs w' refs' cs' : proceeds w refs cs w' refs' cs' -> running (caller_ghost refs cs true) w ->
  (forall i h, helpers_of w !! i = Some h -> h_state h = RESOLVER_SUPERVISOR_HELPER_STOPPED) ->
  s_shutting_down (w_supervisor w') = true /\ forall i h, helpers_of w' !! i = Some h -> h_state h = RESOLVER_SUPERVISOR_HELPER_STOPPED.
Proof.
  intros P R S. assert (H : running (caller_ghost refs' cs' true) w' /\ forall i h, helpers_of w' !! i = Some h -> h_state h = RESOLVER_SUPERVISOR_HELPER_STOPPED).
  { induction P as [|w1 refs1 cs1 w2 refs2 cs2 _ [R1 S1] Hs]; [done|]. destruct (step_running _ _ _ _ _ _ _ Hs R1) as (ph & R2 & Hph). rewrite (Hph eq_refl) in R2.
    split; [done|]. intros i h Hh. destruct (step_stops _ _ _ _ _ _ _ Hs R1 ltac:(by destruct R1 as [_ _ <-]) i h Hh) as [Hx|?]; [by apply (S1 i)|done]. }
  destruct H as [R' S']. split; [by destruct R' as [_ _ <-]|done].
Qed.

(** ** Facts of the states *)

Lemma wp_returns {A} (m : prog A) (Q : A -> world -> Prop) w : wp m Q w -> exists a w', m w = Some (a, w') /\ Q a w'.
Proof. unfold wp. destruct (m w) as [[a w']|]; [|done]. intros H. by exists a, w'. Qed.
Lemma wp_returns_some {A} (m : prog A) (Q : A -> world -> Prop) w : wp m Q w -> is_Some (m w).
Proof. intros H. destruct (wp_returns _ _ _ H) as (a & w' & -> & _). by eexists. Qed.

Definition queued_at (pr : resolver_supervisor_priority) (kv : Z * job) : Prop := j_state kv.2 = RESOLVER_SUPERVISOR_JOB_QUEUED /\ j_priority kv.2 = pr.
#[export] Instance queued_at_dec pr kv : Decision (queued_at pr kv).
Proof. unfold queued_at. apply _. Defined.

Lemma queue_count_exact g w pr : inv g w -> g_hand g = None ->
  qu_count (resolver_supervisor_job_queue_select (w_supervisor w) pr) = Z.of_nat (size (filter (queued_at pr) (jobs_of w))).
Proof.
  intros Hi Hh. pose proof (i_queues _ _ Hi) as Hq. rewrite (qo_count _ _ _ _ Hq). f_equal. rewrite <- length_map_to_list, <- (length_fmap fst). apply Permutation_length, NoDup_Permutation.
  - apply (dll_nodup _ _ _ _ (qo_dll _ _ _ _ Hq pr)).
  - apply NoDup_fst_map_to_list.
  - intros p. rewrite list_elem_of_fmap. split.
    + intros Hin. destruct (queue_elem_job _ _ _ _ pr p Hq Hin) as [j Hj]. exists (p, j). split; [done|]. apply elem_of_map_to_list, map_lookup_filter_Some. split; [done|].
      by apply (qo_place _ _ _ _ Hq p j Hj ltac:(by rewrite Hh)).
    + intros ([q j] & -> & Hin). apply elem_of_map_to_list, map_lookup_filter_Some in Hin as [Hj Hs]. by apply (qo_place _ _ _ _ Hq q j Hj ltac:(by rewrite Hh)).
Qed.

(** ** Properties *)

(** C5: whatever its callers ask for in whatever order, whatever the kernel, the allocator
    and the helpers answer, no operation of the supervisor makes a memory error and every
    one of its loops ends: from every reachable state, scheduling and releasing an entry
    that is referenced, processing events, taking and destroying completions, taking
    observations, reading the metrics, shutting down and destroying all return. *)
Theorem supervisor_never_faults w refs cs : supervised w refs cs ->
  (forall now, clock now -> is_Some (resolver_supervisor_events_process true now w) /\ is_Some (resolver_supervisor_shutdown true now w) /\
     forall id, id ∈ refs ->
       is_Some (resolver_supervisor_entry_schedule true (Some id) now w) /\ is_Some (resolver_supervisor_entry_schedule_interactive true (Some id) now w) /\
       is_Some (resolver_supervisor_entry_background_release true (Some id) now w) /\ is_Some (resolver_supervisor_entry_interactive_release true (Some id) now w)) /\
  (forall completion, is_Some (resolver_supervisor_completion_take true completion w)) /\
  (forall c, c ∈ cs -> is_Some (resolver_supervisor_completion_destroy (Some c) w)) /\
  (forall result, is_Some (resolver_supervisor_observation_take true result w) /\ is_Some (resolver_supervisor_metrics_get true result w)) /\
  is_Some (resolver_supervisor_destroy true w) /\ is_Some (resolver_supervisor_dispose_in_child true w).
Proof.
  intros H. destruct (supervised_running _ _ _ H) as [ph R]. split; [|split; [|split; [|split; [|split]]]].
  - intros now Hc. split; [eapply wp_returns_some, wp_events_process; [exact R|done]|]. split; [eapply wp_returns_some, wp_shutdown; [exact R|done]|].
    intros id Hid. pose proof (fun pr => wp_returns_some _ _ _ (wp_schedule_exported _ _ _ _ id now pr R Hid Hc)) as S. pose proof (fun pr => wp_returns_some _ _ _ (wp_uninterest_exported _ _ _ _ id now pr R Hid Hc)) as U.
    split; [exact (S RESOLVER_SUPERVISOR_PRIORITY_BACKGROUND)|]. split; [exact (S RESOLVER_SUPERVISOR_PRIORITY_INTERACTIVE)|].
    split; [exact (U RESOLVER_SUPERVISOR_PRIORITY_BACKGROUND)|exact (U RESOLVER_SUPERVISOR_PRIORITY_INTERACTIVE)].
  - intros completion. eapply wp_returns_some, wp_completion_take, R.
  - intros c Hc. apply list_elem_of_split in Hc as (l & k & ->). eapply wp_returns_some, wp_completion_destroy. exact (discard_ghost _ _ _ _ _ _ R).
  - intros result. split; [eapply wp_returns_some, wp_observation_take, R|eapply wp_returns_some, wp_metrics_get, R].
  - eapply wp_returns_some, wp_resources_destroy, R.
  - eapply wp_returns_some, wp_resources_destroy, R.
Qed.

(** C8: the jobs are consistent in every reachable state: they are counted and at most 4096;
    each has a live cache entry of its own; the count of each queue is the number of the
    jobs queued at its priority; a job is being sent or dispatched exactly while one helper
    has it, which is then sending or busy; a job that is not complete has no interest
    exactly if it is an orphan, which only a dispatched job is, and is interactive exactly
    if it has an interactive interest. *)
Theorem supervisor_jobs_consistent w refs cs : supervised w refs cs ->
  s_job_count (w_supervisor w) = Z.of_nat (size (jobs_of w)) /\ s_job_count (w_supervisor w) <= RESOLVER_SUPERVISOR_JOB_LIMIT /\
  (forall p j, jobs_of w !! p = Some j -> exists id e, j_entry j = Some id /\ entry_get (w_cache w) id = Some e /\
     forall q k, jobs_of w !! q = Some k -> j_entry k = Some id -> q = p) /\
  (forall pr, qu_count (resolver_supervisor_job_queue_select (w_supervisor w) pr) = Z.of_nat (size (filter (queued_at pr) (jobs_of w)))) /\
  (forall p j, jobs_of w !! p = Some j -> with_helper (j_state j) = true -> exists i h, helpers_of w !! i = Some h /\ h_job h = Some p /\ j_slot_index j = Z.of_nat i) /\
  (forall i h p, helpers_of w !! i = Some h -> h_job h = Some p -> exists j, jobs_of w !! p = Some j /\ j_slot_index j = Z.of_nat i /\
     ((h_state h = RESOLVER_SUPERVISOR_HELPER_SENDING /\ j_state j = RESOLVER_SUPERVISOR_JOB_SENDING) \/
      (h_state h = RESOLVER_SUPERVISOR_HELPER_BUSY /\ j_state j = RESOLVER_SUPERVISOR_JOB_DISPATCHED))) /\
  (forall p j, jobs_of w !! p = Some j -> j_state j <> RESOLVER_SUPERVISOR_JOB_COMPLETE ->
     (j_orphaned j = true <-> j_background_interest_count j = 0 /\ j_interactive_interest_count j = 0) /\
     (j_orphaned j = true -> j_state j = RESOLVER_SUPERVISOR_JOB_DISPATCHED) /\
     (j_priority j = RESOLVER_SUPERVISOR_PRIORITY_INTERACTIVE <-> 0 < j_interactive_interest_count j)).
Proof.
  intros H. destruct (supervised_running _ _ _ H) as [ph [(q & d & Hi) Hc _]]. pose proof (calm_lists _ q d Hc) as Hc0. split; [apply (i_count _ _ Hi)|]. split; [apply (i_count _ _ Hi)|].
  split; [|split; [intros pr; by eapply queue_count_exact|split; [|split]]].
  - intros p j Hj. destruct (inv_entry _ _ _ _ Hi Hj) as (id & e & Hid & He). exists id, e. split; [done|]. split; [done|]. intros p' k Hk Hke.
    eapply (th_unique _ _ (i_table _ _ Hi)); rewrite lookup_fmap; [rewrite Hk|rewrite Hj]; cbn; by f_equal.
  - intros p j Hj Hw. destruct (ho_jobs _ _ _ _ _ (i_helpers _ _ Hi) p j Hj ltac:(done) Hw) as (i & h & A1 & _ & A2 & A3). by exists i, h.
  - intros i h p Hh Hp. destruct (take_at_work _ _ _ _ _ Hi Hc0 Hh Hp) as (j & Hw & _ & _ & Hs & _ & Hst). exists j. split; [apply Hw|]. by split.
  - intros p j Hj Hs. destruct (i_interests _ _ Hi p j Hj) as [_ S]. specialize (S ltac:(done)). unfold settled in S. rewrite bool_decide_eq_false_2 in S by done. tauto.
Qed.

(** The references the jobs have. *)
Definition supervisor_refs (w : world) : list Z := job_refs (entries_of w).

(** C6: the supervisor owns exactly what its state shows, in every reachable state: the
    reference count of every cache entry is the number of the references of the callers,
    of the completions that were taken and of the jobs; the open descriptors are the
    epoll and timer descriptors and those of the helpers, each once; and the reply
    assemblies that are alive are those of the jobs at helpers. *)
Theorem supervisor_resources_exact w refs cs : supervised w refs cs ->
  (forall id, references_of (w_cache w) id = Z.of_nat (count_occ Z.eq_dec (completion_refs cs ++ refs ++ supervisor_refs w) id)) /\
  NoDup (s_epoll_fd (w_supervisor w) :: s_timer_fd (w_supervisor w) :: helper_fds (helpers_of w)) /\
  k_open (w_kernel w) = list_to_set (s_epoll_fd (w_supervisor w) :: s_timer_fd (w_supervisor w) :: helper_fds (helpers_of w)) /\
  (exists b, s_assembly_budget (w_supervisor w) = Some b /\ bu_owned_bytes b <= RESOLVER_REPLY_ASSEMBLY_BYTE_LIMIT /\
     forall handle, handle ∈ handles_of b <-> exists p j, jobs_of w !! p = Some j /\ j_assembly j = Some handle) /\
  (forall p j, jobs_of w !! p = Some j -> is_Some (j_assembly j) <-> with_helper (j_state j) = true).
Proof.
  intros H. destruct (supervised_running _ _ _ H) as [ph [(q & d & Hi) Hc _]]. split; [|split; [|split; [|split]]].
  - intros id. destruct (i_refs _ _ Hi) as [_ Hr]. rewrite Hr. cbn. by rewrite <- app_assoc.
  - apply (i_descriptors _ _ Hi).
  - apply (i_descriptors _ _ Hi).
  - destruct (i_budget _ _ Hi) as (b & taken & B1 & B2 & _ & B4 & _). exists b. split; [done|]. split; [apply (bo_limit _ _ B2)|]. intros handle. unfold handles_of. rewrite B4. cbn.
    unfold job_handles. rewrite list_elem_of_omap. split.
    + intros ([p [o r]] & Hin & Ho). apply elem_of_map_to_list in Hin. rewrite lookup_fmap in Hin. destruct (jobs_of w !! p) as [j|] eqn:Ej; [|done]. injection Hin as <- _. by exists p, j.
    + intros (p & j & Hj & Ha). exists (p, (j_assembly j, j_response j)). split; [|done]. apply elem_of_map_to_list. by rewrite lookup_fmap, Hj.
  - intros p j Hj. by apply (ho_assembly _ _ _ _ _ (i_helpers _ _ Hi) p j Hj).
Qed.

(** C7: nothing is leaked: creating a supervisor returns whatever fails on the way, and when
    it fails no descriptor stays open and every reference is still as it was; destroying a
    supervisor in any reachable state closes every descriptor and gives back the
    references of its jobs, so that those of the callers and of the completions they took
    are left. *)
Theorem supervisor_leaks_nothing :
  (forall w0 refs mask now, vacant w0 -> holds (w_cache w0) refs -> clock now -> exists created w, resolver_supervisor_create mask now w0 = Some (created, w) /\
     (created = false -> k_open (w_kernel w) = ∅ /\ forall id, references_of (w_cache w) id = Z.of_nat (count_occ Z.eq_dec refs id))) /\
  (forall w refs cs, supervised w refs cs -> exists w', resolver_supervisor_destroy true w = Some ((), w') /\
     k_open (w_kernel w') = ∅ /\ forall id, references_of (w_cache w') id = Z.of_nat (count_occ Z.eq_dec (completion_refs cs ++ refs) id)).
Proof.
  split.
  - intros w0 refs mask now V Hh Hc. destruct (wp_returns _ _ _ (wp_create refs w0 mask now V Hh Hc)) as (b & w & Hw & Hb). exists b, w. split; [done|]. intros ->.
    destruct Hb as [A [_ B]]. by split.
  - intros w refs cs H. destruct (supervised_running _ _ _ H) as [ph R]. destruct (wp_returns _ _ _ (wp_resources_destroy _ w true R)) as ([] & w' & Hw & (_ & A & _) & [_ B]).
    exists w'. split; [done|]. split; [done|]. exact B.
Qed.

(** C9: dispatch is work conserving: after a turn of events, after a job was started and
    after an interest was released, no helper is idle while a job is queued. *)
Theorem supervisor_work_conserving w refs cs now : supervised w refs cs -> clock now ->
  (forall w', resolver_supervisor_events_process true now w = Some (RESOLVER_SUPERVISOR_EVENT_OK, w') -> conserved w') /\
  (forall id w', id ∈ refs ->
     resolver_supervisor_entry_schedule true (Some id) now w = Some (RESOLVER_SUPERVISOR_SCHEDULE_STARTED, w') \/
     resolver_supervisor_entry_schedule_interactive true (Some id) now w = Some (RESOLVER_SUPERVISOR_SCHEDULE_STARTED, w') \/
     resolver_supervisor_entry_background_release true (Some id) now w = Some (RESOLVER_SUPERVISOR_RELEASE_OK, w') \/
     resolver_supervisor_entry_interactive_release true (Some id) now w = Some (RESOLVER_SUPERVISOR_RELEASE_OK, w') -> conserved w').
Proof.
  intros H Hc. destruct (supervised_running _ _ _ H) as [ph R]. split.
  - intros w' Hw. by apply (wp_elim _ _ _ _ _ (wp_events_process _ w now R Hc) Hw).
  - intros id w' Hid [Hw|[Hw|[Hw|Hw]]].
    + by apply (wp_elim _ _ _ _ _ (wp_schedule_exported _ _ _ _ id now RESOLVER_SUPERVISOR_PRIORITY_BACKGROUND R Hid Hc) Hw).
    + by apply (wp_elim _ _ _ _ _ (wp_schedule_exported _ _ _ _ id now RESOLVER_SUPERVISOR_PRIORITY_INTERACTIVE R Hid Hc) Hw).
    + by apply (wp_elim _ _ _ _ _ (wp_uninterest_exported _ _ _ _ id now RESOLVER_SUPERVISOR_PRIORITY_BACKGROUND R Hid Hc) Hw).
    + by apply (wp_elim _ _ _ _ _ (wp_uninterest_exported _ _ _ _ id now RESOLVER_SUPERVISOR_PRIORITY_INTERACTIVE R Hid Hc) Hw).
Qed.

Lemma grace_over t now : valid t -> valid now -> ns t + RESOLVER_SUPERVISOR_SHUTDOWN_GRACE_MS * 1000000 <= ns now ->
  (0 <=? timeutil_compare now (default t (timeutil_add_milliseconds (Some t) RESOLVER_SUPERVISOR_SHUTDOWN_GRACE_MS))) = true.
Proof.
  intros Ht Hn Hg. pose proof (grace_valid t Ht) as Hv. destruct (timeutil_exact t t RESOLVER_SUPERVISOR_SHUTDOWN_GRACE_MS Ht Ht ltac:(done)) as (_ & Ha & _).
  rewrite timeutil_compare_ns by done. unfold RESOLVER_SUPERVISOR_SHUTDOWN_GRACE_MS in *. apply Z.leb_le.
  enough (Hle : ns (default t (timeutil_add_milliseconds (Some t) 1000)) <= ns now) by (revert Hle; destruct (Z.compare_spec (ns now) (ns (default t (timeutil_add_milliseconds (Some t) 1000)))); lia).
  destruct (timeutil_add_milliseconds (Some t) 1000) as [x|]; simpl default; [destruct Ha|]; lia.
Qed.

Lemma all_stopped w : s_shutting_down (w_supervisor w) = true -> (forall i h, helpers_of w !! i = Some h -> h_state h = RESOLVER_SUPERVISOR_HELPER_STOPPED) ->
  resolver_supervisor_shutdown_complete (Some (w_supervisor w)) = true.
Proof.
  intros Hd H. cbn [resolver_supervisor_shutdown_complete]. rewrite Hd. cbn [andb]. apply forallb_forall. intros h Hin. apply list_elem_of_In, list_elem_of_lookup in Hin as [i Hi].
  apply bool_decide_eq_true. by apply (H i).
Qed.
Lemma winding_over g t w now w' : running g w -> g_phase g = true -> winding_down t w -> valid t -> tv_sec now < 2 ^ 63 -> ns t + RESOLVER_SUPERVISOR_SHUTDOWN_GRACE_MS * 1000000 <= ns now ->
  resolver_supervisor_events_process true (Some now) w = Some (RESOLVER_SUPERVISOR_EVENT_OK, w') ->
  forall i h, helpers_of w' !! i = Some h -> h_state h = RESOLVER_SUPERVISOR_HELPER_STOPPED.
Proof.
  intros R Hg [_ W] Ht Hn Hns He i h Hh. destruct (wp_elim _ _ _ _ _ (wp_events_stop g Hg w now R Hn) He) as [_ Ho]. destruct (Ho eq_refl) as [Hv Hx].
  destruct (Hx i h Hh) as [?|[Hy Hz]]; [done|]. destruct (W i h Hy) as [?|[_ E]]; [done|]. by rewrite E, grace_over in Hz.
Qed.

(** C10: a supervisor that is told to shut down does.  The shutdown destroys its jobs.  Whatever
    is done after it, by callers, helpers and kernel, for however many turns of events: a turn
    of events that succeeds once the grace period of a second is over leaves every helper
    stopped, and from then on they remain so. *)
Theorem supervisor_stops w refs cs t w1 : supervised w refs cs -> s_shutting_down (w_supervisor w) = false -> tv_sec t < 2 ^ 63 ->
  resolver_supervisor_shutdown true (Some t) w = Some (true, w1) ->
  jobs_of w1 = ∅ /\
  forall w2 refs2 cs2 now w3, proceeds w1 refs cs w2 refs2 cs2 -> tv_sec now < 2 ^ 63 -> ns t + RESOLVER_SUPERVISOR_SHUTDOWN_GRACE_MS * 1000000 <= ns now ->
    resolver_supervisor_events_process true (Some now) w2 = Some (RESOLVER_SUPERVISOR_EVENT_OK, w3) ->
    forall w4 refs4 cs4, proceeds w3 refs2 cs2 w4 refs4 cs4 -> resolver_supervisor_shutdown_complete (Some (w_supervisor w4)) = true.
Proof.
  intros H Hd Ht Hs. destruct (supervised_running _ _ _ H) as [ph R].
  destruct (wp_elim _ _ _ _ _ (wp_shutdown _ w (Some t) R ltac:(by intros x [= <-])) Hs) as [(_ & _ & X)|(t' & [= <-] & Hvt & R1 & D1 & J1 & S1)]; [by rewrite X in Hd|].
  split; [done|]. intros w2 refs2 cs2 now w3 P Hn Hg He w4 refs4 cs4 P4. destruct (proceeds_winding t _ _ _ _ _ _ P R1 (conj D1 S1)) as [R2 W2].
  pose proof (winding_over _ t w2 now w3 R2 ltac:(done) W2 Hvt Hn Hg He) as S3.
  assert (Hc : clock (Some now)) by (by intros x [= <-]). destruct (wp_elim _ _ _ _ _ (wp_events_process _ w2 (Some now) R2 Hc) He) as (R3 & _).
  assert (D3 : s_shutting_down (w_supervisor w3) = true) by (by destruct R3 as [_ _ <-]).
  destruct (stays_stopped _ _ _ _ _ _ P4 R3 S3) as [D4 S4]. by apply all_stopped.
Qed.

(** ** A sample session *)

Definition sample_second (sec : Z) : timespec := {| tv_sec := sec; tv_nsec := 5 |}.
(** A kernel that starts four helper processes and lets every call succeed. *)
Definition sample_kernel : kernel := {|
  k_allocs := []; k_starts := [Some 101; Some 102; Some 103; Some 104]; k_epoll_ctls := []; k_epoll_waits := []; k_sends := []; k_recvs := []; k_peeks := []; k_waits := []; k_kills := [];
  k_settimes := []; k_timer_reads := []; k_next := 5; k_open := ∅; k_registered := ∅; k_timer := None; k_effects := [] |}.
Definition sample_begin (c : resolver_cache) : world := {| w_supervisor := supervisor_zero; w_cache := c; w_kernel := sample_kernel |}.

(** A supervisor is created, a caller acquires an entry and schedules its lookup, the
    supervisor is told to shut down, processes its events at once, when its helpers have
    not stopped yet, and again two seconds later. *)
Definition sample_session (start : option resolver_cache) : bool :=
  match start with
  | None => false
  | Some c0 =>
      match resolver_supervisor_create true (Some (sample_second 1)) (sample_begin c0) with
      | Some (true, w0) =>
          match resolver_cache_entry_acquire (w_cache w0) (Some [80; 108; 97; 121; 46; 69; 46]) ns_t_a true with
          | Some (c, Some id, _) =>
              match resolver_supervisor_entry_schedule_interactive true (Some id) (Some (sample_second 2)) (w0 <| w_cache := c |>) with
              | Some (RESOLVER_SUPERVISOR_SCHEDULE_STARTED, w) =>
                  negb (s_shutting_down (w_supervisor w)) && (s_job_count (w_supervisor w) =? 1) &&
                  match resolver_supervisor_shutdown true (Some (sample_second 3)) w with
                  | Some (true, w1) =>
                      match resolver_supervisor_events_process true (Some (sample_second 3)) w1 with
                      | Some (RESOLVER_SUPERVISOR_EVENT_OK, w2) =>
                          negb (resolver_supervisor_shutdown_complete (Some (w_supervisor w2))) &&
                          match resolver_supervisor_events_process true (Some (sample_second 5)) w2 with
                          | Some (RESOLVER_SUPERVISOR_EVENT_OK, _) => true
                          | _ => false
                          end
                      | _ => false
                      end
                  | _ => false
                  end
              | _ => false
              end
          | _ => false
          end
      | _ => false
      end
  end.

Lemma created_empty c id : resolver_cache_create true true = Some c -> entry_get c id = None.
Proof.
  intros H. destruct (entry_get c id) as [e|] eqn:E; [|done]. apply entry_get_Some in E as [E _]. pose proof (f_equal (fmap entries) H) as H'. cbn [fmap option_fmap option_map] in H'.
  assert (X : entries <$> resolver_cache_create true true = Some []) by (vm_compute; reflexivity). rewrite X in H'. injection H' as H'. rewrite <- H' in E. inversion E.
Qed.
Lemma created_holds c : resolver_cache_create true true = Some c -> holds c [].
Proof.
  intros H. split; [by apply Cache.create_ok|]. intros id. unfold references_of. by rewrite (created_empty _ _ H).
Qed.
Lemma sample_clock n : n < 2 ^ 63 -> clock (Some (sample_second n)).
Proof. by intros H x [= <-]. Qed.

Lemma sample_vacant c : vacant (sample_begin c).
Proof. split; [done|done|]. split; [by constructor|]. by repeat constructor. Qed.

Lemma sample_supervised : exists w id w1 w2 w3, supervised w [id] [] /\ s_shutting_down (w_supervisor w) = false /\ s_job_count (w_supervisor w) = 1 /\
  resolver_supervisor_shutdown true (Some (sample_second 3)) w = Some (true, w1) /\
  resolver_supervisor_events_process true (Some (sample_second 3)) w1 = Some (RESOLVER_SUPERVISOR_EVENT_OK, w2) /\ resolver_supervisor_shutdown_complete (Some (w_supervisor w2)) = false /\
  resolver_supervisor_events_process true (Some (sample_second 5)) w2 = Some (RESOLVER_SUPERVISOR_EVENT_OK, w3).
Proof.
  assert (H : sample_session (resolver_cache_create true true) = true) by (vm_compute; reflexivity). revert H. generalize (@eq_refl _ (resolver_cache_create true true)).
  generalize (resolver_cache_create true true) at 1 3 as start. unfold sample_session. intros start E0 H. destruct start as [c0|]; [symmetry in E0|discriminate H].
  destruct (resolver_supervisor_create _ _ _) as [[[] w0]|] eqn:E1; try discriminate H.
  destruct (resolver_cache_entry_acquire _ _ _ _) as [[[c [id|]] s]|] eqn:E2; try discriminate H.
  destruct (resolver_supervisor_entry_schedule_interactive _ _ _ _) as [[[] w]|] eqn:E3; try discriminate H.
  apply andb_true_iff in H as [Hw H]. apply andb_true_iff in Hw as [Hd Hj].
  destruct (resolver_supervisor_shutdown _ _ _) as [[[] w1]|] eqn:E4; try discriminate H.
  destruct (resolver_supervisor_events_process _ _ w1) as [[[] w2]|] eqn:E5; try discriminate H. apply andb_true_iff in H as [H2 H].
  destruct (resolver_supervisor_events_process _ _ w2) as [[[] w3]|] eqn:E6; try discriminate H.
  exists w, id, w1, w2, w3. split; [|split; [exact (proj1 (negb_true_iff _) Hd)|split; [exact (proj1 (Z.eqb_eq _ _) Hj)|exact (conj E4 (conj E5 (conj (proj1 (negb_true_iff _) H2) E6)))]]].
  refine (sv_step (w0 <| w_cache := c |>) [id] [] w [id] [] _ (st_schedule (w0 <| w_cache := c |>) [id] [] id (Some (sample_second 2)) RESOLVER_SUPERVISOR_PRIORITY_INTERACTIVE _ w (list_elem_of_here _ _) (sample_clock 2 eq_refl) E3)).
  refine (sv_step w0 [] [] _ _ _ _ (st_acquire w0 [] [] _ _ _ c (Some id) s E2)).
  refine (sv_create (sample_begin c0) [] (sample_second 1) w0 (sample_vacant c0) (created_holds _ E0) eq_refl E1).
Qed.

Lemma supervisor_never_faults_witness : exists w id, supervised w [id] [] /\ is_Some (resolver_supervisor_entry_interactive_release true (Some id) (Some (sample_second 3)) w).
Proof.
  destruct sample_supervised as (w & id & _ & _ & _ & H & _). exists w, id. split; [exact H|].
  apply (proj2 (proj2 (proj2 (proj2 (proj2 (proj1 (supervisor_never_faults w [id] [] H) (Some (sample_second 3)) (sample_clock 3 eq_refl))) id (list_elem_of_here _ _))))).
Defined.
Lemma supervisor_jobs_consistent_witness : exists w id, supervised w [id] [] /\ s_job_count (w_supervisor w) = 1 /\ s_job_count (w_supervisor w) = Z.of_nat (size (jobs_of w)).
Proof.
  destruct sample_supervised as (w & id & _ & _ & _ & H & _ & Hj & _). exists w, id. split; [exact H|]. split; [exact Hj|]. exact (proj1 (supervisor_jobs_consistent w [id] [] H)).
Defined.
Lemma supervisor_resources_exact_witness : exists w id, supervised w [id] [] /\
  forall i, references_of (w_cache w) i = Z.of_nat (count_occ Z.eq_dec (completion_refs [] ++ [id] ++ supervisor_refs w) i).
Proof.
  destruct sample_supervised as (w & id & _ & _ & _ & H & _). exists w, id. split; [exact H|]. exact (proj1 (supervisor_resources_exact w [id] [] H)).
Defined.
Lemma supervisor_leaks_nothing_witness : exists w id w', supervised w [id] [] /\ resolver_supervisor_destroy true w = Some ((), w') /\ k_open (w_kernel w') = ∅.
Proof.
  destruct sample_supervised as (w & id & _ & _ & _ & H & _). destruct (proj2 supervisor_leaks_nothing w [id] [] H) as (w' & Hw & Ho & _). exists w, id, w'. split; [exact H|]. split; [exact Hw|exact Ho].
Defined.
Lemma supervisor_work_conserving_witness : exists w id, supervised w [id] [] /\
  forall w', resolver_supervisor_events_process true (Some (sample_second 3)) w = Some (RESOLVER_SUPERVISOR_EVENT_OK, w') -> conserved w'.
Proof.
  destruct sample_supervised as (w & id & _ & _ & _ & H & _). exists w, id. split; [exact H|]. exact (proj1 (supervisor_work_conserving w [id] [] (Some (sample_second 3)) H (sample_clock 3 eq_refl))).
Defined.
Lemma supervisor_stops_witness : exists w id w1 w2 w3, supervised w [id] [] /\ s_job_count (w_supervisor w) = 1 /\
  resolver_supervisor_shutdown true (Some (sample_second 3)) w = Some (true, w1) /\
  resolver_supervisor_events_process true (Some (sample_second 3)) w1 = Some (RESOLVER_SUPERVISOR_EVENT_OK, w2) /\ resolver_supervisor_shutdown_complete (Some (w_supervisor w2)) = false /\
  resolver_supervisor_events_process true (Some (sample_second 5)) w2 = Some (RESOLVER_SUPERVISOR_EVENT_OK, w3) /\ resolver_supervisor_shutdown_complete (Some (w_supervisor w3)) = true.
Proof.
  destruct sample_supervised as (w & id & w1 & w2 & w3 & H & Hd & Hj & H1 & H2 & Hc & H3). exists w, id, w1, w2, w3. do 6 (split; [assumption|]).
  exact (proj2 (supervisor_stops w [id] [] (sample_second 3) w1 H Hd eq_refl H1) w2 [id] [] (sample_second 5) w3
    (pr_step _ _ _ w1 [id] [] w2 [id] [] (pr_here _ _ _) (st_events w1 [id] [] (Some (sample_second 3)) _ w2 (sample_clock 3 eq_refl) H2)) eq_refl ltac:(vm_compute; discriminate) H3 w3 [id] [] (pr_here _ _ _)).
Defined.
